(* ===== verification/_CoqProject ===== *)
-Q . S2P
Prelude.v
GoLib.v
Paths.v
Vector.v
FileInfo.v
FileInfoWire.v
FileInfoProps.v
Limits.v
DeviceID.v
EncryptedNames.v
PullQueue.v
PullQueueProps.v
GlobalState.v
GlobalStateProps.v
PullState.v
PullJob.v
PullJobProps.v
PullJobTheorems.v
Disk.v
PullItems.v
PullActions.v
PullNeeded.v
PullSafety.v
PullNeededProps.v
Downloads.v
DownloadsProps.v
Connection.v
ConnectionProps.v
Encryption.v
EncryptionProps.v
FolderStore.v
FolderStoreProps.v
IndexHandler.v
IndexHandlerProps.v
IndexExchange.v
IndexRegistry.v
RollingHash.v
RsyncSignature.v
RsyncEngine.v
RsyncProofs.v
RsyncWire.v
RsyncProps.v
ScanBlocks.v
ScanCache.v
ScanWalk.v
ScanItemProps.v
ScanWalkProps.v
ScanSafety.v
FolderScan.v
FolderScanProps.v
FolderScanSafety.v
FolderScanTypes.v
FolderScanCovers.v
ScanAccepted.v
Ignore.v
IgnoreGlob.v
IgnoreIncludes.v
IgnoreProps.v
ModelRequest.v
ModelRequestProps.v
Config.v
ConfigProps.v
ConfigWrapper.v
ConfigWrapperProps.v
ClusterConfigs.v
ClusterConfigsProps.v
IntroducerProps.v
ModelState.v
ModelStateProps.v
Observed.v
ObservedProps.v
ModelCluster.v
ModelClusterProps.v
ModelFolders.v
ModelFoldersProps.v
