(* ===== verification/Prelude.v ===== *)
(** * Syncthing: a verification library

    Syncthing keeps folders of several devices in sync.  This library models the
    parts of the program that decide what is synchronised and that touch the
    user's files, and proves what makes them correct.  Paths are relative to the
    repository's [src/].

    ** The program and its parts

    A device _scans_ a folder and records its files, with their blocks and a
    version vector, in the folder's database.  The database also holds the files
    of every other device and decides which version of each file is the _global_
    one.  Devices send each other their files in _index_ messages.  What is
    needed is _pulled_: files are assembled from blocks found on this device or
    requested from others, in a temporary file that then replaces the old one;
    directories, symlinks, renames and deletions are applied directly.  While a
    file is being assembled, devices tell each other which blocks they have.
    Package [lib/rsync] computes and applies deltas between two versions of a
    file.

    ** The files, and what they model

    - [Prelude], [GoLib]: outcomes of Go functions (value, error, panic, out of
      fuel), a state monad, integers of a width, bytes; the parts of Go's standard
      library that the program uses (splitting, decimal, hexadecimal, big endian,
      varints, readers).  [GoLib] models no code of the repository.
    - [Paths]: [path/filepath] on Unix, lib/fs (filesystem.go, util.go,
      tempname.go, [rooted] of basicfs.go), [checkFilename] of
      lib/protocol/protocol.go, the names of conflict copies.
    - [Vector]: lib/protocol/vector.go and the [dbVector] of
      internal/db/sqlite/util.go.
    - [FileInfo], [FileInfoWire], [FileInfoProps]: lib/protocol/bep_fileinfo.go.
    - [DeviceID]: lib/protocol/deviceid.go, luhn.go.
    - [EncryptedNames], [Encryption], [EncryptionProps]: lib/protocol/encryption.go.
      Ciphers, key derivation and the LRU caches are parameters with laws.
    - [PullQueue], [PullQueueProps]: lib/model/queue.go, blockpullreorderer.go,
      deviceactivity.go, fileinfobatch.go.
    - [GlobalState], [GlobalStateProps]: internal/db/sqlite/folderdb_update.go,
      folderdb_ancestor.go and the reads of folderdb_global.go.  A table is a list
      of rows or a finite map, an SQL statement the function it computes.
    - [FolderStore], [FolderStoreProps]: folderdb_local.go, folderdb_indexid.go
      over the state of [GlobalState].
    - [IndexHandler], [IndexHandlerProps], [IndexExchange], [IndexRegistry]:
      lib/model/indexhandler.go, lib/protocol/bep_index_updates.go.  [IndexExchange]
      is a transition system of two devices and the messages between them.
    - [Downloads], [DownloadsProps]: lib/protocol/bep_download_progress.go and
      lib/model/devicedownloadstate.go, sentdownloadstate.go, progressemitter.go.
    - [PullState]: lib/model/sharedpullerstate.go and [inWritableDir] of util.go,
      over a file system with laws ([Filesystem], [FilesystemLaws]).
    - [PullJob], [PullJobProps], [PullJobTheorems]: the copier, puller and finisher
      routines of lib/model/folder_sendrecv.go as programs whose atomic steps a
      scheduler interleaves.
    - [Disk], [PullItems], [PullActions], [PullNeeded]: the rest of
      folder_sendrecv.go that acts on the disk, with lib/osutil and
      [CreateFileInfo] of lib/scanner/walk.go, as programs of a free monad whose
      calls may answer anything.  [PullSafety] and [PullNeededProps] have the
      theorems.
    - [ScanBlocks]: lib/scanner/blocks.go, blockqueue.go: hashing a file.
    - [ScanCache]: lib/scanner/cache.go, snapshot.go.
    - [ScanWalk], [ScanItemProps], [ScanWalkProps], [ScanSafety]: lib/fs/walkfs.go
      and lib/scanner/walk.go, over the calls of [Disk].
    - [FolderScan], [FolderScanProps], [FolderScanSafety], [FolderScanTypes],
      [FolderScanCovers]: the scan of lib/model/folder.go (from [scanSubdirs] to [unifySubs]), [IsDeleted]
      of lib/osutil.  The walk of [ScanWalk] is here a channel of results;
      [ScanAccepted] composes the walk, the hashing and the scan.
    - [Ignore], [IgnoreGlob], [IgnoreIncludes], [IgnoreProps]: lib/ignore.  The glob
      library is a parameter; [IgnoreGlob] is its documented meaning for globs of
      ordinary characters and stars.
    - [Connection], [ConnectionProps]: lib/protocol/protocol.go, bep_hello.go,
      bep_clusterconfig.go, bep_request_response.go, errors.go.
    - [Limits]: lib/protocol/bufferpool.go, lib/semaphore/semaphore.go.
    - [Config], [ConfigProps]: the folders and devices of lib/config, how they are
      prepared.
    - [ConfigWrapper], [ConfigWrapperProps]: lib/config/wrapper.go, the queue of
      changes and the subscribers.
    - [ClusterConfigs], [ClusterConfigsProps], [IntroducerProps]: cluster
      configurations of lib/model/model.go, the agreement on encryption,
      introducers and folders that are accepted.
    - [ModelState], [ModelStateProps]: the connections of the devices in
      lib/model/model.go, lib/model/service_map.go.  Index handlers are an
      interface that [IndexHandler] implements.
    - [Observed], [ObservedProps]: internal/db/observed.go and typed.go over the
      table of internal/db/sqlite/db_kv.go, lib/stats.
    - [ModelCluster], [ModelClusterProps]: handling a cluster configuration in
      lib/model/model.go ([ClusterConfig], [ccHandleFolders]).  The store of pending
      folders is an interface that [Observed] implements.
    - [ModelFolders], [ModelFoldersProps]: folders that are started, restarted and
      removed, and [CommitConfiguration] of lib/model/model.go.
    - [ModelRequest], [ModelRequestProps]: requests from other devices in
      lib/model/model.go ([Request], [recheckFile]), over the calls of [Disk].
    - [RollingHash], [RsyncSignature], [RsyncEngine], [RsyncProofs], [RsyncWire],
      [RsyncProps]: lib/rsync.

    ** What the theorems show

    - Versions: [Compare] decides the pointwise order and terminates, [Merge] is
      the least upper bound, [Update] makes a newer version, and the text, wire
      and database forms are read back as written.
    - Metadata: who wins a conflict, what [isEquivalent] compares, block sizes,
      round trips of the wire and database forms, device IDs with their check
      digits.
    - The global state: the operations of the database keep one global row per
      file (as long as devices do not reuse sequence numbers), the recalculation
      marks the best valid version and the need for it, and devices with the same
      rows, in an order without cycles, agree on the global version.
    - The exchange of indexes, in any history of changes, lost connections and
      databases that are dropped on either side, gives the receiver the sender's
      files, but for entries whose removal from the sender's database is not told
      ([IndexExchange.dropped_stays]); a handler catches up while the database
      does not change.
    - Download progress: a peer is known to have only blocks it has, and all of
      them once the two looks of the emitter at a file see the same.
    - The assembly of files: whatever the interleaving and the answers, what is
      closed without an error has every block in place with the right hash, unless
      the temporary file could not be truncated ([PullJobTheorems.closed_short]);
      the file is closed once.
    - Actions on disk: no handler removes, moves or overwrites anything but
      temporary files, surplus copies, deletable ignored files, and items found on
      disk as the database has them; which of these go without a copy is listed
      ([PullSafety.superseded]); every needed item is updated, queued, or reported
      as an error, if nothing is cancelled.
    - Names never leave the folder; temporary and conflict names are valid, bounded
      and recognised.
    - The scan: every item below the scanned paths is reported, unchanged, ignored
      or an error; what was recorded is not reported again; hashing gives the
      blocks of the contents; the cache changes nothing but the work; nothing on
      disk is touched but old temporary files and names that are normalised.
    - The scan of a folder: what is recorded as deleted was seen to be gone, every
      record of any sequence of scans passes the checks of other devices, nothing
      that was found is lost, and the paths that are scanned cover what was asked for.
    - Ignore patterns: parsing ends, the cache is transparent, and a directory that
      is skipped has nothing in it that is not ignored, for patterns of ordinary
      characters and stars.
    - The connection: messages are read as written, the model gets only what was
      checked, what fails the check ends the connection, and a request gets the
      first response with its ID or is closed with the connection.
    - Requests: only what is shared is read, an answer has the hash that was asked
      for (in folders that are not encrypted), and buffers and limits are given
      back; the limit is kept.
    - The configuration is consistent once it is prepared, and every subscriber
      knows the one in effect.  After a change exactly the folders run that should,
      and the devices that are concerned are told.  A cluster configuration
      tells a device only what it may know, what is let through agrees on
      encryption, and introductions follow the introducer; what is kept of one is
      what it says of our folders, whatever the message and if the database fails.
      Pending folders are a map in the table, for names without a slash.
    - The records of connections agree in every state that is reached; requests go
      to devices that are connected, and blocks are asked only of these.
    - Untrusted devices: names, metadata and blocks that went through one are read
      back, encrypted names are valid and told from their directories, and the caches
      of keys change nothing.
    - Delta transfer: the target is rebuilt from the base and the delta, hostile
      deltas cause errors and not wrong reads, and rolling gives the checksum of
      the window.

    Where the code does not do what it means to, the theorem says what it does and
    the case is proved beside it (for instance [PullJobTheorems.stale_tail],
    [PullSafety.deleteDir_loses_file], [GlobalStateProps.reconciler_disagrees]).

    ** Fuel and bounds

    A loop that is not structural has fuel, and a lemma that the fuel is enough:
    [compare_loop] and [merge_loop] the sum of the lengths, [ensure_loop] two reads,
    the loops of [Deltify] the length of the input, [pull_loop] the number of
    candidates, the loop over the job queue the number of files that were queued,
    [loadParseIncludeFile] the number of different lines.
    Integers wrap at their width ([u16], [u32], [u64], [i32], [i64]) where the code
    computes with them; lengths and indexes of slices are unbounded.

    ** What is not modelled, and why

    The network, the operating system's file system, SQLite, cryptographic hashes
    and the clock are parameters or answers: no code of the repository computes
    them.  Builds for Windows differ in names and permissions and are left out.
    Logging, events and metrics have no effect on the synchronisation.  The
    manifest lists every other part with the reason; the largest are the schedule
    of a folder's scans and pulls (lib/model/folder.go), the
    goroutines and pings of a connection (lib/protocol/protocol.go), versioners (lib/versioner), the encodings
    of the configuration, connections, discovery and the REST API. *)
From Stdlib Require Import ZArith List Lia.
From Stdlib Require Import Strings.Byte.
From Stdlib Require String.
Export String.StringSyntax.
From stdpp Require Import base list gmap strings option fin_maps numbers tactics.

#[local] Open Scope Z_scope.

(** ** Outcomes of Go functions

    A Go function that returns [(T, error)] returns a value, returns an
    error, panics, or (in a model whose loop is bounded by fuel) has not
    finished.  [OutOfFuel] is never a behaviour of the code: every loop has a
    lemma saying that its fuel is enough. *)

Inductive outcome (E A : Type) : Type :=
| Ret (a : A)
| Err (e : E)
| Panic
| OutOfFuel.
Arguments Ret {E A} a.
Arguments Err {E A} e.
Arguments Panic {E A}.
Arguments OutOfFuel {E A}.

#[export] Instance outcome_ret E : MRet (outcome E) := fun A a => Ret a.
#[export] Instance outcome_bind E : MBind (outcome E) := fun A B f m =>
  match m with
  | Ret a => f a
  | Err e => Err e
  | Panic => Panic
  | OutOfFuel => OutOfFuel
  end.

Definition is_Ret {E A} (m : outcome E A) : bool :=
  match m with Ret _ => true | _ => false end.

#[export] Instance outcome_eq_dec {E A} `{EqDecision E, EqDecision A} :
  EqDecision (outcome E A).
Proof. solve_decision. Defined.

(** ** State and error together

    A handler that threads a mutable state: an error keeps the state reached
    when it was raised, as a Go method that returns early does. *)

Definition SM (S E A : Type) : Type := S -> S * outcome E A.

#[export] Instance sm_ret S E : MRet (SM S E) := fun A a s => (s, Ret a).
#[export] Instance sm_bind S E : MBind (SM S E) := fun A B f m s =>
  match m s with
  | (s', Ret a) => f a s'
  | (s', Err e) => (s', Err e)
  | (s', Panic) => (s', Panic)
  | (s', OutOfFuel) => (s', OutOfFuel)
  end.

Definition sget {S E} : SM S E S := fun s => (s, Ret s).
Definition sput {S E} (s' : S) : SM S E unit := fun _ => (s', Ret tt).
Definition smodify {S E} (f : S -> S) : SM S E unit := fun s => (f s, Ret tt).
Definition sfail {S E A} (e : E) : SM S E A := fun s => (s, Err e).
Definition spanic {S E A} : SM S E A := fun s => (s, Panic).
Definition slift {S E A} (m : outcome E A) : SM S E A := fun s => (s, m).

Lemma sm_bind_Ret {S E A B} (m : SM S E A) (f : A -> SM S E B) s s' a :
  m s = (s', Ret a) -> (m ≫= f) s = f a s'.
Proof. intros H. unfold mbind, sm_bind. by rewrite H. Qed.
Lemma sm_bind_Err {S E A B} (m : SM S E A) (f : A -> SM S E B) s s' e :
  m s = (s', Err e) -> (m ≫= f) s = (s', Err e).
Proof. intros H. unfold mbind, sm_bind. by rewrite H. Qed.

(** ** Machine integers *)

(** [u w z] is the w-bit unsigned value Go keeps of [z]; [i w z] the signed one. *)
Definition uN (w z : Z) : Z := z mod 2 ^ w.
Definition iN (w z : Z) : Z := (z + 2 ^ (w - 1)) mod 2 ^ w - 2 ^ (w - 1).

Abbreviation u8 := (uN 8).
Abbreviation u16 := (uN 16).
Abbreviation u32 := (uN 32).
Abbreviation u64 := (uN 64).
Abbreviation i32 := (iN 32).
Abbreviation i64 := (iN 64).

Definition maxUint64 : Z := 2 ^ 64 - 1.
Definition maxInt64 : Z := 2 ^ 63 - 1.

Lemma uN_range w z : 0 <= w -> 0 <= uN w z < 2 ^ w.
Proof. intros. unfold uN. apply Z.mod_pos_bound. apply Z.pow_pos_nonneg; lia. Qed.

Lemma uN_small w z : 0 <= z < 2 ^ w -> uN w z = z.
Proof. intros. unfold uN. by apply Z.mod_small. Qed.

Lemma iN_small w z : 0 < w -> - 2 ^ (w - 1) <= z < 2 ^ (w - 1) -> iN w z = z.
Proof.
  intros Hw Hz. unfold iN.
  assert (2 ^ w = 2 * 2 ^ (w - 1)) as E.
  { replace w with (Z.succ (w - 1)) at 1 by lia. rewrite Z.pow_succ_r; lia. }
  rewrite Z.mod_small; lia.
Qed.

Lemma iN_range w z : 0 < w -> - 2 ^ (w - 1) <= iN w z < 2 ^ (w - 1).
Proof.
  intros Hw. unfold iN.
  assert (2 ^ w = 2 * 2 ^ (w - 1)) as E.
  { replace w with (Z.succ (w - 1)) at 1 by lia. rewrite Z.pow_succ_r; lia. }
  assert (0 < 2 ^ (w - 1)) by (apply Z.pow_pos_nonneg; lia).
  pose proof (Z.mod_pos_bound (z + 2 ^ (w - 1)) (2 ^ w)). lia.
Qed.

(** ** Bytes and byte strings

    Go's [string] and [[]byte] are sequences of bytes. *)

Abbreviation bytes := (list byte).

#[export] Instance byte_eq_dec : EqDecision byte := Byte.byte_eq_dec.

Definition b2z (b : byte) : Z := Z.of_N (Byte.to_N b).
Definition z2b (z : Z) : byte :=
  default x00 (Byte.of_N (Z.to_N (z mod 256))).

Lemma b2z_range b : 0 <= b2z b < 256.
Proof. unfold b2z. pose proof (Byte.to_N_bounded b). lia. Qed.

Lemma b2z_z2b z : b2z (z2b z) = z mod 256.
Proof.
  unfold b2z, z2b.
  pose proof (Z.mod_pos_bound z 256 ltac:(lia)).
  destruct (Byte.of_N (Z.to_N (z mod 256))) as [b|] eqn:E; simpl.
  - apply Byte.to_of_N in E. lia.
  - apply Byte.of_N_None_iff in E. lia.
Qed.

Lemma z2b_b2z b : z2b (b2z b) = b.
Proof.
  unfold z2b, b2z. pose proof (Byte.to_N_bounded b).
  rewrite Z.mod_small by lia. rewrite N2Z.id, Byte.of_to_N. done.
Qed.

#[export] Instance b2z_inj : Inj (=) (=) b2z.
Proof. intros a b E. by rewrite <- (z2b_b2z a), E, z2b_b2z. Qed.

#[export] Instance byte_countable : Countable byte :=
  inj_countable' Byte.to_N (fun n => default x00 (Byte.of_N n))
    ltac:(intros b; cbn beta; by rewrite Byte.of_to_N).

(** [len] of a slice is a Go [int]. *)
Abbreviation zlen l := (Z.of_nat (length l)).

(** A literal Go string. *)
Abbreviation gostr s := (String.list_byte_of_string s%string).

(** ** Lists *)

Definition is_nil {A} (l : list A) : bool := match l with [] => true | _ => false end.

Section Lists.
Context {A : Type}.
Implicit Types l k : list A.

Lemma take_drop_mid n m l : take n l ++ take m (drop n l) = take (n + m) l.
Proof. rewrite <- take_take_drop. done. Qed.

Lemma drop_cons_lookup n l x : l !! n = Some x -> drop n l = x :: drop (S n) l.
Proof. intros. by apply drop_S. Qed.
End Lists.

(** ** Automation shared by the components *)

Create HintDb sync discriminated.
#[export] Hint Resolve b2z_range uN_range : sync.

(** Case analysis on the boolean tests of the code. *)
Ltac case_bool :=
  match goal with
  | |- context [if ?b then _ else _] => destruct b eqn:?
  | H : context [if ?b then _ else _] |- _ => destruct b eqn:?
  end.

(** Turn boolean comparisons of integers into propositions. *)
Ltac zbool :=
  repeat match goal with
  | H : (_ =? _) = true |- _ => apply Z.eqb_eq in H
  | H : (_ =? _) = false |- _ => apply Z.eqb_neq in H
  | H : (_ <? _) = true |- _ => apply Z.ltb_lt in H
  | H : (_ <? _) = false |- _ => apply Z.ltb_ge in H
  | H : (_ <=? _) = true |- _ => apply Z.leb_le in H
  | H : (_ <=? _) = false |- _ => apply Z.leb_gt in H
  | H : (_ && _)%bool = true |- _ => apply andb_true_iff in H as [? ?]
  | H : (_ || _)%bool = false |- _ => apply orb_false_iff in H as [? ?]
  | H : negb _ = true |- _ => apply negb_true_iff in H
  | H : negb _ = false |- _ => apply negb_false_iff in H
  | H : bool_decide _ = true |- _ => apply bool_decide_eq_true in H
  | H : bool_decide _ = false |- _ => apply bool_decide_eq_false in H
  end.
