(* ===== verification/GoLib.v ===== *)
(** * The parts of Go's standard library the program uses

    Executable models of [strings.Split], [strings.Cut], [strconv.ParseUint],
    the [%d] and [%x] verbs, [encoding/hex], and the fixed-width and variable
    length integer codecs of [encoding/binary], with the round-trip laws the
    components' theorems rest on.  Strings are byte sequences throughout. *)
From Stdlib Require Import ZArith List Lia.
From Stdlib Require Import Strings.Byte.
From stdpp Require Import base list option numbers tactics.
From S2P Require Import Prelude.

#[local] Open Scope Z_scope.

(** ** strings *)

Section Strings.
Context (sep : byte).

(** [strings.Split(s, sep)] for a one byte separator: never empty. *)
Fixpoint split (s : bytes) : list bytes :=
  match s with
  | [] => [[]]
  | c :: s' =>
      if decide (c = sep) then [] :: split s'
      else match split s' with
           | p :: ps => (c :: p) :: ps
           | [] => [[c]]
           end
  end.

(** [strings.Join(parts, sep)] *)
Fixpoint join (parts : list bytes) : bytes :=
  match parts with
  | [] => []
  | [p] => p
  | p :: ps => p ++ sep :: join ps
  end.

(** [strings.Cut(s, sep)]: the parts around the first separator. *)
Fixpoint cut (s : bytes) : option (bytes * bytes) :=
  match s with
  | [] => None
  | c :: s' =>
      if decide (c = sep) then Some ([], s')
      else match cut s' with
           | Some (b, a) => Some (c :: b, a)
           | None => None
           end
  end.

Lemma split_not_nil s : split s <> [].
Proof.
  destruct s as [|c s]; simpl; [done|]. case_decide; [done|].
  by destruct (split s).
Qed.

Lemma split_app_sep p s : sep ∉ p -> split (p ++ sep :: s) = p :: split s.
Proof.
  induction p as [|c p IH]; simpl; intros Hn.
  - by rewrite decide_True.
  - apply not_elem_of_cons in Hn as [Hc Hp].
    rewrite decide_False by congruence. by rewrite IH.
Qed.

Lemma split_single p : sep ∉ p -> split p = [p].
Proof.
  induction p as [|c p IH]; simpl; intros Hn; [done|].
  apply not_elem_of_cons in Hn as [Hc Hp].
  rewrite decide_False by congruence. by rewrite IH.
Qed.

Lemma split_join parts :
  parts <> [] -> Forall (fun p => sep ∉ p) parts -> split (join parts) = parts.
Proof.
  intros Hne HF. induction HF as [|p ps Hp HF IH]; [done|].
  destruct ps as [|q ps]; simpl; [by apply split_single|].
  rewrite split_app_sep by done. f_equal. by apply IH.
Qed.

Lemma join_split s : join (split s) = s.
Proof.
  induction s as [|c s IH]; [done|]. simpl.
  case_decide as E.
  - subst c. pose proof (split_not_nil s). destruct (split s) as [|p ps]; [done|].
    simpl in *. by rewrite IH.
  - destruct (split s) as [|p ps] eqn:E2; [by destruct (split_not_nil s)|].
    destruct ps; simpl in *; by rewrite <- IH.
Qed.

Lemma cut_app p s : sep ∉ p -> cut (p ++ sep :: s) = Some (p, s).
Proof.
  induction p as [|c p IH]; simpl; intros Hn.
  - by rewrite decide_True.
  - apply not_elem_of_cons in Hn as [Hc Hp].
    rewrite decide_False by congruence. by rewrite IH.
Qed.

Lemma cut_None s : sep ∉ s -> cut s = None.
Proof.
  induction s as [|c s IH]; simpl; intros Hn; [done|].
  apply not_elem_of_cons in Hn as [Hc Hp].
  rewrite decide_False by congruence. by rewrite IH.
Qed.
End Strings.

(** [strings.HasPrefix], [strings.TrimPrefix] *)
Fixpoint hasPrefix (s p : bytes) {struct p} : bool :=
  match p, s with
  | [], _ => true
  | c :: p', d :: s' => if decide (c = d) then hasPrefix s' p' else false
  | _ :: _, [] => false
  end.
Definition hasSuffix (s p : bytes) : bool := hasPrefix (reverse s) (reverse p).
Definition trimPrefix (s p : bytes) : bytes := if hasPrefix s p then drop (length p) s else s.
Definition trimSuffix (s p : bytes) : bytes :=
  if hasSuffix s p then take (length s - length p) s else s.

Lemma hasPrefix_spec s p : hasPrefix s p = true <-> exists r, s = p ++ r.
Proof.
  revert s. induction p as [|c p IH]; intros s; simpl.
  - split; [intros _; by exists s | done].
  - destruct s as [|d s]; [split; [done | by intros [r ?]]|].
    case_decide as E.
    + subst. rewrite IH. split; intros [r Hr]; exists r; [by subst | by simplify_eq].
    + split; [done|]. intros [r Hr]. by simplify_eq.
Qed.

(** ** Decimal and hexadecimal *)

Definition digit (d : Z) : byte := z2b (48 + d).

(** The [%d] verb on an unsigned integer; 20 digits hold any uint64. *)
Fixpoint dec_digits (fuel : nat) (z : Z) : bytes :=
  match fuel with
  | O => []
  | S fuel => if z <? 10 then [digit z] else dec_digits fuel (z / 10) ++ [digit (z mod 10)]
  end.
Definition formatUint (z : Z) : bytes := dec_digits 20 z.

(** [strconv.ParseUint(s, 10, 64)]; [None] is ErrSyntax or ErrRange. *)
Fixpoint parse_loop (n : Z) (s : bytes) : option Z :=
  match s with
  | [] => Some n
  | c :: s' =>
      let d := b2z c - 48 in
      if (0 <=? d) && (d <? 10) then
        if maxUint64 <? n * 10 + d then None else parse_loop (n * 10 + d) s'
      else None
  end.
Definition parseUint (s : bytes) : option Z :=
  match s with [] => None | _ => parse_loop 0 s end.

Definition hexdigit (d : Z) : byte := if d <? 10 then z2b (48 + d) else z2b (87 + d).
(** The [%x] verb on a byte slice. *)
Definition hexEncode (bs : bytes) : bytes :=
  flat_map (fun b => [hexdigit (b2z b / 16); hexdigit (b2z b mod 16)]) bs.

Definition unhex (c : byte) : option Z :=
  let z := b2z c in
  if (48 <=? z) && (z <=? 57) then Some (z - 48)
  else if (97 <=? z) && (z <=? 102) then Some (z - 87)
  else if (65 <=? z) && (z <=? 70) then Some (z - 55)
  else None.
(** [hex.DecodeString] *)
Fixpoint hexDecode (s : bytes) : option bytes :=
  match s with
  | [] => Some []
  | h :: l :: s' =>
      x ← unhex h; y ← unhex l; r ← hexDecode s'; Some (z2b (16 * x + y) :: r)
  | _ => None
  end.

Lemma b2z_digit d : 0 <= d < 10 -> b2z (digit d) = 48 + d.
Proof. intros. unfold digit. rewrite b2z_z2b. apply Z.mod_small. lia. Qed.

Lemma parse_dec_digits fuel z rest :
  0 <= z < 10 ^ Z.of_nat fuel -> z <= maxUint64 ->
  parse_loop 0 (dec_digits fuel z ++ rest) = parse_loop z rest.
Proof.
  revert z rest. induction fuel as [|fuel IH]; intros z rest Hz Hm.
  { simpl in Hz. assert (z = 0) by lia. by subst. }
  rewrite Nat2Z.inj_succ, Z.pow_succ_r in Hz by lia.
  assert (forall x r, 0 <= x -> 0 <= r < 10 -> x * 10 + r <= maxUint64 ->
     parse_loop x (digit r :: rest) = parse_loop (x * 10 + r) rest) as Hd.
  { intros x r Hx Hr Hxr. cbn [parse_loop]. rewrite b2z_digit by lia.
    replace (48 + r - 48) with r by lia.
    destruct (Z.leb_spec 0 r); [|lia]. destruct (Z.ltb_spec r 10); [|lia]. simpl.
    destruct (Z.ltb_spec maxUint64 (x * 10 + r)); [lia|done]. }
  cbn [dec_digits]. destruct (Z.ltb_spec z 10) as [Hlt|Hge].
  - cbn [app]. rewrite (Hd 0 z) by lia. done.
  - rewrite <- app_assoc, IH; [|split; [apply Z.div_pos; lia | apply Z.div_lt_upper_bound; lia]|].
    2: { pose proof (Z.div_le_upper_bound z 10 z). lia. }
    cbn [app]. pose proof (Z.mod_pos_bound z 10). pose proof (Z.div_mod z 10).
    rewrite Hd; [f_equal; lia | apply Z.div_pos; lia | lia | lia].
Qed.

Lemma dec_digits_not_nil fuel z : fuel <> O -> dec_digits fuel z <> [].
Proof.
  destruct fuel; [done|]. intros _. cbn [dec_digits].
  case_match; [done|]. by destruct (dec_digits fuel (z / 10)).
Qed.

Lemma parse_formatUint z : 0 <= z <= maxUint64 -> parseUint (formatUint z) = Some z.
Proof.
  intros Hz. unfold parseUint, formatUint.
  destruct (dec_digits 20 z) as [|c s] eqn:E; [by apply dec_digits_not_nil in E|].
  rewrite <- E, <- (app_nil_r (dec_digits 20 z)), parse_dec_digits; [done| |lia].
  unfold maxUint64 in Hz. cbn. lia.
Qed.

Lemma dec_digits_are_digits fuel z :
  0 <= z -> Forall (fun c => 48 <= b2z c < 58) (dec_digits fuel z).
Proof.
  revert z. induction fuel as [|fuel IH]; intros z Hz; cbn [dec_digits]; [constructor|].
  destruct (Z.ltb_spec z 10).
  - constructor; [|constructor]. rewrite b2z_digit; lia.
  - apply Forall_app. split; [apply IH, Z.div_pos; lia|].
    constructor; [|constructor]. pose proof (Z.mod_pos_bound z 10). rewrite b2z_digit; lia.
Qed.

Lemma unhex_hexdigit d : 0 <= d < 16 -> unhex (hexdigit d) = Some d.
Proof.
  intros Hd. unfold hexdigit, unhex.
  destruct (Z.ltb_spec d 10); rewrite b2z_z2b, Z.mod_small by lia.
  - destruct (Z.leb_spec 48 (48 + d)); [|lia]. destruct (Z.leb_spec (48 + d) 57); [|lia].
    simpl. f_equal; lia.
  - destruct (Z.leb_spec 48 (87 + d)); [|lia]. destruct (Z.leb_spec (87 + d) 57); [lia|].
    destruct (Z.leb_spec 97 (87 + d)); [|lia]. destruct (Z.leb_spec (87 + d) 102); [|lia].
    simpl. f_equal; lia.
Qed.

Lemma hexDecode_hexEncode bs : hexDecode (hexEncode bs) = Some bs.
Proof.
  induction bs as [|b bs IH]; [done|].
  unfold hexEncode. cbn [flat_map app hexDecode]. fold (hexEncode bs).
  pose proof (b2z_range b). pose proof (Z.mod_pos_bound (b2z b) 16).
  pose proof (Z.div_mod (b2z b) 16).
  assert (0 <= b2z b / 16 < 16).
  { split; [apply Z.div_pos; lia | apply Z.div_lt_upper_bound; lia]. }
  rewrite !unhex_hexdigit by lia. cbn. rewrite IH. cbn.
  replace (16 * (b2z b / 16) + b2z b mod 16) with (b2z b) by lia. by rewrite z2b_b2z.
Qed.

(** ** encoding/binary: fixed width, big endian *)

(** [binary.BigEndian.PutUintN]: the low [n] bytes of [z], most significant first. *)
Fixpoint putBE (n : nat) (z : Z) : bytes :=
  match n with
  | O => []
  | S n => putBE n (z / 256) ++ [z2b z]
  end.
(** [binary.BigEndian.UintN] *)
Definition getBE (bs : bytes) : Z := fold_left (fun acc b => acc * 256 + b2z b) bs 0.

Lemma putBE_length n z : length (putBE n z) = n.
Proof. revert z. induction n; intros z; simpl; [done|]. rewrite length_app, IHn. simpl. lia. Qed.

Lemma getBE_app bs cs : getBE (bs ++ cs) = getBE bs * 256 ^ zlen cs + getBE cs.
Proof.
  unfold getBE. rewrite fold_left_app. generalize (fold_left (fun acc b => acc * 256 + b2z b) bs 0).
  induction cs as [|c cs IH] using rev_ind; intros x; [simpl; lia|].
  rewrite !fold_left_app. cbn [fold_left]. rewrite IH, length_app, Nat2Z.inj_add. simpl (length [c]).
  rewrite Z.pow_add_r by lia. lia.
Qed.

Lemma getBE_putBE n z : getBE (putBE n z) = z mod 256 ^ Z.of_nat n.
Proof.
  revert z. induction n as [|n IH]; intros z; [by rewrite Z.mod_1_r|].
  cbn [putBE]. rewrite getBE_app, IH. cbn [length]. unfold getBE at 1. cbn [fold_left].
  replace (256 ^ Z.of_nat 1) with 256 by done.
  rewrite b2z_z2b, Nat2Z.inj_succ, Z.pow_succ_r by lia.
  rewrite (Z.rem_mul_r z 256) by (try apply Z.pow_pos_nonneg; lia). lia.
Qed.

Lemma putBE_getBE bs : putBE (length bs) (getBE bs) = bs.
Proof.
  induction bs as [|b bs IH] using rev_ind; [done|].
  rewrite length_app, Nat.add_comm. cbn [length Nat.add putBE]. rewrite getBE_app.
  unfold getBE at 2 4. cbn [fold_left length]. replace (256 ^ Z.of_nat 1) with 256 by done.
  pose proof (b2z_range b). f_equal.
  - replace ((getBE bs * 256 + (0 * 256 + b2z b)) / 256) with (getBE bs); [done|].
    rewrite Z.div_add_l by lia. rewrite (Z.div_small (0 * 256 + b2z b)); lia.
  - f_equal. apply (inj b2z). rewrite b2z_z2b, Z.add_comm, Z.mod_add by lia.
    rewrite Z.mod_small; lia.
Qed.

Lemma getBE_bound bs : 0 <= getBE bs < 256 ^ zlen bs.
Proof.
  rewrite <- (putBE_getBE bs), getBE_putBE, putBE_length.
  apply Z.mod_pos_bound, Z.pow_pos_nonneg; lia.
Qed.

(** ** encoding/binary: variable length *)

(** [binary.AppendUvarint]; ten groups of seven bits hold any uint64. *)
Fixpoint uvarint_groups (fuel : nat) (x : Z) : bytes :=
  match fuel with
  | O => []
  | S fuel =>
      if 128 <=? x then z2b (Z.lor (u8 x) 128) :: uvarint_groups fuel (Z.shiftr x 7)
      else [z2b x]
  end.
Definition appendUvarint (buf : bytes) (x : Z) : bytes := buf ++ uvarint_groups 10 x.

(** [binary.ReadUvarint]: [n] bytes may still be read, [s] bits are done. *)
Fixpoint readUvarint_loop (n : nat) (s x : Z) (bs : bytes) : option (Z * bytes) :=
  match n, bs with
  | S n', b :: bs' =>
      let v := b2z b in
      if v <? 128 then
        if (bool_decide (n' = O)) && (1 <? v) then None
        else Some (Z.lor x (u64 (Z.shiftl v s)), bs')
      else readUvarint_loop n' (s + 7) (Z.lor x (u64 (Z.shiftl (Z.land v 127) s))) bs'
  | _, _ => None
  end.
Definition readUvarint (bs : bytes) : option (Z * bytes) := readUvarint_loop 10 0 0 bs.

Lemma lor_disjoint a y s :
  0 <= s -> 0 <= a < 2 ^ s -> Z.lor a (Z.shiftl y s) = a + y * 2 ^ s.
Proof.
  intros Hs Ha. rewrite <- (Z.shiftl_mul_pow2 y s) by lia.
  rewrite <- Z.add_lor_land. enough (Z.land a (Z.shiftl y s) = 0) by lia.
  apply Z.bits_inj'. intros n Hn. rewrite Z.land_spec, Z.bits_0.
  destruct (Z.lt_ge_cases n s).
  - rewrite Z.shiftl_spec_low by lia. apply andb_false_r.
  - rewrite <- (Z.mod_small a (2 ^ s)), Z.mod_pow2_bits_high by lia. done.
Qed.

Lemma b2z_continuation x : b2z (z2b (Z.lor (u8 x) 128)) = 128 + x mod 128.
Proof.
  rewrite b2z_z2b. unfold uN.
  assert (forall y, 0 <= y < 256 -> Z.lor y 128 mod 256 = 128 + y mod 128) as H.
  { intros y Hy.
    assert (forallb (fun n => Z.lor (Z.of_nat n) 128 mod 256 =? 128 + Z.of_nat n mod 128)
              (seq 0 256) = true) as HF by (vm_compute; done).
    rewrite forallb_forall in HF. specialize (HF (Z.to_nat y)).
    rewrite in_seq, Z2Nat.id in HF by lia. apply Z.eqb_eq, HF. lia. }
  rewrite H by (apply Z.mod_pos_bound; lia). f_equal.
  change (2 ^ 8) with (128 * 2). rewrite Z.rem_mul_r by lia.
  rewrite Z.mul_comm, Z.mod_add, Z.mod_mod by lia. done.
Qed.

Lemma uvarint_read n s acc x rest :
  0 <= s -> s + 7 * Z.of_nat n = 70 -> 0 <= acc < 2 ^ s ->
  0 <= x -> acc + x * 2 ^ s < 2 ^ 64 -> (0 < n)%nat ->
  readUvarint_loop n s acc (uvarint_groups n x ++ rest) = Some (acc + x * 2 ^ s, rest).
Proof.
  revert s acc x. induction n as [|n IH]; intros s acc x Hs Hn Hacc Hx Hb Hpos; [lia|].
  cbn [uvarint_groups]. assert (0 < 2 ^ s) by (apply Z.pow_pos_nonneg; lia).
  destruct (Z.leb_spec 128 x) as [Hge|Hlt].
  - cbn [app readUvarint_loop]. rewrite b2z_continuation.
    pose proof (Z.mod_pos_bound x 128).
    destruct (Z.ltb_spec (128 + x mod 128) 128); [lia|].
    assert (Z.land (128 + x mod 128) 127 = x mod 128) as ->.
    { change 127 with (Z.ones 7). rewrite Z.land_ones by lia. change (2 ^ 7) with 128.
      replace (128 + x mod 128) with (x mod 128 + 1 * 128) by lia.
      rewrite Z.mod_add, Z.mod_mod; lia. }
    pose proof (Z.div_mod x 128) as Hdm.
    assert (x mod 128 * 2 ^ s <= x * 2 ^ s) by (apply Z.mul_le_mono_nonneg_r; lia).
    assert (u64 (Z.shiftl (x mod 128) s) = Z.shiftl (x mod 128) s) as ->.
    { apply uN_small. rewrite Z.shiftl_mul_pow2 by lia. nia. }
    rewrite lor_disjoint by lia. rewrite Z.shiftr_div_pow2 by lia. change (2 ^ 7) with 128.
    assert (2 ^ (s + 7) = 128 * 2 ^ s) as E by (rewrite Z.pow_add_r by lia; change (2 ^ 7) with 128; lia).
    destruct n as [|n].
    { assert (s = 63) by lia. subst s. assert (128 * 2 ^ 63 <= x * 2 ^ 63) by nia. lia. }
    assert (0 <= x / 128) by (apply Z.div_pos; lia).
    rewrite IH by (rewrite ?E; nia). rewrite E. do 2 f_equal. nia.
  - cbn [app readUvarint_loop]. rewrite b2z_z2b, Z.mod_small by lia.
    destruct (Z.ltb_spec x 128); [|lia].
    destruct (bool_decide (n = O) && (1 <? x)) eqn:E.
    { zbool. subst n. assert (s = 63) by lia. subst s. nia. }
    rewrite uN_small by (rewrite Z.shiftl_mul_pow2 by lia; nia).
    by rewrite lor_disjoint by lia.
Qed.

Lemma readUvarint_app x rest :
  0 <= x < 2 ^ 64 -> readUvarint (uvarint_groups 10 x ++ rest) = Some (x, rest).
Proof.
  intros Hx. unfold readUvarint. rewrite uvarint_read; try lia. do 2 f_equal; lia.
Qed.

Lemma readUvarint_range bs x rest : readUvarint bs = Some (x, rest) -> 0 <= x < 2 ^ 64.
Proof.
  assert (forall n s acc bs, 0 <= s -> 0 <= acc < 2 ^ 64 ->
    readUvarint_loop n s acc bs = Some (x, rest) -> 0 <= x < 2 ^ 64) as H.
  { assert (forall a b, 0 <= a < 2 ^ 64 -> 0 <= Z.lor a (u64 b) < 2 ^ 64) as Hlor.
    { intros a b Ha. pose proof (uN_range 64 b ltac:(lia)) as Hb.
      pose proof (proj2 (Z.lor_nonneg a (u64 b)) ltac:(lia)). split; [lia|].
      destruct (Z.eq_dec (Z.lor a (u64 b)) 0) as [->|]; [lia|].
      apply Z.log2_lt_pow2; [lia|]. rewrite Z.log2_lor by lia.
      apply Z.max_lub_lt.
      - destruct (Z.eq_dec a 0) as [->|]; [simpl; lia|]. apply Z.log2_lt_pow2; lia.
      - destruct (Z.eq_dec (u64 b) 0) as [->|]; [simpl; lia|]. apply Z.log2_lt_pow2; lia. }
    induction n as [|n IH]; intros s acc l Hs Hacc; [done|].
    destruct l as [|b l]; [done|]. cbn [readUvarint_loop].
    case_match.
    - case_match; [done|]. intros [= <- <-]. by apply Hlor.
    - intros E. eapply IH; [| |exact E]; [lia|]. by apply Hlor. }
  apply H; lia.
Qed.

(** ** Characters of the number formats *)

Definition is_hex_char (c : byte) : Prop := 48 <= b2z c <= 57 \/ 97 <= b2z c <= 102.

Lemma hexEncode_chars bs : Forall is_hex_char (hexEncode bs).
Proof.
  assert (forall d, 0 <= d < 16 -> is_hex_char (hexdigit d)) as H.
  { intros d Hd. unfold is_hex_char, hexdigit.
    destruct (Z.ltb_spec d 10); rewrite b2z_z2b, Z.mod_small by lia; lia. }
  induction bs as [|b bs IH]; [constructor|]. unfold hexEncode. cbn [flat_map app].
  pose proof (b2z_range b). pose proof (Z.mod_pos_bound (b2z b) 16).
  assert (0 <= b2z b / 16 < 16).
  { split; [apply Z.div_pos; lia | apply Z.div_lt_upper_bound; lia]. }
  constructor; [apply H; lia|]. constructor; [apply H; lia|done].
Qed.

Lemma hexEncode_length bs : length (hexEncode bs) = (2 * length bs)%nat.
Proof. induction bs as [|b bs IH]; [done|]. unfold hexEncode in *. simpl. rewrite IH. lia. Qed.

Lemma not_elem_of_chars (P : byte -> Prop) c cs : Forall P cs -> ~ P c -> c ∉ cs.
Proof. intros HF Hc Hin. rewrite List.Forall_forall in HF. by apply Hc, HF, list_elem_of_In. Qed.

(** ** make([]byte, n), io.Reader and io.ReadFull *)

(** The runtime refuses an allocation above the 48 bit heap address space
    with a panic ("makeslice: len out of range"), and a negative length. *)
Definition maxAlloc : Z := 2 ^ 48.
Definition makeBytes {E} (n : Z) : outcome E bytes :=
  if (n <? 0) || (maxAlloc <? n) then Panic else Ret (replicate (Z.to_nat n) x00).

(** A reader delivers its data and then io.EOF, or the error [rd_err]. *)
Record Reader (E : Type) := { rd_data : bytes; rd_err : option E }.
Arguments rd_data {E} _.
Arguments rd_err {E} _.
(** [bytes.NewReader] *)
Definition newReader {E} (bs : bytes) : Reader E := {| rd_data := bs; rd_err := None |}.

Inductive read_status (E : Type) := ReadOK | ReadEOF | ReadUnexpectedEOF | ReadErr (e : E).
Arguments ReadOK {E}.
Arguments ReadEOF {E}.
Arguments ReadUnexpectedEOF {E}.
Arguments ReadErr {E} e.

(** [io.ReadFull(r, buf)] with [len(buf) = n]: the bytes read and the error;
    how the underlying Read calls split the data does not matter. *)
Definition readFull {E} (r : Reader E) (n : Z) : bytes * read_status E * Reader E :=
  if n <=? zlen (rd_data r) then
    (take (Z.to_nat n) (rd_data r), ReadOK,
     {| rd_data := drop (Z.to_nat n) (rd_data r); rd_err := rd_err r |})
  else
    (rd_data r,
     match rd_err r with
     | Some e => ReadErr e
     | None => if is_nil (rd_data r) then ReadEOF else ReadUnexpectedEOF
     end,
     {| rd_data := []; rd_err := rd_err r |}).

Definition is_eof {E} (s : read_status E) : bool :=
  match s with ReadEOF | ReadUnexpectedEOF => true | _ => false end.

Lemma makeBytes_ok {E} n : 0 <= n <= maxAlloc -> makeBytes (E := E) n = Ret (replicate (Z.to_nat n) x00).
Proof.
  intros Hn. unfold makeBytes.
  rewrite (proj2 (Z.ltb_ge _ _)), (proj2 (Z.ltb_ge _ _)) by lia. done.
Qed.

Lemma readFull_full {E} (r : Reader E) n :
  n <= zlen (rd_data r) ->
  readFull r n = (take (Z.to_nat n) (rd_data r), ReadOK,
     {| rd_data := drop (Z.to_nat n) (rd_data r); rd_err := rd_err r |}).
Proof. intros Hn. unfold readFull. by rewrite (proj2 (Z.leb_le _ _)). Qed.

Lemma readFull_short {E} (r : Reader E) n :
  zlen (rd_data r) < n -> rd_err r = None ->
  exists st, readFull r n = (rd_data r, st, {| rd_data := []; rd_err := None |}) /\ is_eof st = true.
Proof.
  intros Hn He. unfold readFull. rewrite (proj2 (Z.leb_gt _ _)), He by lia.
  eexists. split; [done|]. by destruct (is_nil (rd_data r)).
Qed.

(** ** The order of strings

    [a <= b] on strings, and [strings.Compare(a, b) <= 0]. *)
Fixpoint bytes_leb (a b : bytes) : bool :=
  match a, b with
  | [], _ => true
  | _ :: _, [] => false
  | x :: a, y :: b => if b2z x <? b2z y then true else if b2z y <? b2z x then false else bytes_leb a b
  end.
Definition bytes_ltb (a b : bytes) : bool := negb (bytes_leb b a).

#[local] Ltac byte_cases :=
  repeat match goal with |- context [?a <? ?b] => destruct (Z.ltb_spec a b) | H : context [?a <? ?b] |- _ => destruct (Z.ltb_spec a b) end.
Lemma bytes_leb_refl a : bytes_leb a a = true.
Proof. induction a as [|x a IH]; [done|]. cbn. by rewrite Z.ltb_irrefl. Qed.
Lemma bytes_leb_total a b : bytes_leb a b = true \/ bytes_leb b a = true.
Proof.
  revert b. induction a as [|x a IH]; intros [|y b]; cbn; [by left..|by right|].
  byte_cases; try lia; auto.
Qed.
Lemma bytes_leb_antisym a b : bytes_leb a b = true -> bytes_leb b a = true -> a = b.
Proof.
  revert b. induction a as [|x a IH]; intros [|y b]; cbn; [done..|].
  byte_cases; try lia; try done. intros. assert (x = y) as -> by (apply (inj b2z); lia). f_equal. auto.
Qed.
Lemma bytes_leb_trans a b c : bytes_leb a b = true -> bytes_leb b c = true -> bytes_leb a c = true.
Proof.
  revert b c. induction a as [|x a IH]; intros [|y b] [|z c]; cbn; try done.
  byte_cases; try lia; try done; eauto.
Qed.

(** ** utf8.ValidString *)

Definition between (b : byte) (lo hi : Z) : bool := (lo <=? b2z b) && (b2z b <=? hi).
Fixpoint validString (s : bytes) : bool :=
  match s with
  | [] => true
  | a :: s1 =>
      if b2z a <? 128 then validString s1
      else
        match s1 with
        | b :: s2 =>
            if between a 194 223 then between b 128 191 && validString s2
            else
              match s2 with
              | c :: s3 =>
                  if between a 224 239 then
                    between b (if b2z a =? 224 then 160 else 128) (if b2z a =? 237 then 159 else 191) &&
                    between c 128 191 && validString s3
                  else
                    match s3 with
                    | d :: s4 =>
                        between a 240 244 &&
                        between b (if b2z a =? 240 then 144 else 128) (if b2z a =? 244 then 143 else 191) &&
                        between c 128 191 && between d 128 191 && validString s4
                    | [] => false
                    end
              | [] => false
              end
        | [] => false
        end
  end.
