(* ===== verification/Paths.v ===== *)
(** * File names (path/filepath, lib/fs, lib/protocol/protocol.go, lib/model/folder_sendrecv.go)

    Go's path functions on Unix, the canonical form of names, the check of
    names from the network, the names of temporary files and of conflict
    copies.  The theorems: a name never leaves the folder, and temporary and
    conflict names are recognised as such and have a bounded length. *)
From Stdlib Require Import ZArith List Lia.
From Stdlib Require Import Strings.Byte.
From stdpp Require Import base list option numbers tactics.
From S2P Require Import Prelude GoLib.

#[local] Open Scope Z_scope.

(** ** path and path/filepath on Unix *)

Definition PathSeparator : byte := z2b 47.
Definition dot : bytes := gostr ".".
Definition dotdot : bytes := gostr "..".

Definition IsAbs (p : bytes) : bool := hasPrefix p [PathSeparator].

(** One element of the path, for the elements kept so far, the last one first. *)
Definition clean_step (abs : bool) (st : list bytes) (c : bytes) : list bytes :=
  if is_nil c || bool_decide (c = dot) then st
  else if bool_decide (c = dotdot) then
    match st with
    | [] => if abs then [] else [dotdot]
    | x :: st' => if bool_decide (x = dotdot) then dotdot :: st else st'
    end
  else c :: st.
Definition clean_elems (abs : bool) (cs : list bytes) : list bytes := reverse (fold_left (clean_step abs) cs []).
Definition render (abs : bool) (cs : list bytes) : bytes :=
  if abs then PathSeparator :: join PathSeparator cs
  else match cs with [] => dot | _ => join PathSeparator cs end.
Definition Clean (p : bytes) : bytes :=
  let abs := IsAbs p in render abs (clean_elems abs (split PathSeparator p)).

(** The part up to and with the last separator, and the part after it. *)
Fixpoint split_last (p : bytes) : bytes * bytes :=
  match p with
  | [] => ([], [])
  | c :: p' =>
      let '(d, b) := split_last p' in
      match d with
      | [] => if decide (c = PathSeparator) then ([c], b) else ([], c :: b)
      | _ => (c :: d, b)
      end
  end.
Definition Dir (p : bytes) : bytes := Clean (split_last p).1.
Fixpoint strip_slashes (p : bytes) : bytes :=
  match p with
  | c :: p' => if decide (c = PathSeparator) then strip_slashes p' else p
  | [] => []
  end.
Definition Base (p : bytes) : bytes :=
  if is_nil p then dot
  else
    let p := reverse (strip_slashes (reverse p)) in
    let b := (split_last p).2 in
    if is_nil b then [PathSeparator] else b.
(** The suffix that starts at the last dot of the last element. *)
Fixpoint ext_loop (rev_name acc : bytes) : bytes :=
  match rev_name with
  | [] => []
  | c :: r =>
      if decide (c = PathSeparator) then []
      else if decide (c = z2b 46) then c :: acc
      else ext_loop r (c :: acc)
  end.
Definition Ext (p : bytes) : bytes := ext_loop (reverse p) [].
Fixpoint Join (elems : list bytes) : bytes :=
  match elems with
  | [] => []
  | e :: es => if is_nil e then Join es else Clean (join PathSeparator elems)
  end.

(** [strings.Contains] *)
Fixpoint contains (s sub : bytes) : bool :=
  hasPrefix s sub || match s with [] => false | _ :: s => contains s sub end.

(** ** lib/fs *)

Inductive path_err := ErrPathInvalid | ErrPathTraversingUpwards | ErrInvalidFilenameEmpty.
Inductive name_err := ErrUncleanFilename | ErrInvalidFilename.

Definition Canonicalize (file : bytes) : outcome path_err bytes :=
  if hasPrefix file [PathSeparator; PathSeparator] then Err ErrPathInvalid
  else
    let file := Clean file in
    if bool_decide (file = dotdot) then Err ErrPathTraversingUpwards
    else if hasPrefix file (dotdot ++ [PathSeparator]) then Err ErrPathTraversingUpwards
    else if hasPrefix file [PathSeparator] then
      if bool_decide (file = [PathSeparator]) then Ret dot else Ret (tl file)
    else Ret file.

(** [rooted], behind every method of [BasicFilesystem]. *)
Definition rooted (rel root : bytes) : outcome path_err bytes :=
  if is_nil root then Err ErrInvalidFilenameEmpty
  else rel ← Canonicalize rel; Ret (Join [root; rel]).

Definition PathComponents (path : bytes) : list bytes := split PathSeparator path.

Definition IsParent (path parent : bytes) : bool :=
  if bool_decide (parent = path) then false
  else if negb (eqb (IsAbs path) (IsAbs parent)) then false
  else if is_nil parent || bool_decide (parent = dot) then negb (is_nil path) && negb (bool_decide (path = dot))
  else if bool_decide (parent = [PathSeparator]) then negb (bool_decide (path = [PathSeparator]))
  else if bool_decide (list.last parent = Some PathSeparator) then hasPrefix path parent
  else if negb (hasPrefix path parent) then false
  else if (length path <=? length parent)%nat then false
  else bool_decide (path !! length parent = Some PathSeparator).

Definition internals : list bytes := [gostr ".stfolder"; gostr ".stignore"; gostr ".stversions"].
Definition IsInternal (file : bytes) : bool :=
  existsb (fun internal => bool_decide (file = internal) || IsParent file internal) internals.

(** *** Temporary names; the hash is a parameter *)

Definition WindowsTempPrefix : bytes := gostr "~syncthing~".
Definition UnixTempPrefix : bytes := gostr ".syncthing.".
Definition maxFilenameLength : Z := 160 - zlen UnixTempPrefix - zlen (gostr ".tmp").

Definition IsTemporary (name : bytes) : bool :=
  let name := Base name in hasPrefix name WindowsTempPrefix || hasPrefix name UnixTempPrefix.

Section TempNames.
Context (sha256 : bytes -> bytes).
Definition TempNameWithPrefix (name prefix : bytes) : bytes :=
  let tdir := Dir name in
  let tbase := Base name in
  let tname :=
    if maxFilenameLength <? zlen tbase then prefix ++ hexEncode (sha256 tbase) ++ gostr ".tmp"
    else prefix ++ tbase ++ gostr ".tmp" in
  Join [tdir; tname].
Definition TempName (name : bytes) : bytes := TempNameWithPrefix name UnixTempPrefix.
End TempNames.

(** ** lib/protocol: names from the network *)

Definition checkFilename (name : bytes) : outcome name_err unit :=
  if negb (bool_decide (Clean name = name)) then Err ErrUncleanFilename
  else if bool_decide (name = []) || bool_decide (name = dot) || bool_decide (name = dotdot) then Err ErrInvalidFilename
  else if hasPrefix name [PathSeparator] then Err ErrInvalidFilename
  else if hasPrefix name (dotdot ++ [PathSeparator]) then Err ErrInvalidFilename
  else Ret tt.

(** ** lib/model: conflict copies

    The time is formatted by the caller: [stamp] is its date and time,
    "20060102-150405". *)

Definition conflictMarker : bytes := gostr ".sync-conflict-".
Definition conflictName (stamp name lastModBy : bytes) : bytes :=
  let ext := Ext name in
  take (length name - length ext) name ++ conflictMarker ++ stamp ++ gostr "-" ++ lastModBy ++ ext.
Definition isConflict (name : bytes) : bool := contains (Base name) conflictMarker.
(** The pattern of [existingConflicts]. *)
Definition conflictPattern (name : bytes) : bytes :=
  let ext := Ext name in
  take (length name - length ext) name ++ gostr ".sync-conflict-????????-??????*" ++ ext.

Example Clean_1 : Clean (gostr "a//b/./../c/") = gostr "a/c". Proof. reflexivity. Qed.
Example Clean_2 : Clean (gostr "/../a") = gostr "/a". Proof. reflexivity. Qed.
Example Clean_3 : Clean (gostr "a/../../../b") = gostr "../../b". Proof. reflexivity. Qed.
Example Base_1 : (Base (gostr "a/b//"), Dir (gostr "a/b//"), Base (gostr "///")) = (gostr "b", gostr "a/b", gostr "/").
Proof. reflexivity. Qed.
Example Ext_1 : (Ext (gostr "a.b/c.d.txt"), Ext (gostr "a.b/c"), Ext (gostr ".hid")) = (gostr ".txt", [], gostr ".hid").
Proof. reflexivity. Qed.

(** ** Clean paths

    A clean path is made of proper elements, after some [..] if it is relative. *)

Definition proper (c : bytes) : Prop := c <> [] /\ c <> dot /\ c <> dotdot /\ PathSeparator ∉ c.
Definition normal (abs : bool) (cs : list bytes) : Prop :=
  exists n ds, cs = replicate n dotdot ++ ds /\ Forall proper ds /\ (abs = true -> n = O).

#[export] Instance proper_dec c : Decision (proper c).
Proof. unfold proper. solve_decision. Defined.

Lemma proper_sep c : proper c -> PathSeparator ∉ c.
Proof. by intros (_ & _ & _ & ?). Qed.
Lemma normal_sep abs cs : normal abs cs -> Forall (fun c => PathSeparator ∉ c) cs.
Proof.
  intros (n & ds & -> & Hd & _). apply Forall_app. split.
  - apply Forall_replicate. vm_compute. inversion 1 as [|? ? ? H]; inversion H as [|? ? ? H']; inversion H'.
  - eapply Forall_impl; [exact proper_sep|done].
Qed.
Lemma normal_proper abs ds : Forall proper ds -> normal abs ds.
Proof. by exists O, ds. Qed.
Lemma proper_seps ds : Forall proper ds -> Forall (fun c => PathSeparator ∉ c) ds.
Proof. intros H. eapply Forall_impl; [exact proper_sep|done]. Qed.
#[export] Hint Resolve proper_sep proper_seps normal_proper : sync.


Lemma split_sep s : Forall (fun c => PathSeparator ∉ c) (split PathSeparator s).
Proof.
  induction s as [|c s IH]; cbn; [by repeat constructor; apply not_elem_of_nil|].
  case_decide as E; [constructor; [apply not_elem_of_nil|done]|].
  pose proof (split_not_nil PathSeparator s). destruct (split PathSeparator s) as [|p ps]; [done|].
  inversion IH; subst. constructor; [|done]. rewrite not_elem_of_cons. split; [congruence|done].
Qed.

(** The kept elements, the last one first. *)
Definition stack (abs : bool) (st : list bytes) : Prop := normal abs (reverse st).

Lemma clean_step_proper abs st c : proper c -> clean_step abs st c = c :: st.
Proof.
  intros (H1 & H2 & H3 & _). unfold clean_step.
  rewrite (bool_decide_false (c = dot)), (bool_decide_false (c = dotdot)) by done. by destruct c.
Qed.
Lemma clean_steps_proper abs ds st : Forall proper ds -> fold_left (clean_step abs) ds st = reverse ds ++ st.
Proof.
  intros H. revert st. induction H as [|d ds Hd _ IH]; intros st; [done|].
  cbn [fold_left]. rewrite clean_step_proper, IH, reverse_cons by done. by rewrite <- app_assoc.
Qed.
Lemma reverse_replicate {A} n (x : A) : reverse (replicate n x) = replicate n x.
Proof.
  induction n as [|n IH]; [done|]. cbn [replicate]. rewrite reverse_cons, IH. symmetry. apply replicate_cons_app.
Qed.
Lemma clean_steps_dotdot n k : fold_left (clean_step false) (replicate n dotdot) (replicate k dotdot) = replicate (n + k) dotdot.
Proof.
  revert k. induction n as [|n IH]; intros k; [done|]. cbn [replicate fold_left].
  assert (clean_step false (replicate k dotdot) dotdot = replicate (S k) dotdot) as -> by (by destruct k).
  rewrite IH. f_equal. lia.
Qed.
Lemma clean_elems_normal abs cs : normal abs cs -> clean_elems abs cs = cs.
Proof.
  intros (n & ds & -> & Hd & Hn). unfold clean_elems. rewrite fold_left_app.
  destruct abs; [rewrite (Hn eq_refl); cbn|
    rewrite (clean_steps_dotdot n 0 : fold_left _ _ [] = _), Nat.add_0_r].
  - by rewrite clean_steps_proper, app_nil_r, reverse_involutive.
  - by rewrite clean_steps_proper, reverse_app, reverse_involutive, reverse_replicate.
Qed.

Lemma stack_push abs st c : stack abs st -> proper c -> stack abs (c :: st).
Proof.
  intros (n & ds & E & Hd & Hn) Hc. exists n, (ds ++ [c]). split_and!; [by rewrite reverse_cons, E, <- app_assoc| |done].
  apply Forall_app. split; [done|by apply Forall_singleton].
Qed.
Lemma stack_pop abs st c : stack abs (c :: st) -> c <> dotdot -> stack abs st.
Proof.
  intros (n & ds & E & Hd & Hn) Hc. rewrite reverse_cons in E.
  destruct ds as [|d ds' _] using rev_ind.
  - rewrite app_nil_r in E. destruct n as [|n]; [by destruct (reverse st)|].
    rewrite replicate_S_end in E. apply app_inj_tail in E as [_ ?]. done.
  - rewrite app_assoc in E. apply app_inj_tail in E as [E _]. apply Forall_app in Hd as [Hd _]. by exists n, ds'.
Qed.
Lemma stack_dotdot st : stack false (dotdot :: st) -> stack false (dotdot :: dotdot :: st).
Proof.
  intros (n & ds & E & Hd & _). rewrite reverse_cons in E.
  destruct ds as [|d ds' _] using rev_ind.
  - exists (S n), []. rewrite app_nil_r in *. split_and!; [|done|done].
    by rewrite reverse_cons, reverse_cons, E, replicate_S_end.
  - rewrite app_assoc in E. apply app_inj_tail in E as [_ <-].
    apply Forall_app in Hd as [_ Hd]. rewrite Forall_singleton in Hd. destruct Hd as (_ & _ & ? & _); congruence.
Qed.
Lemma stack_dotdot_abs st : ~ stack true (dotdot :: st).
Proof.
  intros (n & ds & E & Hd & Hn). rewrite (Hn eq_refl), reverse_cons in E.
  rewrite <- (E : _ = ds) in Hd. apply Forall_app in Hd as [_ Hd]. rewrite Forall_singleton in Hd.
  destruct Hd as (_ & _ & ? & _); congruence.
Qed.
Lemma clean_step_stack abs st c : PathSeparator ∉ c -> stack abs st -> stack abs (clean_step abs st c).
Proof.
  intros Hc Hs. unfold clean_step. destruct (is_nil c || bool_decide (c = dot)) eqn:E1; [done|].
  apply orb_false_iff in E1 as [E1 E2]. apply bool_decide_eq_false in E2.
  destruct (bool_decide (c = dotdot)) eqn:E3.
  - destruct st as [|x st]; [destruct abs; [done|by exists 1%nat, []]|].
    destruct (bool_decide (x = dotdot)) eqn:E4.
    + apply bool_decide_eq_true in E4 as ->. destruct abs; [by apply stack_dotdot_abs in Hs|by apply stack_dotdot].
    + apply bool_decide_eq_false in E4. by eapply stack_pop.
  - apply bool_decide_eq_false in E3. apply stack_push; [done|]. repeat split; [|done..]. by destruct c.
Qed.
Lemma clean_elems_is_normal abs cs : Forall (fun c => PathSeparator ∉ c) cs -> normal abs (clean_elems abs cs).
Proof.
  intros H. unfold clean_elems.
  enough (forall st, stack abs st -> stack abs (fold_left (clean_step abs) cs st)) as G by (apply G; by exists O, []).
  induction H as [|c cs Hc _ IH]; intros st Hs; [done|]. cbn [fold_left]. apply IH. by apply clean_step_stack.
Qed.

Lemma Clean_render p : exists cs, normal (IsAbs p) cs /\ Clean p = render (IsAbs p) cs.
Proof. exists (clean_elems (IsAbs p) (split PathSeparator p)). split; [|done]. apply clean_elems_is_normal, split_sep. Qed.

Lemma render_not_nil abs cs : Forall (fun c => c <> []) cs -> render abs cs <> [].
Proof.
  unfold render. destruct abs; [done|]. destruct 1 as [|c cs Hc _]; [done|]. destruct cs; cbn; [done|]. by destruct c.
Qed.
Lemma normal_not_nil abs cs : normal abs cs -> Forall (fun c => c <> []) cs.
Proof.
  intros (n & ds & -> & Hd & _). apply Forall_app. split; [by apply Forall_replicate|].
  eapply Forall_impl; [|exact Hd]. by intros c (? & _).
Qed.
Lemma IsAbs_join cs : Forall (fun c => PathSeparator ∉ c) cs -> Forall (fun c => c <> []) cs ->
  IsAbs (join PathSeparator cs) = false.
Proof.
  intros H1 H2. destruct H1 as [|c cs Hc _]; [done|]. inversion H2; subst. destruct c as [|b c]; [done|].
  apply not_elem_of_cons in Hc as [Hb _]. unfold IsAbs. destruct cs; cbn; by rewrite decide_False.
Qed.
Lemma IsAbs_render abs cs : normal abs cs -> IsAbs (render abs cs) = abs.
Proof.
  intros Hn. unfold render. destruct abs; [done|]. destruct cs as [|c cs]; [done|].
  apply IsAbs_join; eauto using normal_sep, normal_not_nil.
Qed.
Lemma split_render cs : Forall (fun c => PathSeparator ∉ c) cs -> cs <> [] -> split PathSeparator (join PathSeparator cs) = cs.
Proof. intros. by apply split_join. Qed.
Lemma clean_split_render abs cs : normal abs cs -> clean_elems abs (split PathSeparator (render abs cs)) = cs.
Proof.
  intros Hn. pose proof (normal_sep _ _ Hn) as Hs. unfold render. destruct abs.
  - change (PathSeparator :: join PathSeparator cs) with ([] ++ PathSeparator :: join PathSeparator cs).
    rewrite split_app_sep by apply not_elem_of_nil. destruct cs as [|c cs]; [done|].
    rewrite split_render by done. exact (clean_elems_normal true _ Hn).
  - destruct cs as [|c cs]; [done|]. rewrite split_render by done. by apply clean_elems_normal.
Qed.
Lemma Clean_of_render abs cs : normal abs cs -> Clean (render abs cs) = render abs cs.
Proof. intros Hn. unfold Clean. by rewrite IsAbs_render, clean_split_render. Qed.
Lemma Clean_idempotent p : Clean (Clean p) = Clean p.
Proof. destruct (Clean_render p) as (cs & Hn & ->). by apply Clean_of_render. Qed.

(** ** Names stay below the root *)

Lemma join_cons2 c cs : cs <> [] -> join PathSeparator (c :: cs) = c ++ PathSeparator :: join PathSeparator cs.
Proof. by destruct cs. Qed.
Lemma normal_false_cases cs : normal false cs ->
  Forall proper cs \/ cs = [dotdot] \/ exists cs', cs = dotdot :: cs' /\ cs' <> [].
Proof.
  intros (n & ds & -> & Hd & _). destruct n as [|n]; [by left|]. right. cbn [replicate app].
  destruct (replicate n dotdot ++ ds) as [|x l]; [by left|right]. exists (x :: l). by split.
Qed.
Lemma dotdot_sep : PathSeparator ∉ dotdot.
Proof. by apply (bool_decide_unpack _). Qed.

(** The first element of a path tells whether it goes upwards. *)
Lemma proper_not_upwards ds : Forall proper ds ->
  render false ds <> dotdot /\ hasPrefix (render false ds) (dotdot ++ [PathSeparator]) = false /\
  hasPrefix (render false ds) [PathSeparator] = false.
Proof.
  intros Hd. pose proof (IsAbs_render false ds (normal_proper _ _ Hd)) as Ha.
  destruct ds as [|d ds]; [by repeat split|].
  assert (split PathSeparator (render false (d :: ds)) = d :: ds) as Hs
    by (apply split_render; [by apply proper_seps|done]).
  assert (d <> dotdot) as Hdd by (by destruct (Forall_inv Hd) as (_ & _ & ? & _)).
  split_and!; [..|exact Ha].
  - intros E. rewrite E, split_single in Hs by apply dotdot_sep. congruence.
  - apply not_true_iff_false. intros [r E]%hasPrefix_spec. rewrite <- app_assoc in E.
    rewrite E in Hs. cbn [app] in Hs. rewrite split_app_sep in Hs by apply dotdot_sep. congruence.
Qed.

(** What [Canonicalize] makes of a clean path. *)
Definition canonical_of (file : bytes) : outcome path_err bytes :=
  if bool_decide (file = dotdot) then Err ErrPathTraversingUpwards
  else if hasPrefix file (dotdot ++ [PathSeparator]) then Err ErrPathTraversingUpwards
  else if hasPrefix file [PathSeparator] then
    if bool_decide (file = [PathSeparator]) then Ret dot else Ret (tl file)
  else Ret file.
Lemma canonical_of_rel ds : Forall proper ds -> canonical_of (render false ds) = Ret (render false ds).
Proof.
  intros Hd. destruct (proper_not_upwards ds Hd) as (H1 & H2 & H3). unfold canonical_of.
  by rewrite bool_decide_false, H2, H3.
Qed.
Lemma canonical_of_abs ds : Forall proper ds -> canonical_of (render true ds) = Ret (render false ds).
Proof.
  intros Hd. unfold canonical_of, render. rewrite bool_decide_false by done.
  replace (hasPrefix (PathSeparator :: _) (_ ++ _)) with false by done.
  replace (hasPrefix (PathSeparator :: _) _) with true by (by destruct (join _ _)).
  destruct ds as [|d ds]; [done|]. rewrite bool_decide_false; [done|].
  intros [= E]. destruct (Forall_inv Hd) as (Hne & _). destruct d; [done|by destruct ds].
Qed.
Lemma canonical_of_proper cs r abs : normal abs cs -> canonical_of (render abs cs) = Ret r ->
  exists ds, Forall proper ds /\ r = render false ds.
Proof.
  intros Hn. destruct abs.
  - destruct Hn as (n & ds & -> & Hd & Hn). rewrite (Hn eq_refl). change (replicate 0 dotdot ++ ds) with ds. rewrite canonical_of_abs by done. intros [= <-]. by exists ds.
  - destruct (normal_false_cases cs Hn) as [Hd|[ -> |(cs' & -> & Hne)] ]; [|done|].
    + rewrite canonical_of_rel by done. intros [= <-]. by exists cs.
    + unfold render. rewrite join_cons2 by done. unfold canonical_of. by destruct (bool_decide _).
Qed.
Lemma Canonicalize_proper f r : Canonicalize f = Ret r -> exists ds, Forall proper ds /\ r = render false ds.
Proof.
  unfold Canonicalize. case_bool; [done|]. destruct (Clean_render f) as (cs & Hn & E). rewrite E.
  exact (canonical_of_proper cs r _ Hn).
Qed.
Lemma Canonicalize_rel ds : Forall proper ds -> Canonicalize (render false ds) = Ret (render false ds).
Proof.
  intros Hd. unfold Canonicalize. rewrite (Clean_of_render false) by auto with sync.
  destruct (hasPrefix _ [PathSeparator; PathSeparator]) eqn:E; [|by apply canonical_of_rel].
  destruct (proper_not_upwards ds Hd) as (_ & _ & H). apply hasPrefix_spec in E as [r E]. by rewrite E in H.
Qed.

Lemma split_app p q : split PathSeparator (p ++ PathSeparator :: q) = split PathSeparator p ++ split PathSeparator q.
Proof.
  induction p as [|c p IH]; cbn; [done|]. case_decide; rewrite IH; [done|].
  pose proof (split_not_nil PathSeparator p). by destruct (split PathSeparator p).
Qed.
Lemma clean_steps_rel abs ds st : Forall proper ds ->
  fold_left (clean_step abs) (split PathSeparator (render false ds)) st = reverse ds ++ st.
Proof.
  intros Hd. destruct ds as [|d ds]; [done|].
  replace (split _ _) with (d :: ds) by (symmetry; apply split_render; [by apply proper_seps|done]).
  by apply clean_steps_proper.
Qed.
Lemma clean_steps_abs rs : Forall proper rs ->
  fold_left (clean_step true) (split PathSeparator (render true rs)) [] = reverse rs.
Proof.
  intros Hr. rewrite <- (reverse_involutive (fold_left _ _ _)). f_equal.
  apply (clean_split_render true). by apply normal_proper.
Qed.

Lemma Join_root rs ds : Forall proper rs -> Forall proper ds ->
  Join [render true rs; render false ds] = render true (rs ++ ds).
Proof.
  intros Hr Hd. change (Join _) with (Clean (render true rs ++ PathSeparator :: render false ds)).
  unfold Clean. change (IsAbs _) with true. f_equal. unfold clean_elems.
  rewrite split_app, fold_left_app, clean_steps_abs, clean_steps_rel by done.
  by rewrite <- reverse_app, reverse_involutive.
Qed.
Lemma Join_rel ds c : Forall proper ds -> proper c ->
  Join [render false ds; c] = join PathSeparator (ds ++ [c]).
Proof.
  intros Hd Hc. assert (Forall proper (ds ++ [c])) as Hdc by (apply Forall_app; split; [done|by apply Forall_singleton]).
  assert (render false (ds ++ [c]) = join PathSeparator (ds ++ [c])) as <- by (by destruct ds).
  assert (IsAbs (render false ds) = false) as Ha by (apply IsAbs_render; by apply normal_proper).
  cbn [Join]. destruct (is_nil (render false ds)) eqn:E.
  { destruct ds as [|d ds]; [done|]. destruct (render_not_nil false (d :: ds)); [|by destruct (render _ _)].
    by eapply (normal_not_nil true), normal_proper. }
  cbn [join]. unfold Clean.
  assert (IsAbs (render false ds ++ PathSeparator :: c) = false) as ->.
  { destruct (render false ds) as [|b r]; [done|]. unfold IsAbs in *. cbn in *. by case_decide. }
  f_equal. unfold clean_elems. rewrite split_app, fold_left_app, clean_steps_rel by done.
  rewrite (split_single _ c) by auto with sync. cbn [fold_left].
  rewrite clean_step_proper, app_nil_r by done. by rewrite reverse_cons, reverse_involutive.
Qed.

Lemma checkFilename_proper ds : ds <> [] -> Forall proper ds -> checkFilename (join PathSeparator ds) = Ret tt.
Proof.
  intros Hne Hd. assert (forall ds : list bytes, ds <> [] -> join PathSeparator ds = render false ds) as Hj by (by intros []).
  unfold checkFilename. rewrite Hj by done. rewrite (Clean_of_render false) by auto with sync.
  destruct (proper_not_upwards ds Hd) as (H1 & H2 & H3). rewrite H2, H3.
  rewrite bool_decide_true by done. cbn [negb].
  rewrite (bool_decide_false (_ = dotdot)), orb_false_r by done.
  rewrite (bool_decide_false (_ = [])) by (apply render_not_nil; by eapply (normal_not_nil true), normal_proper).
  rewrite bool_decide_false; [done|]. rewrite <- Hj by done. intros E.
  apply (f_equal (split PathSeparator)) in E. rewrite split_render in E by auto with sync.
  cbn in E. subst ds. by destruct (Forall_inv Hd) as (_ & ? & _).
Qed.

(** C9: File names never leave the folder: whatever name a device sends, the
    path that [rooted] gives is the root or below it, and a name that passes
    [checkFilename] denotes a path of its own below the root. *)
Theorem names_confined rs name p (Hr : Forall proper rs) :
  (rooted name (render true rs) = Ret p -> exists ds, Forall proper ds /\ p = render true (rs ++ ds)) /\
  (checkFilename name = Ret tt <-> exists ds, ds <> [] /\ Forall proper ds /\ name = join PathSeparator ds) /\
  (forall ds, ds <> [] -> Forall proper ds ->
    rooted (join PathSeparator ds) (render true rs) = Ret (render true (rs ++ ds))).
Proof.
  assert (forall ds : list bytes, ds <> [] -> join PathSeparator ds = render false ds) as Hj by (by intros []).
  unfold rooted. assert (is_nil (render true rs) = false) as -> by done. split_and!.
  - destruct (Canonicalize name) as [r| | |] eqn:E; [|done..]. intros [= <-].
    apply Canonicalize_proper in E as (ds & Hd & ->). exists ds. split; [done|]. by apply Join_root.
  - unfold checkFilename. split.
    + destruct (Clean_render name) as (cs & Hn & E). rewrite E. generalize dependent (IsAbs name). intros a Hn E.
      destruct (bool_decide (_ = name)) eqn:Ec; [|done]. apply bool_decide_eq_true in Ec. subst name. destruct a.
      { replace (hasPrefix (render true cs) [PathSeparator]) with true by (by unfold render; destruct (join PathSeparator cs)).
        cbn. by destruct (_ || _). }
      destruct (normal_false_cases cs Hn) as [Hd|[ -> |(cs' & -> & Hne)] ]; [|done|].
      * intros Hk. exists cs. by destruct cs.
      * unfold render. rewrite join_cons2 by done. cbn. by repeat case_bool.
    + intros (ds & Hne & Hd & ->). by apply checkFilename_proper.
  - intros ds Hne Hd. rewrite Hj, Canonicalize_rel, <- Join_root by done. reflexivity.
Qed.

Theorem names_confined_witness :
  Forall proper [gostr "home"; gostr "sync"] /\
  (rooted (gostr "x/../a.txt") (render true [gostr "home"; gostr "sync"]) = Ret (gostr "/home/sync/a.txt") ->
   exists ds, Forall proper ds /\ gostr "/home/sync/a.txt" = render true ([gostr "home"; gostr "sync"] ++ ds)).
Proof.
  assert (Forall proper [gostr "home"; gostr "sync"]) as H by (by apply (bool_decide_unpack _)).
  split; [exact H|]. apply (names_confined _ (gostr "x/../a.txt") _ H).
Defined.

(** ** Temporary names and conflict copies *)

Lemma split_last_no_sep b : PathSeparator ∉ b -> split_last b = ([], b).
Proof.
  induction b as [|c b IH]; [done|]. intros [Hc Hb]%not_elem_of_cons. cbn. rewrite IH by done. by rewrite decide_False.
Qed.
Lemma split_last_app p b : PathSeparator ∉ b -> split_last (p ++ PathSeparator :: b) = (p ++ [PathSeparator], b).
Proof.
  intros Hb. induction p as [|c p IH].
  - cbn. rewrite split_last_no_sep by done. by rewrite decide_True.
  - cbn. rewrite IH. by destruct p.
Qed.
Lemma join_snoc ds b : ds <> [] -> join PathSeparator (ds ++ [b]) = join PathSeparator ds ++ PathSeparator :: b.
Proof.
  induction ds as [|d ds IH]; [done|]. intros _. destruct ds as [|d' ds]; [done|].
  cbn [app]. rewrite (join_cons2 d (d' :: ds ++ [b])), (join_cons2 d (d' :: ds)), <- app_assoc by done.
  cbn [app]. f_equal. f_equal. by apply IH.
Qed.
Lemma strip_slashes_id p : hasPrefix p [PathSeparator] = false -> strip_slashes p = p.
Proof. destruct p as [|c p]; [done|]. cbn. case_decide as E; [|case_decide; congruence]. by rewrite E, decide_True. Qed.

Lemma Clean_slash ds : Forall proper ds -> Clean (render false ds ++ [PathSeparator]) = render false ds.
Proof.
  intros Hds. assert (IsAbs (render false ds ++ [PathSeparator]) = false) as Ha.
  { pose proof (IsAbs_render false ds (normal_proper _ _ Hds)) as H. pose proof (render_not_nil false ds).
    destruct (render false ds); [|unfold IsAbs in *; cbn in *; by case_decide].
    destruct H0; [|done]. by eapply (normal_not_nil true), normal_proper. }
  unfold Clean. rewrite Ha. f_equal. unfold clean_elems.
  rewrite (split_app _ []), fold_left_app, clean_steps_rel, app_nil_r by done. cbn. apply reverse_involutive.
Qed.
Lemma render_not_dot ds : Forall proper ds -> ds <> [] -> render false ds <> dot.
Proof.
  intros Hd Hne E. apply (f_equal (clean_elems false ∘ split PathSeparator)) in E. unfold compose in E.
  by rewrite clean_split_render in E by (by apply normal_proper).
Qed.

Section Names.
Context (ds : list bytes) (b : bytes) (Hds : Forall proper ds) (Hb : proper b).

Lemma split_last_name : split_last (join PathSeparator (ds ++ [b])) =
  (match ds with [] => [] | _ => join PathSeparator ds ++ [PathSeparator] end, b).
Proof using Hb Hds.
  destruct ds as [|d ds'] eqn:E; [by apply split_last_no_sep, proper_sep|].
  rewrite join_snoc by done. by apply split_last_app, proper_sep.
Qed.
Lemma name_end : exists p c, join PathSeparator (ds ++ [b]) = p ++ [c] /\ c <> PathSeparator.
Proof using Hb.
  clear Hds.
  destruct Hb as (Hne & _ & _ & Hs). destruct b as [|c b' _] using rev_ind; [done|].
  apply not_elem_of_app in Hs as [_ Hs]. rewrite list_elem_of_singleton in Hs.
  destruct ds as [|d ds']; [by exists b', c|]. rewrite join_snoc by done.
  exists (join PathSeparator (d :: ds') ++ PathSeparator :: b'), c. by rewrite <- app_assoc.
Qed.
Lemma strip_end : reverse (strip_slashes (reverse (join PathSeparator (ds ++ [b])))) = join PathSeparator (ds ++ [b]).
Proof using Hb.
  clear Hds.
  destruct name_end as (p & c & -> & Hc).
  rewrite reverse_snoc, strip_slashes_id, reverse_cons, reverse_involutive; [done|]. cbn. by rewrite decide_False.
Qed.
Lemma Base_name : Base (join PathSeparator (ds ++ [b])) = b.
Proof using Hb Hds.
  unfold Base. rewrite strip_end.
  rewrite split_last_name. cbn [snd]. destruct Hb as (Hne & _).
  assert (is_nil (join PathSeparator (ds ++ [b])) = false) as ->.
  { destruct ds as [|d ds']; [by destruct b|]. rewrite join_snoc by done. by destruct (join _ _). }
  by destruct b.
Qed.
Lemma Dir_name : Dir (join PathSeparator (ds ++ [b])) = render false ds.
Proof using Hb Hds.
  unfold Dir. rewrite split_last_name. cbn [fst]. destruct (decide (ds = [])) as [ -> |Hne]; [done|].
  assert (match ds with [] => [] | _ => join PathSeparator ds ++ [PathSeparator] end = render false ds ++ [PathSeparator]) as ->
    by (by destruct ds).
  by apply Clean_slash.
Qed.
End Names.

(** *** Names and their parents *)

Lemma hasPrefix_snoc p q c : hasPrefix p (q ++ [c]) = hasPrefix p q && bool_decide (p !! length q = Some c).
Proof.
  revert p. induction q as [|d q IH]; intros [|e p]; cbn; [done| |done|].
  - case_decide as E; [subst; by rewrite bool_decide_true|]. rewrite bool_decide_false; congruence.
  - case_decide; [apply IH|done].
Qed.

Lemma join_app es k : es <> [] -> k <> [] -> join PathSeparator (es ++ k) = join PathSeparator es ++ PathSeparator :: join PathSeparator k.
Proof.
  intros Hes Hk. induction es as [|e [|e' es'] IH]; [done|by apply join_cons2|].
  change ((e :: e' :: es') ++ k) with (e :: ((e' :: es') ++ k)). rewrite (join_cons2 e (_ ++ k)), (join_cons2 e (e' :: es')) by done.
  rewrite IH by done. by rewrite <- !app_assoc.
Qed.

Section Below.
Context (ds es : list bytes) (Hd : Forall proper ds) (He : Forall proper es) (Hes : es <> []).

(** The item is strictly below the other one. *)
Definition below (ds es : list bytes) : Prop := exists k, k <> [] /\ ds = es ++ k.

Lemma hasPrefix_below : ds <> [] ->
  hasPrefix (join PathSeparator ds) (join PathSeparator es ++ [PathSeparator]) = true <-> below ds es.
Proof using Hd He Hes.
  intros Hds. rewrite hasPrefix_spec. split.
  - intros [r E]. exists (split PathSeparator r). split; [apply split_not_nil|].
    rewrite <- app_assoc in E. cbn [app] in E. apply (f_equal (split PathSeparator)) in E.
    rewrite split_app, !split_join in E by (try done; by apply proper_seps). done.
  - intros (k & Hk & ->). exists (join PathSeparator k). rewrite join_app by done. by rewrite <- app_assoc.
Qed.
Lemma join_nonempty : join PathSeparator es <> [].
Proof using He Hes. pose proof (render_not_nil false es (normal_not_nil false _ (normal_proper _ _ He))) as H. by destruct es. Qed.
Lemma name_last : list.last (join PathSeparator es) <> Some PathSeparator.
Proof using He Hes.
  destruct (exists_last Hes) as (es' & b & E). rewrite E in He |- *. apply Forall_app in He as [He1 He2].
  apply Forall_inv in He2. destruct (name_end es' b He2) as (p & c & -> & Hc). rewrite last_snoc. congruence.
Qed.
Lemma IsParent_below : ds <> [] -> IsParent (join PathSeparator ds) (join PathSeparator es) = true <-> below ds es.
Proof using Hd He Hes.
  intros Hds. rewrite <- hasPrefix_below by done. rewrite hasPrefix_snoc.
  assert (IsAbs (join PathSeparator ds) = false) as A1 by (pose proof (IsAbs_render false ds (normal_proper _ _ Hd)); by destruct ds).
  assert (IsAbs (join PathSeparator es) = false) as A2 by (pose proof (IsAbs_render false es (normal_proper _ _ He)); by destruct es).
  pose proof join_nonempty as Hne.
  assert (join PathSeparator es <> dot) as Hdot.
  { pose proof (render_not_dot es He Hes). by destruct es. }
  pose proof name_last as Hlast.
  unfold IsParent. rewrite A1, A2. cbn [eqb negb].
  rewrite (bool_decide_false (join PathSeparator es = dot)), (bool_decide_false (list.last _ = _)) by done.
  assert (is_nil (join PathSeparator es) = false) as -> by (by destruct (join PathSeparator es)).
  rewrite (bool_decide_false (join PathSeparator es = [PathSeparator])) by (intros E; by rewrite E in A2).
  cbn [orb]. case_bool.
  - zbool. rewrite <- Heqb. rewrite lookup_ge_None_2 by lia. by rewrite (bool_decide_false (None = _)), andb_false_r.
  - destruct (hasPrefix _ _) eqn:Ep; [|done]. cbn [negb andb]. case_bool; [|done].
    apply Nat.leb_le in Heqb0. rewrite lookup_ge_None_2 by done. by rewrite (bool_decide_false (None = _)).
Qed.
Lemma trimPrefix_below k : ds = es ++ k -> k <> [] ->
  trimPrefix (join PathSeparator ds) (join PathSeparator es ++ [PathSeparator]) = join PathSeparator k.
Proof using Hd He Hes.
  intros E Hk. assert (ds <> []) as Hds by (rewrite E; by destruct es).
  assert (below ds es) as Hb by (by exists k). unfold trimPrefix. rewrite (proj2 (hasPrefix_below Hds) Hb).
  assert (join PathSeparator ds = (join PathSeparator es ++ [PathSeparator]) ++ join PathSeparator k) as ->.
  { rewrite E, join_app by done. by rewrite <- app_assoc. }
  by rewrite drop_app_length.
Qed.
Lemma trimPrefix_not_below : ds <> [] -> ~ below ds es ->
  trimPrefix (join PathSeparator ds) (join PathSeparator es ++ [PathSeparator]) = join PathSeparator ds.
Proof using Hd He Hes. intros Hds Hb. unfold trimPrefix. destruct (hasPrefix _ _) eqn:E; [|done]. by apply hasPrefix_below in E. Qed.
End Below.
#[export] Instance below_dec ds es : Decision (below ds es).
Proof.
  refine (cast_if (decide (es `prefix_of` ds /\ ds <> es))).
  - destruct a as [ [k ->] Hn]. exists k. split; [|done]. intros ->. by rewrite app_nil_r in Hn.
  - intros (k & Hk & ->). apply n. split; [by exists k|]. intros E. apply (f_equal length) in E. rewrite length_app in E.
    destruct k; [done|cbn in E; lia].
Defined.

Lemma hasPrefix_app p q : hasPrefix (p ++ q) p = true.
Proof. apply hasPrefix_spec. by exists q. Qed.
Lemma contains_app p s q : contains (p ++ s ++ q) s = true.
Proof.
  induction p as [|c p IH]; cbn [app contains]; [|by rewrite IH, orb_true_r].
  destruct (s ++ q) as [|c l] eqn:E; [by apply app_nil in E as [-> _]|]. cbn [contains].
  by rewrite <- E, hasPrefix_app.
Qed.
Lemma proper_name_mid p m q : PathSeparator ∉ p -> PathSeparator ∉ m -> PathSeparator ∉ q -> (2 < length m)%nat ->
  proper (p ++ m ++ q).
Proof.
  intros Hp Hm Hq Hl. repeat split.
  - intros E. apply (f_equal length) in E. rewrite !length_app in E. cbn in E. lia.
  - intros E. apply (f_equal length) in E. rewrite !length_app in E. cbn in E. lia.
  - intros E. apply (f_equal length) in E. rewrite !length_app in E. cbn in E. lia.
  - by rewrite !not_elem_of_app.
Qed.
Lemma hex_no_sep s : PathSeparator ∉ hexEncode s.
Proof.
  pose proof (hexEncode_chars s) as H. intros Hin. rewrite List.Forall_forall in H. 
  apply list_elem_of_In in Hin. apply H in Hin. unfold is_hex_char, PathSeparator in Hin. rewrite b2z_z2b in Hin.
  change (47 mod 256) with 47 in Hin. lia.
Qed.

Section TempTheorems.
Context (sha256 : bytes -> bytes) (Hlen : forall s, length (sha256 s) = 32%nat).

(** The name of the temporary file in the same directory. *)
Definition temp_base (b : bytes) : bytes :=
  if maxFilenameLength <? zlen b then UnixTempPrefix ++ hexEncode (sha256 b) ++ gostr ".tmp"
  else UnixTempPrefix ++ b ++ gostr ".tmp".
Lemma temp_base_proper b : proper b -> proper (temp_base b).
Proof using.
  clear Hlen. intros Hb. unfold temp_base.
  assert ((PathSeparator ∉ UnixTempPrefix) /\ (PathSeparator ∉ gostr ".tmp")) as [H1 H2] by (by split; apply (bool_decide_unpack _)).
  assert (forall m, PathSeparator ∉ m -> proper (UnixTempPrefix ++ m ++ gostr ".tmp")) as G.
  { intros m Hm. apply (proper_name_mid [] UnixTempPrefix (m ++ gostr ".tmp"));
      [apply not_elem_of_nil|done|by rewrite not_elem_of_app|vm_compute; lia]. }
  case_bool; apply G; [apply hex_no_sep|auto with sync].
Qed.
Lemma TempName_name ds b : Forall proper ds -> proper b ->
  TempName sha256 (join PathSeparator (ds ++ [b])) = join PathSeparator (ds ++ [temp_base b]).
Proof using.
  clear Hlen. intros Hd Hb. unfold TempName, TempNameWithPrefix. rewrite Dir_name, Base_name by done.
  fold (temp_base b). apply Join_rel; [done|by apply temp_base_proper].
Qed.

(** The temporary file of a name is in the same directory, is recognised as
    temporary, has a valid name of at most 160 bytes, and belongs to that name
    only as long as names have at most 145 bytes. *)
Theorem temp_names ds b (Hd : Forall proper ds) (Hb : proper b) :
  let name := join PathSeparator (ds ++ [b]) in
  let temp := TempName sha256 name in
  Dir temp = Dir name /\ IsTemporary temp = true /\ checkFilename temp = Ret tt /\ zlen (Base temp) <= 160 /\
  forall b', proper b' -> zlen b <= maxFilenameLength -> zlen b' <= maxFilenameLength ->
    TempName sha256 (join PathSeparator (ds ++ [b'])) = temp -> b' = b.
Proof using Hlen.
  cbv zeta. rewrite TempName_name by done. pose proof (temp_base_proper b Hb) as Ht. rewrite !Dir_name by done.
  split_and!; [done| | | |].
  - unfold IsTemporary. rewrite Base_name by done. unfold temp_base. case_bool; by rewrite hasPrefix_app, orb_true_r.
  - apply (names_confined [] _ []); [done|]. exists (ds ++ [temp_base b]). split_and!; [by destruct ds| |done].
    apply Forall_app. split; [done|by apply Forall_singleton].
  - rewrite Base_name by done. unfold temp_base. case_bool; zbool; rewrite !length_app; [|change maxFilenameLength with 145 in *; cbn; lia].
    rewrite hexEncode_length, Hlen. cbn. lia.
  - intros b' Hb' H1 H2 E. rewrite TempName_name in E by done. apply (f_equal Base) in E.
    rewrite !Base_name in E by (try done; by apply temp_base_proper). unfold temp_base in E.
    repeat case_bool; zbool; try lia. apply app_inv_head in E. by apply app_inv_tail in E.
Qed.

(** The hash of a long name is itself a valid name with the same temporary file. *)
Lemma temp_name_shared ds b : Forall proper ds -> proper b -> maxFilenameLength < zlen b ->
  TempName sha256 (join PathSeparator (ds ++ [hexEncode (sha256 b)])) = TempName sha256 (join PathSeparator (ds ++ [b])).
Proof using Hlen.
  intros Hd Hb Hl. rewrite !TempName_name; [|done..|].
  - f_equal. f_equal. f_equal. unfold temp_base. rewrite (proj2 (Z.ltb_lt _ _) Hl), hexEncode_length, Hlen. done.
  - pose proof (hex_no_sep (sha256 b)). pose proof (hexEncode_length (sha256 b)) as L. rewrite Hlen in L.
    repeat split; [..|done]; intros E; by rewrite E in L.
Qed.
End TempTheorems.

Theorem temp_names_witness :
  (forall s : bytes, length ((fun _ => replicate 32 x00) s : bytes) = 32%nat) /\
  IsTemporary (TempName (fun _ => replicate 32 x00) (gostr "docs/a.txt")) = true.
Proof.
  split; [done|].
  apply (temp_names (fun _ => replicate 32 x00) (fun _ => eq_refl) [gostr "docs"] (gostr "a.txt"));
    [by apply (bool_decide_unpack _)|by apply (bool_decide_unpack _)].
Defined.

(** *** Extensions *)

Lemma ext_loop_suffix l acc : ext_loop l acc = [] \/ exists l1 l2, l = l1 ++ l2 /\ ext_loop l acc = reverse l1 ++ acc.
Proof.
  revert acc. induction l as [|c l IH]; intros acc; cbn [ext_loop]; [by left|].
  case_decide; [by left|]. case_decide as Ed.
  - right. exists [c], l. by rewrite reverse_singleton, Ed.
  - destruct (IH (c :: acc)) as [E|(l1 & l2 & -> & E)]; rewrite E; [by left|]. right. exists (c :: l1), l2.
    split; [done|]. by rewrite reverse_cons, <- app_assoc.
Qed.
Lemma ext_loop_app l r acc : PathSeparator ∉ l -> ext_loop (l ++ PathSeparator :: r) acc = ext_loop l acc.
Proof.
  revert acc. induction l as [|c l IH]; intros acc; cbn [app ext_loop]; [by rewrite decide_True|].
  intros [Hc Hl]%not_elem_of_cons. rewrite !(decide_False (P := c = PathSeparator)) by done.
  case_decide; [done|by apply IH].
Qed.
Lemma Ext_name ds b : proper b -> Ext (join PathSeparator (ds ++ [b])) = Ext b.
Proof.
  intros Hb. destruct ds as [|d ds]; [done|]. rewrite join_snoc by done. unfold Ext.
  rewrite reverse_app, reverse_cons, <- app_assoc. cbn [app]. apply ext_loop_app.
  rewrite elem_of_reverse. by apply proper_sep.
Qed.
Lemma Ext_suffix b : exists stem, b = stem ++ Ext b.
Proof.
  unfold Ext. destruct (ext_loop_suffix (reverse b) []) as [E|(l1 & l2 & E & ->)]; [exists b; by rewrite E, app_nil_r|].
  exists (reverse l2). rewrite app_nil_r, <- reverse_app, <- E. symmetry. apply reverse_involutive.
Qed.
(** The name without its extension. *)
Definition stem (b : bytes) : bytes := take (length b - length (Ext b)) b.
Lemma stem_ext b : stem b ++ Ext b = b.
Proof.
  unfold stem. destruct (Ext_suffix b) as [s E]. generalize dependent (Ext b). intros e ->.
  rewrite length_app. replace (length s + length e - length e)%nat with (length s) by lia.
  by rewrite take_app_length.
Qed.
Lemma stem_name ds b : proper b ->
  stem (join PathSeparator (ds ++ [b])) = match ds with [] => [] | _ => join PathSeparator ds ++ [PathSeparator] end ++ stem b.
Proof.
  intros Hb. assert (exists p, join PathSeparator (ds ++ [b]) = p ++ b /\
    p = match ds with [] => [] | _ => join PathSeparator ds ++ [PathSeparator] end) as (p & E & Ep).
  { destruct ds as [|d ds]; [by exists []|]. rewrite join_snoc by done. eexists. split; [|reflexivity]. by rewrite <- app_assoc. }
  apply (app_inv_tail (Ext b)). rewrite <- app_assoc, stem_ext, <- Ep, <- E, <- (Ext_name ds b) by done. apply stem_ext.
Qed.

(** *** Conflict copies *)

Section Conflicts.
Context (stamp lastModBy : bytes) (Hstamp : PathSeparator ∉ stamp) (Hby : PathSeparator ∉ lastModBy).

Definition conflict_base (b : bytes) : bytes := stem b ++ conflictMarker ++ stamp ++ gostr "-" ++ lastModBy ++ Ext b.

Lemma stem_ext_no_sep b : PathSeparator ∉ b -> (PathSeparator ∉ stem b) /\ (PathSeparator ∉ Ext b).
Proof. intros H. rewrite <- (stem_ext b) in H. by apply not_elem_of_app in H. Qed.
Lemma conflict_base_proper b : proper b -> proper (conflict_base b).
Proof using Hstamp Hby.
  intros (_ & _ & _ & Hs)%id. apply stem_ext_no_sep in Hs as [H1 H2]. unfold conflict_base.
  apply proper_name_mid; [done|by apply (bool_decide_unpack _)| |cbn; lia].
  rewrite !not_elem_of_app. split_and!; [done|by apply (bool_decide_unpack _)|done..].
Qed.
Lemma conflictName_name ds b : proper b ->
  conflictName stamp (join PathSeparator (ds ++ [b])) lastModBy = join PathSeparator (ds ++ [conflict_base b]).
Proof using.
  clear Hstamp Hby. intros Hb. unfold conflictName. fold (stem (join PathSeparator (ds ++ [b]))).
  rewrite stem_name, Ext_name by done. destruct ds as [|d ds]; [done|]. rewrite join_snoc by done.
  unfold conflict_base. by rewrite <- !app_assoc.
Qed.

(** A conflict copy is in the same directory as its file and has its
    extension and a valid name, it is recognised as a conflict copy, and
    different files have different copies. *)
Theorem conflict_names ds b (Hd : Forall proper ds) (Hb : proper b) :
  let name := join PathSeparator (ds ++ [b]) in
  let copy := conflictName stamp name lastModBy in
  Dir copy = Dir name /\ isConflict copy = true /\ checkFilename copy = Ret tt /\
  forall b', proper b' -> Ext b' = Ext b -> conflictName stamp (join PathSeparator (ds ++ [b'])) lastModBy = copy -> b' = b.
Proof using Hstamp Hby.
  cbv zeta. rewrite conflictName_name by done. pose proof (conflict_base_proper b Hb) as Hc.
  rewrite !Dir_name by done. split_and!; [done| | |].
  - unfold isConflict. rewrite Base_name by done. apply contains_app.
  - apply (names_confined [] _ []); [done|]. exists (ds ++ [conflict_base b]). split_and!; [by destruct ds| |done].
    apply Forall_app. split; [done|by apply Forall_singleton].
  - intros b' Hb' He E. rewrite conflictName_name in E by done. apply (f_equal Base) in E.
    rewrite !Base_name in E by (try done; by apply conflict_base_proper). unfold conflict_base in E. rewrite He in E.
    apply app_inv_tail in E. by rewrite <- (stem_ext b), <- (stem_ext b'), He, E.
Qed.
End Conflicts.

Theorem conflict_names_witness :
  (PathSeparator ∉ gostr "20240102-030405") /\
  isConflict (conflictName (gostr "20240102-030405") (gostr "docs/a.txt") (gostr "ABCDEFG")) = true.
Proof.
  split; [by apply (bool_decide_unpack _)|].
  apply (conflict_names (gostr "20240102-030405") (gostr "ABCDEFG") ltac:(by apply (bool_decide_unpack _))
    ltac:(by apply (bool_decide_unpack _)) [gostr "docs"] (gostr "a.txt")); by apply (bool_decide_unpack _).
Defined.

(** The part of [filepath.Match] that [conflictPattern] needs, for a name without
    special characters of its own. *)
Fixpoint glob (p s : bytes) : bool :=
  match p with
  | [] => is_nil s
  | c :: p' =>
      if decide (c = z2b 42) then
        (fix star (s : bytes) : bool :=
           glob p' s || match s with [] => false | d :: s' => negb (bool_decide (d = PathSeparator)) && star s' end) s
      else
        match s with
        | [] => false
        | d :: s' =>
            (if decide (c = z2b 63) then negb (bool_decide (d = PathSeparator)) else bool_decide (d = c)) && glob p' s'
        end
  end.

Example own_copies : glob (conflictPattern (gostr "docs/notes.txt"))
  (conflictName (gostr "20240102-030405") (gostr "docs/notes.txt") (gostr "ABCDEFG")) = true.
Proof. vm_compute. reflexivity. Qed.
(** For a file without an extension the pattern also matches the conflict copies
    of the files of the same name with any extension. *)
Lemma conflicts_of_other_files : glob (conflictPattern (gostr "notes"))
  (conflictName (gostr "20240102-030405") (gostr "notes.txt") (gostr "ABCDEFG")) = true.
Proof. vm_compute. reflexivity. Qed.
