(* ===== verification/Vector.v ===== *)
(** * Version vectors (lib/protocol/vector.go)

    A [Vector] is the list of counters of the Go struct.  Operations return
    the vector the Go method returns; the in-place update that Update and
    Merge may do on their receiver is not observable by callers that, as all
    callers of the program do, only keep the returned vector. *)
From Stdlib Require Import ZArith List Lia Sorted.
From Stdlib Require Import Strings.Byte.
From stdpp Require Import base list option numbers tactics.
From S2P Require Import Prelude GoLib.

#[local] Open Scope Z_scope.

(** ** Data *)

Record Counter := { ID : Z; Value : Z }.
Record Vector := { Counters : list Counter }.

#[export] Instance Counter_eq_dec : EqDecision Counter.
Proof. solve_decision. Defined.
#[export] Instance Vector_eq_dec : EqDecision Vector.
Proof. solve_decision. Defined.

Inductive Ordering := Equal | Greater | Lesser | ConcurrentLesser | ConcurrentGreater.

#[export] Instance Ordering_eq_dec : EqDecision Ordering.
Proof. solve_decision. Defined.

(** Both fields of a counter are uint64. *)
Definition counter_wf (c : Counter) : Prop :=
  0 <= ID c < 2 ^ 64 /\ 0 <= Value c < 2 ^ 64.
(** The representation invariant: counters in strictly increasing ID order. *)
Definition id_lt (c d : Counter) : Prop := ID c < ID d.
Definition vector_wf (v : Vector) : Prop :=
  StronglySorted id_lt (Counters v) /\ Forall counter_wf (Counters v).

(** ** Operations *)

(** [Vector.Counter]: the value of the first counter with this ID. *)
Fixpoint counter_of (cs : list Counter) (id : Z) : Z :=
  match cs with
  | [] => 0
  | c :: cs' => if ID c =? id then Value c else counter_of cs' id
  end.
Definition Vector_Counter (v : Vector) (id : Z) : Z := counter_of (Counters v) id.

(** [Vector.updateWithNow]: the loop updates an existing counter, or inserts a
    new one before the first larger ID, or appends. *)
Fixpoint update_loop (id now : Z) (cs : list Counter) : list Counter :=
  match cs with
  | [] => [{| ID := id; Value := Z.max 1 now |}]
  | c :: cs' =>
      if ID c =? id then {| ID := id; Value := Z.max (u64 (Value c + 1)) now |} :: cs'
      else if id <? ID c then {| ID := id; Value := Z.max 1 now |} :: c :: cs'
      else c :: update_loop id now cs'
  end.
Definition updateWithNow (v : Vector) (id now : Z) : Vector :=
  {| Counters := update_loop id now (Counters v) |}.
(** [Vector.Update] at the Unix time [now]; the conversion keeps 64 bits. *)
Definition Update (v : Vector) (id now : Z) : Vector := updateWithNow v id (u64 now).

(** [Vector.Merge]: one iteration per step of [vi]; [v] and [b] are the parts
    from [vi] and [bi] on, [done_] the part of the result before [vi]. *)
Fixpoint merge_loop (fuel : nat) (done_ v b : list Counter) : option (list Counter) :=
  match fuel with
  | O => None
  | S fuel =>
      match b with
      | [] => Some (done_ ++ v)
      | bc :: b' =>
          match v with
          | [] => Some (done_ ++ b)
          | vc :: v' =>
              (* insert the index from b before v[vi] if it is smaller *)
              let '(vc, v') := if ID bc <? ID vc then (bc, vc :: v') else (vc, v') in
              let vc := if (ID vc =? ID bc) && (Value vc <? Value bc)
                        then {| ID := ID vc; Value := Value bc |} else vc in
              merge_loop fuel (done_ ++ [vc]) v' (if ID vc =? ID bc then b' else b)
          end
      end
  end.
Definition Merge (v b : Vector) : Vector :=
  {| Counters := default [] (merge_loop (S (length (Counters v) + length (Counters b)))
                               [] (Counters v) (Counters b)) |}.

(** [Vector.Copy], [Vector.IsEmpty], [Vector.DropOthers] *)
Definition Copy (v : Vector) : Vector := {| Counters := Counters v |}.
Definition IsEmpty (v : Vector) : bool := match Counters v with [] => true | _ => false end.
Fixpoint drop_others_loop (id : Z) (cs : list Counter) : list Counter :=
  match cs with
  | [] => []
  | c :: cs' => if ID c =? id then [c] else drop_others_loop id cs'
  end.
Definition DropOthers (v : Vector) (id : Z) : Vector :=
  {| Counters := drop_others_loop id (Counters v) |}.

(** [Vector.Compare]: [a] and [b] are the parts of the two vectors from [ai]
    and [bi] on; a missing counter reads as the zero [Counter]. *)
Definition zeroCounter : Counter := {| ID := 0; Value := 0 |}.

Fixpoint compare_loop (fuel : nat) (a b : list Counter) (result : Ordering) : option Ordering :=
  match fuel with
  | O => None
  | S fuel =>
      if is_nil a && is_nil b then Some result else
      let av := hd zeroCounter a in
      let aMissing := is_nil a in
      let bv := hd zeroCounter b in
      let bMissing := is_nil b in
      let continue_ result :=
        compare_loop fuel
          (if negb aMissing && ((ID av <=? ID bv) || bMissing) then tl a else a)
          (if negb bMissing && ((ID bv <=? ID av) || aMissing) then tl b else b)
          result in
      let greater := if decide (result = Lesser) then Some ConcurrentLesser else continue_ Greater in
      let lesser := if decide (result = Greater) then Some ConcurrentGreater else continue_ Lesser in
      if ID av =? ID bv then
        if Value bv <? Value av then greater
        else if Value av <? Value bv then lesser
        else continue_ result
      else if (negb aMissing && (ID av <? ID bv)) || bMissing then
        if 0 <? Value av then greater else continue_ result
      else if (negb bMissing && (ID bv <? ID av)) || aMissing then
        if 0 <? Value bv then lesser else continue_ result
      else continue_ result
  end.
Definition Compare (v b : Vector) : Ordering :=
  default Equal (compare_loop (S (length (Counters v) + length (Counters b)))
                   (Counters v) (Counters b) Equal).

(** [Vector.Equal], [LesserEqual], [GreaterEqual], [Concurrent] *)
Definition Vector_Equal (v b : Vector) : bool := bool_decide (Compare v b = Equal).
Definition LesserEqual (v b : Vector) : bool :=
  bool_decide (Compare v b = Lesser) || bool_decide (Compare v b = Equal).
Definition GreaterEqual (v b : Vector) : bool :=
  bool_decide (Compare v b = Greater) || bool_decide (Compare v b = Equal).
Definition Concurrent (v b : Vector) : bool :=
  bool_decide (Compare v b = ConcurrentGreater) || bool_decide (Compare v b = ConcurrentLesser).

(** ** Text, wire and database forms *)

Definition comma : byte := z2b 44.
Definition colon : byte := z2b 58.

(** [Vector.String] *)
Definition counter_string (c : Counter) : bytes :=
  hexEncode (putBE 8 (ID c)) ++ colon :: formatUint (Value c).
Definition Vector_String (v : Vector) : bytes := join comma (map counter_string (Counters v)).

Inductive vector_err := BadPair | BadId | BadVal.

(** One iteration of [VectorFromString]; an ID of more than eight bytes makes
    the slice expression [idbs[8-len(idslice):]] panic. *)
Definition counter_from_string (pair : bytes) : outcome vector_err Counter :=
  match cut colon pair with
  | None => Err BadPair
  | Some (idStr, valStr) =>
      match hexDecode idStr with
      | None => Err BadId
      | Some idslice =>
          if 8 <? zlen idslice then Panic
          else
            let idbs := replicate (8 - length idslice) x00 ++ idslice in
            match parseUint valStr with
            | None => Err BadVal
            | Some val => Ret {| ID := getBE idbs; Value := val |}
            end
      end
  end.
Fixpoint counters_from_strings (pairs : list bytes) : outcome vector_err (list Counter) :=
  match pairs with
  | [] => Ret []
  | p :: ps => c ← counter_from_string p; cs ← counters_from_strings ps; Ret (c :: cs)
  end.
Definition VectorFromString (s : bytes) : outcome vector_err Vector :=
  cs ← counters_from_strings (split comma s); Ret {| Counters := cs |}.

(** [Vector.ToWire], [VectorFromWire]: the generated message holds a list of
    [bep.Counter]; a missing vector message is [None]. *)
Record bep_Counter := { bep_Id : Z; bep_Value : Z }.
Definition counter_toWire (c : Counter) : bep_Counter := {| bep_Id := ID c; bep_Value := Value c |}.
Definition counterFromWire (w : bep_Counter) : Counter := {| ID := bep_Id w; Value := bep_Value w |}.
Definition Vector_ToWire (v : Vector) : option (list bep_Counter) := Some (map counter_toWire (Counters v)).
Definition VectorFromWire (w : option (list bep_Counter)) : Vector :=
  match w with
  | None => {| Counters := [] |}
  | Some cs => {| Counters := map counterFromWire cs |}
  end.

(** [dbVector.Scan] of internal/db/sqlite/util.go: the empty string is the
    empty vector, and the counters are put in ID order. *)
Fixpoint insert_by_id (c : Counter) (cs : list Counter) : list Counter :=
  match cs with
  | [] => [c]
  | d :: cs' => if ID c <=? ID d then c :: d :: cs' else d :: insert_by_id c cs'
  end.
Definition sort_by_id (cs : list Counter) : list Counter := foldr insert_by_id [] cs.
Definition dbVector_Scan (s : bytes) : outcome vector_err Vector :=
  match s with
  | [] => Ret {| Counters := [] |}
  | _ => vec ← VectorFromString s; Ret {| Counters := sort_by_id (Counters vec) |}
  end.

(** ** The order the vectors denote

    A vector stands for a total function from IDs to values; [vec_le] is the
    pointwise order, [vec_equiv] its kernel. *)
Definition cs_le (a b : list Counter) : Prop := forall id, counter_of a id <= counter_of b id.
Definition vec_le (v b : Vector) : Prop := forall id, Vector_Counter v id <= Vector_Counter b id.
Definition vec_equiv (v b : Vector) : Prop := forall id, Vector_Counter v id = Vector_Counter b id.

(** What [Compare] promises. *)
Definition ordering_spec (v b : Vector) (o : Ordering) : Prop :=
  match o with
  | Equal => vec_equiv v b
  | Greater => vec_le b v /\ ~ vec_le v b
  | Lesser => vec_le v b /\ ~ vec_le b v
  | ConcurrentLesser | ConcurrentGreater => ~ vec_le v b /\ ~ vec_le b v
  end.

(** The ordering seen from the other side. *)
Definition flip_ordering (o : Ordering) : Ordering :=
  match o with
  | Equal => Equal
  | Greater => Lesser
  | Lesser => Greater
  | ConcurrentLesser => ConcurrentGreater
  | ConcurrentGreater => ConcurrentLesser
  end.

#[export] Instance vec_le_preorder : PreOrder vec_le.
Proof.
  split; [intros v id; lia|]. intros u v w H1 H2 id. specialize (H1 id). specialize (H2 id). lia.
Qed.
#[export] Instance vec_equiv_equivalence : Equivalence vec_equiv.
Proof. split; unfold vec_equiv; repeat intro; congruence. Qed.
#[export] Instance vec_le_proper : Proper (vec_equiv ==> vec_equiv ==> iff) vec_le.
Proof.
  intros v v' Hv b b' Hb. unfold vec_le. split; intros H id; specialize (H id);
    specialize (Hv id); specialize (Hb id); lia.
Qed.

Lemma vec_equiv_le v b : vec_equiv v b <-> vec_le v b /\ vec_le b v.
Proof.
  split; [intros H; split; intros id; specialize (H id); lia|].
  intros [H1 H2] id. specialize (H1 id). specialize (H2 id). lia.
Qed.

(** ** Sorted counter lists *)

Lemma counter_of_above cs id : Forall (fun c => id < ID c) cs -> counter_of cs id = 0.
Proof.
  induction 1 as [|c cs Hc HF IH]; [done|]. simpl.
  destruct (Z.eqb_spec (ID c) id); [lia|done].
Qed.

Lemma sorted_head_above c cs id :
  StronglySorted id_lt (c :: cs) -> id <= ID c -> counter_of cs id = 0.
Proof.
  intros Hs Hid. apply StronglySorted_inv in Hs as [_ Hs]. apply counter_of_above.
  eapply List.Forall_impl; [|exact Hs]. unfold id_lt. intros d Hd. lia.
Qed.

Lemma sorted_below c cs id :
  StronglySorted id_lt (c :: cs) -> id < ID c -> counter_of (c :: cs) id = 0.
Proof.
  intros Hs Hid. simpl. destruct (Z.eqb_spec (ID c) id); [lia|].
  eapply sorted_head_above; [done|lia].
Qed.

Lemma counter_of_nonneg cs id : Forall counter_wf cs -> 0 <= counter_of cs id < 2 ^ 64.
Proof.
  induction 1 as [|c cs [? ?] HF IH]; simpl; [lia|]. by case_match.
Qed.

Lemma counter_of_lookup cs c :
  StronglySorted id_lt cs -> In c cs -> counter_of cs (ID c) = Value c.
Proof.
  induction 1 as [|d cs Hs IH HF]; simpl; [done|].
  intros [->|Hin]; [by rewrite Z.eqb_refl|].
  rewrite List.Forall_forall in HF. specialize (HF _ Hin). unfold id_lt in HF.
  destruct (Z.eqb_spec (ID d) (ID c)); [lia|]. by apply IH.
Qed.

(** Dropping a counter from the side that has it alone. *)
Lemma cs_le_cons_l c a b :
  StronglySorted id_lt (c :: a) -> counter_of b (ID c) = 0 ->
  (cs_le (c :: a) b <-> Value c <= 0 /\ cs_le a b) /\
  (cs_le b (c :: a) <-> 0 <= Value c /\ cs_le b a).
Proof.
  intros Hs Hb. pose proof (sorted_head_above _ _ (ID c) Hs ltac:(lia)) as Ha.
  unfold cs_le; split; split.
  - intros H. split; [specialize (H (ID c)); simpl in H; rewrite Z.eqb_refl in H; lia|].
    intros id. specialize (H id). simpl in H. destruct (Z.eqb_spec (ID c) id); [subst; lia|done].
  - intros [H0 H] id. simpl. destruct (Z.eqb_spec (ID c) id); [subst; lia|done].
  - intros H. split; [specialize (H (ID c)); simpl in H; rewrite Z.eqb_refl in H; lia|].
    intros id. specialize (H id). simpl in H. destruct (Z.eqb_spec (ID c) id); [subst; lia|done].
  - intros [H0 H] id. simpl. destruct (Z.eqb_spec (ID c) id); [subst; lia|done].
Qed.

(** Dropping a counter both sides have. *)
Lemma cs_le_cons_both c d a b :
  StronglySorted id_lt (c :: a) -> StronglySorted id_lt (d :: b) -> ID c = ID d ->
  (cs_le (c :: a) (d :: b) <-> Value c <= Value d /\ cs_le a b).
Proof.
  intros Hc Hd E. pose proof (sorted_head_above _ _ (ID c) Hc ltac:(lia)) as Ha.
  pose proof (sorted_head_above _ _ (ID c) Hd ltac:(lia)) as Hb.
  unfold cs_le; split.
  - intros H. split.
    + specialize (H (ID c)). simpl in H. rewrite <- E, Z.eqb_refl in H. done.
    + intros id. specialize (H id). simpl in H. rewrite <- E in H.
      destruct (Z.eqb_spec (ID c) id); [subst; lia|done].
  - intros [H0 H] id. simpl. rewrite <- E. destruct (Z.eqb_spec (ID c) id); [done|apply H].
Qed.

(** ** Compare *)

(** What the loop returns from an intermediate [result]. *)
Definition compare_loop_spec (a b : list Counter) (r o : Ordering) : Prop :=
  match r with
  | Equal =>
      match o with
      | Equal => cs_le a b /\ cs_le b a
      | Greater => cs_le b a /\ ~ cs_le a b
      | Lesser => cs_le a b /\ ~ cs_le b a
      | _ => ~ cs_le a b /\ ~ cs_le b a
      end
  | Greater => (o = Greater /\ cs_le b a) \/ (o = ConcurrentGreater /\ ~ cs_le b a)
  | Lesser => (o = Lesser /\ cs_le a b) \/ (o = ConcurrentLesser /\ ~ cs_le a b)
  | _ => False
  end.

(** Removing a pair of heads whose comparison is [gt] or [lt] or neither. *)
Lemma compare_loop_spec_step a b a' b' r o gt lt :
  (cs_le a b <-> ~ gt /\ cs_le a' b') -> (cs_le b a <-> ~ lt /\ cs_le b' a') ->
  (gt -> ~ lt) ->
  r = Equal \/ r = Greater \/ r = Lesser ->
  ((gt /\ ((r = Lesser /\ o = ConcurrentLesser) \/ (r <> Lesser /\ compare_loop_spec a' b' Greater o))) \/
   (lt /\ ((r = Greater /\ o = ConcurrentGreater) \/ (r <> Greater /\ compare_loop_spec a' b' Lesser o))) \/
   (~ gt /\ ~ lt /\ compare_loop_spec a' b' r o)) ->
  compare_loop_spec a b r o.
Proof.
  intros Hab Hba Hgl Hr H. unfold compare_loop_spec in *.
  destruct H as [ [G [ [-> ->] | [Hn HS] ] ] | [ [L [ [-> ->] | [Hn HS] ] ] | [G [L HS] ] ] ].
  - right. tauto.
  - destruct HS as [ [-> HS] | [-> HS] ]; destruct Hr as [ -> | [ -> | -> ] ]; tauto.
  - right. tauto.
  - destruct HS as [ [-> HS] | [-> HS] ]; destruct Hr as [ -> | [ -> | -> ] ]; tauto.
  - destruct Hr as [ -> | [ -> | -> ] ]; [destruct o|..]; tauto.
Qed.

(** The side conditions of a step that drops one head. *)
Ltac step_side HL HR :=
  try assumption;
  try (match goal with IH : context [compare_loop] |- forall _, _ =>
         intros; apply IH; try assumption; try constructor; cbn [length]; lia end);
  rewrite ?HL, ?HR;
  repeat match goal with |- context [?y <? ?x] => destruct (Z.ltb_spec y x) end;
  simpl; intuition lia.

(** One iteration that drops some heads: [gt] and [lt] are the two tests. *)
Lemma compare_loop_step fuel a b r a' b' (gt lt : bool) :
  (forall r', r' = Equal \/ r' = Greater \/ r' = Lesser ->
     exists o, compare_loop fuel a' b' r' = Some o /\ compare_loop_spec a' b' r' o) ->
  r = Equal \/ r = Greater \/ r = Lesser ->
  (cs_le a b <-> ~ gt /\ cs_le a' b') -> (cs_le b a <-> ~ lt /\ cs_le b' a') -> (gt -> ~ lt) ->
  exists o,
    (if gt then (if decide (r = Lesser) then Some ConcurrentLesser else compare_loop fuel a' b' Greater)
     else if lt then (if decide (r = Greater) then Some ConcurrentGreater else compare_loop fuel a' b' Lesser)
     else compare_loop fuel a' b' r) = Some o /\ compare_loop_spec a b r o.
Proof.
  intros IH Hr Hab Hba Hgl.
  destruct gt; [case_decide as E|destruct lt; [case_decide as E|]].
  - eexists; split; [done|]. eapply compare_loop_spec_step; eauto.
  - destruct (IH Greater) as (o & Ho & HS); auto. exists o; split; [done|].
    eapply compare_loop_spec_step; eauto.
  - eexists; split; [done|]. eapply compare_loop_spec_step; eauto 8.
  - destruct (IH Lesser) as (o & Ho & HS); auto. exists o; split; [done|].
    eapply compare_loop_spec_step; eauto 8.
  - destruct (IH r) as (o & Ho & HS); auto. exists o; split; [done|].
    eapply compare_loop_spec_step; eauto 8.
Qed.

Lemma compare_loop_correct fuel a b r :
  StronglySorted id_lt a -> StronglySorted id_lt b ->
  Forall counter_wf a -> Forall counter_wf b ->
  r = Equal \/ r = Greater \/ r = Lesser ->
  (length a + length b < fuel)%nat ->
  exists o, compare_loop fuel a b r = Some o /\ compare_loop_spec a b r o.
Proof.
  revert a b r. induction fuel as [|fuel IH]; intros a b r Sa Sb Wa Wb Hr Hf; [lia|].
  apply Nat.lt_succ_r in Hf as Hf'.
  destruct a as [|c a]; destruct b as [|d b]; cbn [compare_loop is_nil hd tl negb andb orb];
    try (apply StronglySorted_inv in Sa as HSa; destruct HSa as [Sa' Ha']);
    try (apply StronglySorted_inv in Sb as HSb; destruct HSb as [Sb' Hb']);
    try (inversion Wa as [|? ? [? ?] Wa']; subst);
    try (inversion Wb as [|? ? [? ?] Wb']; subst);
    rewrite ?orb_true_r, ?orb_false_r, ?andb_true_r; cbn [length] in Hf'.
  - exists r; split; [done|]. unfold compare_loop_spec, cs_le.
    destruct Hr as [ -> | [ -> | -> ] ]; auto with lia.
  - destruct (cs_le_cons_l d b [] Sb eq_refl) as [HL HR].
    destruct (Z.eqb_spec (ID zeroCounter) (ID d)) as [E|E];
      [rewrite (proj2 (Z.ltb_ge (Value d) _)) by (simpl; lia)|];
      apply (compare_loop_step fuel _ _ r [] b false (0 <? Value d)); step_side HL HR.
  - destruct (cs_le_cons_l c a [] Sa eq_refl) as [HL HR].
    destruct (Z.eqb_spec (ID c) (ID zeroCounter)) as [E|E];
      [rewrite (proj2 (Z.ltb_ge (Value c) (Value zeroCounter))) by (simpl; lia)|];
      apply (compare_loop_step fuel _ _ r a [] (0 <? Value c) false); step_side HL HR.
  - destruct (Z.lt_total (ID c) (ID d)) as [E|[E|E]].
    + destruct (cs_le_cons_l c a (d :: b) Sa) as [HL HR].
      { by apply sorted_below. }
      rewrite (proj2 (Z.eqb_neq _ _)), (proj2 (Z.ltb_lt _ _) E), (proj2 (Z.leb_le (ID c) _)),
        (proj2 (Z.leb_gt (ID d) _)) by lia. cbn [orb].
      apply (compare_loop_step fuel _ _ r a (d :: b) (0 <? Value c) false); step_side HL HR.
    + pose proof (cs_le_cons_both c d a b Sa Sb E) as HL.
      pose proof (cs_le_cons_both d c b a Sb Sa (eq_sym E)) as HR.
      rewrite E, Z.eqb_refl, Z.leb_refl. cbn [orb].
      apply (compare_loop_step fuel _ _ r a b (Value d <? Value c) (Value c <? Value d)); step_side HL HR.
    + destruct (cs_le_cons_l d b (c :: a) Sb) as [HL HR].
      { by apply sorted_below. }
      rewrite (proj2 (Z.eqb_neq _ _)), (proj2 (Z.ltb_ge (ID c) _)), (proj2 (Z.ltb_lt _ _) E),
        (proj2 (Z.leb_gt (ID c) _)), (proj2 (Z.leb_le (ID d) _)) by lia. cbn [orb].
      apply (compare_loop_step fuel _ _ r (c :: a) b false (0 <? Value d)); step_side HL HR.
Qed.

Lemma compare_total v b :
  vector_wf v -> vector_wf b ->
  compare_loop (S (length (Counters v) + length (Counters b))) (Counters v) (Counters b) Equal
    = Some (Compare v b) /\
  compare_loop_spec (Counters v) (Counters b) Equal (Compare v b).
Proof.
  intros [Sv Wv] [Sb Wb]. unfold Compare.
  destruct (compare_loop_correct (S (length (Counters v) + length (Counters b)))
              (Counters v) (Counters b) Equal) as (o & Ho & HS); auto with lia.
  rewrite Ho. done.
Qed.

Lemma compare_loop_flip fuel a b r :
  r = Equal \/ r = Greater \/ r = Lesser ->
  compare_loop fuel b a (flip_ordering r) = flip_ordering <$> compare_loop fuel a b r.
Proof.
  revert a b r. induction fuel as [|fuel IH]; intros a b r Hr; [done|].
  cbn [compare_loop]. rewrite (andb_comm (is_nil b)).
  destruct (is_nil a && is_nil b) eqn:En; [done|].
  assert (IHG := fun a b => IH a b Greater ltac:(auto)).
  assert (IHL := fun a b => IH a b Lesser ltac:(auto)). cbn [flip_ordering] in IHG, IHL.
  rewrite (Z.eqb_sym (ID (hd zeroCounter b))).
  destruct (Z.eqb_spec (ID (hd zeroCounter a)) (ID (hd zeroCounter b))) as [E|E].
  - destruct (Z.ltb_spec (Value (hd zeroCounter a)) (Value (hd zeroCounter b)));
    destruct (Z.ltb_spec (Value (hd zeroCounter b)) (Value (hd zeroCounter a))); try lia;
    destruct Hr as [ -> | [ -> | -> ] ];
    first [done | apply IHG | apply IHL | apply (IH _ _ Equal); auto].
  - destruct a as [|c a], b as [|d b]; try done; cbn [is_nil negb andb orb hd] in *;
    repeat match goal with |- context [?x <? ?y] => destruct (Z.ltb_spec x y) end; try lia;
    cbn [andb orb] in *; rewrite ?orb_true_r, ?orb_false_r;
    destruct Hr as [ -> | [ -> | -> ] ];
    first [done | apply IHG | apply IHL | apply (IH _ _ Equal); auto].
Qed.

(** ** Merge *)

Lemma counter_of_cons c cs id :
  counter_of (c :: cs) id = if ID c =? id then Value c else counter_of cs id.
Proof. done. Qed.

Lemma sorted_cons_above k cs :
  StronglySorted id_lt cs -> Forall (id_lt k) cs -> StronglySorted id_lt (k :: cs).
Proof. by constructor. Qed.

Lemma above_trans k c cs : StronglySorted id_lt (c :: cs) -> id_lt k c -> Forall (id_lt k) (c :: cs).
Proof.
  intros Hs Hk. apply StronglySorted_inv in Hs as [_ Hs]. constructor; [done|].
  eapply List.Forall_impl; [|exact Hs]. unfold id_lt in *. intros; lia.
Qed.

(** The facts about a merged list. *)
Definition merged (v b m : list Counter) : Prop :=
  StronglySorted id_lt m /\ Forall counter_wf m /\
  (forall k, Forall (id_lt k) v -> Forall (id_lt k) b -> Forall (id_lt k) m) /\
  (forall id, counter_of m id = Z.max (counter_of v id) (counter_of b id)).

Lemma merged_cons e v v' b b' m :
  merged v' b' m -> counter_wf e ->
  Forall (id_lt e) v' -> Forall (id_lt e) b' ->
  (forall k, Forall (id_lt k) v -> Forall (id_lt k) b ->
     id_lt k e /\ Forall (id_lt k) v' /\ Forall (id_lt k) b') ->
  (forall id, Z.max (counter_of v id) (counter_of b id) =
     if ID e =? id then Value e else Z.max (counter_of v' id) (counter_of b' id)) ->
  merged v b (e :: m).
Proof.
  intros (Sm & Wm & Am & Cm) We Hv Hb Hk Hid. repeat split.
  - constructor; auto.
  - by constructor.
  - intros k Hkv Hkb. destruct (Hk k Hkv Hkb) as (? & ? & ?). constructor; auto.
  - intros id. rewrite Hid, counter_of_cons. by case_match.
Qed.

Lemma merge_loop_spec fuel done_ v b :
  StronglySorted id_lt v -> StronglySorted id_lt b ->
  Forall counter_wf v -> Forall counter_wf b ->
  (length v + length b < fuel)%nat ->
  exists m, merge_loop fuel done_ v b = Some (done_ ++ m) /\
    merged v b m.
Proof.
  revert done_ v b. induction fuel as [|fuel IH]; intros done_ v b Sv Sb Wv Wb Hf; [lia|].
  cbn [merge_loop]. destruct b as [|d b].
  { exists v. repeat split; auto. intros id. pose proof (counter_of_nonneg v id Wv). simpl. lia. }
  destruct v as [|c v].
  { exists (d :: b). repeat split; auto. intros id.
    pose proof (counter_of_nonneg (d :: b) id Wb). change (counter_of [] id) with 0. lia. }
  apply StronglySorted_inv in Sv as Sv'; destruct Sv' as [Sv' Hc].
  apply StronglySorted_inv in Sb as Sb'; destruct Sb' as [Sb' Hd].
  inversion Wv as [|? ? Wc Wv']; inversion Wb as [|? ? Wd Wb']; subst.
  cbn [length] in Hf. destruct (Z.ltb_spec (ID d) (ID c)) as [E|E]; cbn beta iota zeta.
  - rewrite Z.eqb_refl, Z.ltb_irrefl. cbn [andb]. rewrite Z.eqb_refl.
    destruct (IH (done_ ++ [d]) (c :: v) b) as (m & -> & Hm); auto; [cbn [length]; lia|].
    exists (d :: m). rewrite <- app_assoc. split; [done|].
    apply (merged_cons d (c :: v) (c :: v) (d :: b) b m); auto.
    + by apply above_trans.
    + intros k Hk Hk'. inversion Hk'; auto.
    + intros id. rewrite (counter_of_cons d). destruct (Z.eqb_spec (ID d) id); [subst|done].
      rewrite (sorted_below c v) by done. destruct Wd. lia.
  - destruct (Z.eqb_spec (ID c) (ID d)) as [E'|E'].
    + set (e := {| ID := ID c; Value := Z.max (Value c) (Value d) |}).
      assert ((if true && (Value c <? Value d) then {| ID := ID c; Value := Value d |} else c) = e) as ->.
      { unfold e. destruct (Z.ltb_spec (Value c) (Value d)); cbn [andb].
        - f_equal; lia.
        - destruct c; simpl in *. f_equal; lia. }
      change (ID e) with (ID c). rewrite E', Z.eqb_refl.
      destruct (IH (done_ ++ [e]) v b) as (m & Hm & HM); auto; [lia|].
      exists (e :: m). rewrite <- app_assoc in Hm. split; [done|].
      apply (merged_cons e (c :: v) v (d :: b) b m); auto.
      * destruct Wc, Wd. split; simpl; lia.
      * eapply List.Forall_impl; [|exact Hd]. unfold id_lt; simpl; intros; lia.
      * intros k Hk Hk'. inversion Hk; inversion Hk'; auto.
      * intros id. rewrite !counter_of_cons. change (ID e) with (ID c). rewrite <- E'. by case_match.
    + cbn [andb]. destruct (Z.eqb_spec (ID c) (ID d)) as [|_]; [done|].
      destruct (IH (done_ ++ [c]) v (d :: b)) as (m & -> & HM); auto; [cbn [length]; lia|].
      exists (c :: m). rewrite <- app_assoc. split; [done|].
      apply (merged_cons c (c :: v) v (d :: b) (d :: b) m); auto.
      * apply above_trans; [done|]. unfold id_lt. lia.
      * intros k Hk Hk'. inversion Hk; auto.
      * intros id. rewrite (counter_of_cons c). destruct (Z.eqb_spec (ID c) id); [subst|done].
        rewrite (sorted_below d b) by (done || lia). destruct Wc. lia.
Qed.

Lemma merge_total v b :
  vector_wf v -> vector_wf b ->
  merge_loop (S (length (Counters v) + length (Counters b))) [] (Counters v) (Counters b)
    = Some (Counters (Merge v b)) /\ merged (Counters v) (Counters b) (Counters (Merge v b)).
Proof.
  intros [Sv Wv] [Sb Wb]. unfold Merge.
  destruct (merge_loop_spec (S (length (Counters v) + length (Counters b))) []
              (Counters v) (Counters b)) as (m & Hm & HM); auto.
  rewrite Hm. done.
Qed.

Lemma Merge_wf v b : vector_wf v -> vector_wf b -> vector_wf (Merge v b).
Proof. intros Hv Hb. destruct (merge_total v b Hv Hb) as (_ & ? & ? & _). by split. Qed.

Lemma Merge_Counter v b id :
  vector_wf v -> vector_wf b ->
  Vector_Counter (Merge v b) id = Z.max (Vector_Counter v id) (Vector_Counter b id).
Proof. intros Hv Hb. destruct (merge_total v b Hv Hb) as (_ & _ & _ & _ & H). apply H. Qed.

(** ** Update *)

Lemma update_loop_above k id now cs :
  Forall (id_lt k) cs -> ID k < id -> Forall (id_lt k) (update_loop id now cs).
Proof.
  intros HF Hk. induction HF as [|c cs Hc HF IH]; simpl.
  - by repeat constructor.
  - repeat case_match; repeat constructor; auto.
Qed.

Lemma update_loop_sorted id now cs :
  StronglySorted id_lt cs -> StronglySorted id_lt (update_loop id now cs).
Proof.
  induction 1 as [|c cs Hs IH HF]; simpl; [by repeat constructor|].
  destruct (Z.eqb_spec (ID c) id) as [E|E]; [|destruct (Z.ltb_spec id (ID c))].
  - constructor; [done|]. eapply List.Forall_impl; [|exact HF]. unfold id_lt; simpl; intros; lia.
  - constructor; [by constructor|]. apply above_trans; [by constructor|]. done.
  - constructor; [done|]. apply update_loop_above; [done|]. lia.
Qed.

Lemma update_loop_wf id now cs :
  0 <= id < 2 ^ 64 -> 0 <= now < 2 ^ 64 ->
  Forall counter_wf cs -> Forall counter_wf (update_loop id now cs).
Proof.
  intros Hid Hn. induction 1 as [|c cs Hc HF IH]; simpl.
  - repeat constructor; simpl; lia.
  - pose proof (uN_range 64 (Value c + 1) ltac:(lia)).
    repeat case_match; repeat constructor; simpl; auto; try lia; apply Hc.
Qed.

Lemma counter_of_update id now cs k :
  StronglySorted id_lt cs -> Forall counter_wf cs ->
  counter_of (update_loop id now cs) k =
    if id =? k then Z.max (u64 (counter_of cs id + 1)) now else counter_of cs k.
Proof.
  intros Hs. induction Hs as [|c cs Hs IH HF]; intros Hw; simpl.
  - by destruct (Z.eqb_spec id k).
  - inversion Hw; subst. destruct (Z.eqb_spec (ID c) id) as [E|E]; simpl.
    + subst id. by destruct (Z.eqb_spec (ID c) k).
    + destruct (Z.ltb_spec id (ID c)); simpl.
      * destruct (Z.eqb_spec id k); [|done].
        rewrite (sorted_head_above c cs id) by (try constructor; auto; lia). done.
      * rewrite IH by done.
        destruct (Z.eqb_spec (ID c) k), (Z.eqb_spec id k); (done || lia).
Qed.

Lemma Update_wf v id now : vector_wf v -> 0 <= id < 2 ^ 64 -> vector_wf (Update v id now).
Proof.
  intros [Hs Hw] Hid. split; simpl; [by apply update_loop_sorted|].
  apply update_loop_wf; auto. apply uN_range; lia.
Qed.

Lemma Update_Counter v id now k :
  vector_wf v ->
  Vector_Counter (Update v id now) k =
    if id =? k then Z.max (u64 (Vector_Counter v id + 1)) (u64 now) else Vector_Counter v k.
Proof. intros [Hs Hw]. by apply counter_of_update. Qed.

(** ** Round trips *)

Lemma counter_string_roundtrip c :
  counter_wf c -> counter_from_string (counter_string c) = Ret c.
Proof.
  intros [Hid Hval]. unfold counter_from_string, counter_string.
  rewrite cut_app.
  2: { eapply not_elem_of_chars; [apply hexEncode_chars|]. unfold is_hex_char. vm_compute. intuition. }
  rewrite hexDecode_hexEncode, putBE_length. cbn [Z.of_nat Z.ltb Z.compare Pos.compare].
  change (8 <? 8) with false. cbn iota. rewrite Nat.sub_diag. cbn [replicate app].
  rewrite parse_formatUint by (unfold maxUint64; lia).
  rewrite getBE_putBE. change (256 ^ Z.of_nat 8) with (2 ^ 64).
  rewrite Z.mod_small by lia. by destruct c.
Qed.

Lemma counter_string_no_comma c : counter_wf c -> comma ∉ counter_string c.
Proof.
  intros [_ Hval] Hin. unfold counter_string in Hin.
  rewrite elem_of_app, elem_of_cons in Hin. destruct Hin as [Hin|[Hin|Hin]].
  - revert Hin. eapply not_elem_of_chars; [apply hexEncode_chars|].
    unfold is_hex_char. vm_compute. intuition.
  - apply (f_equal b2z) in Hin. done.
  - revert Hin. unfold formatUint. eapply not_elem_of_chars; [apply dec_digits_are_digits; lia|].
    vm_compute. intuition.
Qed.

Lemma Vector_String_roundtrip v :
  Counters v <> [] -> Forall counter_wf (Counters v) ->
  VectorFromString (Vector_String v) = Ret v.
Proof.
  intros Hne Hw. unfold VectorFromString, Vector_String.
  rewrite split_join.
  - assert (counters_from_strings (map counter_string (Counters v)) = Ret (Counters v)) as ->.
    { induction Hw as [|c cs Hc Hw IH]; [done|]. cbn [map counters_from_strings].
      rewrite counter_string_roundtrip by done. cbn [mbind outcome_bind].
      destruct cs; [done|]. by rewrite IH. }
    by destruct v.
  - by destruct (Counters v).
  - apply Forall_map. eapply List.Forall_impl; [|exact Hw]. apply counter_string_no_comma.
Qed.

Lemma sort_by_id_sorted cs : StronglySorted id_lt cs -> sort_by_id cs = cs.
Proof.
  induction 1 as [|c cs Hs IH HF]; [done|]. unfold sort_by_id in *. simpl. rewrite IH.
  destruct cs as [|d cs]; [done|]. simpl. inversion HF; subst. unfold id_lt in *.
  by rewrite (proj2 (Z.leb_le _ _)) by lia.
Qed.

Lemma Compare_flipped v b : Compare b v = flip_ordering (Compare v b).
Proof.
  unfold Compare. rewrite Nat.add_comm.
  rewrite (compare_loop_flip _ (Counters v) (Counters b) Equal) by auto.
  by destruct (compare_loop _ (Counters v) (Counters b) Equal).
Qed.
Lemma Vector_Equal_refl v : Vector_Equal v v = true.
Proof.
  unfold Vector_Equal. pose proof (Compare_flipped v v) as H. by destruct (Compare v v).
Qed.

(** ** Properties *)

(** C6: Compare decides the pointwise order of the two version vectors: Equal,
    Greater and Lesser are answered exactly when the vectors are equal, newer
    or older, either Concurrent answer exactly when neither contains the
    other, and the loop always finishes. *)
Theorem Compare_correct v b :
  vector_wf v -> vector_wf b ->
  compare_loop (S (length (Counters v) + length (Counters b))) (Counters v) (Counters b) Equal
    = Some (Compare v b) /\
  ordering_spec v b (Compare v b) /\
  (Compare v b = Equal <-> vec_equiv v b) /\
  (GreaterEqual v b = true <-> vec_le b v) /\
  (LesserEqual v b = true <-> vec_le v b) /\
  (Concurrent v b = true <-> ~ vec_le v b /\ ~ vec_le b v).
Proof.
  intros Hv Hb. destruct (compare_total v b Hv Hb) as [Hl Hs]. split; [done|].
  assert (ordering_spec v b (Compare v b)) as Ho.
  { destruct (Compare v b); try exact Hs. by apply vec_equiv_le. }
  split; [done|]. unfold GreaterEqual, LesserEqual, Concurrent.
  rewrite !orb_true_iff, !bool_decide_eq_true. pose proof (vec_equiv_le v b) as HE.
  destruct (Compare v b); simpl in Ho; intuition discriminate.
Qed.

Definition ex_a : Vector := {| Counters := [{| ID := 1; Value := 5 |}; {| ID := 7; Value := 2 |}] |}.
Definition ex_b : Vector := {| Counters := [{| ID := 1; Value := 4 |}; {| ID := 9; Value := 1 |}] |}.
Lemma ex_a_wf : vector_wf ex_a.
Proof. split; repeat constructor; simpl; lia. Defined.
Lemma ex_b_wf : vector_wf ex_b.
Proof. split; repeat constructor; simpl; lia. Defined.

Lemma Compare_correct_witness :
  Compare ex_a ex_b = ConcurrentGreater /\ ordering_spec ex_a ex_b (Compare ex_a ex_b).
Proof.
  split; [vm_compute; reflexivity|].
  destruct (Compare_correct ex_a ex_b ex_a_wf ex_b_wf) as (_ & H & _). exact H.
Defined.

(** The two devices that compare the same pair of versions agree: swapping
    the arguments of Compare flips its answer, the concurrent tie-break
    included, for any counters whatever. *)
Theorem Compare_flip v b : Compare b v = flip_ordering (Compare v b).
Proof.
  unfold Compare. rewrite Nat.add_comm.
  rewrite (compare_loop_flip _ (Counters v) (Counters b) Equal) by auto.
  by destruct (compare_loop _ _ _ _).
Qed.

(** C7: Merge keeps the representation invariant and returns the least upper
    bound of its arguments: it contains both and is contained in every vector
    that does. *)
Theorem Merge_lub v b :
  vector_wf v -> vector_wf b ->
  vector_wf (Merge v b) /\ vec_le v (Merge v b) /\ vec_le b (Merge v b) /\
  (forall w, vec_le v w -> vec_le b w -> vec_le (Merge v b) w) /\
  (forall id, Vector_Counter (Merge v b) id = Z.max (Vector_Counter v id) (Vector_Counter b id)).
Proof.
  intros Hv Hb. pose proof (fun id => Merge_Counter v b id Hv Hb) as HC.
  split; [by apply Merge_wf|]. split; [intros id; rewrite HC; lia|].
  split; [intros id; rewrite HC; lia|]. split; [|done].
  intros w Hvw Hbw id. rewrite HC. specialize (Hvw id). specialize (Hbw id). lia.
Qed.

Lemma Merge_lub_witness :
  Merge ex_a ex_b = {| Counters := [{| ID := 1; Value := 5 |}; {| ID := 7; Value := 2 |};
                                    {| ID := 9; Value := 1 |}] |} /\
  vec_le ex_b (Merge ex_a ex_b).
Proof.
  split; [vm_compute; reflexivity|].
  destruct (Merge_lub ex_a ex_b ex_a_wf ex_b_wf) as (_ & _ & H & _). exact H.
Defined.

(** Update at a device makes a version strictly newer than the one it
    started from and touches no other device's counter, as long as the
    device's own counter has not reached the uint64 maximum; updating the
    merge of two versions, as conflict resolution does, is newer than both. *)
Theorem Update_newer v b id now :
  vector_wf v -> vector_wf b -> 0 <= id < 2 ^ 64 ->
  Vector_Counter v id < maxUint64 -> Vector_Counter b id < maxUint64 ->
  vector_wf (Update v id now) /\
  Compare (Update v id now) v = Greater /\
  (forall k, k <> id -> Vector_Counter (Update v id now) k = Vector_Counter v k) /\
  Compare (Update (Merge v b) id now) v = Greater /\
  Compare (Update (Merge v b) id now) b = Greater.
Proof.
  intros Hv Hb Hid Hm Hmb.
  assert (forall u w, vector_wf u -> vector_wf w -> vec_le u w -> Vector_Counter w id < maxUint64 ->
            Compare (Update w id now) u = Greater) as G.
  { intros u w Hu Hw Hle Hmax. pose proof (Update_wf w id now Hw Hid) as Hwf.
    destruct (Compare_correct (Update w id now) u Hwf Hu) as (_ & Ho & _).
    assert (vec_le w (Update w id now)) as Hup.
    { intros k. rewrite Update_Counter by done. destruct (Z.eqb_spec id k); [|lia]. subst k.
      pose proof (counter_of_nonneg (Counters w) id ltac:(apply Hw)).
      unfold maxUint64, Vector_Counter in *. rewrite (uN_small 64 (_ + 1)) by lia. lia. }
    assert (vec_le u (Update w id now)) as Hup' by (by transitivity w).
    assert (~ vec_le (Update w id now) u) as Hn.
    { intros H. specialize (H id). specialize (Hle id). rewrite Update_Counter, Z.eqb_refl in H by done.
      pose proof (counter_of_nonneg (Counters w) id ltac:(apply Hw)).
      unfold maxUint64, Vector_Counter in *. rewrite (uN_small 64 (_ + 1)) in H by lia. lia. }
    pose proof (vec_equiv_le (Update w id now) u).
    destruct (Compare (Update w id now) u); simpl in Ho; tauto. }
  destruct (Merge_lub v b Hv Hb) as (Hwf & Hvm & Hbm & _ & HC).
  assert (Vector_Counter (Merge v b) id < maxUint64) by (rewrite HC; lia).
  split; [by apply Update_wf|]. split; [by apply G|]. split; [|split; by apply G].
  intros k Hk. rewrite Update_Counter by done. by destruct (Z.eqb_spec id k).
Qed.

Lemma Update_newer_witness :
  Update ex_a 3 1700000000 = {| Counters := [{| ID := 1; Value := 5 |};
     {| ID := 3; Value := 1700000000 |}; {| ID := 7; Value := 2 |}] |} /\
  Compare (Update (Merge ex_a ex_b) 3 1700000000) ex_b = Greater.
Proof.
  split; [vm_compute; reflexivity|].
  destruct (Update_newer ex_a ex_b 3 1700000000 ex_a_wf ex_b_wf) as (_ & _ & _ & _ & H);
    [lia | vm_compute; reflexivity | vm_compute; reflexivity | exact H].
Defined.

(** A version vector written to the database column comes back unchanged,
    the empty vector included, and so does one sent over the wire. *)
Theorem dbVector_roundtrip v :
  vector_wf v ->
  dbVector_Scan (Vector_String v) = Ret v /\ VectorFromWire (Vector_ToWire v) = v.
Proof.
  intros [Hs Hw]. split.
  - unfold dbVector_Scan. destruct (Vector_String v) as [|c s] eqn:E.
    + destruct v as [ [|d ds] ]; [done|]. exfalso. unfold Vector_String in E. cbn [Counters map join] in E.
      destruct ds; unfold counter_string in E; apply (f_equal length) in E;
        rewrite ?length_app in E; simpl in E; lia.
    + rewrite <- E, Vector_String_roundtrip; [|intros Hn|done].
      * cbn. rewrite sort_by_id_sorted by done. by destruct v.
      * unfold Vector_String in E. by rewrite Hn in E.
  - destruct v as [cs]. unfold VectorFromWire, Vector_ToWire. cbn [Counters]. f_equal.
    rewrite map_map. rewrite <- (map_id cs) at 2. apply map_ext. by intros [].
Qed.

Lemma dbVector_roundtrip_witness :
  Vector_String ex_a = gostr "0000000000000001:5,0000000000000007:2" /\
  dbVector_Scan (Vector_String ex_a) = Ret ex_a.
Proof.
  split; [vm_compute; reflexivity|]. apply (dbVector_roundtrip ex_a ex_a_wf).
Defined.

(** An ID of more than eight bytes makes the parser panic rather than fail. *)
Example VectorFromString_long_id :
  VectorFromString (gostr "112233445566778899:1") = Panic.
Proof. vm_compute. reflexivity. Qed.
