(* ===== verification/FileInfo.v ===== *)
(** * File metadata (lib/protocol/bep_fileinfo.go)

    The [FileInfo] record, its local flags, its wire and database forms, the
    choice of a conflict winner and the comparison the scanner relies on. *)
From Stdlib Require Import ZArith List Lia.
From Stdlib Require Import Strings.Byte.
From stdpp Require Import base list option numbers tactics.
From S2P Require Import Prelude GoLib Vector.

#[local] Open Scope Z_scope.

(** ** Constants (lib/protocol/protocol.go) *)

Definition KiB : Z := 10.
Definition MiB : Z := 20.
Definition MinBlockSize : Z := Z.shiftl 128 KiB.
Definition MaxBlockSize : Z := Z.shiftl 16 MiB.
Definition MaxRequestSize : Z := 2 * MaxBlockSize.
Definition DesiredPerFileBlocks : Z := 2000.
Definition SyntheticDirectorySize : Z := 128.

(** ** Local flags *)

Definition FlagLocalUnsupported : Z := Z.shiftl 1 0.
Definition FlagLocalIgnored : Z := Z.shiftl 1 1.
Definition FlagLocalMustRescan : Z := Z.shiftl 1 2.
Definition FlagLocalReceiveOnly : Z := Z.shiftl 1 3.
Definition FlagLocalGlobal : Z := Z.shiftl 1 4.
Definition FlagLocalNeeded : Z := Z.shiftl 1 5.
Definition FlagLocalRemoteInvalid : Z := Z.shiftl 1 6.

Definition flag_or : list Z -> Z := foldr Z.lor 0.
Definition LocalInvalidFlags : Z :=
  flag_or [FlagLocalUnsupported; FlagLocalIgnored; FlagLocalMustRescan; FlagLocalReceiveOnly; FlagLocalRemoteInvalid].
Definition LocalConflictFlags : Z := flag_or [FlagLocalUnsupported; FlagLocalIgnored; FlagLocalReceiveOnly].
Definition LocalAllFlags : Z :=
  flag_or [FlagLocalUnsupported; FlagLocalIgnored; FlagLocalMustRescan; FlagLocalReceiveOnly;
           FlagLocalGlobal; FlagLocalNeeded; FlagLocalRemoteInvalid].

(** [f & mask != 0] and [f &^ mask]. *)
Definition has_flag (f mask : Z) : bool := negb (Z.land f mask =? 0).
Definition clear_flags (f mask : Z) : Z := Z.ldiff f mask.

Definition flag_IsInvalid (f : Z) : bool := has_flag f LocalInvalidFlags.

Definition localFlagBitNames : list (Z * byte) :=
  [(FlagLocalUnsupported, z2b 117); (FlagLocalIgnored, z2b 105); (FlagLocalMustRescan, z2b 114);
   (FlagLocalReceiveOnly, z2b 101); (FlagLocalGlobal, z2b 71); (FlagLocalNeeded, z2b 110);
   (FlagLocalRemoteInvalid, z2b 118)].
Definition bit_name (bit : Z) : option byte :=
  snd <$> List.find (fun p => fst p =? bit) localFlagBitNames.
Definition dash : byte := z2b 45.

(** [%x] of a 32 bit word. *)
Fixpoint hex_digits (fuel : nat) (z : Z) : bytes :=
  match fuel with
  | O => []
  | S fuel => (if z <? 16 then [] else hex_digits fuel (z / 16)) ++ [hexdigit (z mod 16)]
  end.

(** [FlagLocal.HumanString]; a flag word has 32 bits, so the loop has at most
    32 rounds. *)
Fixpoint human_loop (fuel : nat) (f bit : Z) (res extra : bytes) : bytes * bytes :=
  match fuel with
  | O => (res, extra)
  | S fuel =>
      if f =? 0 then (res, extra)
      else
        let '(res, extra) :=
          if has_flag f bit then
            match bit_name bit with
            | Some c => (res ++ [c], extra)
            | None => (res, extra ++ gostr "+0x" ++ hex_digits 8 bit)
            end
          else (res ++ [dash], extra) in
        human_loop fuel (clear_flags f bit) (u32 (Z.shiftl bit 1)) res extra
  end.
Definition HumanString (f : Z) : bytes :=
  if f =? 0 then replicate (length localFlagBitNames) dash
  else
    let '(res, extra) := human_loop 33 f 1 [] [] in
    let res := res ++ replicate (length localFlagBitNames - length res) dash in
    reverse res ++ extra.

(** ** Times

    [time.Time] as the seconds since the year 1 in a 64 bit word and the
    nanoseconds, with [time.Unix]'s normalisation of the nanoseconds. *)

Record GoTime := { tsec : Z; tnsec : Z }.

Definition nsPerSec : Z := 1000000000.
Definition unixToInternal : Z := 62135596800.
Definition minDuration : Z := - 2 ^ 63.
Definition maxDuration : Z := 2 ^ 63 - 1.

Definition time_Unix (sec nsec : Z) : GoTime :=
  {| tsec := i64 (sec + nsec / nsPerSec + unixToInternal); tnsec := nsec mod nsPerSec |}.
Definition time_ns (t : GoTime) : Z := tsec t * nsPerSec + tnsec t.
Definition time_Equal (t u : GoTime) : bool := (tsec t =? tsec u) && (tnsec t =? tnsec u).
Definition time_After (t u : GoTime) : bool :=
  (tsec u <? tsec t) || ((tsec t =? tsec u) && (tnsec u <? tnsec t)).
Definition time_Before (t u : GoTime) : bool :=
  (tsec t <? tsec u) || ((tsec t =? tsec u) && (tnsec t <? tnsec u)).
(** The difference of two times saturates at the bounds of a [Duration]. *)
Definition time_Sub (t u : GoTime) : Z := Z.max minDuration (Z.min maxDuration (time_ns t - time_ns u)).

(** ** Platform data *)

Record UnixData := { OwnerName : bytes; GroupName : bytes; UID : Z; GID : Z }.
Record WindowsData := { wOwnerName : bytes; OwnerIsGroup : bool }.
Record Xattr := { xName : bytes; xValue : bytes }.
Record XattrData := { xattrs : list Xattr }.
Record PlatformData :=
  { Unix : option UnixData; Windows : option WindowsData;
    Linux : option XattrData; Darwin : option XattrData;
    FreeBSD : option XattrData; NetBSD : option XattrData }.

#[export] Instance UnixData_eq_dec : EqDecision UnixData.
Proof. solve_decision. Defined.
#[export] Instance WindowsData_eq_dec : EqDecision WindowsData.
Proof. solve_decision. Defined.
#[export] Instance Xattr_eq_dec : EqDecision Xattr.
Proof. solve_decision. Defined.
#[export] Instance XattrData_eq_dec : EqDecision XattrData.
Proof. solve_decision. Defined.
#[export] Instance PlatformData_eq_dec : EqDecision PlatformData.
Proof. solve_decision. Defined.

(** ** FileInfo *)

Definition FileInfoTypeFile : Z := 0.
Definition FileInfoTypeDirectory : Z := 1.
Definition FileInfoTypeSymlinkFile : Z := 2.
Definition FileInfoTypeSymlinkDirectory : Z := 3.
Definition FileInfoTypeSymlink : Z := 4.

Record BlockInfo := { Hash : bytes; Offset : Z; Size : Z }.
#[export] Instance BlockInfo_eq_dec : EqDecision BlockInfo.
Proof. solve_decision. Defined.

Record FileInfo :=
  { Name : bytes; FSize : Z; ModifiedS : Z; ModifiedBy : Z; Version : Vector; Sequence : Z;
    Blocks : list BlockInfo; SymlinkTarget : bytes; BlocksHash : bytes; PreviousBlocksHash : bytes;
    Encrypted : bytes; Platform : PlatformData; Type_ : Z; Permissions : Z; ModifiedNs : Z;
    RawBlockSize : Z; LocalFlags : Z; EncryptionTrailerSize : Z; Deleted : bool;
    NoPermissions : bool; truncated : bool }.

Definition set_LocalFlags (fl : Z) (f : FileInfo) : FileInfo :=
  {| Name := Name f; FSize := FSize f; ModifiedS := ModifiedS f; ModifiedBy := ModifiedBy f;
     Version := Version f; Sequence := Sequence f; Blocks := Blocks f; SymlinkTarget := SymlinkTarget f;
     BlocksHash := BlocksHash f; PreviousBlocksHash := PreviousBlocksHash f; Encrypted := Encrypted f;
     Platform := Platform f; Type_ := Type_ f; Permissions := Permissions f; ModifiedNs := ModifiedNs f;
     RawBlockSize := RawBlockSize f; LocalFlags := fl; EncryptionTrailerSize := EncryptionTrailerSize f;
     Deleted := Deleted f; NoPermissions := NoPermissions f; truncated := truncated f |}.
Definition set_EncryptionTrailerSize (n : Z) (f : FileInfo) : FileInfo :=
  {| Name := Name f; FSize := FSize f; ModifiedS := ModifiedS f; ModifiedBy := ModifiedBy f;
     Version := Version f; Sequence := Sequence f; Blocks := Blocks f; SymlinkTarget := SymlinkTarget f;
     BlocksHash := BlocksHash f; PreviousBlocksHash := PreviousBlocksHash f; Encrypted := Encrypted f;
     Platform := Platform f; Type_ := Type_ f; Permissions := Permissions f; ModifiedNs := ModifiedNs f;
     RawBlockSize := RawBlockSize f; LocalFlags := LocalFlags f; EncryptionTrailerSize := n;
     Deleted := Deleted f; NoPermissions := NoPermissions f; truncated := truncated f |}.

(** *** Predicates *)

Definition IsDeleted (f : FileInfo) : bool := Deleted f.
Definition IsInvalid (f : FileInfo) : bool := flag_IsInvalid (LocalFlags f).
Definition IsUnsupported (f : FileInfo) : bool := has_flag (LocalFlags f) FlagLocalUnsupported.
Definition IsIgnored (f : FileInfo) : bool := has_flag (LocalFlags f) FlagLocalIgnored.
Definition MustRescan (f : FileInfo) : bool := has_flag (LocalFlags f) FlagLocalMustRescan.
Definition IsReceiveOnlyChanged (f : FileInfo) : bool := has_flag (LocalFlags f) FlagLocalReceiveOnly.
Definition IsDirectory (f : FileInfo) : bool := Type_ f =? FileInfoTypeDirectory.
Definition ShouldConflict (f : FileInfo) : bool := has_flag (LocalFlags f) LocalConflictFlags.
Definition IsSymlink (f : FileInfo) : bool :=
  (Type_ f =? FileInfoTypeSymlink) || (Type_ f =? FileInfoTypeSymlinkDirectory) ||
  (Type_ f =? FileInfoTypeSymlinkFile).
Definition HasPermissionBits (f : FileInfo) : bool := negb (NoPermissions f).
Definition FileSize (f : FileInfo) : Z :=
  if Deleted f then 0
  else if IsDirectory f || IsSymlink f then SyntheticDirectorySize
  else FSize f.
Definition FileInfo_BlockSize (f : FileInfo) : Z :=
  if RawBlockSize f <? MinBlockSize then MinBlockSize else RawBlockSize f.
Definition ModTime (f : FileInfo) : GoTime := time_Unix (ModifiedS f) (ModifiedNs f).

(** *** Block sizes *)

(** The loop of [init]: the sizes from the minimum to the maximum by doubling. *)
Fixpoint block_sizes_from (fuel : nat) (blockSize : Z) : list Z :=
  match fuel with
  | O => []
  | S fuel => if blockSize <=? MaxBlockSize then blockSize :: block_sizes_from fuel (blockSize * 2) else []
  end.
Definition BlockSizes : list Z := block_sizes_from 64 MinBlockSize.
Fixpoint block_size_loop (fileSize blockSize : Z) (sizes : list Z) : Z :=
  match sizes with
  | [] => blockSize
  | s :: rest => if fileSize <? DesiredPerFileBlocks * s then s else block_size_loop fileSize s rest
  end.
Definition BlockSize (fileSize : Z) : Z := block_size_loop fileSize 0 BlockSizes.

Definition sha256OfEmptyBlock : list (Z * option bytes) :=
  List.map (fun '(size, hex) => (size, hexDecode hex))
  [(131072, gostr "fa43239bcee7b97ca62f007cc68487560a39e19f74f3dde7486db3f98df8e471");
   (262144, gostr "8a39d2abd3999ab73c34db2476849cddf303ce389b35826850f9a700589b4a90");
   (524288, gostr "07854d2fef297a06ba81685e660c332de36d5d18d546927d30daad6d7fda1541");
   (1048576, gostr "30e14955ebf1352266dc2ff8067e68104607e750abb9d3b36582b8af909fcb58");
   (2097152, gostr "5647f05ec18958947d32874eeb788fa396a05d0bab7c1b71f112ceb7e9b31eee");
   (4194304, gostr "bb9f8df61474d25e71fa00722318cd387396ca1736605e1248821cc0de3d3af8");
   (8388608, gostr "2daeb1f36095b44b318410b3f4e8b5d989dcc7bb023d1426c492dab0a3053e74");
   (16777216, gostr "080acf35a507ac9849cfcba47dc2ad83e01b75663a516279c8b9d243b719643e")].
Definition BlockInfo_IsEmpty (b : BlockInfo) : bool :=
  match List.find (fun p => fst p =? Size b) sha256OfEmptyBlock with
  | Some (_, Some v) => bool_decide (Hash b = v)
  | _ => false
  end.

(** *** Conflicts *)

Definition InConflictWith (f previous : FileInfo) : bool :=
  if GreaterEqual (Version f) (Version previous) then false
  else if is_nil (PreviousBlocksHash f) || is_nil (BlocksHash f) then true
  else negb (bool_decide (PreviousBlocksHash f = BlocksHash previous)).

Definition WinsConflict (f other : FileInfo) : bool :=
  if negb (eqb (IsInvalid f) (IsInvalid other)) then negb (IsInvalid f)
  else if time_After (ModTime f) (ModTime other) then true
  else if time_Before (ModTime f) (ModTime other) then false
  else bool_decide (Compare (Version f) (Version other) = ConcurrentGreater).

(** *** Equivalence *)

Record FileInfoComparison :=
  { ModTimeWindow : Z; IgnorePerms : bool; IgnoreBlocks : bool; IgnoreFlags : Z;
    IgnoreOwnership : bool; IgnoreXattrs : bool }.

Definition ModTimeEqual (a b : GoTime) (modTimeWindow : Z) : bool :=
  if time_Equal a b then true
  else
    let diff := time_Sub a b in
    let diff := if diff <? 0 then i64 (diff * -1) else diff in
    diff <? modTimeWindow.

(** [build.IsWindows] is a constant of the build. *)
Definition PermsEqual (isWindows : bool) (a b : Z) : bool :=
  let mask := if isWindows then 384 else 511 in
  Z.land a mask =? Z.land b mask.

Definition blocksEqual (a b : list BlockInfo) : bool :=
  (length b =? length a)%nat && bool_decide (map Hash a = map Hash b).
Definition BlocksEqual (f other : FileInfo) : bool :=
  if negb (is_nil (BlocksHash f)) && negb (is_nil (BlocksHash other)) &&
     bool_decide (BlocksHash f = BlocksHash other) then true
  else blocksEqual (Blocks f) (Blocks other).

Definition xattr_Equal (a b : Xattr) : bool :=
  bool_decide (xName a = xName b) && bool_decide (xValue a = xValue b).
Definition xattrs_empty (a : option XattrData) : bool :=
  match a with None => true | Some a => is_nil (xattrs a) end.
Definition xattrs_list (a : option XattrData) : list Xattr :=
  match a with None => [] | Some a => xattrs a end.
Fixpoint xattrs_loop (a b : list Xattr) : bool :=
  match a, b with
  | x :: a, y :: b =>
      if negb (bool_decide (xName x = xName y)) then false
      else if negb (bool_decide (xValue x = xValue y)) then false
      else xattrs_loop a b
  | _, _ => true
  end.
Definition xattrsEqual (a b : option XattrData) : bool :=
  if xattrs_empty a && xattrs_empty b then true
  else if xattrs_empty a || xattrs_empty b then false
  else if negb (length (xattrs_list a) =? length (xattrs_list b))%nat then false
  else xattrs_loop (xattrs_list a) (xattrs_list b).

Definition unixOwnershipEqual (a b : option UnixData) : bool :=
  match a, b with
  | None, None => true
  | Some a, Some b =>
      if (UID a =? UID b) && (GID a =? GID b) then true
      else if bool_decide (OwnerName a = OwnerName b) && bool_decide (GroupName a = GroupName b) then true
      else false
  | _, _ => false
  end.
Definition windowsOwnershipEqual (a b : option WindowsData) : bool :=
  match a, b with
  | None, None => true
  | Some a, Some b => bool_decide (wOwnerName a = wOwnerName b) && eqb (OwnerIsGroup a) (OwnerIsGroup b)
  | _, _ => false
  end.

Section Equivalence.
(** [samePlatform p q] is [p == q] on the structs of pointers: the pointers are
    identical.  [isWindows] is [build.IsWindows]. *)
Context (isWindows : bool) (samePlatform : PlatformData -> PlatformData -> bool).

Definition isEquivalent (f other : FileInfo) (comp : FileInfoComparison) : bool :=
  if MustRescan f || MustRescan other then false
  else
    let f := set_LocalFlags (clear_flags (LocalFlags f) (IgnoreFlags comp)) f in
    let other := set_LocalFlags (clear_flags (LocalFlags other) (IgnoreFlags comp)) other in
    if negb (bool_decide (Name f = Name other)) || negb (Type_ f =? Type_ other) ||
       negb (eqb (Deleted f) (Deleted other)) || negb (eqb (IsInvalid f) (IsInvalid other)) then false
    else if negb (IgnoreOwnership comp) && negb (samePlatform (Platform f) (Platform other)) &&
      negb (unixOwnershipEqual (Unix (Platform f)) (Unix (Platform other)) &&
            windowsOwnershipEqual (Windows (Platform f)) (Windows (Platform other))) then false
    else if negb (IgnoreXattrs comp) && negb (samePlatform (Platform f) (Platform other)) &&
      negb (xattrsEqual (Linux (Platform f)) (Linux (Platform other)) &&
            xattrsEqual (Darwin (Platform f)) (Darwin (Platform other)) &&
            xattrsEqual (FreeBSD (Platform f)) (FreeBSD (Platform other)) &&
            xattrsEqual (NetBSD (Platform f)) (NetBSD (Platform other))) then false
    else if negb (IgnorePerms comp) && negb (NoPermissions f) && negb (NoPermissions other) &&
      negb (PermsEqual isWindows (Permissions f) (Permissions other)) then false
    else if Type_ f =? FileInfoTypeFile then
      (FSize f =? FSize other) && ModTimeEqual (ModTime f) (ModTime other) (ModTimeWindow comp) &&
      (IgnoreBlocks comp || BlocksEqual f other)
    else if Type_ f =? FileInfoTypeSymlink then bool_decide (SymlinkTarget f = SymlinkTarget other)
    else if Type_ f =? FileInfoTypeDirectory then true
    else false.
Definition IsEquivalent (f other : FileInfo) (modTimeWindow : Z) : bool :=
  isEquivalent f other {| ModTimeWindow := modTimeWindow; IgnorePerms := false; IgnoreBlocks := false;
                          IgnoreFlags := 0; IgnoreOwnership := false; IgnoreXattrs := false |}.
Definition IsEquivalentOptional (f other : FileInfo) (comp : FileInfoComparison) : bool :=
  isEquivalent f other comp.
End Equivalence.

(** *** Marking *)

Definition setNoContent (f : FileInfo) : FileInfo :=
  {| Name := Name f; FSize := 0; ModifiedS := ModifiedS f; ModifiedBy := ModifiedBy f;
     Version := Version f; Sequence := Sequence f; Blocks := []; SymlinkTarget := SymlinkTarget f;
     BlocksHash := []; PreviousBlocksHash := PreviousBlocksHash f; Encrypted := Encrypted f;
     Platform := Platform f; Type_ := Type_ f; Permissions := Permissions f; ModifiedNs := ModifiedNs f;
     RawBlockSize := RawBlockSize f; LocalFlags := LocalFlags f;
     EncryptionTrailerSize := EncryptionTrailerSize f;
     Deleted := Deleted f; NoPermissions := NoPermissions f; truncated := truncated f |}.
Definition setLocalFlags (fl : Z) (f : FileInfo) : FileInfo := setNoContent (set_LocalFlags fl f).
Definition SetMustRescan : FileInfo -> FileInfo := setLocalFlags FlagLocalMustRescan.
Definition SetIgnored : FileInfo -> FileInfo := setLocalFlags FlagLocalIgnored.
Definition SetUnsupported : FileInfo -> FileInfo := setLocalFlags FlagLocalUnsupported.
(** [SetDeleted] at the Unix time [now]. *)
Definition SetDeleted (now by_ : Z) (f : FileInfo) : FileInfo :=
  setNoContent
  {| Name := Name f; FSize := FSize f; ModifiedS := now; ModifiedBy := by_;
     Version := Update (Version f) by_ now; Sequence := Sequence f; Blocks := Blocks f;
     SymlinkTarget := SymlinkTarget f; BlocksHash := BlocksHash f;
     PreviousBlocksHash := PreviousBlocksHash f; Encrypted := Encrypted f;
     Platform := Platform f; Type_ := Type_ f; Permissions := Permissions f; ModifiedNs := ModifiedNs f;
     RawBlockSize := RawBlockSize f; LocalFlags := LocalFlags f;
     EncryptionTrailerSize := EncryptionTrailerSize f;
     Deleted := true; NoPermissions := NoPermissions f; truncated := truncated f |}.

(** *** Hashes *)

Section Hashes.
Context (sha256 : bytes -> bytes).
Definition BlocksHash_of (bs : list BlockInfo) : bytes := sha256 (concat (map Hash bs)).
Definition VectorHash (v : Vector) : bytes :=
  sha256 (concat (map (fun c => putBE 8 (ID c) ++ putBE 8 (Value c)) (Counters v))).
End Hashes.
