(* ===== verification/FileInfoWire.v ===== *)
(** * Wire and database forms of file metadata (lib/protocol/bep_fileinfo.go)

    The conversions between [FileInfo] and the generated message, for peers and
    for the database, and the platform data helpers. *)
From Stdlib Require Import ZArith List Lia.
From Stdlib Require Import Strings.Byte.
From stdpp Require Import base list option numbers tactics.
From S2P Require Import Prelude GoLib Vector FileInfo.

#[local] Open Scope Z_scope.

(** ** The generated messages: plain records *)

Record bep_BlockInfo := { bHash : bytes; bOffset : Z; bSize : Z }.
Record bep_UnixData := { bOwnerName : bytes; bGroupName : bytes; bUid : Z; bGid : Z }.
Record bep_Xattr := { bName : bytes; bValue : bytes }.
Record bep_XattrData := { bXattrs : list bep_Xattr }.
Record bep_PlatformData :=
  { bUnix : option bep_UnixData; bWindows : option WindowsData; bLinux : option bep_XattrData;
    bDarwin : option bep_XattrData; bFreebsd : option bep_XattrData; bNetbsd : option bep_XattrData }.
Record bep_FileInfo :=
  { wName : bytes; wSize : Z; wModifiedS : Z; wModifiedBy : Z; wVersion : option (list bep_Counter);
    wSequence : Z; wBlocks : list bep_BlockInfo; wSymlinkTarget : bytes; wBlocksHash : bytes;
    wPreviousBlocksHash : bytes; wEncrypted : bytes; wType : Z; wPermissions : Z; wModifiedNs : Z;
    wBlockSize : Z; wPlatform : option bep_PlatformData; wLocalFlags : Z; wEncryptionTrailerSize : Z;
    wDeleted : bool; wInvalid : bool; wNoPermissions : bool }.

(** ** Blocks and platform data *)

Definition Block_ToWire (b : BlockInfo) : bep_BlockInfo :=
  {| bHash := Hash b; bOffset := Offset b; bSize := i32 (Size b) |}.
Definition BlockInfoFromWire (w : bep_BlockInfo) : BlockInfo :=
  {| Hash := bHash w; Offset := bOffset w; Size := bSize w |}.

Definition UnixData_toWire (u : option UnixData) : option bep_UnixData :=
  match u with
  | None => None
  | Some u => Some {| bOwnerName := OwnerName u; bGroupName := GroupName u;
                      bUid := i32 (UID u); bGid := i32 (GID u) |}
  end.
Definition unixDataFromWire (w : option bep_UnixData) : option UnixData :=
  match w with
  | None => None
  | Some w => Some {| OwnerName := bOwnerName w; GroupName := bGroupName w; UID := bUid w; GID := bGid w |}
  end.
Definition Xattr_toWire (a : Xattr) : bep_Xattr := {| bName := xName a; bValue := xValue a |}.
Definition xattrFromWire (w : bep_Xattr) : Xattr := {| xName := bName w; xValue := bValue w |}.
Definition XattrData_toWire (x : option XattrData) : option bep_XattrData :=
  match x with None => None | Some x => Some {| bXattrs := map Xattr_toWire (xattrs x) |} end.
Definition xattrDataFromWire (w : option bep_XattrData) : option XattrData :=
  match w with None => None | Some w => Some {| xattrs := map xattrFromWire (bXattrs w) |} end.
Definition PlatformData_toWire (p : PlatformData) : option bep_PlatformData :=
  Some {| bUnix := UnixData_toWire (Unix p); bWindows := Windows p; bLinux := XattrData_toWire (Linux p);
          bDarwin := XattrData_toWire (Darwin p); bFreebsd := XattrData_toWire (FreeBSD p);
          bNetbsd := XattrData_toWire (NetBSD p) |}.
Definition emptyPlatform : PlatformData :=
  {| Unix := None; Windows := None; Linux := None; Darwin := None; FreeBSD := None; NetBSD := None |}.
Definition platformDataFromWire (w : option bep_PlatformData) : PlatformData :=
  match w with
  | None => emptyPlatform
  | Some w =>
      {| Unix := unixDataFromWire (bUnix w); Windows := bWindows w; Linux := xattrDataFromWire (bLinux w);
         Darwin := xattrDataFromWire (bDarwin w); FreeBSD := xattrDataFromWire (bFreebsd w);
         NetBSD := xattrDataFromWire (bNetbsd w) |}
  end.

(** The platform of the build. *)
Inductive GOOS := OSLinux | OSDarwin | OSFreeBSD | OSNetBSD | OSOther.

Definition Xattrs (os : GOOS) (p : PlatformData) : list Xattr :=
  match os with
  | OSLinux => xattrs_list (Linux p)
  | OSDarwin => xattrs_list (Darwin p)
  | OSFreeBSD => xattrs_list (FreeBSD p)
  | OSNetBSD => xattrs_list (NetBSD p)
  | OSOther => []
  end.
Definition SetXattrs (os : GOOS) (xs : list Xattr) (p : PlatformData) : PlatformData :=
  let x := Some {| xattrs := xs |} in
  match os with
  | OSLinux => {| Unix := Unix p; Windows := Windows p; Linux := x; Darwin := Darwin p; FreeBSD := FreeBSD p; NetBSD := NetBSD p |}
  | OSDarwin => {| Unix := Unix p; Windows := Windows p; Linux := Linux p; Darwin := x; FreeBSD := FreeBSD p; NetBSD := NetBSD p |}
  | OSFreeBSD => {| Unix := Unix p; Windows := Windows p; Linux := Linux p; Darwin := Darwin p; FreeBSD := x; NetBSD := NetBSD p |}
  | OSNetBSD => {| Unix := Unix p; Windows := Windows p; Linux := Linux p; Darwin := Darwin p; FreeBSD := FreeBSD p; NetBSD := x |}
  | OSOther => p
  end.
Definition or_else {A} (p q : option A) : option A := match p with None => q | Some _ => p end.
Definition MergeWith (p other : PlatformData) : PlatformData :=
  {| Unix := or_else (Unix p) (Unix other); Windows := or_else (Windows p) (Windows other);
     Linux := or_else (Linux p) (Linux other); Darwin := or_else (Darwin p) (Darwin other);
     FreeBSD := or_else (FreeBSD p) (FreeBSD other); NetBSD := or_else (NetBSD p) (NetBSD other) |}.

(** ** FileInfo *)

(** [FileInfo.ToWire]: a truncated file without a reason panics. *)
Definition ToWire (withInternalFields : bool) (f : FileInfo) : outcome unit bep_FileInfo :=
  if truncated f && negb (IsDeleted f || IsInvalid f || IsIgnored f) then Panic
  else
    Ret {| wName := Name f; wSize := FSize f; wModifiedS := ModifiedS f; wModifiedBy := ModifiedBy f;
           wVersion := Vector_ToWire (Version f); wSequence := Sequence f;
           wBlocks := map Block_ToWire (Blocks f); wSymlinkTarget := SymlinkTarget f;
           wBlocksHash := BlocksHash f; wPreviousBlocksHash := PreviousBlocksHash f;
           wEncrypted := Encrypted f; wType := Type_ f; wPermissions := Permissions f;
           wModifiedNs := ModifiedNs f; wBlockSize := RawBlockSize f;
           wPlatform := PlatformData_toWire (Platform f);
           wLocalFlags := if withInternalFields then LocalFlags f else 0;
           wEncryptionTrailerSize := if withInternalFields then i32 (EncryptionTrailerSize f) else 0;
           wDeleted := Deleted f; wInvalid := IsInvalid f; wNoPermissions := NoPermissions f |}.

Definition fileInfoFromWireWithBlocks (w : bep_FileInfo) (blocks : list BlockInfo) : FileInfo :=
  let localFlags := if wInvalid w then FlagLocalRemoteInvalid else 0 in
  {| Name := wName w; FSize := wSize w; ModifiedS := wModifiedS w; ModifiedBy := wModifiedBy w;
     Version := VectorFromWire (wVersion w); Sequence := wSequence w; Blocks := blocks;
     SymlinkTarget := wSymlinkTarget w; BlocksHash := wBlocksHash w;
     PreviousBlocksHash := wPreviousBlocksHash w; Encrypted := wEncrypted w; Type_ := wType w;
     Permissions := wPermissions w; ModifiedNs := wModifiedNs w; RawBlockSize := wBlockSize w;
     Platform := platformDataFromWire (wPlatform w); Deleted := wDeleted w; LocalFlags := localFlags;
     NoPermissions := wNoPermissions w; EncryptionTrailerSize := 0; truncated := false |}.
Definition FileInfoFromWire (w : bep_FileInfo) : FileInfo :=
  fileInfoFromWireWithBlocks w (map BlockInfoFromWire (wBlocks w)).

Definition FileInfoFromDB (w : bep_FileInfo) : FileInfo :=
  set_EncryptionTrailerSize (wEncryptionTrailerSize w) (set_LocalFlags (wLocalFlags w) (FileInfoFromWire w)).

Definition set_truncated (f : FileInfo) : FileInfo :=
  {| Name := Name f; FSize := FSize f; ModifiedS := ModifiedS f; ModifiedBy := ModifiedBy f;
     Version := Version f; Sequence := Sequence f; Blocks := Blocks f; SymlinkTarget := SymlinkTarget f;
     BlocksHash := BlocksHash f; PreviousBlocksHash := PreviousBlocksHash f; Encrypted := Encrypted f;
     Platform := Platform f; Type_ := Type_ f; Permissions := Permissions f; ModifiedNs := ModifiedNs f;
     RawBlockSize := RawBlockSize f; LocalFlags := LocalFlags f;
     EncryptionTrailerSize := EncryptionTrailerSize f;
     Deleted := Deleted f; NoPermissions := NoPermissions f; truncated := true |}.
Definition FileInfoFromDBTruncated (w : bep_FileInfo) : FileInfo :=
  set_truncated
    (set_EncryptionTrailerSize (wEncryptionTrailerSize w)
       (set_LocalFlags (wLocalFlags w) (fileInfoFromWireWithBlocks w []))).

(** ** Lemmas *)

Definition in_i32 (z : Z) : Prop := - 2 ^ 31 <= z < 2 ^ 31.
Definition unix_wf (u : option UnixData) : Prop :=
  match u with None => True | Some u => in_i32 (UID u) /\ in_i32 (GID u) end.

Lemma i32_id z : in_i32 z -> i32 z = z.
Proof. unfold in_i32. intros. apply iN_small; lia. Qed.

Lemma blocks_roundtrip bs :
  Forall (fun b => in_i32 (Size b)) bs -> map BlockInfoFromWire (map Block_ToWire bs) = bs.
Proof.
  induction 1 as [|[h o n] bs Hb HF IH]; [done|]. cbn [map]. rewrite IH. f_equal.
  unfold BlockInfoFromWire, Block_ToWire; cbn in *. by rewrite i32_id.
Qed.

Lemma xattrs_roundtrip x : xattrDataFromWire (XattrData_toWire x) = x.
Proof.
  destruct x as [ [xs] |]; [|done]. cbn. do 2 f_equal. rewrite map_map.
  induction xs as [|[n v] xs IH]; cbn; [done|]. by rewrite IH.
Qed.

Lemma unix_roundtrip u : unix_wf u -> unixDataFromWire (UnixData_toWire u) = u.
Proof. destruct u as [ [o g ui gi] |]; [|done]. intros [H1 H2]; cbn in *. by rewrite !i32_id. Qed.

Lemma platform_roundtrip p : unix_wf (Unix p) -> platformDataFromWire (PlatformData_toWire p) = p.
Proof. destruct p; intros; cbn in *. by rewrite unix_roundtrip, !xattrs_roundtrip. Qed.

Lemma version_roundtrip v : VectorFromWire (Vector_ToWire v) = v.
Proof.
  destruct v as [cs]. cbn. f_equal. rewrite map_map. induction cs as [|[i x] cs IH]; cbn; [done|]. by rewrite IH.
Qed.

Definition file_wf (f : FileInfo) : Prop :=
  Forall (fun b => in_i32 (Size b)) (Blocks f) /\ unix_wf (Unix (Platform f)) /\
  in_i32 (EncryptionTrailerSize f) /\ truncated f = false.

(** Compute the fields of a message, not the conversions of its parts. *)
Ltac wire_cbn :=
  cbn -[VectorFromWire Vector_ToWire platformDataFromWire PlatformData_toWire iN].

(** ** Properties *)

(** What a peer learns of a file: everything but the local flags, of which
    only the validity survives, and the local trailer size. *)
Definition as_received (f : FileInfo) : FileInfo :=
  set_EncryptionTrailerSize 0
    (set_LocalFlags (if IsInvalid f then FlagLocalRemoteInvalid else 0) f).

Lemma wire_received f : file_wf f -> exists w, ToWire false f = Ret w /\ FileInfoFromWire w = as_received f.
Proof.
  intros (Hb & Hu & Ht & Htr). unfold ToWire. rewrite Htr. eexists. split; [done|].
  unfold FileInfoFromWire, fileInfoFromWireWithBlocks, as_received.
  wire_cbn. rewrite version_roundtrip, blocks_roundtrip, platform_roundtrip by done. destruct f; cbn in *; by subst.
Qed.

(** A complete file survives the database form unchanged; over the wire a
    peer receives the same file with the local flags reduced to a remote
    invalid mark that keeps its validity; and a file read without its blocks
    is refused for sending unless it is deleted, invalid or ignored. *)
Theorem FileInfo_roundtrip f :
  file_wf f ->
  (exists w, ToWire true f = Ret w /\ FileInfoFromDB w = f) /\
  (exists w, ToWire false f = Ret w /\ FileInfoFromWire w = as_received f) /\
  IsInvalid (as_received f) = IsInvalid f /\
  (forall w, ToWire true (FileInfoFromDBTruncated w) = Panic <->
     wDeleted w = false /\ flag_IsInvalid (wLocalFlags w) = false).
Proof.
  intros (Hb & Hu & Ht & Htr). unfold ToWire. rewrite Htr. cbn [andb].
  split; [|split; [|split] ].
  - eexists. split; [done|]. unfold FileInfoFromDB, FileInfoFromWire, fileInfoFromWireWithBlocks.
    wire_cbn. rewrite version_roundtrip, blocks_roundtrip, i32_id, platform_roundtrip by done. destruct f; cbn in *; by subst.
  - destruct (wire_received f) as (w & Hw & E); [done|]. unfold ToWire in Hw. rewrite Htr in Hw. by exists w.
  - unfold as_received, IsInvalid at 1. cbn [LocalFlags set_LocalFlags set_EncryptionTrailerSize].
    by destruct (IsInvalid f).
  - intros w. unfold IsDeleted, IsInvalid, IsIgnored, FileInfoFromDBTruncated.
    cbn [truncated set_truncated Deleted set_EncryptionTrailerSize set_LocalFlags LocalFlags
         fileInfoFromWireWithBlocks andb].
    destruct (wDeleted w); cbn [orb negb]; [by split; [|intros [? ?] ]|].
    destruct (flag_IsInvalid (wLocalFlags w)) eqn:E; cbn [orb negb]; [by split; [|intros [? ?] ]|].
    assert (has_flag (wLocalFlags w) FlagLocalIgnored = false) as ->; [|done].
    unfold flag_IsInvalid, has_flag in *. apply negb_false_iff, Z.eqb_eq in E.
    apply negb_false_iff, Z.eqb_eq. replace FlagLocalIgnored with (Z.land LocalInvalidFlags FlagLocalIgnored) by done.
    by rewrite Z.land_assoc, E.
Qed.

Definition ex_file : FileInfo :=
  {| Name := gostr "a/b.txt"; FSize := 5; ModifiedS := 1700000000; ModifiedBy := 7;
     Version := {| Counters := [{| ID := 7; Value := 3 |}] |}; Sequence := 12;
     Blocks := [{| Hash := gostr "h"; Offset := 0; Size := 5 |}]; SymlinkTarget := [];
     BlocksHash := gostr "bh"; PreviousBlocksHash := []; Encrypted := [];
     Platform := {| Unix := Some {| OwnerName := gostr "u"; GroupName := gostr "g"; UID := 1000; GID := 1000 |};
                    Windows := None; Linux := Some {| xattrs := [{| xName := gostr "user.x"; xValue := gostr "1" |}] |};
                    Darwin := None; FreeBSD := None; NetBSD := None |};
     Type_ := FileInfoTypeFile; Permissions := 420; ModifiedNs := 5; RawBlockSize := 131072;
     LocalFlags := FlagLocalReceiveOnly; EncryptionTrailerSize := 0; Deleted := false;
     NoPermissions := false; truncated := false |}.

Lemma FileInfo_roundtrip_witness :
  file_wf ex_file /\
  (exists w, ToWire true ex_file = Ret w /\ FileInfoFromDB w = ex_file) /\
  (exists w, ToWire false ex_file = Ret w /\ FileInfoFromWire w = as_received ex_file) /\
  IsInvalid (as_received ex_file) = IsInvalid ex_file /\
  (forall w, ToWire true (FileInfoFromDBTruncated w) = Panic <->
     wDeleted w = false /\ flag_IsInvalid (wLocalFlags w) = false).
Proof.
  assert (file_wf ex_file) as H.
  { assert (forall z, 0 <= z <= 1000 -> in_i32 z) as Hz by (unfold in_i32; lia).
    split; [constructor; [apply Hz; cbn [Size]; lia|constructor]|].
    split; [split; apply Hz; cbn [UID GID]; lia|]. split; [apply Hz; cbn [EncryptionTrailerSize ex_file]; lia|done]. }
  split; [exact H|]. exact (FileInfo_roundtrip ex_file H).
Defined.

Lemma Xattrs_SetXattrs os xs p :
  Xattrs os (SetXattrs os xs p) = match os with OSOther => [] | _ => xs end.
Proof. by destruct os. Qed.
