(* ===== verification/FileInfoProps.v ===== *)
(** * Properties of file metadata

    Conflict resolution, the equivalence the scanner and puller use, block
    sizes and flag strings. *)
From Stdlib Require Import ZArith List Lia.
From Stdlib Require Import Strings.Byte.
From stdpp Require Import base list option numbers tactics.
From S2P Require Import Prelude GoLib Vector FileInfo.

#[local] Open Scope Z_scope.

(** ** Times *)

Definition time_wf (t : GoTime) : Prop := 0 <= tnsec t < nsPerSec.

Lemma time_Unix_wf s n : time_wf (time_Unix s n).
Proof. unfold time_wf, time_Unix, nsPerSec; cbn. apply Z.mod_pos_bound. lia. Qed.

Lemma time_cmp_ns t u :
  time_wf t -> time_wf u ->
  time_Equal t u = (time_ns t =? time_ns u) /\ time_After t u = (time_ns u <? time_ns t) /\
  time_Before t u = (time_ns t <? time_ns u).
Proof.
  unfold time_wf, time_Equal, time_After, time_Before, time_ns, nsPerSec. intros Ht Hu.
  repeat split; apply eq_true_iff_eq; rewrite ?orb_true_iff, ?andb_true_iff, ?Z.ltb_lt, ?Z.eqb_eq; lia.
Qed.

(** *** Modification times in a window *)

Lemma ModTimeEqual_ns a b w :
  time_wf a -> time_wf b -> 0 <= w ->
  Z.abs (time_ns a - time_ns b) <= maxDuration ->
  ModTimeEqual a b w = (time_ns a =? time_ns b) || (Z.abs (time_ns a - time_ns b) <? w).
Proof.
  intros Ha Hb Hw Hd. unfold ModTimeEqual. destruct (time_cmp_ns a b Ha Hb) as (-> & _ & _).
  destruct (time_ns a =? time_ns b); [done|]. cbn [orb]. unfold time_Sub.
  rewrite Z.min_r, Z.max_r by (unfold minDuration, maxDuration in *; lia).
  destruct (Z.ltb_spec (time_ns a - time_ns b) 0) as [Hn|Hn].
  - unfold maxDuration in Hd. rewrite iN_small by lia. f_equal. lia.
  - f_equal. lia.
Qed.

(** ** Ownership, attributes, blocks *)

Lemma xattrs_loop_spec a b :
  length a = length b -> xattrs_loop a b = bool_decide (a = b).
Proof.
  revert b. induction a as [|[n v] a IH]; intros [|[n' v'] b] Hl; try done; cbn [xattrs_loop xName xValue].
  injection Hl as Hl. destruct (decide (n = n')) as [->|Hn].
  - rewrite bool_decide_true by done. destruct (decide (v = v')) as [->|Hv].
    + rewrite bool_decide_true by done. cbn [negb]. rewrite IH by done.
      apply bool_decide_ext. split; [by intros ->|by intros [= ->] ].
    + rewrite bool_decide_false by done. cbn [negb]. rewrite bool_decide_false; [done|naive_solver].
  - rewrite bool_decide_false by done. cbn [negb]. rewrite bool_decide_false; [done|naive_solver].
Qed.

(** Attribute sets are compared as lists, absent ones as empty ones. *)
Lemma xattrsEqual_spec a b : xattrsEqual a b = bool_decide (xattrs_list a = xattrs_list b).
Proof.
  unfold xattrsEqual.
  assert (forall c, xattrs_empty c = is_nil (xattrs_list c)) as He by (by intros [ [xs] |]).
  rewrite !He. destruct (xattrs_list a) as [|x l] eqn:Ea, (xattrs_list b) as [|y k] eqn:Eb; try done.
  cbn [is_nil andb orb]. destruct (Nat.eqb_spec (length (x :: l)) (length (y :: k))) as [Hl|Hl]; cbn [negb].
  - by apply xattrs_loop_spec.
  - rewrite bool_decide_false; [done|]. congruence.
Qed.

Lemma blocksEqual_spec a b : blocksEqual a b = bool_decide (map Hash a = map Hash b).
Proof.
  unfold blocksEqual. destruct (decide (map Hash a = map Hash b)) as [E|E].
  - rewrite bool_decide_true, andb_true_r by done. apply Nat.eqb_eq.
    apply (f_equal length) in E. by rewrite !length_map in E.
  - by rewrite bool_decide_false, andb_false_r by done.
Qed.

Lemma bool_decide_sym {A} `{EqDecision A} (x y : A) : bool_decide (x = y) = bool_decide (y = x).
Proof. apply bool_decide_ext. naive_solver. Qed.

Lemma eqb_sym a b : eqb a b = eqb b a.
Proof. by destruct a, b. Qed.

Lemma BlocksEqual_sym f g : BlocksEqual f g = BlocksEqual g f.
Proof.
  unfold BlocksEqual. rewrite !blocksEqual_spec, (bool_decide_sym (BlocksHash g)), (bool_decide_sym (map _ (Blocks g))).
  by rewrite (andb_comm (negb (is_nil (BlocksHash g)))).
Qed.

Lemma unixOwnershipEqual_sym a b : unixOwnershipEqual a b = unixOwnershipEqual b a.
Proof.
  destruct a, b; try done. cbn. by rewrite (Z.eqb_sym (UID _)), (Z.eqb_sym (GID _)),
    (bool_decide_sym (OwnerName _)), (bool_decide_sym (GroupName _)).
Qed.
Lemma unixOwnershipEqual_refl a : unixOwnershipEqual a a = true.
Proof. destruct a; [|done]. cbn. by rewrite !Z.eqb_refl. Qed.

Lemma windowsOwnershipEqual_sym a b : windowsOwnershipEqual a b = windowsOwnershipEqual b a.
Proof. destruct a, b; try done. cbn. by rewrite (bool_decide_sym (wOwnerName _)), eqb_sym. Qed.
Lemma windowsOwnershipEqual_refl a : windowsOwnershipEqual a a = true.
Proof. destruct a; [|done]. cbn. by rewrite bool_decide_true, eqb_reflx. Qed.

Lemma xattrsEqual_refl a : xattrsEqual a a = true.
Proof. rewrite xattrsEqual_spec. by apply bool_decide_true. Qed.
Lemma xattrsEqual_sym a b : xattrsEqual a b = xattrsEqual b a.
Proof. rewrite !xattrsEqual_spec. apply bool_decide_sym. Qed.

(** ** The specification of equivalence *)

Definition ownership_same (p q : PlatformData) : bool :=
  unixOwnershipEqual (Unix p) (Unix q) && windowsOwnershipEqual (Windows p) (Windows q).
Definition xattrs_same (p q : PlatformData) : bool :=
  xattrsEqual (Linux p) (Linux q) && xattrsEqual (Darwin p) (Darwin q) &&
  xattrsEqual (FreeBSD p) (FreeBSD q) && xattrsEqual (NetBSD p) (NetBSD q).

Lemma ownership_same_sym p q : ownership_same p q = ownership_same q p.
Proof. unfold ownership_same. by rewrite unixOwnershipEqual_sym, windowsOwnershipEqual_sym. Qed.
Lemma xattrs_same_sym p q : xattrs_same p q = xattrs_same q p.
Proof.
  unfold xattrs_same. by rewrite (xattrsEqual_sym (Linux p)), (xattrsEqual_sym (Darwin p)),
    (xattrsEqual_sym (FreeBSD p)), (xattrsEqual_sym (NetBSD p)).
Qed.

Definition invalid_but (comp : FileInfoComparison) (f : FileInfo) : bool :=
  flag_IsInvalid (clear_flags (LocalFlags f) (IgnoreFlags comp)).

(** The documented conditions, without the pointer comparison of the code. *)
Definition equivalent (isWindows : bool) (comp : FileInfoComparison) (f g : FileInfo) : Prop :=
  MustRescan f = false /\ MustRescan g = false /\
  Name f = Name g /\ Type_ f = Type_ g /\ Deleted f = Deleted g /\ invalid_but comp f = invalid_but comp g /\
  (IgnoreOwnership comp = false -> ownership_same (Platform f) (Platform g) = true) /\
  (IgnoreXattrs comp = false -> xattrs_same (Platform f) (Platform g) = true) /\
  (IgnorePerms comp = false -> NoPermissions f = false -> NoPermissions g = false ->
     PermsEqual isWindows (Permissions f) (Permissions g) = true) /\
  ((Type_ f = FileInfoTypeFile /\ FSize f = FSize g /\
      ModTimeEqual (ModTime f) (ModTime g) (ModTimeWindow comp) = true /\
      (IgnoreBlocks comp = false -> BlocksEqual f g = true)) \/
   (Type_ f = FileInfoTypeSymlink /\ SymlinkTarget f = SymlinkTarget g) \/
   Type_ f = FileInfoTypeDirectory).

Section Equivalence.
Context (isWindows : bool) (samePlatform : PlatformData -> PlatformData -> bool).
(** Identical pointers point to the same data. *)
Hypothesis samePlatform_same : forall p q, samePlatform p q = true -> p = q.

Lemma ownership_shortcut (ign : bool) p q :
  negb ign && negb (samePlatform p q) && negb (ownership_same p q) = negb ign && negb (ownership_same p q).
Proof.
  destruct ign; [done|]. cbn [negb andb]. destruct (samePlatform p q) eqn:E; [|done].
  apply samePlatform_same in E as ->. unfold ownership_same.
  by rewrite unixOwnershipEqual_refl, windowsOwnershipEqual_refl.
Qed.

Lemma xattrs_shortcut (ign : bool) p q :
  negb ign && negb (samePlatform p q) && negb (xattrs_same p q) = negb ign && negb (xattrs_same p q).
Proof.
  destruct ign; [done|]. cbn [negb andb]. destruct (samePlatform p q) eqn:E; [|done].
  apply samePlatform_same in E as ->. unfold xattrs_same. by rewrite !xattrsEqual_refl.
Qed.

Lemma guard_false (b : bool) (c : bool) : (if b then false else c) = true <-> b = false /\ c = true.
Proof. destruct b; intuition congruence. Qed.

Lemma eqb_true_iff' a b : eqb a b = true <-> a = b.
Proof. apply eqb_true_iff. Qed.

Lemma negb_and_neg (a b : bool) : negb a && negb b = false <-> (a = false -> b = true).
Proof. destruct a, b; naive_solver. Qed.

Lemma type_switch f g comp :
  (if Type_ f =? FileInfoTypeFile then
      (FSize f =? FSize g) && ModTimeEqual (ModTime f) (ModTime g) (ModTimeWindow comp) &&
      (IgnoreBlocks comp || BlocksEqual f g)
   else if Type_ f =? FileInfoTypeSymlink then bool_decide (SymlinkTarget f = SymlinkTarget g)
   else if Type_ f =? FileInfoTypeDirectory then true else false) = true <->
  (Type_ f = FileInfoTypeFile /\ FSize f = FSize g /\
      ModTimeEqual (ModTime f) (ModTime g) (ModTimeWindow comp) = true /\
      (IgnoreBlocks comp = false -> BlocksEqual f g = true)) \/
  (Type_ f = FileInfoTypeSymlink /\ SymlinkTarget f = SymlinkTarget g) \/
  Type_ f = FileInfoTypeDirectory.
Proof.
  unfold FileInfoTypeFile, FileInfoTypeSymlink, FileInfoTypeDirectory.
  destruct (Z.eqb_spec (Type_ f) 0) as [->|H0].
  - rewrite !andb_true_iff, Z.eqb_eq, orb_true_iff.
    destruct (IgnoreBlocks comp); intuition (lia || congruence).
  - destruct (Z.eqb_spec (Type_ f) 4) as [->|H4]; [rewrite bool_decide_eq_true; intuition (lia || congruence)|].
    destruct (Z.eqb_spec (Type_ f) 1) as [->|H1]; intuition (lia || congruence).
Qed.

Lemma isEquivalent_iff f g comp :
  isEquivalent isWindows samePlatform f g comp = true <-> equivalent isWindows comp f g.
Proof.
  unfold isEquivalent. cbv zeta.
  set (f' := set_LocalFlags _ f). set (g' := set_LocalFlags _ g).
  change (unixOwnershipEqual (Unix (Platform f')) (Unix (Platform g')) &&
    windowsOwnershipEqual (Windows (Platform f')) (Windows (Platform g')))
    with (ownership_same (Platform f) (Platform g)).
  change (xattrsEqual (Linux (Platform f')) (Linux (Platform g')) &&
            xattrsEqual (Darwin (Platform f')) (Darwin (Platform g')) &&
            xattrsEqual (FreeBSD (Platform f')) (FreeBSD (Platform g')) &&
            xattrsEqual (NetBSD (Platform f')) (NetBSD (Platform g')))
    with (xattrs_same (Platform f) (Platform g)).
  change (Platform f') with (Platform f). change (Platform g') with (Platform g).
  rewrite ownership_shortcut, xattrs_shortcut, !guard_false.
  rewrite (type_switch f' g' comp).
  change (BlocksEqual f' g') with (BlocksEqual f g).
  change (ModTime f') with (ModTime f). change (ModTime g') with (ModTime g).
  rewrite !orb_false_iff, !negb_false_iff, bool_decide_eq_true, Z.eqb_eq, !eqb_true_iff', !negb_and_neg.
  unfold equivalent, invalid_but. unfold IsInvalid, f', g'. cbn [LocalFlags set_LocalFlags Name Type_ Deleted NoPermissions Permissions FSize SymlinkTarget].
  destruct (IgnorePerms comp), (NoPermissions f), (NoPermissions g); cbn [negb andb];
    rewrite ?negb_false_iff; intuition congruence.
Qed.

Lemma ModTimeEqual_sym a b w :
  time_wf a -> time_wf b -> 0 <= w -> Z.abs (time_ns a - time_ns b) <= maxDuration ->
  ModTimeEqual a b w = ModTimeEqual b a w.
Proof.
  intros Ha Hb Hw Hd. rewrite !ModTimeEqual_ns by (done || lia). rewrite (Z.eqb_sym (time_ns a)).
  do 2 f_equal. lia.
Qed.

Lemma equivalent_sym f g comp :
  0 <= ModTimeWindow comp -> Z.abs (time_ns (ModTime f) - time_ns (ModTime g)) <= maxDuration ->
  equivalent isWindows comp f g -> equivalent isWindows comp g f.
Proof.
  intros Hw Hd (H1 & H2 & H3 & H4 & H5 & H6 & H7 & H8 & H9 & H10).
  unfold equivalent. rewrite ownership_same_sym, xattrs_same_sym, BlocksEqual_sym, <- H4.
  rewrite (ModTimeEqual_sym (ModTime g)) by (try apply time_Unix_wf; lia).
  unfold PermsEqual in *. rewrite (Z.eqb_sym (Z.land (Permissions g) _)).
  intuition congruence.
Qed.
End Equivalence.

(** ** Conflicts *)

(** ** Block sizes *)

Lemma BlockSizes_eq :
  BlockSizes = [131072; 262144; 524288; 1048576; 2097152; 4194304; 8388608; 16777216].
Proof. vm_compute. done. Qed.

Lemma empty_hashes_complete s :
  In s BlockSizes -> exists h, In (s, Some h) sha256OfEmptyBlock /\ length h = 32%nat.
Proof.
  assert (Forall (fun s => exists h, In (s, Some h) sha256OfEmptyBlock /\ length h = 32%nat) BlockSizes) as H.
  { unfold BlockSizes. vm_compute block_sizes_from.
    repeat constructor; (eexists; split; [vm_compute; tauto|vm_compute; done]). }
  rewrite List.Forall_forall in H. exact (H s).
Qed.

(** ** Properties *)

(** Of two files whose versions are concurrent exactly one wins the
    conflict, whichever side asks; a valid file beats an invalid one, and
    between files of equal validity the later modification time wins. *)
Theorem WinsConflict_decides f g :
  Concurrent (Version f) (Version g) = true ->
  WinsConflict g f = negb (WinsConflict f g) /\
  (IsInvalid f = false -> IsInvalid g = true -> WinsConflict f g = true) /\
  (IsInvalid f = IsInvalid g -> time_ns (ModTime g) < time_ns (ModTime f) -> WinsConflict f g = true).
Proof.
  intros Hc.
  destruct (time_cmp_ns (ModTime f) (ModTime g) (time_Unix_wf _ _) (time_Unix_wf _ _)) as (_ & Ha & Hb).
  destruct (time_cmp_ns (ModTime g) (ModTime f) (time_Unix_wf _ _) (time_Unix_wf _ _)) as (_ & Ha' & Hb').
  unfold WinsConflict. rewrite Ha, Ha', Hb, Hb'. repeat split.
  - destruct (IsInvalid f), (IsInvalid g); cbn [eqb negb]; try done.
    all: destruct (Z.ltb_spec (time_ns (ModTime f)) (time_ns (ModTime g))),
           (Z.ltb_spec (time_ns (ModTime g)) (time_ns (ModTime f))); try done; try lia.
    all: rewrite (Compare_flipped (Version f)); unfold Concurrent in Hc;
         destruct (Compare (Version f) (Version g)); by vm_compute in Hc |- *.
  - intros -> ->. done.
  - intros -> Ht. rewrite eqb_reflx. cbn [negb]. by rewrite (proj2 (Z.ltb_lt _ _) Ht).
Qed.

Definition ex_conflict (id v modS : Z) (flags : Z) : FileInfo :=
  {| Name := gostr "f"; FSize := 1; ModifiedS := modS; ModifiedBy := id;
     Version := {| Counters := [{| ID := id; Value := v |}] |}; Sequence := 1; Blocks := [];
     SymlinkTarget := []; BlocksHash := []; PreviousBlocksHash := []; Encrypted := [];
     Platform := {| Unix := None; Windows := None; Linux := None; Darwin := None; FreeBSD := None; NetBSD := None |};
     Type_ := FileInfoTypeFile; Permissions := 420; ModifiedNs := 0; RawBlockSize := 0; LocalFlags := flags;
     EncryptionTrailerSize := 0; Deleted := false; NoPermissions := false; truncated := false |}.

Lemma WinsConflict_decides_witness :
  let f := ex_conflict 1 5 100 0 in let g := ex_conflict 2 9 100 0 in
  WinsConflict f g = true /\
  (WinsConflict g f = negb (WinsConflict f g) /\
   (IsInvalid f = false -> IsInvalid g = true -> WinsConflict f g = true) /\
   (IsInvalid f = IsInvalid g -> time_ns (ModTime g) < time_ns (ModTime f) -> WinsConflict f g = true)).
Proof. split; [vm_compute; reflexivity|]. apply WinsConflict_decides. vm_compute. reflexivity. Defined.

(** [isEquivalent] decides its documented conditions, whether or not the
    pointers of the platform data happen to be shared, and is symmetric for
    modification times less than 292 years apart. *)
Theorem isEquivalent_spec isWindows samePlatform f g comp :
  (forall p q, samePlatform p q = true -> p = q) ->
  (isEquivalent isWindows samePlatform f g comp = true <-> equivalent isWindows comp f g) /\
  (0 <= ModTimeWindow comp -> Z.abs (time_ns (ModTime f) - time_ns (ModTime g)) <= maxDuration ->
   isEquivalent isWindows samePlatform f g comp = isEquivalent isWindows samePlatform g f comp).
Proof.
  intros Hs. split; [by apply isEquivalent_iff|]. intros Hw Hd. apply eq_true_iff_eq.
  rewrite !isEquivalent_iff by done. split; apply equivalent_sym; auto; lia.
Qed.

Lemma isEquivalent_spec_witness :
  let f := ex_conflict 1 5 100 0 in let g := ex_conflict 2 9 102 0 in
  let comp := {| ModTimeWindow := 3000000000; IgnorePerms := false; IgnoreBlocks := false; IgnoreFlags := 0;
                 IgnoreOwnership := false; IgnoreXattrs := false |} in
  isEquivalent false (fun _ _ => false) f g comp = true /\
  ((isEquivalent false (fun _ _ => false) f g comp = true <-> equivalent false comp f g) /\
   (0 <= ModTimeWindow comp -> Z.abs (time_ns (ModTime f) - time_ns (ModTime g)) <= maxDuration ->
    isEquivalent false (fun _ _ => false) f g comp = isEquivalent false (fun _ _ => false) g f comp)).
Proof. split; [vm_compute; reflexivity|]. apply isEquivalent_spec. intros p q [=]. Defined.

(** Two modification times more than 292 years apart count as equal when the
    earlier one is asked: the saturated difference is the least [Duration],
    whose negation overflows. *)
Lemma ModTimeEqual_saturates a b w :
  time_wf a -> time_wf b -> 0 <= w ->
  time_ns a - time_ns b <= minDuration -> ModTimeEqual a b w = true.
Proof.
  intros Ha Hb Hw Hd. unfold ModTimeEqual. destruct (time_cmp_ns a b Ha Hb) as (-> & _ & _).
  destruct (time_ns a =? time_ns b); [done|]. unfold time_Sub.
  rewrite Z.max_l by (unfold minDuration, maxDuration in *; lia).
  apply Z.ltb_lt. assert ((if minDuration <? 0 then i64 (minDuration * -1) else minDuration) = minDuration) as ->
    by (vm_compute; done). unfold minDuration. lia.
Qed.

Lemma ModTimeEqual_asymmetric :
  ModTimeEqual (time_Unix 0 0) (time_Unix 10000000000 0) 0 = true /\
  ModTimeEqual (time_Unix 10000000000 0) (time_Unix 0 0) 0 = false.
Proof. split; vm_compute; done. Qed.

(** The block size for a file is the smallest of the eight sizes from
    128 KiB to 16 MiB that keeps the file under the desired number of blocks,
    or the largest one. *)
Theorem BlockSize_minimal size :
  In (BlockSize size) BlockSizes /\
  (size < DesiredPerFileBlocks * MaxBlockSize -> size < DesiredPerFileBlocks * BlockSize size) /\
  (forall s, In s BlockSizes -> size < DesiredPerFileBlocks * s -> BlockSize size <= s).
Proof.
  unfold BlockSize. rewrite BlockSizes_eq.
  change MaxBlockSize with 16777216. cbn [block_size_loop In]. unfold DesiredPerFileBlocks.
  repeat split.
  - repeat case_match; auto 10.
  - repeat case_match; zbool; lia.
  - intros s Hs Hlt. repeat case_match; zbool; lia.
Qed.

(** The string of the flags identifies them, for every combination of the
    flags that exist. *)
Lemma HumanString_flags :
  NoDup (map (fun n => HumanString (Z.of_nat n)) (seq 0 128)) /\
  Forall (fun n => length (HumanString (Z.of_nat n)) = 7%nat) (seq 0 128).
Proof.
  split; eapply bool_decide_unpack; vm_compute; exact I.
Qed.
