(* ===== verification/Limits.v ===== *)
(** * Buffers and limits (lib/protocol/bufferpool.go, lib/semaphore/semaphore.go)

    The pool of block buffers: a buffer keeps what was written to it, and which
    one [sync.Pool] gives, if any, is an argument.  The semaphore that limits the
    bytes of requests, with the goroutines that wait for it as a transition
    system.  Counters for statistics are left out. *)
From Stdlib Require Import ZArith List Lia.
From Stdlib Require Import Strings.Byte.
From stdpp Require Import base list option numbers tactics.
From S2P Require Import Prelude GoLib FileInfo FileInfoProps.

#[local] Open Scope Z_scope.

(** ** The buffer pool *)

(** A slice: the bytes up to its capacity, and its length. *)
Record buffer := { buf_data : bytes; buf_len : Z }.
Definition buf_cap (b : buffer) : Z := zlen (buf_data b).
Definition buf_bytes (b : buffer) : bytes := take (Z.to_nat (buf_len b)) (buf_data b).
(** [make([]byte, n)[:size]] and [b[:size]]; out of range they panic. *)
Definition slice_buf {E} (data : bytes) (size : Z) : outcome E buffer :=
  if (size <? 0) || (zlen data <? size) then Panic else Ret {| buf_data := data; buf_len := size |}.
Definition make_buf {E} (n size : Z) : outcome E buffer :=
  if n <? 0 then Panic else slice_buf (replicate (Z.to_nat n) x00) size.

(** One pool for each block size. *)
Abbreviation bufferPool := (list (list bytes)).
Definition newBufferPool : bufferPool := replicate (length BlockSizes) [].

Fixpoint bucket_loop (P : Z -> bool) (i : nat) (sizes : list Z) : option nat :=
  match sizes with
  | [] => None
  | blockSize :: sizes => if P blockSize then Some i else bucket_loop P (S i) sizes
  end.
Definition getBucketForLen {E} (len : Z) : outcome E nat :=
  match bucket_loop (fun blockSize => len <=? blockSize) 0 BlockSizes with Some i => Ret i | None => Panic end.
Definition putBucketForCap {E} (cap : Z) : outcome E nat :=
  match bucket_loop (fun blockSize => cap =? blockSize) 0 BlockSizes with Some i => Ret i | None => Panic end.

(** [pools[j].Get()]: which buffer of pool [j] is given; nothing if there is none, or
    if the garbage collector took it. *)
Definition pool_take (pick : nat -> option nat) (j : nat) (p : bufferPool) : option (bytes * bufferPool) :=
  match pick j with
  | None => None
  | Some k =>
      match p !! j ≫= fun pool => pool !! k with
      | None => None
      | Some data => Some (data, alter (fun pool => delete k pool) j p)
      end
  end.
Fixpoint pool_loop (pick : nat -> option nat) (n j : nat) (p : bufferPool) : option (bytes * bufferPool) :=
  match n with
  | O => None
  | S n => match pool_take pick j p with Some r => Some r | None => pool_loop pick n (S j) p end
  end.
Definition Get {E} (pick : nat -> option nat) (size : Z) (p : bufferPool) : outcome E (buffer * bufferPool) :=
  if MaxBlockSize <? size then b ← make_buf size size; Ret (b, p)
  else
    bkt ← getBucketForLen size;
    match pool_loop pick (length BlockSizes - bkt) bkt p with
    | Some (data, p) => b ← slice_buf data size; Ret (b, p)
    | None =>
        if size <? MinBlockSize / 64 then b ← make_buf size size; Ret (b, p)
        else
          match BlockSizes !! bkt with
          | Some n => b ← make_buf n size; Ret (b, p)
          | None => Panic
          end
    end.
Definition Put {E} (b : buffer) (p : bufferPool) : outcome E bufferPool :=
  if (MaxBlockSize <? buf_cap b) || (buf_cap b <? MinBlockSize) then Ret p
  else
    bkt ← putBucketForCap (buf_cap b);
    Ret (alter (fun pool => buf_data b :: pool) bkt p).

(** ** Semaphores *)

Record Semaphore := { max : Z; available : Z }.
Definition New (m : Z) : Semaphore := let m := if m <? 0 then 0 else m in {| max := m; available := m |}.
(** One round of [takeInner] with the mutex locked: the caller waits with a size
    that has been limited, or has taken it. *)
Definition take_round (size : Z) (s : Semaphore) : Z * option Semaphore :=
  let size := if max s <? size then max s else size in
  if available s <? size then (size, None) else (size, Some {| max := max s; available := available s - size |}).
Definition Give (size : Z) (s : Semaphore) : Semaphore :=
  let size := if max s <? size then max s else size in
  {| max := max s; available := if max s <? available s + size then max s else available s + size |}.
Definition SetCapacity (capacity : Z) (s : Semaphore) : Semaphore :=
  let capacity := if capacity <? 0 then 0 else capacity in
  let diff := capacity - max s in
  let a := available s + diff in
  {| max := capacity; available := if a <? 0 then 0 else if capacity <? a then capacity else a |}.

(** A semaphore with the goroutines that wait, with their current sizes, and those
    that hold what they took, with the sizes they asked for. *)
Record limiter := { sem : Semaphore; waiting : list (nat * Z * Z); holding : list (nat * Z) }.
Definition new_limiter (m : Z) : limiter := {| sem := New m; waiting := []; holding := [] |}.
(** A goroutine arrives and asks, is woken and tries again, is cancelled while it
    waits, or gives back what it asked for.  Nobody asks for a negative number of bytes.
    The condition variable is not modelled: who waits may be woken at any time and in
    any order ([LWake], [LStay]), which are more histories than those after a [Broadcast]. *)
Inductive limiter_step : limiter -> limiter -> Prop :=
  | LTake l id size size' s : 0 <= size -> take_round size (sem l) = (size', Some s) ->
      limiter_step l {| sem := s; waiting := waiting l; holding := (id, size) :: holding l |}
  | LWait l id size size' : 0 <= size -> take_round size (sem l) = (size', None) ->
      limiter_step l {| sem := sem l; waiting := (id, size, size') :: waiting l; holding := holding l |}
  | LWake l id size cur size' s w1 w2 : waiting l = w1 ++ (id, size, cur) :: w2 -> take_round cur (sem l) = (size', Some s) ->
      limiter_step l {| sem := s; waiting := w1 ++ w2; holding := (id, size) :: holding l |}
  | LStay l id size cur size' w1 w2 : waiting l = w1 ++ (id, size, cur) :: w2 -> take_round cur (sem l) = (size', None) ->
      limiter_step l {| sem := sem l; waiting := w1 ++ (id, size, size') :: w2; holding := holding l |}
  | LCancel l id size cur w1 w2 : waiting l = w1 ++ (id, size, cur) :: w2 ->
      limiter_step l {| sem := sem l; waiting := w1 ++ w2; holding := holding l |}
  | LGive l id size h1 h2 : holding l = h1 ++ (id, size) :: h2 ->
      limiter_step l {| sem := Give size (sem l); waiting := waiting l; holding := h1 ++ h2 |}.
Inductive limiter_reach (m : Z) : limiter -> Prop :=
  | reach_new : limiter_reach m (new_limiter m)
  | reach_step l l' : limiter_reach m l -> limiter_step l l' -> limiter_reach m l'.

Section Multi.
(** [MultiSemaphore]: semaphores that are nil are skipped; giving goes in reverse. *)
Fixpoint multi_Take (size : Z) (ms : list (option Semaphore)) : option (list (option Semaphore)) :=
  match ms with
  | [] => Some []
  | None :: ms => r ← multi_Take size ms; Some (None :: r)
  | Some s :: ms =>
      match take_round size s with
      | (_, Some s) => r ← multi_Take size ms; Some (Some s :: r)
      | (_, None) => None
      end
  end.
Definition multi_Give (size : Z) (ms : list (option Semaphore)) : list (option Semaphore) :=
  reverse (map (fun l => Give size <$> l) (reverse ms)).
End Multi.

(** ** The pool hands out buffers that fit *)

(** Every pool holds buffers of its block size. *)
Definition pool_ok (p : bufferPool) : Prop :=
  length p = length BlockSizes /\
  forall j pool data, p !! j = Some pool -> data ∈ pool -> BlockSizes !! j = Some (zlen data).

Lemma bucket_loop_spec P i sizes k :
  bucket_loop P i sizes = Some k -> exists n, k = (i + n)%nat /\ (exists b, sizes !! n = Some b /\ P b = true).
Proof.
  revert i. induction sizes as [|b sizes IH]; intros i; [done|]. cbn [bucket_loop]. destruct (P b) eqn:E.
  - intros [= <-]. exists O. split; [lia|]. by exists b.
  - intros H. destruct (IH _ H) as (n & -> & b' & Hb & Hp). exists (S n). split; [lia|]. by exists b'.
Qed.

Lemma bucket_exists P : (exists b, b ∈ BlockSizes /\ P b = true) -> exists k b, bucket_loop P 0 BlockSizes = Some k /\ BlockSizes !! k = Some b /\ P b = true.
Proof.
  intros (b & Hb & HP). assert (forall i sizes, b ∈ sizes -> exists k, bucket_loop P i sizes = Some k) as H.
  { intros i sizes. revert i. induction sizes as [|c sizes IH]; intros i Hi; [by apply not_elem_of_nil in Hi|].
    cbn. destruct (P c) eqn:E; [by eexists|]. apply elem_of_cons in Hi as [->|Hi]; [congruence|by apply IH]. }
  destruct (H 0%nat BlockSizes Hb) as [k Hk]. exists k. destruct (bucket_loop_spec _ _ _ _ Hk) as (n & -> & c & Hc & HPc). by exists c.
Qed.

Lemma sizes_increase j k b c : BlockSizes !! j = Some b -> BlockSizes !! k = Some c -> (j <= k)%nat -> b <= c.
Proof.
  assert (forallb (fun '(j, k) => match BlockSizes !! j, BlockSizes !! k with Some b, Some c => negb (j <=? k)%nat || (b <=? c) | _, _ => true end)
    (list_prod (seq 0 (length BlockSizes)) (seq 0 (length BlockSizes))) = true) as H by (vm_compute; reflexivity).
  rewrite forallb_forall in H. intros Hj Hk Hle. pose proof (lookup_lt_Some _ _ _ Hj). pose proof (lookup_lt_Some _ _ _ Hk).
  specialize (H (j, k)). cbn beta iota in H. rewrite Hj, Hk in H. destruct (Nat.leb_spec j k); [|lia].
  apply Z.leb_le. apply H. apply in_prod; apply in_seq; lia.
Qed.

Lemma pool_take_spec pick j p data p' :
  pool_ok p -> pool_take pick j p = Some (data, p') -> BlockSizes !! j = Some (zlen data) /\ pool_ok p'.
Proof.
  intros [Hl Hp]. unfold pool_take. destruct (pick j) as [k|]; [|done].
  destruct (p !! j) as [pool|] eqn:Ej; [|done]. cbn [mbind option_bind]. destruct (pool !! k) as [d|] eqn:Ek; [|done]. intros [= <- <-].
  split; [apply (Hp j pool); [done|by eapply list_elem_of_lookup_2]|]. split; [by rewrite length_alter|].
  intros i q e Hq He. destruct (decide (i = j)) as [->|Hne].
  - rewrite list_lookup_alter_eq, Ej in Hq. cbn in Hq. injection Hq as <-. apply (Hp j pool); [done|].
    apply list_elem_of_lookup in He as [m Hm]. rewrite list_elem_of_lookup. destruct (decide (m < k)%nat).
    + rewrite list_lookup_delete_lt in Hm by done. by eexists.
    + rewrite list_lookup_delete_ge in Hm by lia. by eexists.
  - rewrite list_lookup_alter_ne in Hq by done. by apply (Hp i q).
Qed.
Lemma pool_loop_spec pick n j p data p' :
  pool_ok p -> pool_loop pick n j p = Some (data, p') -> (exists k, (j <= k)%nat /\ BlockSizes !! k = Some (zlen data)) /\ pool_ok p'.
Proof.
  intros Hp. revert j. induction n as [|n IH]; intros j; [done|]. cbn [pool_loop].
  destruct (pool_take pick j p) as [ [d q]|] eqn:E.
  - intros [= -> ->]. destruct (pool_take_spec _ _ _ _ _ Hp E) as [H1 H2]. split; [by exists j|done].
  - intros H. destruct (IH _ H) as [(k & Hk & Hb) Hq]. split; [|done]. exists k. split; [lia|done].
Qed.

Lemma slice_buf_ok {E} data size : 0 <= size <= zlen data -> slice_buf (E:=E) data size = Ret {| buf_data := data; buf_len := size |}.
Proof. intros H. unfold slice_buf. destruct (Z.ltb_spec size 0), (Z.ltb_spec (zlen data) size); try lia. done. Qed.
Lemma make_buf_ok {E} n size : 0 <= size <= n -> make_buf (E:=E) n size = Ret {| buf_data := replicate (Z.to_nat n) x00; buf_len := size |}.
Proof. intros H. unfold make_buf. destruct (Z.ltb_spec n 0); [lia|]. apply slice_buf_ok. rewrite length_replicate. lia. Qed.

(** Buffers that can be put back. *)
Definition returnable (b : buffer) : Prop := MaxBlockSize < buf_cap b \/ buf_cap b < MinBlockSize \/ buf_cap b ∈ BlockSizes.

(** A buffer from the pool has the length that was asked for, whatever the pool
    holds, and can be put back: neither operation panics, and every pool keeps to its
    block size.  (The bytes are those of its last use.) *)
Theorem buffers_fit {E} pick size p :
  0 <= size -> pool_ok p ->
  exists b p', Get (E:=E) pick size p = Ret (b, p') /\ zlen (buf_bytes b) = size /\ buf_len b = size /\ pool_ok p' /\ returnable b /\
    forall q, pool_ok q -> exists q', Put (E:=E) b q = Ret q' /\ pool_ok q'.
Proof.
  intros Hs Hp.
  assert (forall b, returnable b -> forall q, pool_ok q -> exists q', Put (E:=E) b q = Ret q' /\ pool_ok q') as Hput.
  { intros b Hb q Hq. unfold Put. destruct ((MaxBlockSize <? buf_cap b) || (buf_cap b <? MinBlockSize)) eqn:Ec; [by exists q|].
    apply orb_false_iff in Ec as [E1 E2]. zbool. destruct Hb as [?|[?|Hb] ]; [lia..|].
    destruct (bucket_exists (fun blockSize => buf_cap b =? blockSize)) as (k & c & Hk & Hc & HP); [exists (buf_cap b); split; [done|apply Z.eqb_refl]|].
    unfold putBucketForCap. rewrite Hk. eexists. split; [done|]. apply Z.eqb_eq in HP. destruct Hq as [Hl Hq].
    split; [by rewrite length_alter|]. intros j pool data Hj Hd. destruct (decide (j = k)) as [->|Hne].
    - destruct (lookup_lt_is_Some_2 q k) as [old Hold]; [rewrite Hl; by eapply lookup_lt_Some|].
      rewrite list_lookup_alter_eq, Hold in Hj. injection Hj as <-. apply elem_of_cons in Hd as [->|Hd]; [|by apply (Hq k old)].
      rewrite Hc. f_equal. unfold buf_cap in HP. lia.
    - rewrite list_lookup_alter_ne in Hj by done. by apply (Hq j pool). }
  assert (forall data n, 0 <= n <= zlen data -> zlen (buf_bytes {| buf_data := data; buf_len := n |}) = n) as Hlen.
  { intros data n Hn. unfold buf_bytes. cbn. rewrite length_take. lia. }
  assert (forall b p', Get (E:=E) pick size p = Ret (b, p') -> zlen (buf_bytes b) = size -> buf_len b = size -> pool_ok p' -> returnable b ->
    exists b p', Get (E:=E) pick size p = Ret (b, p') /\ zlen (buf_bytes b) = size /\ buf_len b = size /\ pool_ok p' /\ returnable b /\
      forall q, pool_ok q -> exists q', Put (E:=E) b q = Ret q' /\ pool_ok q') as Hdone.
  { intros b p' H1 H2 H3 H4 H5. exists b, p'. split_and!; try done. by apply Hput. }
  unfold Get in *. destruct (Z.ltb_spec MaxBlockSize size) as [Hbig|Hfit].
  { rewrite make_buf_ok in * by lia. eapply Hdone; [done|apply Hlen; rewrite length_replicate; lia|done|done|].
    left. unfold buf_cap. cbn. rewrite length_replicate. lia. }
  destruct (bucket_exists (fun blockSize => size <=? blockSize)) as (bkt & n & Hk & Hn & HP).
  { exists MaxBlockSize. split; [|by apply Z.leb_le]. vm_compute. by repeat (first [left; reflexivity|right]). }
  unfold getBucketForLen in *. rewrite Hk in *. cbn [mbind outcome_bind] in *. apply Z.leb_le in HP.
  destruct (pool_loop pick (length BlockSizes - bkt) bkt p) as [ [data q]|] eqn:El.
  - destruct (pool_loop_spec _ _ _ _ _ _ Hp El) as [(k & Hle & Hb) Hq]. pose proof (sizes_increase _ _ _ _ Hn Hb Hle).
    rewrite slice_buf_ok in * by lia. eapply Hdone; [done|apply Hlen; lia|done|done|]. right. right. unfold buf_cap. cbn.
    by eapply list_elem_of_lookup_2.
  - destruct (Z.ltb_spec size (MinBlockSize / 64)) as [Hsm|Hge].
    + rewrite make_buf_ok in * by lia. eapply Hdone; [done|apply Hlen; rewrite length_replicate; lia|done|done|].
      right. left. unfold buf_cap. cbn [buf_data]. rewrite length_replicate. change (MinBlockSize / 64) with 2048 in *. change MinBlockSize with 131072. lia.
    + rewrite Hn in *. rewrite make_buf_ok in * by lia. eapply Hdone; [done|apply Hlen; rewrite length_replicate; lia|done|done|].
      right. right. unfold buf_cap. cbn [buf_data]. rewrite length_replicate, Z2Nat.id by lia. by eapply list_elem_of_lookup_2.
Qed.

Lemma newBufferPool_ok : pool_ok newBufferPool.
Proof.
  unfold newBufferPool. split; [by rewrite length_replicate|]. intros j pool data Hj Hd. apply lookup_replicate in Hj as [-> _].
  by apply not_elem_of_nil in Hd.
Qed.

(** A buffer is given back with what the last user left in it: the pool does not
    clear it, so the bytes that a later user does not overwrite are old ones. *)
Lemma old_bytes_stay {E} data size :
  0 <= size <= MinBlockSize -> zlen data = MinBlockSize ->
  exists b p, Get (E:=E) (fun _ => Some 0%nat) size (<[0%nat := [data]]> newBufferPool) = Ret (b, p) /\ buf_bytes b = take (Z.to_nat size) data.
Proof.
  intros Hs Hd. unfold Get. change MinBlockSize with 131072 in *. change MaxBlockSize with 16777216.
  destruct (Z.ltb_spec 16777216 size); [lia|]. unfold getBucketForLen. rewrite BlockSizes_eq. cbn [bucket_loop].
  destruct (Z.leb_spec size 131072); [|lia]. cbn [mbind outcome_bind length Nat.sub pool_loop pool_take].
  change (<[0%nat := [data]]> newBufferPool) with ([data] :: replicate 7 []). cbn.
  rewrite slice_buf_ok by lia. eexists _, _. split; [done|]. done.
Qed.

(** ** What is held fits the limit *)

Definition limited (m size : Z) : Z := Z.min size m.
Definition held (m : Z) (hs : list (nat * Z)) : Z := foldr (fun h n => limited m h.2 + n) 0 hs.
Lemma held_app m h1 h2 : held m (h1 ++ h2) = held m h1 + held m h2.
Proof. induction h1 as [|h h1 IH]; cbn; [done|]. unfold held in *. lia. Qed.

(** What holds in every state that is reached with one capacity. *)
Definition limiter_ok (m : Z) (l : limiter) : Prop :=
  max (sem l) = Z.max m 0 /\ available (sem l) + held (Z.max m 0) (holding l) = Z.max m 0 /\ 0 <= available (sem l) /\
  Forall (fun h => 0 <= h.2) (holding l) /\ Forall (fun w => 0 <= w.1.2 /\ limited (Z.max m 0) w.2 = limited (Z.max m 0) w.1.2) (waiting l).

Lemma take_round_spec size s size' r :
  take_round size s = (size', r) ->
  size' = limited (max s) size /\
  match r with
  | Some s' => size' <= available s /\ max s' = max s /\ available s' = available s - size'
  | None => available s < size'
  end.
Proof.
  unfold take_round, limited. intros H. cbv zeta in H.
  assert ((if max s <? size then max s else size) = Z.min size (max s)) as E by (case_bool; zbool; lia).
  rewrite E in H. destruct (Z.ltb_spec (available s) (Z.min size (max s))); injection H as <- <-; (split; [done|]); cbn; lia.
Qed.

Lemma held_nonneg m hs : 0 <= m -> Forall (fun h => 0 <= h.2) hs -> 0 <= held m hs.
Proof. intros Hm. unfold held, limited. induction 1; cbn; lia. Qed.

Lemma limiter_step_ok m l l' : limiter_ok m l -> limiter_step l l' -> limiter_ok m l'.
Proof.
  intros (Hm & Hs & Ha & Hh & Hw) Hstep. unfold limiter_ok.
  destruct Hstep as [l id size size' s Hp E|l id size size' Hp E|l id size cur size' s w1 w2 Ew E|l id size cur size' w1 w2 Ew E|l id size cur w1 w2 Ew|l id size h1 h2 Eh];
    cbn [sem waiting holding] in *; try (apply take_round_spec in E as [E1 E2]; rewrite Hm in * ).
  - destruct E2 as (E2 & E3 & E4). cbn [held foldr snd]. fold (held (Z.max m 0) (holding l)). rewrite E3, E4, E1 in *. split_and!; try done; try lia. by constructor.
  - split_and!; try done. constructor; [|done]. split; [done|]. cbn. rewrite E1. unfold limited. lia.
  - destruct E2 as (E2 & E3 & E4). rewrite Ew in Hw. apply Forall_app in Hw as [Hw1 Hw2]. pose proof (Forall_inv Hw2) as [Hp Hc].
    cbn [fst snd] in Hp, Hc. cbn [held foldr snd]. fold (held (Z.max m 0) (holding l)). rewrite E3, E4, E1, Hc in *. split_and!; try done; try lia; [by constructor|].
    apply Forall_app. split; [done|by apply Forall_inv_tail in Hw2].
  - split_and!; try done. rewrite Ew in Hw. apply Forall_app in Hw as [Hw1 Hw2]. apply Forall_app. split; [done|].
    pose proof (Forall_inv Hw2) as [Hp Hc]. constructor; [|by apply Forall_inv_tail in Hw2]. split; [done|]. cbn in *. rewrite E1, <- Hc. unfold limited. lia.
  - split_and!; try done. rewrite Ew in Hw. apply Forall_app in Hw as [Hw1 Hw2]. apply Forall_app. split; [done|by apply Forall_inv_tail in Hw2].
  - rewrite Eh in *. rewrite held_app in Hs. cbn [held foldr snd] in Hs. fold (held (Z.max m 0) h2) in Hs.
    apply Forall_app in Hh as [Hh1 Hh2]. pose proof (Forall_inv Hh2) as Hp. apply Forall_inv_tail in Hh2. cbn in Hp.
    pose proof (held_nonneg (Z.max m 0) h1 ltac:(lia) Hh1). pose proof (held_nonneg (Z.max m 0) h2 ltac:(lia) Hh2).
    unfold Give. cbn [max available sem]. rewrite Hm. unfold limited in Hs.
    assert ((if Z.max m 0 <? size then Z.max m 0 else size) = Z.min size (Z.max m 0)) as -> by (case_bool; zbool; lia).
    destruct (Z.ltb_spec (Z.max m 0) (available (sem l) + Z.min size (Z.max m 0))); split_and!; try done; try lia; rewrite ?held_app; try lia.
    all: by apply Forall_app.
Qed.

Lemma limiter_reach_ok m l : limiter_reach m l -> limiter_ok m l.
Proof.
  induction 1 as [|l l' _ IH Hs]; [|by eapply limiter_step_ok]. unfold limiter_ok, new_limiter, New. cbn [sem waiting holding].
  destruct (Z.ltb_spec m 0); cbn; split_and!; try constructor; lia.
Qed.

(** C35: The semaphore keeps its limit: in any history of goroutines that take, wait,
    give up and give back, what is held (a request larger than the limit counts as
    the limit) and what is available add up to the limit, so no more than the limit
    is ever held, and when nothing is held every goroutine that waits can go on. *)
Theorem limit_kept m l :
  limiter_reach m l ->
  available (sem l) + held (Z.max m 0) (holding l) = Z.max m 0 /\ held (Z.max m 0) (holding l) <= Z.max m 0 /\
  (holding l = [] -> Forall (fun w => is_Some (take_round w.2 (sem l)).2) (waiting l)).
Proof.
  intros Hr. destruct (limiter_reach_ok m l Hr) as (Hm & Hs & Ha & Hh & Hw). split_and!; [done|lia|].
  intros Hn. rewrite Hn in Hs. cbn in Hs. apply List.Forall_forall. intros w _.
  destruct (take_round w.2 (sem l)) as [size' r] eqn:E. apply take_round_spec in E as [E1 E2]. rewrite Hm in E1. unfold limited in E1.
  destruct r; [by eexists|]. lia.
Qed.

Lemma limit_kept_witness :
  exists l, limiter_reach 10 l /\ holding l = [(1%nat, 30)] /\ available (sem l) = 0 /\ held 10 (holding l) <= 10.
Proof.
  assert (limiter_reach 10 {| sem := {| max := 10; available := 0 |}; waiting := []; holding := [(1%nat, 30)] |}) as Hr.
  { eapply reach_step; [apply reach_new|]. by eapply (LTake (new_limiter 10) 1 30 10). }
  eexists. split; [exact Hr|]. split; [reflexivity|]. split; [reflexivity|]. apply (limit_kept 10 _ Hr).
Defined.

(** With a change of the capacity the limit can be broken: two requests of 60 and 40
    fill a limit of 100; after the limit was lowered to 50, giving back 60 makes 50
    available although 40 are held, and 90 are held at once. *)
Lemma capacity_overcommits :
  let full := {| max := 100; available := 0 |} in
  exists s, take_round 50 (Give 60 (SetCapacity 50 full)) = (50, Some s) /\ max s = 50.
Proof. eexists. split; reflexivity. Qed.

Lemma buffers_fit_witness :
  exists b p', Get (E:=unit) (fun _ => None) 5 newBufferPool = Ret (b, p') /\ buf_len b = 5.
Proof.
  destruct (buffers_fit (E:=unit) (fun _ => None) 5 newBufferPool ltac:(lia) newBufferPool_ok) as (b & p' & H & _ & Hl & _).
  exists b, p'. split; [exact H|exact Hl].
Defined.
