(* ===== verification/DeviceID.v ===== *)
(** * Device IDs (lib/protocol/deviceid.go, lib/protocol/luhn.go)

    The textual form of device IDs: base 32, check digits, chunks, and the
    forgiving parser. *)
From Stdlib Require Import ZArith List Lia.
From Stdlib Require Import Strings.Byte.
From stdpp Require Import base list option numbers tactics.
From S2P Require Import Prelude GoLib.

#[local] Open Scope Z_scope.

Definition DeviceIDLength : Z := 32.
Definition ShortIDStringLength : nat := 7.
Definition repeatedDeviceID (v : byte) : bytes := replicate (Z.to_nat DeviceIDLength) v.
Definition LocalDeviceID : bytes := repeatedDeviceID xff.
Definition GlobalDeviceID : bytes := repeatedDeviceID xf8.
Definition EmptyDeviceID : bytes := repeatedDeviceID x00.

Inductive id_err := EWrongLength | EBadCheckDigit | EBadCharacter | EBadBase32.

(** ** encoding/base32 *)

Definition luhnBase32 : bytes := gostr "ABCDEFGHIJKLMNOPQRSTUVWXYZ234567".
Definition pad : byte := z2b 61.

Definition b32_char (v : Z) : byte := default pad (luhnBase32 !! Z.to_nat v).

(** The low [k] digits in base 32, most significant first, and back. *)
Fixpoint put32 (k : nat) (w : Z) : list Z :=
  match k with O => [] | S k => put32 k (w / 32) ++ [w mod 32] end.
Definition get32 (ds : list Z) : Z := fold_left (fun acc d => acc * 32 + d) ds 0.

(** [base32.StdEncoding.EncodeToString]: five bytes make eight characters; a
    short last group is padded. *)
Fixpoint b32_encode_loop (fuel : nat) (bs : bytes) : bytes :=
  match fuel, bs with
  | S fuel, _ :: _ =>
      let g := take 5 bs in
      let n := length g in
      let k := ((8 * n + 4) / 5)%nat in
      map b32_char (put32 k (getBE g * 2 ^ (5 * Z.of_nat k - 8 * Z.of_nat n))) ++
      replicate (8 - k) pad ++ b32_encode_loop fuel (drop 5 bs)
  | _, _ => []
  end.
Definition b32_encode (bs : bytes) : bytes := b32_encode_loop (length bs) bs.

(** [codepoint32]: the value of a character, none for -1. *)
Definition codepoint32 (b : byte) : option Z :=
  let c := b2z b in
  if (65 <=? c) && (c <=? 90) then Some (c - 65)
  else if (50 <=? c) && (c <=? 55) then Some (c + 26 - 50)
  else None.

(** One quantum of the decoder: up to eight characters, or padding that ends
    the input. *)
Fixpoint b32_quantum (k : nat) (dbuf : list Z) (src : bytes) : option (list Z * bytes * bool) :=
  match k with
  | O => Some (dbuf, src, false)
  | S k =>
      match src with
      | [] => None
      | c :: src =>
          let j := length dbuf in
          if bool_decide (c = pad) && (2 <=? j)%nat && (length src <? 8)%nat then
            if (length src + j <? 7)%nat then None
            else if negb (forallb (fun x => bool_decide (x = pad)) (take (7 - j) src)) then None
            else if bool_decide (j = 3%nat) || bool_decide (j = 6%nat) then None
            else Some (dbuf, src, true)
          else
            match codepoint32 c with
            | None => None
            | Some v => b32_quantum k (dbuf ++ [v]) src
            end
      end
  end.
Definition b32_pack (dbuf : list Z) : bytes :=
  let m := (length dbuf * 5 / 8)%nat in
  putBE m (get32 dbuf / 2 ^ (5 * zlen dbuf - 8 * Z.of_nat m)).
Fixpoint b32_decode_loop (fuel : nat) (src : bytes) : option bytes :=
  match fuel, src with
  | _, [] => Some []
  | O, _ => None
  | S fuel, _ =>
      match b32_quantum 8 [] src with
      | None => None
      | Some (dbuf, _, true) => Some (b32_pack dbuf)
      | Some (dbuf, rest, false) => (fun r => b32_pack dbuf ++ r) <$> b32_decode_loop fuel rest
      end
  end.
Definition stripNewlines (s : bytes) : bytes :=
  List.filter (fun c => negb (bool_decide (c = x0a) || bool_decide (c = x0d))) s.
Definition b32_decode (s : bytes) : option bytes :=
  let s := stripNewlines s in b32_decode_loop (length s) s.

(** ** Check digits (luhn.go) *)

Definition luhn_addend (factor codepoint : Z) : Z :=
  let addend := factor * codepoint in addend / 32 + addend mod 32.
Fixpoint luhn_loop (factor sum : Z) (s : bytes) : outcome id_err Z :=
  match s with
  | [] => Ret sum
  | c :: s =>
      match codepoint32 c with
      | None => Err EBadCharacter
      | Some cp => luhn_loop (if factor =? 2 then 1 else 2) (sum + luhn_addend factor cp) s
      end
  end.
Definition luhn32 (s : bytes) : outcome id_err byte :=
  sum ← luhn_loop 1 0 s;
  let remainder := sum mod 32 in
  let checkCodepoint := (32 - remainder) mod 32 in
  Ret (b32_char checkCodepoint).

(** [luhnify] *)
Fixpoint luhnify_loop (n : nat) (s : bytes) : outcome id_err bytes :=
  match n with
  | O => Ret []
  | S n =>
      let p := take 13 s in
      l ← luhn32 p;
      rest ← luhnify_loop n (drop 13 s);
      Ret (p ++ [l] ++ rest)
  end.
Definition luhnify (s : bytes) : outcome id_err bytes :=
  if negb (zlen s =? 52) then Panic else luhnify_loop 4 s.

(** [unluhnify] *)
Fixpoint unluhnify_loop (n : nat) (s : bytes) : outcome id_err bytes :=
  match n with
  | O => Ret []
  | S n =>
      let p := take 13 s in
      l ← luhn32 p;
      if negb (bool_decide (s !! 13%nat = Some l)) then Err EBadCheckDigit
      else
        rest ← unluhnify_loop n (drop 14 s);
        Ret (p ++ rest)
  end.
Definition unluhnify (s : bytes) : outcome id_err bytes :=
  if negb (zlen s =? 56) then Err EWrongLength else unluhnify_loop 4 s.

(** ** Chunks and forgiveness *)

Definition hyphen : byte := z2b 45.
Definition space : byte := z2b 32.

Fixpoint chunkify_loop (n : nat) (s : bytes) : bytes :=
  match n with
  | O => []
  | S O => take 7 s
  | S n => take 7 s ++ hyphen :: chunkify_loop n (drop 7 s)
  end.
Definition chunkify (s : bytes) : bytes := chunkify_loop (length s / 7) s.

(** [strings.ReplaceAll] of one character. *)
Definition removeAll (c : byte) (s : bytes) : bytes := List.filter (fun x => negb (bool_decide (x = c))) s.
Definition replaceAll (c d : byte) (s : bytes) : bytes := map (fun x => if decide (x = c) then d else x) s.
Definition unchunkify (s : bytes) : bytes := removeAll space (removeAll hyphen s).
Definition untypeoify (s : bytes) : bytes :=
  replaceAll (z2b 56) (z2b 66) (replaceAll (z2b 49) (z2b 73) (replaceAll (z2b 48) (z2b 79) s)).

(** [strings.Trim(s, "=")] *)
Fixpoint trimLeft (c : byte) (s : bytes) : bytes :=
  match s with x :: r => if decide (x = c) then trimLeft c r else s | [] => [] end.
Definition trim (c : byte) (s : bytes) : bytes := reverse (trimLeft c (reverse (trimLeft c s))).

(** ** Device IDs *)

Definition DeviceIDFromBytes (bs : bytes) : outcome id_err bytes :=
  if negb (zlen bs =? DeviceIDLength) then Err EWrongLength else Ret bs.

(** [DeviceID.String] *)
Definition DeviceID_String (n : bytes) : outcome id_err bytes :=
  if bool_decide (n = EmptyDeviceID) then Ret []
  else
    match luhnify (trim pad (b32_encode n)) with
    | Ret id => Ret (chunkify id)
    | _ => Panic
    end.

(** [DeviceID.Short], [ShortID.String] *)
Definition Short (n : bytes) : Z := getBE (take 8 n).
Definition ShortID_String (s : Z) : bytes :=
  if s =? 0 then [] else take ShortIDStringLength (b32_encode (putBE 8 s)).

Definition Equals (n other : bytes) : bool := bool_decide (n = other).
(** [copy(n[:], dec)] *)
Definition copy_into (n dec : bytes) : bytes := take (length n) dec ++ drop (length dec) n.

Section Unmarshal.
(** [strings.ToUpper], known on ASCII only. *)
Context (ToUpper : bytes -> bytes).

(** The decoding of an ID without check digits. *)
Definition unmarshalOld (n id : bytes) : outcome id_err bytes :=
  match b32_decode (id ++ replicate 4 pad) with
  | None => Err EBadBase32
  | Some dec => Ret (copy_into n dec)
  end.
(** [DeviceID.UnmarshalText] on a receiver that holds [n]. *)
Definition UnmarshalText (n bs : bytes) : outcome id_err bytes :=
  let id := unchunkify (untypeoify (ToUpper (trim pad bs))) in
  if zlen id =? 0 then Ret EmptyDeviceID
  else if zlen id =? 56 then
    id ← unluhnify id; unmarshalOld n id
  else if zlen id =? 52 then unmarshalOld n id
  else Err EWrongLength.
Definition DeviceIDFromString (s : bytes) : outcome id_err bytes := UnmarshalText EmptyDeviceID s.
End Unmarshal.

(** [DeviceID.MarshalTo], [DeviceID.Unmarshal] *)
Definition MarshalTo (n dst : bytes) : outcome id_err (bytes * Z) :=
  if zlen dst <? DeviceIDLength then Err EWrongLength else Ret (n ++ drop (length n) dst, DeviceIDLength).
Definition Unmarshal (n bs : bytes) : outcome id_err bytes :=
  if zlen bs <? DeviceIDLength then Err EWrongLength else Ret (copy_into n bs).

(** ** Lemmas: base 32 *)

Definition b32_alphabet (c : byte) : Prop := c ∈ luhnBase32.

Lemma put32_length k w : length (put32 k w) = k.
Proof. revert w. induction k as [|k IH]; intros w; cbn [put32]; [done|]. rewrite length_app, IH. cbn. lia. Qed.

Lemma put32_range k w : Forall (fun d => 0 <= d < 32) (put32 k w).
Proof.
  revert w. induction k as [|k IH]; intros w; cbn [put32]; [constructor|].
  apply Forall_app. split; [done|]. repeat constructor; apply Z.mod_pos_bound; lia.
Qed.

Lemma get32_app ds d : get32 (ds ++ [d]) = get32 ds * 32 + d.
Proof. unfold get32. by rewrite fold_left_app. Qed.

Lemma get32_put32 k w : get32 (put32 k w) = w mod 32 ^ Z.of_nat k.
Proof.
  revert w. induction k as [|k IH]; intros w; [by rewrite Z.mod_1_r|]. cbn [put32].
  rewrite get32_app, IH, Nat2Z.inj_succ, Z.pow_succ_r by lia.
  rewrite (Z.rem_mul_r w 32) by (try apply Z.pow_pos_nonneg; lia). lia.
Qed.

Lemma codepoint_char v : 0 <= v < 32 -> codepoint32 (b32_char v) = Some v.
Proof.
  intros Hv. assert (Forall (fun n => codepoint32 (b32_char (Z.of_nat n)) = Some (Z.of_nat n)) (seq 0 32)) as H.
  { repeat constructor. }
  rewrite List.Forall_forall in H. specialize (H (Z.to_nat v)). rewrite Z2Nat.id in H by lia.
  apply H, in_seq. lia.
Qed.

Lemma char_alphabet v : 0 <= v < 32 -> b32_alphabet (b32_char v).
Proof.
  intros Hv. unfold b32_alphabet, b32_char. destruct (lookup_lt_is_Some_2 luhnBase32 (Z.to_nat v)) as [c Hc].
  { change (length luhnBase32) with 32%nat. lia. }
  rewrite Hc. cbn. by eapply list_elem_of_lookup_2.
Qed.

(** What holds of the 32 characters holds of every character of the alphabet. *)
Lemma alphabet_check (P : byte -> bool) c : forallb P luhnBase32 = true -> b32_alphabet c -> P c = true.
Proof. rewrite forallb_forall. intros H Hc. apply H. by apply list_elem_of_In. Qed.

Lemma alphabet_plain c :
  b32_alphabet c ->
  c <> pad /\ c <> x0a /\ c <> x0d /\ c <> hyphen /\ c <> space /\ c <> z2b 48 /\ c <> z2b 49 /\ c <> z2b 56.
Proof.
  intros Hc.
  assert (forall d, forallb (fun x => negb (bool_decide (x = d))) luhnBase32 = true -> c <> d) as H.
  { intros d Hd. pose proof (alphabet_check _ c Hd Hc) as E. cbv beta in E. by zbool. }
  repeat split; apply H; vm_compute; done.
Qed.

Lemma b32_quantum_chars k dbuf ds rest :
  (length ds <= k)%nat -> Forall (fun d => 0 <= d < 32) ds ->
  b32_quantum k dbuf (map b32_char ds ++ rest) = b32_quantum (k - length ds) (dbuf ++ ds) rest.
Proof.
  intros Hl HF. revert k dbuf Hl. induction HF as [|d ds Hd HF IH]; intros k dbuf Hl.
  { by rewrite app_nil_r, Nat.sub_0_r. }
  destruct k as [|k]; [simpl in Hl; lia|]. cbn [map app b32_quantum].
  rewrite bool_decide_false by (by apply alphabet_plain, char_alphabet). cbn [andb].
  rewrite codepoint_char by done. rewrite IH by (simpl in Hl; lia). cbn [length].
  rewrite Nat.sub_succ, <- app_assoc. done.
Qed.

(** One group of the encoder, decoded. *)
Definition b32_group (g : bytes) : list Z :=
  let n := length g in
  let k := ((8 * n + 4) / 5)%nat in
  put32 k (getBE g * 2 ^ (5 * Z.of_nat k - 8 * Z.of_nat n)).

Lemma b32_pack_group g : (1 <= length g <= 5)%nat -> b32_pack (b32_group g) = g.
Proof.
  intros Hg. unfold b32_pack, b32_group. rewrite put32_length, get32_put32.
  pose proof (getBE_bound g) as Hb. transitivity (putBE (length g) (getBE g)); [|apply putBE_getBE].
  assert (exists n, length g = n /\ (n = 1 \/ n = 2 \/ n = 3 \/ n = 4 \/ n = 5)%nat) as (n & Hn & Hc) by (exists (length g); lia).
  rewrite Hn in *. clear Hg Hn.
  destruct Hc as [->|[->|[->|[->| ->] ] ] ]; cbn [Nat.mul Nat.add Nat.div Nat.divmod fst];
  match goal with |- putBE ?a _ = putBE ?b _ => change a with b end; f_equal;
  match goal with |- (?a * ?p) mod ?m / ?q = _ =>
    let p' := eval vm_compute in p in change p with p';
    let m' := eval vm_compute in m in change m with m';
    let q' := eval vm_compute in q in change q with q' end;
  match type of Hb with _ <= _ < ?x => let x' := eval vm_compute in x in change x with x' in Hb end;
  rewrite Z.mod_small by lia; apply Z.div_mul; lia.
Qed.

Lemma b32_group_range g : Forall (fun d => 0 <= d < 32) (b32_group g).
Proof. apply put32_range. Qed.

Lemma b32_encode_step bs :
  bs <> [] ->
  b32_encode bs = map b32_char (b32_group (take 5 bs)) ++
    replicate (8 - (8 * length (take 5 bs) + 4) / 5) pad ++ b32_encode (drop 5 bs).
Proof.
  intros Hne. unfold b32_encode.
  assert (forall fuel bs, (length bs <= fuel)%nat -> b32_encode_loop fuel bs = b32_encode_loop (length bs) bs) as Hf.
  { clear. induction fuel as [fuel IH] using lt_wf_ind. intros [|b bs] Hl; [by destruct fuel|].
    destruct fuel as [|fuel]; [simpl in Hl; lia|]. cbn [length b32_encode_loop]. do 2 f_equal.
    assert (length (drop 5 (b :: bs)) <= length bs)%nat by (rewrite length_drop; simpl; lia).
    simpl in Hl. rewrite (IH fuel), (IH (length bs)) by lia. done. }
  destruct bs as [|b bs]; [done|]. cbn [length b32_encode_loop]. unfold b32_group. do 2 f_equal.
  apply Hf. rewrite length_drop. simpl. lia.
Qed.

Lemma b32_decode_step fuel src :
  src <> [] ->
  b32_decode_loop (S fuel) src =
    match b32_quantum 8 [] src with
    | None => None
    | Some (dbuf, _, true) => Some (b32_pack dbuf)
    | Some (dbuf, rest, false) => (fun r => b32_pack dbuf ++ r) <$> b32_decode_loop fuel rest
    end.
Proof. by destruct src. Qed.

Lemma b32_group_length g : length (b32_group g) = ((8 * length g + 4) / 5)%nat.
Proof. apply put32_length. Qed.

Lemma map_not_nil {A B} (f : A -> B) l r : (0 < length l)%nat -> map f l ++ r <> [].
Proof. by destruct l; simpl; [lia|]. Qed.

Lemma b32_quantum_pads dbuf :
  length dbuf = 4%nat -> b32_quantum 4 dbuf (replicate 4 pad) = Some (dbuf, replicate 3 pad, true).
Proof. intros H. cbn [replicate b32_quantum]. rewrite H. reflexivity. Qed.

(** The text of [5 q + 2] bytes, and its decoding. *)
Lemma b32_roundtrip q bs :
  length bs = (5 * q + 2)%nat ->
  exists ds, b32_encode bs = map b32_char ds ++ replicate 4 pad /\
    Forall (fun d => 0 <= d < 32) ds /\ length ds = (8 * q + 4)%nat /\
    forall fuel, (q < fuel)%nat -> b32_decode_loop fuel (map b32_char ds ++ replicate 4 pad) = Some bs.
Proof.
  revert bs. induction q as [|q IH]; intros bs Hl; rewrite b32_encode_step by (by intros ->);
    set (g := take 5 bs); pose proof (b32_group_length g) as Hg; pose proof (b32_group_range g) as Hr.
  - assert (g = bs) as Eg by (apply take_ge; lia). assert (drop 5 bs = []) as -> by (apply drop_ge; lia).
    rewrite Eg in *. rewrite Hl in *. change ((8 * (5 * 0 + 2) + 4) / 5)%nat with 4%nat in *.
    exists (b32_group bs). split; [by rewrite app_nil_r|]. split; [done|]. split; [done|].
    intros [|fuel] Hf; [lia|]. rewrite b32_decode_step by (apply map_not_nil; lia).
    rewrite b32_quantum_chars, Hg by (done || lia). cbn [app Nat.sub].
    rewrite b32_quantum_pads by done. by rewrite b32_pack_group by lia.
  - assert (length g = 5)%nat as Eg by (unfold g; rewrite length_take; lia).
    destruct (IH (drop 5 bs)) as (ds & He & HF & Hd & Hdec); [rewrite length_drop; lia|].
    rewrite Eg in *. change ((8 * 5 + 4) / 5)%nat with 8%nat in *.
    exists (b32_group g ++ ds). rewrite He, map_app, <- app_assoc. split; [done|].
    split; [by apply Forall_app|]. split; [rewrite length_app; lia|].
    intros [|fuel] Hf; [lia|]. rewrite b32_decode_step by (apply map_not_nil; lia).
    rewrite b32_quantum_chars, Hg by (done || lia). cbn [app Nat.sub b32_quantum].
    rewrite Hdec by lia. cbn [fmap option_fmap option_map]. rewrite b32_pack_group by lia.
    unfold g. by rewrite take_drop.
Qed.

Lemma trimLeft_app c s r : c ∉ s -> s <> [] -> trimLeft c (s ++ r) = s ++ r.
Proof. destruct s as [|x s]; [done|]. cbn. intros H _. case_decide; [|done]. subst. exfalso. apply H, elem_of_cons. auto. Qed.

Lemma trimLeft_replicate n c s : trimLeft c (replicate n c ++ s) = trimLeft c s.
Proof. induction n as [|n IH]; cbn; [done|]. by rewrite decide_True. Qed.

Lemma trim_pads s n c : c ∉ s -> s <> [] -> trim c (s ++ replicate n c) = s.
Proof.
  intros Hc Hne. unfold trim. rewrite trimLeft_app, reverse_app, reverse_replicate, trimLeft_replicate by done.
  rewrite <- (app_nil_r (reverse s)), trimLeft_app, app_nil_r, reverse_involutive; [done| |].
  - by rewrite elem_of_reverse.
  - intros E. apply Hne. by rewrite <- (reverse_involutive s), E.
Qed.

Lemma filter_all (P : byte -> bool) s : Forall (fun c => P c = true) s -> List.filter P s = s.
Proof. induction 1 as [|c s Hc HF IH]; cbn; [done|]. by rewrite Hc, IH. Qed.

Lemma alphabet_chars ds : Forall (fun d => 0 <= d < 32) ds -> Forall b32_alphabet (map b32_char ds).
Proof. intros H. apply Forall_map. eapply List.Forall_impl; [|exact H]. intros d. apply char_alphabet. Qed.

(** ** Lemmas: check digits *)

Lemma luhn_loop_alphabet f sum s :
  Forall b32_alphabet s -> exists v, luhn_loop f sum s = Ret v.
Proof.
  intros HF. revert f sum. induction HF as [|c s Hc HF IH]; intros f sum; cbn [luhn_loop]; [eauto|].
  assert (is_Some (codepoint32 c)) as [v ->]; [|apply IH].
  pose proof (alphabet_check (fun c => match codepoint32 c with Some _ => true | None => false end) c) as H.
  specialize (H ltac:(vm_compute; done) Hc). cbv beta in H. destruct (codepoint32 c); [eauto|done].
Qed.

Lemma luhn32_alphabet s : Forall b32_alphabet s -> exists c, luhn32 s = Ret c /\ b32_alphabet c.
Proof.
  intros Hs. destruct (luhn_loop_alphabet 1 0 s Hs) as (v & Hv). unfold luhn32. rewrite Hv.
  cbn [mbind outcome_bind]. eexists. split; [done|]. apply char_alphabet, Z.mod_pos_bound. lia.
Qed.

Lemma luhnify_loop_ok n s :
  length s = (13 * n)%nat -> Forall b32_alphabet s ->
  exists t, luhnify_loop n s = Ret t /\ Forall b32_alphabet t /\ length t = (14 * n)%nat /\
    unluhnify_loop n t = Ret s.
Proof.
  revert s. induction n as [|n IH]; intros s Hl HF.
  { exists []. destruct s; [done|simpl in Hl; lia]. }
  cbn [luhnify_loop unluhnify_loop].
  destruct (luhn32_alphabet (take 13 s)) as (l & El & Hla); [by apply Forall_take|].
  destruct (IH (drop 13 s)) as (t & Et & Ht & Hlt & Hu); [rewrite length_drop; lia|by apply Forall_drop|].
  rewrite El, Et. cbn [mbind outcome_bind]. eexists. split; [done|].
  assert (length (take 13 s) = 13%nat) as H13 by (rewrite length_take; lia).
  split; [repeat (apply Forall_app; split); auto using Forall_take|].
  split; [rewrite !length_app, H13, Hlt; simpl; lia|].
  rewrite (take_app_length' (take 13 s)), El by done. cbn [mbind outcome_bind].
  rewrite lookup_app_r, H13, Nat.sub_diag by lia. cbn [app lookup list_lookup].
  rewrite bool_decide_true by done. cbn [negb].
  rewrite drop_app_ge, H13 by lia. change (14 - 13)%nat with 1%nat. cbn [app drop].
  rewrite drop_0, Hu. cbn [mbind outcome_bind]. by rewrite take_drop.
Qed.

(** ** Lemmas: chunks *)

Lemma removeAll_app c s t : removeAll c (s ++ t) = removeAll c s ++ removeAll c t.
Proof. apply List.filter_app. Qed.
Lemma removeAll_none c s : c ∉ s -> removeAll c s = s.
Proof.
  intros H. apply filter_all. apply List.Forall_forall. intros x Hx. apply list_elem_of_In in Hx.
  rewrite bool_decide_false; [done|]. by intros ->.
Qed.

Lemma removeAll_chunkify n s :
  hyphen ∉ s -> length s = (7 * n)%nat -> removeAll hyphen (chunkify_loop n s) = s.
Proof.
  revert s. induction n as [|n IH]; intros s Hs Hl; [destruct s; [done|simpl in Hl; lia]|].
  destruct n as [|n].
  - cbn [chunkify_loop]. rewrite take_ge by lia. by apply removeAll_none.
  - change (chunkify_loop (S (S n)) s) with (take 7 s ++ hyphen :: chunkify_loop (S n) (drop 7 s)).
    rewrite removeAll_app, removeAll_none; [|intros H; apply Hs; eapply subseteq_take; exact H].
    change (removeAll hyphen (hyphen :: ?r)) with (removeAll hyphen r).
    rewrite IH; [by rewrite take_drop| |rewrite length_drop; lia].
    intros H. apply Hs. rewrite <- (take_drop 7 s), elem_of_app. auto.
Qed.

Lemma chunkify_chars n s :
  Forall b32_alphabet s -> Forall (fun c => b32_alphabet c \/ c = hyphen) (chunkify_loop n s).
Proof.
  revert s. induction n as [|n IH]; intros s HF; [constructor|].
  assert (Forall (fun c => b32_alphabet c \/ c = hyphen) (take 7 s)) as Ht.
  { eapply List.Forall_impl; [|apply Forall_take, HF]. auto. }
  destruct n as [|n]; [done|].
  change (chunkify_loop (S (S n)) s) with (take 7 s ++ hyphen :: chunkify_loop (S n) (drop 7 s)).
  apply Forall_app. split; [done|]. constructor; [auto|]. by apply IH, Forall_drop.
Qed.

(** ** Lemmas: check digits detect errors *)

Definition next_factor (f : Z) : Z := if f =? 2 then 1 else 2.

Lemma luhn_loop_app f sum s t :
  luhn_loop f sum (s ++ t) =
    match luhn_loop f sum s with
    | Ret v => luhn_loop (Nat.iter (length s) next_factor f) v t
    | r => r
    end.
Proof.
  revert f sum. induction s as [|c s IH]; intros f sum; [done|]. cbn [app luhn_loop].
  destruct (codepoint32 c); [|done]. rewrite IH. fold (next_factor f). cbn [length].
  by rewrite Nat.iter_succ_r.
Qed.

Lemma luhn_loop_shift f sum d s v : luhn_loop f sum s = Ret v -> luhn_loop f (sum + d) s = Ret (v + d).
Proof.
  revert f sum. induction s as [|c s IH]; intros f sum; cbn [luhn_loop]; [by intros [= ->]|].
  destruct (codepoint32 c); [|done]. intros H. apply IH in H. by rewrite <- H, <- !Z.add_assoc, (Z.add_comm d).
Qed.

Lemma codepoint32_range c v : codepoint32 c = Some v -> 0 <= v < 32.
Proof. unfold codepoint32. repeat case_match; intros [= <-]; zbool; lia. Qed.

Lemma codepoint32_inj c d v : codepoint32 c = Some v -> codepoint32 d = Some v -> c = d.
Proof.
  unfold codepoint32. intros Hc Hd. apply (inj b2z).
  repeat case_match; simplify_eq; zbool; lia.
Qed.

(** The addends of two different characters differ modulo 32. *)
Lemma luhn_addend_inj f v w :
  (f = 1 \/ f = 2) -> 0 <= v < 32 -> 0 <= w < 32 -> v <> w ->
  (luhn_addend f v - luhn_addend f w) mod 32 <> 0.
Proof.
  intros Hf Hv Hw Hne. unfold luhn_addend.
  assert (forall x, 0 <= x < 32 -> 0 <= f * x / 32 + (f * x) mod 32 < 32) as Hr.
  { intros x Hx. destruct Hf as [-> | ->]; [rewrite Z.mul_1_l|]; Z.to_euclidean_division_equations; lia. }
  pose proof (Hr v Hv). pose proof (Hr w Hw). intros E. apply Z.mod_divide in E as [k Hk]; [|lia].
  assert (k = 0) as -> by lia. destruct Hf as [-> | ->]; Z.to_euclidean_division_equations; lia.
Qed.

Lemma factor_1_2 n : Nat.iter n next_factor 1 = 1 \/ Nat.iter n next_factor 1 = 2.
Proof. induction n as [|n IH]; [auto|]. change (Nat.iter (S n) next_factor 1) with (next_factor (Nat.iter n next_factor 1)). destruct IH as [-> | ->]; auto. Qed.

Lemma b32_char_inj v w : 0 <= v < 32 -> 0 <= w < 32 -> b32_char v = b32_char w -> v = w.
Proof. intros Hv Hw E. apply codepoint_char in Hv, Hw. congruence. Qed.

Lemma luhn32_substitution s i b c x y :
  s !! i = Some b -> c <> b -> luhn32 s = Ret x -> luhn32 (<[i := c]> s) = Ret y -> x <> y.
Proof.
  intros Hi Hne Hx Hy ->. pose proof (lookup_lt_Some _ _ _ Hi) as Hlt.
  rewrite insert_take_drop in Hy by done. rewrite <- (take_drop_middle _ _ _ Hi) in Hx.
  unfold luhn32 in Hx, Hy. rewrite luhn_loop_app in Hx, Hy.
  destruct (luhn_loop 1 0 (take i s)) as [u| | |]; try done.
  set (f := Nat.iter _ next_factor 1) in *. pose proof (factor_1_2 (length (take i s))) as Hf. fold f in Hf.
  cbn [luhn_loop] in Hx, Hy.
  destruct (codepoint32 b) as [vb|] eqn:Eb; [|done]. destruct (codepoint32 c) as [vc|] eqn:Ec; [|done].
  fold (next_factor f) in Hx, Hy.
  destruct (luhn_loop (next_factor f) (u + luhn_addend f vb) (drop (S i) s)) as [w| | |] eqn:E1; try done.
  apply (luhn_loop_shift _ _ (luhn_addend f vc - luhn_addend f vb)) in E1.
  replace (u + luhn_addend f vb + (luhn_addend f vc - luhn_addend f vb)) with (u + luhn_addend f vc) in E1 by lia.
  rewrite E1 in Hy. cbn [mbind outcome_bind] in Hx, Hy. injection Hx as Hx. injection Hy as Hy.
  rewrite <- Hy in Hx. apply b32_char_inj in Hx; [|apply Z.mod_pos_bound; lia..].
  apply codepoint32_range in Eb as Hb, Ec as Hc.
  assert (vc <> vb) as Hv by (intros ->; apply Hne; by apply (codepoint32_inj c b vb)).
  apply (luhn_addend_inj f vc vb Hf Hc Hb Hv).
  set (d := luhn_addend f vc - luhn_addend f vb) in *. clearbody d. clear - Hx. Z.to_euclidean_division_equations; lia.
Qed.

Lemma luhn_loop_result f sum s : (exists v, luhn_loop f sum s = Ret v) \/ luhn_loop f sum s = Err EBadCharacter.
Proof. revert f sum. induction s as [|c s IH]; intros f sum; cbn [luhn_loop]; [eauto|]. case_match; eauto. Qed.

Lemma luhn32_result s : (exists c, luhn32 s = Ret c) \/ luhn32 s = Err EBadCharacter.
Proof. unfold luhn32. destruct (luhn_loop_result 1 0 s) as [ [v ->] | ->]; [left|by right]. by eexists. Qed.

Lemma unluhnify_loop_substitution n s i b c t :
  unluhnify_loop n s = Ret t -> length s = (14 * n)%nat -> s !! i = Some b -> c <> b ->
  exists e, unluhnify_loop n (<[i := c]> s) = Err e.
Proof.
  revert s i t. induction n as [|n IH]; intros s i t Hu Hl Hi Hne.
  { destruct s; [done|simpl in Hl; lia]. }
  cbn [unluhnify_loop] in *. destruct (luhn32 (take 13 s)) as [l| | |] eqn:El; try done.
  cbn [mbind outcome_bind] in Hu. case_match eqn:Ec; [done|]. zbool.
  destruct (unluhnify_loop n (drop 14 s)) as [r| | |] eqn:Er; try done.
  destruct (decide (i < 13)%nat) as [H13|H13].
  - rewrite take_insert_lt by done. destruct (luhn32_result (<[i := c]> (take 13 s))) as [ [l' El'] | ->]; [|eauto].
    assert (l <> l') as Hll.
    { eapply (luhn32_substitution (take 13 s) i b c); eauto. by rewrite lookup_take_lt. }
    rewrite El'. cbn [mbind outcome_bind]. rewrite list_lookup_insert_ne by lia.
    rewrite bool_decide_false by congruence. cbn [negb]. eauto.
  - rewrite take_insert_ge, El by lia. cbn [mbind outcome_bind].
    destruct (decide (i = 13)%nat) as [->|Hne13].
    + rewrite list_lookup_insert_eq by (rewrite Hl; lia). rewrite bool_decide_false by congruence. cbn [negb]. eauto.
    + rewrite list_lookup_insert_ne by lia. rewrite bool_decide_true by done. cbn [negb].
      rewrite drop_insert_ge by lia.
      destruct (IH (drop 14 s) (i - 14)%nat r) as [e ->]; [done|rewrite length_drop; lia| |done|eauto].
      rewrite lookup_drop. by replace (14 + (i - 14))%nat with i by lia.
Qed.

(** ** Properties *)

Definition upper (c : byte) : byte := if (97 <=? b2z c) && (b2z c <=? 122) then z2b (b2z c - 32) else c.
Definition lower (c : byte) : byte := if (65 <=? b2z c) && (b2z c <=? 90) then z2b (b2z c + 32) else c.

(** [strings.ToUpper] on ASCII. *)
Definition upper_law (ToUpper : bytes -> bytes) : Prop :=
  forall s, Forall (fun c => b2z c < 128) s -> ToUpper s = map upper s.

Lemma id_char_case c :
  b32_alphabet c \/ c = hyphen ->
  b2z c < 128 /\ b2z (lower c) < 128 /\ upper c = c /\ upper (lower c) = c /\ c <> pad /\ lower c <> pad /\
  c <> z2b 48 /\ c <> z2b 49 /\ c <> z2b 56 /\ c <> space.
Proof.
  set (P := fun c => (b2z c <? 128) && (b2z (lower c) <? 128) && bool_decide (upper c = c) &&
    bool_decide (upper (lower c) = c) && negb (bool_decide (c = pad)) && negb (bool_decide (lower c = pad)) &&
    negb (bool_decide (c = z2b 48)) && negb (bool_decide (c = z2b 49)) && negb (bool_decide (c = z2b 56)) &&
    negb (bool_decide (c = space))).
  intros H. assert (P c = true) as E.
  { destruct H as [H| ->]; [|vm_compute; done]. apply (alphabet_check P); [vm_compute; done|done]. }
  unfold P in E. zbool. auto 20.
Qed.

Lemma not_elem_chars (Q : byte -> Prop) c s : Forall Q s -> ~ Q c -> c ∉ s.
Proof. intros HF Hn Hin. apply Hn. rewrite List.Forall_forall in HF. apply HF. by apply list_elem_of_In. Qed.

Lemma replaceAll_none c d s : c ∉ s -> replaceAll c d s = s.
Proof.
  intros H. unfold replaceAll. induction s as [|x s IH]; [done|]. apply not_elem_of_cons in H as [H1 H2].
  cbn. rewrite IH by done. by rewrite decide_False.
Qed.

(** What the parser makes of the canonical characters. *)
Lemma normalize_id s :
  Forall (fun c => b32_alphabet c \/ c = hyphen) s ->
  unchunkify (untypeoify s) = removeAll hyphen s.
Proof.
  intros HF. assert (forall c, (forall x, b32_alphabet x \/ x = hyphen -> x <> c) -> c ∉ s) as Hno.
  { intros c Hc. eapply not_elem_chars; [exact HF|]. intros H. by apply (Hc c). }
  unfold untypeoify. rewrite (replaceAll_none (z2b 48)), (replaceAll_none (z2b 49)), (replaceAll_none (z2b 56)) by (apply Hno; intros x Hx; apply id_char_case in Hx; intuition).
  unfold unchunkify. apply removeAll_none. intros H. apply list_elem_of_In, filter_In in H as [H _].
  apply list_elem_of_In in H. revert H. apply Hno. intros x Hx. apply id_char_case in Hx. intuition.
Qed.

Lemma trim_none c s : c ∉ s -> trim c s = s.
Proof.
  intros H. destruct s as [|x s]; [done|]. rewrite <- (app_nil_r (x :: s)) at 1.
  apply (trim_pads (x :: s) 0); done.
Qed.

Lemma copy_into_full n dec : length n = length dec -> copy_into n dec = dec.
Proof. intros H. unfold copy_into. rewrite take_ge, drop_ge by lia. apply app_nil_r. Qed.

Lemma b32_decode_chars ds r : Forall (fun d => 0 <= d < 32) ds ->
  b32_decode (map b32_char ds ++ replicate r pad) =
  b32_decode_loop (length (map b32_char ds ++ replicate r pad)) (map b32_char ds ++ replicate r pad).
Proof.
  intros HF. unfold b32_decode, stripNewlines. rewrite filter_all; [done|]. apply Forall_app. split.
  - eapply List.Forall_impl; [|apply alphabet_chars, HF]. intros c Hc. apply alphabet_plain in Hc.
    rewrite !bool_decide_false by tauto. done.
  - apply Forall_replicate. vm_compute. done.
Qed.

(** The text of an ID: the characters of the identity with check digits, in
    chunks. *)
Lemma DeviceID_String_spec n :
  length n = 32%nat -> n <> EmptyDeviceID ->
  exists ds id, b32_encode n = map b32_char ds ++ replicate 4 pad /\
    Forall (fun d => 0 <= d < 32) ds /\ length ds = 52%nat /\ b32_decode (map b32_char ds ++ replicate 4 pad) = Some n /\
    luhnify (map b32_char ds) = Ret id /\ DeviceID_String n = Ret (chunkify_loop 8 id) /\
    length id = 56%nat /\ Forall b32_alphabet id /\ unluhnify id = Ret (map b32_char ds).
Proof.
  intros Hl Hne. destruct (b32_roundtrip 6 n Hl) as (ds & He & HF & Hd & Hdec).
  destruct (luhnify_loop_ok 4 (map b32_char ds)) as (id & Hid & Ha & Hlid & Hun);
    [rewrite length_map; lia|by apply alphabet_chars|].
  assert (luhnify (map b32_char ds) = Ret id) as Hln.
  { unfold luhnify. rewrite length_map, Hd. exact Hid. }
  exists ds, id. split; [done|]. split; [done|]. split; [done|].
  split. { rewrite b32_decode_chars by done. apply Hdec. rewrite length_app, length_map. lia. }
  split; [done|]. split.
  { unfold DeviceID_String. rewrite bool_decide_false, He, trim_pads, Hln; [|..].
    - unfold chunkify. by rewrite Hlid.
    - eapply not_elem_chars; [apply alphabet_chars, HF|]. intros H. apply alphabet_plain in H; intuition congruence.
    - intros E. by destruct ds.
    - done. }
  split; [done|]. split; [done|]. unfold unluhnify. by rewrite Hlid.
Qed.

(** Every device ID is read back from its text form, whatever the receiver
    held before, also when the text has been turned to lower case. *)
Theorem DeviceID_roundtrip ToUpper n r :
  upper_law ToUpper -> length n = 32%nat -> length r = 32%nat ->
  exists s, DeviceID_String n = Ret s /\ UnmarshalText ToUpper r s = Ret n /\
    UnmarshalText ToUpper r (map lower s) = Ret n.
Proof.
  intros HU Hn Hr. destruct (decide (n = EmptyDeviceID)) as [->|Hne].
  { exists []. split; [done|]. unfold UnmarshalText. cbn [map]. change (trim pad []) with (@nil byte).
    rewrite HU by constructor. done. }
  destruct (DeviceID_String_spec n Hn Hne) as (ds & id & _ & HF & Hd & Hdec & _ & Hs & Hlid & Ha & Hun).
  pose proof (chunkify_chars 8 id Ha) as Hc. set (s := chunkify_loop 8 id) in *.
  exists s. split; [done|].
  assert (forall s', trim pad s' = s' -> ToUpper s' = s -> UnmarshalText ToUpper r s' = Ret n) as Hparse.
  { intros s' Ht Hu. unfold UnmarshalText. rewrite Ht, Hu, normalize_id by done. unfold s.
    assert (hyphen ∉ id) as Hh.
    { eapply not_elem_chars; [exact Ha|]. intros H. apply alphabet_plain in H; intuition congruence. }
    rewrite removeAll_chunkify, Hlid by done. change (Z.of_nat 56 =? 0) with false.
    change (Z.of_nat 56 =? 56) with true. cbn iota. rewrite Hun. cbn [mbind outcome_bind].
    unfold unmarshalOld. rewrite Hdec. by rewrite copy_into_full by lia. }
  assert (forall P : byte -> Prop, (forall c, b32_alphabet c \/ c = hyphen -> P c) -> Forall P s) as Hall.
  { intros P HP. eapply List.Forall_impl; [|exact Hc]. done. }
  split; apply Hparse.
  - apply trim_none. eapply not_elem_chars; [exact Hc|]. intros H. apply id_char_case in H; intuition congruence.
  - rewrite HU by (apply Hall; intros c H; apply id_char_case in H; intuition congruence).
    rewrite <- (map_id s) at 2. apply map_ext_Forall, Hall. intros c H. apply id_char_case in H; intuition congruence.
  - apply trim_none. eapply (not_elem_chars (fun c => c <> pad)); [|tauto].
    apply Forall_map, Hall. intros c H. apply id_char_case in H; intuition congruence.
  - rewrite HU by (apply Forall_map, Hall; intros c H; apply id_char_case in H; intuition congruence).
    rewrite map_map. rewrite <- (map_id s) at 2. apply map_ext_Forall, Hall. intros c H. apply id_char_case in H; intuition congruence.
Qed.

Lemma DeviceID_roundtrip_witness :
  upper_law (map upper) /\
  exists s, DeviceID_String GlobalDeviceID = Ret s /\ UnmarshalText (map upper) LocalDeviceID s = Ret GlobalDeviceID /\
    UnmarshalText (map upper) LocalDeviceID (map lower s) = Ret GlobalDeviceID.
Proof. split; [done|]. by apply DeviceID_roundtrip. Defined.

(** The check digits reveal any single wrong character: if an ID with check
    digits is accepted, then replacing any one of its characters, check digits
    included, by any other byte makes it be refused. *)
Theorem unluhnify_detects s i b c t :
  unluhnify s = Ret t -> s !! i = Some b -> c <> b ->
  exists e, unluhnify (<[i := c]> s) = Err e.
Proof.
  unfold unluhnify. rewrite length_insert. case_match eqn:E; [done|]. zbool. intros Hu Hi Hne.
  eapply unluhnify_loop_substitution; eauto. lia.
Qed.

Definition ex_id : bytes := removeAll hyphen (gostr "P56IOI7-MZJNU2Y-IQGDREY-DM2MGTI-MGL3BXN-PQ6W5BM-TBBZ4TJ-XZWICQ2").

Lemma unluhnify_detects_witness :
  is_Ret (unluhnify ex_id) = true /\ lookup 20%nat ex_id = Some (z2b 89) /\
  exists e, unluhnify (<[20%nat := z2b 90]> ex_id) = Err e.
Proof.
  split; [vm_compute; reflexivity|]. split; [vm_compute; reflexivity|].
  destruct (unluhnify ex_id) as [t| | |] eqn:E; [|vm_compute in E; discriminate..].
  apply (unluhnify_detects ex_id 20 (z2b 89) (z2b 90) t E); [vm_compute; reflexivity|].
  intros H. apply (f_equal b2z) in H. vm_compute in H. discriminate.
Defined.

(** A swap of two neighbours within a group is revealed too, unless they are
    the characters of value 0 and 31. *)
Lemma luhn32_transposition s t a b x y :
  luhn32 (s ++ a :: b :: t) = Ret x -> luhn32 (s ++ b :: a :: t) = Ret y -> a <> b ->
  codepoint32 a <> Some 0 \/ codepoint32 b <> Some 31 ->
  codepoint32 a <> Some 31 \/ codepoint32 b <> Some 0 -> x <> y.
Proof.
  intros Hx Hy Hne H1 H2 ->. unfold luhn32 in Hx, Hy. rewrite luhn_loop_app in Hx, Hy.
  destruct (luhn_loop 1 0 s) as [u| | |]; try done.
  set (f := Nat.iter _ next_factor 1) in *. pose proof (factor_1_2 (length s)) as Hf. fold f in Hf.
  cbn [luhn_loop] in Hx, Hy.
  destruct (codepoint32 a) as [va|] eqn:Ea; [|done]. destruct (codepoint32 b) as [vb|] eqn:Eb; [|done].
  fold (next_factor f) in Hx, Hy. fold (next_factor (next_factor f)) in Hx, Hy.
  set (g := next_factor f) in *.
  destruct (luhn_loop (next_factor g) (u + luhn_addend f va + luhn_addend g vb) t) as [w| | |] eqn:E1; try done.
  set (d := luhn_addend f vb + luhn_addend g va - luhn_addend f va - luhn_addend g vb).
  apply (luhn_loop_shift _ _ d) in E1.
  replace (u + luhn_addend f va + luhn_addend g vb + d) with (u + luhn_addend f vb + luhn_addend g va) in E1 by (unfold d; lia).
  rewrite E1 in Hy. cbn [mbind outcome_bind] in Hx, Hy. injection Hx as Hx. injection Hy as Hy.
  rewrite <- Hy in Hx. apply b32_char_inj in Hx; [|apply Z.mod_pos_bound; lia..].
  apply codepoint32_range in Ea as Ha, Eb as Hb.
  assert (va <> vb) as Hv by (intros ->; apply Hne; by apply (codepoint32_inj a b vb)).
  assert (~ (va = 0 /\ vb = 31)) by (intros [-> ->]; intuition congruence).
  assert (~ (va = 31 /\ vb = 0)) by (intros [-> ->]; intuition congruence).
  assert (d mod 32 = 0) as Hd by (clearbody d; clear - Hx; Z.to_euclidean_division_equations; lia).
  unfold d, g, next_factor, luhn_addend in Hd. clear - Hd Hf Ha Hb Hv H H0.
  destruct Hf as [-> | ->]; cbn [Z.eqb Pos.eqb] in Hd; Z.to_euclidean_division_equations; lia.
Qed.

(** A short ID prints as the first seven characters of the device ID it
    belongs to. *)
Theorem ShortID_prefix n :
  length n = 32%nat -> Short n <> 0 ->
  exists s, DeviceID_String n = Ret s /\ ShortID_String (Short n) = take 7 s.
Proof.
  intros Hl Hs. assert (n <> EmptyDeviceID) as Hne by (intros ->; by vm_compute in Hs).
  destruct (DeviceID_String_spec n Hl Hne) as (ds & id & He & HF & Hd & _ & Hid & Hstr & Hlid & _ & _).
  exists (chunkify_loop 8 id). split; [done|]. unfold ShortID_String, Short.
  rewrite (proj2 (Z.eqb_neq _ _)) by exact Hs.
  assert (putBE 8 (getBE (take 8 n)) = take 8 n) as ->.
  { rewrite <- (putBE_getBE (take 8 n)) at 2. rewrite length_take, Hl. done. }
  assert (take 7 (b32_encode (take 8 n)) = take 7 (b32_encode n)) as E7.
  { assert (n <> []) as Hn by (by intros ->). assert (take 8 n <> []) as Hn8 by (destruct n; [done|discriminate]).
    rewrite (b32_encode_step n Hn), (b32_encode_step _ Hn8). rewrite take_take. change (5 `min` 8)%nat with 5%nat.
    rewrite !take_app_le; [done|..]; rewrite length_map, b32_group_length, length_take, Hl; cbn; lia. }
  unfold ShortIDStringLength. rewrite E7, He.
  change (chunkify_loop 8 id) with (take 7 id ++ hyphen :: chunkify_loop 7 (drop 7 id)).
  rewrite (take_app_le _ (_ :: _)), take_take by (rewrite length_take; lia).
  rewrite take_app_le by (rewrite length_map; lia).
  unfold luhnify in Hid. case_match; [done|]. cbn [luhnify_loop] in Hid.
  destruct (luhn32 (take 13 (map b32_char ds))) as [l| | |]; try done. cbn [mbind outcome_bind] in Hid.
  repeat (destruct (luhn32 _) as [?| | |]; try done; cbn [mbind outcome_bind] in Hid).
  injection Hid as <-. rewrite take_app_le by (rewrite length_take, length_map; lia). by rewrite take_take.
Qed.

Lemma ShortID_prefix_witness :
  Short GlobalDeviceID <> 0 /\
  exists s, DeviceID_String GlobalDeviceID = Ret s /\ ShortID_String (Short GlobalDeviceID) = take 7 s.
Proof.
  assert (Short GlobalDeviceID <> 0) as H by (vm_compute; discriminate).
  split; [exact H|]. by apply ShortID_prefix.
Defined.

(** Without check digits the parser takes 52 characters of which some are
    newlines: the decoder skips them, and the last bytes of the ID are those
    the receiver held before. *)
Lemma UnmarshalText_newlines :
  UnmarshalText (map upper) LocalDeviceID (replicate 44 (z2b 65) ++ replicate 8 x0a) =
    Ret (replicate 27 x00 ++ replicate 5 xff).
Proof. vm_compute. reflexivity. Qed.
