(* ===== verification/EncryptedNames.v ===== *)
(** * Names of encrypted files (lib/protocol/encryption.go)

    The text of an encrypted name as a tree of directories: [base32Hex],
    [slashify], [deslashify] and [IsEncryptedParent].  The encryption itself is
    in [Encryption]. *)
From Stdlib Require Import ZArith List Lia.
From Stdlib Require Import Strings.Byte.
From stdpp Require Import base list option numbers tactics.
From S2P Require Import Prelude GoLib Paths DeviceID.

#[local] Open Scope Z_scope.

Definition encryptedDirExtension : bytes := gostr ".syncthing-enc".
Definition maxPathComponent : Z := 200.

(** ** encoding/base32: [HexEncoding.WithPadding(NoPadding)] *)

Definition hexAlphabet : bytes := gostr "0123456789ABCDEFGHIJKLMNOPQRSTUV".
Definition hex_char (v : Z) : byte := default xff (hexAlphabet !! Z.to_nat v).
(** [byte(NoPadding)]: the decoder takes this byte for padding. *)
Definition noPad : byte := xff.
Definition hex_point (b : byte) : option Z :=
  let c := b2z b in
  if (48 <=? c) && (c <=? 57) then Some (c - 48)
  else if (65 <=? c) && (c <=? 86) then Some (c - 55)
  else None.

Fixpoint hex32_encode_loop (fuel : nat) (bs : bytes) : bytes :=
  match fuel, bs with
  | S fuel, _ :: _ => map hex_char (b32_group (take 5 bs)) ++ hex32_encode_loop fuel (drop 5 bs)
  | _, _ => []
  end.
Definition EncodeToString (bs : bytes) : bytes := hex32_encode_loop (length bs) bs.

(** A quantum of the decoder: eight characters, or fewer at the end of the input. *)
Fixpoint hex32_quantum (k : nat) (dbuf : list Z) (src : bytes) : option (list Z * bytes * bool) :=
  match k with
  | O => Some (dbuf, src, false)
  | S k =>
      match src with
      | [] => Some (dbuf, [], true)
      | c :: src =>
          let j := length dbuf in
          if bool_decide (c = noPad) && (2 <=? j)%nat && (length src <? 8)%nat then
            if (length src + j <? 7)%nat then None
            else if negb (forallb (fun x => bool_decide (x = noPad)) (take (7 - j) src)) then None
            else if bool_decide (j = 3%nat) || bool_decide (j = 6%nat) then None
            else Some (dbuf, src, true)
          else
            match hex_point c with
            | None => None
            | Some v => hex32_quantum k (dbuf ++ [v]) src
            end
      end
  end.
(** The bytes of a quantum: nothing for the lengths that no bytes have. *)
Definition hex32_pack (dbuf : list Z) : bytes :=
  if bool_decide (length dbuf ∈ [1; 3; 6]%nat) then [] else b32_pack dbuf.
Fixpoint hex32_decode_loop (fuel : nat) (src : bytes) : option bytes :=
  match fuel, src with
  | _, [] => Some []
  | O, _ => None
  | S fuel, _ =>
      match hex32_quantum 8 [] src with
      | None => None
      | Some (dbuf, _, true) => Some (hex32_pack dbuf)
      | Some (dbuf, rest, false) => (fun r => hex32_pack dbuf ++ r) <$> hex32_decode_loop fuel rest
      end
  end.
Definition DecodeString (s : bytes) : option bytes :=
  let s := stripNewlines s in hex32_decode_loop (length s) s.

(** ** The tree *)

Fixpoint slashify_loop (fuel : nat) (s : bytes) : list bytes :=
  match fuel with
  | O => []
  | S fuel =>
      if maxPathComponent <? zlen s then
        take (Z.to_nat maxPathComponent) s :: slashify_loop fuel (drop (Z.to_nat maxPathComponent) s)
      else if 0 <? zlen s then [s] else []
  end.
(** Slicing a string that is too short panics. *)
Definition slashify {E} (s : bytes) : outcome E bytes :=
  if zlen s <? 1 then Panic
  else
    let first := take 1 s ++ encryptedDirExtension in
    let s := drop 1 s in
    if zlen s <? 2 then Panic
    else
      let second := take 2 s in
      let s := drop 2 s in
      Ret (join PathSeparator (first :: second :: slashify_loop (length s) s)).

Inductive enc_err := ErrInvalidEncryptedPath | ErrBase32 | ErrDecrypt | ErrTooShort | ErrProto.

Definition deslashify (s : bytes) : outcome enc_err bytes :=
  if is_nil s || negb (hasPrefix (drop 1 s) encryptedDirExtension) then Err ErrInvalidEncryptedPath
  else
    let s := take 1 s ++ drop (1 + length encryptedDirExtension) s in
    Ret (removeAll PathSeparator s).

Definition IsEncryptedParent (pathComponents : list bytes) : bool :=
  match pathComponents with
  | [] => false
  | first :: rest =>
      if (match rest with [second] => negb (zlen second =? 2) | _ => false end) then false
      else if is_nil first then false
      else if negb (bool_decide (drop 1 first = encryptedDirExtension)) then false
      else forallb (fun comp => zlen comp =? maxPathComponent) (drop 1 rest)
  end.

Example EncodeToString_1 : EncodeToString (gostr "foobar") = gostr "CPNMUOJ1E8". Proof. reflexivity. Qed.
Example DecodeString_1 : DecodeString (gostr "CPNMUOJ1E8") = Some (gostr "foobar"). Proof. reflexivity. Qed.
Example slashify_1 : slashify (E:=unit) (gostr "ABCDEF") = Ret (gostr "A.syncthing-enc/BC/DEF"). Proof. reflexivity. Qed.
Example deslashify_1 : deslashify (gostr "A.syncthing-enc/BC/DEF") = Ret (gostr "ABCDEF"). Proof. reflexivity. Qed.
Example deslashify_2 : deslashify (gostr "A") = Err ErrInvalidEncryptedPath. Proof. reflexivity. Qed.

(** ** Lemmas: base 32 *)

Definition hex_digit32 (c : byte) : Prop := c ∈ hexAlphabet.

Lemma hex_char_values v : 0 <= v < 32 -> hex_point (hex_char v) = Some v /\ hex_digit32 (hex_char v).
Proof.
  intros Hv.
  assert (Forall (fun n => hex_point (hex_char (Z.of_nat n)) = Some (Z.of_nat n)) (seq 0 32)) as H by repeat constructor.
  rewrite List.Forall_forall in H. specialize (H (Z.to_nat v)). rewrite Z2Nat.id in H by lia.
  split; [apply H, in_seq; lia|]. unfold hex_digit32, hex_char.
  destruct (lookup_lt_is_Some_2 hexAlphabet (Z.to_nat v)) as [c Hc]; [change (length hexAlphabet) with 32%nat; lia|].
  rewrite Hc. cbn. by eapply list_elem_of_lookup_2.
Qed.

(** What holds of the 32 characters holds of every digit. *)
Lemma hex_digit_check (P : byte -> bool) c : forallb P hexAlphabet = true -> hex_digit32 c -> P c = true.
Proof. rewrite forallb_forall. intros H Hc. apply H. by apply list_elem_of_In. Qed.

Lemma hex_digit_plain c :
  hex_digit32 c -> c <> noPad /\ c <> x0a /\ c <> x0d /\ c <> PathSeparator /\ c <> z2b 46.
Proof.
  intros Hc.
  assert (forall d, forallb (fun x => negb (bool_decide (x = d))) hexAlphabet = true -> c <> d) as H.
  { intros d Hd. pose proof (hex_digit_check _ c Hd Hc) as E. cbv beta in E. by zbool. }
  repeat split; apply H; vm_compute; done.
Qed.

Lemma hex_chars_digits ds : Forall (fun d => 0 <= d < 32) ds -> Forall hex_digit32 (map hex_char ds).
Proof. intros H. apply Forall_map. eapply Forall_impl; [|exact H]. intros d Hd. by apply hex_char_values. Qed.

Lemma hex32_quantum_chars k dbuf ds rest :
  (length ds <= k)%nat -> Forall (fun d => 0 <= d < 32) ds ->
  hex32_quantum k dbuf (map hex_char ds ++ rest) = hex32_quantum (k - length ds) (dbuf ++ ds) rest.
Proof.
  intros Hl HF. revert k dbuf Hl. induction HF as [|d ds Hd HF IH]; intros k dbuf Hl.
  { by rewrite app_nil_r, Nat.sub_0_r. }
  destruct k as [|k]; [simpl in Hl; lia|]. cbn [map app hex32_quantum].
  destruct (hex_char_values d Hd) as [Hp Hc].
  rewrite bool_decide_false by (by apply hex_digit_plain). cbn [andb].
  rewrite Hp, IH by (simpl in Hl; lia). cbn [length]. by rewrite Nat.sub_succ, <- app_assoc.
Qed.

Lemma hex32_pack_group g : (1 <= length g <= 5)%nat -> hex32_pack (b32_group g) = g.
Proof.
  intros Hg. unfold hex32_pack.
  assert (bool_decide (length (b32_group g) ∈ [1; 3; 6]%nat) = false) as ->; [|by apply b32_pack_group].
  rewrite b32_group_length. by destruct (length g) as [|[|[|[|[|[|n] ] ] ] ] ]; try lia.
Qed.

Lemma hex32_encode_fuel n m bs :
  (length bs <= n)%nat -> (length bs <= m)%nat -> hex32_encode_loop n bs = hex32_encode_loop m bs.
Proof.
  revert m bs. induction n as [|n IH]; intros m bs Hn Hm; [destruct bs; [by destruct m|simpl in *; lia]|].
  destruct bs as [|b bs]; [by destruct m|]. destruct m as [|m]; [simpl in *; lia|].
  cbn [hex32_encode_loop]. f_equal. apply IH; rewrite length_drop; simpl in *; lia.
Qed.

Lemma EncodeToString_step bs :
  bs <> [] -> EncodeToString bs = map hex_char (b32_group (take 5 bs)) ++ EncodeToString (drop 5 bs).
Proof.
  intros Hne. unfold EncodeToString. destruct bs as [|b bs]; [done|]. cbn [length hex32_encode_loop]. f_equal.
  apply hex32_encode_fuel; rewrite length_drop; simpl; lia.
Qed.

(** The text of [n] bytes: its digits, its length, and that it is read back. *)
Lemma hex32_roundtrip bs :
  Forall hex_digit32 (EncodeToString bs) /\ length (EncodeToString bs) = ((8 * length bs + 4) / 5)%nat /\
  forall fuel, (length bs < fuel)%nat -> hex32_decode_loop fuel (EncodeToString bs) = Some bs.
Proof.
  remember (length bs) as n eqn:En. revert bs En. induction n as [n IH] using lt_wf_ind. intros bs ->.
  destruct (decide (bs = [])) as [->|Hne].
  { split; [constructor|]. split; [done|]. by intros [|fuel] Hf. }
  rewrite EncodeToString_step by done. set (g := take 5 bs).
  assert (0 < length bs)%nat by (destruct bs; simpl; [done|lia]).
  assert (length g = min 5 (length bs)) as Hg by apply length_take.
  pose proof (b32_group_length g) as Hk. pose proof (b32_group_range g) as Hr.
  destruct (IH (length (drop 5 bs))) with (bs := drop 5 bs) as (HF & Hl & Hdec); [rewrite length_drop; lia|done|].
  rewrite length_drop in Hl. split; [apply Forall_app; split; [by apply hex_chars_digits|done]|]. split.
  { rewrite length_app, length_map, Hk, Hl, Hg. destruct (Nat.le_gt_cases 5 (length bs)) as [Hle|Hlt].
    - rewrite Nat.min_l by lia. change ((8 * 5 + 4) / 5)%nat with 8%nat.
      replace (8 * length bs + 4)%nat with (8 * (length bs - 5) + 4 + 8 * 5)%nat by lia. rewrite Nat.div_add by lia. lia.
    - rewrite Nat.min_r by lia. replace (length bs - 5)%nat with 0%nat by lia. change ((8 * 0 + 4) / 5)%nat with 0%nat. lia. }
  intros [|fuel] Hf; [lia|].
  assert (map hex_char (b32_group g) ++ EncodeToString (drop 5 bs) <> []) as Hne'.
  { apply map_not_nil. rewrite Hk, Hg. apply Nat.div_str_pos. lia. }
  cbn [hex32_decode_loop]. destruct (map hex_char (b32_group g) ++ EncodeToString (drop 5 bs)) as [|c cs] eqn:E; [done|].
  rewrite <- E. clear Hne' E c cs.
  assert ((8 * length g + 4) / 5 <= 8)%nat as Hk8.
  { enough ((8 * length g + 4) / 5 < 9)%nat by lia. apply Nat.Div0.div_lt_upper_bound. rewrite Hg. lia. }
  rewrite hex32_quantum_chars, Hk by (done || lia). cbn [app].
  destruct (Nat.le_gt_cases 5 (length bs)) as [Hle|Hlt].
  - rewrite Hg, Nat.min_l by lia. change (8 - (8 * 5 + 4) / 5)%nat with 0%nat. cbn [hex32_quantum].
    rewrite Hdec by (rewrite length_drop; lia). cbn [fmap option_fmap option_map]. rewrite hex32_pack_group by lia. unfold g. by rewrite take_drop.
  - assert (drop 5 bs = []) as -> by (apply drop_ge; lia).
    assert (g = bs) as Egb by (apply take_ge; lia). change (EncodeToString []) with (@nil byte).
    assert (exists k, (8 - (8 * length g + 4) / 5 = S k)%nat) as [k ->].
    { rewrite Hg, Nat.min_r by lia. destruct (length bs) as [|[|[|[|[|m] ] ] ] ]; try lia; by eexists. }
    cbn [hex32_quantum]. rewrite hex32_pack_group by lia. by rewrite Egb.
Qed.

Lemma DecodeString_EncodeToString bs : DecodeString (EncodeToString bs) = Some bs.
Proof.
  destruct (hex32_roundtrip bs) as (HF & Hl & Hdec). unfold DecodeString, stripNewlines.
  rewrite filter_all.
  2:{ eapply Forall_impl; [|exact HF]. intros c Hc. apply hex_digit_plain in Hc as (_ & H1 & H2 & _).
      by rewrite !bool_decide_false. }
  destruct (decide (bs = [])) as [->|Hne]; [done|]. apply Hdec. rewrite Hl.
  assert (0 < length bs)%nat by (destruct bs; simpl; [done|lia]).
  apply Nat.div_le_lower_bound; lia.
Qed.

Lemma hex32_length_mod n : ((8 * n + 4) / 5 mod 8 <> 3)%nat.
Proof.
  pose proof (Nat.div_mod_eq (8 * n + 4) 5). pose proof (Nat.mod_upper_bound (8 * n + 4) 5 ltac:(lia)).
  pose proof (Nat.div_mod_eq ((8 * n + 4) / 5) 8). lia.
Qed.

(** ** Lemmas: the tree *)

(** The part of a name below its first two directories. *)
Definition chunks (s : bytes) : list bytes := slashify_loop (length s) s.
Definition tree_of (s : bytes) : list bytes :=
  (take 1 s ++ encryptedDirExtension) :: take 2 (drop 1 s) :: chunks (drop 3 s).

Lemma tree_of_cons a b c s : tree_of (a :: b :: c :: s) = ([a] ++ encryptedDirExtension) :: [b; c] :: chunks s.
Proof. done. Qed.

(** What the loop makes of a string: full pieces, and a last one that is not empty. *)
Lemma slashify_loop_spec fuel s :
  (length s <= fuel)%nat ->
  exists full last_, slashify_loop fuel s = full ++ last_ /\ concat (full ++ last_) = s /\
    Forall (fun c => length c = 200%nat) full /\ length s = (200 * length full + length (concat last_))%nat /\
    (s = [] /\ full = [] /\ last_ = [] \/ exists l, last_ = [l] /\ (1 <= length l <= 200)%nat).
Proof.
  revert s. induction fuel as [|fuel IH]; intros s Hl.
  { destruct s; [|simpl in Hl; lia]. exists [], []. split_and!; try done. by left. }
  cbn [slashify_loop]. unfold maxPathComponent in *. change (Z.to_nat 200) with 200%nat.
  case_bool; zbool.
  - assert (length (take 200 s) = 200%nat) as Ht by (rewrite length_take; lia).
    destruct (IH (drop 200 s)) as (full & last_ & -> & Hc & HF & Hn & Hor); [rewrite length_drop; lia|].
    exists (take 200 s :: full), last_. split; [done|]. cbn [app concat]. rewrite Hc, take_drop.
    split; [done|]. split; [by constructor|]. rewrite length_drop in Hn. cbn [length]. split; [lia|].
    destruct Hor as [(E & -> & ->)|Hor]; [|by right]. apply (f_equal length) in E. rewrite length_drop in E. simpl in E. lia.
  - destruct (Z.ltb_spec 0 (zlen s)) as [Hp|Hp].
    + exists [], [s]. cbn. rewrite app_nil_r. split_and!; try done. right. exists s. split; [done|]. lia.
    + assert (s = []) as -> by (destruct s; [done|simpl in Hp; lia]). exists [], []. split_and!; try done. by left.
Qed.

Lemma chunks_chars P s : Forall P s -> Forall (Forall P) (chunks s).
Proof.
  intros H. destruct (slashify_loop_spec (length s) s) as (f & l & E & Hc & _); [done|].
  unfold chunks. rewrite E. rewrite <- Hc in H. by apply Forall_concat in H.
Qed.

Lemma removeAll_join c parts : Forall (fun p => c ∉ p) parts -> removeAll c (join c parts) = concat parts.
Proof.
  induction 1 as [|p ps Hp HF IH]; [done|]. destruct ps as [|q ps].
  - cbn [join concat]. by rewrite removeAll_none, app_nil_r.
  - change (join c (p :: q :: ps)) with (p ++ c :: join c (q :: ps)).
    rewrite removeAll_app, removeAll_none by done. cbn [concat]. f_equal. cbn [concat] in IH. rewrite <- IH.
    unfold removeAll. cbn [List.filter]. by rewrite bool_decide_true.
Qed.

Lemma digits_plain s : Forall hex_digit32 s -> (PathSeparator ∉ s) /\ (z2b 46 ∉ s).
Proof.
  intros H. split; apply (not_elem_chars hex_digit32 _ s H); intros Hc; by destruct (hex_digit_plain _ Hc) as (_ & _ & _ & ? & ?).
Qed.

Lemma digits_proper s : Forall hex_digit32 s -> s <> [] -> proper s.
Proof.
  intros H Hne. destruct (digits_plain s H) as [Hs Hd]. split_and!; try done; intros ->; apply Hd; vm_compute; left.
Qed.

(** A text of digits makes a valid path, and the path is read back. *)
Lemma slashify_spec {E} s :
  (3 <= length s)%nat -> Forall hex_digit32 s ->
  slashify (E:=E) s = Ret (join PathSeparator (tree_of s)) /\ deslashify (join PathSeparator (tree_of s)) = Ret s /\
  PathComponents (join PathSeparator (tree_of s)) = tree_of s /\
  checkFilename (join PathSeparator (tree_of s)) = Ret tt.
Proof.
  intros Hl HF. destruct s as [|a [|b [|c s] ] ]; simpl in Hl; try lia.
  assert (Forall hex_digit32 [a] /\ Forall hex_digit32 [b; c] /\ Forall hex_digit32 s) as (Ha & Hbc & Hs).
  { apply Forall_cons_iff in HF as [H1 HF]. apply Forall_cons_iff in HF as [H2 HF]. apply Forall_cons_iff in HF as [H3 HF].
    split_and!; [by constructor|constructor; [done|by constructor]|done]. }
  assert (Forall proper (tree_of (a :: b :: c :: s))) as Hp.
  { rewrite tree_of_cons. constructor; [|constructor; [by apply digits_proper|] ].
    - split_and!; [done|by intros [=]|by intros [=]|]. apply not_elem_of_app. split; [by apply digits_plain|].
      by apply (bool_decide_unpack _).
    - destruct (slashify_loop_spec (length s) s) as (f & l & E' & Hc & Hfl & _ & Hor); [done|].
      pose proof (chunks_chars _ s Hs) as Hcs. unfold chunks in *. rewrite E' in *.
      assert (Forall (fun x => x <> []) (f ++ l)) as Hne.
      { apply Forall_app. split; [eapply Forall_impl; [|exact Hfl]; by intros [|] ?|].
        destruct Hor as [(_ & _ & ->)|(x & -> & Hx)]; [constructor|]. constructor; [|constructor].
        intros ->. simpl in Hx. lia. }
      apply List.Forall_forall. intros x Hx. rewrite List.Forall_forall in Hcs, Hne.
      apply digits_proper; [by apply Hcs|by apply Hne]. }
  split_and!.
  - unfold slashify. destruct (Z.ltb_spec (zlen (a :: b :: c :: s)) 1); [simpl in *; lia|]. cbn [drop].
    destruct (Z.ltb_spec (zlen (b :: c :: s)) 2); [simpl in *; lia|]. done.
  - rewrite tree_of_cons. unfold deslashify.
    set (t := PathSeparator :: join PathSeparator ([b; c] :: chunks s)).
    assert (join PathSeparator (([a] ++ encryptedDirExtension) :: [b; c] :: chunks s) = a :: encryptedDirExtension ++ t) as -> by done.
    assert (hasPrefix (drop 1 (a :: encryptedDirExtension ++ t)) encryptedDirExtension = true) as ->.
    { apply hasPrefix_spec. by exists t. }
    assert (drop (1 + length encryptedDirExtension) (a :: encryptedDirExtension ++ t) = t) as -> by done.
    cbn [is_nil negb orb take]. subst t. f_equal.
    destruct (slashify_loop_spec (length s) s) as (f & l & E' & Hc & _); [done|].
    trans (removeAll PathSeparator (join PathSeparator ([a] :: [b; c] :: chunks s))); [done|].
    rewrite removeAll_join.
    + cbn [concat app]. unfold chunks. by rewrite E', Hc.
    + constructor; [by apply digits_plain|]. constructor; [by apply digits_plain|]. eapply Forall_impl; [|exact (chunks_chars _ s Hs)].
      intros x Hx. by apply digits_plain.
  - unfold PathComponents. apply split_join; [done|]. by apply proper_seps.
  - by apply checkFilename_proper.
Qed.

(** The directories above a file are told from the file by their names alone,
    since no text of bytes has a length of three modulo eight. *)
Lemma parents_of_tree s k :
  (3 < length s)%nat -> (length s mod 8 <> 3)%nat -> (k <= length (tree_of s))%nat ->
  IsEncryptedParent (take k (tree_of s)) = bool_decide (0 < k < length (tree_of s))%nat.
Proof.
  intros Hl Hm Hk. destruct s as [|a [|b [|c s] ] ]; simpl in Hl; try lia.
  rewrite tree_of_cons in *. cbn [length] in *.
  destruct (slashify_loop_spec (length s) s) as (f & l & E & Hc & Hf & Hn & Hor); [done|].
  unfold chunks in *. rewrite E in *.
  destruct Hor as [(-> & _)|(x & -> & Hx)]; [simpl in Hl; lia|].
  rewrite length_app in *. cbn [concat] in Hn. rewrite app_nil_r in Hn. cbn [length] in *.
  destruct k as [|[|[|k] ] ]; [done|done| |].
  { symmetry. apply bool_decide_true. lia. }
  cbn [take]. unfold IsEncryptedParent. destruct (take (S k) (f ++ [x])) as [|y ys] eqn:Et.
  { apply (f_equal length) in Et. rewrite length_take, length_app in Et. cbn [length] in Et. lia. }
  cbn [is_nil app drop]. rewrite bool_decide_true by done. cbn [negb]. rewrite <- Et. clear y ys Et.
  destruct (Nat.le_gt_cases (S k) (length f)) as [Hle|Hgt].
  - rewrite bool_decide_true by lia. rewrite take_app_le by done. apply forallb_forall. intros y Hy.
    rewrite List.Forall_forall in Hf. apply Z.eqb_eq. rewrite (Hf y); [done|].
    rewrite <- (take_drop (S k) f). apply in_app_iff. by left.
  - rewrite bool_decide_false by lia. rewrite take_ge by (rewrite length_app; simpl; lia).
    rewrite forallb_app. cbn [forallb]. rewrite andb_true_r. apply andb_false_iff. right. apply Z.eqb_neq.
    unfold maxPathComponent. intros Hx'. assert (length x = 200%nat) as Hx2 by lia. apply Hm.
    rewrite Hn, Hx2. replace (S (S (S (200 * length f + 200)))) with (3 + (25 * length f + 25) * 8)%nat by lia.
    by rewrite Nat.Div0.mod_add.
Qed.

Lemma tree_bounds s : (3 < length s)%nat -> Forall (fun c => (length c <= 200)%nat) (tree_of s).
Proof.
  intros Hl. destruct s as [|a [|b [|c s] ] ]; simpl in Hl; try lia. rewrite tree_of_cons.
  constructor; [vm_compute; lia|]. constructor; [simpl; lia|].
  destruct (slashify_loop_spec (length s) s) as (f & l & E & _ & Hf & _ & Hor); [done|]. unfold chunks. rewrite E.
  apply Forall_app. split; [eapply Forall_impl; [|exact Hf]; cbn; lia|].
  destruct Hor as [(_ & _ & ->)|(x & -> & Hx)]; [constructor|]. constructor; [lia|constructor].
Qed.
