(* ===== verification/PullQueue.v ===== *)
(** * Scheduling of pulls (lib/model)

    The job queue of a folder (queue.go), the order in which the blocks of a
    file are pulled (blockpullreorderer.go), the choice of a device to pull from
    (deviceactivity.go) and the batching of index entries (fileinfobatch.go). *)
From Stdlib Require Import ZArith List Lia.
From Stdlib Require Import Strings.Byte.
From stdpp Require Import base list option gmap numbers sorting tactics.
From S2P Require Import Prelude GoLib Vector FileInfo FileInfoWire.

#[local] Open Scope Z_scope.

(** ** The job queue *)

Record jobQueueEntry := { name : bytes; size : Z; modified : Z }.
Record jobQueue := { progress : list bytes; queued : list jobQueueEntry }.
Definition newJobQueue : jobQueue := {| progress := []; queued := [] |}.

(** [time.Time.UnixNano] *)
Definition UnixNano (t : GoTime) : Z := i64 ((tsec t - unixToInternal) * nsPerSec + tnsec t).

Definition Push (q : jobQueue) (file : bytes) (sz : Z) (modif : GoTime) : jobQueue :=
  {| progress := progress q;
     queued := queued q ++ [{| name := file; size := sz; modified := UnixNano modif |}] |}.

Definition Pop (q : jobQueue) : jobQueue * option bytes :=
  match queued q with
  | [] => (q, None)
  | e :: rest => ({| progress := progress q ++ [name e]; queued := rest |}, Some (name e))
  end.

(** The loop finds the first entry of that name; the entries before it are
    shifted one to the right with [copy], and it goes to the front. *)
Fixpoint find_entry (i : nat) (filename : bytes) (q : list jobQueueEntry) : option (nat * jobQueueEntry) :=
  match q with
  | [] => None
  | cur :: q => if decide (name cur = filename) then Some (i, cur) else find_entry (S i) filename q
  end.
Definition BringToFront (q : jobQueue) (filename : bytes) : jobQueue :=
  match find_entry 0 filename (queued q) with
  | None => q
  | Some (i, cur) =>
      if (0 <? i)%nat then
        let shifted := take 1 (queued q) ++ take i (queued q) ++ drop (S i) (queued q) in
        {| progress := progress q; queued := <[0%nat := cur]> shifted |}
      else q
  end.

Fixpoint find_name (i : nat) (file : bytes) (p : list bytes) : option nat :=
  match p with
  | [] => None
  | x :: p => if decide (x = file) then Some i else find_name (S i) file p
  end.
(** [copy(p[i:], p[i+1:])] leaves the last element twice; the slice is then
    cut by one. *)
Definition Done (q : jobQueue) (file : bytes) : jobQueue :=
  match find_name 0 file (progress q) with
  | None => q
  | Some i =>
      let p := progress q in
      let moved := take i p ++ drop (S i) p ++ drop (length p - 1) p in
      {| progress := take (length p - 1) moved; queued := queued q |}
  end.

(** [p[a:b]] panics out of range. *)
Definition slice {A} (p : list A) (a b : Z) : outcome unit (list A) :=
  if (0 <=? a) && (a <=? b) && (b <=? zlen p) then Ret (take (Z.to_nat (b - a)) (drop (Z.to_nat a) p)) else Panic.
(** [make([]T, n)] with its zero values replaced at once. *)
Definition made {A} (n : Z) (r : outcome unit A) : outcome unit A := if n <? 0 then Panic else r.

(** [Jobs]: the names in progress, the queued names, the number skipped. *)
Definition Jobs (q : jobQueue) (page perpage : Z) : outcome unit (list bytes * list bytes * Z) :=
  let toSkip := i64 (i64 (page - 1) * perpage) in
  let plen := zlen (progress q) in
  let qlen := zlen (queued q) in
  let tot := plen + qlen in
  if tot <=? toSkip then Ret ([], [], tot)
  else if i64 (toSkip + perpage) <=? plen then
    p ← made perpage (slice (progress q) toSkip (i64 (toSkip + perpage)));
    Ret (p, [], toSkip)
  else
    '(p, skip) ← (if toSkip <? plen then
                    p ← made (plen - toSkip) (slice (progress q) toSkip plen); Ret (p, 0)
                  else Ret ([], toSkip - plen));
    let n := if qlen - skip <? perpage - zlen p then qlen - skip else perpage - zlen p in
    es ← made n (slice (queued q) skip (skip + n));
    Ret (p, map name es, toSkip).

Definition Reset (q : jobQueue) : jobQueue := {| progress := []; queued := [] |}.
Definition lenQueued (q : jobQueue) : Z := zlen (queued q).
Definition lenProgress (q : jobQueue) : Z := zlen (progress q).

(** ** The order of blocks *)

Section Reorder.
Context {B : Type}.

(** [chunk]: consecutive pieces of [ceil(count / partCount)] blocks. *)
Fixpoint chunk_loop (fuel : nat) (chunkSize i : nat) (blocks : list B) : list (list B) :=
  match fuel with
  | O => []
  | S fuel =>
      if (i <? length blocks)%nat then
        let end_ := (if (length blocks <? i + chunkSize) then length blocks else i + chunkSize)%nat in
        take (end_ - i) (drop i blocks) :: chunk_loop fuel chunkSize (i + chunkSize) blocks
      else []
  end.
Definition chunk (blocks : list B) (partCount : nat) : list (list B) :=
  match partCount with
  | O => [blocks]
  | _ =>
      let count := length blocks in
      let chunkSize := ((count + partCount - 1) / partCount)%nat in
      chunk_loop (S count) chunkSize 0 blocks
  end.

Record standardReorderer := { myIndex : nat; count : nat }.

(** [shuffle] permutes a slice in place. *)
Context (shuffle : list nat -> list nat).

Definition standard_Reorder (p : standardReorderer) (blocks : list B) : list B :=
  match blocks with
  | [] => blocks
  | _ =>
      let chunks := chunk blocks (count p) in
      let own := if (myIndex p <? length chunks)%nat then default [] (chunks !! myIndex p) else [] in
      let indexes := List.filter (fun i => negb (i =? myIndex p)%nat) (seq 0 (length chunks)) in
      own ++ concat (map (fun idx => default [] (chunks !! idx)) (shuffle indexes))
  end.
End Reorder.
Arguments standard_Reorder {B} shuffle p blocks.

(** Device IDs in the order of [DeviceID.Compare]: that of their bytes, which
    for equal lengths is that of the numbers they spell. *)
Definition id_le (a b : bytes) : Prop := getBE a <= getBE b.
#[export] Instance id_le_dec a b : Decision (id_le a b) := Z_le_dec _ _.

Fixpoint index_of (i : nat) (id : bytes) (ids : list bytes) : option nat :=
  match ids with
  | [] => None
  | d :: ids => if decide (d = id) then Some i else index_of (S i) id ids
  end.
Definition newStandardBlockPullReorderer (id : bytes) (otherDevices : list bytes) : outcome unit standardReorderer :=
  let allDevices := merge_sort id_le (otherDevices ++ [id]) in
  match index_of 0 id allDevices with
  | None => Panic
  | Some i => Ret {| myIndex := i; count := length allDevices |}
  end.

(** [newBlockPullReorderer] and the [Reorder] of each order. *)
Inductive BlockPullOrder := BlockPullOrderStandard | BlockPullOrderRandom | BlockPullOrderInOrder.
Definition Reorder {B} (shuffleIdx : list nat -> list nat) (shuffleBlocks : list B -> list B)
    (order : BlockPullOrder) (id : bytes) (otherDevices : list bytes) (blocks : list B) : outcome unit (list B) :=
  match order with
  | BlockPullOrderRandom => Ret (shuffleBlocks blocks)
  | BlockPullOrderInOrder => Ret blocks
  | BlockPullOrderStandard =>
      p ← newStandardBlockPullReorderer id otherDevices; Ret (standard_Reorder shuffleIdx p blocks)
  end.

(** ** Device activity *)

Abbreviation deviceActivity := (gmap bytes Z).
Record Availability := { avID : bytes; FromTemporary : bool }.

Definition activity (m : deviceActivity) (id : bytes) : Z := default 0 (m !! id).
Fixpoint leastBusy_loop (m : deviceActivity) (i low best : Z) (availability : list Availability) : Z :=
  match availability with
  | [] => best
  | a :: rest =>
      let usage := activity m (avID a) in
      if usage <? low then leastBusy_loop m (i + 1) usage i rest
      else leastBusy_loop m (i + 1) low best rest
  end.
Definition leastBusy (m : deviceActivity) (availability : list Availability) : Z :=
  leastBusy_loop m 0 (Z.shiftl 2 30 - 1) (-1) availability.
Definition using_ (m : deviceActivity) (a : Availability) : deviceActivity :=
  <[avID a := i64 (activity m (avID a) + 1)]> m.
Definition done_ (m : deviceActivity) (a : Availability) : deviceActivity :=
  <[avID a := i64 (activity m (avID a) - 1)]> m.

(** ** Batches *)

Section Batch.
(** [proto.Size] of the generated message; the flush function and its state. *)
Context (protoSize : bep_FileInfo -> Z) {E W : Type} (flushFn : list FileInfo -> SM W E unit).

Definition MaxBatchSizeBytes : Z := 250 * 1024.
Definition MaxBatchSizeFiles : Z := 1000.

Record FileInfoBatch := { infos : list FileInfo; bsize : Z; berror : option E; world : W }.

Definition batch_Append (f : FileInfo) : SM FileInfoBatch E unit := fun b =>
  match berror b with
  | Some _ => (b, Panic)
  | None =>
      let b1 := {| infos := infos b ++ [f]; bsize := bsize b; berror := None; world := world b |} in
      match ToWire true f with
      | Ret w => ({| infos := infos b1; bsize := bsize b + protoSize w; berror := None; world := world b |}, Ret tt)
      | _ => (b1, Panic)
      end
  end.
Definition batch_Full (b : FileInfoBatch) : bool :=
  (MaxBatchSizeFiles <=? zlen (infos b)) || (MaxBatchSizeBytes <=? bsize b).
Definition batch_Reset (b : FileInfoBatch) : FileInfoBatch :=
  {| infos := []; bsize := 0; berror := None; world := world b |}.
Definition batch_Flush : SM FileInfoBatch E unit := fun b =>
  match berror b with
  | Some e => (b, Err e)
  | None =>
      if is_nil (infos b) then (b, Ret tt)
      else
        let '(w, r) := flushFn (infos b) (world b) in
        match r with
        | Ret _ => (batch_Reset {| infos := infos b; bsize := bsize b; berror := None; world := w |}, Ret tt)
        | Err e => ({| infos := infos b; bsize := bsize b; berror := Some e; world := w |}, Err e)
        | Panic => ({| infos := infos b; bsize := bsize b; berror := None; world := w |}, Panic)
        | OutOfFuel => ({| infos := infos b; bsize := bsize b; berror := None; world := w |}, OutOfFuel)
        end
  end.
Definition batch_FlushIfFull : SM FileInfoBatch E unit := fun b =>
  match berror b with
  | Some e => (b, Err e)
  | None => if batch_Full b then batch_Flush b else (b, Ret tt)
  end.
End Batch.
