(* ===== verification/PullQueueProps.v ===== *)
(** * Properties of the scheduling of pulls *)
From Stdlib Require Import ZArith List Lia.
From Stdlib Require Import Strings.Byte.
From stdpp Require Import base list option gmap numbers sorting tactics.
From S2P Require Import Prelude GoLib Vector FileInfo FileInfoWire PullQueue.

#[local] Open Scope Z_scope.

(** ** The job queue *)

(** Every file the queue knows about. *)
Definition all_names (q : jobQueue) : list bytes := progress q ++ map name (queued q).

Lemma find_entry_split i f q n e :
  find_entry i f q = Some (n, e) ->
  exists a b, q = a ++ e :: b /\ n = (i + length a)%nat /\ name e = f /\ f ∉ map name a.
Proof.
  revert i. induction q as [|c q IH]; intros i; cbn [find_entry]; [done|]. case_decide as Hc.
  - intros [= <- <-]. exists [], q. split; [done|]. split; [simpl; lia|]. split; [done|apply not_elem_of_nil].
  - intros H. apply IH in H as (a & b & -> & -> & He & Ha). exists (c :: a), b.
    split; [done|]. split; [simpl; lia|]. split; [done|]. cbn. rewrite not_elem_of_cons. auto.
Qed.

Lemma find_entry_none i f q : find_entry i f q = None -> f ∉ map name q.
Proof.
  revert i. induction q as [|c q IH]; intros i; cbn [find_entry map]; [intros _; apply not_elem_of_nil|].
  case_decide as Hc; [done|]. intros H. rewrite not_elem_of_cons. split; [congruence|by eapply IH].
Qed.

Lemma find_name_split i f p n :
  find_name i f p = Some n -> exists a b, p = a ++ f :: b /\ n = (i + length a)%nat /\ f ∉ a.
Proof.
  revert i. induction p as [|c p IH]; intros i; cbn [find_name]; [done|]. case_decide as Hc.
  - intros [= <-]. exists [], p. split; [by subst|]. split; [simpl; lia|apply not_elem_of_nil].
  - intros H. apply IH in H as (a & b & -> & -> & Ha). exists (c :: a), b.
    split; [done|]. split; [simpl; lia|]. rewrite not_elem_of_cons. auto.
Qed.

Lemma find_name_none i f p : find_name i f p = None -> f ∉ p.
Proof.
  revert i. induction p as [|c p IH]; intros i; cbn [find_name]; [intros _; apply not_elem_of_nil|].
  case_decide as Hc; [done|]. intros H. rewrite not_elem_of_cons. split; [congruence|by eapply IH].
Qed.

Lemma BringToFront_spec q f :
  ((f ∉ map name (queued q)) /\ BringToFront q f = q) \/
  (exists a e b, queued q = a ++ e :: b /\ name e = f /\ (f ∉ map name a) /\
     BringToFront q f = {| progress := progress q; queued := e :: a ++ b |}).
Proof.
  unfold BringToFront. destruct (find_entry 0 f (queued q)) as [ [i cur] |] eqn:E.
  - right. apply find_entry_split in E as (a & b & Hq & -> & He & Ha). exists a, cur, b.
    split; [done|]. split; [done|]. split; [done|]. rewrite Hq. destruct a as [|x a].
    + cbn. destruct q as [p qu]. cbn in *. by subst.
    + change (0 <? 0 + length (x :: a))%nat with true. cbv iota zeta. f_equal.
      assert (take (0 + length (x :: a)) ((x :: a) ++ cur :: b) = x :: a) as -> by apply (take_app_length (x :: a)).
      assert (drop (S (0 + length (x :: a))) ((x :: a) ++ cur :: b) = b) as ->.
      { rewrite drop_app_ge by lia. by replace (S (0 + length (x :: a)) - length (x :: a))%nat with 1%nat by lia. }
      done.
  - left. by apply find_entry_none in E.
Qed.

Lemma Done_spec q f :
  ((f ∉ progress q) /\ Done q f = q) \/
  (exists a b, progress q = a ++ f :: b /\ (f ∉ a) /\
     Done q f = {| progress := a ++ b; queued := queued q |}).
Proof.
  unfold Done. destruct (find_name 0 f (progress q)) as [i|] eqn:E.
  - right. apply find_name_split in E as (a & b & Hp & -> & Ha). exists a, b.
    split; [done|]. split; [done|]. f_equal. rewrite Hp. cbn [Nat.add].
    rewrite take_app_length. rewrite (drop_app_ge a) by lia.
    replace (S (length a) - length a)%nat with 1%nat by lia. cbn [drop]. rewrite drop_0, app_assoc.
    rewrite length_app. cbn [length]. rewrite take_app_le by (rewrite length_app; lia).
    apply take_ge. rewrite length_app. lia.
  - left. by apply find_name_none in E.
Qed.

Lemma Pop_BringToFront q f :
  f ∈ map name (queued q) -> snd (Pop (BringToFront q f)) = Some f.
Proof.
  intros Hf. destruct (BringToFront_spec q f) as [ [H _] |(a & e & b & Hq & He & Ha & ->)]; [done|].
  cbn. by rewrite He.
Qed.

(** *** Pages *)

Lemma slice_ok {A} (p : list A) a b :
  0 <= a <= b -> b <= zlen p -> slice p a b = Ret (take (Z.to_nat (b - a)) (drop (Z.to_nat a) p)).
Proof.
  intros Ha Hb. unfold slice. by rewrite (proj2 (Z.leb_le 0 a)), (proj2 (Z.leb_le a b)), (proj2 (Z.leb_le b _)) by lia.
Qed.

Lemma made_ok {A} n (r : outcome unit A) : 0 <= n -> made n r = r.
Proof. intros. unfold made. by rewrite (proj2 (Z.ltb_ge _ _)) by lia. Qed.

Lemma Jobs_page_spec q page perpage :
  1 <= page -> 1 <= perpage -> page * perpage < 2 ^ 63 -> zlen (progress q) + zlen (queued q) < 2 ^ 62 ->
  let toSkip := Z.to_nat ((page - 1) * perpage) in
  let p := take (Z.to_nat perpage) (drop toSkip (progress q)) in
  Jobs q page perpage =
    Ret (p, map name (take (Z.to_nat perpage - length p) (drop (toSkip - length (progress q)) (queued q))),
         Z.min (zlen (progress q) + zlen (queued q)) ((page - 1) * perpage)).
Proof.
  intros Hp Hpp Hb Ht. cbv zeta. unfold Jobs.
  assert (0 <= (page - 1) * perpage) by nia. assert (page * perpage = (page - 1) * perpage + perpage) as Em by lia.
  assert (page <= page * perpage) by nia. assert (0 <= page * perpage) by nia.
  rewrite (iN_small 64 (page - 1)) by lia.
  rewrite (iN_small 64 ((page - 1) * perpage)), (iN_small 64 ((page - 1) * perpage + perpage)) by lia.
  set (skip := (page - 1) * perpage) in *. clearbody skip. cbv zeta.
  destruct (Z.leb_spec (zlen (progress q) + zlen (queued q)) skip) as [K1|K1].
  { rewrite (drop_ge (progress q)), (drop_ge (queued q)), !take_nil, Z.min_l by lia. done. }
  rewrite Z.min_r by lia.
  destruct (Z.leb_spec (skip + perpage) (zlen (progress q))) as [K2|K2].
  { rewrite made_ok, slice_ok by lia. cbn [mbind outcome_bind].
    replace (skip + perpage - skip) with perpage by lia.
    replace (Z.to_nat perpage - length (take (Z.to_nat perpage) (drop (Z.to_nat skip) (progress q))))%nat with O
      by (rewrite length_take, length_drop; lia). by rewrite take_0. }
  destruct (Z.ltb_spec skip (zlen (progress q))) as [K3|K3].
  - rewrite made_ok, slice_ok by lia. cbn [mbind outcome_bind].
    rewrite (take_ge (drop (Z.to_nat skip) (progress q))) by (rewrite length_drop; lia).
    rewrite (take_ge (drop (Z.to_nat skip) (progress q))) by (rewrite length_drop; lia).
    rewrite length_drop. rewrite Z.sub_0_r.
    replace (Z.to_nat skip - length (progress q))%nat with O by lia. rewrite drop_0.
    case_match; zbool; rewrite made_ok, slice_ok by lia; cbn [mbind outcome_bind]; rewrite drop_0; do 3 f_equal.
    + rewrite !take_ge by lia. done.
    + do 2 f_equal. lia.
  - rewrite (drop_ge (progress q)), take_nil by lia. cbn [mbind outcome_bind length].
    replace (Z.to_nat skip - length (progress q))%nat with (Z.to_nat (skip - zlen (progress q))) by lia.
    case_match; zbool; rewrite made_ok, slice_ok by lia; cbn [mbind outcome_bind]; do 3 f_equal.
    + rewrite !take_ge by (rewrite length_drop; lia). done.
    + do 2 f_equal. lia.
Qed.

(** ** The order of blocks *)

Section Chunks.
Context {B : Type}.
Implicit Types blocks : list B.

Lemma chunk_loop_concat fuel cs i blocks :
  (0 < cs)%nat -> (length blocks - i < fuel)%nat -> concat (chunk_loop fuel cs i blocks) = drop i blocks.
Proof.
  intros Hcs. revert i. induction fuel as [|fuel IH]; intros i Hf; [lia|]. cbn [chunk_loop].
  destruct (Nat.ltb_spec i (length blocks)) as [Hlt|Hge]; [|by rewrite drop_ge].
  cbn [concat]. rewrite IH by lia. destruct (Nat.ltb_spec (length blocks) (i + cs)) as [H|H].
  - rewrite (drop_ge blocks (i + cs)), app_nil_r by lia. apply take_ge. rewrite length_drop. lia.
  - replace (i + cs - i)%nat with cs by lia. rewrite <- drop_drop. apply take_drop.
Qed.

Lemma chunk_loop_length fuel cs i blocks :
  (0 < cs)%nat -> (length (chunk_loop fuel cs i blocks) * cs < length blocks - i + cs)%nat.
Proof.
  intros Hcs. revert i. induction fuel as [|fuel IH]; intros i; cbn [chunk_loop length]; [cbn; lia|].
  destruct (Nat.ltb_spec i (length blocks)); cbn [length]; [|cbn; lia].
  specialize (IH (i + cs)%nat). destruct (length (chunk_loop fuel cs (i + cs) blocks)) as [|n]; nia.
Qed.

Lemma chunk_size_pos blocks n : blocks <> [] -> (0 < n)%nat -> (0 < (length blocks + n - 1) / n)%nat.
Proof. intros Hne Hn. apply Nat.div_str_pos. destruct blocks; [done|]. simpl. lia. Qed.

(** The chunks partition the blocks, and there are at most as many as asked. *)
Lemma chunk_ok blocks n :
  blocks <> [] -> concat (chunk blocks n) = blocks /\ ((0 < n)%nat -> (length (chunk blocks n) <= n)%nat).
Proof.
  intros Hne. destruct n as [|n]; [split; [apply app_nil_r|lia]|]. unfold chunk.
  pose proof (chunk_size_pos blocks (S n) Hne ltac:(lia)) as Hp.
  set (cs := ((length blocks + S n - 1) / S n)%nat) in *. split.
  - rewrite chunk_loop_concat by lia. apply drop_0.
  - intros _. pose proof (chunk_loop_length (S (length blocks)) cs 0 blocks Hp) as Hl.
    assert (length blocks <= cs * S n)%nat as Hb.
    { unfold cs. pose proof (Nat.div_mod (length blocks + S n - 1) (S n) ltac:(lia)) as Hd.
      pose proof (Nat.mod_upper_bound (length blocks + S n - 1) (S n) ltac:(lia)). nia. }
    nia.
Qed.

Lemma map_lookup_seq (l : list (list B)) :
  map (fun i => default [] (l !! i)) (seq 0 (length l)) = l.
Proof.
  apply list_eq. intros i. rewrite list_lookup_fmap. destruct (decide (i < length l)%nat) as [Hi|Hi].
  - rewrite lookup_seq_lt by done. cbn. destruct (lookup_lt_is_Some_2 l i Hi) as [x Hx]. by rewrite Hx.
  - rewrite lookup_seq_ge, lookup_ge_None_2 by lia. done.
Qed.

Lemma concat_map_Permutation {A} (f : A -> list B) l k : l ≡ₚ k -> concat (map f l) ≡ₚ concat (map f k).
Proof.
  induction 1 as [|x l k _ IH|x y l|l k m _ IH1 _ IH2]; cbn; auto.
  - by rewrite IH.
  - by rewrite !app_assoc, (Permutation_app_comm (f x)).
  - by rewrite IH1.
Qed.

Lemma seq_split_at n i :
  (i < n)%nat -> seq 0 n ≡ₚ i :: List.filter (fun j => negb (j =? i)%nat) (seq 0 n).
Proof.
  intros Hi. assert (NoDup (seq 0 n)) as Hnd by apply NoDup_seq.
  assert (i ∈ seq 0 n) as Hin by (apply elem_of_seq; lia).
  apply NoDup_Permutation; [done| |].
  - constructor.
    + rewrite list_elem_of_In, filter_In, Nat.eqb_refl. by intros [_ ?].
    + apply NoDup_ListNoDup, List.NoDup_filter, NoDup_ListNoDup. done.
  - intros x. rewrite elem_of_cons, !list_elem_of_In, filter_In, negb_true_iff, Nat.eqb_neq.
    rewrite <- !list_elem_of_In. destruct (decide (x = i)) as [->|]; intuition congruence.
Qed.

Lemma filter_other n i : (n <= i)%nat -> List.filter (fun j => negb (j =? i)%nat) (seq 0 n) = seq 0 n.
Proof.
  intros Hi. assert (forall l, Forall (fun j => j < i)%nat l -> List.filter (fun j => negb (j =? i)%nat) l = l) as H.
  { induction 1 as [|x l Hx HF IH]; cbn; [done|]. rewrite (proj2 (Nat.eqb_neq _ _)) by lia. cbn. by rewrite IH. }
  apply H, List.Forall_forall. intros j Hj. apply in_seq in Hj. lia.
Qed.

(** The chunk that comes first for the device at index [i] of [n]. *)
Definition own_chunk (n : nat) (blocks : list B) (i : nat) : list B := default [] (chunk blocks n !! i).

Lemma standard_Reorder_perm shuffle p blocks :
  (forall l, shuffle l ≡ₚ l) -> (0 < count p)%nat ->
  standard_Reorder shuffle p blocks ≡ₚ blocks /\
  (exists rest, standard_Reorder shuffle p blocks = own_chunk (count p) blocks (myIndex p) ++ rest).
Proof.
  intros Hs Hc. destruct (decide (blocks = [])) as [->|Hne].
  { split; [done|]. exists []. unfold own_chunk, chunk. destruct (count p) as [|[|n]]; [lia|done..]. }
  destruct (chunk_ok blocks (count p) Hne) as [Hcat _].
  assert (standard_Reorder shuffle p blocks =
    (if (myIndex p <? length (chunk blocks (count p)))%nat then own_chunk (count p) blocks (myIndex p) else []) ++
    concat (map (fun idx => default [] (chunk blocks (count p) !! idx))
      (shuffle (List.filter (fun i => negb (i =? myIndex p)%nat) (seq 0 (length (chunk blocks (count p)))))))) as E
    by (destruct blocks; done).
  rewrite E. clear E. unfold own_chunk. set (cs := chunk blocks (count p)) in *.
  destruct (Nat.ltb_spec (myIndex p) (length cs)) as [Hi|Hi].
  - split; [|by eexists]. rewrite (concat_map_Permutation _ _ _ (Hs _)).
    transitivity (concat (map (fun i => default [] (cs !! i)) (seq 0 (length cs)))); [|by rewrite map_lookup_seq, Hcat].
    rewrite (concat_map_Permutation _ _ _ (seq_split_at _ _ Hi)). done.
  - split.
    + rewrite (concat_map_Permutation _ _ _ (Hs _)), filter_other by done. cbn [app].
      by rewrite map_lookup_seq, Hcat.
    + rewrite lookup_ge_None_2 by done. by eexists.
Qed.

Lemma own_chunks_cover n blocks :
  blocks <> [] -> (0 < n)%nat -> concat (map (own_chunk n blocks) (seq 0 n)) = blocks.
Proof.
  intros Hne Hn. destruct (chunk_ok blocks n Hne) as [Hcat Hl]. specialize (Hl Hn).
  unfold own_chunk. set (cs := chunk blocks n) in *.
  replace n with (length cs + (n - length cs))%nat at 1 by lia. rewrite seq_app, map_app, concat_app, map_lookup_seq.
  assert (concat (map (fun i => default [] (cs !! i)) (seq (0 + length cs) (n - length cs))) = []) as ->; [|by rewrite app_nil_r].
  apply concat_nil_Forall, Forall_map, List.Forall_forall. intros i Hi. apply in_seq in Hi.
  by rewrite lookup_ge_None_2 by lia.
Qed.
End Chunks.

Lemma index_of_lookup i id ids n : index_of i id ids = Some n -> exists k, n = (i + k)%nat /\ ids !! k = Some id.
Proof.
  revert i. induction ids as [|d ids IH]; intros i; cbn [index_of]; [done|]. case_decide as Hd.
  - intros [= <-]. exists 0%nat. split; [lia|by subst].
  - intros H. apply IH in H as (k & -> & Hk). exists (S k). split; [lia|done].
Qed.

Lemma index_of_in i id ids : id ∈ ids -> is_Some (index_of i id ids).
Proof.
  revert i. induction ids as [|d ids IH]; intros i Hin; [by apply elem_of_nil in Hin|]. cbn [index_of].
  case_decide; [eauto|]. apply elem_of_cons in Hin as [->|]; [done|]. by apply IH.
Qed.

(** ** Properties *)

(** No job is lost or duplicated by the queue: pushing adds a name, popping
    and bringing to the front keep the names, finishing removes exactly the
    finished one; the order is first in first out except that a file brought
    to the front is the next one popped and the others keep their order. *)
Theorem jobQueue_conserves q f sz t :
  all_names (Push q f sz t) ≡ₚ f :: all_names q /\
  all_names (fst (Pop q)) = all_names q /\
  all_names (BringToFront q f) ≡ₚ all_names q /\
  (f ∈ progress q -> f :: all_names (Done q f) ≡ₚ all_names q) /\
  (f ∈ map name (queued q) -> snd (Pop (BringToFront q f)) = Some f) /\
  (forall a e b, queued q = a ++ e :: b -> name e = f -> f ∉ map name a ->
     queued (BringToFront q f) = e :: a ++ b).
Proof.
  unfold all_names. repeat split.
  - cbn. rewrite map_app. cbn. rewrite app_assoc. by rewrite <- Permutation_cons_append.
  - unfold Pop. destruct (queued q) eqn:E; cbn; [by rewrite E|]. by rewrite <- app_assoc.
  - destruct (BringToFront_spec q f) as [ [_ ->] |(a & e & b & Hq & He & Ha & ->)]; [done|].
    cbn. rewrite Hq, !map_app. cbn. by rewrite Permutation_middle.
  - intros Hf. destruct (Done_spec q f) as [ [H _] |(a & b & Hp & Ha & ->)]; [done|].
    cbn. rewrite Hp, <- !app_assoc. cbn. by rewrite <- Permutation_middle.
  - apply Pop_BringToFront.
  - intros a e b Hq He Ha.
    destruct (BringToFront_spec q f) as [ [H _] |(a' & e' & b' & Hq' & He' & Ha' & ->)].
    + rewrite Hq, map_app in H. exfalso. apply H. rewrite elem_of_app. right. cbn. rewrite He. apply list_elem_of_here.
    + cbn. rewrite Hq in Hq'. clear - Hq' He He' Ha Ha'. subst f.
      assert (a = a' /\ e = e' /\ b = b') as (-> & -> & ->); [|done].
      revert a' Hq' Ha'. induction a as [|x a IH]; intros [|y a'] Hq Ha'; simplify_eq/=.
      * done.
      * exfalso. apply Ha', elem_of_cons. left. congruence.
      * exfalso. apply Ha, elem_of_cons. left. congruence.
      * apply not_elem_of_cons in Ha as [_ Ha], Ha' as [_ Ha']. destruct (IH Ha a') as (-> & -> & ->); auto.
Qed.

Definition ex_queue : jobQueue :=
  {| progress := [gostr "x"]; queued := [{| name := gostr "a"; size := 1; modified := 0 |};
       {| name := gostr "b"; size := 2; modified := 0 |}; {| name := gostr "c"; size := 3; modified := 0 |}] |}.

Example BringToFront_ex : map name (queued (BringToFront ex_queue (gostr "c"))) = [gostr "c"; gostr "a"; gostr "b"].
Proof. reflexivity. Qed.

(** A page of jobs is the corresponding window of the jobs in progress
    followed by the queued ones, split where the progress ends, with the number
    of skipped jobs capped at the total. *)
Theorem Jobs_page q page perpage :
  1 <= page -> 1 <= perpage -> page * perpage < 2 ^ 63 -> zlen (all_names q) < 2 ^ 62 ->
  exists p w skip, Jobs q page perpage = Ret (p, w, skip) /\
    p ++ w = take (Z.to_nat perpage) (drop (Z.to_nat ((page - 1) * perpage)) (all_names q)) /\
    p = take (Z.to_nat perpage) (drop (Z.to_nat ((page - 1) * perpage)) (progress q)) /\
    skip = Z.min (zlen (all_names q)) ((page - 1) * perpage).
Proof.
  unfold all_names. rewrite length_app, length_map, Nat2Z.inj_add. intros Hp Hpp Hb Ht.
  do 3 eexists. split; [by apply Jobs_page_spec|]. split; [|done].
  set (n := Z.to_nat perpage). set (k := Z.to_nat ((page - 1) * perpage)).
  rewrite <- firstn_map, <- skipn_map, skipn_app, firstn_app. do 2 f_equal. rewrite length_take. lia.
Qed.

Lemma Jobs_page_witness :
  exists p w skip, Jobs ex_queue 2 2 = Ret (p, w, skip) /\
    p ++ w = take (Z.to_nat 2) (drop (Z.to_nat ((2 - 1) * 2)) (all_names ex_queue)) /\
    p = take (Z.to_nat 2) (drop (Z.to_nat ((2 - 1) * 2)) (progress ex_queue)) /\
    skip = Z.min (zlen (all_names ex_queue)) ((2 - 1) * 2).
Proof. apply Jobs_page; vm_compute; congruence. Defined.

(** A page number that overflows panics. *)
Example Jobs_overflow : Jobs ex_queue (2 ^ 62 + 1) 2 = Panic.
Proof. vm_compute. reflexivity. Qed.

(** The standard block order is a permutation of the blocks that starts
    with the device's own chunk; the own chunks of all devices of a cluster
    partition the file, so that devices pulling at the same time start with
    different blocks. *)
Theorem standard_order {B} shuffle id others (blocks : list B) :
  (forall l, shuffle l ≡ₚ l) ->
  exists p, newStandardBlockPullReorderer id others = Ret p /\
    (myIndex p < S (length others))%nat /\ merge_sort id_le (others ++ [id]) !! myIndex p = Some id /\
    standard_Reorder shuffle p blocks ≡ₚ blocks /\
    (exists rest, standard_Reorder shuffle p blocks = own_chunk (S (length others)) blocks (myIndex p) ++ rest) /\
    (blocks <> [] -> concat (map (own_chunk (S (length others)) blocks) (seq 0 (S (length others)))) = blocks).
Proof.
  intros Hs. unfold newStandardBlockPullReorderer.
  pose proof (merge_sort_Permutation id_le (others ++ [id])) as HP.
  destruct (index_of_in 0 id (merge_sort id_le (others ++ [id]))) as [i Hi].
  { rewrite HP, elem_of_app, list_elem_of_singleton. auto. }
  rewrite Hi. apply index_of_lookup in Hi as (k & -> & Hk). cbn [Nat.add].
  apply Permutation_length in HP. rewrite length_app in HP. cbn [length] in HP.
  exists {| myIndex := k; count := length (merge_sort id_le (others ++ [id])) |}.
  split; [done|]. cbn [myIndex]. apply lookup_lt_Some in Hk as Hlt. split; [lia|]. split; [done|].
  set (p := {| myIndex := k; count := _ |}).
  destruct (standard_Reorder_perm shuffle p blocks Hs) as [H1 H2]; [cbn; lia|].
  cbn [myIndex count p] in H2. rewrite HP, Nat.add_1_r in H2.
  split; [done|]. split; [done|]. intros Hne. apply own_chunks_cover; [done|lia].
Qed.

Lemma standard_order_witness :
  (forall l : list nat, rev l ≡ₚ l) /\
  exists p, newStandardBlockPullReorderer [x02] [[x05]; [x01]] = Ret p /\
    (myIndex p < 3)%nat /\ merge_sort id_le ([[x05]; [x01]] ++ [[x02]]) !! myIndex p = Some [x02] /\
    standard_Reorder (@rev nat) p [10; 20; 30; 40; 50; 60; 70] ≡ₚ [10; 20; 30; 40; 50; 60; 70] /\
    (exists rest, standard_Reorder (@rev nat) p [10; 20; 30; 40; 50; 60; 70] =
       own_chunk 3 [10; 20; 30; 40; 50; 60; 70] (myIndex p) ++ rest) /\
    ([10; 20; 30; 40; 50; 60; 70] <> [] ->
     concat (map (own_chunk 3 [10; 20; 30; 40; 50; 60; 70]) (seq 0 3)) = [10; 20; 30; 40; 50; 60; 70]).
Proof.
  assert (forall l : list nat, rev l ≡ₚ l) as H by (intros l; symmetry; apply Permutation_rev).
  split; [exact H|]. exact (standard_order (@rev nat) [x02] [[x05]; [x01]] [10; 20; 30; 40; 50; 60; 70] H).
Defined.

(** *** Device activity *)

Lemma leastBusy_loop_spec m i low best av :
  let r := leastBusy_loop m i low best av in
  (r = best /\ (forall a, a ∈ av -> low <= activity m (avID a))) \/
  (exists k a, r = i + Z.of_nat k /\ av !! k = Some a /\ activity m (avID a) < low /\
     (forall b, b ∈ av -> activity m (avID a) <= activity m (avID b)) /\
     (forall j b, (j < k)%nat -> av !! j = Some b -> activity m (avID a) < activity m (avID b))).
Proof.
  cbv zeta. revert i low best. induction av as [|x av IH]; intros i low best; cbn [leastBusy_loop].
  { left. split; [done|]. intros a Ha. by apply elem_of_nil in Ha. }
  destruct (Z.ltb_spec (activity m (avID x)) low) as [Hlt|Hge].
  - right. destruct (IH (i + 1) (activity m (avID x)) i) as [ [-> Hall] |(k & a & -> & Hk & Ha & Hall & Hfst)].
    + exists 0%nat, x. split; [lia|]. split; [done|]. split; [done|]. split; [|intros j; lia].
      intros b [->|Hb] %elem_of_cons; [done|by apply Hall].
    + exists (S k), a. split; [lia|]. split; [done|]. split; [lia|]. split.
      * intros b [->|Hb] %elem_of_cons; [lia|by apply Hall].
      * intros [|j] b Hj Hb; [by injection Hb as ->|]. apply (Hfst j); [lia|done].
  - destruct (IH (i + 1) low best) as [ [-> Hall] |(k & a & -> & Hk & Ha & Hall & Hfst)].
    + left. split; [done|]. intros b [->|Hb] %elem_of_cons; [done|by apply Hall].
    + right. exists (S k), a. split; [lia|]. split; [done|]. split; [done|]. split.
      * intros b [->|Hb] %elem_of_cons; [lia|by apply Hall].
      * intros [|j] b Hj Hb; [injection Hb as ->; lia|]. apply (Hfst j); [lia|done].
Qed.

(** The device chosen for a request is the first of the least busy ones
    among those available; none is chosen only if none is available (or all are
    beyond 2^31 - 1 requests); and a request that has been started and finished
    leaves the activity of every device as it was. *)
Theorem leastBusy_minimal m av :
  ((leastBusy m av = -1 /\ (forall a, a ∈ av -> 2 ^ 31 - 1 <= activity m (avID a))) \/
   (exists k a, leastBusy m av = Z.of_nat k /\ av !! k = Some a /\
     (forall b, b ∈ av -> activity m (avID a) <= activity m (avID b)) /\
     (forall j b, (j < k)%nat -> av !! j = Some b -> activity m (avID a) < activity m (avID b)))) /\
  (forall a id, (forall d, - 2 ^ 63 <= activity m d < 2 ^ 63 - 1) ->
     activity (done_ (using_ m a) a) id = activity m id).
Proof.
  split.
  - destruct (leastBusy_loop_spec m 0 (Z.shiftl 2 30 - 1) (-1) av) as [ [H1 H2] |(k & a & H1 & H2 & _ & H3 & H4)];
      [left|right; exists k, a; auto].
    split; [done|]. intros a Ha. apply H2 in Ha. by change (Z.shiftl 2 30 - 1) with (2 ^ 31 - 1) in Ha.
  - intros b id Hr. unfold done_, using_, activity in *. destruct (decide (avID b = id)) as [<-|Hne].
    + rewrite !lookup_insert_eq. cbn [default id]. specialize (Hr (avID b)).
      rewrite (iN_small 64 (_ + 1)) by lia. rewrite iN_small by lia. lia.
    + by rewrite !lookup_insert_ne.
Qed.

(** ** Batches *)

Section Batches.
Context (protoSize : bep_FileInfo -> Z).

(** A flush function that records what it is given. *)
Definition record_flush {E} (fs : list FileInfo) : SM (list (list FileInfo)) E unit :=
  fun w => (w ++ [fs], Ret tt).

(** The use of a batch: append and flush when full, flush at the end. *)
Definition batch_loop {E} (fs : list FileInfo) : SM (FileInfoBatch (E := E) (W := list (list FileInfo))) E unit :=
  foldr (fun f k => batch_Append protoSize f ≫= fun _ => batch_FlushIfFull record_flush ≫= fun _ => k)
    (batch_Flush record_flush) fs.

Definition serializable (f : FileInfo) : Prop := exists w, ToWire true f = Ret w.

Lemma serializable_plain f : truncated f = false -> serializable f.
Proof. intros H. unfold serializable, ToWire. rewrite H. eauto. Qed.

(** Within the limits, so that one more entry is allowed. *)
Definition batch_small {E} (b : FileInfoBatch (E := E) (W := list (list FileInfo))) : Prop :=
  berror b = None /\ zlen (infos b) < MaxBatchSizeFiles.

Lemma batch_loop_ok {E} fs (b : FileInfoBatch (E := E)) :
  Forall serializable fs -> batch_small b -> Forall (fun l => l <> [] /\ zlen l <= MaxBatchSizeFiles) (world b) ->
  exists b', batch_loop fs b = (b', Ret tt) /\ infos b' = [] /\ berror b' = None /\
    concat (world b') = concat (world b) ++ infos b ++ fs /\
    Forall (fun l => l <> [] /\ zlen l <= MaxBatchSizeFiles) (world b').
Proof.
  intros HF. revert b. induction HF as [|f fs [w Hw] HF IH]; intros b (He & Hn) Hwd; cbn [batch_loop foldr].
  - unfold batch_Flush. rewrite He. destruct (infos b) as [|x l] eqn:Hi; cbn [is_nil].
    + exists b. rewrite Hi, !app_nil_r. auto.
    + cbn. eexists. split; [done|]. cbn. split; [done|]. split; [done|]. rewrite app_nil_r, concat_app. cbn.
      rewrite app_nil_r. split; [done|]. apply Forall_app. split; [done|]. constructor; [|done].
      split; [done|]. cbn [length] in *. lia.
  - set (b1 := {| infos := infos b ++ [f]; bsize := bsize b + protoSize w; berror := None; world := world b |}
      : FileInfoBatch (E := E) (W := list (list FileInfo))).
    assert (batch_Append protoSize f b = (b1, Ret tt)) as Ha by (unfold batch_Append; by rewrite He, Hw).
    erewrite sm_bind_Ret by exact Ha.
    destruct (batch_Full b1) eqn:Hf.
    + set (b2 := batch_Reset {| infos := infos b1; bsize := bsize b1; berror := None; world := world b ++ [infos b1] |}
        : FileInfoBatch (E := E) (W := list (list FileInfo))).
      assert (batch_FlushIfFull record_flush b1 = (b2, Ret tt)) as Hfl.
      { unfold batch_FlushIfFull, batch_Flush. rewrite Hf. cbn [berror b1 infos]. by destruct (infos b). }
      erewrite sm_bind_Ret by exact Hfl. fold (@batch_loop E fs).
      destruct (IH b2) as (b' & Hb & Hi & Heb & Hc & Hall).
      * split; [done|]. cbn. unfold MaxBatchSizeFiles. lia.
      * cbn [world b2 batch_Reset]. apply Forall_app. split; [done|]. constructor; [|done]. cbn [infos b1].
        split; [by destruct (infos b)|]. rewrite length_app. cbn. lia.
      * exists b'. split; [done|]. split; [done|]. split; [done|]. split; [|done].
        rewrite Hc. cbn. rewrite concat_app. cbn. by rewrite app_nil_r, <- !app_assoc.
    + assert (batch_FlushIfFull record_flush b1 = (b1, Ret tt)) as Hfl by (unfold batch_FlushIfFull; by rewrite Hf).
      erewrite sm_bind_Ret by exact Hfl. fold (@batch_loop E fs).
      destruct (IH b1) as (b' & Hb & Hi & Heb & Hc & Hall).
      * split; [done|]. unfold batch_Full in Hf. zbool. done.
      * done.
      * exists b'. split; [done|]. split; [done|]. split; [done|]. split; [|done].
        rewrite Hc. cbn. by rewrite <- !app_assoc.
Qed.

Lemma batch_failed_sticky {E W} (flushFn : list FileInfo -> SM W E unit) b e f :
  berror b = Some e ->
  batch_Flush flushFn b = (b, Err e) /\ batch_FlushIfFull flushFn b = (b, Err e) /\
  snd (batch_Append protoSize f b) = Panic.
Proof. intros H. unfold batch_Flush, batch_FlushIfFull, batch_Append. by rewrite H. Qed.
End Batches.

Definition emptyBatch {E} : FileInfoBatch (E := E) (W := list (list FileInfo)) :=
  {| infos := []; bsize := 0; berror := None; world := [] |}.

(** Appending files with a flush whenever the batch is full, and once more
    at the end, hands every file to the flush function exactly once and in
    order, in nonempty batches of at most a thousand files. *)
Theorem batch_complete protoSize {E : Type} fs :
  Forall (fun f => truncated f = false) fs ->
  exists b', batch_loop protoSize fs emptyBatch = (b', Ret tt : outcome E unit) /\
    concat (world b') = fs /\ infos b' = [] /\
    Forall (fun l => l <> [] /\ zlen l <= MaxBatchSizeFiles) (world b').
Proof.
  intros HF. destruct (batch_loop_ok protoSize (E := E) fs emptyBatch) as (b' & Hb & Hi & _ & Hc & Hall).
  - eapply List.Forall_impl; [|exact HF]. exact serializable_plain.
  - by split.
  - constructor.
  - exists b'. auto.
Qed.

Lemma batch_complete_witness :
  exists b', batch_loop (fun _ => 300000) [ex_file; ex_file] emptyBatch = (b', Ret tt : outcome unit unit) /\
    concat (world b') = [ex_file; ex_file] /\ infos b' = [] /\
    Forall (fun l => l <> [] /\ zlen l <= MaxBatchSizeFiles) (world b').
Proof. apply batch_complete. repeat constructor. Defined.
