(* ===== verification/GlobalState.v ===== *)
(** * The folder database's global state (internal/db/sqlite/folderdb_update.go,
    folderdb_ancestor.go)

    Which version of a file is the global one, whether the local device needs
    it, and the ancestors of the last-writer-wins reconciler.  The SQL tables
    are modelled as lists of rows and finite maps; a statement is the function
    it computes on them. *)
From Stdlib Require Import ZArith List Lia.
From Stdlib Require Import Strings.Byte.
From stdpp Require Import base list option gmap numbers tactics.
From S2P Require Import Prelude GoLib Vector FileInfo FileInfoWire.

#[local] Open Scope Z_scope.

(** ** Rows *)

(** [fileRow]: what is selected of a row of [files]. *)
Record fileRow :=
  { rName : bytes; rVersion : Vector; DeviceIdx : Z; rSequence : Z; Modified : Z; rSize : Z;
    BlocklistHash : bytes; rLocalFlags : Z; rDeleted : bool }.

(** A row of [ancestor_entries]. *)
Record AncestorEntry :=
  { aName : bytes; ModifiedNanos : Z; aSize : Z; aBlocklistHash : bytes; aDeleted : bool; UpdatedNanos : Z }.

Definition row_IsInvalid (e : fileRow) : bool := flag_IsInvalid (rLocalFlags e).

(** [cmp.Compare] on integers. *)
Definition cmp_Compare (a b : Z) : Z := if a <? b then -1 else if b <? a then 1 else 0.

Definition rowMatchesAncestor (row : fileRow) (ancestor : option AncestorEntry) : bool :=
  match ancestor with
  | None => false
  | Some a =>
      if rDeleted row && aDeleted a then true
      else if negb (eqb (rDeleted row) (aDeleted a)) then false
      else (Modified row =? ModifiedNanos a) && (rSize row =? aSize a) &&
           bool_decide (BlocklistHash row = aBlocklistHash a)
  end.
Definition rowsEqualByAncestorMetadata (a b : fileRow) : bool :=
  if rDeleted a && rDeleted b then true
  else if negb (eqb (rDeleted a) (rDeleted b)) then false
  else (Modified a =? Modified b) && (rSize a =? rSize b) && bool_decide (BlocklistHash a = BlocklistHash b).

Definition compareLWWAncestor (e other : fileRow) (ancestor : option AncestorEntry) : Z :=
  let eMatches := rowMatchesAncestor e ancestor in
  let otherMatches := rowMatchesAncestor other ancestor in
  if eMatches && negb otherMatches then 1
  else if negb eMatches && otherMatches then -1
  else if rowsEqualByAncestorMetadata e other then cmp_Compare (DeviceIdx e) (DeviceIdx other)
  else if rDeleted e && negb (rDeleted other) then 1
  else if negb (rDeleted e) && rDeleted other then -1
  else
    let d := cmp_Compare (Modified e) (Modified other) in
    if negb (d =? 0) then - d else cmp_Compare (DeviceIdx e) (DeviceIdx other).

Definition CompareWithAncestor (e other : fileRow) (ancestor : option AncestorEntry) (useLWW : bool) : Z :=
  let vc := Compare (rVersion e) (rVersion other) in
  match vc with
  | Equal =>
      if negb (eqb (row_IsInvalid e) (row_IsInvalid other)) then (if row_IsInvalid e then 1 else -1)
      else cmp_Compare (DeviceIdx e) (DeviceIdx other)
  | Greater => -1
  | Lesser => 1
  | ConcurrentGreater | ConcurrentLesser =>
      if negb (eqb (row_IsInvalid e) (row_IsInvalid other)) then (if row_IsInvalid e then 1 else -1)
      else
        let l := if useLWW then compareLWWAncestor e other ancestor else 0 in
        if negb (l =? 0) then l
        else
          let d := cmp_Compare (Modified e) (Modified other) in
          if negb (d =? 0) then - d
          else match vc with ConcurrentGreater => -1 | _ => 1 end
  end.
Definition row_Compare (e other : fileRow) : Z := CompareWithAncestor e other None false.

Definition set_rLocalFlags (fl : Z) (e : fileRow) : fileRow :=
  {| rName := rName e; rVersion := rVersion e; DeviceIdx := DeviceIdx e; rSequence := rSequence e;
     Modified := Modified e; rSize := rSize e; BlocklistHash := BlocklistHash e; rLocalFlags := fl;
     rDeleted := rDeleted e |}.

(** [slices.IndexFunc] *)
Fixpoint IndexFunc {A} (P : A -> bool) (l : list A) : option nat :=
  match l with
  | [] => None
  | x :: l => if P x then Some O else S <$> IndexFunc P l
  end.

(** ** Tables *)

(** A row of [files], with the columns [fileRow] does not select and the
    message stored for it in [fileinfos]. *)
Record filesRow := { row : fileRow; rType : Z; remote_sequence : option Z; fiprotobuf : FileInfo }.
Definition set_row (r : fileRow) (x : filesRow) : filesRow :=
  {| row := r; rType := rType x; remote_sequence := remote_sequence x; fiprotobuf := fiprotobuf x |}.

Record folderDB :=
  { files : list filesRow; next_sequence : Z; blocklists : gmap bytes (list BlockInfo);
    ancestor_entries : gmap bytes AncestorEntry; useLWWReconciler : bool; localDeviceIdx : Z }.
Definition set_files (fs : list filesRow) (s : folderDB) : folderDB :=
  {| files := fs; next_sequence := next_sequence s; blocklists := blocklists s;
     ancestor_entries := ancestor_entries s; useLWWReconciler := useLWWReconciler s;
     localDeviceIdx := localDeviceIdx s |}.
Definition set_ancestors (a : gmap bytes AncestorEntry) (s : folderDB) : folderDB :=
  {| files := files s; next_sequence := next_sequence s; blocklists := blocklists s;
     ancestor_entries := a; useLWWReconciler := useLWWReconciler s; localDeviceIdx := localDeviceIdx s |}.
Definition set_LWW (b : bool) (s : folderDB) : folderDB :=
  {| files := files s; next_sequence := next_sequence s; blocklists := blocklists s;
     ancestor_entries := ancestor_entries s; useLWWReconciler := b; localDeviceIdx := localDeviceIdx s |}.

Definition named (name : bytes) (x : filesRow) : bool := bool_decide (rName (row x) = name).
(** The select of [recalcGlobalForFile]. *)
Definition rows_named (name : bytes) (s : folderDB) : list fileRow :=
  map row (List.filter (named name) (files s)).
(** The names in the table, each once. *)
Definition names_of (fs : list filesRow) : list bytes := remove_dups (map (fun x => rName (row x)) fs).

Definition getAncestorLocked (name : bytes) (s : folderDB) : option AncestorEntry := ancestor_entries s !! name.
Definition putAncestorLocked (now : Z) (r : fileRow) (s : folderDB) : folderDB :=
  set_ancestors (<[rName r := {| aName := rName r; ModifiedNanos := Modified r; aSize := rSize r;
     aBlocklistHash := BlocklistHash r; aDeleted := rDeleted r; UpdatedNanos := now |}]> (ancestor_entries s)) s.
Definition deleteAncestorLocked (name : bytes) (s : folderDB) : folderDB :=
  set_ancestors (delete name (ancestor_entries s)) s.

Section Recalc.
(** [slices.SortFunc] with a comparison function, and [time.Now()]. *)
Context (SortFunc : (fileRow -> fileRow -> Z) -> list fileRow -> list fileRow) (now : Z).

(** What [recalcGlobalForFile] decides from the sorted rows. *)
Record decision := { d_global : fileRow; d_hasLocal : bool; d_localIdx : option nat;
                     d_localHasGlobalVersion : bool; d_remoteHasGlobalVersion : bool }.
Definition decide_global (localIdxNo : Z) (es : list fileRow) : option decision :=
  let globIdx := default O (IndexFunc (fun e => negb (row_IsInvalid e)) es) in
  match es !! globIdx with
  | None => None
  | Some global =>
      let localIdx := IndexFunc (fun e => DeviceIdx e =? localIdxNo) es in
      let localEqual :=
        match localIdx with
        | Some i => match es !! i with Some e => Vector_Equal (rVersion e) (rVersion global) | None => false end
        | None => false
        end in
      let hasLocal :=
        match localIdx with Some i => (i <=? globIdx)%nat | None => false end || localEqual ||
        (match localIdx with None => true | Some _ => false end && rDeleted global) in
      let remoteHas :=
        existsb (fun e => negb (DeviceIdx e =? localIdxNo) && Vector_Equal (rVersion e) (rVersion global)) es in
      Some {| d_global := global; d_hasLocal := hasLocal; d_localIdx := localIdx;
              d_localHasGlobalVersion := localEqual; d_remoteHasGlobalVersion := remoteHas |}
  end.

(** The new flags of the global entry. *)
Definition global_flags (d : decision) : Z :=
  let fl := Z.lor (rLocalFlags (d_global d)) FlagLocalGlobal in
  if d_hasLocal d || flag_IsInvalid fl then clear_flags fl FlagLocalNeeded else Z.lor fl FlagLocalNeeded.

Definition flagMask : Z := Z.lor FlagLocalNeeded FlagLocalGlobal.
(** The two updates: the flags of the global row are set; those of the other
    rows of that name lose the global and the need bit. *)
Definition update_flags (global : fileRow) (fl : Z) (x : filesRow) : filesRow :=
  let x := if (DeviceIdx (row x) =? DeviceIdx global) && (rSequence (row x) =? rSequence global)
           then set_row (set_rLocalFlags fl (row x)) x else x in
  if named (rName global) x && negb (rSequence (row x) =? rSequence global) &&
     has_flag (rLocalFlags (row x)) flagMask
  then set_row (set_rLocalFlags (clear_flags (rLocalFlags (row x)) flagMask) (row x)) x else x.

Definition recalcGlobalForFile (file : bytes) (s : folderDB) : folderDB :=
  let ancestor := if useLWWReconciler s then getAncestorLocked file s else None in
  let es := SortFunc (fun a b => CompareWithAncestor a b ancestor (useLWWReconciler s)) (rows_named file s) in
  match decide_global (localDeviceIdx s) es with
  | None => s
  | Some d =>
      let global := set_rLocalFlags (global_flags d) (d_global d) in
      let s1 := set_files (map (update_flags global (rLocalFlags global)) (files s)) s in
      if useLWWReconciler s then
        if d_localHasGlobalVersion d && d_remoteHasGlobalVersion d then putAncestorLocked now global s1
        else if rDeleted global && (match d_localIdx d with None => true | _ => false end) && d_remoteHasGlobalVersion d
        then deleteAncestorLocked (rName global) s1
        else s1
      else s1
  end.

Definition recalc_names (names : list bytes) (s : folderDB) : folderDB :=
  foldl (fun s n => recalcGlobalForFile n s) s names.
(** [recalcGlobalForFolder]: the names without a global row;
    [recalcAllGlobalsForFolder]: all of them. *)
Definition has_global (name : bytes) (fs : list filesRow) : bool :=
  existsb (fun x => named name x && has_flag (rLocalFlags (row x)) FlagLocalGlobal) fs.
Definition recalcGlobalForFolder (s : folderDB) : folderDB :=
  recalc_names (List.filter (fun n => negb (has_global n (files s))) (names_of (files s))) s.
Definition recalcAllGlobalsForFolder (s : folderDB) : folderDB := recalc_names (names_of (files s)) s.

(** [DB.SetFolderLWWReconciler] on an open folder. *)
Definition SetFolderLWWReconciler (enabled : bool) (s : folderDB) : folderDB :=
  recalcAllGlobalsForFolder (set_LWW enabled s).

(** ** Updates *)

(** The Unicode normalisation of file names, SHA-256. *)
Context (NormalizedFilename : bytes -> bytes) (sha256 : bytes -> bytes).

Inductive db_err := EDuplicateSequence.

(** [INSERT OR REPLACE INTO files]: rows in conflict with a unique index go. *)
Definition conflicts (dev : Z) (rseq : option Z) (name : bytes) (x : filesRow) : bool :=
  (DeviceIdx (row x) =? dev) &&
  (bool_decide (rName (row x) = name) ||
   match rseq, remote_sequence x with Some a, Some b => a =? b | _, _ => false end).

Definition set_db_fields (name : bytes) (sz : Z) (bh : bytes) (bl : list BlockInfo) (sq : Z) (f : FileInfo) : FileInfo :=
  {| Name := name; FSize := sz; ModifiedS := ModifiedS f; ModifiedBy := ModifiedBy f;
     Version := Version f; Sequence := sq; Blocks := bl; SymlinkTarget := SymlinkTarget f;
     BlocksHash := bh; PreviousBlocksHash := PreviousBlocksHash f; Encrypted := Encrypted f;
     Platform := Platform f; Type_ := Type_ f; Permissions := Permissions f; ModifiedNs := ModifiedNs f;
     RawBlockSize := RawBlockSize f; LocalFlags := LocalFlags f;
     EncryptionTrailerSize := EncryptionTrailerSize f;
     Deleted := Deleted f; NoPermissions := NoPermissions f; truncated := truncated f |}.

(** [time.Time.UnixNano] *)
Definition modified_nanos (f : FileInfo) : Z :=
  let t := ModTime f in i64 ((tsec t - unixToInternal) * nsPerSec + tnsec t).

(** One round of the loop of [Update], for an entry that [ToWire] can write. *)
Definition Update_file (isLocal : bool) (dev : Z) (f : FileInfo) (s : folderDB) : folderDB :=
  let name := NormalizedFilename (Name f) in
  let bh := if is_nil (Blocks f) then [] else BlocksHash_of sha256 (Blocks f) in
  let sz := if Type_ f =? FileInfoTypeDirectory then 128 else FSize f in
  let rseq := if isLocal then None else Some (Sequence f) in
  let seq := next_sequence s in
  let info := set_db_fields name sz bh [] (if isLocal then seq else Sequence f) f in
  let r := {| rName := name; rVersion := Version f; DeviceIdx := dev; rSequence := seq;
              Modified := modified_nanos f; rSize := sz; BlocklistHash := bh;
              rLocalFlags := LocalFlags f; rDeleted := Deleted f |} in
  let x := {| row := r; rType := Type_ f; remote_sequence := rseq; fiprotobuf := info |} in
  let s1 := {| files := List.filter (fun y => negb (conflicts dev rseq name y)) (files s) ++ [x];
               next_sequence := seq + 1;
               blocklists := if is_nil (Blocks f) then blocklists s
                             else match blocklists s !! bh with
                                  | Some _ => blocklists s
                                  | None => <[bh := Blocks f]> (blocklists s)
                                  end;
               ancestor_entries := ancestor_entries s; useLWWReconciler := useLWWReconciler s;
               localDeviceIdx := localDeviceIdx s |} in
  recalcGlobalForFile name s1.

(** [folderDB.Update]: an error rolls the transaction back. *)
Fixpoint Update_loop (isLocal : bool) (dev : Z) (prev : option Z) (fs : list FileInfo) : SM folderDB db_err unit :=
  match fs with
  | [] => mret tt
  | f :: fs => fun s =>
      if negb isLocal && bool_decide (prev = Some (Sequence f)) then (s, Err EDuplicateSequence)
      else
        match ToWire true f with
        | Panic => (s, Panic)
        | _ => Update_loop isLocal dev (Some (Sequence f)) fs (Update_file isLocal dev f s)
        end
  end.
Definition folderDB_Update (isLocal : bool) (dev : Z) (fs : list FileInfo) : SM folderDB db_err unit := fun s =>
  match Update_loop isLocal dev None fs s with
  | (s', Ret r) => (s', Ret r)
  | (_, e) => (s, e)
  end.

(** [DropDevice], [DropAllFiles], [DropFilesNamed] *)
Definition drop_rows (P : filesRow -> bool) (s : folderDB) : folderDB :=
  set_files (List.filter (fun x => negb (P x)) (files s)) s.
Definition DropAllFiles (dev : Z) (s : folderDB) : folderDB :=
  if negb (existsb (fun x => DeviceIdx (row x) =? dev) (files s)) then s
  else recalcGlobalForFolder (drop_rows (fun x => DeviceIdx (row x) =? dev) s).
Definition DropDevice (isLocal : bool) (dev : Z) : SM folderDB db_err unit := fun s =>
  if isLocal then (s, Panic)
  else (recalcGlobalForFolder (drop_rows (fun x => DeviceIdx (row x) =? dev) s), Ret tt).
Definition DropFilesNamed (dev : Z) (names : list bytes) (s : folderDB) : folderDB :=
  let names := map NormalizedFilename names in
  recalc_names names
    (drop_rows (fun x => (DeviceIdx (row x) =? dev) && bool_decide (rName (row x) ∈ names)) s).
End Recalc.

(** ** Reads *)

(** [GetGlobalFile]: the row of that name with the global flag, with its block
    list put back. *)
Definition GetGlobalFile (NormalizedFilename : bytes -> bytes) (file : bytes) (s : folderDB) : option FileInfo :=
  x ← List.find (fun x => named (NormalizedFilename file) x && has_flag (rLocalFlags (row x)) FlagLocalGlobal) (files s);
  let bl := default [] (blocklists s !! BlocklistHash (row x)) in
  Some (set_db_fields (Name (fiprotobuf x)) (FSize (fiprotobuf x)) (BlocksHash (fiprotobuf x)) bl
          (Sequence (fiprotobuf x)) (fiprotobuf x)).

(** The rows [neededGlobalFilesLocal] selects. *)
Definition neededGlobalFilesLocal (s : folderDB) : list filesRow :=
  List.filter (fun x => negb (has_flag (rLocalFlags (row x)) FlagLocalIgnored) &&
                        has_flag (rLocalFlags (row x)) FlagLocalNeeded) (files s).
