(* ===== verification/GlobalStateProps.v ===== *)
(** * Properties of the global state

    The comparison of versions, exactly one global row per file, the meaning of
    the need flag, and whether two devices agree. *)
From Stdlib Require Import ZArith List Lia Sorting.Sorted.
From Stdlib Require Import Strings.Byte.
From stdpp Require Import base list option gmap numbers tactics.
From S2P Require Import Prelude GoLib Vector FileInfo FileInfoWire FileInfoProps GlobalState.

#[local] Open Scope Z_scope.

#[export] Instance fileRow_eq_dec : EqDecision fileRow.
Proof. solve_decision. Defined.

(** ** The comparison *)

Lemma cmp_Compare_spec a b :
  (a < b /\ cmp_Compare a b = -1) \/ (a = b /\ cmp_Compare a b = 0) \/ (b < a /\ cmp_Compare a b = 1).
Proof. unfold cmp_Compare. destruct (Z.ltb_spec a b); [auto|]. destruct (Z.ltb_spec b a); auto with lia. Qed.

Lemma cmp_Compare_neg a b : cmp_Compare b a = - cmp_Compare a b.
Proof. destruct (cmp_Compare_spec a b) as [ [? ->] |[ [? ->] |[? ->] ] ], (cmp_Compare_spec b a) as [ [? ->] |[ [? ->] |[? ->] ] ]; lia. Qed.

Lemma rowsEqual_sym a b : rowsEqualByAncestorMetadata a b = rowsEqualByAncestorMetadata b a.
Proof.
  unfold rowsEqualByAncestorMetadata. rewrite (Z.eqb_sym (Modified a)), (Z.eqb_sym (rSize a)), (bool_decide_sym (BlocklistHash a)).
  by destruct (rDeleted a), (rDeleted b).
Qed.

Lemma compareLWW_neg a b anc : compareLWWAncestor b a anc = - compareLWWAncestor a b anc.
Proof.
  unfold compareLWWAncestor. rewrite (rowsEqual_sym b), (cmp_Compare_neg (DeviceIdx a)), (cmp_Compare_neg (Modified a)).
  destruct (rowMatchesAncestor a anc), (rowMatchesAncestor b anc); cbn [andb negb]; try done;
  destruct (rowsEqualByAncestorMetadata a b); try done;
  destruct (rDeleted a), (rDeleted b); cbn [andb negb]; try done;
  destruct (cmp_Compare_spec (Modified a) (Modified b)) as [ [? ->] |[ [? ->] |[? ->] ] ]; reflexivity.
Qed.

Lemma Compare_neg a b anc lww :
  CompareWithAncestor b a anc lww = - CompareWithAncestor a b anc lww.
Proof.
  unfold CompareWithAncestor. rewrite (Compare_flipped (rVersion a)).
  rewrite (cmp_Compare_neg (DeviceIdx a)), (compareLWW_neg a), (cmp_Compare_neg (Modified a)).
  destruct (Compare (rVersion a) (rVersion b)); cbn [flip_ordering]; try done;
  destruct (row_IsInvalid a), (row_IsInvalid b); cbn [eqb negb]; try done; destruct lww; cbn [Z.eqb negb];
  try (destruct (Z.eqb_spec (compareLWWAncestor a b anc) 0) as [->|]; cbn [Z.opp Z.eqb negb];
       [|rewrite (proj2 (Z.eqb_neq _ _)) by lia; done]);
  destruct (cmp_Compare_spec (Modified a) (Modified b)) as [ [? ->] |[ [? ->] |[? ->] ] ]; reflexivity.
Qed.

(** Only rows of one device tie. *)
Lemma Compare_zero a b anc lww : CompareWithAncestor a b anc lww = 0 -> DeviceIdx a = DeviceIdx b.
Proof.
  unfold CompareWithAncestor.
  assert (cmp_Compare (DeviceIdx a) (DeviceIdx b) = 0 -> DeviceIdx a = DeviceIdx b) as Hd.
  { destruct (cmp_Compare_spec (DeviceIdx a) (DeviceIdx b)) as [ [? ->] |[ [? ->] |[? ->] ] ]; lia. }
  destruct (Compare (rVersion a) (rVersion b)); try done;
  destruct (eqb (row_IsInvalid a) (row_IsInvalid b)); cbn [negb]; try (by destruct (row_IsInvalid a));
  (destruct (negb ((if lww then compareLWWAncestor a b anc else 0) =? 0)) eqn:E; [intros H; rewrite H in E; done|]);
  destruct (cmp_Compare_spec (Modified a) (Modified b)) as [ [? ->] |[ [? ->] |[? ->] ] ]; done.
Qed.

(** Without the reconciler the device numbering only matters between rows of
    equal versions. *)
Lemma Compare_numbering a b a' b' :
  rVersion a' = rVersion a -> Modified a' = Modified a -> row_IsInvalid a' = row_IsInvalid a ->
  rVersion b' = rVersion b -> Modified b' = Modified b -> row_IsInvalid b' = row_IsInvalid b ->
  Compare (rVersion a) (rVersion b) <> Equal ->
  row_Compare a' b' = row_Compare a b.
Proof.
  intros H1 H2 H3 H4 H5 H6 Hne. unfold row_Compare, CompareWithAncestor. rewrite H1, H2, H3, H4, H5, H6.
  by destruct (Compare (rVersion a) (rVersion b)).
Qed.

(** ** Sorting *)

(** What [slices.SortFunc] promises: a permutation, which is sorted if the
    function is a strict order on the elements. *)
Definition strict_order_on {A} (cmp : A -> A -> Z) (l : list A) : Prop :=
  (forall a b, a ∈ l -> b ∈ l -> a <> b -> cmp a b < 0 \/ cmp b a < 0) /\
  (forall a b c, a ∈ l -> b ∈ l -> c ∈ l -> cmp a b < 0 -> cmp b c < 0 -> cmp a c < 0).
Definition sort_law {A} (SortFunc : (A -> A -> Z) -> list A -> list A) : Prop :=
  forall cmp l, SortFunc cmp l ≡ₚ l /\
    (NoDup l -> strict_order_on cmp l -> StronglySorted (fun a b => cmp a b < 0) (SortFunc cmp l)).

(** Insertion sort, as the library sorts short slices. *)
Fixpoint insert_by {A} (cmp : A -> A -> Z) (x : A) (l : list A) : list A :=
  match l with
  | [] => [x]
  | y :: l => if cmp x y <? 0 then x :: y :: l else y :: insert_by cmp x l
  end.
Definition insertionSort {A} (cmp : A -> A -> Z) (l : list A) : list A := fold_right (insert_by cmp) [] l.

Lemma insert_by_perm {A} (cmp : A -> A -> Z) x l : insert_by cmp x l ≡ₚ x :: l.
Proof. induction l as [|y l IH]; cbn; [done|]. destruct (cmp x y <? 0); [done|]. by rewrite IH, Permutation_swap. Qed.

Lemma insertionSort_perm {A} (cmp : A -> A -> Z) l : insertionSort cmp l ≡ₚ l.
Proof. induction l as [|x l IH]; cbn; [done|]. by rewrite insert_by_perm, IH. Qed.

Lemma insert_by_sorted {A} (cmp : A -> A -> Z) x l :
  NoDup (x :: l) -> strict_order_on cmp (x :: l) -> StronglySorted (fun a b => cmp a b < 0) l ->
  StronglySorted (fun a b => cmp a b < 0) (insert_by cmp x l).
Proof.
  intros Hnd [Htot Htr] Hs. induction Hs as [|y l Hs IH HF]; cbn; [by repeat constructor|].
  destruct (Z.ltb_spec (cmp x y) 0) as [Hlt|Hge].
  - constructor; [by constructor|]. constructor; [done|]. rewrite List.Forall_forall in HF |- *.
    intros z Hz. apply (Htr x y z); [rewrite !elem_of_cons, ?list_elem_of_In; auto..|done|by apply HF].
  - apply list.NoDup_cons in Hnd as [Hx Hnd]. apply list.NoDup_cons in Hnd as [Hy Hnd]. apply not_elem_of_cons in Hx as [Hxy Hx].
    constructor.
    + apply IH; [by constructor| |].
      * intros a b Ha Hb. apply Htot; revert Ha Hb; rewrite !elem_of_cons; tauto.
      * intros a b c Ha Hb Hc. apply Htr; revert Ha Hb Hc; rewrite !elem_of_cons; tauto.
    + rewrite (insert_by_perm cmp x l). constructor; [|done].
      destruct (Htot x y); [rewrite elem_of_cons; auto|rewrite !elem_of_cons; auto|done|lia|done].
Qed.

Lemma insertionSort_law {A} : sort_law (@insertionSort A).
Proof.
  intros cmp l. split; [apply insertionSort_perm|]. induction l as [|x l IH]; intros Hnd [Htot Htr]; cbn; [constructor|].
  assert (strict_order_on cmp l) as Ho.
  { split.
    - intros a b Ha Hb. apply Htot; rewrite elem_of_cons; auto.
    - intros a b c Ha Hb Hc. apply Htr; rewrite elem_of_cons; auto. }
  pose proof (insertionSort_perm cmp l) as HP. apply list.NoDup_cons in Hnd as [Hx Hnd]. apply insert_by_sorted.
  - constructor; [by rewrite HP|by rewrite HP].
  - split.
    + intros a b. rewrite HP. apply Htot.
    + intros a b c. rewrite HP. apply Htr.
  - by apply IH.
Qed.

(** ** Flags *)

Lemma has_flag_lor f m : m <> 0 -> has_flag (Z.lor f m) m = true.
Proof.
  intros Hm. unfold has_flag. apply negb_true_iff, Z.eqb_neq. rewrite Z.land_lor_distr_l, Z.land_diag.
  intros H. apply Z.lor_eq_0_iff in H as [_ H]. done.
Qed.

Lemma has_flag_clear f m k : Z.land m k = k -> has_flag (clear_flags f m) k = false.
Proof.
  intros Hm. unfold has_flag, clear_flags. apply negb_false_iff, Z.eqb_eq. rewrite <- Hm.
  apply Z.bits_inj'. intros n Hn. rewrite !Z.land_spec, Z.ldiff_spec, Z.bits_0.
  by destruct (Z.testbit f n), (Z.testbit m n).
Qed.

Lemma has_flag_clear_other f m k : Z.land m k = 0 -> has_flag (clear_flags f m) k = has_flag f k.
Proof.
  intros Hm. unfold has_flag, clear_flags. do 2 f_equal. apply Z.bits_inj'. intros n Hn.
  rewrite !Z.land_spec, Z.ldiff_spec. apply (f_equal (fun z => Z.testbit z n)) in Hm.
  rewrite Z.land_spec, Z.bits_0 in Hm. by destruct (Z.testbit f n), (Z.testbit m n), (Z.testbit k n).
Qed.

Lemma has_flag_lor_other f m k : Z.land m k = 0 -> has_flag (Z.lor f m) k = has_flag f k.
Proof. intros Hm. unfold has_flag. by rewrite Z.land_lor_distr_l, Hm, Z.lor_0_r. Qed.

Lemma has_flag_none f m k : has_flag f m = false -> Z.land m k = k -> has_flag f k = false.
Proof.
  unfold has_flag. rewrite !negb_false_iff, !Z.eqb_eq. intros H <-. by rewrite Z.land_assoc, H.
Qed.

Definition is_global (r : fileRow) : bool := has_flag (rLocalFlags r) FlagLocalGlobal.
Definition is_needed (r : fileRow) : bool := has_flag (rLocalFlags r) FlagLocalNeeded.

Lemma global_flags_spec d :
  has_flag (global_flags d) FlagLocalGlobal = true /\
  has_flag (global_flags d) FlagLocalNeeded = negb (d_hasLocal d) && negb (row_IsInvalid (d_global d)) /\
  flag_IsInvalid (global_flags d) = row_IsInvalid (d_global d).
Proof.
  unfold global_flags, row_IsInvalid.
  assert (flag_IsInvalid (Z.lor (rLocalFlags (d_global d)) FlagLocalGlobal) = flag_IsInvalid (rLocalFlags (d_global d))) as ->.
  { by apply has_flag_lor_other. }
  destruct (d_hasLocal d), (flag_IsInvalid (rLocalFlags (d_global d))) eqn:E; cbn [orb negb andb];
    unfold flag_IsInvalid in *; (split; [|split]);
    repeat first [rewrite has_flag_clear by done | rewrite has_flag_clear_other by done
                 |rewrite has_flag_lor by done | rewrite has_flag_lor_other by done]; done.
Qed.

(** ** One global row per file *)

Definition seqs (fs : list filesRow) : list Z := map (fun x => rSequence (row x)) fs.

(** Of the rows of a name exactly one is global, and no other is needed. *)
Definition ok_name (fs : list filesRow) (n : bytes) : Prop :=
  exists g, g ∈ fs /\ rName (row g) = n /\ is_global (row g) = true /\
    forall y, y ∈ fs -> rName (row y) = n -> is_global (row y) || is_needed (row y) = true ->
      rSequence (row y) = rSequence (row g).

Definition globals_ok (s : folderDB) : Prop :=
  NoDup (seqs (files s)) /\ (forall x, x ∈ files s -> rSequence (row x) < next_sequence s) /\
  (forall x, x ∈ files s -> ok_name (files s) (rName (row x))).

Lemma update_flags_keys g fl x :
  rName (row (update_flags g fl x)) = rName (row x) /\
  rSequence (row (update_flags g fl x)) = rSequence (row x) /\
  DeviceIdx (row (update_flags g fl x)) = DeviceIdx (row x).
Proof. unfold update_flags. cbv zeta. by repeat case_match. Qed.

Lemma update_flags_other g fl x :
  rName (row x) <> rName g -> rSequence (row x) <> rSequence g -> update_flags g fl x = x.
Proof.
  intros Hn Hs. unfold update_flags. cbv zeta. rewrite !(proj2 (Z.eqb_neq _ _) Hs), andb_false_r. cbv iota.
  rewrite ?(proj2 (Z.eqb_neq _ _) Hs).
  unfold named. by rewrite bool_decide_false.
Qed.

Lemma update_flags_global g fl x :
  rSequence (row x) = rSequence g -> DeviceIdx (row x) = DeviceIdx g ->
  rLocalFlags (row (update_flags g fl x)) = fl.
Proof.
  intros Hs Hd. unfold update_flags. rewrite Hs, Hd, !Z.eqb_refl. cbn [andb]. cbv zeta.
  cbn [row set_row rSequence set_rLocalFlags]. by rewrite Hs, Z.eqb_refl, andb_false_r.
Qed.

Lemma update_flags_cleared g fl x :
  rName (row x) = rName g -> rSequence (row x) <> rSequence g ->
  is_global (row (update_flags g fl x)) || is_needed (row (update_flags g fl x)) = false.
Proof.
  intros Hn Hs. unfold update_flags. cbv zeta. rewrite !(proj2 (Z.eqb_neq _ _) Hs), andb_false_r. cbv iota.
  rewrite ?(proj2 (Z.eqb_neq _ _) Hs).
  unfold named. rewrite bool_decide_true by done. cbn [andb negb].
  destruct (has_flag (rLocalFlags (row x)) flagMask) eqn:E; unfold is_global, is_needed.
  - cbn [row set_row rLocalFlags set_rLocalFlags]. by rewrite !has_flag_clear.
  - by rewrite !(has_flag_none _ flagMask).
Qed.

Section OneGlobal.
Context (SortFunc : (fileRow -> fileRow -> Z) -> list fileRow -> list fileRow) (now : Z).
Hypothesis SortFunc_perm : forall cmp l, SortFunc cmp l ≡ₚ l.
Abbreviation recalc := (recalcGlobalForFile SortFunc now).

Lemma IndexFunc_lt {A} (P : A -> bool) l i : IndexFunc P l = Some i -> (i < length l)%nat.
Proof.
  revert i. induction l as [|x l IH]; intros i; cbn; [done|]. destruct (P x); [intros [= <-]; lia|].
  destruct (IndexFunc P l); [|done]. cbn. intros [= <-]. specialize (IH n eq_refl). lia.
Qed.

Lemma decide_global_some ld es : es <> [] -> exists d, decide_global ld es = Some d.
Proof.
  intros Hne. unfold decide_global. set (i := default _ _).
  assert (i < length es)%nat as Hi.
  { unfold i. destruct (IndexFunc _ es) eqn:E; [by apply IndexFunc_lt in E|]. destruct es; [done|simpl; lia]. }
  destruct (lookup_lt_is_Some_2 es i Hi) as [g ->]. eauto.
Qed.

Lemma decide_global_in ld es d : decide_global ld es = Some d -> d_global d ∈ es.
Proof.
  unfold decide_global. destruct (es !! _) eqn:E; [|done]. intros [= <-]. cbn. by eapply list_elem_of_lookup_2.
Qed.

Lemma rows_named_spec n s r : r ∈ rows_named n s <-> exists x, x ∈ files s /\ row x = r /\ rName r = n.
Proof.
  unfold rows_named. rewrite list_elem_of_In, in_map_iff. split.
  - intros (x & <- & Hx). apply filter_In in Hx as [Hx Hn]. unfold named in Hn. zbool.
    exists x. by rewrite list_elem_of_In.
  - intros (x & Hx & <- & Hn). exists x. split; [done|]. apply filter_In. rewrite <- list_elem_of_In.
    unfold named. by rewrite bool_decide_true.
Qed.

(** What one recalculation does to the table. *)
Lemma recalc_files n s :
  rows_named n s <> [] ->
  exists d g, decide_global (localDeviceIdx s)
      (SortFunc (fun a b => CompareWithAncestor a b (if useLWWReconciler s then getAncestorLocked n s else None)
                              (useLWWReconciler s)) (rows_named n s)) = Some d /\
    g ∈ files s /\ row g = d_global d /\ rName (row g) = n /\
    files (recalc n s) = map (update_flags (set_rLocalFlags (global_flags d) (row g)) (global_flags d)) (files s) /\
    next_sequence (recalc n s) = next_sequence s.
Proof.
  intros Hne. unfold recalcGlobalForFile.
  set (es := SortFunc _ _).
  assert (es ≡ₚ rows_named n s) as HP by apply SortFunc_perm.
  destruct (decide_global_some (localDeviceIdx s) es) as [d Hd].
  { intros E. rewrite E in HP. by apply Hne, Permutation_nil. }
  rewrite Hd. pose proof (decide_global_in _ _ _ Hd) as Hin. rewrite HP in Hin.
  apply rows_named_spec in Hin as (g & Hg & Hr & Hn). exists d, g.
  split; [done|]. split; [done|]. split; [done|]. split; [congruence|]. rewrite Hr.
  cbv zeta. by repeat case_match.
Qed.

Lemma recalc_nothing n s : rows_named n s = [] -> recalc n s = s.
Proof.
  intros H. unfold recalcGlobalForFile. rewrite H. set (es := SortFunc _ _).
  assert (es ≡ₚ []) as HP by apply SortFunc_perm. symmetry in HP. apply Permutation_nil in HP.
  rewrite HP. done.
Qed.

Lemma NoDup_seqs_eq fs x y : NoDup (seqs fs) -> x ∈ fs -> y ∈ fs -> rSequence (row x) = rSequence (row y) -> x = y.
Proof.
  unfold seqs. intros Hnd Hx Hy E. apply list_elem_of_lookup in Hx as [i Hi], Hy as [j Hj].
  assert (i = j) as ->; [|congruence].
  eapply NoDup_lookup; [exact Hnd|rewrite list_lookup_fmap, Hi; done|rewrite list_lookup_fmap, Hj; cbn; congruence].
Qed.

Lemma recalc_ok n s :
  NoDup (seqs (files s)) ->
  seqs (files (recalc n s)) = seqs (files s) /\ next_sequence (recalc n s) = next_sequence s /\
  (forall m, m ∈ map (fun x => rName (row x)) (files (recalc n s)) <-> m ∈ map (fun x => rName (row x)) (files s)) /\
  (forall m, m <> n -> ok_name (files s) m -> ok_name (files (recalc n s)) m) /\
  (rows_named n s <> [] -> ok_name (files (recalc n s)) n).
Proof.
  intros Hnd. destruct (decide (rows_named n s = [])) as [E|Hne].
  { rewrite (recalc_nothing _ _ E). repeat split; auto. intros H. by apply H in E. }
  destruct (recalc_files n s Hne) as (d & g & _ & Hg & Hr & Hgn & -> & ->).
  set (upd := update_flags _ _). set (g' := set_rLocalFlags (global_flags d) (row g)) in *.
  assert (forall x, rName (row (upd x)) = rName (row x) /\ rSequence (row (upd x)) = rSequence (row x)) as Hk.
  { intros x. destruct (update_flags_keys g' (global_flags d) x) as (? & ? & _). auto. }
  assert (forall x, x ∈ files s -> rName (row x) <> n -> upd x = x) as Hother.
  { intros x Hx Hn. apply update_flags_other; cbn; [congruence|]. intros Hs.
    apply Hn. by rewrite (NoDup_seqs_eq _ _ _ Hnd Hx Hg Hs). }
  assert (is_global (row (upd g)) = true) as Hgg.
  { unfold is_global, upd. rewrite update_flags_global by done. apply global_flags_spec. }
  split; [|split; [done|split; [|split] ] ].
  - unfold seqs. rewrite map_map. apply map_ext. intros x. apply Hk.
  - intros m. rewrite map_map. erewrite map_ext; [reflexivity|]. intros x. apply Hk.
  - intros m Hm (y & Hy & Hyn & Hyg & Hall). exists y.
    assert (upd y = y) as Ey by (apply Hother; [done|congruence]).
    split; [rewrite list_elem_of_In, in_map_iff; exists y; by rewrite <- list_elem_of_In|].
    split; [done|]. split; [done|].
    intros z Hz Hzn Hzf. apply list_elem_of_In, in_map_iff in Hz as (z0 & <- & Hz). apply list_elem_of_In in Hz.
    rewrite (proj1 (Hk z0)) in Hzn. assert (upd z0 = z0) as Ez by (apply Hother; [done|congruence]).
    rewrite Ez in *. by apply Hall.
  - intros _. exists (upd g). split; [rewrite list_elem_of_In, in_map_iff; exists g; by rewrite <- list_elem_of_In|].
    split; [by rewrite (proj1 (Hk g))|]. split; [done|].
    intros z Hz Hzn Hzf. apply list_elem_of_In, in_map_iff in Hz as (z0 & <- & Hz). apply list_elem_of_In in Hz.
    rewrite (proj1 (Hk z0)) in Hzn. rewrite !(proj2 (Hk _)).
    destruct (decide (rSequence (row z0) = rSequence (row g))) as [|Hs]; [done|].
    pose proof (update_flags_cleared g' (global_flags d) z0) as Hc. fold upd in Hc.
    rewrite Hc in Hzf; [done| |done]. cbn. congruence.
Qed.

(** *** Whole tables *)

Definition names (fs : list filesRow) : list bytes := map (fun x => rName (row x)) fs.
Definition absent_or_ok (fs : list filesRow) (m : bytes) : Prop := m ∈ names fs -> ok_name fs m.

Lemma elem_of_names fs m : m ∈ names fs <-> exists x, x ∈ fs /\ rName (row x) = m.
Proof.
  unfold names. rewrite list_elem_of_In, in_map_iff. split; intros (x & H1 & H2); exists x;
    rewrite list_elem_of_In in *; auto.
Qed.

Lemma rows_named_nil n s : rows_named n s = [] <-> n ∉ names (files s).
Proof.
  rewrite elem_of_names. split.
  - intros H (x & Hx & Hn). assert (row x ∈ rows_named n s) as Hin by (apply rows_named_spec; eauto).
    rewrite H in Hin. by apply elem_of_nil in Hin.
  - intros H. destruct (rows_named n s) as [|r l] eqn:E; [done|]. exfalso. apply H.
    assert (r ∈ rows_named n s) as Hin by (rewrite E; apply elem_of_cons; auto).
    apply rows_named_spec in Hin as (x & Hx & <- & Hn). eauto.
Qed.

Lemma globals_ok_alt s :
  globals_ok s <-> NoDup (seqs (files s)) /\ (forall x, x ∈ files s -> rSequence (row x) < next_sequence s) /\
    (forall m, absent_or_ok (files s) m).
Proof.
  unfold globals_ok, absent_or_ok. split; intros (H1 & H2 & H3); (split; [done|split; [done|]]).
  - intros m (x & Hx & <-) %elem_of_names. by apply H3.
  - intros x Hx. apply H3, elem_of_names. eauto.
Qed.

Lemma seq_bound_seqs fs k : (forall x, x ∈ fs -> rSequence (row x) < k) <-> Forall (fun z => z < k) (seqs fs).
Proof.
  unfold seqs. rewrite Forall_map, List.Forall_forall. setoid_rewrite <- list_elem_of_In. done.
Qed.

Lemma recalc_names_ok ns s :
  NoDup (seqs (files s)) ->
  seqs (files (recalc_names SortFunc now ns s)) = seqs (files s) /\
  next_sequence (recalc_names SortFunc now ns s) = next_sequence s /\
  (forall m, m ∈ names (files (recalc_names SortFunc now ns s)) <-> m ∈ names (files s)) /\
  (forall m, m ∈ ns \/ absent_or_ok (files s) m -> absent_or_ok (files (recalc_names SortFunc now ns s)) m).
Proof.
  revert s. induction ns as [|n ns IH]; intros s Hnd; cbn [recalc_names foldl].
  { repeat split; auto. intros m [H|H]; [by apply elem_of_nil in H|done]. }
  fold (recalc_names SortFunc now ns (recalc n s)).
  destruct (recalc_ok n s Hnd) as (H1 & H2 & H3 & H4 & H5). fold (names (files s)) (names (files (recalc n s))) in H3.
  destruct (IH (recalc n s)) as (I1 & I2 & I3 & I4); [by rewrite H1|].
  split; [by rewrite I1|]. split; [by rewrite I2|]. split; [intros m; by rewrite I3|].
  assert (absent_or_ok (files (recalc n s)) n) as Hn.
  { intros Hin. apply H5. rewrite rows_named_nil. apply H3 in Hin. tauto. }
  intros m Hm. apply I4. destruct (decide (m = n)) as [->|Hne]; [auto|].
  destruct Hm as [Hm|Hm]; [left; apply elem_of_cons in Hm as [|]; done|]. right.
  intros Hin. apply H4; [done|]. apply Hm. by apply H3.
Qed.

Lemma recalc_names_globals ns s :
  NoDup (seqs (files s)) -> (forall x, x ∈ files s -> rSequence (row x) < next_sequence s) ->
  (forall m, m ∈ ns \/ absent_or_ok (files s) m) -> globals_ok (recalc_names SortFunc now ns s).
Proof.
  intros Hnd Hb Hm. destruct (recalc_names_ok ns s Hnd) as (H1 & H2 & H3 & H4). apply globals_ok_alt.
  split; [by rewrite H1|]. split; [|auto]. apply seq_bound_seqs. rewrite H1, H2. by apply seq_bound_seqs.
Qed.

(** Dropping rows keeps the keys unique. *)
Lemma drop_files P s x : x ∈ files (drop_rows P s) <-> x ∈ files s /\ P x = false.
Proof. unfold drop_rows. cbn. by rewrite !list_elem_of_In, filter_In, negb_true_iff. Qed.

Lemma filter_map_sublist {A B} (f : A -> B) P l : sublist (map f (List.filter P l)) (map f l).
Proof. induction l as [|x l IH]; cbn; [constructor|]. destruct (P x); cbn; by constructor. Qed.

Lemma drop_seqs P s : NoDup (seqs (files s)) -> NoDup (seqs (files (drop_rows P s))).
Proof. intros H. eapply sublist_NoDup; [exact H|]. apply filter_map_sublist. Qed.

(** A name keeps its global row if that row stays. *)
Lemma ok_name_subset fs fs' m :
  ok_name fs m -> (forall x, x ∈ fs' -> rName (row x) = m -> x ∈ fs) ->
  (exists x, x ∈ fs' /\ rName (row x) = m /\ is_global (row x) = true) -> ok_name fs' m.
Proof.
  intros (g & Hg & Hgn & Hgg & Hall) Hsub (x & Hx & Hxn & Hxg). exists x. split; [done|]. split; [done|]. split; [done|].
  intros y Hy Hyn Hyf. rewrite (Hall y (Hsub y Hy Hyn) Hyn Hyf).
  symmetry. apply (Hall x (Hsub x Hx Hxn) Hxn). by rewrite Hxg.
Qed.

Lemma has_global_spec n fs :
  has_global n fs = true <-> exists x, x ∈ fs /\ rName (row x) = n /\ is_global (row x) = true.
Proof.
  unfold has_global. rewrite existsb_exists. split; intros (x & Hx & H).
  - exists x. rewrite list_elem_of_In. apply andb_true_iff in H as [Hn Hf]. unfold named in Hn. zbool. auto.
  - exists x. rewrite <- list_elem_of_In. split; [done|]. destruct H as [Hn Hf]. unfold named.
    unfold is_global in Hf. by rewrite bool_decide_true, Hf.
Qed.

Lemma recalcGlobalForFolder_ok P s :
  globals_ok s -> globals_ok (recalcGlobalForFolder SortFunc now (drop_rows P s)).
Proof.
  intros H. apply globals_ok_alt in H as (Hnd & Hb & Hok). apply recalc_names_globals.
  - by apply drop_seqs.
  - intros x Hx. apply drop_files in Hx as [Hx _]. by apply Hb.
  - intros m. destruct (has_global m (files (drop_rows P s))) eqn:Hg.
    + right. intros _. apply has_global_spec in Hg as (x & Hx & Hxn & Hxg). apply (ok_name_subset (files s)).
      * apply Hok, elem_of_names. exists x. apply drop_files in Hx as [Hx _]. auto.
      * intros y Hy _. by apply drop_files in Hy as [Hy _].
      * eauto.
    + destruct (decide (m ∈ names (files (drop_rows P s)))) as [Hm|Hm]; [|right; by intros ?]. left.
      apply list_elem_of_In, filter_In. rewrite Hg. split; [|done]. apply list_elem_of_In.
      unfold names_of. by apply elem_of_remove_dups.
Qed.

Section Updates.
Context (NormalizedFilename : bytes -> bytes) (sha256 : bytes -> bytes).

(** The remote sequence number of an entry is not that of another file of the
    same device: a device never reuses a sequence number. *)
Definition fresh_seq (isLocal : bool) (dev : Z) (f : FileInfo) (s : folderDB) : Prop :=
  isLocal = false -> forall y, y ∈ files s -> DeviceIdx (row y) = dev -> remote_sequence y = Some (Sequence f) ->
    rName (row y) = NormalizedFilename (Name f).

Lemma Update_file_ok isLocal dev f s :
  globals_ok s -> fresh_seq isLocal dev f s ->
  globals_ok (Update_file SortFunc now NormalizedFilename sha256 isLocal dev f s).
Proof.
  intros H Hf. apply globals_ok_alt in H as (Hnd & Hb & Hok). unfold Update_file. cbv zeta.
  set (nm := NormalizedFilename (Name f)) in *. set (rseq := if isLocal then None else Some (Sequence f)).
  set (kept := List.filter _ (files s)). match goal with |- context [kept ++ [?y]] => set (x := y) end.
  match goal with |- globals_ok (recalc nm ?t) => set (s1 := t) end.
  assert (forall y, y ∈ kept -> y ∈ files s) as Hk.
  { intros y. unfold kept. rewrite !list_elem_of_In, filter_In. tauto. }
  assert (NoDup (seqs (files s1))) as Hnd1.
  { cbn [files s1]. unfold seqs. rewrite map_app. apply list.NoDup_app. split; [|split].
    - eapply sublist_NoDup; [exact Hnd|]. apply filter_map_sublist.
    - cbn [map]. intros z Hz Hz'. apply list_elem_of_singleton in Hz' as ->.
      apply list_elem_of_In, in_map_iff in Hz as (y & Hy & Hin). apply list_elem_of_In, Hk, Hb in Hin.
      cbn [row x rSequence] in Hy. lia.
    - apply NoDup_singleton. }
  assert (forall y, y ∈ files s1 -> y ∈ kept \/ y = x) as Hin1.
  { cbn [files s1]. intros y. rewrite elem_of_app, list_elem_of_singleton. done. }
  apply (recalc_names_globals [nm] s1 Hnd1).
  - intros y Hy. cbn [next_sequence s1]. apply Hin1 in Hy as [Hy| ->]; [apply Hk, Hb in Hy; lia|cbn; lia].
  - intros m. destruct (decide (m = nm)) as [->|Hne]; [left; apply list_elem_of_singleton; done|]. right.
    intros (y & Hy & Hyn) %elem_of_names.
    assert (forall z, z ∈ files s1 -> rName (row z) = m -> z ∈ files s) as Hsub.
    { intros z Hz Hzn. apply Hin1 in Hz as [Hz| ->]; [by apply Hk|]. by subst m. }
    assert (forall z, z ∈ files s -> rName (row z) = m -> z ∈ files s1) as Hsup.
    { intros z Hz Hzn. cbn [files s1]. apply elem_of_app. left. apply list_elem_of_In, filter_In.
      rewrite <- list_elem_of_In. split; [done|]. apply negb_true_iff. unfold conflicts.
      destruct (Z.eqb_spec (DeviceIdx (row z)) dev) as [Hd|]; [|done]. cbn [andb].
      rewrite bool_decide_false by congruence. cbn [orb]. unfold rseq. destruct isLocal; [done|].
      destruct (remote_sequence z) as [b|] eqn:Er; [|done]. apply Z.eqb_neq. intros <-.
      apply Hne. rewrite <- Hzn. by apply (Hf eq_refl z). }
    assert (ok_name (files s) m) as Hokm by (apply Hok, elem_of_names; eauto).
    apply (ok_name_subset (files s)); [done|done|]. destruct Hokm as (g & Hg & Hgn & Hgg & _). eauto.
Qed.

Fixpoint fresh_seqs (isLocal : bool) (dev : Z) (fs : list FileInfo) (s : folderDB) : Prop :=
  match fs with
  | [] => True
  | f :: fs => fresh_seq isLocal dev f s /\
      fresh_seqs isLocal dev fs (Update_file SortFunc now NormalizedFilename sha256 isLocal dev f s)
  end.

Lemma Update_loop_ok isLocal dev prev fs s :
  globals_ok s -> fresh_seqs isLocal dev fs s ->
  globals_ok (fst (Update_loop SortFunc now NormalizedFilename sha256 isLocal dev prev fs s)).
Proof.
  revert prev s. induction fs as [|f fs IH]; intros prev s Hs Hf; [done|]. cbn [Update_loop].
  case_match; [done|]. destruct Hf as [Hf Hfs].
  destruct (ToWire true f); try done; (apply IH; [by apply Update_file_ok|done]).
Qed.

Lemma folderDB_Update_ok isLocal dev fs s :
  globals_ok s -> fresh_seqs isLocal dev fs s ->
  globals_ok (fst (folderDB_Update SortFunc now NormalizedFilename sha256 isLocal dev fs s)).
Proof.
  intros Hs Hf. unfold folderDB_Update. pose proof (Update_loop_ok isLocal dev None fs s Hs Hf) as H.
  by destruct (Update_loop _ _ _ _ _ _ _ _ _) as [s' [] ].
Qed.

Lemma DropFilesNamed_ok dev ns s :
  globals_ok s -> globals_ok (DropFilesNamed SortFunc now NormalizedFilename dev ns s).
Proof.
  intros H. apply globals_ok_alt in H as (Hnd & Hb & Hok). unfold DropFilesNamed. cbv zeta.
  set (ns' := map NormalizedFilename ns). apply recalc_names_globals.
  - by apply drop_seqs.
  - intros x Hx. apply drop_files in Hx as [Hx _]. by apply Hb.
  - intros m. destruct (decide (m ∈ ns')) as [Hm|Hm]; [by left|]. right.
    intros (y & Hy & Hyn) %elem_of_names. apply drop_files in Hy as [Hy _].
    assert (ok_name (files s) m) as Hokm by (apply Hok, elem_of_names; eauto).
    apply (ok_name_subset (files s)); [done|intros z Hz _; by apply drop_files in Hz as [Hz _]|].
    destruct Hokm as (g & Hg & Hgn & Hgg & _). exists g. split; [|done]. apply drop_files. split; [done|].
    rewrite bool_decide_false, andb_false_r; [done|]. by rewrite Hgn.
Qed.
End Updates.

Lemma recalcAll_ok s :
  NoDup (seqs (files s)) -> (forall x, x ∈ files s -> rSequence (row x) < next_sequence s) ->
  globals_ok (recalcAllGlobalsForFolder SortFunc now s).
Proof.
  intros Hnd Hb. apply recalc_names_globals; [done|done|]. intros m.
  destruct (decide (m ∈ names (files s))) as [Hm|Hm]; [|right; by intros ?]. left. unfold names_of. by apply elem_of_remove_dups.
Qed.
End OneGlobal.

(** ** Which row is chosen *)

Lemma IndexFunc_first {A} (P : A -> bool) l i :
  IndexFunc P l = Some i ->
  exists x, l !! i = Some x /\ P x = true /\ forall j y, (j < i)%nat -> l !! j = Some y -> P y = false.
Proof.
  revert i. induction l as [|x l IH]; intros i; cbn; [done|]. destruct (P x) eqn:Ex.
  - intros [= <-]. exists x. split; [done|]. split; [done|]. intros j y Hj. lia.
  - destruct (IndexFunc P l) as [k|] eqn:E; [|done]. cbn. intros [= <-].
    destruct (IH k eq_refl) as (z & Hz & HP & Hf). exists z. split; [done|]. split; [done|].
    intros [|j] y Hj Hy; [by injection Hy as <-|]. apply (Hf j); [lia|done].
Qed.

Lemma IndexFunc_none {A} (P : A -> bool) l : IndexFunc P l = None -> forall x, x ∈ l -> P x = false.
Proof.
  induction l as [|y l IH]; cbn; [intros _ x H; by apply elem_of_nil in H|]. destruct (P y) eqn:E; [done|].
  destruct (IndexFunc P l); [done|]. intros _ x [->|Hx] %elem_of_cons; [done|by apply IH].
Qed.

Lemma StronglySorted_lookup {A} (R : A -> A -> Prop) l i j x y :
  StronglySorted R l -> l !! i = Some x -> l !! j = Some y -> (i < j)%nat -> R x y.
Proof.
  intros Hs. revert i j. induction Hs as [|z l Hs IH HF]; intros i j Hi Hj Hlt; [done|].
  destruct j as [|j]; [lia|]. destruct i as [|i].
  - injection Hi as ->. rewrite List.Forall_forall in HF. apply HF, list_elem_of_In. by eapply list_elem_of_lookup_2.
  - apply (IH i j); [done..|lia].
Qed.

(** [g] is the best of the valid rows, or of all rows if none is valid. *)
Definition best_row (cmp : fileRow -> fileRow -> Z) (es : list fileRow) (g : fileRow) : Prop :=
  g ∈ es /\ (row_IsInvalid g = true -> forall e, e ∈ es -> row_IsInvalid e = true) /\
  (forall e, e ∈ es -> e <> g -> row_IsInvalid e = row_IsInvalid g -> cmp g e < 0).

(** The local device lacks the global version: its row, if any, comes after
    the global one and has another version, and a missing row does not count
    if the file is deleted. *)
Definition lacks (cmp : fileRow -> fileRow -> Z) (es : list fileRow) (ld : Z) (g : fileRow) : Prop :=
  (forall l, l ∈ es -> DeviceIdx l = ld -> Vector_Equal (rVersion l) (rVersion g) = false /\ cmp g l < 0) /\
  ((forall l, l ∈ es -> DeviceIdx l <> ld) -> rDeleted g = false).

Lemma decide_global_spec cmp es ld :
  StronglySorted (fun a b => cmp a b < 0) es -> (forall a b, cmp b a = - cmp a b) -> es <> [] ->
  NoDup (map DeviceIdx es) ->
  exists d, decide_global ld es = Some d /\ best_row cmp es (d_global d) /\
    (d_hasLocal d = false <-> lacks cmp es ld (d_global d)).
Proof.
  intros Hs Hneg Hne Hnd. unfold decide_global.
  set (gi := default O (IndexFunc (fun e => negb (row_IsInvalid e)) es)).
  assert (exists g, es !! gi = Some g /\
    (row_IsInvalid g = true -> forall e, e ∈ es -> row_IsInvalid e = true) /\
    (forall j e, (j < gi)%nat -> es !! j = Some e -> row_IsInvalid e <> row_IsInvalid g)) as (g & Hg & Hinv & Hfst).
  { unfold gi. destruct (IndexFunc _ es) as [i|] eqn:E; cbn [default].
    - apply IndexFunc_first in E as (g & Hg & Hv & Hf). exists g. apply negb_true_iff in Hv. rewrite Hv.
      split; [done|]. split; [done|]. intros j e Hj He. by rewrite (proj1 (negb_false_iff _) (Hf j e Hj He)).
    - destruct es as [|g es]; [done|]. exists g. split; [done|]. split; [|intros j e; lia].
      intros _ e He. apply negb_false_iff. by apply (IndexFunc_none _ _ E). }
  rewrite Hg. eexists. split; [done|]. cbn [d_global d_hasLocal].
  assert (forall a b, a <> b -> cmp a b < 0 -> ~ cmp b a < 0) as Hanti by (intros a b _ H; rewrite Hneg; lia).
  split.
  { split; [by eapply list_elem_of_lookup_2|]. split; [done|]. intros e He Heg Hv.
    apply list_elem_of_lookup in He as [j Hj]. destruct (Nat.lt_trichotomy gi j) as [H|[H|H]].
    - by apply (StronglySorted_lookup _ _ _ _ _ _ Hs Hg Hj).
    - subst j. congruence.
    - by destruct (Hfst j e H Hj). }
  destruct (IndexFunc (fun e => DeviceIdx e =? ld) es) as [i|] eqn:El.
  - apply IndexFunc_first in El as (l & Hl & Hld & _). zbool. rewrite Hl, orb_false_r.
    assert (forall l', l' ∈ es -> DeviceIdx l' = ld -> l' = l) as Huniq.
    { intros l' Hl' Hd. apply list_elem_of_lookup in Hl' as [k Hk]. assert (k = i) as ->; [|congruence].
      eapply NoDup_lookup; [exact Hnd|rewrite list_lookup_fmap, Hk; done|rewrite list_lookup_fmap, Hl; cbn; congruence]. }
    rewrite orb_false_iff, Nat.leb_gt. unfold lacks. split.
    + intros [Hlt Hv]. split.
      * intros l' Hl' Hd. rewrite (Huniq l' Hl' Hd). split; [done|]. by apply (StronglySorted_lookup _ _ _ _ _ _ Hs Hg Hl).
      * intros H. exfalso. apply (H l); [by eapply list_elem_of_lookup_2|done].
    + intros [H _]. destruct (H l) as [Hv Hc]; [by eapply list_elem_of_lookup_2|done|]. split; [|done].
      destruct (Nat.lt_trichotomy gi i) as [H1|[H1|H1]]; [done| |].
      * subst i. assert (g = l) as -> by congruence. pose proof (Hneg l l). lia.
      * pose proof (StronglySorted_lookup _ _ _ _ _ _ Hs Hl Hg H1) as H2. cbn in H2. rewrite Hneg in H2. lia.
  - pose proof (IndexFunc_none _ _ El) as Hno. cbn [orb andb]. unfold lacks. split.
    + intros Hd. split; [|done]. intros l Hl Hld. apply Hno in Hl. zbool. done.
    + intros [_ H]. apply H. intros l Hl. apply Hno in Hl. by zbool.
Qed.

Definition row_cmp (s : folderDB) (n : bytes) (a b : fileRow) : Z :=
  CompareWithAncestor a b (if useLWWReconciler s then getAncestorLocked n s else None) (useLWWReconciler s).

(** The rows of a name: one per device, and no cycle of wins. *)
Definition rows_ok (s : folderDB) (n : bytes) : Prop :=
  rows_named n s <> [] /\ NoDup (map DeviceIdx (rows_named n s)) /\
  (forall a b c, a ∈ rows_named n s -> b ∈ rows_named n s -> c ∈ rows_named n s ->
     row_cmp s n a b < 0 -> row_cmp s n b c < 0 -> row_cmp s n a c < 0).

Lemma NoDup_map_inv {A B} (f : A -> B) l : NoDup (map f l) -> NoDup l.
Proof.
  induction l as [|x l IH]; cbn; [constructor|]. intros [Hx Hl] %list.NoDup_cons. constructor; [|by apply IH].
  intros H. apply Hx. apply list_elem_of_In, in_map. by apply list_elem_of_In.
Qed.

Lemma rows_strict s n : rows_ok s n -> strict_order_on (row_cmp s n) (rows_named n s).
Proof.
  intros (_ & Hnd & Htr). split; [|exact Htr]. intros a b Ha Hb Hab.
  pose proof (Compare_neg a b (if useLWWReconciler s then getAncestorLocked n s else None) (useLWWReconciler s)) as Hn.
  fold (row_cmp s n a b) (row_cmp s n b a) in Hn.
  destruct (decide (row_cmp s n a b = 0)) as [E|E]; [|lia]. exfalso. apply Compare_zero in E.
  apply list_elem_of_lookup in Ha as [i Hi], Hb as [j Hj]. assert (i = j) as ->; [|congruence].
  eapply NoDup_lookup; [exact Hnd|rewrite list_lookup_fmap, Hi; done|rewrite list_lookup_fmap, Hj; cbn; congruence].
Qed.

Lemma update_flags_version g fl x : rVersion (row (update_flags g fl x)) = rVersion (row x).
Proof. unfold update_flags. cbv zeta. repeat match goal with |- context [if ?b then _ else _] => destruct b end; done. Qed.

Lemma best_row_Permutation cmp l k g : l ≡ₚ k -> best_row cmp l g -> best_row cmp k g.
Proof. intros HP (H1 & H2 & H3). unfold best_row. setoid_rewrite <- HP. auto. Qed.
Lemma lacks_Permutation cmp l k ld g : l ≡ₚ k -> lacks cmp l ld g -> lacks cmp k ld g.
Proof. intros HP (H1 & H2). unfold lacks. setoid_rewrite <- HP. auto. Qed.

(** The recalculation marks the best row. *)
Lemma recalc_selects SortFunc now s n :
  sort_law SortFunc -> NoDup (seqs (files s)) -> rows_ok s n ->
  exists g x, best_row (row_cmp s n) (rows_named n s) g /\
    x ∈ files (recalcGlobalForFile SortFunc now n s) /\ rSequence (row x) = rSequence g /\ rName (row x) = n /\
    rVersion (row x) = rVersion g /\ is_global (row x) = true /\
    (is_needed (row x) = true <-> row_IsInvalid g = false /\ lacks (row_cmp s n) (rows_named n s) (localDeviceIdx s) g).
Proof.
  intros HS Hnd Hok. pose proof Hok as (Hne & Hdev & _).
  destruct (HS (row_cmp s n) (rows_named n s)) as [HP Hsort].
  specialize (Hsort (NoDup_map_inv _ _ Hdev) (rows_strict s n Hok)).
  destruct (decide_global_spec (row_cmp s n) (SortFunc (row_cmp s n) (rows_named n s)) (localDeviceIdx s))
    as (d & Hd & Hbest & Hlack); [done|intros a b; apply Compare_neg| |by rewrite HP|].
  { intros E. rewrite E in HP. by apply Hne, Permutation_nil. }
  destruct (recalc_files SortFunc now (fun cmp l => proj1 (HS cmp l)) n s Hne) as (d' & g & Hd' & Hg & Hr & Hgn & Hf & _).
  unfold row_cmp in Hd. rewrite Hd in Hd'. injection Hd' as <-.
  exists (d_global d). set (upd := update_flags _ _) in Hf. exists (upd g).
  split; [eapply best_row_Permutation; [exact HP|exact Hbest]|].
  split; [rewrite Hf; apply list_elem_of_In, in_map; by apply list_elem_of_In|].
  destruct (update_flags_keys (set_rLocalFlags (global_flags d) (row g)) (global_flags d) g) as (K1 & K2 & _).
  fold upd in K1, K2. split; [by rewrite K2, Hr|]. split; [by rewrite K1|].
  destruct (global_flags_spec d) as (F1 & F2 & _).
  assert (rLocalFlags (row (upd g)) = global_flags d) as Hfl by (unfold upd; by rewrite update_flags_global).
  split; [unfold upd; by rewrite update_flags_version, Hr|].
  split; [unfold is_global; by rewrite Hfl|]. unfold is_needed. rewrite Hfl, F2, andb_true_iff, !negb_true_iff, Hlack.
  unfold row_IsInvalid. rewrite (and_comm (lacks _ _ _ _)). apply and_iff_compat_l.
  split; apply lacks_Permutation; [exact HP|symmetry; exact HP].
Qed.

(** ** Main theorems *)

(** C4: The operations on the folder database keep its invariant: the sequence
    numbers are unique and below the next one, every file name has exactly one
    row with the global flag, and no other row of it has the need flag.
    [DropAllFiles], [DropDevice], [DropFilesNamed] and switching the reconciler
    keep it without a condition.  [Update] keeps it, with any outcome, on the
    condition that the sequence numbers that come with the files of a remote
    device are not in the table for another file of that device
    ([fresh_seqs]; always true of the local device).  The condition is needed:
    [reused_sequence_loses_global]. *)
Theorem globals_invariant SortFunc now NormalizedFilename sha256 s
    (HS : forall cmp l, SortFunc cmp l ≡ₚ l) (H : globals_ok s) :
  (forall isLocal dev fs, fresh_seqs SortFunc now NormalizedFilename sha256 isLocal dev fs s ->
     globals_ok (fst (folderDB_Update SortFunc now NormalizedFilename sha256 isLocal dev fs s))) /\
  (forall dev, globals_ok (DropAllFiles SortFunc now dev s)) /\
  (forall isLocal dev, globals_ok (fst (DropDevice SortFunc now isLocal dev s))) /\
  (forall dev ns, globals_ok (DropFilesNamed SortFunc now NormalizedFilename dev ns s)) /\
  (forall b, globals_ok (SetFolderLWWReconciler SortFunc now b s)).
Proof.
  split; [|split; [|split; [|split] ] ].
  - intros isLocal dev fs Hf. by apply folderDB_Update_ok.
  - intros dev. unfold DropAllFiles. destruct (existsb _ _); cbn [negb]; [|done]. by apply recalcGlobalForFolder_ok.
  - intros [] dev; [done|]. by apply recalcGlobalForFolder_ok.
  - intros dev ns. by apply DropFilesNamed_ok.
  - intros b. apply globals_ok_alt in H as (H1 & H2 & _). by apply recalcAll_ok.
Qed.

(** C31: The recalculation of a file's global state gives the global flag to the
    best of its rows (the best valid one, or if none is valid the best of all),
    keeps that row's version, and marks it as needed if and only if it is valid
    and the local device lacks it (it has another, lesser version, or no row
    while the file is not deleted). *)
Theorem recalc_marks_best SortFunc now s n
    (HS : sort_law SortFunc) (Hnd : NoDup (seqs (files s))) (Hok : rows_ok s n) :
  exists g x, best_row (row_cmp s n) (rows_named n s) g /\
    x ∈ files (recalcGlobalForFile SortFunc now n s) /\ rSequence (row x) = rSequence g /\ rName (row x) = n /\
    rVersion (row x) = rVersion g /\ is_global (row x) = true /\
    (is_needed (row x) = true <-> row_IsInvalid g = false /\ lacks (row_cmp s n) (rows_named n s) (localDeviceIdx s) g).
Proof. exact (recalc_selects SortFunc now s n HS Hnd Hok). Qed.

(** *** Agreement *)

(** The same file at the same device, under another numbering of devices and
    sequences. *)
Definition same_file (a b : fileRow) : Prop :=
  rVersion b = rVersion a /\ Modified b = Modified a /\ row_IsInvalid b = row_IsInvalid a.

(** Two databases that hold the same rows of a name. *)
Definition same_rows (n : bytes) (s s' : folderDB) : Prop :=
  exists rho, rows_named n s' ≡ₚ map rho (rows_named n s) /\ forall a, a ∈ rows_named n s -> same_file a (rho a).

Lemma row_cmp_plain s n a b : useLWWReconciler s = false -> row_cmp s n a b = row_Compare a b.
Proof. intros H. unfold row_cmp. by rewrite H. Qed.

Lemma best_rows_agree n s s' g g' :
  useLWWReconciler s = false -> useLWWReconciler s' = false -> same_rows n s s' ->
  best_row (row_cmp s n) (rows_named n s) g -> best_row (row_cmp s' n) (rows_named n s') g' ->
  Vector_Equal (rVersion g) (rVersion g') = true.
Proof.
  intros HL HL' (rho & HP & Hrho) (Hg & Hinv & Hbest) (Hg' & Hinv' & Hbest').
  assert (forall a, a ∈ rows_named n s' <-> exists b, b ∈ rows_named n s /\ a = rho b) as Hin.
  { intros a. rewrite HP, list_elem_of_In, in_map_iff. setoid_rewrite <- list_elem_of_In. split; intros (b & H1 & H2); eauto. }
  apply Hin in Hg' as (b & Hb & ->). destruct (Hrho b Hb) as (Vb & Mb & Ib), (Hrho g Hg) as (Vg & Mg & Ig).
  rewrite Vb. destruct (Vector_Equal (rVersion g) (rVersion b)) eqn:E; [done|]. exfalso.
  assert (Compare (rVersion g) (rVersion b) <> Equal) as Hne.
  { intros H. unfold Vector_Equal in E. by rewrite H in E. }
  assert (rho g ∈ rows_named n s') as Hrg by (apply Hin; eauto).
  assert (row_IsInvalid b = row_IsInvalid g) as Hi.
  { destruct (row_IsInvalid g) eqn:E1; [by apply Hinv|]. destruct (row_IsInvalid b) eqn:E2; [|done].
    pose proof (Hinv' Ib (rho g) Hrg) as H. by rewrite Ig in H. }
  assert (b <> g) as Hbg by (intros ->; by rewrite Vector_Equal_refl in E).
  pose proof (Hbest b Hb Hbg Hi) as H1. rewrite row_cmp_plain in H1 by done.
  assert (rho g <> rho b) as Hrr.
  { intros H. rewrite <- Vb, <- H, Vg, Vector_Equal_refl in E. done. }
  assert (row_IsInvalid (rho g) = row_IsInvalid (rho b)) as Hir by congruence.
  pose proof (Hbest' (rho g) Hrg Hrr Hir) as H2. rewrite row_cmp_plain in H2 by done.
  pose proof (Compare_neg (rho b) (rho g) None false) as H3. fold (row_Compare (rho b) (rho g)) (row_Compare (rho g) (rho b)) in H3.
  rewrite (Compare_numbering g b (rho g) (rho b)) in H3 by done. lia.
Qed.

(** The row with the global flag after a recalculation is the best one. *)
Lemma recalc_global_unique SortFunc now s n y :
  sort_law SortFunc -> NoDup (seqs (files s)) -> rows_ok s n ->
  y ∈ files (recalcGlobalForFile SortFunc now n s) -> rName (row y) = n -> is_global (row y) = true ->
  exists g, best_row (row_cmp s n) (rows_named n s) g /\ rVersion (row y) = rVersion g.
Proof.
  intros HS Hnd Hok Hy Hyn Hyg. destruct (recalc_selects SortFunc now s n HS Hnd Hok) as (g & x & Hb & Hx & Hs & Hxn & Hv & Hxg & _).
  exists g. split; [done|]. rewrite <- Hv. do 2 f_equal.
  destruct (recalc_ok SortFunc now (fun cmp l => proj1 (HS cmp l)) n s Hnd) as (Hsq & _ & _ & _ & Ho).
  apply (NoDup_seqs_eq (files (recalcGlobalForFile SortFunc now n s))); [by rewrite Hsq|done|done|].
  destruct (Ho (proj1 Hok)) as (z & _ & _ & _ & Hall).
  rewrite (Hall y Hy Hyn), (Hall x Hx Hxn); [done| |]; by rewrite ?Hyg, ?Hxg.
Qed.

(** C8: Without the reconciler devices agree: if two databases hold the same
    rows of a file, each under its own numbering of the devices and sequences
    and in its own order, the rows they mark as global have equal versions.
    The condition is that each table has at most one row per device for the
    file and that the order of these rows has no cycle ([rows_ok]); it can have
    one ([Compare_cycle]), and then what sorting gives is not fixed. *)
Theorem globals_agree SortFunc now SortFunc' now' n s s' x x'
    (HS : sort_law SortFunc) (HS' : sort_law SortFunc')
    (Hnd : NoDup (seqs (files s))) (Hnd' : NoDup (seqs (files s')))
    (Hok : rows_ok s n) (Hok' : rows_ok s' n)
    (HL : useLWWReconciler s = false) (HL' : useLWWReconciler s' = false) (Hsame : same_rows n s s')
    (Hx : x ∈ files (recalcGlobalForFile SortFunc now n s)) (Hxn : rName (row x) = n) (Hxg : is_global (row x) = true)
    (Hx' : x' ∈ files (recalcGlobalForFile SortFunc' now' n s')) (Hxn' : rName (row x') = n)
    (Hxg' : is_global (row x') = true) :
  Vector_Equal (rVersion (row x)) (rVersion (row x')) = true.
Proof.
  destruct (recalc_global_unique SortFunc now s n x) as (g & Hg & ->); [done..|].
  destruct (recalc_global_unique SortFunc' now' s' n x') as (g' & Hg' & ->); [done..|].
  by apply (best_rows_agree n s s').
Qed.

(** *** The reconciler *)

(** In a conflict (concurrent versions, both valid) the reconciler decides
    by the ancestor: a row that differs from it wins over one that does not; if
    both or neither differ, an existing file wins over a deleted one and of two
    existing files with other contents the one modified later wins. *)
Theorem reconciler_decides e o anc
    (Hc : Compare (rVersion e) (rVersion o) = ConcurrentGreater \/ Compare (rVersion e) (rVersion o) = ConcurrentLesser)
    (Hi : row_IsInvalid e = row_IsInvalid o) :
  (rowMatchesAncestor e anc = false -> rowMatchesAncestor o anc = true -> CompareWithAncestor e o anc true = -1) /\
  (rowMatchesAncestor e anc = rowMatchesAncestor o anc ->
     (rDeleted e = false -> rDeleted o = true -> CompareWithAncestor e o anc true = -1) /\
     (rDeleted e = false -> rDeleted o = false -> Modified o < Modified e -> CompareWithAncestor e o anc true = -1)).
Proof.
  assert (CompareWithAncestor e o anc true =
          let l := compareLWWAncestor e o anc in
          if negb (l =? 0) then l
          else
            let d := cmp_Compare (Modified e) (Modified o) in
            if negb (d =? 0) then - d
            else match Compare (rVersion e) (rVersion o) with ConcurrentGreater => -1 | _ => 1 end) as ->.
  { unfold CompareWithAncestor. destruct Hc as [-> | ->]; rewrite Hi, eqb_reflx; reflexivity. }
  unfold compareLWWAncestor. split; [intros -> ->; reflexivity|]. intros ->.
  assert (forall b, b && negb b = false /\ negb b && b = false) as Hb by (by intros []).
  rewrite (proj1 (Hb _)), (proj2 (Hb _)). unfold rowsEqualByAncestorMetadata. split; intros -> ->; [reflexivity|].
  intros Hlt. cbn [andb negb eqb].
  destruct (cmp_Compare_spec (Modified e) (Modified o)) as [ [? ->] |[ [? ->] |[? ->] ] ]; [lia..|].
  rewrite (proj2 (Z.eqb_neq (Modified e) _)) by lia. reflexivity.
Qed.

(** *** Examples *)

Definition ex_row (dev seq mod_ : Z) (v : list (Z * Z)) (bh : bytes) : fileRow :=
  {| rName := [x61]; rVersion := {| Counters := map (fun p => {| ID := p.1; Value := p.2 |}) v |};
     DeviceIdx := dev; rSequence := seq; Modified := mod_; rSize := 1; BlocklistHash := bh; rLocalFlags := 0;
     rDeleted := false |}.
Definition ex_info : FileInfo :=
  {| Name := [x61]; FSize := 1; ModifiedS := 5; ModifiedBy := 1; Version := {| Counters := [] |}; Sequence := 7;
     Blocks := []; SymlinkTarget := []; BlocksHash := []; PreviousBlocksHash := []; Encrypted := [];
     Platform := {| Unix := None; Windows := None; Linux := None; Darwin := None; FreeBSD := None; NetBSD := None |}; Type_ := 0; Permissions := 420; ModifiedNs := 0; RawBlockSize := 0; LocalFlags := 0;
     EncryptionTrailerSize := 0; Deleted := false; NoPermissions := false; truncated := false |}.
Definition ex_db (lww : bool) (rs : list fileRow) : folderDB :=
  {| files := map (fun r => {| row := r; rType := 0; remote_sequence := Some (rSequence r); fiprotobuf := ex_info |}) rs;
     next_sequence := 10; blocklists := ∅; ancestor_entries := ∅; useLWWReconciler := lww; localDeviceIdx := 1 |}.

(** Decides the side conditions of the main theorems. *)
Definition rows_okb (s : folderDB) (n : bytes) : bool :=
  let l := rows_named n s in
  negb (is_nil l) && bool_decide (NoDup (map DeviceIdx l)) &&
  forallb (fun a => forallb (fun b => forallb (fun c =>
    implb (row_cmp s n a b <? 0) (implb (row_cmp s n b c <? 0) (row_cmp s n a c <? 0))) l) l) l.

Lemma rows_okb_ok s n : rows_okb s n = true -> rows_ok s n.
Proof.
  unfold rows_okb, rows_ok. cbv zeta. rewrite !andb_true_iff, bool_decide_eq_true, negb_true_iff. intros [ [Hne Hnd] Hf].
  split; [by destruct (rows_named n s)|]. split; [done|]. intros a b c Ha Hb Hc H1 H2.
  apply list_elem_of_In in Ha, Hb, Hc. rewrite forallb_forall in Hf. specialize (Hf a Ha).
  rewrite forallb_forall in Hf. specialize (Hf b Hb). rewrite forallb_forall in Hf. specialize (Hf c Hc).
  apply Z.ltb_lt in H1, H2. rewrite H1, H2 in Hf. cbn in Hf. by apply Z.ltb_lt.
Qed.

(** Two devices, [a] and [b], that changed the same file at the same time. *)
Definition ex_a : list (Z * Z) := [(1, 1)].
Definition ex_b : list (Z * Z) := [(2, 1)].
Definition at_a (lww : bool) : folderDB := ex_db lww [ex_row 1 1 100 ex_a [x00]; ex_row 2 2 100 ex_b [x01] ].
Definition at_b (lww : bool) : folderDB := ex_db lww [ex_row 2 1 100 ex_a [x00]; ex_row 1 2 100 ex_b [x01] ].

Definition renumber (r : fileRow) : fileRow :=
  if DeviceIdx r =? 1 then set_rLocalFlags (rLocalFlags r) (ex_row 2 1 100 ex_a [x00]) else ex_row 1 2 100 ex_b [x01].

Lemma at_a_b_same lww : same_rows [x61] (at_a lww) (at_b lww).
Proof.
  exists renumber. split; [by destruct lww|]. intros r Hr.
  assert (r ∈ [ex_row 1 1 100 ex_a [x00]; ex_row 2 2 100 ex_b [x01] ]) as H by (by destruct lww).
  apply elem_of_cons in H as [->|H]; [done|]. by apply list_elem_of_singleton in H as ->.
Qed.

Definition global_versions (s : folderDB) (n : bytes) : list Vector :=
  map (fun x => rVersion (row x))
    (List.filter (fun x => named n x && is_global (row x)) (files (recalcGlobalForFile (@insertionSort fileRow) 0 n s))).

(** With the reconciler the two devices never agree: neither file matches an
    ancestor, both have the same modification time, and the tie is broken by
    the device index, by which the local device always comes first. *)
Lemma reconciler_disagrees :
  same_rows [x61] (at_a true) (at_b true) /\ rows_ok (at_a true) [x61] /\ rows_ok (at_b true) [x61] /\
  global_versions (at_a true) [x61] = [ {| Counters := [ {| ID := 1; Value := 1 |} ] |} ] /\
  global_versions (at_b true) [x61] = [ {| Counters := [ {| ID := 2; Value := 1 |} ] |} ].
Proof.
  split; [apply at_a_b_same|]. split; [apply rows_okb_ok; vm_compute; reflexivity|].
  split; [apply rows_okb_ok; vm_compute; reflexivity|]. split; vm_compute; reflexivity.
Qed.

(** The comparison can have cycles, so sorting need not find a best row: the
    second row below is newer than the first, the third wins the conflict with
    the second and the first the one with the third. *)
Lemma Compare_cycle :
  let a := ex_row 1 1 1 [(1, 2)] [] in let b := ex_row 2 2 3 [(1, 1)] [] in let c := ex_row 3 3 2 [(2, 1)] [] in
  row_Compare a b < 0 /\ row_Compare b c < 0 /\ row_Compare c a < 0.
Proof. vm_compute. auto. Qed.

(** A device that reuses a sequence number for another file: the row of the
    other file goes, and with it the global flag of that name. *)
Lemma reused_sequence_loses_global :
  let s := ex_db false [set_rLocalFlags FlagLocalGlobal (ex_row 2 7 100 ex_b []); ex_row 1 2 50 [] [] ] in
  let s' := fst (folderDB_Update (@insertionSort fileRow) 0 (fun n => x62 :: n) (fun b => b) false 2 [ex_info] s) in
  GetGlobalFile (fun n => n) [x61] s <> None /\ GetGlobalFile (fun n => n) [x61] s' = None /\
  rows_named [x61] s' = [ex_row 1 2 50 [] [] ].
Proof. cbv zeta. split; [by vm_compute|]. split; by vm_compute. Qed.

(** *** Witnesses *)

Definition ex_empty : folderDB := ex_db false [].
Lemma ex_empty_ok : globals_ok ex_empty.
Proof. split; [constructor|]. split; intros x Hx; by apply elem_of_nil in Hx. Qed.

Lemma globals_invariant_witness :
  globals_ok (fst (folderDB_Update (@insertionSort fileRow) 0 (fun n => n) (fun b => b) false 2 [ex_info] ex_empty)) /\
  length (files (fst (folderDB_Update (@insertionSort fileRow) 0 (fun n => n) (fun b => b) false 2 [ex_info] ex_empty))) = 1%nat.
Proof.
  split; [|vm_compute; reflexivity].
  refine (proj1 (globals_invariant (@insertionSort fileRow) 0 (fun n => n) (fun b => b) ex_empty _ _) false 2 [ex_info] _).
  - intros cmp l. apply insertionSort_perm.
  - exact ex_empty_ok.
  - split; [|exact I]. intros _ y Hy. by apply elem_of_nil in Hy.
Defined.

Lemma recalc_marks_best_witness :
  exists g x, best_row (row_cmp (at_a false) [x61]) (rows_named [x61] (at_a false)) g /\
    x ∈ files (recalcGlobalForFile (@insertionSort fileRow) 0 [x61] (at_a false)) /\
    rSequence (row x) = rSequence g /\ rName (row x) = [x61] /\
    rVersion (row x) = rVersion g /\ is_global (row x) = true /\
    (is_needed (row x) = true <-> row_IsInvalid g = false /\
       lacks (row_cmp (at_a false) [x61]) (rows_named [x61] (at_a false)) (localDeviceIdx (at_a false)) g).
Proof.
  apply (recalc_marks_best (@insertionSort fileRow) 0 (at_a false) [x61]).
  - apply insertionSort_law.
  - apply (bool_decide_unpack _). vm_compute. exact I.
  - apply rows_okb_ok. vm_compute. reflexivity.
Defined.

Definition ex_global (s : folderDB) (seq : Z) (ver : list (Z * Z)) (d : Z) (bh : bytes) (fl : Z) : filesRow :=
  {| row := set_rLocalFlags fl (ex_row d seq 100 ver bh); rType := 0; remote_sequence := Some seq; fiprotobuf := ex_info |}.

Lemma globals_agree_witness :
  let x := ex_global (at_a false) 1 ex_a 1 [x00] FlagLocalGlobal in
  let x' := ex_global (at_b false) 1 ex_a 2 [x00] (Z.lor FlagLocalGlobal FlagLocalNeeded) in
  Vector_Equal (rVersion (row x)) (rVersion (row x')) = true.
Proof.
  cbv zeta.
  apply (globals_agree (@insertionSort fileRow) 0 (@insertionSort fileRow) 3 [x61] (at_a false) (at_b false)).
  - apply insertionSort_law.
  - apply insertionSort_law.
  - apply (bool_decide_unpack _). vm_compute. exact I.
  - apply (bool_decide_unpack _). vm_compute. exact I.
  - apply rows_okb_ok. vm_compute. reflexivity.
  - apply rows_okb_ok. vm_compute. reflexivity.
  - reflexivity.
  - reflexivity.
  - apply at_a_b_same.
  - apply list_elem_of_lookup. exists O. vm_compute. reflexivity.
  - reflexivity.
  - vm_compute. reflexivity.
  - apply list_elem_of_lookup. exists O. vm_compute. reflexivity.
  - reflexivity.
  - vm_compute. reflexivity.
Defined.

Lemma reconciler_decides_witness :
  let e := ex_row 1 1 100 ex_a [x00] in let o := ex_row 2 2 50 ex_b [x01] in
  (rowMatchesAncestor e None = false -> rowMatchesAncestor o None = true -> CompareWithAncestor e o None true = -1) /\
  (rowMatchesAncestor e None = rowMatchesAncestor o None ->
     (rDeleted e = false -> rDeleted o = true -> CompareWithAncestor e o None true = -1) /\
     (rDeleted e = false -> rDeleted o = false -> Modified o < Modified e -> CompareWithAncestor e o None true = -1)).
Proof. apply reconciler_decides; [vm_compute; auto|reflexivity]. Defined.
