(* ===== verification/PullState.v ===== *)
(** * The state of a file being assembled (lib/model/sharedpullerstate.go, util.go)

    The temporary file, the counters of pending copies and pulls, the first
    error, and the final close.  A file system is an instance of [Filesystem];
    what the theorems need of one are the laws of [FilesystemLaws]. *)
From Stdlib Require Import ZArith List Lia.
From Stdlib Require Import Strings.Byte.
From stdpp Require Import base list option gmap numbers tactics.
From S2P Require Import Prelude GoLib Vector FileInfo FileInfoWire.

#[local] Open Scope Z_scope.

(** ** File systems *)

(** An operation on a world: it returns a value or an error. *)
Definition op (W E A : Type) : Type := W -> W * (E + A).

(** The methods of [fs.Filesystem] and [fs.File] that are called on a temporary
    file, and the parts of package [errors] that are used. *)
Class Filesystem (W Fd E : Type) := {
  fs_Stat : bytes -> op W E (bool * Z); (* IsDir, Mode *)
  fs_Chmod : bytes -> Z -> op W E unit;
  fs_OpenFile : bytes -> Z -> Z -> op W E Fd;
  fs_Hide : bytes -> op W E unit;
  fs_Unhide : bytes -> op W E unit;
  fs_Remove : bytes -> op W E unit;
  fd_Truncate : Fd -> Z -> op W E unit;
  fd_WriteAt : Fd -> bytes -> Z -> op W E unit;
  fd_Sync : Fd -> op W E unit;
  fd_Close : Fd -> op W E unit;
  IsPermission : E -> bool;
  IsCanceled : E -> bool; (* context.Canceled, context.DeadlineExceeded *)
  errors_New : bytes -> E;
  Errorf : bytes -> E -> E (* a prefix and a wrapped error *) }.

(** The part of a file's content from [off], [n] bytes long at most; the
    content after a write at [off] and after a change of the size, both of
    which fill holes with zeroes. *)
Definition sub (c : bytes) (off n : Z) : bytes := take (Z.to_nat n) (drop (Z.to_nat off) c).
Definition zeroes (n : Z) : bytes := replicate (Z.to_nat n) x00.
Definition splice (c : bytes) (off : Z) (d : bytes) : bytes :=
  take (Z.to_nat off) (c ++ zeroes (off - zlen c)) ++ d ++ drop (Z.to_nat off + length d) c.
Definition resize (c : bytes) (n : Z) : bytes := take (Z.to_nat n) (c ++ zeroes (n - zlen c)).

Definition OptReadWrite : Z := 2.
Definition OptCreate : Z := 64.
Definition OptExclusive : Z := 128.

(** What the operations do to the contents on disk, by name, as long as nothing
    else touches the files. *)
Class FilesystemLaws (W Fd E : Type) `{Filesystem W Fd E} := {
  disk : W -> bytes -> option bytes;
  fd_name : Fd -> bytes;
  Stat_disk n w : disk (fs_Stat n w).1 = disk w;
  Chmod_disk n m w : disk (fs_Chmod n m w).1 = disk w;
  Hide_disk n w : disk (fs_Hide n w).1 = disk w;
  Unhide_disk n w : disk (fs_Unhide n w).1 = disk w;
  Sync_disk fd w : disk (fd_Sync fd w).1 = disk w;
  Close_disk fd w : disk (fd_Close fd w).1 = disk w;
  Remove_disk n w : disk (fs_Remove n w).1 n = None \/ disk (fs_Remove n w).1 n = disk w n;
  Open_ok n fl m w w' fd : fs_OpenFile n fl m w = (w', inr fd) ->
    fd_name fd = n /\ exists c, disk w' n = Some c /\ if Z.testbit fl 7 then c = [] else disk w n = Some c;
  Open_err n fl m w w' e : Z.testbit fl 6 = false -> fs_OpenFile n fl m w = (w', inl e) -> disk w' = disk w;
  Truncate_ok fd n w w' c : fd_Truncate fd n w = (w', inr tt) -> disk w (fd_name fd) = Some c ->
    disk w' (fd_name fd) = Some (resize c n);
  Truncate_err fd n w w' e : fd_Truncate fd n w = (w', inl e) -> disk w' = disk w;
  WriteAt_ok fd d off w w' c : fd_WriteAt fd d off w = (w', inr tt) -> 0 <= off -> disk w (fd_name fd) = Some c ->
    disk w' (fd_name fd) = Some (splice c off d) }.

(** ** The state *)

Section PullState.
Context {W Fd E : Type} {FS : Filesystem W Fd E}.

Record sharedPullerState :=
  { file : FileInfo; tempName : bytes; realName : bytes; reused : Z; ignorePerms : bool; hasCurFile : bool;
    curFile : FileInfo; curFileBlocks : gmap bytes Z; sparse : bool; created : GoTime; fsync : bool;
    err : option E; writer : option Fd; copyTotal : Z; pullTotal : Z; copyOrigin : Z; copyNeeded : Z;
    pullNeeded : Z; updated : GoTime; closed : bool; available : list Z; availableUpdated : GoTime }.

(** The mutable fields. *)
Definition set_file (f : FileInfo) (s : sharedPullerState) : sharedPullerState :=
  {| file := f; tempName := tempName s; realName := realName s; reused := reused s; ignorePerms := ignorePerms s;
     hasCurFile := hasCurFile s; curFile := curFile s; curFileBlocks := curFileBlocks s; sparse := sparse s;
     created := created s; fsync := fsync s; err := err s; writer := writer s; copyTotal := copyTotal s;
     pullTotal := pullTotal s; copyOrigin := copyOrigin s; copyNeeded := copyNeeded s; pullNeeded := pullNeeded s;
     updated := updated s; closed := closed s; available := available s; availableUpdated := availableUpdated s |}.
Definition set_status (e : option E) (w : option Fd) (c : bool) (s : sharedPullerState) : sharedPullerState :=
  {| file := file s; tempName := tempName s; realName := realName s; reused := reused s; ignorePerms := ignorePerms s;
     hasCurFile := hasCurFile s; curFile := curFile s; curFileBlocks := curFileBlocks s; sparse := sparse s;
     created := created s; fsync := fsync s; err := e; writer := w; copyTotal := copyTotal s;
     pullTotal := pullTotal s; copyOrigin := copyOrigin s; copyNeeded := copyNeeded s; pullNeeded := pullNeeded s;
     updated := updated s; closed := c; available := available s; availableUpdated := availableUpdated s |}.
Definition set_counters (ct pt co cn pn : Z) (now : GoTime) (s : sharedPullerState) : sharedPullerState :=
  {| file := file s; tempName := tempName s; realName := realName s; reused := reused s; ignorePerms := ignorePerms s;
     hasCurFile := hasCurFile s; curFile := curFile s; curFileBlocks := curFileBlocks s; sparse := sparse s;
     created := created s; fsync := fsync s; err := err s; writer := writer s; copyTotal := ct;
     pullTotal := pt; copyOrigin := co; copyNeeded := cn; pullNeeded := pn;
     updated := now; closed := closed s; available := available s; availableUpdated := availableUpdated s |}.
Definition set_available (a : list Z) (now : GoTime) (s : sharedPullerState) : sharedPullerState :=
  {| file := file s; tempName := tempName s; realName := realName s; reused := reused s; ignorePerms := ignorePerms s;
     hasCurFile := hasCurFile s; curFile := curFile s; curFileBlocks := curFileBlocks s; sparse := sparse s;
     created := created s; fsync := fsync s; err := err s; writer := writer s; copyTotal := copyTotal s;
     pullTotal := pullTotal s; copyOrigin := copyOrigin s; copyNeeded := copyNeeded s; pullNeeded := pullNeeded s;
     updated := updated s; closed := closed s; available := a; availableUpdated := now |}.

(** The map of the blocks of the current file by hash; a later block of the
    same hash replaces an earlier one. *)
Definition blocksMap_of (bs : list BlockInfo) : gmap bytes Z :=
  foldl (fun m p => <[Hash p.2 := Z.of_nat p.1]> m) ∅ (zip (seq 0 (length bs)) bs).

Definition newSharedPullerState (now : GoTime) (f : FileInfo) (temp : bytes) (blocks : list BlockInfo)
    (reused_ : list Z) (ignPerms hasCur : bool) (cur : FileInfo) (sp fsy : bool) : sharedPullerState :=
  {| file := f; tempName := temp; realName := Name f; reused := zlen reused_; ignorePerms := ignPerms;
     hasCurFile := hasCur; curFile := cur; curFileBlocks := blocksMap_of (Blocks cur); sparse := sp; created := now;
     fsync := fsy; err := None; writer := None; copyTotal := zlen blocks; pullTotal := 0; copyOrigin := 0;
     copyNeeded := zlen blocks; pullNeeded := 0; updated := now; closed := false; available := reused_;
     availableUpdated := now |}.

(** ** The temporary file *)

(** [filepath.Dir] *)
Context (Dir : bytes -> bytes).
(** [proto.Size] and the encoding of the message, of that size. *)
Context (protoSize : bep_FileInfo -> Z) (marshal : bep_FileInfo -> E + bytes).
(** [osutil.NormalizedFilename] *)
Context (NormalizedFilename : bytes -> bytes).

(** [inWritableDir]; the mode of the directory is restored afterwards, a
    failure to do so is only logged. *)
Definition permBits : Z := 511 + 8388608 + 4194304 + 1048576.
Definition inWritableDir {A} (fn : op W E A) (path : bytes) : op W E A := fun w =>
  let dir := Dir path in
  match fs_Stat dir w with
  | (w, inl e) => (w, inl e)
  | (w, inr (isDir, mode)) =>
      if negb isDir then (w, inl (errors_New (gostr "Not a directory: " ++ path)))
      else
        let mode := Z.land mode permBits in
        let '(w, parentErr, restore) :=
          if Z.land mode 128 =? 0 then
            match fs_Chmod dir (Z.lor mode 448) w with
            | (w, inl e) => (w, Some e, false)
            | (w, inr _) => (w, None, true)
            end
          else (w, None, false) in
        let '(w, r) := fn w in
        let r :=
          match r, parentErr with
          | inl e, Some _ =>
              if IsPermission e then inl (Errorf (gostr "error after failing to make parent directory writable") e) else r
          | _, _ => r
          end in
        let w := if restore then (fs_Chmod dir mode w).1 else w in
        (w, r)
  end.

(** [encryptionTrailerSize]; [ToWire] panics on a truncated file, which none
    is that is pulled. *)
Definition encryptionTrailerSize (f : FileInfo) : Z :=
  match ToWire false f with Ret w => protoSize w + 4 | _ => 0 end.

(** [tempFileInWritableDir]: opens the temporary file. *)
Definition tempFileInWritableDir (s : sharedPullerState) : op W E Fd := fun w =>
  let mode := if ignorePerms s then 438 else Z.lor (u32 (Permissions (file s))) 384 in
  let flags := if reused s =? 0 then Z.lor OptReadWrite (Z.lor OptCreate OptExclusive) else OptReadWrite in
  let '(w, r) :=
    if (reused s =? 0) || ignorePerms s then (w, inr tt) else fs_Chmod (tempName s) mode w in
  match r with
  | inl e => (w, inl (Errorf (gostr "setting perms on temp file") e))
  | inr _ =>
      match fs_OpenFile (tempName s) flags mode w with
      | (w, inl e) => (w, inl (Errorf (gostr "opening temp file") e))
      | (w, inr fd) =>
          let w := (fs_Hide (tempName s) w).1 in
          if sparse s && negb (IsSymlink (file s)) then
            let sz := if negb (is_nil (Encrypted (file s))) then FSize (file s) + encryptionTrailerSize (file s)
                      else FSize (file s) in
            match fd_Truncate fd sz w with
            | (w, inr _) => (w, inr fd)
            | (w, inl e) =>
                if 0 <? reused s then
                  let w := (fd_Close fd w).1 in
                  ((fs_Remove (tempName s) w).1, inl e)
                else (w, inr fd)
            end
          else (w, inr fd)
      end
  end.

Definition addWriterLocked (s : sharedPullerState) (w : W) : (sharedPullerState * W) * option E :=
  match inWritableDir (tempFileInWritableDir s) (tempName s) w with
  | (w, inr fd) => ((set_status (err s) (Some fd) (closed s) s, w), None)
  | (w, inl e) => ((s, w), Some e)
  end.

Definition failLocked (e : option E) (s : sharedPullerState) : sharedPullerState :=
  match err s, e with
  | None, Some e => set_status (Some e) (writer s) (closed s) s
  | _, _ => s
  end.

Definition tempFile (s : sharedPullerState) (w : W) : (sharedPullerState * W) * (E + Fd) :=
  match err s, writer s with
  | Some e, _ => ((s, w), inl e)
  | None, Some fd => ((s, w), inr fd)
  | None, None =>
      match addWriterLocked s w with
      | ((s, w), Some e) => ((failLocked (Some e) s, w), inl e)
      | ((s, w), None) =>
          match writer s with
          | Some fd => ((s, w), inr fd)
          | None => ((s, w), inl (errors_New [])) (* not reached: the writer has just been set *)
          end
      end
  end.

(** ** Counters *)

Definition blockIndex (s : sharedPullerState) (b : BlockInfo) : Z := Offset b ÷ FileInfo_BlockSize (file s).

Definition copyDone (now : GoTime) (b : BlockInfo) (s : sharedPullerState) : sharedPullerState :=
  set_available (available s ++ [blockIndex s b]) now
    (set_counters (copyTotal s) (pullTotal s) (copyOrigin s) (copyNeeded s - 1) (pullNeeded s) now s).
Definition copiedFromOrigin (now : GoTime) (s : sharedPullerState) : sharedPullerState :=
  set_counters (copyTotal s) (pullTotal s) (copyOrigin s + 1) (copyNeeded s) (pullNeeded s) now s.
Definition skippedSparseBlock (now : GoTime) (s : sharedPullerState) : sharedPullerState :=
  set_counters (copyTotal s) (pullTotal s) (copyOrigin s + 1) (copyNeeded s) (pullNeeded s) now s.
Definition pullStarted (now : GoTime) (s : sharedPullerState) : sharedPullerState :=
  set_counters (copyTotal s - 1) (pullTotal s + 1) (copyOrigin s) (copyNeeded s - 1) (pullNeeded s + 1) now s.
Definition pullDone (now : GoTime) (b : BlockInfo) (s : sharedPullerState) : sharedPullerState :=
  set_available (available s ++ [blockIndex s b]) now
    (set_counters (copyTotal s) (pullTotal s) (copyOrigin s) (copyNeeded s) (pullNeeded s - 1) now s).

(** ** Closing *)

Definition set_Name (n : bytes) (f : FileInfo) : FileInfo :=
  {| Name := n; FSize := FSize f; ModifiedS := ModifiedS f; ModifiedBy := ModifiedBy f;
     Version := Version f; Sequence := Sequence f; Blocks := Blocks f; SymlinkTarget := SymlinkTarget f;
     BlocksHash := BlocksHash f; PreviousBlocksHash := PreviousBlocksHash f; Encrypted := Encrypted f;
     Platform := Platform f; Type_ := Type_ f; Permissions := Permissions f; ModifiedNs := ModifiedNs f;
     RawBlockSize := RawBlockSize f; LocalFlags := LocalFlags f;
     EncryptionTrailerSize := EncryptionTrailerSize f;
     Deleted := Deleted f; NoPermissions := NoPermissions f; truncated := truncated f |}.
Definition set_size_trailer (sz tr : Z) (f : FileInfo) : FileInfo :=
  {| Name := Name f; FSize := sz; ModifiedS := ModifiedS f; ModifiedBy := ModifiedBy f;
     Version := Version f; Sequence := Sequence f; Blocks := Blocks f; SymlinkTarget := SymlinkTarget f;
     BlocksHash := BlocksHash f; PreviousBlocksHash := PreviousBlocksHash f; Encrypted := Encrypted f;
     Platform := Platform f; Type_ := Type_ f; Permissions := Permissions f; ModifiedNs := ModifiedNs f;
     RawBlockSize := RawBlockSize f; LocalFlags := LocalFlags f;
     EncryptionTrailerSize := tr;
     Deleted := Deleted f; NoPermissions := NoPermissions f; truncated := truncated f |}.

(** [writeEncryptionTrailer]: the message, its length, at the end of the file. *)
Definition writeEncryptionTrailer (f : FileInfo) (fd : Fd) (w : W) : W * (E + Z) :=
  let wireFile := set_Name (NormalizedFilename (Name f)) f in
  let trailerSize := encryptionTrailerSize wireFile in
  match ToWire false wireFile with
  | Ret m =>
      match marshal m with
      | inl e => (w, inl e)
      | inr bs =>
          match fd_WriteAt fd (bs ++ putBE 4 (u32 (zlen bs))) (FSize wireFile) w with
          | (w, inl e) => (w, inl e)
          | (w, inr _) => (w, inr trailerSize)
          end
      end
  | _ => (w, inl (errors_New []))
  end.

Definition finalizeEncrypted (s : sharedPullerState) (fd : Fd) (w : W) : (sharedPullerState * W) * option E :=
  match writeEncryptionTrailer (file s) fd w with
  | (w, inl e) => ((s, w), Some e)
  | (w, inr n) => ((set_file (set_size_trailer (FSize (file s) + n) n (file s)) s, w), None)
  end.

(** [finalClose]: whether the file was closed by this call, and its error. *)
Definition finalClose (s : sharedPullerState) (w : W) : (sharedPullerState * W) * (bool * option E) :=
  if closed s then ((s, w), (false, None))
  else if negb (pullNeeded s + copyNeeded s =? 0) && (match err s with None => true | _ => false end)
  then ((s, w), (false, None))
  else
    let '((s, w), e) := match writer s with None => addWriterLocked s w | Some _ => ((s, w), None) end in
    match e, writer s with
    | Some e, _ => ((s, w), (false, Some e))
    | None, None => ((s, w), (false, None)) (* not reached *)
    | None, Some fd =>
        let '((s, w), e) :=
          if negb (is_nil (Encrypted (file s))) then finalizeEncrypted s fd w else ((s, w), None) in
        let s := failLocked e s in
        let w := if fsync s then (fd_Sync fd w).1 else w in
        let '(w, r) := fd_Close fd w in
        let s := failLocked (match r with inl e => Some e | inr _ => None end) s in
        let s := set_status (err s) None true s in
        let w := (fs_Unhide (tempName s) w).1 in
        ((s, w), (true, err s))
    end.

(** ** Progress *)

Record PullerProgress :=
  { Total : Z; Reused : Z; CopiedFromOrigin : Z; CopiedFromElsewhere : Z; Pulled : Z; Pulling : Z;
    BytesDone : Z; BytesTotal : Z }.

(** [blocksToSize] panics on a block size of zero, which no file has. *)
Definition blocksToSize (blocks blocksInFile blockSize fileSize : Z) : Z :=
  if blocksInFile =? 0 then 0
  else i64 (i64 (blocks * blockSize) -
            i64 (i64 (blockSize - Z.rem fileSize blockSize) * blocks) ÷ blocksInFile).

Definition Progress (s : sharedPullerState) : PullerProgress :=
  let total := reused s + copyTotal s + pullTotal s in
  let done := total - copyNeeded s - pullNeeded s in
  let f := zlen (Blocks (file s)) in
  {| Total := total; Reused := reused s; CopiedFromOrigin := copyOrigin s;
     CopiedFromElsewhere := copyTotal s - copyNeeded s - copyOrigin s;
     Pulled := pullTotal s - pullNeeded s; Pulling := pullNeeded s;
     BytesTotal := blocksToSize total f (FileInfo_BlockSize (file s)) (FSize (file s));
     BytesDone := blocksToSize done f (FileInfo_BlockSize (file s)) (FSize (file s)) |}.
End PullState.
Arguments sharedPullerState : clear implicits.
