(* ===== verification/PullJob.v ===== *)
(** * The routines that assemble a file (lib/model/folder_sendrecv.go)

    What to reuse of an old temporary file, the copier, the puller and the
    finisher.  The routines run concurrently on one shared state: they are
    programs whose atomic steps a scheduler interleaves.  A value that comes
    from elsewhere (the context, the clock, another file, the database, the
    network) is a question whose answer the step relation leaves open. *)
From Stdlib Require Import ZArith List Lia.
From Stdlib Require Import Strings.Byte.
From stdpp Require Import base list option gmap numbers tactics.
From S2P Require Import Prelude GoLib Vector FileInfo FileInfoWire PullQueue PullState.

#[local] Open Scope Z_scope.

(** ** Programs *)

Section Programs.
Context {St : Type}.

Inductive prog : Type :=
  | Done_ : prog
  | Step_ {R : Type} (f : St -> St * R) (k : R -> prog) : prog
  | Ask_ {R : Type} (k : R -> prog) : prog
  | Fork_ (p q : prog) : prog.

(** A routine that returns a value, with its continuation. *)
Definition proc (A : Type) : Type := (A -> prog) -> prog.
#[export] Instance proc_ret : MRet proc := fun A a k => k a.
#[export] Instance proc_bind : MBind proc := fun A B f m k => m (fun a => f a k).
Definition atomic {R} (f : St -> St * R) : proc R := fun k => Step_ f k.
Definition ask (R : Type) : proc R := fun k => Ask_ k.
(** A goroutine that runs on its own. *)
Definition spawn (p : proc unit) : proc unit := fun k => Fork_ (p (fun _ => Done_)) (k tt).

(** The steps of a pool of goroutines; [env] are the steps of the rest of the
    program and of the system. *)
Inductive pool_step (env : St -> St -> Prop) : St * list prog -> St * list prog -> Prop :=
  | pool_Step l1 l2 R (f : St -> St * R) k s :
    pool_step env (s, l1 ++ Step_ f k :: l2) ((f s).1, l1 ++ k (f s).2 :: l2)
  | pool_Ask l1 l2 R (k : R -> prog) r s : pool_step env (s, l1 ++ Ask_ k :: l2) (s, l1 ++ k r :: l2)
  | pool_Fork l1 l2 p q s : pool_step env (s, l1 ++ Fork_ p q :: l2) (s, l1 ++ p :: q :: l2)
  | pool_Done l1 l2 s : pool_step env (s, l1 ++ Done_ :: l2) (s, l1 ++ l2)
  | pool_env l s s' : env s s' -> pool_step env (s, l) (s', l).

Inductive pool_steps (env : St -> St -> Prop) (c : St * list prog) : St * list prog -> Prop :=
  | pool_refl : pool_steps env c c
  | pool_trans c1 c2 : pool_steps env c c1 -> pool_step env c1 c2 -> pool_steps env c c2.
End Programs.
Arguments prog : clear implicits.
Arguments proc : clear implicits.
Arguments ask {St} R.

(** ** The blocks to get *)

(** [blockDiff]: the blocks of [tgt] that [src] has at the same place, and the
    others. *)
Fixpoint blockDiff_loop (src tgt have need : list BlockInfo) : list BlockInfo * list BlockInfo :=
  match tgt, src with
  | [], _ => (have, need)
  | _, [] => (have, need ++ tgt)
  | t :: tgt, s :: src =>
      if decide (Hash t = Hash s) then blockDiff_loop src tgt (have ++ [t]) need
      else blockDiff_loop src tgt have (need ++ [t])
  end.
Definition blockDiff (src tgt : list BlockInfo) : list BlockInfo * list BlockInfo :=
  match tgt, src with
  | [], _ => ([], [])
  | _, [] => ([], tgt)
  | _, _ => blockDiff_loop src tgt [] []
  end.

(** [populateOffsets] *)
Fixpoint populate_loop (offset : Z) (bs : list BlockInfo) : list BlockInfo :=
  match bs with
  | [] => []
  | b :: bs => {| Hash := Hash b; Offset := offset; Size := Size b |} :: populate_loop (offset + Size b) bs
  end.
Definition populateOffsets (bs : list BlockInfo) : list BlockInfo := populate_loop 0 bs.

(** [reuseBlocks], for the blocks of the temporary file that [scanner.HashFile]
    found: the blocks to get and the indexes of those that are there.  The key
    [block.String()] determines the block. *)
Definition reuseBlocks (tempBlocks : option (list BlockInfo)) (blocks : list BlockInfo) : list BlockInfo * list Z :=
  match tempBlocks with
  | None => (blocks, [])
  | Some tempBlocks =>
      let existing := (blockDiff tempBlocks blocks).1 in
      (List.filter (fun b => negb (bool_decide (b ∈ existing))) blocks,
       map (fun p => Z.of_nat p.1)
         (List.filter (fun p => bool_decide (p.2 ∈ existing)) (zip (seq 0 (length blocks)) blocks)))
  end.

(** ** The routines *)

Section PullJob.
Context {W Fd E : Type} {FS : Filesystem W Fd E}.
Context (Dir : bytes -> bytes) (protoSize : bep_FileInfo -> Z) (marshal : bep_FileInfo -> E + bytes)
  (NormalizedFilename : bytes -> bytes) (sha256 : bytes -> bytes).

(** The configuration of the folder. *)
Record folderConfig :=
  { ReceiveEncrypted : bool; DisableSparseFiles : bool; BlockIndexing : bool; folderID : bytes;
    CopyRangeStandard : bool }.
Context (cfg : folderConfig).

(** What the goroutines of a file share: its state, the file systems, the
    device activity, the job queue and the errors of the folder. *)
Record shared :=
  { sps : sharedPullerState Fd E; world : W; act : deviceActivity; queue : jobQueue;
    tempPullErrors : gmap bytes E }.
Definition set_sps (s : sharedPullerState Fd E) (g : shared) : shared :=
  {| sps := s; world := world g; act := act g; queue := queue g; tempPullErrors := tempPullErrors g |}.
Definition set_sps_world (s : sharedPullerState Fd E) (w : W) (g : shared) : shared :=
  {| sps := s; world := w; act := act g; queue := queue g; tempPullErrors := tempPullErrors g |}.
Definition set_act (a : deviceActivity) (g : shared) : shared :=
  {| sps := sps g; world := world g; act := a; queue := queue g; tempPullErrors := tempPullErrors g |}.
Definition set_queue (q : jobQueue) (g : shared) : shared :=
  {| sps := sps g; world := world g; act := act g; queue := q; tempPullErrors := tempPullErrors g |}.
Definition set_errors (m : gmap bytes E) (g : shared) : shared :=
  {| sps := sps g; world := world g; act := act g; queue := queue g; tempPullErrors := m |}.

Abbreviation Proc := (proc shared).

(** Atomic steps: the methods of the state, each under its mutex. *)
Definition on_state (f : sharedPullerState Fd E -> sharedPullerState Fd E) : Proc unit :=
  atomic (fun g => (set_sps (f (sps g)) g, tt)).
Definition timed (f : GoTime -> sharedPullerState Fd E -> sharedPullerState Fd E) : Proc unit :=
  now ← ask GoTime; on_state (f now).
Definition do_fail (e : E) : Proc unit := on_state (failLocked (Some e)).
Definition failed : Proc (option E) := atomic (fun g => (g, err (sps g))).
Definition do_tempFile : Proc (E + Fd) :=
  atomic (fun g => let '((s, w), r) := tempFile Dir protoSize (sps g) (world g) in (set_sps_world s w g, r)).
Definition do_WriteAt (fd : Fd) (d : bytes) (off : Z) : Proc (option E) :=
  atomic (fun g => match fd_WriteAt fd d off (world g) with
                   | (w, inl e) => (set_sps_world (sps g) w g, Some e)
                   | (w, inr _) => (set_sps_world (sps g) w g, None)
                   end).
Definition do_finalClose : Proc (bool * option E) :=
  atomic (fun g => let '((s, w), r) := finalClose Dir protoSize marshal NormalizedFilename (sps g) (world g) in
                   (set_sps_world s w g, r)).

(** [withLimiter]: the limiter may be cancelled. *)
Definition limitedWriteAt (fd : Fd) (d : bytes) (off : Z) : Proc (option E) :=
  l ← ask (option E);
  match l with
  | Some e => mret (Some e)
  | None => do_WriteAt fd d off
  end.

Definition verifyBuffer (buf : bytes) (b : BlockInfo) : option E :=
  if negb (zlen buf =? Size b) then Some (errors_New (gostr "length mismatch"))
  else if negb (bool_decide (sha256 buf = Hash b)) then Some (errors_New (gostr "hash mismatch"))
  else None.

(** [copyBlockFromFile]: the answers are the content read from the source, and
    with a copy method other than the standard one what the system copied
    from it. *)
Definition copyBlockFromFile (b : BlockInfo) : Proc bool :=
  opened ← ask bool;
  if negb opened then mret false
  else
    read ← ask (option bytes);
    match read with
    | None => mret false
    | Some buf =>
        if negb (zlen buf =? Size b) then mret false (* ReadAt of a shorter file is an error *)
        else if negb (ReceiveEncrypted cfg) && (match verifyBuffer buf b with Some _ => true | None => false end)
        then mret false
        else
          r ← do_tempFile;
          match r with
          | inl _ => mret false
          | inr dstFd =>
              e ← (if CopyRangeStandard cfg then limitedWriteAt dstFd buf (Offset b)
                   else copied ← ask bytes; limitedWriteAt dstFd copied (Offset b));
              match e with
              | Some e => _ ← do_fail (Errorf (gostr "dst write") e); mret false
              | None => mret true
              end
          end
    end.

(** [copyBlockFromFolder]: the answer is what the database yields, an entry or
    an error at a time. *)
Fixpoint folder_loop (b : BlockInfo) (entries : list (E + bytes)) : Proc bool :=
  match entries with
  | [] => mret false
  | inl _ :: _ => mret false
  | inr fileName :: entries =>
      copied ← copyBlockFromFile b;
      if negb copied then
        f ← failed;
        match f with Some _ => mret false | None => folder_loop b entries end
      else
        same ← ask bool; (* e.FileName == state.file.Name *)
        _ ← (if same : bool then timed copiedFromOrigin else mret tt);
        mret true
  end.
Definition copyBlockFromFolder (b : BlockInfo) : Proc bool :=
  entries ← ask (list (E + bytes)); folder_loop b entries.

(** [copyBlock] *)
Fixpoint others_loop (b : BlockInfo) (others : list bytes) : Proc bool :=
  match others with
  | [] => mret false
  | _ :: others =>
      copied ← copyBlockFromFolder b;
      if copied : bool then mret true
      else f ← failed; match f with Some _ => mret false | None => others_loop b others end
  end.
Definition copyBlock (blocksOfCur : gmap bytes Z) (others : list bytes) (b : BlockInfo) : Proc bool :=
  let elsewhere : Proc bool := others_loop b others in
  let indexed : Proc bool :=
    if BlockIndexing cfg then
      copied ← copyBlockFromFolder b;
      if copied : bool then mret true
      else f ← failed; match f with Some _ => mret false | None => elsewhere end
    else elsewhere in
  match blocksOfCur !! Hash b with
  | Some _ =>
      copied ← copyBlockFromFile b;
      if copied : bool then _ ← timed copiedFromOrigin; mret true
      else f ← failed; match f with Some _ => mret false | None => indexed end
  | None => indexed
  end.

(** ** The finisher *)

(** [newPullError]: the first error of a file is kept. *)
Definition newPullError (path : bytes) (e : E) (g : shared) : shared :=
  if IsCanceled e then g
  else match tempPullErrors g !! path with
       | Some _ => g
       | None => set_errors (<[path := e]> (tempPullErrors g)) g
       end.

(** One round of [finisherRoutine]; the answer is the result of
    [performFinish]. *)
Definition finisher : Proc unit :=
  c ← do_finalClose;
  match c with
  | (true, e) =>
      name ← atomic (fun g => (g, Name (file (sps g))));
      _ ← atomic (fun g => (set_queue (Done (queue g) name) g, tt));
      e ← (match e with None => ask (option E) | Some e => mret (Some e) end);
      match e with
      | Some e => atomic (fun g => (newPullError name (Errorf (gostr "finishing") e) g, tt))
      | None => mret tt
      end
  | (false, _) => mret tt
  end.
(** Sending the state to the finisher. *)
Definition out : Proc unit := spawn finisher.

(** ** The puller *)

(** The loop of [pullBlock] over the candidate devices, which are removed one
    at a time: with more fuel than candidates it comes to an end. *)
Fixpoint pull_loop (fuel : nat) (fd : Fd) (b : BlockInfo) (candidates : list Availability) (lastError : option E) : Proc unit :=
  match fuel with
  | O => mret tt
  | S fuel =>
      ctx ← ask (option E);
      match ctx with
      | Some e => do_fail (Errorf (gostr "folder stopped") e)
      | None =>
          m ← atomic (fun g => (g, act g));
          let found := leastBusy m candidates in
          if found =? -1 then
            do_fail (Errorf (gostr "pull") (default (errors_New (gostr "no connected device has the required version of this file")) lastError))
          else
            match candidates !! Z.to_nat found, list.last candidates with
            | Some selected, Some l =>
                let candidates := take (length candidates - 1) (<[Z.to_nat found := l]> candidates) in
                _ ← atomic (fun g => (set_act (using_ (act g) selected) g, tt));
                r ← ask (E + bytes); (* RequestGlobal *)
                _ ← atomic (fun g => (set_act (done_ (act g) selected) g, tt));
                match r with
                | inl e => pull_loop fuel fd b candidates (Some e)
                | inr buf =>
                    match (if ReceiveEncrypted cfg then None else verifyBuffer buf b) with
                    | Some e => pull_loop fuel fd b candidates (Some e)
                    | None =>
                        e ← limitedWriteAt fd buf (Offset b);
                        match e with
                        | Some e => do_fail (Errorf (gostr "save") e)
                        | None => timed (fun now => pullDone now b)
                        end
                    end
                end
            | _, _ => mret tt (* an index out of range: not reached *)
            end
      end
  end.

(** [pullBlock]; the first answer is [blockAvailability]. *)
Definition pullBlock (reused_ : Z) (b : BlockInfo) : Proc unit :=
  r ← do_tempFile;
  match r with
  | inl _ => out
  | inr fd =>
      if BlockInfo_IsEmpty b then
        e ← (if negb (reused_ =? 0) || DisableSparseFiles cfg
             then limitedWriteAt fd (zeroes (Size b)) (Offset b) else mret None);
        _ ← (match e with
             | Some e => do_fail (Errorf (gostr "save") e)
             | None => timed (fun now => pullDone now b)
             end);
        out
      else
        candidates ← ask (list Availability);
        _ ← pull_loop (S (length candidates)) fd b candidates None;
        out
  end.

(** The round of [pullerRoutine] for a block; the semaphore may be
    cancelled. *)
Definition puller (reused_ : Z) (b : BlockInfo) : Proc unit :=
  f ← failed;
  match f with
  | Some _ => out
  | None =>
      if Size b =? 0 then _ ← timed (fun now => pullDone now b); out
      else
        l ← ask (option E);
        match l with
        | Some e => _ ← do_fail e; out
        | None => pullBlock reused_ b
        end
  end.

(** ** The copier *)

(** The loop over the blocks in [copierRoutine]. *)
Fixpoint copier_loop (st : sharedPullerState Fd E) (others : list bytes) (blocks : list BlockInfo) : Proc unit :=
  match blocks with
  | [] => mret tt
  | b :: blocks =>
      ctx ← ask (option E);
      match ctx with
      | Some e => do_fail (Errorf (gostr "folder stopped") e)
      | None =>
          if Size b =? 0 then
            _ ← timed (fun now => copyDone now b); copier_loop st others blocks
          else if negb (DisableSparseFiles cfg) && (reused st =? 0) && BlockInfo_IsEmpty b then
            _ ← timed skippedSparseBlock; _ ← timed (fun now => copyDone now b); copier_loop st others blocks
          else
            copied ← copyBlock (curFileBlocks st) others b;
            if copied : bool then _ ← timed (fun now => copyDone now b); copier_loop st others blocks
            else
              f ← failed;
              match f with
              | Some _ => mret tt
              | None =>
                  _ ← timed pullStarted;
                  _ ← spawn (puller (reused st) b);
                  copier_loop st others blocks
              end
      end
  end.

(** One round of [copierRoutine], for a file and its blocks. *)
Definition copier (st : sharedPullerState Fd E) (others : list bytes) (blocks : list BlockInfo) : Proc unit :=
  _ ← copier_loop st others blocks;
  _ ← (match blocks with
       | [] => r ← do_tempFile; match r with inl e => do_fail e | inr _ => mret tt end
       | _ => mret tt
       end);
  out.
End PullJob.
