(* ===== verification/PullJobProps.v ===== *)
(** * Properties of the assembly of files

    Every goroutine owns tokens for the blocks it still has to get; an
    invariant ties the tokens of all goroutines to the counters and to the
    content of the temporary file.  A small program logic shows that every
    routine keeps it, whatever the interleaving. *)
From Stdlib Require Import ZArith List Lia.
From Stdlib Require Import Strings.Byte.
From stdpp Require Import base list option gmap numbers tactics.
From S2P Require Import Prelude GoLib Vector FileInfo FileInfoWire PullQueue PullQueueProps PullState PullJob.

#[local] Open Scope Z_scope.

(** ** Contents *)

Lemma zeroes_length n : length (zeroes n) = Z.to_nat n.
Proof. apply length_replicate. Qed.

Lemma sub_splice_same c off d : 0 <= off -> sub (splice c off d) off (zlen d) = d.
Proof.
  intros Ho. unfold sub, splice. rewrite Nat2Z.id. rewrite drop_app_ge by (rewrite length_take; lia).
  rewrite length_take, length_app, zeroes_length.
  replace (_ - _)%nat with O by lia. by rewrite drop_0, take_app_length.
Qed.

Lemma splice_length c off d : 0 <= off -> off + zlen d <= zlen (splice c off d).
Proof. intros Ho. unfold splice. rewrite !length_app, length_take, length_app, zeroes_length. lia. Qed.

Lemma splice_inside c off d : 0 <= off -> off + zlen d <= zlen c -> zlen (splice c off d) = zlen c.
Proof.
  intros Ho Hl. unfold splice. rewrite !length_app, length_take, length_app, zeroes_length, length_drop. lia.
Qed.

Lemma splice_length_ge c off d : 0 <= off -> zlen c <= zlen (splice c off d).
Proof.
  intros Ho. unfold splice. rewrite !length_app, length_take, length_app, zeroes_length, length_drop. lia.
Qed.

Lemma sub_splice_other c off d off' n' :
  0 <= off -> 0 <= off' -> 0 <= n' -> off' + n' <= zlen c -> off' + n' <= off \/ off + zlen d <= off' ->
  sub (splice c off d) off' n' = sub c off' n'.
Proof.
  intros Ho Ho' Hn Hl Hdis. unfold sub, splice. destruct Hdis as [Hd|Hd].
  - rewrite drop_app_le, take_app_le by (rewrite ?length_drop, length_take, length_app, zeroes_length; lia).
    rewrite skipn_firstn_comm, take_take, drop_app_le, take_app_le by (rewrite ?length_drop; lia). f_equal. lia.
  - rewrite drop_app_ge by (rewrite length_take, length_app, zeroes_length; lia).
    rewrite length_take, length_app, zeroes_length.
    rewrite drop_app_ge by lia. rewrite drop_drop. do 2 f_equal. lia.
Qed.

(** Past the end of the file a write leaves zeroes before it. *)
Lemma splice_lookup_other c off d i x : 0 <= off -> Z.of_nat i < off \/ off + zlen d <= Z.of_nat i ->
  splice c off d !! i = Some x -> c !! i = Some x \/ x = x00.
Proof.
  intros Ho Hi. unfold splice.
  assert (length (take (Z.to_nat off) (c ++ zeroes (off - zlen c))) = Z.to_nat off) as Hl by (rewrite length_take, length_app, zeroes_length; lia).
  destruct Hi as [Hi|Hi].
  - rewrite lookup_app_l by lia. rewrite lookup_take_lt by lia. intros Hx. apply lookup_app_Some in Hx as [?|[_ Hx]]; [by left|right].
    unfold zeroes in Hx. by apply lookup_replicate in Hx as [-> _].
  - rewrite lookup_app_r by lia. rewrite lookup_app_r by lia. rewrite lookup_drop, Hl.
    replace (Z.to_nat off + length d + (i - Z.to_nat off - length d))%nat with i by lia. by left.
Qed.
Lemma sub_resize c n off k : 0 <= off -> 0 <= k -> off + k <= n -> off + k <= zlen c -> sub (resize c n) off k = sub c off k.
Proof.
  intros. unfold sub, resize. rewrite skipn_firstn_comm, take_take, drop_app_le, take_app_le by (rewrite ?length_drop; lia).
  f_equal. lia.
Qed.

Lemma resize_length c n : 0 <= n -> zlen (resize c n) = n.
Proof. intros. unfold resize. rewrite length_take, length_app, zeroes_length. lia. Qed.

Lemma sub_zeroes n off k : 0 <= off -> 0 <= k -> off + k <= n -> sub (zeroes n) off k = zeroes k.
Proof. intros. unfold sub, zeroes. rewrite drop_replicate, take_replicate. f_equal. lia. Qed.

Lemma filter_perm {A} (P : A -> bool) l k : l ≡ₚ k -> List.filter P l ≡ₚ List.filter P k.
Proof.
  induction 1 as [|x l k H IH|x y l|l k m H1 IH1 H2 IH2]; cbn; [done| | |by etrans].
  - destruct (P x); [by constructor|done].
  - destruct (P x), (P y); try done. by constructor.
Qed.

(** ** Tokens *)

Inductive kind := Clean | Written | Poison.
(** A block a goroutine has to copy or to pull, whose place in the file is
    untouched, written, or of unknown content; that the goroutine will wake the
    finisher; that it will and is the only one; that the job has failed; that the
    temporary file is open. *)
Inductive token := CopyT (k : kind) (b : BlockInfo) | PullT (k : kind) (b : BlockInfo) | OutT | KeepT | FailT | OpenT.

Definition tblock (t : token) : option BlockInfo :=
  match t with CopyT _ b | PullT _ b => Some b | _ => None end.
Definition isCopy (t : token) : bool := match t with CopyT _ _ => true | _ => false end.
Definition isPull (t : token) : bool := match t with PullT _ _ => true | _ => false end.
Definition poison (t : token) : Prop := match t with CopyT Poison _ | PullT Poison _ => True | _ => False end.
Definition owned (T : list token) (k : kind) (b : BlockInfo) : Prop := CopyT k b ∈ T \/ PullT k b ∈ T.

Section Job.
Context {W Fd E : Type} {FS : Filesystem W Fd E} {FL : FilesystemLaws W Fd E}.
Context (Dir : bytes -> bytes) (protoSize : bep_FileInfo -> Z) (marshal : bep_FileInfo -> E + bytes)
  (NormalizedFilename : bytes -> bytes) (sha256 : bytes -> bytes) (cfg : folderConfig).
Abbreviation Shared := (@shared W Fd E).

(** *** The job *)

(** The file, its temporary file, and the number of blocks reused. *)
Context (f : FileInfo) (tmp : bytes) (r : Z) (live : Prop).

Definition blockEnd (b : BlockInfo) : Z := Offset b + Size b.
(** The blocks of a file do not overlap. *)
Definition layout (bs : list BlockInfo) (size : Z) : Prop :=
  NoDup bs /\ (forall b, b ∈ bs -> 0 <= Offset b /\ 0 <= Size b /\ blockEnd b <= size) /\
  (forall b b', b ∈ bs -> b' ∈ bs -> b <> b' ->
     Size b = 0 \/ Size b' = 0 \/ blockEnd b <= Offset b' \/ blockEnd b' <= Offset b).

Record job_ok : Prop := {
  J_layout : layout (Blocks f) (FSize f);
  J_plain : IsSymlink f = false /\ Encrypted f = [];
  J_reused : 0 <= r;
  J_size : 0 <= FSize f;
  J_cfg : ReceiveEncrypted cfg = false /\ CopyRangeStandard cfg = true;
  (** the table of hashes of blocks of zeroes is right *)
  J_empty : forall b, BlockInfo_IsEmpty b = true -> sha256 (zeroes (Size b)) = Hash b }.
(** The temporary file can always be given its size. *)
Definition truncates : Prop := forall fd n w, exists w', fd_Truncate fd n w = (w', inr tt).
(** The temporary file can always be created. *)
Definition creatable : Prop := forall (s : sharedPullerState Fd E) w, tempName s = tmp -> reused s = r -> exists w' fd,
  inWritableDir Dir (tempFileInWritableDir protoSize s) tmp w = (w', inr fd).
Context (J : job_ok) (Jlive : live -> creatable).

Definition good (c : bytes) (b : BlockInfo) : Prop :=
  Size b = 0 \/ (blockEnd b <= zlen c /\ sha256 (sub c (Offset b) (Size b)) = Hash b).
(** As far as the file goes, there are only zeroes at the place of the block. *)
Definition blank (c : bytes) (b : BlockInfo) : Prop :=
  Size b = 0 \/ forall i x, Offset b <= Z.of_nat i < blockEnd b -> c !! i = Some x -> x = x00.
Definition skippable (b : BlockInfo) : Prop :=
  Size b = 0 \/ (DisableSparseFiles cfg = false /\ r = 0 /\ BlockInfo_IsEmpty b = true).

(** A block of zeroes that is skipped is missing only where the file ends. *)
Definition settled (c : bytes) (b : BlockInfo) : Prop :=
  good c b \/ (DisableSparseFiles cfg = false /\ r = 0 /\ BlockInfo_IsEmpty b = true /\ blank c b).

Lemma blank_good c b : 0 <= Offset b -> 0 <= Size b -> BlockInfo_IsEmpty b = true -> blank c b -> blockEnd b <= zlen c -> good c b.
Proof.
  intros Ho Hs He [H|H] Hl; [by left|]. right. split; [done|]. rewrite <- (J_empty J) by done. f_equal. apply list_eq. intros i. unfold sub, zeroes.
  unfold blockEnd in *. destruct (decide (i < Z.to_nat (Size b))%nat) as [Hi|Hi].
  - rewrite lookup_take_lt by done. rewrite lookup_drop, lookup_replicate_2 by done.
    destruct (c !! (Z.to_nat (Offset b) + i)%nat) as [x|] eqn:Ex; [by rewrite (H (Z.to_nat (Offset b) + i)%nat x ltac:(lia) Ex)|]. apply lookup_ge_None in Ex. lia.
  - rewrite lookup_take_ge by lia. symmetry. apply lookup_ge_None. rewrite length_replicate. lia.
Qed.
Lemma settled_skip c b : skippable b -> blank c b -> settled c b.
Proof. intros [?|(H1 & H2 & H3)] Hz; [left; by left|]. by right. Qed.

Definition disjoint_blocks (b b' : BlockInfo) : Prop :=
  Size b = 0 \/ Size b' = 0 \/ blockEnd b <= Offset b' \/ blockEnd b' <= Offset b.

Lemma splice_keeps c d b b' :
  0 <= Offset b -> 0 <= Offset b' -> 0 <= Size b' -> zlen d = Size b -> 0 < Size b -> disjoint_blocks b b' ->
  (good c b' -> good (splice c (Offset b) d) b') /\ (blank c b' -> blank (splice c (Offset b) d) b').
Proof.
  unfold disjoint_blocks, good, blank, blockEnd. intros Ho Ho' Hs' Hd Hpos Hdis.
  destruct (decide (Size b' = 0)) as [E0|E0]; [by split; left|].
  pose proof (splice_length_ge c (Offset b) d Ho). split.
  - intros [?|[H1 H2]]; [by left|right; split; [lia|]]. rewrite sub_splice_other; auto with lia.
  - intros [?|Hz]; [by left|right]. intros i x Hi Hx. destruct (splice_lookup_other c (Offset b) d i x Ho ltac:(lia) Hx) as [Hx'|?]; [|done].
    by apply (Hz i x).
Qed.
Lemma splice_settled c d b b' :
  0 <= Offset b -> 0 <= Offset b' -> 0 <= Size b' -> zlen d = Size b -> 0 < Size b -> disjoint_blocks b b' ->
  settled c b' -> settled (splice c (Offset b) d) b'.
Proof.
  intros Ho Ho' Hs' Hd Hp Hdis. destruct (splice_keeps c d b b' Ho Ho' Hs' Hd Hp Hdis) as [Kg Kz].
  intros [?|(? & ? & ? & ?)]; [left; auto|right; auto].
Qed.

Lemma splice_good c d b : 0 <= Offset b -> zlen d = Size b -> sha256 d = Hash b -> good (splice c (Offset b) d) b.
Proof.
  intros Ho Hd Hh. right. unfold blockEnd. rewrite <- Hd. split; [by apply splice_length|]. by rewrite sub_splice_same.
Qed.

(** *** The invariant *)

Definition opened (s : sharedPullerState Fd E) : Prop := writer s <> None \/ closed s = true.

(** What holds of a block's place in the file, by the token for it. *)
Definition unowned (T : list token) (b : BlockInfo) : Prop := b ∉ omap tblock T.
Definition block_ok (c : bytes) (T : list token) (b : BlockInfo) : Prop :=
  (owned T Clean b -> skippable b -> blank c b) /\ (owned T Written b -> good c b) /\ (unowned T b -> settled c b).

(** With sparse files the file has its final size, if it could be given it; a
    file that is reused must have been. *)
Definition sized (c : bytes) : Prop := truncates \/ r <> 0 -> DisableSparseFiles cfg = false -> zlen c = FSize f.

Definition content_ok (g : Shared) (T : list token) : Prop :=
  (opened (sps g) -> exists c, disk (world g) tmp = Some c /\ sized c /\ forall b, b ∈ Blocks f -> block_ok c T b) /\
  (~ opened (sps g) -> forall b, b ∈ Blocks f -> unowned T b ->
     if decide (r = 0) then skippable b else forall c, disk (world g) tmp = Some c -> good c b).

Record pending_ok (g : Shared) (T : list token) : Prop := {
  P_copy : copyNeeded (sps g) = zlen (List.filter isCopy T);
  P_pull : pullNeeded (sps g) = zlen (List.filter isPull T);
  P_nodup : NoDup (omap tblock T);
  P_in : forall b, b ∈ omap tblock T -> b ∈ Blocks f;
  P_closed : closed (sps g) = true -> omap tblock T = [];
  P_nofail : FailT ∉ T;
  P_open : OpenT ∈ T -> opened (sps g);
  P_written : forall b, owned T Written b -> opened (sps g);
  P_content : (forall t, t ∈ T -> ~ poison t) -> content_ok g T }.

Record Inv (g : Shared) (T : list token) : Prop := {
  I_static : file (sps g) = f /\ tempName (sps g) = tmp /\ reused (sps g) = r /\
             sparse (sps g) = negb (DisableSparseFiles cfg);
  I_writer : forall fd, writer (sps g) = Some fd -> fd_name fd = tmp /\ closed (sps g) = false;
  I_keep : KeepT ∈ T -> T = [KeepT] /\ closed (sps g) = false;
  I_live : live -> err (sps g) <> None \/ copyNeeded (sps g) + pullNeeded (sps g) = 0 ->
           closed (sps g) = true \/ OutT ∈ T \/ KeepT ∈ T;
  I_pending : err (sps g) = None -> pending_ok g T }.

Lemma owned_perm T T' k b : T ≡ₚ T' -> owned T k b -> owned T' k b.
Proof. intros HT. unfold owned. by rewrite HT. Qed.
Lemma content_perm g T T' : T ≡ₚ T' -> content_ok g T -> content_ok g T'.
Proof.
  intros HT [H1 H2]. assert (forall b, unowned T b <-> unowned T' b) as HU by (intros b; unfold unowned; by rewrite HT).
  split.
  - intros Ho. destruct (H1 Ho) as (c & Hc & Hsz & Hb). exists c. split; [done|]. split; [done|]. intros b Hin.
    destruct (Hb b Hin) as (B1 & B2 & B3). split; [|split].
    + intros Ho'. apply B1. by apply (owned_perm T').
    + intros Ho'. apply B2. by apply (owned_perm T').
    + intros Hu. by apply B3, HU.
  - intros Ho b Hin Hu. apply H2; [done..|]. by apply HU.
Qed.
Lemma pending_perm g T T' : T ≡ₚ T' -> pending_ok g T -> pending_ok g T'.
Proof.
  intros HT [H1 H2 H3 H4 H5 H6 H7 H8 H9].
  assert (forall P : token -> bool, zlen (List.filter P T) = zlen (List.filter P T')) as Hf.
  { intros P. f_equal. apply Permutation_length. by apply filter_perm. }
  assert (omap tblock T ≡ₚ omap tblock T') as HO by (by rewrite HT).
  constructor; rewrite <- ?Hf; try done.
  - by rewrite <- HO.
  - intros b. rewrite <- HO. apply H4.
  - intros Hc. specialize (H5 Hc). rewrite H5 in HO. by apply Permutation_nil in HO.
  - by rewrite <- HT.
  - rewrite <- HT. done.
  - intros b Hw. apply (H8 b). by apply (owned_perm T').
  - intros Hp. eapply content_perm; [exact HT|]. apply H9. intros t Ht. apply Hp. by rewrite <- HT.
Qed.
Lemma Inv_perm g T T' : T ≡ₚ T' -> Inv g T -> Inv g T'.
Proof.
  intros HT [H1 H2 H3 H4 H5]. constructor; try done.
  - intros HK. rewrite <- HT in HK. destruct (H3 HK) as [-> Hc]. split; [|done]. symmetry. by apply Permutation_singleton_l.
  - intros HL Hr. rewrite <- HT. by apply H4.
  - intros He. eapply pending_perm; [exact HT|by apply H5].
Qed.
#[export] Instance Inv_proper g : Proper ((≡ₚ) ==> iff) (Inv g).
Proof. intros T T' HT. split; by apply Inv_perm. Qed.

(** *** The logic *)

Definition residue (o : list token) : Prop := (OutT ∉ o) /\ (KeepT ∉ o) /\ (o = [] \/ FailT ∈ o).

Fixpoint wp (p : prog Shared) (o : list token) : Prop :=
  match p with
  | Done_ => residue o
  | Step_ st k => forall g F, Inv g (o ++ F) ->
      (closed (sps g) = true -> closed (sps (fst (st g))) = true) /\
      exists o', Inv (st g).1 (o' ++ F) /\ wp (k (st g).2) o'
  | Ask_ k => forall a, wp (k a) o
  | Fork_ p q => exists o1 o2, o ≡ₚ o1 ++ o2 /\ wp p o1 /\ wp q o2
  end.

#[export] Instance residue_proper : Proper ((≡ₚ) ==> iff) residue.
Proof.
  intros o o' Ho. unfold residue. split; intros (H0 & H1 & H2); (split; [by rewrite Ho in *|]); (split; [by rewrite Ho in *|]).
  - destruct H2 as [->|H2]; [left; by apply Permutation_nil|right; by rewrite <- Ho].
  - destruct H2 as [->|H2]; [left; symmetry in Ho; by apply Permutation_nil|right; by rewrite Ho].
Qed.

Lemma wp_perm p o o' : o ≡ₚ o' -> wp p o -> wp p o'.
Proof.
  revert o o'. induction p as [|R st k IH|R k IH|p IHp q IHq]; intros o o' Ho; cbn [wp].
  - by rewrite Ho.
  - intros H g F HI. rewrite <- Ho in HI. by apply H.
  - intros H a. by eapply IH.
  - intros (o1 & o2 & H & Hp & Hq). exists o1, o2. split; [by rewrite <- Ho|done].
Qed.

(** A triple: with the tokens [o], the routine ends with tokens that satisfy
    the postcondition, and leaves all others alone. *)
Definition triple {A} (o : list token) (p : proc Shared A) (Q : A -> list token -> Prop) : Prop :=
  forall R k, (forall a o', Q a o' -> wp (k a) (o' ++ R)) -> wp (p k) (o ++ R).
Definition act_spec {A} (st : Shared -> Shared * A) (o : list token) (Q : A -> list token -> Prop) : Prop :=
  forall g F, Inv g (o ++ F) ->
    (closed (sps g) = true -> closed (sps (fst (st g))) = true) /\
    exists o', Inv (st g).1 (o' ++ F) /\ Q (st g).2 o'.

Lemma triple_ret {A} (a : A) o (Q : A -> list token -> Prop) : Q a o -> triple o (mret a) Q.
Proof. intros HQ R k Hk. by apply Hk. Qed.
Lemma triple_bind {A B} o (p : proc Shared A) (q : A -> proc Shared B) Q Q' :
  triple o p Q -> (forall a o', Q a o' -> triple o' (q a) Q') -> triple o (p ≫= q) Q'.
Proof. intros Hp Hq R k Hk. apply Hp. intros a o' HQ. by apply (Hq a). Qed.
Lemma triple_mono {A} o (p : proc Shared A) (Q Q' : A -> list token -> Prop) :
  triple o p Q -> (forall a o', Q a o' -> Q' a o') -> triple o p Q'.
Proof. intros Hp HQ R k Hk. apply Hp. auto. Qed.
Lemma triple_frame {A} o F (p : proc Shared A) (Q : A -> list token -> Prop) :
  triple o p Q -> triple (o ++ F) p (fun a o' => exists o'', o' = o'' ++ F /\ Q a o'').
Proof.
  intros Hp R k Hk. rewrite <- app_assoc. apply Hp. intros a o' HQ. rewrite app_assoc. apply Hk. eauto.
Qed.
Lemma triple_perm {A} o o' (p : proc Shared A) Q : o ≡ₚ o' -> triple o p Q -> triple o' p Q.
Proof. intros Ho Hp R k Hk. eapply wp_perm; [|by apply Hp]. by rewrite Ho. Qed.
Lemma triple_ask {A B} o (q : A -> proc Shared B) Q :
  (forall a, triple o (q a) Q) -> triple o (ask A ≫= q) Q.
Proof. intros Hq R k Hk a. by apply Hq. Qed.
Lemma triple_atomic {A} (st : Shared -> Shared * A) o Q : act_spec st o Q -> triple o (atomic st) Q.
Proof.
  intros H R k Hk g F HI. rewrite <- app_assoc in HI. destruct (H g (R ++ F) HI) as (Hc & o' & HI' & HQ).
  split; [done|]. exists (o' ++ R). rewrite <- app_assoc. auto.
Qed.
Lemma triple_spawn o (p : proc Shared unit) (Q : unit -> list token -> Prop) :
  triple o p (fun _ o' => residue o') -> Q tt [] -> triple o (spawn p) Q.
Proof.
  intros Hp HQ R k Hk. exists o, R. split; [done|]. split.
  - rewrite <- (app_nil_r o). apply Hp. intros _ o' Ho'. cbn [wp]. by rewrite app_nil_r.
  - by apply (Hk tt []).
Qed.

(** *** Steps that do not concern the blocks *)

Definition same_job (g g' : Shared) : Prop := sps g' = sps g /\ disk (world g') tmp = disk (world g) tmp.

Lemma Inv_same g g' T : same_job g g' -> Inv g T -> Inv g' T.
Proof.
  intros [Hs Hd] [H1 H2 H3 H4 H5]. constructor; rewrite ?Hs; try done.
  intros He. destruct (H5 He) as [P1 P2 P3 P4 P5 P6 P7 P8 P9]. constructor; rewrite ?Hs; try done.
  unfold content_ok. rewrite Hs, Hd. done.
Qed.

Lemma spec_same {A} (st : Shared -> Shared * A) o :
  (forall g, same_job g (st g).1) -> act_spec st o (fun _ o' => o' = o).
Proof.
  intros Hst g F HI. pose proof (Hst g) as Hs. split; [by rewrite (proj1 Hs)|].
  exists o. split; [by eapply Inv_same|done].
Qed.

(** The job fails: its tokens are void. *)
Lemma Inv_failed g T : OutT ∈ T -> (forall T', OutT ∈ T' -> (KeepT ∉ T') -> err (sps g) <> None -> Inv g T -> Inv g T').
Proof.
  intros HT T' HT' HK He [H1 H2 H3 H4 H5]. constructor; try done. auto.
Qed.

Lemma err_failLocked e (s : sharedPullerState Fd E) : err (failLocked (Some e) s) <> None.
Proof. unfold failLocked. by destruct (err s) eqn:E1; cbn; rewrite ?E1. Qed.

Definition static_eq (s s' : sharedPullerState Fd E) : Prop :=
  file s' = file s /\ tempName s' = tempName s /\ reused s' = reused s /\ sparse s' = sparse s /\ closed s' = closed s.
Lemma static_failLocked e (s : sharedPullerState Fd E) :
  static_eq s (failLocked e s) /\ writer (failLocked e s) = writer s /\
  copyNeeded (failLocked e s) = copyNeeded s /\ pullNeeded (failLocked e s) = pullNeeded s.
Proof. unfold failLocked, static_eq. by destruct (err s), e. Qed.

Lemma keep_out g T : Inv g T -> OutT ∈ T -> KeepT ∉ T.
Proof.
  intros HI HO HK. destruct (I_keep _ _ HI HK) as [-> _]. apply elem_of_cons in HO as [?|?%elem_of_nil]; done.
Qed.

Lemma not_keep_cons o F : (KeepT ∉ o ++ F) -> KeepT ∉ F.
Proof. intros H HF. apply H, elem_of_app. by right. Qed.

(** The state after a failure, from any state with the same keys. *)
Lemma Inv_to_failed g g' T T' :
  Inv g T -> OutT ∈ T -> OutT ∈ T' -> (KeepT ∉ T') -> static_eq (sps g) (sps g') ->
  (forall fd, writer (sps g') = Some fd -> fd_name fd = tmp /\ closed (sps g') = false) ->
  err (sps g') <> None -> Inv g' T'.
Proof.
  intros [(A1 & A2 & A3 & A4) H2 H3 H4 H5] HO HO' HK (S1 & S2 & S3 & S4 & S5) Hw He. constructor; try done.
  - by rewrite S1, S2, S3, S4.
  - auto.
Qed.

Lemma spec_fail e l :
  act_spec (fun g : Shared => (set_sps (failLocked (Some e) (sps g)) g, tt)) (OutT :: l) (fun _ o' => o' = [OutT; FailT]).
Proof.
  intros g F HI. destruct (static_failLocked (Some e) (sps g)) as (Hs & Hw & _). cbn [fst snd set_sps sps]. split.
  { intros Hc. destruct Hs as (_ & _ & _ & _ & ->). done. }
  exists [OutT; FailT]. split; [|done]. eapply (Inv_to_failed g); [exact HI|..]; cbn [sps set_sps]; try done.
  - cbn. by constructor.
  - cbn. by constructor.
  - pose proof (keep_out _ _ HI ltac:(by constructor)) as HK. apply not_keep_cons in HK.
    cbn. rewrite !not_elem_of_cons. done.
  - rewrite Hw. intros fd Hfd. destruct (I_writer _ _ HI fd Hfd) as [? Hc]. split; [done|].
    destruct Hs as (_ & _ & _ & _ & ->). done.
  - apply err_failLocked.
Qed.

Lemma spec_failed l :
  act_spec (fun g : Shared => (g, err (sps g))) (OutT :: l)
    (fun r o' => match r with None => o' = OutT :: l /\ FailT ∉ l | Some _ => o' = [OutT; FailT] end).
Proof.
  intros g F HI. split; [done|]. cbn [fst snd]. destruct (err (sps g)) as [e|] eqn:Ee.
  - exists [OutT; FailT]. split; [|done]. eapply (Inv_to_failed g); [exact HI|..]; try done.
    + by constructor.
    + by constructor.
    + pose proof (keep_out _ _ HI ltac:(by constructor)) as HK. apply not_keep_cons in HK.
      cbn. rewrite !not_elem_of_cons. done.
    + apply (I_writer _ _ HI).
    + by rewrite Ee.
  - exists (OutT :: l). split; [done|]. split; [done|]. pose proof (P_nofail _ _ (I_pending _ _ HI Ee)) as Hn.
    intros H. apply Hn. cbn. right. apply elem_of_app. by left.
Qed.

(** *** Counters *)

(** The state with other counters. *)
Lemma opened_counters s s' :
  writer s' = writer s -> closed s' = closed s -> opened s' <-> opened s.
Proof. intros Hw Hc. unfold opened. by rewrite Hw, Hc. Qed.

Inductive duty := Copying | Pulling_.
Definition tok (d : duty) : kind -> BlockInfo -> token := match d with Copying => CopyT | Pulling_ => PullT end.

Lemma owned_cons t T k b : owned (t :: T) k b <-> t = CopyT k b \/ t = PullT k b \/ owned T k b.
Proof. unfold owned. rewrite !elem_of_cons. intuition congruence. Qed.
Lemma owned_in T k b : owned T k b -> b ∈ omap tblock T.
Proof. intros [H|H]; apply list_elem_of_omap; eauto. Qed.
Lemma tok_block d k b : tblock (tok d k b) = Some b.
Proof. by destruct d. Qed.
Lemma owned_tok d k b k' b' T : owned (tok d k b :: T) k' b' <-> (k = k' /\ b = b') \/ owned T k' b'.
Proof. rewrite owned_cons. destruct d; cbn; intuition congruence. Qed.

(** A block that is in place is not owned any more. *)
Lemma content_done g g' d k b F :
  NoDup (omap tblock (OutT :: tok d k b :: F)) ->
  (k = Written /\ opened (sps g)) \/ (k = Clean /\ skippable b) -> b ∈ Blocks f ->
  disk (world g') tmp = disk (world g) tmp -> (opened (sps g') <-> opened (sps g)) ->
  content_ok g (OutT :: tok d k b :: F) -> content_ok g' (OutT :: F).
Proof.
  intros Hnd Hk Hb Hdk Hop [C1 C2]. cbn [omap list_omap tblock] in Hnd. rewrite tok_block in Hnd.
  apply list.NoDup_cons in Hnd as [Hnb Hnd].
  assert (forall b', unowned (OutT :: F) b' -> b' <> b -> unowned (OutT :: tok d k b :: F) b') as Hun.
  { intros b' Hu Hne. unfold unowned in *. cbn in *. rewrite tok_block. by apply not_elem_of_cons. }
  assert (forall k' b', owned (OutT :: F) k' b' -> owned (OutT :: tok d k b :: F) k' b') as Hown.
  { intros k' b' Ho. rewrite owned_cons in *. destruct Ho as [?|[?|Ho]]; [done..|]. right. right.
    apply owned_tok. by right. }
  assert (owned (OutT :: tok d k b :: F) k b) as Hbt by (rewrite owned_cons, owned_tok; auto).
  split.
  - intros Ho. apply Hop in Ho. destruct (C1 Ho) as (c & Hc & Hsz & Hall). exists c. split; [by rewrite Hdk|]. split; [done|].
    intros b' Hb'. destruct (Hall b' Hb') as (B1 & B2 & B3). split; [|split].
    + intros Hw. apply B1, Hown, Hw.
    + intros Hw. apply B2, Hown, Hw.
    + intros Hu. destruct (decide (b' = b)) as [->|Hne]; [|by apply B3, Hun].
      destruct Hk as [ [-> _]|[-> Hsk] ]; [left; by apply B2|].
      apply settled_skip; auto.
  - intros Ho b' Hb' Hu. rewrite Hop in Ho. destruct (decide (b' = b)) as [->|Hne].
    + destruct Hk as [ [_ Hk]|[_ Hsk] ]; [done|]. destruct (decide (r = 0)); [done|].
      intros c _. destruct Hsk as [?|(_ & ? & _)]; [by left|done].
    + specialize (C2 Ho b' Hb' (Hun b' Hu Hne)). by rewrite Hdk.
Qed.

Definition finished_block (d : duty) (now : GoTime) (b : BlockInfo) : sharedPullerState Fd E -> sharedPullerState Fd E :=
  match d with Copying => copyDone now b | Pulling_ => pullDone now b end.

Lemma spec_done d k now b :
  k = Written \/ (k = Clean /\ skippable b) ->
  act_spec (fun g : Shared => (set_sps (finished_block d now b (sps g)) g, tt)) [OutT; tok d k b] (fun _ o' => o' = [OutT]).
Proof.
  intros Hk g F HI. pose proof HI as [H1 H2 H3 H4 H5]. cbn [app fst snd] in *.
  assert (err (finished_block d now b (sps g)) = err (sps g) /\ writer (finished_block d now b (sps g)) = writer (sps g) /\
          closed (finished_block d now b (sps g)) = closed (sps g)) as (E1 & E2 & E3) by (by destruct d).
  split; [by cbn; rewrite E3|]. exists [OutT]. split; [|done]. pose proof (keep_out _ _ HI ltac:(by constructor)) as HK.
  constructor; cbn [sps set_sps app world]; rewrite ?E1, ?E2, ?E3; try done.
  - by destruct d.
  - intros HKT. exfalso. apply HK. rewrite !elem_of_cons in *. destruct HKT; auto.
  - right. left. by constructor.
  - intros He. destruct (H5 He) as [P1 P2 P3 P4 P5 P6 P7 P8 P9]. cbn in P1, P2, P3, P4, P5.
    rewrite tok_block in P3, P4, P5. pose proof P3 as [Hnb Hnd] %list.NoDup_cons.
    constructor; cbn [sps set_sps app world]; rewrite ?E2, ?E3; try done.
    + destruct d; cbn in *; lia.
    + destruct d; cbn in *; lia.
    + cbn. intros b' Hb'. apply P4. by constructor.
    + intros Hc. by apply P5 in Hc.
    + rewrite !not_elem_of_cons in *. intuition.
    + intros Ho. unfold opened. rewrite E2, E3. apply P7. rewrite !elem_of_cons in *. destruct Ho; auto.
    + intros b' Hw. unfold opened. rewrite E2, E3. apply (P8 b'). apply owned_cons in Hw.
      destruct Hw as [?|[?|Hw]]; [done..|]. apply owned_cons. right. right. apply owned_tok. by right.
    + intros Hnp. eapply (content_done g _ d k b); cbn; rewrite ?tok_block; try done.
      * destruct Hk as [->|Hk]; [left; split; [done|]|by right]. apply (P8 b). rewrite owned_cons, owned_tok. auto.
      * apply P4. by constructor.
      * by apply opened_counters.
      * apply P9. intros t Ht. rewrite !elem_of_cons in Ht. destruct Ht as [->|[->|Ht]]; [by intros []| |].
        -- destruct Hk as [->|[-> _] ]; destruct d; by intros [].
        -- apply Hnp. rewrite elem_of_cons. auto.
Qed.

Lemma spec_origin (upd : sharedPullerState Fd E -> sharedPullerState Fd E) o :
  (forall s, static_eq s (upd s) /\ err (upd s) = err s /\ writer (upd s) = writer s /\
     copyNeeded (upd s) = copyNeeded s /\ pullNeeded (upd s) = pullNeeded s) ->
  act_spec (fun g : Shared => (set_sps (upd (sps g)) g, tt)) o (fun _ o' => o' = o).
Proof.
  intros Hu g F HI. pose proof HI as [H1 H2 H3 H4 H5].
  destruct (Hu (sps g)) as ((S1 & S2 & S3 & S4 & S5) & S6 & S7 & S8 & S9). cbn [fst snd]. split; [by cbn; rewrite S5|].
  exists o. split; [|done]. constructor; cbn [sps set_sps world]; rewrite ?S1, ?S2, ?S3, ?S4, ?S5, ?S6, ?S7, ?S8, ?S9; try done.
  intros He. destruct (H5 He) as [P1 P2 P3 P4 P5 P6 P7 P8 P9].
  assert (opened (upd (sps g)) <-> opened (sps g)) as Ho by (by apply opened_counters).
  constructor; cbn [sps set_sps world]; rewrite ?S5, ?S8, ?S9, ?Ho; try done.
  - intros b Hw. apply Ho. by apply (P8 b).
  - intros Hnp. destruct (P9 Hnp) as [C1 C2]. split; cbn [sps set_sps world]; rewrite Ho; done.
Qed.

(** From copying to pulling. *)
Lemma content_moved g g' b F :
  disk (world g') tmp = disk (world g) tmp -> (opened (sps g') <-> opened (sps g)) ->
  content_ok g (OutT :: CopyT Clean b :: F) -> content_ok g' (OutT :: OutT :: PullT Clean b :: F).
Proof.
  intros Hdk Hop [C1 C2].
  assert (forall b', unowned (OutT :: OutT :: PullT Clean b :: F) b' -> unowned (OutT :: CopyT Clean b :: F) b') as Hun by done.
  assert (forall k' b', owned (OutT :: OutT :: PullT Clean b :: F) k' b' -> owned (OutT :: CopyT Clean b :: F) k' b') as Hown.
  { intros k' b'. rewrite !owned_cons. intuition congruence. }
  split.
  - intros Ho. apply Hop in Ho. destruct (C1 Ho) as (c & Hc & Hsz & Hall). exists c. split; [by rewrite Hdk|]. split; [done|].
    intros b' Hb'. destruct (Hall b' Hb') as (B1 & B2 & B3). split; [|split]; auto.
  - intros Ho b' Hb' Hu. rewrite Hop in Ho. specialize (C2 Ho b' Hb' (Hun b' Hu)). by rewrite Hdk.
Qed.

Lemma spec_pullStarted now b :
  act_spec (fun g : Shared => (set_sps (pullStarted now (sps g)) g, tt)) [OutT; CopyT Clean b]
    (fun _ o' => o' = [OutT; OutT; PullT Clean b]).
Proof.
  intros g F HI. pose proof HI as [H1 H2 H3 H4 H5]. cbn [app fst snd] in *. split; [done|].
  exists [OutT; OutT; PullT Clean b]. split; [|done]. pose proof (keep_out _ _ HI ltac:(by constructor)) as HK.
  constructor; cbn [sps set_sps app world]; try done.
  - intros HKT. exfalso. apply HK. rewrite !elem_of_cons in *. intuition congruence.
  - right. left. by constructor.
  - intros He. destruct (H5 He) as [P1 P2 P3 P4 P5 P6 P7 P8 P9]. cbn in P1, P2, P3, P4, P5.
    constructor; cbn [sps set_sps app world]; try done.
    + cbn. lia.
    + cbn. lia.
    + intros Hn. apply P6. revert Hn. rewrite !elem_of_cons. intuition congruence.
    + intros Ho. apply P7. rewrite !elem_of_cons in *. intuition congruence.
    + intros b' Hw. apply (P8 b'). rewrite !owned_cons in *. intuition congruence.
    + intros Hnp. eapply content_moved; [done|done|]. apply P9. intros t Ht.
      rewrite !elem_of_cons in Ht. destruct Ht as [->|[->|Ht]]; [by intros []..|].
      apply Hnp. rewrite !elem_of_cons. auto.
Qed.

(** *** The temporary file *)

Abbreviation the_inWritableDir := (inWritableDir Dir).

Lemma inWritableDir_disk {A} (fn : op W E A) path w :
  (disk (the_inWritableDir fn path w).1 = disk w /\ exists e, (the_inWritableDir fn path w).2 = inl e) \/
  exists w1, disk w1 = disk w /\ disk (the_inWritableDir fn path w).1 = disk (fn w1).1 /\
    match (the_inWritableDir fn path w).2 with inr a => (fn w1).2 = inr a | inl _ => exists e, (fn w1).2 = inl e end.
Proof.
  unfold inWritableDir. pose proof (Stat_disk (Dir path) w) as Hs.
  destruct (fs_Stat (Dir path) w) as [w1 [e|[isDir mode] ] ]; cbn [fst] in Hs; [left; eauto|].
  destruct isDir; cbn [negb]; [|left; eauto]. right. cbv zeta. set (mo := Z.land mode permBits).
  assert (forall w2 (pe : option E) (rs : bool), disk w2 = disk w ->
    let res := let '(w3, rr) := fn w2 in
      (if rs then (fs_Chmod (Dir path) mo w3).1 else w3,
       match rr, pe with
       | inl e, Some _ => if IsPermission e then inl (Errorf (gostr "error after failing to make parent directory writable") e) else rr
       | _, _ => rr
       end) in
    exists w1', disk w1' = disk w /\ disk res.1 = disk (fn w1').1 /\
      match res.2 with inr a => (fn w1').2 = inr a | inl _ => exists e, (fn w1').2 = inl e end) as Hgen.
  { intros w2 pe rs Hw2. cbv zeta. exists w2. split; [done|]. destruct (fn w2) as [w3 rr]. cbn [fst snd]. split.
    - destruct rs; [apply Chmod_disk|done].
    - destruct rr as [e|a]; [|by destruct pe]. destruct pe; [destruct (IsPermission e)|]; eauto. }
  destruct (Z.land mo 128 =? 0).
  - pose proof (Chmod_disk (Dir path) (Z.lor mo 448) w1) as Hc.
    destruct (fs_Chmod (Dir path) (Z.lor mo 448) w1) as [w2 [e|[] ] ]; cbn [fst] in Hc.
    + apply (Hgen w2 (Some e) false). by rewrite Hc.
    + apply (Hgen w2 None true). by rewrite Hc.
  - apply (Hgen w1 None false Hs).
Qed.

(** Opening: the file is empty or the one to be reused, and with sparse files
    it has its final size; a failure leaves a file that is reused as it was,
    or removes it. *)
Lemma tempFileInWritableDir_disk (s : sharedPullerState Fd E) w :
  file s = f -> tempName s = tmp -> reused s = r -> sparse s = negb (DisableSparseFiles cfg) ->
  match tempFileInWritableDir protoSize s w with
  | (w', inr fd) => fd_name fd = tmp /\ exists c0 c, disk w' tmp = Some c /\
      (if decide (r = 0) then c0 = [] else disk w tmp = Some c0) /\
      (c = (if DisableSparseFiles cfg then c0 else resize c0 (FSize f)) \/ (c = c0 /\ r = 0 /\ ~ truncates))
  | (w', inl _) => r <> 0 -> disk w' tmp = None \/ disk w' tmp = disk w tmp
  end.
Proof.
  intros Hf Ht Hr Hsp. unfold tempFileInWritableDir. rewrite Hf, Ht, Hr, Hsp. cbv zeta.
  destruct (J_plain J) as [Hsym Henc]. rewrite Hsym, Henc. cbn [is_nil negb].
  set (mode := if ignorePerms s then 438 else _). pose proof (J_reused J) as Hr0.
  assert (disk (if (r =? 0) || ignorePerms s then (w, inr tt : E + unit) else fs_Chmod tmp mode w).1 = disk w) as Hch.
  { destruct ((r =? 0) || ignorePerms s); [done|]. apply Chmod_disk. }
  destruct (if (r =? 0) || ignorePerms s then (w, inr tt : E + unit) else fs_Chmod tmp mode w) as [w1 rc].
  cbn [fst] in Hch. destruct rc as [e|[] ]; [intros _; right; by rewrite Hch|].
  set (flags := if r =? 0 then _ else _).
  assert (Z.testbit flags 7 = bool_decide (r = 0) /\ Z.testbit flags 6 = bool_decide (r = 0)) as [Hf7 Hf6].
  { unfold flags. destruct (Z.eqb_spec r 0); [by rewrite !bool_decide_true|by rewrite !bool_decide_false]. }
  destruct (fs_OpenFile tmp flags mode w1) as [w2 [e|fd] ] eqn:Eo.
  { intros Hne. right. rewrite (Open_err _ _ _ _ _ _ ltac:(by rewrite Hf6, bool_decide_false) Eo). by rewrite Hch. }
  destruct (Open_ok _ _ _ _ _ _ Eo) as (Hn & c0 & Hc0 & Hif). rewrite Hf7 in Hif.
  assert (if decide (r = 0) then c0 = [] else disk w tmp = Some c0) as Hc0'.
  { case_bool_decide; case_decide; try done. by rewrite <- Hch. }
  pose proof (Hide_disk tmp w2) as Hh. set (w3 := (fs_Hide tmp w2).1) in *. rewrite andb_true_r.
  destruct (DisableSparseFiles cfg) eqn:Ed; cbn [negb].
  { split; [done|]. exists c0, c0. rewrite Hh. auto. }
  destruct (fd_Truncate fd (FSize f) w3) as [w4 [e|[] ] ] eqn:Et.
  - pose proof (Truncate_err _ _ _ _ _ Et) as He. destruct (0 <? r) eqn:Er.
    + intros Hne. rewrite decide_False in Hc0' by done. destruct (Remove_disk tmp (fd_Close fd w4).1) as [?|Hrm]; [by left|right]. by rewrite Hrm, Close_disk, He, Hh, Hc0, Hc0'.
    + split; [done|]. exists c0, c0. rewrite He, Hh. do 2 (split; [done|]). right. apply Z.ltb_ge in Er. split; [done|]. split; [lia|].
      intros Htr. destruct (Htr fd (FSize f) w3) as [w5 Ht5]. congruence.
  - split; [done|]. exists c0, (resize c0 (FSize f)). split; [|by split; [|left] ]. rewrite <- Hn at 1.
    apply (Truncate_ok fd (FSize f) w3); [done|]. by rewrite Hh, Hn.
Qed.

(** The content after opening. *)
Lemma content_opened g g' T c0 c :
  content_ok g T -> ~ opened (sps g) -> (forall b, ~ owned T Written b) ->
  disk (world g') tmp = Some c ->
  (if decide (r = 0) then c0 = [] else disk (world g) tmp = Some c0) ->
  c = (if DisableSparseFiles cfg then c0 else resize c0 (FSize f)) \/ (c = c0 /\ r = 0 /\ ~ truncates) -> content_ok g' T.
Proof.
  intros [_ C2] Hno Hnw Hd Hc0 Hc. destruct (J_layout J) as (_ & Hlay & _). unfold blockEnd in Hlay.
  assert (forall b, b ∈ Blocks f -> skippable b -> blank c b) as Hz.
  { intros b Hb [?|(Hs & Hr & _)]; [by left|]. right. intros i x _ Hx. rewrite decide_True in Hc0 by done. subst c0.
    destruct Hc as [->|(-> & _)]; [|done]. rewrite Hs in Hx. unfold resize in Hx. apply lookup_take_Some in Hx as [Hx _]. cbn in Hx.
    unfold zeroes in Hx. by apply lookup_replicate in Hx as [-> _]. }
  assert (forall b, b ∈ Blocks f -> good c0 b -> r <> 0 -> good c b) as Hg.
  { intros b Hb [?|[H1 H2]] Hr; [by left|]. specialize (Hlay b Hb). unfold blockEnd in *. right. destruct Hc as [->|(_ & ? & _)]; [|done].
    destruct (DisableSparseFiles cfg); [done|]. rewrite resize_length by lia.
    unfold blockEnd. split; [lia|]. by rewrite sub_resize by lia. }
  split; [intros _|].
  - exists c. split; [done|]. split.
    { intros Ht Hs. destruct Hc as [->|(_ & Hr & Hn)]; [|by destruct Ht]. rewrite Hs. apply resize_length, (J_size J). }
    intros b Hb. split; [|split].
    + intros _ Hsk. by apply Hz.
    + intros Hw. by destruct (Hnw b).
    + intros Hu. specialize (C2 Hno b Hb Hu). destruct (decide (r = 0)) as [|Hr]; [by apply settled_skip; [|apply Hz] |].
      left. by apply Hg; [|apply C2|].
  - intros Hn b Hb Hu. specialize (C2 Hno b Hb Hu). destruct (decide (r = 0)); [done|].
    intros c' Hc'. assert (c' = c) as -> by congruence. by apply Hg; [|apply C2|].
Qed.

Lemma not_opened s : writer s = None -> closed s = false -> ~ opened s.
Proof. unfold opened. intros -> ->. by intros [?|?]. Qed.

Lemma addWriter_ok g T :
  Inv g T -> writer (sps g) = None -> closed (sps g) = false ->
  match addWriterLocked Dir protoSize (sps g) (world g) with
  | ((s', w'), None) => exists fd, s' = set_status (err (sps g)) (Some fd) false (sps g) /\ fd_name fd = tmp /\
      Inv (set_sps_world s' w' g) T
  | ((s', w'), Some _) => s' = sps g /\ ~ live /\ (r <> 0 -> disk w' tmp = None \/ disk w' tmp = disk (world g) tmp)
  end.
Proof.
  intros HI Hw Hc. pose proof HI as [ (S1 & S2 & S3 & S4) H2 H3 H4 H5]. unfold addWriterLocked. rewrite S2.
  pose proof (inWritableDir_disk (tempFileInWritableDir protoSize (sps g)) tmp (world g)) as Hd.
  destruct (inWritableDir Dir (tempFileInWritableDir protoSize (sps g)) tmp (world g)) as [w' [e|fd] ] eqn:Ei; cbn [fst snd] in Hd.
  - split; [done|]. split.
    + intros HL. destruct (Jlive HL (sps g) (world g) S2 S3) as (w2 & fd & E2). congruence.
    + intros Hr. destruct Hd as [ [-> _]|(w1 & Hw1 & Hd & e' & He')]; [by right|].
      pose proof (tempFileInWritableDir_disk (sps g) w1 S1 S2 S3 S4) as Ht.
      destruct (tempFileInWritableDir protoSize (sps g) w1) as [w2 rr]. cbn [fst snd] in *. subst rr.
      rewrite Hd, <- Hw1. by apply Ht.
  - destruct Hd as [ [_ [e He] ]|(w1 & Hw1 & Hd & Hfd)]; [done|].
    pose proof (tempFileInWritableDir_disk (sps g) w1 S1 S2 S3 S4) as Ht.
    destruct (tempFileInWritableDir protoSize (sps g) w1) as [w2 rr]. cbn [fst snd] in *. subst rr.
    destruct Ht as (Hn & c0 & c & Hdc & Hc0 & Hcc). exists fd. rewrite Hc. split; [done|]. split; [done|].
    constructor; cbn [sps set_sps_world set_status world]; try done.
    + intros fd' [= <-]. done.
    + rewrite Hc in H3. done.
    + rewrite Hc in H4. done.
    + intros He. destruct (H5 He) as [P1 P2 P3 P4 P5 P6 P7 P8 P9].
      pose proof (not_opened _ Hw Hc) as Hno.
      constructor; cbn [sps set_sps_world set_status world]; try done.
      * intros Ho. by left.
      * intros b Ho. by left.
      * intros Hnp. eapply (content_opened g _ T c0 c); try done.
        -- by apply P9.
        -- intros b Hb. by apply Hno, (P8 b).
        -- cbn. by rewrite Hd.
        -- by rewrite <- Hw1.
Qed.

Lemma tempFile_core g T :
  Inv g T -> (err (sps g) = None -> closed (sps g) = false) ->
  let '((s', w'), res) := tempFile Dir protoSize (sps g) (world g) in
  closed s' = closed (sps g) /\
  match res with
  | inr fd => fd_name fd = tmp /\ Inv (set_sps_world s' w' g) T /\ opened s' /\ err s' = None
  | inl e => err s' <> None /\ static_eq (sps g) s' /\
      (forall fd, writer s' = Some fd -> fd_name fd = tmp /\ closed s' = false)
  end.
Proof.
  intros HI Hnc. unfold tempFile. destruct (err (sps g)) as [e|] eqn:Ee.
  { split; [done|]. rewrite Ee. split; [done|]. split; [by repeat split|]. apply (I_writer _ _ HI). }
  specialize (Hnc eq_refl). destruct (writer (sps g)) as [fd|] eqn:Ew.
  { split; [done|]. destruct (I_writer _ _ HI fd Ew) as [Hn _]. split; [done|]. split; [|split; [|done] ].
    - eapply Inv_same; [|exact HI]. done.
    - left. by rewrite Ew. }
  pose proof (addWriter_ok g T HI Ew Hnc) as Ha.
  destruct (addWriterLocked Dir protoSize (sps g) (world g)) as [ [s' w'] [e|] ].
  - destruct Ha as (-> & _ & _). destruct (static_failLocked (Some e) (sps g)) as (Hs & Hw & _).
    split; [by destruct Hs as (_ & _ & _ & _ & ->)|]. split; [apply err_failLocked|]. split; [done|].
    rewrite Hw, Ew. done.
  - destruct Ha as (fd & -> & Hn & HI'). cbn [writer set_status closed]. split; [done|]. split; [done|].
    split; [done|]. split; [by left|]. cbn. by rewrite Ee.
Qed.

Abbreviation st_tempFile := (fun g : Shared =>
  let '((s, w), r) := tempFile Dir protoSize (sps g) (world g) in (set_sps_world s w g, r)).

Lemma in_block d k b F : b ∈ omap tblock (OutT :: tok d k b :: F).
Proof. cbn. rewrite tok_block. constructor. Qed.
Lemma nil_block d k b F : omap tblock (OutT :: tok d k b :: F) <> [].
Proof. cbn. by rewrite tok_block. Qed.

Lemma Inv_open g T : Inv g T -> OutT ∈ T -> opened (sps g) -> Inv g (OpenT :: T).
Proof.
  intros HI HO Ho. pose proof HI as [H1 H2 H3 H4 H5]. constructor; try done.
  - rewrite !elem_of_cons. intros [?|HK]; [done|]. by destruct (keep_out _ _ HI HO).
  - intros HL Hr. rewrite !elem_of_cons. destruct (H4 HL Hr) as [?|[?|?]]; auto.
  - intros He. destruct (H5 He) as [P1 P2 P3 P4 P5 P6 P7 P8 P9]. constructor; try done.
    + rewrite elem_of_cons. by intros [?|?].
    + intros Hnp. assert (content_ok g T) as [C1 C2].
      { apply P9. intros t Ht. apply Hnp. by constructor. }
      split; [|done]. intros Ho'. destruct (C1 Ho') as (c & Hc & Hsz & Hb). exists c. split; [done|]. split; [done|]. intros b Hin.
      destruct (Hb b Hin) as (B1 & B2 & B3). split; [|split].
      * intros Hw. apply B1. apply owned_cons in Hw as [?|[?|?]]; done.
      * intros Hw. apply B2. apply owned_cons in Hw as [?|[?|?]]; done.
      * intros Hu. by apply B3.
Qed.

Lemma spec_tempFile d k b :
  act_spec st_tempFile [OutT; tok d k b]
    (fun r o' => match r with
                 | inl _ => o' = [OutT; FailT]
                 | inr fd => o' = [OpenT; OutT; tok d k b] /\ fd_name fd = tmp
                 end).
Proof.
  intros g F HI. pose proof (tempFile_core g _ HI) as Ht. pose proof (keep_out _ _ HI ltac:(by constructor)) as HK.
  assert (err (sps g) = None -> closed (sps g) = false) as Hnc.
  { intros He. destruct (closed (sps g)) eqn:Hc; [|done]. exfalso.
    by apply (nil_block d k b F), (P_closed _ _ (I_pending _ _ HI He)). }
  specialize (Ht Hnc). cbn beta. destruct (tempFile Dir protoSize (sps g) (world g)) as [ [s' w'] [e|fd] ]; cbn [fst snd].
  - destruct Ht as (Hc & He & Hs & Hw). split; [by cbn; rewrite Hc|]. exists [OutT; FailT]. split; [|done].
    eapply (Inv_to_failed g); [exact HI|..]; cbn [sps set_sps_world]; try done; [cbn; by constructor..|].
    cbn in *. rewrite !elem_of_cons in *. intros [?|[?|?]]; try done. apply HK. auto.
  - destruct Ht as (Hc & Hn & HI' & Ho & _). split; [by cbn; rewrite Hc|]. exists [OpenT; OutT; tok d k b].
    split; [|done]. cbn [app]. apply Inv_open; [done|constructor|done].
Qed.

Lemma content_written g g' d b buf c F :
  NoDup (omap tblock (OutT :: tok d Written b :: F)) -> b ∈ Blocks f ->
  zlen buf = Size b -> sha256 buf = Hash b -> 0 < Size b -> opened (sps g) -> sps g' = sps g ->
  disk (world g) tmp = Some c -> disk (world g') tmp = Some (splice c (Offset b) buf) ->
  content_ok g (OpenT :: OutT :: tok d Clean b :: F) -> content_ok g' (OutT :: tok d Written b :: F).
Proof.
  intros Hnd Hb Hl Hh Hpos Ho Hs Hd Hd' [C1 _]. cbn in Hnd. rewrite tok_block in Hnd.
  apply list.NoDup_cons in Hnd as [Hnb _]. split; [intros _|intros Hno; rewrite Hs in Hno; done].
  exists (splice c (Offset b) buf). split; [done|]. destruct (C1 Ho) as (c1 & Hc1 & Hsz & Hall).
  assert (c1 = c) as -> by congruence. destruct (J_layout J) as (_ & Hlay & Hdis). split.
  { intros Ht Hsp. specialize (Hsz Ht Hsp). destruct (Hlay b Hb) as (L1 & _ & L3). unfold blockEnd in L3.
    rewrite splice_inside; lia. }
  intros b' Hb'. destruct (decide (b' = b)) as [->|Hne].
  - destruct (Hlay b Hb) as (L1 & _). pose proof (splice_good c buf b L1 Hl Hh) as Hg. split; [|by split; [|left] ].
    intros Hw. exfalso. apply owned_cons in Hw as [?|[?|Hw]]; [done..|].
    apply owned_tok in Hw as [ [? _]|Hw]; [done|]. by apply Hnb, (owned_in _ Clean).
  - destruct (Hlay b Hb) as (L1 & _), (Hlay b' Hb') as (L1' & L2' & _).
    destruct (splice_keeps c buf b b' L1 L1' L2' Hl Hpos (Hdis b b' Hb Hb' (not_eq_sym Hne))) as [Kg Kz].
    destruct (Hall b' Hb') as (B1 & B2 & B3).
    assert (forall k, owned (OutT :: tok d Written b :: F) k b' -> owned (OpenT :: OutT :: tok d Clean b :: F) k b') as Ho'.
    { intros k Hw. apply owned_cons in Hw as [?|[?|Hw]]; [done..|]. apply owned_tok in Hw as [ [_ ?]|Hw]; [congruence|].
      rewrite !owned_cons. tauto. }
    split; [|split].
    + intros Hw Hsk. apply Kz, B1; [by apply Ho'|done].
    + intros Hw. by apply Kg, B2, Ho'.
    + intros Hu. apply splice_settled; auto; [by apply Hdis; [| |apply not_eq_sym]|]. apply B3. unfold unowned in *. cbn in *. by rewrite tok_block in *.
Qed.

Lemma filter_tok d k k' b P F :
  P = isCopy \/ P = isPull ->
  length (List.filter P (OutT :: tok d k b :: F)) = length (List.filter P (OutT :: tok d k' b :: F)).
Proof. intros [->| ->]; by destruct d. Qed.

Lemma Inv_retoken g g' d k k' b F :
  Inv g (OpenT :: OutT :: tok d k b :: F) -> sps g' = sps g ->
  (pending_ok g (OpenT :: OutT :: tok d k b :: F) -> (forall t, t ∈ OutT :: tok d k' b :: F -> ~ poison t) ->
   content_ok g' (OutT :: tok d k' b :: F)) ->
  Inv g' (OutT :: tok d k' b :: F).
Proof.
  intros HI Hs Hcont. pose proof HI as [H1 H2 H3 H4 H5].
  assert (KeepT ∉ OpenT :: OutT :: tok d k b :: F) as HK.
  { apply (keep_out _ _ HI). constructor. by constructor. }
  constructor; rewrite ?Hs; try done.
  - intros HKT. exfalso. apply HK. revert HKT. rewrite !elem_of_cons. intros [?|[?|?]]; [done|by destruct d|auto].
  - right. left. by constructor.
  - intros He. pose proof (H5 He) as HP. destruct HP as [P1 P2 P3 P4 P5 P6 P7 P8 P9].
    assert (opened (sps g)) as Ho by (apply P7; constructor).
    constructor; rewrite ?Hs; try done.
    + rewrite P1. change (List.filter isCopy (OpenT :: ?l)) with (List.filter isCopy l). f_equal. apply filter_tok. auto.
    + rewrite P2. change (List.filter isPull (OpenT :: ?l)) with (List.filter isPull l). f_equal. apply filter_tok. auto.
    + revert P3. cbn. by rewrite !tok_block.
    + revert P4. cbn. by rewrite !tok_block.
    + intros Hc. revert P5. cbn. rewrite !tok_block. intros P5. by apply P5 in Hc.
    + intros Hn. apply P6. revert Hn. rewrite !elem_of_cons. intros [?|[?|?]]; [done|by destruct d|auto].
    + intros Hnp. apply Hcont; [by apply H5|done].
Qed.

Abbreviation st_WriteAt fd d off := (fun g : Shared =>
  match fd_WriteAt fd d off (world g) with
  | (w, inl e) => (set_sps_world (sps g) w g, Some e)
  | (w, inr _) => (set_sps_world (sps g) w g, None)
  end).

Lemma spec_WriteAt d fd buf b :
  fd_name fd = tmp -> zlen buf = Size b -> sha256 buf = Hash b -> 0 < Size b ->
  act_spec (st_WriteAt fd buf (Offset b)) [OpenT; OutT; tok d Clean b]
    (fun r o' => match r with None => o' = [OutT; tok d Written b] | Some _ => o' = [OutT; tok d Poison b] end).
Proof.
  intros Hn Hl Hh Hpos g F HI. cbn [app] in HI. cbn beta.
  destruct (fd_WriteAt fd buf (Offset b) (world g)) as [w' [e|[] ] ] eqn:Ew; cbn [fst snd]; (split; [done|]).
  - exists [OutT; tok d Poison b]. split; [|done]. eapply Inv_retoken; [exact HI|done|].
    intros _ Hnp. exfalso. apply (Hnp (tok d Poison b)); [constructor; by constructor|by destruct d].
  - exists [OutT; tok d Written b]. split; [|done]. eapply Inv_retoken; [exact HI|done|].
    intros [P1 P2 P3 P4 P5 P6 P7 P8 P9] Hnp. cbn [omap list_omap tblock] in P3, P4. rewrite tok_block in P3, P4.
    assert (opened (sps g)) as Ho by (apply P7; constructor).
    assert (content_ok g (OpenT :: OutT :: tok d Clean b :: F)) as Hc.
    { apply P9. intros t. rewrite !elem_of_cons. intros [->|[->|[->|Ht]]]; [by intros []..|by destruct d; intros []|].
      apply Hnp. rewrite !elem_of_cons. auto. }
    assert (b ∈ Blocks f) as Hb by (apply P4; constructor).
    destruct (proj1 Hc Ho) as (c & Hdc & _). destruct (proj1 (proj2 (J_layout J)) b Hb) as (L1 & _).
    eapply (content_written g _ d b buf c); try done.
    + cbn. by rewrite tok_block.
    + cbn [world set_sps_world]. rewrite <- Hn. eapply WriteAt_ok; [exact Ew|done|by rewrite Hn].
Qed.

(** *** Closing *)

Abbreviation the_finalClose := (finalClose Dir protoSize marshal NormalizedFilename).

(** What [finalClose] does: nothing, if the file is closed or not ready; it
    fails to create the file; or it closes it, open by then. *)
Inductive close_case (g : Shared) (T : list token) :
    (sharedPullerState Fd E * W) * (bool * option E) -> Prop :=
| close_not : closed (sps g) = true \/ (err (sps g) = None /\ copyNeeded (sps g) + pullNeeded (sps g) <> 0) ->
    close_case g T ((sps g, world g), (false, None))
| close_failed w' e : closed (sps g) = false -> writer (sps g) = None -> ~ live ->
    (r <> 0 -> disk w' tmp = None \/ disk w' tmp = disk (world g) tmp) ->
    close_case g T ((sps g, w'), (false, e))
| close_done g1 s' w' : closed (sps g) = false -> Inv g1 T -> writer (sps g1) <> None ->
    (err (sps g1) = None -> copyNeeded (sps g1) + pullNeeded (sps g1) = 0) ->
    disk w' = disk (world g1) ->
    file s' = file (sps g1) /\ tempName s' = tempName (sps g1) /\ reused s' = reused (sps g1) /\
      sparse s' = sparse (sps g1) -> writer s' = None -> closed s' = true ->
    (err s' = None -> err (sps g1) = None) ->
    copyNeeded s' = copyNeeded (sps g1) -> pullNeeded s' = pullNeeded (sps g1) ->
    close_case g T ((s', w'), (true, err s')).

Lemma finalClose_open g T g1 s w :
  closed (sps g) = false -> Inv g1 T -> sps g1 = s -> disk (world g1) = disk w ->
  forall fd, writer s = Some fd -> (err s = None -> copyNeeded s + pullNeeded s = 0) ->
  close_case g T
    (let '((s, w), e) :=
       if negb (is_nil (Encrypted (file s))) then finalizeEncrypted protoSize marshal NormalizedFilename s fd w
       else ((s, w), None) in
     let s := failLocked e s in
     let w := if fsync s then (fd_Sync fd w).1 else w in
     let '(w, r) := fd_Close fd w in
     let s := failLocked (match r with inl e => Some e | inr _ => None end) s in
     let s := set_status (err s) None true s in
     let w := (fs_Unhide (tempName s) w).1 in
     ((s, w), (true, err s))).
Proof.
  intros Hc HI Hs Hd fd Hw Hn. destruct (I_static _ _ HI) as (S1 & S2 & S3 & S4). rewrite Hs in *.
  rewrite S1, (proj2 (J_plain J)). cbn [is_nil negb]. cbv zeta.
  assert (failLocked None s = s) as -> by (unfold failLocked; by destruct (err s)).
  set (w1 := if fsync s then (fd_Sync fd w).1 else w).
  assert (disk w1 = disk w) as Hd1 by (unfold w1; destruct (fsync s); [apply Sync_disk|done]).
  pose proof (Close_disk fd w1) as Hd2. destruct (fd_Close fd w1) as [w2 rr]. cbn [fst] in Hd2.
  set (s2 := failLocked _ s). destruct (static_failLocked (match rr with inl e => Some e | inr _ => None end) s) as ((F1 & F2 & F3 & F4 & F5) & F6 & F7 & F8).
  fold s2 in F1, F2, F3, F4, F5, F6, F7, F8.
  assert (err s2 = None -> err s = None) as He.
  { unfold s2, failLocked. destruct (err s) eqn:E1; [by rewrite E1|done]. }
  pose proof (Unhide_disk (tempName s2) w2) as Hd3.
  apply (close_done g T g1 (set_status (err s2) None true s2)); cbn [set_status err file tempName reused sparse writer closed copyNeeded pullNeeded];
    rewrite ?Hs; try done.
  - by rewrite Hw.
  - by rewrite Hd3, Hd2, Hd1.
Qed.

Lemma finalClose_cases g T : Inv g T -> close_case g T (the_finalClose (sps g) (world g)).
Proof.
  intros HI. unfold finalClose. destruct (closed (sps g)) eqn:Hc; [apply close_not; auto|].
  destruct (negb (pullNeeded (sps g) + copyNeeded (sps g) =? 0) && _) eqn:Hr.
  { apply andb_true_iff in Hr as [H1 H2]. apply negb_true_iff, Z.eqb_neq in H1. destruct (err (sps g)) eqn:He; [done|].
    apply close_not. right. split; [done|lia]. }
  assert (err (sps g) = None -> copyNeeded (sps g) + pullNeeded (sps g) = 0) as Hn.
  { intros He. rewrite He, andb_true_r in Hr. apply negb_false_iff, Z.eqb_eq in Hr. lia. }
  destruct (writer (sps g)) as [fd|] eqn:Hw.
  - cbv beta iota. rewrite Hw. by apply (finalClose_open g T g).
  - pose proof (addWriter_ok g T HI Hw Hc) as Ha.
    destruct (addWriterLocked Dir protoSize (sps g) (world g)) as [ [s' w'] [e|] ].
    + destruct Ha as (-> & Hl & Hd). by apply close_failed.
    + destruct Ha as (fd & -> & Hfd & HI'). cbv beta iota. cbn [writer set_status].
      by apply (finalClose_open g T (set_sps_world (set_status (err (sps g)) (Some fd) false (sps g)) w' g)).
Qed.

Lemma no_blocks g T :
  pending_ok g T -> copyNeeded (sps g) + pullNeeded (sps g) = 0 -> omap tblock T = [].
Proof.
  intros [P1 P2 _ _ _ _ _ _ _] Hz. rewrite P1, P2 in Hz. clear P1 P2. induction T as [|t T IH]; [done|].
  destruct t; cbn in *; try lia; apply IH; lia.
Qed.

Lemma all_good g T :
  pending_ok g T -> copyNeeded (sps g) + pullNeeded (sps g) = 0 -> opened (sps g) ->
  exists c, disk (world g) tmp = Some c /\ sized c /\ forall b, b ∈ Blocks f -> settled c b.
Proof.
  intros HP Hz Ho. pose proof (no_blocks _ _ HP Hz) as Hn.
  assert (content_ok g T) as [C1 _].
  { apply (P_content _ _ HP). intros t Ht Hp. assert (exists b, tblock t = Some b) as [b Hb].
    { destruct t as [ [] b|[] b| | | |]; try done; by exists b. }
    assert (b ∈ omap tblock T) as Hin by (apply list_elem_of_omap; eauto). rewrite Hn in Hin. by apply elem_of_nil in Hin. }
  destruct (C1 Ho) as (c & Hc & Hsz & Hb). exists c. split; [done|]. split; [done|]. intros b Hin. apply (Hb b Hin).
  unfold unowned. rewrite Hn. apply not_elem_of_nil.
Qed.

(** A file that is closed without an error has all its blocks. *)
Lemma finalClose_good g T s' w' :
  Inv g T -> the_finalClose (sps g) (world g) = ((s', w'), (true, None)) ->
  closed (sps g) = false /\ closed s' = true /\ exists c, disk w' tmp = Some c /\ sized c /\ forall b, b ∈ Blocks f -> settled c b.
Proof.
  intros HI Hf. pose proof (finalClose_cases g T HI) as Hc.
  destruct Hc as [| |g1 s1 w1 H1 HI1 H3 H4 H5 _ _ H7 H8 _ _]; [done..|]. injection Hf as -> -> E1.
  split; [done|]. split; [done|]. rewrite H5. pose proof (H8 E1) as He.
  apply (all_good g1 T); [by apply (I_pending _ _ HI1)|auto|by left].
Qed.

Lemma opened_drop g g' F :
  content_ok g (OutT :: F) -> (opened (sps g') <-> opened (sps g)) ->
  (disk (world g') tmp = disk (world g) tmp \/
   (~ opened (sps g) /\ (r <> 0 -> disk (world g') tmp = None \/ disk (world g') tmp = disk (world g) tmp))) ->
  content_ok g' F.
Proof.
  intros [C1 C2] Hop Hd. split.
  - intros Ho. apply Hop in Ho. destruct (C1 Ho) as (c & Hc & Hsz & Hb). exists c.
    destruct Hd as [->|[? _]]; [|done]. split; [done|]. split; [done|]. intros b Hin. destruct (Hb b Hin) as (B1 & B2 & B3).
    split; [|split]; [intros Hw; apply B1|intros Hw; apply B2|done]; by apply owned_cons; right; right.
  - intros Ho b Hin Hu. rewrite Hop in Ho. specialize (C2 Ho b Hin Hu). destruct (decide (r = 0)) as [|Hr]; [done|].
    intros c Hc. apply C2. destruct Hd as [<-|[_ Hd]]; [done|]. destruct (Hd Hr); congruence.
Qed.

(** The goroutine's duty to wake the finisher ends. *)
Lemma Inv_drop_out g g' F :
  Inv g (OutT :: F) -> sps g' = sps g ->
  (disk (world g') tmp = disk (world g) tmp \/
   (~ opened (sps g) /\ (r <> 0 -> disk (world g') tmp = None \/ disk (world g') tmp = disk (world g) tmp))) ->
  (live -> err (sps g) <> None \/ copyNeeded (sps g) + pullNeeded (sps g) = 0 -> closed (sps g) = true) -> Inv g' F.
Proof.
  intros HI Hs Hd Hl. pose proof HI as [H1 H2 H3 H4 H5]. pose proof (keep_out _ _ HI ltac:(by constructor)) as HK.
  apply not_elem_of_cons in HK as [_ HK]. constructor; rewrite ?Hs; try done.
  - auto.
  - intros He. destruct (H5 He) as [P1 P2 P3 P4 P5 P6 P7 P8 P9].
    constructor; rewrite ?Hs; try done.
    + apply not_elem_of_cons in P6. tauto.
    + intros Ho. apply P7. by constructor.
    + intros b Hw. apply (P8 b). apply owned_cons. auto.
    + intros Hnp. apply (opened_drop g); [|by rewrite Hs|done]. apply P9. intros t Ht.
      apply elem_of_cons in Ht as [->|Ht]; [by intros []|by apply Hnp].
Qed.

Abbreviation st_finalClose := (fun g : Shared =>
  let '((s, w), r) := the_finalClose (sps g) (world g) in (set_sps_world s w g, r)).

Lemma spec_finalClose : act_spec st_finalClose [OutT] (fun _ o' => o' = []).
Proof.
  intros g F HI. pose proof (finalClose_cases g _ HI) as Hc. cbn beta.
  inversion Hc as [Hn E1|w' e Hcl Hw Hl Hd E1|g1 s' w' Hcl HI1 Hw1 Hz Hd (S1 & S2 & S3 & S4) Hw2 Hc2 He Hcn Hpn E1];
    cbn [fst snd]; cbn [sps set_sps_world].
  - split; [done|]. exists []. split; [|done]. cbn [app] in *. eapply Inv_drop_out; [exact HI|done|by left|].
    intros _ Hr. destruct Hn as [?|[He Hz]]; [done|]. destruct Hr; done.
  - split; [done|]. exists []. split; [|done]. cbn [app] in *. eapply Inv_drop_out; [exact HI|done| |done].
    right. split; [by apply not_opened|done].
  - split; [done|]. exists []. split; [|done]. cbn [app] in *. pose proof HI1 as [A1 A2 A3 A4 A5].
    pose proof (keep_out _ _ HI1 ltac:(by constructor)) as HK. apply not_elem_of_cons in HK as [_ HK].
    constructor; cbn [sps set_sps_world world]; rewrite ?S1, ?S2, ?S3, ?S4, ?Hw2, ?Hc2, ?Hcn, ?Hpn; try done.
    + by left.
    + intros He'. specialize (He He'). specialize (Hz He). pose proof (A5 He) as HP.
      pose proof (no_blocks _ _ HP Hz) as Hno. cbn in Hno. destruct HP as [P1 P2 P3 P4 P5 P6 P7 P8 P9].
      constructor; cbn [sps set_sps_world world]; rewrite ?Hc2, ?Hcn, ?Hpn; try done.
      * apply not_elem_of_cons in P6. tauto.
      * intros _. by right.
      * intros b _. by right.
      * intros Hnp. apply (opened_drop g1).
        -- apply P9. intros t Ht. apply elem_of_cons in Ht as [->|Ht]; [by intros []|by apply Hnp].
        -- cbn [sps set_sps_world]. split; [intros _; by left|intros _; by right].
        -- left. cbn. by rewrite Hd.
Qed.

(** *** The routines *)

Lemma triple_fail e o l : o ≡ₚ OutT :: l -> triple o (do_fail e) (fun _ o' => o' = [OutT; FailT]).
Proof. intros Ho. eapply triple_perm; [symmetry; exact Ho|]. apply triple_atomic, spec_fail. Qed.

Lemma triple_failed l :
  triple (OutT :: l) failed
    (fun r o' => match r with None => o' = OutT :: l /\ FailT ∉ l | Some _ => o' = [OutT; FailT] end).
Proof. apply triple_atomic, spec_failed. Qed.

Lemma triple_timed (upd : GoTime -> sharedPullerState Fd E -> sharedPullerState Fd E) o Q :
  (forall now, act_spec (fun g : Shared => (set_sps (upd now (sps g)) g, tt)) o Q) -> triple o (timed upd) Q.
Proof. intros H. apply triple_ask. intros now. apply triple_atomic, H. Qed.

Lemma triple_origin o (upd : GoTime -> sharedPullerState Fd E -> sharedPullerState Fd E) :
  upd = copiedFromOrigin \/ upd = skippedSparseBlock -> triple o (timed upd) (fun _ o' => o' = o).
Proof. intros Hu. apply triple_timed. intros now. apply spec_origin. intros s. by destruct Hu as [->| ->]. Qed.

Lemma Inv_drop_open g T : Inv g (OpenT :: T) -> Inv g T.
Proof.
  intros [H1 H2 H3 H4 H5]. constructor; try done.
  - intros HK. destruct H3 as [H3 Hc]; [by constructor|done].
  - intros HL Hr. destruct (H4 HL Hr) as [?|[Ho|Ho]]; [auto|..]; apply elem_of_cons in Ho as [?|?]; first [done|auto].
  - intros He. destruct (H5 He) as [P1 P2 P3 P4 P5 P6 P7 P8 P9]. constructor; try done.
    + apply not_elem_of_cons in P6. tauto.
    + intros Ho. apply P7. by constructor.
    + intros b Hw. apply (P8 b). apply owned_cons. auto.
    + intros Hnp. destruct P9 as [C1 C2].
      { intros t Ht. apply elem_of_cons in Ht as [->|Ht]; [by intros []|by apply Hnp]. }
      split; [|done]. intros Ho'. destruct (C1 Ho') as (c & Hc & Hsz & Hb). exists c. split; [done|]. split; [done|]. intros b Hin.
      destruct (Hb b Hin) as (B1 & B2 & B3).
      split; [|split]; [intros Hw; apply B1|intros Hw; apply B2|done]; by apply owned_cons; right; right.
Qed.

Lemma triple_done d k b o :
  o = [OutT; tok d k b] \/ o = [OpenT; OutT; tok d k b] -> k = Written \/ (k = Clean /\ skippable b) ->
  triple o (timed (fun now => finished_block d now b)) (fun _ o' => o' = [OutT]).
Proof.
  intros Ho Hk. apply triple_timed. intros now. destruct Ho as [->| ->]; [by apply (spec_done d k)|].
  intros g F HI. apply Inv_drop_open in HI. by apply (spec_done d k).
Qed.

Lemma triple_write d fd buf b :
  fd_name fd = tmp -> zlen buf = Size b -> sha256 buf = Hash b -> 0 < Size b ->
  triple [OpenT; OutT; tok d Clean b] (limitedWriteAt fd buf (Offset b))
    (fun r o' => match r with None => o' = [OutT; tok d Written b] | Some _ => exists l, o' ≡ₚ OutT :: l end).
Proof.
  intros Hn Hl Hh Hpos. apply triple_ask. intros [e|].
  - apply triple_ret. by exists [OpenT; tok d Clean b]; constructor.
  - eapply triple_mono; [apply triple_atomic, (spec_WriteAt d fd buf b Hn Hl Hh Hpos)|].
    intros [e|] o'; [|done]. intros ->. eauto.
Qed.

Lemma verifyBuffer_ok buf b : verifyBuffer (FS := FS) sha256 buf b = None -> zlen buf = Size b /\ sha256 buf = Hash b.
Proof.
  unfold verifyBuffer. destruct (Z.eqb_spec (zlen buf) (Size b)); [|done]. cbn [negb]. by case_bool_decide.
Qed.

(** After a copy: the block is in place, untouched, or the job has failed. *)
Definition copy_post (b : BlockInfo) (copied : bool) (o' : list token) : Prop :=
  if copied then o' = [OutT; CopyT Written b] else o' = [OutT; CopyT Clean b] \/ o' = [OutT; FailT].

Lemma triple_copyBlockFromFile b :
  0 < Size b -> triple [OutT; CopyT Clean b] (copyBlockFromFile Dir protoSize sha256 cfg b) (copy_post b).
Proof.
  intros Hpos. destruct (J_cfg J) as [Henc Hstd]. unfold copyBlockFromFile. rewrite Henc, Hstd. cbn [negb andb].
  apply triple_ask. intros [|]; cbn [negb]; [|by apply triple_ret; left].
  apply triple_ask. intros [buf|]; [|by apply triple_ret; left].
  destruct (negb (zlen buf =? Size b)); [by apply triple_ret; left|].
  destruct (verifyBuffer sha256 buf b) as [e|] eqn:Ev; [by apply triple_ret; left|].
  apply verifyBuffer_ok in Ev as [Hl Hh].
  eapply triple_bind; [apply triple_atomic, (spec_tempFile Copying Clean b)|]. intros [e|fd] o'.
  { intros ->. apply triple_ret. by right. }
  intros [-> Hn]. eapply triple_bind; [by apply (triple_write Copying)|]. intros [e|] o'.
  - intros [l Hl']. eapply triple_bind; [by eapply triple_fail|]. intros [] o'' ->. apply triple_ret. by right.
  - intros ->. by apply triple_ret.
Qed.

(** After a failed attempt: give up if the job has failed, else go on. *)
Lemma triple_retry b o (p : proc Shared bool) :
  copy_post b false o -> triple [OutT; CopyT Clean b] p (copy_post b) ->
  triple o (f ← failed; match f with Some _ => mret false | None => p end) (copy_post b).
Proof.
  intros Ho Hp. assert (exists l, o = OutT :: l) as [l ->] by (destruct Ho as [->| ->]; eauto).
  eapply triple_bind; [apply triple_failed|]. intros [e|] o'.
  - intros ->. apply triple_ret. by right.
  - intros [-> Hn]. destruct Ho as [ [= ->]|[= ->] ]; [done|]. exfalso. apply Hn. by constructor.
Qed.

Lemma triple_folder b :
  0 < Size b -> triple [OutT; CopyT Clean b] (copyBlockFromFolder Dir protoSize sha256 cfg b) (copy_post b).
Proof.
  intros Hpos. apply triple_ask. intros entries. induction entries as [|[e|name] entries IH]; [by apply triple_ret; left..|].
  cbn [folder_loop]. eapply triple_bind; [by apply triple_copyBlockFromFile|]. intros [|] o' Ho; cbn [negb].
  - apply triple_ask. intros same. eapply (triple_bind _ _ _ (fun _ o'' => o'' = o')).
    + destruct same; [apply triple_origin; auto|by apply triple_ret].
    + intros [] o'' ->. by apply triple_ret.
  - by apply triple_retry.
Qed.

Lemma triple_others b others :
  0 < Size b -> triple [OutT; CopyT Clean b] (others_loop Dir protoSize sha256 cfg b others) (copy_post b).
Proof.
  intros Hpos. induction others as [|i others IH]; [by apply triple_ret; left|]. cbn [others_loop].
  eapply triple_bind; [by apply triple_folder|]. intros [|] o' Ho; [by apply triple_ret|by apply triple_retry].
Qed.

Lemma triple_copyBlock m others b :
  0 < Size b -> triple [OutT; CopyT Clean b] (copyBlock Dir protoSize sha256 cfg m others b) (copy_post b).
Proof.
  intros Hpos. unfold copyBlock.
  assert (triple [OutT; CopyT Clean b]
    (if BlockIndexing cfg then
       copied ← copyBlockFromFolder Dir protoSize sha256 cfg b;
       if copied : bool then mret true
       else f ← failed; match f with Some _ => mret false | None => others_loop Dir protoSize sha256 cfg b others end
     else others_loop Dir protoSize sha256 cfg b others) (copy_post b)) as Hidx.
  { destruct (BlockIndexing cfg); [|by apply triple_others]. eapply triple_bind; [by apply triple_folder|].
    intros [|] o' Ho; [by apply triple_ret|]. apply triple_retry; [done|by apply triple_others]. }
  cbv zeta. destruct (m !! Hash b); [|done]. eapply triple_bind; [by apply triple_copyBlockFromFile|].
  intros [|] o' Ho; [|by apply triple_retry]. eapply triple_bind; [apply triple_origin; auto|].
  intros [] o'' ->. by apply triple_ret.
Qed.

Abbreviation the_out := (out Dir protoSize marshal NormalizedFilename).

Lemma triple_same {A} (st : Shared -> Shared * A) o :
  (forall g, same_job g (st g).1) -> triple o (atomic st) (fun _ o' => o' = o).
Proof. intros H. by apply triple_atomic, spec_same. Qed.

Lemma newPullError_same path e (g : Shared) : same_job g (newPullError path e g).
Proof. unfold newPullError. by destruct (IsCanceled e), (tempPullErrors g !! path). Qed.

Lemma triple_finisher :
  triple [OutT] (finisher Dir protoSize marshal NormalizedFilename) (fun _ o' => o' = []).
Proof.
  eapply triple_bind; [apply triple_atomic, spec_finalClose|]. intros [ [|] e] o' ->; [|by apply triple_ret].
  eapply triple_bind; [by apply triple_same|]. intros name o' ->.
  eapply triple_bind; [by apply triple_same|]. intros [] o' ->.
  eapply (triple_bind _ _ _ (fun _ o' => o' = [])).
  { destruct e; [by apply triple_ret|]. intros R k Hk a. by apply Hk. }
  intros e' o' ->. destruct e' as [e'|]; [|by apply triple_ret]. apply triple_same. intros g. apply newPullError_same.
Qed.

Lemma residue_nil : residue [].
Proof. split; [apply not_elem_of_nil|]. split; [apply not_elem_of_nil|by left]. Qed.

Lemma triple_out l : triple (OutT :: l) the_out (fun _ o' => o' = l).
Proof.
  eapply triple_mono; [apply (triple_frame [OutT] l)|].
  - apply (triple_spawn _ _ (fun _ o' => o' = [])); [|done]. eapply triple_mono; [apply triple_finisher|].
    intros [] o' ->. apply residue_nil.
  - intros [] o' (o'' & -> & ->). done.
Qed.

(** *** The puller *)

Lemma leastBusy_index m av :
  leastBusy m av = -1 \/ exists k a, leastBusy m av = Z.of_nat k /\ av !! k = Some a.
Proof.
  unfold leastBusy. destruct (leastBusy_loop_spec m 0 (Z.shiftl 2 30 - 1) (-1) av) as [ [H1 H2] |(k & a & H1 & H2 & _)].
  - by left.
  - right. exists k, a. split; [lia|done].
Qed.

Definition pull_post (o' : list token) : Prop := o' = [OutT] \/ o' = [OutT; FailT].

Lemma triple_pull_fail e o l : o ≡ₚ OutT :: l -> triple o (do_fail e) (fun _ : unit => pull_post).
Proof. intros Ho. eapply triple_mono; [by eapply triple_fail|]. intros [] o' ->. by right. Qed.

Lemma open_out l : OpenT :: OutT :: l ≡ₚ OutT :: OpenT :: l.
Proof. constructor. Qed.

Lemma triple_pull_loop fuel fd b candidates last :
  (length candidates < fuel)%nat -> fd_name fd = tmp -> 0 < Size b ->
  triple [OpenT; OutT; PullT Clean b] (pull_loop sha256 cfg fuel fd b candidates last) (fun _ => pull_post).
Proof.
  intros Hf Hn Hpos. destruct (J_cfg J) as [Henc _].
  revert candidates last Hf. induction fuel as [|fuel IH]; intros candidates last Hf; [lia|].
  cbn [pull_loop]. rewrite Henc. apply triple_ask. intros [e|]; [eapply triple_pull_fail, open_out|].
  eapply triple_bind; [by apply triple_same|]. intros m o' ->. cbv zeta.
  destruct (leastBusy_index m candidates) as [->|(k & a & -> & Hk)]; [eapply triple_pull_fail, open_out|].
  rewrite (proj2 (Z.eqb_neq (Z.of_nat k) (-1))) by lia. rewrite Nat2Z.id, Hk.
  pose proof (lookup_lt_Some _ _ _ Hk) as Hlt.
  destruct (list.last candidates) as [l|] eqn:El; [|apply last_None in El; subst; cbn in Hlt; lia].
  set (rest := take _ _). assert (length rest < fuel)%nat as Hrest.
  { unfold rest. rewrite length_take, length_insert. lia. }
  eapply triple_bind; [by apply triple_same|]. intros [] o' ->.
  apply triple_ask. intros res.
  eapply triple_bind; [by apply triple_same|]. intros [] o' ->.
  destruct res as [e|buf]; [by apply IH|].
  destruct (verifyBuffer sha256 buf b) as [e|] eqn:Ev; [by apply IH|]. apply verifyBuffer_ok in Ev as [Hl Hh].
  eapply triple_bind; [by apply (triple_write Pulling_)|]. intros [e|] o'.
  - intros [l' Hl']. by eapply triple_pull_fail.
  - intros ->. eapply triple_mono; [apply (triple_done Pulling_ Written); auto|]. intros [] o' ->. by left.
Qed.

Lemma triple_pull_out o : pull_post o -> triple o the_out (fun _ => residue).
Proof.
  intros [->| ->]; (eapply triple_mono; [apply triple_out|]); intros [] o' ->; [apply residue_nil|].
  split; [|split; [|right; by constructor] ]; by intros [?|?%elem_of_nil] %elem_of_cons.
Qed.

Lemma triple_pullBlock b :
  0 < Size b ->
  triple [OutT; PullT Clean b] (pullBlock Dir protoSize marshal NormalizedFilename sha256 cfg r b) (fun _ => residue).
Proof.
  intros Hpos. unfold pullBlock. eapply triple_bind; [apply triple_atomic, (spec_tempFile Pulling_ Clean b)|].
  intros [e|fd] o'; [intros ->; apply triple_pull_out; by right|]. intros [-> Hn].
  destruct (BlockInfo_IsEmpty b) eqn:He.
  - set (Q := fun (rr : option E) (o' : list token) => match rr with
      | None => exists k, (o' = [OutT; PullT k b] \/ o' = [OpenT; OutT; PullT k b]) /\ (k = Written \/ (k = Clean /\ skippable b))
      | Some _ => exists l, o' ≡ₚ OutT :: l end).
    apply (triple_bind _ _ _ Q).
    + destruct (negb (r =? 0) || DisableSparseFiles cfg) eqn:Hw.
      * eapply triple_mono; [apply (triple_write Pulling_); [done| |by apply (J_empty J)|done]|].
        -- rewrite zeroes_length. lia.
        -- intros [e|] o'; [done|]. intros ->. exists Written. auto.
      * apply triple_ret. exists Clean. split; [by right|]. right. split; [done|]. right.
        apply orb_false_iff in Hw as [H1 H2]. apply negb_false_iff, Z.eqb_eq in H1. done.
    + intros [e|] o'.
      * intros [l Hl]. eapply triple_bind; [by eapply triple_pull_fail|]. intros [] o'' Ho. by apply triple_pull_out.
      * intros (k & Ho & Hk). eapply triple_bind; [by apply (triple_done Pulling_ k)|]. intros [] o'' ->.
        apply triple_pull_out. by left.
  - apply triple_ask. intros candidates. eapply triple_bind; [apply triple_pull_loop; auto|].
    intros [] o'' Ho. by apply triple_pull_out.
Qed.

Lemma triple_puller b :
  0 <= Size b ->
  triple [OutT; PullT Clean b] (puller Dir protoSize marshal NormalizedFilename sha256 cfg r b) (fun _ => residue).
Proof.
  intros Hs. unfold puller. eapply triple_bind; [apply triple_failed|]. intros [e|] o'.
  - intros ->. apply triple_pull_out. by right.
  - intros [-> _]. destruct (Z.eqb_spec (Size b) 0) as [E0|E0].
    + eapply triple_bind; [apply (triple_done Pulling_ Clean b); [auto|right; split; [done|by left] ]|].
      intros [] o' ->. apply triple_pull_out. by left.
    + apply triple_ask. intros [e|].
      * eapply triple_bind; [eapply triple_pull_fail; done|]. intros [] o' Ho. by apply triple_pull_out.
      * apply triple_pullBlock. lia.
Qed.

(** *** The copier *)

Lemma spec_tempFile_keep :
  act_spec st_tempFile [KeepT]
    (fun r o' => match r with inl _ => o' = [OutT; FailT] | inr fd => o' = [OutT] end).
Proof.
  intros g F HI. pose proof (tempFile_core g _ HI) as Ht.
  destruct (I_keep _ _ HI ltac:(by constructor)) as [HF Hnc]. injection HF as ->.
  specialize (Ht (fun _ => Hnc)). cbn beta.
  destruct (tempFile Dir protoSize (sps g) (world g)) as [ [s' w'] [e|fd] ]; cbn [fst snd].
  - destruct Ht as (Hc & He & (S1 & S2 & S3 & S4 & S5) & Hw). split; [by cbn; rewrite Hc|]. exists [OutT; FailT]. split; [|done].
    pose proof HI as [(A1 & A2 & A3 & A4) H2 H3 H4 H5].
    constructor; cbn [sps set_sps_world]; rewrite ?S1, ?S2, ?S3, ?S4; try done.
    + intros [?|[?|?%elem_of_nil] %elem_of_cons] %elem_of_cons; done.
    + right. left. by constructor.
  - destruct Ht as (Hc & Hn & HI' & Ho & He). split; [by cbn; rewrite Hc|]. exists [OutT].
    split; [|done]. pose proof HI' as [A1 A2 A3 A4 A5]. constructor; try done.
    + intros [?|?%elem_of_nil] %elem_of_cons; done.
    + right. left. by constructor.
    + intros He'. destruct (A5 He') as [P1 P2 P3 P4 P5 P6 P7 P8 P9]. constructor; try done.
      * intros [?|?%elem_of_nil] %elem_of_cons; done.
      * intros _. destruct P9 as [C1 C2]. { by intros t [->|?%elem_of_nil] %elem_of_cons; [intros []|]. }
        split; [|done]. intros Ho'. destruct (C1 Ho') as (c & Hdc & Hsz & Hb). exists c. split; [done|]. split; [done|]. intros b Hin.
        destruct (Hb b Hin) as (B1 & B2 & B3).
        split; [|split; [|done] ]; intros [?|[?|Hw]] %owned_cons; try done; by destruct Hw as [?%elem_of_nil|?%elem_of_nil].
Qed.

Definition todo (bs : list BlockInfo) : list token := map (CopyT Clean) bs.

(** The copier ends with its duty to wake the finisher, and what is left of
    its blocks only if the job has failed. *)
Definition copier_post (o' : list token) : Prop := exists l, o' = OutT :: l /\ residue l.

Lemma residue_todo bs : residue (FailT :: todo bs).
Proof.
  assert (forall t, (forall b, t <> CopyT Clean b) -> t <> FailT -> t ∉ FailT :: todo bs) as H.
  { intros t H1 H2. intros [?|Ht] %elem_of_cons; [done|]. apply list_elem_of_In, in_map_iff in Ht as (b & Hb & _).
    by apply (H1 b). }
  split; [by apply H|]. split; [by apply H|]. right. by constructor.
Qed.

Lemma triple_copier_loop st others bs :
  reused st = r -> (forall b, b ∈ bs -> 0 <= Size b) ->
  triple (OutT :: todo bs) (copier_loop Dir protoSize marshal NormalizedFilename sha256 cfg st others bs)
    (fun _ => copier_post).
Proof.
  intros Hr. induction bs as [|b bs IH]; intros Hs.
  { apply triple_ret. exists []. split; [done|apply residue_nil]. }
  assert (triple (OutT :: todo bs) (copier_loop Dir protoSize marshal NormalizedFilename sha256 cfg st others bs)
    (fun _ => copier_post)) as IHbs. { apply IH. intros b' Hb'. apply Hs. by constructor. }
  assert (0 <= Size b) as Hsb by (apply Hs; constructor). clear IH Hs.
  assert (forall k, k = Written \/ (k = Clean /\ skippable b) ->
    triple ([OutT; CopyT k b] ++ todo bs) (timed (fun now => copyDone now b);;
      copier_loop Dir protoSize marshal NormalizedFilename sha256 cfg st others bs) (fun _ => copier_post)) as Hdone.
  { intros k Hk. eapply triple_bind; [apply (triple_frame [OutT; CopyT k b] (todo bs)), (triple_done Copying k b); auto|].
    intros [] o' (o'' & -> & ->). exact IHbs. }
  cbn [copier_loop]. change (OutT :: todo (b :: bs)) with ([OutT; CopyT Clean b] ++ todo bs).
  apply triple_ask. intros [e|].
  { eapply triple_mono; [apply (triple_fail _ _ (CopyT Clean b :: todo bs)); done|]. intros [] o' ->.
    exists [FailT]. split; [done|apply (residue_todo [])]. }
  destruct (Z.eqb_spec (Size b) 0) as [E0|E0]; [apply Hdone; right; split; [done|by left]|].
  rewrite Hr. destruct (negb (DisableSparseFiles cfg) && (r =? 0) && BlockInfo_IsEmpty b) eqn:Hsk.
  { eapply triple_bind; [apply triple_origin; auto|]. intros [] o' ->. apply Hdone. right. split; [done|]. right.
    apply andb_true_iff in Hsk as [Hsk H3]. apply andb_true_iff in Hsk as [H1 H2].
    apply negb_true_iff in H1. apply Z.eqb_eq in H2. done. }
  eapply triple_bind; [apply (triple_frame [OutT; CopyT Clean b] (todo bs)), triple_copyBlock; lia|].
  intros copied o' (o'' & -> & Ho). destruct copied; cbn [copy_post] in Ho; [subst o''; apply Hdone; auto|].
  assert (exists l, o'' = OutT :: l) as [l ->] by (destruct Ho as [->| ->]; eauto).
  eapply triple_bind; [apply (triple_frame (OutT :: l) (todo bs)), triple_failed|]. intros res o' (o1 & -> & Hres).
  destruct res as [e|].
  { subst o1. apply triple_ret. exists (FailT :: todo bs). split; [done|apply residue_todo]. }
  destruct Hres as [-> Hn]. destruct Ho as [ [= ->]|[= ->] ]; [|exfalso; apply Hn; constructor].
  eapply triple_bind; [apply (triple_frame [OutT; CopyT Clean b] (todo bs)), triple_timed; intros now; apply spec_pullStarted|].
  intros [] o' (o2 & -> & ->).
  apply (triple_perm ([OutT; PullT Clean b] ++ OutT :: todo bs)); [constructor; apply perm_swap|].
  eapply triple_bind; [apply (triple_frame [OutT; PullT Clean b] (OutT :: todo bs))|].
  - apply (triple_spawn _ _ (fun _ o' => o' = [])); [|done]. by apply triple_puller.
  - intros [] o' (o3 & -> & ->). exact IHbs.
Qed.

(** The tokens of the copier at the start: with nothing to do it is the only
    goroutine of the file. *)
Definition start_tokens (bs : list BlockInfo) : list token :=
  match bs with [] => [KeepT] | _ => OutT :: todo bs end.

Lemma triple_copier st others bs :
  reused st = r -> (forall b, b ∈ bs -> 0 <= Size b) ->
  triple (start_tokens bs) (copier Dir protoSize marshal NormalizedFilename sha256 cfg st others bs) (fun _ => residue).
Proof.
  intros Hr Hs. unfold copier. destruct bs as [|b bs].
  - eapply (triple_bind _ _ _ (fun _ o' => o' = [KeepT])); [by apply triple_ret|]. intros [] o' ->.
    eapply (triple_bind _ _ _ (fun _ o' => pull_post o')); [|by intros [] o' Ho; apply triple_pull_out].
    eapply triple_bind; [apply triple_atomic, spec_tempFile_keep|]. intros [e|fd] o' ->.
    + by eapply triple_pull_fail.
    + apply triple_ret. by left.
  - eapply triple_bind; [by apply triple_copier_loop|]. intros [] o' (l & -> & Hl).
    eapply (triple_bind _ _ _ (fun _ o' => o' = OutT :: l)); [by apply triple_ret|]. intros [] o' ->.
    eapply triple_mono; [apply triple_out|]. by intros [] o' ->.
Qed.

(** *** All goroutines *)

(** Every goroutine is safe with its tokens, and together they satisfy the
    invariant. *)
Definition pool_ok (c : Shared * list (prog Shared)) : Prop :=
  exists Ts, Forall2 wp c.2 Ts /\ Inv c.1 (concat Ts).

Lemma concat_middle {A} (T1 T2 : list (list A)) o : concat (T1 ++ o :: T2) ≡ₚ o ++ concat (T1 ++ T2).
Proof. rewrite !concat_app. cbn. by rewrite Permutation_app_swap_app. Qed.

Lemma Inv_residue g o T : residue o -> Inv g (o ++ T) -> Inv g T.
Proof.
  intros (Ho & Hk & Hf) HI. pose proof HI as [H1 H2 H3 H4 H5]. destruct Hf as [->|Hf]; [done|].
  assert (err (sps g) <> None) as He.
  { intros He. apply (P_nofail _ _ (H5 He)), elem_of_app. by left. }
  constructor; try done.
  - intros HK. destruct H3 as [H3 _]; [apply elem_of_app; by right|]. rewrite H3 in HI.
    destruct o as [|t o]; [by apply elem_of_nil in Hf|]. exfalso. injection H3 as -> H3.
    apply Hk. constructor.
  - intros HL Hr. destruct (H4 HL Hr) as [?|[H|H]]; [auto|..]; apply elem_of_app in H as [?|?]; first [done|auto].
Qed.

Lemma pool_step_ok c c' :
  pool_ok c -> pool_step same_job c c' -> pool_ok c' /\ (closed (sps c.1) = true -> closed (sps c'.1) = true).
Proof.
  intros (Ts & Hwp & HI) Hst.
  assert (forall l1 p l2, Forall2 wp (l1 ++ p :: l2) Ts -> exists T1 o T2, Ts = T1 ++ o :: T2 /\
    Forall2 wp l1 T1 /\ Forall2 wp l2 T2 /\ wp p o) as Hinv.
  { intros l1 p l2 H. apply Forall2_app_inv_l in H as (T1 & T2' & H1 & H2 & ->).
    inversion H2 as [|? o ? T2 Hp Hl2]; subst. exists T1, o, T2. done. }
  destruct Hst as [l1 l2 R st k s|l1 l2 R k a s|l1 l2 p q s|l1 l2 s|l s s' Henv]; cbn [fst snd] in *.
  - apply Hinv in Hwp as (T1 & o & T2 & -> & Hw1 & Hw2 & Hp). rewrite concat_middle in HI.
    destruct (Hp _ _ HI) as (Hc & o' & HI' & Hk). split; [|done]. exists (T1 ++ o' :: T2). split.
    + by apply Forall2_app; [|constructor].
    + cbn [fst]. by rewrite concat_middle.
  - apply Hinv in Hwp as (T1 & o & T2 & -> & Hw1 & Hw2 & Hp). split; [|done]. exists (T1 ++ o :: T2). split; [|done].
    apply Forall2_app; [done|]. constructor; [apply Hp|done].
  - apply Hinv in Hwp as (T1 & o & T2 & -> & Hw1 & Hw2 & (o1 & o2 & Ho & Hp & Hq)). split; [|done].
    exists (T1 ++ o1 :: o2 :: T2). split.
    + apply Forall2_app; [done|]. by repeat constructor.
    + cbn [fst]. eapply Inv_perm; [|exact HI]. rewrite !concat_app. cbn [concat]. rewrite Ho. solve_Permutation.
  - apply Hinv in Hwp as (T1 & o & T2 & -> & Hw1 & Hw2 & Hp). split; [|done]. exists (T1 ++ T2).
    split; [by apply Forall2_app|]. cbn [fst]. rewrite concat_middle in HI. by eapply Inv_residue.
  - split; [|destruct Henv as [-> _]; done]. exists Ts. split; [done|]. by eapply Inv_same.
Qed.

Lemma pool_steps_ok c c' :
  pool_ok c -> pool_steps same_job c c' -> pool_ok c' /\ (closed (sps c.1) = true -> closed (sps c'.1) = true).
Proof.
  intros Hc. induction 1 as [|c1 c2 _ [H1 H2] H3]; [done|].
  destruct (pool_step_ok _ _ H1 H3) as [H4 H5]. split; [done|]. auto.
Qed.

(** A job as [handleFile] starts it: the blocks to get are blocks of the file,
    and every other block is in the temporary file already. *)
Record starts (g : Shared) (blocks : list BlockInfo) (reused_ : list Z) : Prop := {
  S_state : exists now ignPerms hasCur cur fsy,
    sps g = newSharedPullerState now f tmp blocks reused_ ignPerms hasCur cur (negb (DisableSparseFiles cfg)) fsy;
  S_reused : r = zlen reused_;
  S_nodup : NoDup blocks;
  S_in : forall b, b ∈ blocks -> b ∈ Blocks f;
  S_rest : forall b, b ∈ Blocks f -> b ∉ blocks -> r <> 0 /\ forall c, disk (world g) tmp = Some c -> good c b }.

Lemma omap_todo bs : omap tblock (todo bs) = bs.
Proof. induction bs as [|b bs IH]; [done|]. cbn. f_equal. exact IH. Qed.
Lemma filter_todo bs : List.filter isCopy (todo bs) = todo bs /\ List.filter isPull (todo bs) = [].
Proof. unfold todo. induction bs as [|b bs [IH1 IH2] ]; [done|]. cbn. by rewrite IH1, IH2. Qed.
Lemma in_todo t bs : t ∈ todo bs -> exists b, t = CopyT Clean b.
Proof. intros H. apply list_elem_of_In, in_map_iff in H as (b & <- & _). eauto. Qed.

Lemma start_tokens_facts bs :
  omap tblock (start_tokens bs) = bs /\ List.filter isPull (start_tokens bs) = [] /\
  length (List.filter isCopy (start_tokens bs)) = length bs /\
  (forall t, t ∈ start_tokens bs -> t = KeepT /\ bs = [] \/ t = OutT /\ bs <> [] \/ exists b, t = CopyT Clean b).
Proof.
  destruct bs as [|b bs].
  - repeat split; try done. intros t [->|?%elem_of_nil] %elem_of_cons; [auto|done].
  - destruct (filter_todo (b :: bs)) as [F1 F2]. split; [exact (omap_todo (b :: bs))|]. split; [exact F2|].
    split; [change (length (List.filter isCopy (todo (b :: bs))) = length (b :: bs)); rewrite F1; apply length_map|].
    intros t [->|Ht] %elem_of_cons; [auto|]. right. right. by eapply in_todo.
Qed.

Lemma Inv_start g blocks reused_ : starts g blocks reused_ -> Inv g (start_tokens blocks).
Proof.
  intros [ (now & ip & hc & cur & fsy & Hs) Hr Hnd Hin Hrest]. destruct (start_tokens_facts blocks) as (F1 & F2 & F3 & F4).
  constructor; rewrite ?Hs; try done.
  - intros HK. destruct (F4 _ HK) as [ [_ ->]|[ [? _]|[b ?] ] ]; done.
  - intros _ _. right. destruct blocks; [right|left]; constructor.
  - intros _. assert (forall b, ~ owned (start_tokens blocks) Written b) as Hnw.
    { intros b [H|H]; destruct (F4 _ H) as [ [? _]|[ [? _]|[b' ?] ] ]; done. }
    constructor; rewrite ?Hs, ?F1, ?F2, ?F3; try done.
    + intros H; destruct (F4 _ H) as [ [? _]|[ [? _]|[b' ?] ] ]; done.
    + intros H; destruct (F4 _ H) as [ [? _]|[ [? _]|[b' ?] ] ]; done.
    + intros b H. by destruct (Hnw b).
    + intros _. split; rewrite Hs.
      * intros [?|?]; done.
      * intros _ b Hb Hu. unfold unowned in Hu. rewrite F1 in Hu. destruct (Hrest b Hb Hu) as [Hr0 Hg]. by rewrite decide_False.
Qed.

Abbreviation copier_prog st others blocks :=
  (copier Dir protoSize marshal NormalizedFilename sha256 cfg st others blocks (fun _ => Done_)).

Lemma pool_start g others blocks reused_ :
  starts g blocks reused_ -> pool_ok (g, [copier_prog (sps g) others blocks]).
Proof.
  intros HS. exists [start_tokens blocks]. split.
  - constructor; [|constructor]. rewrite <- (app_nil_r (start_tokens blocks)). apply triple_copier.
    + destruct HS as [ (now & ip & hc & cur & fsy & ->) -> _ _ _]. done.
    + intros b Hb. apply (J_layout J). by apply (S_in _ _ _ HS).
    + intros _ o' Ho. cbn [wp]. by rewrite app_nil_r.
  - cbn. rewrite app_nil_r. by eapply Inv_start.
Qed.

Lemma job_reachable g0 others blocks reused_ g ps :
  starts g0 blocks reused_ -> pool_steps same_job (g0, [copier_prog (sps g0) others blocks]) (g, ps) -> pool_ok (g, ps).
Proof. intros HS Hst. eapply pool_steps_ok; [|exact Hst]. by eapply pool_start. Qed.
End Job.
