(* ===== verification/PullJobTheorems.v ===== *)
(** * Main theorems on the assembly of files

    What is closed without an error is verified, it is closed once, and it is
    closed in the end if the temporary file can be created; and what happens
    if it cannot. *)
From Stdlib Require Import ZArith List Lia.
From Stdlib Require Import Strings.Byte.
From stdpp Require Import base list option gmap numbers tactics.
From S2P Require Import Prelude GoLib Vector FileInfo FileInfoWire PullQueue PullState PullJob PullJobProps.

#[local] Open Scope Z_scope.

(** ** Goroutines come to an end *)

Section Termination.
Context {St : Type}.

(** What a step can make of the goroutines, whatever the state. *)
Inductive red : list (prog St) -> list (prog St) -> Prop :=
| red_Step l1 l2 R (st : St -> St * R) k r : red (l1 ++ k r :: l2) (l1 ++ Step_ st k :: l2)
| red_Ask l1 l2 R (k : R -> prog St) r : red (l1 ++ k r :: l2) (l1 ++ Ask_ k :: l2)
| red_Fork l1 l2 p q : red (l1 ++ p :: q :: l2) (l1 ++ Fork_ p q :: l2)
| red_Done l1 l2 : red (l1 ++ l2) (l1 ++ Done_ :: l2).

Lemma app_middle {A} (l1 l2 m1 m2 : list A) x :
  l1 ++ l2 = m1 ++ x :: m2 ->
  (exists k, l1 = m1 ++ x :: k /\ m2 = k ++ l2) \/ (exists k, m1 = l1 ++ k /\ l2 = k ++ x :: m2).
Proof.
  intros H. apply app_eq_app in H as (k & [ [-> Hk]|[-> ->] ]); [|right; eauto].
  destruct k as [|y k]; [right; exists []; rewrite !app_nil_r; by split|]. injection Hk as -> ->. left. eauto.
Qed.

(** A step of two groups of goroutines is a step of one of them. *)
Lemma red_app l l1 l2 :
  red l (l1 ++ l2) -> (exists l1', l = l1' ++ l2 /\ red l1' l1) \/ (exists l2', l = l1 ++ l2' /\ red l2' l2).
Proof.
  intros H. remember (l1 ++ l2) as m eqn:Hm.
  destruct H as [m1 m2 R st k r|m1 m2 R k r|m1 m2 p q|m1 m2]; symmetry in Hm;
    apply app_middle in Hm as [(j & -> & ->)|(j & -> & ->)].
  - left. exists (m1 ++ k r :: j). split; [by rewrite <- app_assoc|constructor].
  - right. exists (j ++ k r :: m2). split; [by rewrite <- app_assoc|constructor].
  - left. exists (m1 ++ k r :: j). split; [by rewrite <- app_assoc|constructor].
  - right. exists (j ++ k r :: m2). split; [by rewrite <- app_assoc|constructor].
  - left. exists (m1 ++ p :: q :: j). split; [by rewrite <- app_assoc|constructor].
  - right. exists (j ++ p :: q :: m2). split; [by rewrite <- app_assoc|constructor].
  - left. exists (m1 ++ j). split; [by rewrite <- app_assoc|constructor].
  - right. exists (j ++ m2). split; [by rewrite <- app_assoc|constructor].
Qed.

Lemma Acc_app l1 l2 : Acc red l1 -> Acc red l2 -> Acc red (l1 ++ l2).
Proof.
  intros H1. revert l2. induction H1 as [l1 H1 IH1]. intros l2 H2. induction H2 as [l2 H2 IH2].
  constructor. intros l [(l1' & -> & Hr)|(l2' & -> & Hr)] %red_app; [|by apply IH2].
  apply IH1; [done|]. by constructor.
Qed.

Lemma red_one l p :
  red l [p] -> match p with
               | Done_ => l = []
               | Step_ st k => exists r, l = [k r]
               | Ask_ k => exists r, l = [k r]
               | Fork_ p q => l = [p; q]
               end.
Proof.
  intros H. remember [p] as m eqn:Hm.
  destruct H as [m1 m2 R st k r|m1 m2 R k r|m1 m2 p1 q1|m1 m2]; symmetry in Hm;
    (destruct m1 as [|y m1]; [injection Hm as -> <-; cbn; eauto|by destruct m1]).
Qed.

Lemma Acc_one p : Acc red [p].
Proof.
  induction p as [|R st k IH|R k IH|p IHp q IHq]; constructor; intros l Hl; apply red_one in Hl.
  - subst l. constructor. intros l H. remember [] as m eqn:Hm. by destruct H as [ [] ? ?| [] ? ?| [] ? ?| [] ? ].
  - destruct Hl as [r ->]. apply IH.
  - destruct Hl as [r ->]. apply IH.
  - subst l. by apply (Acc_app [p] [q]).
Qed.

Lemma Acc_pool l : Acc red l.
Proof.
  induction l as [|p l IH].
  - constructor. intros l H. remember [] as m eqn:Hm. by destruct H as [ [] ? ?| [] ? ?| [] ? ?| [] ? ].
  - apply (Acc_app [p] l); [apply Acc_one|done].
Qed.

(** A step of a goroutine, not of the environment. *)
Definition go_step (c' c : St * list (prog St)) : Prop := pool_step (fun _ _ => False) c c'.
Lemma go_step_red c' c : go_step c' c -> red c'.2 c.2.
Proof. intros [l1 l2 R st k s|l1 l2 R k r s|l1 l2 p q s|l1 l2 s|l s s' []]; constructor. Qed.

Lemma go_step_wf : well_founded go_step.
Proof.
  intros c. remember (c.2) as l eqn:Hl. revert c Hl. induction (Acc_pool l) as [l _ IH]. intros c ->.
  constructor. intros c' Hc. by eapply IH; [apply go_step_red|].
Qed.
End Termination.

Section Theorems.
Context {W Fd E : Type} {FS : Filesystem W Fd E} {FL : FilesystemLaws W Fd E}.
Context (Dir : bytes -> bytes) (protoSize : bep_FileInfo -> Z) (marshal : bep_FileInfo -> E + bytes)
  (NormalizedFilename : bytes -> bytes) (sha256 : bytes -> bytes) (cfg : folderConfig).

(** The goroutines of a job that has just been handed to the copier. *)
Definition job (g : @shared W Fd E) (others : list bytes) (blocks : list BlockInfo) : shared * list (prog shared) :=
  (g, [copier Dir protoSize marshal NormalizedFilename sha256 cfg (sps g) others blocks (fun _ => Done_)]).

(** Content and hash of a block at its place. *)
Definition verified (c : bytes) (b : BlockInfo) : Prop :=
  Size b = 0 \/ (Offset b + Size b <= zlen c /\ sha256 (sub c (Offset b) (Size b)) = Hash b).

(** C1: A plain file that is neither encrypted nor in a receive-encrypted
    folder, and whose blocks are copied the standard way.  Whatever the
    interleaving of the copier, the pullers and the finisher, and whatever they
    are answered by the file system, other files, the database, the network, the
    clock and cancellation: when [finalClose] closes the temporary file without an
    error, every block of the file is in place with the right hash; only blocks of
    zeroes of a sparse file that was not reused may be cut off by the end of the
    file, and only if the file could not be given its size.  Otherwise every block
    is in place, and with sparse files the size is right too. *)
Theorem job_verified f tmp r g0 others blocks reused_ g ps s' w'
    (J : job_ok sha256 cfg f r) (HS : starts sha256 cfg f tmp r g0 blocks reused_)
    (Hrun : pool_steps (same_job tmp) (job g0 others blocks) (g, ps))
    (Hclose : finalClose Dir protoSize marshal NormalizedFilename (sps g) (world g) = ((s', w'), (true, None))) :
  exists c, disk w' tmp = Some c /\
    (forall b, b ∈ Blocks f -> verified c b \/ (DisableSparseFiles cfg = false /\ r = 0 /\ BlockInfo_IsEmpty b = true /\ blank c b)) /\
    (truncates \/ r <> 0 \/ DisableSparseFiles cfg = true -> forall b, b ∈ Blocks f -> verified c b) /\
    (truncates \/ r <> 0 -> DisableSparseFiles cfg = false -> zlen c = FSize f).
Proof.
  destruct (job_reachable Dir protoSize marshal NormalizedFilename sha256 cfg f tmp r False J
    (fun H => match H with end) g0 others blocks reused_ g ps HS Hrun) as (Ts & _ & HI).
  destruct (finalClose_good Dir protoSize marshal NormalizedFilename sha256 cfg f tmp r False J
    (fun H => match H with end) g _ s' w' HI Hclose) as (_ & _ & c & Hc & Hsz & Hb).
  exists c. split; [done|]. split; [done|]. split; [|exact Hsz]. intros Ht b Hin.
  destruct (Hb b Hin) as [?|(Hsp & Hr & He & Hz)]; [done|]. destruct (J_layout _ _ _ _ J) as (_ & Hlay & _). destruct (Hlay b Hin) as (L1 & L2 & L3).
  apply (blank_good sha256 cfg f r J); try done. destruct Ht as [Ht|[?|?]]; [|done|congruence]. rewrite Hsz by auto. exact L3.
Qed.

(** A job is finished once: after its file has been closed, every later
    [finalClose] does nothing and reports that there is nothing to finish. *)
Theorem job_closed_once f tmp r g0 others blocks reused_ g ps g' ps'
    (J : job_ok sha256 cfg f r) (HS : starts sha256 cfg f tmp r g0 blocks reused_)
    (Hrun : pool_steps (same_job tmp) (job g0 others blocks) (g, ps)) (Hc : closed (sps g) = true)
    (Hrun' : pool_steps (same_job tmp) (g, ps) (g', ps')) :
  finalClose Dir protoSize marshal NormalizedFilename (sps g') (world g') = ((sps g', world g'), (false, None)).
Proof.
  pose proof (job_reachable Dir protoSize marshal NormalizedFilename sha256 cfg f tmp r False J
    (fun H => match H with end) g0 others blocks reused_ g ps HS Hrun) as Hp.
  assert (closed (sps g') = true) as Hc'; [|unfold finalClose; by rewrite Hc'].
  destruct (pool_steps_ok sha256 cfg f tmp r False _ _ Hp Hrun') as [_ H]. by apply H.
Qed.

(** The goroutines of a job are finite programs. *)
Lemma job_finite g0 others blocks : Acc go_step (job g0 others blocks).
Proof. apply go_step_wf. Qed.

(** C10: No job is left open, for a plain file as in [job_verified] whose
    temporary file can be created: whenever no goroutine of the job is left,
    however they were interleaved and whatever else they were answered, the file
    has been closed; and if no error was recorded by then, no copied or pulled
    block is left to be counted and every block is settled in the file: in place
    with the right hash, or a block of zeroes of a sparse file that was skipped. *)
Theorem job_ends f tmp r g0 others blocks reused_ g
    (J : job_ok sha256 cfg f r) (Hcr : creatable Dir protoSize tmp r) (HS : starts sha256 cfg f tmp r g0 blocks reused_)
    (Hrun : pool_steps (same_job tmp) (job g0 others blocks) (g, [])) :
  closed (sps g) = true /\
  (err (sps g) = None -> copyNeeded (sps g) = 0 /\ pullNeeded (sps g) = 0 /\
     exists c, disk (world g) tmp = Some c /\ forall b, b ∈ Blocks f -> settled sha256 cfg r c b).
Proof.
  destruct (job_reachable Dir protoSize marshal NormalizedFilename sha256 cfg f tmp r True J
    (fun _ => Hcr) g0 others blocks reused_ g [] HS Hrun) as (Ts & Hwp & HI).
  inversion Hwp; subst. cbn in HI. pose proof HI as [_ _ _ H4 H5].
  assert (closed (sps g) = true) as Hc.
  { destruct (H4 I) as [?|[H|H] ]; [|done|by apply elem_of_nil in H..].
    destruct (err (sps g)) as [e|] eqn:He; [by left|]. right. destruct (H5 eq_refl) as [P1 P2 _ _ _ _ _ _ _]. cbn in *. lia. }
  split; [done|]. intros He. specialize (H5 He). pose proof H5 as [P1 P2 _ _ _ _ _ _ _]. cbn in P1, P2. split; [done|]. split; [done|].
  destruct (all_good sha256 cfg f tmp r g [] H5) as (c & Hd & _ & Hb); [lia|by right|]. by exists c.
Qed.
End Theorems.

(** ** A file system in memory *)

Definition memory : Type := list (bytes * bytes).
Definition content (w : memory) (n : bytes) : option bytes := snd <$> List.find (fun p => bool_decide (fst p = n)) w.
Definition put (n c : bytes) (w : memory) : memory := (n, c) :: w.
Definition remove_file (n : bytes) (w : memory) : memory := List.filter (fun p => negb (bool_decide (fst p = n))) w.
Definition change_file (n : bytes) (g : bytes -> bytes) (w : memory) : memory :=
  match content w n with Some c => put n (g c) w | None => w end.

Lemma content_put n c w : content (put n c w) n = Some c.
Proof. unfold content, put. cbn. by rewrite bool_decide_true. Qed.
Lemma content_remove n w : content (remove_file n w) n = None.
Proof.
  unfold content, remove_file. induction w as [|p w IH]; [done|]. cbn. case_bool_decide as E; cbn; [done|].
  by rewrite bool_decide_false.
Qed.

Section Memory.
(** Whether files can be opened. *)
Context (canOpen : bool).

#[export] Instance memFS : Filesystem memory bytes bytes := {|
  fs_Stat _ w := (w, inr (true, 511));
  fs_Chmod _ _ w := (w, inr tt);
  fs_OpenFile n fl _ w :=
    if negb canOpen then (w, inl (gostr "open"))
    else if Z.testbit fl 7 then (put n [] w, inr n)
    else match content w n with Some _ => (w, inr n) | None => (w, inl (gostr "missing")) end;
  fs_Hide _ w := (w, inr tt);
  fs_Unhide _ w := (w, inr tt);
  fs_Remove n w := (remove_file n w, inr tt);
  fd_Truncate fd n w := (change_file fd (fun c => resize c n) w, inr tt);
  fd_WriteAt fd d off w := (change_file fd (fun c => splice c off d) w, inr tt);
  fd_Sync _ w := (w, inr tt);
  fd_Close _ w := (w, inr tt);
  IsPermission _ := false;
  IsCanceled _ := false;
  errors_New s := s;
  Errorf p e := p ++ e |}.

#[export] Instance memLaws : FilesystemLaws memory bytes bytes.
Proof.
  refine {| disk := content; fd_name := fun fd => fd |}; try done.
  - intros n w. left. apply content_remove.
  - intros n fl m w w' fd H. unfold fs_OpenFile, memFS in H. destruct canOpen; cbn [negb] in H; [|done]. destruct (Z.testbit fl 7).
    + injection H as <- <-. split; [done|]. exists []. by rewrite content_put.
    + destruct (content w n) as [c|] eqn:E; [|done]. injection H as <- <-. split; [done|]. by exists c.
  - intros n fl m w w' e Hf H. unfold fs_OpenFile, memFS in H. destruct canOpen; cbn [negb] in H; [|by simplify_eq].
    destruct (Z.testbit fl 7); [done|]. by destruct (content w n); simplify_eq.
  - intros fd n w w' c H Hc. unfold fd_Truncate, memFS, change_file in H. rewrite Hc in H. injection H as <-. apply content_put.
  - intros fd d off w w' c H _ Hc. unfold fd_WriteAt, memFS, change_file in H. rewrite Hc in H. injection H as <-. apply content_put.
Defined.
End Memory.

(** ** A job of one block *)

(** A hash under which blocks of zeroes have the hashes of the table. *)
Definition toy_sha256 (d : bytes) : bytes :=
  match List.find (fun p => fst p =? zlen d) sha256OfEmptyBlock with
  | Some (_, Some v) => if bool_decide (d = zeroes (zlen d)) then v else d
  | _ => d
  end.

Lemma toy_sha256_empty b : BlockInfo_IsEmpty b = true -> toy_sha256 (zeroes (Size b)) = Hash b.
Proof.
  unfold BlockInfo_IsEmpty, toy_sha256. destruct (List.find _ sha256OfEmptyBlock) as [ [n [v|] ]|] eqn:E; try done.
  intros H. apply bool_decide_eq_true in H. pose proof (find_some _ _ E) as [Hin Hn]. cbn in Hn. apply Z.eqb_eq in Hn.
  assert (0 <= n) as Hpos.
  { unfold sha256OfEmptyBlock in Hin. cbn [List.map In] in Hin.
    repeat (destruct Hin as [Hin|Hin]; [injection Hin as <- _; lia|]). done. }
  assert (zlen (zeroes (Size b)) = Size b) as Hl by (rewrite zeroes_length; lia).
  rewrite Hl, E. rewrite bool_decide_true by done. done.
Qed.

Definition ex_block : BlockInfo := {| Hash := [x07]; Offset := 0; Size := 1 |}.
Definition ex_info (sz : Z) (bs : list BlockInfo) : FileInfo :=
  {| Name := gostr "f"; FSize := sz; ModifiedS := 0; ModifiedBy := 0; Version := {| Counters := [] |}; Sequence := 1;
     Blocks := bs; SymlinkTarget := []; BlocksHash := []; PreviousBlocksHash := []; Encrypted := [];
     Platform := {| Unix := None; Windows := None; Linux := None; Darwin := None; FreeBSD := None; NetBSD := None |};
     Type_ := FileInfoTypeFile; Permissions := 420; ModifiedNs := 0; RawBlockSize := 0; LocalFlags := 0;
     EncryptionTrailerSize := 0; Deleted := false; NoPermissions := false; truncated := false |}.
Definition ex_file : FileInfo := ex_info 1 [ex_block].
(** There is no current version. *)
Definition ex_noFile : FileInfo := ex_info 0 [].
Definition ex_tmp : bytes := gostr ".syncthing.f.tmp".
Definition ex_cfg : folderConfig :=
  {| ReceiveEncrypted := false; DisableSparseFiles := false; BlockIndexing := true; folderID := gostr "d";
     CopyRangeStandard := true |}.
Definition ex_time : GoTime := time_Unix 0 0.
Definition ex_shared : @shared memory bytes bytes :=
  {| sps := newSharedPullerState ex_time ex_file ex_tmp [ex_block] [] false false ex_noFile true false; world := [];
     act := ∅; queue := {| progress := [gostr "f"]; queued := [] |}; tempPullErrors := ∅ |}.

Lemma ex_job_ok : job_ok toy_sha256 ex_cfg ex_file 0.
Proof.
  constructor; try done.
  - split; [apply NoDup_singleton|]. split.
    + intros b ->%list_elem_of_singleton. unfold blockEnd. cbn. lia.
    + intros b b' ->%list_elem_of_singleton ->%list_elem_of_singleton. done.
  - exact toy_sha256_empty.
Qed.
Lemma ex_truncates : truncates (FS := memFS true).
Proof. intros fd n w. by eexists. Qed.

Lemma ex_starts canOpen : starts (FL := memLaws canOpen) toy_sha256 ex_cfg ex_file ex_tmp 0 ex_shared [ex_block] [].
Proof.
  constructor; try done.
  - exists ex_time, false, false, ex_noFile, false. done.
  - apply NoDup_singleton.
Qed.

(** *** Running it *)

Lemma pool_step_l {St : Type} (env : St -> St -> Prop) c c1 c2 :
  pool_step env c c1 -> pool_steps env c1 c2 -> pool_steps env c c2.
Proof.
  intros H1 H2. induction H2 as [|c2 c3 _ IH H3]; [|by eapply pool_trans].
  eapply pool_trans; [apply pool_refl|done].
Qed.

(** Steps of the goroutine at the place [l] ends, with the state computed. *)
Abbreviation MemShared := (@shared memory bytes bytes).
Lemma run_Step {St : Type} (env : St -> St -> Prop) l1 l2 R (f : St -> St * R) k s s' r c :
  f s = (s', r) -> pool_steps env (s', l1 ++ k r :: l2) c -> pool_steps env (s, l1 ++ Step_ f k :: l2) c.
Proof. intros H Hc. eapply pool_step_l; [apply (pool_Step _ l1)|]. by rewrite H. Qed.
Lemma run_Ask {St : Type} (env : St -> St -> Prop) l1 l2 R (k : R -> prog St) r s c :
  pool_steps env (s, l1 ++ k r :: l2) c -> pool_steps env (s, l1 ++ Ask_ k :: l2) c.
Proof. intros Hc. eapply pool_step_l; [apply (pool_Ask _ l1)|exact Hc]. Qed.
Lemma run_Fork {St : Type} (env : St -> St -> Prop) l1 l2 p q s c :
  pool_steps env (s, l1 ++ p :: q :: l2) c -> pool_steps env (s, l1 ++ Fork_ p q :: l2) c.
Proof. intros Hc. eapply pool_step_l; [apply (pool_Fork _ l1)|exact Hc]. Qed.
Lemma run_Done {St : Type} (env : St -> St -> Prop) l1 l2 s c :
  pool_steps env (s, l1 ++ l2) c -> pool_steps env (s, l1 ++ Done_ :: l2) c.
Proof. intros Hc. eapply pool_step_l; [apply (pool_Done _ l1)|exact Hc]. Qed.
(** Only the head of each goroutine is computed. *)
Ltac heads l :=
  lazymatch l with
  | ?p :: ?ps => let p' := eval hnf in p in let ps' := heads ps in constr:(p' :: ps')
  | _ => l
  end.
Ltac expose :=
  cbn [app];
  lazymatch goal with |- pool_steps ?env (?s, ?l) ?c => let l' := heads l in change (pool_steps env (s, l') c) end.
Ltac run_step l := eapply (run_Step _ l); [vm_compute; reflexivity|expose].
Ltac run_ask l a := eapply (run_Ask _ l) with (r := a); expose.
Ltac run_fork l := eapply (run_Fork _ l); expose.
Ltac run_done l := eapply (run_Done _ l); expose.

Abbreviation ex_job canOpen :=
  (job (FS := memFS canOpen) (fun _ => gostr ".") (fun _ => 0) (fun _ => inl []) (fun n => n) toy_sha256 ex_cfg ex_shared [] [ex_block]).

Lemma ex_run : exists g ps, pool_steps (same_job (FL := memLaws true) ex_tmp) (ex_job true) (g, ps) /\
  exists s' w', finalClose (FS := memFS true) (fun _ => gostr ".") (fun _ => 0) (fun _ => inl []) (fun n => n) (sps g) (world g) =
    ((s', w'), (true, None)) /\ w' = put ex_tmp [x07] [(ex_tmp, [x00]); (ex_tmp, [])].
Proof.
  eexists _, _. split.
  - unfold job. expose.
    run_ask (@nil (prog MemShared)) (@None bytes).
    run_ask (@nil (prog MemShared)) [@inr bytes bytes [x67] ].
    run_ask (@nil (prog MemShared)) true.
    run_ask (@nil (prog MemShared)) (Some [x07]).
    run_step (@nil (prog MemShared)).
    run_ask (@nil (prog MemShared)) (@None bytes).
    run_step (@nil (prog MemShared)).
    run_ask (@nil (prog MemShared)) false.
    run_ask (@nil (prog MemShared)) ex_time.
    run_step (@nil (prog MemShared)).
    apply pool_refl.
  - eexists _, _. split; vm_compute; reflexivity.
Qed.

Lemma job_verified_witness :
  exists c, content (put ex_tmp [x07] [(ex_tmp, [x00]); (ex_tmp, [])]) ex_tmp = Some c /\ zlen c = 1 /\
    verified toy_sha256 c ex_block.
Proof.
  destruct ex_run as (g & ps & Hrun & s' & w' & Hclose & Hw).
  destruct (job_verified (FL := memLaws true) (fun _ => gostr ".") (fun _ => 0) (fun _ => inl []) (fun n => n) toy_sha256 ex_cfg
    ex_file ex_tmp 0 ex_shared [] [ex_block] [] g ps s' w' ex_job_ok (ex_starts true) Hrun Hclose) as (c & Hc & _ & Hb & Hl).
  subst w'. exists c. split; [exact Hc|]. split; [apply Hl; [left; exact ex_truncates|reflexivity]|]. apply Hb; [left; exact ex_truncates|constructor].
Defined.

(** The rest of the run: the finisher closes the file and marks it done. *)
Lemma ex_run_end : exists g, pool_steps (same_job (FL := memLaws true) ex_tmp) (ex_job true) (g, []) /\
  closed (sps g) = true /\ err (sps g) = None /\ progress (queue g) = [].
Proof.
  eexists. split.
  - unfold job. expose.
    run_ask (@nil (prog MemShared)) (@None bytes).
    run_ask (@nil (prog MemShared)) [@inr bytes bytes [x67] ].
    run_ask (@nil (prog MemShared)) true.
    run_ask (@nil (prog MemShared)) (Some [x07]).
    run_step (@nil (prog MemShared)).
    run_ask (@nil (prog MemShared)) (@None bytes).
    run_step (@nil (prog MemShared)).
    run_ask (@nil (prog MemShared)) false.
    run_ask (@nil (prog MemShared)) ex_time.
    run_step (@nil (prog MemShared)).
    run_fork (@nil (prog MemShared)).
    run_step (@nil (prog MemShared)).
    run_step (@nil (prog MemShared)).
    run_step (@nil (prog MemShared)).
    run_ask (@nil (prog MemShared)) (@None bytes).
    run_done (@nil (prog MemShared)).
    run_done (@nil (prog MemShared)).
    apply pool_refl.
  - split; [|split]; vm_compute; reflexivity.
Qed.

Lemma job_closed_once_witness :
  exists g : MemShared, closed (sps g) = true /\
    finalClose (FS := memFS true) (fun _ => gostr ".") (fun _ => 0) (fun _ => inl []) (fun n => n) (sps g) (world g) =
      ((sps g, world g), (false, None)).
Proof.
  destruct ex_run_end as (g & Hrun & Hc & _). exists g. split; [exact Hc|].
  exact (job_closed_once (FL := memLaws true) (fun _ => gostr ".") (fun _ => 0) (fun _ => inl []) (fun n => n) toy_sha256 ex_cfg
    ex_file ex_tmp 0 ex_shared [] [ex_block] [] g [] g [] ex_job_ok (ex_starts true) Hrun Hc (pool_refl _ _)).
Defined.

Lemma ex_creatable : creatable (FS := memFS true) (fun _ => gostr ".") (fun _ => 0) ex_tmp 0.
Proof.
  intros s w Ht Hr. unfold inWritableDir. cbn [fs_Stat memFS negb]. change (Z.land (Z.land 511 permBits) 128 =? 0) with false.
  cbv iota zeta. unfold tempFileInWritableDir. rewrite Hr. cbn [Z.eqb orb fs_OpenFile memFS negb].
  change (Z.testbit (Z.lor OptReadWrite (Z.lor OptCreate OptExclusive)) 7) with true. cbn [fs_Hide memFS fd_Truncate fst].
  destruct (sparse s && negb (IsSymlink (file s))); eauto.
Qed.

Lemma job_ends_witness :
  exists g, pool_steps (same_job (FL := memLaws true) ex_tmp) (ex_job true) (g, []) /\ closed (sps g) = true /\
    exists c, content (world g) ex_tmp = Some c /\ settled toy_sha256 ex_cfg 0 c ex_block.
Proof.
  destruct ex_run_end as (g & Hrun & _ & Herr & _). exists g. split; [exact Hrun|].
  destruct (job_ends (FL := memLaws true) (fun _ => gostr ".") (fun _ => 0) (fun _ => inl []) (fun n => n) toy_sha256 ex_cfg
    ex_file ex_tmp 0 ex_shared [] [ex_block] [] g ex_job_ok ex_creatable (ex_starts true) Hrun) as [Hc Hb]. split; [exact Hc|].
  destruct (Hb Herr) as (_ & _ & c & Hd & Hs). exists c. split; [exact Hd|]. apply Hs. constructor.
Defined.

(** *** What goes wrong *)

(** If the temporary file cannot be created, the job is forgotten: no goroutine
    is left, the file is not closed, it stays in the list of files in progress,
    and no error is reported for it. *)
Lemma job_forgotten : exists g, pool_steps (same_job (FL := memLaws false) ex_tmp) (ex_job false) (g, []) /\
  closed (sps g) = false /\ err (sps g) <> None /\ progress (queue g) = [gostr "f"] /\ tempPullErrors g = ∅.
Proof.
  eexists. split.
  - unfold job. expose.
    run_ask (@nil (prog MemShared)) (@None bytes).
    run_ask (@nil (prog MemShared)) [@inr bytes bytes [x67] ].
    run_ask (@nil (prog MemShared)) true.
    run_ask (@nil (prog MemShared)) (Some [x07]).
    run_step (@nil (prog MemShared)).
    run_step (@nil (prog MemShared)).
    run_step (@nil (prog MemShared)).
    run_step (@nil (prog MemShared)).
    run_fork (@nil (prog MemShared)).
    run_step (@nil (prog MemShared)).
    run_done (@nil (prog MemShared)).
    run_done (@nil (prog MemShared)).
    apply pool_refl.
  - split; [vm_compute; reflexivity|]. split; [vm_compute; discriminate|]. split; vm_compute; reflexivity.
Qed.

(** Without sparse files a temporary file that is reused is not cut to the size
    of the file: here the one block of the file is in place, and what follows
    it stays. *)
Definition plain_cfg : folderConfig :=
  {| ReceiveEncrypted := false; DisableSparseFiles := true; BlockIndexing := true; folderID := gostr "d";
     CopyRangeStandard := true |}.
Definition ex_reuse : MemShared :=
  {| sps := newSharedPullerState ex_time ex_file ex_tmp [] [0] false false ex_noFile false false;
     world := [(ex_tmp, [x07; x09])]; act := ∅; queue := newJobQueue; tempPullErrors := ∅ |}.

Lemma stale_tail : exists g ps s' w',
  starts (FL := memLaws true) toy_sha256 plain_cfg ex_file ex_tmp 1 ex_reuse [] [0] /\
  pool_steps (same_job (FL := memLaws true) ex_tmp)
    (job (FS := memFS true) (fun _ => gostr ".") (fun _ => 0) (fun _ => inl []) (fun n => n) toy_sha256 plain_cfg ex_reuse [] [])
    (g, ps) /\
  finalClose (FS := memFS true) (fun _ => gostr ".") (fun _ => 0) (fun _ => inl []) (fun n => n) (sps g) (world g) =
    ((s', w'), (true, None)) /\
  content w' ex_tmp = Some [x07; x09] /\ FSize ex_file = 1.
Proof.
  eexists _, _, _, _. split; [|split].
  - constructor; try done; [by exists ex_time, false, false, ex_noFile, false|by apply list.NoDup_nil| |].
    { intros b Hb. by apply elem_of_nil in Hb. }
    intros b ->%list_elem_of_singleton _. split; [lia|]. intros c [= <-]. right. vm_compute. split; [discriminate|reflexivity].
  - unfold job. expose. run_step (@nil (prog MemShared)). apply pool_refl.
  - split; [vm_compute; reflexivity|]. split; vm_compute; reflexivity.
Qed.

(** ** How a job starts *)

Lemma sizes_nonneg bs : (forall x, x ∈ bs -> 0 < Size x) -> 0 <= foldr (fun x n => Size x + n) 0 bs.
Proof.
  induction bs as [|y bs IH]; intros Hs; cbn; [done|].
  specialize (IH ltac:(intros z Hz; apply Hs, list_elem_of_further, Hz)).
  specialize (Hs y ltac:(apply list_elem_of_here)). lia.
Qed.
Lemma populate_loop_in off bs b :
  (forall x, x ∈ bs -> 0 < Size x) -> b ∈ populate_loop off bs -> off <= Offset b /\ 0 < Size b /\
    Offset b + Size b <= off + foldr (fun x n => Size x + n) 0 bs.
Proof.
  revert off. induction bs as [|x bs IH]; intros off Hs Hb; cbn in *; [by apply elem_of_nil in Hb|].
  assert (0 < Size x) as Hx by (apply Hs, list_elem_of_here).
  assert (forall y, y ∈ bs -> 0 < Size y) as Hs' by (intros y Hy; apply Hs, list_elem_of_further, Hy).
  pose proof (sizes_nonneg bs Hs') as Hsum.
  apply elem_of_cons in Hb as [->|Hb]; [cbn; lia|]. specialize (IH (off + Size x) Hs' Hb). lia.
Qed.

Lemma populate_loop_layout off bs :
  0 <= off -> (forall x, x ∈ bs -> 0 < Size x) ->
  layout (populate_loop off bs) (off + foldr (fun x n => Size x + n) 0 bs).
Proof.
  revert off. induction bs as [|x bs IH]; intros off Ho Hs; cbn.
  { split; [by apply list.NoDup_nil|]. split; [intros b Hb; by apply elem_of_nil in Hb|].
    intros b b' Hb. by apply elem_of_nil in Hb. }
  assert (0 < Size x) as Hx by (apply Hs, list_elem_of_here).
  assert (forall y, y ∈ bs -> 0 < Size y) as Hs' by (intros y Hy; apply Hs, list_elem_of_further, Hy).
  destruct (IH (off + Size x)) as (L1 & L2 & L3); [lia|done|]. rewrite <- Z.add_assoc in L2. 
  pose proof (populate_loop_in (off + Size x) bs) as Hin. split; [|split].
  - apply list.NoDup_cons. split; [|done]. intros H. apply Hin in H; [cbn in H; lia|done].
  - intros b [->|Hb] %elem_of_cons; [|by apply L2]. unfold blockEnd. cbn.
    pose proof (sizes_nonneg bs Hs'). lia.
  - unfold blockEnd in *. intros b b' [->|Hb] %elem_of_cons [->|Hb'] %elem_of_cons Hne; [done| | |by apply L3].
    + apply Hin in Hb'; [cbn; lia|done].
    + apply Hin in Hb; [cbn; lia|done].
Qed.

(** The blocks that two lists have in common, by hash, at the same place. *)
Lemma blockDiff_loop_have src tgt have need b :
  b ∈ (blockDiff_loop src tgt have need).1 ->
  b ∈ have \/ exists i s, src !! i = Some s /\ tgt !! i = Some b /\ Hash b = Hash s.
Proof.
  revert src have need. induction tgt as [|t tgt IH]; intros src have need; [by intros Hb; left; destruct src|].
  destruct src as [|s src]; [by intros Hb; left|]. cbn [blockDiff_loop]. case_decide as E; intros [Hb|(i & s' & H1 & H2 & H3)]%IH.
  - apply elem_of_app in Hb as [Hb| ->%list_elem_of_singleton]; [by left|]. right. by exists O, s.
  - right. by exists (S i), s'.
  - by left.
  - right. by exists (S i), s'.
Qed.
Lemma blockDiff_have src tgt b :
  b ∈ (blockDiff src tgt).1 -> exists i s, src !! i = Some s /\ tgt !! i = Some b /\ Hash b = Hash s.
Proof.
  unfold blockDiff. intros Hb. destruct tgt as [|t tgt]; [by apply elem_of_nil in Hb|].
  destruct src as [|s src]; [by apply elem_of_nil in Hb|].
  apply blockDiff_loop_have in Hb as [Hb|?]; [by apply elem_of_nil in Hb|done].
Qed.

Lemma NoDup_filter_In (P : BlockInfo -> bool) bs : NoDup bs -> NoDup (List.filter P bs).
Proof.
  induction bs as [|x bs IH]; [done|]. intros [Hx Hn]%list.NoDup_cons. cbn. destruct (P x); [|by apply IH].
  apply list.NoDup_cons. split; [|by apply IH]. intros [H _]%list_elem_of_In%filter_In. by apply Hx, list_elem_of_In.
Qed.
Lemma reused_length (P : BlockInfo -> bool) n bs b :
  b ∈ bs -> P b = true ->
  length (List.filter (fun p : nat * BlockInfo => P p.2) (zip (seq n (length bs)) bs)) <> O.
Proof.
  revert n. induction bs as [|x bs IH]; intros n Hb HP; [by apply elem_of_nil in Hb|]. cbn.
  apply elem_of_cons in Hb as [<-|Hb]; [by rewrite HP|]. destruct (P x); [done|]. by apply IH.
Qed.

(** [handleFile] starts a job that meets the conditions of the theorems
    above: with the offsets of [populateOffsets] the blocks do not overlap and
    fill the file, and [reuseBlocks] leaves out only blocks whose hash is that
    of the block found at the same place of the old temporary file, whatever
    order the rest is then put in. *)
Theorem handleFile_starts {W Fd E : Type} {FS : Filesystem W Fd E} {FL : FilesystemLaws W Fd E}
    sha256 cfg f tmp (g : @shared W Fd E) bs tempBlocks blocks now ip hc cur fsy
    (Hbs : Blocks f = populateOffsets bs) (Hpos : forall b, b ∈ bs -> 0 < Size b)
    (Hsize : FSize f = foldr (fun b n => Size b + n) 0 bs)
    (Htemp : forall ts i t b c, tempBlocks = Some ts -> ts !! i = Some t -> Blocks f !! i = Some b -> Hash b = Hash t ->
       disk (world g) tmp = Some c -> verified sha256 c b)
    (Hblocks : blocks ≡ₚ (reuseBlocks tempBlocks (Blocks f)).1)
    (Hs : sps g = newSharedPullerState now f tmp blocks (reuseBlocks tempBlocks (Blocks f)).2 ip hc cur
            (negb (DisableSparseFiles cfg)) fsy) :
  layout (Blocks f) (FSize f) /\
  starts sha256 cfg f tmp (zlen (reuseBlocks tempBlocks (Blocks f)).2) g blocks (reuseBlocks tempBlocks (Blocks f)).2.
Proof.
  assert (layout (Blocks f) (FSize f)) as HL.
  { rewrite Hbs, Hsize. unfold populateOffsets. by apply (populate_loop_layout 0). }
  split; [done|]. destruct HL as (Hnd & _). constructor; [by eauto 10|done| | |].
  - rewrite Hblocks. destruct tempBlocks as [ts|]; [|done]. cbn. by apply NoDup_filter_In.
  - intros b. rewrite Hblocks. destruct tempBlocks as [ts|]; [|done]. cbn.
    intros [Hb _]%list_elem_of_In%filter_In. by apply list_elem_of_In.
  - intros b Hb. rewrite Hblocks. intros Hn. destruct tempBlocks as [ts|]; [|done].
    cbn [reuseBlocks fst snd] in *. assert (b ∈ (blockDiff ts (Blocks f)).1) as Hex.
    { destruct (decide (b ∈ (blockDiff ts (Blocks f)).1)) as [|Hne]; [done|]. exfalso. apply Hn.
      apply list_elem_of_In, filter_In. rewrite bool_decide_false by done. by rewrite <- list_elem_of_In. }
    split.
    + rewrite length_map. intros H0.
      apply (reused_length (fun b => bool_decide (b ∈ (blockDiff ts (Blocks f)).1)) 0 (Blocks f) b Hb); [by rewrite bool_decide_true|].
      lia.
    + intros c Hc. apply blockDiff_have in Hex as (i & t & H1 & H2 & H3). by apply (Htemp ts i t b c).
Qed.

Lemma handleFile_starts_witness :
  layout (Blocks ex_file) (FSize ex_file) /\
  starts (FL := memLaws true) toy_sha256 plain_cfg ex_file ex_tmp 1 ex_reuse [] [0].
Proof.
  apply (handleFile_starts (FL := memLaws true) toy_sha256 plain_cfg ex_file ex_tmp ex_reuse [ex_block] (Some [ex_block]) []
    ex_time false false ex_noFile false).
  - reflexivity.
  - intros b ->%list_elem_of_singleton. reflexivity.
  - reflexivity.
  - intros ts i t b c [= <-] Ht Hb _ [= <-]. right. destruct i as [|i]; [|destruct i; discriminate Ht].
    injection Hb as <-. vm_compute. split; [discriminate|reflexivity].
  - vm_compute. constructor.
  - reflexivity.
Defined.

(** *** A file that is cut off *)

(** The files in memory, where truncating fails. *)
#[local] Instance shortFS : Filesystem memory bytes bytes := {|
  fs_Stat := fs_Stat (Filesystem := memFS true); fs_Chmod := fs_Chmod (Filesystem := memFS true);
  fs_OpenFile := fs_OpenFile (Filesystem := memFS true); fs_Hide := fs_Hide (Filesystem := memFS true);
  fs_Unhide := fs_Unhide (Filesystem := memFS true); fs_Remove := fs_Remove (Filesystem := memFS true);
  fd_Truncate fd n w := (w, inl (gostr "not supported")); fd_WriteAt := fd_WriteAt (Filesystem := memFS true);
  fd_Sync := fd_Sync (Filesystem := memFS true); fd_Close := fd_Close (Filesystem := memFS true);
  IsPermission _ := false; IsCanceled _ := false; errors_New s := s; Errorf p e := p ++ e |}.
#[local] Instance shortLaws : FilesystemLaws memory bytes bytes.
Proof.
  refine {| disk := content; fd_name := fun fd => fd |}; try done.
  - intros n w. left. apply content_remove.
  - exact (Open_ok (FilesystemLaws := memLaws true)).
  - exact (Open_err (FilesystemLaws := memLaws true)).
  - intros fd n w w' e [= <-]. done.
  - exact (WriteAt_ok (FilesystemLaws := memLaws true)).
Defined.
Definition zero_block : BlockInfo :=
  {| Hash := default [] (h ← List.find (fun p : Z * option bytes => fst p =? 131072) sha256OfEmptyBlock; snd h); Offset := 0; Size := 131072 |}.
Definition zero_file : FileInfo := ex_info 131072 [zero_block].
Definition zero_shared : MemShared :=
  {| sps := newSharedPullerState ex_time zero_file ex_tmp [zero_block] [] false false ex_noFile true false; world := [];
     act := ∅; queue := {| progress := [gostr "f"]; queued := [] |}; tempPullErrors := ∅ |}.
Abbreviation zero_job :=
  (job (FS := shortFS) (fun _ => gostr ".") (fun _ => 0) (fun _ => inl []) (fun n => n) toy_sha256 ex_cfg zero_shared [] [zero_block]).
Lemma zero_is_empty : BlockInfo_IsEmpty zero_block = true.
Proof. vm_compute. reflexivity. Qed.

(** The blocks of zeroes at the end of a sparse file are skipped although the
    file could not be given its size: the file is closed without an error, and it
    is too short. *)
Lemma closed_short : exists g, pool_steps (same_job (FL := shortLaws) ex_tmp) zero_job (g, []) /\
  closed (sps g) = true /\ err (sps g) = None /\ content (world g) ex_tmp = Some [].
Proof.
  eexists. split.
  - unfold job. expose.
    run_ask (@nil (prog MemShared)) (@None bytes).
    run_ask (@nil (prog MemShared)) ex_time.
    run_step (@nil (prog MemShared)).
    run_ask (@nil (prog MemShared)) ex_time.
    run_step (@nil (prog MemShared)).
    run_fork (@nil (prog MemShared)).
    run_step (@nil (prog MemShared)).
    run_step (@nil (prog MemShared)).
    run_step (@nil (prog MemShared)).
    run_ask (@nil (prog MemShared)) (@None bytes).
    run_done (@nil (prog MemShared)).
    run_done (@nil (prog MemShared)).
    apply pool_refl.
  - split; [|split]; vm_compute; reflexivity.
Qed.
