(* ===== verification/Disk.v ===== *)
(** * Programs that act on the disk

    The actions of a folder on its files, as a free monad: a program is a value
    or a call with a continuation for every answer.  The answers of the file
    system, the database, the versioner and the system are not assumed to be
    anything in particular: a run of a program is a list of calls with any
    answers.  [safe] is the program logic: every call is allowed, given the
    calls and answers before it, and the result satisfies a postcondition. *)
From Stdlib Require Import ZArith List Lia.
From Stdlib Require Import Strings.Byte.
From stdpp Require Import base list option numbers tactics.
From S2P Require Import Prelude GoLib FileInfo Paths.

#[local] Open Scope Z_scope.

(** ** Errors *)

(** The errors that are told apart, everything else, and wrapped errors
    ([fmt.Errorf] with [%w]). *)
Inductive disk_err :=
  | ErrNotExist | ErrEOF | ErrPermission | ErrCaseConflict (real : bytes) | ErrXattrsNotSupported | ErrOther (msg : bytes)
  | ErrPath (e : path_err) | TraversesSymlinkError (path : bytes) | NotADirectoryError (path : bytes)
  | ErrCanceled | errModified | errDirHasToBeScanned | errDirHasIgnored | errDirNotEmpty | errUnexpectedDirOnFileDel
  | errNotAvailable | errIncompatibleSymlink
  | SkipDir | ErrInfiniteRecursion | errUTF8Invalid | errUTF8Normalization | errUTF8Conflict
  | ErrWrapped (ctx : bytes) (e : disk_err).

(** [errors.Is] and [errors.As] look through the wrapping. *)
Fixpoint unwrap (e : disk_err) : disk_err := match e with ErrWrapped _ e => unwrap e | _ => e end.
Definition is_not_exist (e : disk_err) : bool := match unwrap e with ErrNotExist => true | _ => false end.
Definition is_eof (e : disk_err) : bool := match unwrap e with ErrEOF => true | _ => false end.
Definition is_permission (e : disk_err) : bool := match unwrap e with ErrPermission => true | _ => false end.
Definition as_case_conflict (e : disk_err) : option bytes :=
  match unwrap e with ErrCaseConflict real => Some real | _ => None end.
Definition is_case_conflict (e : disk_err) : bool := match as_case_conflict e with Some _ => true | None => false end.
Definition is_modified (e : disk_err) : bool := match unwrap e with errModified => true | _ => false end.
Definition is_skip_dir (e : disk_err) : bool := match unwrap e with SkipDir => true | _ => false end.
Definition opt_is (p : disk_err -> bool) (e : option disk_err) : bool := match e with Some e => p e | None => false end.

(** ** Calls *)

(** What [fs.FileInfo] says of a file. *)
Record Stat :=
  { st_IsDir : bool; st_IsSymlink : bool; st_IsRegular : bool; st_Mode : Z; st_Size : Z; st_ModTime_Unix : Z;
    st_ModTime_Nanosecond : Z; st_Owner : Z; st_Group : Z }.

(** [dbUpdateType], the types of the jobs of the database updater. *)
Definition dbUpdateHandleDir : Z := 0.
Definition dbUpdateDeleteDir : Z := 1.
Definition dbUpdateHandleFile : Z := 2.
Definition dbUpdateDeleteFile : Z := 3.
Definition dbUpdateShortcutFile : Z := 4.
Definition dbUpdateHandleSymlink : Z := 5.
Definition dbUpdateInvalidate : Z := 6.
Record dbUpdateJob := { job_file : FileInfo; jobType : Z }.

Inductive call :=
  (* the file system *)
  | Lstat (name : bytes)
  | StatFile (name : bytes)
  | Chmod (name : bytes) (mode : Z)
  | Lchown (name uid gid : bytes)
  | Chtimes (name : bytes) (t : GoTime)
  | SetXattr (name : bytes) (xs : list Xattr)
  | GetPlatformData (name : bytes) (ownership xattrs : bool)
  | ReadSymlink (name : bytes)
  | CreateSymlink (target name : bytes)
  | Mkdir (name : bytes) (mode : Z)
  | MkdirAll (name : bytes) (mode : Z)
  | Remove (name : bytes)
  | Rename (oldname newname : bytes)
  | CopyContents (from to : bytes) (* [copyFileContents] *)
  | Glob (pattern : bytes)
  | Walk (dir : bytes) (* the entries that are visited *)
  | HashFile (name : bytes) (blockSize : Z) (* [scanner.HashFile] *)
  | WriteTrailer (name : bytes) (f : FileInfo) (* opens the file, writes the encryption trailer *)
  | Truncate (name : bytes) (size : Z)
  (* the versioner, the database, the users of the system *)
  | Archive (name : bytes)
  | GetDeviceFile (name : bytes)
  | GetGlobalFile (name : bytes)
  | AllNeededGlobalFiles
  | CheckAvailableSpace (size : Z)
  | FileAvailability (f : FileInfo)
  | LookupUser (name : bytes)
  | LookupGroup (name : bytes)
  | Now_stamp (* the time as in the name of a conflict copy *)
  | CtxErr
  | Panics
  (* channels, the job queue, the errors of the folder *)
  | SendScan (name : bytes)
  | SendUpdate (job : dbUpdateJob)
  | SendCopy (f : FileInfo) (blocks : list BlockInfo) (reused : list Z) (hasCur : bool) (cur : FileInfo) (temp : bytes)
  | NewPullError (path : bytes) (e : disk_err)
  | QueuePush (f : FileInfo)
  | QueuePop
  | QueueDone (name : bytes)
  (* scanning: directories, the clock, the results of a walk and of the hashers *)
  | DirNames (name : bytes)
  | SameFile (a b : Stat)
  | Now_unix
  | SendHash (f : FileInfo)
  | SendResult (f : FileInfo)
  | SendError (path : bytes) (e : disk_err)
  | NextResult
  (* the digest cache and the snapshot of a folder *)
  | CacheLookup (path : bytes) (modTime : GoTime) (size : Z)
  | CacheSet (path : bytes) (modTime : GoTime) (size : Z) (f : FileInfo)
  | CacheRemovePrefix (path : bytes)
  | SnapshotSize
  | SnapshotUpdate (files : list FileInfo) (dirty : list bytes)
  (* the folder and its database *)
  | HealthError
  | UpdateLocals (fs : list FileInfo)
  | DropFilesNamed (names : list bytes)
  | AllLocalFiles
  | AllLocalFilesWithPrefix (prefix : bytes)
  | AllLocalFilesWithBlocksHash (hash : bytes)
  | NewScanError (path : bytes) (e : disk_err)
  | ClearScanErrors (subs : list bytes)
  | LoadIgnores
  | IgnoresHash
  | IgnoresUpdated
  | TakeToken
  | TakeForcedRescans (* empties the set *)
  | DropForcedRescans (names : list bytes)
  | LocalSequence
  | ScanCompleted
  | SchedulePull
  (* answering requests: files, the buffers and limits of responses *)
  | OpenFile (name : bytes)
  | ReadAt (name : bytes) (offset size : Z) (* what was read, and the error that ended it *)
  | TakeBytes (size : Z)
  | GiveBytes (size : Z)
  | PoolGet (size : Z)
  | PoolPut (data : bytes)
  | ScheduleForceRescan (name : bytes).

Definition answer (c : call) : Type :=
  match c with
  | Lstat _ | StatFile _ => disk_err + Stat
  | GetPlatformData _ _ _ => disk_err + PlatformData
  | ReadSymlink _ => disk_err + bytes
  | Glob _ => list bytes
  | Walk _ => list (bytes * Stat * option disk_err)
  | HashFile _ _ => disk_err + list BlockInfo
  | WriteTrailer _ _ => disk_err + Z
  | GetDeviceFile _ | GetGlobalFile _ => disk_err + (FileInfo * bool)
  | AllNeededGlobalFiles => list (disk_err + FileInfo)
  | FileAvailability _ => bool
  | LookupUser _ | LookupGroup _ => option bytes
  | Now_stamp => bytes
  | Panics => Empty_set
  | QueuePop => option bytes
  | DirNames _ => disk_err + list bytes
  | SameFile _ _ => bool
  | Now_unix | SnapshotSize => Z
  | NextResult => option (bytes * disk_err + FileInfo)
  | CacheLookup _ _ _ => option FileInfo
  | AllLocalFiles | AllLocalFilesWithPrefix _ | AllLocalFilesWithBlocksHash _ => list (disk_err + FileInfo)
  | SendHash _ | SendResult _ | HealthError | UpdateLocals _ | DropFilesNamed _ => option disk_err
  | CacheSet _ _ _ _ | CacheRemovePrefix _ | SnapshotUpdate _ _ | NewScanError _ _ | SchedulePull | SendError _ _ => unit
  | IgnoresHash => bytes
  | TakeForcedRescans => list bytes
  | LoadIgnores | TakeToken | LocalSequence => option disk_err
  | ClearScanErrors _ | IgnoresUpdated | DropForcedRescans _ | ScanCompleted => unit
  | OpenFile _ => option disk_err
  | ReadAt _ _ _ => bytes * option disk_err
  | PoolGet _ => bytes
  | TakeBytes _ | GiveBytes _ | PoolPut _ | ScheduleForceRescan _ => unit
  | SendScan _ | SendUpdate _ | SendCopy _ _ _ _ _ _ | NewPullError _ _ | QueuePush _ | QueueDone _ => unit
  | Chmod _ _ | Lchown _ _ _ | Chtimes _ _ | SetXattr _ _ | CreateSymlink _ _ | Mkdir _ _ | MkdirAll _ _ | Remove _
  | Rename _ _ | CopyContents _ _ | Truncate _ _ | Archive _ | CheckAvailableSpace _ | CtxErr => option disk_err
  end.

Record event := Event { ev_call : call; ev_answer : answer ev_call }.

(** ** Programs *)

Inductive prog (A : Type) : Type :=
  | Return (a : A)
  | Call (c : call) (k : answer c -> prog A).
Arguments Return {A} a.
Arguments Call {A} c k.

Fixpoint prog_bind_ {A B} (f : A -> prog B) (p : prog A) : prog B :=
  match p with
  | Return a => f a
  | Call c k => Call c (fun r => prog_bind_ f (k r))
  end.
#[export] Instance prog_ret : MRet prog := fun A a => Return a.
#[export] Instance prog_bind : MBind prog := fun A B f p => prog_bind_ f p.
Definition do_ (c : call) : prog (answer c) := Call c Return.

(** [for _, x := range xs { body }] *)
Fixpoint for_each {A} (body : A -> prog unit) (xs : list A) : prog unit :=
  match xs with
  | [] => mret tt
  | x :: xs => _ ← body x; for_each body xs
  end.

(** ** Runs *)

(** The history is kept with the last event first. *)
Definition history : Type := list event.

Fixpoint runs {A} (p : prog A) (h h' : history) (a : A) : Prop :=
  match p with
  | Return a' => h' = h /\ a' = a
  | Call c k => exists r, runs (k r) (Event c r :: h) h' a
  end.

(** An interpreter, for concrete runs; a call without an answer stops it. *)
Section Exec.
Context (respond : forall c : call, option (answer c)).
Fixpoint exec {A} (p : prog A) (h : history) : option (history * A) :=
  match p with
  | Return a => Some (h, a)
  | Call c k => match respond c with Some r => exec (k r) (Event c r :: h) | None => None end
  end.
Lemma exec_runs {A} (p : prog A) h h' a : exec p h = Some (h', a) -> runs p h h' a.
Proof.
  revert h. induction p as [a'|c k IH]; intros h; cbn; [by intros [= <- <-]|].
  destruct (respond c) as [r|]; [|done]. intros H. exists r. by apply IH.
Qed.
End Exec.

(** ** The program logic *)

Section Safe.
Context (allowed : history -> call -> Prop) (plausible : forall c : call, answer c -> Prop).

Fixpoint safe {A} (p : prog A) (h : history) (Q : history -> A -> Prop) : Prop :=
  match p with
  | Return a => Q h a
  | Call c k => allowed h c /\ forall r, plausible c r -> safe (k r) (Event c r :: h) Q
  end.

Lemma safe_mono {A} (p : prog A) h (Q Q' : history -> A -> Prop) :
  safe p h Q -> (forall h a, Q h a -> Q' h a) -> safe p h Q'.
Proof. intros H HQ. revert h H. induction p as [a|c k IH]; intros h H; cbn in *; [by apply HQ|]. destruct H. split; [done|]. intros r Hr. by apply IH, H0. Qed.
Lemma safe_bind {A B} (p : prog A) (f : A -> prog B) h Q :
  safe p h (fun h a => safe (f a) h Q) -> safe (p ≫= f) h Q.
Proof. intros H. revert h H. induction p as [a|c k IH]; intros h H; cbn in *; [done|]. destruct H. split; [done|]. intros r Hr. by apply IH, H0. Qed.
Lemma safe_seq {A B} (p : prog A) (f : A -> prog B) h (P : history -> A -> Prop) Q :
  safe p h P -> (forall h a, P h a -> safe (f a) h Q) -> safe (p ≫= f) h Q.
Proof. intros H HQ. apply safe_bind. by eapply safe_mono. Qed.
Lemma safe_for {A} (body : A -> prog unit) (I : history -> Prop) xs h :
  I h -> (forall x h, I h -> x ∈ xs -> safe (body x) h (fun h _ => I h)) -> safe (for_each body xs) h (fun h _ => I h).
Proof.
  revert h. induction xs as [|x xs IH]; intros h HI Hb; cbn; [done|].
  eapply safe_seq; [apply Hb; [done|left]|]. cbn. intros h' _ HI'. apply IH; [done|]. intros. apply Hb; [done|by right].
Qed.

Lemma sub_cons (h h' : history) (e : event) : e :: h ⊆ h' -> h ⊆ h'.
Proof using. clear. intros H x Hx. apply H. by right. Qed.
(** Histories only grow. *)
Lemma safe_extends {A} (p : prog A) h (Q : history -> A -> Prop) :
  safe p h Q -> safe p h (fun h' a => h ⊆ h' /\ Q h' a).
Proof using.
  revert h. induction p as [a|c k IH]; intros h H; cbn in *; [done|]. destruct H as [Hc H]. split; [done|].
  intros r Hr. eapply safe_mono; [by apply IH, H|]. cbn. intros h' a [Hs HQ]. split; [by eapply sub_cons|done].
Qed.
(** One call, and then the rest for every answer. *)
Lemma safe_do {A} c (f : answer c -> prog A) h Q :
  allowed h c -> (forall r, plausible c r -> safe (f r) (Event c r :: h) Q) -> safe (do_ c ≫= f) h Q.
Proof using. done. Qed.
(** A call of a program with a specification, with the history it extends. *)
Lemma safe_call {A B} (p : prog A) (f : A -> prog B) h (P : history -> A -> Prop) Q :
  safe p h P -> (forall h' a, h ⊆ h' -> P h' a -> safe (f a) h' Q) -> safe (p ≫= f) h Q.
Proof using. intros H HQ. eapply safe_seq; [by apply safe_extends|]. cbn. intros h' a [Hs HP]. by apply HQ. Qed.

(** The history with every call allowed when it was made. *)
Fixpoint all_allowed (h : history) : Prop :=
  match h with
  | [] => True
  | e :: h => allowed h (ev_call e) /\ all_allowed h
  end.
Definition all_plausible (h : history) : Prop := Forall (fun e => plausible (ev_call e) (ev_answer e)) h.

Lemma runs_extends {A} (p : prog A) h h' a : runs p h h' a -> exists t, h' = t ++ h.
Proof.
  revert h. induction p as [a'|c k IH]; intros h H; cbn in H; [destruct H as [-> _]; by exists []|].
  destruct H as [r H]. apply IH in H as [t ->]. exists (t ++ [Event c r]). by rewrite <- app_assoc.
Qed.
(** What [safe] says of every run. *)
Lemma safe_runs {A} (p : prog A) h Q h' a :
  safe p h Q -> all_allowed h -> runs p h h' a -> all_plausible h' -> all_allowed h' /\ Q h' a.
Proof.
  revert h. induction p as [a'|c k IH]; intros h Hs Hh Hr Hp; cbn in Hs, Hr; [destruct Hr as [-> ->]; done|].
  destruct Hs as [Ha Hs]. destruct Hr as [r Hr].
  assert (plausible c r) as Hc.
  { apply runs_extends in Hr as [t ->]. apply Forall_app in Hp as [_ Hp]. by apply (Forall_inv Hp). }
  by apply (IH r (Event c r :: h)); [apply Hs| |..].
Qed.
(** The answers may be plausible because of what happened before. *)
Lemma safe_runs_after {A} (p : prog A) h Q h' a : safe p h Q -> all_allowed h -> runs p h h' a ->
  (forall t t' c r, h' = t' ++ Event c r :: t -> all_allowed t -> plausible c r) -> all_allowed h' /\ Q h' a.
Proof.
  revert h. induction p as [a'|c k IH]; intros h Hs Hh Hr Hp; cbn in Hs, Hr; [destruct Hr as [-> ->]; done|].
  destruct Hs as [Ha Hs]. destruct Hr as [r Hr].
  assert (plausible c r) as Hc by (destruct (runs_extends _ _ _ _ Hr) as [t' E]; by eapply Hp).
  by apply (IH r (Event c r :: h)); [apply Hs| |..].
Qed.
(** Runs of the interpreter with plausible answers. *)
Lemma exec_plausible {A} respond (p : prog A) h h' a : (forall c r, respond c = Some r -> plausible c r) ->
  exec respond p h = Some (h', a) -> all_plausible h -> all_plausible h'.
Proof.
  intros Hc. revert h. induction p as [a'|c k IH]; intros h; cbn; [by intros [= <- _]|].
  destruct (respond c) as [r|] eqn:E; [|done]. intros H Hp. apply (IH r _ H). constructor; [by apply Hc|done].
Qed.
End Safe.
Arguments safe_do {allowed plausible A} c f h Q.
Arguments safe_extends {allowed plausible A} p h Q.
Arguments safe_call {allowed plausible A B} p f h P Q.

(** Programs of which every call is allowed. *)
Section Anything.
Context (plausible : forall c : call, answer c -> Prop).
Abbreviation Runs := (safe (fun _ _ => True) plausible).

Lemma any_safe {A} (p : prog A) h : Runs p h (fun h' _ => h ⊆ h').
Proof using.
  revert h. induction p as [a|c k IH]; intros h; cbn; [done|]. split; [exact I|]. intros r _.
  eapply safe_mono; [apply IH|]. cbn. intros h' _. apply sub_cons.
Qed.
Lemma any_call {A B} (p : prog A) (f : A -> prog B) h Q :
  (forall h' a, h ⊆ h' -> Runs (f a) h' Q) -> Runs (p ≫= f) h Q.
Proof using. intros H. eapply safe_seq; [apply any_safe|]. cbn. auto. Qed.
(** What holds of all programs of which every call is allowed. *)
Lemma any_runs {A} (p : prog A) h Q h' a : Runs p h Q -> runs p h h' a -> all_plausible plausible h' -> Q h' a.
Proof using.
  intros Hs Hr Hp. eapply safe_runs; [exact Hs| |exact Hr|exact Hp]. clear. induction h; cbn; auto.
Qed.
End Anything.
Arguments any_safe {plausible A} p h.
Arguments any_call {plausible A B} p f h Q.
Arguments any_runs {plausible A} p h Q h' a.
