(* ===== verification/PullItems.v ===== *)
(** * Applying changes to the disk (lib/model/folder_sendrecv.go, lib/osutil, lib/scanner/walk.go)

    How a folder creates, replaces, renames and deletes files, directories and
    symlinks, and how it decides what to do with every item it needs: programs
    over the calls of [Disk], for a build for Unix. *)
From Stdlib Require Import ZArith List Lia.
From Stdlib Require Import Strings.Byte.
From stdpp Require Import base list option gmap numbers tactics.
From S2P Require Import Prelude GoLib Vector FileInfo DeviceID PullQueue PullState PullJob Paths Disk.

#[local] Open Scope Z_scope.

(** ** Values *)

Definition noPlatform : PlatformData :=
  {| Unix := None; Windows := None; Linux := None; Darwin := None; FreeBSD := None; NetBSD := None |}.
Definition emptyFileInfo : FileInfo :=
  {| Name := []; FSize := 0; ModifiedS := 0; ModifiedBy := 0; Version := {| Counters := [] |}; Sequence := 0; Blocks := [];
     SymlinkTarget := []; BlocksHash := []; PreviousBlocksHash := []; Encrypted := []; Platform := noPlatform;
     Type_ := FileInfoTypeFile; Permissions := 0; ModifiedNs := 0; RawBlockSize := 0; LocalFlags := 0;
     EncryptionTrailerSize := 0; Deleted := false; NoPermissions := false; truncated := false |}.

(** [strconv.Itoa] *)
Definition itoa (z : Z) : bytes := if z <? 0 then z2b 45 :: formatUint (- z) else formatUint z.

Inductive goos := linux | darwin | freebsd | netbsd | otherOS.
Definition Xattrs_of (os : goos) (p : PlatformData) : list Xattr :=
  match os with
  | linux => xattrs_list (Linux p)
  | darwin => xattrs_list (Darwin p)
  | freebsd => xattrs_list (FreeBSD p)
  | netbsd => xattrs_list (NetBSD p)
  | otherOS => []
  end.

(** The bits of [ignoreresult.R]. *)
Definition ignoreBit : Z := 1.
Definition deletableBit : Z := 2.
Definition R_IsIgnored (r : Z) : bool := negb (Z.land r ignoreBit =? 0).
Definition R_IsDeletable (r : Z) : bool := R_IsIgnored r && negb (Z.land r deletableBit =? 0).

(** The configuration of the folder. *)
Record folderCfg :=
  { fc_IgnorePerms : bool; fc_IgnoreDelete : bool; fc_SyncOwnership : bool; fc_SyncXattrs : bool;
    fc_CopyOwnershipFromParent : bool; fc_MaxConflicts : Z; fc_UseLWWReconciler : bool; fc_ReceiveOnly : bool;
    fc_ReceiveEncrypted : bool; fc_versioner : bool; fc_modTimeWindow : Z; fc_os : goos; fc_noSymlinks : bool }.

Definition ModePerm : Z := 511.
Definition retainBits : Z := 8388608 + 4194304 + 1048576.
Definition noErr : option disk_err := None.

(** [slices.SortFunc] with the descending order of strings. *)
Fixpoint insert_desc (x : bytes) (l : list bytes) : list bytes :=
  match l with
  | [] => [x]
  | y :: l => if bytes_leb y x then x :: y :: l else y :: insert_desc x l
  end.
Definition sort_desc (l : list bytes) : list bytes := foldr insert_desc [] l.

Section PullItems.
Context (sha256 : bytes -> bytes) (samePlatform : PlatformData -> PlatformData -> bool) (ignores : bytes -> Z).
Context (cfg : folderCfg).
Abbreviation TempName := (TempName sha256).

(** ** lib/osutil *)

Fixpoint traverse (path : bytes) (parts : list bytes) : prog (option disk_err) :=
  match parts with
  | [] => mret None
  | part :: parts =>
      let path := Join [path; part] in
      r ← do_ (Lstat path);
      match r with
      | inl e => mret (if is_not_exist e then None else Some e)
      | inr info =>
          if st_IsSymlink info then mret (Some (TraversesSymlinkError path))
          else if negb (st_IsDir info) then mret (Some (NotADirectoryError path))
          else traverse path parts
      end
  end.
Definition TraversesSymlink (name : bytes) : prog (option disk_err) :=
  match Canonicalize name with
  | Ret name => if bool_decide (name = dot) then mret None else traverse [] (PathComponents name)
  | Err e => mret (Some (ErrPath e))
  | _ => mret None
  end.

Definition withPreparedTarget (to : bytes) (f : prog (option disk_err)) : prog (option disk_err) :=
  let toDir := Dir to in
  r ← do_ (StatFile toDir);
  match r with
  | inr info =>
      if st_IsDir info && (Z.land (st_Mode info) 128 =? 0) then
        _ ← do_ (Chmod toDir 493);
        e ← f;
        _ ← do_ (Chmod toDir (st_Mode info));
        mret e
      else f
  | inl _ => f
  end.
(** [RenameOrCopy], [Copy] within one file system. *)
Definition RenameOrCopy (from to : bytes) : prog (option disk_err) := withPreparedTarget to (do_ (Rename from to)).
Definition Copy (from to : bytes) : prog (option disk_err) := withPreparedTarget to (do_ (CopyContents from to)).

(** ** lib/model/util.go *)

(** The function may also change a variable of the caller, whose value is [d] if it is not called. *)
Definition inWritableDir_with {A} (d : A) (fn : bytes -> prog (option disk_err * A)) (path : bytes) :
  prog (option disk_err * A) :=
  let dir := Dir path in
  r ← do_ (StatFile dir);
  match r with
  | inl e => mret (Some e, d)
  | inr info =>
      if negb (st_IsDir info) then mret (Some (ErrOther (gostr "Not a directory: " ++ path)), d)
      else
        let mode := Z.land (st_Mode info) permBits in
        if Z.land mode 128 =? 0 then
          parentErr ← do_ (Chmod dir (Z.lor mode 448));
          match parentErr with
          | None =>
              r ← fn path;
              _ ← do_ (Chmod dir mode);
              mret r
          | Some _ =>
              r ← fn path;
              mret (match r.1 with
                    | Some e =>
                        if is_permission e
                        then Some (ErrWrapped (gostr "error after failing to make parent directory writable") e) else r.1
                    | None => None
                    end, r.2)
          end
        else fn path
  end.
Definition inWritableDir (fn : bytes -> prog (option disk_err)) (path : bytes) : prog (option disk_err) :=
  r ← inWritableDir_with tt (fun path => e ← fn path; mret (e, tt)) path; mret r.1.

(** ** lib/scanner *)

(** The item for a file on disk, with its platform data and the target of a symlink. *)
Definition item_of (fi : Stat) (name : bytes) (plat : PlatformData) (target : bytes) : FileInfo :=
  let file typ perms sec nsec size target noperm :=
    {| Name := name; FSize := size; ModifiedS := sec; ModifiedBy := 0; Version := {| Counters := [] |}; Sequence := 0;
       Blocks := []; SymlinkTarget := target; BlocksHash := []; PreviousBlocksHash := []; Encrypted := [];
       Platform := plat; Type_ := typ; Permissions := perms; ModifiedNs := nsec; RawBlockSize := 0; LocalFlags := 0;
       EncryptionTrailerSize := 0; Deleted := false; NoPermissions := noperm; truncated := false |} in
  if st_IsSymlink fi then file FileInfoTypeSymlink 0 0 0 0 target true
  else
    let perms := u32 (Z.land (st_Mode fi) ModePerm) in
    let sec := st_ModTime_Unix fi in
    let nsec := i32 (st_ModTime_Nanosecond fi) in
    if st_IsDir fi then file FileInfoTypeDirectory perms sec nsec 0 [] false
    else file FileInfoTypeFile perms sec nsec (st_Size fi) [] false.

Definition CreateFileInfo (fi : Stat) (name : bytes) (scanOwnership scanXattrs : bool) : prog (disk_err + FileInfo) :=
  plat ← (if scanOwnership || scanXattrs then do_ (GetPlatformData name scanOwnership scanXattrs) else mret (inr noPlatform));
  match plat with
  | inl e => mret (inl (ErrWrapped (gostr "reading platform data") e))
  | inr plat =>
      if st_IsSymlink fi then
        target ← do_ (ReadSymlink name);
        match target with
        | inl e => mret (inl e)
        | inr target => mret (inr (item_of fi name plat target))
        end
      else mret (inr (item_of fi name plat []))
  end.

(** ** Metadata *)

Definition syncOwnership (file : FileInfo) (path : bytes) : prog (option disk_err) :=
  match Unix (Platform file) with
  | None => mret None
  | Some u =>
      uid ← (if is_nil (OwnerName u) then mret (itoa (UID u))
             else us ← do_ (LookupUser (OwnerName u));
                  mret (match us with Some uid => if is_nil uid then itoa (UID u) else uid | None => itoa (UID u) end));
      gid ← (if is_nil (GroupName u) then mret (itoa (GID u))
             else gr ← do_ (LookupGroup (GroupName u));
                  mret (match gr with Some gid => if is_nil gid then itoa (GID u) else gid | None => itoa (GID u) end));
      do_ (Lchown path uid gid)
  end.
Definition copyOwnershipFromParent (path : bytes) : prog (option disk_err) :=
  r ← do_ (Lstat (Dir path));
  match r with
  | inl e => mret (Some (ErrWrapped (gostr "copy owner from parent") e))
  | inr info =>
      e ← do_ (Lchown path (itoa (st_Owner info)) (itoa (st_Group info)));
      mret (match e with Some e => Some (ErrWrapped (gostr "copy owner from parent") e) | None => None end)
  end.
Definition setPlatformData (file : FileInfo) (name : bytes) : prog (option disk_err) :=
  e ← (if fc_SyncXattrs cfg then
         e ← do_ (SetXattr name (Xattrs_of (fc_os cfg) (Platform file)));
         mret (match e with
               | Some e' => match unwrap e' with ErrXattrsNotSupported => None | _ => e end
               | None => None
               end)
       else mret noErr);
  match e with
  | Some e => mret (Some e)
  | None =>
      if fc_SyncOwnership cfg then syncOwnership file name
      else if fc_CopyOwnershipFromParent cfg then copyOwnershipFromParent name
      else mret None
  end.

(** ** Checks before something is replaced or deleted *)

Definition diskComparison (fromDelete : bool) : FileInfoComparison :=
  {| ModTimeWindow := fc_modTimeWindow cfg; IgnorePerms := fc_IgnorePerms cfg; IgnoreBlocks := true;
     IgnoreFlags := LocalAllFlags; IgnoreOwnership := fromDelete || negb (fc_SyncOwnership cfg);
     IgnoreXattrs := fromDelete || negb (fc_SyncXattrs cfg) |}.

Definition scanIfItemChanged (name : bytes) (stat : Stat) (item : FileInfo) (hasItem fromDelete : bool) :
  prog (option disk_err) :=
  err ← (if negb hasItem || Deleted item then mret (Some errModified)
         else
           s ← CreateFileInfo stat (Name item) (fc_SyncOwnership cfg) (fc_SyncXattrs cfg);
           mret (match s with
                 | inl e => Some (ErrWrapped (gostr "comparing item on disk to db") e)
                 | inr statItem =>
                     if negb (IsEquivalentOptional false samePlatform statItem item (diskComparison fromDelete))
                     then Some errModified else None
                 end));
  if opt_is is_modified err then _ ← do_ (SendScan name); mret err else mret err.

Definition checkToBeDeleted (file cur : FileInfo) (hasCur : bool) : prog (option disk_err) :=
  t ← TraversesSymlink (Dir (Name file));
  match t with
  | Some _ => mret (Some ErrNotExist)
  | None =>
      r ← do_ (Lstat (Name file));
      match r with
      | inl e =>
          if negb (is_not_exist e || is_case_conflict e) then mret (Some e)
          else if hasCur && negb (Deleted cur) && negb (IsUnsupported cur)
          then _ ← do_ (SendScan (Name file)); mret (Some errModified)
          else mret (Some e)
      | inr stat => scanIfItemChanged (Name file) stat cur hasCur true
      end
  end.

(** ** Deleting and moving away *)

Definition removeForConflict (name : bytes) : prog (option disk_err) :=
  e ← do_ (Remove name);
  mret (match e with
        | Some e' => if is_not_exist e' then None else Some (ErrWrapped (gostr "removing item to be replaced") e')
        | None => None
        end).
Definition moveForConflict (lastModBy name : bytes) : prog (option disk_err) :=
  if isConflict name then removeForConflict name
  else if fc_MaxConflicts cfg =? 0 then removeForConflict name
  else
    stamp ← do_ Now_stamp;
    let newName := conflictName stamp name lastModBy in
    e ← do_ (Rename name newName);
    let e : option disk_err := if opt_is is_not_exist e then None else e in
    _ ← (if -1 <? fc_MaxConflicts cfg then
           matches ← do_ (Glob (conflictPattern name));
           if fc_MaxConflicts cfg <? zlen matches
           then for_each (fun m => _ ← do_ (Remove m); mret tt) (drop (Z.to_nat (fc_MaxConflicts cfg)) (sort_desc matches))
           else mret tt
         else mret tt);
    match e with
    | None => _ ← do_ (SendScan newName); mret None
    | Some _ => mret e
    end.

(** The state of the walk of [deleteDirOnDiskHandleChildren]. *)
Record children :=
  { dirsToDelete : list bytes; hasIgnored : bool; hasKnown : bool; hasToBeScanned : bool; hasReceiveOnlyChanged : bool;
    delErr : option disk_err }.
Definition no_children : children :=
  {| dirsToDelete := []; hasIgnored := false; hasKnown := false; hasToBeScanned := false; hasReceiveOnlyChanged := false;
     delErr := None |}.
Definition add_dir (d : bytes) (a : children) : children :=
  {| dirsToDelete := dirsToDelete a ++ [d]; hasIgnored := hasIgnored a; hasKnown := hasKnown a;
     hasToBeScanned := hasToBeScanned a; hasReceiveOnlyChanged := hasReceiveOnlyChanged a; delErr := delErr a |}.
Definition add_flags (ign known scan rochanged : bool) (a : children) : children :=
  {| dirsToDelete := dirsToDelete a; hasIgnored := hasIgnored a || ign; hasKnown := hasKnown a || known;
     hasToBeScanned := hasToBeScanned a || scan; hasReceiveOnlyChanged := hasReceiveOnlyChanged a || rochanged;
     delErr := delErr a |}.
Definition add_delErr (e : option disk_err) (a : children) : children :=
  {| dirsToDelete := dirsToDelete a; hasIgnored := hasIgnored a; hasKnown := hasKnown a;
     hasToBeScanned := hasToBeScanned a; hasReceiveOnlyChanged := hasReceiveOnlyChanged a;
     delErr := match delErr a with None => e | Some e' => Some e' end |}.

(** The function that is called for a child that is not an error; an error ends the walk. *)
Definition child_known (path : bytes) (info : Stat) (a : children) : prog (disk_err + children) :=
  r ← do_ (GetDeviceFile path);
  match r with
  | inl e => mret (inl e)
  | inr (cf, ok) =>
      if negb ok || IsDeleted cf then _ ← do_ (SendScan path); mret (inr (add_flags false false true false a))
      else if fc_ReceiveOnly cfg && IsReceiveOnlyChanged cf then mret (inr (add_flags false false false true a))
      else
        d ← CreateFileInfo info path (fc_SyncOwnership cfg) (fc_SyncXattrs cfg);
        match d with
        | inl _ => _ ← do_ (SendScan path); mret (inr (add_flags false false true false a))
        | inr diskFile =>
            if negb (IsEquivalentOptional false samePlatform cf diskFile (diskComparison false))
            then _ ← do_ (SendScan path); mret (inr (add_flags false false true false a))
            else mret (inr (add_flags false true false false a))
        end
  end.
Definition child (path : bytes) (info : Stat) (a : children) : prog (disk_err + children) :=
  let remove_child : prog (disk_err + children) := e ← do_ (Remove path); mret (inr (add_delErr e a)) in
  let match_ := ignores path in
  if R_IsDeletable match_ then (if st_IsDir info then mret (inr (add_dir path a)) else remove_child)
  else if IsTemporary path then remove_child
  else if R_IsIgnored match_ then mret (inr (add_flags true false false false a))
  else child_known path info a.
Fixpoint walk_children (dir : bytes) (entries : list (bytes * Stat * option disk_err)) (a : children) :
  prog (disk_err + children) :=
  match entries with
  | [] => mret (inr a)
  | (path, info, err) :: entries =>
      if bool_decide (path = dir) then walk_children dir entries a
      else
        match err with
        | Some e => mret (inl e)
        | None =>
            r ← child path info a;
            match r with
            | inl e => mret (inl e)
            | inr a => walk_children dir entries a
            end
        end
  end.
Fixpoint remove_dirs (dirs : list bytes) (a : children) : prog children :=
  match dirs with
  | [] => mret a
  | d :: dirs => e ← do_ (Remove d); remove_dirs dirs (add_delErr e a)
  end.
Definition deleteDirOnDiskHandleChildren (dir : bytes) : prog (option disk_err) :=
  entries ← do_ (Walk dir);
  r ← walk_children dir entries no_children;
  match r with
  | inl e => mret (Some e)
  | inr a =>
      a ← remove_dirs (reverse (dirsToDelete a)) a;
      if hasToBeScanned a then mret (Some errDirHasToBeScanned)
      else if hasIgnored a then mret (Some errDirHasIgnored)
      else if hasReceiveOnlyChanged a then _ ← do_ (SendScan dir); mret None
      else if hasKnown a then mret (Some errDirNotEmpty)
      else mret (delErr a)
  end.

Definition deleteDirOnDisk (dir : bytes) : prog (option disk_err) :=
  t ← TraversesSymlink (Dir dir);
  match t with
  | Some e => mret (Some e)
  | None =>
      c ← deleteDirOnDiskHandleChildren dir;
      match c with
      | Some e => mret (Some e)
      | None =>
          err ← inWritableDir (fun p => do_ (Remove p)) dir;
          match err with
          | None => mret None
          | Some e =>
              if is_not_exist e then mret None
              else
                s ← do_ (Lstat dir);
                match s with
                | inl serr => if negb (is_permission serr) then mret None else mret (Some e)
                | inr _ => mret (Some e)
                end
          end
      end
  end.

Definition deleteItemOnDisk (item : FileInfo) : prog (option disk_err) :=
  e ← (if IsDirectory item then deleteDirOnDisk (Name item)
       else if negb (IsSymlink item) && fc_versioner cfg then inWritableDir (fun p => do_ (Archive p)) (Name item)
       else inWritableDir (fun p => do_ (Remove p)) (Name item));
  mret (match e with Some e => Some (ErrWrapped (gostr "removing item to be replaced") e) | None => None end).
End PullItems.
