(* ===== verification/PullActions.v ===== *)
(** * What a folder does with the items it needs (lib/model/folder_sendrecv.go)

    The handlers of directories, symlinks, files, renames and deletions, and
    [processNeeded], which calls them.  An error of a handler is returned, or
    recorded by [NewPullError]; jobs for the database updater and paths to scan
    are sent on channels. *)
From Stdlib Require Import ZArith List Lia.
From Stdlib Require Import Strings.Byte.
From stdpp Require Import base list option gmap numbers tactics.
From S2P Require Import Prelude GoLib Vector FileInfo DeviceID PullQueue PullState PullJob Paths Disk PullItems.

#[local] Open Scope Z_scope.

Section PullActions.
Context (sha256 : bytes -> bytes) (samePlatform : PlatformData -> PlatformData -> bool) (ignores : bytes -> Z).
(** The interface of the reorderer of blocks, and the order in which a map is iterated over. *)
Context (Reorder : list BlockInfo -> list BlockInfo) (range : gmap bytes FileInfo -> list FileInfo).
Context (cfg : folderCfg).
Abbreviation TempName := (TempName sha256).
Abbreviation setPlatformData := (setPlatformData cfg).
Abbreviation scanIfItemChanged := (scanIfItemChanged samePlatform cfg).
Abbreviation checkToBeDeleted := (checkToBeDeleted samePlatform cfg).
Abbreviation moveForConflict := (moveForConflict cfg).
Abbreviation deleteDirOnDisk := (deleteDirOnDisk samePlatform ignores cfg).
Abbreviation deleteItemOnDisk := (deleteItemOnDisk samePlatform ignores cfg).

Definition pull_error (f : FileInfo) (ctx : bytes) (e : disk_err) : prog unit := do_ (NewPullError (Name f) (ErrWrapped ctx e)).
Definition send_update (f : FileInfo) (t : Z) : prog unit := do_ (SendUpdate {| job_file := f; jobType := t |}).
Definition lastModBy (f : FileInfo) : bytes := ShortID_String (ModifiedBy f).
(** [fmt.Errorf] around an error that there may be. *)
Definition wrap (ctx : bytes) (e : option disk_err) : option disk_err := ErrWrapped ctx <$> e.

(** Moves the current item away as a conflict copy or removes it, before it is replaced. *)
Definition replace_current (asConflict : bool) (file curFile : FileInfo) : prog (option disk_err) :=
  if asConflict then inWritableDir (moveForConflict (lastModBy file)) (Name curFile) else deleteItemOnDisk curFile.

(** ** Finishing a file *)

Definition performFinish (file curFile : FileInfo) (hasCurFile : bool) (tempName : bytes) : prog (option disk_err) :=
  e ← (if negb (fc_IgnorePerms cfg) && negb (NoPermissions file)
       then do_ (Chmod tempName (Z.land (Permissions file) 511)) else mret noErr);
  match e with
  | Some e => mret (Some (ErrWrapped (gostr "setting permissions") e))
  | None =>
      e ← setPlatformData file tempName;
      match e with
      | Some e => mret (Some (ErrWrapped (gostr "setting metadata") e))
      | None =>
          r ← do_ (Lstat (Name file));
          e ← match r with
              | inr stat =>
                  e ← scanIfItemChanged (Name file) stat curFile hasCurFile false;
                  match e with
                  | Some e => mret (Some (ErrWrapped (gostr "checking existing file") e))
                  | None =>
                      e ← replace_current (negb (fc_UseLWWReconciler cfg) && negb (IsDirectory curFile) &&
                                           negb (IsSymlink curFile) && InConflictWith file curFile) file curFile;
                      mret (wrap (gostr "moving for conflict") e)
                  end
              | inl e => mret (if is_not_exist e then None else Some (ErrWrapped (gostr "checking existing file") e))
              end;
          match e with
          | Some e => mret (Some e)
          | None =>
              e ← RenameOrCopy tempName (Name file);
              match e with
              | Some e => mret (Some (ErrWrapped (gostr "replacing file") e))
              | None =>
                  _ ← do_ (Chtimes (Name file) (ModTime file));
                  _ ← send_update file dbUpdateHandleFile;
                  mret None
              end
          end
      end
  end.

(** ** Directories *)

Definition make_dir (file : FileInfo) (mode : Z) (path : bytes) : prog (option disk_err) :=
  e ← do_ (Mkdir path mode);
  match e with
  | Some e => mret (Some e)
  | None =>
      e ← setPlatformData file path;
      match e with
      | Some e => mret (Some e)
      | None =>
          if fc_IgnorePerms cfg || NoPermissions file then mret None
          else
            r ← do_ (Lstat path);
            match r with
            | inl e => mret (Some e)
            | inr info => do_ (Chmod path (Z.lor mode (Z.land (st_Mode info) retainBits)))
            end
      end
  end.
Definition create_dir (file : FileInfo) (mode : Z) : prog unit :=
  e ← inWritableDir (make_dir file mode) (Name file);
  match e with
  | None => send_update file dbUpdateHandleDir
  | Some e => pull_error file (gostr "creating directory") e
  end.

Definition handleDir (file : FileInfo) : prog unit :=
  let mode := if fc_IgnorePerms cfg || NoPermissions file then 511 else Z.land (Permissions file) 511 in
  r ← do_ (Lstat (Name file));
  match r with
  | inr info =>
      if negb (st_IsDir info) then
        d ← do_ (GetDeviceFile (Name file));
        match d with
        | inl e => pull_error file (gostr "handling dir") e
        | inr (curFile, hasCurFile) =>
            e ← scanIfItemChanged (Name file) info curFile hasCurFile false;
            match e with
            | Some e => pull_error file (gostr "handling dir") e
            | None =>
                e ← replace_current (negb (fc_UseLWWReconciler cfg) && negb (IsSymlink curFile) &&
                                     InConflictWith file curFile) file curFile;
                match e with
                | Some e => do_ (NewPullError (Name file) e)
                | None => create_dir file mode
                end
            end
        end
      else if negb (fc_IgnorePerms cfg) && negb (NoPermissions file) then
        e ← do_ (Chmod (Name file) (Z.lor mode (Z.land (st_Mode info) retainBits)));
        match e with
        | Some e => pull_error file (gostr "handling dir (setting permissions)") e
        | None =>
            e ← setPlatformData file (Name file);
            match e with
            | Some e => pull_error file (gostr "handling dir (setting metadata)") e
            | None => send_update file dbUpdateHandleDir
            end
        end
      else send_update file dbUpdateHandleDir
  | inl e =>
      if is_not_exist e then create_dir file mode else pull_error file (gostr "checking file to be replaced") e
  end.

Definition checkParent (file : bytes) : prog bool :=
  let parent := Dir file in
  t ← TraversesSymlink parent;
  match t with
  | Some e => _ ← do_ (NewPullError file (ErrWrapped (gostr "checking parent dirs") e)); mret false
  | None =>
      r ← do_ (Lstat parent);
      if negb (match r with inl e => is_not_exist e | inr _ => false end) then mret true
      else
        e ← do_ (MkdirAll parent ModePerm);
        match e with
        | Some e => _ ← do_ (NewPullError file (ErrWrapped (gostr "creating parent dir") e)); mret false
        | None => _ ← (if negb (fc_ReceiveEncrypted cfg) then do_ (SendScan parent) else mret tt); mret true
        end
  end.

(** ** Symlinks *)

Definition handleSymlinkCheckExisting (file : FileInfo) : prog (option disk_err) :=
  r ← do_ (Lstat (Name file));
  match r with
  | inl e => mret (if is_not_exist e then None else Some e)
  | inr info =>
      d ← do_ (GetDeviceFile (Name file));
      match d with
      | inl e => mret (Some e)
      | inr (curFile, hasCurFile) =>
          e ← scanIfItemChanged (Name file) info curFile hasCurFile false;
          match e with
          | Some e => mret (Some e)
          | None =>
              replace_current (negb (IsDirectory curFile) && negb (IsSymlink curFile) && InConflictWith file curFile)
                file curFile
          end
      end
  end.

Definition handleSymlink (file : FileInfo) : prog unit :=
  if is_nil (SymlinkTarget file) then do_ (NewPullError (Name file) errIncompatibleSymlink)
  else
    e ← handleSymlinkCheckExisting file;
    match e with
    | Some e => pull_error file (gostr "handling symlink") e
    | None =>
        e ← inWritableDir (fun path =>
              e ← do_ (CreateSymlink (SymlinkTarget file) path);
              match e with Some e => mret (Some e) | None => setPlatformData file path end) (Name file);
        match e with
        | None => send_update file dbUpdateHandleSymlink
        | Some e => pull_error file (gostr "symlink create") e
        end
    end.

(** ** Deletions *)

Definition deleteDir (file : FileInfo) : prog unit :=
  d ← do_ (GetDeviceFile (Name file));
  match d with
  | inl e => pull_error file (gostr "delete dir") e
  | inr (cur, hasCur) =>
      e ← checkToBeDeleted file cur hasCur;
      match e with
      | Some e =>
          if is_not_exist e || is_case_conflict e then send_update file dbUpdateDeleteDir
          else pull_error file (gostr "delete dir") e
      | None =>
          e ← deleteDirOnDisk (Name file);
          match e with
          | Some e => pull_error file (gostr "delete dir") e
          | None => send_update file dbUpdateDeleteDir
          end
      end
  end.

Definition deleteFileWithCurrent (file cur : FileInfo) (hasCur : bool) : prog unit :=
  e ← checkToBeDeleted file cur hasCur;
  match e with
  | Some e =>
      if is_not_exist e || is_case_conflict e then send_update file dbUpdateDeleteFile
      else pull_error file (gostr "delete file") e
  | None =>
      if IsDirectory cur then pull_error file (gostr "delete file") errUnexpectedDirOnFileDel
      else
        e ← (if InConflictWith file cur && negb (IsSymlink cur) then
               inWritableDir (moveForConflict (lastModBy file)) (Name cur)
             else if fc_versioner cfg && negb (IsSymlink cur) then inWritableDir (fun p => do_ (Archive p)) (Name file)
             else inWritableDir (fun p => do_ (Remove p)) (Name file));
        match e with
        | None => send_update file dbUpdateDeleteFile
        | Some e =>
            if is_not_exist e then
              (* the deferred function sees the error *)
              _ ← send_update file dbUpdateDeleteFile; pull_error file (gostr "delete file") e
            else
              s ← do_ (Lstat (Name file));
              match s with
              | inl serr =>
                  if negb (is_permission serr) then send_update file dbUpdateDeleteFile
                  else pull_error file (gostr "delete file") e
              | inr _ => pull_error file (gostr "delete file") e
              end
        end
  end.
Definition deleteFile (file : FileInfo) : prog unit :=
  d ← do_ (GetDeviceFile (Name file));
  match d with
  | inl e => pull_error file (gostr "delete file") e
  | inr (cur, hasCur) => deleteFileWithCurrent file cur hasCur
  end.

(** ** Renames *)

Definition check_target (source target curTarget : FileInfo) (ok : bool) : prog (option disk_err) :=
  let absent : prog (option disk_err) :=
    if negb ok || IsDeleted curTarget then mret None else _ ← do_ (SendScan (Name target)); mret (Some errModified) in
  r ← do_ (Lstat (Name target));
  match r with
  | inl serr =>
      match as_case_conflict serr with
      | Some real => if negb (bool_decide (real = Name source)) then mret (Some serr) else absent
      | None => if is_not_exist serr then absent else mret (Some serr)
      end
  | inr stat =>
      if negb ok then _ ← do_ (SendScan (Name target)); mret (Some errModified)
      else
        d ← CreateFileInfo stat (Name target) (fc_SyncOwnership cfg) (fc_SyncXattrs cfg);
        match d with
        | inl e => mret (Some e)
        | inr fi =>
            if negb (IsEquivalentOptional false samePlatform fi curTarget (diskComparison cfg false))
            then _ ← do_ (SendScan (Name target)); mret (Some errModified) else mret None
        end
  end.

Definition renameFile (cur source target : FileInfo) : prog (option disk_err) :=
  e ← checkToBeDeleted source cur true;
  match e with
  | Some e => mret (Some e)
  | None =>
      d ← do_ (GetDeviceFile (Name target));
      match d with
      | inl e => mret (Some e)
      | inr (curTarget, ok) =>
          e ← check_target source target curTarget ok;
          match e with
          | Some e => mret (Some e)
          | None =>
              let tempName := TempName (Name target) in
              e ← (if fc_versioner cfg then
                     e ← do_ (CheckAvailableSpace (FSize source));
                     match e with
                     | Some e => mret (Some e)
                     | None =>
                         e ← Copy (Name source) tempName;
                         match e with
                         | Some e => mret (Some e)
                         | None => inWritableDir (fun p => do_ (Archive p)) (Name source)
                         end
                     end
                   else RenameOrCopy (Name source) tempName);
              match e with
              | Some e => mret (Some e)
              | None =>
                  e ← performFinish target curTarget true tempName;
                  match e with
                  | Some e => mret (Some e)
                  | None => _ ← send_update source dbUpdateDeleteFile; mret None
                  end
              end
          end
      end
  end.
End PullActions.
