(* ===== verification/PullNeeded.v ===== *)
(** * The items a folder needs (lib/model/folder_sendrecv.go)

    [processNeeded] sorts the needed items into those that are handled at once,
    the queue of files, and the deletions, and then takes the files from the
    queue: a file that was deleted elsewhere with the same content is renamed,
    the others are assembled by the routines of [PullJob]. *)
From Stdlib Require Import ZArith List Lia.
From Stdlib Require Import Strings.Byte.
From stdpp Require Import base list option gmap numbers tactics.
From S2P Require Import Prelude GoLib Vector FileInfo DeviceID PullQueue PullState PullJob Paths Disk PullItems PullActions.

#[local] Open Scope Z_scope.

Section PullNeeded.
Context (sha256 : bytes -> bytes) (samePlatform : PlatformData -> PlatformData -> bool) (ignores : bytes -> Z).
Context (Reorder : list BlockInfo -> list BlockInfo) (range : gmap bytes FileInfo -> list FileInfo).
Context (cfg : folderCfg).
Abbreviation TempName := (TempName sha256).
Abbreviation deleteFile := (deleteFile samePlatform cfg).
Abbreviation deleteFileWithCurrent := (deleteFileWithCurrent samePlatform cfg).
Abbreviation deleteDir := (deleteDir samePlatform ignores cfg).

Definition set_trailer (n : Z) (f : FileInfo) : FileInfo := set_size_trailer (FSize f + n) n f.

(** ** Single files *)

Definition shortcutFile (file : FileInfo) : prog unit :=
  _ ← do_ (QueueDone (Name file));
  e ← (if negb (fc_IgnorePerms cfg) && negb (NoPermissions file)
       then do_ (Chmod (Name file) (Z.land (Permissions file) 511)) else mret noErr);
  match e with
  | Some e => pull_error file (gostr "shortcut file (setting permissions)") e
  | None =>
      e ← setPlatformData cfg file (Name file);
      match e with
      | Some e => pull_error file (gostr "shortcut file (setting metadata)") e
      | None =>
          r ← (if fc_ReceiveEncrypted cfg then
                 inWritableDir_with file (fun path =>
                   t ← do_ (WriteTrailer path file);
                   match t with
                   | inl e => mret (Some e, file)
                   | inr n =>
                       let file := set_trailer n file in
                       e ← do_ (Truncate path (FSize file)); mret (e, file)
                   end) (Name file)
               else mret (noErr, file));
          match r with
          | (Some e, _) => pull_error file (gostr "writing encrypted file trailer") e
          | (None, file) =>
              _ ← do_ (Chtimes (Name file) (ModTime file));
              send_update file dbUpdateShortcutFile
          end
      end
  end.

(** The temporary file of a file with another case is put in place. *)
Definition hashTemp (file : FileInfo) : prog (disk_err + list BlockInfo) :=
  let tempName := TempName (Name file) in
  r ← do_ (HashFile tempName (FileInfo_BlockSize file));
  match r with
  | inl e =>
      match as_case_conflict e with
      | Some real =>
          e' ← do_ (Rename real tempName);
          match e' with
          | None => do_ (HashFile tempName (FileInfo_BlockSize file))
          | Some _ => mret (inl e)
          end
      | None => mret (inl e)
      end
  | inr bs => mret (inr bs)
  end.

Definition set_Blocks (bs : list BlockInfo) (f : FileInfo) : FileInfo :=
  {| Name := Name f; FSize := FSize f; ModifiedS := ModifiedS f; ModifiedBy := ModifiedBy f;
     Version := Version f; Sequence := Sequence f; Blocks := bs; SymlinkTarget := SymlinkTarget f;
     BlocksHash := BlocksHash f; PreviousBlocksHash := PreviousBlocksHash f; Encrypted := Encrypted f;
     Platform := Platform f; Type_ := Type_ f; Permissions := Permissions f; ModifiedNs := ModifiedNs f;
     RawBlockSize := RawBlockSize f; LocalFlags := LocalFlags f; EncryptionTrailerSize := EncryptionTrailerSize f;
     Deleted := Deleted f; NoPermissions := NoPermissions f; truncated := truncated f |}.

Definition handleFile (file : FileInfo) : prog (option disk_err) :=
  d ← do_ (GetDeviceFile (Name file));
  match d with
  | inl e => mret (Some e)
  | inr (curFile, hasCurFile) =>
      let tempName := TempName (Name file) in
      let file := set_Blocks (populateOffsets (Blocks file)) file in
      r ← (if negb (fc_ReceiveEncrypted cfg) then
             t ← hashTemp file;
             mret (reuseBlocks (match t with inl _ => None | inr bs => Some bs end) (Blocks file))
           else mret (Blocks file, []));
      let '(blocks, reused) := r in
      _ ← (if is_nil reused then _ ← inWritableDir (fun p => do_ (Remove p)) tempName; mret tt else mret tt);
      _ ← do_ (SendCopy file (Reorder blocks) reused hasCurFile curFile tempName);
      mret None
  end.

(** ** processNeeded *)

Record pulling :=
  { dirDeletions : list FileInfo; fileDeletions : gmap bytes FileInfo; buckets : gmap bytes (list FileInfo) }.
Definition add_dirDeletion (f : FileInfo) (s : pulling) : pulling :=
  {| dirDeletions := dirDeletions s ++ [f]; fileDeletions := fileDeletions s; buckets := buckets s |}.
Definition add_fileDeletion (f df : FileInfo) (s : pulling) : pulling :=
  {| dirDeletions := dirDeletions s; fileDeletions := <[Name f := f]> (fileDeletions s);
     buckets := <[BlocksHash df := default [] (buckets s !! BlocksHash df) ++ [df]]> (buckets s) |}.

(** A needed item; an error of the database ends the loop. *)
Definition needed_item (file : FileInfo) (s : pulling) : prog (disk_err + pulling) :=
  if fc_IgnoreDelete cfg && IsDeleted file then mret (inr s)
  else if R_IsIgnored (ignores (Name file)) then
    _ ← send_update (SetIgnored file) dbUpdateInvalidate; mret (inr s)
  else if IsDeleted file then
    if IsDirectory file then mret (inr (add_dirDeletion file s))
    else if IsSymlink file then _ ← deleteFile file; mret (inr s)
    else
      d ← do_ (GetDeviceFile (Name file));
      match d with
      | inl e => mret (inl e)
      | inr (df, ok) =>
          if ok && negb (IsDeleted df) && negb (IsSymlink df) && negb (IsDirectory df) && negb (IsInvalid df)
          then mret (inr (add_fileDeletion file df s))
          else _ ← deleteFileWithCurrent file df ok; mret (inr s)
      end
  else if Type_ file =? FileInfoTypeFile then
    d ← do_ (GetDeviceFile (Name file));
    match d with
    | inl e => mret (inl e)
    | inr (curFile, hasCurFile) =>
        _ ← (if hasCurFile && BlocksEqual file curFile then shortcutFile file else do_ (QueuePush file));
        mret (inr s)
    end
  else if fc_noSymlinks cfg && IsSymlink file then
    e ← handleSymlinkCheckExisting samePlatform ignores cfg file;
    match e with
    | Some e => _ ← pull_error file (gostr "handling unsupported symlink") e; mret (inr s)
    | None => _ ← send_update (SetUnsupported file) dbUpdateInvalidate; mret (inr s)
    end
  else if IsDirectory file && negb (IsSymlink file) then
    ok ← checkParent cfg (Name file);
    _ ← (if ok : bool then handleDir samePlatform ignores cfg file else mret tt); mret (inr s)
  else if IsSymlink file then
    ok ← checkParent cfg (Name file);
    _ ← (if ok : bool then handleSymlink samePlatform ignores cfg file else mret tt); mret (inr s)
  else Call Panics (fun r => match r with end).

Fixpoint needed_loop (files : list (disk_err + FileInfo)) (s : pulling) : prog (disk_err + pulling) :=
  match files with
  | [] => mret (inr s)
  | inl e :: _ => mret (inl e)
  | inr file :: files =>
      c ← do_ CtxErr;
      match c with
      | Some _ => mret (inr s)
      | None =>
          r ← needed_item file s;
          match r with
          | inl e => mret (inl e)
          | inr s => needed_loop files s
          end
      end
  end.

(** The candidates for a rename; the one that is used and the ones that are left. *)
Fixpoint rename_loop (fi : FileInfo) (deletions : gmap bytes FileInfo) (candidates : list FileInfo) :
  prog (option bytes * list FileInfo) :=
  match candidates with
  | [] => mret (None, [])
  | candidate :: candidates =>
      e ← renameFile sha256 samePlatform ignores cfg candidate (default emptyFileInfo (deletions !! Name candidate)) fi;
      match e with
      | Some _ => rename_loop fi deletions candidates
      | None => mret (Some (Name candidate), candidates)
      end
  end.

(** A file from the queue. *)
Definition queued_file (fileName : bytes) (s : pulling) : prog (disk_err + pulling) :=
  let drop_ : prog (disk_err + pulling) := _ ← do_ (QueueDone fileName); mret (inr s) in
  g ← do_ (GetGlobalFile fileName);
  match g with
  | inl e => mret (inl e)
  | inr (fi, ok) =>
      if negb ok then drop_
      else if IsDeleted fi || IsInvalid fi || negb (Type_ fi =? FileInfoTypeFile) then drop_
      else
        parent ← checkParent cfg (Name fi);
        if negb parent then drop_
        else
          let key := BlocksHash fi in
          r ← rename_loop fi (fileDeletions s) (default [] (buckets s !! key));
          let buckets' := <[key := r.2]> (buckets s) in
          match r.1 with
          | Some renamed =>
              _ ← do_ (QueueDone fileName);
              mret (inr {| dirDeletions := dirDeletions s; fileDeletions := delete renamed (fileDeletions s);
                           buckets := buckets' |})
          | None =>
              let s := {| dirDeletions := dirDeletions s; fileDeletions := fileDeletions s; buckets := buckets' |} in
              available ← do_ (FileAvailability fi);
              if negb available then _ ← do_ (NewPullError fileName errNotAvailable); _ ← do_ (QueueDone fileName); mret (inr s)
              else
                e ← do_ (CheckAvailableSpace (FSize fi));
                match e with
                | Some e => _ ← do_ (NewPullError fileName e); _ ← do_ (QueueDone fileName); mret (inr s)
                | None =>
                    e ← handleFile fi;
                    _ ← (match e with Some e => do_ (NewPullError fileName e) | None => mret tt end);
                    mret (inr s)
                end
          end
  end.

(** The loop over the queue, which ends when it is empty. *)
Fixpoint queue_loop (fuel : nat) (s : pulling) : prog (pulling * option disk_err) :=
  match fuel with
  | O => mret (s, None)
  | S fuel =>
      c ← do_ CtxErr;
      match c with
      | Some e => mret (s, Some e)
      | None =>
          p ← do_ QueuePop;
          match p with
          | None => mret (s, None)
          | Some fileName =>
              r ← queued_file fileName s;
              match r with
              | inl e => mret ({| dirDeletions := []; fileDeletions := ∅; buckets := buckets s |}, Some e)
              | inr s => queue_loop fuel s
              end
          end
      end
  end.

(** [fuel] is the number of files in the queue, and one for the check that it is empty. *)
Definition processNeeded (fuel : nat) : prog (pulling * option disk_err) :=
  let nothing := {| dirDeletions := []; fileDeletions := ∅; buckets := ∅ |} in
  files ← do_ AllNeededGlobalFiles;
  r ← needed_loop files nothing;
  match r with
  | inl e => mret (nothing, Some e)
  | inr s =>
      c ← do_ CtxErr;
      match c with
      | Some e => mret (nothing, Some e)
      | None => queue_loop fuel s
      end
  end.

(** ** processDeletions *)

Fixpoint until_stopped (act : FileInfo -> prog unit) (files : list FileInfo) : prog bool :=
  match files with
  | [] => mret true
  | file :: files =>
      c ← do_ CtxErr;
      match c with
      | Some _ => mret false
      | None => _ ← act file; until_stopped act files
      end
  end.
Definition processDeletions (deletions : gmap bytes FileInfo) (dirs : list FileInfo) : prog unit :=
  go_on ← until_stopped deleteFile (range deletions);
  if go_on : bool then _ ← until_stopped deleteDir (reverse dirs); mret tt else mret tt.

(** A puller iteration without the routines: the deletions follow if nothing failed. *)
Definition pullerIteration (fuel : nat) : prog (option disk_err) :=
  r ← processNeeded fuel;
  match r with
  | (s, None) => _ ← processDeletions (fileDeletions s) (dirDeletions s); mret None
  | (_, Some e) => mret (Some e)
  end.
End PullNeeded.
