(* ===== verification/PullSafety.v ===== *)
(** * What a folder deletes and overwrites

    The handlers of [PullActions] run from an empty history, with any answers
    of the file system, the database and the versioner.  Nothing is removed,
    moved or overwritten but temporary files, surplus conflict copies, ignored
    files that may be deleted, and items that were found on disk as the
    database has them; a file with a conflicting version is removed without a
    copy only in the cases that [superseded] lists. *)
From Stdlib Require Import ZArith List Lia.
From Stdlib Require Import Strings.Byte.
From stdpp Require Import base list option gmap numbers tactics.
From S2P Require Import Prelude GoLib Vector FileInfo DeviceID PullQueue PullState PullJob Paths Disk PullItems PullActions.

#[local] Open Scope Z_scope.

Section Safety.
Context (sha256 : bytes -> bytes) (samePlatform : PlatformData -> PlatformData -> bool) (ignores : bytes -> Z).
Context (cfg : folderCfg).
(** The records of the database that a handler is given, and the item it handles. *)
Context (given : bytes -> FileInfo -> Prop) (wanted : FileInfo).

(** ** What is allowed *)

(** The database has [cur] under the name. *)
Definition record (h : history) (n : bytes) (cur : FileInfo) : Prop :=
  Name cur = n /\ (Event (GetDeviceFile n) (inr (cur, true)) ∈ h \/ given n cur).
(** The item on disk was looked at and is the one that the database has. *)
Definition unchanged (h : history) (n : bytes) (cur : FileInfo) : Prop :=
  record h n cur /\ Deleted cur = false /\
  exists st plat target fromDelete, Event (Lstat n) (inr st) ∈ h /\
    IsEquivalentOptional false samePlatform (item_of st n plat target) cur (diskComparison cfg fromDelete) = true.
(** The current item may go without a copy: it is not in conflict with the wanted one, or no copies are made of it. *)
Definition superseded (n : bytes) (cur : FileInfo) : Prop :=
  InConflictWith wanted cur = false \/ IsSymlink cur = true \/ IsDirectory cur = true \/ fc_UseLWWReconciler cfg = true \/
  isConflict n = true \/ fc_MaxConflicts cfg = 0 \/ (IsDirectory wanted = true /\ Deleted wanted = true).

Definition temporary (n : bytes) : Prop := IsTemporary n = true \/ exists m, n = TempName sha256 m.
Definition surplus (h : history) (n : bytes) : Prop :=
  exists m ms, Event (Glob (conflictPattern m)) ms ∈ h /\ -1 < fc_MaxConflicts cfg /\
    n ∈ drop (Z.to_nat (fc_MaxConflicts cfg)) (sort_desc ms).
Definition may_remove (h : history) (n : bytes) : Prop :=
  temporary n \/ R_IsDeletable (ignores n) = true \/ surplus h n \/
  exists cur, unchanged h n cur /\ superseded n cur.
Definition may_move (h : history) (n : bytes) : Prop := temporary n \/ exists cur, unchanged h n cur.

(** The name was given up by the item that had it, or there was none. *)
Definition ended (e : option disk_err) : Prop := match e with None => True | Some e => is_not_exist e = true end.
Definition gone (h : history) (n : bytes) : Prop :=
  (exists e, Event (Remove n) e ∈ h /\ ended e) \/ (exists e, Event (Archive n) e ∈ h /\ ended e) \/
  (exists m e, Event (Rename n m) e ∈ h /\ ended e) \/
  (exists e, Event (Lstat n) (inl e) ∈ h /\ is_permission e = false) \/
  (exists e, Event (StatFile (Dir n)) (inl e) ∈ h /\ is_not_exist e = true).
Definition may_overwrite (h : history) (n : bytes) : Prop :=
  temporary n \/ (exists stamp m by_, n = conflictName stamp m by_ /\ Event Now_stamp stamp ∈ h) \/ gone h n.

Definition allowed (h : history) (c : call) : Prop :=
  match c with
  | Remove n => may_remove h n
  | Archive n => may_move h n
  | Rename a b => may_move h a /\ may_overwrite h b
  | CopyContents _ b => may_overwrite h b
  | _ => True
  end.

(** What is assumed of the answers: a record has the name that was asked for, an
    absent one is the zero value, and no file on disk has neither content nor permissions and the date zero. *)
Definition plausible (c : call) : answer c -> Prop :=
  match c with
  | GetDeviceFile n => fun r =>
      match r with
      | inr (cur, true) => Name cur = n
      | inr (cur, false) => cur = emptyFileInfo
      | inl _ => True
      end
  | Lstat n => fun r =>
      match r with
      | inr st => forall plat target d,
          IsEquivalentOptional false samePlatform (item_of st [] plat target) emptyFileInfo (diskComparison cfg d) = false
      | inl _ => True
      end
  | _ => fun _ => True
  end.

Abbreviation Safe := (safe allowed plausible).

(** ** Histories only grow *)

Lemma record_mono h h' n cur : h ⊆ h' -> record h n cur -> record h' n cur.
Proof. intros Hh [Hn [H|H] ]; (split; [done|]); [left; by apply Hh|by right]. Qed.
Lemma unchanged_mono h h' n cur : h ⊆ h' -> unchanged h n cur -> unchanged h' n cur.
Proof.
  intros Hh (H1 & H2 & st & p & t & d & H3 & H4). split_and!; [by eapply record_mono|done|].
  exists st, p, t, d. split; [by apply Hh|done].
Qed.
Lemma may_remove_mono h h' n : h ⊆ h' -> may_remove h n -> may_remove h' n.
Proof.
  intros Hh [H|[H|[(m & ms & H1 & H2)|(cur & H1 & H2)] ] ]; [by left|by right; left| |].
  - right; right; left. exists m, ms. split; [by apply Hh|done].
  - right; right; right. exists cur. split; [by eapply unchanged_mono|done].
Qed.
Lemma gone_mono h h' n : h ⊆ h' -> gone h n -> gone h' n.
Proof. intros Hh. unfold gone. intros [(e & H & ?)|[(e & H & ?)|[(m & e & H & ?)|[(e & H & ?)|(e & H & ?)] ] ] ];
  apply Hh in H; eauto 10. Qed.

(** *** Programs whose calls are always allowed *)

Definition mild (c : call) : bool :=
  match c with Remove _ | Archive _ | Rename _ _ | CopyContents _ _ => false | _ => true end.
Fixpoint mild_prog {A} (p : prog A) : Prop :=
  match p with Return _ => True | Call c k => mild c = true /\ forall r, mild_prog (k r) end.
Lemma mild_allowed h c : mild c = true -> allowed h c.
Proof. by destruct c. Qed.
Lemma mild_bind {A B} (p : prog A) (f : A -> prog B) : mild_prog p -> (forall a, mild_prog (f a)) -> mild_prog (p ≫= f).
Proof. intros H Hf. induction p as [a|c k IH]; cbn in *; [done|]. destruct H. split; [done|]. intros r. by apply IH. Qed.
Lemma mild_safe {A} (p : prog A) h : mild_prog p -> Safe p h (fun _ _ => True).
Proof. revert h. induction p as [a|c k IH]; intros h H; cbn in *; [done|]. destruct H. split; [by apply mild_allowed|]. intros r _. by apply IH. Qed.

(** ** Checks *)

Ltac next := cbn [mbind prog_bind prog_bind_ mret prog_ret do_ safe].
Ltac call := next; split; [exact I|intros ? ?].

Lemma CreateFileInfo_mild st n ownership xattrs : mild_prog (CreateFileInfo st n ownership xattrs).
Proof.
  unfold CreateFileInfo. apply mild_bind; [by case_bool; cbn|]. intros [e|plat]; [done|]. case_bool; [|done].
  cbn. split; [done|]. by intros [].
Qed.
Lemma CreateFileInfo_spec st n ownership xattrs h :
  Safe (CreateFileInfo st n ownership xattrs) h (fun _ r => forall f, r = inr f -> exists plat target, f = item_of st n plat target).
Proof.
  unfold CreateFileInfo. apply safe_seq with (P := fun _ _ => True).
  { case_bool; next; [|done]. by split. }
  intros h' [e|plat] _; next; [done|]. case_bool; next.
  - split; [exact I|]. intros [e|target] _; next; [done|]. intros f [= <-]. eauto.
  - intros f [= <-]. eauto.
Qed.

Lemma scanIfItemChanged_spec name st item hasItem d h :
  Safe (scanIfItemChanged samePlatform cfg name st item hasItem d) h (fun _ e => e = None ->
    hasItem = true /\ Deleted item = false /\ exists plat target,
      IsEquivalentOptional false samePlatform (item_of st (Name item) plat target) item (diskComparison cfg d) = true).
Proof.
  unfold scanIfItemChanged. apply (safe_call _ _ _ (fun _ e => e = None ->
    hasItem = true /\ Deleted item = false /\ exists plat target,
      IsEquivalentOptional false samePlatform (item_of st (Name item) plat target) item (diskComparison cfg d) = true)).
  - case_bool; [by next|]. apply orb_false_iff in Heqb as [H1 H2]. apply negb_false_iff in H1.
    eapply safe_call; [apply CreateFileInfo_spec|]. intros h' [e|f] Hs HP; next; [done|].
    destruct (HP f eq_refl) as (plat & target & ->). case_bool; [done|]. apply negb_false_iff in Heqb.
    intros _. split_and!; [exact H1|exact H2|]. by exists plat, target.
  - intros h' e Hs HP. destruct (opt_is is_modified e) eqn:E; next; [|done]. split; [exact I|].
    intros [] _. intros ->. by apply HP.
Qed.

Lemma traverse_mild path parts : mild_prog (traverse path parts).
Proof.
  revert path. induction parts as [|p parts IH]; intros path; [done|]. cbn. split; [done|]. intros [e|st]; [done|]. by repeat case_bool.
Qed.
Lemma TraversesSymlink_mild n : mild_prog (TraversesSymlink n).
Proof. unfold TraversesSymlink. destruct (Canonicalize n); try done. case_bool; [done|apply traverse_mild]. Qed.

Lemma checkToBeDeleted_spec file cur hasCur h :
  (hasCur = true -> record h (Name file) cur) ->
  Safe (checkToBeDeleted samePlatform cfg file cur hasCur) h (fun h' e => e = None -> unchanged h' (Name file) cur).
Proof.
  intros Hr. unfold checkToBeDeleted. eapply safe_call; [apply mild_safe, TraversesSymlink_mild|].
  intros h1 [e|] Hs _; [done|]. next. split; [exact I|]. intros [e|st] Hl.
  - repeat case_bool; next; done.
  - eapply safe_mono; [apply safe_extends, scanIfItemChanged_spec|]. cbn. intros h2 e [Hs2 HP] ->.
    destruct (HP eq_refl) as (-> & Hd & plat & target & Heq).
    assert (record h2 (Name file) cur) as Hrec by (eapply record_mono; [|by apply Hr]; intros x Hx; apply Hs2; right; by apply Hs).
    split_and!; [done|done|]. exists st, plat, target, true.
    split; [apply Hs2; left|]. by rewrite <- (proj1 Hrec).
Qed.

(** ** Deleting and moving away *)

Lemma inWritableDir_spec fn path h :
  (forall h', h ⊆ h' -> Safe (fn path) h' (fun h e => ended e -> gone h path)) ->
  Safe (inWritableDir fn path) h (fun h e => ended e -> gone h path).
Proof.
  intros Hfn. unfold inWritableDir.
  assert (forall h', h ⊆ h' -> Safe (e ← fn path; mret (e, tt)) h' (fun h r => ended r.1 -> gone h path)) as Hfn'.
  { intros h' Hs. eapply safe_call; [by apply Hfn|]. intros h1 e _ HP. next. exact HP. }
  apply (safe_call _ _ _ (fun h r => ended r.1 -> gone h path)); [|intros h' r _ HP; next; exact HP].
  unfold inWritableDir_with. call. destruct r as [e|info]; next.
  { intros He. right; right; right; right. exists e. split; [left|done]. }
  assert (forall h', Event (StatFile (Dir path)) (inr info) :: h ⊆ h' -> h ⊆ h') as Hs
    by (intros h' Hh x Hx; apply Hh; by right).
  case_bool; [by next; cbn|]. case_bool; [|by apply Hfn', Hs].
  next. split; [exact I|]. intros [e|] _.
  - eapply safe_call; [apply Hfn', Hs; intros x Hx; by right|]. intros h2 [ [e1|] []] _ HP; next; cbn in *; [|done].
    by case_bool.
  - eapply safe_call; [apply Hfn', Hs; intros x Hx; by right|]. intros h2 [e1 []] _ HP. next. split; [exact I|].
    intros e2 _ He. eapply gone_mono; [|by apply HP]. intros x Hx; by right.
Qed.
Lemma Remove_spec n h : may_remove h n -> Safe (do_ (Remove n)) h (fun h e => ended e -> gone h n).
Proof. intros Hm. next. split; [done|]. intros e _ He. left. exists e. split; [left|done]. Qed.
Lemma Archive_spec n h : may_move h n -> Safe (do_ (Archive n)) h (fun h e => ended e -> gone h n).
Proof. intros Hm. next. split; [done|]. intros e _ He. right; left. exists e. split; [left|done]. Qed.
Lemma unchanged_may_move h n cur : unchanged h n cur -> may_move h n.
Proof. intros H. right. by exists cur. Qed.
Lemma unchanged_may_remove h n cur : unchanged h n cur -> superseded n cur -> may_remove h n.
Proof. intros H Hs. right; right; right. by exists cur. Qed.

Lemma removeForConflict_spec n h : may_remove h n -> Safe (removeForConflict n) h (fun h e => ended e -> gone h n).
Proof.
  intros Hm. unfold removeForConflict. eapply safe_call; [by apply Remove_spec|]. intros h' [e|] _ HP; next; [|exact HP].
  case_bool; [by intros _; apply HP|]. intros E. change (is_not_exist e = true) in E. congruence.
Qed.
Lemma prune_spec n ms h : Event (Glob (conflictPattern n)) ms ∈ h -> -1 < fc_MaxConflicts cfg ->
  Safe (for_each (fun m => _ ← do_ (Remove m); mret tt) (drop (Z.to_nat (fc_MaxConflicts cfg)) (sort_desc ms))) h
    (fun h' _ => h ⊆ h').
Proof.
  intros Hm Hc. apply safe_for; [done|]. intros m h1 Hs Hin. next. split.
  - right; right; left. exists n, ms. split_and!; [by apply Hs|done|done].
  - intros e _. intros x Hx. right. by apply Hs.
Qed.

Lemma moveForConflict_spec by_ n cur h : unchanged h n cur ->
  Safe (moveForConflict cfg by_ n) h (fun h e => ended e -> gone h n).
Proof.
  intros Hu. unfold moveForConflict.
  destruct (isConflict n) eqn:Ec.
  { apply removeForConflict_spec, (unchanged_may_remove _ _ cur); [done|]. unfold superseded. tauto. }
  destruct (fc_MaxConflicts cfg =? 0) eqn:Em.
  { zbool. apply removeForConflict_spec, (unchanged_may_remove _ _ cur); [done|]. unfold superseded. tauto. }
  call. next. split.
  { split; [right; exists cur; eapply unchanged_mono; [|exact Hu]; intros x Hx; by right|].
    right; left. exists r, n, by_. split; [done|left]. }
  intros e _. cbv zeta.
  set (h1 := Event (Rename n _) e :: _).
  apply (safe_call _ _ _ (fun h' _ => h1 ⊆ h')).
  - case_bool; [|by next]. zbool. next. split; [exact I|]. intros ms _. case_bool; [|next; intros x Hx; by right].
    eapply safe_mono; [apply (prune_spec n ms); [left|lia]|]. cbn. intros h' _ Hs x Hx. apply Hs. by right.
  - intros h' [] _ Hs. assert (ended e -> gone h' n) as Hg.
    { intros He. right; right; left. eexists _, e. split; [|exact He]. apply Hs. left. }
    destruct e as [e|]; cbn [opt_is].
    + destruct (is_not_exist e) eqn:En; next.
      * split; [exact I|]. intros [] _ _. eapply gone_mono; [|by apply Hg]. intros x Hx; by right.
      * intros He. cbn in He. congruence.
    + next. split; [exact I|]. intros [] _ _. eapply gone_mono; [|by apply Hg]. intros x Hx; by right.
Qed.

(** *** Directories *)

Definition deletable (p : bytes) : Prop := R_IsDeletable (ignores p) = true.
Lemma child_known_mild path info a : mild_prog (child_known samePlatform cfg path info a).
Proof.
  unfold child_known. cbn. split; [done|]. intros [e|[cf ok] ]; [done|]. case_bool; [by cbn|]. case_bool; [done|].
  apply mild_bind; [apply CreateFileInfo_mild|]. intros [e|f]; [by cbn|]. by case_bool.
Qed.
Lemma child_known_dirs path info a h :
  Safe (child_known samePlatform cfg path info a) h (fun _ r => match r with inr a' => dirsToDelete a' = dirsToDelete a | _ => True end).
Proof.
  unfold child_known. call. destruct r as [e|[cf ok] ]; [by next|]. case_bool; [by call|]. case_bool; [by next|].
  eapply safe_call; [apply mild_safe, CreateFileInfo_mild|]. intros h1 [e|f] _ _; [by call|]. case_bool; [by call|by next].
Qed.
Lemma walk_children_spec dir entries a h : Forall deletable (dirsToDelete a) ->
  Safe (walk_children samePlatform ignores cfg dir entries a) h
    (fun _ r => match r with inr a => Forall deletable (dirsToDelete a) | _ => True end).
Proof.
  revert a h. induction entries as [| [ [path info] err] entries IH]; intros a h Ha; cbn [walk_children]; [by next|].
  case_bool; [by apply IH|]. destruct err as [e|]; [by next|].
  apply (safe_call _ _ _ (fun _ r => match r with inr a => Forall deletable (dirsToDelete a) | _ => True end)).
  2: { intros h1 [e|a'] _ HP; [by next|by apply IH]. }
  unfold child. destruct (R_IsDeletable (ignores path)) eqn:Ed.
  { case_bool; next; [apply Forall_app; split; [done|by apply Forall_singleton]|].
    split; [by right; left|]. intros e _. exact Ha. }
  destruct (IsTemporary path) eqn:Et.
  { next. split; [by left; left|]. intros e _. exact Ha. }
  case_bool; [by next|]. eapply safe_mono; [apply child_known_dirs|]. cbn. intros _ [e|a'] E; [done|by rewrite E].
Qed.
Lemma remove_dirs_spec ds a h : Forall deletable ds -> Safe (remove_dirs ds a) h (fun _ _ => True).
Proof.
  revert a h. induction ds as [|d ds IH]; intros a h Hd; [by next|]. inversion Hd; subst. cbn [remove_dirs]. next.
  split; [by right; left|]. intros e _. by apply IH.
Qed.
Lemma HandleChildren_spec dir h : Safe (deleteDirOnDiskHandleChildren samePlatform ignores cfg dir) h (fun _ _ => True).
Proof.
  unfold deleteDirOnDiskHandleChildren. call. eapply safe_call; [by apply walk_children_spec|].
  intros h1 [e|a] _ Ha; [by next|]. eapply safe_call; [by apply remove_dirs_spec, Forall_reverse|].
  intros h2 a' _ _. repeat case_bool; next; done.
Qed.
Lemma deleteDirOnDisk_spec dir h : may_remove h dir ->
  Safe (deleteDirOnDisk samePlatform ignores cfg dir) h (fun h e => e = None -> gone h dir).
Proof.
  intros Hm. unfold deleteDirOnDisk. eapply safe_call; [apply mild_safe, TraversesSymlink_mild|].
  intros h1 [e|] Hs1 _; [by next|]. eapply safe_call; [apply HandleChildren_spec|]. intros h2 [e|] Hs2 _; [by next|].
  eapply safe_call; [apply inWritableDir_spec; intros h' Hs; apply Remove_spec; eapply may_remove_mono; [|exact Hm];
    intros x Hx; by apply Hs, Hs2, Hs1|].
  intros h3 [e|] _ Hg; next; [|by intros _; apply Hg].
  destruct (is_not_exist e) eqn:En; [by intros _; apply Hg|]. next. split; [exact I|]. intros [e'|st] _; next; [|done].
  destruct (is_permission e') eqn:Ep; [done|]. intros _. do 3 right. left. exists e'. split; [left|done].
Qed.
Lemma deleteItemOnDisk_spec cur n h : unchanged h n cur -> superseded n cur ->
  Safe (deleteItemOnDisk samePlatform ignores cfg cur) h (fun h e => e = None -> gone h n).
Proof.
  intros Hu Hs. assert (Name cur = n) as <- by apply Hu. unfold deleteItemOnDisk.
  apply (safe_call _ _ _ (fun h e => e = None -> gone h (Name cur))); [|intros h' [e|] _ HP; next; [done|by intros _; apply HP] ].
  destruct (IsDirectory cur); [by apply deleteDirOnDisk_spec, (unchanged_may_remove _ _ cur)|].
  assert (forall fn, (forall h', h ⊆ h' -> Safe (fn (Name cur)) h' (fun h e => ended e -> gone h (Name cur))) ->
    Safe (inWritableDir fn (Name cur)) h (fun h e => e = None -> gone h (Name cur))) as G.
  { intros fn Hfn. eapply safe_mono; [by apply inWritableDir_spec|]. cbn. intros h' e He ->. by apply He. }
  case_bool; apply G; intros h' Hs'; [apply Archive_spec, (unchanged_may_move _ _ cur)|
    apply Remove_spec, (unchanged_may_remove _ _ cur); [|done] ]; by eapply unchanged_mono.
Qed.

(** ** The handlers *)

Abbreviation Fine p h := (Safe p h (fun _ _ => True)).
Lemma setPlatformData_mild f n : mild_prog (setPlatformData cfg f n).
Proof.
  unfold setPlatformData, syncOwnership, copyOwnershipFromParent.
  apply mild_bind; [case_bool; [|done]; cbn; split; [done|]; by intros [e|] |]. intros [e|]; [done|].
  case_bool.
  - destruct (Unix (Platform f)) as [u|]; [|done]. apply mild_bind; [case_bool; [done|]; cbn; by split|].
    intros uid. apply mild_bind; [case_bool; [done|]; cbn; by split|]. by split.
  - case_bool; [|done]. cbn. split; [done|]. intros [e|info]; [done|]. by split.
Qed.
Lemma pull_error_mild f ctx e : mild_prog (pull_error f ctx e).
Proof. by split. Qed.
Lemma send_update_mild f t : mild_prog (send_update f t).
Proof. by split. Qed.
Lemma withPreparedTarget_spec to f h : (forall h', h ⊆ h' -> Fine f h') -> Fine (withPreparedTarget to f) h.
Proof.
  intros Hf. assert (forall e, Event (StatFile (Dir to)) e :: h ⊆ Event (StatFile (Dir to)) e :: h) as _ by done.
  unfold withPreparedTarget. call. destruct r as [e|info]; [apply Hf; intros x Hx; by right|].
  case_bool; [|apply Hf; intros x Hx; by right]. call. eapply safe_call; [apply Hf; intros x Hx; by do 2 right|].
  intros h' e _ _. call. by next.
Qed.

Lemma replace_current_spec (asConflict : bool) cur n h : unchanged h n cur -> (asConflict = false -> superseded n cur) ->
  Safe (replace_current samePlatform ignores cfg asConflict wanted cur) h (fun h e => e = None -> gone h n).
Proof.
  intros Hu Hs. unfold replace_current. destruct asConflict; [|by apply deleteItemOnDisk_spec; [|apply Hs] ].
  assert (Name cur = n) as <- by apply Hu.
  eapply safe_mono; [apply inWritableDir_spec; intros h' Hs'; eapply moveForConflict_spec, unchanged_mono; [exact Hs'|exact Hu]|].
  cbn. intros h' e He ->. by apply He.
Qed.

(** The record that a handler works with; a rename may find none. *)
Definition known (h : history) (n : bytes) (cur : FileInfo) (hasCur : bool) : Prop :=
  hasCur = true -> record h n cur \/ cur = emptyFileInfo.
Lemma known_mono h h' n cur hasCur : h ⊆ h' -> known h n cur hasCur -> known h' n cur hasCur.
Proof. intros Hs Hk Hh. destruct (Hk Hh) as [H|H]; [left; by eapply record_mono|by right]. Qed.
Lemma GetDeviceFile_known n cur hasCur h :
  plausible (GetDeviceFile n) (inr (cur, hasCur)) -> known (Event (GetDeviceFile n) (inr (cur, hasCur)) :: h) n cur hasCur.
Proof. intros Hp ->. left. split; [exact Hp|]. left. left. Qed.
Lemma scan_known n st cur hasCur h : known h n cur hasCur -> plausible (Lstat n) (inr st) -> Event (Lstat n) (inr st) ∈ h ->
  Safe (scanIfItemChanged samePlatform cfg n st cur hasCur false) h (fun h e => e = None -> unchanged h n cur).
Proof.
  intros Hk Hp Hl. eapply safe_mono; [apply safe_extends, scanIfItemChanged_spec|]. cbn. intros h' e [Hs HP] ->.
  destruct (HP eq_refl) as (-> & Hd & plat & target & Heq). destruct (Hk eq_refl) as [Hr| ->].
  - split_and!; [by eapply record_mono|done|]. exists st, plat, target, false. split; [by apply Hs|]. by rewrite <- (proj1 Hr).
  - cbn in Hp. by rewrite Hp in Heq.
Qed.

Lemma performFinish_spec cur hasCur temp h : known h (Name wanted) cur hasCur -> temporary temp ->
  Fine (performFinish samePlatform ignores cfg wanted cur hasCur temp) h.
Proof.
  intros Hk Ht. unfold performFinish. eapply safe_call; [apply mild_safe; by case_bool; cbn|].
  intros h1 [e|] Hs1 _; [by next|]. eapply safe_call; [apply mild_safe, setPlatformData_mild|].
  intros h2 [e|] Hs2 _; [by next|]. next. split; [exact I|]. intros r Hr.
  apply (safe_call _ _ _ (fun h e => e = None -> gone h (Name wanted))).
  - destruct r as [e|st]; next.
    + destruct (is_not_exist e) eqn:En; [|done]. intros _. do 3 right. left. exists e. split; [left|].
      unfold is_not_exist, is_permission in *. by destruct (unwrap e).
    + eapply safe_call; [apply scan_known; [|exact Hr|left]; eapply known_mono; [|exact Hk]; intros x Hx; right; by apply Hs2, Hs1|].
      intros h3 [e|] _ Hu; [by next|]. eapply safe_call; [apply replace_current_spec; [by apply Hu|]|].
      { intros Hc. unfold superseded. repeat case_bool; zbool. destruct (fc_UseLWWReconciler cfg); [tauto|].
        destruct (IsDirectory cur); [tauto|]. destruct (IsSymlink cur); [tauto|]. cbn in Hc. tauto. }
      intros h4 [e|] _ Hg; next; [done|]. intros _. by apply Hg.
  - intros h3 [e|] _ Hg; [by next|]. eapply safe_call.
    { apply withPreparedTarget_spec. intros h4 Hs4. next. split; [|done]. split; [by left|].
      right; right. eapply gone_mono; [exact Hs4|]. by apply Hg. }
    intros h4 [e|] _ _; [by next|]. call. next. split; [exact I|]. by intros [] _.
Qed.

Lemma make_dir_mild f mode n : mild_prog (make_dir cfg f mode n).
Proof.
  unfold make_dir. cbn. split; [done|]. intros [e|]; [done|]. apply mild_bind; [apply setPlatformData_mild|].
  intros [e|]; [done|]. case_bool; [done|]. cbn. split; [done|]. intros [e|info]; [done|]. by split.
Qed.
Lemma inWritableDir_mild fn n : mild_prog (fn n) -> mild_prog (inWritableDir fn n).
Proof.
  intros H. unfold inWritableDir, inWritableDir_with. apply mild_bind; [|done].
  assert (mild_prog (e ← fn n; mret (e, tt))) as G by (by apply mild_bind).
  cbn. split; [done|]. intros [e|info]; [done|]. case_bool; [done|]. case_bool; [|exact G].
  cbn. split; [done|]. intros [e|]; (apply mild_bind; [exact G|]); [done|]. intros a. by split.
Qed.
Lemma create_dir_mild f mode : mild_prog (create_dir cfg f mode).
Proof. unfold create_dir. apply mild_bind; [apply inWritableDir_mild, make_dir_mild|]. intros [e|]; by split. Qed.

Lemma handleDir_spec h : Fine (handleDir samePlatform ignores cfg wanted) h.
Proof.
  unfold handleDir. next. split; [exact I|]. intros [e|info] Hl.
  { case_bool; [apply mild_safe, create_dir_mild|by split]. }
  case_bool.
  - next. split; [exact I|]. intros [e|[cur hasCur] ] Hd; [by split|].
    eapply safe_call; [apply scan_known; [by apply GetDeviceFile_known|exact Hl|right; left]|].
    intros h1 [e|] _ Hu; [by split|]. eapply safe_call; [apply replace_current_spec; [by apply Hu|]|].
    { intros Hc. unfold superseded. destruct (fc_UseLWWReconciler cfg); [tauto|].
      destruct (IsSymlink cur); [tauto|]. cbn in Hc. tauto. }
    intros h2 [e|] _ _; [by split|]. apply mild_safe, create_dir_mild.
  - apply mild_safe. case_bool; [|by split]. cbn. split; [done|]. intros [e|]; [by split|].
    apply mild_bind; [apply setPlatformData_mild|]. intros [e|]; by split.
Qed.

Lemma CheckExisting_spec h : Fine (handleSymlinkCheckExisting samePlatform ignores cfg wanted) h.
Proof.
  unfold handleSymlinkCheckExisting. next. split; [exact I|]. intros [e|info] Hl; [done|]. next.
  split; [exact I|]. intros [e|[cur hasCur] ] Hd; [done|].
  eapply safe_call; [apply scan_known; [by apply GetDeviceFile_known|exact Hl|right; left]|].
  intros h1 [e|] _ Hu; [by next|]. eapply safe_mono; [apply replace_current_spec; [by apply Hu|]|done].
  intros Hc. unfold superseded. destruct (IsDirectory cur); [tauto|]. destruct (IsSymlink cur); [tauto|]. cbn in Hc. tauto.
Qed.
Lemma handleSymlink_spec h : Fine (handleSymlink samePlatform ignores cfg wanted) h.
Proof.
  unfold handleSymlink. case_bool; [by split|]. eapply safe_call; [apply CheckExisting_spec|].
  intros h1 [e|] _ _; [by split|]. apply mild_safe. apply mild_bind.
  - apply inWritableDir_mild. cbn. split; [done|]. intros [e|]; [done|apply setPlatformData_mild].
  - intros [e|]; by split.
Qed.

Lemma deleteDir_spec h : Deleted wanted = true -> IsDirectory wanted = true -> Fine (deleteDir samePlatform ignores cfg wanted) h.
Proof.
  intros Hw1 Hw2. unfold deleteDir. next. split; [exact I|]. intros [e|[cur hasCur] ] Hd; [by split|].
  eapply safe_call; [apply checkToBeDeleted_spec; intros ->; split; [exact Hd|left; left]|].
  intros h1 [e|] _ Hu; [case_bool; by split|].
  eapply safe_call; [eapply deleteDirOnDisk_spec, unchanged_may_remove; [by apply Hu|unfold superseded; tauto]|].
  intros h2 [e|] _ _; by split.
Qed.

Lemma deleteFileWithCurrent_spec cur hasCur h : (hasCur = true -> record h (Name wanted) cur) ->
  Fine (deleteFileWithCurrent samePlatform cfg wanted cur hasCur) h.
Proof.
  intros Hr. unfold deleteFileWithCurrent. eapply safe_call; [by apply checkToBeDeleted_spec|].
  intros h1 [e|] _ Hu; [case_bool; by split|]. specialize (Hu eq_refl). case_bool; [by split|].
  apply (safe_call _ _ _ (fun _ _ => True)).
  - assert (Name cur = Name wanted) as En by apply Hu.
    repeat case_bool; (eapply safe_mono; [apply inWritableDir_spec; intros h' Hs|done]).
    + rewrite En. by eapply moveForConflict_spec, unchanged_mono.
    + by eapply Archive_spec, unchanged_may_move, unchanged_mono.
    + eapply Remove_spec, unchanged_may_remove; [by eapply unchanged_mono|]. unfold superseded.
      destruct (IsSymlink cur); [tauto|]. rewrite andb_true_r in *. tauto.
  - intros h2 [e|] _ _; [|by split]. case_bool; [by repeat split|]. next. split; [exact I|].
    intros [e'|st] _; [case_bool; by split|by split].
Qed.
Lemma deleteFile_spec h : Fine (deleteFile samePlatform cfg wanted) h.
Proof.
  unfold deleteFile. next. split; [exact I|]. intros [e|[cur hasCur] ] Hd; [by split|].
  apply deleteFileWithCurrent_spec. intros ->. split; [exact Hd|left; left].
Qed.

Lemma check_target_mild source target cur ok : mild_prog (check_target samePlatform cfg source target cur ok).
Proof.
  unfold check_target. cbn. split; [done|].
  assert (mild_prog (if negb ok || IsDeleted cur then mret None else _ ← do_ (SendScan (Name target)); mret (Some errModified))) as G
    by (by case_bool; cbn).
  intros [e|st].
  - destruct (as_case_conflict e); [case_bool; [done|exact G]|]. case_bool; [exact G|done].
  - case_bool; [by cbn|]. apply mild_bind; [apply CreateFileInfo_mild|]. intros [e|f]; [done|]. by case_bool; cbn.
Qed.
Lemma renameFile_spec cur source h : record h (Name source) cur ->
  Fine (renameFile sha256 samePlatform ignores cfg cur source wanted) h.
Proof.
  intros Hr. unfold renameFile. eapply safe_call; [by apply checkToBeDeleted_spec|].
  intros h1 [e|] _ Hu; [by next|]. specialize (Hu eq_refl). next. split; [exact I|]. intros [e|[curTarget ok] ] Hd; [by next|].
  assert (known (Event (GetDeviceFile (Name wanted)) (inr (curTarget, ok)) :: h1) (Name wanted) curTarget true) as Hk.
  { intros _. destruct ok; [left; split; [exact Hd|left; left]|right; exact Hd]. }
  eapply safe_call; [apply mild_safe, check_target_mild|]. intros h2 [e|] Hs2 _; [by next|].
  assert (unchanged h2 (Name source) cur) as Hu2 by (eapply unchanged_mono; [|exact Hu]; intros x Hx; apply Hs2; by right).
  assert (temporary (TempName sha256 (Name wanted))) as Ht by (right; by eexists).
  apply (safe_call _ _ _ (fun _ _ => True)).
  - case_bool.
    + call. destruct r as [e|]; [done|]. eapply safe_call; [apply withPreparedTarget_spec; intros h' _; next; split; [by left|done]|].
      intros h3 [e|] Hs3 _; [by next|]. eapply safe_mono; [apply inWritableDir_spec|done].
      intros h4 Hs4. eapply Archive_spec, unchanged_may_move, unchanged_mono; [|exact Hu2].
      intros x Hx. apply Hs4, Hs3. by right.
    + apply withPreparedTarget_spec. intros h3 Hs3. next. split; [|done].
      split; [by eapply unchanged_may_move, unchanged_mono|by left].
  - intros h3 [e|] Hs3 _; [by next|].
    eapply safe_call; [eapply performFinish_spec; [eapply known_mono; [|exact Hk]; intros x Hx; by apply Hs3, Hs2|exact Ht]|].
    intros h4 [e|] _ _; [by next|]. by split.
Qed.
End Safety.

(** ** The theorem *)

Section Handlers.
Context (sha256 : bytes -> bytes) (samePlatform : PlatformData -> PlatformData -> bool) (ignores : bytes -> Z).
Context (cfg : folderCfg).

(** A handler runs for an item it is asked to apply, with the records it is given. *)
Inductive handler : FileInfo -> (bytes -> FileInfo -> Prop) -> prog unit -> Prop :=
  | h_handleDir file : handler file (fun _ _ => False) (handleDir samePlatform ignores cfg file)
  | h_handleSymlink file : handler file (fun _ _ => False) (handleSymlink samePlatform ignores cfg file)
  | h_CheckExisting file : handler file (fun _ _ => False)
      (_ ← handleSymlinkCheckExisting samePlatform ignores cfg file; mret tt)
  | h_deleteDir file : IsDirectory file = true -> Deleted file = true ->
      handler file (fun _ _ => False) (deleteDir samePlatform ignores cfg file)
  | h_deleteFile file : handler file (fun _ _ => False) (deleteFile samePlatform cfg file)
  | h_deleteFileWithCurrent file cur hasCur : (hasCur = true -> Name cur = Name file) ->
      handler file (fun n c => hasCur = true /\ n = Name file /\ c = cur) (deleteFileWithCurrent samePlatform cfg file cur hasCur)
  | h_renameFile cur source target : Name cur = Name source ->
      handler target (fun n c => n = Name source /\ c = cur)
        (_ ← renameFile sha256 samePlatform ignores cfg cur source target; mret tt)
  | h_performFinish file cur hasCur : (hasCur = true -> Name cur = Name file) ->
      handler file (fun n c => hasCur = true /\ n = Name file /\ c = cur)
        (_ ← performFinish samePlatform ignores cfg file cur hasCur (TempName sha256 (Name file)); mret tt).

(** C2: What a handler of the puller removes, moves and overwrites, whatever the
    file system, the database and the versioner answer (records have the name
    that was asked for, an absent one is the zero record, and no file on disk
    looks like the zero record).  It removes only temporary files, ignored
    items that are marked as deletable, conflict copies beyond the number to
    keep, and items that it looked at on disk and found as the database has
    them.  Such an item is removed without a copy or a version only if its
    record is not in conflict with the wanted item, is a symlink or a directory,
    is itself a conflict copy, or if the reconciler is on, no conflict copies
    are to be made, or a deleted directory is wanted ([deleteDir_loses_file]).
    It moves, or gives to the versioner, only temporary files and items found
    as the database has them.  It writes only over temporary files, over the
    name of a conflict copy with the time just read, and over names that were
    given up before: by a removal, a move or the versioner that ended (or found
    nothing), by a look that failed for another reason than a permission, or
    because the parent does not exist. *)
Theorem handlers_remove_known file given p h (H : handler file given p) (Hrun : runs p [] h tt)
    (Hp : all_plausible (plausible samePlatform cfg) h) :
  all_allowed (allowed sha256 samePlatform ignores cfg given file) h.
Proof.
  enough (safe (allowed sha256 samePlatform ignores cfg given file) (plausible samePlatform cfg) p [] (fun _ _ => True)) as Hs
    by (by eapply safe_runs in Hs as [? _]).
  assert (forall A (q : prog A), safe (allowed sha256 samePlatform ignores cfg given file) (plausible samePlatform cfg) q [] (fun _ _ => True) ->
    safe (allowed sha256 samePlatform ignores cfg given file) (plausible samePlatform cfg) (_ ← q; mret tt) [] (fun _ _ => True)) as G
    by (intros A q Hq; eapply safe_seq; [exact Hq|done]).
  destruct H.
  - apply handleDir_spec.
  - apply handleSymlink_spec.
  - apply G, CheckExisting_spec.
  - by apply deleteDir_spec.
  - apply deleteFile_spec.
  - apply deleteFileWithCurrent_spec. intros E. split; [by apply H|by right].
  - apply G, renameFile_spec. split; [done|by right].
  - apply G, performFinish_spec; [|by right; eexists]. intros E. left. split; [by apply H|by right].
Qed.
End Handlers.

(** ** Concrete runs *)

Definition ex_cfg (versioner : bool) : folderCfg :=
  {| fc_IgnorePerms := false; fc_IgnoreDelete := false; fc_SyncOwnership := false; fc_SyncXattrs := false;
     fc_CopyOwnershipFromParent := false; fc_MaxConflicts := 10; fc_UseLWWReconciler := false; fc_ReceiveOnly := true;
     fc_ReceiveEncrypted := false; fc_versioner := versioner; fc_modTimeWindow := 0; fc_os := linux; fc_noSymlinks := false |}.
Definition ex_dir : Stat :=
  {| st_IsDir := true; st_IsSymlink := false; st_IsRegular := false; st_Mode := 493; st_Size := 0; st_ModTime_Unix := 9; st_ModTime_Nanosecond := 0;
     st_Owner := 0; st_Group := 0 |}.
Definition ex_file_stat : Stat :=
  {| st_IsDir := false; st_IsSymlink := false; st_IsRegular := true; st_Mode := 420; st_Size := 5; st_ModTime_Unix := 1000;
     st_ModTime_Nanosecond := 0; st_Owner := 0; st_Group := 0 |}.
Definition ex_item (name : bytes) (typ size : Z) (flags : Z) (deleted : bool) (device : Z) : FileInfo :=
  {| Name := name; FSize := size; ModifiedS := 1000; ModifiedBy := device; Version := {| Counters := [{| ID := device; Value := 2 |}] |};
     Sequence := 1; Blocks := []; SymlinkTarget := []; BlocksHash := []; PreviousBlocksHash := []; Encrypted := [];
     Platform := noPlatform; Type_ := typ; Permissions := 420; ModifiedNs := 0; RawBlockSize := 0; LocalFlags := flags;
     EncryptionTrailerSize := 0; Deleted := deleted; NoPermissions := false; truncated := false |}.
Definition ex_same (p q : PlatformData) : bool := true.
Definition ex_ignores (n : bytes) : Z := 0.
Definition notes : bytes := gostr "notes.txt".

(** A world in which [notes.txt] is a file that the database has as [cur]; nothing fails but what is given. *)
Definition ex_answers (cur : FileInfo) (lstat : bytes -> disk_err + Stat) (remove : bytes -> option disk_err)
    (walk : list (bytes * Stat * option disk_err)) (c : call) : option (answer c) :=
  match c return option (answer c) with
  | Lstat n => Some (lstat n)
  | StatFile _ => Some (inr ex_dir)
  | GetPlatformData _ _ _ => Some (inr noPlatform)
  | ReadSymlink _ => Some (inl ErrNotExist)
  | Glob _ => Some []
  | Walk _ => Some walk
  | HashFile _ _ => Some (inl ErrNotExist)
  | WriteTrailer _ _ => Some (inr 0)
  | GetDeviceFile n | GetGlobalFile n =>
      Some (if decide (n = Name cur) then inr (cur, true) else inr (emptyFileInfo, false))
  | AllNeededGlobalFiles => Some []
  | FileAvailability _ => Some true
  | LookupUser _ | LookupGroup _ => Some None
  | Now_stamp => Some (gostr "20240102-030405")
  | QueuePop => Some None
  | Remove n => Some (remove n)
  | Panics => None
  | SendScan _ | SendUpdate _ | SendCopy _ _ _ _ _ _ | NewPullError _ _ | QueuePush _ | QueueDone _ => Some tt
  | Chmod _ _ | Lchown _ _ _ | Chtimes _ _ | SetXattr _ _ | CreateSymlink _ _ | Mkdir _ _ | MkdirAll _ _
  | Rename _ _ | CopyContents _ _ | Truncate _ _ | Archive _ | CheckAvailableSpace _ | CtxErr => Some None
  | _ => None
  end.
(** [Lstat] of the root, of [notes.txt], of anything else. *)
Definition ex_lstat (st : disk_err + Stat) (n : bytes) : disk_err + Stat :=
  if decide (n = notes) then st else if decide (n = dot) then inr ex_dir else inl ErrNotExist.

(** What the calls of a run did: the names removed, moved, recorded as updated, with errors. *)
Definition history_of {A} (r : option (history * A)) : history := match r with Some (h, _) => reverse h | None => [] end.
Definition removed (h : history) : list bytes := omap (fun e => match ev_call e with Remove n => Some n | _ => None end) h.
Definition moved (h : history) : list (bytes * bytes) :=
  omap (fun e => match ev_call e with Rename a b => Some (a, b) | Archive n => Some (n, []) | _ => None end) h.
Definition updates (h : history) : list (bytes * Z) :=
  omap (fun e => match ev_call e with SendUpdate j => Some (Name (job_file j), jobType j) | _ => None end) h.
Definition errors (h : history) : list bytes := omap (fun e => match ev_call e with NewPullError n _ => Some n | _ => None end) h.

(** A directory that was replaced by the file [notes.txt] here, and deleted elsewhere at the same time. *)
Definition ex_deleted_dir : FileInfo := ex_item notes FileInfoTypeDirectory 128 0 true 2.
Definition ex_deleted_file : FileInfo := ex_item notes FileInfoTypeFile 0 0 true 2.
Definition ex_local_file : FileInfo := ex_item notes FileInfoTypeFile 5 0 false 1.
Definition ex_remote_file : FileInfo := ex_item notes FileInfoTypeFile 7 0 false 2.

Example conflict_is_kept :
  let h := history_of (exec (ex_answers ex_local_file (ex_lstat (inr ex_file_stat)) (fun _ => None) [])
    (performFinish ex_same ex_ignores (ex_cfg true) ex_remote_file ex_local_file true (gostr ".syncthing.notes.txt.tmp")) []) in
  removed h = [] /\ updates h = [(notes, dbUpdateHandleFile)] /\
  moved h = [(notes, gostr "notes.sync-conflict-20240102-030405-AAAAAAA.txt"); (gostr ".syncthing.notes.txt.tmp", notes)].
Proof. vm_compute. repeat split. Qed.

(** The local file is in conflict with the deletion, but is removed: no conflict
    copy is made, and the versioner is not used. *)
Lemma deleteDir_loses_file :
  InConflictWith ex_deleted_dir ex_local_file = true /\
  let h := history_of (exec (ex_answers ex_local_file (ex_lstat (inr ex_file_stat)) (fun _ => None) [(notes, ex_file_stat, None)])
    (deleteDir ex_same ex_ignores (ex_cfg true) ex_deleted_dir) []) in
  removed h = [notes] /\ moved h = [] /\ updates h = [(notes, dbUpdateDeleteDir)].
Proof. vm_compute. repeat split. Qed.

(** A directory with a receive-only change inside: the walk pretends that it was
    deleted, but it is then removed like an empty one, which fails. *)
Lemma receiveOnly_dir_fails :
  let item := ex_item (gostr "d/x") FileInfoTypeFile 5 FlagLocalReceiveOnly false 1 in
  let answers := ex_answers item (fun _ => inr ex_dir) (fun _ => Some (ErrOther (gostr "directory not empty")))
    [(gostr "d", ex_dir, None); (gostr "d/x", ex_file_stat, None)] in
  snd <$> exec answers (deleteDirOnDiskHandleChildren ex_same ex_ignores (ex_cfg false) (gostr "d")) [] = Some None /\
  snd <$> exec answers (deleteDirOnDisk ex_same ex_ignores (ex_cfg false) (gostr "d")) [] =
    Some (Some (ErrOther (gostr "directory not empty"))).
Proof. vm_compute. split; reflexivity. Qed.

(** If the parent directory cannot be looked at, for whatever reason, the
    deletion is recorded though the file is still there. *)
Lemma unreadable_parent_is_deletion :
  let item := ex_item (gostr "d/x") FileInfoTypeFile 5 0 false 1 in
  let h := history_of (exec (ex_answers item (fun n => if decide (n = gostr "d") then inl (ErrOther (gostr "input/output error"))
      else inr ex_file_stat) (fun _ => None) [])
    (deleteFile ex_same (ex_cfg false) (ex_item (gostr "d/x") FileInfoTypeFile 0 0 true 2)) []) in
  removed h = [] /\ updates h = [(gostr "d/x", dbUpdateDeleteFile)].
Proof. vm_compute. split; reflexivity. Qed.

(** A file that is gone when it is to be removed: the deletion is recorded, and
    an error as well. *)
Lemma deleted_with_error :
  let newer := ex_item notes FileInfoTypeFile 0 0 true 1 in
  let h := history_of (exec (ex_answers ex_local_file (ex_lstat (inr ex_file_stat)) (fun _ => Some ErrNotExist) [])
    (deleteFile ex_same (ex_cfg false) newer) []) in
  updates h = [(notes, dbUpdateDeleteFile)] /\ errors h = [notes].
Proof. vm_compute. split; reflexivity. Qed.

Lemma ex_plausible c r :
  ex_answers ex_local_file (ex_lstat (inr ex_file_stat)) (fun _ => None) [] c = Some r -> plausible ex_same (ex_cfg false) c r.
Proof.
  destruct c; try (intros _; exact I); cbn [ex_answers].
  - unfold ex_lstat. intros [= <-]. case_decide; [intros plat target []; reflexivity|].
    case_decide; [intros plat target []; reflexivity|done].
  - case_decide as E; intros [= <-]; [by symmetry|done].
Qed.

Definition ex_run : option (history * unit) :=
  exec (ex_answers ex_local_file (ex_lstat (inr ex_file_stat)) (fun _ => None) [])
    (deleteFile ex_same (ex_cfg false) ex_deleted_file) [].
Definition ex_history : history := match ex_run with Some (h, _) => h | None => [] end.
Lemma ex_run_history : ex_run = Some (ex_history, tt).
Proof. unfold ex_history. assert (is_Some ex_run) as [ [h []] ->] by (apply (bool_decide_unpack _); vm_compute; exact I). done. Qed.

Theorem handlers_remove_known_witness :
  moved ex_history = [(notes, gostr "notes.sync-conflict-20240102-030405-AAAAAAA.txt")] /\
  all_allowed (allowed (fun s => s) ex_same ex_ignores (ex_cfg false) (fun _ _ => False) ex_deleted_file) ex_history.
Proof.
  split; [vm_compute; reflexivity|].
  apply (handlers_remove_known (fun s => s) ex_same ex_ignores (ex_cfg false) ex_deleted_file _
    (deleteFile ex_same (ex_cfg false) ex_deleted_file)).
  - apply h_deleteFile.
  - apply (exec_runs _ _ _ _ _ ex_run_history).
  - apply (exec_plausible _ _ _ _ _ _ ex_plausible ex_run_history). constructor.
Defined.
