(* ===== verification/PullNeededProps.v ===== *)
(** * Every needed item is accounted for

    An iteration of the puller that is not cut short reports every item the
    database needs: an update of the database, an error, or a file in the queue. *)
From Stdlib Require Import ZArith List Lia.
From Stdlib Require Import Strings.Byte.
From stdpp Require Import base list option gmap numbers tactics.
From S2P Require Import Prelude GoLib Vector FileInfo DeviceID PullQueue PullState PullJob Paths Disk PullItems PullActions PullNeeded PullSafety.

#[local] Open Scope Z_scope.

Section Accounted.
Context (sha256 : bytes -> bytes) (samePlatform : PlatformData -> PlatformData -> bool) (ignores : bytes -> Z).
Context (Reorder : list BlockInfo -> list BlockInfo) (range : gmap bytes FileInfo -> list FileInfo).
Context (Hrange : forall m n f, m !! n = Some f -> f ∈ range m).
Context (cfg : folderCfg).

(** The iteration is not cancelled. *)
Definition not_cancelled (c : call) : answer c -> Prop :=
  match c with CtxErr => fun r => r = None | _ => fun _ => True end.
Abbreviation Runs := (safe (fun _ _ => True) not_cancelled).

Definition reported (h : history) (n : bytes) : Prop :=
  (exists j, Event (SendUpdate j) tt ∈ h /\ Name (job_file j) = n) \/ (exists e, Event (NewPullError n e) tt ∈ h).
Definition queued (h : history) (f : FileInfo) : Prop := Event (QueuePush f) tt ∈ h.
Definition accounted (h : history) (s : pulling) (f : FileInfo) : Prop :=
  (fc_IgnoreDelete cfg = true /\ IsDeleted f = true) \/ reported h (Name f) \/ queued h f \/
  f ∈ dirDeletions s \/ is_Some (fileDeletions s !! Name f).

Lemma reported_mono h h' n : h ⊆ h' -> reported h n -> reported h' n.
Proof. intros Hs [(j & H & E)|(e & H)]; [left; exists j|right; exists e]; auto. Qed.
Lemma ctx_call {B} (f : option disk_err -> prog B) h Q :
  Runs (f None) (Event CtxErr None :: h) Q -> Runs (do_ CtxErr ≫= f) h Q.
Proof. intros H. split; [exact I|]. intros c Hc. cbn in Hc. by rewrite Hc. Qed.

Lemma pull_error_reports f ctx e h : Runs (pull_error f ctx e) h (fun h _ => reported h (Name f)).
Proof. split; [exact I|]. intros [] _. right. eexists. left. Qed.
Lemma NewPullError_reports n e h : Runs (do_ (NewPullError n e)) h (fun h _ => reported h n).
Proof. split; [exact I|]. intros [] _. right. eexists. left. Qed.
Lemma send_update_reports f t h : Runs (send_update f t) h (fun h _ => reported h (Name f)).
Proof. split; [exact I|]. intros [] _. left. eexists. split; [left|done]. Qed.

Ltac next := cbn [mbind prog_bind prog_bind_ mret prog_ret do_ safe].
(** Walks through a program: every leaf reports, every call may answer anything. *)
Ltac reports :=
  lazymatch goal with
  | |- Runs (pull_error _ _ _) _ _ => apply pull_error_reports
  | |- Runs (do_ (NewPullError _ _)) _ _ => apply NewPullError_reports
  | |- Runs (send_update _ _) _ _ => apply send_update_reports
  | |- Runs (match ?x with _ => _ end) _ _ => destruct x; reports
  | |- Runs (mbind _ _) _ _ => apply any_call; intros ? ? _; reports
  | |- _ => idtac
  end.

Lemma create_dir_reports f mode h : Runs (create_dir cfg f mode) h (fun h _ => reported h (Name f)).
Proof. unfold create_dir. reports. Qed.
Lemma handleDir_reports f h : Runs (handleDir samePlatform ignores cfg f) h (fun h _ => reported h (Name f)).
Proof. unfold handleDir. reports. all: apply create_dir_reports. Qed.
Lemma handleSymlink_reports f h : Runs (handleSymlink samePlatform ignores cfg f) h (fun h _ => reported h (Name f)).
Proof. unfold handleSymlink. reports. Qed.
Lemma deleteDir_reports f h : Runs (deleteDir samePlatform ignores cfg f) h (fun h _ => reported h (Name f)).
Proof. unfold deleteDir. reports. Qed.
Lemma deleteFileWithCurrent_reports f cur ok h :
  Runs (deleteFileWithCurrent samePlatform cfg f cur ok) h (fun h _ => reported h (Name f)).
Proof. unfold deleteFileWithCurrent. reports. Qed.
Lemma deleteFile_reports f h : Runs (deleteFile samePlatform cfg f) h (fun h _ => reported h (Name f)).
Proof. unfold deleteFile. reports. apply deleteFileWithCurrent_reports. Qed.
Lemma inWritableDir_with_spec {A} (P : A -> Prop) (d : A) fn n h : P d ->
  (forall h', Runs (fn n) h' (fun _ r => P r.2)) -> Runs (inWritableDir_with d fn n) h (fun _ r => P r.2).
Proof.
  intros Hd Hf. unfold inWritableDir_with. apply any_call. intros h1 [e|info] _; [done|].
  case_bool; [done|]. case_bool; [|apply Hf]. apply any_call. intros h2 [e|] _.
  - eapply safe_call; [apply Hf|]. by intros h3 r _ E.
  - eapply safe_call; [apply Hf|]. intros h3 r _ E. apply any_call. by intros h4 _ _.
Qed.
Lemma shortcutFile_reports f h : Runs (shortcutFile cfg f) h (fun h _ => reported h (Name f)).
Proof.
  unfold shortcutFile. apply any_call; intros ? ? _. apply any_call; intros ? [e|] _; [reports|].
  apply any_call; intros h1 [e|] _; [reports|].
  apply (safe_call _ _ _ (fun _ r => Name r.2 = Name f)).
  - case_bool; [|done]. apply (inWritableDir_with_spec (fun g => Name g = Name f)); [done|]. intros hh.
    split; [exact I|]. intros [e|n] _; [done|]. by split.
  - intros h2 [ [e|] f'] _ E; cbn in E; [reports|]. rewrite <- E. reports.
Qed.

Lemma checkParent_reports n h : Runs (checkParent cfg n) h (fun h ok => ok = false -> reported h n).
Proof.
  unfold checkParent. apply any_call; intros ? [e|] _.
  { split; [exact I|]. intros [] _ _. right. eexists. left. }
  split; [exact I|]. intros r _. next. case_bool; [done|]. split; [exact I|]. intros [e|] _.
  { split; [exact I|]. intros [] _ _. right. eexists. left. }
  apply any_call. by intros ? ? _.
Qed.

(** ** The loop over the needed items *)

Definition keys_are_names (s : pulling) : Prop := forall n f, fileDeletions s !! n = Some f -> Name f = n.
(** What was accounted for stays so. *)
Definition keeps (h h' : history) (s s' : pulling) : Prop := forall f, accounted h s f -> accounted h' s' f.

Lemma keeps_history h h' s : h ⊆ h' -> keeps h h' s s.
Proof.
  intros Hs f [H|[H|[H|H] ] ]; [by left| | |by do 3 right]; right.
  - left. by eapply reported_mono.
  - right; left. by apply Hs.
Qed.

Definition item_post (h : history) (s : pulling) (f : FileInfo) (h' : history) (r : disk_err + pulling) : Prop :=
  forall s', r = inr s' -> keys_are_names s' /\ keeps h h' s s' /\ accounted h' s' f.

Lemma needed_item_spec f s h : keys_are_names s ->
  Runs (needed_item samePlatform ignores cfg f s) h (item_post h s f).
Proof.
  intros Hk. unfold needed_item.
  assert (forall h', h ⊆ h' -> reported h' (Name f) -> item_post h s f h' (inr s)) as G.
  { intros h' Hs Hr s' [= <-]. split_and!; [done|by apply keeps_history|by right; left]. }
  assert (forall (p : prog unit), (forall h', Runs p h' (fun h _ => reported h (Name f))) -> forall h', h ⊆ h' ->
    Runs (_ ← p; mret (inr s)) h' (item_post h s f)) as GP.
  { intros p Hp h' Hs. eapply safe_call; [apply Hp|]. intros h2 [] Hs2 Hr. apply (G h2); [|done]. intros x Hx. by apply Hs2, Hs. }
  destruct (fc_IgnoreDelete cfg && IsDeleted f) eqn:E1.
  { apply andb_true_iff in E1. intros s' [= <-]. split_and!; [done|by apply keeps_history|by left]. }
  destruct (R_IsIgnored (ignores (Name f))); [apply GP; [|done]; intros h'; apply (send_update_reports (SetIgnored f))|].
  destruct (IsDeleted f) eqn:Ed.
  - destruct (IsDirectory f).
    { intros s' [= <-]. split_and!; [done| |].
      - intros g [H|[H|[H|[H|H] ] ] ]; [by left|by right; left|by do 2 right; left| |by do 4 right].
        do 3 right; left. apply elem_of_app. by left.
      - do 3 right; left. apply elem_of_app. right. by apply list_elem_of_singleton. }
    destruct (IsSymlink f); [apply GP; [apply deleteFile_reports|done]|].
    split; [exact I|]. intros [e|[df ok] ] _; [done|]. next. case_bool.
    + intros s' [= <-]. split_and!.
      * intros n g. cbn. rewrite lookup_insert. case_decide; [by intros [= <-]|apply Hk].
      * intros g Hg. assert (accounted (Event (GetDeviceFile (Name f)) (inr (df, ok)) :: h) s g) as [H|[H|[H|[H|H] ] ] ]
          by (eapply keeps_history; [|exact Hg]; intros x Hx; by right); [by left|by right; left|by do 2 right; left|by do 3 right; left|].
        do 4 right. cbn. rewrite lookup_insert. by case_decide.
      * do 4 right. cbn. by rewrite lookup_insert_eq.
    + apply GP; [intros h'; apply deleteFileWithCurrent_reports|intros x Hx; by right].
  - case_bool.
    + split; [exact I|]. intros [e|[cur has] ] _; [done|]. next. case_bool; [apply GP; [apply shortcutFile_reports|intros x Hx; by right]|].
      split; [exact I|]. intros [] _. intros s' [= <-]. split_and!; [done|apply keeps_history; intros x Hx; by do 2 right|].
      do 2 right; left. left.
    + case_bool.
      { apply any_call. intros h1 [e|] Hs; (apply GP; [|done]); intros h'; [apply pull_error_reports|].
        apply (send_update_reports (SetUnsupported f)). }
      assert (forall p : prog unit, (forall h', Runs p h' (fun h _ => reported h (Name f))) ->
        Runs (ok ← checkParent cfg (Name f); _ ← (if ok : bool then p else mret tt); mret (inr s)) h (item_post h s f)) as GC.
      { intros p Hp. eapply safe_call; [apply checkParent_reports|]. intros h1 [|] Hs Hr; [by apply GP|].
        by apply (G h1), Hr. }
      case_bool; [apply GC, handleDir_reports|]. case_bool; [apply GC, handleSymlink_reports|]. split; [exact I|]. by intros [].
Qed.

Lemma needed_loop_spec files s h : keys_are_names s ->
  Runs (needed_loop samePlatform ignores cfg files s) h (fun h' r => forall s', r = inr s' ->
    keys_are_names s' /\ keeps h h' s s' /\ forall f, inr f ∈ files -> accounted h' s' f).
Proof.
  revert s h. induction files as [|[e|f] files IH]; intros s h Hk; cbn [needed_loop].
  - intros s' [= <-]. split_and!; [done|by intros g Hg|]. by intros f ?%elem_of_nil.
  - done.
  - apply ctx_call. eapply safe_call; [by apply needed_item_spec|].
    intros h1 [e|s1] Hs Hi; [done|]. destruct (Hi s1 eq_refl) as (Hk1 & Hk2 & Ha).
    eapply safe_mono; [by apply IH|]. cbn. intros h2 r Hr s' ->. destruct (Hr s' eq_refl) as (H1 & H2 & H3).
    split_and!; [done| |].
    + intros g Hg. apply H2, Hk2. eapply keeps_history; [|exact Hg]. intros x Hx. by right.
    + intros g [E|Hin]%elem_of_cons; [simplify_eq; by apply H2|by apply H3].
Qed.

(** ** The queue and the deletions *)

Lemma rename_loop_spec fi s cs h : keys_are_names s ->
  Runs (rename_loop sha256 samePlatform ignores cfg fi (fileDeletions s) cs) h (fun h' r =>
    forall n, r.1 = Some n -> is_Some (fileDeletions s !! n) -> reported h' n).
Proof.
  intros Hk. revert h. induction cs as [|c cs IH]; intros h; cbn [rename_loop]; [done|].
  set (source := default emptyFileInfo (fileDeletions s !! Name c)).
  apply (safe_call _ _ _ (fun h' e => e = None -> reported h' (Name source))).
  - unfold renameFile. apply any_call. intros h1 [e|] _; [done|]. apply any_call. intros h2 [e|[cur ok] ] _; [done|].
    apply any_call. intros h3 [e|] _; [done|]. apply any_call. intros h4 [e|] _; [done|].
    apply any_call. intros h5 [e|] _; [done|]. eapply safe_call; [apply send_update_reports|]. by intros h6 [] _ Hr _.
  - intros h1 [e|] _ Hr; [apply IH|]. intros n [= <-] [f Hf]. specialize (Hr eq_refl). unfold source in Hr.
    rewrite Hf in Hr. cbn in Hr. by rewrite (Hk _ _ Hf) in Hr.
Qed.

Definition kept_post (h : history) (s : pulling) (h' : history) (r : disk_err + pulling) : Prop :=
  forall s', r = inr s' -> keys_are_names s' /\ keeps h h' s s'.
Lemma queued_file_spec n s h : keys_are_names s ->
  Runs (queued_file sha256 samePlatform ignores Reorder cfg n s) h (kept_post h s).
Proof.
  intros Hk. unfold queued_file.
  assert (forall h' s' , h ⊆ h' -> dirDeletions s' = dirDeletions s -> fileDeletions s' = fileDeletions s ->
    kept_post h s h' (inr s')) as G.
  { intros h' s' Hs E1 E2 s'' [= <-]. split; [intros m f; rewrite E2; apply Hk|].
    intros f Hf. apply (keeps_history h h' s Hs) in Hf. unfold accounted in *. by rewrite E1, E2. }
  assert (forall h' s', h ⊆ h' -> dirDeletions s' = dirDeletions s -> fileDeletions s' = fileDeletions s ->
    Runs (_ ← do_ (QueueDone n); mret (inr s')) h' (kept_post h s)) as GD.
  { intros h' s' Hs E1 E2. split; [exact I|]. intros [] _. apply G; [|done|done]. intros x Hx. right. by apply Hs. }
  apply any_call. intros h1 [e|[fi ok] ] Hs1; [done|]. case_bool; [by apply GD|]. case_bool; [by apply GD|].
  apply any_call. intros h2 parent Hs2. assert (h ⊆ h2) as Hh2 by (intros x Hx; by apply Hs2, Hs1).
  case_bool; [by apply GD|]. cbv zeta. eapply safe_call; [by apply rename_loop_spec|].
  intros h3 [ [renamed|] left_] Hs3 Hr; cbn [fst snd] in *.
  - split; [exact I|]. intros [] _. intros s' [= <-].
    assert (h ⊆ Event (QueueDone n) () :: h3) as Hh by (intros x Hx; right; by apply Hs3, Hh2). split.
    + intros m f. cbn. rewrite lookup_delete. case_decide; [done|apply Hk].
    + intros f Hf. apply (keeps_history _ _ s Hh) in Hf. destruct Hf as [H|[H|[H|[H|H] ] ] ];
        [by left|by right; left|by do 2 right; left|by do 3 right; left|].
      destruct (decide (renamed = Name f)) as [ -> |Hne].
      * right; left. eapply reported_mono; [|by apply (Hr (Name f))]. intros x Hx. by right.
      * do 4 right. cbn. by rewrite lookup_delete_ne.
  - assert (h ⊆ h3) as Hh3 by (intros x Hx; by apply Hs3, Hh2).
    apply any_call. intros h4 available Hs4. assert (h ⊆ h4) as Hh4 by (intros x Hx; by apply Hs4, Hh3).
    case_bool; [apply any_call; intros h5 [] Hs5; apply GD; [|done|done]; intros x Hx; by apply Hs5, Hh4|].
    apply any_call. intros h5 [e|] Hs5.
    + apply any_call. intros h6 [] Hs6. apply GD; [|done|done]. intros x Hx. by apply Hs6, Hs5, Hh4.
    + apply any_call. intros h6 e Hs6. apply any_call. intros h7 [] Hs7. apply G; [|done|done].
      intros x Hx. by apply Hs7, Hs6, Hs5, Hh4.
Qed.

Lemma queue_loop_spec fuel s h : keys_are_names s ->
  Runs (queue_loop sha256 samePlatform ignores Reorder cfg fuel s) h (fun h' r => r.2 = None ->
    keys_are_names r.1 /\ keeps h h' s r.1).
Proof.
  revert s h. induction fuel as [|fuel IH]; intros s h Hk; cbn [queue_loop]; [by intros _; split; [|intros f Hf]|].
  apply any_call. intros h1 [e|] Hs1; [done|]. apply any_call. intros h2 [n|] Hs2.
  - eapply safe_call; [by apply queued_file_spec|]. intros h3 [e|s'] _ Hq; [done|].
    destruct (Hq s' eq_refl) as [Hk' Hkeep]. eapply safe_mono; [by apply IH|]. cbn. intros h4 r Hr E.
    destruct (Hr E) as [H1 H2]. split; [done|]. intros f Hf. apply H2, Hkeep. eapply keeps_history; [|exact Hf].
    intros x Hx. by apply Hs2, Hs1.
  - intros _. split; [done|]. apply keeps_history. intros x Hx. by apply Hs2, Hs1.
Qed.

Lemma until_stopped_spec act fs h : (forall f h, Runs (act f) h (fun h _ => reported h (Name f))) ->
  Runs (until_stopped act fs) h (fun h' go => h ⊆ h' /\ go = true /\ forall f, f ∈ fs -> reported h' (Name f)).
Proof.
  intros Hact. revert h. induction fs as [|f fs IH]; intros h; cbn [until_stopped].
  { split_and!; [done|done|]. by intros f ?%elem_of_nil. }
  apply ctx_call. eapply safe_call; [apply Hact|]. intros h1 [] Hs Hr.
  eapply safe_mono; [apply IH|]. cbn. intros h2 go (Hs2 & -> & Hall).
  split_and!; [intros x Hx; apply Hs2, Hs; by right|done|]. intros g [-> |Hin]%elem_of_cons; [|by apply Hall].
  by eapply reported_mono.
Qed.

(** C13: Nothing that is needed is forgotten without a sign: when an iteration of
    the puller ends without an error, and none of its looks at the context found
    it cancelled, every item the database listed as needed was reported as
    updated or as an error, or was put into the queue of files.  Two exceptions:
    deletions are left out in a folder that ignores deletions, and an iteration
    that is cancelled while it handles the deletions also ends without an error
    and may leave some of them out. *)
Theorem needed_accounted fuel h (Hrun : runs (pullerIteration sha256 samePlatform ignores Reorder range cfg fuel) [] h None)
    (Hp : all_plausible not_cancelled h) :
  exists files, Event AllNeededGlobalFiles files ∈ h /\
    forall f, inr f ∈ files ->
      (fc_IgnoreDelete cfg = true /\ IsDeleted f = true) \/ reported h (Name f) \/ queued h f.
Proof using Hrange.
  enough (Runs (pullerIteration sha256 samePlatform ignores Reorder range cfg fuel) [] (fun h r => r = None ->
    exists files, Event AllNeededGlobalFiles files ∈ h /\
    forall f, inr f ∈ files -> (fc_IgnoreDelete cfg = true /\ IsDeleted f = true) \/ reported h (Name f) \/ queued h f)) as Hs
    by (eapply safe_runs in Hs as [_ Hs]; [by apply Hs|done..]).
  unfold pullerIteration.
  apply (safe_call _ _ _ (fun h' r => r.2 = None -> exists files, Event AllNeededGlobalFiles files ∈ h' /\
    keys_are_names r.1 /\ forall f, inr f ∈ files -> accounted h' r.1 f)).
  - unfold processNeeded. split; [exact I|]. intros files _. cbn beta.
    apply (safe_call _ _ _ (fun h' r => Event AllNeededGlobalFiles files ∈ h' /\ forall s, r = inr s ->
      keys_are_names s /\ forall f, inr f ∈ files -> accounted h' s f)).
    { eapply safe_mono; [apply safe_extends, needed_loop_spec; by intros n f|]. cbn. intros h1 r [Hs Hr].
      split; [apply Hs; left|]. intros s E. by destruct (Hr s E) as (? & _ & ?). }
    intros h1 [e|s] Hs1 [Hin Hl]; [done|]. destruct (Hl s eq_refl) as (Hk & Ha). apply ctx_call.
    eapply safe_mono; [by apply safe_extends, queue_loop_spec|]. cbn. intros h2 r [Hs2 Hr] E.
    destruct (Hr E) as [H1 H2]. exists files. split_and!; [apply Hs2; by right|done|]. intros f Hf. apply H2.
    eapply keeps_history; [|by apply Ha]. intros x Hx. by right.
  - intros h1 [s [e|] ] _ Hr; [done|]. cbn in Hr. destruct (Hr eq_refl) as (files & Hin & Hk & Ha).
    unfold processDeletions.
    apply (safe_call _ _ _ (fun h2 _ => h1 ⊆ h2 /\ forall f, f ∈ dirDeletions s \/ is_Some (fileDeletions s !! Name f) -> reported h2 (Name f))).
    + eapply safe_call; [apply until_stopped_spec, deleteFile_reports|]. intros h2 go Hs2 (_ & -> & Hf).
      eapply safe_call; [apply until_stopped_spec, deleteDir_reports|]. intros h3 go Hs3 (_ & -> & Hd).
      cbn. split; [intros x Hx; by apply Hs3, Hs2|]. intros f [H|[g Hg] ]; [by apply Hd, elem_of_reverse|].
      eapply reported_mono; [exact Hs3|]. rewrite <- (Hk _ _ Hg). by eapply Hf, Hrange.
    + intros h2 [] _ [Hs Hd]. cbn. intros _. exists files. split; [by apply Hs|]. intros f Hf.
      destruct (Ha f Hf) as [H|[H|[H|H] ] ]; [by left|right; left|do 2 right|right; left].
      * by eapply reported_mono.
      * by apply Hs.
      * by apply Hd.
Qed.
End Accounted.

(** ** A concrete iteration: a directory that vanishes once it is made, a deletion, a new file *)

Definition ex_dir_item : FileInfo := ex_item (gostr "docs") FileInfoTypeDirectory 128 0 false 2.
Definition ex_new_file : FileInfo := ex_item (gostr "new.txt") FileInfoTypeFile 7 0 false 2.
Definition ex_respond (c : call) : option (answer c) :=
  match c return option (answer c) with
  | AllNeededGlobalFiles => Some [inr ex_dir_item; inr ex_deleted_file; inr ex_new_file]
  | c => ex_answers ex_local_file (ex_lstat (inr ex_file_stat)) (fun _ => None) [] c
  end.
Definition ex_range (m : gmap bytes FileInfo) : list FileInfo := map snd (map_to_list m).
Lemma ex_range_all m n f : m !! n = Some f -> f ∈ ex_range m.
Proof. intros H. apply list_elem_of_fmap. exists (n, f). split; [done|]. by apply elem_of_map_to_list. Qed.
Definition ex_iteration : option (history * option disk_err) :=
  exec ex_respond (pullerIteration (fun s => s) ex_same ex_ignores id ex_range (ex_cfg false) 3) [].
Definition ex_iteration_history : history := match ex_iteration with Some (h, _) => h | None => [] end.
Lemma ex_iteration_ends : ex_iteration = Some (ex_iteration_history, None).
Proof.
  unfold ex_iteration_history. assert ((snd <$> ex_iteration) = Some None) as H by (vm_compute; reflexivity).
  destruct ex_iteration as [ [h e]|]; [|done]. cbn in *. by simplify_eq.
Qed.

Theorem needed_accounted_witness :
  updates ex_iteration_history = [(notes, dbUpdateDeleteFile)] /\ errors ex_iteration_history = [gostr "docs"] /\
  exists files, Event AllNeededGlobalFiles files ∈ ex_iteration_history /\
    forall f, inr f ∈ files -> (fc_IgnoreDelete (ex_cfg false) = true /\ IsDeleted f = true) \/
      reported ex_iteration_history (Name f) \/ queued ex_iteration_history f.
Proof.
  split; [vm_compute; reflexivity|]. split; [vm_compute; reflexivity|].
  apply (needed_accounted (fun s => s) ex_same ex_ignores id ex_range ex_range_all (ex_cfg false) 3).
  - apply (exec_runs _ _ _ _ _ ex_iteration_ends).
  - refine (exec_plausible _ _ _ _ _ _ _ ex_iteration_ends _); [|constructor].
    intros [] r; try (intros _; exact I). by intros [= <-].
Defined.
