(* ===== verification/Downloads.v ===== *)
(** * Download progress (lib/model/devicedownloadstate.go, sentdownloadstate.go,
    progressemitter.go, lib/protocol/bep_download_progress.go)

    A device tells its peers which blocks of unfinished files it has, so that
    they can ask for them.  The sender remembers what it has told each peer and
    sends differences; the receiver rebuilds the state from them.  A pointer to
    a puller is its current state, given anew at each computation. *)
From Stdlib Require Import ZArith List Lia.
From Stdlib Require Import Strings.Byte.
From stdpp Require Import base list option gmap numbers tactics.
From S2P Require Import Prelude GoLib Vector FileInfo FileInfoWire PullState.

#[local] Open Scope Z_scope.

(** ** Messages *)

Inductive FileDownloadProgressUpdateType :=
| FileDownloadProgressUpdateTypeAppend
| FileDownloadProgressUpdateTypeForget.
#[export] Instance update_type_eq_dec : EqDecision FileDownloadProgressUpdateType.
Proof. solve_decision. Defined.

Record FileDownloadProgressUpdate :=
  { UpdateType : FileDownloadProgressUpdateType; uName : bytes; uVersion : Vector; BlockIndexes : list Z;
    uBlockSize : Z }.
(** The generated message. *)
Record bep_FileDownloadProgressUpdate :=
  { bUpdateType : FileDownloadProgressUpdateType; buName : bytes; buVersion : option (list bep_Counter);
    bBlockIndexes : list Z; buBlockSize : Z }.

Definition update_toWire (f : FileDownloadProgressUpdate) : bep_FileDownloadProgressUpdate :=
  {| bUpdateType := UpdateType f; buName := uName f; buVersion := Vector_ToWire (uVersion f);
     bBlockIndexes := map i32 (BlockIndexes f); buBlockSize := i32 (uBlockSize f) |}.
Definition fileDownloadProgressUpdateFromWire (w : bep_FileDownloadProgressUpdate) : FileDownloadProgressUpdate :=
  {| UpdateType := bUpdateType w; uName := buName w; uVersion := VectorFromWire (buVersion w);
     BlockIndexes := bBlockIndexes w; uBlockSize := buBlockSize w |}.

Record DownloadProgress := { dpFolder : bytes; Updates : list FileDownloadProgressUpdate }.
Definition downloadProgress_toWire (d : DownloadProgress) : bytes * list bep_FileDownloadProgressUpdate :=
  (dpFolder d, map update_toWire (Updates d)).
Definition downloadProgressFromWire (w : bytes * list bep_FileDownloadProgressUpdate) : DownloadProgress :=
  {| dpFolder := w.1; Updates := map fileDownloadProgressUpdateFromWire w.2 |}.

(** ** The receiver *)

Record deviceFolderFileDownloadState := { dBlockIndexes : list Z; dVersion : Vector; dBlockSize : Z }.
Abbreviation deviceFolderDownloadState := (gmap bytes deviceFolderFileDownloadState).

Definition folder_Has (p : deviceFolderDownloadState) (file : bytes) (version : Vector) (index : Z) : bool :=
  match p !! file with
  | None => false
  | Some local => if Vector_Equal (dVersion local) version then bool_decide (index ∈ dBlockIndexes local) else false
  end.

Definition folder_Update1 (p : deviceFolderDownloadState) (u : FileDownloadProgressUpdate) : deviceFolderDownloadState :=
  let local := p !! uName u in
  match UpdateType u with
  | FileDownloadProgressUpdateTypeForget =>
      match local with
      | Some l => if Vector_Equal (dVersion l) (uVersion u) then delete (uName u) p else p
      | None => p
      end
  | FileDownloadProgressUpdateTypeAppend =>
      <[uName u := match local with
        | None => {| dBlockIndexes := BlockIndexes u; dVersion := uVersion u; dBlockSize := uBlockSize u |}
        | Some l =>
            if negb (Vector_Equal (dVersion l) (uVersion u))
            then {| dBlockIndexes := BlockIndexes u; dVersion := uVersion u; dBlockSize := uBlockSize u |}
            else {| dBlockIndexes := dBlockIndexes l ++ BlockIndexes u; dVersion := dVersion l;
                    dBlockSize := dBlockSize l |}
        end]> p
  end.
Definition folder_Update (p : deviceFolderDownloadState) (updates : list FileDownloadProgressUpdate) :
  deviceFolderDownloadState := foldl folder_Update1 p updates.

Definition file_bytes (st : deviceFolderFileDownloadState) : Z :=
  i64 (zlen (dBlockIndexes st) * (if negb (dBlockSize st =? 0) then dBlockSize st else MinBlockSize)).
Definition folder_BytesDownloaded (p : deviceFolderDownloadState) : Z :=
  map_fold (fun _ st res => i64 (res + file_bytes st)) 0 p.
Definition folder_GetBlockCounts (p : deviceFolderDownloadState) : gmap bytes Z :=
  (fun st => zlen (dBlockIndexes st)) <$> p.

(** A nil pointer is [None]. *)
Abbreviation deviceDownloadState := (gmap bytes deviceFolderDownloadState).
Definition newDeviceDownloadState : deviceDownloadState := ∅.
Definition downloads_Update (t : option deviceDownloadState) (folder : bytes)
    (updates : list FileDownloadProgressUpdate) : option deviceDownloadState :=
  t ← t; Some (<[folder := folder_Update (default ∅ (t !! folder)) updates]> t).
Definition downloads_Has (t : option deviceDownloadState) (folder file : bytes) (version : Vector) (index : Z) : bool :=
  match t with
  | None => false
  | Some t => match t !! folder with None => false | Some f => folder_Has f file version index end
  end.
Definition downloads_GetBlockCounts (t : option deviceDownloadState) (folder : bytes) : option (gmap bytes Z) :=
  t ← t; folder_GetBlockCounts <$> (t !! folder).
Definition downloads_BytesDownloaded (t : option deviceDownloadState) (folder : bytes) : Z :=
  default 0 (t ← t; folder_BytesDownloaded <$> (t !! folder)).

(** ** The sender *)

Record sentFolderFileDownloadState :=
  { sBlockIndexes : list Z; sVersion : Vector; sUpdated : GoTime; sCreated : GoTime; sBlockSize : Z }.
Abbreviation sentFolderDownloadState := (gmap bytes sentFolderFileDownloadState).

Definition appendUpdate (name : bytes) (v : Vector) (is_ : list Z) (bs : Z) : FileDownloadProgressUpdate :=
  {| UpdateType := FileDownloadProgressUpdateTypeAppend; uName := name; uVersion := v; BlockIndexes := is_;
     uBlockSize := bs |}.
Definition forgetUpdate (name : bytes) (v : Vector) : FileDownloadProgressUpdate :=
  {| UpdateType := FileDownloadProgressUpdateTypeForget; uName := name; uVersion := v; BlockIndexes := [];
     uBlockSize := 0 |}.

Section Sender.
Context {Fd E : Type}.
Abbreviation puller := (sharedPullerState Fd E).
(** The order in which a map is iterated over. *)
Context (iter : forall A, gmap bytes A -> list (bytes * A)).
Arguments iter {A}.

(** A puller is looked at twice, with its lock released in between: when its
    blocks are read, and when the time of the last of them is.  What else is
    read of it never changes. *)
Record reading := { at_Available : puller; at_AvailableUpdated : puller }.
Definition r_name (p : reading) : bytes := Name (file (at_Available p)).
Definition r_version (p : reading) : Vector := Version (file (at_Available p)).
Definition r_blocks (p : reading) : list Z := available (at_Available p).
Definition r_updated (p : reading) : GoTime := availableUpdated (at_AvailableUpdated p).
Definition r_created (p : reading) : GoTime := created (at_AvailableUpdated p).
Definition r_blockSize (p : reading) : Z := FileInfo_BlockSize (file (at_AvailableUpdated p)).

(** What is remembered of a puller that has been told of. *)
Definition snapshot (p : reading) : sentFolderFileDownloadState :=
  {| sBlockIndexes := r_blocks p; sVersion := r_version p; sUpdated := r_updated p; sCreated := r_created p;
     sBlockSize := r_blockSize p |}.

(** One round of the loop over the pullers: the new state and what to send. *)
Definition update_puller (s : sentFolderDownloadState) (p : reading) :
  outcome unit (sentFolderDownloadState * list FileDownloadProgressUpdate) :=
  let name := r_name p in
  let pullerBlockIndexes := r_blocks p in
  let pullerVersion := r_version p in
  let pullerBlockIndexesUpdated := r_updated p in
  let pullerCreated := r_created p in
  let pullerBlockSize := r_blockSize p in
  match s !! name with
  | None =>
      if (0 <? zlen pullerBlockIndexes)
      then Ret (<[name := snapshot p]> s, [appendUpdate name pullerVersion pullerBlockIndexes pullerBlockSize])
      else Ret (s, [])
  | Some l =>
      if time_Equal pullerBlockIndexesUpdated (sUpdated l) && Vector_Equal pullerVersion (sVersion l) then Ret (s, [])
      else if negb (Vector_Equal pullerVersion (sVersion l)) || negb (time_Equal pullerCreated (sCreated l))
      then Ret (<[name := snapshot p]> s,
                [forgetUpdate name (sVersion l); appendUpdate name pullerVersion pullerBlockIndexes pullerBlockSize])
      else if (length pullerBlockIndexes <? length (sBlockIndexes l))%nat then Panic
      else
        let newBlocks := drop (length (sBlockIndexes l)) pullerBlockIndexes in
        let l' := {| sBlockIndexes := sBlockIndexes l ++ newBlocks; sVersion := sVersion l;
                     sUpdated := pullerBlockIndexesUpdated; sCreated := sCreated l; sBlockSize := sBlockSize l |} in
        Ret (<[name := l']> s,
             if (0 <? zlen newBlocks) then [appendUpdate name (sVersion l) newBlocks pullerBlockSize] else [])
  end.
Fixpoint update_loop (s : sentFolderDownloadState) (pullers : list reading) :
  outcome unit (sentFolderDownloadState * list FileDownloadProgressUpdate) :=
  match pullers with
  | [] => Ret (s, [])
  | p :: pullers =>
      '(s, us) ← update_puller s p;
      '(s, us') ← update_loop s pullers;
      Ret (s, us ++ us')
  end.
(** The files without a puller any more. *)
Definition forget_unseen (seen : list bytes) (s : sentFolderDownloadState) :
  sentFolderDownloadState * list FileDownloadProgressUpdate :=
  (filter (fun kv => kv.1 ∈ seen) s,
   map (fun kv => forgetUpdate kv.1 (sVersion kv.2)) (iter (filter (fun kv => kv.1 ∉ seen) s))).
Definition sent_update (s : sentFolderDownloadState) (pullers : list reading) :
  outcome unit (sentFolderDownloadState * list FileDownloadProgressUpdate) :=
  '(s, us) ← update_loop s pullers;
  let '(s, us') := forget_unseen (map r_name pullers) s in
  Ret (s, us ++ us').
Definition destroy (s : sentFolderDownloadState) : list FileDownloadProgressUpdate :=
  map (fun kv => forgetUpdate kv.1 (sVersion kv.2)) (iter s).

Abbreviation sentDownloadState := (gmap bytes sentFolderDownloadState).
Definition states_update (s : sentDownloadState) (folder : bytes) (pullers : list reading) :
  outcome unit (sentDownloadState * list FileDownloadProgressUpdate) :=
  '(fs, us) ← sent_update (default ∅ (s !! folder)) pullers;
  Ret (<[folder := fs]> s, us).
Definition cleanup (s : sentDownloadState) (folder : bytes) : sentDownloadState * list FileDownloadProgressUpdate :=
  match s !! folder with
  | Some fs => (delete folder s, destroy fs)
  | None => (s, [])
  end.

(** ** The progress emitter *)

(** Pullers are referred to by numbers; [reads] are the states in which the
    computation for a connection finds them. *)
Record ProgressEmitter :=
  { registry : gmap bytes (gmap bytes positive); interval : Z; minBlocks : Z;
    sentDownloadStates : gmap bytes sentDownloadState; connections : gset bytes;
    foldersByConns : gmap bytes (list bytes); disabled : bool }.
Definition set_registry (r : gmap bytes (gmap bytes positive)) (t : ProgressEmitter) : ProgressEmitter :=
  {| registry := r; interval := interval t; minBlocks := minBlocks t; sentDownloadStates := sentDownloadStates t;
     connections := connections t; foldersByConns := foldersByConns t; disabled := disabled t |}.
Definition set_sent (r : gmap bytes sentDownloadState) (t : ProgressEmitter) : ProgressEmitter :=
  {| registry := registry t; interval := interval t; minBlocks := minBlocks t; sentDownloadStates := r;
     connections := connections t; foldersByConns := foldersByConns t; disabled := disabled t |}.

Record progressUpdate := { pu_conn : bytes; pu_folder : bytes; pu_updates : list FileDownloadProgressUpdate }.

(** The pullers of a folder that are told of; [puller.folder] is the folder it
    is registered under. *)
Definition activePullers (reads : positive -> reading) (minBlocks : Z) (pullers : gmap bytes positive) : list reading :=
  List.filter (fun p => let file := file (at_Available p) in
      negb (IsSymlink file || IsDirectory file || (zlen (Blocks file) <=? minBlocks)))
    (map (fun kv => reads kv.2) (iter pullers)).

Fixpoint updates_folders (reads : bytes -> positive -> reading) (id : bytes) (folders : list bytes) (t : ProgressEmitter) :
  outcome unit (ProgressEmitter * list progressUpdate) :=
  match folders with
  | [] => Ret (t, [])
  | folder :: folders =>
      match registry t !! folder with
      | None => updates_folders reads id folders t
      | Some pullers =>
          '(st, us) ← states_update (default ∅ (sentDownloadStates t !! id)) folder
                        (activePullers (reads id) (minBlocks t) pullers);
          '(t, rest) ← updates_folders reads id folders (set_sent (<[id := st]> (sentDownloadStates t)) t);
          Ret (t, (if (0 <? zlen us) then [{| pu_conn := id; pu_folder := folder; pu_updates := us |}] else []) ++ rest)
      end
  end.
Fixpoint updates_conns (reads : bytes -> positive -> reading) (ids : list bytes) (t : ProgressEmitter) :
  outcome unit (ProgressEmitter * list progressUpdate) :=
  match ids with
  | [] => Ret (t, [])
  | id :: ids =>
      '(t, us) ← updates_folders reads id (default [] (foldersByConns t !! id)) t;
      '(t, us') ← updates_conns reads ids t;
      Ret (t, us ++ us')
  end.
(** The folders that are not shared with the device any more are dropped. *)
Definition drop_unshared (shared : list bytes) (s : sentDownloadState) : sentDownloadState :=
  foldl (fun s folder => if bool_decide (folder ∈ shared) then s else (cleanup s folder).1) s (map fst (iter s)).
Definition computeProgressUpdates (reads : bytes -> positive -> reading) (t : ProgressEmitter) :
  outcome unit (ProgressEmitter * list progressUpdate) :=
  '(t, us) ← updates_conns reads (elements (connections t)) t;
  let sent := filter (fun kv => kv.1 ∈ connections t) (sentDownloadStates t) in
  let sent := map_imap (fun id s => Some (drop_unshared (default [] (foldersByConns t !! id)) s)) sent in
  Ret (set_sent sent t, us).

Definition Register (folder name : bytes) (s : positive) (t : ProgressEmitter) : ProgressEmitter :=
  if disabled t then t
  else set_registry (<[folder := <[name := s]> (default ∅ (registry t !! folder))]> (registry t)) t.
Definition Deregister (folder name : bytes) (t : ProgressEmitter) : ProgressEmitter :=
  if disabled t then t else set_registry (alter (delete name) folder (registry t)) t.
Definition lenRegistryLocked (t : ProgressEmitter) : Z :=
  map_fold (fun _ (pullers : gmap bytes positive) out => out + Z.of_nat (size pullers)) 0 (registry t).
Definition BytesCompleted (store : positive -> puller) (folder : bytes) (t : ProgressEmitter) : Z :=
  map_fold (fun _ r res => i64 (res + BytesDone (Progress (store r)))) 0 (default ∅ (registry t !! folder)).
Definition temporaryIndexSubscribe (id : bytes) (folders : list bytes) (t : ProgressEmitter) : ProgressEmitter :=
  {| registry := registry t; interval := interval t; minBlocks := minBlocks t;
     sentDownloadStates := sentDownloadStates t; connections := {[id]} ∪ connections t;
     foldersByConns := <[id := folders]> (foldersByConns t); disabled := disabled t |}.
Definition temporaryIndexUnsubscribe (id : bytes) (t : ProgressEmitter) : ProgressEmitter :=
  {| registry := registry t; interval := interval t; minBlocks := minBlocks t;
     sentDownloadStates := sentDownloadStates t; connections := connections t ∖ {[id]};
     foldersByConns := delete id (foldersByConns t); disabled := disabled t |}.
(** What is sent to the connected devices, and the empty emitter. *)
Definition clear_updates (t : ProgressEmitter) : list progressUpdate :=
  flat_map (fun kv : bytes * sentDownloadState =>
    if bool_decide (kv.1 ∈ connections t) then
      flat_map (fun fs : bytes * sentFolderDownloadState =>
        let us := destroy fs.2 in
        if (0 <? zlen us) then [{| pu_conn := kv.1; pu_folder := fs.1; pu_updates := us |}] else []) (iter kv.2)
    else []) (iter (sentDownloadStates t)).
Definition clearLocked (t : ProgressEmitter) : ProgressEmitter * list progressUpdate :=
  ({| registry := ∅; interval := interval t; minBlocks := minBlocks t; sentDownloadStates := ∅; connections := ∅;
      foldersByConns := ∅; disabled := disabled t |}, clear_updates t).
Definition second : Z := 1000000000.
Definition CommitConfiguration (ProgressUpdateIntervalS TempIndexMinBlocks : Z) (t : ProgressEmitter) :
  ProgressEmitter * list progressUpdate :=
  let newInterval := i64 (ProgressUpdateIntervalS * second) in
  let '(t, us) :=
    if 0 <? newInterval then
      ({| registry := registry t; interval := newInterval; minBlocks := minBlocks t;
          sentDownloadStates := sentDownloadStates t; connections := connections t;
          foldersByConns := foldersByConns t; disabled := false |}, [])
    else if negb (disabled t) then
      let '(t, us) := clearLocked t in
      ({| registry := registry t; interval := interval t; minBlocks := minBlocks t;
          sentDownloadStates := sentDownloadStates t; connections := connections t;
          foldersByConns := foldersByConns t; disabled := true |}, us)
    else (t, []) in
  ({| registry := registry t; interval := if interval t <? second then second else interval t;
      minBlocks := TempIndexMinBlocks; sentDownloadStates := sentDownloadStates t; connections := connections t;
      foldersByConns := foldersByConns t; disabled := disabled t |}, us).
End Sender.
