(* ===== verification/DownloadsProps.v ===== *)
(** * Download progress: what is proved of it *)
From Stdlib Require Import ZArith List Lia.
From Stdlib Require Import Strings.Byte.
From stdpp Require Import base list option gmap numbers tactics.
From S2P Require Import Prelude GoLib Vector FileInfo FileInfoWire PullState Downloads.

#[local] Open Scope Z_scope.

(** ** The wire *)

Definition received (us : list FileDownloadProgressUpdate) : list FileDownloadProgressUpdate :=
  map fileDownloadProgressUpdateFromWire (map update_toWire us).
Definition update_fits (u : FileDownloadProgressUpdate) : Prop :=
  Forall in_i32 (BlockIndexes u) /\ in_i32 (uBlockSize u).

Lemma received_id us : Forall update_fits us -> received us = us.
Proof.
  unfold received. rewrite map_map. induction 1 as [|u us [Hi Hs] _ IH]; cbn; [done|]. rewrite IH. f_equal.
  unfold fileDownloadProgressUpdateFromWire, update_toWire. cbn [bUpdateType buName buVersion bBlockIndexes buBlockSize].
  rewrite version_roundtrip. unfold in_i32 in *. rewrite (iN_small 32 (uBlockSize u)) by lia.
  destruct u as [ut n v bi bs]; cbn in *. f_equal. induction Hi as [|z bi Hz _ IHb]; cbn; [done|].
  rewrite IHb. by rewrite (iN_small 32 z) by lia.
Qed.

(** ** The life of a puller *)

Section Sync.
Context {Fd E : Type} {W : Type} {FS : Filesystem W Fd E}.
Abbreviation puller := (sharedPullerState Fd E).

(** What every method of a puller keeps, and that blocks are only added. *)
Record evolves (p p' : puller) : Prop := {
  ev_created : created p' = created p;
  ev_name : Name (file p') = Name (file p);
  ev_version : Version (file p') = Version (file p);
  ev_blockSize : FileInfo_BlockSize (file p') = FileInfo_BlockSize (file p);
  ev_available : available p `prefix_of` available p' }.
#[export] Instance evolves_preorder : PreOrder evolves.
Proof.
  split; [by constructor|]. intros p q r [] []. constructor; [congruence..|]. by etrans.
Qed.

Lemma evolves_set_status e w c p : evolves p (set_status e w c p).
Proof. by constructor. Qed.
Lemma evolves_failLocked e p : evolves p (failLocked e p).
Proof. unfold failLocked. repeat case_match; by constructor. Qed.
Lemma evolves_copyDone now b p : evolves p (copyDone now b p).
Proof. constructor; try done. by apply prefix_app_r. Qed.
Lemma evolves_pullDone now b p : evolves p (pullDone now b p).
Proof. constructor; try done. by apply prefix_app_r. Qed.
Lemma evolves_counters ct pt co cn pn now p : evolves p (set_counters ct pt co cn pn now p).
Proof. by constructor. Qed.
Lemma evolves_tempFile Dir protoSize p w : evolves p (tempFile Dir protoSize p w).1.1.
Proof.
  unfold tempFile. repeat case_match; cbn [fst]; try done; subst.
  all: match goal with H : addWriterLocked _ _ _ _ = _ |- _ => revert H | _ => idtac end.
  all: unfold addWriterLocked; repeat case_match; intros; simplify_eq/=; try done;
    first [by constructor | etrans; [|apply evolves_failLocked]; by constructor].
Qed.

(** The same puller later: it has new blocks only at another time. *)
Definition later (p p' : puller) : Prop :=
  evolves p p' /\ (time_Equal (availableUpdated p') (availableUpdated p) = true -> available p' = available p).
Abbreviation reading := (reading (Fd := Fd) (E := E)).
Definition good_reading (r : reading) : Prop := later (at_Available r) (at_AvailableUpdated r).
(** No block landed between the two looks. *)
Definition steady (r : reading) : Prop := available (at_AvailableUpdated r) = available (at_Available r).
(** [r'] comes after [r] for the same file: it is of the same puller later, or
    of another one, with another time of creation and of its last block. *)
Definition succeeds (r r' : reading) : Prop :=
  (later (at_AvailableUpdated r) (at_Available r') /\ later (at_AvailableUpdated r) (at_AvailableUpdated r')) \/
  (time_Equal (r_created r') (r_created r) = false /\ time_Equal (r_updated r') (r_updated r) = false).

Definition puller_fits (p : reading) : Prop := Forall in_i32 (r_blocks p) /\ in_i32 (r_blockSize p).

(** ** One computation *)

(** What the receiver should know of what the sender remembers. *)
Definition dview (s : sentFolderDownloadState) : deviceFolderDownloadState :=
  (fun l => {| dBlockIndexes := sBlockIndexes l; dVersion := sVersion l; dBlockSize := sBlockSize l |}) <$> s.

(** What is remembered of a puller are some of its blocks, and all of them where
    no block landed between the two looks of the reading it stems from. *)
Definition told (past : list reading) (s : sentFolderDownloadState) (p : reading) : Prop :=
  match s !! r_name p with
  | None => r_blocks p = []
  | Some l => sVersion l = r_version p /\ sBlockIndexes l `prefix_of` r_blocks p /\
      exists q, q ∈ past /\ r_name q = r_name p /\ (steady q -> sBlockIndexes l = r_blocks p)
  end.
(** Every entry is a snapshot of a reading in [past]. *)
Definition from_past (past : list reading) (s : sentFolderDownloadState) : Prop :=
  forall n l, s !! n = Some l -> exists p, p ∈ past /\ good_reading p /\ r_name p = n /\ l = snapshot p.
Lemma told_mono past past' s p : past ⊆ past' -> told past s p -> told past' s p.
Proof.
  unfold told. intros Hp. destruct (s !! r_name p); [|done]. intros (H1 & H2 & q & Hq & H3). split; [done|]. split; [done|].
  exists q. split; [by apply Hp|done].
Qed.

Lemma time_Equal_refl t : time_Equal t t = true.
Proof. unfold time_Equal. by rewrite !Z.eqb_refl. Qed.

Lemma zlen_pos {A} (l : list A) : (0 <? zlen l) = negb (is_nil l).
Proof. by destruct l. Qed.

Lemma dview_insert n l s :
  dview (<[n := l]> s) =
    <[n := {| dBlockIndexes := sBlockIndexes l; dVersion := sVersion l; dBlockSize := sBlockSize l |}]> (dview s).
Proof. unfold dview. by rewrite fmap_insert. Qed.

(** Receiving a forget and an append for the same file replaces the entry. *)
Lemma recv_append (p : reading) s :
  s !! r_name p = None ->
  folder_Update1 (dview s) (appendUpdate (r_name p) (r_version p) (r_blocks p) (r_blockSize p))
    = dview (<[r_name p := snapshot p]> s).
Proof.
  intros H. unfold folder_Update1. cbn [UpdateType uName appendUpdate uVersion BlockIndexes uBlockSize].
  unfold dview at 1 2. rewrite lookup_fmap, H. cbn [fmap option_fmap option_map]. by rewrite dview_insert.
Qed.
Lemma recv_replace (p : reading) s l :
  s !! r_name p = Some l ->
  foldl folder_Update1 (dview s)
    [forgetUpdate (r_name p) (sVersion l);
     appendUpdate (r_name p) (r_version p) (r_blocks p) (r_blockSize p)]
    = dview (<[r_name p := snapshot p]> s).
Proof.
  intros H. cbn [foldl].
  assert (folder_Update1 (dview s) (forgetUpdate (r_name p) (sVersion l)) = dview (delete (r_name p) s)) as ->.
  { unfold folder_Update1. cbn [UpdateType uName forgetUpdate uVersion]. unfold dview at 1. rewrite lookup_fmap, H.
    cbn [fmap option_fmap option_map dVersion]. rewrite Vector_Equal_refl. unfold dview. by rewrite fmap_delete. }
  rewrite recv_append by apply lookup_delete_eq. by rewrite insert_delete_eq.
Qed.
Lemma recv_more (s : sentFolderDownloadState) n l new bs t t' :
  s !! n = Some l ->
  folder_Update1 (dview s) (appendUpdate n (sVersion l) new bs)
    = dview (<[n := {| sBlockIndexes := sBlockIndexes l ++ new; sVersion := sVersion l; sUpdated := t; sCreated := t';
                       sBlockSize := sBlockSize l |}]> s).
Proof.
  intros H. unfold folder_Update1. cbn [UpdateType uName appendUpdate uVersion BlockIndexes uBlockSize].
  unfold dview at 1 2. rewrite lookup_fmap, H. cbn [fmap option_fmap option_map dVersion dBlockIndexes dBlockSize].
  rewrite Vector_Equal_refl. cbn [negb]. by rewrite dview_insert.
Qed.

(** What is known of a puller that was told of before. *)
Lemma succeeds_later q p : good_reading q -> good_reading p ->
  later (at_AvailableUpdated q) (at_Available p) -> later (at_AvailableUpdated q) (at_AvailableUpdated p) ->
  r_version p = r_version q /\ r_created p = r_created q /\ r_blockSize p = r_blockSize q /\
  r_blocks q `prefix_of` r_blocks p /\
  (time_Equal (r_updated p) (r_updated q) = true -> steady q -> r_blocks p = r_blocks q).
Proof.
  intros [Gq _] [Gp _] [L1 _] [L2 H2]. unfold r_version, r_created, r_blockSize, r_blocks, r_updated, steady in *.
  split; [by rewrite (ev_version _ _ L1), (ev_version _ _ Gq)|]. split; [by rewrite (ev_created _ _ L2)|].
  split; [by rewrite (ev_blockSize _ _ L2)|]. split; [etrans; [apply Gq|apply L1]|]. intros Ht Hs.
  pose proof (ev_available _ _ Gp) as H1. rewrite (H2 Ht), Hs in H1. pose proof (ev_available _ _ L1) as H3. rewrite Hs in H3.
  by apply (anti_symm prefix).
Qed.

(** One puller: nothing panics, the receiver follows, and the puller is told of. *)
Lemma update_puller_spec past s (p : reading) :
  from_past past s -> (forall q, q ∈ past -> r_name q = r_name p -> succeeds q p) -> good_reading p -> puller_fits p ->
  exists s' us, update_puller s p = Ret (s', us) /\ Forall update_fits us /\ folder_Update (dview s) us = dview s' /\
    told (past ++ [p]) s' p /\ (forall n, n <> r_name p -> s' !! n = s !! n) /\ from_past (past ++ [p]) s'.
Proof.
  intros HP HS Hg [Hfa Hfb]. unfold update_puller. cbv zeta. set (nm := r_name p) in *.
  assert (p ∈ past ++ [p]) as Hpin by (rewrite elem_of_app, list_elem_of_singleton; by right).
  assert (forall s'', (forall n, n <> nm -> s'' !! n = s !! n) ->
            (forall l, s'' !! nm = Some l -> s !! nm = Some l \/ l = snapshot p) -> from_past (past ++ [p]) s'') as Hpast.
  { intros s'' Ho Hn n l Hl. destruct (decide (n = nm)) as [->|Hne].
    - apply Hn in Hl as [Hl| ->]; [|by exists p]. apply HP in Hl as (q & ? & ?). exists q. by rewrite elem_of_app; auto.
    - rewrite Ho in Hl by done. apply HP in Hl as (q & ? & ?). exists q. by rewrite elem_of_app; auto. }
  assert (told (past ++ [p]) (<[nm := snapshot p]> s) p) as Htold.
  { unfold told. fold nm. rewrite lookup_insert_eq. split; [done|]. split; [done|]. by exists p. }
  assert (update_fits (appendUpdate nm (r_version p) (r_blocks p) (r_blockSize p))) as Hfit by done.
  assert (forall v, update_fits (forgetUpdate nm v)) as Hforget by (by split; [constructor|done]).
  destruct (s !! nm) as [l|] eqn:Hl.
  2: { rewrite zlen_pos. destruct (r_blocks p) eqn:Ha; cbn [negb is_nil].
       - exists s, []. split; [done|]. split; [constructor|]. split; [done|]. split; [unfold told; fold nm; by rewrite Hl|].
         split; [done|]. apply Hpast; [done|]. intros l. rewrite Hl. by left.
       - rewrite <- Ha in *. eexists _, _. split; [done|]. split; [by apply Forall_singleton|].
         split; [by apply recv_append|]. split; [done|].
         split; [intros n Hn; by rewrite lookup_insert_ne|]. apply Hpast; [intros n Hn; by rewrite lookup_insert_ne|].
         intros l'. rewrite lookup_insert_eq. intros [= <-]. by right. }
  destruct (HP nm l Hl) as (q & Hq & Hgq & Hqn & ->). specialize (HS q Hq Hqn).
  cbn [sUpdated sVersion sCreated sBlockIndexes snapshot].
  destruct (time_Equal (r_updated p) (r_updated q) && Vector_Equal (r_version p) (r_version q)) eqn:Hsame.
  { apply andb_true_iff in Hsame as [Hu Hv]. destruct HS as [ [L1 L2]|[_ Hne] ]; [|congruence].
    destruct (succeeds_later q p Hgq Hg L1 L2) as (E1 & _ & _ & E4 & E5).
    exists s, []. split; [done|]. split; [constructor|]. split; [done|]. split.
    - unfold told. fold nm. rewrite Hl. cbn. split; [done|]. split; [done|]. exists q. rewrite elem_of_app.
      split; [by left|]. split; [done|]. intros Hs. by rewrite E5.
    - split; [done|]. apply Hpast; [done|]. intros l'. rewrite Hl. by left. }
  destruct (negb (Vector_Equal (r_version p) (r_version q)) || negb (time_Equal (r_created p) (r_created q))) eqn:Hnew.
  { eexists _, _. split; [done|]. split; [constructor; [done|by apply Forall_singleton]|].
    split; [by apply (recv_replace p s (snapshot q))|].
    split; [done|]. split; [intros n Hn; by rewrite lookup_insert_ne|].
    apply Hpast; [intros n Hn; by rewrite lookup_insert_ne|]. intros l'. rewrite lookup_insert_eq. intros [= <-]. by right. }
  apply orb_false_iff in Hnew as [Hv%negb_false_iff Hc%negb_false_iff].
  destruct HS as [ [L1 L2]|[Hne _] ]; [|congruence].
  destruct (succeeds_later q p Hgq Hg L1 L2) as (E1 & E2 & E3 & [new Hnew] & _).
  assert ((length (r_blocks p) <? length (r_blocks q))%nat = false) as ->.
  { apply Nat.ltb_ge. rewrite Hnew, length_app. lia. }
  assert (drop (length (r_blocks q)) (r_blocks p) = new) as -> by (rewrite Hnew; apply drop_app_length).
  assert ({| sBlockIndexes := r_blocks q ++ new; sVersion := r_version q; sUpdated := r_updated p;
             sCreated := r_created q; sBlockSize := r_blockSize q |} = snapshot p) as Hsnap.
  { unfold snapshot. by rewrite Hnew, E1, E2, E3. }
  cbn [sBlockSize snapshot]. rewrite Hsnap.
  eexists _, _. split; [done|]. split; [|split; [|split; [done|] ] ].
  - rewrite zlen_pos. destruct new eqn:En; cbn [is_nil negb]; [constructor|]. rewrite <- En in *. apply Forall_singleton. split; [|done].
    cbn. rewrite Hnew in Hfa. by apply Forall_app in Hfa as [_ ?].
  - rewrite zlen_pos. destruct new as [|z new0] eqn:En; cbn [is_nil negb].
    + cbn. rewrite dview_insert, insert_id; [done|]. unfold dview. rewrite lookup_fmap, Hl. cbn.
      by rewrite Hnew, app_nil_r, E1, E3.
    + rewrite <- En in *. rewrite <- Hsnap. by apply (recv_more s nm (snapshot q)).
  - split; [intros n Hn; by rewrite lookup_insert_ne|].
    apply Hpast; [intros n Hn; by rewrite lookup_insert_ne|]. intros l'. rewrite lookup_insert_eq. intros [= <-]. by right.
Qed.
(** The loop over the pullers, whose names differ. *)
Lemma update_loop_spec past s (ps : list reading) :
  from_past past s -> NoDup (map r_name ps) ->
  (forall q p, q ∈ past -> p ∈ ps -> r_name q = r_name p -> succeeds q p) ->
  (forall p, p ∈ ps -> good_reading p /\ puller_fits p) ->
  exists s' us, update_loop s ps = Ret (s', us) /\ Forall update_fits us /\ folder_Update (dview s) us = dview s' /\
    (forall p, p ∈ ps -> told (past ++ ps) s' p) /\ (forall n, n ∉ map r_name ps -> s' !! n = s !! n) /\
    from_past (past ++ ps) s'.
Proof.
  revert past s. induction ps as [|p ps IH]; intros past s HP Hnd HS Hf.
  { exists s, []. rewrite app_nil_r. repeat split; try done. intros p Hp. by apply elem_of_nil in Hp. }
  cbn [map] in Hnd. apply list.NoDup_cons in Hnd as [Hn Hnd].
  destruct (update_puller_spec past s p HP) as (s1 & us1 & E1 & F1 & D1 & T1 & O1 & P1).
  { intros q Hq Hqn. by apply HS; [|constructor|]. }
  { apply Hf. constructor. }
  { apply Hf. constructor. }
  destruct (IH (past ++ [p]) s1 P1 Hnd) as (s2 & us2 & E2 & F2 & D2 & T2 & O2 & P2).
  { intros q r [Hq| ->%list_elem_of_singleton]%elem_of_app Hr Hqr; [apply HS; [done|by constructor|done]|].
    exfalso. apply Hn. rewrite Hqr. apply list_elem_of_In, in_map_iff. exists r. by rewrite <- list_elem_of_In. }
  { intros q Hq. apply Hf. by constructor. }
  exists s2, (us1 ++ us2). cbn [update_loop]. rewrite E1. cbn [mbind outcome_bind]. rewrite E2. cbn [mbind outcome_bind].
  split; [done|]. split; [by apply Forall_app|]. split.
  { unfold folder_Update in *. by rewrite foldl_app, D1. }
  split; [|split].
  - intros q [->|Hq]%elem_of_cons; [|specialize (T2 q Hq); by rewrite <- app_assoc in T2].
    apply (told_mono (past ++ [p])); [intros x; rewrite !elem_of_app, list_elem_of_singleton, elem_of_cons; tauto|].
    unfold told in *. by rewrite O2.
  - intros n Hnn. cbn [map] in Hnn. apply not_elem_of_cons in Hnn as [? ?]. by rewrite O2, O1.
  - by rewrite <- app_assoc in P2.
Qed.

(** *** Forgetting *)

Lemma recv_forgets (kvs : list (bytes * sentFolderFileDownloadState)) (s : sentFolderDownloadState) :
  NoDup kvs.*1 -> (forall k l, (k, l) ∈ kvs -> s !! k = Some l) ->
  exists s', folder_Update (dview s) (map (fun kv => forgetUpdate kv.1 (sVersion kv.2)) kvs) = dview s' /\
    forall n, s' !! n = if bool_decide (n ∈ kvs.*1) then None else s !! n.
Proof.
  revert s. induction kvs as [|[k l] kvs IH]; intros s Hnd Hin.
  { exists s. split; [done|]. intros n. by rewrite bool_decide_false by apply not_elem_of_nil. }
  cbn [fmap list_fmap fst] in Hnd. apply list.NoDup_cons in Hnd as [Hk Hnd].
  destruct (IH (delete k s) Hnd) as (s' & Hs' & Hl').
  { intros k' l' Hkl. rewrite lookup_delete_ne; [apply Hin; by constructor|]. intros <-. apply Hk.
    apply list_elem_of_fmap. exists (k, l'). done. }
  exists s'. split.
  - cbn [map fst snd]. unfold folder_Update in *. cbn [foldl]. rewrite <- Hs'. f_equal.
    unfold folder_Update1. cbn [UpdateType uName forgetUpdate uVersion]. unfold dview at 1.
    rewrite lookup_fmap, (Hin k l) by constructor. cbn [fmap option_fmap option_map dVersion].
    rewrite Vector_Equal_refl. unfold dview. by rewrite fmap_delete.
  - intros n. rewrite Hl'. cbn [fmap list_fmap fst]. destruct (decide (n ∈ kvs.*1)) as [Hn|Hn].
    + rewrite !bool_decide_true; [done|by constructor|done].
    + rewrite (bool_decide_false _ Hn). destruct (decide (n = k)) as [->|Hne].
      * rewrite bool_decide_true by constructor. apply lookup_delete_eq.
      * rewrite bool_decide_false by (rewrite not_elem_of_cons; done). by apply lookup_delete_ne.
Qed.

Section Iter.
Context (iter : forall A, gmap bytes A -> list (bytes * A)).
Arguments iter {A}.
Hypothesis iter_perm : forall A (m : gmap bytes A), iter m ≡ₚ map_to_list m.

Lemma forget_unseen_spec (seen : list bytes) s :
  exists s' us, forget_unseen (@iter) seen s = (s', us) /\ Forall update_fits us /\
    folder_Update (dview s) us = dview s' /\ (forall n, s' !! n = if bool_decide (n ∈ seen) then s !! n else None).
Proof.
  unfold forget_unseen. set (kept := filter _ s). eexists _, _. split; [done|]. split.
  { apply Forall_forall. intros u (kv & <- & _)%in_map_iff. by split; [constructor|]. }
  set (gone := filter _ s).
  assert (forall n, kept !! n = if bool_decide (n ∈ seen) then s !! n else None) as Hk.
  { intros n. unfold kept. destruct (decide (n ∈ seen)) as [Hn|Hn].
    - rewrite bool_decide_true by done. destruct (s !! n) as [l|] eqn:El.
      + apply map_lookup_filter_Some. by split.
      + apply map_lookup_filter_None. by left.
    - rewrite bool_decide_false by done. apply map_lookup_filter_None. right. intros l _. done. }
  split; [|done].
  destruct (recv_forgets (iter gone) s) as (s' & Hs' & Hl').
  { eapply NoDup_Permutation_proper; [apply fmap_Permutation, iter_perm|]. apply NoDup_fst_map_to_list. }
  { intros k l Hkl. rewrite iter_perm in Hkl. apply elem_of_map_to_list in Hkl. by apply map_lookup_filter_Some in Hkl as [? _]. }
  rewrite Hs'. f_equal. apply map_eq. intros n. rewrite Hl', Hk.
  assert (n ∈ (iter gone).*1 <-> exists l, s !! n = Some l /\ n ∉ seen) as Hg.
  { rewrite (fmap_Permutation _ _ _ (iter_perm _ gone)). rewrite list_elem_of_fmap. split.
    - intros ([k l] & -> & Hkl). apply elem_of_map_to_list, map_lookup_filter_Some in Hkl as [? ?]. cbn in *. eauto.
    - intros (l & Hl & Hn). exists (n, l). split; [done|]. by apply elem_of_map_to_list, map_lookup_filter_Some. }
  destruct (decide (n ∈ seen)) as [Hn|Hn].
  - rewrite (bool_decide_true (n ∈ seen)) by done. rewrite bool_decide_false; [done|]. rewrite Hg. naive_solver.
  - rewrite (bool_decide_false (n ∈ seen)) by done. destruct (s !! n) as [l|] eqn:El.
    + rewrite bool_decide_true; [done|]. apply Hg. eauto.
    + by case_bool_decide.
Qed.

(** One computation and its reception. *)
Definition tick (st : sentFolderDownloadState * deviceFolderDownloadState) (ps : list reading) :
  outcome unit (sentFolderDownloadState * deviceFolderDownloadState) :=
  '(s, us) ← sent_update (@iter) st.1 ps; Ret (s, folder_Update st.2 (received us)).

Lemma tick_spec past s (ps : list reading) :
  from_past past s -> NoDup (map r_name ps) ->
  (forall q p, q ∈ past -> p ∈ ps -> r_name q = r_name p -> succeeds q p) ->
  (forall p, p ∈ ps -> good_reading p /\ puller_fits p) ->
  exists s', tick (s, dview s) ps = Ret (s', dview s') /\ (forall p, p ∈ ps -> told (past ++ ps) s' p) /\
    (forall n l, s' !! n = Some l -> n ∈ map r_name ps) /\ from_past (past ++ ps) s'.
Proof.
  intros HP Hnd HS Hf. destruct (update_loop_spec past s ps HP Hnd HS Hf) as (s1 & us1 & E1 & F1 & D1 & T1 & _ & P1).
  destruct (forget_unseen_spec (map r_name ps) s1) as (s2 & us2 & E2 & F2 & D2 & L2).
  exists s2. split; [|split; [|split] ].
  - unfold tick, sent_update. cbn [fst snd]. rewrite E1. cbn [mbind outcome_bind]. rewrite E2. cbn [mbind outcome_bind].
    rewrite received_id by (by apply Forall_app). unfold folder_Update in *. by rewrite foldl_app, D1, D2.
  - intros p Hp. unfold told. rewrite L2, bool_decide_true; [by apply T1|].
    apply list_elem_of_In, in_map_iff. exists p. by rewrite <- list_elem_of_In.
  - intros n l. rewrite L2. by case_bool_decide.
  - intros n l. rewrite L2. case_bool_decide; [|done]. apply P1.
Qed.

Fixpoint run (st : sentFolderDownloadState * deviceFolderDownloadState) (hist : list (list reading)) : outcome unit (sentFolderDownloadState * deviceFolderDownloadState) :=
  match hist with
  | [] => Ret st
  | ps :: hist => st ← tick st ps; run st hist
  end.
(** The readings of each computation: one per file; each succeeds every one
    before for its file. *)
Fixpoint good_history (past : list reading) (hist : list (list reading)) : Prop :=
  match hist with
  | [] => True
  | ps :: hist =>
      NoDup (map r_name ps) /\ (forall p, p ∈ ps -> good_reading p /\ puller_fits p) /\
      (forall q p, q ∈ past -> p ∈ ps -> r_name q = r_name p -> succeeds q p) /\
      good_history (past ++ ps) hist
  end.

Lemma run_spec past s hist ps :
  from_past past s -> good_history past (hist ++ [ps]) ->
  exists s', run (s, dview s) (hist ++ [ps]) = Ret (s', dview s') /\ (forall p, p ∈ ps -> told (past ++ concat (hist ++ [ps])) s' p) /\
    (forall n l, s' !! n = Some l -> n ∈ map r_name ps).
Proof.
  revert past s. induction hist as [|qs hist IH]; intros past s HP; cbn [app good_history run].
  - intros (Hnd & Hf & HS & _). destruct (tick_spec past s ps HP Hnd HS Hf) as (s' & HE & H1 & H2 & _).
    exists s'. rewrite HE. cbn [concat]. by rewrite app_nil_r.
  - intros (Hnd & Hf & HS & Hg). destruct (tick_spec past s qs HP Hnd HS Hf) as (s' & HE & _ & _ & HP').
    rewrite HE. destruct (IH (past ++ qs) s' HP' Hg) as (s2 & ? & ? & ?). exists s2. cbn [concat]. by rewrite app_assoc.
Qed.

(** C11: The receiver of the download progress follows its peer over the time of
    a connection, where each computation sees one puller per file, which is a
    later state of the puller seen before for that file, or a new one that was
    created and got its last block at other times, and numbers fit the 32 bits of
    the message.  After any number of computations, each sent as the differences
    to what was sent before, no computation has failed; the peer is known to have
    a block of a version of a file only if a puller of that version had it in the
    last computation; and a block that a puller had then is known, unless in some
    computation a block landed in its file between the reading of the blocks and
    the reading of their time, see [lost_between_reads].  (A device that
    reconnects between computations is another matter, see [reconnect_forgotten].) *)
Theorem progress_synchronised hist ps (H : good_history [] (hist ++ [ps])) :
  exists s r, run (∅, ∅) (hist ++ [ps]) = Ret (s, r) /\
    (forall n v i, folder_Has r n v i = true ->
      exists p, p ∈ ps /\ r_name p = n /\ Vector_Equal (r_version p) v = true /\ i ∈ r_blocks p) /\
    (forall p v i, p ∈ ps -> (forall q, q ∈ concat (hist ++ [ps]) -> r_name q = r_name p -> steady q) ->
      Vector_Equal (r_version p) v = true -> i ∈ r_blocks p -> folder_Has r (r_name p) v i = true).
Proof.
  destruct (run_spec [] ∅ hist ps) as (s & HE & Ht & Hd); [|done|].
  { intros n l. by rewrite lookup_empty. }
  exists s, (dview s). replace (∅ : deviceFolderDownloadState) with (dview ∅) by apply fmap_empty. split; [exact HE|]. split.
  - intros n v i. unfold folder_Has, dview. rewrite lookup_fmap.
    destruct (s !! n) as [l|] eqn:Hl; cbn; [|done]. destruct (Vector_Equal (sVersion l) v) eqn:Hv; [|done].
    intros Hi%bool_decide_eq_true. pose proof (Hd _ _ Hl) as Hn. apply list_elem_of_In, in_map_iff in Hn as (p & Hn & Hp).
    apply list_elem_of_In in Hp. exists p. specialize (Ht p Hp). unfold told in Ht. rewrite Hn, Hl in Ht.
    destruct Ht as (HV & [k Hk] & _). split; [done|]. split; [done|]. split; [by rewrite <- HV|]. rewrite Hk. apply elem_of_app. by left.
  - intros p v i Hp Hst Hv Hi. unfold folder_Has, dview. rewrite lookup_fmap. specialize (Ht p Hp). unfold told in Ht.
    destruct (s !! r_name p) as [l|]; cbn; [|rewrite Ht in Hi; by apply elem_of_nil in Hi].
    destruct Ht as (HV & _ & q & Hq & Hqn & Heq). rewrite HV, Hv. apply bool_decide_eq_true. rewrite Heq; [done|]. by apply Hst.
Qed.
End Iter.
End Sync.

(** ** Examples *)

Definition ex_puller_file : FileInfo :=
  {| Name := gostr "f"; FSize := 262144; ModifiedS := 0; ModifiedBy := 1;
     Version := {| Counters := [{| ID := 1; Value := 1 |}] |}; Sequence := 1;
     Blocks := [ {| Hash := [x01]; Offset := 0; Size := 131072 |}; {| Hash := [x02]; Offset := 131072; Size := 131072 |} ];
     SymlinkTarget := []; BlocksHash := []; PreviousBlocksHash := []; Encrypted := []; Platform := emptyPlatform;
     Type_ := FileInfoTypeFile; Permissions := 0; ModifiedNs := 0; RawBlockSize := 131072; LocalFlags := 0;
     EncryptionTrailerSize := 0; Deleted := false; NoPermissions := false; truncated := false |}.
Definition at_time (n : Z) : GoTime := {| tsec := n; tnsec := 0 |}.
(** A puller that starts with two blocks to get, and gets them. *)
Definition ex_start : sharedPullerState unit unit :=
  newSharedPullerState (at_time 1) ex_puller_file (gostr "t") (Blocks ex_puller_file) [] false false ex_puller_file true false.
Definition ex_one : sharedPullerState unit unit :=
  copyDone (at_time 2) {| Hash := [x01]; Offset := 0; Size := 131072 |} ex_start.
Definition ex_two : sharedPullerState unit unit :=
  pullDone (at_time 3) {| Hash := [x02]; Offset := 131072; Size := 131072 |} (pullStarted (at_time 2) ex_one).
Definition ex_iter (A : Type) (m : gmap bytes A) : list (bytes * A) := map_to_list m.

(** Read while nothing happens, and while a block lands. *)
Definition ex_read (p : sharedPullerState unit unit) : reading := {| at_Available := p; at_AvailableUpdated := p |}.
Definition ex_between : reading := {| at_Available := ex_one; at_AvailableUpdated := ex_two |}.

Lemma later_refl {Fd E} (p : sharedPullerState Fd E) : later p p.
Proof. by split. Qed.
Lemma ex_later : later ex_one ex_two.
Proof.
  split; [|by vm_compute]. transitivity (pullStarted (at_time 2) ex_one); [apply evolves_counters|apply evolves_pullDone].
Qed.
Lemma ex_fits : forall p, p ∈ [ex_read ex_one; ex_read ex_two; ex_between] -> puller_fits p.
Proof.
  intros p Hp. assert (r_blocks p = [0] \/ r_blocks p = [0; 1]) as Ha; [|assert (r_blockSize p = 131072) as Hb].
  - by repeat (apply elem_of_cons in Hp as [->|Hp]; [first [by left|by right]|]); apply elem_of_nil in Hp.
  - by repeat (apply elem_of_cons in Hp as [->|Hp]; [done|]); apply elem_of_nil in Hp.
  - unfold puller_fits, in_i32. rewrite Hb. split; [|lia]. destruct Ha as [-> | ->]; repeat constructor; lia.
Qed.
Lemma ex_history (a : reading) : a ∈ [ex_read ex_one; ex_between] -> good_history [] ([ [a] ] ++ [ [ex_read ex_two] ]).
Proof.
  intros Ha. assert (good_reading a /\ later (at_AvailableUpdated a) ex_two) as [Hg Hl].
  { apply elem_of_cons in Ha as [->| ->%list_elem_of_singleton]; (split; [|]); first [apply later_refl|apply ex_later]. }
  cbn. split; [by apply NoDup_singleton|].
  split; [intros p ->%list_elem_of_singleton; split; [done|apply ex_fits; set_solver]|].
  split; [intros q p Hq; by apply elem_of_nil in Hq|]. split; [by apply NoDup_singleton|].
  split; [intros p ->%list_elem_of_singleton; split; [apply later_refl|apply ex_fits; set_solver]|]. split; [|done].
  intros q p ->%list_elem_of_singleton ->%list_elem_of_singleton _. by left.
Qed.

Lemma progress_synchronised_witness :
  exists s r, run ex_iter (∅, ∅) ([ [ex_read ex_one] ] ++ [ [ex_read ex_two] ]) = Ret (s, r) /\
    folder_Has r (gostr "f") (Version ex_puller_file) 0 = true /\ folder_Has r (gostr "f") (Version ex_puller_file) 1 = true.
Proof.
  destruct (progress_synchronised (Fd := unit) (E := unit) ex_iter (fun A m => reflexivity _) [ [ex_read ex_one] ] [ex_read ex_two]
    (ex_history _ ltac:(left))) as (s & r & Hrun & _ & H).
  assert (r_name (ex_read ex_two) = gostr "f") as Hn by (vm_compute; reflexivity).
  assert (forall i, i ∈ [0; 1] -> folder_Has r (gostr "f") (Version ex_puller_file) i = true) as Hi.
  { intros i Hi. rewrite <- Hn. apply H; [left| |vm_compute; reflexivity|exact Hi].
    intros q Hq _. change (q ∈ [ex_read ex_one; ex_read ex_two]) in Hq.
    apply elem_of_cons in Hq as [->| ->%list_elem_of_singleton]; reflexivity. }
  exists s, r. split; [exact Hrun|]. split; apply Hi; [left|right; left].
Defined.

(** A block that lands between the two looks is taken for told: the receiver is
    not told of it, until another block lands. *)
Lemma lost_between_reads :
  good_history [] ([ [ex_between] ] ++ [ [ex_read ex_two] ]) /\ available ex_two = [0; 1] /\
  match run ex_iter (∅, ∅) ([ [ex_between] ] ++ [ [ex_read ex_two] ]) with
  | Ret (_, r) => (folder_Has r (gostr "f") (Version ex_puller_file) 0, folder_Has r (gostr "f") (Version ex_puller_file) 1)
  | _ => (false, false)
  end = (true, false).
Proof. split; [apply ex_history; set_solver|]. split; vm_compute; reflexivity. Qed.

(** *** A quick reconnection *)

(** A device that reconnects between two computations has forgotten what it was
    told, but the emitter still holds it as told: the first block is never
    announced to it. *)
Definition emitter0 : ProgressEmitter :=
  {| registry := {[gostr "d" := {[gostr "f" := 1%positive]}]}; interval := second; minBlocks := 1;
     sentDownloadStates := ∅; connections := {[gostr "p"]}; foldersByConns := {[gostr "p" := [gostr "d"] ]};
     disabled := false |}.
Definition after_reconnect : option (deviceDownloadState) :=
  match computeProgressUpdates ex_iter (fun _ _ => ex_read ex_one) emitter0 with
  | Ret (t1, us1) =>
      let t1 := temporaryIndexSubscribe (gostr "p") [gostr "d"] (temporaryIndexUnsubscribe (gostr "p") t1) in
      match computeProgressUpdates ex_iter (fun _ _ => ex_read ex_two) t1 with
      | Ret (t2, us2) => downloads_Update (Some newDeviceDownloadState) (gostr "d") (flat_map pu_updates us2)
      | _ => None
      end
  | _ => None
  end.
Lemma reconnect_forgotten :
  available ex_two = [0; 1] /\
  (downloads_Has after_reconnect (gostr "d") (gostr "f") (Version ex_puller_file) 0,
   downloads_Has after_reconnect (gostr "d") (gostr "f") (Version ex_puller_file) 1) = (false, true).
Proof. split; vm_compute; reflexivity. Qed.
