(* ===== verification/Connection.v ===== *)
(** * A connection to a device (lib/protocol/protocol.go, bep_hello.go,
    bep_clusterconfig.go, bep_request_response.go, errors.go)

    The messages and their wire forms, how they are framed and compressed, the
    dispatch of what was read to the model, and the table of requests that wait
    for a response.  The generated protobuf code and the LZ4 library are
    parameters. *)
From Stdlib Require Import ZArith List Lia.
From Stdlib Require Import Strings.Byte.
From stdpp Require Import base list option gmap numbers tactics.
From S2P Require Import Prelude GoLib Vector FileInfo FileInfoWire Paths Downloads.

#[local] Open Scope Z_scope.

Definition MaxMessageLen : Z := 500 * 1000 * 1000.
Definition MaxRequestSize : Z := 2 * MaxBlockSize.
Definition compressionThreshold : Z := 128.

Inductive Compression := CompressionMetadata | CompressionNever | CompressionAlways.

(** ** Messages *)

(** Numbers of enumerations are kept as they are on the wire. *)
Record Device :=
  { ID : bytes; DName : bytes; Addresses : list bytes; DCompression : Z; CertName : bytes; MaxSequence : Z; Introducer : bool;
    IndexID : Z; SkipIntroductionRemovals : bool; EncryptionPasswordToken : bytes }.
Record Folder := { FID : bytes; Label : bytes; FType : Z; StopReason : Z; Devices : list Device }.
Record ClusterConfig := { Folders : list Folder; Secondary : bool }.

Record bep_Device :=
  { wdId : bytes; wdName : bytes; wdAddresses : list bytes; wdCompression : Z; wdCertName : bytes; wdMaxSequence : Z;
    wdIntroducer : bool; wdIndexId : Z; wdSkip : bool; wdToken : bytes }.
Record bep_Folder := { wfId : bytes; wfLabel : bytes; wfType : Z; wfStopReason : Z; wfDevices : list bep_Device }.
Record bep_ClusterConfig := { wFolders : list bep_Folder; wSecondary : bool }.

Definition device_toWire (d : Device) : bep_Device :=
  {| wdId := ID d; wdName := DName d; wdAddresses := Addresses d; wdCompression := DCompression d; wdCertName := CertName d;
     wdMaxSequence := MaxSequence d; wdIntroducer := Introducer d; wdIndexId := IndexID d; wdSkip := SkipIntroductionRemovals d;
     wdToken := EncryptionPasswordToken d |}.
(** The conversion of a slice to an array panics if the slice is too short. *)
Definition DeviceIDLength : Z := 32.
Definition to_DeviceID {E} (bs : bytes) : outcome E bytes :=
  if zlen bs <? DeviceIDLength then Panic else Ret (take (Z.to_nat DeviceIDLength) bs).
Definition deviceFromWire {E} (w : bep_Device) : outcome E Device :=
  id ← to_DeviceID (wdId w);
  Ret {| ID := id; DName := wdName w; Addresses := wdAddresses w; DCompression := wdCompression w; CertName := wdCertName w;
         MaxSequence := wdMaxSequence w; Introducer := wdIntroducer w; IndexID := wdIndexId w;
         SkipIntroductionRemovals := wdSkip w; EncryptionPasswordToken := wdToken w |}.
Definition folder_toWire (f : Folder) : bep_Folder :=
  {| wfId := FID f; wfLabel := Label f; wfType := FType f; wfStopReason := StopReason f; wfDevices := map device_toWire (Devices f) |}.
Fixpoint map_outcome {E A B} (f : A -> outcome E B) (xs : list A) : outcome E (list B) :=
  match xs with
  | [] => Ret []
  | x :: xs => y ← f x; ys ← map_outcome f xs; Ret (y :: ys)
  end.
Definition folderFromWire {E} (w : bep_Folder) : outcome E Folder :=
  devices ← map_outcome deviceFromWire (wfDevices w);
  Ret {| FID := wfId w; Label := wfLabel w; FType := wfType w; StopReason := wfStopReason w; Devices := devices |}.
Definition clusterConfig_toWire (c : ClusterConfig) : bep_ClusterConfig :=
  {| wFolders := map folder_toWire (Folders c); wSecondary := Secondary c |}.
Definition clusterConfigFromWire {E} (w : bep_ClusterConfig) : outcome E ClusterConfig :=
  folders ← map_outcome folderFromWire (wFolders w);
  Ret {| Folders := folders; Secondary := wSecondary w |}.
Definition FolderStopReasonPaused : Z := 1.
Definition IsRunning (f : Folder) : bool := negb (StopReason f =? FolderStopReasonPaused).

Record Request :=
  { rqID : Z; rqFolder : bytes; rqName : bytes; rqOffset : Z; rqSize : Z; rqHash : bytes; FromTemporary : bool; BlockNo : Z }.
Definition request_toWire (r : Request) : Request :=
  {| rqID := i32 (rqID r); rqFolder := rqFolder r; rqName := rqName r; rqOffset := rqOffset r; rqSize := i32 (rqSize r);
     rqHash := rqHash r; FromTemporary := FromTemporary r; BlockNo := i32 (BlockNo r) |}.
Definition requestFromWire (w : Request) : Request := w.
Record Response := { rsID : Z; rsData : bytes; rsCode : Z }.
Definition response_toWire (r : Response) : Response := {| rsID := i32 (rsID r); rsData := rsData r; rsCode := rsCode r |}.
Definition responseFromWire (w : Response) : Response := w.

(** ** Errors *)

Definition ErrorCodeNoError : Z := 0.
Definition ErrorCodeGeneric : Z := 1.
Definition ErrorCodeNoSuchFile : Z := 2.
Definition ErrorCodeInvalidFile : Z := 3.
(** The errors of a request that are told apart. *)
Inductive request_err := ErrGeneric | ErrNoSuchFile | ErrInvalid.
Definition codeToError (code : Z) : option request_err :=
  if code =? ErrorCodeNoError then None
  else if code =? ErrorCodeNoSuchFile then Some ErrNoSuchFile
  else if code =? ErrorCodeInvalidFile then Some ErrInvalid
  else Some ErrGeneric.
Definition errorToCode (err : option request_err) : Z :=
  match err with
  | None => ErrorCodeNoError
  | Some ErrNoSuchFile => ErrorCodeNoSuchFile
  | Some ErrInvalid => ErrorCodeInvalidFile
  | Some ErrGeneric => ErrorCodeGeneric
  end.

Inductive file_err := errName (e : name_err) | errDeletedHasBlocks | errDirectoryHasBlocks | errFileHasNoBlocks.
(** The text of the errors of the network stands for itself. *)
Inductive conn_err :=
  | ErrRead (st : read_status bytes) | ErrNegativeLength (n : Z) | ErrTooLong (n : Z) | ErrDecompress | ErrUnknownCompression (n : Z)
  | errUnknownMessage | ErrUnmarshal | ErrClosed | ErrClosedByRemote (reason : bytes) | ErrInvalidState | ErrCheck (e : file_err)
  | ErrRequestSize (n : Z) | ErrHandling (e : bytes).

(** ** Checks of what was received *)

Definition checkFileInfoConsistency (f : FileInfo) : outcome file_err unit :=
  match checkFilename (Name f) with
  | Ret _ =>
      if Deleted f && negb (is_nil (Blocks f)) then Err errDeletedHasBlocks
      else if (Type_ f =? FileInfoTypeDirectory) && negb (is_nil (Blocks f)) then Err errDirectoryHasBlocks
      else if negb (Deleted f) && negb (IsInvalid f) && (Type_ f =? FileInfoTypeFile) && is_nil (Blocks f) then Err errFileHasNoBlocks
      else Ret tt
  | Err e => Err (errName e)
  | Panic => Panic
  | OutOfFuel => OutOfFuel
  end.
Fixpoint checkIndexConsistency (fs : list FileInfo) : outcome file_err unit :=
  match fs with
  | [] => Ret tt
  | f :: fs => _ ← checkFileInfoConsistency f; checkIndexConsistency fs
  end.

(** ** Messages on the wire *)

Inductive message :=
  | MClusterConfig (m : bep_ClusterConfig)
  | MIndex (folder : bytes) (files : list bep_FileInfo) (last : Z)
  | MIndexUpdate (folder : bytes) (files : list bep_FileInfo) (last prev : Z)
  | MRequest (m : Request)
  | MResponse (m : Response)
  | MDownloadProgress (m : bytes * list bep_FileDownloadProgressUpdate)
  | MPing
  | MClose (reason : bytes).
Definition typeOf (msg : message) : Z :=
  match msg with
  | MClusterConfig _ => 0 | MIndex _ _ _ => 1 | MIndexUpdate _ _ _ _ => 2 | MRequest _ => 3 | MResponse _ => 4
  | MDownloadProgress _ => 5 | MPing => 6 | MClose _ => 7
  end.
(** [newMessage]: the types that are known. *)
Definition known_type (t : Z) : bool := (0 <=? t) && (t <=? 7).

Definition MESSAGE_COMPRESSION_NONE : Z := 0.
Definition MESSAGE_COMPRESSION_LZ4 : Z := 1.

Section Framing.
(** The generated code: a header is its type and compression. *)
Context (marshal : message -> bytes) (unmarshal : Z -> bytes -> option message).
Context (marshalHeader : Z * Z -> bytes) (unmarshalHeader : bytes -> option (Z * Z)).
(** [lz4.CompressBlock] into a buffer of a size (nothing if it does not fit or does not get
    smaller) and [lz4.UncompressBlock]. *)
Context (CompressBlock : bytes -> Z -> option bytes) (UncompressBlock : bytes -> Z -> option bytes).

(** *** Writing *)

(** [lz4Compress] into a buffer of [bufLen] bytes. *)
Definition lz4Compress (src : bytes) (bufLen : Z) : option bytes :=
  match CompressBlock src (bufLen - 4) with
  | Some c => if is_nil c then None else Some (putBE 4 (zlen src) ++ c)
  | None => None
  end.
Definition frame (hdr payload : bytes) : bytes := putBE 2 (zlen hdr) ++ hdr ++ putBE 4 (zlen payload) ++ payload.
Definition writeCompressedMessage (msg : message) (marshaled : bytes) : outcome conn_err (option bytes) :=
  let hdr := marshalHeader (typeOf msg, MESSAGE_COMPRESSION_LZ4) in
  if 65535 <? zlen hdr then Panic
  else
    match lz4Compress marshaled (zlen marshaled - zlen marshaled / 32) with
    | None => Ret None
    | Some compressed => Ret (Some (frame hdr compressed))
    end.
Definition shouldCompressMessage (compression : Compression) (msg : message) : bool :=
  let large := compressionThreshold <=? zlen (marshal msg) in
  match compression with
  | CompressionNever => false
  | CompressionAlways => large
  | CompressionMetadata => negb (match msg with MResponse _ => true | _ => false end) && large
  end.
(** [writeMessage]: what is written. *)
Definition writeMessage (compression : Compression) (msg : message) : outcome conn_err bytes :=
  let hdr := marshalHeader (typeOf msg, MESSAGE_COMPRESSION_NONE) in
  if 65535 <? zlen hdr then Panic
  else
    let marshaled := marshal msg in
    c ← (if shouldCompressMessage compression msg then writeCompressedMessage msg marshaled else Ret None);
    match c with
    | Some bs => Ret bs
    | None => Ret (frame hdr marshaled)
    end.

(** *** Reading *)

(** Reads [n] bytes or fails. *)
Definition read_ (r : Reader bytes) (n : Z) : outcome conn_err (bytes * Reader bytes) :=
  match readFull r n with
  | (bs, ReadOK, r) => Ret (bs, r)
  | (_, st, _) => Err (ErrRead st)
  end.
Definition readHeader (r : Reader bytes) : outcome conn_err (Z * Z * Reader bytes) :=
  x ← read_ r 2;
  let hdrLen := iN 16 (getBE x.1) in
  if hdrLen <? 0 then Err (ErrNegativeLength hdrLen)
  else
    x ← read_ x.2 hdrLen;
    match unmarshalHeader x.1 with
    | None => Err ErrUnmarshal
    | Some hdr => Ret (hdr, x.2)
    end.
Definition lz4Decompress (src : bytes) : option bytes :=
  if zlen src <? 4 then None
  else
    let size := getBE (take 4 src) in
    if MaxMessageLen <? size then None else UncompressBlock (drop 4 src) size.
(** The unknown message has been read; the reader goes on after it. *)
Definition readMessage (r : Reader bytes) : outcome conn_err (option message * Reader bytes) :=
  x ← readHeader r;
  let '(typ, comp, r) := x in
  x ← read_ r 4;
  let msgLen := i32 (getBE x.1) in
  if msgLen <? 0 then Err (ErrNegativeLength msgLen)
  else if MaxMessageLen <? msgLen then Err (ErrTooLong msgLen)
  else
    x ← read_ x.2 msgLen;
    let '(buf, r) := x in
    buf ← (if comp =? MESSAGE_COMPRESSION_NONE then Ret buf
           else if comp =? MESSAGE_COMPRESSION_LZ4 then
             match lz4Decompress buf with Some bs => Ret bs | None => Err ErrDecompress end
           else Err (ErrUnknownCompression comp));
    if negb (known_type typ) then Ret (None, r)
    else match unmarshal typ buf with Some msg => Ret (Some msg, r) | None => Err ErrUnmarshal end.
(** The messages that reach the inbox, and the error that ends the loop.  Messages
    of unknown types are skipped. *)
Fixpoint readerLoop (fuel : nat) (r : Reader bytes) : list message * outcome conn_err unit :=
  match fuel with
  | O => ([], OutOfFuel)
  | S fuel =>
      match readMessage r with
      | Ret (Some msg, r) => let '(msgs, e) := readerLoop fuel r in (msg :: msgs, e)
      | Ret (None, r) => readerLoop fuel r
      | Err e => ([], Err e)
      | Panic => ([], Panic)
      | OutOfFuel => ([], OutOfFuel)
      end
  end.
End Framing.

(** ** Dispatch *)

Inductive conn_state := stateInitial | stateReady.
#[export] Instance conn_state_eq_dec : EqDecision conn_state.
Proof. solve_decision. Defined.

(** What the dispatcher hands on, to the model and to the requests that wait. *)
Inductive delivery :=
  | DClusterConfig (c : ClusterConfig)
  | DIndex (folder : bytes) (files : list FileInfo) (last : Z)
  | DIndexUpdate (folder : bytes) (files : list FileInfo) (last prev : Z)
  | DRequest (r : Request)
  | DResponse (r : Response)
  | DDownloadProgress (d : DownloadProgress).

Definition check_files (fs : list FileInfo) (d : delivery) : outcome conn_err (option delivery) :=
  match checkIndexConsistency fs with
  | Ret _ => Ret (Some d)
  | Err e => Err (ErrCheck e)
  | Panic => Panic
  | OutOfFuel => OutOfFuel
  end.
(** One round of [dispatcherLoop] up to the call of the model. *)
Definition dispatch (state : conn_state) (msg : message) : outcome conn_err (conn_state * option delivery) :=
  state ← (match msg with
           | MClusterConfig _ => Ret stateReady
           | MClose reason => Err (ErrClosedByRemote reason)
           | _ => if decide (state = stateReady) then Ret state else Err ErrInvalidState
           end);
  d ← (match msg with
       | MClusterConfig m => c ← clusterConfigFromWire m; Ret (Some (DClusterConfig c))
       | MIndex folder files last => let fs := map FileInfoFromWire files in check_files fs (DIndex folder fs last)
       | MIndexUpdate folder files last prev => let fs := map FileInfoFromWire files in check_files fs (DIndexUpdate folder fs last prev)
       | MRequest m =>
           match checkFilename (rqName m) with
           | Ret _ =>
               if rqSize m <? 0 then Err (ErrRequestSize (rqSize m))
               else if MaxRequestSize <? rqSize m then Err (ErrRequestSize (rqSize m))
               else Ret (Some (DRequest (requestFromWire m)))
           | Err e => Err (ErrCheck (errName e))
           | Panic => Panic
           | OutOfFuel => OutOfFuel
           end
       | MResponse m => Ret (Some (DResponse (responseFromWire m)))
       | MDownloadProgress m => Ret (Some (DDownloadProgress (downloadProgressFromWire m)))
       | MPing | MClose _ => Ret None
       end);
  Ret (state, d).
(** Only the calls of the model can fail: requests are handled in a goroutine of their own. *)
Definition can_fail (d : delivery) : bool := match d with DRequest _ | DResponse _ => false | _ => true end.

Section Dispatcher.
(** The answer of the model may depend on all it was given before. *)
Context (model : list delivery -> delivery -> option bytes).
Fixpoint dispatcherLoop (state : conn_state) (given : list delivery) (inbox : list message) :
  list delivery * outcome conn_err unit :=
  match inbox with
  | [] => (given, Err ErrClosed)
  | msg :: inbox =>
      match dispatch state msg with
      | Ret (state, None) => dispatcherLoop state given inbox
      | Ret (state, Some d) =>
          let given' := given ++ [d] in
          match (if can_fail d then model given d else None) with
          | Some e => (given', Err (ErrHandling e))
          | None => dispatcherLoop state given' inbox
          end
      | Err e => (given, Err e)
      | Panic => (given, Panic)
      | OutOfFuel => (given, OutOfFuel)
      end
  end.
End Dispatcher.

(** ** Requests that wait for a response *)

(** The channel of a request: it holds at most one result, and is closed after it. *)
Record asyncChan := { content : option (bytes * option request_err); chanClosed : bool }.
(** [awaiting] maps an ID to the number of the channel. *)
Record requests := { awaiting : gmap Z nat; nextID : Z; chans : list asyncChan; connClosed : bool }.
Definition no_requests : requests := {| awaiting := ∅; nextID := 0; chans := []; connClosed := false |}.

(** [Request] up to the sending: the ID that is sent is converted to 32 bits. *)
Definition register (t : requests) : outcome conn_err (requests * Z) :=
  let id := nextID t in
  if bool_decide (is_Some (awaiting t !! id)) then Panic
  else
    Ret ({| awaiting := <[id := length (chans t)]> (awaiting t); nextID := i64 (id + 1);
            chans := chans t ++ [{| content := None; chanClosed := false |}]; connClosed := connClosed t |}, id).
Definition handleResponse (resp : Response) (t : requests) : requests :=
  match awaiting t !! rsID resp with
  | None => t
  | Some rc =>
      {| awaiting := delete (rsID resp) (awaiting t); nextID := nextID t;
         chans := alter (fun _ => {| content := Some (rsData resp, codeToError (rsCode resp)); chanClosed := true |}) rc (chans t);
         connClosed := connClosed t |}
  end.
(** [internalClose], which runs once: the channels that wait are closed. *)
Definition close_chan (ch : asyncChan) : asyncChan := {| content := content ch; chanClosed := true |}.
Definition internalClose (t : requests) : requests :=
  if connClosed t then t
  else
    {| awaiting := ∅; nextID := nextID t;
       chans := imap (fun i ch => if bool_decide (i ∈ (map_to_list (awaiting t)).*2) then close_chan ch else ch) (chans t);
       connClosed := true |}.
(** What the receive from the channel gives; nothing while it blocks. *)
Definition receive_result (ch : asyncChan) : option (outcome conn_err (bytes * option request_err)) :=
  match content ch with
  | Some r => Some (Ret r)
  | None => if chanClosed ch then Some (Err ErrClosed) else None
  end.

(** ** Hello *)

Definition HelloMessageMagic : Z := 0x2EA7D90B.
Definition Version13HelloMagic : Z := 0x9F79BC40.
Record Hello := { DeviceName : bytes; ClientName : bytes; ClientVersion : bytes; NumConnections : Z; Timestamp : Z }.
Definition hello_toWire (h : Hello) : Hello :=
  {| DeviceName := DeviceName h; ClientName := ClientName h; ClientVersion := ClientVersion h;
     NumConnections := i32 (NumConnections h); Timestamp := Timestamp h |}.
Definition helloFromWire (w : Hello) : Hello := w.
Inductive hello_err := ErrHelloRead (st : read_status bytes) | ErrHelloTooBig | ErrHelloUnmarshal | ErrTooOldVersion | ErrUnknownMagic.
Definition IsVersionMismatch (e : hello_err) : bool := match e with ErrTooOldVersion | ErrUnknownMagic => true | _ => false end.
Section Hello.
Context (marshalHello : Hello -> bytes) (unmarshalHello : bytes -> option Hello).
Definition writeHello (h : Hello) : outcome hello_err bytes :=
  let msg := marshalHello (hello_toWire h) in
  if 32767 <? zlen msg then Panic
  else Ret (putBE 4 HelloMessageMagic ++ putBE 2 (zlen msg) ++ msg).
Definition readHello (r : Reader bytes) : outcome hello_err (Hello * Reader bytes) :=
  match readFull r 4 with
  | (header, ReadOK, r) =>
      let magic := getBE header in
      if magic =? HelloMessageMagic then
        match readFull r 2 with
        | (header, ReadOK, r) =>
            let msgSize := getBE header in
            if 32767 <? msgSize then Err ErrHelloTooBig
            else
              match readFull r msgSize with
              | (buf, ReadOK, r) =>
                  match unmarshalHello buf with Some w => Ret (helloFromWire w, r) | None => Err ErrHelloUnmarshal end
              | (_, st, _) => Err (ErrHelloRead st)
              end
        | (_, st, _) => Err (ErrHelloRead st)
        end
      else if (magic =? 0x00010001) || (magic =? 0x00010000) || (magic =? Version13HelloMagic) then Err ErrTooOldVersion
      else Err ErrUnknownMagic
  | (_, st, _) => Err (ErrHelloRead st)
  end.
End Hello.
