(* ===== verification/ConnectionProps.v ===== *)
(** * Properties of a connection

    Messages are read as they were written, whatever is compressed; nothing
    reaches the model before the cluster configuration or without its checks;
    a response reaches the request that it answers. *)
From Stdlib Require Import ZArith List Lia.
From Stdlib Require Import Strings.Byte.
From stdpp Require Import base list option gmap numbers tactics.
From S2P Require Import Prelude GoLib Vector FileInfo FileInfoWire Paths Downloads Connection.

#[local] Open Scope Z_scope.

(** ** Framing *)

Section Framing.
Context (marshal : message -> bytes) (unmarshal : Z -> bytes -> option message).
Context (marshalHeader : Z * Z -> bytes) (unmarshalHeader : bytes -> option (Z * Z)).
Context (CompressBlock : bytes -> Z -> option bytes) (UncompressBlock : bytes -> Z -> option bytes).
Abbreviation readMessage := (readMessage unmarshal unmarshalHeader UncompressBlock).
Abbreviation readerLoop := (readerLoop unmarshal unmarshalHeader UncompressBlock).
Abbreviation writeMessage := (writeMessage marshal marshalHeader CompressBlock).

(** What is known of the protobuf code, for the messages that are sent, and of LZ4. *)
Context (sent : message -> Prop).
Definition header_ok (h : Z * Z) : Prop := 0 <= h.1 < 2 ^ 31 /\ 0 <= h.2 <= 1.
Record codec_laws : Prop :=
  { unmarshal_marshal m : sent m -> unmarshal (typeOf m) (marshal m) = Some m;
    unmarshal_header h : header_ok h -> unmarshalHeader (marshalHeader h) = Some h;
    header_small h : header_ok h -> zlen (marshalHeader h) < 2 ^ 15;
    uncompress_compress src cap c : CompressBlock src cap = Some c -> zlen c <= cap /\ UncompressBlock c (zlen src) = Some src }.
Context (laws : codec_laws).

Lemma read_app a b : read_ {| rd_data := a ++ b; rd_err := None |} (zlen a) = Ret (a, {| rd_data := b; rd_err := None |}).
Proof using.
  clear. unfold read_. rewrite readFull_full by (cbn; rewrite length_app; lia). cbn [rd_data rd_err].
  by rewrite Nat2Z.id, take_app_length, drop_app_length.
Qed.
Lemma known_typeOf m : known_type (typeOf m) = true.
Proof using. by destruct m. Qed.

(** One frame whose payload stands for [buf]. *)
Lemma typeOf_ok m comp : 0 <= comp <= 1 -> header_ok (typeOf m, comp).
Proof using. intros H. split; [|done]. by destruct m. Qed.
Lemma readMessage_frame typ comp payload buf rest : header_ok (typ, comp) -> zlen payload <= MaxMessageLen ->
  (if comp =? MESSAGE_COMPRESSION_NONE then Some payload
   else if comp =? MESSAGE_COMPRESSION_LZ4 then lz4Decompress UncompressBlock payload else None) = Some buf ->
  readMessage {| rd_data := frame (marshalHeader (typ, comp)) payload ++ rest; rd_err := None |} =
    (if negb (known_type typ) then Ret (None, {| rd_data := rest; rd_err := None |})
     else match unmarshal typ buf with
          | Some msg => Ret (Some msg, {| rd_data := rest; rd_err := None |})
          | None => Err ErrUnmarshal
          end).
Proof using laws.
  intros Hok Hlen Hbuf. pose proof (header_small laws (typ, comp) Hok) as Hh. pose proof (unmarshal_header laws (typ, comp) Hok) as Hu.
  revert Hh Hu. generalize (marshalHeader (typ, comp)) as hdr. intros hdr Hh Hu. unfold frame. rewrite <- !app_assoc.
  unfold Connection.readMessage, readHeader.
  pose proof (read_app (putBE 2 (zlen hdr)) (hdr ++ putBE 4 (zlen payload) ++ payload ++ rest)) as R1.
  rewrite putBE_length in R1. change (Z.of_nat 2) with 2 in R1. rewrite R1. cbn [mbind outcome_bind fst snd]. clear R1.
  rewrite getBE_putBE. assert (0 <= zlen hdr) by lia. rewrite Z.mod_small, iN_small by (cbn; lia).
  rewrite (proj2 (Z.ltb_ge _ _)) by lia. rewrite read_app. cbn [mbind outcome_bind fst snd]. rewrite Hu. cbn [mbind outcome_bind fst snd].
  pose proof (read_app (putBE 4 (zlen payload)) (payload ++ rest)) as R2.
  rewrite putBE_length in R2. change (Z.of_nat 4) with 4 in R2. rewrite R2. cbn [mbind outcome_bind fst snd]. clear R2.
  unfold MaxMessageLen in Hlen. rewrite getBE_putBE, Z.mod_small, i32_id by (unfold in_i32; cbn; lia).
  rewrite (proj2 (Z.ltb_ge _ _)), (proj2 (Z.ltb_ge _ _)) by (unfold MaxMessageLen; lia). rewrite read_app. cbn [mbind outcome_bind fst snd].
  destruct (comp =? MESSAGE_COMPRESSION_NONE); [by injection Hbuf as ->|]. destruct (comp =? MESSAGE_COMPRESSION_LZ4); [|done].
  by rewrite Hbuf.
Qed.
Lemma lz4_roundtrip src n c : lz4Compress CompressBlock src n = Some c -> zlen src <= MaxMessageLen -> n <= zlen src ->
  zlen c <= zlen src /\ lz4Decompress UncompressBlock c = Some src.
Proof using laws.
  unfold lz4Compress. intros H Hs Hn. destruct (CompressBlock src (n - 4)) as [c'|] eqn:E; [|done]. destruct (is_nil c') eqn:En; [done|].
  assert (c = putBE 4 (zlen src) ++ c') as -> by congruence. destruct (uncompress_compress laws _ _ _ E) as [Hc Hu]. rewrite length_app, putBE_length.
  split; [lia|]. unfold lz4Decompress. rewrite length_app, putBE_length, (proj2 (Z.ltb_ge _ _)) by lia.
  rewrite take_app_length', drop_app_length' by (by rewrite putBE_length). rewrite getBE_putBE. unfold MaxMessageLen in *.
  rewrite Z.mod_small by (cbn; lia). by rewrite (proj2 (Z.ltb_ge _ _)) by lia.
Qed.
Lemma readMessage_write comp m rest : sent m -> zlen (marshal m) <= MaxMessageLen ->
  exists bs, writeMessage comp m = Ret bs /\ bs <> [] /\
    readMessage {| rd_data := bs ++ rest; rd_err := None |} = Ret (Some m, {| rd_data := rest; rd_err := None |}).
Proof using laws.
  intros Hsent Hm. unfold Connection.writeMessage.
  assert (header_ok (typeOf m, MESSAGE_COMPRESSION_NONE)) as Hno by (by apply typeOf_ok).
  assert (header_ok (typeOf m, MESSAGE_COMPRESSION_LZ4)) as Hlz by (by apply typeOf_ok).
  pose proof (header_small laws _ Hno). pose proof (header_small laws _ Hlz).
  rewrite (proj2 (Z.ltb_ge _ _)) by lia.
  assert (exists bs, Ret (frame (marshalHeader (typeOf m, MESSAGE_COMPRESSION_NONE)) (marshal m)) = Ret (E := conn_err) bs /\ bs <> [] /\
    readMessage {| rd_data := bs ++ rest; rd_err := None |} = Ret (Some m, {| rd_data := rest; rd_err := None |})) as Hplain.
  { eexists. split; [done|]. split; [done|]. erewrite readMessage_frame by done. by rewrite known_typeOf, (unmarshal_marshal laws) by done. }
  destruct (shouldCompressMessage marshal comp m); [|exact Hplain]. unfold writeCompressedMessage.
  rewrite (proj2 (Z.ltb_ge _ _)) by lia.
  destruct (lz4Compress _ _ _) as [c|] eqn:E; [|exact Hplain]. cbn [mbind outcome_bind].
  apply lz4_roundtrip in E as [Hc Hd]; [|done|].
  - eexists. split; [done|]. split; [done|]. erewrite readMessage_frame by (done || lia). by rewrite known_typeOf, (unmarshal_marshal laws) by done.
  - assert (0 <= zlen (marshal m) / 32) by (apply Z.div_pos; lia). lia.
Qed.

(** C25: What one side writes, with any compression, the other reads: the same messages in the same order.
    A message of a type that is not known in between is skipped. *)
Theorem frames_roundtrip ms :
  Forall (fun x => sent x.2 /\ zlen (marshal x.2) <= MaxMessageLen) ms ->
  exists fs, map_outcome (fun x => writeMessage x.1 x.2) ms = Ret fs /\
    (forall fuel, (length fs < fuel)%nat -> readerLoop fuel (newReader (concat fs)) = (ms.*2, Err (ErrRead ReadEOF))) /\
    (forall fuel typ payload rest, known_type typ = false -> 0 <= typ < 2 ^ 31 -> zlen payload <= MaxMessageLen ->
       readerLoop (S fuel) (newReader (frame (marshalHeader (typ, MESSAGE_COMPRESSION_NONE)) payload ++ rest)) =
       readerLoop fuel (newReader rest)).
Proof using laws.
  intros Hms. assert (exists fs, map_outcome (fun x => writeMessage x.1 x.2) ms = Ret fs /\
    (forall fuel, (length fs < fuel)%nat -> readerLoop fuel (newReader (concat fs)) = (ms.*2, Err (ErrRead ReadEOF)))) as (fs & H1 & H2).
  { induction Hms as [|[comp m] ms [Hs Hm] _ (fs & H1 & H2)].
    - exists []. split; [done|]. intros [|fuel] Hf; [cbn in Hf; lia|done].
    - cbn [fst snd] in Hs, Hm. cbn [map_outcome fst snd]. destruct (readMessage_write comp m [] Hs Hm) as (bs & Hw & _ & _). rewrite Hw, H1.
      exists (bs :: fs). split; [done|]. intros [|fuel] Hf; [cbn in Hf; lia|]. cbn [Connection.readerLoop concat]. unfold newReader.
      destruct (readMessage_write comp m (concat fs) Hs Hm) as (bs' & Hw' & _ & Hr). assert (bs' = bs) as -> by congruence. rewrite Hr.
      unfold newReader in H2. rewrite H2 by (cbn in Hf; lia). done. }
  exists fs. split_and!; [done|done|]. intros fuel typ payload rest Ht Htyp Hp. cbn [Connection.readerLoop]. unfold newReader.
  erewrite readMessage_frame by done. by rewrite Ht.
Qed.
End Framing.

(** ** Dispatch *)

Section Dispatch.
Context (model : list delivery -> delivery -> option bytes).

(** What a message is to the model once the connection is ready. *)
Definition delivered (msg : message) : option delivery :=
  match dispatch stateReady msg with Ret (_, d) => d | _ => None end.
Definition checked (d : delivery) : Prop :=
  match d with
  | DIndex _ fs _ | DIndexUpdate _ fs _ _ => Forall (fun f => checkFileInfoConsistency f = Ret tt) fs
  | DRequest r => checkFilename (rqName r) = Ret tt /\ 0 <= rqSize r <= MaxRequestSize
  | _ => True
  end.
Definition is_cluster_config (d : delivery) : Prop := match d with DClusterConfig _ => True | _ => False end.

Lemma checkIndex_spec fs : checkIndexConsistency fs = Ret tt <-> Forall (fun f => checkFileInfoConsistency f = Ret tt) fs.
Proof using.
  clear. induction fs as [|f fs IH]; cbn; [by split|]. destruct (checkFileInfoConsistency f) as [ []| | |] eqn:E; cbn.
  - rewrite IH. split; [by constructor|apply Forall_inv_tail].
  - split; [done|]. intros H. apply Forall_inv in H. congruence.
  - split; [done|]. intros H. apply Forall_inv in H. congruence.
  - split; [done|]. intros H. apply Forall_inv in H. congruence.
Qed.
Lemma check_files_spec fs d x : check_files fs d = Ret x -> x = Some d /\ Forall (fun f => checkFileInfoConsistency f = Ret tt) fs.
Proof using.
  clear. unfold check_files. destruct (checkIndexConsistency fs) as [ []| | |] eqn:E; try done. intros [= <-]. split; [done|]. by apply checkIndex_spec.
Qed.
Lemma dispatch_spec st msg st' d : dispatch st msg = Ret (st', d) ->
  st' = stateReady /\ (st = stateReady \/ exists c, d = Some (DClusterConfig c)) /\ d = delivered msg /\ (forall x, d = Some x -> checked x).
Proof using.
  clear. unfold delivered, dispatch. destruct msg as [m|folder files last|folder files last prev|m|m|m| |reason]; cbn -[check_files MaxRequestSize checkFilename clusterConfigFromWire].
  - destruct (clusterConfigFromWire m) as [c| | |]; cbn; try done. intros [= <- <-]. split_and!; [done|right; by exists c|done|]. by intros x [= <-].
  - case_decide as Hst; [|done]. cbn -[check_files]. destruct (check_files _ _) as [y| | |] eqn:E; cbn; try done. intros [= <- <-].
    apply check_files_spec in E as [-> E]. split_and!; [done|by left|done|]. by intros x [= <-].
  - case_decide as Hst; [|done]. cbn -[check_files]. destruct (check_files _ _) as [y| | |] eqn:E; cbn; try done. intros [= <- <-].
    apply check_files_spec in E as [-> E]. split_and!; [done|by left|done|]. by intros x [= <-].
  - case_decide as Hst; [|done]. cbn -[MaxRequestSize checkFilename]. destruct (checkFilename (rqName m)) as [ []| | |] eqn:E; cbn -[MaxRequestSize]; try done.
    destruct (rqSize m <? 0) eqn:E1; [done|]. destruct (MaxRequestSize <? rqSize m) eqn:E2; [done|]. cbn. intros [= <- <-].
    split_and!; [done|by left|done|]. intros x [= <-]. apply Z.ltb_ge in E1, E2. cbn -[MaxRequestSize]. done.
  - case_decide as Hst; [|done]. cbn. intros [= <- <-]. split_and!; [done|by left|done|]. by intros x [= <-].
  - case_decide as Hst; [|done]. cbn. intros [= <- <-]. split_and!; [done|by left|done|]. by intros x [= <-].
  - case_decide as Hst; [|done]. cbn. intros [= <- <-]. split_and!; [done|by left|done|]. done.
  - done.
Qed.

Definition starts_with_config (ds : list delivery) : Prop := match ds with [] => True | d :: _ => is_cluster_config d end.
Lemma dispatcherLoop_spec st given inbox ds e : dispatcherLoop model st given inbox = (ds, e) ->
  starts_with_config given -> (st = stateReady -> given <> []) -> Forall checked given ->
  starts_with_config ds /\ Forall checked ds /\ exists k, ds = given ++ omap delivered (take k inbox).
Proof using.
  revert st given. induction inbox as [|msg inbox IH]; intros st given; cbn [dispatcherLoop].
  { intros [= <- <-] H1 _ H2. split_and!; [done..|]. exists O. by rewrite app_nil_r. }
  assert (forall e', (given, e') = (ds, e) -> starts_with_config given -> Forall checked given ->
    starts_with_config ds /\ Forall checked ds /\ exists k, ds = given ++ omap delivered (take k (msg :: inbox))) as Hstop.
  { intros e' [= <- <-] H1 H2. split_and!; [done..|]. exists O. by rewrite app_nil_r. }
  destruct (dispatch st msg) as [ [st' d]|e'| |] eqn:E; intros H H1 H2 H3; [|by eapply Hstop..].
  apply dispatch_spec in E as (-> & Hst & Hd & Hc).
  assert (forall x, d = Some x -> starts_with_config (given ++ [x]) /\ Forall checked (given ++ [x])) as Hadd.
  { intros x Hx. split; [|apply Forall_app; split; [done|by apply Forall_singleton, Hc] ].
    destruct given; [|done]. cbn. destruct Hst as [Hst|[c ->] ]; [by destruct (H2 Hst)|by injection Hx as <-]. }
  destruct d as [x|].
  - destruct (Hadd x eq_refl) as [Ha1 Ha2]. destruct (if can_fail x then model given x else None).
    + injection H as <- <-. split_and!; [done..|]. exists 1%nat. cbn. by rewrite <- Hd.
    + apply IH in H as (K1 & K2 & k & ->); [|done|intros _; by destruct given|done]. split_and!; [done..|]. exists (S k). cbn. by rewrite <- Hd, <- app_assoc.
  - apply IH in H as (K1 & K2 & k & ->); [|done|intros _; destruct Hst as [Hst|[c Hst] ]; [by apply H2|done]|done]. split_and!; [done..|]. exists (S k). cbn. by rewrite <- Hd.
Qed.

Lemma dispatcherLoop_all given inbox : Forall (fun msg => exists d, dispatch stateReady msg = Ret (stateReady, d)) inbox ->
  (forall given d, model given d = None) -> dispatcherLoop model stateReady given inbox = (given ++ omap delivered inbox, Err ErrClosed).
Proof using.
  intros H Hm. revert given. induction H as [|msg inbox [d Hd] _ IH]; intros given; cbn [dispatcherLoop]; [by rewrite app_nil_r|].
  rewrite Hd. assert (delivered msg = d) as Hd' by (unfold delivered; by rewrite Hd). cbn [omap list_omap]. rewrite Hd'.
  destruct d as [d|]; [|by rewrite IH]. rewrite Hm. destruct (can_fail d); rewrite IH; by rewrite <- app_assoc.
Qed.

(** A message that does not pass the checks. *)
Definition fails_check (msg : message) : Prop :=
  match msg with
  | MIndex _ files _ | MIndexUpdate _ files _ _ => Exists (fun w => checkFileInfoConsistency (FileInfoFromWire w) <> Ret tt) files
  | MRequest m => checkFilename (rqName m) <> Ret tt \/ rqSize m < 0 \/ MaxRequestSize < rqSize m
  | _ => False
  end.
Lemma map_outcome_no_error {E A B} (f : A -> outcome E B) xs e : (forall x, f x <> Err e) -> map_outcome f xs <> Err e.
Proof using.
  clear. intros Hf. induction xs as [|x xs IH]; cbn; [done|]. specialize (Hf x). destruct (f x) as [y|e'| |]; cbn; [|congruence|done|done].
  destruct (map_outcome f xs); cbn; congruence.
Qed.
Lemma cluster_no_error {E} m (e : E) : clusterConfigFromWire m <> Err e.
Proof using.
  clear. unfold clusterConfigFromWire. assert (map_outcome folderFromWire (wFolders m) <> Err e) as H; [|destruct (map_outcome _ _); cbn; congruence].
  apply map_outcome_no_error. intros f. unfold folderFromWire.
  assert (map_outcome deviceFromWire (wfDevices f) <> Err e) as H; [|destruct (map_outcome _ _); cbn; congruence].
  apply map_outcome_no_error. intros d. unfold deviceFromWire, to_DeviceID. by destruct (_ <? _).
Qed.
Lemma check_files_not_closed fs d : check_files fs d <> Err ErrClosed.
Proof using. clear. unfold check_files. by destruct (checkIndexConsistency fs) as [ []| | |]. Qed.
Lemma dispatch_not_closed st msg : dispatch st msg <> Err ErrClosed.
Proof using.
  clear. unfold dispatch. destruct msg as [m|folder files last|folder files last prev|m|m|m| |reason]; cbn -[check_files MaxRequestSize checkFilename clusterConfigFromWire].
  - pose proof (cluster_no_error m ErrClosed). destruct (clusterConfigFromWire m); cbn; congruence.
  - case_decide; cbn -[check_files]; [|done]. pose proof (check_files_not_closed (map FileInfoFromWire files) (DIndex folder (map FileInfoFromWire files) last)).
    destruct (check_files _ _); cbn; congruence.
  - case_decide; cbn -[check_files]; [|done]. pose proof (check_files_not_closed (map FileInfoFromWire files) (DIndexUpdate folder (map FileInfoFromWire files) last prev)).
    destruct (check_files _ _); cbn; congruence.
  - case_decide; cbn -[MaxRequestSize checkFilename]; [|done]. destruct (checkFilename (rqName m)); try done.
    by destruct (rqSize m <? 0), (MaxRequestSize <? rqSize m).
  - by case_decide.
  - by case_decide.
  - by case_decide.
  - done.
Qed.
Lemma fails_dispatch st msg r : fails_check msg -> dispatch st msg <> Ret r.
Proof using.
  clear. intros Hf H. unfold dispatch in H.
  destruct msg as [m|folder files last|folder files last prev|m|m|m| |reason]; try done; cbn -[check_files MaxRequestSize checkFilename] in *.
  - case_decide; [|done]. destruct (check_files _ _) as [y| | |] eqn:E; try done. apply check_files_spec in E as [_ E].
    apply Exists_exists in Hf as (w & Hw & Hn). rewrite Forall_forall in E. by apply Hn, E, in_map.
  - case_decide; [|done]. destruct (check_files _ _) as [y| | |] eqn:E; try done. apply check_files_spec in E as [_ E].
    apply Exists_exists in Hf as (w & Hw & Hn). rewrite Forall_forall in E. by apply Hn, E, in_map.
  - case_decide; [|done]. destruct (checkFilename (rqName m)) as [ []| | |] eqn:E; try done.
    destruct (rqSize m <? 0) eqn:E1; [done|]. destruct (MaxRequestSize <? rqSize m) eqn:E2; [done|]. apply Z.ltb_ge in E1, E2.
    destruct Hf as [?|[?|?] ]; [done|lia|lia].
Qed.
(** The loop over the first messages, and then over the others, if it gets there. *)
Lemma dispatcherLoop_app st given pre rest :
  (dispatcherLoop model st given (pre ++ rest) = dispatcherLoop model st given pre /\ (dispatcherLoop model st given pre).2 <> Err ErrClosed) \/
  exists st' given', dispatcherLoop model st given pre = (given', Err ErrClosed) /\
    dispatcherLoop model st given (pre ++ rest) = dispatcherLoop model st' given' rest.
Proof using.
  revert st given. induction pre as [|msg pre IH]; intros st given; [right; by exists st, given|]. cbn [app dispatcherLoop].
  pose proof (dispatch_not_closed st msg) as Hn. destruct (dispatch st msg) as [ [st' [d|] ]|e| |]; [|apply IH|left; split; [done|cbn; congruence]|by left|by left].
  destruct (if can_fail d then model given d else None); [by left|apply IH].
Qed.

(** C24: Whatever a device sends and the model answers, the model is given a
    cluster configuration first, files that passed every check, and requests for
    valid names and sizes, in the order in which they came and nothing else.  A
    message that does not pass the checks ends the connection, if it has not
    ended before: nothing of it or after it is given to the model, and the loop
    does not wait for more.  A device that starts with its configuration and
    sends valid messages is heard completely, if the model accepts them. *)
Theorem dispatch_checked inbox ds e (Hrun : dispatcherLoop model stateInitial [] inbox = (ds, e)) :
  starts_with_config ds /\ Forall checked ds /\ (exists k, ds = omap delivered (take k inbox)) /\
  (forall pre msg post, inbox = pre ++ msg :: post -> fails_check msg ->
   e <> Err ErrClosed /\ ds = (dispatcherLoop model stateInitial [] pre).1) /\
  ((exists m rest, inbox = MClusterConfig m :: rest) ->
   Forall (fun msg => exists d, dispatch stateReady msg = Ret (stateReady, d)) inbox -> (forall given d, model given d = None) ->
   ds = omap delivered inbox /\ e = Err ErrClosed).
Proof using.
  pose proof Hrun as H. apply dispatcherLoop_spec in H as (H1 & H2 & H3); [|done..]. split_and!; [done..| |].
  { intros pre msg post -> Hf. destruct (dispatcherLoop_app stateInitial [] pre (msg :: post)) as [ [E Hn]|(st' & given' & E & E')].
    - rewrite E in Hrun. rewrite Hrun in Hn |- *. done.
    - rewrite E. rewrite E' in Hrun. cbn [dispatcherLoop] in Hrun. pose proof (dispatch_not_closed st' msg) as Hn.
      pose proof (fails_dispatch st' msg) as Hd. destruct (dispatch st' msg) as [r|c| |]; [by destruct (Hd r Hf)|injection Hrun as Ha Hb; subst..]; (split; [|done]); congruence. }
  intros (m & rest & ->) Hv Hm. cbn [dispatcherLoop] in Hrun. destruct (Forall_inv Hv) as [d Hd].
  change (dispatch stateInitial (MClusterConfig m)) with (dispatch stateReady (MClusterConfig m)) in Hrun. rewrite Hd in Hrun.
  assert (delivered (MClusterConfig m) = d) as Hd' by (unfold delivered; by rewrite Hd). cbn [omap list_omap]. rewrite Hd'.
  apply Forall_inv_tail in Hv. destruct d as [d|].
  - rewrite Hm in Hrun. cbn [app] in Hrun. destruct (can_fail d); rewrite (dispatcherLoop_all _ _ Hv Hm) in Hrun; by injection Hrun as <- <-.
  - rewrite (dispatcherLoop_all _ _ Hv Hm) in Hrun. by injection Hrun as <- <-.
Qed.
End Dispatch.

(** A cluster configuration with a device ID of less than 32 bytes, from any connected device, is a panic of
    the program and not an error of the connection. *)
Lemma short_device_id_panics :
  let d := {| wdId := gostr "short"; wdName := []; wdAddresses := []; wdCompression := 0; wdCertName := []; wdMaxSequence := 0;
              wdIntroducer := false; wdIndexId := 0; wdSkip := false; wdToken := [] |} in
  let f := {| wfId := gostr "default"; wfLabel := []; wfType := 0; wfStopReason := 0; wfDevices := [d] |} in
  dispatcherLoop (fun _ _ => None) stateInitial [] [MClusterConfig {| wFolders := [f]; wSecondary := false |}] = ([], Panic).
Proof. by vm_compute. Qed.

(** ** Requests *)

Inductive request_op := OpRequest | OpResponse (r : Response) | OpClose.
Definition apply_op (t : requests) (op : request_op) : requests :=
  match op with
  | OpRequest => match register t with Ret (t, _) => t | _ => t end
  | OpResponse r => handleResponse r t
  | OpClose => internalClose t
  end.
(** One request on its own. *)
Inductive request_state := Unasked | Waiting | Answered (data : bytes) (err : option request_err) | Aborted.
(** The number of requests before, whether the connection was closed, and the state of request [k]. *)
Definition spec_step (k : Z) (s : Z * bool * request_state) (op : request_op) : Z * bool * request_state :=
  let '(n, closed, st) := s in
  match op with
  | OpRequest => (n + 1, closed, if n =? k then Waiting else st)
  | OpResponse r => (n, closed, match st with Waiting => if rsID r =? k then Answered (rsData r) (codeToError (rsCode r)) else st | _ => st end)
  | OpClose => (n, true, match st with Waiting => if closed then st else Aborted | _ => st end)
  end.
Definition spec (k : Z) (ops : list request_op) : Z * bool * request_state := fold_left (spec_step k) ops (0, false, Unasked).
Definition chan_of (st : request_state) : option asyncChan :=
  match st with
  | Unasked => None
  | Waiting => Some {| content := None; chanClosed := false |}
  | Answered data err => Some {| content := Some (data, err); chanClosed := true |}
  | Aborted => Some {| content := None; chanClosed := true |}
  end.
Definition table (ops : list request_op) : requests := fold_left apply_op ops no_requests.
Definition requests_of (ops : list request_op) : Z := zlen (List.filter (fun op => match op with OpRequest => true | _ => false end) ops).

(** The table after the operations, and each request on its own. *)
Definition agrees (ops : list request_op) (t : requests) : Prop :=
  let n := requests_of ops in
  nextID t = n /\ zlen (chans t) = n /\
  forall k, 0 <= k -> exists st, spec k ops = (n, connClosed t, st) /\ chans t !! Z.to_nat k = chan_of st /\
    (awaiting t !! k = match st with Waiting => Some (Z.to_nat k) | _ => None end) /\ (st = Unasked <-> n <= k).

Lemma requests_of_snoc ops op : requests_of (ops ++ [op]) = requests_of ops + (match op with OpRequest => 1 | _ => 0 end).
Proof. unfold requests_of. rewrite List.filter_app, length_app. destruct op; cbn; lia. Qed.
Lemma requests_of_nonneg ops : 0 <= requests_of ops.
Proof. unfold requests_of. lia. Qed.
Lemma spec_snoc k ops op : spec k (ops ++ [op]) = spec_step k (spec k ops) op.
Proof. unfold spec. by rewrite fold_left_app. Qed.
Lemma table_snoc ops op : table (ops ++ [op]) = apply_op (table ops) op.
Proof. unfold table. by rewrite fold_left_app. Qed.
Definition ids_asked (ops : list request_op) (t : requests) : Prop :=
  forall (k : Z) (i : nat), awaiting t !! k = Some i -> 0 <= k < requests_of ops.

Lemma register_agrees ops t : agrees ops t -> requests_of ops < 2 ^ 31 ->
  register t = Ret ({| awaiting := <[requests_of ops := Z.to_nat (requests_of ops)]> (awaiting t); nextID := requests_of ops + 1;
    chans := chans t ++ [{| content := None; chanClosed := false |}]; connClosed := connClosed t |}, requests_of ops).
Proof.
  intros (Hn & Hc & Hk) Hb. pose proof (requests_of_nonneg ops) as Hz. unfold register. rewrite Hn.
  destruct (Hk (requests_of ops) Hz) as (st & _ & _ & Ha & Hu). assert (st = Unasked) as -> by (by apply Hu). rewrite Ha.
  rewrite bool_decide_false by (by intros [? ?]). rewrite iN_small by (cbn; lia).
  replace (Z.to_nat (requests_of ops)) with (length (chans t)) by lia. done.
Qed.
Lemma request_agrees ops t : agrees ops t -> ids_asked ops t -> requests_of ops < 2 ^ 31 ->
  agrees (ops ++ [OpRequest]) (apply_op t OpRequest) /\ ids_asked (ops ++ [OpRequest]) (apply_op t OpRequest).
Proof.
  intros Hag Hid Hb. cbn [apply_op]. rewrite (register_agrees ops) by done. destruct Hag as (Hn & Hc & Hk). pose proof (requests_of_nonneg ops) as Hz.
  split.
  - unfold agrees. rewrite requests_of_snoc. cbn [nextID chans awaiting connClosed]. split_and!; [done|rewrite length_app; cbn; lia|].
    intros k Hk0. destruct (Hk k Hk0) as (st & Hs & Hch & Ha & Hu). rewrite spec_snoc, Hs. cbn [spec_step].
    destruct (Z.eqb_spec (requests_of ops) k) as [<-|Hne].
    + exists Waiting. split_and!; [done| |by rewrite lookup_insert_eq|split; [done|lia] ].
      rewrite lookup_app_r by lia. by replace (Z.to_nat (requests_of ops) - length (chans t))%nat with O by lia.
    + exists st. split_and!; [done| |by rewrite lookup_insert_ne|split; [intros H%Hu; lia|intros H; apply Hu; lia] ].
      destruct (decide (requests_of ops <= k)).
      * assert (st = Unasked) as -> by (by apply Hu). apply lookup_ge_None_2. rewrite length_app. cbn. lia.
      * rewrite lookup_app_l by lia. done.
  - intros k i. rewrite requests_of_snoc. cbn [awaiting]. destruct (decide (k = requests_of ops)) as [->|Hne]; [lia|].
    rewrite lookup_insert_ne by done. intros H%Hid. lia.
Qed.
Lemma response_agrees ops t r : agrees ops t -> ids_asked ops t ->
  agrees (ops ++ [OpResponse r]) (apply_op t (OpResponse r)) /\ ids_asked (ops ++ [OpResponse r]) (apply_op t (OpResponse r)).
Proof.
  intros (Hn & Hc & Hk) Hid. cbn [apply_op]. unfold handleResponse. unfold agrees, ids_asked. rewrite !requests_of_snoc, !Z.add_0_r.
  destruct (awaiting t !! rsID r) as [rc|] eqn:Er.
  - pose proof (Hid _ _ Er) as Hr. destruct (Hk (rsID r) (proj1 Hr)) as (str & Hsr & Hcr & Har & _). rewrite Er in Har.
    destruct str; try done. injection Har as ->. cbn [nextID chans awaiting connClosed]. split.
    + split_and!; [done|by rewrite length_alter|]. intros k Hk0. destruct (Hk k Hk0) as (st & Hs & Hch & Ha & Hu). rewrite spec_snoc, Hs. cbn [spec_step].
      destruct (decide (rsID r = k)) as [<-|Hne].
      * assert (st = Waiting) as -> by congruence. rewrite Z.eqb_refl. eexists. split_and!; [done| |by rewrite lookup_delete_eq|].
        -- rewrite list_lookup_alter_eq, Hch. done.
        -- by split; [done|lia].
      * exists st. rewrite (proj2 (Z.eqb_neq _ _)) by done. split_and!; [by destruct st| |by rewrite lookup_delete_ne|done].
        rewrite list_lookup_alter_ne by lia. done.
    + intros k i. destruct (decide (rsID r = k)) as [<-|Hne]; [by rewrite lookup_delete_eq|]. rewrite lookup_delete_ne by done. apply Hid.
  - split; [|done]. split_and!; [done..|]. intros k Hk0. destruct (Hk k Hk0) as (st & Hs & Hch & Ha & Hu). exists st. rewrite spec_snoc, Hs.
    split_and!; [|done..]. cbn [spec_step]. destruct st; try done.
    destruct (Z.eqb_spec (rsID r) k); congruence.
Qed.
Lemma close_agrees ops t : agrees ops t -> ids_asked ops t ->
  agrees (ops ++ [OpClose]) (apply_op t OpClose) /\ ids_asked (ops ++ [OpClose]) (apply_op t OpClose).
Proof.
  intros (Hn & Hc & Hk) Hid. cbn [apply_op]. unfold internalClose. unfold agrees, ids_asked. rewrite !requests_of_snoc, !Z.add_0_r.
  destruct (connClosed t) eqn:Ec.
  - split; [|done]. split_and!; [done..|]. intros k Hk0. destruct (Hk k Hk0) as (st & Hs & Hch & Ha & Hu). exists st. rewrite spec_snoc, Hs, Ec.
    by split_and!; [destruct st|..].
  - cbn [nextID chans awaiting connClosed]. split; [|by intros k i]. split_and!; [done|by rewrite length_imap|].
    intros k Hk0. destruct (Hk k Hk0) as (st & Hs & Hch & Ha & Hu). rewrite spec_snoc, Hs. cbn [spec_step].
    exists (match st with Waiting => Aborted | _ => st end). split_and!; [by destruct st| |by destruct st|rewrite <- Hu; by destruct st].
    rewrite list_lookup_imap, Hch.
    assert (Z.to_nat k ∈ (map_to_list (awaiting t)).*2 <-> st = Waiting) as Hin.
    { rewrite list_elem_of_fmap. split.
      - intros ([j i] & E & Hj). cbn in E. subst i. apply elem_of_map_to_list in Hj. pose proof (Hid _ _ Hj) as Hj0.
        destruct (Hk j (proj1 Hj0)) as (stj & Hsj & _ & Haj & _). rewrite Hj in Haj. destruct stj; try done. injection Haj as Haj.
        assert (j = k) as -> by lia. congruence.
      - intros ->. exists (k, Z.to_nat k). split; [done|]. by apply elem_of_map_to_list. }
    destruct st; cbn [chan_of fmap option_fmap option_map]; [done|rewrite bool_decide_true by (by apply Hin); done|..];
      rewrite bool_decide_false by (intros H%Hin; done); done.
Qed.
Lemma table_agrees ops : requests_of ops <= 2 ^ 31 -> agrees ops (table ops) /\ ids_asked ops (table ops).
Proof.
  induction ops as [|op ops IH] using rev_ind; intros Hb.
  - split; [|by intros k i]. split_and!; [done..|]. intros k Hk. by exists Unasked.
  - rewrite requests_of_snoc in Hb. rewrite table_snoc. destruct IH as [H1 H2]; [destruct op; lia|].
    destruct op; [apply request_agrees; [done..|lia]|by apply response_agrees|by apply close_agrees].
Qed.

(** C26: The table of requests against its specification, over any sequence of
    registered requests, responses from the peer and closings, with at most 2^31
    requests: they have different IDs that survive the wire, and what is in the
    channel of each, independently of all others, is the first response with its
    ID that came before a closing, or the closed channel if a closing came first
    while it was in the table; otherwise nothing, and its caller waits until one
    of these comes or its own context is cancelled (which leaves the table as it
    is).  A request that is registered after the closing, in a race with it, is
    not among those that are closed ([request_after_close]); the request after
    these 2^31 is not answered ([request_id_wraps]). *)
Theorem requests_answered ops (Hb : requests_of ops <= 2 ^ 31) k (Hk : 0 <= k < requests_of ops) :
  i32 k = k /\ (spec k ops).2 <> Unasked /\ exists ch, chans (table ops) !! Z.to_nat k = Some ch /\
  receive_result ch = match (spec k ops).2 with
                      | Answered data err => Some (Ret (data, err))
                      | Aborted => Some (Err ErrClosed)
                      | _ => None
                      end.
Proof.
  destruct (table_agrees ops Hb) as [(Hn & Hc & Hag) _]. destruct (Hag k (proj1 Hk)) as (st & Hs & Hch & _ & Hu).
  split; [apply i32_id; unfold in_i32; cbn; lia|]. rewrite Hs. cbn [snd]. assert (st <> Unasked) as Hst by (intros H%Hu; lia). split; [done|].
  rewrite Hch. destruct st; [done|..]; eexists; by split.
Qed.
(** The ID of the request after these does not survive the wire: its response is not found, and it waits. *)
Lemma request_id_wraps t : nextID t = 2 ^ 31 -> awaiting t = ∅ ->
  match register t with
  | Ret (t', id) =>
      let wire := rqID (request_toWire {| rqID := id; rqFolder := []; rqName := []; rqOffset := 0; rqSize := 0; rqHash := [];
                                          FromTemporary := false; BlockNo := 0 |}) in
      wire = - 2 ^ 31 /\ forall data code, handleResponse {| rsID := wire; rsData := data; rsCode := code |} t' = t'
  | _ => False
  end.
Proof.
  intros Hn Ha. unfold register. rewrite Hn, Ha, lookup_empty, bool_decide_false by (by intros [? ?]). cbv beta iota zeta.
  split; [by vm_compute|]. intros data code. unfold handleResponse. cbn [awaiting rsID].
  rewrite lookup_insert_ne; [by rewrite lookup_empty|]. by vm_compute.
Qed.
(** A request that is made after the connection was closed is not told: it was not in the table when the waiting
    requests were aborted, and a second close does nothing. *)
Lemma request_after_close ops : requests_of ops < 2 ^ 31 -> (spec (requests_of ops) (ops ++ [OpClose; OpRequest; OpClose])).2 = Waiting.
Proof.
  intros Hb. destruct (table_agrees ops) as [(_ & _ & Hag) _]; [lia|]. destruct (Hag (requests_of ops)) as (st & Hs & _); [apply requests_of_nonneg|].
  change [OpClose; OpRequest; OpClose] with ([OpClose] ++ [OpRequest] ++ [OpClose]). rewrite !app_assoc, !spec_snoc, Hs.
  cbn [spec_step]. rewrite Z.eqb_refl. done.
Qed.

(** ** Examples *)

(** A codec for the messages without content and a compression of zeros. *)
Definition ex_sent (m : message) : Prop := match m with MPing | MClose _ => True | _ => False end.
Definition ex_marshal (m : message) : bytes := match m with MClose reason => reason | _ => [] end.
Definition ex_unmarshal (typ : Z) (bs : bytes) : option message :=
  if typ =? 6 then Some MPing else if typ =? 7 then Some (MClose bs) else None.
Definition ex_marshalHeader (h : Z * Z) : bytes := putBE 4 h.1 ++ putBE 1 h.2.
Definition ex_unmarshalHeader (bs : bytes) : option (Z * Z) := Some (getBE (take 4 bs), getBE (drop 4 bs)).
Definition ex_compress (src : bytes) (cap : Z) : option bytes :=
  if bool_decide (src = replicate (length src) x00) && (1 <=? cap) then Some [x00] else None.
Definition ex_uncompress (c : bytes) (size : Z) : option bytes := if bool_decide (c = [x00]) then Some (replicate (Z.to_nat size) x00) else None.
Lemma ex_laws : codec_laws ex_marshal ex_unmarshal ex_marshalHeader ex_unmarshalHeader ex_compress ex_uncompress ex_sent.
Proof.
  split.
  - by intros [].
  - intros [typ comp] [H1 H2]. cbn [fst snd] in *. unfold ex_unmarshalHeader, ex_marshalHeader. cbn [fst snd].
    rewrite take_app_length', drop_app_length' by (by rewrite putBE_length). rewrite !getBE_putBE.
    by rewrite !Z.mod_small by (cbn; lia).
  - intros h _. unfold ex_marshalHeader. rewrite length_app, !putBE_length. done.
  - intros src cap c. unfold ex_compress, ex_uncompress. case_bool; [|done]. intros [= <-]. apply andb_true_iff in Heqb as [H1 H2].
    apply bool_decide_eq_true in H1. apply Z.leb_le in H2. split; [done|]. rewrite bool_decide_true by done. by rewrite Nat2Z.id, <- H1.
Qed.
Definition ex_messages : list (Compression * message) :=
  [(CompressionAlways, MPing); (CompressionAlways, MClose (replicate 200 x00)); (CompressionNever, MClose (gostr "bye"))].
Theorem frames_roundtrip_witness :
  exists fs, map_outcome (fun x => writeMessage ex_marshal ex_marshalHeader ex_compress x.1 x.2) ex_messages = Ret fs /\
    map length fs = [11; 16; 14]%nat /\
    readerLoop ex_unmarshal ex_unmarshalHeader ex_uncompress 4 (newReader (concat fs)) = (ex_messages.*2, Err (ErrRead ReadEOF)).
Proof.
  destruct (frames_roundtrip _ _ _ _ _ _ _ ex_laws ex_messages) as (fs & H1 & H2 & _); [by repeat constructor|].
  exists fs. assert (map_outcome (fun x => writeMessage ex_marshal ex_marshalHeader ex_compress x.1 x.2) ex_messages = Ret fs) as H by exact H1.
  split; [exact H1|]. assert (map length fs = [11; 16; 14]%nat) as Hl by (vm_compute in H; injection H as <-; reflexivity).
  split; [exact Hl|]. apply H2. apply (f_equal length) in Hl. rewrite length_map in Hl. rewrite Hl. by apply (bool_decide_unpack _).
Defined.

Definition ex_inbox : list message :=
  [MClusterConfig {| wFolders := []; wSecondary := false |};
   MRequest {| rqID := 0; rqFolder := gostr "default"; rqName := gostr "a.txt"; rqOffset := 0; rqSize := 5; rqHash := []; FromTemporary := false; BlockNo := 0 |};
   MRequest {| rqID := 1; rqFolder := gostr "default"; rqName := gostr "../a.txt"; rqOffset := 0; rqSize := 5; rqHash := []; FromTemporary := false; BlockNo := 0 |};
   MPing].
Theorem dispatch_checked_witness :
  exists ds e, dispatcherLoop (fun _ _ => None) stateInitial [] ex_inbox = (ds, e) /\ length ds = 2%nat /\ e = Err (ErrCheck (errName ErrInvalidFilename)) /\
    starts_with_config ds /\ Forall checked ds /\ (exists k, ds = omap delivered (take k ex_inbox)) /\
    ds = (dispatcherLoop (fun _ _ => None) stateInitial [] (take 2 ex_inbox)).1.
Proof.
  destruct (dispatcherLoop (fun _ _ => None) stateInitial [] ex_inbox) as [ds e] eqn:E. exists ds, e. split; [reflexivity|].
  destruct (dispatch_checked (fun _ _ => None) ex_inbox ds e E) as (H1 & H2 & H3 & H4 & _).
  destruct (H4 (take 2 ex_inbox) (nth 2 ex_inbox MPing) [MPing] eq_refl) as [_ H5]; [left; vm_compute; discriminate|].
  vm_compute in E. injection E as <- <-. split; [reflexivity|]. split; [reflexivity|]. exact (conj H1 (conj H2 (conj H3 H5))).
Defined.

Definition ex_request_ops : list request_op :=
  [OpRequest; OpRequest; OpResponse {| rsID := 1; rsData := gostr "block"; rsCode := 0 |}; OpRequest;
   OpResponse {| rsID := 1; rsData := gostr "again"; rsCode := 0 |}; OpResponse {| rsID := 2; rsData := []; rsCode := 2 |}; OpClose].
Theorem requests_answered_witness :
  map (fun k => (spec k ex_request_ops).2) [0; 1; 2] = [Aborted; Answered (gostr "block") None; Answered [] (Some ErrNoSuchFile)] /\
  (i32 1 = 1 /\ (spec 1 ex_request_ops).2 <> Unasked /\ exists ch, chans (table ex_request_ops) !! 1%nat = Some ch /\
     receive_result ch = match (spec 1 ex_request_ops).2 with
                         | Answered data err => Some (Ret (data, err)) | Aborted => Some (Err ErrClosed) | _ => None end).
Proof.
  split; [by vm_compute|]. apply (requests_answered ex_request_ops); [by vm_compute|by vm_compute].
Defined.
