(* ===== verification/Encryption.v ===== *)
(** * Encryption for untrusted devices (lib/protocol/encryption.go)

    Keys and their cache, the encryption of names, metadata and blocks, and the
    two wrappers: the encrypted model answers an untrusted device, the encrypted
    connection talks to one.  Ciphers, key derivation and the generated protobuf
    code are parameters; a nonce or padding drawn at random is an argument. *)
From Stdlib Require Import ZArith List Lia.
From Stdlib Require Import Strings.Byte.
From stdpp Require Import base list option gmap numbers tactics.
From S2P Require Import Prelude GoLib Vector FileInfo FileInfoWire Paths Downloads Connection EncryptedNames.

#[local] Open Scope Z_scope.

Definition nonceSize : Z := 24.
Definition tagSize : Z := 16.
Definition keySize : Z := 32.
Definition minPaddedSize : Z := 1024.
Definition blockOverhead : Z := tagSize + nonceSize.
Definition folderKeyCacheEntries : Z := 1000.
Definition fileKeyCacheEntries : Z := 5000.

(** ** Libraries *)

(** A cache of bounded size, which forgets what it likes. *)
Class Cache (C K V : Type) :=
  { cache_new : Z -> C; cache_Get : K -> C -> option V * C; cache_Add : K -> V -> C -> C }.
(** What a cache promises: it gives only what was added under the key. *)
Class CacheLaws (C K V : Type) `{Cache C K V} :=
  { cached : C -> K -> V -> Prop;
    cached_new n k v : ~ cached (cache_new n) k v;
    cached_Get k v c : (cache_Get k c).1 = Some v -> cached c k v;
    cached_Get_state k c k' v' : cached (cache_Get k c).2 k' v' -> cached c k' v';
    cached_Add k v c k' v' : cached (cache_Add k v c) k' v' -> (k' = k /\ v' = v) \/ cached c k' v' }.

Class Crypto :=
  { SealSIV : bytes -> bytes -> bytes -> bytes; (* key, data, additional data *)
    OpenSIV : bytes -> bytes -> bytes -> option bytes;
    SealX : bytes -> bytes -> bytes -> bytes; (* key, nonce, data *)
    OpenX : bytes -> bytes -> bytes -> option bytes;
    scrypt_Key : bytes -> bytes -> Z -> Z -> Z -> Z -> option bytes; (* password, salt, N, r, p, length *)
    hkdf_Read : bytes -> bytes -> Z -> option bytes; (* SHA-256; secret, salt, the first bytes *)
    marshalFile : bep_FileInfo -> option bytes;
    unmarshalFile : bytes -> option bep_FileInfo }.

Definition set_Sequence (n : Z) (f : FileInfo) : FileInfo :=
  {| Name := Name f; FSize := FSize f; ModifiedS := ModifiedS f; ModifiedBy := ModifiedBy f; Version := Version f; Sequence := n;
     Blocks := Blocks f; SymlinkTarget := SymlinkTarget f; BlocksHash := BlocksHash f; PreviousBlocksHash := PreviousBlocksHash f;
     Encrypted := Encrypted f; Platform := Platform f; Type_ := Type_ f; Permissions := Permissions f; ModifiedNs := ModifiedNs f;
     RawBlockSize := RawBlockSize f; LocalFlags := LocalFlags f; EncryptionTrailerSize := EncryptionTrailerSize f;
     Deleted := Deleted f; NoPermissions := NoPermissions f; truncated := truncated f |}.

Section Encryption.
Context `{Crypto} {CF CK : Type} `{Cache CF (bytes * bytes) bytes} `{Cache CK (bytes * bytes) bytes}.

(** ** Ciphers *)

Definition encryptDeterministic (data key additionalData : bytes) : bytes := SealSIV key data additionalData.
Definition decryptDeterministic (data key additionalData : bytes) : option bytes := OpenSIV key data additionalData.
(** The data is appended to the nonce. *)
Definition encrypt (data nonce key : bytes) : bytes := nonce ++ SealX key nonce data.
(** [encryptBytes], with the nonce that [randomNonce] draws. *)
Definition encryptBytes (nonce data key : bytes) : bytes := encrypt data nonce key.
Definition DecryptBytes (data key : bytes) : outcome enc_err bytes :=
  if zlen data <? blockOverhead then Err ErrTooShort
  else
    match OpenX key (take (Z.to_nat nonceSize) data) (drop (Z.to_nat nonceSize) data) with
    | Some dec => Ret dec
    | None => Err ErrDecrypt
    end.

(** ** Keys *)

Record KeyGenerator := { kg_folderKeys : CF; kg_fileKeys : CK }.
Definition NewKeyGenerator : KeyGenerator :=
  {| kg_folderKeys := cache_new folderKeyCacheEntries; kg_fileKeys := cache_new fileKeyCacheEntries |}.
Abbreviation KG := (SM KeyGenerator enc_err).

Definition knownBytes (folderID : bytes) : bytes := gostr "syncthing" ++ folderID.
Definition hkdfSalt : bytes := gostr "syncthing".

Definition KeyFromPassword (folderID password : bytes) : KG bytes := fun g =>
  match cache_Get (folderID, password) (kg_folderKeys g) with
  | (Some key, c) => ({| kg_folderKeys := c; kg_fileKeys := kg_fileKeys g |}, Ret key)
  | (None, c) =>
      let g := {| kg_folderKeys := c; kg_fileKeys := kg_fileKeys g |} in
      match scrypt_Key password (knownBytes folderID) 32768 8 1 keySize with
      | None => (g, Panic)
      | Some bs =>
          if negb (zlen bs =? keySize) then (g, Panic)
          else ({| kg_folderKeys := cache_Add (folderID, password) bs c; kg_fileKeys := kg_fileKeys g |}, Ret bs)
      end
  end.
Definition FileKey (filename folderKey : bytes) : KG bytes := fun g =>
  match cache_Get (filename, folderKey) (kg_fileKeys g) with
  | (Some key, c) => ({| kg_folderKeys := kg_folderKeys g; kg_fileKeys := c |}, Ret key)
  | (None, c) =>
      let g := {| kg_folderKeys := kg_folderKeys g; kg_fileKeys := c |} in
      match hkdf_Read (folderKey ++ filename) hkdfSalt keySize with
      | None => (g, Panic)
      | Some bs =>
          if negb (zlen bs =? keySize) then (g, Panic)
          else ({| kg_folderKeys := kg_folderKeys g; kg_fileKeys := cache_Add (filename, folderKey) bs c |}, Ret bs)
      end
  end.
Definition PasswordToken (folderID password : bytes) : KG bytes :=
  key ← KeyFromPassword folderID password;
  mret (encryptDeterministic (knownBytes folderID) key []).
(** The passwords in the order in which the map is ranged over. *)
Fixpoint keysFromPasswords (passwords : list (bytes * bytes)) (res : gmap bytes bytes) : KG (gmap bytes bytes) :=
  match passwords with
  | [] => mret res
  | (folder, password) :: passwords =>
      key ← KeyFromPassword folder password;
      keysFromPasswords passwords (<[folder := key]> res)
  end.

(** ** Names *)

Definition encryptName (name key : bytes) : outcome enc_err bytes :=
  slashify (EncodeToString (encryptDeterministic name key [])).
Definition decryptName (name key : bytes) : outcome enc_err bytes :=
  name ← deslashify name;
  match DecodeString name with
  | None => Err ErrBase32
  | Some bs =>
      match decryptDeterministic bs key [] with
      | None => Err ErrDecrypt
      | Some dec => Ret dec
      end
  end.

(** ** Metadata *)

Definition encryptBlockHash (hash : bytes) (offset : Z) (fileKey : bytes) : bytes :=
  encryptDeterministic hash fileKey (putBE 8 (u64 offset)).
(** The counters of the fake version are added up. *)
Fixpoint sum_counters (acc : Z) (cs : list Counter) : Z :=
  match cs with [] => acc | c :: cs => sum_counters (u64 (acc + Value c)) cs end.
(** The fake blocks and their total size. *)
Fixpoint fake_blocks (fileKey : bytes) (offset : Z) (bs : list BlockInfo) : list BlockInfo * Z :=
  match bs with
  | [] => ([], offset)
  | b :: bs =>
      let bSize := if Size b <? minPaddedSize then minPaddedSize else Size b in
      let size := i64 (bSize + blockOverhead) in
      let fake := {| Hash := encryptBlockHash (Hash b) (Offset b) fileKey; Offset := offset; Size := size |} in
      let '(fakes, total) := fake_blocks fileKey (i64 (offset + size)) bs in
      (fake :: fakes, total)
  end.
Definition encryptFileInfo (nonce : bytes) (fi : FileInfo) (folderKey : bytes) : KG FileInfo :=
  fileKey ← FileKey (Name fi) folderKey;
  w ← slift (match ToWire false fi with Ret w => Ret w | _ => Panic end);
  match marshalFile w with
  | None => spanic
  | Some bs =>
      let encryptedFI := encryptBytes nonce bs fileKey in
      let version := {| Counters := [{| Vector.ID := 1; Value := sum_counters 0 (Counters (Version fi)) |}] |} in
      let '(blocks, offset) := fake_blocks fileKey 0 (Blocks fi) in
      let typ := if negb (Type_ fi =? FileInfoTypeFile) then FileInfoTypeDirectory else FileInfoTypeFile in
      let isFile := typ =? FileInfoTypeFile in
      name ← slift (encryptName (Name fi) folderKey);
      mret {| Name := name; FSize := if isFile then offset else 0; ModifiedS := 1234567890; ModifiedBy := 0; Version := version;
              Sequence := Sequence fi; Blocks := if isFile then blocks else []; SymlinkTarget := []; BlocksHash := [];
              PreviousBlocksHash := []; Encrypted := encryptedFI; Platform := emptyPlatform; Type_ := typ; Permissions := 420;
              ModifiedNs := 0; RawBlockSize := if isFile then i32 (FileInfo_BlockSize fi + blockOverhead) else 0;
              LocalFlags := if IsInvalid fi then FlagLocalRemoteInvalid else 0; EncryptionTrailerSize := 0;
              Deleted := Deleted fi; NoPermissions := false; truncated := false |}
  end.
(** The files of a slice are replaced one by one; [nonces] are those drawn for them. *)
Fixpoint encryptFileInfos (nonces : nat -> bytes) (files : list FileInfo) (folderKey : bytes) : KG (list FileInfo) :=
  match files with
  | [] => mret []
  | fi :: files =>
      enc ← encryptFileInfo (nonces O) fi folderKey;
      encs ← encryptFileInfos (fun i => nonces (S i)) files folderKey;
      mret (enc :: encs)
  end.

Definition DecryptFileInfo (fi : FileInfo) (folderKey : bytes) : KG FileInfo :=
  realName ← slift (decryptName (Name fi) folderKey);
  fileKey ← FileKey realName folderKey;
  dec ← slift (DecryptBytes (Encrypted fi) fileKey);
  match unmarshalFile dec with
  | None => sfail ErrProto
  | Some decFI => mret (set_Sequence (Sequence fi) (FileInfoFromWire decFI))
  end.
Fixpoint decryptFileInfos (files : list FileInfo) (folderKey : bytes) : KG (list FileInfo) :=
  match files with
  | [] => mret []
  | fi :: files =>
      dec ← DecryptFileInfo fi folderKey;
      decs ← decryptFileInfos files folderKey;
      mret (dec :: decs)
  end.

(** ** The wrappers

    [W] is the state of what is wrapped, the model or the raw connection.  The
    registry of folder keys is shared by the two wrappers of a connection. *)

Section Wrappers.
Context {W IE : Type}.
Record encState := { keyGen : KeyGenerator; folderKeys : gmap bytes bytes; world : W }.
Inductive em_err := EncErr (e : enc_err) | ErrShortRequest | Inner (e : IE).

Definition with_keys {A} (m : KG A) : SM encState em_err A := fun s =>
  let '(g, r) := m (keyGen s) in
  ({| keyGen := g; folderKeys := folderKeys s; world := world s |},
   match r with Ret a => Ret a | Err e => Err (EncErr e) | Panic => Panic | OutOfFuel => OutOfFuel end).
Definition inner {A} (m : SM W IE A) : SM encState em_err A := fun s =>
  let '(w, r) := m (world s) in
  ({| keyGen := keyGen s; folderKeys := folderKeys s; world := w |},
   match r with Ret a => Ret a | Err e => Err (Inner e) | Panic => Panic | OutOfFuel => OutOfFuel end).
Definition registry_get (folder : bytes) : SM encState em_err (option bytes) := s ← sget; mret (folderKeys s !! folder).
Definition setPasswords (passwords : list (bytes * bytes)) : SM encState em_err unit :=
  keys ← with_keys (keysFromPasswords passwords ∅);
  smodify (fun s => {| keyGen := keyGen s; folderKeys := keys; world := world s |}).

(** *** The encrypted model *)

Context (model_Index : bytes -> list FileInfo -> Z -> SM W IE unit) (model_IndexUpdate : bytes -> list FileInfo -> Z -> Z -> SM W IE unit).
Context (model_Request : Request -> SM W IE bytes) (model_DownloadProgress : DownloadProgress -> SM W IE unit).

Definition encryptedModel_Index (folder : bytes) (files : list FileInfo) (last : Z) : SM encState em_err unit :=
  key ← registry_get folder;
  files ← (match key with Some folderKey => with_keys (decryptFileInfos files folderKey) | None => mret files end);
  inner (model_Index folder files last).
Definition encryptedModel_IndexUpdate (folder : bytes) (files : list FileInfo) (last prev : Z) : SM encState em_err unit :=
  key ← registry_get folder;
  files ← (match key with Some folderKey => with_keys (decryptFileInfos files folderKey) | None => mret files end);
  inner (model_IndexUpdate folder files last prev).

Definition decryptBlockHash (hash fileKey : bytes) (realOffset : Z) : outcome enc_err bytes :=
  match decryptDeterministic hash fileKey (putBE 8 (u64 realOffset)) with
  | Some h => Ret h
  | None =>
      match decryptDeterministic hash fileKey [] with
      | Some h => Ret h
      | None => Err ErrDecrypt
      end
  end.
(** What is read past the data of a small block is random. *)
Definition pad_block (random data : bytes) : bytes :=
  if zlen data <? minPaddedSize then data ++ drop (length data) random else data.
Definition encryptedModel_Request (nonce random : bytes) (req : Request) : SM encState em_err bytes :=
  key ← registry_get (rqFolder req);
  match key with
  | None => inner (model_Request req)
  | Some folderKey =>
      realName ← with_keys (slift (decryptName (rqName req) folderKey));
      let realSize := i64 (rqSize req - blockOverhead) in
      let realOffset := i64 (rqOffset req - i64 (BlockNo req * blockOverhead)) in
      if rqSize req <? minPaddedSize then sfail ErrShortRequest
      else
        fileKey ← with_keys (FileKey realName folderKey);
        realHash ← with_keys (slift (if 0 <? zlen (rqHash req) then decryptBlockHash (rqHash req) fileKey realOffset else Ret []));
        data ← inner (model_Request
          {| rqID := rqID req; rqFolder := rqFolder req; rqName := realName; rqOffset := realOffset; rqSize := realSize;
             rqHash := realHash; FromTemporary := FromTemporary req; BlockNo := BlockNo req |});
        mret (encryptBytes nonce (pad_block random data) fileKey)
  end.
Definition encryptedModel_DownloadProgress (p : DownloadProgress) : SM encState em_err unit :=
  key ← registry_get (dpFolder p);
  match key with None => inner (model_DownloadProgress p) | Some _ => mret tt end.

(** *** The encrypted connection *)

Context (conn_Index : bytes -> list FileInfo -> Z -> SM W IE unit) (conn_IndexUpdate : bytes -> list FileInfo -> Z -> Z -> SM W IE unit).
Context (conn_Request : Request -> SM W IE bytes) (conn_DownloadProgress : DownloadProgress -> SM W IE unit).
Context (conn_ClusterConfig : ClusterConfig -> SM W IE unit).

Definition encryptedConnection_Index (nonces : nat -> bytes) (folder : bytes) (files : list FileInfo) (last : Z) : SM encState em_err unit :=
  key ← registry_get folder;
  files ← (match key with Some folderKey => with_keys (encryptFileInfos nonces files folderKey) | None => mret files end);
  inner (conn_Index folder files last).
Definition encryptedConnection_IndexUpdate (nonces : nat -> bytes) (folder : bytes) (files : list FileInfo) (last prev : Z) : SM encState em_err unit :=
  key ← registry_get folder;
  files ← (match key with Some folderKey => with_keys (encryptFileInfos nonces files folderKey) | None => mret files end);
  inner (conn_IndexUpdate folder files last prev).
(** [bs[:size]]: a decrypted block has no capacity beyond its length. *)
Definition slice_to {E} (bs : bytes) (size : Z) : outcome E bytes :=
  if (size <? 0) || (zlen bs <? size) then Panic else Ret (take (Z.to_nat size) bs).
Definition encryptedConnection_Request (req : Request) : SM encState em_err bytes :=
  key ← registry_get (rqFolder req);
  match key with
  | None => inner (conn_Request req)
  | Some folderKey =>
      fileKey ← with_keys (FileKey (rqName req) folderKey);
      let encSize := i64 ((if rqSize req <? minPaddedSize then minPaddedSize else rqSize req) + blockOverhead) in
      encName ← with_keys (slift (encryptName (rqName req) folderKey));
      let encOffset := i64 (rqOffset req + i64 (BlockNo req * blockOverhead)) in
      let encHash := encryptBlockHash (rqHash req) (rqOffset req) fileKey in
      bs ← inner (conn_Request
        {| rqID := rqID req; rqFolder := rqFolder req; rqName := encName; rqOffset := encOffset; rqSize := encSize;
           rqHash := encHash; FromTemporary := false; BlockNo := BlockNo req |});
      bs ← with_keys (slift (DecryptBytes bs fileKey));
      slift (slice_to bs (rqSize req))
  end.
Definition encryptedConnection_DownloadProgress (dp : DownloadProgress) : SM encState em_err unit :=
  key ← registry_get (dpFolder dp);
  match key with None => inner (conn_DownloadProgress dp) | Some _ => mret tt end.
Definition encryptedConnection_ClusterConfig (config : ClusterConfig) (passwords : list (bytes * bytes)) : SM encState em_err unit :=
  setPasswords passwords;;
  inner (conn_ClusterConfig config).
End Wrappers.
End Encryption.
