(* ===== verification/EncryptionProps.v ===== *)
(** * Encryption for untrusted devices: theorems

    The cache of keys changes nothing; names, metadata and blocks that went
    through an untrusted device are read back; what such a device is sent passes
    its checks.  Two cases where the code does not do what it means to are at the
    end. *)
From Stdlib Require Import ZArith List Lia Sorted.
From Stdlib Require Import Strings.Byte.
From stdpp Require Import base list option gmap numbers tactics.
From S2P Require Import Prelude GoLib Vector FileInfo FileInfoWire Paths Downloads Connection EncryptedNames Encryption.

#[local] Open Scope Z_scope.

(** What the libraries promise: what was sealed is opened with the same key,
    nonce and additional data, the overhead is the tag, keys have the length that
    was asked for, and messages are read as written. *)
Class CryptoLaws `{Crypto} : Prop :=
  { siv_open k d a : OpenSIV k (SealSIV k d a) a = Some d;
    siv_length k d a : zlen (SealSIV k d a) = zlen d + tagSize;
    x_open k n d : zlen n = nonceSize -> OpenX k n (SealX k n d) = Some d;
    x_length k n d : zlen (SealX k n d) = zlen d + tagSize;
    scrypt_total pw salt N r p : exists bs, scrypt_Key pw salt N r p keySize = Some bs /\ zlen bs = keySize;
    hkdf_total secret salt : exists bs, hkdf_Read secret salt keySize = Some bs /\ zlen bs = keySize;
    proto_read w bs : marshalFile w = Some bs -> unmarshalFile bs = Some w }.

(** ** A logic of results

    [gives I m r]: from any state with [I] the program ends with the result [r]
    in a state with [I]. *)
Section Gives.
Context {S E : Type} (I : S -> Prop).
Definition gives {A} (m : SM S E A) (r : outcome E A) : Prop := forall s, I s -> exists s', m s = (s', r) /\ I s'.
Lemma gives_ret {A} (a : A) : gives (mret a) (Ret a).
Proof. intros s Hs. by exists s. Qed.
Lemma gives_lift {A} (m : outcome E A) : gives (slift m) m.
Proof. intros s Hs. by exists s. Qed.
Lemma gives_bind {A B} (m : SM S E A) (f : A -> SM S E B) a r : gives m (Ret a) -> gives (f a) r -> gives (m ≫= f) r.
Proof.
  intros Hm Hf s Hs. destruct (Hm s Hs) as (s1 & E1 & H1). destruct (Hf s1 H1) as (s2 & E2 & H2).
  exists s2. split; [|done]. by rewrite (sm_bind_Ret _ _ _ _ _ E1).
Qed.
Lemma gives_bind_err {A B} (m : SM S E A) (f : A -> SM S E B) e : gives m (Err e) -> gives (m ≫= f) (Err e).
Proof.
  intros Hm s Hs. destruct (Hm s Hs) as (s1 & E1 & H1). exists s1. split; [|done]. by rewrite (sm_bind_Err _ _ _ _ _ E1).
Qed.
End Gives.
Create HintDb gives discriminated.
#[export] Hint Resolve gives_ret gives_lift : gives.

(** A cache that holds only what a function gives. *)
Section Memo.
Context {C K V : Type} `{CacheLaws C K V} (f : K -> V).
Definition memo (c : C) : Prop := forall k v, cached c k v -> v = f k.
Lemma memo_new n : memo (cache_new n).
Proof. intros k v Hc. by apply cached_new in Hc. Qed.
Lemma memo_Get k c : memo c -> memo (cache_Get k c).2 /\ forall v, (cache_Get k c).1 = Some v -> v = f k.
Proof.
  intros Hc. split.
  - intros k' v' Hv. by apply Hc, (cached_Get_state k).
  - intros v Hv. by apply Hc, cached_Get.
Qed.
Lemma memo_Add k c : memo c -> memo (cache_Add k (f k) c).
Proof. intros Hc k' v' [ [-> ->]|Hv]%cached_Add; [done|by apply Hc]. Qed.
End Memo.

Section Keys.
Context `{CryptoLaws} {CF CK : Type} `{CacheLaws CF (bytes * bytes) bytes} `{CacheLaws CK (bytes * bytes) bytes}.
Abbreviation KeyGenerator := (@KeyGenerator CF CK).

(** The keys without the caches. *)
Definition folder_key (folderID password : bytes) : bytes := default [] (scrypt_Key password (knownBytes folderID) 32768 8 1 keySize).
Definition file_key (name folderKey : bytes) : bytes := default [] (hkdf_Read (folderKey ++ name) hkdfSalt keySize).

(** The caches hold what would be computed. *)
Definition keys_ok (g : KeyGenerator) : Prop :=
  memo (fun k => folder_key k.1 k.2) (kg_folderKeys g) /\ memo (fun k => file_key k.1 k.2) (kg_fileKeys g).

Lemma keys_ok_new : keys_ok NewKeyGenerator.
Proof. split; apply memo_new. Qed.

Lemma folder_key_spec folder password :
  scrypt_Key password (knownBytes folder) 32768 8 1 keySize = Some (folder_key folder password) /\ zlen (folder_key folder password) = keySize.
Proof. unfold folder_key. by destruct (scrypt_total password (knownBytes folder) 32768 8 1) as (bs & -> & ?). Qed.
Lemma file_key_spec name folderKey :
  hkdf_Read (folderKey ++ name) hkdfSalt keySize = Some (file_key name folderKey) /\ zlen (file_key name folderKey) = keySize.
Proof. unfold file_key. by destruct (hkdf_total (folderKey ++ name) hkdfSalt) as (bs & -> & ?). Qed.

Lemma KeyFromPassword_gives folder password : gives keys_ok (KeyFromPassword folder password) (Ret (folder_key folder password)).
Proof.
  intros g [Hf Hk]. unfold KeyFromPassword. destruct (memo_Get _ (folder, password) _ Hf) as [Hs Hv].
  destruct (cache_Get (folder, password) (kg_folderKeys g)) as [ [key|] c]; cbn [fst snd] in *.
  - rewrite (Hv key eq_refl). by eexists.
  - destruct (folder_key_spec folder password) as [-> ->]. eexists. split; [done|]. split; [|done].
    by apply (memo_Add (fun k => folder_key k.1 k.2) (folder, password)).
Qed.
Lemma FileKey_gives name folderKey : gives keys_ok (FileKey name folderKey) (Ret (file_key name folderKey)).
Proof.
  intros g [Hf Hk]. unfold FileKey. destruct (memo_Get _ (name, folderKey) _ Hk) as [Hs Hv].
  destruct (cache_Get (name, folderKey) (kg_fileKeys g)) as [ [key|] c]; cbn [fst snd] in *.
  - rewrite (Hv key eq_refl). by eexists.
  - destruct (file_key_spec name folderKey) as [-> ->]. eexists. split; [done|]. split; [done|].
    by apply (memo_Add (fun k => file_key k.1 k.2) (name, folderKey)).
Qed.

(** A use of the generator: some keys are asked for. *)
Inductive key_op := OpFolder (folder password : bytes) | OpFile (name folderKey : bytes).
Definition key_do (op : key_op) : SM KeyGenerator enc_err bytes :=
  match op with OpFolder f p => KeyFromPassword f p | OpFile n k => FileKey n k end.
Fixpoint key_run (ops : list key_op) : SM KeyGenerator enc_err (list bytes) :=
  match ops with [] => mret [] | op :: ops => key ← key_do op; keys ← key_run ops; mret (key :: keys) end.
Definition key_of (op : key_op) : bytes := match op with OpFolder f p => folder_key f p | OpFile n k => file_key n k end.

Lemma key_run_gives ops : gives keys_ok (key_run ops) (Ret (map key_of ops)).
Proof.
  induction ops as [|op ops IH]; cbn [key_run map]; [apply gives_ret|].
  apply gives_bind with (a := key_of op); [destruct op; [apply KeyFromPassword_gives|apply FileKey_gives]|].
  eapply gives_bind; [exact IH|]. apply gives_ret.
Qed.

(** The caches of keys are transparent: whatever keys were asked for before and
    whatever a cache has forgotten, every key is the one that is derived from the
    password or from the name, it has the length of a key, and no call panics. *)
Theorem keys_cached ops :
  (exists g, key_run ops NewKeyGenerator = (g, Ret (map key_of ops))) /\ Forall (fun op => zlen (key_of op) = keySize) ops.
Proof.
  split.
  - destruct (key_run_gives ops _ keys_ok_new) as (g & E & _). by exists g.
  - apply List.Forall_forall. intros op _. destruct op; [apply folder_key_spec|apply file_key_spec].
Qed.
End Keys.

(** ** Names *)

Section Names.
Context `{CryptoLaws}.

Lemma encoded_length key name :
  let s := EncodeToString (encryptDeterministic name key []) in (3 < length s)%nat /\ (length s mod 8 <> 3)%nat.
Proof.
  cbv zeta. unfold encryptDeterministic. destruct (hex32_roundtrip (SealSIV key name [])) as (_ & -> & _).
  split; [|apply hex32_length_mod]. pose proof (siv_length key name []) as Hl. unfold tagSize in Hl.
  apply Nat.div_le_lower_bound; lia.
Qed.

Lemma encryptName_spec key name :
  let cs := tree_of (EncodeToString (encryptDeterministic name key [])) in
  encryptName name key = Ret (join PathSeparator cs) /\ decryptName (join PathSeparator cs) key = Ret name /\
  checkFilename (join PathSeparator cs) = Ret tt /\ PathComponents (join PathSeparator cs) = cs.
Proof.
  cbv zeta. destruct (encoded_length key name) as [Hl _]. unfold encryptName, decryptName.
  destruct (slashify_spec (E:=enc_err) (EncodeToString (encryptDeterministic name key []))) as (-> & -> & Hc & Hn);
    [lia|apply hex32_roundtrip|].
  split; [done|]. split; [|done]. cbn. rewrite DecodeString_EncodeToString. unfold decryptDeterministic, encryptDeterministic.
  by rewrite siv_open.
Qed.

(** Encrypted names are good names: the encryption of a name does not panic, it
    is decrypted to that name, it is a name other devices accept, its elements have
    at most 200 bytes, and among the path and the directories above it
    [IsEncryptedParent] recognises exactly the directories. *)
Theorem encrypted_names key name :
  exists cs, encryptName name key = Ret (join PathSeparator cs) /\ decryptName (join PathSeparator cs) key = Ret name /\
    checkFilename (join PathSeparator cs) = Ret tt /\ PathComponents (join PathSeparator cs) = cs /\
    Forall (fun c => (length c <= 200)%nat) cs /\
    forall k, (k <= length cs)%nat -> IsEncryptedParent (take k cs) = bool_decide (0 < k < length cs)%nat.
Proof.
  destruct (encryptName_spec key name) as (He & Hd & Hc & Hp). destruct (encoded_length key name) as [Hl Hm].
  eexists. split_and!; [exact He|exact Hd|exact Hc|exact Hp|by apply tree_bounds|].
  intros k Hk. by apply parents_of_tree.
Qed.
End Names.

(** ** Metadata *)

Section Metadata.
Context `{CryptoLaws} {CF CK : Type} `{CacheLaws CF (bytes * bytes) bytes} `{CacheLaws CK (bytes * bytes) bytes}.
Abbreviation KeyGenerator := (@KeyGenerator CF CK).

Lemma DecryptBytes_encryptBytes nonce data key : zlen nonce = nonceSize -> DecryptBytes (encryptBytes nonce data key) key = Ret data.
Proof.
  intros Hn. unfold DecryptBytes, encryptBytes, encrypt. rewrite length_app. pose proof (x_length key nonce data).
  unfold nonceSize, tagSize, blockOverhead in *. case_bool; zbool; [unfold nonceSize, tagSize in *; lia|].
  rewrite take_app_length', drop_app_length' by lia. by rewrite x_open.
Qed.
Lemma encryptBytes_length nonce data key : zlen nonce = nonceSize -> zlen (encryptBytes nonce data key) = zlen data + blockOverhead.
Proof. intros Hn. unfold encryptBytes, encrypt. rewrite length_app, Nat2Z.inj_add, x_length, Hn. unfold blockOverhead. lia. Qed.

(** What an untrusted device gets of a file. *)
Definition fake_file (nonce bs : bytes) (fi : FileInfo) (folderKey : bytes) : FileInfo :=
  let fileKey := file_key (Name fi) folderKey in
  let '(blocks, offset) := fake_blocks fileKey 0 (Blocks fi) in
  let isFile := Type_ fi =? FileInfoTypeFile in
  {| Name := join PathSeparator (tree_of (EncodeToString (encryptDeterministic (Name fi) folderKey [])));
     FSize := if isFile then offset else 0; ModifiedS := 1234567890; ModifiedBy := 0;
     Version := {| Counters := [{| Vector.ID := 1; Value := sum_counters 0 (Counters (Version fi)) |}] |};
     Sequence := Sequence fi; Blocks := if isFile then blocks else []; SymlinkTarget := []; BlocksHash := [];
     PreviousBlocksHash := []; Encrypted := encryptBytes nonce bs fileKey; Platform := emptyPlatform;
     Type_ := if isFile then FileInfoTypeFile else FileInfoTypeDirectory; Permissions := 420;
     ModifiedNs := 0; RawBlockSize := if isFile then i32 (FileInfo_BlockSize fi + blockOverhead) else 0;
     LocalFlags := if IsInvalid fi then FlagLocalRemoteInvalid else 0; EncryptionTrailerSize := 0;
     Deleted := Deleted fi; NoPermissions := false; truncated := false |}.

Lemma encryptFileInfo_gives nonce fi folderKey w bs :
  ToWire false fi = Ret w -> marshalFile w = Some bs ->
  gives (keys_ok (CF:=CF) (CK:=CK)) (encryptFileInfo nonce fi folderKey) (Ret (fake_file nonce bs fi folderKey)).
Proof.
  intros Hw Hb. unfold encryptFileInfo. eapply gives_bind; [apply FileKey_gives|]. rewrite Hw.
  eapply gives_bind; [apply gives_lift|]. rewrite Hb. unfold fake_file.
  destruct (fake_blocks (file_key (Name fi) folderKey) 0 (Blocks fi)) as [blocks offset].
  destruct (encryptName_spec folderKey (Name fi)) as (-> & _). eapply gives_bind; [apply gives_lift|].
  destruct (Type_ fi =? FileInfoTypeFile); apply gives_ret.
Qed.

Lemma DecryptFileInfo_gives stored folderKey name dec w :
  decryptName (Name stored) folderKey = Ret name -> DecryptBytes (Encrypted stored) (file_key name folderKey) = Ret dec ->
  unmarshalFile dec = Some w ->
  gives (keys_ok (CF:=CF) (CK:=CK)) (DecryptFileInfo stored folderKey) (Ret (set_Sequence (Sequence stored) (FileInfoFromWire w))).
Proof.
  intros Hn Hd Hu. unfold DecryptFileInfo. rewrite Hn. eapply gives_bind; [apply gives_lift|].
  eapply gives_bind; [apply FileKey_gives|]. rewrite Hd. eapply gives_bind; [apply gives_lift|]. rewrite Hu. apply gives_ret.
Qed.

Lemma fake_blocks_length fileKey off bs : length (fake_blocks fileKey off bs).1 = length bs.
Proof. revert off. induction bs as [|b bs IH]; intros off; [done|]. cbn. specialize (IH (i64 (off + i64 ((if Size b <? minPaddedSize then minPaddedSize else Size b) + blockOverhead)))). by destruct (fake_blocks _ _ bs); cbn in *; f_equal. Qed.

Lemma fake_nil fileKey off bs : is_nil (fake_blocks fileKey off bs).1 = is_nil bs.
Proof. pose proof (fake_blocks_length fileKey off bs). destruct bs, (fake_blocks fileKey off _).1; simpl in *; done || lia. Qed.

(** The checks of [checkFileInfoConsistency] after the name. *)
Lemma fake_consistent nonce bs fi folderKey :
  checkFileInfoConsistency fi = Ret tt -> checkFileInfoConsistency (fake_file nonce bs fi folderKey) = Ret tt.
Proof.
  unfold checkFileInfoConsistency. destruct (checkFilename (Name fi)) as [ [] | | |]; try done.
  unfold fake_file. pose proof (fake_nil (file_key (Name fi) folderKey) 0 (Blocks fi)) as Hn.
  destruct (fake_blocks (file_key (Name fi) folderKey) 0 (Blocks fi)) as [blocks offset]; cbn [fst] in Hn.
  cbn [Name Deleted Blocks Type_]. destruct (encryptName_spec folderKey (Name fi)) as (_ & _ & -> & _).
  unfold IsInvalid at 2. cbn [LocalFlags].
  assert (flag_IsInvalid (if IsInvalid fi then FlagLocalRemoteInvalid else 0) = IsInvalid fi) as -> by (by destruct (IsInvalid fi)).
  destruct (Z.eqb_spec (Type_ fi) FileInfoTypeFile) as [->|Hne].
  - rewrite Hn. done.
  - cbn [is_nil negb andb]. rewrite !andb_false_r. done.
Qed.

(** C32: Metadata survives an untrusted device: what such a device is sent for a file
    passes its checks if the file does, keeps its sequence, deletion and validity,
    and whatever the device does to it but to the name and the encrypted part, it is
    decrypted to the file that was sent, with the sequence of the device. *)
Theorem metadata_through_untrusted nonce fi folderKey w bs (g : KeyGenerator) :
  zlen nonce = nonceSize -> file_wf fi -> ToWire false fi = Ret w -> marshalFile w = Some bs -> keys_ok g ->
  exists g' enc, encryptFileInfo nonce fi folderKey g = (g', Ret enc) /\ keys_ok g' /\
    Sequence enc = Sequence fi /\ Deleted enc = Deleted fi /\ IsInvalid enc = IsInvalid fi /\
    (checkFileInfoConsistency fi = Ret tt -> checkFileInfoConsistency enc = Ret tt) /\
    forall stored (g2 : KeyGenerator), keys_ok g2 -> Name stored = Name enc -> Encrypted stored = Encrypted enc ->
      exists g3, DecryptFileInfo stored folderKey g2 = (g3, Ret (set_Sequence (Sequence stored) (as_received fi))) /\ keys_ok g3.
Proof.
  intros Hn Hwf Hw Hb Hg. destruct (encryptFileInfo_gives nonce fi folderKey w bs Hw Hb g Hg) as (g' & E & Hg').
  exists g', (fake_file nonce bs fi folderKey). split; [done|]. split; [done|].
  unfold fake_file. destruct (fake_blocks (file_key (Name fi) folderKey) 0 (Blocks fi)) as [blocks offset] eqn:Ef.
  split; [done|]. split; [done|]. split; [unfold IsInvalid at 1; cbn [LocalFlags]; by destruct (IsInvalid fi)|]. split.
  { intros Hc. apply (fake_consistent nonce bs fi folderKey) in Hc. unfold fake_file in Hc. by rewrite Ef in Hc. }
  cbn [Name Encrypted]. intros stored g2 Hg2 HN HE.
  destruct (encryptName_spec folderKey (Name fi)) as (_ & Hd & _). rewrite <- HN in Hd.
  assert (FileInfoFromWire w = as_received fi) as <-.
  { destruct (wire_received fi Hwf) as (w' & Hw' & <-). rewrite Hw in Hw'. by injection Hw' as ->. }
  refine (DecryptFileInfo_gives stored folderKey (Name fi) bs w Hd _ (proto_read _ _ Hb) g2 Hg2).
  rewrite HE. by apply DecryptBytes_encryptBytes.
Qed.
End Metadata.

(** ** Fake versions *)

Section Versions.
Definition total (cs : list Counter) : Z := foldr (fun c n => Value c + n) 0 cs.
Definition others (id : Z) (cs : list Counter) : list Counter := List.filter (fun c => negb (Vector.ID c =? id)) cs.

Lemma total_nonneg cs : Forall (fun c => 0 <= Value c) cs -> 0 <= total cs.
Proof. unfold total. induction 1; cbn; lia. Qed.

Lemma sum_counters_total acc cs :
  Forall (fun c => 0 <= Value c) cs -> 0 <= acc -> acc + total cs < 2 ^ 64 -> sum_counters acc cs = acc + total cs.
Proof.
  intros HF. revert acc. induction HF as [|c cs Hc HF IH]; intros acc Ha Hb; cbn in *; [lia|].
  pose proof (total_nonneg cs HF). unfold total in *. rewrite uN_small by lia. rewrite IH; lia.
Qed.

Lemma counter_of_others id cs j : counter_of (others id cs) j = if j =? id then 0 else counter_of cs j.
Proof.
  unfold others. induction cs as [|c cs IH]; cbn [List.filter counter_of]; [by destruct (j =? id)|].
  destruct (Z.eqb_spec (Vector.ID c) id) as [E|E]; cbn [negb counter_of]; rewrite IH;
    destruct (Z.eqb_spec j id), (Z.eqb_spec (Vector.ID c) j); lia || done.
Qed.

Lemma others_none id cs : id ∉ map Vector.ID cs -> others id cs = cs /\ counter_of cs id = 0.
Proof.
  unfold others. induction cs as [|c cs IH]; cbn [map List.filter counter_of]; [done|]. intros [Hc Hi]%not_elem_of_cons. destruct (IH Hi) as [E1 E2].
  destruct (Z.eqb_spec (Vector.ID c) id) as [E|E]; [congruence|]. cbn [negb]. by rewrite E1.
Qed.

Lemma total_others id cs : NoDup (map Vector.ID cs) -> total cs = counter_of cs id + total (others id cs).
Proof.
  induction cs as [|c cs IH]; [done|]. cbn [map]. intros [Hc Hn]%list.NoDup_cons. cbn [counter_of others List.filter].
  destruct (Z.eqb_spec (Vector.ID c) id) as [E|E]; cbn [negb].
  - subst id. fold (others (Vector.ID c) cs). destruct (others_none (Vector.ID c) cs Hc) as [-> _]. done.
  - fold (others id cs). cbn [total foldr] in *. unfold total in *. cbn [foldr]. rewrite IH by done. lia.
Qed.

Lemma others_sub id cs (P : Counter -> Prop) : Forall P cs -> Forall P (others id cs).
Proof. intros H. apply List.Forall_forall. intros c [Hc _]%filter_In. rewrite List.Forall_forall in H. by apply H. Qed.
Lemma others_NoDup id cs : NoDup (map Vector.ID cs) -> NoDup (map Vector.ID (others id cs)).
Proof.
  induction cs as [|c cs IH]; [done|]. cbn [map]. intros [Hc Hn]%list.NoDup_cons. cbn [others List.filter].
  case_bool; [|by apply IH]. cbn [map]. apply list.NoDup_cons. split; [|by apply IH]. intros Hi. apply Hc.
  apply list_elem_of_In, in_map_iff in Hi as (d & <- & Hd). apply filter_In in Hd as [Hd _]. apply list_elem_of_In, in_map_iff. by exists d.
Qed.

(** A smaller vector has a smaller sum. *)
Lemma total_le a b :
  NoDup (map Vector.ID a) -> NoDup (map Vector.ID b) -> Forall (fun c => 0 <= Value c) a -> Forall (fun c => 0 <= Value c) b ->
  cs_le a b -> total a <= total b /\ (total a = total b -> cs_le b a).
Proof.
  intros Ha Hb Hva. revert b Hb. induction a as [|c a IH]; intros b Hb Hvb Hle.
  - cbn [total foldr]. assert (0 <= total b /\ (total b = 0 -> cs_le b [])) as [H1 H2]; [|split; [done|intros E; by apply H2]].
    clear -Hvb. induction Hvb as [|d b Hd Hvb [IH1 IH2] ]; [split; [done|intros _ j; cbn; lia]|].
    cbn [total foldr] in *. unfold total in *. split; [lia|]. intros E j. cbn.
    specialize (IH2 ltac:(lia) j). cbn in IH2. case_bool; lia.
  - cbn [map] in Ha. apply list.NoDup_cons in Ha as [Hc Ha]. apply Forall_cons_iff in Hva as [Hvc Hva].
    destruct (IH Ha Hva (others (Vector.ID c) b)) as [H1 H2]; [by apply others_NoDup|by apply others_sub| |].
    { intros j. rewrite counter_of_others. specialize (Hle j). cbn in Hle.
      destruct (others_none (Vector.ID c) a Hc) as [_ Hz]. destruct (Z.eqb_spec j (Vector.ID c)) as [->|Hj]; [lia|].
      destruct (Z.eqb_spec (Vector.ID c) j); [congruence|done]. }
    rewrite (total_others (Vector.ID c) b Hb). pose proof (Hle (Vector.ID c)) as Hle'. cbn in Hle'. rewrite Z.eqb_refl in Hle'.
    cbn [total foldr] in *. unfold total in *. split; [lia|]. intros E.
    assert (cs_le (others (Vector.ID c) b) a) as H3 by (apply H2; lia).
    intros j. specialize (H3 j). rewrite counter_of_others in H3. cbn.
    destruct (Z.eqb_spec j (Vector.ID c)) as [E'|Hj], (Z.eqb_spec (Vector.ID c) j); subst; congruence || lia.
Qed.

Lemma sorted_NoDup cs : StronglySorted id_lt cs -> NoDup (map Vector.ID cs).
Proof.
  induction 1 as [|c cs Hs IH HF]; [constructor|]. cbn. apply list.NoDup_cons. split; [|done]. intros Hi.
  apply list_elem_of_In, in_map_iff in Hi as (d & E & Hd). rewrite List.Forall_forall in HF. specialize (HF d Hd). unfold id_lt in HF. lia.
Qed.

Definition fake_version (v : Vector) : Vector := {| Counters := [{| Vector.ID := 1; Value := sum_counters 0 (Counters v) |}] |}.

(** The fake versions follow the real ones: while the sum of the counters fits
    64 bits, a newer version has a newer fake version and equal versions have equal
    ones, so an untrusted device always accepts what replaces a file it has. *)
Theorem fake_versions_follow v w :
  vector_wf v -> vector_wf w -> total (Counters v) < 2 ^ 64 -> total (Counters w) < 2 ^ 64 ->
  (vec_le w v -> ~ vec_le v w -> Compare (fake_version v) (fake_version w) = Greater) /\
  (vec_equiv v w -> fake_version v = fake_version w).
Proof.
  intros [Hvs Hvf] [Hws Hwf] Hv Hw.
  assert (forall u, vector_wf u -> Forall (fun c => 0 <= Value c) (Counters u)) as Hnn.
  { intros u [_ Hu]. eapply Forall_impl; [|exact Hu]. intros c [_ ?]. lia. }
  assert (forall u, vector_wf u -> total (Counters u) < 2 ^ 64 -> sum_counters 0 (Counters u) = total (Counters u)) as Hs.
  { intros u Hu Hb. rewrite sum_counters_total; auto; lia. }
  pose proof (total_le (Counters w) (Counters v) (sorted_NoDup _ Hws) (sorted_NoDup _ Hvs) (Hnn w (conj Hws Hwf)) (Hnn v (conj Hvs Hvf))) as Hwv.
  pose proof (total_le (Counters v) (Counters w) (sorted_NoDup _ Hvs) (sorted_NoDup _ Hws) (Hnn v (conj Hvs Hvf)) (Hnn w (conj Hws Hwf))) as Hvw.
  unfold fake_version. rewrite !Hs by done. split.
  - intros Hle Hnle. destruct (Hwv Hle) as [H1 H2].
    assert (total (Counters w) <> total (Counters v)) by (intros E; by apply Hnle, H2).
    unfold Compare. cbn. destruct (Z.ltb_spec (total (Counters v)) (total (Counters w))); [lia|].
    destruct (Z.ltb_spec (total (Counters w)) (total (Counters v))); [done|lia].
  - intros He. destruct Hwv as [H1 _]; [intros id; specialize (He id); unfold Vector_Counter in He; lia|].
    destruct Hvw as [H2 _]; [intros id; specialize (He id); unfold Vector_Counter in He; lia|].
    do 3 f_equal. lia.
Qed.
End Versions.

(** ** Blocks *)

Section Blocks.
Context `{CryptoLaws} {CF CK : Type} `{CacheLaws CF (bytes * bytes) bytes} `{CacheLaws CK (bytes * bytes) bytes}.

(** The blocks of a file lie one after the other, and only the last may be small. *)
Fixpoint blocks_from (off : Z) (bs : list BlockInfo) : Prop :=
  match bs with
  | [] => True
  | b :: bs => Offset b = off /\ 0 <= Size b /\ (bs <> [] -> minPaddedSize <= Size b) /\ blocks_from (off + Size b) bs
  end.
Definition padded (b : BlockInfo) : Z := Z.max (Size b) minPaddedSize.
Definition sealed (b : BlockInfo) : Z := padded b + blockOverhead.
Definition sealed_total (bs : list BlockInfo) : Z := foldr (fun b n => sealed b + n) 0 bs.

Lemma sealed_min b : 1064 <= sealed b.
Proof. unfold sealed, padded, minPaddedSize, blockOverhead, tagSize, nonceSize. lia. Qed.
Lemma sealed_total_bound bs : 1064 * zlen bs <= sealed_total bs.
Proof.
  induction bs as [|b bs IH]; cbn [sealed_total foldr length]; [lia|]. unfold sealed_total in *.
  pose proof (sealed_min b). lia.
Qed.
Lemma sealed_total_app bs cs : sealed_total (bs ++ cs) = sealed_total bs + sealed_total cs.
Proof. induction bs as [|b bs IH]; cbn; [done|]. unfold sealed_total in *. cbn. lia. Qed.

(** The fake block of a block, from the fake blocks before it. *)
Lemma fake_blocks_at fileKey off bs i b :
  0 <= off -> off + sealed_total bs < 2 ^ 62 -> bs !! i = Some b ->
  (fake_blocks fileKey off bs).1 !! i =
    Some {| Hash := encryptBlockHash (Hash b) (Offset b) fileKey; Offset := off + sealed_total (take i bs); Size := sealed b |}.
Proof.
  revert off i. induction bs as [|c bs IH]; intros off i Ho Hb Hi; [done|]. cbn [fake_blocks].
  cbn [sealed_total foldr] in Hb. pose proof (sealed_total_bound bs) as Ht.
  pose proof (sealed_min c).
  assert (i64 ((if Size c <? minPaddedSize then minPaddedSize else Size c) + blockOverhead) = sealed c) as ->.
  { unfold sealed_total in *. assert ((if Size c <? minPaddedSize then minPaddedSize else Size c) = padded c) as -> by (unfold padded; case_bool; zbool; lia).
    fold (sealed c). apply iN_small; lia. }
  unfold sealed_total in *. rewrite (iN_small 64 (off + sealed c)) by lia.
  specialize (IH (off + sealed c)). destruct (fake_blocks fileKey (off + sealed c) bs) as [fakes tot]; cbn [fst] in *.
  destruct i as [|i]; cbn [take foldr] in *; [injection Hi as ->; cbn; do 2 f_equal; lia|].
  match goal with |- (?x :: _) !! _ = _ => change ((x :: fakes) !! S i) with (fakes !! i) end. rewrite (IH i) by (done || lia). do 2 f_equal. lia.
Qed.

Lemma blocks_from_offset off bs i b :
  blocks_from off bs -> bs !! i = Some b -> off + sealed_total (take i bs) = Offset b + blockOverhead * Z.of_nat i /\ 0 <= Size b.
Proof.
  revert off i. induction bs as [|c bs IH]; intros off i Hf Hi; [done|]. destruct Hf as (Ho & Hp & Hs & Hf).
  destruct i as [|i]; cbn in *; [injection Hi as ->; split; [lia|done] |].
  destruct (IH _ i Hf Hi) as [E ?]. split; [|done]. unfold sealed_total in *.
  assert (sealed c = Size c + blockOverhead) by (unfold sealed, padded; rewrite Z.max_l; [done|]; apply Hs; by intros ->).
  cbn. lia.
Qed.

Section Wrapped.
Context {W IE : Type} (J : W -> Prop) (folder folderKey : bytes).
Abbreviation State := (@encState CF CK W).
(** The state of a connection on which the folder is encrypted. *)
Definition enc_ok (s : State) : Prop := keys_ok (keyGen s) /\ folderKeys s !! folder = Some folderKey /\ J (world s).

Lemma with_keys_gives {A} (m : SM KeyGenerator enc_err A) (a : A) :
  gives keys_ok m (Ret a) -> gives enc_ok (with_keys (IE:=IE) m) (Ret a).
Proof.
  intros Hm s (Hk & Hr & Hw). destruct (Hm _ Hk) as (g & E & Hg). unfold with_keys. rewrite E. eexists. split; [done|]. done.
Qed.
Lemma with_keys_lift {A} (a : A) : gives enc_ok (with_keys (IE:=IE) (slift (Ret a))) (Ret a).
Proof. apply with_keys_gives, gives_lift. Qed.
Lemma inner_gives {A} (m : SM W IE A) (a : A) : gives J m (Ret a) -> gives enc_ok (inner m) (Ret a).
Proof.
  intros Hm s (Hk & Hr & Hw). destruct (Hm _ Hw) as (w & E & Hw'). unfold inner. rewrite E. eexists. split; [done|]. done.
Qed.
Lemma registry_gives : gives enc_ok (registry_get (IE:=IE) folder) (Ret (Some folderKey)).
Proof. intros s Hs. exists s. split; [|done]. unfold registry_get, sget, mbind, sm_bind, mret, sm_ret. by destruct Hs as (_ & -> & _). Qed.

(** The request of a device with the key for a block, and what it becomes. *)
Definition plain_request (id : Z) (f : FileInfo) (i : nat) (b : BlockInfo) (size : Z) : Request :=
  {| rqID := id; rqFolder := folder; rqName := Name f; rqOffset := Offset b; rqSize := size; rqHash := Hash b;
     FromTemporary := false; BlockNo := Z.of_nat i |}.
Definition fake_request (id : Z) (f : FileInfo) (i : nat) (fake : BlockInfo) : Request :=
  {| rqID := id; rqFolder := folder; rqName := join PathSeparator (tree_of (EncodeToString (encryptDeterministic (Name f) folderKey [])));
     rqOffset := Offset fake; rqSize := Size fake; rqHash := Hash fake; FromTemporary := false; BlockNo := Z.of_nat i |}.
Definition block_ok (i : nat) (b : BlockInfo) : Prop := 0 <= Offset b < 2 ^ 62 /\ 0 <= Size b < 2 ^ 62 /\ Z.of_nat i < 2 ^ 54.
Definition fake_of (fileKey : bytes) (i : nat) (b : BlockInfo) : BlockInfo :=
  {| Hash := encryptBlockHash (Hash b) (Offset b) fileKey; Offset := Offset b + blockOverhead * Z.of_nat i; Size := sealed b |}.

Lemma sizes_fit i b :
  block_ok i b ->
  i64 ((if Size b <? minPaddedSize then minPaddedSize else Size b) + blockOverhead) = sealed b /\
  i64 (Z.of_nat i * blockOverhead) = blockOverhead * Z.of_nat i /\
  i64 (Offset b + blockOverhead * Z.of_nat i) = Offset b + blockOverhead * Z.of_nat i /\
  i64 (Offset b + blockOverhead * Z.of_nat i - blockOverhead * Z.of_nat i) = Offset b /\
  i64 (sealed b - blockOverhead) = padded b /\ minPaddedSize <= sealed b.
Proof.
  intros (Ho & Hs & Hi). unfold sealed, padded, blockOverhead, tagSize, nonceSize, minPaddedSize.
  rewrite !iN_small by (try case_bool; lia). case_bool; zbool; lia.
Qed.

Lemma connection_request_gives conn_Request id f i b ct d :
  block_ok i b ->
  gives J (conn_Request (fake_request id f i (fake_of (file_key (Name f) folderKey) i b))) (Ret ct) ->
  DecryptBytes ct (file_key (Name f) folderKey) = Ret d -> Size b <= zlen d ->
  gives enc_ok (encryptedConnection_Request (IE:=IE) conn_Request (plain_request id f i b (Size b))) (Ret (take (Z.to_nat (Size b)) d)).
Proof.
  intros Hok Hc Hd Hlen. destruct (sizes_fit i b Hok) as (E1 & E2 & E3 & _). destruct Hok as (_ & Hs & _).
  unfold encryptedConnection_Request. cbn [rqFolder rqName rqSize rqHash rqOffset rqID BlockNo plain_request].
  eapply gives_bind; [apply registry_gives|]. cbn iota. eapply gives_bind; [apply with_keys_gives, FileKey_gives|].
  destruct (encryptName_spec folderKey (Name f)) as (-> & _). eapply gives_bind; [apply with_keys_lift|].
  rewrite E1, E2, E3. eapply gives_bind; [apply inner_gives, Hc|]. rewrite Hd. eapply gives_bind; [apply with_keys_lift|].
  unfold slice_to. destruct (Z.ltb_spec (Size b) 0); [lia|]. destruct (Z.ltb_spec (zlen d) (Size b)); [lia|]. apply gives_lift.
Qed.

Lemma model_request_gives model_Request nonce random id f i b data :
  block_ok i b ->
  gives J (model_Request (plain_request id f i b (padded b))) (Ret data) ->
  gives enc_ok (encryptedModel_Request (IE:=IE) model_Request nonce random (fake_request id f i (fake_of (file_key (Name f) folderKey) i b)))
    (Ret (encryptBytes nonce (pad_block random data) (file_key (Name f) folderKey))).
Proof.
  intros Hok Hm. destruct (sizes_fit i b Hok) as (E1 & E2 & E3 & E4 & E5 & E6).
  unfold encryptedModel_Request. cbn [rqFolder rqName rqSize rqHash rqOffset rqID BlockNo fake_request fake_of Offset Size Hash FromTemporary].
  eapply gives_bind; [apply registry_gives|]. cbn iota. destruct (encryptName_spec folderKey (Name f)) as (_ & -> & _).
  eapply gives_bind; [apply with_keys_lift|]. rewrite E2, E4, E5. destruct (Z.ltb_spec (sealed b) minPaddedSize); [lia|].
  eapply gives_bind; [apply with_keys_gives, FileKey_gives|].
  assert ((0 <? zlen (encryptBlockHash (Hash b) (Offset b) (file_key (Name f) folderKey))) = true) as ->.
  { unfold encryptBlockHash, encryptDeterministic. rewrite siv_length. apply Z.ltb_lt. unfold tagSize. lia. }
  unfold decryptBlockHash, decryptDeterministic, encryptBlockHash, encryptDeterministic. rewrite siv_open.
  eapply gives_bind; [apply with_keys_lift|]. eapply gives_bind; [apply inner_gives, Hm|]. apply gives_ret.
Qed.
End Wrapped.
End Blocks.

(** ** Storage *)

Lemma concat_slice {A} (l : list (list A)) i x :
  l !! i = Some x -> take (length x) (drop (length (concat (take i l))) (concat l)) = x.
Proof.
  intros Hi. rewrite <- (take_drop_middle l i x Hi) at 2. rewrite concat_app, drop_app_length. cbn [concat]. by rewrite take_app_length.
Qed.

Section Storage.
Context `{CryptoLaws} {CF CK : Type} `{CacheLaws CF (bytes * bytes) bytes} `{CacheLaws CK (bytes * bytes) bytes}.
(** A file with its folder and key, the answers of the model of a device that has it,
    and what that device draws at random. *)
Context (fi : FileInfo) (folder folderKey : bytes) (answers nonces randoms : nat -> bytes).
Context (Hblocks : blocks_from 0 (Blocks fi)) (Hsize : sealed_total (Blocks fi) < 2 ^ 62).
Context (Hanswers : forall i b, Blocks fi !! i = Some b -> zlen (answers i) = padded b) (Hnonces : forall i, zlen (nonces i) = nonceSize).

Definition fileKey_ : bytes := file_key (Name fi) folderKey.
Definition sealed_block (i : nat) : bytes := encryptBytes (nonces i) (pad_block (randoms i) (answers i)) fileKey_.
(** The file on the untrusted device. *)
Definition stored_file : bytes := concat (map sealed_block (seq 0 (length (Blocks fi)))).
(** A connection over which a device serves the parts of a file. *)
Definition serve {W IE} (contents : bytes) (req : Request) : SM W IE bytes :=
  mret (take (Z.to_nat (rqSize req)) (drop (Z.to_nat (rqOffset req)) contents)).

Lemma pad_block_full i b : Blocks fi !! i = Some b -> pad_block (randoms i) (answers i) = answers i.
Proof using Hanswers.
  intros Hi. unfold pad_block. rewrite (Hanswers i b Hi). destruct (Z.ltb_spec (padded b) minPaddedSize) as [Hlt|_]; [|done].
  unfold padded in Hlt. lia.
Qed.
Lemma sealed_block_length i b : Blocks fi !! i = Some b -> zlen (sealed_block i) = sealed b.
Proof using All.
  intros Hi. unfold sealed_block. rewrite encryptBytes_length, (pad_block_full i b Hi), (Hanswers i b Hi) by done. done.
Qed.

Lemma sealed_prefix n : (n <= length (Blocks fi))%nat ->
  zlen (concat (map sealed_block (seq 0 n))) = sealed_total (take n (Blocks fi)).
Proof using All.
  induction n as [|n IH]; intros Hn; [done|]. rewrite seq_S, map_app, concat_app, length_app, Nat2Z.inj_add, IH by lia.
  destruct (lookup_lt_is_Some_2 (Blocks fi) n) as [b Hb]; [lia|]. rewrite (take_S_r _ _ _ Hb), sealed_total_app. cbn.
  rewrite app_nil_r, (sealed_block_length n b Hb). lia.
Qed.

Lemma stored_slice i b : Blocks fi !! i = Some b ->
  take (Z.to_nat (sealed b)) (drop (Z.to_nat (sealed_total (take i (Blocks fi)))) stored_file) = sealed_block i.
Proof using All.
  intros Hi. pose proof (lookup_lt_Some _ _ _ Hi) as Hl. unfold stored_file.
  assert (map sealed_block (seq 0 (length (Blocks fi))) !! i = Some (sealed_block i)) as Hs.
  { rewrite list_lookup_fmap, lookup_seq_lt by done. done. }
  pose proof (concat_slice _ i _ Hs) as E. etransitivity; [|exact E]. rewrite <- (sealed_block_length i b Hi), Nat2Z.id.
  do 2 f_equal. rewrite firstn_map, take_seq, Nat.min_l by lia. rewrite <- sealed_prefix by lia. by rewrite Nat2Z.id.
Qed.

Lemma block_fits i b : Blocks fi !! i = Some b ->
  sealed_total (take i (Blocks fi)) = Offset b + blockOverhead * Z.of_nat i /\ block_ok i b.
Proof using Hblocks Hsize.
  intros Hi. destruct (blocks_from_offset 0 (Blocks fi) i b Hblocks Hi) as [E Hs].
  pose proof (take_drop_middle _ _ _ Hi) as Hm. rewrite <- Hm, sealed_total_app in Hsize. cbn [sealed_total foldr] in Hsize.
  fold (sealed_total (drop (S i) (Blocks fi))) in Hsize.
  pose proof (sealed_total_bound (drop (S i) (Blocks fi))). pose proof (sealed_total_bound (take i (Blocks fi))) as Hb.
  pose proof (lookup_lt_Some _ _ _ Hi). rewrite length_take, Nat.min_l in Hb by lia.
  split; [lia|]. unfold block_ok. assert (Size b <= sealed b) by (unfold sealed, padded, blockOverhead, tagSize, nonceSize; lia).
  pose proof (sealed_min b). unfold blockOverhead, tagSize, nonceSize in E. split; [|split]; lia.
Qed.

(** C21: A file is read back from an untrusted device.  Take the file that such a
    device has when it fetched every fake block from a device that knows the key:
    each request for a fake block reaches that device's model as a request for the
    real block, the answers fit the fake blocks and make a file of the fake size, and
    a device that knows the key and requests a block from the stored file gets the
    bytes that the model had answered. *)
Theorem stored_blocks_read_back {W1 IE1 W2 IE2} (J1 : W1 -> Prop) (J2 : W2 -> Prop) (model_Request : Request -> SM W1 IE1 bytes) :
  (forall i b id, Blocks fi !! i = Some b -> gives J1 (model_Request (plain_request folder id fi i b (padded b))) (Ret (answers i))) ->
  forall i b id, Blocks fi !! i = Some b ->
  exists fake, (fake_blocks fileKey_ 0 (Blocks fi)).1 !! i = Some fake /\
    gives (enc_ok (CF:=CF) (CK:=CK) J1 folder folderKey)
      (encryptedModel_Request model_Request (nonces i) (randoms i) (fake_request folder folderKey id fi i fake)) (Ret (sealed_block i)) /\
    zlen (sealed_block i) = Size fake /\ zlen stored_file = sealed_total (Blocks fi) /\
    gives (enc_ok (CF:=CF) (CK:=CK) J2 folder folderKey)
      (encryptedConnection_Request (IE:=IE2) (serve stored_file) (plain_request folder id fi i b (Size b)))
      (Ret (take (Z.to_nat (Size b)) (answers i))).
Proof using All.
  intros Hmodel i b id Hi. destruct (block_fits i b Hi) as [E Hok].
  exists (fake_of fileKey_ i b). split_and!.
  - rewrite (fake_blocks_at fileKey_ 0 (Blocks fi) i b) by (done || lia). by rewrite Z.add_0_l, E.
  - by apply model_request_gives; [|apply Hmodel].
  - by apply sealed_block_length.
  - unfold stored_file. rewrite sealed_prefix by done. by rewrite firstn_all.
  - eapply connection_request_gives with (ct := sealed_block i) (d := answers i); [done| | |].
    + unfold serve, fake_request, fake_of. cbn [rqSize rqOffset Size Offset]. rewrite <- E, (stored_slice i b Hi). apply gives_ret.
    + unfold sealed_block. rewrite (pad_block_full i b Hi). by apply DecryptBytes_encryptBytes.
    + rewrite (Hanswers i b Hi). unfold padded. lia.
Qed.
End Storage.

(** ** Errors and cases that go wrong *)

Section Errors.
Context `{CryptoLaws} {CF CK : Type} `{CacheLaws CF (bytes * bytes) bytes} `{CacheLaws CK (bytes * bytes) bytes}.
Context {W IE : Type} (J : W -> Prop) (folder folderKey : bytes).
Abbreviation enc_ok := (enc_ok (CF:=CF) (CK:=CK) J folder folderKey).

Lemma with_keys_err {A} (m : SM KeyGenerator enc_err A) e :
  gives (keys_ok (CF:=CF) (CK:=CK)) m (Err e) -> gives enc_ok (with_keys (IE:=IE) m) (Err (EncErr e)).
Proof.
  intros Hm s (Hk & Hr & Hw). destruct (Hm _ Hk) as (g & E & Hg). unfold with_keys. rewrite E. eexists. split; [done|]. done.
Qed.

(** The encrypted model refuses what it cannot serve before its model sees it: a
    name that is not encrypted with the key of the folder, a request that is too
    short for a block, a hash that is not the folder's. *)
Theorem encrypted_model_refuses (model_Request : Request -> SM W IE bytes) nonce random (req : Request) :
  rqFolder req = folder ->
  (forall e, decryptName (rqName req) folderKey = Err e -> gives enc_ok (encryptedModel_Request model_Request nonce random req) (Err (EncErr e))) /\
  (forall name, decryptName (rqName req) folderKey = Ret name ->
    (rqSize req < minPaddedSize -> gives enc_ok (encryptedModel_Request model_Request nonce random req) (Err ErrShortRequest)) /\
    (minPaddedSize <= rqSize req -> rqHash req <> [] ->
     OpenSIV (file_key name folderKey) (rqHash req) (putBE 8 (u64 (i64 (rqOffset req - i64 (BlockNo req * blockOverhead))))) = None ->
     OpenSIV (file_key name folderKey) (rqHash req) [] = None ->
     gives enc_ok (encryptedModel_Request model_Request nonce random req) (Err (EncErr ErrDecrypt)))).
Proof.
  intros Hf. unfold encryptedModel_Request. rewrite Hf. split; [intros e He|intros name Hn; split].
  - eapply gives_bind; [apply registry_gives|]. cbn iota. rewrite He. apply gives_bind_err, with_keys_err, gives_lift.
  - intros Hs. eapply gives_bind; [apply registry_gives|]. cbn iota. rewrite Hn. eapply gives_bind; [apply with_keys_lift|].
    destruct (Z.ltb_spec (rqSize req) minPaddedSize); [|lia]. intros s Hs'. by exists s.
  - intros Hs Hh H1' H2'. eapply gives_bind; [apply registry_gives|]. cbn iota. rewrite Hn. eapply gives_bind; [apply with_keys_lift|].
    destruct (Z.ltb_spec (rqSize req) minPaddedSize); [lia|]. eapply gives_bind; [apply with_keys_gives, FileKey_gives|].
    apply gives_bind_err, with_keys_err. destruct (rqHash req) as [|c h] eqn:E; [done|]. cbn [length].
    destruct (Z.ltb_spec 0 (Z.of_nat (S (length h)))); [|lia]. unfold decryptBlockHash, decryptDeterministic. rewrite H1', H2'. apply gives_lift.
Qed.

(** A block that is shorter than what was asked for makes the encrypted
    connection panic, although it was decrypted: an untrusted device can send any
    other block of the file that is smaller. *)
Theorem short_block_panics (conn_Request : Request -> SM W IE bytes) id f i b nonce d :
  block_ok i b -> zlen nonce = nonceSize -> zlen d < Size b ->
  (forall req, gives J (conn_Request req) (Ret (encryptBytes nonce d (file_key (Name f) folderKey)))) ->
  gives enc_ok (encryptedConnection_Request conn_Request (plain_request folder id f i b (Size b))) Panic.
Proof.
  intros Hok Hn Hd Hc. destruct (sizes_fit i b Hok) as (E1 & E2 & E3 & _). destruct Hok as (_ & Hs & _).
  unfold encryptedConnection_Request. cbn [rqFolder rqName rqSize rqHash rqOffset rqID BlockNo plain_request].
  eapply gives_bind; [apply registry_gives|]. cbn iota. eapply gives_bind; [apply with_keys_gives, FileKey_gives|].
  destruct (encryptName_spec folderKey (Name f)) as (-> & _). eapply gives_bind; [apply with_keys_lift|].
  eapply gives_bind; [apply inner_gives, Hc|]. rewrite DecryptBytes_encryptBytes by done. eapply gives_bind; [apply with_keys_lift|].
  unfold slice_to. destruct (Z.ltb_spec (zlen d) (Size b)); [|lia]. rewrite orb_true_r. apply gives_lift.
Qed.

(** Before the passwords are set the encrypted connection sends what it is given
    as it is: an index that is sent between the start of a connection and its first
    cluster config has the real names and hashes. *)
Theorem index_before_passwords (conn_Index : bytes -> list FileInfo -> Z -> SM W IE unit) nonces files last (s : encState) :
  folderKeys s !! folder = None ->
  encryptedConnection_Index conn_Index nonces folder files last s = inner (CF:=CF) (CK:=CK) (conn_Index folder files last) s.
Proof.
  intros Hk. unfold encryptedConnection_Index, registry_get, sget, mbind, sm_bind, mret, sm_ret. rewrite Hk.
  destruct (inner _ s) as [s' [ [] | | |] ]; done.
Qed.
End Errors.

(** ** Witnesses *)

Section Witness.

#[local] Instance bep_BlockInfo_eq_dec : EqDecision bep_BlockInfo.
Proof. solve_decision. Defined.
#[local] Instance bep_Counter_eq_dec : EqDecision bep_Counter.
Proof. solve_decision. Defined.
#[local] Instance bep_UnixData_eq_dec : EqDecision bep_UnixData.
Proof. solve_decision. Defined.
#[local] Instance bep_Xattr_eq_dec : EqDecision bep_Xattr.
Proof. solve_decision. Defined.
#[local] Instance bep_XattrData_eq_dec : EqDecision bep_XattrData.
Proof. solve_decision. Defined.
#[local] Instance bep_PlatformData_eq_dec : EqDecision bep_PlatformData.
Proof. solve_decision. Defined.
#[local] Instance bep_FileInfo_eq_dec : EqDecision bep_FileInfo.
Proof. solve_decision. Defined.

#[local] Instance ex_crypto : Crypto :=
  { SealSIV k d a := d ++ replicate 16 x00;
    OpenSIV k c a := if zlen c <? 16 then None else Some (take (length c - 16) c);
    SealX k n d := d ++ replicate 16 x00;
    OpenX k n c := if zlen c <? 16 then None else Some (take (length c - 16) c);
    scrypt_Key pw salt N r p n := Some (replicate (Z.to_nat n) x01);
    hkdf_Read secret salt n := Some (replicate (Z.to_nat n) x02);
    marshalFile w := match ToWire false ex_file with Ret w' => if decide (w = w') then Some [x03] else None | _ => None end;
    unmarshalFile bs := match ToWire false ex_file with Ret w' => Some w' | _ => None end }.
#[local] Instance ex_laws : CryptoLaws.
Proof.
  assert (forall d : bytes, (zlen (d ++ replicate 16 x00) <? 16) = false /\ take (length (d ++ replicate 16 x00) - 16) (d ++ replicate 16 x00) = d) as Ho.
  { intros d. rewrite length_app, length_replicate. split; [apply Z.ltb_ge; lia|]. rewrite Nat.add_sub. by rewrite take_app_length. }
  assert (forall d : bytes, zlen (d ++ replicate 16 x00) = zlen d + tagSize) as Hl.
  { intros d. rewrite length_app, length_replicate. unfold tagSize. lia. }
  split; cbn [SealSIV OpenSIV SealX OpenX scrypt_Key hkdf_Read marshalFile unmarshalFile ex_crypto]; intros.
  - destruct (Ho d) as [-> ->]. done.
  - apply Hl.
  - destruct (Ho d) as [-> ->]. done.
  - apply Hl.
  - by eexists.
  - by eexists.
  - destruct (ToWire false ex_file); [|done..]. by case_decide; simplify_eq.
Qed.

#[local] Instance list_cache : Cache (list (bytes * bytes * bytes)) (bytes * bytes) bytes :=
  { cache_new _ := [];
    cache_Get k c := (snd <$> List.find (fun e => bool_decide (e.1 = k)) c, c);
    cache_Add k v c := take 100 ((k, v) :: c) }.
#[local] Instance list_cache_laws : CacheLaws (list (bytes * bytes * bytes)) (bytes * bytes) bytes.
Proof.
  refine {| cached := fun (c : list (bytes * bytes * bytes)) k v => In (k, v) c |}.
  - intros n k v [].
  - intros k v c. cbn. destruct (List.find _ c) as [ [k' v']|] eqn:E; [|done]. cbn. intros [= ->].
    apply find_some in E as [Hi Hk]. cbn in Hk. apply bool_decide_eq_true in Hk as ->. done.
  - intros k c k' v' Hc. exact Hc.
  - intros k v c k' v' Hc. change (In (k', v') (take 100 ((k, v) :: c))) in Hc.
    assert (In (k', v') ((k, v) :: c)) as [E|Hi] by (rewrite <- (take_drop 100 ((k, v) :: c)); apply in_app_iff; by left).
    + injection E as -> ->. by left.
    + by right.
Qed.
Abbreviation C := (list (bytes * bytes * bytes)).

Lemma keys_cached_witness :
  let ops := [OpFolder (gostr "f") (gostr "pw"); OpFile (gostr "a") [x01]; OpFolder (gostr "f") (gostr "pw")] in
  (exists g, key_run (CF:=C) (CK:=C) ops NewKeyGenerator = (g, Ret (map key_of ops))) /\ Forall (fun op => zlen (key_of op) = keySize) ops.
Proof. cbv zeta. exact (keys_cached (CF:=C) (CK:=C) _). Defined.

Lemma encrypted_names_witness :
  exists cs, encryptName (gostr "a/b.txt") [x01] = Ret (join PathSeparator cs) /\
    decryptName (join PathSeparator cs) [x01] = Ret (gostr "a/b.txt") /\ IsEncryptedParent cs = false.
Proof.
  destruct (encrypted_names [x01] (gostr "a/b.txt")) as (cs & He & Hd & _ & _ & _ & Hp). exists cs. split; [exact He|]. split; [exact Hd|].
  specialize (Hp (length cs) (le_n _)). rewrite firstn_all in Hp. rewrite Hp. apply bool_decide_false. lia.
Defined.

Definition ex_nonce : bytes := replicate 24 x07.
Definition ex_wire : bep_FileInfo := match ToWire false ex_file with Ret w => w | _ => Build_bep_FileInfo [] 0 0 0 None 0 [] [] [] [] [] 0 0 0 0 None 0 0 false false false end.
Lemma ex_file_wf : file_wf ex_file.
Proof.
  assert (forall z, 0 <= z <= 1000 -> in_i32 z) as Hz by (unfold in_i32; lia).
  split; [constructor; [apply Hz; cbn [Size]; lia|constructor]|].
  split; [split; apply Hz; cbn [UID GID]; lia|]. split; [apply Hz; cbn [EncryptionTrailerSize ex_file]; lia|done].
Qed.
Lemma metadata_through_untrusted_witness :
  exists (g' : @KeyGenerator C C) enc, encryptFileInfo ex_nonce ex_file [x01] NewKeyGenerator = (g', Ret enc) /\ Sequence enc = 12.
Proof.
  assert (ToWire false ex_file = Ret ex_wire) as Hw by reflexivity.
  assert (marshalFile ex_wire = Some [x03]) as Hm by (vm_compute; reflexivity).
  destruct (metadata_through_untrusted (CF:=C) (CK:=C) ex_nonce ex_file [x01] ex_wire [x03] NewKeyGenerator eq_refl ex_file_wf Hw Hm keys_ok_new)
    as (g' & enc & He & _ & Hs & _).
  exists g', enc. split; [exact He|exact Hs].
Defined.

Lemma fake_versions_follow_witness :
  Compare (fake_version ex_a) (fake_version {| Counters := [{| Vector.ID := 1; Value := 5 |}] |}) = Greater.
Proof.
  refine (proj1 (fake_versions_follow ex_a {| Counters := [{| Vector.ID := 1; Value := 5 |}] |} ex_a_wf _ _ _) _ _).
  - split; [repeat constructor|]. constructor; [unfold counter_wf; cbn [Vector.ID Value]; lia|constructor].
  - vm_compute. reflexivity.
  - vm_compute. reflexivity.
  - intros id. unfold Vector_Counter. cbn. repeat case_bool; zbool; lia.
  - intros H. specialize (H 7). by vm_compute in H.
Defined.

Lemma stored_blocks_read_back_witness :
  gives (enc_ok (CF:=C) (CK:=C) (fun _ : unit => True) (gostr "f") [x01])
    (encryptedConnection_Request (IE:=unit)
       (serve (stored_file ex_file [x01] (fun _ => replicate 1024 x61) (fun _ => ex_nonce) (fun _ => [])))
       (plain_request (gostr "f") 0 ex_file 0 {| Hash := gostr "h"; Offset := 0; Size := 5 |} 5))
    (Ret (replicate 5 x61)).
Proof.
  assert (blocks_from 0 (Blocks ex_file)) as Hb by (split_and!; [reflexivity|cbn; lia|intros H; by destruct H|exact I]).
  assert (sealed_total (Blocks ex_file) < 2 ^ 62) as Ht by (vm_compute; reflexivity).
  assert (forall i b, Blocks ex_file !! i = Some b -> zlen (replicate 1024 x61) = padded b) as Ha.
  { intros i b Hi. destruct i as [|i]; [|by destruct i]. injection Hi as <-. by vm_compute. }
  destruct (stored_blocks_read_back (CF:=C) (CK:=C) ex_file (gostr "f") [x01] (fun _ => replicate 1024 x61) (fun _ => ex_nonce) (fun _ => [])
    Hb Ht Ha (fun _ => eq_refl) (W1:=unit) (IE1:=unit) (W2:=unit) (IE2:=unit) (fun _ => True) (fun _ => True) (fun _ => mret (replicate 1024 x61))
    (fun _ _ _ _ => gives_ret _ _) 0%nat {| Hash := gostr "h"; Offset := 0; Size := 5 |} 0 eq_refl) as (fake & _ & _ & _ & _ & H).
  exact H.
Defined.

Lemma encrypted_model_refuses_witness :
  gives (enc_ok (CF:=C) (CK:=C) (fun _ : unit => True) (gostr "f") [x01])
    (encryptedModel_Request (IE:=unit) (fun _ => mret []) ex_nonce [] (plain_request (gostr "f") 0 ex_file 0 {| Hash := gostr "h"; Offset := 0; Size := 5 |} 5))
    (Err (EncErr ErrInvalidEncryptedPath)).
Proof.
  refine (proj1 (encrypted_model_refuses (CF:=C) (CK:=C) (W:=unit) (IE:=unit) (fun _ => True) (gostr "f") [x01] (fun _ => mret []) ex_nonce [] _ _) _ _);
    reflexivity.
Defined.

Lemma short_block_panics_witness :
  gives (enc_ok (CF:=C) (CK:=C) (fun _ : unit => True) (gostr "f") [x01])
    (encryptedConnection_Request (IE:=unit) (fun _ => mret (encryptBytes ex_nonce (gostr "abc") (file_key (Name ex_file) [x01])))
       (plain_request (gostr "f") 0 ex_file 0 {| Hash := gostr "h"; Offset := 0; Size := 5 |} 5))
    Panic.
Proof.
  refine (short_block_panics (CF:=C) (CK:=C) (fun _ => True) (gostr "f") [x01] _ 0 ex_file 0 {| Hash := gostr "h"; Offset := 0; Size := 5 |} ex_nonce
    (gostr "abc") _ eq_refl _ (fun _ => gives_ret _ _)); [split_and!; cbn; lia|vm_compute; reflexivity].
Defined.

Lemma index_before_passwords_witness :
  encryptedConnection_Index (CF:=C) (CK:=C) (IE:=unit) (fun _ files _ => smodify (fun sent => sent ++ files)) (fun _ => ex_nonce) (gostr "f") [ex_file] 12
    {| keyGen := NewKeyGenerator; folderKeys := ∅; world := [] |} =
  ({| keyGen := NewKeyGenerator; folderKeys := ∅; world := [ex_file] |}, Ret tt).
Proof.
  exact (index_before_passwords (CF:=C) (CK:=C) (gostr "f") (fun _ files _ => smodify (fun sent => sent ++ files)) (fun _ => ex_nonce) [ex_file] 12
    {| keyGen := NewKeyGenerator; folderKeys := ∅; world := [] |} eq_refl).
Defined.
End Witness.
