(* ===== verification/FolderStore.v ===== *)
(** * The folder database: files of a device, index IDs and sequence numbers
    (internal/db/sqlite/folderdb_local.go, folderdb_indexid.go, util.go)

    The table [indexids] beside the tables of [GlobalState], with the trigger
    that keeps the sequence number of each device, and the reads of a device's
    files. *)
From Stdlib Require Import ZArith List Lia.
From Stdlib Require Import Strings.Byte.
From stdpp Require Import base list option gmap numbers tactics sorting.
From S2P Require Import Prelude GoLib Vector FileInfo FileInfoWire PullState GlobalState.

#[local] Open Scope Z_scope.

(** A row of [indexids] by device: the index ID, [None] for the empty text, and
    the sequence number. *)
Record folderStore := { fdb : folderDB; indexids : gmap Z (option Z * Z) }.
Definition set_fdb (db : folderDB) (s : folderStore) : folderStore := {| fdb := db; indexids := indexids s |}.
Definition set_ids (ids : gmap Z (option Z * Z)) (s : folderStore) : folderStore := {| fdb := fdb s; indexids := ids |}.

(** The trigger [indexids_seq], for each row that is inserted. *)
Definition indexids_seq (dev seq : Z) (ids : gmap Z (option Z * Z)) : gmap Z (option Z * Z) :=
  <[dev := (match ids !! dev with Some (id, _) => id | None => None end, seq)]> ids.
Fixpoint triggers (isLocal : bool) (dev next : Z) (fs : list FileInfo) (ids : gmap Z (option Z * Z)) :
  gmap Z (option Z * Z) :=
  match fs with
  | [] => ids
  | f :: fs => triggers isLocal dev (next + 1) fs (indexids_seq dev (if isLocal then next else Sequence f) ids)
  end.

Section Store.
Context (SortFunc : (fileRow -> fileRow -> Z) -> list fileRow -> list fileRow) (now : Z).
Context (NormalizedFilename NativeFilename : bytes -> bytes) (sha256 : bytes -> bytes).

Definition store_Update (isLocal : bool) (dev : Z) (fs : list FileInfo) : SM folderStore db_err unit := fun s =>
  match folderDB_Update SortFunc now NormalizedFilename sha256 isLocal dev fs (fdb s) with
  | (db, Ret r) =>
      ({| fdb := db; indexids := triggers isLocal dev (next_sequence (fdb s)) fs (indexids s) |}, Ret r)
  | (db, r) => (set_fdb db s, r)
  end.
Definition store_DropAllFiles (dev : Z) (s : folderStore) : folderStore :=
  {| fdb := DropAllFiles SortFunc now dev (fdb s); indexids := alter (fun r => (r.1, 0)) dev (indexids s) |}.
(** Deleting rows leaves [indexids] as it is. *)
Definition store_DropFilesNamed (dev : Z) (names : list bytes) (s : folderStore) : folderStore :=
  set_fdb (DropFilesNamed SortFunc now NormalizedFilename dev names (fdb s)) s.
(** The rows of [indexids] of the device go with it. *)
Definition store_DropDevice (isLocal : bool) (dev : Z) : SM folderStore db_err unit := fun s =>
  match DropDevice SortFunc now isLocal dev (fdb s) with
  | (db, Ret r) => ({| fdb := db; indexids := delete dev (indexids s) |}, Ret r)
  | (db, r) => (set_fdb db s, r)
  end.

(** ** Sequence numbers and index IDs *)

Definition GetDeviceSequence (dev : Z) (s : folderStore) : Z :=
  match indexids s !! dev with Some (_, seq) => seq | None => 0 end.
Definition RemoteSequences (s : folderStore) : gmap Z Z :=
  snd <$> filter (fun kv => kv.1 <> localDeviceIdx (fdb s)) (indexids s).

Definition max_sequence (dev : Z) (db : folderDB) : Z :=
  foldr (fun x m => if DeviceIdx (row x) =? dev then Z.max (rSequence (row x)) m else m) 0 (files db).
(** [newID] is what [protocol.NewIndexID] draws. *)
Definition GetIndexID (isLocal : bool) (newID dev : Z) (s : folderStore) : folderStore * Z :=
  match indexids s !! dev with
  | Some (Some id, _) => (s, id)
  | r =>
      if negb isLocal then (s, 0)
      else
        let seq := match r with Some (_, seq) => seq | None => max_sequence dev (fdb s) end in
        (set_ids (<[dev := (Some newID, seq)]> (indexids s)) s, newID)
  end.
Definition SetIndexID (dev id : Z) (s : folderStore) : folderStore :=
  set_ids (<[dev := (Some id, 0)]> (indexids s)) s.
Definition DropAllIndexIDs (s : folderStore) : folderStore := set_ids ∅ s.

(** ** Reads *)

Definition set_Blocks (bs : list BlockInfo) (f : FileInfo) : FileInfo :=
  set_db_fields (Name f) (FSize f) (BlocksHash f) bs (Sequence f) f.

(** [indirectFI.FileInfo]: the stored message with the blocks put back. *)
Definition indirectFI_FileInfo (db : folderDB) (x : filesRow) : FileInfo :=
  let bh := BlocklistHash (row x) in
  let bl := if is_nil bh then [] else default [] (blocklists db !! bh) in
  match ToWire true (set_Blocks bl (fiprotobuf x)) with
  | Ret w => set_Name (NativeFilename (Name (fiprotobuf x))) (FileInfoFromDB w)
  | _ => fiprotobuf x (* not stored *)
  end.

Definition of_device (dev : Z) (x : filesRow) : bool := DeviceIdx (row x) =? dev.
Definition GetDeviceFile (dev : Z) (file : bytes) (s : folderStore) : option FileInfo :=
  indirectFI_FileInfo (fdb s) <$>
    List.find (fun x => of_device dev x && named (NormalizedFilename file) x) (files (fdb s)).
Definition AllLocalFiles (dev : Z) (s : folderStore) : list FileInfo :=
  map (indirectFI_FileInfo (fdb s)) (List.filter (of_device dev) (files (fdb s))).

Definition seq_le (x y : filesRow) : Prop := rSequence (row x) <= rSequence (row y).
#[local] Instance seq_le_dec : RelDecision seq_le := fun x y => Z_le_dec _ _.
(** The rows in the order of their sequence numbers. *)
Definition rows_from (dev startSeq : Z) (s : folderStore) : list filesRow :=
  merge_sort seq_le (List.filter (fun x => of_device dev x && (startSeq <=? rSequence (row x))) (files (fdb s))).
Definition AllLocalFilesBySequence (dev startSeq limit : Z) (s : folderStore) : list FileInfo :=
  let rows := rows_from dev startSeq s in
  map (indirectFI_FileInfo (fdb s)) (if 0 <? limit then take (Z.to_nat limit) rows else rows).
End Store.
