(* ===== verification/FolderStoreProps.v ===== *)
(** * The folder database: what operations do to the rows, flags aside *)
From Stdlib Require Import ZArith List Lia.
From Stdlib Require Import Strings.Byte.
From stdpp Require Import base list option gmap numbers tactics sorting.
From S2P Require Import Prelude GoLib Vector FileInfo FileInfoWire PullState GlobalState FolderStore.

#[local] Open Scope Z_scope.

(** ** Rows without their flags *)

(** The recalculation of the global files only changes the flags of the rows. *)
Definition strip (x : filesRow) : filesRow := set_row (set_rLocalFlags 0 (row x)) x.
Definition rows (db : folderDB) : list filesRow := map strip (files db).

Record same_content (s s' : folderDB) : Prop := {
  sc_rows : rows s' = rows s;
  sc_next : next_sequence s' = next_sequence s;
  sc_blocklists : blocklists s' = blocklists s;
  sc_local : localDeviceIdx s' = localDeviceIdx s }.
#[export] Instance same_content_equivalence : Equivalence same_content.
Proof.
  split; [by constructor|intros s t []; by constructor|].
  intros s t u [] []; constructor; congruence.
Qed.

Lemma update_flags_strip g fl x : strip (update_flags g fl x) = strip x.
Proof. unfold update_flags. cbv zeta. by repeat case_match. Qed.

Section Recalc.
Context (SortFunc : (fileRow -> fileRow -> Z) -> list fileRow -> list fileRow) (now : Z).

Lemma recalc_content n s : same_content s (recalcGlobalForFile SortFunc now n s).
Proof.
  unfold recalcGlobalForFile. cbv zeta. destruct (decide_global _ _) as [d|]; [|done].
  assert (same_content s (set_files (map (update_flags (set_rLocalFlags (global_flags d) (d_global d))
    (rLocalFlags (set_rLocalFlags (global_flags d) (d_global d)))) (files s)) s)) as H.
  { constructor; try done. unfold rows. cbn [files set_files]. rewrite map_map. apply map_ext. intros x.
    apply update_flags_strip. }
  repeat case_match; try done; (etrans; [exact H|]); by constructor.
Qed.
Lemma recalc_names_content ns s : same_content s (recalc_names SortFunc now ns s).
Proof.
  revert s. induction ns as [|n ns IH]; intros s; [done|]. cbn. etrans; [apply recalc_content|]. apply IH.
Qed.
Lemma recalcFolder_content s : same_content s (recalcGlobalForFolder SortFunc now s).
Proof. apply recalc_names_content. Qed.
End Recalc.

Lemma in_rows x db : x ∈ files db -> strip x ∈ rows db.
Proof. intros H. unfold rows. apply list_elem_of_In, in_map, list_elem_of_In, H. Qed.
Lemma rows_in y db : y ∈ rows db -> exists x, x ∈ files db /\ y = strip x.
Proof.
  unfold rows. intros (x & <- & Hx)%list_elem_of_In%in_map_iff. exists x. by rewrite list_elem_of_In.
Qed.
Lemma filter_rows (P : filesRow -> bool) fs :
  (forall x, P (strip x) = P x) -> map strip (List.filter P fs) = List.filter P (map strip fs).
Proof.
  intros HP. induction fs as [|x fs IH]; cbn; [done|]. rewrite HP. destruct (P x); cbn; by rewrite IH.
Qed.
Lemma in_filter {A} (P : A -> bool) l x : x ∈ List.filter P l <-> x ∈ l /\ P x = true.
Proof. rewrite !list_elem_of_In. apply filter_In. Qed.

(** ** What the operations do *)

Section Ops.
Context (SortFunc : (fileRow -> fileRow -> Z) -> list fileRow -> list fileRow) (now : Z).
Context (NormalizedFilename NativeFilename : bytes -> bytes) (sha256 : bytes -> bytes).
Abbreviation Update_file' := (Update_file SortFunc now NormalizedFilename sha256).
Abbreviation Update' := (folderDB_Update SortFunc now NormalizedFilename sha256).

Definition blocks_hash (f : FileInfo) : bytes := if is_nil (Blocks f) then [] else BlocksHash_of sha256 (Blocks f).
Definition stored_size (f : FileInfo) : Z := if Type_ f =? FileInfoTypeDirectory then 128 else FSize f.
(** The row that is inserted for a file, under the sequence number [seq]. *)
Definition inserted (isLocal : bool) (dev seq : Z) (f : FileInfo) : filesRow :=
  {| row := {| rName := NormalizedFilename (Name f); rVersion := Version f; DeviceIdx := dev; rSequence := seq;
               Modified := modified_nanos f; rSize := stored_size f; BlocklistHash := blocks_hash f;
               rLocalFlags := 0; rDeleted := Deleted f |};
     rType := Type_ f; remote_sequence := if isLocal then None else Some (Sequence f);
     fiprotobuf := set_db_fields (NormalizedFilename (Name f)) (stored_size f) (blocks_hash f) []
                     (if isLocal then seq else Sequence f) f |}.

Definition rseq_of (isLocal : bool) (f : FileInfo) : option Z := if isLocal then None else Some (Sequence f).
Definition blocklists_after (f : FileInfo) (bl : gmap bytes (list BlockInfo)) : gmap bytes (list BlockInfo) :=
  if is_nil (Blocks f) then bl
  else match bl !! blocks_hash f with Some _ => bl | None => <[blocks_hash f := Blocks f]> bl end.

Lemma Update_file_content isLocal dev f s :
  rows (Update_file' isLocal dev f s) =
    List.filter (fun y => negb (conflicts dev (rseq_of isLocal f) (NormalizedFilename (Name f)) y)) (rows s) ++
      [inserted isLocal dev (next_sequence s) f] /\
  next_sequence (Update_file' isLocal dev f s) = next_sequence s + 1 /\
  blocklists (Update_file' isLocal dev f s) = blocklists_after f (blocklists s) /\
  localDeviceIdx (Update_file' isLocal dev f s) = localDeviceIdx s.
Proof.
  unfold Update_file. cbv zeta. match goal with |- context [recalcGlobalForFile _ _ ?n ?t] => set (t0 := t); set (nm := n) end.
  destruct (recalc_content SortFunc now nm t0) as [-> -> -> ->]. repeat split.
  - unfold rows. cbn [files t0]. rewrite map_app, filter_rows by done. done.
Qed.

(** A whole update that succeeds is a fold of insertions. *)
Fixpoint insertions (isLocal : bool) (dev : Z) (fs : list FileInfo) (s : folderDB) : folderDB :=
  match fs with
  | [] => s
  | f :: fs => insertions isLocal dev fs (Update_file' isLocal dev f s)
  end.
Lemma Update_insertions isLocal dev fs s s' :
  Update' isLocal dev fs s = (s', Ret tt) ->
  s' = insertions isLocal dev fs s /\ Forall (fun f => ToWire true f <> Panic) fs.
Proof.
  unfold folderDB_Update. intros H.
  assert (forall prev, Update_loop SortFunc now NormalizedFilename sha256 isLocal dev prev fs s = (s', Ret tt) ->
            s' = insertions isLocal dev fs s /\ Forall (fun f => ToWire true f <> Panic) fs) as Hl.
  { clear H. revert s. induction fs as [|f fs IH]; intros s prev; cbn [Update_loop insertions].
    - by intros [= <-].
    - case_match; [done|]. destruct (ToWire true f) eqn:HT; try done; intros [-> HF]%IH; (split; [done|]);
        constructor; (done || congruence). }
  destruct (Update_loop _ _ _ _ _ _ _ _ _) as [t [] ] eqn:HU; try done. injection H as <- Hu. subst. by eapply Hl.
Qed.
(** It does succeed if the files can be written and no two sequence numbers in
    a row are the same. *)
Lemma Update_succeeds dev fs s :
  Forall (fun f => ToWire true f <> Panic) fs ->
  (forall i f g, fs !! i = Some f -> fs !! S i = Some g -> Sequence f <> Sequence g) ->
  Update' false dev fs s = (insertions false dev fs s, Ret tt).
Proof.
  intros HF HS. unfold folderDB_Update.
  assert (forall prev, (forall f, fs !! O = Some f -> prev <> Some (Sequence f)) ->
    Update_loop SortFunc now NormalizedFilename sha256 false dev prev fs s = (insertions false dev fs s, Ret tt)) as ->; [|done|done].
  revert s HS. induction HF as [|f fs HT HF IH]; intros s HS prev Hp; [done|]. cbn [Update_loop insertions].
  rewrite bool_decide_false by (by apply Hp). cbn [negb andb].
  destruct (ToWire true f) eqn:HE; try done; (apply IH;
    [intros i g h Hg Hh; by apply (HS (S i) g h)|intros g Hg [= Heq]; by apply (HS O f g)]).
Qed.

(** Insertions for one device leave the rows of the others. *)
Lemma insertions_others isLocal dev fs s y :
  DeviceIdx (row y) <> dev -> (y ∈ rows (insertions isLocal dev fs s) <-> y ∈ rows s).
Proof.
  intros Hd. revert s. induction fs as [|f fs IH]; intros s; [done|]. cbn [insertions]. rewrite IH.
  destruct (Update_file_content isLocal dev f s) as (-> & _). rewrite elem_of_app, list_elem_of_singleton, in_filter. split.
  - intros [ [? _]| ->]; [done|]. by cbn in Hd.
  - intros Hy. left. split; [done|]. apply negb_true_iff. unfold conflicts.
    by rewrite (proj2 (Z.eqb_neq _ _) Hd).
Qed.

(** What an update keeps of the database as a whole. *)
Lemma insertions_next isLocal dev fs s :
  next_sequence (insertions isLocal dev fs s) = next_sequence s + zlen fs /\
  localDeviceIdx (insertions isLocal dev fs s) = localDeviceIdx s /\
  (forall h bl, blocklists s !! h = Some bl -> blocklists (insertions isLocal dev fs s) !! h = Some bl).
Proof.
  revert s. induction fs as [|f fs IH]; intros s; [cbn; repeat split; [lia|done] |]. cbn [insertions length].
  destruct (Update_file_content isLocal dev f s) as (_ & Hn & Hb & Hl).
  destruct (IH (Update_file' isLocal dev f s)) as (-> & -> & H3). split; [lia|]. split; [done|].
  intros h bl H. apply H3. rewrite Hb. unfold blocklists_after. destruct (is_nil (Blocks f)); [done|].
  destruct (blocklists s !! blocks_hash f) eqn:HE; [done|]. rewrite lookup_insert_ne; [done|]. congruence.
Qed.

Lemma DropAllFiles_content dev s :
  rows (DropAllFiles SortFunc now dev s) = List.filter (fun y => negb (DeviceIdx (row y) =? dev)) (rows s) /\
  next_sequence (DropAllFiles SortFunc now dev s) = next_sequence s /\
  blocklists (DropAllFiles SortFunc now dev s) = blocklists s /\
  localDeviceIdx (DropAllFiles SortFunc now dev s) = localDeviceIdx s.
Proof.
  unfold DropAllFiles. destruct (existsb _ _) eqn:He; cbn [negb].
  - destruct (recalcFolder_content SortFunc now (drop_rows (fun x => DeviceIdx (row x) =? dev) s)) as [-> -> -> ->].
    repeat split. unfold rows, drop_rows. cbn [files set_files]. by rewrite filter_rows.
  - repeat split. unfold rows. rewrite <- filter_rows by done. f_equal. symmetry.
    apply forallb_filter_id. apply forallb_forall. intros x Hx. apply negb_true_iff.
    destruct (DeviceIdx (row x) =? dev) eqn:Hd; [|done]. rewrite <- He. symmetry. apply existsb_exists. eauto.
Qed.

Lemma DropDevice_content dev s :
  let db := fdb (store_DropDevice SortFunc now false dev s).1 in
  rows db = List.filter (fun y => negb (DeviceIdx (row y) =? dev)) (rows (fdb s)) /\
  next_sequence db = next_sequence (fdb s) /\ blocklists db = blocklists (fdb s) /\
  localDeviceIdx db = localDeviceIdx (fdb s).
Proof.
  unfold store_DropDevice, DropDevice. cbn [fst fdb].
  destruct (recalcFolder_content SortFunc now (drop_rows (fun x => DeviceIdx (row x) =? dev) (fdb s))) as [-> -> -> ->].
  repeat split. unfold rows, drop_rows. cbn [files set_files]. by rewrite filter_rows.
Qed.
Lemma DropFilesNamed_content dev ns s :
  rows (DropFilesNamed SortFunc now NormalizedFilename dev ns s) =
    List.filter (fun y => negb ((DeviceIdx (row y) =? dev) && bool_decide (rName (row y) ∈ map NormalizedFilename ns))) (rows s) /\
  next_sequence (DropFilesNamed SortFunc now NormalizedFilename dev ns s) = next_sequence s /\
  blocklists (DropFilesNamed SortFunc now NormalizedFilename dev ns s) = blocklists s /\
  localDeviceIdx (DropFilesNamed SortFunc now NormalizedFilename dev ns s) = localDeviceIdx s.
Proof.
  unfold DropFilesNamed. cbv zeta. destruct (recalc_names_content SortFunc now (map NormalizedFilename ns)
    (drop_rows (fun x => (DeviceIdx (row x) =? dev) && bool_decide (rName (row x) ∈ map NormalizedFilename ns)) s)) as [-> -> -> ->].
  repeat split. unfold rows, drop_rows. cbn [files set_files]. by rewrite filter_rows.
Qed.
Lemma sublist_map_filter {A B} (f : A -> B) (P : A -> bool) (l : list A) : map f (List.filter P l) `sublist_of` map f l.
Proof. induction l as [|x l IH]; cbn; [constructor|]. by destruct (P x); constructor. Qed.

(** ** The trigger *)

Lemma triggers_other isLocal dev next fs ids d : d <> dev -> triggers isLocal dev next fs ids !! d = ids !! d.
Proof.
  intros Hd. revert next ids. induction fs as [|f fs IH]; intros next ids; [done|]. cbn [triggers]. rewrite IH.
  unfold indexids_seq. by rewrite lookup_insert_ne.
Qed.
Definition id_of (dev : Z) (ids : gmap Z (option Z * Z)) : option Z := match ids !! dev with Some (id, _) => id | None => None end.
Definition seq_of (dev : Z) (ids : gmap Z (option Z * Z)) : Z := match ids !! dev with Some (_, q) => q | None => 0 end.
Lemma triggers_id isLocal dev next fs ids : id_of dev (triggers isLocal dev next fs ids) = id_of dev ids.
Proof.
  revert next ids. induction fs as [|f fs IH]; intros next ids; [done|]. cbn [triggers]. rewrite IH.
  unfold indexids_seq, id_of. by rewrite lookup_insert_eq.
Qed.
Lemma triggers_seq isLocal dev next fs ids :
  seq_of dev (triggers isLocal dev next fs ids) =
    match list.last fs with
    | None => seq_of dev ids
    | Some f => if isLocal then next + zlen fs - 1 else Sequence f
    end.
Proof.
  revert next ids. induction fs as [|f fs IH]; intros next ids; [done|]. cbn [triggers]. rewrite IH.
  destruct fs as [|g fs]; cbn [list.last].
  - unfold indexids_seq, seq_of. rewrite lookup_insert_eq. destruct isLocal; cbn; lia.
  - rewrite last_cons. destruct (list.last fs) as [h|]; cbn [default]; destruct isLocal; try done; cbn [length]; lia.
Qed.

(** ** Reading *)

Lemma indirectFI_strip db x : indirectFI_FileInfo NativeFilename db (strip x) = indirectFI_FileInfo NativeFilename db x.
Proof. done. Qed.
End Ops.
