(* ===== verification/IndexHandler.v ===== *)
(** * The exchange of indexes (lib/model/indexhandler.go)

    A handler per folder and connection: it sends the files of the local
    device, in the order of their sequence numbers and in batches, and takes in
    what the peer sends.  The registry starts, pauses and removes handlers as
    folders and cluster configurations come and go. *)
From Stdlib Require Import ZArith List Lia.
From Stdlib Require Import Strings.Byte.
From stdpp Require Import base list option gmap numbers tactics.
From S2P Require Import Prelude GoLib Vector FileInfo FileInfoWire PullQueue PullState GlobalState FolderStore Downloads.

#[local] Open Scope Z_scope.

(** ** Data *)

(** What a cluster configuration says of a device: its index ID and sequence
    number. *)
Record Device := { IndexID : Z; MaxSequence : Z }.
Record clusterConfigDeviceInfo := { local : Device; remote : Device }.

(** [bep.Index] and [bep.IndexUpdate] *)
Record indexMessage :=
  { im_update : bool; im_files : list bep_FileInfo; im_prev : Z; im_last : Z }.

Record indexHandler :=
  { ih_folder : bytes; folderIsReceiveEncrypted : bool; localPrevSequence : Z; sentPrevSequence : Z; paused : bool }.
Definition set_sequences (l s : Z) (h : indexHandler) : indexHandler :=
  {| ih_folder := ih_folder h; folderIsReceiveEncrypted := folderIsReceiveEncrypted h; localPrevSequence := l;
     sentPrevSequence := s; paused := paused h |}.
Definition set_paused (p : bool) (h : indexHandler) : indexHandler :=
  {| ih_folder := ih_folder h; folderIsReceiveEncrypted := folderIsReceiveEncrypted h;
     localPrevSequence := localPrevSequence h; sentPrevSequence := sentPrevSequence h; paused := p |}.

(** What is logged of an index that does not fit. *)
Inductive anomaly :=
| UnexpectedSequence | BeforePrev (i : nat) | AfterLast (i : nat) | NonIncreasing (i : nat)
| UnexpectedLast | UnexpectedAfterUpdate.

Inductive index_err := ErrMisbehaved | ErrFolderPaused | ErrFolderMissing | ErrConn | ErrDB (e : db_err).

Section Handler.
Context (SortFunc : (fileRow -> fileRow -> Z) -> list fileRow -> list fileRow) (now : Z).
Context (NormalizedFilename NativeFilename : bytes -> bytes) (sha256 : bytes -> bytes).
Context (protoSize : bep_FileInfo -> Z).

(** ** Starting *)

(** Where to start, from what the peer knows of us. *)
Definition startSequence_of (myIndexID mySequence : Z) (loc : Device) : Z :=
  if IndexID loc =? myIndexID then (if mySequence <? MaxSequence loc then 0 else MaxSequence loc)
  else 0.
(** What the peer says of itself, against what we have of it. *)
Definition check_remote (dev : Z) (rem : Device) (s : folderStore) : folderStore :=
  let theirs := (GetIndexID false 0 dev s).2 in
  if IndexID rem =? 0 then store_DropAllFiles SortFunc now dev s
  else if negb (IndexID rem =? theirs) then
    SetIndexID dev (IndexID rem) (store_DropAllFiles SortFunc now dev s)
  else s.
Definition newIndexHandler (newID dev : Z) (folder : bytes) (encrypted : bool) (info : clusterConfigDeviceInfo)
    (s : folderStore) : folderStore * indexHandler :=
  let '(s, myIndexID) := GetIndexID true newID (localDeviceIdx (fdb s)) s in
  let mySequence := GetDeviceSequence (localDeviceIdx (fdb s)) s in
  let start := startSequence_of myIndexID mySequence (local info) in
  let s := check_remote dev (remote info) s in
  (s, {| ih_folder := folder; folderIsReceiveEncrypted := encrypted; localPrevSequence := start;
         sentPrevSequence := start; paused := false |}).

(** ** Sending *)

Definition prepareFileInfoForIndex (f : FileInfo) : FileInfo :=
  {| Name := Name f; FSize := i64 (FSize f - EncryptionTrailerSize f); ModifiedS := ModifiedS f; ModifiedBy := ModifiedBy f;
     Version := if IsReceiveOnlyChanged f then {| Counters := [] |} else Version f; Sequence := Sequence f;
     Blocks := Blocks f; SymlinkTarget := SymlinkTarget f;
     BlocksHash := BlocksHash f; PreviousBlocksHash := PreviousBlocksHash f; Encrypted := Encrypted f;
     Platform := Platform f; Type_ := Type_ f; Permissions := Permissions f; ModifiedNs := ModifiedNs f;
     RawBlockSize := RawBlockSize f; LocalFlags := LocalFlags f;
     EncryptionTrailerSize := EncryptionTrailerSize f;
     Deleted := Deleted f; NoPermissions := NoPermissions f; truncated := truncated f |}.

Fixpoint index_toWire (fs : list FileInfo) : outcome unit (list bep_FileInfo) :=
  match fs with
  | [] => Ret []
  | f :: fs => w ← ToWire false f; ws ← index_toWire fs; Ret (w :: ws)
  end.

(** The variables of the flush function; the last is what has been sent. *)
Record connState := { c_initial : bool; c_sentPrev : Z; c_out : list indexMessage }.
(** [res] is what the context and the connection answer, [None] for success. *)
Definition flush_index (res : option index_err) (fs : list FileInfo) : SM connState index_err unit := fun c =>
  match list.last fs with
  | None => (c, Panic)
  | Some f =>
      let lastSequence := Sequence f in
      match index_toWire fs with
      | Ret ws =>
          let m := if c_initial c then {| im_update := false; im_files := ws; im_prev := 0; im_last := lastSequence |}
                   else {| im_update := true; im_files := ws; im_prev := c_sentPrev c; im_last := lastSequence |} in
          match res with
          | Some e => ({| c_initial := false; c_sentPrev := c_sentPrev c; c_out := c_out c |}, Err e)
          | None => ({| c_initial := false; c_sentPrev := lastSequence; c_out := c_out c ++ [m] |}, Ret tt)
          end
      | _ => (c, Panic)
      end
  end.

Abbreviation batch := (FileInfoBatch (E := index_err) (W := connState)).
(** The loop over the files: [fseq] is the sequence number of the file before,
    [lp] the field [localPrevSequence]. *)
Fixpoint send_loop (enc : bool) (fs : list FileInfo) (fseq : Z) (previousWasDelete : bool) (lp : Z) (b : batch) :
  (Z * batch) * outcome index_err unit :=
  match fs with
  | [] => ((lp, b), Ret tt)
  | fi :: fs =>
      if batch_Full b && (negb (IsDeleted fi) || previousWasDelete) then ((lp, b), Ret tt)
      else if Sequence fi <? lp + 1 then ((lp, b), Err ErrMisbehaved)
      else if (0 <? fseq) && (Sequence fi <=? fseq) then ((lp, b), Err ErrMisbehaved)
      else
        let lp := Sequence fi in
        if enc && IsReceiveOnlyChanged fi then send_loop enc fs (Sequence fi) previousWasDelete lp b
        else
          let f := prepareFileInfoForIndex fi in
          match batch_Append protoSize f b with
          | (b, Ret _) => send_loop enc fs (Sequence f) (IsDeleted f) lp b
          | (b, e) => ((lp, b), e)
          end
  end.
(** [sendIndexTo]: the handler afterwards, the messages sent, and the error. *)
Definition sendIndexTo (res : option index_err) (s : folderStore) (h : indexHandler) :
  (indexHandler * list indexMessage) * outcome index_err unit :=
  let b := {| infos := []; bsize := 0; berror := None;
              world := {| c_initial := localPrevSequence h =? 0; c_sentPrev := sentPrevSequence h; c_out := [] |} |} in
  let fs := AllLocalFilesBySequence NativeFilename (localDeviceIdx (fdb s)) (localPrevSequence h + 1)
              (MaxBatchSizeFiles + 1) s in
  match send_loop (folderIsReceiveEncrypted h) fs 0 false (localPrevSequence h) b with
  | ((lp, b), Ret _) =>
      let '(b, r) := batch_Flush (flush_index res) b in
      ((set_sequences lp (c_sentPrev (world b)) h, c_out (world b)), r)
  | ((lp, b), e) => ((set_sequences lp (c_sentPrev (world b)) h, c_out (world b)), e)
  end.
(** One round of the loop of [Serve]: it sends if the database is ahead. *)
Definition Serve_round (res : option index_err) (s : folderStore) (h : indexHandler) :
  (indexHandler * list indexMessage) * outcome index_err unit :=
  if GetDeviceSequence (localDeviceIdx (fdb s)) s <=? localPrevSequence h then ((h, []), Ret tt)
  else sendIndexTo res s h.

(** ** Receiving *)

Definition makeForgetUpdate (fs : list FileInfo) : list FileDownloadProgressUpdate :=
  map (fun f => forgetUpdate (Name f) (Version f))
    (List.filter (fun f => negb (IsSymlink f || IsDirectory f || IsDeleted f)) fs).

(** The checks of the files against the sequence numbers of the message. *)
Fixpoint check_files (prevSequence lastSequence : Z) (i : nat) (before : option Z) (fs : list FileInfo) : list anomaly :=
  match fs with
  | [] => []
  | f :: fs =>
      (if Sequence f <? prevSequence then [BeforePrev i] else []) ++
      (if (0 <? lastSequence) && (lastSequence <? Sequence f) then [AfterLast i] else []) ++
      (match before with Some q => if Sequence f <=? q then [NonIncreasing i] else [] | None => [] end) ++
      check_files prevSequence lastSequence (S i) (Some (Sequence f)) fs
  end.
Definition check_last (lastSequence : Z) (fs : list FileInfo) : list anomaly :=
  match list.last fs with
  | Some f => if (0 <? lastSequence) && negb (lastSequence =? Sequence f) then [UnexpectedLast] else []
  | None => []
  end.

(** [receive]: the state afterwards, the anomalies logged, and the error. *)
Definition receive (dev : Z) (h : indexHandler) (fs : list FileInfo) (update : bool) (prevSequence lastSequence : Z)
    (st : option deviceDownloadState * folderStore) :
  (option deviceDownloadState * folderStore) * (list anomaly * outcome index_err unit) :=
  if paused h then (st, ([], Err ErrFolderPaused))
  else
    let downloads := downloads_Update st.1 (ih_folder h) (makeForgetUpdate fs) in
    let s := if negb update then store_DropAllFiles SortFunc now dev st.2 else st.2 in
    let exp := GetDeviceSequence dev s in
    let a1 := if (0 <? prevSequence) && negb (prevSequence =? exp) then [UnexpectedSequence] else [] in
    let a2 := check_files prevSequence lastSequence 0 None fs in
    let a3 := check_last lastSequence fs in
    match store_Update SortFunc now NormalizedFilename sha256 false dev fs s with
    | (s, Ret _) =>
        let seq := GetDeviceSequence dev s in
        let a4 := if (0 <? lastSequence) && negb (is_nil fs) && negb (seq =? lastSequence)
                  then [UnexpectedAfterUpdate] else [] in
        ((downloads, s), (a1 ++ a2 ++ a3 ++ a4, Ret tt))
    | (s, Err e) => ((downloads, s), (a1 ++ a2 ++ a3, Err (ErrDB e)))
    | (s, Panic) => ((downloads, s), (a1 ++ a2 ++ a3, Panic))
    | (s, OutOfFuel) => ((downloads, s), (a1 ++ a2 ++ a3, OutOfFuel))
    end.
(** A message of the peer: [indexFromWire], [indexUpdateFromWire] and [receive]. *)
Definition receive_message (dev : Z) (h : indexHandler) (m : indexMessage) :=
  receive dev h (map FileInfoFromWire (im_files m)) (im_update m) (im_prev m) (im_last m).

(** ** The registry *)

Record FolderConfiguration := { cfgID : bytes; cfgReceiveEncrypted : bool; cfgPaused : bool; cfgDevices : list Z }.
Definition SharedWith (dev : Z) (c : FolderConfiguration) : bool := bool_decide (dev ∈ cfgDevices c).

(** The handlers of a connection to the device [reg_dev]; the folders of the
    database, by name. *)
Record indexHandlerRegistry :=
  { reg_dev : Z; sdb : gmap bytes folderStore; reg_downloads : option deviceDownloadState;
    indexHandlers : gmap bytes indexHandler; startInfos : gmap bytes clusterConfigDeviceInfo;
    folderStates : gmap bytes FolderConfiguration }.
Definition set_handlers (hs : gmap bytes indexHandler) (is_ : gmap bytes clusterConfigDeviceInfo)
    (fs : gmap bytes FolderConfiguration) (r : indexHandlerRegistry) : indexHandlerRegistry :=
  {| reg_dev := reg_dev r; sdb := sdb r; reg_downloads := reg_downloads r; indexHandlers := hs; startInfos := is_;
     folderStates := fs |}.
Definition set_store (folder : bytes) (s : folderStore) (r : indexHandlerRegistry) : indexHandlerRegistry :=
  {| reg_dev := reg_dev r; sdb := <[folder := s]> (sdb r); reg_downloads := reg_downloads r;
     indexHandlers := indexHandlers r; startInfos := startInfos r; folderStates := folderStates r |}.
Definition newIndexHandlerRegistry (dev : Z) (db : gmap bytes folderStore) (d : option deviceDownloadState) :
  indexHandlerRegistry :=
  {| reg_dev := dev; sdb := db; reg_downloads := d; indexHandlers := ∅; startInfos := ∅; folderStates := ∅ |}.

(** A folder without a database is an error of [newIndexHandler]. *)
Definition startLocked (newID : Z) (cfg : FolderConfiguration) (info : clusterConfigDeviceInfo)
    (r : indexHandlerRegistry) : indexHandlerRegistry :=
  let r := set_handlers (delete (cfgID cfg) (indexHandlers r)) (delete (cfgID cfg) (startInfos r)) (folderStates r) r in
  match sdb r !! cfgID cfg with
  | None => r
  | Some s =>
      let '(s, h) := newIndexHandler newID (reg_dev r) (cfgID cfg) (cfgReceiveEncrypted cfg) info s in
      let r := set_store (cfgID cfg) s r in
      set_handlers (<[cfgID cfg := h]> (indexHandlers r)) (startInfos r) (folderStates r) r
  end.
Definition AddIndexInfo (newID : Z) (folder : bytes) (info : clusterConfigDeviceInfo) (r : indexHandlerRegistry) :
  indexHandlerRegistry :=
  let r := set_handlers (delete folder (indexHandlers r)) (startInfos r) (folderStates r) r in
  match folderStates r !! folder with
  | None => set_handlers (indexHandlers r) (<[folder := info]> (startInfos r)) (folderStates r) r
  | Some cfg => startLocked newID cfg info r
  end.
Definition Remove (folder : bytes) (r : indexHandlerRegistry) : indexHandlerRegistry :=
  set_handlers (delete folder (indexHandlers r)) (delete folder (startInfos r)) (folderStates r) r.
Definition RemoveAllExcept (except : gset bytes) (r : indexHandlerRegistry) : indexHandlerRegistry :=
  set_handlers (filter (fun kv => kv.1 ∈ except) (indexHandlers r)) (filter (fun kv => kv.1 ∈ except) (startInfos r))
    (folderStates r) r.
Definition folderPausedLocked (folder : bytes) (r : indexHandlerRegistry) : indexHandlerRegistry :=
  set_handlers (alter (set_paused true) folder (indexHandlers r)) (startInfos r) (delete folder (folderStates r)) r.
Definition folderRunningLocked (newID : Z) (cfg : FolderConfiguration) (r : indexHandlerRegistry) : indexHandlerRegistry :=
  let id := cfgID cfg in
  let r := set_handlers (indexHandlers r) (startInfos r) (<[id := cfg]> (folderStates r)) r in
  match startInfos r !! id with
  | Some info =>
      let r := set_handlers (delete id (indexHandlers r)) (startInfos r) (folderStates r) r in
      let r := startLocked newID cfg info r in
      set_handlers (indexHandlers r) (delete id (startInfos r)) (folderStates r) r
  | None => set_handlers (alter (set_paused false) id (indexHandlers r)) (startInfos r) (folderStates r) r
  end.
Definition RegisterFolderState (newID : Z) (cfg : FolderConfiguration) (r : indexHandlerRegistry) : indexHandlerRegistry :=
  if negb (SharedWith (reg_dev r) cfg) then Remove (cfgID cfg) r
  else if cfgPaused cfg then folderPausedLocked (cfgID cfg) r
  else folderRunningLocked newID cfg r.
Definition ReceiveIndex (folder : bytes) (fs : list FileInfo) (update : bool) (prevSequence lastSequence : Z)
    (r : indexHandlerRegistry) : indexHandlerRegistry * (list anomaly * outcome index_err unit) :=
  match indexHandlers r !! folder with
  | None => (r, ([], Err ErrFolderMissing))
  | Some h =>
      match sdb r !! folder with
      | None => (r, ([], Err ErrFolderMissing)) (* a handler has a database *)
      | Some s =>
          let '((d, s), res) := receive (reg_dev r) h fs update prevSequence lastSequence (reg_downloads r, s) in
          ({| reg_dev := reg_dev r; sdb := <[folder := s]> (sdb r); reg_downloads := d; indexHandlers := indexHandlers r;
              startInfos := startInfos r; folderStates := folderStates r |}, res)
      end
  end.
End Handler.
