(* ===== verification/IndexHandlerProps.v ===== *)
(** * The exchange of indexes: the sender, the receiver, and both together *)
From Stdlib Require Import ZArith List Lia.
From Stdlib Require Import Strings.Byte.
From stdpp Require Import base list option gmap numbers tactics sorting.
From S2P Require Import Prelude GoLib Vector FileInfo FileInfoWire PullQueue PullState GlobalState FolderStore.
From S2P Require Import FolderStoreProps Downloads IndexHandler.

#[local] Open Scope Z_scope.

(** ** Sorted lists *)

Definition row_lt (x y : filesRow) : Prop := rSequence (row x) < rSequence (row y).
Definition last_seq (lp : Z) (xs : list filesRow) : Z := match list.last xs with Some x => rSequence (row x) | None => lp end.

Lemma last_seq_cons lp x xs : last_seq lp (x :: xs) = last_seq (rSequence (row x)) xs.
Proof. unfold last_seq. rewrite last_cons. by destruct (list.last xs). Qed.
Lemma last_seq_ge lp xs x :
  StronglySorted row_lt xs -> x ∈ xs -> rSequence (row x) <= last_seq lp xs.
Proof.
  revert lp. induction xs as [|y xs IH]; intros lp Hs Hx; [by apply elem_of_nil in Hx|]. rewrite last_seq_cons.
  apply StronglySorted_inv in Hs as [Hs Hy]. apply elem_of_cons in Hx as [->|Hx]; [|by apply IH].
  unfold last_seq. destruct (list.last xs) as [z|] eqn:Hz; [|lia]. apply last_Some_elem_of in Hz.
  rewrite Forall_forall in Hy. specialize (Hy z Hz). unfold row_lt in Hy. lia.
Qed.
Lemma last_seq_in lp xs : (xs = [] /\ last_seq lp xs = lp) \/ exists x, x ∈ xs /\ last_seq lp xs = rSequence (row x).
Proof.
  unfold last_seq. destruct (list.last xs) as [x|] eqn:Hx; [right|left].
  - exists x. split; [by apply last_Some_elem_of|done].
  - by apply last_None in Hx.
Qed.

(** ** The sender *)

Section Exchange.
Context (SortFunc : (fileRow -> fileRow -> Z) -> list fileRow -> list fileRow) (now : Z).
Context (NormalizedFilename NativeFilename : bytes -> bytes) (sha256 : bytes -> bytes).
Context (protoSize : bep_FileInfo -> Z).
(** A name in the form of the database survives the form of the system. *)
Hypothesis normalized_native : forall n,
  NormalizedFilename (NativeFilename (NormalizedFilename n)) = NormalizedFilename n.
(** Whether the folder receives encrypted files; the index of the sender in its
    own database and in that of the receiver. *)
Context (enc : bool) (ldev rdev : Z).

Abbreviation read s := (indirectFI_FileInfo NativeFilename (fdb s)).
Definition skip (s : folderStore) (x : filesRow) : bool := enc && IsReceiveOnlyChanged (read s x).
(** The file of a row as the receiver gets it. *)
Definition announce (s : folderStore) (x : filesRow) : FileInfo :=
  match ToWire false (prepareFileInfoForIndex (read s x)) with Ret w => FileInfoFromWire w | _ => read s x end.

Definition local_row (s : folderStore) (x : filesRow) : Prop := x ∈ rows (fdb s) /\ DeviceIdx (row x) = ldev.
Definition last_local (s : folderStore) : Z := seq_of ldev (indexids s).

(** The rows of the local device are well formed. *)
Record row_ok (s : folderStore) (x : filesRow) : Prop := {
  ro_seq : Sequence (fiprotobuf x) = rSequence (row x);
  ro_name : Name (fiprotobuf x) = rName (row x);
  ro_normal : exists n, rName (row x) = NormalizedFilename n;
  ro_stored : ToWire true (fiprotobuf x) <> Panic;
  ro_blocks : BlocklistHash (row x) <> [] -> is_Some (blocklists (fdb s) !! BlocklistHash (row x)) }.
Record sender_ok (s : folderStore) : Prop := {
  so_dev : localDeviceIdx (fdb s) = ldev;
  so_seqs : forall x, x ∈ rows (fdb s) -> 1 <= rSequence (row x) < next_sequence (fdb s);
  so_nodup : NoDup (map (fun x => rSequence (row x)) (rows (fdb s)));
  so_names : forall x y, local_row s x -> local_row s y -> rName (row x) = rName (row y) -> x = y;
  so_rows : forall x, local_row s x -> row_ok s x;
  so_next : 1 <= next_sequence (fdb s);
  so_last : 0 <= last_local s < next_sequence (fdb s);
  so_bound : forall x, local_row s x -> rSequence (row x) <= last_local s }.

Lemma ToWire_cases b f : ToWire b f = Panic \/ exists w, ToWire b f = Ret w.
Proof. unfold ToWire. case_match; eauto. Qed.
Lemma ToWire_panic b f :
  ToWire b f = Panic <-> truncated f && negb (IsDeleted f || IsInvalid f || IsIgnored f) = true.
Proof. unfold ToWire. by destruct (truncated f && _). Qed.
Lemma ToWire_complete b f : truncated f = false -> exists w, ToWire b f = Ret w.
Proof. intros H. unfold ToWire. rewrite H. cbn. eauto. Qed.

(** Reading a well-formed row. *)
Lemma read_ok s x : row_ok s x ->
  Sequence (read s x) = rSequence (row x) /\ Name (read s x) = NativeFilename (rName (row x)) /\ truncated (read s x) = false.
Proof.
  intros [H1 H2 _ H4 _]. unfold indirectFI_FileInfo. cbv zeta. set (bl := if is_nil _ then _ else _).
  destruct (ToWire_cases true (set_Blocks bl (fiprotobuf x))) as [Hp|[w Hw] ].
  { exfalso. apply H4. apply ToWire_panic in Hp. by apply ToWire_panic. }
  rewrite Hw. unfold ToWire in Hw. case_match; [done|]. injection Hw as <-. cbn. by rewrite H2.
Qed.
Lemma announce_wire s x : row_ok s x ->
  exists w, ToWire false (prepareFileInfoForIndex (read s x)) = Ret w /\ FileInfoFromWire w = announce s x.
Proof.
  intros Hx. destruct (read_ok s x Hx) as (H1 & H2 & H3).
  destruct (ToWire_complete false (prepareFileInfoForIndex (read s x))) as [w Hw]; [done|].
  exists w. unfold announce. by rewrite Hw.
Qed.
Lemma announce_ok s x : row_ok s x ->
  Sequence (announce s x) = rSequence (row x) /\ truncated (announce s x) = false /\
    NormalizedFilename (Name (announce s x)) = rName (row x).
Proof.
  intros Hx. destruct (read_ok s x Hx) as (H1 & H2 & H3).
  destruct (ToWire_complete false (prepareFileInfoForIndex (read s x))) as [w Hw]; [done|].
  unfold announce. rewrite Hw. unfold ToWire in Hw. cbn [truncated prepareFileInfoForIndex] in Hw. rewrite H3 in Hw. cbn [andb] in Hw. injection Hw as <-.
  cbn. rewrite H1, H2. split; [done|]. split; [done|]. destruct (ro_normal _ _ Hx) as [n ->]. apply normalized_native.
Qed.

Lemma index_toWire_announce s xs :
  (forall x, x ∈ xs -> row_ok s x) ->
  exists ws, index_toWire (map (fun x => prepareFileInfoForIndex (read s x)) xs) = Ret ws /\
    map FileInfoFromWire ws = map (announce s) xs.
Proof.
  induction xs as [|x xs IH]; intros H; [by exists []|].
  destruct (announce_wire s x (H x ltac:(constructor))) as (w & Hw & Ha).
  destruct IH as (ws & Hws & Has); [intros y Hy; apply H; by constructor|].
  exists (w :: ws). cbn. rewrite Hw. cbn [mbind outcome_bind]. rewrite Hws. cbn. by rewrite Ha, Has.
Qed.

(** The loop takes a prefix of the rows and appends those that are not skipped. *)
Lemma send_loop_spec s xs fseq pwd lp (b : FileInfoBatch) :
  (forall x, x ∈ xs -> row_ok s x) -> StronglySorted row_lt xs ->
  (forall x, x ∈ xs -> lp < rSequence (row x)) -> fseq <= lp -> berror b = None ->
  exists k b', send_loop protoSize enc (map (read s) xs) fseq pwd lp b = ((last_seq lp (take k xs), b'), Ret tt) /\
    berror b' = None /\ world b' = world b /\
    infos b' = infos b ++ map (fun x => prepareFileInfoForIndex (read s x)) (List.filter (fun x => negb (skip s x)) (take k xs)) /\
    (xs <> [] -> batch_Full b = false -> k <> O).
Proof.
  revert fseq pwd lp b. induction xs as [|x xs IH]; intros fseq pwd lp b Hr Hs Hlp Hf Hb.
  { exists O, b. cbn. by rewrite app_nil_r. }
  cbn [map send_loop]. destruct (read_ok s x (Hr x ltac:(constructor))) as (H1 & _ & H3).
  destruct (batch_Full b && _) eqn:Hfull.
  { exists O, b. cbn. rewrite app_nil_r. repeat split; auto. intros _ Hb'. by rewrite Hb' in Hfull. }
  specialize (Hlp x ltac:(constructor)) as Hx. rewrite H1.
  rewrite (proj2 (Z.ltb_ge _ _)) by lia. rewrite (proj2 (Z.leb_gt (rSequence (row x)) fseq)) by lia. rewrite andb_false_r.
  apply StronglySorted_inv in Hs as [Hs Hall]. rewrite Forall_forall in Hall.
  assert (forall y, y ∈ xs -> rSequence (row x) < rSequence (row y)) as Hlt.
  { intros y Hy. by apply Hall. }
  assert (forall y, y ∈ xs -> row_ok s y) as Hr' by (intros y Hy; apply Hr; by constructor).
  fold (skip s x). destruct (skip s x) eqn:Hskip.
  - destruct (IH (rSequence (row x)) pwd (rSequence (row x)) b Hr' Hs Hlt ltac:(lia) Hb) as (k & b' & E & H4 & H5 & H6 & _).
    exists (S k), b'. cbn [take List.filter]. rewrite last_seq_cons, Hskip. cbn [negb]. by rewrite E.
  - unfold batch_Append at 1. rewrite Hb.
    destruct (ToWire_complete true (prepareFileInfoForIndex (read s x))) as [w ->]; [done|].
    set (b1 := {| infos := _; bsize := _; berror := _; world := _ |}). cbn [Sequence prepareFileInfoForIndex]. rewrite H1.
    destruct (IH (rSequence (row x)) (IsDeleted (prepareFileInfoForIndex (read s x))) (rSequence (row x)) b1 Hr' Hs Hlt
                ltac:(lia) eq_refl) as (k & b' & E & H4 & H5 & H6 & _).
    exists (S k), b'. cbn [take List.filter]. rewrite last_seq_cons, Hskip. cbn [negb]. rewrite E.
    split; [done|]. split; [done|]. split; [done|]. split; [|done]. rewrite H6. cbn [infos b1 map]. by rewrite <- app_assoc.
Qed.
(** The rows of the local device in order. *)
Lemma rows_from_spec s start :
  sender_ok s ->
  StronglySorted row_lt (map strip (rows_from ldev start s)) /\
  forall x, x ∈ map strip (rows_from ldev start s) <-> local_row s x /\ start <= rSequence (row x).
Proof.
  intros Hs. set (P := fun x => of_device ldev x && (start <=? rSequence (row x))).
  assert (rows_from ldev start s ≡ₚ List.filter P (files (fdb s))) as HP by apply merge_sort_Permutation.
  assert (map strip (rows_from ldev start s) ≡ₚ List.filter P (rows (fdb s))) as HP'.
  { etrans; [apply Permutation_map, HP|]. unfold rows. by rewrite filter_rows. }
  assert (forall x, x ∈ map strip (rows_from ldev start s) <-> local_row s x /\ start <= rSequence (row x)) as Hin.
  { intros x. rewrite HP', in_filter. unfold P, of_device, local_row. rewrite andb_true_iff, Z.eqb_eq, Z.leb_le. tauto. }
  split; [|done].
  assert (NoDup (map (fun x => rSequence (row x)) (map strip (rows_from ldev start s)))) as Hnd.
  { rewrite HP'. pose proof (so_nodup _ Hs) as H. revert H. generalize (rows (fdb s)). intros l. induction l as [|x l IH]; [done|].
    cbn. intros [Hx Hl]%list.NoDup_cons. destruct (P x); cbn; [|by apply IH]. apply list.NoDup_cons. split; [|by apply IH].
    intros (y & Hy & [Hyl _]%filter_In)%list_elem_of_In%in_map_iff. apply Hx, list_elem_of_In, in_map_iff. eauto. }
  assert (StronglySorted (fun x y => rSequence (row x) <= rSequence (row y)) (map strip (rows_from ldev start s))) as Hsort.
  { assert (StronglySorted seq_le (rows_from ldev start s)) as H.
    { apply StronglySorted_merge_sort; [intros x y z; unfold seq_le; lia|intros x y; unfold seq_le; lia]. }
    revert H. generalize (rows_from ldev start s). intros l. induction 1 as [|x l _ IH Hall]; cbn; [constructor|].
    constructor; [done|]. rewrite Forall_forall in *. intros y (z & <- & Hz)%list_elem_of_In%in_map_iff. cbn.
    apply Hall. by apply list_elem_of_In. }
  clear HP HP' Hin. revert Hnd Hsort. generalize (map strip (rows_from ldev start s)). intros l Hnd Hsort.
  induction Hsort as [|x l Hsort IH Hall]; [constructor|]. cbn in Hnd. apply list.NoDup_cons in Hnd as [Hx Hnd].
  constructor; [by apply IH|]. rewrite Forall_forall in *. intros y Hy. specialize (Hall y Hy).
  unfold row_lt. assert (rSequence (row x) <> rSequence (row y)); [|lia]. intros He. apply Hx. rewrite He.
  apply list_elem_of_In, in_map_iff. exists y. by rewrite <- list_elem_of_In.
Qed.

Lemma sorted_take lp k xs x :
  StronglySorted row_lt xs -> (forall y, y ∈ xs -> lp < rSequence (row y)) ->
  x ∈ xs -> rSequence (row x) <= last_seq lp (take k xs) -> x ∈ take k xs.
Proof.
  intros Hs Hlp Hx Hle. rewrite <- (take_drop k xs) in Hx, Hs. apply elem_of_app in Hx as [Hx|Hx]; [done|]. exfalso.
  destruct (last_seq_in lp (take k xs)) as [ [_ E]|(y & Hy & E)]; rewrite E in Hle.
  - assert (x ∈ xs) as Hx'; [|specialize (Hlp _ Hx'); lia]. rewrite <- (take_drop k xs). apply elem_of_app. by right.
  - pose proof (StronglySorted_app_1_elem_of _ _ _ _ _ Hs Hy Hx) as H. unfold row_lt in H. lia.
Qed.
Lemma sorted_prefix k xs : StronglySorted row_lt xs -> StronglySorted row_lt (take k xs).
Proof. intros Hs. rewrite <- (take_drop k xs) in Hs. by apply StronglySorted_app_1_l in Hs. Qed.
Lemma sorted_filter P xs : StronglySorted row_lt xs -> StronglySorted row_lt (List.filter P xs).
Proof.
  induction 1 as [|x xs _ IH Hall]; cbn; [constructor|]. destruct (P x); [|done]. constructor; [done|].
  rewrite Forall_forall in *. intros y [Hy _]%in_filter. by apply Hall.
Qed.

Lemma NoDup_sorted xs : StronglySorted row_lt xs -> NoDup xs.
Proof.
  induction 1 as [|x xs _ IH Hall]; [by apply list.NoDup_nil|]. apply list.NoDup_cons. split; [|done]. intros Hx.
  rewrite Forall_forall in Hall. specialize (Hall x Hx). unfold row_lt in Hall. lia.
Qed.
Lemma NoDup_map_names s xs :
  sender_ok s -> NoDup xs -> (forall x, x ∈ xs -> local_row s x) ->
  NoDup (map (fun x => NormalizedFilename (Name (announce s x))) xs).
Proof.
  intros Hs. induction xs as [|x xs IH]; intros Hnd Hl; cbn; [by apply list.NoDup_nil|].
  apply list.NoDup_cons in Hnd as [Hx Hnd]. apply list.NoDup_cons.
  assert (forall y, y ∈ x :: xs -> NormalizedFilename (Name (announce s y)) = rName (row y)) as Hn.
  { intros y Hy. apply announce_ok, (so_rows _ Hs). by apply Hl. }
  split; [|apply IH; [done|intros y Hy; apply Hl; by constructor] ].
  intros (y & Hyn & Hy)%list_elem_of_In%in_map_iff. apply list_elem_of_In in Hy. apply Hx.
  rewrite !Hn in Hyn by (by constructor). by rewrite (so_names _ Hs x y) by (done || (apply Hl; by constructor)).
Qed.

(** Whether a local row lies beyond a number. *)
Lemma local_after s q :
  (exists x, local_row s x /\ q < rSequence (row x)) \/ (forall x, local_row s x -> rSequence (row x) <= q).
Proof.
  destruct (List.find (fun x => (DeviceIdx (row x) =? ldev) && (q <? rSequence (row x))) (rows (fdb s))) as [x|] eqn:E.
  - left. apply find_some in E as [Hx [?%Z.eqb_eq ?%Z.ltb_lt]%andb_true_iff]. exists x. apply list_elem_of_In in Hx. by split.
  - right. intros x [Hx Hd]. apply list_elem_of_In in Hx. pose proof (find_none _ _ E x Hx) as H. cbn in H.
    rewrite Hd, Z.eqb_refl in H. by apply Z.ltb_ge in H.
Qed.
(** Whether a name has a local row. *)
Lemma local_named s n : (exists x, local_row s x /\ rName (row x) = n) \/ (forall x, local_row s x -> rName (row x) <> n).
Proof.
  destruct (List.find (fun x => (DeviceIdx (row x) =? ldev) && bool_decide (rName (row x) = n)) (rows (fdb s))) as [x|] eqn:E.
  - left. apply find_some in E as [Hx [?%Z.eqb_eq ?%bool_decide_eq_true]%andb_true_iff]. exists x.
    apply list_elem_of_In in Hx. by split.
  - right. intros x [Hx Hd]. apply list_elem_of_In in Hx. pose proof (find_none _ _ E x Hx) as H. cbn in H.
    rewrite Hd, Z.eqb_refl in H. by apply bool_decide_eq_false in H.
Qed.

(** *** What is known of a handler and of the messages under way *)

(** [e] is the sequence number that the receiver will have reached. *)
Record handler_ok (s : folderStore) (e : Z) (h : indexHandler) : Prop := {
  ho_enc : folderIsReceiveEncrypted h = enc;
  ho_sent : sentPrevSequence h = e;
  ho_local : 0 <= e <= localPrevSequence h /\ localPrevSequence h <= last_local s;
  ho_skip : forall x, local_row s x -> e < rSequence (row x) <= localPrevSequence h -> skip s x = true }.

Definition seq_lt (f g : FileInfo) : Prop := Sequence f < Sequence g.
Definition m_files (m : indexMessage) : list FileInfo := map FileInfoFromWire (im_files m).
(** A message for a receiver that has reached [p]; [D] are the names whose rows
    were dropped. *)
Record message_ok (D : gset bytes) (s : folderStore) (p : Z) (m : indexMessage) : Prop := {
  mo_prev : im_prev m = if im_update m then p else 0;
  mo_initial : im_update m = false -> p = 0;
  mo_pos : 0 <= p < im_last m;
  mo_last : exists f, list.last (m_files m) = Some f /\ Sequence f = im_last m;
  mo_sorted : StronglySorted seq_lt (m_files m);
  mo_after : forall f, f ∈ m_files m -> p < Sequence f;
  mo_complete : forall f, f ∈ m_files m -> truncated f = false;
  mo_names : NoDup (map (fun f => NormalizedFilename (Name f)) (m_files m));
  mo_bound : im_last m <= last_local s;
  mo_real : forall f, f ∈ m_files m ->
    NormalizedFilename (Name f) ∈ D \/ exists x, local_row s x /\ rName (row x) = NormalizedFilename (Name f);
  mo_newest : forall f x, f ∈ m_files m -> local_row s x -> rName (row x) = NormalizedFilename (Name f) ->
    Sequence f <= rSequence (row x);
  mo_covers : forall x, local_row s x -> p < rSequence (row x) <= im_last m -> skip s x = true \/ announce s x ∈ m_files m }.

(** [sendIndexTo] never fails by itself; it sends at most one message, which is
    right for the receiver, and gets further if there is something new. *)
Lemma sendIndexTo_spec D s e h res :
  sender_ok s -> handler_ok s e h ->
  exists h' out r, sendIndexTo NativeFilename protoSize res s h = ((h', out), r) /\
    ((exists er, res = Some er /\ r = Err er /\ out = []) \/
     (r = Ret tt /\ exists e', handler_ok s e' h' /\ paused h' = paused h /\ localPrevSequence h <= localPrevSequence h' /\
        ((exists x, local_row s x /\ localPrevSequence h < rSequence (row x)) -> localPrevSequence h < localPrevSequence h') /\
        ((out = [] /\ e' = e) \/ exists m, out = [m] /\ message_ok D s e m /\ e' = im_last m))).
Proof.
  intros Hs [He Hsent (Hle1 & Hle2) Hskip]. unfold sendIndexTo. rewrite (so_dev _ Hs). set (lp := localPrevSequence h) in *.
  destruct (rows_from_spec s (lp + 1) Hs) as [Hsort Hin]. set (all := map strip (rows_from ldev (lp + 1) s)) in *.
  set (n := Z.to_nat (MaxBatchSizeFiles + 1)).
  assert (AllLocalFilesBySequence NativeFilename ldev (lp + 1) (MaxBatchSizeFiles + 1) s = map (read s) (take n all)) as ->.
  { unfold AllLocalFilesBySequence, all. change (0 <? MaxBatchSizeFiles + 1) with true. cbv iota zeta.
    by rewrite (firstn_map strip), map_map. }
  assert (forall x, x ∈ take n all -> local_row s x /\ lp < rSequence (row x)) as Htk.
  { intros x Hx. assert (x ∈ all) as Hx'; [|apply Hin in Hx' as [? ?]; split; [done|lia] ].
    rewrite <- (take_drop n all). apply elem_of_app. by left. }
  set (b0 := {| infos := []; bsize := 0; berror := None; world := _ |}). rewrite He.
  destruct (send_loop_spec s (take n all) 0 false lp b0) as (k & b & Hrun & Hb1 & Hb2 & Hb3 & Hprog).
  { intros x Hx. apply (so_rows _ Hs). by apply Htk. }
  { by apply sorted_prefix. }
  { intros x Hx. by apply Htk. }
  { lia. }
  { done. }
  rewrite Hrun. clear Hrun. rewrite take_take in *. set (j := Nat.min k n) in *. set (xs := take j all) in *.
  cbn [infos b0 app] in Hb3. set (sent := List.filter (fun x => negb (skip s x)) xs) in *.
  assert (forall x, x ∈ xs -> local_row s x /\ lp < rSequence (row x)) as Hxs.
  { intros x Hx. assert (x ∈ all) as Hx'; [|apply Hin in Hx' as [? ?]; split; [done|lia] ].
    rewrite <- (take_drop j all). apply elem_of_app. by left. }
  assert (StronglySorted row_lt xs) as Hxsort by (by apply sorted_prefix).
  set (lp' := last_seq lp xs).
  assert (forall x, local_row s x -> lp < rSequence (row x) <= lp' -> x ∈ xs) as Hpre.
  { intros x Hx Hr. apply (sorted_take lp); [done| | |unfold lp', xs in Hr; lia].
    - intros y Hy. apply Hin in Hy as [_ ?]. lia.
    - apply Hin. split; [done|lia]. }
  assert (lp <= lp' <= last_local s) as Hlp'.
  { unfold lp'. destruct (last_seq_in lp xs) as [ [_ ->]|(x & Hx & ->)]; [lia|]. apply Hxs in Hx as [Hx ?].
    pose proof (so_bound _ Hs x Hx). lia. }
  assert ((exists x, local_row s x /\ lp < rSequence (row x)) -> lp < lp') as Hprogress.
  { intros (x & Hx & Hxl).
    assert (x ∈ all) as Hxa by (apply Hin; split; [done|lia]).
    assert (xs <> []) as Hne.
    { unfold xs, j. destruct all as [|y ys]; [by apply elem_of_nil in Hxa|].
      assert (k <> O) as Hk; [apply Hprog; [unfold n; by change (Z.to_nat (MaxBatchSizeFiles + 1)) with 1001%nat|done]|].
      unfold n. change (Z.to_nat (MaxBatchSizeFiles + 1)) with 1001%nat. destruct k; [done|]. cbn. done. }
    unfold lp'. destruct (last_seq_in lp xs) as [ [? _]|(y & Hy & ->)]; [done|]. by apply Hxs. }
  unfold batch_Flush. rewrite Hb1.
  destruct (decide (sent = [])) as [E|Hne].
  - (* nothing to send *)
    rewrite E in Hb3. rewrite Hb3. cbn [map is_nil]. eexists _, _, _. split; [done|]. right. split; [done|]. exists e.
    split; [|split; [done|split; [cbn; fold lp'; lia|split; [done|left; by rewrite Hb2] ] ] ]. constructor; cbn.
    + done.
    + by rewrite Hb2.
    + fold lp'. lia.
    + intros x Hx Hr. destruct (decide (rSequence (row x) <= lp)) as [Hl|Hl]; [apply Hskip; [done|lia]|].
      destruct (skip s x) eqn:Hsk; [done|]. assert (x ∈ sent) as Hin'; [|rewrite E in Hin'; by apply elem_of_nil in Hin'].
      apply in_filter. rewrite Hsk. split; [|done]. apply Hpre; [done|]. fold lp' in Hr. lia.
  - assert (is_nil (infos b) = false) as -> by (rewrite Hb3; by destruct sent).
    assert (forall x, x ∈ sent -> local_row s x /\ lp < rSequence (row x)) as Hsentx.
    { intros x [Hx _]%in_filter. by apply Hxs. }
    destruct (index_toWire_announce s sent) as (ws & Hws & Hwa).
    { intros x Hx. apply (so_rows _ Hs). by apply Hsentx. }
    unfold flush_index. rewrite Hb3, Hws, Hb2.
    assert (exists z, list.last sent = Some z) as [z Hz].
    { destruct (list.last sent) eqn:HE; [eauto|]. by apply last_None in HE. }
    assert (list.last (map (fun x => prepareFileInfoForIndex (read s x)) sent) = Some (prepareFileInfoForIndex (read s z))) as ->.
    { change (map ?f ?l) with (f <$> l). by rewrite fmap_last, Hz. }
    assert (z ∈ sent) as Hzin by (by apply last_Some_elem_of).
    destruct (announce_ok s z) as (Hzs & _ & _); [apply (so_rows _ Hs); by apply Hsentx|].
    assert (Sequence (prepareFileInfoForIndex (read s z)) = rSequence (row z)) as ->.
    { cbn. apply read_ok, (so_rows _ Hs). by apply Hsentx. }
    destruct res as [er|].
    { eexists _, _, _. split; [done|]. left. exists er. split; [done|]. split; [done|]. by cbn. }
    eexists _, _, _. split; [reflexivity|]. right. split; [done|]. exists (rSequence (row z)).
    assert (forall x, x ∈ sent -> rSequence (row x) <= rSequence (row z)) as Hzmax.
    { intros x Hx. pose proof (last_seq_ge 0 sent x (sorted_filter _ _ Hxsort) Hx) as H. unfold last_seq in H. by rewrite Hz in H. }
    assert (lp < rSequence (row z) <= lp') as Hzr.
    { split; [by apply Hsentx|]. unfold lp'. apply last_seq_ge; [done|]. by apply in_filter in Hzin as [? _]. }
    split; [|split; [done|split; [cbn; fold lp'; lia|split; [done|right] ] ] ].
    + constructor; cbn.
      * done.
      * done.
      * fold lp'. lia.
      * intros x Hx Hr. destruct (skip s x) eqn:Hsk; [done|]. assert (x ∈ sent) as Hin'; [|specialize (Hzmax _ Hin'); lia].
        apply in_filter. rewrite Hsk. split; [|done]. apply Hpre; [done|]. fold lp' in Hr. lia.
    + eexists. split; [reflexivity|].
      match goal with |- message_ok _ _ _ ?m /\ _ => set (msg := m) end.
      assert (m_files msg = map (announce s) sent) as Hmf.
      { unfold m_files, msg. cbn. by destruct (lp =? 0). }
      assert (im_last msg = rSequence (row z)) as Hml by (unfold msg; cbn; by destruct (lp =? 0)).
      assert (forall f, f ∈ m_files msg -> exists x, x ∈ sent /\ f = announce s x) as Hmin.
      { rewrite Hmf. intros f (x & <- & Hx)%list_elem_of_In%in_map_iff. exists x. by rewrite list_elem_of_In. }
      assert (forall x, x ∈ sent -> row_ok s x) as Hro by (intros x Hx; apply (so_rows _ Hs); by apply Hsentx).
      split; [|by rewrite Hml]. constructor; rewrite ?Hml.
      * unfold msg. cbn. rewrite Hsent. by destruct (lp =? 0).
      * unfold msg. cbn. destruct (Z.eqb_spec lp 0); [lia|done].
      * lia.
      * exists (announce s z). rewrite Hmf. change (map ?f ?l) with (f <$> l). rewrite fmap_last, Hz. split; [done|].
        apply announce_ok. by apply Hro.
      * rewrite Hmf. pose proof (sorted_filter (fun x => negb (skip s x)) xs Hxsort) as Hss. fold sent in Hss.
        clear - Hss Hro normalized_native. induction Hss as [|x l Hss IH Hall]; cbn; [constructor|].
        constructor; [apply IH; intros y Hy; apply Hro; by constructor|]. rewrite Forall_forall in Hall. rewrite Forall_forall.
        intros f (y & <- & Hy)%list_elem_of_In%in_map_iff. apply list_elem_of_In in Hy. unfold seq_lt.
        destruct (announce_ok s x (Hro x ltac:(constructor))) as (-> & _ & _).
        destruct (announce_ok s y (Hro y ltac:(by constructor))) as (-> & _ & _). by apply Hall.
      * intros f (x & Hx & ->)%Hmin. destruct (announce_ok s x (Hro x Hx)) as (-> & _ & _).
        apply Hsentx in Hx as [_ ?]. lia.
      * intros f (x & Hx & ->)%Hmin. by destruct (announce_ok s x (Hro x Hx)) as (_ & -> & _).
      * rewrite Hmf, map_map. apply (NoDup_map_names s sent); [done| |].
        -- eapply NoDup_sorted, sorted_filter, Hxsort.
        -- intros x Hx. by apply Hsentx.
      * lia.
      * intros f (x & Hx & ->)%Hmin. right. exists x. split; [by apply Hsentx|].
        by destruct (announce_ok s x (Hro x Hx)) as (_ & _ & ->).
      * intros f y (x & Hx & ->)%Hmin Hy Hn. destruct (announce_ok s x (Hro x Hx)) as (-> & _ & E). rewrite E in Hn.
        rewrite (so_names _ Hs y x); [done|done|by apply Hsentx|done].
      * intros x Hx Hr. destruct (decide (rSequence (row x) <= lp)) as [Hl|Hl]; [left; apply Hskip; [done|lia]|].
        destruct (skip s x) eqn:Hsk; [by left|]. right. rewrite Hmf. apply list_elem_of_In, in_map, list_elem_of_In.
        apply in_filter. rewrite Hsk. split; [|done]. apply Hpre; [done|lia].
Qed.

(** ** The receiver *)

Abbreviation inserted' := (inserted NormalizedFilename sha256).
Definition reached (r : folderStore) : Z := seq_of rdev (indexids r).
Definition remote_row (r : folderStore) (y : filesRow) : Prop := y ∈ rows (fdb r) /\ DeviceIdx (row y) = rdev.
(** The receiver has the file, as a row under some number of its own. *)
Definition stored (r : folderStore) (a : FileInfo) : Prop := exists q, inserted' false rdev q a ∈ rows (fdb r).
(** The receiver knows the sender by the index ID it has now. *)
Definition matched (s r : folderStore) : Prop := exists i, id_of ldev (indexids s) = Some i /\ id_of rdev (indexids r) = Some i.

Record receiver_ok (r : folderStore) : Prop := {
  ro_rows : forall y, remote_row r y -> exists q, remote_sequence y = Some q /\ q <= reached r;
  ro_names : forall y z, remote_row r y -> remote_row r z -> rName (row y) = rName (row z) -> y = z;
  ro_reached : 0 <= reached r }.
(** What the receiver has of the sender, whose rows of the names [D] were
    dropped. *)
Record in_step (D : gset bytes) (s r : folderStore) : Prop := {
  is_bound : reached r <= last_local s;
  is_covered : forall x, local_row s x -> rSequence (row x) <= reached r -> skip s x = true \/ stored r (announce s x);
  is_real : forall y, remote_row r y -> rName (row y) ∈ D \/ exists x, local_row s x /\ rName (row x) = rName (row y);
  is_newest : forall y q x, remote_row r y -> remote_sequence y = Some q -> local_row s x -> rName (row x) = rName (row y) ->
    q <= rSequence (row x) }.

Abbreviation ins := (insertions SortFunc now NormalizedFilename sha256 false rdev).

(** The rows of the sender after a list of new files. *)
Lemma insertions_remote fs db :
  NoDup (map (fun f => NormalizedFilename (Name f)) fs) -> StronglySorted seq_lt fs ->
  (forall y, y ∈ rows db -> DeviceIdx (row y) = rdev ->
     exists q, remote_sequence y = Some q /\ forall f, f ∈ fs -> q < Sequence f) ->
  (forall y, y ∈ rows (ins fs db) -> DeviceIdx (row y) = rdev ->
     (y ∈ rows db /\ rName (row y) ∉ map (fun f => NormalizedFilename (Name f)) fs) \/
     exists f q, f ∈ fs /\ y = inserted' false rdev q f) /\
  (forall y, y ∈ rows db -> DeviceIdx (row y) = rdev -> rName (row y) ∉ map (fun f => NormalizedFilename (Name f)) fs ->
     y ∈ rows (ins fs db)) /\
  (forall f, f ∈ fs -> exists q, inserted' false rdev q f ∈ rows (ins fs db)).
Proof.
  revert db. induction fs as [|f fs IH]; intros db Hnd Hs Hq.
  { cbn. split; [|split]; [|done|].
    - intros y Hy _. left. split; [done|]. by apply not_elem_of_nil.
    - intros f Hf. by apply elem_of_nil in Hf. }
  cbn [map] in Hnd |- *. apply list.NoDup_cons in Hnd as [Hn Hnd]. apply StronglySorted_inv in Hs as [Hs Hall].
  rewrite Forall_forall in Hall. cbn [insertions]. set (nm := NormalizedFilename (Name f)) in *.
  destruct (Update_file_content SortFunc now NormalizedFilename sha256 false rdev f db) as (Hr & _).
  set (db1 := Update_file SortFunc now NormalizedFilename sha256 false rdev f db) in *.
  set (new := inserted' false rdev (next_sequence db) f) in *.
  assert (forall y, DeviceIdx (row y) = rdev -> (y ∈ rows db1 <-> (y ∈ rows db /\ rName (row y) <> nm) \/ y = new)) as Hin.
  { intros y Hd. rewrite Hr, elem_of_app, list_elem_of_singleton, in_filter. split.
    - intros [ [Hy Hc]|?]; [left|by right]. split; [done|]. intros E. unfold conflicts in Hc. rewrite Hd, Z.eqb_refl in Hc.
      rewrite bool_decide_true in Hc by done. done.
    - intros [ [Hy Hne]|?]; [left|by right]. split; [done|]. apply negb_true_iff. unfold conflicts.
      rewrite bool_decide_false by done. unfold rseq_of. destruct (Hq y Hy Hd) as (q & Hyq & Hlt). rewrite Hyq.
      specialize (Hlt f ltac:(constructor)). rewrite (proj2 (Z.eqb_neq (Sequence f) q)) by lia. by rewrite andb_false_r. }
  assert (DeviceIdx (row new) = rdev) as Hnew by done.
  destruct (IH db1 Hnd Hs) as (I1 & I2 & I3).
  { intros y Hy Hd. apply Hin in Hy as [ [Hy _]| ->]; [|exists (Sequence f); split; [done|]; exact Hall|done].
    destruct (Hq y Hy Hd) as (q & Hyq & Hlt). exists q. split; [done|]. intros g Hg. apply Hlt. by constructor. }
  split; [|split].
  - intros y Hy Hd. destruct (I1 y Hy Hd) as [ [Hy1 Hyn]|(g & q & Hg & ->)].
    + apply Hin in Hy1 as [ [Hy1 Hne]| ->]; [| |done].
      * left. split; [done|]. by apply not_elem_of_cons.
      * right. exists f, (next_sequence db). split; [constructor|done].
    + right. exists g, q. split; [by constructor|done].
  - intros y Hy Hd [Hne Hyn]%not_elem_of_cons. apply I2; [|done|done]. apply Hin; [done|]. by left.
  - intros g [->|Hg]%elem_of_cons; [|by apply I3]. exists (next_sequence db). apply I2; [|done|done].
    apply Hin; [done|]. by right.
Qed.

(** A name has one row per device. *)
Lemma insertions_names fs db :
  (forall y z, y ∈ rows db -> z ∈ rows db -> DeviceIdx (row y) = rdev -> DeviceIdx (row z) = rdev ->
     rName (row y) = rName (row z) -> y = z) ->
  forall y z, y ∈ rows (ins fs db) -> z ∈ rows (ins fs db) -> DeviceIdx (row y) = rdev -> DeviceIdx (row z) = rdev ->
     rName (row y) = rName (row z) -> y = z.
Proof.
  revert db. induction fs as [|f fs IH]; intros db H; [done|]. cbn [insertions]. apply IH.
  destruct (Update_file_content SortFunc now NormalizedFilename sha256 false rdev f db) as (-> & _).
  assert (forall y, y ∈ rows db -> DeviceIdx (row y) = rdev ->
            negb (conflicts rdev (rseq_of false f) (NormalizedFilename (Name f)) y) = true ->
            rName (row y) <> NormalizedFilename (Name f)) as Hc.
  { intros y _ Hd Hc E. unfold conflicts in Hc. by rewrite Hd, Z.eqb_refl, bool_decide_true in Hc. }
  intros y z [ [Hy Hyc]%in_filter|Hy%list_elem_of_singleton]%elem_of_app
    [ [Hz Hzc]%in_filter|Hz%list_elem_of_singleton]%elem_of_app Hyd Hzd HE.
  - by apply H.
  - exfalso. apply (Hc y Hy Hyd Hyc). by rewrite HE, Hz.
  - exfalso. apply (Hc z Hz Hzd Hzc). by rewrite <- HE, Hy.
  - congruence.
Qed.

(** No false alarm. *)
Lemma check_files_nothing prev last i before fs :
  (forall f, f ∈ fs -> prev <= Sequence f <= last) -> StronglySorted seq_lt fs ->
  (forall q f, before = Some q -> f ∈ fs -> q < Sequence f) -> check_files prev last i before fs = [].
Proof.
  revert i before. induction fs as [|f fs IH]; intros i before Hb Hs Hp; cbn; [done|].
  apply StronglySorted_inv in Hs as [Hs Hall]. rewrite Forall_forall in Hall.
  destruct (Hb f ltac:(constructor)) as [H1 H2].
  rewrite (proj2 (Z.ltb_ge (Sequence f) prev)) by lia. rewrite (proj2 (Z.ltb_ge last (Sequence f))) by lia.
  rewrite andb_false_r. cbn [app].
  rewrite IH; [| |done|].
  - rewrite app_nil_r. destruct before as [q|]; [|done]. specialize (Hp q f eq_refl ltac:(constructor)).
    by rewrite (proj2 (Z.leb_gt _ _)) by lia.
  - intros g Hg. apply Hb. by constructor.
  - intros q g [= <-] Hg. by apply Hall.
Qed.

(** The last file of a message has the highest number. *)
Lemma message_bound D s p m : message_ok D s p m -> forall f, f ∈ m_files m -> Sequence f <= im_last m.
Proof.
  intros [_ _ _ (fl & Hl & <-) Hs _ _ _ _ _ _ _]. revert fl Hl. induction Hs as [|x l Hs IH Hall]; intros fl Hl f Hf.
  { by apply elem_of_nil in Hf. }
  rewrite Forall_forall in Hall. rewrite last_cons in Hl. destruct (list.last l) as [g|] eqn:Hg.
  - injection Hl as ->. apply elem_of_cons in Hf as [->|Hf]; [|by apply (IH fl)].
    apply last_Some_elem_of in Hg. specialize (Hall fl Hg). unfold seq_lt in Hall. lia.
  - apply last_None in Hg as ->. injection Hl as ->. apply list_elem_of_singleton in Hf as ->. lia.
Qed.

(** A message is taken in without an error or an anomaly, and the receiver is
    as far as the message says. *)
Lemma receive_spec D s r d m h :
  sender_ok s -> receiver_ok r -> in_step D s r -> matched s r -> message_ok D s (reached r) m -> paused h = false ->
  exists d' r', receive_message SortFunc now NormalizedFilename sha256 rdev h m (d, r) = ((d', r'), ([], Ret tt)) /\
    receiver_ok r' /\ in_step D s r' /\ matched s r' /\ reached r' = im_last m.
Proof.
  intros Hs [R1 R2 R3] [I1 I2 I3 I4] (i & Hi1 & Hi2) Hmsg Hp.
  pose proof Hmsg as [M1 M2 M3 M4 M5 M6 M7 M8 M9 M10 M11 M12].
  unfold receive_message, receive. rewrite Hp. fold (m_files m). set (fs := m_files m) in *. cbn [snd].
  set (r0 := if negb (im_update m) then store_DropAllFiles SortFunc now rdev r else r).
  set (p := reached r) in *.
  assert (reached r0 = p /\ id_of rdev (indexids r0) = Some i) as [Hr0 Hi0].
  { unfold r0. destruct (im_update m); [done|]. cbn [negb]. specialize (M2 eq_refl). unfold p in *. rewrite M2.
    unfold reached, seq_of, id_of in *. cbn [indexids store_DropAllFiles]. rewrite lookup_alter_eq.
    destruct (indexids r !! rdev) as [ [oi q]|]; [|done]. cbn in *. done. }
  assert (forall y, y ∈ rows (fdb r0) -> DeviceIdx (row y) = rdev -> remote_row r y) as Hsub.
  { intros y Hy Hd. unfold r0 in Hy. destruct (im_update m); cbn [negb] in Hy; [done|]. cbn [fdb store_DropAllFiles] in Hy.
    destruct (DropAllFiles_content SortFunc now rdev (fdb r)) as (Hc & _). rewrite Hc in Hy. by apply in_filter in Hy as [Hy _]. }
  assert (forall x, local_row s x -> rSequence (row x) <= p -> skip s x = true \/ stored r0 (announce s x)) as Hcov.
  { intros x Hx Hle. unfold r0. destruct (im_update m); cbn [negb]; [by apply I2|]. specialize (M2 eq_refl).
    destruct Hx as [Hx _]. apply (so_seqs _ Hs) in Hx. lia. }
  assert (GetDeviceSequence rdev r0 = p) as -> by (rewrite <- Hr0; unfold GetDeviceSequence, reached, seq_of; done).
  assert ((0 <? im_prev m) && negb (im_prev m =? p) = false) as ->.
  { rewrite M1. destruct (im_update m); [by rewrite Z.eqb_refl, andb_false_r|done]. }
  assert (forall f, f ∈ fs -> Sequence f <= im_last m) as Hle by (by apply (message_bound D s p)).
  assert (check_files (im_prev m) (im_last m) 0 None fs = []) as ->.
  { apply check_files_nothing; [|done|done]. intros f Hf. specialize (M6 f Hf). split; [|by apply Hle].
    rewrite M1. destruct (im_update m); lia. }
  destruct M4 as (fl & Hl & Hls).
  assert (check_last (im_last m) fs = []) as ->.
  { unfold check_last. by rewrite Hl, Hls, Z.eqb_refl, andb_false_r. }
  unfold store_Update. rewrite (Update_succeeds SortFunc now NormalizedFilename sha256 rdev fs (fdb r0)).
  2: { rewrite Forall_forall. intros f Hf. rewrite ToWire_panic, (M7 f Hf). done. }
  2: { intros j f g Hf Hg HE. assert (seq_lt f g) as Hlt; [|unfold seq_lt in Hlt; lia].
       rewrite <- (take_drop (S j) fs) in M5. eapply (StronglySorted_app_1_elem_of _ (take (S j) fs) (drop (S j) fs)); [done| |].
       - apply list_elem_of_lookup. exists j. rewrite lookup_take_lt; [done|lia].
       - apply list_elem_of_lookup. exists O. by rewrite lookup_drop, Nat.add_0_r. }
  set (r' := {| fdb := ins fs (fdb r0); indexids := _ |}).
  assert (reached r' = im_last m) as Hreached.
  { unfold reached, r'. cbn [indexids]. rewrite triggers_seq, Hl. done. }
  assert (GetDeviceSequence rdev r' = im_last m) as -> by (rewrite <- Hreached; done).
  rewrite Z.eqb_refl, !andb_false_r. cbn [app].
  destruct (insertions_remote fs (fdb r0) M8 M5) as (J1 & J2 & J3).
  { intros y Hy Hd. destruct (R1 y (Hsub y Hy Hd)) as (q & Hyq & Hqp). exists q. split; [done|].
    intros f Hf. specialize (M6 f Hf). lia. }
  eexists _, r'. split; [reflexivity|]. split; [|split; [|split; [|done] ] ].
  - constructor.
    + intros y [Hy Hd]. destruct (J1 y Hy Hd) as [ [Hy0 _]|(f & q & Hf & ->)].
      * destruct (R1 y (Hsub y Hy0 Hd)) as (q & Hyq & Hqp). exists q. split; [done|]. lia.
      * exists (Sequence f). split; [done|]. rewrite Hreached. by apply Hle.
    + intros y z [Hy Hyd] [Hz Hzd] HE. apply (insertions_names fs (fdb r0)); try done.
      intros y' z' Hy' Hz' Hyd' Hzd'. apply R2; by apply Hsub.
    + lia.
  - constructor.
    + lia.
    + intros x Hx Hle'. rewrite Hreached in Hle'. destruct (decide (rSequence (row x) <= p)) as [Hlp|Hlp].
      * destruct (Hcov x Hx Hlp) as [?|[q Hq] ]; [by left|right]. exists q. apply J2; [done|done|].
        cbn. intros (f & Hfn & Hf)%list_elem_of_In%in_map_iff. apply list_elem_of_In in Hf.
        destruct (announce_ok s x (so_rows _ Hs x Hx)) as (_ & _ & Hname). rewrite Hname in Hfn.
        pose proof (M11 f x Hf Hx (eq_sym Hfn)). specialize (M6 f Hf). lia.
      * destruct (M12 x Hx ltac:(lia)) as [?|Hin]; [by left|right]. by apply J3.
    + intros y [Hy Hd]. destruct (J1 y Hy Hd) as [ [Hy0 _]|(f & q' & Hf & ->)].
      * apply (I3 y). by apply Hsub.
      * by apply M10.
    + intros y q x [Hy Hd] Hyq Hx Hn. destruct (J1 y Hy Hd) as [ [Hy0 _]|(f & q' & Hf & ->)].
      * apply (I4 y q x); [by apply Hsub|done..].
      * cbn in Hyq. injection Hyq as <-. by apply M11.
  - exists i. split; [done|]. unfold r'. cbn [indexids]. by rewrite triggers_id.
Qed.

(** ** Changes of the databases *)

(** A change of the sender's database: its rows up to the last number before
    are the same or gone, no name goes but those of [D], and its index ID stays. *)
Record sender_le (D : gset bytes) (s s' : folderStore) : Prop := {
  sl_last : last_local s <= last_local s';
  sl_old : forall x, local_row s' x -> rSequence (row x) <= last_local s -> local_row s x /\ read s' x = read s x;
  sl_names : forall x, local_row s x -> rName (row x) ∈ D \/ exists x', local_row s' x' /\ rName (row x') = rName (row x);
  sl_id : id_of ldev (indexids s') = id_of ldev (indexids s) }.
#[export] Instance sender_le_preorder D : PreOrder (sender_le D).
Proof.
  split.
  - intros s. constructor; try done. intros x Hx. right. by exists x.
  - intros s t u [A1 A2 A3 A4] [B1 B2 B3 B4]. constructor; [lia| | |congruence].
    + intros x Hx Hl. destruct (B2 x Hx ltac:(lia)) as [Hx' E]. destruct (A2 x Hx' Hl) as [? E']. split; [done|congruence].
    + intros x [?|(y & Hy & Hyn)]%A3; [by left|]. rewrite <- Hyn. by apply B3.
Qed.

Lemma skip_le s s' x : read s' x = read s x -> skip s' x = skip s x.
Proof. unfold skip. by intros ->. Qed.
Lemma announce_le s s' x : read s' x = read s x -> announce s' x = announce s x.
Proof. unfold announce. by intros ->. Qed.
(** A name that stays, or is dropped. *)
Lemma name_le D s s' n : sender_le D s s' ->
  (n ∈ D \/ exists x, local_row s x /\ rName (row x) = n) -> n ∈ D \/ exists x, local_row s' x /\ rName (row x) = n.
Proof. intros Hle [?|(x & Hx & <-)]; [by left|]. by apply (sl_names _ _ _ Hle). Qed.
(** The rows after a change are those before or have higher numbers. *)
Lemma newest_le D s s' q x (P : filesRow -> Prop) : sender_le D s s' -> q <= last_local s ->
  (forall x, local_row s x -> P x -> q <= rSequence (row x)) -> local_row s' x -> P x -> q <= rSequence (row x).
Proof.
  intros Hle Hq H Hx HP. destruct (decide (rSequence (row x) <= last_local s)) as [Hl|Hl]; [|lia].
  apply H; [|done]. by apply (sl_old _ _ _ Hle).
Qed.

Lemma handler_ok_le D s s' e h : sender_le D s s' -> handler_ok s e h -> handler_ok s' e h.
Proof.
  intros [A1 A2 _ _] [H1 H2 H3 H4]. constructor; [done|done|lia|]. intros x Hx Hr.
  destruct (A2 x Hx ltac:(lia)) as [Hx' E]. rewrite (skip_le _ _ _ E). by apply H4.
Qed.
Lemma message_ok_le D s s' p m : sender_le D s s' -> message_ok D s p m -> message_ok D s' p m.
Proof.
  intros Hle Hm. pose proof (message_bound _ _ _ _ Hm) as Hb. destruct Hm as [M1 M2 M3 M4 M5 M6 M7 M8 M9 M10 M11 M12].
  pose proof (sl_last _ _ _ Hle). constructor; try done.
  - lia.
  - intros f Hf. eapply name_le; [done|]. by apply M10.
  - intros f x Hf. apply (newest_le D s s' _ x (fun x => rName (row x) = NormalizedFilename (Name f))); [done| |].
    + specialize (Hb f Hf). lia.
    + intros y. by apply M11.
  - intros x Hx Hr. destruct (sl_old _ _ _ Hle x Hx ltac:(lia)) as [Hx' E]. rewrite (skip_le _ _ _ E), (announce_le _ _ _ E). by apply M12.
Qed.
Lemma in_step_le D s s' r : sender_le D s s' -> receiver_ok r -> in_step D s r -> in_step D s' r.
Proof.
  intros Hle Hr [I1 I2 I3 I4]. pose proof (sl_last _ _ _ Hle). constructor.
  - lia.
  - intros x Hx Hq. destruct (sl_old _ _ _ Hle x Hx ltac:(lia)) as [Hx' E]. rewrite (skip_le _ _ _ E), (announce_le _ _ _ E). by apply I2.
  - intros y Hy. eapply name_le; [done|]. by apply I3.
  - intros y q x Hy Hq. apply (newest_le D s s' _ x (fun x => rName (row x) = rName (row y))); [done| |].
    + destruct (ro_rows _ Hr y Hy) as (q' & Hq' & ?). rewrite Hq in Hq'. injection Hq' as ->. lia.
    + intros z. by apply I4.
Qed.
(** More names that were dropped. *)
Lemma message_ok_mono D D' s p m : D ⊆ D' -> message_ok D s p m -> message_ok D' s p m.
Proof. intros HD []. constructor; try done. intros f Hf. destruct (mo_real0 f Hf); [left; by apply HD|by right]. Qed.
Lemma in_step_mono D D' s r : D ⊆ D' -> in_step D s r -> in_step D' s r.
Proof. intros HD []. constructor; try done. intros y Hy. destruct (is_real0 y Hy); [left; by apply HD|by right]. Qed.

(** *** A local change *)

Definition insert_local (f : FileInfo) (s : folderStore) : folderStore :=
  {| fdb := Update_file SortFunc now NormalizedFilename sha256 true ldev f (fdb s);
     indexids := indexids_seq ldev (next_sequence (fdb s)) (indexids s) |}.

Lemma read_ext s s' x : row_ok s x ->
  (forall h bl, blocklists (fdb s) !! h = Some bl -> blocklists (fdb s') !! h = Some bl) -> read s' x = read s x.
Proof.
  intros Hx Hb. unfold indirectFI_FileInfo. cbv zeta. destruct (BlocklistHash (row x)) as [|c h] eqn:Hh; [done|].
  cbn [is_nil]. destruct (ro_blocks _ _ Hx) as [bl Hbl]; [by rewrite Hh|]. rewrite Hh in Hbl. by rewrite (Hb _ _ Hbl), Hbl.
Qed.
Lemma row_ok_ext s s' x : row_ok s x ->
  (forall h bl, blocklists (fdb s) !! h = Some bl -> blocklists (fdb s') !! h = Some bl) -> row_ok s' x.
Proof. intros [H1 H2 H3 H4 H5] Hb. constructor; try done. intros Hne. destruct (H5 Hne) as [bl Hbl]. eauto. Qed.

Lemma insert_local_ok D f s :
  sender_ok s -> ToWire true f <> Panic -> sender_ok (insert_local f s) /\ sender_le D s (insert_local f s).
Proof.
  intros Hs Hf. destruct (Update_file_content SortFunc now NormalizedFilename sha256 true ldev f (fdb s)) as (Hr & Hn & Hb & Hd).
  set (s' := insert_local f s). set (nm := NormalizedFilename (Name f)) in *. set (n := next_sequence (fdb s)) in *.
  set (new := inserted' true ldev n f) in *.
  assert (last_local s' = n) as Hl.
  { unfold last_local, seq_of, s', insert_local, indexids_seq. cbn [indexids]. by rewrite lookup_insert_eq. }
  pose proof (so_last _ Hs) as Hlast. pose proof (so_next _ Hs) as Hnext. fold n in Hlast, Hnext.
  assert (forall h bl, blocklists (fdb s) !! h = Some bl -> blocklists (fdb s') !! h = Some bl) as Hext.
  { apply (insertions_next SortFunc now NormalizedFilename sha256 true ldev [f] (fdb s)). }
  assert (forall x, x ∈ rows (fdb s') -> x ∈ rows (fdb s) \/ x = new) as Hin.
  { intros x. unfold s', insert_local. cbn [fdb]. rewrite Hr, elem_of_app, list_elem_of_singleton, in_filter. tauto. }
  assert (forall x, local_row s' x -> (local_row s x /\ rName (row x) <> nm) \/ x = new) as Hloc.
  { intros x [Hx Hxd]. revert Hx. unfold s', insert_local. cbn [fdb].
    rewrite Hr, elem_of_app, list_elem_of_singleton, in_filter. intros [ [Hx Hc]|?]; [left|by right].
    split; [done|]. intros E. unfold conflicts in Hc. by rewrite Hxd, Z.eqb_refl, bool_decide_true in Hc. }
  assert (local_row s' new) as Hnew.
  { split; [|done]. unfold s', insert_local. cbn [fdb]. rewrite Hr. apply elem_of_app. right. constructor. }
  assert (rSequence (row new) = n) as Hns by done.
  split; constructor.
  - unfold s', insert_local. cbn [fdb]. by rewrite Hd, (so_dev _ Hs).
  - intros x Hx. unfold s', insert_local in *. cbn [fdb] in *. rewrite Hn. fold n.
    apply Hin in Hx as [Hx| ->]; [|rewrite Hns; lia]. pose proof (so_seqs _ Hs x Hx). fold n in H. lia.
  - unfold s', insert_local. cbn [fdb]. rewrite Hr, map_app. apply list.NoDup_app. split; [|split].
    + pose proof (so_nodup _ Hs) as H. eapply sublist_NoDup; [exact H|].
      clear. induction (rows (fdb s)) as [|x l IH]; cbn; [constructor|]. destruct (negb _); cbn; by constructor.
    + intros z (x & <- & [Hx _]%filter_In)%list_elem_of_In%in_map_iff Hz%list_elem_of_singleton.
      apply list_elem_of_In, (so_seqs _ Hs) in Hx. fold n in Hx. cbn in Hz. lia.
    + apply NoDup_singleton.
  - intros x y Hx Hy HE. apply Hloc in Hx as [ [Hx Hxn]| ->], Hy as [ [Hy Hyn]| ->]; [by apply (so_names _ Hs)| | |done].
    + by destruct Hxn.
    + by destruct Hyn.
  - intros x Hx. apply Hloc in Hx as [ [Hx _]| ->]; [eapply row_ok_ext; [by apply (so_rows _ Hs)|done]|].
    constructor; [done|done|by exists (Name f)| |].
    + intros HP%ToWire_panic. by apply Hf, ToWire_panic.
    + cbn. unfold s', insert_local. cbn [fdb]. rewrite Hb. unfold blocklists_after, blocks_hash.
      destruct (Blocks f) as [|b bs]; [done|]. cbn [is_nil]. intros _.
      destruct (blocklists (fdb s) !! _) eqn:HE; [by rewrite HE|]. by rewrite lookup_insert_eq.
  - unfold s', insert_local. cbn [fdb]. rewrite Hn. fold n. lia.
  - rewrite Hl. unfold s', insert_local. cbn [fdb]. rewrite Hn. fold n. lia.
  - intros x Hx. rewrite Hl. apply Hloc in Hx as [ [Hx _]| ->]; [|rewrite Hns; lia].
    pose proof (so_bound _ Hs x Hx). lia.
  - lia.
  - intros x Hx Hle. apply Hloc in Hx as [ [Hx _]| ->]; [|rewrite Hns in Hle; lia].
    split; [done|]. apply read_ext; [by apply (so_rows _ Hs)|done].
  - intros x Hx. destruct (decide (rName (row x) = nm)) as [E|Hne].
    + right. exists new. split; [done|]. by rewrite E.
    + right. exists x. split; [|done]. destruct Hx as [Hx Hxd]. split; [|done]. unfold s', insert_local. cbn [fdb].
      rewrite Hr. apply elem_of_app. left. apply in_filter. split; [done|]. apply negb_true_iff. unfold conflicts.
      rewrite bool_decide_false by done. cbn. by rewrite andb_false_r.
  - unfold s', insert_local, id_of, indexids_seq. cbn [indexids]. by rewrite lookup_insert_eq.
Qed.

Lemma Update_local_ok D fs s s' :
  store_Update SortFunc now NormalizedFilename sha256 true ldev fs s = (s', Ret tt) ->
  sender_ok s -> sender_ok s' /\ sender_le D s s'.
Proof.
  unfold store_Update. destruct (folderDB_Update _ _ _ _ _ _ _ _) as [db [ [] | | | ] ] eqn:HU; try done.
  apply Update_insertions in HU as [-> HF]. intros [= <-].
  revert s. induction HF as [|f fs Hf HF IH]; intros s Hs.
  { cbn. destruct s. by split. }
  destruct (insert_local_ok D f s Hs Hf) as [Hs1 Hle1]. cbn [insertions triggers].
  destruct (IH (insert_local f s) Hs1) as [Hs2 Hle2]. cbn [fdb indexids insert_local] in Hs2, Hle2.
  destruct (Update_file_content SortFunc now NormalizedFilename sha256 true ldev f (fdb s)) as (_ & Hn & _).
  rewrite Hn in Hs2, Hle2. split; [done|]. by etrans.
Qed.

(** *** A change for another device *)

Record other_change (d : Z) (s s' : folderStore) : Prop := {
  oc_rows : forall x, DeviceIdx (row x) <> d -> (x ∈ rows (fdb s') <-> x ∈ rows (fdb s));
  oc_seqs : (forall x, x ∈ rows (fdb s) -> 1 <= rSequence (row x) < next_sequence (fdb s)) -> 1 <= next_sequence (fdb s) ->
    forall x, x ∈ rows (fdb s') -> 1 <= rSequence (row x) < next_sequence (fdb s');
  oc_nodup : (forall x, x ∈ rows (fdb s) -> rSequence (row x) < next_sequence (fdb s)) ->
    NoDup (map (fun x => rSequence (row x)) (rows (fdb s))) -> NoDup (map (fun x => rSequence (row x)) (rows (fdb s')));
  oc_next : next_sequence (fdb s) <= next_sequence (fdb s');
  oc_blocks : forall h bl, blocklists (fdb s) !! h = Some bl -> blocklists (fdb s') !! h = Some bl;
  oc_dev : localDeviceIdx (fdb s') = localDeviceIdx (fdb s);
  oc_ids : forall e, e <> d -> indexids s' !! e = indexids s !! e }.

Lemma sender_other D d s s' : d <> ldev -> other_change d s s' -> sender_ok s -> sender_ok s' /\ sender_le D s s'.
Proof.
  intros Hd [O1 O2 O3 O4 O5 O6 O7] Hs.
  assert (forall x, local_row s' x <-> local_row s x) as Hloc.
  { intros x. unfold local_row. split; intros [Hx Hxd]; (split; [|done]); apply O1 in Hx; auto; congruence. }
  assert (last_local s' = last_local s) as Hl by (unfold last_local, seq_of; by rewrite O7 by done).
  assert (sender_ok s') as Hs'.
  { constructor.
    - by rewrite O6, (so_dev _ Hs).
    - apply O2; apply Hs.
    - apply O3; [intros x Hx; by apply (so_seqs _ Hs)|apply Hs].
    - intros x y. rewrite !Hloc. apply Hs.
    - intros x. rewrite Hloc. intros Hx. eapply row_ok_ext; [by apply (so_rows _ Hs)|done].
    - pose proof (so_next _ Hs). lia.
    - rewrite Hl. pose proof (so_last _ Hs). lia.
    - intros x. rewrite Hloc, Hl. apply Hs. }
  split; [done|]. constructor.
  - lia.
  - intros x Hx%Hloc _. split; [done|]. apply read_ext; [by apply (so_rows _ Hs)|done].
  - intros x Hx. right. exists x. by rewrite Hloc.
  - unfold id_of. by rewrite O7 by done.
Qed.
Lemma receiver_other D d s r r' : d <> rdev -> other_change d r r' ->
  reached r' = reached r /\ (receiver_ok r -> receiver_ok r') /\ (in_step D s r -> in_step D s r') /\
  id_of rdev (indexids r') = id_of rdev (indexids r).
Proof.
  intros Hd [O1 _ _ _ _ _ O7].
  assert (forall y, remote_row r' y <-> remote_row r y) as Hrow.
  { intros y. unfold remote_row. split; intros [Hy Hyd]; (split; [|done]); apply O1 in Hy; auto; congruence. }
  assert (reached r' = reached r) as Hreached by (unfold reached, seq_of; by rewrite O7 by done).
  split; [done|]. split; [|split].
  - intros [R1 R2 R3]. constructor.
    + intros y. rewrite Hrow, Hreached. apply R1.
    + intros y z. rewrite !Hrow. apply R2.
    + lia.
  - intros [I1 I2 I3 I4]. constructor.
    + lia.
    + rewrite Hreached. intros x Hx Hle. destruct (I2 x Hx Hle) as [?|[q Hq] ]; [by left|right]. exists q. apply O1; [|done].
      cbn. congruence.
    + intros y. rewrite Hrow. apply I3.
    + intros y q x. rewrite Hrow. apply I4.
  - unfold id_of. by rewrite O7 by done.
Qed.

(** The operations of the database are such changes. *)
Lemma insertions_change il d fs db ids ids' :
  (forall e, e <> d -> ids' !! e = ids !! e) ->
  other_change d {| fdb := db; indexids := ids |}
    {| fdb := insertions SortFunc now NormalizedFilename sha256 il d fs db; indexids := ids' |}.
Proof.
  intros Hids. destruct (insertions_next SortFunc now NormalizedFilename sha256 il d fs db) as (N1 & N2 & N3).
  constructor; cbn [fdb indexids]; try done.
  - intros x Hx. by apply insertions_others.
  - rewrite N1. clear. revert db. induction fs as [|f fs IH]; intros db H Hn x Hx; cbn [insertions] in Hx.
    { apply H in Hx. cbn [length]. lia. }
    destruct (Update_file_content SortFunc now NormalizedFilename sha256 il d f db) as (Hr & Hn' & _).
    cbn [length]. set (db1 := Update_file SortFunc now NormalizedFilename sha256 il d f db) in *.
    assert (1 <= rSequence (row x) < next_sequence db1 + zlen fs); [|lia]. apply IH; [|lia|done].
    intros y. rewrite Hr, Hn', elem_of_app, list_elem_of_singleton, in_filter.
    intros [ [Hy _]| ->]; [apply H in Hy; lia|cbn; lia].
  - clear. revert db. induction fs as [|f fs IH]; intros db H Hnd; [done|]. cbn [insertions].
    destruct (Update_file_content SortFunc now NormalizedFilename sha256 il d f db) as (Hr & Hn' & _). apply IH.
    + intros y. rewrite Hr, Hn', elem_of_app, list_elem_of_singleton, in_filter.
      intros [ [Hy _]| ->]; [apply H in Hy; lia|cbn; lia].
    + rewrite Hr, map_app. apply list.NoDup_app. split; [|split].
      * eapply sublist_NoDup; [exact Hnd|]. apply sublist_map_filter.
      * intros z (x & <- & [Hx _]%filter_In)%list_elem_of_In%in_map_iff Hz%list_elem_of_singleton.
        apply list_elem_of_In, H in Hx. cbn in Hz. lia.
      * apply NoDup_singleton.
  - lia.
Qed.
Lemma Update_other il d fs s s' r :
  store_Update SortFunc now NormalizedFilename sha256 il d fs s = (s', r) -> other_change d s s'.
Proof.
  unfold store_Update. destruct (folderDB_Update _ _ _ _ _ _ _ _) as [db o] eqn:HU. destruct o as [ [] | | | ].
  - apply Update_insertions in HU as [-> _]. intros [= <- <-]. destruct s as [db ids]. cbn [fdb indexids].
    apply insertions_change. intros e He. by apply triggers_other.
  - intros [= <- <-]. assert (db = fdb s) as ->; [|destruct s; by constructor].
    unfold folderDB_Update in HU. by destruct (Update_loop _ _ _ _ _ _ _ _ _) as [t [] ]; simplify_eq.
  - intros [= <- <-]. assert (db = fdb s) as ->; [|destruct s; by constructor].
    unfold folderDB_Update in HU. by destruct (Update_loop _ _ _ _ _ _ _ _ _) as [t [] ]; simplify_eq.
  - intros [= <- <-]. assert (db = fdb s) as ->; [|destruct s; by constructor].
    unfold folderDB_Update in HU. by destruct (Update_loop _ _ _ _ _ _ _ _ _) as [t [] ]; simplify_eq.
Qed.
Lemma DropAllFiles_other d s : other_change d s (store_DropAllFiles SortFunc now d s).
Proof.
  destruct (DropAllFiles_content SortFunc now d (fdb s)) as (D1 & D2 & D3 & D4).
  constructor; cbn [fdb indexids store_DropAllFiles]; rewrite ?D1, ?D2, ?D3, ?D4; try done.
  - intros x Hx. rewrite in_filter. rewrite (proj2 (Z.eqb_neq _ _) Hx). tauto.
  - intros H _ x [Hx _]%in_filter. by apply H.
  - intros _ Hnd. eapply sublist_NoDup; [exact Hnd|]. apply sublist_map_filter.
  - intros e He. by rewrite lookup_alter_ne.
Qed.
Lemma DropFilesNamed_other d ns s : other_change d s (store_DropFilesNamed SortFunc now NormalizedFilename d ns s).
Proof.
  destruct (DropFilesNamed_content SortFunc now NormalizedFilename d ns (fdb s)) as (D1 & D2 & D3 & D4).
  constructor; cbn [fdb indexids store_DropFilesNamed set_fdb]; rewrite ?D1, ?D2, ?D3, ?D4; try done.
  - intros x Hx. rewrite in_filter. rewrite (proj2 (Z.eqb_neq _ _) Hx). tauto.
  - intros H _ x [Hx _]%in_filter. by apply H.
  - intros _ Hnd. eapply sublist_NoDup; [exact Hnd|]. apply sublist_map_filter.
Qed.
Lemma DropDevice_other d s : other_change d s (store_DropDevice SortFunc now false d s).1.
Proof.
  destruct (DropDevice_content SortFunc now d s) as (D1 & D2 & D3 & D4).
  constructor; rewrite ?D1, ?D2, ?D3, ?D4; try done.
  - intros x Hx. rewrite in_filter. rewrite (proj2 (Z.eqb_neq _ _) Hx). tauto.
  - intros H _ x [Hx _]%in_filter. by apply H.
  - intros _ Hnd. eapply sublist_NoDup; [exact Hnd|]. apply sublist_map_filter.
  - intros e He. cbn. by rewrite lookup_delete_ne.
Qed.
(** The sender drops names of its own. *)
Lemma DropFilesNamed_local_ok D ns s :
  sender_ok s ->
  let s' := store_DropFilesNamed SortFunc now NormalizedFilename ldev ns s in
  sender_ok s' /\ sender_le (D ∪ list_to_set (map NormalizedFilename ns)) s s'.
Proof.
  intros Hs s'. destruct (DropFilesNamed_content SortFunc now NormalizedFilename ldev ns (fdb s)) as (D1 & D2 & D3 & D4).
  change (DropFilesNamed SortFunc now NormalizedFilename ldev ns (fdb s)) with (fdb s') in *.
  assert (forall x, x ∈ rows (fdb s') -> x ∈ rows (fdb s)) as Hsub by (rewrite D1; by intros x [? _]%in_filter).
  assert (forall x, local_row s' x -> local_row s x) as Hloc by (intros x [Hx ?]; split; [by apply Hsub|done]).
  assert (forall h bl, blocklists (fdb s) !! h = Some bl -> blocklists (fdb s') !! h = Some bl) as Hext by (by rewrite D3).
  split; constructor; rewrite ?D2, ?D4; try apply Hs.
  - intros x Hx. apply Hs. by apply Hsub.
  - rewrite D1. eapply sublist_NoDup; [exact (so_nodup _ Hs)|]. apply sublist_map_filter.
  - intros x y Hx Hy. apply (so_names _ Hs); by apply Hloc.
  - intros x Hx. eapply row_ok_ext; [by apply (so_rows _ Hs), Hloc|done].
  - intros x Hx. by apply (so_bound _ Hs), Hloc.
  - done.
  - intros x Hx _. split; [by apply Hloc|]. apply read_ext; [by apply (so_rows _ Hs), Hloc|done].
  - intros x [Hx Hd]. destruct (decide (rName (row x) ∈ map NormalizedFilename ns)) as [Hn|Hn]; [left; by apply elem_of_union_r, elem_of_list_to_set|right].
    exists x. split; [|done]. split; [|done]. rewrite D1. apply in_filter. split; [done|].
    by rewrite bool_decide_false, andb_false_r.
  - done.
Qed.
Lemma SetIndexID_other d i s : other_change d s (SetIndexID d i s).
Proof.
  constructor; cbn [fdb indexids SetIndexID set_ids]; try done. intros e He. by rewrite lookup_insert_ne.
Qed.
Lemma other_change_trans d s t u : other_change d s t -> other_change d t u ->
  1 <= next_sequence (fdb s) -> (forall x, x ∈ rows (fdb s) -> 1 <= rSequence (row x) < next_sequence (fdb s)) -> other_change d s u.
Proof.
  intros [A1 A2 A3 A4 A5 A6 A7] [B1 B2 B3 B4 B5 B6 B7] Hn Hs. constructor.
  - intros x Hx. by rewrite B1, A1.
  - intros _ _. apply B2; [by apply A2|lia].
  - intros H Hnd. apply B3; [|by apply A3]. intros x Hx. by destruct (A2 Hs Hn x Hx).
  - lia.
  - eauto.
  - congruence.
  - intros e He. by rewrite B7, A7.
Qed.
End Exchange.
