(* ===== verification/IndexExchange.v ===== *)
(** * The exchange of indexes: two devices and the connection between them

    A sender with its handler, the messages under way, and a receiver; both
    databases change meanwhile, and connections come and go. *)
From Stdlib Require Import ZArith List Lia.
From Stdlib Require Import Strings.Byte.
From stdpp Require Import base list option gmap numbers tactics sorting.
From S2P Require Import Prelude GoLib Vector FileInfo FileInfoWire PullQueue PullState GlobalState FolderStore.
From S2P Require Import FolderStoreProps Downloads IndexHandler IndexHandlerProps.

#[local] Open Scope Z_scope.

(** The names that the sender dropped from its database, in normal form, are
    kept beside the state for the statements. *)
Record exchange :=
  { x_sender : folderStore; x_handler : option indexHandler; x_chan : list indexMessage;
    x_downloads : option deviceDownloadState; x_receiver : folderStore; x_log : list anomaly; x_dropped : gset bytes }.
Definition with_sender (s : folderStore) (X : exchange) : exchange :=
  {| x_sender := s; x_handler := x_handler X; x_chan := x_chan X; x_downloads := x_downloads X;
     x_receiver := x_receiver X; x_log := x_log X; x_dropped := x_dropped X |}.
Definition with_receiver (r : folderStore) (X : exchange) : exchange :=
  {| x_sender := x_sender X; x_handler := x_handler X; x_chan := x_chan X; x_downloads := x_downloads X;
     x_receiver := r; x_log := x_log X; x_dropped := x_dropped X |}.
Definition with_conn (h : option indexHandler) (c : list indexMessage) (X : exchange) : exchange :=
  {| x_sender := x_sender X; x_handler := h; x_chan := c; x_downloads := x_downloads X;
     x_receiver := x_receiver X; x_log := x_log X; x_dropped := x_dropped X |}.

Definition with_dropped (D : gset bytes) (X : exchange) : exchange :=
  {| x_sender := x_sender X; x_handler := x_handler X; x_chan := x_chan X; x_downloads := x_downloads X;
     x_receiver := x_receiver X; x_log := x_log X; x_dropped := D |}.

(** A database without a file. *)
Definition new_store (lww : bool) (dev : Z) : folderStore :=
  {| fdb := {| files := []; next_sequence := 1; blocklists := ∅; ancestor_entries := ∅; useLWWReconciler := lww;
               localDeviceIdx := dev |}; indexids := ∅ |}.

Section Steps.
Context (SortFunc : (fileRow -> fileRow -> Z) -> list fileRow -> list fileRow).
Context (NormalizedFilename NativeFilename : bytes -> bytes) (sha256 : bytes -> bytes) (protoSize : bep_FileInfo -> Z).
(** The sender in its own database, at the receiver, and the receiver at the
    sender; whether the sender's folder is receive-encrypted; the folder. *)
Context (ldev rdev pdev : Z) (enc : bool) (folder : bytes).

(** The handler of the receiver, which is not paused. *)
Definition receiving : indexHandler :=
  {| ih_folder := folder; folderIsReceiveEncrypted := false; localPrevSequence := 0; sentPrevSequence := 0; paused := false |}.
Definition is_ok {A} (r : outcome index_err A) : bool := match r with Ret _ => true | _ => false end.

Inductive x_step (X : exchange) : exchange -> Prop :=
(* files of the sender change or are dropped; other devices' files change, there and here *)
| X_local now fs s :
    store_Update SortFunc now NormalizedFilename sha256 true ldev fs (x_sender X) = (s, Ret tt) ->
    x_step X (with_sender s X)
| X_local_drop now names :
    x_step X (with_dropped (x_dropped X ∪ list_to_set (map NormalizedFilename names))
                (with_sender (store_DropFilesNamed SortFunc now NormalizedFilename ldev names (x_sender X)) X))
| X_sender_update now il d fs s r :
    d <> ldev -> store_Update SortFunc now NormalizedFilename sha256 il d fs (x_sender X) = (s, r) ->
    x_step X (with_sender s X)
| X_sender_drop now d : d <> ldev -> x_step X (with_sender (store_DropAllFiles SortFunc now d (x_sender X)) X)
| X_sender_forget now d : d <> ldev -> x_step X (with_sender (store_DropDevice SortFunc now false d (x_sender X)).1 X)
| X_receiver_update now il d fs s r :
    d <> rdev -> store_Update SortFunc now NormalizedFilename sha256 il d fs (x_receiver X) = (s, r) ->
    x_step X (with_receiver s X)
| X_receiver_drop now d : d <> rdev -> x_step X (with_receiver (store_DropAllFiles SortFunc now d (x_receiver X)) X)
| X_receiver_drop_named now d names :
    d <> rdev -> x_step X (with_receiver (store_DropFilesNamed SortFunc now NormalizedFilename d names (x_receiver X)) X)
| X_receiver_forget now d :
    (d = rdev -> x_handler X = None /\ x_chan X = []) ->
    x_step X (with_receiver (store_DropDevice SortFunc now false d (x_receiver X)).1 X)
(* the handler sends, with whatever success; it ends with an error *)
| X_send res h h' out r :
    x_handler X = Some h -> sendIndexTo NativeFilename protoSize res (x_sender X) h = ((h', out), r) ->
    x_step X (with_conn (if is_ok r then Some h' else None) (x_chan X ++ out) X)
(* the receiver takes in the first message; an error closes the connection *)
| X_receive now m c d s log r :
    x_chan X = m :: c ->
    receive_message SortFunc now NormalizedFilename sha256 rdev receiving m (x_downloads X, x_receiver X)
      = ((d, s), (log, r)) ->
    x_step X {| x_sender := x_sender X; x_handler := if is_ok r then x_handler X else None;
                x_chan := if is_ok r then c else []; x_downloads := d; x_receiver := s; x_log := x_log X ++ log; x_dropped := x_dropped X |}
(* the connection is lost; a new one starts with the cluster configurations *)
| X_cut : x_step X (with_conn None [] X)
| X_connect now newID rinfo s1 myID s h :
    x_handler X = None -> x_chan X = [] -> newID <> 0 -> id_of rdev (indexids (x_receiver X)) <> Some newID ->
    GetIndexID true newID ldev (x_sender X) = (s1, myID) ->
    newIndexHandler SortFunc now newID pdev folder enc
      {| local := {| IndexID := (GetIndexID false 0 rdev (x_receiver X)).2;
                     MaxSequence := GetDeviceSequence rdev (x_receiver X) |}; remote := rinfo |} s1 = (s, h) ->
    x_step X
      {| x_sender := s; x_handler := Some h; x_chan := []; x_downloads := Some newDeviceDownloadState;
         x_receiver := check_remote SortFunc now rdev {| IndexID := myID; MaxSequence := GetDeviceSequence ldev s1 |} (x_receiver X);
         x_log := x_log X; x_dropped := x_dropped X |}
(* either side starts over with a new database *)
| X_reset lww : x_handler X = None -> x_chan X = [] -> x_step X (with_dropped ∅ (with_sender (new_store lww ldev) X))
| X_receiver_reset lww rloc : x_handler X = None -> x_chan X = [] -> x_step X (with_receiver (new_store lww rloc) X).

Inductive reachable (X0 : exchange) : exchange -> Prop :=
| reach_refl : reachable X0 X0
| reach_step X X' : reachable X0 X -> x_step X X' -> reachable X0 X'.

(** Both devices start with empty databases. *)
Definition x_start (lww lww' : bool) (rloc : Z) : exchange :=
  {| x_sender := new_store lww ldev; x_handler := None; x_chan := []; x_downloads := None;
     x_receiver := new_store lww' rloc; x_log := []; x_dropped := ∅ |}.

(** ** The invariant *)

Hypothesis normalized_native : forall n,
  NormalizedFilename (NativeFilename (NormalizedFilename n)) = NormalizedFilename n.
Hypothesis other_devices : pdev <> ldev.

Abbreviation sender_ok' := (sender_ok NormalizedFilename ldev).
Abbreviation sender_le' := (sender_le NativeFilename ldev).
Abbreviation handler_ok' := (handler_ok NativeFilename enc ldev).
Abbreviation message_ok' := (message_ok NormalizedFilename NativeFilename enc ldev).
Abbreviation receiver_ok' := (receiver_ok rdev).
Abbreviation in_step' := (in_step NormalizedFilename NativeFilename sha256 enc ldev rdev).
Abbreviation matched' := (matched ldev rdev).
Abbreviation reached' := (reached rdev).
Abbreviation last_local' := (last_local ldev).

(** The messages under way take the receiver from [p] to [e]. *)
Fixpoint chan_ok (D : gset bytes) (s : folderStore) (p : Z) (c : list indexMessage) (e : Z) : Prop :=
  match c with
  | [] => e = p
  | m :: c => message_ok' D s p m /\ chan_ok D s (im_last m) c e
  end.
Record Inv (X : exchange) : Prop := {
  inv_sender : sender_ok' (x_sender X);
  inv_id : id_of ldev (indexids (x_sender X)) <> Some 0;
  inv_receiver : receiver_ok' (x_receiver X);
  inv_in_step : matched' (x_sender X) (x_receiver X) -> in_step' (x_dropped X) (x_sender X) (x_receiver X);
  inv_matched : x_handler X <> None \/ x_chan X <> [] -> matched' (x_sender X) (x_receiver X);
  inv_log : x_log X = [];
  inv_conn : exists e, chan_ok (x_dropped X) (x_sender X) (reached' (x_receiver X)) (x_chan X) e /\
    forall h, x_handler X = Some h -> handler_ok' (x_sender X) e h }.

Lemma chan_ok_le D s s' p c e : sender_le' D s s' -> chan_ok D s p c e -> chan_ok D s' p c e.
Proof.
  intros Hle. revert p. induction c as [|m c IH]; intros p; [done|]. cbn. intros [Hm Hc]. split; [|by apply IH].
  by eapply message_ok_le.
Qed.
Lemma chan_ok_mono D D' s p c e : D ⊆ D' -> chan_ok D s p c e -> chan_ok D' s p c e.
Proof.
  intros HD. revert p. induction c as [|m c IH]; intros p; [done|]. cbn. intros [Hm Hc]. split; [|by apply IH].
  by eapply message_ok_mono.
Qed.
Lemma chan_ok_app D s p c e m : chan_ok D s p c e -> message_ok' D s e m -> chan_ok D s p (c ++ [m]) (im_last m).
Proof.
  revert p. induction c as [|m' c IH]; intros p; cbn; [by intros -> Hm|]. intros [Hm Hc] Hm'. split; [done|]. by apply IH.
Qed.

(** The sender's database changes, and names of [D] may go. *)
Lemma Inv_sender D s X : x_dropped X ⊆ D -> sender_ok' s -> sender_le' D (x_sender X) s -> Inv X ->
  Inv (with_dropped D (with_sender s X)).
Proof.
  intros HD Hs Hle [I1 I2 I3 I4 I5 I6 (e & I7 & I8)].
  assert (matched' s (x_receiver X) <-> matched' (x_sender X) (x_receiver X)) as Hm.
  { unfold matched. by rewrite (sl_id _ _ _ _ _ Hle). }
  constructor; cbn [x_sender x_handler x_chan x_downloads x_receiver x_log x_dropped with_sender with_dropped]; try done.
  - by rewrite (sl_id _ _ _ _ _ Hle).
  - rewrite Hm. intros H. eapply in_step_le; [exact Hle|exact I3|]. eapply in_step_mono; [exact HD|]. by apply I4.
  - by rewrite Hm.
  - exists e. split; [eapply chan_ok_le; [exact Hle|]; by eapply chan_ok_mono|]. intros h Hh. eapply handler_ok_le; [exact Hle|]. by apply I8.
Qed.
Lemma Inv_sender_same s X : sender_ok' s -> sender_le' (x_dropped X) (x_sender X) s -> Inv X -> Inv (with_sender s X).
Proof. intros Hs Hle HI. by apply (Inv_sender (x_dropped X) s X). Qed.
(** The receiver's does, for other devices. *)
Lemma Inv_receiver d r X : d <> rdev -> other_change d (x_receiver X) r -> Inv X -> Inv (with_receiver r X).
Proof.
  intros Hd Hc [I1 I2 I3 I4 I5 I6 (e & I7 & I8)].
  destruct (receiver_other NormalizedFilename NativeFilename sha256 enc ldev rdev (x_dropped X) d (x_sender X) _ _ Hd Hc) as (H1 & H2 & H3 & H4).
  assert (matched' (x_sender X) r <-> matched' (x_sender X) (x_receiver X)) as Hm by (unfold matched; by rewrite H4).
  constructor; cbn [x_sender x_handler x_chan x_downloads x_receiver x_log x_dropped with_receiver]; try done.
  - by apply H2.
  - rewrite Hm. intros H. by apply H3, I4.
  - by rewrite Hm.
  - exists e. by rewrite H1.
Qed.
(** It forgets all of the sender, while there is no connection. *)
Lemma Inv_forget r X :
  x_handler X = None -> x_chan X = [] -> (forall y, ~ remote_row rdev r y) -> indexids r !! rdev = None ->
  Inv X -> Inv (with_receiver r X).
Proof.
  intros Hh Hc Hrows Hid [I1 I2 I3 I4 I5 I6 _]. assert (reached' r = 0) as Hr by (unfold reached, seq_of; by rewrite Hid).
  constructor; cbn [x_sender x_handler x_chan x_downloads x_receiver x_log x_dropped with_receiver]; try done.
  - constructor; [intros y Hy|intros y z Hy|lia]; by apply Hrows in Hy.
  - intros (i & _ & Hi). unfold id_of in Hi. by rewrite Hid in Hi.
  - rewrite Hh, Hc. by intros [?|?].
  - exists 0. rewrite Hh, Hc, Hr. by split.
Qed.
Lemma Inv_cut X : Inv X -> Inv (with_conn None [] X).
Proof.
  intros [I1 I2 I3 I4 I5 I6 _]. constructor; cbn [x_sender x_handler x_chan x_downloads x_receiver x_log x_dropped with_conn]; try done.
  - by intros [?|?].
  - eexists. split; [done|]. done.
Qed.

(** *** Connecting *)

Lemma new_store_ok lww : sender_ok' (new_store lww ldev).
Proof.
  constructor; cbn; try done.
  - intros x Hx. by apply elem_of_nil in Hx.
  - by apply list.NoDup_nil.
  - intros x y [Hx _]. by apply elem_of_nil in Hx.
  - intros x [Hx _]. by apply elem_of_nil in Hx.
  - intros x [Hx _]. by apply elem_of_nil in Hx.
Qed.

Lemma max_sequence_none d db :
  (forall x, x ∈ rows db -> DeviceIdx (row x) <> d) -> max_sequence d db = 0.
Proof.
  unfold max_sequence, rows. intros H. induction (files db) as [|x l IH]; [done|]. cbn.
  rewrite (proj2 (Z.eqb_neq _ _)) by (apply (H (strip x)); constructor). apply IH. intros y Hy. apply H. by constructor.
Qed.

(** The same files and sequence numbers under an index ID. *)
Lemma sender_ok_ids s ids :
  seq_of ldev ids = last_local' s -> sender_ok' s -> sender_ok' (set_ids ids s).
Proof.
  intros Hl [H1 H2 H3 H4 H5 H6 H7 H8].
  assert (last_local' (set_ids ids s) = last_local' s) as E by (by rewrite <- Hl).
  constructor; rewrite ?E; try done. intros x Hx. specialize (H5 x Hx). by destruct H5; constructor.
Qed.
Lemma in_step_ids D s ids r : seq_of ldev ids = last_local' s -> in_step' D s r -> in_step' D (set_ids ids s) r.
Proof.
  intros Hl [H1 H2 H3 H4]. assert (last_local' (set_ids ids s) = last_local' s) as E by (by rewrite <- Hl).
  constructor; rewrite ?E; done.
Qed.
Lemma GetIndexID_local newID s s1 i :
  sender_ok' s -> GetIndexID true newID ldev s = (s1, i) ->
  exists ids, s1 = set_ids ids s /\ seq_of ldev ids = last_local' s /\ id_of ldev ids = Some i /\
    (id_of ldev (indexids s) = Some i \/ (id_of ldev (indexids s) = None /\ i = newID)).
Proof.
  intros Hs. unfold GetIndexID, id_of, last_local, seq_of. destruct (indexids s !! ldev) as [ [ [id|] q]|] eqn:E; cbn [negb].
  - intros [= <- <-]. exists (indexids s). rewrite E. split; [by destruct s|]. auto.
  - intros [= <- <-]. eexists. split; [done|]. rewrite lookup_insert_eq. auto.
  - intros [= <- <-]. eexists. split; [done|]. rewrite lookup_insert_eq. split; [|auto].
    apply max_sequence_none. intros x Hx Hd.
    pose proof (so_bound _ _ _ Hs x (conj Hx Hd)) as Hb. unfold last_local, seq_of in Hb. rewrite E in Hb.
    apply (so_seqs _ _ _ Hs) in Hx. lia.
Qed.

(** What the receiver does with the announced ID. *)
Lemma check_remote_other now d rem s :
  1 <= next_sequence (fdb s) -> (forall x, x ∈ rows (fdb s) -> 1 <= rSequence (row x) < next_sequence (fdb s)) ->
  other_change d s (check_remote SortFunc now d rem s).
Proof.
  intros Hn Hs. unfold check_remote. destruct (IndexID rem =? 0); [apply DropAllFiles_other|].
  destruct (negb _); [|destruct s; by constructor].
  eapply other_change_trans; [apply DropAllFiles_other|apply SetIndexID_other|done|done].
Qed.
Lemma check_remote_receiver D now s r i q :
  sender_ok' s -> receiver_ok' r -> id_of ldev (indexids s) = Some i -> i <> 0 -> (matched' s r -> in_step' D s r) ->
  let r' := check_remote SortFunc now rdev {| IndexID := i; MaxSequence := q |} r in
  receiver_ok' r' /\ in_step' D s r' /\ matched' s r' /\ reached' r' = (if decide (id_of rdev (indexids r) = Some i) then reached' r else 0).
Proof.
  intros Hs Hr Hi Hi0 Hstep r'. unfold r', check_remote. cbn [IndexID]. rewrite (proj2 (Z.eqb_neq _ _) Hi0).
  destruct (decide (id_of rdev (indexids r) = Some i)) as [Hid|Hid].
  - assert ((GetIndexID false 0 rdev r).2 = i) as ->.
    { unfold GetIndexID, id_of in *. by destruct (indexids r !! rdev) as [ [ [id|] qq]|]; simplify_eq/=. }
    rewrite Z.eqb_refl. cbn [negb]. assert (matched' s r) as Hm by (exists i; done). auto.
  - assert ((i =? (GetIndexID false 0 rdev r).2) = false) as ->.
    { apply Z.eqb_neq. intros E. unfold GetIndexID, id_of in *.
      destruct (indexids r !! rdev) as [ [ [id|] qq]|]; simplify_eq/=. }
    cbn [negb]. set (t := SetIndexID _ _ _).
    assert (forall y, ~ remote_row rdev t y) as Hnone.
    { intros y [Hy Hd]. unfold t in Hy. cbn [fdb SetIndexID set_ids store_DropAllFiles] in Hy.
      destruct (DropAllFiles_content SortFunc now rdev (fdb r)) as (Hc & _). rewrite Hc in Hy.
      apply in_filter in Hy as [_ Hy]. by rewrite Hd, Z.eqb_refl in Hy. }
    assert (reached' t = 0) as Ht.
    { unfold reached, seq_of, t. cbn [indexids SetIndexID set_ids]. by rewrite lookup_insert_eq. }
    split; [|split; [|split; [|done] ] ].
    + constructor; [|intros y z Hy; by apply Hnone in Hy|lia]. intros y Hy. by apply Hnone in Hy.
    + constructor; [rewrite Ht; apply Hs| |intros y Hy; by apply Hnone in Hy|intros y qq x Hy; by apply Hnone in Hy]. rewrite Ht.
      intros x [Hx _] Hle. apply (so_seqs _ _ _ Hs) in Hx. lia.
    + exists i. split; [done|]. unfold id_of, t. cbn [indexids SetIndexID set_ids]. by rewrite lookup_insert_eq.
Qed.

Lemma Inv_connect now newID rinfo s1 myID s h X :
  Inv X -> x_handler X = None -> x_chan X = [] -> newID <> 0 -> id_of rdev (indexids (x_receiver X)) <> Some newID ->
  GetIndexID true newID ldev (x_sender X) = (s1, myID) ->
  newIndexHandler SortFunc now newID pdev folder enc
    {| local := {| IndexID := (GetIndexID false 0 rdev (x_receiver X)).2;
                   MaxSequence := GetDeviceSequence rdev (x_receiver X) |}; remote := rinfo |} s1 = (s, h) ->
  Inv {| x_sender := s; x_handler := Some h; x_chan := []; x_downloads := Some newDeviceDownloadState;
         x_receiver := check_remote SortFunc now rdev {| IndexID := myID; MaxSequence := GetDeviceSequence ldev s1 |} (x_receiver X);
         x_log := x_log X; x_dropped := x_dropped X |}.
Proof.
  intros [I1 I2 I3 I4 I5 I6 _] Hh Hc Hnz Hfresh Hget Hnew.
  destruct (GetIndexID_local newID _ _ _ I1 Hget) as (ids & -> & Hseq & Hid & Hwhich).
  set (s1 := set_ids ids (x_sender X)) in *.
  assert (sender_ok' s1) as Hs1 by (by apply sender_ok_ids).
  assert (last_local' s1 = last_local' (x_sender X)) as Hl1 by (by rewrite <- Hseq).
  assert (id_of ldev (indexids s1) = Some myID) as Hid1 by done.
  assert (myID <> 0) as HmyID by (destruct Hwhich as [Hw|[_ ->] ]; [congruence|done]).
  assert (matched' s1 (x_receiver X) -> in_step' (x_dropped X) s1 (x_receiver X)) as Hstep1.
  { intros (i & Hi1 & Hi2). apply in_step_ids; [done|]. apply I4. exists i. split; [|done].
    assert (i = myID) as -> by congruence. destruct Hwhich as [Hw|[_ Hw] ]; [done|]. congruence. }
  (* the handler *)
  unfold newIndexHandler in Hnew. rewrite (so_dev _ _ _ Hs1) in Hnew.
  assert (GetIndexID true newID ldev s1 = (s1, myID)) as Hget1.
  { unfold GetIndexID, id_of in *. by destruct (indexids s1 !! ldev) as [ [ [id|] q]|]; simplify_eq/=. }
  rewrite Hget1, (so_dev _ _ _ Hs1) in Hnew. injection Hnew as Hs Hhd. cbn [FolderStoreProps.id_of remote local] in *.
  assert (other_change pdev s1 s) as Hoc.
  { rewrite <- Hs. apply check_remote_other; apply Hs1. }
  destruct (sender_other NormalizedFilename NativeFilename ldev (x_dropped X) pdev s1 s other_devices Hoc Hs1) as [Hs2 Hle].
  (* the receiver *)
  destruct (check_remote_receiver (x_dropped X) now s1 (x_receiver X) myID (GetDeviceSequence ldev s1) Hs1 I3 Hid1 HmyID Hstep1)
    as (R1 & R2 & R3 & R4).
  set (r' := check_remote SortFunc now rdev _ _) in *.
  assert (startSequence_of myID (GetDeviceSequence ldev s1) {| IndexID := (GetIndexID false 0 rdev (x_receiver X)).2;
            MaxSequence := GetDeviceSequence rdev (x_receiver X) |} = reached' r') as Hstart.
  { rewrite R4. unfold startSequence_of. cbn [IndexID MaxSequence].
    destruct (decide (id_of rdev (indexids (x_receiver X)) = Some myID)) as [E|Hne].
    - assert ((GetIndexID false 0 rdev (x_receiver X)).2 = myID) as ->.
      { unfold GetIndexID, id_of in *. by destruct (indexids (x_receiver X) !! rdev) as [ [ [id|] qq]|]; simplify_eq/=. }
      rewrite Z.eqb_refl. assert (matched' s1 (x_receiver X)) as Hm by (exists myID; done).
      pose proof (is_bound _ _ _ _ _ _ _ _ _ (Hstep1 Hm)) as Hb. unfold last_local, reached in *.
      change (GetDeviceSequence ?d ?s) with (seq_of d (indexids s)). by rewrite (proj2 (Z.ltb_ge _ _)).
    - rewrite (proj2 (Z.eqb_neq _ _)); [done|]. intros E. apply Hne. unfold GetIndexID, id_of in *.
      by destruct (indexids (x_receiver X) !! rdev) as [ [ [id|] qq]|]; simplify_eq/=. }
  constructor; cbn [x_sender x_handler x_chan x_downloads x_receiver x_log x_dropped]; try done.
  - rewrite (sl_id _ _ _ _ _ Hle), Hid1. congruence.
  - intros _. by eapply in_step_le.
  - intros _. destruct R3 as (i & Hi1 & Hi2). exists i. by rewrite (sl_id _ _ _ _ _ Hle).
  - exists (reached' r'). split; [done|]. intros h' [= <-]. rewrite <- Hhd, Hstart.
    constructor; cbn; [done|done| |lia]. pose proof (ro_reached _ _ R1). pose proof (is_bound _ _ _ _ _ _ _ _ _ R2).
    pose proof (sl_last _ _ _ _ _ Hle). lia.
Qed.

Lemma Inv_step X X' : Inv X -> x_step X X' -> Inv X'.
Proof.
  intros HI. destruct 1 as [now fs s HU|now ns|now il d fs s r Hd HU|now d Hd|now d Hd|now il d fs s r Hd HU|now d Hd
    |now d ns Hd|now d Hd|res h h' out r Hh Hsend|now m c d s log r Hc Hrecv| |now newID rinfo s1 myID s h Hh Hc Hnz Hfresh Hget Hnew
    |lww Hh Hc|lww rloc Hh Hc].
  - destruct (Update_local_ok SortFunc now NormalizedFilename NativeFilename sha256 ldev (x_dropped X) fs _ _ HU (inv_sender _ HI)).
    by apply Inv_sender_same.
  - destruct (DropFilesNamed_local_ok SortFunc now NormalizedFilename NativeFilename ldev (x_dropped X) ns _ (inv_sender _ HI)).
    apply Inv_sender; [by apply union_subseteq_l|done..].
  - destruct (sender_other NormalizedFilename NativeFilename ldev (x_dropped X) d _ _ Hd (Update_other _ _ _ _ _ _ _ _ _ _ HU) (inv_sender _ HI)). by apply Inv_sender_same.
  - destruct (sender_other NormalizedFilename NativeFilename ldev (x_dropped X) d _ _ Hd (DropAllFiles_other SortFunc now d _) (inv_sender _ HI)). by apply Inv_sender_same.
  - destruct (sender_other NormalizedFilename NativeFilename ldev (x_dropped X) d _ _ Hd (DropDevice_other SortFunc now d _) (inv_sender _ HI)). by apply Inv_sender_same.
  - eapply Inv_receiver; [exact Hd| |done]. by eapply Update_other.
  - eapply Inv_receiver; [exact Hd| |done]. apply DropAllFiles_other.
  - eapply Inv_receiver; [exact Hd| |done]. apply DropFilesNamed_other.
  - destruct (decide (d = rdev)) as [->|Hne]; [|eapply Inv_receiver; [exact Hne|apply DropDevice_other|done] ].
    destruct (Hd eq_refl). apply Inv_forget; [done|done| | |done].
    + intros y [Hy Hyd]. destruct (DropDevice_content SortFunc now rdev (x_receiver X)) as [Hr _].
      rewrite Hr in Hy. apply in_filter in Hy as [_ Hy]. by rewrite Hyd, Z.eqb_refl in Hy.
    + cbn. by rewrite lookup_delete_eq.
  - destruct HI as [I1 I2 I3 I4 I5 I6 (e & I7 & I8)].
    destruct (sendIndexTo_spec NormalizedFilename NativeFilename protoSize normalized_native enc ldev (x_dropped X) _ e h res I1 (I8 h Hh))
      as (h2 & out2 & r2 & E & Hcase). rewrite E in Hsend. injection Hsend as <- <- <-.
    destruct Hcase as [(er & _ & -> & ->)|(-> & e' & Hok & _ & _ & _ & Hout)]; cbn [is_ok].
    + rewrite app_nil_r. constructor; cbn [x_sender x_handler x_chan x_downloads x_receiver x_log x_dropped with_conn]; try done.
      * intros [?|?]; [done|]. apply I5. by right.
      * by exists e.
    + constructor; cbn [x_sender x_handler x_chan x_downloads x_receiver x_log x_dropped with_conn]; try done.
      * intros _. apply I5. left. by rewrite Hh.
      * exists e'. split; [|intros h0 [= <-]; done]. destruct Hout as [ [-> ->]|(m & -> & Hm & ->)].
        -- by rewrite app_nil_r.
        -- by eapply chan_ok_app.
  - destruct HI as [I1 I2 I3 I4 I5 I6 (e & I7 & I8)]. rewrite Hc in I7. destruct I7 as [Hm Hrest].
    assert (matched' (x_sender X) (x_receiver X)) as Hmatch by (apply I5; right; by rewrite Hc).
    destruct (receive_spec SortFunc now NormalizedFilename NativeFilename sha256 normalized_native enc ldev rdev
      (x_dropped X) (x_sender X) (x_receiver X) (x_downloads X) m receiving I1 I3 (I4 Hmatch) Hmatch Hm eq_refl)
      as (d' & s' & E & R1 & R2 & R3 & R4). rewrite E in Hrecv. injection Hrecv as <- <- <- <-. cbn [is_ok].
    rewrite app_nil_r. constructor; cbn [x_sender x_handler x_chan x_downloads x_receiver x_log x_dropped]; try done.
    exists e. by rewrite R4.
  - by apply Inv_cut.
  - by eapply Inv_connect.
  - destruct HI as [I1 I2 I3 I4 I5 I6 _]. constructor; cbn [x_sender x_handler x_chan x_downloads x_receiver x_log x_dropped with_sender with_dropped]; try done.
    + apply new_store_ok.
    + intros (i & Hi & _). unfold id_of in Hi. cbn in Hi. by rewrite lookup_empty in Hi.
    + rewrite Hh, Hc. by intros [?|?].
    + exists (reached' (x_receiver X)). by rewrite Hh, Hc.
  - apply Inv_forget; [done|done| |done|done]. intros y [Hy _]. by apply elem_of_nil in Hy.
Qed.

Lemma Inv_x_start lww lww' rloc : Inv (x_start lww lww' rloc).
Proof.
  constructor; cbn [x_sender x_handler x_chan x_downloads x_receiver x_log x_dropped x_start]; try done.
  - apply new_store_ok.
  - constructor.
    + intros y [Hy _]. by apply elem_of_nil in Hy.
    + intros y z [Hy _]. by apply elem_of_nil in Hy.
    + done.
  - by intros (i & Hi & _).
  - by intros [?|?].
  - eexists. split; [done|]. done.
Qed.
Lemma Inv_reachable lww lww' rloc X : reachable (x_start lww lww' rloc) X -> Inv X.
Proof. induction 1 as [|X X' _ IH Hs]; [apply Inv_x_start|by eapply Inv_step]. Qed.

(** ** What follows *)

(** The receiver has every file of the sender as announced, those that are
    never sent aside, and nothing else but entries of names in [D] of which the
    sender has no row. *)
Definition synchronised (D : gset bytes) (s r : folderStore) : Prop :=
  (forall x, local_row ldev s x -> skip NativeFilename enc s x = true \/
     stored NormalizedFilename sha256 rdev r (announce NativeFilename s x)) /\
  (forall y, remote_row rdev r y ->
     (exists x, local_row ldev s x /\ rName (row x) = rName (row y) /\
        (skip NativeFilename enc s x = true \/
         exists q, y = inserted NormalizedFilename sha256 false rdev q (announce NativeFilename s x))) \/
     (rName (row y) ∈ D /\ forall x, local_row ldev s x -> rName (row x) <> rName (row y))).
(** The sender has no row that the handler has not come to. *)
Definition all_sent (s : folderStore) (h : indexHandler) : Prop :=
  forall x, local_row ldev s x -> rSequence (row x) <= localPrevSequence h.

(** C3: The exchange of indexes raises no false alarm and converges.  A history
    is any sequence of these steps from two empty databases: the sender changes
    files or drops names of its own files; either side changes or drops what it
    has of other devices, or forgets such a device; the receiver drops names of
    its own; the handler sends, with or without an error; the receiver takes in
    a message; the connection is lost or set up; and, while there is no
    connection, either side starts over with an empty database or the receiver
    forgets the sender.  In every history no anomaly is logged and every message
    is taken in without an error; and whenever the handler has come to every
    row of the sender and no message is under way, the receiver has every file
    of the sender as announced, those that are never sent to an encrypted
    folder aside, and every entry it has of the sender is such a file, or
    belongs to a file that is never sent, or is of a name the sender dropped
    and has no row of: that entry stays. *)
Theorem index_exchange lww lww' rloc X (H : reachable (x_start lww lww' rloc) X) :
  x_log X = [] /\
  (forall now m c, x_chan X = m :: c -> exists st,
     receive_message SortFunc now NormalizedFilename sha256 rdev receiving m (x_downloads X, x_receiver X) = (st, ([], Ret tt))) /\
  (forall h, x_handler X = Some h -> x_chan X = [] -> all_sent (x_sender X) h ->
     synchronised (x_dropped X) (x_sender X) (x_receiver X)).
Proof.
  apply Inv_reachable in H as [I1 I2 I3 I4 I5 I6 (e & I7 & I8)]. split; [done|]. split.
  - intros now m c Hc. rewrite Hc in I7. destruct I7 as [Hm _].
    assert (matched' (x_sender X) (x_receiver X)) as Hmatch by (apply I5; right; by rewrite Hc).
    destruct (receive_spec SortFunc now NormalizedFilename NativeFilename sha256 normalized_native enc ldev rdev
      (x_dropped X) (x_sender X) (x_receiver X) (x_downloads X) m receiving I1 I3 (I4 Hmatch) Hmatch Hm eq_refl) as (d' & s' & E & _).
    eauto.
  - intros h Hh Hc Hl. rewrite Hc in I7. cbn in I7.
    assert (matched' (x_sender X) (x_receiver X)) as Hmatch by (apply I5; left; by rewrite Hh).
    specialize (I4 Hmatch). destruct (I8 h Hh) as [_ _ Hloc Hskip]. subst e. destruct I4 as [J1 J2 J3 _].
    (* beyond what was sent there is nothing but what is skipped *)
    assert (forall x, local_row ldev (x_sender X) x -> skip NativeFilename enc (x_sender X) x = true \/
              stored NormalizedFilename sha256 rdev (x_receiver X) (announce NativeFilename (x_sender X) x)) as Hcov.
    { intros x Hx. destruct (decide (rSequence (row x) <= reached' (x_receiver X))) as [Hle|Hle]; [by apply J2|left].
      apply Hskip; [done|]. specialize (Hl x Hx). lia. }
    split; [done|]. intros y Hy.
    destruct (local_named ldev (x_sender X) (rName (row y))) as [(x & Hx & Hn)|Hnone].
    + left. exists x. split; [done|]. split; [done|]. destruct (Hcov x Hx) as [?|[q' Hq'] ]; [by left|right]. exists q'.
      apply (ro_names _ _ I3); [done|done|]. cbn.
      destruct (announce_ok NormalizedFilename NativeFilename normalized_native _ x (so_rows _ _ _ I1 x Hx)) as (_ & _ & ->). done.
    + right. split; [|done]. destruct (J3 y Hy) as [?|(x & Hx & Hn)]; [done|]. by destruct (Hnone x Hx).
Qed.

(** The rounds of [Serve] while the database does not change. *)
Fixpoint serve_rounds (n : nat) (s : folderStore) (h : indexHandler) : outcome index_err indexHandler :=
  match n with
  | O => Ret h
  | S n => match Serve_round NativeFilename protoSize None s h with
           | ((h, _), Ret _) => serve_rounds n s h
           | (_, Err e) => Err e
           | (_, Panic) => Panic
           | (_, OutOfFuel) => OutOfFuel
           end
  end.
Lemma Serve_round_spec s e h :
  sender_ok' s -> handler_ok' s e h ->
  exists h' out e', Serve_round NativeFilename protoSize None s h = ((h', out), Ret tt) /\ handler_ok' s e' h' /\
    localPrevSequence h <= localPrevSequence h' /\
    (all_sent s h \/ localPrevSequence h < localPrevSequence h').
Proof.
  intros Hs Hh. unfold Serve_round. rewrite (so_dev _ _ _ Hs). change (GetDeviceSequence ldev s) with (last_local' s).
  destruct (Z.leb_spec (last_local' s) (localPrevSequence h)) as [Hle|Hgt].
  - exists h, [], e. split; [done|]. split; [done|]. split; [done|left]. intros x Hx. pose proof (so_bound _ _ _ Hs x Hx). lia.
  - destruct (sendIndexTo_spec NormalizedFilename NativeFilename protoSize normalized_native enc ldev ∅ s e h None Hs Hh)
      as (h2 & out & r & -> & [(er & ? & _)|(-> & e' & Hok & _ & Hle & Hp & _)]); [done|].
    exists h2, out, e'. split; [done|]. split; [done|]. split; [done|].
    destruct (local_after ldev s (localPrevSequence h)) as [Hx|Hx]; [right; by apply Hp|by left].
Qed.
Lemma serve_rounds_spec s e h n :
  sender_ok' s -> handler_ok' s e h -> all_sent s h \/ last_local' s - localPrevSequence h <= Z.of_nat n ->
  exists h', serve_rounds n s h = Ret h' /\ all_sent s h'.
Proof.
  intros Hs. revert e h. induction n as [|n IH]; intros e h Hh Hn; cbn [serve_rounds].
  { exists h. split; [done|]. destruct Hn as [?|Hn]; [done|]. intros x Hx. pose proof (so_bound _ _ _ Hs x Hx). lia. }
  destruct (Serve_round_spec s e h Hs Hh) as (h2 & out & e' & -> & Hok & Hle & Hp). apply (IH e' h2 Hok).
  assert (all_sent s h -> all_sent s h2) as Hkeep by (intros Ha x Hx; specialize (Ha x Hx); lia).
  destruct Hn as [Hn|Hn]; [left; by apply Hkeep|]. destruct Hp as [Hp|Hp]; [left; by apply Hkeep|right; lia].
Qed.

(** C12: A handler catches up: in every history of the exchange, if from then on
    the database of the sender does not change and no send fails, the rounds of
    [Serve] never fail, and after as many rounds as there are sequence numbers
    to go the handler has come to every row of the sender.  (Its own sequence
    number need not reach that of the database, see [dropped_newest].) *)
Theorem Serve_catches_up lww lww' rloc X h n
    (H : reachable (x_start lww lww' rloc) X) (Hh : x_handler X = Some h)
    (Hn : GetDeviceSequence ldev (x_sender X) - localPrevSequence h <= Z.of_nat n) :
  exists h', serve_rounds n (x_sender X) h = Ret h' /\ all_sent (x_sender X) h'.
Proof.
  apply Inv_reachable in H as [I1 _ _ _ _ _ (e & _ & I8)].
  by apply (serve_rounds_spec (x_sender X) e h n I1 (I8 h Hh)); [right].
Qed.
End Steps.

(** ** A run *)

Section Run.
Context (SortFunc : (fileRow -> fileRow -> Z) -> list fileRow -> list fileRow).
Context (NormalizedFilename NativeFilename : bytes -> bytes) (sha256 : bytes -> bytes) (protoSize : bep_FileInfo -> Z).
Context (ldev rdev pdev : Z) (enc : bool) (folder : bytes).
Abbreviation step := (x_step SortFunc NormalizedFilename NativeFilename sha256 protoSize ldev rdev pdev enc folder).

(** The steps as functions. *)
Definition do_local (fs : list FileInfo) (X : exchange) : exchange :=
  with_sender (store_Update SortFunc 0 NormalizedFilename sha256 true ldev fs (x_sender X)).1 X.
Definition do_drop (names : list bytes) (X : exchange) : exchange :=
  with_dropped (x_dropped X ∪ list_to_set (map NormalizedFilename names))
    (with_sender (store_DropFilesNamed SortFunc 0 NormalizedFilename ldev names (x_sender X)) X).
Definition do_connect (newID : Z) (X : exchange) : exchange :=
  let p := GetIndexID true newID ldev (x_sender X) in
  let q := newIndexHandler SortFunc 0 newID pdev folder enc
    {| local := {| IndexID := (GetIndexID false 0 rdev (x_receiver X)).2;
                   MaxSequence := GetDeviceSequence rdev (x_receiver X) |}; remote := {| IndexID := 0; MaxSequence := 0 |} |} p.1 in
  {| x_sender := q.1; x_handler := Some q.2; x_chan := []; x_downloads := Some newDeviceDownloadState;
     x_receiver := check_remote SortFunc 0 rdev {| IndexID := p.2; MaxSequence := GetDeviceSequence ldev p.1 |} (x_receiver X);
     x_log := x_log X; x_dropped := x_dropped X |}.
Definition do_send (h : indexHandler) (X : exchange) : exchange :=
  let p := sendIndexTo NativeFilename protoSize None (x_sender X) h in
  with_conn (if is_ok p.2 then Some p.1.1 else None) (x_chan X ++ p.1.2) X.
Definition do_receive (m : indexMessage) (c : list indexMessage) (X : exchange) : exchange :=
  let p := receive_message SortFunc 0 NormalizedFilename sha256 rdev (receiving folder) m (x_downloads X, x_receiver X) in
  {| x_sender := x_sender X; x_handler := if is_ok p.2.2 then x_handler X else None;
     x_chan := if is_ok p.2.2 then c else []; x_downloads := p.1.1; x_receiver := p.1.2; x_log := x_log X ++ p.2.1; x_dropped := x_dropped X |}.

Lemma do_local_step fs X :
  (store_Update SortFunc 0 NormalizedFilename sha256 true ldev fs (x_sender X)).2 = Ret tt -> step X (do_local fs X).
Proof. intros H. apply (X_local _ _ _ _ _ _ _ _ _ _ X 0 fs). by rewrite <- H, <- surjective_pairing. Qed.
Lemma do_drop_step names X : step X (do_drop names X).
Proof. apply (X_local_drop _ _ _ _ _ _ _ _ _ _ X 0 names). Qed.
Lemma do_connect_step newID X :
  x_handler X = None -> x_chan X = [] -> newID <> 0 -> id_of rdev (indexids (x_receiver X)) <> Some newID ->
  step X (do_connect newID X).
Proof. intros H1 H2 H3 H4. eapply (X_connect _ _ _ _ _ _ _ _ _ _ X 0 newID); try done; apply surjective_pairing. Qed.
Lemma do_send_step h X : x_handler X = Some h -> step X (do_send h X).
Proof. intros H. apply (X_send _ _ _ _ _ _ _ _ _ _ X None h); [done|]. by rewrite <- !surjective_pairing. Qed.
Lemma do_receive_step m c X : x_chan X = m :: c -> step X (do_receive m c X).
Proof. intros H. apply (X_receive _ _ _ _ _ _ _ _ _ _ X 0 m c); [done|]. by rewrite <- !surjective_pairing. Qed.
End Run.

Definition toy_hash (bs : bytes) : bytes := [z2b (fold_left (fun a b => a + b2z b) bs 0)].
Definition no_sort (_ : fileRow -> fileRow -> Z) (l : list fileRow) : list fileRow := l.
Definition same_name (n : bytes) : bytes := n.
Definition no_size (_ : bep_FileInfo) : Z := 100.

Definition ex0 : exchange := x_start 1 false false 1.
Definition ex1 : exchange := do_local no_sort same_name toy_hash 1 [FileInfoWire.ex_file] ex0.
Definition ex2 : exchange := do_connect no_sort 1 2 2 false (gostr "d") 77 ex1.
Definition ex_h2 : indexHandler := default (receiving []) (x_handler ex2).
Definition ex3 : exchange := do_send same_name no_size ex_h2 ex2.
Definition ex_m3 : indexMessage := default {| im_update := false; im_files := []; im_prev := 0; im_last := 0 |} (head (x_chan ex3)).
Definition ex4 : exchange := do_receive no_sort same_name toy_hash 2 (gostr "d") ex_m3 (tail (x_chan ex3)) ex3.

Abbreviation ex_reachable := (reachable no_sort same_name same_name toy_hash no_size 1 2 2 false (gostr "d")).
Lemma ex2_reachable : ex_reachable ex0 ex2.
Proof.
  apply reach_step with ex1; [apply reach_step with ex0; [apply reach_refl|] |].
  - apply do_local_step. vm_compute. reflexivity.
  - apply do_connect_step; [reflexivity|reflexivity|done|]. vm_compute. discriminate.
Qed.
Lemma ex4_reachable : ex_reachable ex0 ex4.
Proof.
  apply reach_step with ex3; [apply reach_step with ex2; [apply ex2_reachable|] |].
  - apply do_send_step. reflexivity.
  - apply do_receive_step. vm_compute. reflexivity.
Qed.

Lemma index_exchange_witness :
  x_log ex4 = [] /\ length (files (fdb (x_receiver ex4))) = 1%nat /\
  synchronised same_name same_name toy_hash 1 2 false ∅ (x_sender ex4) (x_receiver ex4).
Proof.
  destruct (index_exchange no_sort same_name same_name toy_hash no_size 1 2 2 false (gostr "d") (fun n => eq_refl)
    ltac:(done) false false 1 ex4 ex4_reachable) as (Hlog & _ & Hsync).
  split; [exact Hlog|]. split; [vm_compute; reflexivity|].
  apply (Hsync (default (receiving []) (x_handler ex4))); [vm_compute; reflexivity|vm_compute; reflexivity|].
  intros x [Hx _]. apply list_elem_of_In in Hx. vm_compute in Hx. destruct Hx as [<-|[] ]. vm_compute. discriminate.
Defined.
Lemma Serve_catches_up_witness :
  exists h', serve_rounds same_name no_size 1 (x_sender ex2) ex_h2 = Ret h' /\ all_sent 1 (x_sender ex2) h'.
Proof.
  destruct (Serve_catches_up no_sort same_name same_name toy_hash no_size 1 2 2 false (gostr "d") (fun n => eq_refl)
    ltac:(done) false false 1 ex2 ex_h2 1 ex2_reachable eq_refl) as (h' & Hr & Hl); [vm_compute; discriminate|].
  exists h'. split; [exact Hr|exact Hl].
Defined.

(** *** What dropping rows does *)

(** The sender drops the file that the receiver has: nothing is announced, and
    the receiver keeps its entry, here of a file that is not deleted. *)
Definition ex5 : exchange := do_drop no_sort same_name 1 [Name FileInfoWire.ex_file] ex4.
Lemma dropped_stays :
  ex_reachable ex0 ex5 /\ files (fdb (x_sender ex5)) = [] /\
  Serve_round same_name no_size None (x_sender ex5) (default (receiving []) (x_handler ex5))
    = ((default (receiving []) (x_handler ex5), []), Ret tt) /\
  Deleted <$> GetDeviceFile same_name same_name 2 (Name FileInfoWire.ex_file) (x_receiver ex5) = Some false.
Proof.
  split; [apply reach_step with ex4; [apply ex4_reachable|apply do_drop_step]|]. vm_compute. repeat split.
Qed.
(** The newest row is dropped: the sequence number of the database is out of
    the handler's reach, and every round of [Serve] asks the database again. *)
Definition other_file : FileInfo := set_Name (gostr "other") FileInfoWire.ex_file.
Definition ex_newest1 : exchange := do_local no_sort same_name toy_hash 1 [FileInfoWire.ex_file; other_file] ex0.
Definition ex_newest2 : exchange := do_drop no_sort same_name 1 [gostr "other"] ex_newest1.
Definition ex_newest : exchange := do_connect no_sort 1 2 2 false (gostr "d") 77 ex_newest2.
Lemma dropped_newest :
  let s := x_sender ex_newest in
  let h' := (sendIndexTo same_name no_size None s (default (receiving []) (x_handler ex_newest))).1.1 in
  ex_reachable ex0 ex_newest /\ GetDeviceSequence 1 s = 2 /\ localPrevSequence h' = 1 /\
  sendIndexTo same_name no_size None s h' = ((h', []), Ret tt).
Proof.
  cbv zeta. split; [|vm_compute; repeat split].
  apply reach_step with ex_newest2; [apply reach_step with ex_newest1; [apply reach_step with ex0; [apply reach_refl|] |] |].
  - apply do_local_step. vm_compute. reflexivity.
  - apply do_drop_step.
  - apply do_connect_step; [reflexivity|reflexivity|done|]. vm_compute. discriminate.
Qed.

(** *** What the first index is not *)

(** For an empty folder no index is sent at all. *)
Lemma empty_first_index s h :
  files (fdb s) = [] ->
  sendIndexTo same_name no_size None s h = ((set_sequences (localPrevSequence h) (sentPrevSequence h) h, []), Ret tt).
Proof. intros H. unfold sendIndexTo, AllLocalFilesBySequence, rows_from. rewrite H. done. Qed.

(** In a folder that receives encrypted files, a first batch without a file to
    send makes the next message an update, not an index: the receiver keeps
    what it had of the sender. *)
Definition changed_file : FileInfo := set_LocalFlags FlagLocalReceiveOnly FileInfoWire.ex_file.
Definition plain_file : FileInfo := set_LocalFlags 0 FileInfoWire.ex_file.
Definition enc1 : folderStore := (store_Update no_sort 0 same_name toy_hash true 1 [changed_file] (new_store false 1)).1.
Definition enc2 : folderStore := (store_Update no_sort 0 same_name toy_hash true 1 [plain_file] enc1).1.
Definition enc_h0 : indexHandler :=
  {| ih_folder := gostr "d"; folderIsReceiveEncrypted := true; localPrevSequence := 0; sentPrevSequence := 0; paused := false |}.
Lemma skipped_first_index :
  let p1 := sendIndexTo same_name no_size None enc1 enc_h0 in
  let p2 := sendIndexTo same_name no_size None enc2 p1.1.1 in
  p1.1.2 = [] /\ map im_update p2.1.2 = [true] /\ map im_prev p2.1.2 = [0].
Proof. vm_compute. repeat split. Qed.
