(* ===== verification/IndexRegistry.v ===== *)
(** * The registry of index handlers: which folders are served *)
From Stdlib Require Import ZArith List Lia.
From Stdlib Require Import Strings.Byte.
From stdpp Require Import base list option gmap numbers tactics.
From S2P Require Import Prelude GoLib Vector FileInfo FileInfoWire PullQueue PullState GlobalState FolderStore.
From S2P Require Import Downloads IndexHandler.

#[local] Open Scope Z_scope.

Section Registry.
Context (SortFunc : (fileRow -> fileRow -> Z) -> list fileRow -> list fileRow).
Context (NormalizedFilename : bytes -> bytes) (sha256 : bytes -> bytes).

(** The operations on a registry. *)
Inductive reg_op :=
| OpAddIndexInfo (now newID : Z) (folder : bytes) (info : clusterConfigDeviceInfo)
| OpRemove (folder : bytes)
| OpRemoveAllExcept (except : gset bytes)
| OpRegister (now newID : Z) (cfg : FolderConfiguration)
| OpReceive (now : Z) (folder : bytes) (fs : list FileInfo) (update : bool) (prev last : Z).
Definition apply_op (o : reg_op) (r : indexHandlerRegistry) : indexHandlerRegistry :=
  match o with
  | OpAddIndexInfo now newID folder info => AddIndexInfo SortFunc now newID folder info r
  | OpRemove folder => Remove folder r
  | OpRemoveAllExcept except => RemoveAllExcept except r
  | OpRegister now newID cfg => RegisterFolderState SortFunc now newID cfg r
  | OpReceive now folder fs update prev last =>
      (ReceiveIndex SortFunc now NormalizedFilename sha256 folder fs update prev last r).1
  end.

(** A pending start belongs to a folder that neither runs nor has a handler; a
    handler that is not paused to a folder that runs. *)
Record registry_ok (r : indexHandlerRegistry) : Prop := {
  rk_pending : forall f, is_Some (startInfos r !! f) -> indexHandlers r !! f = None /\ folderStates r !! f = None;
  rk_running : forall f h, indexHandlers r !! f = Some h -> paused h = false -> is_Some (folderStates r !! f);
  rk_states : forall f cfg, folderStates r !! f = Some cfg -> cfgID cfg = f /\ cfgPaused cfg = false }.

Lemma new_ok dev db d : registry_ok (newIndexHandlerRegistry dev db d).
Proof. constructor; cbn; intros f *; rewrite lookup_empty; [by intros [? ?]|done|done]. Qed.

Lemma startLocked_fields now newID cfg info r :
  startInfos (startLocked SortFunc now newID cfg info r) = delete (cfgID cfg) (startInfos r) /\
  folderStates (startLocked SortFunc now newID cfg info r) = folderStates r /\
  (forall f, f <> cfgID cfg -> indexHandlers (startLocked SortFunc now newID cfg info r) !! f = indexHandlers r !! f) /\
  (is_Some (indexHandlers (startLocked SortFunc now newID cfg info r) !! cfgID cfg) <-> is_Some (sdb r !! cfgID cfg)).
Proof.
  unfold startLocked. cbn [sdb set_handlers]. destruct (sdb r !! cfgID cfg) as [s|] eqn:Hs.
  - destruct (newIndexHandler _ _ _ _ _ _ _ _) as [s' h]. cbn.
    split; [done|]. split; [done|]. split; [intros f Hf; by rewrite lookup_insert_ne, lookup_delete_ne|].
    rewrite lookup_insert_eq. by split; intros _; eexists.
  - cbn. split; [done|]. split; [done|]. split; [intros f Hf; by rewrite lookup_delete_ne|].
    rewrite lookup_delete_eq. by split; intros [? ?].
Qed.

Lemma startLocked_ok now newID cfg info r :
  registry_ok r -> is_Some (folderStates r !! cfgID cfg) -> registry_ok (startLocked SortFunc now newID cfg info r).
Proof.
  intros [H1 H2 H3] Hf. destruct (startLocked_fields now newID cfg info r) as (S1 & S2 & S3 & _).
  constructor; rewrite ?S1, ?S2.
  - intros f Hp. destruct (decide (f = cfgID cfg)) as [->|Hne].
    + rewrite lookup_delete_eq in Hp. by destruct Hp.
    + rewrite lookup_delete_ne in Hp by done. rewrite S3 by done. by apply H1.
  - intros f h Hh Hp. destruct (decide (f = cfgID cfg)) as [->|Hne]; [done|]. rewrite S3 in Hh by done. by eapply H2.
  - apply H3.
Qed.

Lemma AddIndexInfo_ok now newID folder info r : registry_ok r -> registry_ok (AddIndexInfo SortFunc now newID folder info r).
Proof.
  intros [H1 H2 H3]. unfold AddIndexInfo. cbn [folderStates set_handlers indexHandlers startInfos].
  assert (registry_ok (set_handlers (delete folder (indexHandlers r)) (startInfos r) (folderStates r) r)) as Hok.
  { constructor; cbn; [| |done].
    - intros f Hp. destruct (H1 f Hp) as [E ?]. split; [|done]. apply lookup_delete_None. by right.
    - intros f h [_ Hh]%lookup_delete_Some. by apply H2. }
  destruct (folderStates r !! folder) as [cfg|] eqn:Hf.
  - apply startLocked_ok; [done|]. cbn. destruct (H3 _ _ Hf) as [-> _]. by rewrite Hf.
  - constructor; cbn; [| |done].
    + intros f Hp. destruct (decide (f = folder)) as [->|Hne].
      * split; [apply lookup_delete_eq|done].
      * rewrite lookup_insert_ne in Hp by done. by apply Hok.
    + apply Hok.
Qed.

Lemma RegisterFolderState_ok now newID cfg r : registry_ok r -> registry_ok (RegisterFolderState SortFunc now newID cfg r).
Proof.
  intros [H1 H2 H3]. unfold RegisterFolderState. destruct (SharedWith _ _); cbn [negb]; [|unfold Remove].
  2: { constructor; cbn; [| |done].
       - intros f Hp. destruct (decide (f = cfgID cfg)) as [->|Hne]; [rewrite lookup_delete_eq in Hp; by destruct Hp|].
         rewrite lookup_delete_ne in Hp by done. destruct (H1 f Hp) as [E ?]. split; [|done]. by rewrite lookup_delete_ne.
       - intros f h [_ Hh]%lookup_delete_Some. by apply H2. }
  destruct (cfgPaused cfg) eqn:Hpause; [unfold folderPausedLocked|unfold folderRunningLocked].
  - constructor; cbn.
    + intros f Hp. destruct (H1 f Hp) as [E1 E2]. rewrite lookup_alter_None, lookup_delete_None. auto.
    + intros f h Hh Hp. destruct (decide (f = cfgID cfg)) as [->|Hne].
      * rewrite lookup_alter_eq in Hh. destruct (indexHandlers r !! cfgID cfg); [|done]. injection Hh as <-. done.
      * rewrite lookup_alter_ne in Hh by done. rewrite lookup_delete_ne by done. by eapply H2.
    + intros f c [_ Hf]%lookup_delete_Some. by apply H3.
  - cbn [startInfos set_handlers folderStates indexHandlers]. destruct (startInfos r !! cfgID cfg) as [info|] eqn:Hi.
    + set (r2 := set_handlers (delete (cfgID cfg) (indexHandlers r)) (startInfos r) (<[cfgID cfg:=cfg]> (folderStates r)) _).
      destruct (startLocked_fields now newID cfg info r2) as (S1 & S2 & S3 & _).
      constructor; cbn; rewrite ?S1, ?S2; cbn.
      * intros f Hp. destruct (decide (f = cfgID cfg)) as [->|Hne]; [rewrite lookup_delete_eq in Hp; by destruct Hp|].
        rewrite !lookup_delete_ne in Hp by done. rewrite S3 by done. cbn. rewrite lookup_delete_ne, lookup_insert_ne by done. by apply H1.
      * intros f h Hh Hp. destruct (decide (f = cfgID cfg)) as [->|Hne]; [by rewrite lookup_insert_eq|].
        rewrite S3 in Hh by done. cbn in Hh. rewrite lookup_delete_ne in Hh by done. rewrite lookup_insert_ne by done. by eapply H2.
      * intros f c [ [<- <-]|[_ Hf] ]%lookup_insert_Some; [done|by apply H3].
    + constructor; cbn.
      * intros f Hp. destruct (decide (f = cfgID cfg)) as [->|Hne]; [rewrite Hi in Hp; by destruct Hp|].
        rewrite lookup_alter_ne, lookup_insert_ne by done. by apply H1.
      * intros f h Hh Hp. destruct (decide (f = cfgID cfg)) as [->|Hne]; [by rewrite lookup_insert_eq|].
        rewrite lookup_alter_ne in Hh by done. rewrite lookup_insert_ne by done. by eapply H2.
      * intros f c [ [<- <-]|[_ Hf] ]%lookup_insert_Some; [done|by apply H3].
Qed.

Lemma apply_op_ok o r : registry_ok r -> registry_ok (apply_op o r).
Proof.
  intros Hok. destruct o as [now newID folder info|folder|except|now newID cfg|now folder fs update prev last]; cbn [apply_op].
  - by apply AddIndexInfo_ok.
  - destruct Hok as [H1 H2 H3]. constructor; cbn; [| |done].
    + intros f Hp. destruct (decide (f = folder)) as [->|Hne]; [rewrite lookup_delete_eq in Hp; by destruct Hp|].
      rewrite lookup_delete_ne in Hp by done. destruct (H1 f Hp). split; [|done]. by rewrite lookup_delete_ne.
    + intros f h [_ Hh]%lookup_delete_Some. by apply H2.
  - destruct Hok as [H1 H2 H3]. constructor; cbn; [| |done].
    + intros f [i [Hi _]%map_lookup_filter_Some]. destruct (H1 f) as [E ?]; [by rewrite Hi|]. split; [|done].
      apply map_lookup_filter_None. by left.
    + intros f h [Hh _]%map_lookup_filter_Some. by apply H2.
  - by apply RegisterFolderState_ok.
  - unfold ReceiveIndex. destruct (indexHandlers r !! folder); [|done]. destruct (sdb r !! folder); [|done].
    destruct (receive _ _ _ _ _ _ _ _ _ _ _) as [ [d s] res]. destruct Hok as [H1 H2 H3]. by constructor.
Qed.

(** Only running folders take in indexes: whatever the cluster
    configurations, pauses, resumptions and changes of the configuration on a
    connection, an index for a folder that has not been registered as running
    is refused, and neither the database nor the download states change. *)
Theorem refuses_not_running dev db d (ops : list reg_op) now folder fs update prev last
    (Hf : folderStates (foldr apply_op (newIndexHandlerRegistry dev db d) ops) !! folder = None) :
  let r := foldr apply_op (newIndexHandlerRegistry dev db d) ops in
  exists e, (ReceiveIndex SortFunc now NormalizedFilename sha256 folder fs update prev last r).2 = ([], Err e) /\
    sdb (ReceiveIndex SortFunc now NormalizedFilename sha256 folder fs update prev last r).1 = sdb r /\
    reg_downloads (ReceiveIndex SortFunc now NormalizedFilename sha256 folder fs update prev last r).1 = reg_downloads r.
Proof.
  set (r := foldr _ _ _) in *. cbv zeta.
  assert (registry_ok r) as Hok.
  { unfold r. clear. induction ops as [|o ops IH]; cbn; [apply new_ok|by apply apply_op_ok]. }
  unfold ReceiveIndex. destruct (indexHandlers r !! folder) as [h|] eqn:Hh; [|by exists ErrFolderMissing].
  destruct (sdb r !! folder) as [s|] eqn:Hs; [|by exists ErrFolderMissing].
  assert (paused h = true) as Hp.
  { destruct (paused h) eqn:E; [done|]. destruct (rk_running _ Hok folder h Hh E) as [? E']. congruence. }
  unfold receive. rewrite Hp. exists ErrFolderPaused. cbn. split; [done|]. split; [|done]. by apply insert_id.
Qed.

(** *** A folder that is not shared any more *)

(** [RegisterFolderState] leaves the folder's state in place when the folder is
    no longer shared with the device: an index handler starts again as soon as
    the device announces the folder on the same connection. *)
Lemma unshared_served now newID cfg cfg' info r :
  SharedWith (reg_dev r) cfg = true -> cfgPaused cfg = false -> SharedWith (reg_dev r) cfg' = false ->
  cfgID cfg' = cfgID cfg -> is_Some (sdb r !! cfgID cfg) -> startInfos r !! cfgID cfg = None ->
  is_Some (indexHandlers (AddIndexInfo SortFunc now newID (cfgID cfg) info
    (RegisterFolderState SortFunc now newID cfg' (RegisterFolderState SortFunc now newID cfg r))) !! cfgID cfg).
Proof.
  intros H1 H2 H3 H4 H5 H6. unfold RegisterFolderState at 2. rewrite H1, H2. cbn [negb]. unfold folderRunningLocked.
  cbn [startInfos set_handlers]. rewrite H6. unfold RegisterFolderState. cbn [reg_dev set_handlers]. rewrite H3. cbn [negb].
  unfold AddIndexInfo. cbn [folderStates set_handlers Remove]. rewrite lookup_insert_eq.
  by apply (proj2 (proj2 (proj2 (startLocked_fields now newID cfg info _)))).
Qed.
End Registry.

Definition ex_cfg : FolderConfiguration :=
  {| cfgID := gostr "d"; cfgReceiveEncrypted := false; cfgPaused := true; cfgDevices := [2] |}.
Definition ex_db : gmap bytes folderStore :=
  {[gostr "d" := {| fdb := {| files := []; next_sequence := 1; blocklists := ∅; ancestor_entries := ∅;
                              useLWWReconciler := false; localDeviceIdx := 1 |}; indexids := ∅ |}]}.
Definition ex_run_cfg : FolderConfiguration :=
  {| cfgID := gostr "d"; cfgReceiveEncrypted := false; cfgPaused := false; cfgDevices := [2] |}.
Definition ex_info : clusterConfigDeviceInfo :=
  {| local := {| IndexID := 0; MaxSequence := 0 |}; remote := {| IndexID := 9; MaxSequence := 0 |} |}.
(** The folder is announced, runs, and is paused. *)
Definition ex_ops : list reg_op :=
  [OpRegister 0 5 ex_cfg; OpRegister 0 5 ex_run_cfg; OpAddIndexInfo 0 5 (gostr "d") ex_info].
Lemma refuses_not_running_witness :
  let r := foldr (apply_op (fun _ l => l) (fun n => n) (fun _ => [])) (newIndexHandlerRegistry 2 ex_db None) ex_ops in
  is_Some (indexHandlers r !! gostr "d") /\
  exists e, (ReceiveIndex (fun _ l => l) 0 (fun n => n) (fun _ => []) (gostr "d") [FileInfoWire.ex_file] true 0 12 r).2
      = ([], Err e).
Proof.
  cbv zeta. split; [vm_compute; eexists; reflexivity|].
  destruct (refuses_not_running (fun _ l => l) (fun n => n) (fun _ => []) 2 ex_db None ex_ops 0 (gostr "d")
    [FileInfoWire.ex_file] true 0 12) as (e & He & _); [vm_compute; reflexivity|].
  exists e. exact He.
Defined.
