(* ===== verification/RollingHash.v ===== *)
(** * The rsync weak checksum (lib/rsync/rolling.go)

    The rolling hash with its 16 bit sums and its ring buffer, and the proof
    that rolling a window gives the checksum of the window it has reached. *)
From Stdlib Require Import ZArith List Lia.
From Stdlib Require Import Strings.Byte.
From stdpp Require Import base list option numbers tactics.
From S2P Require Import Prelude GoLib.

#[local] Open Scope Z_scope.

(** ** The hash *)

Record RollingHash := { ra : Z; rb : Z; blockSize : Z; window : bytes; pos : Z }.

(** [NewRollingHash(blockSize)] *)
Definition NewRollingHash {E} (n : Z) : outcome E RollingHash :=
  w ← makeBytes n;
  Ret {| ra := 0; rb := 0; blockSize := n; window := w; pos := 0 |}.

(** The loop of [Write]: [len(data) - i] is the length of what is left. *)
Fixpoint write_loop (data : bytes) (a b : Z) : Z * Z :=
  match data with
  | [] => (a, b)
  | v :: data' =>
      write_loop data' (u16 (a + b2z v)) (u16 (b + u16 (u16 (zlen data) * b2z v)))
  end.
(** [RollingHash.Write]: a window longer than the data is padded with zeroes. *)
Definition Write (r : RollingHash) (data : bytes) : RollingHash :=
  let '(a, b) := write_loop data 0 0 in
  let n := length (window r) in
  {| ra := a; rb := b; blockSize := blockSize r;
     window := take n data ++ replicate (n - length data) x00; pos := 0 |}.

(** [RollingHash.Roll]: an empty window has no byte to take out. *)
Definition Roll {E} (r : RollingHash) (in_ : byte) : outcome E RollingHash :=
  match window r !! Z.to_nat (pos r) with
  | None => Panic
  | Some out =>
      let a := u16 (ra r + u16 (b2z in_ - b2z out)) in
      let b := u16 (rb r - u16 (u16 (blockSize r) * b2z out)) in
      let b := u16 (b + a) in
      Ret {| ra := a; rb := b; blockSize := blockSize r;
             window := <[Z.to_nat (pos r) := in_]> (window r);
             pos := (pos r + 1) mod blockSize r |}
  end.

(** [RollingHash.Sum], [RollingHash.Reset] *)
Definition Sum (r : RollingHash) : Z := Z.lor (ra r) (Z.shiftl (rb r) 16).
Definition Reset (r : RollingHash) : RollingHash :=
  {| ra := 0; rb := 0; blockSize := blockSize r;
     window := replicate (length (window r)) x00; pos := 0 |}.

(** ** Abstract value

    The two sums of a block as integers, before reduction to 16 bits. *)
Definition sum_a (w : bytes) : Z := foldr (fun v acc => b2z v + acc) 0 w.
Fixpoint sum_b (w : bytes) : Z :=
  match w with
  | [] => 0
  | v :: w' => zlen w * b2z v + sum_b w'
  end.
Definition weak_sum (w : bytes) : Z := Z.lor (u16 (sum_a w)) (Z.shiftl (u16 (sum_b w)) 16).

(** [r] is a hash of the window [w]: its ring buffer, read from [pos] on, is
    [w], and its sums are those of [w]. *)
Definition hashes (r : RollingHash) (w : bytes) : Prop :=
  window r <> [] /\
  blockSize r = zlen (window r) /\ 0 <= pos r < blockSize r /\
  drop (Z.to_nat (pos r)) (window r) ++ take (Z.to_nat (pos r)) (window r) = w /\
  ra r = u16 (sum_a w) /\ rb r = u16 (sum_b w).

(** ** Lemmas *)

Lemma uN_add_l w x y : uN w (uN w x + y) = uN w (x + y).
Proof. unfold uN. apply Zplus_mod_idemp_l. Qed.
Lemma uN_add_r w x y : uN w (x + uN w y) = uN w (x + y).
Proof. unfold uN. apply Zplus_mod_idemp_r. Qed.
Lemma uN_sub_l w x y : uN w (uN w x - y) = uN w (x - y).
Proof. unfold uN. apply Zminus_mod_idemp_l. Qed.
Lemma uN_sub_r w x y : uN w (x - uN w y) = uN w (x - y).
Proof. unfold uN. apply Zminus_mod_idemp_r. Qed.
Lemma uN_mul_l w x y : uN w (uN w x * y) = uN w (x * y).
Proof. unfold uN. apply Zmult_mod_idemp_l. Qed.

Lemma uN_sub_add_1 w x y z : uN w (uN w x - y + z) = uN w (x - y + z).
Proof. replace (uN w x - y + z) with (uN w x + (z - y)) by lia. rewrite uN_add_l. f_equal; lia. Qed.
Lemma uN_sub_add_2 w x y z : uN w (x - uN w y + z) = uN w (x - y + z).
Proof. replace (x - uN w y + z) with (x + z - uN w y) by lia. rewrite uN_sub_r. f_equal; lia. Qed.

Lemma uN_add_add w x y z : uN w (x + (uN w y + z)) = uN w (x + (y + z)).
Proof. replace (x + (uN w y + z)) with (x + z + uN w y) by lia. rewrite uN_add_r. f_equal; lia. Qed.

(** Drop every inner reduction under an outer one. *)
Ltac push_uN :=
  repeat first [rewrite uN_add_r | rewrite uN_add_l | rewrite uN_sub_r | rewrite uN_sub_l | rewrite uN_mul_l].

Lemma write_loop_sums data a b :
  write_loop data (u16 a) (u16 b) = (u16 (a + sum_a data), u16 (b + sum_b data)).
Proof.
  revert a b. induction data as [|v data IH]; intros a b; cbn [write_loop].
  - simpl. by rewrite !Z.add_0_r.
  - rewrite uN_mul_l, uN_add_r, !uN_add_l, IH. cbn [sum_a foldr sum_b].
    f_equal; f_equal; unfold sum_a; lia.
Qed.

Lemma Write_sum r data : Sum (Write r data) = weak_sum data.
Proof.
  unfold Sum, Write. pose proof (write_loop_sums data 0 0) as H.
  change (u16 0) with 0 in H. rewrite H. done.
Qed.

Lemma sum_a_app u v : sum_a (u ++ v) = sum_a u + sum_a v.
Proof. induction u as [|c u IH]; [done|]. unfold sum_a in *. simpl. rewrite IH. lia. Qed.

Lemma sum_b_snoc w y : sum_b (w ++ [y]) = sum_b w + sum_a w + b2z y.
Proof.
  induction w as [|c w IH]; [simpl; lia|]. cbn [app sum_b]. rewrite IH.
  unfold sum_a. simpl. rewrite length_app. simpl. lia.
Qed.

Lemma Write_hashes r data :
  length (window r) = length data -> data <> [] -> blockSize r = zlen (window r) ->
  hashes (Write r data) data.
Proof.
  intros Hl Hne Hb. unfold hashes, Write. pose proof (write_loop_sums data 0 0) as H.
  change (u16 0) with 0 in H. rewrite H. cbn.
  rewrite Hl, Nat.sub_diag, firstn_all. simpl. rewrite !app_nil_r, drop_0, Hb, Hl.
  destruct data; simpl in *; [done|]. repeat split; try done; lia.
Qed.

(** Taking the oldest byte out of a ring buffer and putting a new one in. *)
Lemma ring_rotate (ring : bytes) (p : nat) out in_ :
  ring !! p = Some out ->
  exists w, drop p ring ++ take p ring = out :: w /\
    let p' := ((p + 1) mod length ring)%nat in
    drop p' (<[p := in_]> ring) ++ take p' (<[p := in_]> ring) = w ++ [in_].
Proof.
  intros Hp. pose proof (lookup_lt_Some _ _ _ Hp) as Hlt.
  exists (drop (S p) ring ++ take p ring). split; [by rewrite (drop_S _ _ _ Hp)|]. cbv zeta.
  rewrite insert_take_drop by done.
  destruct (decide (S p = length ring)) as [E|E].
  - replace ((p + 1) mod length ring)%nat with O
      by (rewrite Nat.add_1_r, E; symmetry; apply Nat.Div0.mod_same).
    rewrite drop_0, take_0, app_nil_r, (drop_ge ring (S p)) by lia. done.
  - rewrite Nat.mod_small, Nat.add_1_r by lia.
    assert (length (take p ring) = p) as Ht by (rewrite length_take; lia).
    assert (take p ring ++ in_ :: drop (S p) ring = (take p ring ++ [in_]) ++ drop (S p) ring) as ->
      by (by rewrite <- app_assoc).
    assert (S p = length (take p ring ++ [in_])) as Hl by (rewrite length_app, Ht; simpl; lia).
    rewrite drop_app_length', take_app_length' by done. by rewrite app_assoc.
Qed.

Lemma Roll_hashes {E} r x w in_ :
  hashes r (x :: w) -> exists r', Roll (E := E) r in_ = Ret r' /\ hashes r' (w ++ [in_]).
Proof.
  intros (Hne & Hbs & Hpos & Hw & Ha & Hb). unfold Roll.
  assert (Z.to_nat (pos r) < length (window r))%nat as Hlt by lia.
  destruct (lookup_lt_is_Some_2 _ _ Hlt) as [out Ho]. rewrite Ho.
  destruct (ring_rotate _ _ _ in_ Ho) as (w' & Hr & Hr'). rewrite Hw in Hr.
  injection Hr as -> ->. eexists. split; [done|]. unfold hashes. cbn [window blockSize pos ra rb].
  rewrite length_insert. split; [by destruct (window r), (Z.to_nat (pos r))|].
  split; [done|]. split; [apply Z.mod_pos_bound; lia|].
  split.
  { rewrite <- Hr'. cbv zeta.
    replace (Z.to_nat ((pos r + 1) mod blockSize r)) with
      ((Z.to_nat (pos r) + 1) mod length (window r))%nat; [done|].
    rewrite Hbs, Z2Nat.inj_mod, Nat2Z.id by lia. f_equal. lia. }
  assert (length w' + 1 = length (window r))%nat as Hlen.
  { apply (f_equal length) in Hw. rewrite length_app, length_drop, length_take in Hw.
    simpl in Hw. lia. }
  rewrite Ha, Hb, Hbs, sum_a_app, sum_b_snoc. cbn [sum_b sum_a foldr]. fold (sum_a w').
  push_uN. rewrite uN_sub_add_1, uN_sub_add_2, uN_add_add.
  split; [f_equal; unfold sum_a; simpl; lia|].
  f_equal. rewrite <- Hlen. unfold sum_a; simpl. lia.
Qed.

Lemma hashes_sum r w : hashes r w -> Sum r = weak_sum w.
Proof. intros (_ & _ & _ & _ & Ha & Hb). unfold Sum, weak_sum. by rewrite Ha, Hb. Qed.

Lemma hashes_length r w : hashes r w -> length w = length (window r).
Proof. intros (_ & _ & ? & Hw & _). rewrite <- Hw, length_app, length_drop, length_take. lia. Qed.

Lemma New_Write_hashes {E} w :
  w <> [] -> zlen w <= maxAlloc ->
  exists r, NewRollingHash (E := E) (zlen w) = Ret r /\ hashes (Write r w) w.
Proof.
  intros Hne Hl. unfold NewRollingHash. rewrite makeBytes_ok by lia.
  eexists. split; [done|]. apply Write_hashes; cbn; [| done |];
    rewrite length_replicate, ?Nat2Z.id; done.
Qed.

(** Rolling in a sequence of bytes. *)
Fixpoint Roll_all {E} (r : RollingHash) (ins : bytes) : outcome E RollingHash :=
  match ins with
  | [] => Ret r
  | c :: ins' => r' ← Roll r c; Roll_all r' ins'
  end.

Lemma Roll_all_hashes {E} r ins w :
  hashes r w ->
  exists r', Roll_all (E := E) r ins = Ret r' /\ hashes r' (drop (length ins) (w ++ ins)).
Proof.
  revert r w. induction ins as [|c ins IH]; intros r w Hr.
  - exists r. by rewrite app_nil_r, drop_0.
  - destruct w as [|x w]; [apply hashes_length in Hr as Hl; destruct Hr as (Hn & _); by destruct (window r)|].
    destruct (Roll_hashes (E := E) r x w c Hr) as (r1 & H1 & Hh1).
    destruct (IH r1 (w ++ [c]) Hh1) as (r2 & H2 & Hh2).
    exists r2. cbn [Roll_all]. rewrite H1. cbn [mbind outcome_bind]. split; [done|].
    rewrite <- app_assoc in Hh2. done.
Qed.

(** ** Properties *)

(** Rolling a window forward over any number of bytes gives exactly the
    checksum a fresh hash computes from the window it has reached: the sums,
    reduced to 16 bits at every step, never drift from the direct ones, and
    the ring buffer always has a byte to take out. *)
Theorem Roll_is_rehash {E} (data : bytes) (n : nat) :
  (0 < n <= length data)%nat -> Z.of_nat n <= maxAlloc ->
  exists r0 r, NewRollingHash (E := E) (Z.of_nat n) = Ret r0 /\
    Roll_all (E := E) (Write r0 (take n data)) (drop n data) = Ret r /\
    Sum r = Sum (Write r0 (drop (length data - n) data)).
Proof.
  intros Hn Hm. assert (length (take n data) = n) as Hl by (rewrite length_take; lia).
  destruct (New_Write_hashes (E := E) (take n data)) as (r0 & H0 & Hh); rewrite ?Hl; [|lia|].
  { intros H. apply (f_equal length) in H. simpl in H. lia. }
  rewrite Hl in H0. destruct (Roll_all_hashes (E := E) _ (drop n data) _ Hh) as (r & Hr & Hhr).
  exists r0, r. split; [done|]. split; [done|].
  rewrite (hashes_sum _ _ Hhr), Write_sum, take_drop, length_drop. done.
Qed.

Lemma Roll_is_rehash_witness :
  weak_sum (gostr "yncthing") = 259916644 /\
  exists r0 r, NewRollingHash (E := unit) 8 = Ret r0 /\
    Roll_all (E := unit) (Write r0 (gostr "syncthin")) (gostr "g") = Ret r /\
    Sum r = Sum (Write r0 (gostr "yncthing")).
Proof.
  split; [vm_compute; reflexivity|].
  apply (Roll_is_rehash (E := unit) (gostr "syncthing") 8); simpl; [lia|].
  unfold maxAlloc. lia.
Defined.
