(* ===== verification/RsyncSignature.v ===== *)
(** * Rsync block sizes and signatures (lib/rsync/operation.go, engine.go)

    The data of the delta transfer, the choice of the block size, and the
    signature of a base file: the weak and strong hash of each of its blocks. *)
From Stdlib Require Import ZArith List Lia.
From Stdlib Require Import Strings.Byte.
From stdpp Require Import base list option gmap numbers tactics.
From S2P Require Import Prelude GoLib RollingHash.

#[local] Open Scope Z_scope.

(** ** Data *)

Definition minBlockSize : Z := 1024.
Definition maxBlockSize : Z := 64 * 1024.
Definition maxDataOperationSize : Z := 1024 * 1024.

(** [OperationType] is an int; [OpBlock] and [OpData] are its two values. *)
Definition OpBlock : Z := 0.
Definition OpData : Z := 1.
Record Operation := { Type_ : Z; BlockStart : Z; BlockCount : Z; Data : bytes }.
Record BlockHash := { WeakHash : Z; StrongHash : bytes }.
Record Signature := { BlockSize : Z; LastBlockSize : Z; Hashes : list BlockHash }.

(** The errors of the package. *)
Inductive rsync_err :=
| EReader (code : Z)      (* the io.Reader failed *)
| EHandler (code : Z)     (* the operation handler or the writer failed *)
| ENilSignature | EZeroBlockSize | ELastBlockTooLarge | EZeroLastBlock
| EZeroBlockCount | EOutOfRange | EUnknownOperation
| ESeek | EUnexpectedEOF
| ECorruptSignature | ECorruptDelta.

#[export] Instance Operation_eq_dec : EqDecision Operation.
Proof. solve_decision. Defined.
#[export] Instance BlockHash_eq_dec : EqDecision BlockHash.
Proof. solve_decision. Defined.
#[export] Instance Signature_eq_dec : EqDecision Signature.
Proof. solve_decision. Defined.
#[export] Instance rsync_err_eq_dec : EqDecision rsync_err.
Proof. solve_decision. Defined.

(** ** Block size *)

(** [bits.Len64] *)
Definition Len64 (n : Z) : Z := if n =? 0 then 0 else Z.log2 n + 1.

(** The Newton loop of [isqrt]. *)
Fixpoint isqrt_loop (fuel : nat) (n x : Z) : option Z :=
  match fuel with
  | O => None
  | S fuel =>
      let y := u64 (x + n / x) / 2 in
      if x <=? y then Some x else isqrt_loop fuel n y
  end.
Definition isqrt (n : Z) : Z :=
  if n =? 0 then 0
  else default 0 (isqrt_loop 64 n (u64 (Z.shiftl 1 ((Len64 n + 1) / 2)))).

(** [OptimalBlockSizeForBaseLength] *)
Definition OptimalBlockSizeForBaseLength (length : Z) : Z :=
  if length =? 0 then minBlockSize
  else if maxUint64 / 24 <? length then maxBlockSize
  else
    let optimal := isqrt (u64 (length * 24)) in
    if optimal <? minBlockSize then minBlockSize
    else if maxBlockSize <? optimal then maxBlockSize
    else optimal.

(** ** Signatures *)

Section Signatures.
(** [crypto/sha1]'s Sum; the theorems say which of its collisions matter. *)
Context (sha1 : bytes -> bytes).

(** The weak checksum of a block: a fresh hash of the block's own length. *)
Definition blockWeak (block : bytes) : outcome rsync_err Z :=
  rh ← NewRollingHash (zlen block); Ret (Sum (Write rh block)).

(** The loop of [Engine.GenerateSignature]. *)
Fixpoint signature_loop (fuel : nat) (r : Reader rsync_err) (sig : Signature) :
  outcome rsync_err Signature :=
  match fuel with
  | O => OutOfFuel
  | S fuel =>
      let '(block, st, r') := readFull r (BlockSize sig) in
      sig' ← (if 0 <? zlen block then
                weak ← blockWeak block;
                Ret {| BlockSize := BlockSize sig; LastBlockSize := zlen block;
                       Hashes := Hashes sig ++ [{| WeakHash := weak; StrongHash := sha1 block |}] |}
              else Ret sig);
      match st with
      | ReadEOF | ReadUnexpectedEOF => Ret sig'
      | ReadErr e => Err e
      | ReadOK => signature_loop fuel r' sig'
      end
  end.
Definition GenerateSignature (r : Reader rsync_err) (fileSize : Z) : outcome rsync_err Signature :=
  let blockSize := OptimalBlockSizeForBaseLength fileSize in
  sig ← signature_loop (S (S (length (rd_data r)))) r
          {| BlockSize := blockSize; LastBlockSize := 0; Hashes := [] |};
  Ret (if is_nil (Hashes sig)
       then {| BlockSize := BlockSize sig; LastBlockSize := 0; Hashes := Hashes sig |} else sig).

(** [validateSignature]; a nil pointer is [None]. *)
Definition validateSignature (sig : option Signature) : outcome rsync_err Signature :=
  match sig with
  | None => Err ENilSignature
  | Some sig =>
      if BlockSize sig =? 0 then Err EZeroBlockSize
      else if BlockSize sig <? LastBlockSize sig then Err ELastBlockTooLarge
      else if (negb (is_nil (Hashes sig))) && (LastBlockSize sig =? 0) then Err EZeroLastBlock
      else Ret sig
  end.

(** [blockLength] *)
Definition blockLength (sig : Signature) (index : nat) : Z :=
  if Z.of_nat index =? zlen (Hashes sig) - 1 then LastBlockSize sig else BlockSize sig.

(** ** Specification

    Block [i] of a base file, the number of its blocks, and what its
    signature is. *)
Definition block (bs : Z) (base : bytes) (i : nat) : bytes :=
  take (Z.to_nat bs) (drop (i * Z.to_nat bs) base).
Definition num_blocks (bs : Z) (base : bytes) : nat :=
  Z.to_nat ((zlen base + bs - 1) / bs).
Definition hash_of (blk : bytes) : BlockHash := {| WeakHash := weak_sum blk; StrongHash := sha1 blk |}.

Definition signs (sig : Signature) (base : bytes) : Prop :=
  minBlockSize <= BlockSize sig <= maxBlockSize /\
  Hashes sig = map (fun i => hash_of (block (BlockSize sig) base i)) (seq 0 (num_blocks (BlockSize sig) base)) /\
  (forall i, (i < num_blocks (BlockSize sig) base)%nat ->
     zlen (block (BlockSize sig) base i) = blockLength sig i) /\
  (base = [] -> LastBlockSize sig = 0).
End Signatures.

(** ** Block size: lemmas *)

Lemma isqrt_step n x :
  0 <= n < 2 ^ 64 -> Z.sqrt n < x <= 2 ^ 33 ->
  let y := u64 (x + n / x) / 2 in
  Z.sqrt n <= y < x /\ 2 * (y - Z.sqrt n) <= x - Z.sqrt n.
Proof.
  intros Hn [Hx Hx2]. cbv zeta. pose proof (Z.sqrt_spec n ltac:(lia)) as Hs; cbv zeta in Hs.
  pose proof (Z.sqrt_nonneg n). set (s := Z.sqrt n) in *.
  assert (Z.succ s * Z.succ s <= x * Z.succ s) by (apply Z.mul_le_mono_nonneg_r; lia).
  assert (n / x <= s) as Hq by (apply Z.lt_succ_r, Z.div_lt_upper_bound; lia).
  assert (0 <= n / x) by (apply Z.div_pos; lia).
  assert (2 * s <= x + n / x) as Ham.
  { assert (2 * s - x <= n / x); [|lia].
    pose proof (Z.square_nonneg (x - s)). apply Z.div_le_lower_bound; lia. }
  rewrite uN_small by lia.
  pose proof (Z.div_mod (x + n / x) 2 ltac:(lia)). pose proof (Z.mod_pos_bound (x + n / x) 2 ltac:(lia)).
  lia.
Qed.

Lemma isqrt_loop_correct fuel n x (f : nat) :
  0 < n < 2 ^ 64 -> Z.sqrt n <= x <= 2 ^ 33 -> x - Z.sqrt n < 2 ^ Z.of_nat f -> (f < fuel)%nat ->
  isqrt_loop fuel n x = Some (Z.sqrt n).
Proof.
  revert x f. induction fuel as [|fuel IH]; intros x f Hn Hx Hf Hlt; [lia|].
  assert (0 < Z.sqrt n) by (apply Z.sqrt_pos; lia).
  cbn [isqrt_loop]. destruct (Z.eq_dec x (Z.sqrt n)) as [->|Hne].
  - pose proof (Z.sqrt_spec n ltac:(lia)) as Hs; cbv zeta in Hs. set (s := Z.sqrt n) in *.
    assert (s <= n / s) by (apply Z.div_le_lower_bound; lia).
    assert (n / s < s + 3) by (apply Z.div_lt_upper_bound; nia).
    rewrite uN_small by lia.
    assert (s <= (s + n / s) / 2) by (apply Z.div_le_lower_bound; lia).
    by rewrite (proj2 (Z.leb_le _ _)).
  - destruct (isqrt_step n x ltac:(lia) ltac:(lia)) as [Hy Hd]. cbv zeta in Hy, Hd.
    rewrite (proj2 (Z.leb_gt _ _)) by lia.
    destruct f as [|f]; [simpl in Hf; lia|].
    rewrite Nat2Z.inj_succ, Z.pow_succ_r in Hf by lia. apply (IH _ f); lia.
Qed.

Lemma isqrt_sqrt n : 0 <= n < 2 ^ 64 -> isqrt n = Z.sqrt n.
Proof.
  intros Hn. unfold isqrt, Len64. destruct (Z.eqb_spec n 0) as [->|Hne]; [done|].
  pose proof (Z.log2_nonneg n). assert (Z.log2 n < 64) by (apply Z.log2_lt_pow2; lia).
  pose proof (Z.log2_spec n ltac:(lia)) as Hl.
  set (k := (Z.log2 n + 1 + 1) / 2).
  assert (Z.log2 n < 2 * k <= Z.log2 n + 2) as Hk.
  { unfold k. pose proof (Z.div_mod (Z.log2 n + 1 + 1) 2 ltac:(lia)).
    pose proof (Z.mod_pos_bound (Z.log2 n + 1 + 1) 2 ltac:(lia)). lia. }
  rewrite Z.shiftl_1_l.
  assert (2 ^ k <= 2 ^ 33) by (apply Z.pow_le_mono_r; lia).
  assert (0 < 2 ^ k) by (apply Z.pow_pos_nonneg; lia).
  rewrite uN_small by lia.
  assert (n < 2 ^ k * 2 ^ k).
  { rewrite <- Z.pow_add_r by lia. eapply Z.lt_le_trans; [apply Hl|]. apply Z.pow_le_mono_r; lia. }
  assert (Z.sqrt n < 2 ^ k) by (apply Z.sqrt_lt_square; lia).
  pose proof (Z.sqrt_nonneg n).
  rewrite (isqrt_loop_correct 64 n (2 ^ k) 33); [done|lia|lia| |lia].
  change (Z.of_nat 33) with 33. assert (0 < Z.sqrt n) by (apply Z.sqrt_pos; lia). lia.
Qed.

Lemma OptimalBlockSize_range length :
  minBlockSize <= OptimalBlockSizeForBaseLength length <= maxBlockSize.
Proof.
  unfold OptimalBlockSizeForBaseLength, minBlockSize, maxBlockSize.
  repeat case_bool; zbool; lia.
Qed.

(** ** Blocks *)

Lemma block_nil bs i : block bs [] i = [].
Proof. unfold block. by rewrite drop_nil, take_nil. Qed.

Lemma num_blocks_nil bs : 0 < bs -> num_blocks bs [] = O.
Proof. intros H. unfold num_blocks. cbn [length]. rewrite Z.div_small; [done|lia]. Qed.

Lemma block_S bs base i :
  block bs base (S i) = block bs (drop (Z.to_nat bs) base) i.
Proof. unfold block. rewrite drop_drop. do 2 f_equal. Qed.

Lemma num_blocks_S bs base :
  0 < bs -> base <> [] -> num_blocks bs base = S (num_blocks bs (drop (Z.to_nat bs) base)).
Proof.
  intros Hb Hne. unfold num_blocks. rewrite length_drop.
  assert (0 < zlen base) by (destruct base; simpl; [done|lia]).
  destruct (Z.le_gt_cases (zlen base) bs) as [Hle|Hgt].
  - replace (Z.of_nat (length base - Z.to_nat bs)) with 0 by lia.
    rewrite (Z.div_small (0 + bs - 1)) by lia.
    replace (zlen base + bs - 1) with (1 * bs + (zlen base - 1)) by lia.
    by rewrite Z.div_add_l, Z.div_small by lia.
  - replace (zlen base + bs - 1) with (1 * bs + (Z.of_nat (length base - Z.to_nat bs) + bs - 1)) by lia.
    rewrite Z.div_add_l by lia. rewrite <- Z2Nat.inj_succ; [f_equal; lia|].
    apply Z.div_pos; lia.
Qed.

Lemma length_block bs base i :
  0 < bs -> zlen (block bs base i) = Z.max 0 (Z.min bs (zlen base - Z.of_nat i * bs)).
Proof. intros Hb. unfold block. rewrite length_take, length_drop. nia. Qed.

Lemma num_blocks_bound bs base i :
  0 < bs -> (i < num_blocks bs base)%nat <-> Z.of_nat i * bs < zlen base.
Proof.
  intros Hb. unfold num_blocks.
  pose proof (Z.div_mod (zlen base + bs - 1) bs ltac:(lia)).
  pose proof (Z.mod_pos_bound (zlen base + bs - 1) bs Hb).
  assert (0 <= (zlen base + bs - 1) / bs) by (apply Z.div_pos; lia).
  split; intros; nia.
Qed.

(** Every block but the last is full, and no block is empty. *)
Lemma length_block_lt bs base i :
  0 < bs -> (S i < num_blocks bs base)%nat -> zlen (block bs base i) = bs.
Proof.
  intros Hb Hi. apply num_blocks_bound in Hi; [|done]. rewrite length_block by done. nia.
Qed.

Lemma block_nonempty bs base i :
  0 < bs -> (i < num_blocks bs base)%nat -> 0 < zlen (block bs base i) <= bs.
Proof.
  intros Hb Hi. apply num_blocks_bound in Hi; [|done]. rewrite length_block by done. nia.
Qed.

(** A file is the concatenation of its blocks. *)
Lemma concat_blocks bs base :
  0 < bs -> concat (map (block bs base) (seq 0 (num_blocks bs base))) = base.
Proof.
  intros Hb. remember (length base) as n eqn:Hn. revert base Hn.
  induction n as [n IH] using lt_wf_ind. intros base ->.
  destruct (decide (base = [])) as [->|Hne]; [by rewrite num_blocks_nil|].
  rewrite num_blocks_S by done. cbn [seq map concat].
  rewrite <- seq_shift, map_map, (map_ext _ (block bs (drop (Z.to_nat bs) base)))
    by (intros; apply block_S).
  rewrite (IH (length (drop (Z.to_nat bs) base))); [|rewrite length_drop; destruct base; simpl in *; [done|lia]|done].
  unfold block. simpl. by rewrite drop_0, take_drop.
Qed.

Lemma blockWeak_eq blk :
  zlen blk <= maxAlloc -> blockWeak blk = Ret (weak_sum blk).
Proof.
  intros Hl. unfold blockWeak, NewRollingHash. rewrite makeBytes_ok by lia.
  cbn [mbind outcome_bind]. by rewrite Write_sum.
Qed.

Section SignatureLemmas.
Context (sha1 : bytes -> bytes).

Lemma signature_loop_spec fuel d sig :
  0 < BlockSize sig <= maxBlockSize -> (length d + 1 < fuel)%nat ->
  signature_loop sha1 fuel (newReader d) sig = Ret
    {| BlockSize := BlockSize sig;
       LastBlockSize := if is_nil d then LastBlockSize sig
                        else zlen (block (BlockSize sig) d (num_blocks (BlockSize sig) d - 1));
       Hashes := Hashes sig ++ map (fun i => hash_of sha1 (block (BlockSize sig) d i))
                                   (seq 0 (num_blocks (BlockSize sig) d)) |}.
Proof.
  revert d sig. induction fuel as [|fuel IH]; intros d sig Hb Hf; [lia|].
  unfold maxBlockSize in Hb. cbn [signature_loop].
  destruct (Z.le_gt_cases (BlockSize sig) (zlen d)) as [Hle|Hgt].
  - rewrite readFull_full by done. cbn [rd_data newReader]. set (bs := BlockSize sig) in *.
    assert (zlen (take (Z.to_nat bs) d) = bs) as Hl by (rewrite length_take; lia).
    rewrite Hl, (proj2 (Z.ltb_lt 0 bs)), blockWeak_eq by (unfold maxAlloc; lia).
    cbn [mbind outcome_bind rd_err].
    change {| rd_data := drop (Z.to_nat bs) d; rd_err := rd_err (newReader d) |} with
      (newReader (E := rsync_err) (drop (Z.to_nat bs) d)).
    rewrite IH; [|done|rewrite length_drop; lia]. cbn [BlockSize LastBlockSize Hashes].
    assert (d <> []) as Hne by (intros ->; simpl in Hle; lia).
    rewrite (num_blocks_S bs d), <- app_assoc by (done || lia).
    cbn [seq map app]. rewrite <- seq_shift, map_map. do 2 f_equal.
    + destruct d as [|x d]; [done|]. cbn [is_nil].
      destruct (drop (Z.to_nat bs) (x :: d)) as [|y r] eqn:Hd; cbn [is_nil].
      * rewrite num_blocks_nil by lia. unfold block. simpl (S 0 - 1)%nat. simpl (0 * _)%nat.
        by rewrite drop_0.
      * rewrite <- Hd. pose proof (num_blocks_S bs (drop (Z.to_nat bs) (x :: d)) ltac:(lia)) as Hn.
        rewrite Hn by (by rewrite Hd).
        match goal with |- context [(S (S ?n) - 1)%nat] => replace (S (S n) - 1)%nat with (S n) by lia end.
        rewrite (block_S bs (x :: d)). do 3 f_equal. lia.
    + unfold block at 2. simpl (0 * _)%nat. rewrite drop_0. do 2 f_equal.
      apply map_ext. intros i. by rewrite block_S.
  - destruct (readFull_short (newReader (E := rsync_err) d) (BlockSize sig)) as (st & -> & Hst); [done..|].
    cbn [rd_data newReader]. destruct d as [|x d].
    { cbn [is_nil length Z.of_nat]. rewrite num_blocks_nil, app_nil_r by lia. simpl.
      destruct sig, st; done. }
    assert (drop (Z.to_nat (BlockSize sig)) (x :: d) = []) as Hd by (apply drop_ge; lia).
    assert (block (BlockSize sig) (x :: d) 0 = x :: d) as Hb0.
    { unfold block. simpl (0 * _)%nat. rewrite drop_0. apply take_ge. lia. }
    rewrite num_blocks_S, Hd, num_blocks_nil by (done || lia).
    cbn [Nat.sub seq map is_nil]. rewrite Hb0, (proj2 (Z.ltb_lt 0 _)) by (simpl; lia).
    rewrite blockWeak_eq by (unfold maxAlloc; lia). cbn. by destruct st.
Qed.

(** The signature of a file describes its blocks. *)
Lemma GenerateSignature_signs base :
  exists sig, GenerateSignature sha1 (newReader base) (zlen base) = Ret sig /\ signs sha1 sig base.
Proof.
  unfold GenerateSignature. pose proof (OptimalBlockSize_range (zlen base)) as Hr.
  set (bs := OptimalBlockSizeForBaseLength (zlen base)) in *. unfold minBlockSize in Hr.
  rewrite signature_loop_spec; cbn [BlockSize rd_data newReader]; [|lia|lia].
  cbn [mbind outcome_bind BlockSize LastBlockSize Hashes app]. eexists. split; [done|].
  assert (is_nil (map (fun i => hash_of sha1 (block bs base i)) (seq 0 (num_blocks bs base))) = is_nil base) as ->.
  { destruct base; [by rewrite num_blocks_nil by lia|]. rewrite num_blocks_S by (done || lia). done. }
  unfold signs, minBlockSize.
  destruct base as [|x d]; cbn [is_nil BlockSize LastBlockSize Hashes].
  - rewrite num_blocks_nil by lia. repeat split; lia.
  - repeat split; try lia; [|done]. intros i Hi. unfold blockLength.
    cbn [BlockSize LastBlockSize Hashes]. rewrite length_map, length_seq.
    destruct (Z.eqb_spec (Z.of_nat i) (Z.of_nat (num_blocks bs (x :: d)) - 1)).
    + do 3 f_equal. lia.
    + apply length_block_lt; lia.
Qed.
End SignatureLemmas.
