(* ===== verification/RsyncEngine.v ===== *)
(** * Rsync delta and patch (lib/rsync/engine.go)

    The streaming scan of [Deltify] with its sliding window, its pending
    literal bytes and its pending block operation, and [Patch]. *)
From Stdlib Require Import ZArith List Lia.
From Stdlib Require Import Strings.Byte.
From stdpp Require Import base list option gmap numbers tactics.
From S2P Require Import Prelude GoLib RollingHash RsyncSignature.

#[local] Open Scope Z_scope.

Definition deltaReadChunk : Z := 64 * 1024.

(** ** The sliding window *)

(** [deltaWindow]: the buffer, its capacity, the cursor and the reader. *)
Record deltaWindow :=
  { wr : Reader rsync_err; buf : bytes; bcap : Z; wpos : nat; eof : bool }.
Definition newWindow (r : Reader rsync_err) : deltaWindow :=
  {| wr := r; buf := []; bcap := 0; wpos := 0; eof := false |}.

Definition avail (w : deltaWindow) : Z := zlen (buf w) - Z.of_nat (wpos w).

(** One iteration of the loop of [ensure]: compact, grow if the capacity does
    not hold [want] more bytes, and read. *)
Definition ensure_step (w : deltaWindow) (n : Z) : deltaWindow * outcome rsync_err unit :=
  let '(buf1, pos1) := if (0 <? wpos w)%nat then (drop (wpos w) (buf w), O) else (buf w, wpos w) in
  let want := Z.max n deltaReadChunk in
  let start := zlen buf1 in
  let grow := bcap w - start <? want in
  let w1 := {| wr := wr w; buf := buf1; bcap := if grow then start + want else bcap w;
               wpos := pos1; eof := eof w |} in
  if grow && (maxAlloc <? start + want) then (w1, Panic)
  else
    let '(got, st, r') := readFull (wr w) want in
    let w2 := {| wr := r'; buf := buf1 ++ got; bcap := bcap w1; wpos := pos1;
                 eof := eof w || is_eof st |} in
    (w2, match st with ReadErr e => Err e | _ => Ret tt end).
Fixpoint ensure_loop (fuel : nat) (n : Z) : SM deltaWindow rsync_err Z := fun w =>
  match fuel with
  | O => (w, OutOfFuel)
  | S fuel =>
      if (avail w <? n) && negb (eof w) then
        match ensure_step w n with
        | (w', Ret _) => ensure_loop fuel n w'
        | (w', Err e) => (w', Err e)
        | (w', Panic) => (w', Panic)
        | (w', OutOfFuel) => (w', OutOfFuel)
        end
      else (w, Ret (avail w))
  end.
(** [deltaWindow.ensure]; two rounds always do. *)
Definition ensure : Z -> SM deltaWindow rsync_err Z := ensure_loop 2.

(** [deltaWindow.peek], called with at most [avail] bytes, and [advance]. *)
Definition peek (w : deltaWindow) (n : Z) : bytes := take (Z.to_nat n) (drop (wpos w) (buf w)).
Definition advance (w : deltaWindow) (n : Z) : deltaWindow :=
  {| wr := wr w; buf := buf w; bcap := bcap w; wpos := (wpos w + Z.to_nat n)%nat; eof := eof w |}.

(** ** Matching *)

Section Engine.
Context (sha1 : bytes -> bytes).

(** The index from weak hashes to the blocks that have them, in order. *)
Definition weakMap_of (hashes : list BlockHash) : gmap Z (list nat) :=
  foldl (fun m '(i, h) => <[WeakHash h := default [] (m !! WeakHash h) ++ [i]]> m)
    ∅ (imap (fun i h => (i, h)) hashes).

(** [Engine.matchBlockWithWeak] *)
Fixpoint match_candidates (sig : Signature) (data strong : bytes) (candidates : list nat) : option nat :=
  match candidates with
  | [] => None
  | idx :: rest =>
      if (blockLength sig idx =? zlen data) &&
         bool_decide (StrongHash <$> Hashes sig !! idx = Some strong)
      then Some idx else match_candidates sig data strong rest
  end.
Definition matchBlockWithWeak (data : bytes) (weak : Z) (weakMap : gmap Z (list nat))
    (sig : Signature) : option nat :=
  match weakMap !! weak with
  | None => None
  | Some candidates => match_candidates sig data (sha1 data) candidates
  end.
(** [Engine.matchBlock] *)
Definition matchBlock (data : bytes) (weakMap : gmap Z (list nat)) (sig : Signature) :
    outcome rsync_err (option nat) :=
  weak ← blockWeak data; Ret (matchBlockWithWeak data weak weakMap sig).

(** ** Emitting operations *)

(** [opHandler] is any callback; its state is [H]. *)
Context {H : Type} (opHandler : Operation -> SM H rsync_err unit).

Record delta_state :=
  { pending : bytes; pendingBlock : option Operation; hst : H; win : deltaWindow }.

Definition set_pending (p : bytes) (s : delta_state) : delta_state :=
  {| pending := p; pendingBlock := pendingBlock s; hst := hst s; win := win s |}.
Definition set_pendingBlock (b : option Operation) (s : delta_state) : delta_state :=
  {| pending := pending s; pendingBlock := b; hst := hst s; win := win s |}.
Definition set_win (w : deltaWindow) (s : delta_state) : delta_state :=
  {| pending := pending s; pendingBlock := pendingBlock s; hst := hst s; win := w |}.
Definition set_hst (h : H) (s : delta_state) : delta_state :=
  {| pending := pending s; pendingBlock := pendingBlock s; hst := h; win := win s |}.

#[local] Abbreviation DM := (SM delta_state rsync_err).

Definition handle (op : Operation) : DM unit := fun s =>
  let '(h', r) := opHandler op (hst s) in (set_hst h' s, r).

(** A Go function literal that ends in [x = nil; return err]: the state is
    reset whether or not the call failed. *)
Definition finally {A} (m : DM A) (f : delta_state -> delta_state) : DM A := fun s =>
  let '(s', r) := m s in (f s', r).

Definition flushBlock : DM unit := fun s =>
  match pendingBlock s with
  | None => (s, Ret tt)
  | Some op => finally (handle op) (set_pendingBlock None) s
  end.

Definition dataOp (d : bytes) : Operation := {| Type_ := OpData; BlockStart := 0; BlockCount := 0; Data := d |}.
(** The loop of [emitData]: at most a megabyte per operation. *)
Fixpoint emit_chunks (fuel : nat) (data : bytes) : DM unit :=
  match fuel with
  | O => fun s => (s, OutOfFuel)
  | S fuel =>
      match data with
      | [] => mret tt
      | _ =>
          let n := if maxDataOperationSize <? zlen data then maxDataOperationSize else zlen data in
          handle (dataOp (take (Z.to_nat n) data)) ≫= fun _ =>
          emit_chunks fuel (drop (Z.to_nat n) data)
      end
  end.
Definition emitData (data : bytes) : DM unit :=
  flushBlock ≫= fun _ => emit_chunks (S (length data)) data.

Definition flushPending : DM unit := fun s =>
  if is_nil (pending s) then (s, Ret tt)
  else finally (emitData (pending s)) (set_pending []) s.

Definition blockOp (start count : Z) : Operation :=
  {| Type_ := OpBlock; BlockStart := start; BlockCount := count; Data := [] |}.
(** [emitBlock]: extend the pending run of blocks or start a new one. *)
Definition startBlock (blockIndex : nat) : DM unit :=
  flushBlock ≫= fun _ => smodify (set_pendingBlock (Some (blockOp (Z.of_nat blockIndex) 1))).
Definition extendBlock (blockIndex : nat) : DM unit := fun s =>
  match pendingBlock s with
  | Some op =>
      if u64 (BlockStart op + BlockCount op) =? Z.of_nat blockIndex then
        (set_pendingBlock (Some {| Type_ := Type_ op; BlockStart := BlockStart op;
           BlockCount := u64 (BlockCount op + 1); Data := Data op |}) s, Ret tt)
      else startBlock blockIndex s
  | None => startBlock blockIndex s
  end.
Definition emitBlock (blockIndex : nat) : DM unit :=
  flushPending ≫= fun _ => extendBlock blockIndex.

Definition addLiteral (b : bytes) : DM unit := fun s =>
  let s' := set_pending (pending s ++ b) s in
  if maxDataOperationSize <=? zlen (pending s') then flushPending s' else (s', Ret tt).

(** ** The scan *)

Definition win_ensure (n : Z) : DM Z := fun s =>
  let '(w', r) := ensure n (win s) in (set_win w' s, r).
Definition win_peek (n : Z) : DM bytes := fun s => (s, Ret (peek (win s) n)).
Definition win_advance (n : Z) : DM unit := fun s => (set_win (advance (win s) n) s, Ret tt).

Section Scan.
Context (weakMap : gmap Z (list nat)) (sig : Signature).
Let blockSize := i64 (BlockSize sig).
Let lastSize := i64 (LastBlockSize sig).
Let shortLast := (0 <? lastSize) && (lastSize <? blockSize).

(** The inner loop: slide a full window byte by byte until a block matches or
    less than a block is left. *)
Fixpoint inner_loop (fuel : nat) (rh : RollingHash) : DM unit :=
  match fuel with
  | O => fun s => (s, OutOfFuel)
  | S fuel =>
      w ← win_peek blockSize;
      match matchBlockWithWeak w (Sum rh) weakMap sig with
      | Some idx => emitBlock idx ≫= fun _ => win_advance blockSize
      | None =>
          m ← (if shortLast then
                 l ← win_peek lastSize; slift (matchBlock l weakMap sig)
               else mret None);
          match m with
          | Some idx => emitBlock idx ≫= fun _ => win_advance lastSize
          | None =>
              b ← win_peek 1;
              addLiteral b ≫= fun _ => win_advance 1 ≫= fun _ =>
              a ← win_ensure blockSize;
              if a <? blockSize then mret tt
              else
                w ← win_peek blockSize;
                rh' ← slift (match w !! Z.to_nat (blockSize - 1) with Some c => Roll rh c | None => Panic end);
                inner_loop fuel rh'
          end
      end
  end.

(** The outer loop; the tail shorter than a block is matched against the short
    last block of the base or becomes literal data. *)
Fixpoint outer_loop (fuel : nat) (ifuel : nat) : DM unit :=
  match fuel with
  | O => fun s => (s, OutOfFuel)
  | S fuel =>
      a ← win_ensure blockSize;
      if a =? 0 then mret tt
      else if a <? blockSize then
        tail ← win_peek a;
        m ← (if shortLast && (lastSize <=? a)
             then slift (matchBlock (take (Z.to_nat lastSize) tail) weakMap sig)
             else mret None);
        match m with
        | Some idx => emitBlock idx ≫= fun _ => win_advance lastSize ≫= fun _ => outer_loop fuel ifuel
        | None => addLiteral tail ≫= fun _ => win_advance a ≫= fun _ => outer_loop fuel ifuel
        end
      else
        rh ← slift (NewRollingHash blockSize);
        w ← win_peek blockSize;
        inner_loop ifuel (Write rh w) ≫= fun _ => outer_loop fuel ifuel
  end.
End Scan.

(** [Engine.emitAllAsData] *)
Fixpoint emitAllAsData (fuel : nat) (r : Reader rsync_err) : SM H rsync_err unit :=
  match fuel with
  | O => fun h => (h, OutOfFuel)
  | S fuel =>
      let '(got, st, r') := readFull r maxDataOperationSize in
      (if 0 <? zlen got then opHandler (dataOp got) else mret tt) ≫= fun _ =>
      match st with
      | ReadEOF | ReadUnexpectedEOF => mret tt
      | ReadErr e => sfail e
      | ReadOK => emitAllAsData fuel r'
      end
  end.

(** [Engine.Deltify]: the handler's final state and the error. *)
Definition Deltify (reader : Reader rsync_err) (sig : option Signature) (h : H) : H * outcome rsync_err unit :=
  match validateSignature sig with
  | Ret sig =>
      if is_nil (Hashes sig) then emitAllAsData (S (S (length (rd_data reader)))) reader h
      else
        let fuel := S (length (rd_data reader)) in
        let s0 := {| pending := []; pendingBlock := None; hst := h; win := newWindow reader |} in
        let '(s, r) := (outer_loop (weakMap_of (Hashes sig)) sig fuel fuel ≫= fun _ =>
                        flushPending ≫= fun _ => flushBlock) s0 in
        (hst s, r)
  | Err e => (h, Err e)
  | Panic => (h, Panic)
  | OutOfFuel => (h, OutOfFuel)
  end.
End Engine.

(** ** Patch *)

Section Patch.
(** [output] is any io.Writer; its state is [O]. *)
Context {O : Type} (write : bytes -> SM O rsync_err unit).

(** [base.Seek(offset, io.SeekStart)] followed by [io.ReadFull(base, buf[:size])]
    on an in-memory base. *)
Definition readAt (base : bytes) (offset size : Z) : outcome rsync_err bytes :=
  if offset <? 0 then Err ESeek
  else
    let '(got, st, _) := readFull (newReader (drop (Z.to_nat offset) base)) size in
    match st with
    | ReadOK => Ret got
    | ReadErr e => Err e
    | _ => Err EUnexpectedEOF
    end.

(** The block loop of one operation: [count] blocks from [blockIndex] on. *)
Fixpoint patch_blocks (count : nat) (base : bytes) (blockSize blockIndex : Z) : SM O rsync_err unit :=
  match count with
  | 0%nat => mret tt
  | S count =>
      let offset := i64 (u64 (blockIndex * blockSize)) in
      let remaining := u64 (u64 (zlen base) - u64 offset) in
      let size := if remaining <? blockSize then remaining else blockSize in
      got ← slift (readAt base offset size);
      write got ≫= fun _ =>
      patch_blocks count base blockSize (u64 (blockIndex + 1))
  end.

Fixpoint patch_ops (ops : list Operation) (base : bytes) (blockSize blockCount : Z) : SM O rsync_err unit :=
  match ops with
  | [] => mret tt
  | op :: ops =>
      (if Type_ op =? OpData then write (Data op)
       else if Type_ op =? OpBlock then
         if BlockCount op =? 0 then sfail EZeroBlockCount
         else if (blockCount <=? BlockStart op) || (u64 (blockCount - BlockStart op) <? BlockCount op)
         then sfail EOutOfRange
         else patch_blocks (Z.to_nat (BlockCount op)) base blockSize (BlockStart op)
       else sfail EUnknownOperation) ≫= fun _ =>
      patch_ops ops base blockSize blockCount
  end.

(** [Engine.Patch] with an engine of [bufferSize] bytes of buffer. *)
Definition Patch (bufferSize : Z) (base : bytes) (ops : list Operation) (blockSize : Z) : SM O rsync_err unit :=
  if blockSize =? 0 then sfail EZeroBlockSize
  else
    let blockCount :=
      if 0 <? zlen base then u64 (u64 (zlen base) + blockSize - 1) / blockSize else 0 in
    slift (if bufferSize <? blockSize then makeBytes blockSize else Ret []) ≫= fun _ =>
    patch_ops ops base blockSize blockCount.
End Patch.
