(* ===== verification/RsyncProofs.v ===== *)
(** * Delta transfer: what Deltify emits and Patch rebuilds

    The scan of [Deltify] with the handler that collects the operations, as
    [DeltaBytes] runs it: it terminates, and the operations it emits denote
    the target; [Patch] writes what valid operations denote. *)
From Stdlib Require Import ZArith List Lia.
From Stdlib Require Import Strings.Byte.
From stdpp Require Import base list option gmap numbers tactics.
From S2P Require Import Prelude GoLib RollingHash RsyncSignature RsyncEngine.

#[local] Open Scope Z_scope.

(** The handler of [DeltaBytes]: append to the list of operations. *)
Definition collect (op : Operation) : SM (list Operation) rsync_err unit :=
  fun ops => (ops ++ [op], Ret tt).

(** ** What operations denote *)

Definition denote (bs : Z) (base : bytes) (op : Operation) : bytes :=
  if Type_ op =? OpData then Data op
  else concat (map (block bs base) (seq (Z.to_nat (BlockStart op)) (Z.to_nat (BlockCount op)))).
Definition denote_all (bs : Z) (base : bytes) (ops : list Operation) : bytes :=
  concat (map (denote bs base) ops).

Definition data_op_ok (op : Operation) : Prop :=
  Type_ op = OpData /\ BlockStart op = 0 /\ BlockCount op = 0 /\
  0 < zlen (Data op) <= maxDataOperationSize.
Definition block_op_ok (bs : Z) (base : bytes) (op : Operation) : Prop :=
  Type_ op = OpBlock /\ Data op = [] /\ 0 <= BlockStart op /\ 0 < BlockCount op /\
  BlockStart op + BlockCount op <= Z.of_nat (num_blocks bs base).
Definition op_ok (bs : Z) (base : bytes) (op : Operation) : Prop :=
  data_op_ok op \/ block_op_ok bs base op.

(** A window of the target with the strong hash and length of a base block is
    that block.  This is what the transfer assumes of SHA-1 for one transfer;
    the pull path checks the SHA-256 of the result besides. *)
Definition no_collision (sha1 : bytes -> bytes) (bs : Z) (base target : bytes) : Prop :=
  forall i off, (i < num_blocks bs base)%nat ->
    let w := take (length (block bs base i)) (drop off target) in
    length w = length (block bs base i) -> sha1 w = sha1 (block bs base i) -> w = block bs base i.

Lemma denote_all_app bs base ops ops' :
  denote_all bs base (ops ++ ops') = denote_all bs base ops ++ denote_all bs base ops'.
Proof. unfold denote_all. by rewrite map_app, concat_app. Qed.

Lemma denote_all_nil bs base : denote_all bs base [] = [].
Proof. done. Qed.

Lemma denote_all_one bs base op : denote_all bs base [op] = denote bs base op.
Proof. unfold denote_all. simpl. by rewrite app_nil_r. Qed.

Lemma denote_some bs base op : denote_all bs base (option_list (Some op)) = denote bs base op.
Proof. apply denote_all_one. Qed.

Lemma denote_dataOp bs base d : denote bs base (dataOp d) = d.
Proof. done. Qed.

Lemma denote_blockOp bs base i : denote bs base (blockOp (Z.of_nat i) 1) = block bs base i.
Proof. unfold denote. cbn. rewrite Nat2Z.id. apply app_nil_r. Qed.

Lemma denote_extend bs base op :
  block_op_ok bs base op ->
  denote bs base {| Type_ := Type_ op; BlockStart := BlockStart op; BlockCount := BlockCount op + 1;
                    Data := Data op |} =
  denote bs base op ++ block bs base (Z.to_nat (BlockStart op + BlockCount op)).
Proof.
  intros (Ht & _ & Hs & Hc & _). unfold denote. cbn [Type_ BlockStart BlockCount Data].
  rewrite Ht. cbn.
  replace (Z.to_nat (BlockCount op + 1)) with (Z.to_nat (BlockCount op) + 1)%nat by lia.
  rewrite seq_app, map_app, concat_app. cbn. rewrite app_nil_r. do 2 f_equal. lia.
Qed.

(** ** The window *)

Definition win_rem (w : deltaWindow) : bytes := drop (wpos w) (buf w) ++ rd_data (wr w).
Definition win_ok (w : deltaWindow) : Prop :=
  (wpos w <= length (buf w))%nat /\ rd_err (wr w) = None /\ (eof w = true -> rd_data (wr w) = []).

Lemma avail_drop w : win_ok w -> avail w = zlen (drop (wpos w) (buf w)).
Proof. intros (Hw & _). unfold avail. rewrite length_drop. lia. Qed.

Lemma avail_le_rem w : win_ok w -> 0 <= avail w <= zlen (win_rem w).
Proof. intros Hw. rewrite avail_drop by done. unfold win_rem. rewrite length_app. lia. Qed.

Lemma peek_rem w n : win_ok w -> n <= avail w -> peek w n = take (Z.to_nat n) (win_rem w).
Proof.
  intros Hw Hn. rewrite avail_drop in Hn by done. unfold peek, win_rem.
  rewrite take_app_le; [done|lia].
Qed.

Lemma advance_ok w n :
  win_ok w -> 0 <= n <= avail w ->
  win_ok (advance w n) /\ win_rem (advance w n) = drop (Z.to_nat n) (win_rem w).
Proof.
  intros Hw Hn. pose proof Hw as (Hp & He & Hf). rewrite avail_drop in Hn by done.
  rewrite length_drop in Hn. unfold advance, win_ok, win_rem; cbn. repeat split; auto; [lia|].
  rewrite drop_app_le by (rewrite length_drop; lia). by rewrite drop_drop.
Qed.

Lemma ensure_step_ok w n :
  win_ok w -> 0 < n <= maxBlockSize -> avail w < n -> eof w = false ->
  exists w', ensure_step w n = (w', Ret tt) /\ win_ok w' /\ win_rem w' = win_rem w /\
    (n <= avail w' \/ eof w' = true).
Proof.
  intros Hw Hn Ha He. pose proof Hw as (Hp & Hr & Hf). rewrite avail_drop in Ha by done.
  unfold maxBlockSize, ensure_step, deltaReadChunk in *.
  set (bp := if (0 <? wpos w)%nat then (drop (wpos w) (buf w), 0%nat) else (buf w, wpos w)).
  assert (bp = (drop (wpos w) (buf w), 0%nat)) as ->.
  { unfold bp. destruct (Nat.ltb_spec 0 (wpos w)); [done|].
    replace (wpos w) with 0%nat by lia. by rewrite drop_0. }
  set (want := Z.max n (64 * 1024)). set (b1 := drop (wpos w) (buf w)) in *.
  rewrite andb_comm, (proj2 (Z.ltb_ge maxAlloc _)) by (unfold maxAlloc; lia). cbn [andb].
  destruct (Z.le_gt_cases want (zlen (rd_data (wr w)))) as [Hle|Hgt].
  - rewrite readFull_full by done. eexists. split; [done|].
    unfold win_ok, win_rem, avail; cbn. rewrite He, length_app, length_take, drop_0, <- app_assoc, take_drop.
    repeat split; auto with lia.
  - destruct (readFull_short (wr w) want Hgt Hr) as (st & -> & Hst). eexists. split; [by destruct st|].
    unfold win_ok, win_rem, avail; cbn. rewrite Hst, orb_true_r, drop_0, app_nil_r.
    repeat split; auto with lia.
Qed.

Lemma ensure_ok w n :
  win_ok w -> 0 < n <= maxBlockSize ->
  exists w', ensure n w = (w', Ret (avail w')) /\ win_ok w' /\ win_rem w' = win_rem w /\
    (n <= avail w' \/ avail w' = zlen (win_rem w')).
Proof.
  intros Hw Hn. unfold ensure. cbn [ensure_loop].
  assert (forall v, win_ok v -> eof v = true -> avail v = zlen (win_rem v)) as Heof.
  { intros v Hv He. rewrite avail_drop by done. unfold win_rem.
    destruct Hv as (_ & _ & Hv). by rewrite Hv, app_nil_r. }
  destruct (Z.ltb_spec (avail w) n) as [Ha|Ha]; [|exists w; split; [done|split; [done|split; [done|auto]]]].
  destruct (eof w) eqn:He; [exists w; split; [done|split; [done|split; [done|auto]]]|]. cbn [negb andb].
  destruct (ensure_step_ok w n Hw Hn Ha He) as (w' & -> & Hw' & Hr & Hd).
  exists w'. split; [|split; [done|split; [done|]]].
  - destruct Hd as [Hd|Hd]; [rewrite (proj2 (Z.ltb_ge _ _)) by lia|rewrite Hd, andb_false_r]; done.
  - destruct Hd as [Hd|Hd]; auto.
Qed.

(** ** Emission *)

Section Emission.
Context (bs : Z) (base : bytes).
Hypothesis base_int : zlen base < 2 ^ 63.
Hypothesis bs_pos : 0 < bs.

Abbreviation state := (delta_state (H := list Operation)).

(** What a state has emitted or holds back, in the order it will go out. *)
Definition emitted (s : state) : bytes :=
  denote_all bs base (hst s) ++ denote_all bs base (option_list (pendingBlock s)) ++ pending s.
Definition ops_ok (s : state) : Prop :=
  Forall (op_ok bs base) (hst s) /\ (forall op, pendingBlock s = Some op -> block_op_ok bs base op).

(** [s'] emits [c] more than [s]. *)
Definition emits (c : bytes) (s s' : state) : Prop :=
  emitted s' = emitted s ++ c /\ ops_ok s' /\ win s' = win s.

Lemma emits_trans c c' s s' s'' : emits c s s' -> emits c' s' s'' -> emits (c ++ c') s s''.
Proof.
  intros (E1 & _ & W1) (E2 & O2 & W2). split; [by rewrite E2, E1, app_assoc|]. split; [done|congruence].
Qed.

Lemma handle_collect op s : handle collect op s = (set_hst (hst s ++ [op]) s, Ret tt).
Proof. done. Qed.

Lemma flushBlock_collect s :
  flushBlock collect s =
    ({| pending := pending s; pendingBlock := None;
        hst := hst s ++ option_list (pendingBlock s); win := win s |}, Ret tt).
Proof.
  destruct s as [p [op|] h w]; cbn; [done|]. by rewrite app_nil_r.
Qed.

Lemma flushBlock_emits s :
  ops_ok s -> exists s', flushBlock collect s = (s', Ret tt) /\ emits [] s s' /\
    pendingBlock s' = None /\ pending s' = pending s.
Proof.
  intros (Ho & Hb). rewrite flushBlock_collect. eexists. split; [done|]. split; [|done].
  unfold emits, emitted, ops_ok. cbn [hst pendingBlock pending win option_list].
  split; [by rewrite denote_all_app, app_nil_r, <- app_assoc|]. split; [|done]. split; [|done].
  apply Forall_app. split; [done|]. destruct (pendingBlock s) as [op|]; simpl; [|done].
  constructor; [right; auto|done].
Qed.

Lemma emit_chunks_collect fuel d s :
  (length d < fuel)%nat ->
  exists ops, emit_chunks collect fuel d s = (set_hst (hst s ++ ops) s, Ret tt) /\
    denote_all bs base ops = d /\ Forall (op_ok bs base) ops.
Proof.
  revert d s. induction fuel as [|fuel IH]; intros d s Hf; [lia|].
  cbn [emit_chunks]. destruct d as [|c d].
  { exists []. rewrite app_nil_r. by destruct s. }
  set (data := c :: d) in *. assert (0 < zlen data) by (unfold data; simpl; lia).
  set (n := if maxDataOperationSize <? zlen data then maxDataOperationSize else zlen data).
  assert (0 < n <= zlen data /\ n <= maxDataOperationSize) as Hn.
  { unfold n, maxDataOperationSize. destruct (Z.ltb_spec (1024 * 1024) (zlen data)); lia. }
  unfold mbind, sm_bind. rewrite handle_collect.
  destruct (IH (drop (Z.to_nat n) data) (set_hst (hst s ++ [dataOp (take (Z.to_nat n) data)]) s))
    as (ops & Hops & Hd & Hok); [rewrite length_drop; lia|].
  exists (dataOp (take (Z.to_nat n) data) :: ops).
  split; [|split].
  - rewrite Hops. cbn. by rewrite <- app_assoc.
  - change (dataOp (take (Z.to_nat n) data) :: ops) with ([dataOp (take (Z.to_nat n) data)] ++ ops).
    rewrite denote_all_app, denote_all_one, denote_dataOp, Hd. apply take_drop.
  - constructor; [|done]. left. unfold data_op_ok; cbn. repeat split; rewrite ?length_take; lia.
Qed.

Lemma emitData_emits d s :
  ops_ok s -> exists s', emitData collect d s = (s', Ret tt) /\
    denote_all bs base (hst s') =
      denote_all bs base (hst s) ++ denote_all bs base (option_list (pendingBlock s)) ++ d /\
    ops_ok s' /\ win s' = win s /\ pendingBlock s' = None /\ pending s' = pending s.
Proof.
  intros Hs. unfold emitData, mbind, sm_bind. rewrite flushBlock_collect.
  destruct (flushBlock_emits s Hs) as (s1 & H1 & (_ & (Ho1 & _) & _) & _ & _).
  rewrite flushBlock_collect in H1. injection H1 as <-. cbn [hst] in Ho1.
  match goal with |- context [emit_chunks _ _ _ ?t] => set (t1 := t) end.
  destruct (emit_chunks_collect (S (length d)) d t1) as (ops & -> & Hd & Hok); [lia|].
  eexists. split; [done|]. unfold t1, ops_ok, set_hst. cbn [hst pendingBlock pending win].
  split; [by rewrite !denote_all_app, Hd, <- app_assoc|].
  split; [|done]. split; [|done]. by apply Forall_app.
Qed.

Lemma flushPending_emits s :
  ops_ok s -> exists s', flushPending collect s = (s', Ret tt) /\ emits [] s s' /\ pending s' = [].
Proof.
  intros Hs. unfold flushPending. destruct (pending s) as [|c p] eqn:Hp; cbn [is_nil].
  - exists s. split; [done|]. split; [|done]. split; [by rewrite app_nil_r|done].
  - destruct (emitData_emits (c :: p) s Hs) as (s' & He & Hd & Ho & Hw & Hb & _).
    unfold finally. rewrite He. eexists. split; [done|]. split; [|done].
    unfold emits, emitted, set_pending. cbn [hst pendingBlock pending win].
    split; [|done]. rewrite Hd, Hb, Hp. cbn [option_list]. by rewrite denote_all_nil, !app_nil_r.
Qed.

Lemma addLiteral_emits b s :
  ops_ok s -> exists s', addLiteral collect b s = (s', Ret tt) /\ emits b s s'.
Proof.
  intros Hs. unfold addLiteral.
  assert (emits b s (set_pending (pending s ++ b) s)) as He.
  { split; [|done]. unfold emitted. cbn [hst pendingBlock pending set_pending]. by rewrite !app_assoc. }
  case_match; [|by eexists].
  destruct (flushPending_emits (set_pending (pending s ++ b) s)) as (s' & -> & H' & _); [done|].
  exists s'. split; [done|]. rewrite <- (app_nil_r b). by eapply emits_trans.
Qed.

Lemma num_blocks_int : Z.of_nat (num_blocks bs base) < 2 ^ 63.
Proof.
  unfold num_blocks. pose proof (Z.div_le_upper_bound (zlen base + bs - 1) bs (zlen base) bs_pos).
  assert (zlen base + bs - 1 <= bs * zlen base \/ zlen base = 0) as [H1|H1] by nia; [lia|].
  rewrite H1, Z.div_small; lia.
Qed.

Lemma startBlock_emits idx s :
  ops_ok s -> (idx < num_blocks bs base)%nat -> pending s = [] ->
  exists s', startBlock collect idx s = (s', Ret tt) /\ emits (block bs base idx) s s'.
Proof.
  intros Hs Hi Hp. unfold startBlock, mbind, sm_bind.
  destruct (flushBlock_emits s Hs) as (s1 & -> & (E1 & O1 & W1) & Hb & Hp1).
  eexists. split; [done|]. unfold emits, set_pendingBlock, ops_ok, emitted in *.
  cbn [hst pendingBlock pending win option_list]. rewrite Hb, Hp1, Hp, !app_nil_r in *.
  rewrite denote_some, denote_blockOp. split; [by rewrite E1|]. split; [|done]. split; [apply O1|].
  intros op [= <-]. unfold block_op_ok; cbn. repeat split; (done || lia).
Qed.

Lemma extendBlock_emits idx s :
  ops_ok s -> (idx < num_blocks bs base)%nat -> pending s = [] ->
  exists s', extendBlock collect idx s = (s', Ret tt) /\ emits (block bs base idx) s s'.
Proof.
  intros Hs Hi Hp. unfold extendBlock.
  destruct (pendingBlock s) as [op|] eqn:Hb; [|by apply startBlock_emits].
  pose proof (proj2 Hs op Hb) as Hop. pose proof num_blocks_int.
  pose proof Hop as (Ht & Hd & H0 & Hc & Hn).
  rewrite uN_small by lia. destruct (Z.eqb_spec (BlockStart op + BlockCount op) (Z.of_nat idx)) as [E|E];
    [|by apply startBlock_emits].
  rewrite uN_small by lia. eexists. split; [done|].
  unfold emits, emitted, ops_ok, set_pendingBlock. cbn [hst pendingBlock pending win option_list].
  rewrite Hb, Hp, !app_nil_r, !denote_some, denote_extend by done.
  rewrite E, Nat2Z.id. split; [by rewrite app_assoc|]. split; [|done]. split; [apply Hs|].
  intros op' [= <-]. unfold block_op_ok; cbn. repeat split; (done || lia).
Qed.

Lemma emitBlock_emits idx s :
  ops_ok s -> (idx < num_blocks bs base)%nat ->
  exists s', emitBlock collect idx s = (s', Ret tt) /\ emits (block bs base idx) s s'.
Proof.
  intros Hs Hi. unfold emitBlock, mbind, sm_bind.
  destruct (flushPending_emits s Hs) as (s1 & -> & H1 & Hp).
  destruct (extendBlock_emits idx s1) as (s2 & -> & H2); [apply H1|done|done|].
  exists s2. split; [done|]. by apply (emits_trans [] _ s s1 s2).
Qed.
End Emission.

(** ** Matching *)

Lemma match_candidates_sound sig data strong cs idx :
  match_candidates sig data strong cs = Some idx ->
  blockLength sig idx = zlen data /\ StrongHash <$> Hashes sig !! idx = Some strong /\ idx ∈ cs.
Proof.
  induction cs as [|c cs IH]; [done|]. cbn [match_candidates]. rewrite elem_of_cons.
  case_match eqn:E; [intros [= <-]; zbool; auto|]. intros H. destruct (IH H) as (? & ? & ?). auto.
Qed.

Section Scan.
Context (sha1 : bytes -> bytes) (base target : bytes) (sig : Signature).
Abbreviation bs := (BlockSize sig).
Hypothesis base_int : zlen base < 2 ^ 63.
Hypothesis sig_ok : signs sha1 sig base.
Hypothesis collisions : no_collision sha1 bs base target.

Abbreviation wm := (weakMap_of (Hashes sig)).
Abbreviation state := (delta_state (H := list Operation)).

Lemma sig_bs : 0 < bs <= maxBlockSize.
Proof. destruct sig_ok as [H _]. unfold minBlockSize in H. lia. Qed.

Lemma hashes_lookup i :
  Hashes sig !! i = if decide (i < num_blocks bs base)%nat
                    then Some (hash_of sha1 (block bs base i)) else None.
Proof.
  destruct sig_ok as (_ & H & _). rewrite H, list_lookup_fmap.
  case_decide.
  - by rewrite lookup_seq_lt.
  - by rewrite lookup_seq_ge by lia.
Qed.

Lemma match_sound w weak idx off :
  matchBlockWithWeak sha1 w weak wm sig = Some idx -> w = take (length w) (drop off target) ->
  (idx < num_blocks bs base)%nat /\ w = block bs base idx.
Proof.
  unfold matchBlockWithWeak. intros H Hw. case_match; [|done].
  apply match_candidates_sound in H as (Hl & Hs & _). rewrite hashes_lookup in Hs.
  case_decide as Hi; [|done]. cbn in Hs. injection Hs as Hs. split; [done|].
  destruct sig_ok as (_ & _ & HL & _). rewrite <- HL in Hl by done.
  assert (length w = length (block bs base idx)) as Hlen by lia.
  rewrite Hw, Hlen. apply (collisions idx off Hi); rewrite <- Hlen, <- Hw; done.
Qed.

(** The state of the scan: what is left in the window is a suffix of the
    target, and the operations are well formed. *)
Definition scan_ok (s : state) : Prop :=
  ops_ok bs base s /\ win_ok (win s) /\ exists off, win_rem (win s) = drop off target.

(** [s'] has consumed a nonempty part of what was left and emitted it. *)
Definition consumes (s s' : state) : Prop :=
  scan_ok s' /\ exists c, c <> [] /\ win_rem (win s) = c ++ win_rem (win s') /\
    emitted bs base s' = emitted bs base s ++ c.

Lemma scan_ok_advance s n w :
  scan_ok s -> win w = win s -> ops_ok bs base w -> 0 <= n <= avail (win s) ->
  scan_ok (set_win (advance (win w) n) w).
Proof.
  intros (_ & Hw & off & Hoff) -> Ho Hn. destruct (advance_ok (win s) n Hw Hn) as [Ha Hr].
  split; [exact Ho|]. split; [done|]. exists (off + Z.to_nat n)%nat. cbn [win set_win].
  by rewrite Hr, Hoff, drop_drop.
Qed.

(** Emitting the next [n] bytes and moving the cursor past them. *)
Lemma consume_step s s' n :
  scan_ok s -> emits bs base (take (Z.to_nat n) (win_rem (win s))) s s' -> 0 < n <= avail (win s) ->
  consumes s (set_win (advance (win s') n) s').
Proof.
  intros Hs (He & Ho & Hw) Hn. pose proof Hs as (_ & Hwo & _).
  split; [apply (scan_ok_advance s n s'); auto; lia|].
  exists (take (Z.to_nat n) (win_rem (win s))). rewrite Hw. cbn [win set_win].
  destruct (advance_ok (win s) n Hwo ltac:(lia)) as [_ ->]. split; [|split; [by rewrite take_drop|exact He]].
  pose proof (avail_le_rem _ Hwo). intros E. apply (f_equal length) in E.
  rewrite length_take in E. simpl in E. lia.
Qed.

Lemma consumes_trans s s' s'' : consumes s s' -> consumes s' s'' -> consumes s s''.
Proof.
  intros (_ & c & Hc & Hr & He) (Ho & c' & Hc' & Hr' & He'). split; [done|]. exists (c ++ c').
  split; [by destruct c|]. split; [by rewrite Hr, Hr', app_assoc|by rewrite He', He, app_assoc].
Qed.

Lemma consumes_shrinks s s' :
  consumes s s' -> (length (win_rem (win s')) < length (win_rem (win s)))%nat.
Proof. intros (_ & [|x c] & Hc & -> & _); [done|]. rewrite length_app. simpl. lia. Qed.

(** Refilling the window changes nothing the scan depends on. *)
Lemma win_ensure_ok s :
  scan_ok s ->
  exists w, win_ensure bs s = (set_win w s, Ret (avail w)) /\ scan_ok (set_win w s) /\
    win_rem w = win_rem (win s) /\ (bs <= avail w \/ avail w = zlen (win_rem w)).
Proof.
  intros (Ho & Hw & off & Hoff). destruct (ensure_ok (win s) bs Hw sig_bs) as (w & He & Hw' & Hr & Hd).
  exists w. unfold win_ensure. rewrite He. split; [done|]. split; [|done].
  split; [exact Ho|]. split; [done|]. exists off. cbn [win set_win]. congruence.
Qed.

Lemma peek_suffix s n :
  scan_ok s -> 0 <= n <= avail (win s) ->
  exists off, peek (win s) n = take (length (peek (win s) n)) (drop off target) /\
    length (peek (win s) n) = Z.to_nat n.
Proof.
  intros (_ & Hw & off & Hoff) Hn. exists off. pose proof (avail_le_rem _ Hw).
  rewrite peek_rem by (done || lia). rewrite length_take, <- Hoff. split; [f_equal; lia|lia].
Qed.

(** A match at the cursor emits the bytes at the cursor. *)
Lemma match_emits s n weak idx :
  scan_ok s -> 0 <= n <= avail (win s) ->
  matchBlockWithWeak sha1 (peek (win s) n) weak wm sig = Some idx ->
  exists s', emitBlock collect idx s = (s', Ret tt) /\
    emits bs base (take (Z.to_nat n) (win_rem (win s))) s s'.
Proof.
  intros Hs Hn Hm. destruct (peek_suffix s n Hs Hn) as (off & Hoff & _).
  destruct (match_sound _ _ _ _ Hm Hoff) as [Hi Hb].
  destruct (emitBlock_emits bs base base_int ltac:(apply sig_bs) idx s) as (s' & He & Hem); [apply Hs|done|].
  exists s'. split; [done|]. rewrite <- peek_rem, Hb by (apply Hs || lia). done.
Qed.

Lemma matchBlock_eq w :
  zlen w <= maxBlockSize -> matchBlock sha1 w wm sig = Ret (matchBlockWithWeak sha1 w (weak_sum w) wm sig).
Proof.
  intros Hw. unfold matchBlock. rewrite blockWeak_eq; [done|].
  unfold maxBlockSize, maxAlloc in *. lia.
Qed.

Lemma i64_bs : i64 bs = bs.
Proof. pose proof sig_bs. unfold maxBlockSize in *. apply iN_small; lia. Qed.

Lemma last_size : 0 <= LastBlockSize sig <= bs.
Proof.
  pose proof sig_bs as Hb. destruct sig_ok as (_ & _ & HL & Hn).
  destruct (decide (base = [])) as [E|E]; [rewrite Hn by done; lia|].
  pose proof (num_blocks_S bs base ltac:(lia) E) as HS.
  specialize (HL (num_blocks bs base - 1)%nat ltac:(lia)).
  pose proof (block_nonempty bs base (num_blocks bs base - 1) ltac:(lia) ltac:(lia)) as Hne.
  unfold blockLength in HL. destruct sig_ok as (_ & HH & _).
  rewrite HH, length_map, length_seq in HL.
  rewrite (proj2 (Z.eqb_eq _ _)) in HL by lia. lia.
Qed.

Lemma i64_last : i64 (LastBlockSize sig) = LastBlockSize sig.
Proof. pose proof last_size. pose proof sig_bs. unfold maxBlockSize in *. apply iN_small; lia. Qed.

(** What the scan tries when the full block does not match: the short last
    block of the base. *)
Lemma short_match (short : bool) s (w : bytes) :
  (short = true -> zlen w <= maxBlockSize) ->
  exists r : option nat,
    (if short then slift (matchBlock sha1 w wm sig) else mret None : SM state rsync_err (option nat)) s
      = (s, Ret r) /\
    (forall idx, r = Some idx -> short = true /\ matchBlockWithWeak sha1 w (weak_sum w) wm sig = Some idx).
Proof.
  intros Hw. destruct short; [|by exists None]. unfold slift. rewrite matchBlock_eq by auto.
  eexists. split; [done|]. auto.
Qed.

Lemma literal_step b s n :
  scan_ok s -> b = take (Z.to_nat n) (win_rem (win s)) -> 0 < n <= avail (win s) ->
  exists s1, addLiteral collect b s = (s1, Ret tt) /\ consumes s (set_win (advance (win s1) n) s1) /\
    win_rem (advance (win s1) n) = drop (Z.to_nat n) (win_rem (win s)).
Proof.
  intros Hs -> Hn.
  destruct (addLiteral_emits bs base (take (Z.to_nat n) (win_rem (win s))) s) as (s1 & H1 & He); [apply Hs|].
  exists s1. split; [done|]. split; [by apply consume_step|]. destruct He as (_ & _ & ->).
  apply advance_ok; [apply Hs|lia].
Qed.

Lemma match_step s n weak idx :
  scan_ok s -> 0 < n <= avail (win s) ->
  matchBlockWithWeak sha1 (peek (win s) n) weak wm sig = Some idx ->
  exists s1, emitBlock collect idx s = (s1, Ret tt) /\ consumes s (set_win (advance (win s1) n) s1).
Proof.
  intros Hs Hn Hm. destruct (match_emits s n weak idx Hs ltac:(lia) Hm) as (s1 & H1 & He).
  exists s1. split; [done|]. by apply consume_step.
Qed.

(** Sliding the window by one byte slides the hash. *)
Lemma roll_step s s1 w rh :
  scan_ok s -> scan_ok s1 -> win_rem (win s1) = drop 1 (win_rem (win s)) ->
  win_ok w -> win_rem w = win_rem (win s1) -> bs <= avail (win s) -> bs <= avail w ->
  hashes rh (peek (win s) bs) ->
  exists c rh', peek w bs !! Z.to_nat (bs - 1) = Some c /\
    Roll (E := rsync_err) rh c = Ret rh' /\ hashes rh' (peek w bs).
Proof.
  intros Hs Hs1 Hr Hw Hrw Ha Haw Hh. pose proof sig_bs.
  rewrite (peek_rem (win s)) in Hh by (apply Hs || lia). rewrite (peek_rem w) by done.
  pose proof (avail_le_rem w Hw) as Hl. rewrite Hrw, Hr in Hl. rewrite Hrw, Hr. clear Hrw Hr.
  destruct (win_rem (win s)) as [|x R]; [simpl in Hl; lia|]. cbn [drop] in *. rewrite drop_0 in *.
  replace (Z.to_nat bs) with (S (Z.to_nat (bs - 1))) in * by lia. cbn [take] in Hh.
  destruct (lookup_lt_is_Some_2 R (Z.to_nat (bs - 1))) as [c Hc]; [lia|].
  destruct (Roll_hashes (E := rsync_err) rh x (take (Z.to_nat (bs - 1)) R) c Hh) as (rh' & H1 & H2).
  exists c, rh'. rewrite (take_S_r _ _ _ Hc). split; [|done].
  rewrite lookup_app_r; rewrite length_take; [|lia].
  replace (Z.to_nat (bs - 1) - Z.to_nat (bs - 1) `min` length R)%nat with 0%nat by lia. done.
Qed.

Lemma inner_loop_ok fuel rh s :
  scan_ok s -> bs <= avail (win s) -> hashes rh (peek (win s) bs) ->
  (length (win_rem (win s)) <= fuel)%nat ->
  exists s', inner_loop sha1 collect wm sig fuel rh s = (s', Ret tt) /\ consumes s s'.
Proof.
  revert rh s. induction fuel as [|fuel IH]; intros rh s Hs Ha Hh Hf;
    pose proof sig_bs as Hbs; pose proof (avail_le_rem (win s) ltac:(apply Hs)) as Hle; [lia|].
  cbn [inner_loop]. rewrite i64_bs, i64_last. erewrite sm_bind_Ret by done.
  destruct (matchBlockWithWeak sha1 (peek (win s) bs) (Sum rh) wm sig) as [idx|] eqn:Hm.
  { destruct (match_step s bs _ _ Hs ltac:(lia) Hm) as (s1 & H1 & Hc).
    erewrite sm_bind_Ret by exact H1. eexists. split; [done|exact Hc]. }
  set (short := (0 <? LastBlockSize sig) && (LastBlockSize sig <? bs)).
  destruct (short_match short s (peek (win s) (LastBlockSize sig))) as (r & Hr & Hri).
  { intros E. unfold short in E. zbool.
    destruct (peek_suffix s (LastBlockSize sig)) as (_ & _ & Hl); [done|lia|]. lia. }
  erewrite sm_bind_Ret by (destruct short; exact Hr). destruct r as [idx|].
  { destruct (Hri idx eq_refl) as [E Hm2]. unfold short in E. zbool.
    destruct (match_step s (LastBlockSize sig) _ _ Hs ltac:(lia) Hm2) as (s1 & H1 & Hc).
    erewrite sm_bind_Ret by exact H1. eexists. split; [done|exact Hc]. }
  erewrite sm_bind_Ret by done.
  destruct (literal_step (peek (win s) 1) s 1) as (s1 & H1 & Hc & Hr1);
    [done|apply peek_rem; [apply Hs|lia]|lia|].
  erewrite sm_bind_Ret by exact H1. erewrite sm_bind_Ret by done.
  destruct (win_ensure_ok _ (proj1 Hc)) as (w & Hw & Hsw & Hrw & Hd).
  erewrite sm_bind_Ret by exact Hw.
  assert (consumes s (set_win w (set_win (advance (win s1) 1) s1))) as Hc'.
  { split; [done|]. destruct Hc as (_ & c & ? & ? & ?). exists c. cbn [win set_win] in *.
    rewrite Hrw. done. }
  destruct (Z.ltb_spec (avail w) bs) as [Hlt|Hge].
  { eexists. split; [done|exact Hc']. }
  erewrite sm_bind_Ret by done. cbn [win set_win] in Hrw.
  destruct (roll_step s _ w rh Hs (proj1 Hc) Hr1 ltac:(apply Hsw) Hrw Ha Hge Hh) as (c & rh' & Hl & Hroll & Hh').
  erewrite sm_bind_Ret by (cbn [win set_win]; unfold slift; rewrite Hl, Hroll; done).
  destruct (IH rh' _ Hsw) as (s' & Hi & Hc2); [done|done| |].
  { pose proof (consumes_shrinks _ _ Hc'). lia. }
  exists s'. split; [exact Hi|]. by eapply consumes_trans.
Qed.

Lemma outer_loop_ok fuel ifuel s :
  scan_ok s -> (length (win_rem (win s)) < fuel)%nat -> (length (win_rem (win s)) <= ifuel)%nat ->
  exists s', outer_loop sha1 collect wm sig fuel ifuel s = (s', Ret tt) /\ ops_ok bs base s' /\
    emitted bs base s' = emitted bs base s ++ win_rem (win s).
Proof.
  revert s. induction fuel as [|fuel IH]; intros s Hs Hf Hif; [lia|].
  cbn [outer_loop]. rewrite i64_bs, i64_last. pose proof sig_bs as Hbs. pose proof last_size as Hls.
  destruct (win_ensure_ok s Hs) as (w & Hw & Hsw & Hrw & Hd). erewrite sm_bind_Ret by exact Hw.
  set (s0 := set_win w s) in *. pose proof (avail_le_rem w ltac:(apply Hsw)) as Hle.
  assert (forall t, consumes s0 t ->
    exists s', outer_loop sha1 collect wm sig fuel ifuel t = (s', Ret tt) /\
      ops_ok bs base s' /\ emitted bs base s' = emitted bs base s ++ win_rem (win s)) as Step.
  { intros t Hc. pose proof (consumes_shrinks _ _ Hc) as Hsh.
    change (win s0) with w in Hsh. rewrite Hrw in Hsh.
    destruct Hc as (Ht1 & c & _ & Hr & He). destruct (IH _ Ht1 ltac:(lia) ltac:(lia)) as (s' & -> & Ho & E).
    exists s'. split; [done|]. split; [done|]. rewrite E, He, <- Hrw, <- app_assoc, <- Hr. done. }
  destruct (Z.eqb_spec (avail w) 0) as [E0|E0].
  { eexists. split; [done|]. split; [apply Hs|]. destruct Hd as [Hd|Hd]; [lia|].
    rewrite Hd, Hrw in E0. destruct (win_rem (win s)); [by rewrite app_nil_r|simpl in E0; lia]. }
  destruct (Z.ltb_spec (avail w) bs) as [Hlt|Hge].
  - erewrite sm_bind_Ret by done. change (win s0) with w.
    set (short := (0 <? LastBlockSize sig) && (LastBlockSize sig <? bs) && (LastBlockSize sig <=? avail w)).
    destruct (short_match short s0 (take (Z.to_nat (LastBlockSize sig)) (peek w (avail w)))) as (r & Hr & Hri).
    { intros _. rewrite length_take. lia. }
    erewrite sm_bind_Ret by exact Hr. destruct r as [idx|].
    + destruct (Hri idx eq_refl) as [E Hm]. unfold short in E. zbool.
      assert (take (Z.to_nat (LastBlockSize sig)) (peek w (avail w)) = peek (win s0) (LastBlockSize sig)) as Hp.
      { unfold peek. rewrite take_take. do 2 f_equal. lia. }
      rewrite Hp in Hm. destruct (match_step s0 (LastBlockSize sig) _ _ Hsw ltac:(change (win s0) with w; lia) Hm) as (s1 & Hs1 & Hc).
      erewrite sm_bind_Ret by exact Hs1. erewrite sm_bind_Ret by done. by apply Step.
    + destruct (literal_step (peek w (avail w)) s0 (avail w)) as (s1 & Hs1 & Hc & _);
        [done|apply (peek_rem w); [apply Hsw|lia]|cbn; lia|].
      erewrite sm_bind_Ret by exact Hs1. erewrite sm_bind_Ret by done. by apply Step.
  - assert (length (peek w bs) = Z.to_nat bs) as Hpl.
    { rewrite peek_rem, length_take by (apply Hsw || lia). lia. }
    destruct (New_Write_hashes (E := rsync_err) (peek w bs)) as (rh & Hn & Hh).
    { intros E. rewrite E in Hpl. simpl in Hpl. lia. }
    { unfold maxBlockSize, maxAlloc in *. lia. }
    replace (zlen (peek w bs)) with bs in Hn by lia.
    erewrite sm_bind_Ret by (unfold slift; rewrite Hn; done). erewrite sm_bind_Ret by done.
    change (win s0) with w.
    destruct (inner_loop_ok ifuel (Write rh (peek w bs)) s0 Hsw Hge Hh) as (s1 & Hs1 & Hc).
    { change (win s0) with w. by rewrite Hrw. }
    erewrite sm_bind_Ret by exact Hs1.
    by apply Step.
Qed.
End Scan.

(** ** Deltify *)

Lemma emitAllAsData_ok bs base fuel d ops :
  (length d < fuel)%nat ->
  exists ops', emitAllAsData collect fuel (newReader d) ops = (ops ++ ops', Ret tt) /\
    denote_all bs base ops' = d /\ Forall (op_ok bs base) ops'.
Proof.
  revert d ops. induction fuel as [|fuel IH]; intros d ops Hf; [lia|]. cbn [emitAllAsData].
  assert (forall c, 0 < zlen c <= maxDataOperationSize -> op_ok bs base (dataOp c)) as Hok.
  { intros c Hc. left. unfold data_op_ok. cbn. done. }
  destruct (Z.le_gt_cases maxDataOperationSize (zlen d)) as [Hle|Hgt].
  - rewrite readFull_full by done. cbn [rd_data rd_err newReader]. set (n := Z.to_nat maxDataOperationSize).
    assert (zlen (take n d) = maxDataOperationSize) as Hl.
    { unfold n. rewrite length_take. unfold maxDataOperationSize in *. lia. }
    rewrite (proj2 (Z.ltb_lt 0 _)) by (rewrite Hl; done). erewrite sm_bind_Ret by done.
    destruct (IH (drop n d) (ops ++ [dataOp (take n d)])) as (ops' & Hi & Hd & Ho).
    { rewrite length_drop. unfold n, maxDataOperationSize in *. lia. }
    exists (dataOp (take n d) :: ops'). split; [|split].
    + unfold newReader in Hi. by rewrite Hi, <- app_assoc.
    + change (dataOp (take n d) :: ops') with ([dataOp (take n d)] ++ ops').
      rewrite denote_all_app, denote_all_one, denote_dataOp, Hd. apply take_drop.
    + constructor; [|done]. apply Hok. rewrite Hl. unfold maxDataOperationSize; lia.
  - destruct (readFull_short (newReader (E := rsync_err) d) maxDataOperationSize) as (st & -> & Hst); [done..|].
    cbn [rd_data newReader]. destruct d as [|x d].
    { exists []. erewrite sm_bind_Ret by done. rewrite app_nil_r. by destruct st. }
    exists [dataOp (x :: d)]. rewrite (proj2 (Z.ltb_lt 0 _)) by (simpl; lia).
    erewrite sm_bind_Ret by done. split; [by destruct st|]. split; [by rewrite denote_all_one|].
    constructor; [|done]. apply Hok. simpl in *. lia.
Qed.

Lemma validate_signs sha1 sig base : signs sha1 sig base -> validateSignature (Some sig) = Ret sig.
Proof.
  intros Hs. pose proof (last_size sha1 base sig Hs) as Hl.
  pose proof (sig_bs sha1 base sig Hs) as Hb. unfold validateSignature.
  rewrite (proj2 (Z.eqb_neq _ _)), (proj2 (Z.ltb_ge _ _)) by lia.
  destruct Hs as (_ & HH & HL & _). destruct (is_nil (Hashes sig)) eqn:E; [done|]. cbn [negb andb].
  assert (num_blocks (BlockSize sig) base <> 0)%nat as Hn.
  { intros Hn. rewrite HH, Hn in E. done. }
  pose proof (block_nonempty (BlockSize sig) base (num_blocks (BlockSize sig) base - 1) ltac:(lia) ltac:(lia)) as Hne.
  rewrite HL in Hne by lia. unfold blockLength in Hne. rewrite HH, length_map, length_seq in Hne.
  rewrite (proj2 (Z.eqb_eq _ _)) in Hne by lia. by rewrite (proj2 (Z.eqb_neq _ _)) by lia.
Qed.

Lemma Deltify_denotes sha1 base target sig :
  zlen base < 2 ^ 63 -> signs sha1 sig base -> no_collision sha1 (BlockSize sig) base target ->
  exists ops, Deltify sha1 collect (newReader target) (Some sig) [] = (ops, Ret tt) /\
    denote_all (BlockSize sig) base ops = target /\ Forall (op_ok (BlockSize sig) base) ops.
Proof.
  intros Hb Hs Hc. unfold Deltify. rewrite (validate_signs _ _ _ Hs).
  pose proof (sig_bs sha1 base sig Hs) as Hbs. cbn [rd_data newReader].
  destruct (is_nil (Hashes sig)).
  { apply emitAllAsData_ok. lia. }
  set (s0 := {| pending := []; pendingBlock := None; hst := []; win := newWindow (newReader target) |}).
  assert (scan_ok base target sig s0) as H0.
  { split; [split; [constructor|done]|]. split; [repeat split; simpl; lia || done|]. by exists 0%nat. }
  destruct (outer_loop_ok sha1 base target sig Hb Hs Hc (S (length target)) (S (length target)) s0 H0)
    as (s1 & Hs1 & Ho1 & He1);
    [change (win_rem (win s0)) with target; lia..|].
  destruct (flushPending_emits (BlockSize sig) base s1 Ho1) as (s2 & Hs2 & (He2 & Ho2 & _) & Hp2).
  destruct (flushBlock_emits (BlockSize sig) base s2 Ho2) as (s3 & Hs3 & (He3 & Ho3 & _) & Hb3 & Hp3).
  erewrite sm_bind_Ret by exact Hs1. erewrite sm_bind_Ret by exact Hs2. rewrite Hs3.
  exists (hst s3). split; [done|]. split; [|apply Ho3].
  unfold emitted in He3 at 1. rewrite Hb3, Hp3, Hp2 in He3.
  change (denote_all (BlockSize sig) base (option_list None)) with (@nil byte) in He3.
  rewrite !app_nil_r in He3, He2. rewrite He3, He2, He1. by rewrite app_nil_r.
Qed.

(** ** Patch *)

(** The writer of [ApplyDelta]: a [bytes.Buffer]. *)
Definition append (d : bytes) : SM bytes rsync_err unit := fun out => (out ++ d, Ret tt).

Section PatchProofs.
Context (bs : Z) (base : bytes).
Hypothesis base_int : zlen base < 2 ^ 63.
Hypothesis bs_pos : 0 < bs.

Lemma readAt_block i :
  (i < num_blocks bs base)%nat ->
  let offset := i64 (u64 (Z.of_nat i * bs)) in
  let remaining := u64 (u64 (zlen base) - u64 offset) in
  readAt base offset (if remaining <? bs then remaining else bs) = Ret (block bs base i).
Proof.
  intros Hi. apply num_blocks_bound in Hi; [|done]. cbv zeta.
  rewrite (uN_small 64 (Z.of_nat i * bs)), (iN_small 64) by lia.
  rewrite (uN_small 64 (zlen base)), (uN_small 64 (Z.of_nat i * bs)), (uN_small 64 (zlen base - _)) by lia.
  set (off := Z.of_nat i * bs) in *. unfold readAt. rewrite (proj2 (Z.ltb_ge _ _)) by lia.
  rewrite readFull_full; cbn [rd_data newReader].
  - f_equal. unfold block. replace (i * Z.to_nat bs)%nat with (Z.to_nat off) by lia.
    destruct (Z.ltb_spec (zlen base - off) bs); [|done].
    rewrite !take_ge; [done|rewrite length_drop; lia..].
  - rewrite length_drop. destruct (Z.ltb_spec (zlen base - off) bs); lia.
Qed.

Lemma patch_blocks_ok count i out :
  (i + count <= num_blocks bs base)%nat ->
  patch_blocks append count base bs (Z.of_nat i) out =
    (out ++ concat (map (block bs base) (seq i count)), Ret tt).
Proof.
  revert i out. induction count as [|count IH]; intros i out Hi; cbn [patch_blocks seq map concat].
  { by rewrite app_nil_r. }
  erewrite sm_bind_Ret by (unfold slift; rewrite readAt_block by lia; done).
  erewrite sm_bind_Ret by done.
  pose proof (num_blocks_int bs base base_int bs_pos).
  rewrite uN_small by lia. replace (Z.of_nat i + 1) with (Z.of_nat (S i)) by lia.
  rewrite IH by lia. by rewrite <- app_assoc.
Qed.

Lemma patch_ops_ok ops out :
  Forall (op_ok bs base) ops ->
  patch_ops append ops base bs (Z.of_nat (num_blocks bs base)) out =
    (out ++ denote_all bs base ops, Ret tt).
Proof.
  intros HF. revert out. induction HF as [|op ops Hop HF IH]; intros out; cbn [patch_ops].
  { by rewrite app_nil_r. }
  change (op :: ops) with ([op] ++ ops). rewrite denote_all_app, denote_all_one, app_assoc.
  pose proof (num_blocks_int bs base base_int bs_pos).
  destruct Hop as [(Ht & _)|(Ht & _ & H0 & Hc & Hn)]; unfold denote; rewrite Ht; cbn [OpData OpBlock Z.eqb].
  - erewrite sm_bind_Ret by done. apply IH.
  - change (OpBlock =? OpData) with false. change (OpBlock =? OpBlock) with true. cbn iota.
    rewrite (proj2 (Z.eqb_neq _ _)), (proj2 (Z.leb_gt _ _)), uN_small, (proj2 (Z.ltb_ge _ _)) by lia.
    cbn [orb]. rewrite <- (Z2Nat.id (BlockStart op)) at 1 by done.
    erewrite sm_bind_Ret by (apply patch_blocks_ok; lia). apply IH.
Qed.

Lemma Patch_ok bufferSize ops out :
  bs <= maxAlloc -> Forall (op_ok bs base) ops ->
  Patch append bufferSize base ops bs out = (out ++ denote_all bs base ops, Ret tt).
Proof.
  intros Hm HF. unfold Patch. rewrite (proj2 (Z.eqb_neq _ _)) by lia.
  assert ((if 0 <? zlen base then u64 (u64 (zlen base) + bs - 1) / bs else 0)
          = Z.of_nat (num_blocks bs base)) as ->.
  { unfold num_blocks. unfold maxAlloc in Hm.
    destruct (Z.ltb_spec 0 (zlen base)).
    - rewrite (uN_small 64 (zlen base)), uN_small by lia.
      rewrite Z2Nat.id; [done|]. apply Z.div_pos; lia.
    - rewrite Z.div_small; [done|lia]. }
  assert (exists b, (if bufferSize <? bs then makeBytes bs else Ret []) = Ret (E := rsync_err) b) as [b ->].
  { case_match; [rewrite makeBytes_ok by lia|]; by eexists. }
  erewrite sm_bind_Ret by done. by apply patch_ops_ok.
Qed.
End PatchProofs.
