(* ===== verification/RsyncWire.v ===== *)
(** * The delta transfer API (lib/rsync/wire.go)

    The byte encodings of signatures and deltas, the three calls a transfer
    makes ([SignatureBytes], [DeltaBytes], [ApplyDelta]), and the properties
    of the package. *)
From Stdlib Require Import ZArith List Lia.
From Stdlib Require Import Strings.Byte.
From stdpp Require Import base list option gmap numbers tactics.
From S2P Require Import Prelude GoLib RollingHash RsyncSignature RsyncEngine RsyncProofs.

#[local] Open Scope Z_scope.

Definition sigCodecVersion : Z := 1.
Definition deltaCodecVersion : Z := 1.

(** A failed read of the codec, with the error it is wrapped in. *)
Definition orErr {E A} (e : E) (o : option A) : outcome E A :=
  match o with Some a => Ret a | None => Err e end.
(** [r.ReadByte()], [io.ReadFull(r, b[:n])] on a [bytes.Reader]. *)
Definition readByte (r : bytes) : option (Z * bytes) :=
  match r with [] => None | b :: r' => Some (b2z b, r') end.
Definition readN (n : nat) (r : bytes) : option (bytes * bytes) :=
  if (n <=? length r)%nat then Some (take n r, drop n r) else None.

(** ** Signatures *)

Definition encodeHash (h : BlockHash) : bytes := putBE 4 (WeakHash h) ++ StrongHash h.
Definition encodeSignature (sig : Signature) : bytes :=
  let buf := [z2b sigCodecVersion] in
  let buf := appendUvarint buf (BlockSize sig) in
  let buf := appendUvarint buf (LastBlockSize sig) in
  let buf := appendUvarint buf (zlen (Hashes sig)) in
  buf ++ concat (map encodeHash (Hashes sig)).

Definition perHash : Z := 4 + 20.
Fixpoint decodeHashes (n : nat) (r : bytes) : outcome rsync_err (list BlockHash) :=
  match n with
  | O => Ret []
  | S n =>
      '(wh, r) ← orErr ECorruptSignature (readN 4 r);
      '(sh, r) ← orErr ECorruptSignature (readN 20 r);
      hs ← decodeHashes n r;
      Ret ({| WeakHash := getBE wh; StrongHash := sh |} :: hs)
  end.
Definition decodeSignature (b : bytes) : outcome rsync_err Signature :=
  '(ver, r) ← orErr ECorruptSignature (readByte b);
  if negb (ver =? sigCodecVersion) then Err ECorruptSignature
  else
    '(blockSize, r) ← orErr ECorruptSignature (readUvarint r);
    '(lastBlockSize, r) ← orErr ECorruptSignature (readUvarint r);
    '(n, r) ← orErr ECorruptSignature (readUvarint r);
    if zlen r / perHash <? n then Err ECorruptSignature
    else
      hs ← decodeHashes (Z.to_nat n) r;
      Ret {| BlockSize := blockSize; LastBlockSize := lastBlockSize; Hashes := hs |}.

(** ** Deltas *)

Definition encodeOp (op : Operation) : bytes :=
  z2b (Type_ op) ::
  (if Type_ op =? OpBlock then appendUvarint (appendUvarint [] (BlockStart op)) (BlockCount op)
   else if Type_ op =? OpData then appendUvarint [] (zlen (Data op)) ++ Data op
   else []).
Definition encodeDelta (blockSize : Z) (ops : list Operation) : bytes :=
  let buf := [z2b deltaCodecVersion] in
  let buf := appendUvarint buf blockSize in
  let buf := appendUvarint buf (zlen ops) in
  buf ++ concat (map encodeOp ops).

Fixpoint decodeOps (n : nat) (r : bytes) : outcome rsync_err (list Operation) :=
  match n with
  | O => Ret []
  | S n =>
      '(t, r) ← orErr ECorruptDelta (readByte r);
      '(op, r) ←
        (if t =? OpBlock then
           '(start, r) ← orErr ECorruptDelta (readUvarint r);
           '(count, r) ← orErr ECorruptDelta (readUvarint r);
           Ret (blockOp start count, r)
         else if t =? OpData then
           '(size, r) ← orErr ECorruptDelta (readUvarint r);
           if (maxDataOperationSize <? size) || (zlen r <? size) then Err ECorruptDelta
           else
             '(data, r) ← orErr ECorruptDelta (readN (Z.to_nat size) r);
             Ret (dataOp data, r)
         else Err ECorruptDelta);
      ops ← decodeOps n r;
      Ret (op :: ops)
  end.
Definition decodeDelta (b : bytes) : outcome rsync_err (Z * list Operation) :=
  '(ver, r) ← orErr ECorruptDelta (readByte b);
  if negb (ver =? deltaCodecVersion) then Err ECorruptDelta
  else
    '(blockSize, r) ← orErr ECorruptDelta (readUvarint r);
    '(n, r) ← orErr ECorruptDelta (readUvarint r);
    if zlen r / 2 <? n then Err ECorruptDelta
    else
      ops ← decodeOps (Z.to_nat n) r;
      Ret (blockSize, ops).

(** ** The API *)

(** [NewEngine]: the size of the engine's buffer. *)
Definition NewEngine (bufferSize : Z) : Z := if bufferSize <? 1 then maxBlockSize else bufferSize.

Definition with_state {S E A} (m : S * outcome E unit) (f : S -> A) : outcome E A :=
  let '(s, r) := m in
  match r with Ret _ => Ret (f s) | Err e => Err e | Panic => Panic | OutOfFuel => OutOfFuel end.

Section Api.
Context (sha1 : bytes -> bytes).

Definition SignatureBytes (base : bytes) : outcome rsync_err bytes :=
  sig ← GenerateSignature sha1 (newReader base) (zlen base);
  Ret (encodeSignature sig).
Definition DeltaBytes (target sigBytes : bytes) : outcome rsync_err bytes :=
  sig ← decodeSignature sigBytes;
  with_state (Deltify sha1 collect (newReader target) (Some sig) []) (encodeDelta (BlockSize sig)).
Definition ApplyDelta (base deltaBytes : bytes) : outcome rsync_err bytes :=
  '(blockSize, ops) ← decodeDelta deltaBytes;
  with_state (Patch append (NewEngine 0) base ops blockSize []) id.
End Api.

(** ** Codec lemmas *)

Definition hash_wf (h : BlockHash) : Prop := 0 <= WeakHash h < 2 ^ 32 /\ length (StrongHash h) = 20%nat.
Definition signature_wf (sig : Signature) : Prop :=
  0 <= BlockSize sig < 2 ^ 64 /\ 0 <= LastBlockSize sig < 2 ^ 64 /\
  zlen (Hashes sig) < 2 ^ 64 /\ Forall hash_wf (Hashes sig).
(** The operations the codec can carry. *)
Definition op_wf (op : Operation) : Prop :=
  (Type_ op = OpData /\ BlockStart op = 0 /\ BlockCount op = 0 /\ zlen (Data op) <= maxDataOperationSize) \/
  (Type_ op = OpBlock /\ Data op = [] /\ 0 <= BlockStart op < 2 ^ 64 /\ 0 <= BlockCount op < 2 ^ 64).

Lemma readN_app n x r : length x = n -> readN n (x ++ r) = Some (x, r).
Proof.
  intros <-. unfold readN. rewrite length_app, (proj2 (Nat.leb_le _ _)) by lia.
  by rewrite take_app_length, drop_app_length.
Qed.

Lemma appendUvarint_app buf x r : appendUvarint buf x ++ r = buf ++ uvarint_groups 10 x ++ r.
Proof. unfold appendUvarint. by rewrite app_assoc. Qed.

Lemma decodeHashes_app hs r :
  Forall hash_wf hs -> decodeHashes (length hs) (concat (map encodeHash hs) ++ r) = Ret hs.
Proof.
  intros HF. revert r. induction HF as [|h hs [Hw Hl] HF IH]; intros r; [done|].
  cbn [length decodeHashes map concat]. unfold encodeHash at 1. rewrite <- !app_assoc.
  rewrite readN_app by apply putBE_length. cbn [orErr mbind outcome_bind].
  rewrite readN_app by done. cbn [orErr mbind outcome_bind]. rewrite IH. cbn [mbind outcome_bind].
  rewrite getBE_putBE. change (256 ^ Z.of_nat 4) with (2 ^ 32). rewrite Z.mod_small by done.
  by destruct h.
Qed.

Lemma concat_encodeHash_length hs :
  Forall hash_wf hs -> zlen (concat (map encodeHash hs)) = perHash * zlen hs.
Proof.
  induction 1 as [|h hs [Hw Hl] HF IH]; [done|]. cbn [map concat]. unfold encodeHash at 1.
  rewrite !length_app, putBE_length, Hl. unfold perHash in *. cbn [length]. lia.
Qed.

Lemma decode_encodeSignature sig : signature_wf sig -> decodeSignature (encodeSignature sig) = Ret sig.
Proof.
  intros (Hb & Hl & Hn & HF). unfold decodeSignature, encodeSignature.
  rewrite !appendUvarint_app. cbn [app readByte orErr mbind outcome_bind].
  rewrite b2z_z2b. cbn [negb Z.eqb]. change (negb (sigCodecVersion mod 256 =? sigCodecVersion)) with false.
  cbn iota. rewrite readUvarint_app by done. cbn [orErr mbind outcome_bind].
  rewrite readUvarint_app by done. cbn [orErr mbind outcome_bind].
  rewrite readUvarint_app by lia. cbn [orErr mbind outcome_bind].
  rewrite concat_encodeHash_length by done.
  rewrite (Z.mul_comm perHash), Z.div_mul, Z.ltb_irrefl by done. rewrite Nat2Z.id.
  rewrite <- (app_nil_r (concat _)), decodeHashes_app by done. by destruct sig.
Qed.

Lemma decodeOps_app ops r :
  Forall op_wf ops -> decodeOps (length ops) (concat (map encodeOp ops) ++ r) = Ret ops.
Proof.
  intros HF. revert r. induction HF as [|op ops Hop HF IH]; intros r; [done|].
  cbn [length decodeOps map concat]. unfold encodeOp at 1. rewrite <- !app_assoc.
  cbn [app readByte orErr mbind outcome_bind]. rewrite b2z_z2b.
  destruct Hop as [(Ht & Hs & Hc & Hd)|(Ht & Hd & Hs & Hc)]; rewrite Ht.
  - change (OpData mod 256) with OpData. change (OpData =? OpBlock) with false.
    change (OpData =? OpData) with true. cbn iota. rewrite <- app_assoc, appendUvarint_app. cbn [app].
    unfold maxDataOperationSize in Hd.
    rewrite readUvarint_app by lia. cbn [orErr mbind outcome_bind].
    rewrite (proj2 (Z.ltb_ge maxDataOperationSize _)), (proj2 (Z.ltb_ge _ _))
      by (unfold maxDataOperationSize; rewrite ?length_app; lia).
    cbn [orb]. rewrite Nat2Z.id, readN_app by done. cbn [orErr mbind outcome_bind].
    rewrite IH. cbn [mbind outcome_bind]. destruct op as [t st ct d]; cbn [Type_ BlockStart BlockCount Data] in *; by subst.
  - change (OpBlock mod 256) with OpBlock. change (OpBlock =? OpBlock) with true. cbn iota.
    rewrite !appendUvarint_app. cbn [app].
    rewrite readUvarint_app by done. cbn [orErr mbind outcome_bind].
    rewrite readUvarint_app by done. cbn [orErr mbind outcome_bind].
    rewrite IH. cbn [mbind outcome_bind]. destruct op as [t st ct d]; cbn [Type_ BlockStart BlockCount Data] in *; by subst.
Qed.

Lemma uvarint_length x : (1 <= length (uvarint_groups 10 x))%nat.
Proof.
  change (uvarint_groups 10 x) with
    (if 128 <=? x then z2b (Z.lor (u8 x) 128) :: uvarint_groups 9 (Z.shiftr x 7) else [z2b x]).
  destruct (128 <=? x); cbn [length]; lia.
Qed.

Lemma encodeOps_length ops : Forall op_wf ops -> 2 * zlen ops <= zlen (concat (map encodeOp ops)).
Proof.
  induction 1 as [|op ops Hop HF IH]; [done|]. cbn [map concat]. rewrite length_app.
  assert (2 <= length (encodeOp op))%nat; [|cbn [length]; lia].
  unfold encodeOp, appendUvarint. destruct Hop as [(Ht & _)|(Ht & _)]; rewrite Ht.
  - change (OpData =? OpBlock) with false. change (OpData =? OpData) with true. cbn iota.
    pose proof (uvarint_length (zlen (Data op))). cbn [length app]. rewrite length_app. lia.
  - change (OpBlock =? OpBlock) with true. cbn iota.
    pose proof (uvarint_length (BlockCount op)). cbn [length app]. rewrite length_app. lia.
Qed.

Lemma decode_encodeDelta bs ops :
  0 <= bs < 2 ^ 64 -> zlen ops < 2 ^ 64 -> Forall op_wf ops ->
  decodeDelta (encodeDelta bs ops) = Ret (bs, ops).
Proof.
  intros Hb Hn HF. unfold decodeDelta, encodeDelta.
  rewrite !appendUvarint_app. cbn [app readByte orErr mbind outcome_bind].
  rewrite b2z_z2b. change (negb (deltaCodecVersion mod 256 =? deltaCodecVersion)) with false.
  cbn iota. rewrite readUvarint_app by done. cbn [orErr mbind outcome_bind].
  rewrite readUvarint_app by lia. cbn [orErr mbind outcome_bind].
  pose proof (encodeOps_length ops HF).
  rewrite (proj2 (Z.ltb_ge _ _)) by (apply Z.div_le_lower_bound; lia). rewrite Nat2Z.id.
  rewrite <- (app_nil_r (concat _)), decodeOps_app by done. done.
Qed.

(** ** Deltify: lemmas for the properties *)

Lemma op_ok_wf bs base op :
  zlen base < 2 ^ 63 -> 0 < bs -> op_ok bs base op -> op_wf op.
Proof.
  intros Hb Hbs [(Ht & Hs & Hc & Hd)|(Ht & Hd & Hs & Hc & Hn)]; [left; repeat split; auto; lia|].
  right. pose proof (num_blocks_int bs base Hb Hbs). repeat split; auto; lia.
Qed.

(** Every well formed operation stands for at least one byte. *)
Lemma denote_nonempty bs base op : 0 < bs -> op_ok bs base op -> 1 <= zlen (denote bs base op).
Proof.
  intros Hbs [(Ht & _ & _ & Hd)|(Ht & Hd & Hs & Hc & Hn)]; unfold denote; rewrite Ht.
  - change (OpData =? OpData) with true. cbn iota. lia.
  - change (OpBlock =? OpData) with false. cbn iota.
    destruct (Z.to_nat (BlockCount op)) as [|n] eqn:E; [lia|]. cbn [seq map concat].
    rewrite length_app.
    pose proof (block_nonempty bs base (Z.to_nat (BlockStart op)) Hbs ltac:(lia)). lia.
Qed.

Lemma denote_all_length bs base ops :
  0 < bs -> Forall (op_ok bs base) ops -> zlen ops <= zlen (denote_all bs base ops).
Proof.
  intros Hbs. induction 1 as [|op ops Hop HF IH]; [done|].
  change (op :: ops) with ([op] ++ ops) at 2. rewrite denote_all_app, denote_all_one, length_app.
  pose proof (denote_nonempty bs base op Hbs Hop). cbn [length]. lia.
Qed.

Lemma signs_wf sha1 sig base :
  (forall x, length (sha1 x) = 20%nat) -> zlen base < 2 ^ 63 -> signs sha1 sig base -> signature_wf sig.
Proof.
  intros H20 Hb Hs. pose proof (sig_bs sha1 base sig Hs). pose proof (last_size sha1 base sig Hs).
  pose proof (num_blocks_int (BlockSize sig) base Hb ltac:(lia)). unfold maxBlockSize in *.
  destruct Hs as (_ & HH & _). unfold signature_wf. rewrite HH, length_map, length_seq.
  repeat split; try lia. apply Forall_map, List.Forall_forall. intros i _.
  unfold hash_wf, hash_of, weak_sum; cbn [WeakHash StrongHash].
  split; [|apply H20]. pose proof (uN_range 16 (sum_a (block (BlockSize sig) base i)) ltac:(lia)).
  pose proof (uN_range 16 (sum_b (block (BlockSize sig) base i)) ltac:(lia)).
  rewrite lor_disjoint by lia. lia.
Qed.

Lemma GenerateSignature_block_size sha1 base sig :
  GenerateSignature sha1 (newReader base) (zlen base) = Ret sig ->
  BlockSize sig = OptimalBlockSizeForBaseLength (zlen base).
Proof.
  pose proof (OptimalBlockSize_range (zlen base)) as Hr. unfold minBlockSize in Hr.
  unfold GenerateSignature. rewrite signature_loop_spec; cbn [BlockSize rd_data newReader]; [|lia|lia].
  cbn [mbind outcome_bind]. intros [= <-]. by case_match.
Qed.

(** ** Properties *)

(** C5: The three calls of a delta transfer rebuild the target: the signature
    of the base can be computed and sent, a delta can be computed from its
    encoding on the other side, and applying that delta to the base returns
    exactly the target, for all contents and sizes and with every loop
    finishing, provided no window of the target collides with a base block
    under SHA-1. *)
Theorem rsync_roundtrip sha1 base target :
  (forall x, length (sha1 x) = 20%nat) ->
  zlen base < 2 ^ 63 -> zlen target < 2 ^ 63 ->
  no_collision sha1 (OptimalBlockSizeForBaseLength (zlen base)) base target ->
  exists sg d, SignatureBytes sha1 base = Ret sg /\ DeltaBytes sha1 target sg = Ret d /\
    ApplyDelta base d = Ret target.
Proof.
  intros H20 Hb Ht Hc. destruct (GenerateSignature_signs sha1 base) as (sig & Hg & Hs).
  rewrite <- (GenerateSignature_block_size sha1 base sig Hg) in Hc.
  pose proof (sig_bs sha1 base sig Hs) as Hbs. unfold maxBlockSize in Hbs.
  destruct (Deltify_denotes sha1 base target sig Hb Hs Hc) as (ops & Hd & Hden & Hok).
  exists (encodeSignature sig), (encodeDelta (BlockSize sig) ops).
  unfold SignatureBytes, DeltaBytes, ApplyDelta. rewrite Hg. split; [done|].
  rewrite decode_encodeSignature by (by apply (signs_wf sha1 sig base)).
  cbn [mbind outcome_bind]. rewrite Hd. split; [done|].
  pose proof (denote_all_length (BlockSize sig) base ops ltac:(lia) Hok) as Hlen. rewrite Hden in Hlen.
  rewrite decode_encodeDelta; [|lia|lia|].
  - cbn [mbind outcome_bind]. rewrite (Patch_ok (BlockSize sig) base Hb) by (done || unfold maxAlloc; lia).
    cbn. by rewrite Hden.
  - eapply List.Forall_impl; [|exact Hok]. intros op. apply op_ok_wf; lia.
Qed.

(** A 20 byte "hash" that keeps the first 20 bytes: collision free on short
    blocks, for the examples. *)
Definition prefix20 (x : bytes) : bytes := take 20 (x ++ replicate 20 x00).

Lemma prefix20_length x : length (prefix20 x) = 20%nat.
Proof. unfold prefix20. rewrite length_take, length_app, length_replicate. lia. Qed.

Lemma prefix20_inj x y :
  length x = length y -> (length x <= 20)%nat -> prefix20 x = prefix20 y -> x = y.
Proof.
  intros Hl Hx H. apply (f_equal (take (length x))) in H. unfold prefix20 in H.
  rewrite !take_take, Nat.min_l in H by done. rewrite take_app_length in H.
  by rewrite Hl, take_app_length in H.
Qed.

Lemma rsync_roundtrip_witness :
  exists sg d, SignatureBytes prefix20 (gostr "hello") = Ret sg /\
    DeltaBytes prefix20 (gostr "say hello, hello") sg = Ret d /\
    ApplyDelta (gostr "hello") d = Ret (gostr "say hello, hello").
Proof.
  apply (rsync_roundtrip prefix20 (gostr "hello") (gostr "say hello, hello") prefix20_length).
  - reflexivity.
  - reflexivity.
  - intros i off Hi w Hl Hs. apply prefix20_inj; [exact Hl| |exact Hs].
    rewrite Hl. pose proof (block_nonempty 1024 (gostr "hello") i ltac:(lia) Hi).
    unfold block. rewrite length_take, length_drop.
    change (length (gostr "hello")) with 5%nat. lia.
Defined.

(** The block size of a base of a given length is the integer square root
    of 24 times the length, kept between 1 KiB and 64 KiB; Newton's iteration
    on 64 bit words computes that root exactly and within its bound. *)
Theorem OptimalBlockSize_sqrt len :
  0 <= len < 2 ^ 64 ->
  OptimalBlockSizeForBaseLength len =
    Z.max minBlockSize (Z.min maxBlockSize (Z.sqrt (24 * len))).
Proof.
  intros Hl. unfold OptimalBlockSizeForBaseLength, minBlockSize, maxBlockSize.
  destruct (Z.eqb_spec len 0) as [->|Hne]; [done|].
  assert (maxUint64 / 24 = 768614336404564650) as -> by (vm_compute; done).
  destruct (Z.ltb_spec 768614336404564650 len).
  - assert (64 * 1024 <= Z.sqrt (24 * len)); [|lia].
    apply Z.sqrt_le_square; lia.
  - rewrite uN_small, isqrt_sqrt by lia. rewrite (Z.mul_comm len).
    repeat case_bool; zbool; lia.
Qed.

Lemma OptimalBlockSize_sqrt_witness :
  OptimalBlockSizeForBaseLength (16 * 2 ^ 20) = 20066 /\
  OptimalBlockSizeForBaseLength (16 * 2 ^ 20) =
    Z.max minBlockSize (Z.min maxBlockSize (Z.sqrt (24 * (16 * 2 ^ 20)))).
Proof.
  split; [vm_compute; reflexivity|]. apply OptimalBlockSize_sqrt. lia.
Defined.
