(* ===== verification/RsyncProps.v ===== *)
(** * Delta transfer: error paths, hostile input and efficiency

    What [Patch] does with any list of operations, what the decoders accept,
    the behaviour on absurd block sizes, and that an unchanged file is sent
    without literal data. *)
From Stdlib Require Import ZArith List Lia.
From Stdlib Require Import Strings.Byte.
From stdpp Require Import base list option gmap numbers tactics.
From S2P Require Import Prelude GoLib RollingHash RsyncSignature RsyncEngine RsyncProofs RsyncWire.

#[local] Open Scope Z_scope.

(** ** Specification of Patch *)

(** What is wrong with an operation on a base of [nb] blocks. *)
Definition op_error (nb : Z) (op : Operation) : option rsync_err :=
  if Type_ op =? OpData then None
  else if Type_ op =? OpBlock then
    if BlockCount op =? 0 then Some EZeroBlockCount
    else if nb <? BlockStart op + BlockCount op then Some EOutOfRange
    else None
  else Some EUnknownOperation.

(** Write what each operation denotes, up to the first one in error. *)
Fixpoint patch_spec (bs : Z) (base : bytes) (ops : list Operation) (out : bytes) : bytes * outcome rsync_err unit :=
  match ops with
  | [] => (out, Ret tt)
  | op :: ops =>
      match op_error (Z.of_nat (num_blocks bs base)) op with
      | Some e => (out, Err e)
      | None => patch_spec bs base ops (out ++ denote bs base op)
      end
  end.

Definition op_u64 (op : Operation) : Prop := 0 <= BlockStart op < 2 ^ 64 /\ 0 <= BlockCount op < 2 ^ 64.

Lemma patch_ops_spec bs base ops out :
  zlen base < 2 ^ 63 -> 0 < bs -> Forall op_u64 ops ->
  patch_ops append ops base bs (Z.of_nat (num_blocks bs base)) out = patch_spec bs base ops out.
Proof.
  intros Hb Hbs HF. revert out. pose proof (num_blocks_int bs base Hb Hbs).
  induction HF as [|op ops [H0 Hc] HF IH]; intros out; [done|]. cbn [patch_ops patch_spec].
  unfold op_error, denote. destruct (Type_ op =? OpData).
  { erewrite sm_bind_Ret by done. apply IH. }
  destruct (Type_ op =? OpBlock); [|done].
  destruct (Z.eqb_spec (BlockCount op) 0); [done|].
  set (nb := Z.of_nat (num_blocks bs base)) in *.
  destruct (Z.ltb_spec nb (BlockStart op + BlockCount op)) as [Hlt|Hge].
  - assert ((nb <=? BlockStart op) || (u64 (nb - BlockStart op) <? BlockCount op) = true) as ->; [|done].
    destruct (Z.leb_spec nb (BlockStart op)); [done|]. rewrite uN_small by lia.
    apply Z.ltb_lt. lia.
  - rewrite (proj2 (Z.leb_gt _ _)), uN_small, (proj2 (Z.ltb_ge _ _)) by lia. cbn [orb].
    rewrite <- (Z2Nat.id (BlockStart op)) at 1 by lia.
    erewrite sm_bind_Ret by (apply (patch_blocks_ok bs base Hb Hbs); lia). apply IH.
Qed.

Lemma patch_prologue bs base :
  zlen base < 2 ^ 63 -> 0 < bs <= maxAlloc ->
  (if 0 <? zlen base then u64 (u64 (zlen base) + bs - 1) / bs else 0) = Z.of_nat (num_blocks bs base).
Proof.
  intros Hb Hbs. unfold maxAlloc, num_blocks in *. destruct (Z.ltb_spec 0 (zlen base)).
  - rewrite (uN_small 64 (zlen base)), uN_small by lia. rewrite Z2Nat.id; [done|]. apply Z.div_pos; lia.
  - rewrite Z.div_small; [done|lia].
Qed.

(** ** What the decoders accept *)

Lemma readN_length n r x r' : readN n r = Some (x, r') -> length x = n /\ r = x ++ r'.
Proof.
  unfold readN. destruct (Nat.leb_spec n (length r)); [|done]. intros [= <- <-].
  rewrite length_take, take_drop. split; [lia|done].
Qed.

Lemma readUvarint_shrinks r x r' : readUvarint r = Some (x, r') -> (length r' < length r)%nat.
Proof.
  unfold readUvarint. generalize 0 at 1 as s. generalize 0 as acc. generalize 10%nat as n. intros n.
  revert r. induction n as [|n IH]; intros r acc s; [done|]. destruct r as [|b r]; [done|].
  cbn [readUvarint_loop]. repeat case_match; try done.
  - intros [= _ <-]. simpl. lia.
  - intros E. apply IH in E. simpl. lia.
Qed.

Definition data_bytes (ops : list Operation) : Z := zlen (concat (map Data ops)).

Lemma decodeOps_accepts n r ops :
  decodeOps n r = Ret ops ->
  Forall op_wf ops /\ length ops = n /\ data_bytes ops <= zlen r.
Proof.
  revert r ops. induction n as [|n IH]; intros r ops; cbn [decodeOps].
  { intros [= <-]. split; [constructor|]. unfold data_bytes; simpl. split; [done|lia]. }
  destruct r as [|t r]; [done|]. cbn [readByte orErr mbind outcome_bind].
  destruct (Z.eqb_spec (b2z t) OpBlock).
  - destruct (readUvarint r) as [ [start r1] |] eqn:E1; [|done]. cbn [orErr mbind outcome_bind].
    destruct (readUvarint r1) as [ [count r2] |] eqn:E2; [|done]. cbn [orErr mbind outcome_bind].
    destruct (decodeOps n r2) as [ops'| | |] eqn:E3; try done. cbn [mbind outcome_bind]. intros [= <-].
    destruct (IH _ _ E3) as (HF & Hl & Hd). apply readUvarint_shrinks in E1 as L1, E2 as L2.
    apply readUvarint_range in E1, E2. split; [|split].
    + constructor; [right; cbn; auto|done].
    + cbn [length]. lia.
    + unfold data_bytes in *. cbn [map concat Data blockOp app length]. lia.
  - destruct (Z.eqb_spec (b2z t) OpData); [|done].
    destruct (readUvarint r) as [ [size r1] |] eqn:E1; [|done]. cbn [orErr mbind outcome_bind].
    apply readUvarint_shrinks in E1 as L1. apply readUvarint_range in E1.
    destruct ((maxDataOperationSize <? size) || (zlen r1 <? size)) eqn:Es; [done|]. zbool.
    destruct (readN (Z.to_nat size) r1) as [ [data r2] |] eqn:E2; [|done]. cbn [orErr mbind outcome_bind].
    destruct (decodeOps n r2) as [ops'| | |] eqn:E3; try done. cbn [mbind outcome_bind]. intros [= <-].
    destruct (IH _ _ E3) as (HF & Hl & Hd). apply readN_length in E2 as [L2 ->].
    split; [|split].
    + constructor; [left; cbn; repeat split; lia|done].
    + cbn [length]. lia.
    + unfold data_bytes in *. cbn [map concat Data dataOp length]. rewrite !length_app in *. lia.
Qed.

Lemma decodeDelta_accepts b bs ops :
  decodeDelta b = Ret (bs, ops) ->
  0 <= bs < 2 ^ 64 /\ Forall op_wf ops /\ 2 * zlen ops < zlen b /\ data_bytes ops < zlen b.
Proof.
  unfold decodeDelta. destruct b as [|v r]; [done|]. cbn [readByte orErr mbind outcome_bind].
  case_match; [done|].
  destruct (readUvarint r) as [ [bs' r1] |] eqn:E1; [|done]. cbn [orErr mbind outcome_bind].
  destruct (readUvarint r1) as [ [n r2] |] eqn:E2; [|done]. cbn [orErr mbind outcome_bind].
  destruct (Z.ltb_spec (zlen r2 / 2) n) as [|Hle]; [done|].
  destruct (decodeOps (Z.to_nat n) r2) as [ops'| | |] eqn:E3; try done. cbn [mbind outcome_bind].
  intros [= <- <-]. apply decodeOps_accepts in E3 as (HF & Hl & Hd).
  apply readUvarint_shrinks in E1 as L1, E2 as L2. apply readUvarint_range in E1, E2.
  pose proof (Z.mul_div_le (zlen r2) 2 ltac:(lia)). cbn [length]. repeat split; auto; lia.
Qed.

Lemma op_wf_u64 op : op_wf op -> op_u64 op.
Proof. intros [(_ & Hs & Hc & _)|(_ & _ & Hs & Hc)]; split; lia. Qed.

(** ** The weak map is complete *)

Lemma weakMap_of_snoc hs h :
  weakMap_of (hs ++ [h]) =
    <[WeakHash h := default [] (weakMap_of hs !! WeakHash h) ++ [length hs]]> (weakMap_of hs).
Proof.
  unfold weakMap_of. rewrite imap_app, foldl_app. simpl. by rewrite Nat.add_0_r.
Qed.

Lemma weakMap_complete hs i h :
  hs !! i = Some h -> exists l, weakMap_of hs !! WeakHash h = Some l /\ i ∈ l.
Proof.
  induction hs as [|g hs IH] using rev_ind; [done|].
  rewrite weakMap_of_snoc. intros Hi.
  destruct (decide (i < length hs)%nat) as [Hlt|Hge].
  - rewrite lookup_app_l in Hi by done. destruct (IH Hi) as (l & Hl & Hin).
    destruct (decide (WeakHash g = WeakHash h)) as [E|E].
    + rewrite E, lookup_insert_eq, Hl. eexists. split; [done|]. cbn. rewrite elem_of_app. auto.
    + rewrite lookup_insert_ne by done. eauto.
  - apply lookup_lt_Some in Hi as Hlen. rewrite length_app in Hlen. simpl in Hlen.
    replace i with (length hs) in * by lia.
    rewrite lookup_app_r, Nat.sub_diag in Hi by lia. injection Hi as ->.
    rewrite lookup_insert_eq. eexists. split; [done|]. rewrite elem_of_app, list_elem_of_singleton. auto.
Qed.

Lemma match_candidates_complete sig data strong cs i :
  i ∈ cs -> blockLength sig i = zlen data -> StrongHash <$> Hashes sig !! i = Some strong ->
  is_Some (match_candidates sig data strong cs).
Proof.
  intros Hin Hl Hs. induction cs as [|c cs IH]; [by apply elem_of_nil in Hin|].
  cbn [match_candidates]. apply elem_of_cons in Hin as [->|Hin].
  - rewrite Hl, Z.eqb_refl, bool_decide_true by done. eauto.
  - case_match; eauto.
Qed.

Section Identical.
Context (sha1 : bytes -> bytes) (base : bytes) (sig : Signature).
Abbreviation bs := (BlockSize sig).
Abbreviation wm := (weakMap_of (Hashes sig)).
Hypothesis sig_ok : signs sha1 sig base.

(** A block of the base always matches. *)
Lemma match_complete i :
  (i < num_blocks bs base)%nat ->
  exists idx, matchBlockWithWeak sha1 (block bs base i) (weak_sum (block bs base i)) wm sig = Some idx.
Proof.
  intros Hi. pose proof (hashes_lookup sha1 base sig sig_ok i) as Hh. rewrite decide_True in Hh by done.
  destruct (weakMap_complete _ _ _ Hh) as (l & Hl & Hin). unfold matchBlockWithWeak.
  cbn [WeakHash hash_of] in Hl. rewrite Hl.
  eapply match_candidates_complete; [done| |by rewrite Hh].
  destruct sig_ok as (_ & _ & HL & _). symmetry. by apply HL.
Qed.

(** Nothing literal has been or will be emitted. *)
Definition only_blocks (s : delta_state (H := list Operation)) : Prop :=
  pending s = [] /\ Forall (fun op => Type_ op = OpBlock) (hst s) /\
  (forall op, pendingBlock s = Some op -> Type_ op = OpBlock).

Lemma emitBlock_only_blocks idx s :
  only_blocks s -> exists s', emitBlock collect idx s = (s', Ret tt) /\ only_blocks s' /\ win s' = win s.
Proof.
  intros (Hp & Hh & Hb). unfold emitBlock.
  erewrite sm_bind_Ret by (unfold flushPending; rewrite Hp; done).
  assert (exists s', startBlock collect idx s = (s', Ret tt) /\ only_blocks s' /\ win s' = win s) as Hstart.
  { unfold startBlock. erewrite sm_bind_Ret by apply flushBlock_collect. eexists. split; [done|].
    split; [|done]. split; [done|]. split; [|by intros ? [= <-]]. cbn [hst set_pendingBlock].
    apply Forall_app. split; [done|]. destruct (pendingBlock s); simpl; constructor; auto. }
  unfold extendBlock. destruct (pendingBlock s) as [op|] eqn:E; [|done]. case_match; [|done].
  eexists. split; [done|]. split; [|done]. split; [done|]. split; [done|].
  intros ? [= <-]. cbn [Type_]. auto.
Qed.

(** The cursor is at the start of block [k]. *)
Definition aligned (k : nat) (s : delta_state (H := list Operation)) : Prop :=
  only_blocks s /\ win_ok (win s) /\ win_rem (win s) = drop (k * Z.to_nat bs) base.

Lemma aligned_ensure k s :
  aligned k s -> exists w, win_ensure bs s = (set_win w s, Ret (avail w)) /\ aligned k (set_win w s) /\
    (bs <= avail w \/ avail w = zlen (win_rem w)).
Proof.
  intros (Ho & Hw & Hr). destruct (ensure_ok (win s) bs Hw (sig_bs sha1 base sig sig_ok)) as (w & He & Hw' & Hr' & Hd).
  exists w. unfold win_ensure. rewrite He. split; [done|]. split; [|done]. split; [done|]. split; [done|].
  cbn [win set_win]. by rewrite Hr'.
Qed.

(** Block [k] at the cursor is matched and skipped. *)
Lemma aligned_match k s n :
  aligned k s -> (k < num_blocks bs base)%nat -> n = zlen (block bs base k) -> n <= avail (win s) ->
  peek (win s) n = block bs base k /\
  exists idx s1, matchBlockWithWeak sha1 (block bs base k) (weak_sum (block bs base k)) wm sig = Some idx /\
    emitBlock collect idx s = (s1, Ret tt) /\ only_blocks s1 /\
    win_ok (win (set_win (advance (win s1) n) s1)) /\
    win_rem (win (set_win (advance (win s1) n) s1)) = drop (S k * Z.to_nat bs) base.
Proof.
  intros (Ho & Hw & Hr) Hk Hn Ha. pose proof (sig_bs sha1 base sig sig_ok) as Hbs.
  pose proof (length_block bs base k ltac:(lia)) as Hl.
  apply num_blocks_bound in Hk as Hk'; [|lia]. split.
  - rewrite peek_rem, Hr by done. unfold block. subst n. unfold block.
    rewrite Nat2Z.id, length_take.
    destruct (Nat.min_spec (Z.to_nat bs) (length (drop (k * Z.to_nat bs) base))) as [ [_ ->]|[Hge ->] ]; [done|].
    by rewrite !take_ge by lia.
  - destruct (match_complete k Hk) as (idx & Hm).
    destruct (emitBlock_only_blocks idx s Ho) as (s1 & He & Ho1 & Hw1).
    exists idx, s1. split; [done|]. split; [done|]. split; [done|]. cbn [win set_win]. rewrite Hw1.
    destruct (advance_ok (win s) n Hw ltac:(lia)) as [Hok ->]. split; [done|].
    rewrite Hr, drop_drop. destruct (Z.le_gt_cases bs (zlen base - Z.of_nat k * bs)).
    + f_equal. lia.
    + rewrite !drop_ge; [done|lia..].
Qed.

Lemma last_block_size k :
  (k < num_blocks bs base)%nat -> zlen (block bs base k) < bs -> LastBlockSize sig = zlen (block bs base k).
Proof.
  intros Hk Hl. pose proof (sig_bs sha1 base sig sig_ok) as Hbs.
  destruct sig_ok as (_ & HH & HL & _). rewrite HL in Hl |- * by done. unfold blockLength in *.
  by case_match; [|lia].
Qed.

(** A round of the outer loop at an aligned cursor is one block match. *)
Lemma identical_round k s fuel ifuel :
  aligned k s -> (0 < ifuel)%nat -> (k < num_blocks bs base)%nat ->
  exists s', aligned (S k) s' /\
    outer_loop sha1 collect wm sig (S fuel) ifuel s = outer_loop sha1 collect wm sig fuel ifuel s'.
Proof.
  intros Ha Hif Hk. cbn [outer_loop]. pose proof (sig_bs sha1 base sig sig_ok) as Hbs.
  rewrite (i64_bs sha1 base sig sig_ok), (i64_last sha1 base sig sig_ok).
  destruct (aligned_ensure k s Ha) as (w & Hw & Hal & Hd). erewrite sm_bind_Ret by exact Hw.
  set (s0 := set_win w s) in *. pose proof Hal as (_ & Hok & Hr). change (win s0) with w in Hok, Hr.
  pose proof (block_nonempty bs base k ltac:(lia) Hk) as Hne.
  pose proof (length_block bs base k ltac:(lia)) as Hlb.
  assert (zlen (win_rem w) = zlen base - Z.of_nat k * bs) as Hrl.
  { apply num_blocks_bound in Hk; [|lia]. rewrite Hr, length_drop. lia. }
  pose proof (avail_le_rem w Hok).
  destruct (aligned_match k s0 (zlen (block bs base k)) Hal Hk eq_refl) as (Hpk & idx & s1 & Hm & He & Ho1 & Hok1 & Hr1).
  { change (win s0) with w. lia. }
  change (win s0) with w in Hpk. rewrite (proj2 (Z.eqb_neq _ _)) by lia.
  destruct (Z.ltb_spec (avail w) bs) as [Hlt|Hge].
  - rewrite (last_block_size k Hk) by lia.
    assert (zlen (block bs base k) = avail w) as Hav by lia.
    erewrite sm_bind_Ret by done. change (win s0) with w.
    rewrite (proj2 (Z.ltb_lt 0 _)), (proj2 (Z.ltb_lt _ bs)), (proj2 (Z.leb_le _ _)) by lia. cbn [andb].
    rewrite <- Hav, Hpk, Nat2Z.id, firstn_all.
    erewrite sm_bind_Ret by (unfold slift; rewrite (matchBlock_eq sha1 base sig (block bs base k)) by lia; rewrite Hm; done).
    cbv beta iota. erewrite sm_bind_Ret by exact He. erewrite sm_bind_Ret by done.
    eexists. split; [|reflexivity]. split; [exact Ho1|]. split; [exact Hok1|exact Hr1].
  - assert (zlen (block bs base k) = bs) as Hav by lia. rewrite Hav in Hpk, Hok1, Hr1.
    destruct (New_Write_hashes (E := rsync_err) (block bs base k)) as (rh & Hn & Hh).
    { intros E. rewrite E in Hav. simpl in Hav. lia. }
    { unfold maxBlockSize, maxAlloc in *. lia. }
    rewrite Hav in Hn. erewrite sm_bind_Ret by (unfold slift; rewrite Hn; done). erewrite sm_bind_Ret by done.
    change (win s0) with w. rewrite Hpk. destruct ifuel as [|ifuel]; [lia|].
    exists (set_win (advance (win s1) bs) s1). split; [by split|].
    erewrite sm_bind_Ret; [reflexivity|]. cbn [inner_loop].
    rewrite (i64_bs sha1 base sig sig_ok). erewrite sm_bind_Ret by done. change (win s0) with w.
    rewrite Hpk, Write_sum, Hm. by erewrite sm_bind_Ret by exact He.
Qed.

Lemma identical_scan fuel ifuel k s :
  aligned k s -> (k <= num_blocks bs base)%nat -> (num_blocks bs base - k < fuel)%nat -> (0 < ifuel)%nat ->
  exists s', outer_loop sha1 collect wm sig fuel ifuel s = (s', Ret tt) /\ only_blocks s'.
Proof.
  revert k s. induction fuel as [|fuel IH]; intros k s Ha Hk Hf Hif; [lia|].
  destruct (decide (k < num_blocks bs base)%nat) as [Hlt|Hge].
  { destruct (identical_round k s fuel ifuel Ha Hif Hlt) as (s1 & Ha1 & ->). apply (IH (S k)); auto; lia. }
  cbn [outer_loop]. rewrite (i64_bs sha1 base sig sig_ok).
  destruct (aligned_ensure k s Ha) as (w & Hw & Hal & Hd). erewrite sm_bind_Ret by exact Hw.
  destruct Hal as (Ho & Hok & Hr). cbn [win set_win] in Hok, Hr.
  pose proof (sig_bs sha1 base sig sig_ok) as Hbs. pose proof (avail_le_rem w Hok) as Hav.
  assert (~ Z.of_nat k * bs < zlen base) as Hnb by (rewrite <- num_blocks_bound; lia).
  rewrite Hr, length_drop in Hav. replace (avail w) with 0 by lia. eexists. by split.
Qed.
End Identical.

(** ** Properties *)

(** A file that did not change costs no literal data: the delta of a base
    against its own signature consists of block operations only, whatever the
    contents and whatever the strong hash, and the scan finishes. *)
Theorem Deltify_identical sha1 base :
  base <> [] ->
  exists sig ops, GenerateSignature sha1 (newReader base) (zlen base) = Ret sig /\
    Deltify sha1 collect (newReader base) (Some sig) [] = (ops, Ret tt) /\
    Forall (fun op => Type_ op = OpBlock) ops.
Proof.
  intros Hne. destruct (GenerateSignature_signs sha1 base) as (sig & Hg & Hs).
  exists sig. pose proof (sig_bs sha1 base sig Hs) as Hbs. pose proof Hs as (_ & HH & _).
  unfold Deltify. rewrite (validate_signs _ _ _ Hs). cbn [rd_data newReader].
  pose proof (num_blocks_S (BlockSize sig) base ltac:(lia) Hne) as Hn.
  assert (is_nil (Hashes sig) = false) as -> by (rewrite HH, Hn; done).
  set (s0 := {| pending := []; pendingBlock := None; hst := []; win := newWindow (newReader base) |}).
  destruct (identical_scan sha1 base sig Hs (S (length base)) (S (length base)) 0%nat s0) as (s1 & H1 & Hp & Hf & Ho);
    [repeat split; cbn; try done; try apply Forall_nil_2; intros ? [=]|lia| |lia|].
  { pose proof (block_nonempty (BlockSize sig) base (num_blocks (BlockSize sig) base - 1) ltac:(lia) ltac:(lia)).
    assert (num_blocks (BlockSize sig) base - 1 < num_blocks (BlockSize sig) base)%nat as Hx by lia.
    apply num_blocks_bound in Hx; [|lia]. nia. }
  erewrite sm_bind_Ret by exact H1. erewrite sm_bind_Ret by (unfold flushPending; rewrite Hp; done).
  rewrite flushBlock_collect. eexists. split; [done|]. split; [done|]. cbn [hst]. apply Forall_app. split; [done|].
  destruct (pendingBlock s1); simpl; constructor; auto.
Qed.

Lemma Deltify_identical_witness :
  gostr "syncthing" <> [] /\
  exists sig ops, GenerateSignature prefix20 (newReader (gostr "syncthing")) 9 = Ret sig /\
    Deltify prefix20 collect (newReader (gostr "syncthing")) (Some sig) [] = (ops, Ret tt) /\
    Forall (fun op => Type_ op = OpBlock) ops.
Proof. split; [discriminate|]. apply (Deltify_identical prefix20 (gostr "syncthing")); discriminate. Defined.

(** [Patch] does exactly what its operations say: data is copied, runs of
    existing blocks are copied from the base, and it stops with the right error
    at the first operation that is of an unknown type, has no blocks or names a
    block past the end of the base, however large its 64 bit fields are. *)
Theorem Patch_refines_spec bs base ops buf out :
  0 < bs <= maxAlloc -> zlen base < 2 ^ 63 -> Forall op_u64 ops ->
  Patch append buf base ops bs out = patch_spec bs base ops out.
Proof.
  intros Hbs Hb HF. unfold Patch. rewrite (proj2 (Z.eqb_neq _ _)) by lia. rewrite patch_prologue by lia.
  pose proof (patch_ops_spec bs base ops out Hb ltac:(lia) HF) as Hs. unfold slift.
  destruct (buf <? bs); [rewrite makeBytes_ok by lia|]; by erewrite sm_bind_Ret by done.
Qed.

Lemma Patch_refines_spec_witness :
  Forall op_u64 [dataOp (gostr "ab"); blockOp 1 1; blockOp (2 ^ 64 - 1) 2] /\
  Patch append 4 (gostr "0123456") [dataOp (gostr "ab"); blockOp 1 1; blockOp (2 ^ 64 - 1) 2] 4 [] =
    patch_spec 4 (gostr "0123456") [dataOp (gostr "ab"); blockOp 1 1; blockOp (2 ^ 64 - 1) 2] [] /\
  Patch append 4 (gostr "0123456") [dataOp (gostr "ab"); blockOp 1 1; blockOp (2 ^ 64 - 1) 2] 4 [] =
    (gostr "ab456", Err EOutOfRange).
Proof.
  assert (Forall op_u64 [dataOp (gostr "ab"); blockOp 1 1; blockOp (2 ^ 64 - 1) 2]) as H.
  { repeat constructor; cbn; lia. }
  split; [exact H|]. split; [|vm_compute; reflexivity].
  apply Patch_refines_spec; [unfold maxAlloc; lia|reflexivity|exact H].
Defined.

Lemma decodeDelta_no_crash b : exists r, decodeDelta b = Ret r \/ decodeDelta b = Err ECorruptDelta.
Proof.
  assert (forall n r, (exists ops, decodeOps n r = Ret ops) \/ decodeOps n r = Err ECorruptDelta) as Hops.
  { induction n as [|n IH]; intros r; cbn [decodeOps]; [eauto|].
    unfold orErr, mbind, outcome_bind.
    repeat match goal with
    | |- context [match decodeOps n ?r with _ => _ end] => destruct (IH r) as [ [? ->] | ->]
    | |- context [match match ?x with Some _ => _ | None => _ end with _ => _ end] => destruct x as [ [? ?] |]
    | |- context [if ?x then _ else _] => destruct x
    | _ => by eauto
    end. }
  unfold decodeDelta. destruct b as [|v r]; [exists (0, []); by right|].
  cbn [readByte orErr mbind outcome_bind]. case_match; [exists (0, []); by right|].
  destruct (readUvarint r) as [ [bs r1] |]; cbn [orErr mbind outcome_bind]; [|exists (0, []); by right].
  destruct (readUvarint r1) as [ [n r2] |]; cbn [orErr mbind outcome_bind]; [|exists (0, []); by right].
  case_match; [exists (0, []); by right|].
  destruct (Hops (Z.to_nat n) r2) as [ [ops ->] | ->]; cbn [mbind outcome_bind]; [|exists (0, []); by right].
  eexists. by left.
Qed.

(** C30: [ApplyDelta] on bytes from an untrusted peer either reports an error,
    or has decoded operations whose number and data are bounded by the size of
    the delta and returns what they denote; the one input that crashes it is a
    delta that names a block size larger than can be allocated. *)
Theorem ApplyDelta_hostile base b :
  zlen base < 2 ^ 63 ->
  (exists e, ApplyDelta base b = Err e) \/
  exists bs ops, decodeDelta b = Ret (bs, ops) /\
    2 * zlen ops < zlen b /\ data_bytes ops < zlen b /\
    (if maxAlloc <? bs then ApplyDelta base b = Panic
     else exists out, patch_spec bs base ops [] = (out, Ret tt) /\ ApplyDelta base b = Ret out).
Proof.
  intros Hb. unfold ApplyDelta. destruct (decodeDelta_no_crash b) as ( [bs ops] & [E|E]); rewrite E; [|eauto].
  destruct (decodeDelta_accepts _ _ _ E) as (Hbs & HF & Hn & Hd). cbn [mbind outcome_bind].
  destruct (Z.eqb_spec bs 0) as [->|Hne]; [by left; exists EZeroBlockSize|].
  destruct (Z.lt_ge_cases maxAlloc bs) as [Hlt|Hge].
  - right. exists bs, ops. rewrite (proj2 (Z.ltb_lt maxAlloc bs)) by done. repeat split; auto. unfold Patch.
    rewrite (proj2 (Z.eqb_neq _ _)) by done. change (NewEngine 0) with maxBlockSize.
    rewrite (proj2 (Z.ltb_lt maxBlockSize bs)) by (unfold maxBlockSize, maxAlloc in *; lia).
    assert (makeBytes bs = Panic (E := rsync_err)) as ->; [|done].
    unfold makeBytes. by rewrite (proj2 (Z.ltb_lt maxAlloc _)), orb_true_r by lia.
  - rewrite (Patch_refines_spec bs base ops) by
      (lia || (eapply List.Forall_impl; [|exact HF]; exact op_wf_u64)).
    assert (forall ops out, (exists r, patch_spec bs base ops out = (r, Ret tt)) \/
      exists r e, patch_spec bs base ops out = (r, Err e)) as Hspec.
    { clear. induction ops as [|op ops IH]; intros out; cbn [patch_spec]; [eauto|]. case_match; eauto. }
    destruct (Hspec ops []) as [ [r Hr] | (r & e & Hr) ]; rewrite Hr; [|left; by exists e].
    right. exists bs, ops. rewrite (proj2 (Z.ltb_ge maxAlloc bs)) by done. repeat split; auto. by exists r.
Qed.

Lemma ApplyDelta_hostile_witness :
  let b := [x01; xff; xff; xff; xff; xff; xff; xff; xff; xff; x01; x00] in
  zlen (gostr "base") < 2 ^ 63 /\ ApplyDelta (gostr "base") b = Panic /\
  ((exists e, ApplyDelta (gostr "base") b = Err e) \/
   exists bs ops, decodeDelta b = Ret (bs, ops) /\
    2 * zlen ops < zlen b /\ data_bytes ops < zlen b /\
    (if maxAlloc <? bs then ApplyDelta (gostr "base") b = Panic
     else exists out, patch_spec bs (gostr "base") ops [] = (out, Ret tt) /\ ApplyDelta (gostr "base") b = Ret out)).
Proof. split; [reflexivity|]. split; [reflexivity|]. apply ApplyDelta_hostile. reflexivity. Defined.

(** A signature from a peer with a block size of 2^63 or more passes the
    validation, but the scan sees a negative block size, believes that nothing
    is left of the target and reports success without a single operation. *)
Lemma Deltify_huge_block_size sha1 target h :
  let sig := {| BlockSize := 2 ^ 63; LastBlockSize := 1; Hashes := [h] |} in
  Deltify sha1 collect (newReader target) (Some sig) [] = ([], Ret tt).
Proof. reflexivity. Qed.
