(* ===== verification/ScanBlocks.v ===== *)
(** * Hashing files (lib/scanner/blocks.go, blockqueue.go)

    A file is read in blocks of one size, which are hashed.  The hash function
    is a parameter; a file that is read is the data that its reader delivers
    and the error that it may end with.  [blocks_of] is the list of blocks a
    file should have, defined without reading: theorem [Blocks_hashes] is the
    equivalence. *)
From Stdlib Require Import ZArith List Lia.
From Stdlib Require Import Strings.Byte.
From stdpp Require Import base list option numbers tactics.
From S2P Require Import Prelude GoLib FileInfo Disk.

#[local] Open Scope Z_scope.

Definition hashLength : Z := 32.
Definition SHA256OfNothing : bytes :=
  map z2b [227; 176; 196; 66; 152; 252; 28; 20; 154; 251; 244; 200; 153; 111; 185; 36;
           39; 174; 65; 228; 100; 155; 147; 76; 164; 149; 153; 27; 120; 82; 184; 85].

(** The modification time of a file on disk. *)
Definition st_ModTime (st : Stat) : GoTime := time_Unix (st_ModTime_Unix st) (st_ModTime_Nanosecond st).

Section ScanBlocks.
Context (sha256 : bytes -> bytes).

(** ** Blocks *)

(** [io.LimitReader] *)
Definition limitReader {E} (r : Reader E) (n : Z) : Reader E :=
  if n <=? zlen (rd_data r) then {| rd_data := take (Z.to_nat n) (rd_data r); rd_err := None |} else r.
(** [io.CopyBuffer] from a reader limited to [n] bytes: what was copied, the error, and what is left. *)
Definition copyLimited {E} (r : Reader E) (n : Z) : bytes * option E * Reader E :=
  let '(bs, st, r) := readFull r n in (bs, match st with ReadErr e => Some e | _ => None end, r).
(** [make([]T, 0, n)] for a [T] of so many bytes. *)
Definition makeCap {E} (n size : Z) : outcome E unit :=
  if (n <? 0) || (maxAlloc <? n * size) then Panic else Ret tt.
Definition sizeofBlockInfo : Z := 40.

(** The state is what the counter was told.  [cancelled] says whether the context
    is done at the start of every round. *)
Fixpoint blocks_loop (fuel : nat) (cancelled : nat -> bool) (round : nat) (r : Reader disk_err)
    (blocksize offset : Z) (blocks : list BlockInfo) : SM (list Z) disk_err (list BlockInfo) :=
  match fuel with
  | O => fun s => (s, OutOfFuel)
  | S fuel =>
      if cancelled round then sfail ErrCanceled
      else
        let '(bs, err, r) := copyLimited r blocksize in
        match err with
        | Some e => sfail e
        | None =>
            let n := zlen bs in
            if n =? 0 then mret blocks
            else
              _ ← smodify (fun counter => counter ++ [n]);
              blocks_loop fuel cancelled (S round) r blocksize (offset + n)
                (blocks ++ [{| Hash := sha256 bs; Offset := offset; Size := n |}])
        end
  end.

Definition scanner_Blocks (cancelled : nat -> bool) (r : Reader disk_err) (blocksize sizehint : Z) :
  SM (list Z) disk_err (list BlockInfo) :=
  _ ← (if 0 <=? sizehint then
         if blocksize =? 0 then spanic
         else
           let numBlocks := Z.quot sizehint blocksize + (if Z.rem sizehint blocksize =? 0 then 0 else 1) in
           _ ← slift (makeCap numBlocks sizeofBlockInfo);
           slift (makeCap (i64 (hashLength * numBlocks)) 1)
       else mret tt);
  let r := if 0 <=? sizehint then limitReader r sizehint else r in
  blocks ← blocks_loop (S (length (rd_data r))) cancelled O r blocksize 0 [];
  mret (if is_nil blocks then [{| Hash := SHA256OfNothing; Offset := 0; Size := 0 |}] else blocks).

Definition Validate (buf hash : bytes) : bool :=
  if 0 <? zlen hash then bool_decide (sha256 buf = hash) else true.

(** ** HashFile *)

(** An open file: what [Stat] answers before and after its content is read. *)
Record opened := { o_before : disk_err + Stat; o_content : Reader disk_err; o_after : disk_err + Stat }.

Definition scanner_HashFile (cancelled : nat -> bool) (file : disk_err + opened) (blockSize : Z) :
  SM (list Z) disk_err (list BlockInfo) :=
  match file with
  | inl e => sfail e
  | inr fd =>
      match o_before fd with
      | inl e => sfail e
      | inr fi =>
          let size := st_Size fi in
          let modTime := st_ModTime fi in
          blocks ← scanner_Blocks cancelled (o_content fd) blockSize size;
          match o_after fd with
          | inl e => sfail e
          | inr fi =>
              if negb (size =? st_Size fi) || negb (time_Equal modTime (st_ModTime fi))
              then sfail (ErrOther (gostr "file changed during hashing")) else mret blocks
          end
      end
  end.

(** ** The blocks of a content *)

Section Reference.
Context (n : nat) (data : bytes).
Definition piece (i : nat) : bytes := take n (drop (i * n) data).
Definition piece_count : nat := (length data + n - 1) / n.
Definition block_at (i : nat) : BlockInfo :=
  {| Hash := sha256 (piece i); Offset := Z.of_nat (i * n); Size := zlen (piece i) |}.
Definition blocks_of : list BlockInfo :=
  if is_nil data then [{| Hash := SHA256OfNothing; Offset := 0; Size := 0 |}] else map block_at (seq 0 piece_count).

Context (Hn : (0 < n)%nat).

Lemma piece_short i : (length (piece i) = Nat.min n (length data - i * n))%nat.
Proof using. unfold piece. by rewrite length_take, length_drop. Qed.
Lemma piece_count_spec i : (i < piece_count)%nat <-> (i * n < length data)%nat.
Proof using Hn.
  unfold piece_count. pose proof (Nat.div_mod (length data + n - 1) n ltac:(lia)) as E.
  pose proof (Nat.mod_upper_bound (length data + n - 1) n ltac:(lia)). set (q := ((length data + n - 1) / n)%nat) in *. nia.
Qed.
(** The pieces make up the content. *)
Lemma pieces_concat : concat (map piece (seq 0 piece_count)) = data.
Proof using Hn.
  assert (forall k, concat (map piece (seq 0 k)) = take (k * n) data) as E.
  { induction k as [|k IH]; [done|]. rewrite seq_S, map_app, concat_app, IH. cbn [map concat]. rewrite app_nil_r.
    unfold piece. rewrite take_drop_mid. f_equal. lia. }
  rewrite E, take_ge; [done|]. destruct (decide (length data <= piece_count * n)%nat); [done|].
  pose proof (proj2 (piece_count_spec piece_count)). lia.
Qed.
End Reference.

Lemma limitReader_data {E} (r : Reader E) n :
  rd_data (limitReader r n) = take (Z.to_nat n) (rd_data r).
Proof.
  unfold limitReader. destruct (Z.leb_spec n (zlen (rd_data r))); [done|]. rewrite take_ge; [done|lia].
Qed.

Lemma copyLimited_piece {E} n data i (err : option E) :
  copyLimited {| rd_data := drop (i * n) data; rd_err := err |} (Z.of_nat n) =
  (piece n data i, if (n <=? length data - i * n)%nat then None else err, {| rd_data := drop (S i * n) data; rd_err := err |}).
Proof.
  unfold copyLimited, readFull, piece. cbn [rd_data rd_err]. rewrite length_drop, Nat2Z.id, drop_drop.
  replace (i * n + n)%nat with (S i * n)%nat by lia.
  destruct (Z.leb_spec (Z.of_nat n) (Z.of_nat (length data - i * n))), (Nat.leb_spec n (length data - i * n)); try lia; [done|].
  rewrite (take_ge (drop (i * n) data)) by (rewrite length_drop; lia). rewrite (drop_ge data (S i * n)) by lia.
  destruct err; [done|]. by destruct (is_nil _).
Qed.
Lemma next_block n data i : (i < piece_count n data)%nat -> (0 < n)%nat ->
  map (block_at n data) (seq 0 i) ++ [{| Hash := sha256 (piece n data i);
    Offset := Z.of_nat (Nat.min (i * n) (length data)); Size := zlen (piece n data i) |}] =
  map (block_at n data) (seq 0 (S i)) /\
  Z.of_nat (Nat.min (i * n) (length data)) + zlen (piece n data i) = Z.of_nat (Nat.min (S i * n) (length data)).
Proof.
  intros Hi Hn. apply piece_count_spec in Hi; [|done]. split; [|rewrite piece_short; lia].
  rewrite seq_S, map_app. f_equal. cbn [map Nat.add]. unfold block_at. by rewrite (Nat.min_l (i * n)) by lia.
Qed.

(** The loop goes on with piece [i]: it ends with the blocks of all the data, or with an error. *)
Section Loop.
Context (n : nat) (data : bytes) (err : option disk_err) (Hn : (0 < n)%nat).
Definition from_piece (fuel : nat) (cancelled : nat -> bool) (i : nat) : SM (list Z) disk_err (list BlockInfo) :=
  blocks_loop fuel cancelled i {| rd_data := drop (i * n) data; rd_err := err |} (Z.of_nat n)
    (Z.of_nat (Nat.min (i * n) (length data))) (map (block_at n data) (seq 0 i)).

Lemma from_piece_step fuel cancelled i counter : from_piece (S fuel) cancelled i counter =
  if cancelled i then (counter, Err ErrCanceled)
  else match (if (n <=? length data - i * n)%nat then None else err) with
       | Some e => (counter, Err e)
       | None =>
           if (piece_count n data <=? i)%nat then (counter, Ret (map (block_at n data) (seq 0 i)))
           else from_piece fuel cancelled (S i) (counter ++ [zlen (piece n data i)])
       end.
Proof using Hn.
  unfold from_piece. cbn [blocks_loop]. destruct (cancelled i); [done|]. rewrite copyLimited_piece.
  destruct (if (n <=? length data - i * n)%nat then None else err); [done|].
  pose proof (piece_count_spec n data Hn i) as Hi. pose proof (piece_short n data i) as Hl.
  destruct (Z.eqb_spec (zlen (piece n data i)) 0), (Nat.leb_spec (piece_count n data) i); try lia; [done|].
  destruct (next_block n data i) as [E1 E2]; [lia|done|].
  rewrite (sm_bind_Ret _ _ _ (counter ++ [zlen (piece n data i)]) tt) by done. by rewrite E1, E2.
Qed.
Lemma from_piece_sound fuel cancelled i counter : (length data - i * n < fuel)%nat -> (i <= piece_count n data)%nat ->
  match (from_piece fuel cancelled i counter).2 with
  | Ret bs => err = None /\ bs = map (block_at n data) (seq 0 (piece_count n data))
  | Err e => (e = ErrCanceled /\ exists j, cancelled j = true) \/ err = Some e
  | _ => False
  end.
Proof using Hn.
  revert i counter. induction fuel as [|fuel IH]; intros i counter Hf Hi; [lia|]. rewrite from_piece_step.
  pose proof (piece_count_spec n data Hn i) as Hc. destruct (cancelled i) eqn:Ec; [left; eauto|].
  destruct (Nat.leb_spec n (length data - i * n)), err as [e|] eqn:Ee; try (by right);
    (destruct (Nat.leb_spec (piece_count n data) i); [|apply IH; lia]); [lia|..];
    (replace i with (piece_count n data) by lia; done).
Qed.
End Loop.

(** What a reader delivers of a file of the size that is expected. *)
Definition expected (sizehint : Z) (data : bytes) : bytes :=
  if 0 <=? sizehint then take (Z.to_nat sizehint) data else data.

(** Reading ends: with the blocks that the part of the file of the expected size
    should have, or with the error of the context or the reader. *)
Lemma Blocks_spec cancelled (r : Reader disk_err) n sizehint counter (Hn : (0 < n)%nat) (Hsize : sizehint <= 2 ^ 42) :
  match (scanner_Blocks cancelled r (Z.of_nat n) sizehint counter).2 with
  | Ret bs => bs = blocks_of n (expected sizehint (rd_data r))
  | Err e => (e = ErrCanceled /\ exists j, cancelled j = true) \/
             (rd_err r = Some e /\ (sizehint < 0 \/ zlen (rd_data r) < sizehint))
  | _ => False
  end.
Proof.
  unfold scanner_Blocks. set (r' := if 0 <=? sizehint then limitReader r sizehint else r).
  assert (rd_data r' = expected sizehint (rd_data r)) as Hdata.
  { unfold r', expected. case_bool; [apply limitReader_data|done]. }
  assert (forall e, rd_err r' = Some e -> rd_err r = Some e /\ (sizehint < 0 \/ zlen (rd_data r) < sizehint)) as Herr.
  { intros e. unfold r', limitReader. repeat case_bool; zbool; cbn; intros; try done; (split; [done|lia]). }
  rewrite (sm_bind_Ret _ _ _ counter tt).
  2: { case_bool; [|done]. zbool. rewrite (proj2 (Z.eqb_neq _ 0)) by lia.
       assert (0 <= Z.quot sizehint (Z.of_nat n) <= sizehint) as Hq.
       { rewrite Z.quot_div_nonneg by lia. split; [apply Z.div_pos; lia|apply Z.div_le_upper_bound; nia]. }
       set (k := Z.quot sizehint (Z.of_nat n) + _). assert (0 <= k <= 2 ^ 42 + 1) as Hk by (unfold k; case_bool; lia).
       unfold slift, makeCap, mbind, sm_bind. unfold maxAlloc, hashLength, sizeofBlockInfo.
       rewrite (iN_small 64) by lia. rewrite !(proj2 (Z.ltb_ge _ _)) by lia. done. }
  pose proof (from_piece_sound n (rd_data r') (rd_err r') Hn (S (length (rd_data r'))) cancelled 0 counter) as Hl.
  unfold from_piece in Hl. cbn [Nat.mul Nat.min drop seq map] in Hl. rewrite drop_0 in Hl.
  replace {| rd_data := rd_data r'; rd_err := rd_err r' |} with r' in Hl by (by destruct r').
  specialize (Hl ltac:(lia) ltac:(lia)). unfold mbind, sm_bind.
  destruct (blocks_loop _ _ _ _ _ _ _ _) as [c [bs|e| |] ]; cbn [snd] in *; try done.
  - destruct Hl as [_ ->]. rewrite <- Hdata. unfold blocks_of. destruct (is_nil (rd_data r')) eqn:En.
    { destruct (rd_data r'); [|done]. unfold piece_count. cbn [length Nat.add]. by rewrite Nat.div_small by lia. }
    assert (0 < piece_count n (rd_data r'))%nat as Hp by (apply piece_count_spec; [done|]; destruct (rd_data r'); [done|cbn; lia]).
    destruct (piece_count n (rd_data r')); [lia|done].
  - destruct Hl as [Hl|Hl]; [by left|]. right. by apply Herr.
Qed.

(** C29: Hashing a file of at most 2^42 bytes ends: either with the blocks of the
    bytes that were read, up to the size that the file had at the start, each with the
    hash, the offset and the size of its piece, and then the file had the same size
    and modification time before and after; or with an error if the file could not be
    opened, examined or read, if its size or modification time is another one
    afterwards, or if the scan was cancelled.  A change that leaves the size
    and the modification time as they were is not noticed. *)
Theorem HashFile_hashes cancelled file n counter (Hn : (0 < n)%nat)
    (Hsize : forall fd st, file = inr fd -> o_before fd = inr st -> st_Size st <= 2 ^ 42) :
  match (scanner_HashFile cancelled file (Z.of_nat n) counter).2 with
  | Ret bs =>
      exists fd before after, file = inr fd /\ o_before fd = inr before /\ o_after fd = inr after /\
        st_Size before = st_Size after /\ time_Equal (st_ModTime before) (st_ModTime after) = true /\
        bs = blocks_of n (expected (st_Size before) (rd_data (o_content fd)))
  | Err e =>
      file = inl e \/ exists fd, file = inr fd /\
        (o_before fd = inl e \/ o_after fd = inl e \/ rd_err (o_content fd) = Some e \/
         (e = ErrCanceled /\ exists j, cancelled j = true) \/
         exists before after, o_before fd = inr before /\ o_after fd = inr after /\
           (st_Size before <> st_Size after \/ time_Equal (st_ModTime before) (st_ModTime after) = false))
  | _ => False
  end.
Proof.
  unfold scanner_HashFile. destruct file as [e|fd]; [by left|].
  destruct (o_before fd) as [e|before] eqn:Eb; [right; exists fd; auto|].
  pose proof (Blocks_spec cancelled (o_content fd) n (st_Size before) counter Hn (Hsize _ _ eq_refl Eb)) as HB.
  unfold mbind, sm_bind. destruct (scanner_Blocks _ _ _ _ _) as [c [bs|e| |] ]; cbn [snd] in HB |- *; try done.
  - destruct (o_after fd) as [e|after] eqn:Ea; [right; exists fd; auto|]. case_bool; cbn.
    + right. exists fd. split; [done|]. do 4 right. exists before, after. split_and!; [done..|].
      apply orb_true_iff in Heqb as [H|H]; zbool; [by left|by right].
    + apply orb_false_iff in Heqb as [H1 H2]. zbool. by exists fd, before, after.
  - right. exists fd. split; [done|]. destruct HB as [HB|[HB _] ]; auto.
Qed.
End ScanBlocks.

(** Five bytes of an eight byte file, in blocks of two. *)
Definition ex_open : opened :=
  let st := {| st_IsDir := false; st_IsSymlink := false; st_IsRegular := true; st_Mode := 420; st_Size := 5; st_ModTime_Unix := 1000;
               st_ModTime_Nanosecond := 0; st_Owner := 0; st_Group := 0 |} in
  {| o_before := inr st; o_content := {| rd_data := map z2b [1; 2; 3; 4; 5; 6; 7; 8]; rd_err := None |}; o_after := inr st |}.
Theorem HashFile_hashes_witness :
  (scanner_HashFile (fun b => b) (fun _ => false) (inr ex_open) 2 []).2 =
    Ret [{| Hash := map z2b [1; 2]; Offset := 0; Size := 2 |}; {| Hash := map z2b [3; 4]; Offset := 2; Size := 2 |};
         {| Hash := [z2b 5]; Offset := 4; Size := 1 |}].
Proof.
  pose proof (HashFile_hashes (fun b => b) (fun _ => false) (inr ex_open) 2 [] ltac:(lia)
    ltac:(intros fd st [= <-] [= <-]; cbn; lia)) as H.
  destruct (scanner_HashFile _ _ _ _ _) as [c [bs|e| |] ] eqn:E; [|by vm_compute in E..].
  destruct H as (fd & before & after & [= <-] & [= <-] & [= <-] & _ & _ & ->). by vm_compute.
Defined.
