(* ===== verification/ScanCache.v ===== *)
(** * The digest cache and the snapshot of a folder (lib/scanner/cache.go, snapshot.go)

    Both are maps from cleaned names to items, behind a mutex that makes every
    method one step.  An iteration over a Go map visits the entries in any
    order: [range] stands for it.  Items are values here, so that the copies
    made by [cloneFileInfo] are the items themselves. *)
From Stdlib Require Import ZArith List Lia.
From Stdlib Require Import Strings.Byte.
From stdpp Require Import base list option gmap sorting numbers tactics.
From S2P Require Import Prelude GoLib FileInfo Paths.

#[local] Open Scope Z_scope.

(** ** Names *)

Definition Backslash : byte := z2b 92.
(** [strings.ReplaceAll] of one byte, [strings.Trim] of separators. *)
Definition replaceAll (p : bytes) (old new : byte) : bytes :=
  map (fun c => if bool_decide (c = old) then new else c) p.
Definition trimSlashes (p : bytes) : bytes := reverse (strip_slashes (reverse (strip_slashes p))).

Definition cleanCachePath (p : bytes) : bytes :=
  let cleaned := Clean (replaceAll p Backslash PathSeparator) in
  if bool_decide (cleaned = dot) || is_nil cleaned then []
  else trimSlashes (trimPrefix cleaned (dot ++ [PathSeparator])).
Definition cleanSnapshotPath (p : bytes) : bytes :=
  let cleaned := Clean (replaceAll p Backslash PathSeparator) in
  if bool_decide (cleaned = dot) || is_nil cleaned then []
  else trimSlashes (trimPrefix cleaned (dot ++ [PathSeparator])).

(** ** DigestCache *)

Record DigestEntry := { File : FileInfo; EModTime : GoTime; ESize : Z; CachedAt : GoTime }.
Record DigestCache := { entries : gmap bytes DigestEntry; maxEntries : Z; ttl : Z }.
Definition set_entries (m : gmap bytes DigestEntry) (c : DigestCache) : DigestCache :=
  {| entries := m; maxEntries := maxEntries c; ttl := ttl c |}.

Definition NewDigestCache (maxEntries ttl : Z) : DigestCache :=
  {| entries := ∅; maxEntries := maxEntries; ttl := ttl |}.

Definition Cache_Lookup (now : GoTime) (c : DigestCache) (path : bytes) (modTime : GoTime) (size : Z) : option FileInfo :=
  match entries c !! cleanCachePath path with
  | None => None
  | Some entry =>
      if (0 <? ttl c) && (ttl c <? time_Sub now (CachedAt entry)) then None
      else if negb (ESize entry =? size) || negb (time_Equal (EModTime entry) modTime) then None
      else Some (File entry)
  end.

Definition Cache_Size (c : DigestCache) : Z := Z.of_nat (size (entries c)).

Section Cache.
Context (range : gmap bytes DigestEntry -> list (bytes * DigestEntry)).

Definition evict_step (oldest : option (bytes * GoTime)) (x : bytes * DigestEntry) : option (bytes * GoTime) :=
  let '(path, entry) := x in
  match oldest with
  | None => Some (path, CachedAt entry)
  | Some (oldestPath, oldestTime) =>
      if time_Before (CachedAt entry) oldestTime ||
         (time_Equal (CachedAt entry) oldestTime && (is_nil oldestPath || bytes_ltb path oldestPath))
      then Some (path, CachedAt entry) else oldest
  end.
Definition evictOldestLocked (c : DigestCache) : DigestCache :=
  let oldestPath := match fold_left evict_step (range (entries c)) None with Some (p, _) => p | None => [] end in
  set_entries (delete oldestPath (entries c)) c.

Definition Cache_Set (now : GoTime) (c : DigestCache) (path : bytes) (modTime : GoTime) (size : Z) (file : FileInfo) : DigestCache :=
  let key := cleanCachePath path in
  let c := if (0 <? maxEntries c) && negb (bool_decide (is_Some (entries c !! key))) &&
              (maxEntries c <=? Cache_Size c)
           then evictOldestLocked c else c in
  set_entries (<[key := {| File := file; EModTime := modTime; ESize := size; CachedAt := now |}]> (entries c)) c.
End Cache.

Definition Cache_Remove (c : DigestCache) (path : bytes) : DigestCache :=
  set_entries (delete (cleanCachePath path) (entries c)) c.
(** [path == prefix || fs.IsParent(path, prefix)] *)
Definition covers (prefix path : bytes) : bool := bool_decide (path = prefix) || IsParent path prefix.
Definition Cache_RemovePrefix (c : DigestCache) (prefix : bytes) : DigestCache :=
  let prefix := cleanCachePath prefix in
  set_entries (filter (fun x => covers prefix x.1 = false) (entries c)) c.
Definition Cache_Clear (c : DigestCache) : DigestCache := set_entries ∅ c.

(** ** Snapshot *)

Abbreviation Snapshot := (gmap bytes FileInfo).

Definition NewSnapshot : Snapshot := ∅.
Definition removeLocked (s : Snapshot) (path : bytes) : Snapshot :=
  filter (fun x => IsParent x.1 path = false) (delete path s).
Definition Snapshot_Update (files : list FileInfo) (dirtyPaths : list bytes) (s : Snapshot) : Snapshot :=
  let s := fold_left (fun s path => removeLocked s (cleanSnapshotPath path)) dirtyPaths s in
  fold_left (fun s file => <[cleanSnapshotPath (Name file) := file]> s) files s.
Definition NewSnapshotFromFiles (files : list FileInfo) : Snapshot := Snapshot_Update files [] NewSnapshot.
Definition Snapshot_Lookup (s : Snapshot) (path : bytes) : option FileInfo := s !! cleanSnapshotPath path.
Definition Snapshot_Reset (s : Snapshot) : Snapshot := ∅.
Definition Snapshot_Size (s : Snapshot) : Z := Z.of_nat (size s).

(** [slices.SortFunc] by name. *)
Fixpoint insert_by_name (f : FileInfo) (l : list FileInfo) : list FileInfo :=
  match l with
  | [] => [f]
  | g :: l => if bytes_leb (Name f) (Name g) then f :: g :: l else g :: insert_by_name f l
  end.
Definition sort_by_name (l : list FileInfo) : list FileInfo := foldr insert_by_name [] l.

Definition SubtreeFiles (range : Snapshot -> list (bytes * FileInfo)) (s : Snapshot) (path : bytes) : list FileInfo :=
  let path := cleanSnapshotPath path in
  sort_by_name (map snd (List.filter (fun x => is_nil path || covers path x.1) (range s))).

Definition IsDirtyOrAncestor (path : bytes) (dirtyPaths : list bytes) : bool :=
  let path := cleanCachePath path in
  bool_decide (path ∈ dirtyPaths) ||
  existsb (fun dirtyPath =>
    let dirtyPath := cleanCachePath dirtyPath in
    bool_decide (path = dirtyPath) || IsParent dirtyPath path || IsParent path dirtyPath) dirtyPaths.

(** ** Names that are clean already *)

Lemma replaceAll_id p old new : old ∉ p -> replaceAll p old new = p.
Proof.
  induction p as [|c p IH]; [done|]. intros [Hc Hp]%not_elem_of_cons. unfold replaceAll in *. cbn [map].
  rewrite IH by done. by rewrite bool_decide_false.
Qed.
Lemma hasPrefix_dot_name d ds : Forall proper (d :: ds) ->
  hasPrefix (join PathSeparator (d :: ds)) (dot ++ [PathSeparator]) = false.
Proof.
  intros H. apply not_true_is_false. intros [r E]%hasPrefix_spec.
  apply (f_equal (split PathSeparator)) in E. rewrite (split_join PathSeparator (d :: ds)) in E by (try done; by apply proper_seps).
  rewrite <- app_assoc in E. cbn [app] in E. change (split PathSeparator (dot ++ PathSeparator :: r)) with (dot :: split PathSeparator r) in E.
  injection E as -> _. by apply Forall_inv in H as (_ & H & _).
Qed.
(** On the names of items without a backslash, keys and names are the same. *)
Lemma cleanCachePath_name ds : Forall proper ds -> ds <> [] -> Backslash ∉ join PathSeparator ds ->
  cleanCachePath (join PathSeparator ds) = join PathSeparator ds.
Proof.
  intros Hd Hne Hb. unfold cleanCachePath. rewrite replaceAll_id by done.
  destruct ds as [|d ds]; [done|]. change (join PathSeparator (d :: ds)) with (render false (d :: ds)).
  rewrite Clean_of_render by (by apply normal_proper).
  pose proof (render_not_dot (d :: ds) Hd Hne) as H1.
  assert (is_nil (render false (d :: ds)) = false) as H2.
  { destruct (render false (d :: ds)) eqn:E; [|done]. exfalso.
    by apply (render_not_nil false (d :: ds) (normal_not_nil false _ (normal_proper _ _ Hd))). }
  rewrite (bool_decide_false _ H1), H2. cbn [orb]. unfold trimPrefix, trimSlashes.
  change (render false (d :: ds)) with (join PathSeparator (d :: ds)). rewrite hasPrefix_dot_name by done.
  assert (strip_slashes (join PathSeparator (d :: ds)) = join PathSeparator (d :: ds)) as ->.
  { apply strip_slashes_id. exact (IsAbs_render false (d :: ds) (normal_proper false _ Hd)). }
  destruct (exists_last Hne) as (ds' & b & E). rewrite E in Hd |- *. apply Forall_app in Hd as [_ Hb'].
  apply strip_end. by apply Forall_inv in Hb'.
Qed.

(** ** What the cache remembers *)

Section CacheProps.
Context (range : gmap bytes DigestEntry -> list (bytes * DigestEntry)).
Context (Hrange : forall m, range m ≡ₚ map_to_list m).

(** *** Eviction *)

Definition older (l : list (bytes * DigestEntry)) (p : bytes) (t : GoTime) : Prop :=
  (exists e, (p, e) ∈ l /\ CachedAt e = t) /\ forall q e, (q, e) ∈ l -> time_Before (CachedAt e) t = false.

Lemma time_Before_trans t u v : time_Before t u = false -> time_Before u v = false -> time_Before t v = false.
Proof using. clear. unfold time_Before. intros.
  destruct (Z.ltb_spec (tsec t) (tsec u)), (Z.ltb_spec (tsec u) (tsec v)), (Z.ltb_spec (tsec t) (tsec v)); cbn in *; try done; try lia;
  destruct (Z.eqb_spec (tsec t) (tsec u)), (Z.eqb_spec (tsec u) (tsec v)), (Z.eqb_spec (tsec t) (tsec v)); cbn in *; try done; try lia.
Qed.
Lemma time_Before_asym t u : time_Before t u = true -> time_Before u t = false.
Proof using.
  clear. unfold time_Before.
  destruct (Z.ltb_spec (tsec t) (tsec u)), (Z.ltb_spec (tsec u) (tsec t)); cbn; try done; try lia;
  destruct (Z.eqb_spec (tsec t) (tsec u)), (Z.eqb_spec (tsec u) (tsec t)); cbn; try done; try lia.
Qed.
Lemma time_Before_irrefl t : time_Before t t = false.
Proof using. clear. unfold time_Before. by rewrite !Z.ltb_irrefl, andb_false_r. Qed.
Lemma time_Equal_eq t u : time_Equal t u = true <-> t = u.
Proof using. clear. destruct t, u. unfold time_Equal. cbn. rewrite andb_true_iff, !Z.eqb_eq. split; [intros [-> ->]|intros [= -> ->] ]; done. Qed.

Lemma evict_step_older l oldest x : match oldest with Some (p, t) => older l p t | None => l = [] end ->
  exists p t, evict_step oldest x = Some (p, t) /\ older (l ++ [x]) p t.
Proof using.
  clear. destruct x as [q e]. destruct oldest as [ [p t]|]; cbn.
  - intros [(e0 & H0 & <-) Hl]. case_bool.
    + exists q, (CachedAt e). split; [done|]. split; [exists e; rewrite elem_of_app, list_elem_of_singleton; auto|].
      assert (time_Before (CachedAt e0) (CachedAt e) = false) as He.
      { apply orb_true_iff in Heqb as [H|H]; [by apply time_Before_asym|]. apply andb_true_iff in H as [H _].
        apply time_Equal_eq in H as ->. apply time_Before_irrefl. }
      intros q' e'. rewrite elem_of_app, list_elem_of_singleton. intros [H|[= -> ->] ]; [|apply time_Before_irrefl].
      eapply time_Before_trans; [by eapply Hl|done].
    + apply orb_false_iff in Heqb as [H _]. exists p, (CachedAt e0). split; [done|].
      split; [exists e0; rewrite elem_of_app; auto|]. intros q' e'. rewrite elem_of_app, list_elem_of_singleton.
      intros [H'|[= -> ->] ]; [by eapply Hl|done].
  - intros ->. cbn [app]. exists q, (CachedAt e). split; [done|]. split; [exists e; split; [by left|done]|].
    intros q' e'. rewrite list_elem_of_singleton. intros [= -> ->]. apply time_Before_irrefl.
Qed.
Lemma evict_loop_older l : l <> [] -> exists p t, fold_left evict_step l None = Some (p, t) /\ older l p t.
Proof using.
  clear. induction l as [|x l IH] using rev_ind; [done|]. intros _. rewrite fold_left_app. cbn [fold_left].
  destruct (decide (l = [])) as [->|Hl]; [by apply (evict_step_older [] None)|].
  destruct (IH Hl) as (p & t & -> & Ho). by apply (evict_step_older l (Some (p, t))).
Qed.
(** The entry that was cached first goes. *)
Lemma evictOldest_spec c : entries c <> ∅ -> exists p e, entries c !! p = Some e /\
  entries (evictOldestLocked range c) = delete p (entries c) /\
  forall q e', entries c !! q = Some e' -> time_Before (CachedAt e') (CachedAt e) = false.
Proof using Hrange.
  intros Hne. unfold evictOldestLocked. pose proof (Hrange (entries c)) as Hp.
  destruct (evict_loop_older (range (entries c))) as (p & t & -> & (e & He & <-) & Hmin).
  { intros E. rewrite E in Hp. apply Hne, map_to_list_empty_iff. by apply Permutation_nil. }
  exists p, e. rewrite Hp in He. apply elem_of_map_to_list in He. split_and!; [done|done|].
  intros q e' Hq. apply (Hmin q). rewrite Hp. by apply elem_of_map_to_list.
Qed.

(** *** Histories *)

Inductive cache_op :=
  | OpSet (now : GoTime) (path : bytes) (modTime : GoTime) (size : Z) (file : FileInfo)
  | OpRemove (path : bytes)
  | OpRemovePrefix (prefix : bytes)
  | OpClear.
Definition apply_op (c : DigestCache) (op : cache_op) : DigestCache :=
  match op with
  | OpSet now path modTime size file => Cache_Set range now c path modTime size file
  | OpRemove path => Cache_Remove c path
  | OpRemovePrefix prefix => Cache_RemovePrefix c prefix
  | OpClear => Cache_Clear c
  end.
Definition touches (key : bytes) (op : cache_op) : bool :=
  match op with
  | OpSet _ path _ _ _ | OpRemove path => bool_decide (cleanCachePath path = key)
  | OpRemovePrefix prefix => covers (cleanCachePath prefix) key
  | OpClear => true
  end.
(** The last operation on the key was to store the entry. *)
Definition stored (ops : list cache_op) (key : bytes) (e : DigestEntry) : Prop :=
  exists before path after, ops = before ++ OpSet (CachedAt e) path (EModTime e) (ESize e) (File e) :: after /\
    cleanCachePath path = key /\ Forall (fun op => touches key op = false) after.

Lemma stored_snoc ops op key e : stored (ops ++ [op]) key e <->
  (exists path, op = OpSet (CachedAt e) path (EModTime e) (ESize e) (File e) /\ cleanCachePath path = key) \/
  (touches key op = false /\ stored ops key e).
Proof using.
  clear. split.
  - intros (before & path & after & E & Hk & Ha). destruct after as [|x after _] using rev_ind.
    + apply app_inj_tail in E as [-> ->]. left. by exists path.
    + rewrite app_comm_cons, app_assoc in E. apply app_inj_tail in E as [-> ->]. apply Forall_app in Ha as [Ha Hx].
      right. split; [by apply Forall_inv in Hx|]. by exists before, path, after.
  - intros [(path & -> & Hk)|[Ht (before & path & after & -> & Hk & Ha)] ].
    + by exists ops, path, [].
    + exists before, path, (after ++ [op]). rewrite <- app_assoc. split_and!; [done|done|].
      apply Forall_app. split; [done|by apply Forall_singleton].
Qed.

(** What one operation does to the entries. *)
Lemma apply_op_entries c op key e : entries (apply_op c op) !! key = Some e ->
  (exists path, op = OpSet (CachedAt e) path (EModTime e) (ESize e) (File e) /\ cleanCachePath path = key) \/
  (touches key op = false /\ entries c !! key = Some e).
Proof using Hrange.
  destruct op as [now path mt sz file|path|prefix|]; cbn.
  - destruct (decide (cleanCachePath path = key)) as [<-|Hk].
    + rewrite lookup_insert_eq. intros [= <-]. left. by exists path.
    + rewrite lookup_insert_ne by done. intros H. right. split; [by apply bool_decide_false|].
      revert H. case_bool; [|done]. destruct (decide (entries c = ∅)) as [E|Hne].
      { unfold evictOldestLocked. cbn. rewrite E. by rewrite delete_empty. }
      destruct (evictOldest_spec c Hne) as (p & e' & _ & -> & _). rewrite lookup_delete_Some. by intros [_ ?].
  - rewrite lookup_delete_Some. intros [Hk H]. right. by rewrite bool_decide_false.
  - rewrite map_lookup_filter_Some. cbn. intros [H Hc]. by right.
  - by rewrite lookup_empty.
Qed.
(** Without a limit nothing is forgotten. *)
Lemma apply_op_unlimited c op key e : maxEntries c <= 0 ->
  (exists path, op = OpSet (CachedAt e) path (EModTime e) (ESize e) (File e) /\ cleanCachePath path = key) \/
  (touches key op = false /\ entries c !! key = Some e) -> entries (apply_op c op) !! key = Some e.
Proof using.
  clear Hrange. intros Hm [(path & -> & <-)|[Ht H] ].
  - cbn. rewrite lookup_insert_eq. by destruct e.
  - destruct op as [now path mt sz file|path|prefix|]; cbn in Ht |- *; zbool; [|by rewrite lookup_delete_ne| |done].
    + rewrite lookup_insert_ne by done. by rewrite (proj2 (Z.ltb_ge 0 _)).
    + by rewrite map_lookup_filter_Some.
Qed.

Definition bounded (c : DigestCache) : Prop := 0 < maxEntries c -> Cache_Size c <= maxEntries c.
Lemma size_insert_le {A} (m : gmap bytes A) k x : (size (<[k := x]> m) <= S (size m))%nat.
Proof using. clear. rewrite map_size_insert. case_match; unfold id; lia. Qed.
Lemma apply_op_bounded c op : bounded c -> bounded (apply_op c op).
Proof using Hrange.
  unfold bounded, Cache_Size. destruct op as [now path mt sz file|path|prefix|]; cbn [apply_op].
  - intros Hb. unfold Cache_Set, Cache_Size. set (key := cleanCachePath path).
    destruct (entries c !! key) as [e|] eqn:Ek.
    { rewrite bool_decide_true by eauto. cbn [negb]. rewrite andb_false_r. cbn. rewrite map_size_insert, Ek. done. }
    rewrite (bool_decide_false (is_Some None)) by (by intros [? ?]). cbn [negb]. rewrite andb_true_r.
    pose proof (evictOldest_spec c) as He. case_bool; zbool; cbn [set_entries entries maxEntries]; intros Hm.
    + change (maxEntries (evictOldestLocked range c)) with (maxEntries c) in *. destruct He as (p & e & Hp & E & _).
      { intros E. rewrite E, map_size_empty in *. lia. }
      rewrite E. pose proof (size_insert_le (delete p (entries c)) key {| File := file; EModTime := mt; ESize := sz; CachedAt := now |}).
      rewrite map_size_delete_Some in H1 by done. specialize (Hb Hm). lia.
    + apply andb_false_iff in Heqb as [H|H]; zbool; [lia|].
      pose proof (size_insert_le (entries c) key {| File := file; EModTime := mt; ESize := sz; CachedAt := now |}). lia.
  - cbn. intros Hb Hm. rewrite map_size_delete. case_match; unfold id; specialize (Hb Hm); lia.
  - cbn. intros Hb Hm. specialize (Hb Hm). enough (size (filter (fun x => covers (cleanCachePath prefix) x.1 = false) (entries c)) <= size (entries c))%nat by lia.
    apply map_subseteq_size, map_filter_subseteq.
  - cbn. intros _ Hm. rewrite map_size_empty. lia.
Qed.

(** Whatever was done to a cache, it holds at most the configured number of
    entries, the entry that was cached first makes room for a new one, and a
    lookup answers only what was last stored for that name with the same
    modification time and size, and is not too old; all of it if there is no limit. *)
Theorem cache_remembers max ttl_ ops now path modTime sz f :
  let c := fold_left apply_op ops (NewDigestCache max ttl_) in
  bounded c /\
  (Cache_Lookup now c path modTime sz = Some f ->
    exists e, stored ops (cleanCachePath path) e /\ File e = f /\ EModTime e = modTime /\ ESize e = sz /\
      (0 < ttl_ -> time_Sub now (CachedAt e) <= ttl_)) /\
  (entries c <> ∅ -> exists p e, entries c !! p = Some e /\
    entries (evictOldestLocked range c) = delete p (entries c) /\
    forall q e', entries c !! q = Some e' -> time_Before (CachedAt e') (CachedAt e) = false) /\
  (max <= 0 -> forall e, stored ops (cleanCachePath path) e -> (0 < ttl_ -> time_Sub now (CachedAt e) <= ttl_) ->
    Cache_Lookup now c path (EModTime e) (ESize e) = Some (File e)).
Proof using Hrange.
  intros c.
  assert (maxEntries c = max /\ ttl c = ttl_ /\ bounded c /\ (forall key e, entries c !! key = Some e -> stored ops key e) /\
    (max <= 0 -> forall key e, stored ops key e -> entries c !! key = Some e)) as (Hm & Ht & Hb & H1 & H2).
  { subst c. induction ops as [|op ops IH] using rev_ind.
    - split_and!; [done|done| |intros ? ?; cbn; by rewrite lookup_empty|].
      { unfold bounded, Cache_Size. cbn. rewrite map_size_empty. lia. }
      intros _ key e (before & p & after & E & _). by destruct before.
    - rewrite fold_left_app. cbn [fold_left]. set (c := fold_left apply_op ops _) in *. destruct IH as (Hm & Ht & Hb & H1 & H2).
      assert (maxEntries (apply_op c op) = maxEntries c /\ ttl (apply_op c op) = ttl c) as [-> ->].
      { destruct op; cbn; [|done..]. by case_bool. }
      split_and!; [done|done|by apply apply_op_bounded| |].
      + intros key e [H|[? H] ]%apply_op_entries; apply stored_snoc; auto.
      + intros Hmax key e [H|[? H] ]%stored_snoc; apply apply_op_unlimited; try lia; auto. }
  split_and!; [done| |by apply evictOldest_spec|].
  - unfold Cache_Lookup. destruct (entries c !! _) as [e|] eqn:E; [|done]. rewrite Ht. repeat case_bool; try done.
    intros [= <-]. apply orb_false_iff in Heqb0 as [Hs Hmt]. zbool. apply time_Equal_eq in Hmt. exists e.
    split_and!; [by apply H1|done|done|done|]. intros Hp. rewrite (proj2 (Z.ltb_lt 0 _)) in Heqb by done. cbn in Heqb. by zbool.
  - intros Hmax e He Hold. unfold Cache_Lookup. rewrite (H2 Hmax _ _ He), Ht, Z.eqb_refl.
    rewrite (proj2 (time_Equal_eq _ _)) by done. cbn. case_bool; [|done]. zbool. lia.
Qed.
End CacheProps.

(** ** Snapshots *)

Lemma fold_remove_lookup (dirty : list bytes) (s : Snapshot) (k : bytes) :
  fold_left (fun s path => removeLocked s (cleanSnapshotPath path)) dirty s !! k =
  if existsb (fun d => covers (cleanSnapshotPath d) k) dirty then None else s !! k.
Proof.
  revert s. induction dirty as [|d dirty IH]; intros s; [done|]. cbn [fold_left existsb]. rewrite IH.
  unfold removeLocked, covers. rewrite map_lookup_filter.
  destruct (decide (k = cleanSnapshotPath d)) as [->|Hk].
  - rewrite lookup_delete_eq, (bool_decide_true (_ = _)) by done. cbn. by case_bool.
  - rewrite lookup_delete_ne, (bool_decide_false (_ = _)) by done. cbn [orb].
    destruct (s !! k) as [f|], (IsParent k (cleanSnapshotPath d)) eqn:E, (existsb _ dirty); cbn; rewrite ?E; done.
Qed.
Lemma fold_insert_lookup (files : list FileInfo) (s : Snapshot) (k : bytes) :
  fold_left (fun (s : Snapshot) file => <[cleanSnapshotPath (Name file) := file]> s) files s !! k =
  match list.last (List.filter (fun f => bool_decide (cleanSnapshotPath (Name f) = k)) files) with Some f => Some f | None => s !! k end.
Proof.
  induction files as [|f files IH] using rev_ind; [done|]. rewrite fold_left_app, List.filter_app. cbn [fold_left List.filter].
  destruct (decide (cleanSnapshotPath (Name f) = k)) as [<-|Hk].
  - by rewrite lookup_insert_eq, bool_decide_true, last_snoc by done.
  - by rewrite lookup_insert_ne, bool_decide_false, app_nil_r by done.
Qed.
(** An update forgets the dirty subtrees, and then has the given files. *)
Lemma Snapshot_Update_lookup (files : list FileInfo) (dirty : list bytes) (s : Snapshot) (k : bytes) : Snapshot_Update files dirty s !! k =
  match list.last (List.filter (fun f => bool_decide (cleanSnapshotPath (Name f) = k)) files) with
  | Some f => Some f
  | None => if existsb (fun d => covers (cleanSnapshotPath d) k) dirty then None else s !! k
  end.
Proof. unfold Snapshot_Update. by rewrite fold_insert_lookup, fold_remove_lookup. Qed.

Lemma sort_by_name_perm l : sort_by_name l ≡ₚ l.
Proof.
  induction l as [|f l IH]; [done|]. cbn [sort_by_name foldr]. fold (sort_by_name l). rewrite <- IH at 2.
  generalize (sort_by_name l). clear. intros l. induction l as [|g l IH]; [done|]. cbn. case_bool; [done|].
  rewrite IH. apply Permutation_swap.
Qed.
Lemma sort_by_name_sorted l : Sorted (fun f g => bytes_leb (Name f) (Name g) = true) (sort_by_name l).
Proof.
  induction l as [|f l IH]; [constructor|]. cbn [sort_by_name foldr]. fold (sort_by_name l). revert IH.
  generalize (sort_by_name l). clear. intros l. induction 1 as [|g l Hl IH Hd]; [by repeat constructor|]. cbn.
  destruct (bytes_leb (Name f) (Name g)) eqn:E; [by repeat constructor|]. constructor; [done|].
  assert (bytes_leb (Name g) (Name f) = true) as Hg by (destruct (bytes_leb_total (Name g) (Name f)); congruence).
  inversion Hd; subst; cbn; [by constructor|]. case_bool; by constructor.
Qed.
Lemma filter_bool {A} (P : A -> Prop) `{forall x, Decision (P x)} (f : A -> bool) l :
  (forall x, f x = true <-> P x) -> List.filter f l = filter P l.
Proof.
  intros Hf. induction l as [|x l IH]; [done|]. cbn. rewrite IH. specialize (Hf x).
  destruct (f x); case_decide as Hd; try done; exfalso; naive_solver.
Qed.
Lemma SubtreeFiles_spec (range : Snapshot -> list (bytes * FileInfo)) (s : Snapshot) (path : bytes) : (forall m : Snapshot, range m ≡ₚ map_to_list m) ->
  Sorted (fun f g => bytes_leb (Name f) (Name g) = true) (SubtreeFiles range s path) /\
  SubtreeFiles range s path ≡ₚ (filter (fun x => cleanSnapshotPath path = [] \/ covers (cleanSnapshotPath path) x.1 = true) (map_to_list s)).*2.
Proof.
  intros Hr. split; [apply sort_by_name_sorted|]. unfold SubtreeFiles. rewrite sort_by_name_perm.
  rewrite (filter_bool (fun x => cleanSnapshotPath path = [] \/ covers (cleanSnapshotPath path) x.1 = true)); [by rewrite (Hr s)|].
  intros x. rewrite orb_true_iff. destruct (cleanSnapshotPath path); cbn; naive_solver.
Qed.

(** On Unix a backslash is an ordinary character, but names that differ in it have the same key. *)
Lemma backslash_shares_key : Clean (gostr "a\b") <> Clean (gostr "a/b") /\ cleanCachePath (gostr "a\b") = cleanCachePath (gostr "a/b").
Proof. split; [by vm_compute|reflexivity]. Qed.

(** *** A cache for two entries *)

Definition ex_file (name : bytes) : FileInfo :=
  {| Name := name; FSize := 5; ModifiedS := 1000; ModifiedBy := 7; Version := {| Vector.Counters := [] |}; Sequence := 0;
     Blocks := []; SymlinkTarget := []; BlocksHash := []; PreviousBlocksHash := []; Encrypted := [];
     Platform := {| Unix := None; Windows := None; Linux := None; Darwin := None; FreeBSD := None; NetBSD := None |};
     Type_ := FileInfoTypeFile; Permissions := 420; ModifiedNs := 0; RawBlockSize := 0; LocalFlags := 0;
     EncryptionTrailerSize := 0; Deleted := false; NoPermissions := false; truncated := false |}.
Definition at_ (s : Z) : GoTime := time_Unix s 0.
Definition ex_ops : list cache_op :=
  [OpSet (at_ 1) (gostr "a") (at_ 1000) 5 (ex_file (gostr "a")); OpSet (at_ 2) (gostr "b") (at_ 1000) 5 (ex_file (gostr "b"));
   OpRemovePrefix (gostr "dir"); OpSet (at_ 3) (gostr "c") (at_ 1000) 5 (ex_file (gostr "c"))].
Definition ex_cache (max : Z) : DigestCache := fold_left (apply_op map_to_list) ex_ops (NewDigestCache max 0).
Theorem cache_remembers_witness :
  bounded (ex_cache 2) /\ Cache_Lookup (at_ 9) (ex_cache 2) (gostr "a") (at_ 1000) 5 = None /\
  Cache_Lookup (at_ 9) (ex_cache 2) (gostr "b") (at_ 1000) 5 = Some (ex_file (gostr "b")) /\
  exists e, stored ex_ops (cleanCachePath (gostr "b")) e /\ File e = ex_file (gostr "b").
Proof.
  assert (Cache_Lookup (at_ 9) (ex_cache 2) (gostr "b") (at_ 1000) 5 = Some (ex_file (gostr "b"))) as Hl by (by vm_compute).
  destruct (cache_remembers map_to_list (fun m => Permutation_refl _) 2 0 ex_ops (at_ 9) (gostr "b") (at_ 1000) 5 (ex_file (gostr "b")))
    as (H1 & H2 & _ & _).
  split; [exact H1|]. split; [by vm_compute|]. split; [exact Hl|]. destruct (H2 Hl) as (e & H3 & H4 & _). exact (ex_intro _ e (conj H3 H4)).
Defined.
