(* ===== verification/ScanWalk.v ===== *)
(** * Walking a folder (lib/fs/walkfs.go, lib/scanner/walk.go, blockqueue.go)

    The walk over a directory tree, and what the scanner does with every item:
    it is skipped, reported as it is, or sent to be hashed.  Programs over the
    calls of [Disk]; the variable [ignoredParent] of the callback is the state
    that the walk threads.  The goroutines of the scanner are [scan], and
    [hash_item] for every file that it sends. *)
From Stdlib Require Import ZArith List Lia.
From Stdlib Require Import Strings.Byte.
From stdpp Require Import base list option numbers tactics.
From S2P Require Import Prelude GoLib Vector FileInfo Paths Disk PullItems ScanBlocks.

#[local] Open Scope Z_scope.

(** ** Walking (lib/fs/walkfs.go) *)

Section Walk.
Context {S : Type} (checkInfiniteRecursion : bool).
(** The state of a walk is that of its callback; [OutOfFuel] is for trees deeper than [fuel]. *)
Abbreviation walked := (prog (S * outcome disk_err unit)).
Context (walkFn : bytes -> option Stat -> option disk_err -> S -> prog (S * option disk_err)).

Definition of_error (r : S * option disk_err) : S * outcome disk_err unit :=
  (r.1, match r.2 with Some e => Err e | None => Ret tt end).
Fixpoint Contains (info : Stat) (ancestors : list Stat) : prog bool :=
  match ancestors with
  | [] => mret false
  | a :: ancestors => same ← do_ (SameFile info a); if same : bool then mret true else Contains info ancestors
  end.

Section Names.
Context (walk : bytes -> Stat -> S -> walked) (path : bytes).
Fixpoint walk_names (names : list bytes) (s : S) : walked :=
  match names with
  | [] => mret (s, Ret tt)
  | name :: names =>
      let filename := Join [path; name] in
      r ← do_ (Lstat filename);
      match r with
      | inl err =>
          r ← walkFn filename None (Some err) s;
          match r.2 with
          | Some e => if is_skip_dir e then walk_names names r.1 else mret (r.1, Err e)
          | None => walk_names names r.1
          end
      | inr fileInfo =>
          r ← walk filename fileInfo s;
          match r.2 with
          | Err e => if negb (st_IsDir fileInfo) || negb (is_skip_dir e) then mret r else walk_names names r.1
          | Ret _ => walk_names names r.1
          | _ => mret r
          end
      end
  end.
End Names.

Fixpoint walk (fuel : nat) (ancestors : list Stat) (path : bytes) (info : Stat) (s : S) : walked :=
  match fuel with
  | O => mret (s, OutOfFuel)
  | Datatypes.S fuel =>
      match Canonicalize path with
      | Ret path =>
          r ← walkFn path (Some info) None s;
          match r.2 with
          | Some err => mret (r.1, if st_IsDir info && is_skip_dir err then Ret tt else Err err)
          | None =>
              if negb (st_IsDir info) && negb (bool_decide (path = dot)) then mret (r.1, Ret tt)
              else
                cyclic ← (if checkInfiniteRecursion then Contains info ancestors else mret false);
                if cyclic : bool then r ← walkFn path (Some info) (Some ErrInfiniteRecursion) r.1; mret (of_error r)
                else
                  let ancestors := if checkInfiniteRecursion then ancestors ++ [info] else ancestors in
                  names ← do_ (DirNames path);
                  match names with
                  | inl err => r ← walkFn path (Some info) (Some err) r.1; mret (of_error r)
                  | inr names => walk_names (walk fuel ancestors) path names r.1
                  end
          end
      | Err e => mret (s, Err (ErrPath e))
      | _ => mret (s, Panic)
      end
  end.

Definition Walk_fs (fuel : nat) (root : bytes) (s : S) : walked :=
  r ← do_ (Lstat root);
  match r with
  | inl err => r ← walkFn root None (Some err) s; mret (of_error r)
  | inr info => walk fuel [] root info s
  end.
End Walk.

(** ** The scanner *)

Record walkerCfg :=
  { Subs : list bytes; w_IgnorePerms : bool; AutoNormalize : bool; w_ShortID : Z; w_LocalFlags : Z; w_ModTimeWindow : Z;
    ScanOwnership : bool; ScanXattrs : bool; TempLifetime : Z; hasCurrentFiler : bool;
    (* the incremental configuration: enabled, with a baseline, with a cache *)
    Incremental_Enabled : bool; Incremental_Baseline : bool; Incremental_Cache : bool; w_checkRecursion : bool }.

Definition canSkipDirBit : Z := 8.
Definition R_CanSkipDir (r : Z) : bool := R_IsIgnored r && negb (Z.land r canSkipDirBit =? 0).

(** [time.Time.Add] *)
Definition time_Add (t : GoTime) (d : Z) : GoTime :=
  {| tsec := i64 (tsec t + (tnsec t + d) / nsPerSec); tnsec := (tnsec t + d) mod nsPerSec |}.

Definition MergeWith (p other : PlatformData) : PlatformData :=
  let or_ {A} (a b : option A) := match a with None => b | Some _ => a end in
  {| Unix := or_ (Unix p) (Unix other); Windows := or_ (Windows p) (Windows other); Linux := or_ (Linux p) (Linux other);
     Darwin := or_ (Darwin p) (Darwin other); FreeBSD := or_ (FreeBSD p) (FreeBSD other); NetBSD := or_ (NetBSD p) (NetBSD other) |}.

Definition set_Version (v : Vector) (f : FileInfo) : FileInfo :=
  {| Name := Name f; FSize := FSize f; ModifiedS := ModifiedS f; ModifiedBy := ModifiedBy f;
     Version := v; Sequence := Sequence f; Blocks := Blocks f; SymlinkTarget := SymlinkTarget f;
     BlocksHash := BlocksHash f; PreviousBlocksHash := PreviousBlocksHash f; Encrypted := Encrypted f;
     Platform := Platform f; Type_ := Type_ f; Permissions := Permissions f; ModifiedNs := ModifiedNs f;
     RawBlockSize := RawBlockSize f; LocalFlags := LocalFlags f; EncryptionTrailerSize := EncryptionTrailerSize f;
     Deleted := Deleted f; NoPermissions := NoPermissions f; truncated := truncated f |}.
(** The assignments of [walkRegular] and [walkDir] after [updateFileInfo]. *)
Definition set_scanned (noPerms : bool) (rawBlockSize : Z) (f : FileInfo) : FileInfo :=
  {| Name := Name f; FSize := FSize f; ModifiedS := ModifiedS f; ModifiedBy := ModifiedBy f;
     Version := Version f; Sequence := Sequence f; Blocks := Blocks f; SymlinkTarget := SymlinkTarget f;
     BlocksHash := BlocksHash f; PreviousBlocksHash := PreviousBlocksHash f; Encrypted := Encrypted f;
     Platform := Platform f; Type_ := Type_ f; Permissions := Permissions f; ModifiedNs := ModifiedNs f;
     RawBlockSize := rawBlockSize; LocalFlags := LocalFlags f; EncryptionTrailerSize := EncryptionTrailerSize f;
     Deleted := Deleted f; NoPermissions := noPerms; truncated := truncated f |}.
(** The assignments of [hashFiles]. *)
Definition set_hashed (bs : list BlockInfo) (hash : bytes) (size : Z) (f : FileInfo) : FileInfo :=
  {| Name := Name f; FSize := size; ModifiedS := ModifiedS f; ModifiedBy := ModifiedBy f;
     Version := Version f; Sequence := Sequence f; Blocks := bs; SymlinkTarget := SymlinkTarget f;
     BlocksHash := hash; PreviousBlocksHash := PreviousBlocksHash f; Encrypted := Encrypted f;
     Platform := Platform f; Type_ := Type_ f; Permissions := Permissions f; ModifiedNs := ModifiedNs f;
     RawBlockSize := RawBlockSize f; LocalFlags := LocalFlags f; EncryptionTrailerSize := EncryptionTrailerSize f;
     Deleted := Deleted f; NoPermissions := NoPermissions f; truncated := truncated f |}.
(** [updateFileInfo] at the Unix time [now], for a build for Unix. *)
Definition updateFileInfo (shortID localFlags now : Z) (dst src : FileInfo) : FileInfo :=
  {| Name := Name dst; FSize := FSize dst; ModifiedS := ModifiedS dst; ModifiedBy := shortID;
     Version := Update (Version src) shortID now; Sequence := Sequence dst; Blocks := Blocks dst;
     SymlinkTarget := SymlinkTarget dst; BlocksHash := BlocksHash dst; PreviousBlocksHash := BlocksHash src;
     Encrypted := Encrypted dst; Platform := MergeWith (Platform dst) (Platform src); Type_ := Type_ dst;
     Permissions := Permissions dst; ModifiedNs := ModifiedNs dst; RawBlockSize := RawBlockSize dst;
     LocalFlags := localFlags; EncryptionTrailerSize := EncryptionTrailerSize dst;
     Deleted := Deleted dst; NoPermissions := NoPermissions dst; truncated := truncated dst |}.
(** What a cached item takes from the fresh one. *)
Definition refresh_cached (cached fresh : FileInfo) : FileInfo :=
  {| Name := Name cached; FSize := FSize cached; ModifiedS := ModifiedS cached; ModifiedBy := ModifiedBy fresh;
     Version := Version fresh; Sequence := Sequence cached; Blocks := Blocks cached; SymlinkTarget := SymlinkTarget cached;
     BlocksHash := BlocksHash cached; PreviousBlocksHash := PreviousBlocksHash fresh; Encrypted := Encrypted cached;
     Platform := MergeWith (Platform cached) (Platform fresh); Type_ := Type_ cached; Permissions := Permissions cached;
     ModifiedNs := ModifiedNs cached; RawBlockSize := RawBlockSize cached; LocalFlags := LocalFlags fresh;
     EncryptionTrailerSize := EncryptionTrailerSize cached; Deleted := Deleted cached; NoPermissions := NoPermissions fresh;
     truncated := truncated cached |}.

Section Scanner.
Context (sha256 : bytes -> bytes) (samePlatform : PlatformData -> PlatformData -> bool) (ignores : bytes -> Z).
(** The normalisation of the system: NFC, or NFD on macOS. *)
Context (normalizePath : bytes -> bytes).
Context (cfg : walkerCfg).

Definition handleError (context path : bytes) (err : disk_err) : prog unit :=
  do_ (SendError path (ErrWrapped context err)).

(** [cFiler.CurrentFile] of lib/model/folder.go, and [noCurrentFiler]. *)
Definition CurrentFile (file : bytes) : prog (FileInfo * bool) :=
  if hasCurrentFiler cfg then
    r ← do_ (GetDeviceFile file);
    mret (match r with inr (fi, true) => (fi, true) | _ => (emptyFileInfo, false) end)
  else mret (emptyFileInfo, false).

Definition scanComparison : FileInfoComparison :=
  {| ModTimeWindow := w_ModTimeWindow cfg; IgnorePerms := w_IgnorePerms cfg; IgnoreBlocks := true;
     IgnoreFlags := w_LocalFlags cfg; IgnoreOwnership := negb (ScanOwnership cfg); IgnoreXattrs := negb (ScanXattrs cfg) |}.
(** Nothing if the item is unchanged, or else the item to report. *)
Definition changed (curFile : FileInfo) (hasCurFile : bool) (f : FileInfo) : option FileInfo :=
  if hasCurFile then
    if IsEquivalentOptional false samePlatform curFile f scanComparison then None
    else if ShouldConflict curFile && negb (ShouldConflict f) then Some (set_Version (DropOthers (Version f) (w_ShortID cfg)) f)
    else Some f
  else Some f.
(** The item on disk with what it takes over from the current one. *)
Definition freshItem (info : Stat) (relPath : bytes) (curFile : FileInfo) : prog (disk_err + FileInfo) :=
  f ← CreateFileInfo info relPath (ScanOwnership cfg) (ScanXattrs cfg);
  match f with
  | inl e => mret (inl e)
  | inr f => now ← do_ Now_unix; mret (inr (updateFileInfo (w_ShortID cfg) (w_LocalFlags cfg) now f curFile))
  end.

Definition lookupIncrementalCache (relPath : bytes) (info : Stat) (fresh : FileInfo) : prog (option FileInfo) :=
  if negb (Incremental_Enabled cfg && Incremental_Cache cfg) then mret None
  else if negb (Incremental_Baseline cfg) then mret None
  else
    size ← do_ SnapshotSize;
    if size =? 0 then mret None
    else
      cached ← do_ (CacheLookup relPath (st_ModTime info) (st_Size info));
      mret (match cached with
            | None => None
            | Some cached =>
                if negb (FileInfo_BlockSize cached =? FileInfo_BlockSize fresh) then None
                else Some (refresh_cached cached fresh)
            end).

(** The current block size is kept if the new one is at most a factor of two away. *)
Definition scanBlockSize (size : Z) (curFile : FileInfo) (hasCurFile : bool) : Z :=
  let blockSize := BlockSize size in
  if hasCurFile then
    let curBlockSize := FileInfo_BlockSize curFile in
    if (curBlockSize <? blockSize) && (Z.quot blockSize curBlockSize <=? 2) then curBlockSize
    else if (blockSize <? curBlockSize) && (Z.quot curBlockSize blockSize <=? 2) then curBlockSize
    else blockSize
  else blockSize.

Definition walkRegular (relPath : bytes) (info : Stat) : prog (option disk_err) :=
  cur ← CurrentFile relPath;
  let '(curFile, hasCurFile) := cur in
  let blockSize := scanBlockSize (st_Size info) curFile hasCurFile in
  f ← freshItem info relPath curFile;
  match f with
  | inl err => mret (Some err)
  | inr f =>
      let f := set_scanned (w_IgnorePerms cfg) (i32 blockSize) f in
      match changed curFile hasCurFile f with
      | None => mret None
      | Some f =>
          cached ← lookupIncrementalCache relPath info f;
          match cached with
          | Some cached => do_ (SendResult cached)
          | None => do_ (SendHash f)
          end
      end
  end.

Definition walkDir (relPath : bytes) (info : Stat) : prog (option disk_err) :=
  cur ← CurrentFile relPath;
  let '(curFile, hasCurFile) := cur in
  f ← freshItem info relPath curFile;
  match f with
  | inl err => mret (Some err)
  | inr f =>
      let f := set_scanned (w_IgnorePerms cfg) (RawBlockSize f) f in
      match changed curFile hasCurFile f with
      | None => mret None
      | Some f => do_ (SendResult f)
      end
  end.

(** The item is read before the database; [updateFileInfo] comes after both. *)
Definition walkSymlink (relPath : bytes) (info : Stat) : prog (option disk_err) :=
  f ← CreateFileInfo info relPath (ScanOwnership cfg) (ScanXattrs cfg);
  match f with
  | inl err => mret (Some err)
  | inr f =>
      cur ← CurrentFile relPath;
      let '(curFile, hasCurFile) := cur in
      now ← do_ Now_unix;
      let f := updateFileInfo (w_ShortID cfg) (w_LocalFlags cfg) now f curFile in
      match changed curFile hasCurFile f with
      | None => mret None
      | Some f => do_ (SendResult f)
      end
  end.

Definition handleItem (path : bytes) (info : Stat) : prog (option disk_err) :=
  if st_IsSymlink info then
    err ← walkSymlink path info;
    mret (match err with Some e => Some e | None => if st_IsDir info then Some SkipDir else None end)
  else if st_IsDir info then walkDir path info
  else if st_IsRegular info then walkRegular path info
  else mret None.

Definition applyNormalization (path normPath : bytes) (info : Stat) : prog (disk_err + bytes) :=
  let via_temp :=
    let tempPath := TempNameWithPrefix sha256 normPath [] in
    e ← do_ (Rename path tempPath);
    match e with
    | Some e => mret (inl e)
    | None => e ← do_ (Rename tempPath normPath); mret (inr (match e with Some _ => tempPath | None => normPath end))
    end in
  r ← do_ (Lstat normPath);
  match r with
  | inl err =>
      if is_not_exist err then e ← do_ (Rename path normPath); mret (match e with Some e => inl e | None => inr normPath end)
      else mret (inl errUTF8Conflict)
  | inr normInfo =>
      same ← do_ (SameFile info normInfo);
      if same : bool then via_temp else mret (inl errUTF8Conflict)
  end.

Definition scan_ctx : bytes := gostr "scan".
Definition norm_ctx : bytes := gostr "normalizing path".

(** The parents that were passed over as ignored, and then the item, are handled on
    the way down; the state is the part of the path that was handled last. *)
Fixpoint handle_parents (path : bytes) (skip : option disk_err) (names : list bytes) (ignoredParent : bytes) :
  prog (bytes * option disk_err) :=
  match names with
  | [] => mret ([], None)
  | name :: names =>
      let ignoredParent := Join [ignoredParent; name] in
      r ← do_ (Lstat ignoredParent);
      match r with
      | inl err => _ ← handleError scan_ctx ignoredParent err; mret (ignoredParent, skip)
      | inr info =>
          err ← handleItem ignoredParent info;
          match err with
          | Some err => _ ← handleError scan_ctx path err; mret (ignoredParent, skip)
          | None => handle_parents path skip names ignoredParent
          end
      end
  end.

(** The end of the callback, for an item that is neither ignored nor in need of another name. *)
Definition scan_item (path : bytes) (info : Stat) (skip : option disk_err) (ignoredParent : bytes) :
  prog (bytes * option disk_err) :=
  let handle ignoredParent :=
    err ← handleItem path info;
    match err with
    | Some err => _ ← handleError scan_ctx path err; mret (ignoredParent, skip)
    | None => mret (ignoredParent, noErr)
    end in
  if is_nil ignoredParent then handle ignoredParent
  else
    let rel := trimPrefix path (ignoredParent ++ [PathSeparator]) in
    if bool_decide (rel = path) then handle []
    else handle_parents path skip ([] :: PathComponents rel) ignoredParent.

(** [walkAndHashFiles], started at the time [now]. *)
Definition walkAndHashFiles (now : GoTime) (path : bytes) (info : option Stat) (err : option disk_err) (ignoredParent : bytes) :
  prog (bytes * option disk_err) :=
  ctx ← do_ CtxErr;
  match ctx with
  | Some e => mret (ignoredParent, Some e)
  | None =>
      let skip := match info with Some st => if st_IsDir st then Some SkipDir else None | None => None end in
      let nil_info : prog (bytes * option disk_err) := Call Panics (fun e => match e : Empty_set with end) in
      if negb (validString path) then _ ← handleError scan_ctx path errUTF8Invalid; mret (ignoredParent, skip)
      else if IsTemporary path then
        match err, info with
        | None, None => nil_info
        | None, Some st =>
            if st_IsRegular st && time_Before (time_Add (st_ModTime st) (TempLifetime cfg)) now
            then _ ← do_ (Remove path); mret (ignoredParent, None) else mret (ignoredParent, None)
        | Some _, _ => mret (ignoredParent, None)
        end
      else if IsInternal path then mret (ignoredParent, skip)
      else
        let nonNormPath := path in
        let path := normalizePath path in
        let m := ignores path in
        if R_IsIgnored m then
          match err, info with
          | Some _, _ => mret (ignoredParent, skip)
          | None, None => if R_CanSkipDir m then mret (ignoredParent, skip) else nil_info
          | None, Some st =>
              if R_CanSkipDir m || st_IsSymlink st then mret (ignoredParent, skip)
              else if st_IsDir st && (is_nil ignoredParent || negb (IsParent path ignoredParent)) then mret (path, None)
              else mret (ignoredParent, None)
          end
        else
          match err with
          | Some e =>
              _ ← (if is_not_exist e then mret tt else handleError scan_ctx path e);
              mret (ignoredParent, skip)
          | None =>
              if bool_decide (path = dot) then mret (ignoredParent, None)
              else
                match info with
                | None => nil_info
                | Some st =>
                    if bool_decide (path = nonNormPath) then scan_item path st skip ignoredParent
                    else if negb (AutoNormalize cfg) then
                      _ ← handleError norm_ctx nonNormPath errUTF8Normalization; mret (ignoredParent, skip)
                    else
                      r ← applyNormalization nonNormPath path st;
                      match r with
                      | inl e => _ ← handleError norm_ctx nonNormPath e; mret (ignoredParent, skip)
                      | inr path => scan_item path st skip ignoredParent
                      end
                end
          end
  end.

(** [scan]: an error of the walk of one sub only ends that walk. *)
Fixpoint scan_subs (fuel : nat) (now : GoTime) (subs : list bytes) (ignoredParent : bytes) : prog (outcome disk_err unit) :=
  match subs with
  | [] => mret (Ret tt)
  | sub :: subs =>
      err ← TraversesSymlink (Dir sub);
      match err with
      | Some _ => scan_subs fuel now subs ignoredParent
      | None =>
          r ← Walk_fs (w_checkRecursion cfg) (walkAndHashFiles now) fuel sub ignoredParent;
          match r.2 with OutOfFuel => mret OutOfFuel | _ => scan_subs fuel now subs r.1 end
      end
  end.
Definition scan (fuel : nat) (now : GoTime) : prog (outcome disk_err unit) :=
  match Subs cfg with
  | [] =>
      r ← Walk_fs (w_checkRecursion cfg) (walkAndHashFiles now) fuel dot [];
      mret (match r.2 with OutOfFuel => OutOfFuel | _ => Ret tt end)
  | subs => scan_subs fuel now subs []
  end.

(** ** Hashing *)

(** One round of [hashFiles]. *)
Definition hash_item (f : FileInfo) : prog unit :=
  if IsDirectory f || Deleted f then Call Panics (fun e => match e : Empty_set with end)
  else
    r ← do_ (HashFile (Name f) (FileInfo_BlockSize f));
    match r with
    | inl err => handleError (gostr "hashing") (Name f) err
    | inr blocks =>
        let f := set_hashed blocks (BlocksHash_of sha256 blocks) (fold_left (fun n b => n + Size b) blocks 0) f in
        _ ← (if Incremental_Enabled cfg && Incremental_Cache cfg then do_ (CacheSet (Name f) (ModTime f) (FSize f) f) else mret tt);
        _ ← do_ (SendResult f);
        mret tt
    end.
(** [walkWithoutHashing] passes on what the others hash. *)
Definition pass_item (f : FileInfo) : prog unit := _ ← do_ (SendResult f); mret tt.
End Scanner.
