(* ===== verification/ScanItemProps.v ===== *)
(** * What the scanner reports of an item

    Scanning again what was reported finds nothing new, and an item from the
    digest cache is the one that hashing would give, as long as its permissions
    and platform data are the same; the cases where they are not are proved
    beside the theorems. *)
From Stdlib Require Import ZArith List Lia.
From Stdlib Require Import Strings.Byte.
From stdpp Require Import base list option gmap numbers tactics.
From S2P Require Import Prelude GoLib Vector FileInfo FileInfoProps Paths Disk PullItems ScanBlocks ScanCache ScanWalk.

#[local] Open Scope Z_scope.

(** ** Merging platform data *)

Lemma MergeWith_idem p q : MergeWith p (MergeWith p q) = MergeWith p q.
Proof. unfold MergeWith. cbn. f_equal; repeat case_match; congruence. Qed.
Lemma MergeWith_idem_r p : MergeWith p p = p.
Proof. destruct p. unfold MergeWith. cbn. f_equal; by case_match. Qed.

(** ** Items as they are stored *)

(** The database keeps flags of its own and a sequence number. *)
Definition set_stored (sequence flags : Z) (f : FileInfo) : FileInfo :=
  {| Name := Name f; FSize := FSize f; ModifiedS := ModifiedS f; ModifiedBy := ModifiedBy f;
     Version := Version f; Sequence := sequence; Blocks := Blocks f; SymlinkTarget := SymlinkTarget f;
     BlocksHash := BlocksHash f; PreviousBlocksHash := PreviousBlocksHash f; Encrypted := Encrypted f;
     Platform := Platform f; Type_ := Type_ f; Permissions := Permissions f; ModifiedNs := ModifiedNs f;
     RawBlockSize := RawBlockSize f; LocalFlags := flags; EncryptionTrailerSize := EncryptionTrailerSize f;
     Deleted := Deleted f; NoPermissions := NoPermissions f; truncated := truncated f |}.

Section Item.
Context (samePlatform : PlatformData -> PlatformData -> bool) (cfg : walkerCfg).
Hypothesis samePlatform_same : forall p q, samePlatform p q = true -> p = q.
Abbreviation changed := (changed samePlatform cfg).

(** The item for a file on disk, taking over from the current one. *)
Definition fresh_of (st : Stat) (name : bytes) (plat : PlatformData) (target : bytes) (cur : FileInfo) (now : Z) (np : bool) (raw : Z) :
  FileInfo := set_scanned np raw (updateFileInfo (w_ShortID cfg) (w_LocalFlags cfg) now (item_of st name plat target) cur).

(** The flags of the folder do not ask for another scan, and those of the database
    add nothing that makes the item invalid. *)
Definition settled_flags (flags : Z) : Prop :=
  has_flag (w_LocalFlags cfg) FlagLocalMustRescan = false /\ has_flag flags FlagLocalMustRescan = false /\
  flag_IsInvalid (clear_flags flags (w_LocalFlags cfg)) = false.

(** What is compared of two items that were seen alike. *)
Definition alike (f g : FileInfo) : Prop :=
  Name f = Name g /\ Type_ f = Type_ g /\ Deleted f = Deleted g /\ Platform f = Platform g /\
  NoPermissions f = NoPermissions g /\ Permissions f = Permissions g /\ FSize f = FSize g /\
  ModifiedS f = ModifiedS g /\ ModifiedNs f = ModifiedNs g /\ SymlinkTarget f = SymlinkTarget g.
Definition known_type (f : FileInfo) : Prop :=
  Type_ f = FileInfoTypeFile \/ Type_ f = FileInfoTypeSymlink \/ Type_ f = FileInfoTypeDirectory.

Lemma clear_own_flags : flag_IsInvalid (clear_flags (w_LocalFlags cfg) (w_LocalFlags cfg)) = false.
Proof using. unfold clear_flags. by rewrite Z.ldiff_diag. Qed.

(** An item like the current one is unchanged. *)
Lemma alike_unchanged g f : alike g f -> known_type f -> settled_flags (LocalFlags g) -> LocalFlags f = w_LocalFlags cfg ->
  changed g true f = None.
Proof using samePlatform_same.
  intros (En & Et & Ed & Ep & Enp & Eperm & Es & Ems & Emn & Etgt) Hk (Hf1 & Hf2 & Hf3) Hf.
  unfold changed, IsEquivalentOptional.
  assert (isEquivalent false samePlatform g f (scanComparison cfg) = true) as ->; [|done].
  apply isEquivalent_iff; [done|]. unfold equivalent, invalid_but, scanComparison, MustRescan, ModTime.
  cbn [IgnoreFlags IgnoreBlocks IgnoreOwnership IgnoreXattrs IgnorePerms ModTimeWindow].
  rewrite Hf, Hf3, clear_own_flags, En, Et, Ed, Ep, Enp, Eperm, Es, Ems, Emn, Etgt. split_and!; try done.
  - intros _. unfold ownership_same. by rewrite unixOwnershipEqual_refl, windowsOwnershipEqual_refl.
  - intros _. unfold xattrs_same. by rewrite !xattrsEqual_refl.
  - intros _ _ _. unfold PermsEqual. apply Z.eqb_refl.
  - destruct Hk as [Hk|[Hk|Hk] ]; [left|right; left|right; right]; try done. split_and!; try done.
    unfold ModTimeEqual, time_Equal. by rewrite !Z.eqb_refl.
Qed.

Lemma fresh_type st name plat target cur now np raw : known_type (fresh_of st name plat target cur now np raw).
Proof using. clear. unfold known_type, fresh_of, item_of. cbn. repeat case_bool; auto. Qed.
Lemma changed_alike cur hasCur f f' : changed cur hasCur f = Some f' -> f' = f \/ exists v, f' = set_Version v f.
Proof using. clear. unfold changed. repeat case_match; intros [= <-]; eauto. Qed.

(** The item as it is sent on: regular files are hashed. *)
Definition hashed_as (st : Stat) (f g : FileInfo) : Prop :=
  g = f \/ (st_IsSymlink st = false /\ st_IsDir st = false /\ exists bs hash, g = set_hashed bs hash (st_Size st) f).

Lemma fresh_platform st name plat target cur now np raw :
  Platform (fresh_of st name plat target cur now np raw) = MergeWith plat (Platform cur).
Proof using. clear. unfold fresh_of, item_of. cbn. by repeat case_bool. Qed.
Lemma fresh_alike st name plat target cur cur' now now' np raw raw' :
  MergeWith plat (Platform cur) = MergeWith plat (Platform cur') ->
  alike (fresh_of st name plat target cur now np raw) (fresh_of st name plat target cur' now' np raw').
Proof using.
  clear. intros E. unfold alike. rewrite !fresh_platform, E. unfold fresh_of, item_of. split_and!; try done; cbn; by repeat case_bool.
Qed.
Lemma alike_trans f g h : alike f g -> alike g h -> alike f h.
Proof using. clear. unfold alike. intuition congruence. Qed.
Lemma sent_alike cur hasCur f f' st g : changed cur hasCur f = Some f' -> hashed_as st f' g ->
  (st_IsSymlink st = false -> st_IsDir st = false -> FSize f = st_Size st) -> alike g f.
Proof using.
  clear. intros Hc Hh Hs. destruct (changed_alike _ _ _ _ Hc) as [->|[v ->] ], Hh as [->|(H1 & H2 & bs & hash & ->)];
    repeat split; cbn; symmetry; by apply Hs.
Qed.

(** An item that is scanned, hashed with the size it had on disk, and stored,
    is found unchanged by the next scan if it is still the same on disk. *)
Theorem scan_settles st name plat target cur hasCur now now' np raw raw' f g sequence flags
    (Hfirst : changed cur hasCur (fresh_of st name plat target cur now np raw) = Some f)
    (Hhash : hashed_as st f g) (Hflags : settled_flags flags) :
  let stored := set_stored sequence flags g in
  changed stored true (fresh_of st name plat target stored now' np raw') = None.
Proof using samePlatform_same.
  intros stored. apply alike_unchanged; [|apply fresh_type|done|done].
  assert (alike g (fresh_of st name plat target cur now np raw)) as Hg.
  { eapply sent_alike; [done..|]. intros Hs Hd. unfold fresh_of, item_of. by rewrite Hs, Hd. }
  assert (alike stored g) as Hs by (by repeat split).
  eapply alike_trans; [exact Hs|]. eapply alike_trans; [exact Hg|]. apply fresh_alike.
  assert (Platform stored = MergeWith plat (Platform cur)) as ->; [|by rewrite MergeWith_idem].
  transitivity (Platform g); [done|]. rewrite <- (fresh_platform st name plat target cur now np raw). apply Hg.
Qed.

(** ** Items from the cache *)

(** Times that [time.Unix] takes apart again. *)
Definition stat_time_ok (st : Stat) : Prop :=
  - 2 ^ 62 <= st_ModTime_Unix st < 2 ^ 62 /\ 0 <= st_ModTime_Nanosecond st < nsPerSec.
Lemma time_Unix_inj s n s' n' : - 2 ^ 62 <= s < 2 ^ 62 -> 0 <= n < nsPerSec -> - 2 ^ 62 <= s' < 2 ^ 62 -> 0 <= n' < nsPerSec ->
  time_Equal (time_Unix s n) (time_Unix s' n') = true -> s = s' /\ n = n'.
Proof using.
  clear. intros Hs Hn Hs' Hn' E. apply time_Equal_eq in E. unfold time_Unix in E. injection E as E1 E2.
  rewrite !Z.div_small in E1 by done. unfold unixToInternal in E1. rewrite !iN_small in E1 by lia.
  rewrite !Z.mod_small in E2 by done. split; [lia|done].
Qed.

(** If a regular file has the modification time, the size, the block size, the
    permissions and the platform data that it had when it was hashed, then the
    item from the cache is the item that hashing it again would give. *)
Theorem cache_hit_transparent st0 st name plat0 plat cur0 cur now0 now np0 np raw0 raw v bs hash
    (Hraw0 : MinBlockSize <= raw0) (Hraw : MinBlockSize <= raw)
    (Hreg0 : st_IsSymlink st0 = false /\ st_IsDir st0 = false) (Hreg : st_IsSymlink st = false /\ st_IsDir st = false)
    (Ht0 : stat_time_ok st0) (Ht : stat_time_ok st) (Hperm : Z.land (st_Mode st0) ModePerm = Z.land (st_Mode st) ModePerm)
    (Hplat : MergeWith plat0 (Platform cur0) = MergeWith plat (Platform cur)) :
  let cached := set_hashed bs hash (st_Size st) (set_Version v (fresh_of st0 name plat0 [] cur0 now0 np0 raw0)) in
  let fresh := fresh_of st name plat [] cur now np raw in
  time_Equal (ModTime cached) (st_ModTime st) = true -> FileInfo_BlockSize cached = FileInfo_BlockSize fresh ->
  refresh_cached cached fresh = set_hashed bs hash (st_Size st) fresh.
Proof using.
  clear samePlatform_same. intros cached fresh Htime Hblock. destruct Hreg0 as [Hs0 Hd0], Hreg as [Hs Hd], Ht0 as [Ha0 Hb0], Ht as [Ha Hb].
  assert (st_ModTime_Unix st0 = st_ModTime_Unix st /\ st_ModTime_Nanosecond st0 = st_ModTime_Nanosecond st) as [E1 E2].
  { apply time_Unix_inj; try done. revert Htime. unfold cached, ModTime, fresh_of, item_of, st_ModTime. cbn. rewrite Hs0, Hd0. cbn.
    unfold nsPerSec in Hb0. rewrite iN_small by lia. done. }
  assert (raw0 = raw) as ->.
  { revert Hblock. unfold cached, fresh, FileInfo_BlockSize. cbn. by rewrite !(proj2 (Z.ltb_ge _ _)). }
  unfold refresh_cached, cached, fresh, set_hashed, fresh_of, item_of. rewrite Hs0, Hd0, Hs, Hd. cbn.
  rewrite Hplat, MergeWith_idem_r, Hperm, E1, E2. done.
Qed.

(** A file whose permissions alone were changed is reported with the permissions
    of the cached item, and is found changed by every following scan. *)
Lemma chmod_is_not_seen st name plat target cached fresh sequence flags now np raw :
  IgnorePerms (scanComparison cfg) = false -> np = false -> NoPermissions fresh = false ->
  st_IsSymlink st = false -> PermsEqual false (Permissions cached) (u32 (Z.land (st_Mode st) ModePerm)) = false ->
  let stored := set_stored sequence flags (refresh_cached cached fresh) in
  Permissions stored = Permissions cached /\
  exists f, changed stored true (fresh_of st name plat target stored now np raw) = Some f.
Proof using samePlatform_same.
  intros Hip -> Hnp Hs Hperm stored. split; [done|]. set (f := fresh_of _ _ _ _ _ _ _ _).
  unfold changed. unfold IsEquivalentOptional. destruct (isEquivalent _ _ _ _ _) eqn:E; [|case_bool; eauto].
  apply isEquivalent_iff in E; [|done]. destruct E as (_ & _ & _ & _ & _ & _ & _ & _ & E & _).
  specialize (E Hip Hnp eq_refl). unfold f, fresh_of, item_of in E. rewrite Hs in E. cbn in E.
  destruct (st_IsDir st); cbn in E; congruence.
Qed.
End Item.

(** *** A file of five bytes *)

Definition ex_item_stat : Stat :=
  {| st_IsDir := false; st_IsSymlink := false; st_IsRegular := true; st_Mode := 420; st_Size := 5;
     st_ModTime_Unix := 1000; st_ModTime_Nanosecond := 7; st_Owner := 0; st_Group := 0 |}.
Definition ex_item_cfg : walkerCfg :=
  {| Subs := []; w_IgnorePerms := false; AutoNormalize := true; w_ShortID := 7; w_LocalFlags := FlagLocalReceiveOnly;
     w_ModTimeWindow := 0; ScanOwnership := true; ScanXattrs := true; TempLifetime := 0; hasCurrentFiler := true;
     Incremental_Enabled := false; Incremental_Baseline := false; Incremental_Cache := false; w_checkRecursion := false |}.
Definition ex_platform : PlatformData :=
  {| Unix := Some {| OwnerName := gostr "jb"; GroupName := gostr "jb"; UID := 1000; GID := 1000 |}; Windows := None;
     Linux := None; Darwin := None; FreeBSD := None; NetBSD := None |}.
Abbreviation ex_fresh := (fresh_of ex_item_cfg ex_item_stat (gostr "a") ex_platform []).
Definition ex_hashed : FileInfo := set_hashed [] (gostr "hash") 5 (ex_fresh emptyFileInfo 2000 false MinBlockSize).
Theorem scan_settles_witness :
  changed (fun _ _ => false) ex_item_cfg emptyFileInfo false (ex_fresh emptyFileInfo 2000 false MinBlockSize) =
    Some (ex_fresh emptyFileInfo 2000 false MinBlockSize) /\
  changed (fun _ _ => false) ex_item_cfg (set_stored 3 (Z.lor FlagLocalReceiveOnly FlagLocalGlobal) ex_hashed) true
    (ex_fresh (set_stored 3 (Z.lor FlagLocalReceiveOnly FlagLocalGlobal) ex_hashed) 3000 false MinBlockSize) = None.
Proof.
  split; [reflexivity|].
  apply (scan_settles (fun _ _ => false) ex_item_cfg ltac:(done) ex_item_stat (gostr "a") ex_platform [] emptyFileInfo false 2000 3000 false
    MinBlockSize MinBlockSize (ex_fresh emptyFileInfo 2000 false MinBlockSize)); [reflexivity| |by repeat split].
  right. split; [reflexivity|]. split; [reflexivity|]. by exists [], (gostr "hash").
Defined.
Theorem cache_hit_transparent_witness :
  refresh_cached (set_hashed [] (gostr "hash") 5 (set_Version {| Counters := [] |} (ex_fresh emptyFileInfo 2000 false MinBlockSize)))
    (ex_fresh ex_hashed 3000 true MinBlockSize) =
  set_hashed [] (gostr "hash") 5 (ex_fresh ex_hashed 3000 true MinBlockSize).
Proof.
  apply (cache_hit_transparent ex_item_cfg ex_item_stat ex_item_stat (gostr "a") ex_platform ex_platform emptyFileInfo ex_hashed
    2000 3000 false true MinBlockSize MinBlockSize); try reflexivity; try (vm_compute; done); by split.
Defined.
