(* ===== verification/ScanWalkProps.v ===== *)
(** * What a scan covers

    The scan of a folder whose items stay as they are: every item that is not
    skipped on purpose is compared with the database and reported if it has
    changed, together with the directories above it, or an error is reported for
    it or for one of these.  The answers of the database, the cache, the clock
    and of the reading of metadata are arbitrary. *)
From Stdlib Require Import ZArith List Lia.
From Stdlib Require Import Strings.Byte.
From stdpp Require Import base list option gmap numbers tactics.
From S2P Require Import Prelude GoLib Vector FileInfo Paths Disk PullItems ScanBlocks ScanWalk ScanItemProps.

#[local] Open Scope Z_scope.

Ltac next := cbn [mbind prog_bind prog_bind_ mret prog_ret do_ safe].

Section Coverage.
Context (sha256 : bytes -> bytes) (samePlatform : PlatformData -> PlatformData -> bool) (ignores : bytes -> Z).
Context (normalizePath : bytes -> bytes) (cfg : walkerCfg) (now : GoTime).
Abbreviation changed := (changed samePlatform cfg).
Abbreviation walkFn := (walkAndHashFiles sha256 samePlatform ignores normalizePath cfg now).

(** ** The items on disk *)

Context (lstat : bytes -> disk_err + Stat) (dirNames : bytes -> disk_err + list bytes).
Abbreviation path_of := (render false).

(** Nothing changes on disk and nothing is cancelled. *)
Definition stable (c : call) : answer c -> Prop :=
  match c with
  | Lstat n => fun r => r = lstat n
  | DirNames n => fun r => r = dirNames n
  | CtxErr | SendHash _ | SendResult _ => fun r => r = None
  | _ => fun _ => True
  end.
Abbreviation Runs := (safe (fun _ _ => True) stable).

(** The walk goes on below a directory: not below symlinks, the program's own
    files, and ignored directories without exceptions. *)
Definition entered (ds : list bytes) (st : Stat) : bool :=
  let p := path_of ds in
  match ds with
  | [] => true
  | _ =>
      st_IsDir st && validString p &&
      (IsTemporary p ||
       (negb (IsInternal p) && negb (st_IsSymlink st) && negb (R_IsIgnored (ignores p) && R_CanSkipDir (ignores p))))
  end.
Inductive visited : list bytes -> Stat -> Prop :=
  | visited_root st : lstat dot = inr st -> visited [] st
  | visited_child ds st names name st' : visited ds st -> entered ds st = true -> dirNames (path_of ds) = inr names ->
      name ∈ names -> lstat (path_of (ds ++ [name])) = inr st' -> visited (ds ++ [name]) st'.
(** An item of its own: with a valid name, not temporary, not the program's, not ignored. *)
Definition wanted (ds : list bytes) : bool :=
  let p := path_of ds in
  negb (is_nil ds) && validString p && negb (IsTemporary p) && negb (IsInternal p) && negb (R_IsIgnored (ignores p)).

(** A directory has proper names, all of them in normal form; the folder is not
    ignored; the depth of the tree is bounded. *)
Context (Hnames : forall p names, dirNames p = inr names -> Forall proper names).
Context (Hnormal : forall p st, lstat p = inr st -> normalizePath p = p).
Context (Hroot : R_IsIgnored (ignores dot) = false).
Context (D : nat) (Hdepth : forall ds st, visited ds st -> (length ds <= D)%nat).
Context (Hplain : w_checkRecursion cfg = false).

Lemma visited_proper ds st : visited ds st -> Forall proper ds.
Proof using Hnames.
  induction 1 as [|ds st names name st' _ IH _ Hn Hin _]; [done|]. apply Forall_app. split; [done|].
  apply Forall_singleton. apply Hnames in Hn. by eapply (proj1 (List.Forall_forall _ _) Hn), list_elem_of_In.
Qed.
Lemma visited_lstat ds st : visited ds st -> lstat (path_of ds) = inr st.
Proof using. by destruct 1. Qed.
(** Everything visited below a directory is below one of its names. *)
Lemma visited_below ds ds' st' : visited ds' st' -> ds `prefix_of` ds' -> ds' = ds \/
  exists st names name st2, visited ds st /\ entered ds st = true /\ dirNames (path_of ds) = inr names /\ name ∈ names /\
    lstat (path_of (ds ++ [name])) = inr st2 /\ (ds ++ [name]) `prefix_of` ds'.
Proof using.
  induction 1 as [st H|ds0 st0 names name st2 H IH He Hn Hin Hl].
  - intros Hp%prefix_nil_inv. by left.
  - intros [k E]. destruct k as [|x k _] using rev_ind; [left; by rewrite app_nil_r in E|]. right.
    rewrite app_assoc in E. apply app_inj_tail in E as [E <-].
    destruct IH as [IH|IH]; [by exists k| |].
    + clear E. subst ds0. by exists st0, names, name, st2.
    + destruct IH as (st1 & names1 & name1 & st3 & H1 & H2 & H3 & H4 & H5 & H6).
      exists st1, names1, name1, st3. split_and!; try done. by apply prefix_app_r.
Qed.

(** ** What the scan has done *)

(** The item was compared, and sent on if it has changed. *)
Definition recorded (h : history) (p : bytes) (st : Stat) : Prop :=
  (st_IsSymlink st = false /\ st_IsDir st = false /\ st_IsRegular st = false) \/
  exists plat target cur hasCur clock np raw,
    (hasCur = true -> Event (GetDeviceFile p) (inr (cur, true)) ∈ h) /\
    match changed cur hasCur (fresh_of cfg st p plat target cur clock np raw) with
    | None => True
    | Some f =>
        Event (SendHash f) None ∈ h \/ Event (SendResult f) None ∈ h \/
        exists cached, Event (CacheLookup p (st_ModTime st) (st_Size st)) (Some cached) ∈ h /\
          Event (SendResult (refresh_cached cached f)) None ∈ h
    end.
(** An error was reported for the item or one above it. *)
Definition blamed (h : history) (ds : list bytes) : Prop :=
  exists es e, es `prefix_of` ds /\ es <> [] /\ Event (SendError (path_of es) e) tt ∈ h.
Definition accounted (h : history) (ds : list bytes) : Prop :=
  IsTemporary (path_of ds) = true \/ exists st, lstat (path_of ds) = inr st /\ recorded h (path_of ds) st.

Lemma recorded_mono h h' p st : h ⊆ h' -> recorded h p st -> recorded h' p st.
Proof using.
  intros Hs [H|(plat & target & cur & hasCur & clock & np & raw & H1 & H2)]; [by left|right].
  exists plat, target, cur, hasCur, clock, np, raw. split; [auto|]. case_match; [|done].
  destruct H2 as [H2|[H2|(cached & H2 & H3)] ]; auto. right; right. exists cached. auto.
Qed.
Lemma blamed_mono h h' ds : h ⊆ h' -> blamed h ds -> blamed h' ds.
Proof using. intros Hs (es & e & H1 & H2 & H3). exists es, e. auto. Qed.
Lemma accounted_mono h h' ds : h ⊆ h' -> accounted h ds -> accounted h' ds.
Proof using. intros Hs [H|(st & H1 & H2)]; [by left|right]. exists st. eauto using recorded_mono. Qed.
Lemma blamed_below h ds ds' : ds `prefix_of` ds' -> blamed h ds -> blamed h ds'.
Proof using. intros Hp (es & e & H1 & H2 & H3). exists es, e. split; [by trans ds|done]. Qed.

(** ** One item *)

(** Calls whose answers are determined. *)
Lemma lstat_call {B} n (f : disk_err + Stat -> prog B) h Q :
  Runs (f (lstat n)) (Event (Lstat n) (lstat n) :: h) Q -> Runs (do_ (Lstat n) ≫= f) h Q.
Proof using. intros H. split; [exact I|]. intros r Hr. cbn in Hr. by rewrite Hr. Qed.
Lemma ctx_goes_on {B} (f : option disk_err -> prog B) h Q :
  Runs (f None) (Event CtxErr None :: h) Q -> Runs (do_ CtxErr ≫= f) h Q.
Proof using. intros H. split; [exact I|]. intros r Hr. cbn in Hr. by rewrite Hr. Qed.
Lemma names_call {B} n (f : disk_err + list bytes -> prog B) h Q :
  Runs (f (dirNames n)) (Event (DirNames n) (dirNames n) :: h) Q -> Runs (do_ (DirNames n) ≫= f) h Q.
Proof using. intros H. split; [exact I|]. intros r Hr. cbn in Hr. by rewrite Hr. Qed.

Lemma recorded_result h p st plat target cur hasCur clock np raw f :
  (hasCur = true -> Event (GetDeviceFile p) (inr (cur, true)) ∈ h) ->
  changed cur hasCur (fresh_of cfg st p plat target cur clock np raw) = Some f ->
  Event (SendHash f) None ∈ h \/ Event (SendResult f) None ∈ h \/
    (exists cached, Event (CacheLookup p (st_ModTime st) (st_Size st)) (Some cached) ∈ h /\
      Event (SendResult (refresh_cached cached f)) None ∈ h) -> recorded h p st.
Proof using. intros H1 H2 H3. right. exists plat, target, cur, hasCur, clock, np, raw. by rewrite H2. Qed.
Lemma recorded_unchanged h p st plat target cur hasCur clock np raw :
  (hasCur = true -> Event (GetDeviceFile p) (inr (cur, true)) ∈ h) ->
  changed cur hasCur (fresh_of cfg st p plat target cur clock np raw) = None -> recorded h p st.
Proof using. intros H1 H2. right. exists plat, target, cur, hasCur, clock, np, raw. by rewrite H2. Qed.

Lemma CurrentFile_spec p h : Runs (CurrentFile cfg p) h (fun h' r => r.2 = true -> Event (GetDeviceFile p) (inr (r.1, true)) ∈ h').
Proof using.
  unfold CurrentFile. case_bool; next; [|done]. split; [exact I|]. intros [e|[fi ok] ] _; next; [done|].
  destruct ok; [|done]. intros _. by left.
Qed.
Lemma CreateFileInfo_item st p ownership xattrs h :
  Runs (CreateFileInfo st p ownership xattrs) h (fun _ r => forall f, r = inr f -> exists plat target, f = item_of st p plat target).
Proof using.
  unfold CreateFileInfo. apply any_call. intros h1 [e|plat] _; next; [done|]. case_bool; next.
  - split; [exact I|]. intros [e|target] _; next; [done|]. intros f [= <-]. eauto.
  - intros f [= <-]. eauto.
Qed.
Lemma freshItem_spec st p cur h :
  Runs (freshItem cfg st p cur) h (fun _ r => forall f, r = inr f ->
    exists plat target clock, f = updateFileInfo (w_ShortID cfg) (w_LocalFlags cfg) clock (item_of st p plat target) cur).
Proof using.
  unfold freshItem. eapply safe_call; [apply CreateFileInfo_item|]. intros h1 [e|f] _ HP; next; [done|].
  split; [exact I|]. intros clock _ g [= <-]. destruct (HP f eq_refl) as (plat & target & ->). eauto.
Qed.
(** Nothing is assigned to a symlink. *)
Lemma set_scanned_same f : set_scanned (NoPermissions f) (RawBlockSize f) f = f.
Proof using. by destruct f. Qed.

Definition done_ (p : bytes) (st : Stat) (h : history) (r : option disk_err) : Prop := r = None -> recorded h p st.

Lemma walkDir_spec p st h : Runs (walkDir samePlatform cfg p st) h (done_ p st).
Proof using.
  unfold walkDir. eapply safe_call; [apply CurrentFile_spec|]. intros h1 [cur hasCur] _ Hc. cbn in Hc.
  eapply safe_call; [apply freshItem_spec|]. intros h2 [e|f] Hs HP; next; [done|].
  destruct (HP f eq_refl) as (plat & target & clock & ->). case_match eqn:E; next.
  - split; [exact I|]. intros r Hr _. cbn in Hr. subst r. eapply recorded_result; [|exact E|right; left; left].
    intros H. right. by apply Hs, Hc.
  - intros _. eapply recorded_unchanged; [|exact E]. intros H. by apply Hs, Hc.
Qed.
Lemma walkSymlink_spec p st h : Runs (walkSymlink samePlatform cfg p st) h (done_ p st).
Proof using.
  unfold walkSymlink. eapply safe_call; [apply CreateFileInfo_item|]. intros h1 [e|f] _ HP; next; [done|].
  destruct (HP f eq_refl) as (plat & target & ->).
  eapply safe_call; [apply CurrentFile_spec|]. intros h2 [cur hasCur] Hs Hc. cbn in Hc. next. split; [exact I|].
  intros clock _. rewrite <- (set_scanned_same (updateFileInfo _ _ _ _ _)). case_match eqn:E; next.
  - split; [exact I|]. intros r Hr _. cbn in Hr. subst r. eapply recorded_result; [|exact E|right; left; left].
    intros H. right. right. by apply Hc.
  - intros _. eapply recorded_unchanged; [|exact E]. intros H. right. by apply Hc.
Qed.
Lemma lookupIncrementalCache_spec p st fresh h :
  Runs (lookupIncrementalCache cfg p st fresh) h (fun h' r => forall f, r = Some f ->
    exists cached, Event (CacheLookup p (st_ModTime st) (st_Size st)) (Some cached) ∈ h' /\ f = refresh_cached cached fresh).
Proof using.
  unfold lookupIncrementalCache. case_bool; next; [done|]. case_bool; next; [done|]. split; [exact I|].
  intros size _. case_bool; next; [done|]. split; [exact I|]. intros [cached|] _; [|done]. case_bool; [done|].
  intros f [= <-]. exists cached. split; [left|done].
Qed.
Lemma walkRegular_spec p st h : Runs (walkRegular samePlatform cfg p st) h (done_ p st).
Proof using.
  unfold walkRegular. eapply safe_call; [apply CurrentFile_spec|]. intros h1 [cur hasCur] _ Hc. cbn in Hc.
  eapply safe_call; [apply freshItem_spec|]. intros h2 [e|f] Hs HP; next; [done|].
  destruct (HP f eq_refl) as (plat & target & clock & ->). case_match eqn:E; next.
  - eapply safe_call; [apply lookupIncrementalCache_spec|]. intros h3 [cached|] Hs3 Hl; split; try exact I; intros r Hr _; cbn in Hr; subst r.
    + destruct (Hl _ eq_refl) as (c & Hc1 & ->). eapply recorded_result; [|exact E|right; right; exists c; split; [by right|left] ].
      intros H. right. by apply Hs3, Hs, Hc.
    + eapply recorded_result; [|exact E|left; left]. intros H. right. by apply Hs3, Hs, Hc.
  - intros _. eapply recorded_unchanged; [|exact E]. intros H. by apply Hs, Hc.
Qed.
Lemma handleItem_spec p st h : Runs (handleItem samePlatform cfg p st) h (done_ p st).
Proof using.
  unfold handleItem. destruct (st_IsSymlink st) eqn:E1; [|destruct (st_IsDir st) eqn:E2; [|destruct (st_IsRegular st) eqn:E3] ].
  - eapply safe_call; [apply walkSymlink_spec|]. intros h' [e|] _ HP; next; [done|]. intros _. by apply HP.
  - apply walkDir_spec.
  - apply walkRegular_spec.
  - intros _. left. done.
Qed.
(** ** The ignored parent *)

(** Every directory on the way has been accounted for, or will be: the ignored ones
    from [ignoredParent] on are handled when an item below them is. *)
Definition pending (ip : bytes) (es : list bytes) : Prop :=
  exists top, top <> [] /\ Forall proper top /\ ip = path_of top /\ top `prefix_of` es.
Definition shape (ip : bytes) : Prop := ip = [] \/ exists top, top <> [] /\ Forall proper top /\ ip = path_of top.
Definition good (h : history) (ds : list bytes) (ip : bytes) : Prop :=
  shape ip /\ forall es, es <> [] -> es `prefix_of` ds -> accounted h es \/ pending ip es.
Definition above (h : history) (ds : list bytes) (ip : bytes) : Prop :=
  shape ip /\ forall es, es <> [] -> es `prefix_of` ds -> es <> ds -> accounted h es \/ pending ip es.
Definition all_accounted (h : history) (ds : list bytes) : Prop :=
  forall es, es <> [] -> es `prefix_of` ds -> accounted h es.

Lemma good_mono h h' ds ip : h ⊆ h' -> good h ds ip -> good h' ds ip.
Proof using. intros Hs [H1 H2]. split; [done|]. intros es He Hp. destruct (H2 es He Hp); eauto using accounted_mono. Qed.
Lemma above_mono h h' ds ip : h ⊆ h' -> above h ds ip -> above h' ds ip.
Proof using. intros Hs [H1 H2]. split; [done|]. intros es He Hp Hn. destruct (H2 es He Hp Hn); eauto using accounted_mono. Qed.
Lemma good_above h ds ip : good h ds ip -> above h ds ip.
Proof using. intros [H1 H2]. split; [done|]. auto. Qed.
Lemma all_accounted_mono h h' ds : h ⊆ h' -> all_accounted h ds -> all_accounted h' ds.
Proof using. intros Hs H es H1 H2. eauto using accounted_mono. Qed.
Lemma all_accounted_good h ds : all_accounted h ds -> good h ds [].
Proof using. intros H. split; [by left|]. auto. Qed.
Lemma prefix_snoc_cases {A} (es ds : list A) x : es `prefix_of` ds ++ [x] -> es = ds ++ [x] \/ es `prefix_of` ds.
Proof using.
  clear. intros [k E]. destruct k as [|y k _] using rev_ind; [left; by rewrite app_nil_r in E|right].
  rewrite app_assoc in E. apply app_inj_tail in E as [-> _]. by exists k.
Qed.
Lemma above_child h ds x ip : above h (ds ++ [x]) ip <-> good h ds ip.
Proof using.
  split; intros [H1 H2]; (split; [done|]); intros es He Hp.
  - apply H2; [done|by apply prefix_app_r|]. intros ->. apply prefix_length in Hp. rewrite length_app in Hp. cbn in Hp. lia.
  - intros Hn. destruct (prefix_snoc_cases _ _ _ Hp); [done|]. auto.
Qed.
(** No ignored parent is pending for an item that is not below it. *)
Lemma pending_below ip top es ds : ip = path_of top -> Forall proper top -> pending ip es -> es `prefix_of` ds -> es <> ds -> below ds top.
Proof using.
  intros -> Ht (top' & Hne & Ht' & E & [k ->]) [j ->] Hn. assert (top' = top) as ->.
  { apply (f_equal (clean_elems false ∘ split PathSeparator)) in E. unfold compose in E.
    by rewrite !clean_split_render in E by (by apply normal_proper). }
  exists (k ++ j). rewrite app_assoc. split; [|done]. intros Hk. apply app_eq_nil in Hk as [-> ->]. by rewrite !app_nil_r in Hn.
Qed.

Lemma path_join ds : ds <> [] -> path_of ds = join PathSeparator ds.
Proof using. by destruct ds. Qed.
Lemma Join_empty ds : Forall proper ds -> Join [path_of ds; []] = path_of ds.
Proof using.
  intros Hd. cbn [Join]. destruct (is_nil (path_of ds)) eqn:E.
  { destruct (render_not_nil false ds (normal_not_nil false _ (normal_proper _ _ Hd))). by destruct (render _ _). }
  cbn [join]. by apply Clean_slash.
Qed.

(** ** The parents of an item that is not ignored *)

Definition parents_done (ds : list bytes) (skip : option disk_err) (h : history) (r : bytes * option disk_err) : Prop :=
  (r = ([], None) /\ all_accounted h ds) \/ (r.2 = skip /\ blamed h ds /\ above h ds r.1).

(** Reached from above: the item is the next one to be handled. *)
Lemma stop_at h ds jm : jm <> [] -> Forall proper jm -> jm `prefix_of` ds ->
  (forall es, es <> [] -> es `prefix_of` jm -> es <> jm -> accounted h es) -> above h ds (path_of jm).
Proof using.
  intros Hne Hp Hpre Hacc. split; [right; by exists jm|]. intros es He Hes Hn.
  destruct (prefix_weak_total es jm ds) as [Hj|Hj]; [done|done| |].
  - destruct (decide (es = jm)) as [->|Hd]; [right; by exists jm|left; by apply Hacc].
  - right. by exists jm.
Qed.
Lemma handle_parents_spec ds skip : forall ks jm h name ip, Join [ip; name] = path_of jm -> jm <> [] -> Forall proper ds ->
  ds = jm ++ ks -> (forall es, es <> [] -> es `prefix_of` jm -> es <> jm -> accounted h es) ->
  Runs (handle_parents samePlatform cfg (path_of ds) skip (name :: ks) ip) h (parents_done ds skip).
Proof using.
  induction ks as [|k ks IH]; intros jm h name ip EJ Hne Hp Eds Hacc.
  all: cbn [handle_parents]; rewrite EJ; apply lstat_call.
  all: assert (Forall proper jm) as Hj by (rewrite Eds in Hp; by apply Forall_app in Hp as [? _]).
  all: assert (jm `prefix_of` ds) as Hpre by (rewrite Eds; by eexists).
  all: assert (forall h', h ⊆ h' -> above h' ds (path_of jm)) as Habove
    by (intros h' Hs; apply stop_at; try done; intros es H1 H2 H3; eapply accounted_mono; [exact Hs|by apply Hacc]).
  all: destruct (lstat (path_of jm)) as [e|st] eqn:El;
    [unfold handleError; next; split; [exact I|]; intros [] _; right; split_and!; [done| |by apply Habove; intros x Hx; right; right];
       exists jm; eexists; split_and!; [done|done|left]|].
  all: eapply safe_call; [apply handleItem_spec|]; intros h1 [e|] Hs HP.
  all: try (unfold handleError; next; split; [exact I|]; intros [] _; right; split_and!;
    [done| |by apply Habove; intros x Hx; right; apply Hs; right];
    exists ds; eexists; split_and!; [done|rewrite Eds; by destruct jm|left]).
  all: assert (forall es, es <> [] -> es `prefix_of` jm -> accounted h1 es) as Hacc1
    by (intros es H1 H2; destruct (decide (es = jm)) as [->|Hn];
        [right; exists st; split; [done|by apply HP]
        |eapply accounted_mono; [|by apply Hacc]; intros x Hx; apply Hs; by right]).
  - rewrite app_nil_r in Eds. subst jm. left. by split.
  - apply (IH (jm ++ [k])).
    + rewrite Join_rel, path_join; [done|by destruct jm|done|]. rewrite Eds in Hp. apply Forall_app in Hp as [_ Hp]. by apply Forall_inv in Hp.
    + by destruct jm.
    + done.
    + by rewrite <- app_assoc.
    + intros es H1 H2 H3. apply Hacc1; [done|]. by destruct (prefix_snoc_cases _ _ _ H2).
Qed.

Lemma scan_item_spec ds st skip ip h : ds <> [] -> Forall proper ds -> lstat (path_of ds) = inr st -> above h ds ip ->
  Runs (scan_item samePlatform cfg (path_of ds) st skip ip) h (parents_done ds skip).
Proof using.
  intros Hne Hp Hl [Hshape Habove].
  assert (forall ip', (forall h', h ⊆ h' -> forall es, es <> [] -> es `prefix_of` ds -> es <> ds -> accounted h' es) ->
    ip' = [] -> Runs (err ← handleItem samePlatform cfg (path_of ds) st;
      match err with
      | Some err => _ ← handleError scan_ctx (path_of ds) err; mret (ip', skip)
      | None => mret (ip', noErr)
      end) h (parents_done ds skip)) as Hhandle.
  { intros ip' Hacc ->. eapply safe_call; [apply handleItem_spec|]. intros h1 [e|] Hs HP.
    - unfold handleError. next. split; [exact I|]. intros [] _. right. split_and!; [done| |].
      + exists ds. eexists. split_and!; [done|done|left].
      + split; [by left|]. intros es H1 H2 H3. left. apply Hacc; try done. intros x Hx. right. by apply Hs.
    - left. split; [done|]. intros es H1 H2. destruct (decide (es = ds)) as [->|Hn]; [right; exists st; split; [done|by apply HP]|].
      by apply Hacc. }
  unfold scan_item. destruct Hshape as [->|(top & Hne' & Hpt & ->)].
  { cbn [is_nil]. apply Hhandle; [|done]. intros h' Hs es H1 H2 H3. destruct (Habove es H1 H2 H3) as [H|(top & Ht & Hpt & E & _)].
    - by eapply accounted_mono.
    - by destruct (render_not_nil false top (normal_not_nil false _ (normal_proper _ _ Hpt))). }
  assert (is_nil (path_of top) = false) as ->.
  { destruct (path_of top) eqn:E; [|done]. by destruct (render_not_nil false top (normal_not_nil false _ (normal_proper _ _ Hpt))). }
  rewrite !path_join by done. destruct (decide (below ds top)) as [(k & Hk & E)|Hn].
  - rewrite (trimPrefix_below ds top Hp Hpt Hne' k E Hk). rewrite bool_decide_false.
    2: { intros Ejoin. apply (f_equal (split PathSeparator)) in Ejoin. rewrite !split_join in Ejoin; try done.
         - rewrite E in Ejoin. apply (f_equal length) in Ejoin. rewrite length_app in Ejoin. destruct top; [done|cbn in Ejoin; lia].
         - by apply proper_seps.
         - apply proper_seps. rewrite E in Hp. by apply Forall_app in Hp as [_ ?]. }
    unfold PathComponents. rewrite split_join; [|done|apply proper_seps; rewrite E in Hp; by apply Forall_app in Hp as [_ ?] ].
    rewrite <- !path_join by done. apply (handle_parents_spec ds skip k top); try done; [by apply Join_empty|].
    intros es H1 H2 H3. assert (es `prefix_of` ds) as Hpre by (trans top; [done|]; rewrite E; by eexists).
    assert (es <> ds) as Hd. { intros ->. rewrite E in H2. apply prefix_length in H2. rewrite length_app in H2. destruct k; [done|cbn in H2; lia]. }
    destruct (Habove es H1 Hpre Hd) as [H|Hpend]; [done|].
    destruct (pending_below _ top es top eq_refl Hpt Hpend H2 H3) as (j & Hj & Ej).
    apply (f_equal length) in Ej. rewrite length_app in Ej. destruct j; [done|cbn in Ej; lia].
  - rewrite trimPrefix_not_below by done. rewrite bool_decide_true by done. rewrite <- path_join by done.
    apply Hhandle; [|done]. intros h' Hs es H1 H2 H3. destruct (Habove es H1 H2 H3) as [H|Hpend]; [by eapply accounted_mono|].
    destruct Hn. by eapply pending_below.
Qed.

(** ** The callback *)

Context (Hlink : forall p st, lstat p = inr st -> st_IsDir st = true -> st_IsSymlink st = false).

Definition skip_of (st : Stat) : option disk_err := if st_IsDir st then Some SkipDir else None.
(** An error that is passed in does not change the state. *)
Lemma walkFn_err p info e ip h : Runs (walkFn p info (Some e) ip) h (fun _ r =>
  r.1 = ip /\ (r.2 = None \/ (r.2 = Some SkipDir /\ exists st, info = Some st /\ st_IsDir st = true))).
Proof using.
  unfold walkAndHashFiles. apply ctx_goes_on. cbv beta iota zeta. set (skip := match info with Some _ => _ | None => _ end).
  assert (skip = None \/ (skip = Some SkipDir /\ exists st, info = Some st /\ st_IsDir st = true)) as Hskip.
  { unfold skip. destruct info as [st|]; [|by left]. destruct (st_IsDir st) eqn:E; [right|by left]. split; [done|]. by exists st. }
  case_bool; [apply any_call; by intros|]. case_bool; [by split; [|left]|]. case_bool; [done|]. case_bool; [done|].
  apply any_call. by intros.
Qed.

Definition visited_post (ds : list bytes) (st : Stat) (h : history) (r : bytes * option disk_err) : Prop :=
  above h ds r.1 /\
  ((r.2 = Some SkipDir /\ st_IsDir st = true /\ (entered ds st = true -> blamed h ds)) \/
   (r.2 = None /\ (st_IsDir st = true \/ ds = [] -> good h ds r.1 /\ entered ds st = true))) /\
  (wanted ds = true -> blamed h ds \/ all_accounted h ds).

Lemma skipped ds st h ip : above h ds ip -> (entered ds st = true -> ds = [] \/ blamed h ds) -> wanted ds = false -> ds <> [] ->
  visited_post ds st h (ip, skip_of st).
Proof using.
  intros Ha He Hw Hne. split; [done|]. split; [|by rewrite Hw]. unfold skip_of. cbn. destruct (st_IsDir st).
  - left. split_and!; try done. intros H. by destruct (He H).
  - right. split; [done|]. by intros [|].
Qed.
Lemma walkFn_visited ds st ip h : visited ds st -> above h ds ip ->
  Runs (walkFn (path_of ds) (Some st) None ip) h (visited_post ds st).
Proof using Hnames Hnormal Hroot Hlink.
  intros Hv Ha. pose proof (visited_proper _ _ Hv) as Hp. pose proof (visited_lstat _ _ Hv) as Hl.
  unfold walkAndHashFiles. apply ctx_goes_on. cbv beta iota zeta. fold (skip_of st). set (h0 := _ :: h).
  assert (above h0 ds ip) as Ha0 by (eapply above_mono; [|done]; intros x Hx; by right). clearbody h0. clear Ha.
  rewrite (Hnormal _ _ Hl).
  destruct (decide (ds = [])) as [->|Hne].
  { replace (validString (path_of [])) with true by done. replace (IsTemporary (path_of [])) with false by (by vm_compute).
    replace (IsInternal (path_of [])) with false by (by vm_compute). cbn [render negb]. rewrite Hroot.
    rewrite (bool_decide_true (dot = dot)) by done. split; [done|]. split; [right|done]. split; [done|]. intros _. split; [|done].
    destruct Ha0 as [Hs _]. split; [done|]. by intros es H1 H2%prefix_nil_inv. }
  assert (bool_decide (path_of ds = dot) = false) as Hdot by (apply bool_decide_false; by apply render_not_dot).
  assert (entered ds st = st_IsDir st && validString (path_of ds) && (IsTemporary (path_of ds) ||
    (negb (IsInternal (path_of ds)) && negb (st_IsSymlink st) && negb (R_IsIgnored (ignores (path_of ds)) && R_CanSkipDir (ignores (path_of ds))))))
    as Hent by (by destruct ds).
  assert (wanted ds = validString (path_of ds) && negb (IsTemporary (path_of ds)) && negb (IsInternal (path_of ds)) &&
    negb (R_IsIgnored (ignores (path_of ds)))) as Hw by (by destruct ds).
  destruct (validString (path_of ds)) eqn:Evalid; cbn [negb].
  2: { unfold handleError. split; [exact I|]. intros [] _. apply skipped; try done.
       - eapply above_mono; [|done]. intros x Hx. by right.
       - rewrite Hent. by rewrite andb_false_r. }
  destruct (IsTemporary (path_of ds)) eqn:Etemp.
  { assert (forall h', h0 ⊆ h' -> visited_post ds st h' (ip, None)) as Hpost.
    { intros h' Hs. pose proof (above_mono _ _ _ _ Hs Ha0) as Ha. split; [done|]. split.
      - right. split; [done|]. intros [Hd|?]; [|done]. split; [|by rewrite Hent, Hd]. destruct Ha as [H1 H2]. split; [done|].
        intros es He Hpre. destruct (decide (es = ds)) as [->|]; [left; by left|]. by apply H2.
      - by rewrite Hw. }
    case_bool; [split; [exact I|]; intros r _|]; apply Hpost; [|done]. intros x Hx. by right. }
  destruct (IsInternal (path_of ds)) eqn:Eint.
  { apply skipped; try done. rewrite Hent. by rewrite andb_false_r. }
  destruct (R_IsIgnored (ignores (path_of ds))) eqn:Eign.
  { destruct (R_CanSkipDir (ignores (path_of ds)) || st_IsSymlink st) eqn:Eskip.
    { apply skipped; try done. rewrite Hent. intros He. left. apply andb_true_iff in He as [_ He]. cbn in He, Eskip.
      destruct (R_CanSkipDir _), (st_IsSymlink st); done. }
    apply orb_false_iff in Eskip as [Ecan Esym].
    assert (st_IsDir st = true -> entered ds st = true) as He by (intros Hd; by rewrite Hent, Hd, Ecan, Esym).
    destruct Ha0 as [Hshape Hab]. case_bool.
    - apply andb_true_iff in Heqb as [Hd Hip]. assert (good h0 ds (path_of ds)) as Hg.
      { split; [right; by exists ds|]. intros es H1 H2. destruct (decide (es = ds)) as [->|Hn]; [right; by exists ds|].
        destruct (Hab es H1 H2 Hn) as [H|Hpend]; [by left|]. exfalso.
        destruct Hpend as (top & Ht & Hpt & -> & Hpre). apply orb_true_iff in Hip as [Hip|Hip].
        - destruct (path_of top) eqn:E; [|done]. by destruct (render_not_nil false top (normal_not_nil false _ (normal_proper _ _ Hpt))).
        - apply negb_true_iff in Hip. apply not_true_iff_false in Hip. apply Hip. rewrite !path_join by done.
          apply IsParent_below; try done. eapply (pending_below _ top es ds eq_refl Hpt); try done. by exists top. }
      split; [by apply good_above|]. split; [|by rewrite Hw]. right. split; [done|]. intros _. split; [done|]. by apply He.
    - split; [done|]. split; [|by rewrite Hw]. right. split; [done|]. intros [Hd|?]; [|done]. split; [|by apply He].
      rewrite Hd in Heqb. cbn [andb] in Heqb. apply orb_false_iff in Heqb as [Hip1 Hip2]. apply negb_false_iff in Hip2.
      split; [done|]. intros es H1 H2. destruct (decide (es = ds)) as [->|Hn]; [|by apply Hab]. right.
      destruct Hshape as [->|(top & Ht & Hpt & ->)]; [done|]. exists top. split_and!; try done.
      rewrite !path_join in Hip2 by done. apply IsParent_below in Hip2; try done. destruct Hip2 as (k & _ & ->). by exists k. }
  rewrite Hdot, (bool_decide_true (path_of ds = path_of ds)) by done.
  eapply safe_mono; [by apply (scan_item_spec ds)|]. intros h1 [ip1 e1] [ [ [= -> ->] Hall]|(Hskip & Hb & Ha1)]; cbn [fst snd] in *.
  - split; [by apply good_above, all_accounted_good|]. split; [|by right]. right. split; [done|]. intros [Hd|?]; [|done].
    split; [by apply all_accounted_good|]. by rewrite Hent, Hd, (Hlink _ _ Hl Hd).
  - split; [done|]. split; [|by left]. subst e1. unfold skip_of. destruct (st_IsDir st); [by left|right]. split; [done|]. by intros [|].
Qed.

(** ** The walk *)

Definition complete (h : history) (ds : list bytes) : Prop :=
  forall ds' st', visited ds' st' -> ds `prefix_of` ds' -> wanted ds' = true -> blamed h ds' \/ all_accounted h ds'.
Lemma complete_mono h h' ds : h ⊆ h' -> complete h ds -> complete h' ds.
Proof using. intros Hs H ds' st' H1 H2 H3. destruct (H _ _ H1 H2 H3); eauto using blamed_mono, all_accounted_mono. Qed.

Definition walk_post (ds : list bytes) (st : Stat) (h : history) (r : bytes * outcome disk_err unit) : Prop :=
  above h ds r.1 /\ (r.2 = Ret tt \/ (r.2 = Err SkipDir /\ st_IsDir st = true)) /\ complete h ds.

Section Step.
Context (rec : bytes -> Stat -> bytes -> prog (bytes * outcome disk_err unit)) (ds : list bytes) (st : Stat) (names : list bytes).
Context (Hv : visited ds st) (He : entered ds st = true) (Hn : dirNames (path_of ds) = inr names).
Context (Hrec : forall name st' ip h, name ∈ names -> visited (ds ++ [name]) st' -> above h (ds ++ [name]) ip ->
  Runs (rec (path_of (ds ++ [name])) st' ip) h (walk_post (ds ++ [name]) st')).

Lemma walk_names_spec ns ip h : ns ⊆ names -> good h ds ip ->
  Runs (walk_names walkFn rec (path_of ds) ns ip) h (fun h' r => good h' ds r.1 /\ r.2 = Ret tt /\
    forall name, name ∈ ns -> forall st', lstat (path_of (ds ++ [name])) = inr st' -> complete h' (ds ++ [name])).
Proof using Hv He Hn Hrec Hnames.
  revert ip h. induction ns as [|name ns IH]; intros ip h Hsub Hg.
  { split_and!; try done. by intros name Hin%elem_of_nil. }
  assert (name ∈ names) as Hin by (apply Hsub; by left). assert (ns ⊆ names) as Hsub' by (intros x Hx; apply Hsub; by right).
  pose proof (visited_proper _ _ Hv) as Hp. assert (proper name) as Hpn.
  { pose proof (Hnames _ _ Hn) as HF. by eapply (proj1 (List.Forall_forall _ _) HF), list_elem_of_In. }
  cbn [walk_names]. rewrite Join_rel, <- path_join by (try done; by destruct ds). apply lstat_call.
  set (h1 := _ :: h). assert (good h1 ds ip) as Hg1 by (eapply good_mono; [|done]; intros x Hx; by right). clearbody h1.
  destruct (lstat (path_of (ds ++ [name]))) as [e|st'] eqn:El.
  - eapply safe_call; [apply walkFn_err|]. intros h2 [ip2 r2] Hs2 [E1 E2]. cbn in E1, E2. subst ip2.
    assert (Runs (walk_names walkFn rec (path_of ds) ns ip) h2 (fun h' r => good h' ds r.1 /\ r.2 = Ret tt /\
      forall n, n ∈ name :: ns -> forall st', lstat (path_of (ds ++ [n])) = inr st' -> complete h' (ds ++ [n]))) as Hgo.
    { eapply safe_mono; [apply (IH ip h2 Hsub'); by eapply good_mono|]. intros h3 r (H1 & H2 & H3). split_and!; try done.
      intros n [->|Hx]%elem_of_cons st'; [by rewrite El|by apply H3]. }
    destruct E2 as [->|[-> _] ]; exact Hgo.
  - assert (visited (ds ++ [name]) st') as Hv' by (by eapply visited_child).
    eapply safe_call; [apply Hrec; [done|done|by apply above_child]|]. intros h2 [ip2 r2] Hs2 (H1 & H2 & H3). cbn in H1, H2.
    apply above_child in H1.
    assert (Runs (walk_names walkFn rec (path_of ds) ns ip2) h2 (fun h' r => good h' ds r.1 /\ r.2 = Ret tt /\
      forall n, n ∈ name :: ns -> forall st', lstat (path_of (ds ++ [n])) = inr st' -> complete h' (ds ++ [n]))) as Hgo.
    { eapply safe_mono; [by apply safe_extends, (IH ip2 h2 Hsub')|]. intros h3 r (Hs3 & G1 & G2 & G3). split_and!; try done.
      intros n [->|Hx]%elem_of_cons st''; [|by apply G3]. intros _. by eapply complete_mono. }
    destruct H2 as [->|[-> Hd] ]; [exact Hgo|]. cbn [snd]. rewrite Hd. exact Hgo.
Qed.
End Step.

Lemma walk_spec fuel anc ds st ip h : visited ds st -> (D < fuel + length ds)%nat -> above h ds ip ->
  Runs (walk (w_checkRecursion cfg) walkFn fuel anc (path_of ds) st ip) h (walk_post ds st).
Proof using Hnames Hnormal Hroot Hdepth Hplain Hlink.
  rewrite Hplain. revert anc ds st ip h. induction fuel as [|fuel IH]; intros anc ds st ip h Hv Hfuel Ha.
  { apply Hdepth in Hv. lia. }
  pose proof (visited_proper _ _ Hv) as Hp. cbn [walk]. rewrite Canonicalize_rel by done.
  eapply safe_call; [by apply walkFn_visited|]. intros h1 [ip1 r1] Hs1 (H1 & H2 & H3). cbn [fst snd] in *.
  assert (forall h', h1 ⊆ h' -> (entered ds st = true -> blamed h' ds) -> complete h' ds) as Hstop.
  { intros h' Hs Hb ds' st' Hv' Hpre Hwant. destruct (visited_below _ _ _ Hv' Hpre) as [->|(st0 & names & name & st2 & G1 & G2 & _)].
    - destruct (H3 Hwant); eauto using blamed_mono, all_accounted_mono.
    - left. eapply blamed_below; [done|]. apply Hb. apply visited_lstat in G1, Hv. congruence. }
  destruct H2 as [(-> & Hd & Hb)|[-> H2] ].
  { rewrite Hd. split; [done|]. split; [by left|]. by apply Hstop. }
  destruct (negb (st_IsDir st) && negb (bool_decide (path_of ds = dot))) eqn:Eleaf.
  { apply andb_true_iff in Eleaf as [Ed Edot]. apply negb_true_iff in Ed, Edot. split; [done|]. split; [by left|].
    apply Hstop; [done|]. destruct ds; [done|]. cbn. by rewrite Ed. }
  destruct H2 as [Hg He].
  { apply andb_false_iff in Eleaf as [E|E]; apply negb_false_iff in E; [by left|right]. apply bool_decide_eq_true in E.
    destruct (decide (ds = [])) as [->|Hne]; [done|]. by destruct (render_not_dot ds Hp Hne). }
  change (mret false ≫= ?f) with (f false). cbv beta iota zeta. apply names_call.
  destruct (dirNames (path_of ds)) as [e|names] eqn:En.
  - eapply safe_call; [apply walkFn_err|]. intros h2 [ip2 r2] Hs2 [E1 E2]. cbn in E1, E2. subst ip2.
    assert (h1 ⊆ h2) as Hs12 by (intros x Hx; apply Hs2; by right).
    unfold of_error. cbn [fst snd]. split; [by eapply above_mono|]. split.
    { destruct E2 as [->|(-> & st0 & [= <-] & Hd)]; [by left|by right]. }
    intros ds' st' Hv' Hpre Hwant. destruct (visited_below _ _ _ Hv' Hpre) as [->|(st0 & ns & name & st2 & G1 & G2 & G3 & _)]; [|congruence].
    destruct (H3 Hwant); eauto using blamed_mono, all_accounted_mono.
  - eapply safe_mono.
    { apply safe_extends, (walk_names_spec _ ds st names Hv He En); [|done|].
      - intros name st' ip' h' Hin Hv' Ha'. apply IH; [done| |done]. rewrite length_app. cbn. lia.
      - eapply good_mono; [|done]. intros x Hx. by right. }
    intros h2 [ip2 r2] (Hs2 & G1 & G2 & G3). cbn [fst snd] in *. split; [by apply good_above|]. split; [by left|].
    intros ds' st' Hv' Hpre Hwant. assert (h1 ⊆ h2) as Hs12 by (intros x Hx; apply Hs2; by right).
    destruct (visited_below _ _ _ Hv' Hpre) as [->|(st0 & ns & name & st2 & K1 & K2 & K3 & K4 & K5 & K6)].
    + destruct (H3 Hwant); eauto using blamed_mono, all_accounted_mono.
    + assert (ns = names) as -> by congruence. by eapply (G3 name K4 st2 K5).
Qed.

(** C14: A full scan (no subdirectories given) of a folder that stays as it is
    and that is not cancelled, whose names are all in normal form, whose root
    is not ignored and whose directories are not symlinks or junctions that can
    recur, ends without running out of fuel if the fuel exceeds the depth of
    the tree.  Then every item that is reached from the root through
    directories the walk enters (not symlinks, not the program's own, not
    ignored ones without exceptions) and that has a valid name and is not
    ignored, temporary or the program's own was compared with the database and
    sent on if it has changed (special files aside, which are left out), and
    so was every directory above it (but temporary ones), or an error was
    reported for the item or for one above it. *)
Theorem scan_covers fuel h r (Hsubs : Subs cfg = []) (Hfuel : (D < fuel)%nat)
    (Hrun : runs (scan sha256 samePlatform ignores normalizePath cfg fuel now) [] h r) (Hstable : all_plausible stable h) :
  r = Ret tt /\ forall ds st, visited ds st -> wanted ds = true ->
    blamed h ds \/ (recorded h (path_of ds) st /\ all_accounted h ds).
Proof using Hnames Hnormal Hroot Hdepth Hplain Hlink.
  assert (Runs (scan sha256 samePlatform ignores normalizePath cfg fuel now) [] (fun h r => r = Ret tt /\ complete h [])) as Hs.
  { unfold scan, Walk_fs. rewrite Hsubs. unfold mbind at 2. apply safe_bind. apply lstat_call.
    destruct (lstat dot) as [e|st] eqn:El.
    - eapply safe_call; [apply walkFn_err|]. intros h1 [ip1 r1] _ [E1 E2]. cbn in E1, E2. unfold of_error. split.
      { by destruct E2 as [->|[-> _] ]. }
      intros ds st Hv. exfalso. clear -Hv El. induction Hv; [congruence|done].
    - eapply safe_mono; [apply (walk_spec fuel [] [] st []); [by constructor|cbn; lia|]|].
      { split; [by left|]. by intros es H1 H2%prefix_nil_inv. }
      intros h1 [ip1 r1] (_ & H2 & H3). split; [|done]. by destruct H2 as [->|[-> _] ]. }
  destruct (safe_runs _ _ _ _ _ _ _ Hs I Hrun Hstable) as [_ [-> Hc] ]. split; [done|]. intros ds st Hv Hw.
  destruct (Hc _ _ Hv) as [H|H]; [by apply prefix_nil|done|by left|right]. split; [|done].
  assert (ds <> []) as Hne by (by destruct ds).
  destruct (H ds Hne) as [Ht|(st' & Hl & Hr)]; [done| |].
  - unfold wanted in Hw. rewrite Ht in Hw. by destruct (negb (is_nil ds)), (validString (path_of ds)).
  - apply visited_lstat in Hv. by assert (st' = st) as -> by congruence.
Qed.
End Coverage.

(** ** A small folder *)

Section Example.
Context (top sub : bytes).
Definition ex_stat (dir : bool) : Stat :=
  {| st_IsDir := dir; st_IsSymlink := false; st_IsRegular := negb dir; st_Mode := if dir then 493 else 420; st_Size := 5;
     st_ModTime_Unix := 1000; st_ModTime_Nanosecond := 0; st_Owner := 0; st_Group := 0 |}.
(** A directory [top] with the file [sub]. *)
Definition ex_lstat (n : bytes) : disk_err + Stat :=
  if decide (n = dot) then inr (ex_stat true)
  else if decide (n = top) then inr (ex_stat true)
  else if decide (n = top ++ PathSeparator :: sub) then inr (ex_stat false) else inl ErrNotExist.
Definition ex_names (n : bytes) : disk_err + list bytes :=
  if decide (n = dot) then inr [top] else if decide (n = top) then inr [sub] else inl ErrNotExist.
Definition ex_cfg : walkerCfg :=
  {| Subs := []; w_IgnorePerms := false; AutoNormalize := true; w_ShortID := 7; w_LocalFlags := 0; w_ModTimeWindow := 0;
     ScanOwnership := false; ScanXattrs := false; TempLifetime := 0; hasCurrentFiler := true;
     Incremental_Enabled := false; Incremental_Baseline := false; Incremental_Cache := false; w_checkRecursion := false |}.
Definition ex_respond (c : call) : option (answer c) :=
  match c return option (answer c) with
  | Lstat n => Some (ex_lstat n)
  | DirNames n => Some (ex_names n)
  | CtxErr | SendHash _ | SendResult _ => Some None
  | GetDeviceFile _ => Some (inr (emptyFileInfo, false))
  | Now_unix => Some 2000
  | SendError _ _ => Some tt
  | _ => None
  end.
Definition ex_scan : option (history * outcome disk_err unit) :=
  exec ex_respond (scan (fun b => b) (fun _ _ => false) (fun _ => 0) (fun p => p) ex_cfg 4 {| tsec := 0; tnsec := 0 |}) [].
Definition sent (r : option (history * outcome disk_err unit)) : list bytes :=
  match r with
  | Some (h, _) => omap (fun e => match ev_call e with SendHash f | SendResult f => Some (Name f) | _ => None end) (reverse h)
  | None => []
  end.
End Example.

Example ex_scan_sent : sent (ex_scan (gostr "docs") (gostr "a.txt")) = [gostr "docs"; gostr "docs/a.txt"].
Proof. vm_compute. reflexivity. Qed.
(** The items in a directory with a temporary name are reported, the directory is not. *)
Lemma temporary_dir_entered :
  sent (ex_scan (gostr ".syncthing.docs") (gostr "a.txt")) = [gostr ".syncthing.docs/a.txt"].
Proof. vm_compute. reflexivity. Qed.

Abbreviation docs := (gostr "docs").
Abbreviation a_txt := (gostr "a.txt").
Lemma ex_visited ds st : visited (fun _ => 0) (ex_lstat docs a_txt) (ex_names docs a_txt) ds st ->
  ds = [] \/ ds = [docs] \/ ds = [docs; a_txt].
Proof.
  induction 1 as [st _|ds st names name st' _ IH _ Hn Hin _]; [by left|].
  destruct IH as [->|[->| ->] ].
  - assert (names = [docs]) as -> by (vm_compute in Hn |- *; congruence). apply list_elem_of_singleton in Hin as ->. auto.
  - assert (names = [a_txt]) as -> by (vm_compute in Hn |- *; congruence). apply list_elem_of_singleton in Hin as ->. auto.
  - by vm_compute in Hn.
Qed.
Lemma ex_depth ds st : visited (fun _ => 0) (ex_lstat docs a_txt) (ex_names docs a_txt) ds st -> (length ds <= 2)%nat.
Proof. intros [->|[->| ->] ]%ex_visited; cbn; lia. Qed.
Lemma ex_names_proper p names : ex_names docs a_txt p = inr names -> Forall proper names.
Proof.
  unfold ex_names. repeat case_decide; intros [= <-]; apply Forall_singleton; by apply (bool_decide_unpack _).
Qed.
Lemma ex_lstat_link p st : ex_lstat docs a_txt p = inr st -> st_IsDir st = true -> st_IsSymlink st = false.
Proof. unfold ex_lstat. repeat case_decide; by intros [= <-]. Qed.
Lemma ex_stable c r : ex_respond docs a_txt c = Some r -> stable (ex_lstat docs a_txt) (ex_names docs a_txt) c r.
Proof. destruct c; cbn; try done; by intros [= <-]. Qed.

Lemma ex_visited_file : visited (fun _ => 0) (ex_lstat docs a_txt) (ex_names docs a_txt) [docs; a_txt] (ex_stat false).
Proof.
  assert (visited (fun _ => 0) (ex_lstat docs a_txt) (ex_names docs a_txt) [docs] (ex_stat true)) as H.
  { refine (visited_child _ _ _ [] (ex_stat true) [docs] docs (ex_stat true) _ _ _ _ _);
      [constructor|..|apply list_elem_of_singleton; reflexivity|]; by vm_compute. }
  refine (visited_child _ _ _ [docs] (ex_stat true) [a_txt] a_txt (ex_stat false) H _ _ _ _);
    [..|apply list_elem_of_singleton; reflexivity|]; by vm_compute.
Qed.

Theorem scan_covers_witness : exists h,
  runs (scan (fun b => b) (fun _ _ => false) (fun _ => 0) (fun p => p) ex_cfg 4 {| tsec := 0; tnsec := 0 |}) [] h (Ret tt) /\
  (blamed h [docs; a_txt] \/
   (recorded (fun _ _ => false) ex_cfg h (gostr "docs/a.txt") (ex_stat false) /\
    all_accounted (fun _ _ => false) ex_cfg (ex_lstat docs a_txt) h [docs; a_txt])).
Proof.
  destruct (ex_scan docs a_txt) as [ [h r]|] eqn:E; [|by vm_compute in E].
  exists h. pose proof (exec_runs _ _ _ _ _ E) as Hrun. pose proof (exec_plausible _ _ _ _ _ _ ex_stable E (List.Forall_nil _)) as Hst.
  pose proof (scan_covers (fun b => b) (fun _ _ => false) (fun _ => 0) (fun p => p) ex_cfg {| tsec := 0; tnsec := 0 |}
    (ex_lstat docs a_txt) (ex_names docs a_txt) ex_names_proper (fun _ _ _ => eq_refl) eq_refl 2
    ex_depth eq_refl ex_lstat_link
    4 h r eq_refl ltac:(lia) Hrun Hst) as [-> Hc].
  split; [exact Hrun|]. apply (Hc [docs; a_txt] (ex_stat false) ex_visited_file). by vm_compute.
Defined.
