(* ===== verification/ScanSafety.v ===== *)
(** * What a scan changes on disk

    Whatever is answered, a scan only removes old temporary files that it has
    seen as regular files, and renames items to their normal form if the folder
    asks for it; nothing else on disk is changed. *)
From Stdlib Require Import ZArith List Lia.
From Stdlib Require Import Strings.Byte.
From stdpp Require Import base list option gmap numbers tactics.
From S2P Require Import Prelude GoLib Vector FileInfo Paths Disk PullItems ScanBlocks ScanWalk.

#[local] Open Scope Z_scope.

Ltac next := cbn [mbind prog_bind prog_bind_ mret prog_ret do_ safe].

Section Safety.
Context (sha256 : bytes -> bytes) (samePlatform : PlatformData -> PlatformData -> bool) (ignores : bytes -> Z).
Context (normalizePath : bytes -> bytes) (cfg : walkerCfg) (now : GoTime).
Abbreviation walkFn := (walkAndHashFiles sha256 samePlatform ignores normalizePath cfg now).

(** The item was seen on disk. *)
Definition seen (h : history) (n : bytes) (st : Stat) : Prop :=
  exists m, Event (Lstat m) (inr st) ∈ h /\ Canonicalize m = Ret n.
Definition expired (st : Stat) : bool := st_IsRegular st && time_Before (time_Add (st_ModTime st) (TempLifetime cfg)) now.
Definition via (p : bytes) : bytes := TempNameWithPrefix sha256 (normalizePath p) [].
Definition may_rename (h : history) (a b : bytes) : Prop :=
  AutoNormalize cfg = true /\ exists p, normalizePath p <> p /\
    ((a = p /\ b = normalizePath p /\ exists e, Event (Lstat b) (inl e) ∈ h /\ is_not_exist e = true) \/
     (a = p /\ b = via p /\ exists st st', Event (Lstat (normalizePath p)) (inr st') ∈ h /\ Event (SameFile st st') true ∈ h) \/
     (a = via p /\ b = normalizePath p /\ Event (Rename p (via p)) None ∈ h)).
Definition allowed (h : history) (c : call) : Prop :=
  match c with
  | Remove n => IsTemporary n = true /\ exists st, seen h n st /\ expired st = true
  | Rename a b => may_rename h a b
  | Chmod _ _ | Lchown _ _ _ | Chtimes _ _ | SetXattr _ _ | CreateSymlink _ _ | Mkdir _ _ | MkdirAll _ _ | CopyContents _ _
  | WriteTrailer _ _ | Truncate _ _ | Archive _ => False
  | _ => True
  end.
Definition anything (c : call) (r : answer c) : Prop := True.
Abbreviation Safe := (safe allowed anything).

(** ** Programs that change nothing *)

Definition reads (c : call) : bool :=
  match c with
  | Remove _ | Rename _ _ | Chmod _ _ | Lchown _ _ _ | Chtimes _ _ | SetXattr _ _ | CreateSymlink _ _ | Mkdir _ _ | MkdirAll _ _
  | CopyContents _ _ | WriteTrailer _ _ | Truncate _ _ | Archive _ => false
  | _ => true
  end.
Fixpoint reads_only {A} (p : prog A) : Prop :=
  match p with Return _ => True | Call c k => reads c = true /\ forall r, reads_only (k r) end.
Lemma reads_bind {A B} (p : prog A) (f : A -> prog B) : reads_only p -> (forall a, reads_only (f a)) -> reads_only (p ≫= f).
Proof using. intros H Hf. induction p as [a|c k IH]; cbn in *; [done|]. destruct H. split; [done|]. intros r. by apply IH. Qed.
Lemma reads_safe {A} (p : prog A) h : reads_only p -> Safe p h (fun _ _ => True).
Proof using.
  revert h. induction p as [a|c k IH]; intros h H; cbn in *; [done|]. destruct H as [Hc H]. split; [by destruct c|].
  intros r _. by apply IH.
Qed.
Lemma CreateFileInfo_reads st n ownership xattrs : reads_only (CreateFileInfo st n ownership xattrs).
Proof using.
  unfold CreateFileInfo. apply reads_bind; [by case_bool|]. intros [e|plat]; [done|]. case_bool; [|done].
  cbn. split; [done|]. by intros [].
Qed.
Lemma CurrentFile_reads n : reads_only (CurrentFile cfg n).
Proof using. unfold CurrentFile. by case_bool. Qed.
Lemma freshItem_reads st n cur : reads_only (freshItem cfg st n cur).
Proof using. unfold freshItem. apply reads_bind; [apply CreateFileInfo_reads|]. by intros [e|f]. Qed.
Lemma lookup_reads n st f : reads_only (lookupIncrementalCache cfg n st f).
Proof using.
  unfold lookupIncrementalCache. case_bool; [done|]. case_bool; [done|]. cbn. split; [done|]. intros size. by case_bool.
Qed.
Lemma handleItem_reads n st : reads_only (handleItem samePlatform cfg n st).
Proof using.
  unfold handleItem. case_bool; [|case_bool; [|case_bool; [|done] ] ].
  - apply reads_bind; [|by intros [] ]. unfold walkSymlink. apply reads_bind; [apply CreateFileInfo_reads|]. intros [e|f]; [done|].
    apply reads_bind; [apply CurrentFile_reads|]. intros [cur ok]. cbn. split; [done|]. intros clock. by case_match.
  - unfold walkDir. apply reads_bind; [apply CurrentFile_reads|]. intros [cur ok]. apply reads_bind; [apply freshItem_reads|].
    intros [e|f]; [done|]. by case_match.
  - unfold walkRegular. apply reads_bind; [apply CurrentFile_reads|]. intros [cur ok]. apply reads_bind; [apply freshItem_reads|].
    intros [e|f]; [done|]. case_match; [|done]. apply reads_bind; [apply lookup_reads|]. by intros [c|].
Qed.
Lemma handle_parents_reads path skip names ip : reads_only (handle_parents samePlatform cfg path skip names ip).
Proof using.
  revert ip. induction names as [|name names IH]; intros ip; [done|]. cbn [handle_parents]. apply reads_bind; [done|].
  intros [e|st]; [done|]. apply reads_bind; [apply handleItem_reads|]. intros [e|]; [done|apply IH].
Qed.
Lemma scan_item_reads path st skip ip : reads_only (scan_item samePlatform cfg path st skip ip).
Proof using.
  unfold scan_item.
  assert (forall ip', reads_only (err ← handleItem samePlatform cfg path st;
    match err with
    | Some err => _ ← handleError scan_ctx path err; (mret (ip', skip) : prog (bytes * option disk_err))
    | None => mret (ip', noErr) end)) as H.
  { intros ip'. apply reads_bind; [apply handleItem_reads|]. by intros [e|]. }
  case_bool; [apply H|]. case_bool; [apply H|apply handle_parents_reads].
Qed.

(** ** The callback and the walk *)

Lemma seen_mono h h' n st : h ⊆ h' -> seen h n st -> seen h' n st.
Proof using. intros Hs (m & H & E). exists m. auto. Qed.
Lemma applyNormalization_safe p st h : AutoNormalize cfg = true -> normalizePath p <> p ->
  Safe (applyNormalization sha256 p (normalizePath p) st) h (fun _ _ => True).
Proof using.
  intros Ha Hn. unfold applyNormalization. split; [exact I|]. intros [e|st'] _; next.
  - destruct (is_not_exist e) eqn:Ee; [|done]. split; [|by intros]. split; [done|]. exists p. split; [done|]. left.
    split_and!; [done|done|]. exists e. split; [left|done].
  - split; [exact I|]. intros [] _; [|done]. split.
    { split; [done|]. exists p. split; [done|]. right; left. split_and!; [done|done|]. exists st, st'. split; [right; left|left]. }
    intros [e|] _; [done|]. split; [|by intros]. split; [done|]. exists p. split; [done|]. right; right. split_and!; [done|done|left].
Qed.
Lemma walkFn_safe path info err ip h : (forall st, info = Some st -> seen h path st) ->
  Safe (walkFn path info err ip) h (fun _ _ => True).
Proof using.
  intros Hseen. unfold walkAndHashFiles. split; [exact I|]. intros [e|] _; next; [done|].
  case_bool; [by next|]. destruct (IsTemporary path) eqn:Et.
  { destruct err; [done|]. destruct info as [st|]; [|next; split; [exact I|intros [] ] ].
    destruct (st_IsRegular st && _) eqn:Ee; [|done]. next. split; [|done]. split; [done|]. exists st. split; [|done].
    eapply seen_mono; [|by apply Hseen]. intros x Hx. by right. }
  case_bool; [done|]. case_bool.
  { destruct err; [done|]. destruct info as [st|]; [by repeat case_bool|]. case_bool; [done|]. next. split; [exact I|intros [] ]. }
  destruct err as [e|]; [by case_bool; next|]. case_bool; [done|].
  destruct info as [st|]; [|next; split; [exact I|intros [] ] ].
  destruct (bool_decide (normalizePath path = path)) eqn:En; [apply reads_safe, scan_item_reads|]. apply bool_decide_eq_false in En.
  destruct (AutoNormalize cfg) eqn:Ea; cbn [negb]; [|by next].
  eapply safe_seq; [by apply applyNormalization_safe|]. intros h1 [e|path'] _; [by next|]. apply reads_safe, scan_item_reads.
Qed.

Lemma walk_names_safe rec path names ip h :
  (forall name st ip h, Event (Lstat name) (inr st) ∈ h -> Safe (rec name st ip) h (fun _ _ => True)) ->
  Safe (walk_names walkFn rec path names ip) h (fun _ _ => True).
Proof using.
  intros Hrec. revert ip h. induction names as [|name names IH]; intros ip h; [done|]. cbn [walk_names].
  apply safe_do; [exact I|]. intros [e|st] _; cbv beta iota zeta.
  - apply safe_bind. eapply safe_mono; [by apply walkFn_safe|]. intros h1 [ip1 [e1|] ] _; cbn [fst snd]; [case_bool|]; try apply IH. done.
  - apply safe_bind. eapply safe_mono; [apply Hrec; left|]. intros h1 [ip1 [u|e1| |] ] _; cbn [fst snd]; try apply IH; try done.
    case_bool; [done|apply IH].
Qed.
Lemma Contains_reads st l : reads_only (Contains st l).
Proof using. induction l as [|a l IH]; [done|]. cbn. split; [done|]. intros []; [done|exact IH]. Qed.
Lemma walk_safe check fuel anc path st ip h : Event (Lstat path) (inr st) ∈ h ->
  Safe (walk check walkFn fuel anc path st ip) h (fun _ _ => True).
Proof using.
  revert anc path st ip h. induction fuel as [|fuel IH]; intros anc path st ip h Hin; [done|]. cbn [walk].
  destruct (Canonicalize path) as [p|e| |] eqn:Ec; try done.
  assert (forall h' n, h ⊆ h' -> Some st = Some n -> seen h' p n) as Hseen by (intros h' n Hs [= <-]; exists path; auto).
  eapply safe_call; [apply walkFn_safe; intros n; by apply Hseen|]. intros h1 [ip1 r1] Hs1 _. cbn [fst snd].
  destruct r1; [done|]. case_bool; [done|].
  eapply safe_call; [apply reads_safe; case_bool; [apply Contains_reads|done]|]. intros h2 [] Hs2 _.
  { eapply safe_seq; [apply walkFn_safe; intros n; apply Hseen; intros x Hx; by apply Hs2, Hs1|]. done. }
  apply safe_do; [exact I|]. intros [e|names] _; cbv beta iota zeta.
  - apply safe_bind. eapply safe_mono; [apply walkFn_safe; intros n; apply Hseen; intros x Hx; right; by apply Hs2, Hs1|]. done.
  - apply walk_names_safe. intros name st' ip' h' Hin'. by apply IH.
Qed.
Lemma Walk_fs_safe check fuel root ip h : Safe (Walk_fs check walkFn fuel root ip) h (fun _ _ => True).
Proof using.
  unfold Walk_fs. apply safe_do; [exact I|]. intros [e|st] _; cbv beta iota zeta.
  - apply safe_bind. eapply safe_mono; [by apply walkFn_safe|]. done.
  - apply walk_safe. left.
Qed.
Lemma TraversesSymlink_reads n : reads_only (TraversesSymlink n).
Proof using.
  unfold TraversesSymlink. destruct (Canonicalize n); try done. case_bool; [done|]. generalize ([] : bytes). generalize (PathComponents a).
  intros parts. induction parts as [|part parts IH]; intros path; [done|]. cbn. split; [done|]. intros [e|st]; [done|]. by repeat case_bool.
Qed.

(** Whatever is answered, a scan changes nothing on disk but that it removes
    temporary files that it has seen to be regular and older than the time they
    are kept for, and renames items that are not in normal form, if this is
    configured, to a name that is free or that is the item itself. *)
Theorem scan_changes_little fuel h r
    (Hrun : runs (scan sha256 samePlatform ignores normalizePath cfg fuel now) [] h r) : all_allowed allowed h.
Proof using.
  assert (Safe (scan sha256 samePlatform ignores normalizePath cfg fuel now) [] (fun _ _ => True)) as Hs.
  { unfold scan. destruct (Subs cfg) as [|sub0 subs0].
    - apply safe_bind. eapply safe_mono; [apply Walk_fs_safe|]. done.
    - generalize (sub0 :: subs0). intros subs. generalize ([] : bytes) at 1. generalize ([] : history).
      induction subs as [|sub subs IH]; intros h0 ip; [done|]. cbn [scan_subs].
      eapply safe_seq; [apply reads_safe, TraversesSymlink_reads|]. intros h1 [e|] _; [apply IH|].
      eapply safe_seq; [apply Walk_fs_safe|]. intros h2 [ip2 r2] _. cbn [fst snd]. destruct r2; try apply IH. done. }
  eapply safe_runs in Hs; [by destruct Hs| |exact Hrun|]; [done|]. by apply Forall_true.
Qed.
End Safety.

(** The rename through another name does not look whether that name is free:
    an ordinary file [docs.tmp] is replaced. *)
Definition renames (h : history) : list (bytes * bytes) :=
  omap (fun e => match ev_call e with Rename a b => Some (a, b) | _ => None end) (reverse h).
Definition looked_at (h : history) : list bytes :=
  omap (fun e => match ev_call e with Lstat n => Some n | _ => None end) (reverse h).
Definition ex_found : Stat :=
  {| st_IsDir := false; st_IsSymlink := false; st_IsRegular := true; st_Mode := 420; st_Size := 5; st_ModTime_Unix := 1000;
     st_ModTime_Nanosecond := 0; st_Owner := 0; st_Group := 0 |}.
Definition ex_same_file (c : call) : option (answer c) :=
  match c return option (answer c) with
  | Lstat _ => Some (inr ex_found)
  | SameFile _ _ => Some true
  | Rename _ _ => Some None
  | _ => None
  end.
Lemma normalization_overwrites :
  IsTemporary (gostr "docs.tmp") = false /\
  exists h, exec ex_same_file (applyNormalization (fun b => b) (gostr "d_ocs") (gostr "docs") ex_found) [] = Some (h, inr (gostr "docs")) /\
    renames h = [(gostr "d_ocs", gostr "docs.tmp"); (gostr "docs.tmp", gostr "docs")] /\ looked_at h = [gostr "docs"].
Proof. split; [done|]. eexists. split; [by vm_compute|]. by vm_compute. Qed.

(** A folder with an old and a new temporary file. *)
Definition ex_old (n : bytes) : Stat :=
  {| st_IsDir := bool_decide (n = dot); st_IsSymlink := false; st_IsRegular := negb (bool_decide (n = dot)); st_Mode := 420; st_Size := 5;
     st_ModTime_Unix := if decide (n = gostr ".syncthing.new.tmp") then 1000 else 10; st_ModTime_Nanosecond := 0;
     st_Owner := 0; st_Group := 0 |}.
Definition ex_temps (c : call) : option (answer c) :=
  match c return option (answer c) with
  | Lstat n => Some (inr (ex_old n))
  | DirNames n => Some (inr [gostr ".syncthing.old.tmp"; gostr ".syncthing.new.tmp"])
  | CtxErr | Remove _ => Some None
  | _ => None
  end.
Definition ex_safety_cfg : walkerCfg :=
  {| Subs := []; w_IgnorePerms := false; AutoNormalize := true; w_ShortID := 7; w_LocalFlags := 0; w_ModTimeWindow := 0;
     ScanOwnership := false; ScanXattrs := false; TempLifetime := 100 * nsPerSec; hasCurrentFiler := true;
     Incremental_Enabled := false; Incremental_Baseline := false; Incremental_Cache := false; w_checkRecursion := false |}.
Definition removals (h : history) : list bytes :=
  omap (fun e => match ev_call e with Remove n => Some n | _ => None end) (reverse h).
Theorem scan_changes_little_witness : exists h,
  removals h = [gostr ".syncthing.old.tmp"] /\
  all_allowed (allowed (fun b => b) (fun p => p) ex_safety_cfg (time_Unix 1050 0)) h.
Proof.
  destruct (exec ex_temps (scan (fun b => b) (fun _ _ => false) (fun _ => 0) (fun p => p) ex_safety_cfg 3 (time_Unix 1050 0)) [])
    as [ [h r]|] eqn:E; [|by vm_compute in E].
  exists h. split; [|exact (scan_changes_little _ _ _ _ _ _ 3 h r (exec_runs _ _ _ _ _ E))].
  vm_compute in E. injection E as <- _. by vm_compute.
Defined.
