(* ===== verification/FolderScan.v ===== *)
(** * The scan of a folder (lib/model/folder.go)

    What a folder does with the results of the walk, and the pass over its
    database that finds deleted and ignored items, with the batches in which
    both are written.  The walk itself is [ScanWalk]; here its results arrive
    on a channel. *)
From Stdlib Require Import ZArith List Lia.
From Stdlib Require Import Strings.Byte.
From stdpp Require Import base list option gmap numbers tactics.
From S2P Require Import Prelude GoLib Vector FileInfo FileInfoWire PullQueue Paths Disk PullItems ScanWalk EncryptedNames.

#[local] Open Scope Z_scope.

(** ** Configuration *)

Inductive FolderType := FolderTypeSendReceive | FolderTypeSendOnly | FolderTypeReceiveOnly | FolderTypeReceiveEncrypted.
Definition isReceive (t : FolderType) : bool :=
  match t with FolderTypeReceiveOnly | FolderTypeReceiveEncrypted => true | _ => false end.
Definition isEncrypted (t : FolderType) : bool := match t with FolderTypeReceiveEncrypted => true | _ => false end.

(** [f.localFlags], as the constructors of the folder types set it. *)
Definition localFlags (t : FolderType) : Z := if isReceive t then FlagLocalReceiveOnly else 0.

Record folderScanCfg :=
  { sf_Type : FolderType; sf_IgnorePerms : bool; sf_SyncOwnership : bool; sf_SendOwnership : bool; sf_SyncXattrs : bool;
    sf_SendXattrs : bool; sf_shortID : Z; sf_modTimeWindow : Z; sf_IncrementalScan : bool; sf_incrementalCache : bool;
    sf_incrementalSnapshot : bool }.

(** ** Forced rescans, scan errors *)

Record FileError := { fe_Path : bytes; fe_Err : disk_err }.
Definition newScanError (scanErrors : list FileError) (path : bytes) (err : disk_err) : list FileError :=
  scanErrors ++ [{| fe_Path := path; fe_Err := err |}].
Definition clearScanErrors (subDirs : list bytes) (scanErrors : list FileError) : list FileError :=
  match subDirs with
  | [] => []
  | _ => List.filter (fun fe => negb (existsb (fun sub => bool_decide (fe_Path fe = sub) || IsParent (fe_Path fe) sub) subDirs)) scanErrors
  end.

(** ** Batches with effects *)

(** [FileInfoBatch.Flush] and [FlushIfFull] with a function that acts on the disk
    and the database; the state of the function is the batch's [world]. *)
Section Batches.
Context {W : Type} (flushFn : list FileInfo -> W -> prog (W * option disk_err)).
Abbreviation batch := (@FileInfoBatch disk_err W).
Definition prog_Flush (b : batch) : prog (batch * option disk_err) :=
  match berror b with
  | Some e => mret (b, Some e)
  | None =>
      if is_nil (infos b) then mret (b, None)
      else
        r ← flushFn (infos b) (world b);
        mret (match r.2 with
              | None => (batch_Reset {| infos := infos b; bsize := bsize b; berror := None; world := r.1 |}, None)
              | Some e => ({| infos := infos b; bsize := bsize b; berror := Some e; world := r.1 |}, Some e)
              end)
  end.
Definition prog_FlushIfFull (b : batch) : prog (batch * option disk_err) :=
  match berror b with
  | Some e => mret (b, Some e)
  | None => if batch_Full b then prog_Flush b else mret (b, None)
  end.
(** [Append] panics on a failed batch, and if the file cannot be encoded. *)
Definition prog_Append (protoSize : bep_FileInfo -> Z) (f : FileInfo) (b : batch) : prog batch :=
  match batch_Append protoSize f b with
  | (b, Ret _) => mret b
  | _ => Call Panics (fun e => match e : Empty_set with end)
  end.
End Batches.
Definition empty_batch {W} (w : W) : @FileInfoBatch disk_err W := {| infos := []; bsize := 0; berror := None; world := w |}.

Definition maxToRemove : Z := 1000.
(** The batch's world is the set of names that were marked deleted. *)
Record scanBatch := { updateBatch : @FileInfoBatch disk_err (gset bytes); toRemove : list bytes }.

Definition set_toRemove (l : list bytes) (b : scanBatch) : scanBatch := {| updateBatch := updateBatch b; toRemove := l |}.
Definition set_updateBatch (ub : FileInfoBatch) (b : scanBatch) : scanBatch := {| updateBatch := ub; toRemove := toRemove b |}.
Definition batch_Remove (item : bytes) (b : scanBatch) : scanBatch := set_toRemove (toRemove b ++ [item]) b.
Definition markDeleted (name : bytes) (b : scanBatch) : scanBatch :=
  let ub := updateBatch b in
  set_updateBatch {| infos := infos ub; bsize := bsize ub; berror := berror ub; world := {[name]} ∪ world ub |} b.
Definition hasDeleted (name : bytes) (b : scanBatch) : bool := bool_decide (name ∈ world (updateBatch b)).

(** ** Paths to scan *)

Fixpoint insert_asc (x : bytes) (l : list bytes) : list bytes :=
  match l with
  | [] => [x]
  | y :: l => if bytes_leb x y then x :: y :: l else y :: insert_asc x l
  end.
Definition sort_asc (l : list bytes) : list bytes := foldr insert_asc [] l.

Section Unify.
Context (exists_ : bytes -> prog bool).

(** The climb to the highest directory that is not known. *)
Fixpoint climb (fuel : nat) (dir : bytes) : prog bytes :=
  let parent := Dir dir in
  if bool_decide (parent = dot) || bool_decide (parent = [PathSeparator]) then mret dir
  else
    match fuel with
    | O => mret dir
    | S fuel => known ← exists_ parent; if known : bool then mret dir else climb fuel parent
    end.
Fixpoint unify_loop (prev : bytes) (dirs : list bytes) : prog (list bytes) :=
  match dirs with
  | [] => mret []
  | d :: dirs =>
      match Canonicalize d with
      | Ret dir =>
          if bool_decide (dir = prev) || IsParent dir prev then unify_loop prev dirs
          else
            dir ← climb (length dir) dir;
            rest ← unify_loop dir dirs;
            mret (dir :: rest)
      | _ => unify_loop prev dirs
      end
  end.
(** No directory stands for the whole folder. *)
Definition unifySubs (dirs : list bytes) : prog (list bytes) :=
  match sort_asc dirs with
  | [] => mret []
  | d :: ds =>
      if is_nil d || bool_decide (d = dot) || bool_decide (d = [PathSeparator]) then mret []
      else unify_loop (gostr "./") (d :: ds)
  end.
End Unify.

(** [nil] for the whole folder, as [SnapshotUpdate] takes it. *)
Definition dirtyPathSet (subDirs : list bytes) : list bytes :=
  if existsb (fun sub => is_nil sub || bool_decide (sub = dot)) subDirs then [] else subDirs.

(** ** Deletions (lib/osutil/osutil.go) *)

Definition osutil_IsDeleted (name : bytes) : prog bool :=
  r ← do_ (Lstat name);
  if (match r with inl err => is_not_exist err || is_case_conflict err | inr _ => false end) then mret true
  else
    t ← TraversesSymlink (Dir name);
    mret (match t with Some (NotADirectoryError _) | Some (TraversesSymlinkError _) => true | _ => false end).

Section Folder.
Context (protoSize : bep_FileInfo -> Z) (samePlatform : PlatformData -> PlatformData -> bool) (ignores : bytes -> Z).
Context (cfg : folderScanCfg).
Abbreviation Update_result := (scanBatch * (disk_err + bool))%type.

(** ** Writing to the database *)

(** [updateLocals], the same after scanning and pulling but for the event. *)
Definition updateLocals (fs : list FileInfo) : prog (option disk_err) :=
  e ← do_ (UpdateLocals fs);
  match e with
  | Some e => mret (Some e)
  | None => _ ← do_ (DropForcedRescans (Name <$> fs)); do_ LocalSequence
  end.

(** The function of the batch: the error of the update is dropped. *)
Definition scan_flushFn (fs : list FileInfo) (deleted : gset bytes) : prog (gset bytes * option disk_err) :=
  e ← do_ HealthError;
  match e with
  | Some e => mret (deleted, Some e)
  | None => _ ← updateLocals fs; mret (∅, None)
  end.
Definition newScanBatch : scanBatch := {| updateBatch := empty_batch ∅; toRemove := [] |}.

Definition flushToRemove (b : scanBatch) : prog (scanBatch * option disk_err) :=
  match toRemove b with
  | [] => mret (b, None)
  | names =>
      e ← do_ (DropFilesNamed names);
      mret (match e with Some e => (b, Some e) | None => (set_toRemove [] b, None) end)
  end.
Definition scanBatch_Flush (b : scanBatch) : prog (scanBatch * option disk_err) :=
  r ← flushToRemove b;
  match r with
  | (b, Some e) => mret (b, Some e)
  | (b, None) => u ← prog_Flush scan_flushFn (updateBatch b); mret (set_updateBatch u.1 b, u.2)
  end.
Definition scanBatch_FlushIfFull (b : scanBatch) : prog (scanBatch * option disk_err) :=
  r ← (if maxToRemove <=? zlen (toRemove b) then flushToRemove b else mret (b, None));
  match r with
  | (b, Some e) => mret (b, Some e)
  | (b, None) => u ← prog_FlushIfFull scan_flushFn (updateBatch b); mret (set_updateBatch u.1 b, u.2)
  end.

Definition scanBatch_Append (fi : FileInfo) (b : scanBatch) : prog scanBatch :=
  ub ← prog_Append protoSize fi (updateBatch b); mret (set_updateBatch ub b).

(** How an item is compared with the global one. *)
Definition globalComparison : FileInfoComparison :=
  {| ModTimeWindow := sf_modTimeWindow cfg; IgnorePerms := sf_IgnorePerms cfg; IgnoreBlocks := true;
     IgnoreFlags := FlagLocalReceiveOnly; IgnoreOwnership := negb (sf_SyncOwnership cfg) && negb (sf_SendOwnership cfg);
     IgnoreXattrs := negb (sf_SyncXattrs cfg) && negb (sf_SendXattrs cfg) |}.

(** [scanBatch.Update] *)
Definition Update_ (fi : FileInfo) (b : scanBatch) : prog Update_result :=
  let append fi := b ← scanBatch_Append fi b; mret (b, inr true) in
  if isEncrypted (sf_Type cfg) && IsDirectory fi && IsEncryptedParent (PathComponents (Name fi)) then
    names ← do_ (DirNames (Name fi));
    _ ← (match names with inr [] => _ ← do_ (Remove (Name fi)); mret tt | _ => mret tt end);
    mret (b, inr false)
  else
    r ← do_ (GetGlobalFile (Name fi));
    match r with
    | inl err => mret (b, inl err)
    | inr (gf, false) => append fi
    | inr (gf, true) =>
        if IsReceiveOnlyChanged gf then
          if IsDeleted fi then mret (batch_Remove (Name fi) b, inr true) else append fi
        else if isReceive (sf_Type cfg) && IsEquivalentOptional false samePlatform gf fi globalComparison then append gf
        else append fi
    end.

(** ** Renames *)

(** The item as deleted on this device. *)
Definition local_deleted (now : Z) (fi : FileInfo) : FileInfo :=
  set_LocalFlags (localFlags (sf_Type cfg)) (SetDeleted now (sf_shortID cfg) fi).

(** The rows of [AllLocalFilesWithBlocksHash] are the metadata of the files. *)
Fixpoint rename_loop (file : FileInfo) (b : scanBatch) (rows : list (disk_err + FileInfo)) : prog (option FileInfo) :=
  match rows with
  | [] => mret None
  | inl _ :: _ => mret None
  | inr fi :: rows =>
      ctx ← do_ CtxErr;
      match ctx with
      | Some _ => mret None
      | None =>
          if bool_decide (Name fi = Name file) || hasDeleted (Name fi) b || ShouldConflict fi || R_IsIgnored (ignores (Name fi)) ||
             negb (FSize file =? FSize fi) then rename_loop file b rows
          else
            deleted ← osutil_IsDeleted (Name fi);
            if negb deleted then rename_loop file b rows
            else
              r ← do_ (GetDeviceFile (Name fi));
              match r with
              | inr (nf, true) =>
                  if negb (Sequence nf =? Sequence fi) then rename_loop file b rows
                  else now ← do_ Now_unix; mret (Some (local_deleted now nf))
              | _ => rename_loop file b rows
              end
      end
  end.
Definition findRename (file : FileInfo) (b : scanBatch) : prog (option FileInfo) :=
  if is_nil (Blocks file) || (FSize file =? 0) then mret None
  else rows ← do_ (AllLocalFilesWithBlocksHash (BlocksHash file)); rename_loop file b rows.

(** ** Changed and new items *)

(** A part of the scan: the batch, the number of changes, and an error or a value. *)
Abbreviation Pass A := (prog (scanBatch * Z * outcome disk_err A)).
Definition pass_then {A B} (p : Pass A) (f : scanBatch -> Z -> A -> Pass B) : Pass B :=
  r ← p;
  match r with
  | (b, changes, Ret a) => f b changes a
  | (b, changes, Err err) => mret (b, changes, Err err)
  | (b, changes, Panic) => mret (b, changes, Panic)
  | (b, changes, OutOfFuel) => mret (b, changes, OutOfFuel)
  end.
Definition done {A} (b : scanBatch) (changes : Z) (a : A) : Pass A := mret (b, changes, Ret a).

(** An update that counts as a change if it was made; an error resets the count. *)
Definition count_update (fi : FileInfo) (b : scanBatch) (changes : Z) : Pass bool :=
  u ← Update_ fi b;
  mret (match u with
        | (b, inl err) => (b, 0, Err err)
        | (b, inr ok) => (b, if ok : bool then changes + 1 else changes, Ret ok)
        end).

(** [for range fchan {}] *)
Fixpoint drain (fuel : nat) : prog unit :=
  match fuel with
  | O => mret tt
  | S fuel => r ← do_ NextResult; match r with None => mret tt | Some _ => drain fuel end
  end.

(** An item, with the rename that explains it. *)
Definition scan_result (file : FileInfo) (b : scanBatch) (changes : Z) : Pass unit :=
  pass_then (count_update file b changes) (fun b changes _ =>
    if isReceive (sf_Type cfg) then done b changes tt
    else
      r ← findRename file b;
      match r with
      | None => done b changes tt
      | Some nf =>
          pass_then (count_update nf b changes) (fun b changes ok =>
            done (if ok : bool then markDeleted (Name nf) b else b) changes tt)
      end).
Fixpoint scan_results (fuel : nat) (b : scanBatch) (changes : Z) (scanned : list FileInfo) : Pass (list FileInfo) :=
  match fuel with
  | O => mret (b, changes, OutOfFuel)
  | S fuel =>
      res ← do_ NextResult;
      match res with
      | None => done b changes scanned
      | Some (inl (path, err)) => _ ← do_ (NewScanError path err); scan_results fuel b changes scanned
      | Some (inr file) =>
          fl ← scanBatch_FlushIfFull b;
          match fl with
          | (b, Some err) => _ ← drain fuel; mret (b, changes, Err err)
          | (b, None) =>
              pass_then (scan_result file b changes) (fun b changes _ => scan_results fuel b changes (scanned ++ [file]))
          end
      end
  end.
Definition scanSubdirsChangedAndNew (fuel : nat) (subDirs : list bytes) (b : scanBatch) : Pass unit :=
  pass_then (scan_results fuel b 0 []) (fun b changes scanned =>
    _ ← (if sf_IncrementalScan cfg && sf_incrementalSnapshot cfg then do_ (SnapshotUpdate scanned (dirtyPathSet subDirs)) else mret tt);
    done b changes tt).

(** ** Deleted and ignored items *)

Definition dropIncrementalPath (path : bytes) : prog unit :=
  if negb (sf_IncrementalScan cfg) then mret tt
  else
    _ ← (if sf_incrementalCache cfg then do_ (CacheRemovePrefix path) else mret tt);
    if sf_incrementalSnapshot cfg then do_ (SnapshotUpdate [] [path]) else mret tt.

Definition checkFull (b : scanBatch) : Pass unit :=
  fl ← scanBatch_FlushIfFull b;
  mret (match fl with (b, Some err) => (b, 0, Err err) | (b, None) => (b, 0, Ret tt) end).
(** Marks the directories that wait as ignored. *)
Fixpoint ignore_all (toIgnore : list FileInfo) (b : scanBatch) (changes : Z) : Pass unit :=
  match toIgnore with
  | [] => done b changes tt
  | file :: toIgnore =>
      pass_then (count_update (SetIgnored file) b changes) (fun b changes _ =>
        pass_then (checkFull b) (fun b _ _ => ignore_all toIgnore b changes))
  end.

(** What waits: the directories, and the highest ignored one. *)
Record waiting := { toIgnore : list FileInfo; ignoredParent : bytes }.
Definition not_waiting : waiting := {| toIgnore := []; ignoredParent := [] |}.

(** The item is gone from the disk, or is kept, and then so are the directories above it. *)
Definition check_deleted (fi : FileInfo) (b : scanBatch) (w : waiting) (changes : Z) : Pass waiting :=
  deleted ← osutil_IsDeleted (Name fi);
  if negb deleted then done b changes (if is_nil (ignoredParent w) then w else not_waiting)
  else
    now ← do_ Now_unix;
    let nf := local_deleted now fi in
    let nf := if ShouldConflict fi then set_Version {| Counters := [] |} nf else nf in
    _ ← dropIncrementalPath (Name nf);
    pass_then (count_update nf b changes) (fun b changes _ => done b changes w).

(** A deleted item with the flag of receive-only folders. *)
Definition check_receive_only (fi : FileInfo) (b : scanBatch) (w : waiting) (changes : Z) : Pass waiting :=
  let clear := pass_then (count_update (set_LocalFlags (clear_flags (LocalFlags fi) FlagLocalReceiveOnly) fi) b changes)
                 (fun b changes _ => done b changes w) in
  if isReceive (sf_Type cfg) then
    r ← do_ (GetGlobalFile (Name fi));
    match r with
    | inl err => mret (b, 0, Err err)
    | inr (gf, ok) =>
        if negb ok then done b changes w
        else if IsReceiveOnlyChanged gf then done (batch_Remove (Name fi) b) (changes + 1) w
        else if IsDeleted gf then clear
        else done b changes w
    end
  else clear.

(** The switch for one item of the database. *)
Definition known_item (fi : FileInfo) (b : scanBatch) (w : waiting) (changes : Z) : Pass waiting :=
  let ignored := R_IsIgnored (ignores (Name fi)) in
  if IsIgnored fi && ignored then done b changes w
  else if negb (IsIgnored fi) && ignored then
    if IsDirectory fi then
      done b changes {| toIgnore := toIgnore w ++ [fi]; ignoredParent := if is_nil (ignoredParent w) then Name fi else ignoredParent w |}
    else pass_then (count_update (SetIgnored fi) b changes) (fun b changes _ => done b changes w)
  else if IsIgnored fi || (negb (IsDeleted fi) && negb (IsUnsupported fi)) then check_deleted fi b w changes
  else if IsDeleted fi && IsReceiveOnlyChanged fi then check_receive_only fi b w changes
  else done b changes w.

(** The items of the database below one path; [None] if the scan was cancelled. *)
Fixpoint known_items (rows : list (disk_err + FileInfo)) (b : scanBatch) (changes : Z) (w : waiting) : Pass (option waiting) :=
  match rows with
  | [] => done b changes (Some w)
  | inl err :: _ => mret (b, changes, Err err)
  | inr fi :: rows =>
      ctx ← do_ CtxErr;
      match ctx with
      | Some _ => done b changes None
      | None =>
          pass_then (checkFull b) (fun b _ _ =>
            let leaves := negb (is_nil (ignoredParent w)) && negb (IsParent (Name fi) (ignoredParent w)) in
            pass_then (if leaves then ignore_all (toIgnore w) b changes else done b changes tt) (fun b changes _ =>
              pass_then (known_item fi b (if leaves then not_waiting else w) changes) (known_items rows)))
      end
  end.
(** At the end of a path the directories that wait are marked, but the highest
    ignored one stays set; a scan that was cancelled in between ends without an error. *)
Fixpoint known_subs (subDirs : list bytes) (b : scanBatch) (w : waiting) (changes : Z) : Pass unit :=
  match subDirs with
  | [] => done b changes tt
  | sub :: subDirs =>
      rows ← do_ (AllLocalFilesWithPrefix sub);
      pass_then (known_items rows b changes w) (fun b changes w =>
        match w with
        | None => done b changes tt
        | Some w =>
            ctx ← do_ CtxErr;
            match ctx with
            | Some err => mret (b, changes, Err err)
            | None =>
                pass_then (ignore_all (toIgnore w) b changes) (fun b changes _ =>
                  known_subs subDirs b {| toIgnore := []; ignoredParent := ignoredParent w |} changes)
            end
        end)
  end.
Definition scanSubdirsDeletedAndIgnored (subDirs : list bytes) (b : scanBatch) : Pass unit :=
  known_subs subDirs b not_waiting 0.

(** ** The scan *)

Definition getHealthErrorAndLoadIgnores : prog (option disk_err) :=
  e ← do_ HealthError;
  match e with
  | Some e => mret (Some e)
  | None =>
      if isEncrypted (sf_Type cfg) then mret None
      else
        e ← do_ LoadIgnores;
        mret (match e with
              | Some e => if is_not_exist e then None else Some (ErrWrapped (gostr "loading ignores") e)
              | None => None
              end)
  end.

Definition is_known (file : bytes) : prog bool :=
  r ← do_ (GetDeviceFile file);
  mret (match r with inr (_, ok) => ok | inl _ => false end).

(** What is done with the token of the limiter held: the changes, and how it ended. *)
Definition flush_then {A} (b : scanBatch) (changes : Z) (f : scanBatch -> Pass A) : Pass A :=
  fl ← scanBatch_Flush b;
  match fl with
  | (b, Some err) => mret (b, changes, Err err)
  | (b, None) => f b
  end.
Definition scan_both (fuel : nat) (subDirs : list bytes) : Pass unit :=
  pass_then (scanSubdirsChangedAndNew fuel subDirs newScanBatch) (fun b changes _ =>
    flush_then b changes (fun b =>
      let subDirs := if is_nil subDirs then [ [] ] else subDirs in
      r ← scanSubdirsDeletedAndIgnored subDirs b;
      let '(b, changesHere, e) := r in
      let changes := changes + changesHere in
      match e with
      | Ret _ => flush_then b changes (fun b => _ ← do_ ScanCompleted; done b changes tt)
      | _ => mret (b, changes, e)
      end)).

Context (NativeFilename : bytes -> bytes).
Definition native_subs (subDirs : list bytes) : list bytes :=
  let subs := NativeFilename <$> subDirs in
  if existsb is_nil subs then [] else subs.
Definition scanSubdirs (fuel : nat) (subDirs : list bytes) : prog (outcome disk_err unit) :=
  oldHash ← do_ IgnoresHash;
  e ← getHealthErrorAndLoadIgnores;
  match e with
  | Some e => mret (Err e)
  | None =>
      r ← (token ← do_ TakeToken;
           match token with
           | Some e => mret (Err e)
           | None =>
               subDirs ← unifySubs is_known (native_subs subDirs);
               _ ← do_ (ClearScanErrors subDirs);
               r ← scan_both fuel subDirs;
               let '(_, changes, e) := r in
               _ ← (if 0 <? changes then do_ SchedulePull else mret tt);
               mret e
           end);
      newHash ← do_ IgnoresHash;
      _ ← (if bool_decide (newHash = oldHash) then mret tt else _ ← do_ IgnoresUpdated; do_ SchedulePull);
      mret r
  end.

(** ** Forced rescans *)

Definition rescan_flushFn (fs : list FileInfo) (w : unit) : prog (unit * option disk_err) :=
  e ← do_ (UpdateLocals fs); mret (w, e).
Fixpoint mark_rescans (paths : list bytes) (b : @FileInfoBatch disk_err unit) : prog (option disk_err) :=
  match paths with
  | [] => r ← prog_Flush rescan_flushFn b; mret r.2
  | path :: paths =>
      r ← prog_FlushIfFull rescan_flushFn b;
      match r with
      | (_, Some e) => mret (Some e)
      | (b, None) =>
          r ← do_ (GetDeviceFile path);
          match r with
          | inl e => mret (Some e)
          | inr (_, false) => mark_rescans paths b
          | inr (fi, true) => b ← prog_Append protoSize (SetMustRescan fi) b; mark_rescans paths b
          end
      end
  end.
Definition handleForcedRescans (fuel : nat) : prog (outcome disk_err unit) :=
  paths ← do_ TakeForcedRescans;
  if is_nil paths then mret (Ret tt)
  else
    e ← mark_rescans paths (empty_batch tt);
    match e with
    | Some e => mret (Err e)
    | None => scanSubdirs fuel paths
    end.
End Folder.
