(* ===== verification/FolderScanProps.v ===== *)
(** * The paths of a scan

    [unifySubs] turns the paths that were asked for into paths that cover them,
    each of which starts right below a known directory. *)
From Stdlib Require Import ZArith List Lia.
From Stdlib Require Import Strings.Byte.
From stdpp Require Import base list option gmap numbers tactics.
From S2P Require Import Prelude GoLib Vector FileInfo FileInfoWire PullQueue Paths Disk PullItems ScanWalk FolderScan.

#[local] Open Scope Z_scope.

Lemma insert_asc_elem x l y : y ∈ insert_asc x l <-> y = x \/ y ∈ l.
Proof.
  induction l as [|z l IH]; cbn; [by rewrite elem_of_cons|].
  destruct (bytes_leb x z); rewrite !elem_of_cons; [done|]. rewrite IH. tauto.
Qed.
Lemma sort_asc_elem l y : y ∈ sort_asc l <-> y ∈ l.
Proof.
  induction l as [|x l IH]; cbn; [done|]. change (foldr insert_asc [] l) with (sort_asc l).
  by rewrite insert_asc_elem, elem_of_cons, IH.
Qed.

(** The path is the other one, or is below it. *)
Definition within (p s : bytes) : Prop := p = s \/ IsParent p s = true.
Abbreviation path_of := (render false).
Lemma path_of_join ds : ds <> [] -> path_of ds = join PathSeparator ds.
Proof. by destruct ds. Qed.
Lemma IsParent_dot es : Forall proper es -> es <> [] -> IsParent dot (path_of es) = false.
Proof.
  intros He Hes. pose proof (render_not_dot es He Hes) as Hdot. pose proof (IsAbs_render false es (normal_proper _ _ He)) as Ha.
  pose proof (join_nonempty es He Hes) as Hne. pose proof (name_last es He Hes) as Hlast.
  rewrite path_of_join in * by done. unfold IsParent. rewrite Ha.
  rewrite (bool_decide_false (join PathSeparator es = dot)) by done. rewrite (bool_decide_false (list.last _ = _)) by done.
  rewrite (bool_decide_false (join PathSeparator es = [PathSeparator])) by (intros E; by rewrite E in Ha).
  destruct (join PathSeparator es) as [|c cs]; [done|]. cbn -[hasPrefix]. by destruct (negb (hasPrefix _ _)).
Qed.
Lemma within_prefix ds es : Forall proper ds -> Forall proper es -> within (path_of ds) (path_of es) <-> es `prefix_of` ds.
Proof.
  intros Hd He. unfold within. destruct (decide (es = [])) as [->|Hes].
  { split; [intros _; apply prefix_nil|]. intros _. destruct (decide (ds = [])) as [->|Hds]; [by left|right].
    pose proof (render_not_dot ds Hd Hds). pose proof (render_not_nil false ds (normal_not_nil false _ (normal_proper _ _ Hd))) as Hn.
    pose proof (IsAbs_render false ds (normal_proper _ _ Hd)) as Ha.
    change (path_of []) with dot. revert H Hn Ha. generalize (path_of ds) as p. intros p H Hn Ha. unfold IsParent. rewrite Ha.
    rewrite (bool_decide_false (dot = _)) by congruence. change (IsAbs dot) with false. cbn [eqb negb].
    rewrite (bool_decide_true (dot = dot)), orb_true_r, (bool_decide_false (p = dot)) by done. by destruct p. }
  destruct (decide (ds = [])) as [->|Hds].
  { split; [|by intros ->%prefix_nil_inv]. change (path_of []) with dot. rewrite IsParent_dot by done.
    intros [E|E]; [|done]. symmetry in E. by apply render_not_dot in E. }
  rewrite !path_of_join by done. rewrite IsParent_below by done. split.
  - intros [E|(k & _ & ->)]; [|by exists k]. apply (f_equal (split PathSeparator)) in E.
    rewrite !split_join in E by (try done; by apply proper_seps). by rewrite E.
  - intros [k ->]. destruct (decide (k = [])) as [->|Hk]; [left; by rewrite app_nil_r|right]. by exists k.
Qed.

Lemma path_of_length ds : Forall proper ds -> (length ds <= length (path_of ds))%nat.
Proof.
  intros Hd. destruct (decide (ds = [])) as [->|Hne]; [cbn; lia|]. rewrite path_of_join by done. clear Hne.
  induction Hd as [|d ds [Hn _] _ IH]; [cbn; lia|]. destruct d as [|c d]; [done|].
  destruct ds as [|d' ds]; [cbn; lia|]. rewrite join_cons2 by done. rewrite length_app. cbn [length] in *. lia.
Qed.
(** The first value of [prev] is no path. *)
Lemma not_within_dotslash ds : Forall proper ds -> ~ within (path_of ds) (gostr "./").
Proof.
  intros Hd. assert (hasPrefix (path_of ds) (gostr "./") = false) as Hp.
  { destruct (hasPrefix _ _) eqn:E; [|done]. apply hasPrefix_spec in E as [r E].
    destruct ds as [|d ds]; [done|]. apply Forall_inv in Hd as (_ & Hdot & _ & Hs). exfalso. apply Hdot.
    apply (f_equal (split PathSeparator)) in E. rewrite path_of_join in E by done.
    change (gostr "./" ++ r) with (dot ++ PathSeparator :: r) in E.
    rewrite (split_app_sep PathSeparator dot) in E by (by apply (bool_decide_unpack _)). destruct ds as [|d' ds].
    - cbn [join] in E. rewrite split_single in E by done. by injection E.
    - rewrite join_cons2 in E by done. rewrite split_app_sep in E by done. by injection E. }
  intros [E|E].
  - by rewrite E in Hp.
  - unfold IsParent in E. change (list.last (gostr "./")) with (Some PathSeparator) in E.
    rewrite (bool_decide_true (Some PathSeparator = _)) in E by done. rewrite Hp in E.
    by repeat case_match.
Qed.

Section Unify.
Context (exists_ : bytes -> prog bool) (plausible : forall c : call, answer c -> Prop).
(** What the answers have said of a name. *)
Context (known : history -> bytes -> Prop) (known_mono : forall h h' n, h ⊆ h' -> known h n -> known h' n).
Abbreviation Runs := (safe (fun _ _ => True) plausible).
Context (exists_spec : forall n h, Runs (exists_ n) h (fun h' r => r = true -> known h' n)).

(** A path where the scan may start: nothing is unknown above it. *)
Definition start (h : history) (s : bytes) : Prop := Dir s = dot \/ known h (Dir s).
Lemma start_mono h h' s : h ⊆ h' -> start h s -> start h' s.
Proof using known_mono. intros Hs [H|H]; [by left|right; eauto]. Qed.

Lemma climb_spec fuel ds h : Forall proper ds -> (length ds <= fuel)%nat ->
  Runs (climb exists_ fuel (path_of ds)) h (fun h' r => exists es, es `prefix_of` ds /\ r = path_of es /\ start h' r).
Proof using exists_spec.
  revert ds h. induction fuel as [|fuel IH]; intros ds h Hd Hf;
    (destruct ds as [|b ds' _] using rev_ind; [by exists []; split_and!; [|done|left]|]).
  { rewrite length_app in Hf. cbn in Hf. lia. }
  apply Forall_app in Hd as [Hds Hb]. apply Forall_inv in Hb.
  assert (Dir (path_of (ds' ++ [b])) = path_of ds') as E.
  { rewrite (path_of_join (_ ++ _)) by (by destruct ds'). by apply Dir_name. }
  cbn [climb]. rewrite E. destruct (bool_decide (path_of ds' = dot) || bool_decide (path_of ds' = [PathSeparator])) eqn:Ec.
  - exists (ds' ++ [b]). split_and!; [done|done|]. left. rewrite E. apply orb_true_iff in Ec as [Ec|Ec]; apply bool_decide_eq_true in Ec; [done|].
    pose proof (IsAbs_render false ds' (normal_proper _ _ Hds)) as Ha. by rewrite Ec in Ha.
  - eapply safe_call; [apply exists_spec|]. intros h' [] Hs Hk; cbn [mret prog_ret].
    + exists (ds' ++ [b]). split_and!; [done|done|]. right. rewrite E. by apply Hk.
    + eapply safe_mono; [apply IH; [done|]|]. { rewrite length_app in Hf. cbn in Hf. lia. }
      cbn. intros h2 r (es & H1 & H2 & H3). exists es. split_and!; [by apply prefix_app_r|done|done].
Qed.

Definition covered_by (h : history) (dirs r : list bytes) : Prop :=
  (forall d c, d ∈ dirs -> Canonicalize d = Ret c -> exists s, s ∈ r /\ within c s) /\
  (forall s, s ∈ r -> start h s /\ exists d c, d ∈ dirs /\ Canonicalize d = Ret c /\ within c s).

Lemma unify_loop_spec prev dirs h : 
  Runs (unify_loop exists_ prev dirs) h (fun h' r =>
    (forall d c, d ∈ dirs -> Canonicalize d = Ret c -> exists s, (s = prev \/ s ∈ r) /\ within c s) /\
    (forall s, s ∈ r -> start h' s /\ exists d c, d ∈ dirs /\ Canonicalize d = Ret c /\ within c s)).
Proof using exists_spec known_mono.
  revert prev h. induction dirs as [|d dirs IH]; intros prev h; cbn [unify_loop].
  { split; [by intros d c Hd; apply elem_of_nil in Hd|by intros s Hs; apply elem_of_nil in Hs]. }
  destruct (Canonicalize d) as [c| | |] eqn:E.
  2-4: (eapply safe_mono; [apply IH|]; cbn; intros h' r [H1 H2]; split;
    [intros d' c' [->|Hd']%elem_of_cons Hc; [congruence|by eapply H1]|
     intros s Hs; destruct (H2 s Hs) as (Hst & d' & c' & Hd' & ?); split; [done|exists d', c'; split; [by right|done] ] ]).
  case_bool.
  - eapply safe_mono; [apply IH|]. cbn. intros h' r [H1 H2]. split.
    + intros d' c' [->|Hd']%elem_of_cons Hc; [|by eapply H1]. rewrite E in Hc. injection Hc as <-.
      exists prev. split; [by left|]. apply orb_true_iff in Heqb as [H|H]; [left; by apply bool_decide_eq_true in H|by right].
    + intros s Hs. destruct (H2 s Hs) as (Hst & d' & c' & Hd' & ?). split; [done|]. exists d', c'. split; [by right|done].
  - destruct (Canonicalize_proper d c E) as (ds & Hds & ->).
    eapply safe_call; [apply climb_spec; [done|]|].
    { apply Nat.le_trans with (length (path_of ds)); [|done]. by apply path_of_length. }
    intros h1 r1 Hs1 (es & Hes & -> & Hst). eapply safe_call; [apply IH|]. intros h2 r2 Hs2 [H1 H2]. cbn [mret prog_ret].
    assert (within (path_of ds) (path_of es)) as Hw.
    { apply within_prefix; [done| |done]. destruct Hes as [k ->]. by apply Forall_app in Hds as [? _]. }
    split.
    + intros d' c' [->|Hd']%elem_of_cons Hc.
      * rewrite E in Hc. injection Hc as <-. exists (path_of es). split; [right; left|done].
      * destruct (H1 d' c' Hd' Hc) as (s & [->|Hs] & Hw'); [exists (path_of es); split; [right; left|done]|].
        exists s. split; [right; by right|done].
    + intros s [->|Hs]%elem_of_cons.
      * split; [by eapply start_mono|]. exists d, (path_of ds). split; [left|done].
      * destruct (H2 s Hs) as (Hst' & d' & c' & Hd' & ?). split; [done|]. exists d', c'. split; [by right|done].
Qed.
Lemma unifySubs_spec dirs h : Runs (unifySubs exists_ dirs) h (fun h' r => r = [] \/ covered_by h' dirs r).
Proof using exists_spec known_mono.
  unfold unifySubs. destruct (sort_asc dirs) as [|d ds] eqn:E; [by left|]. case_bool; [by left|].
  eapply safe_mono; [apply unify_loop_spec|]. cbn. intros h' r [H1 H2].
  assert (forall x, x ∈ d :: ds <-> x ∈ dirs) as Hel by (intros x; by rewrite <- E, sort_asc_elem).
  right. split.
  - intros x c Hx Hc. destruct (H1 x c) as (s & [->|Hs] & Hw); [by apply Hel|done| |by exists s].
    exfalso. destruct (Canonicalize_proper x c Hc) as (es & Hes & ->). by apply (not_within_dotslash es).
  - intros s Hs. destruct (H2 s Hs) as (Hst & x & c & Hx & Hc). split; [done|]. exists x, c. by rewrite <- Hel.
Qed.
End Unify.

Lemma is_known_spec n h : safe (fun _ _ => True) (fun _ _ => True) (is_known n) h
  (fun h' r => r = true -> exists fi, Event (GetDeviceFile n) (inr (fi, true)) ∈ h').
Proof. split; [done|]. intros [e|[fi ok]] _; cbn; [done|]. intros ->. exists fi. left. Qed.

(** Whatever the database answers, the paths that are scanned are the whole folder, or they cover every
    valid path that was asked for, none of them is beside these, and each starts at the root of the folder
    or right below a directory that the database has. *)
Theorem unifySubs_covers dirs h' r (Hrun : runs (unifySubs is_known dirs) [] h' r) :
  r = [] \/
  ((forall d c, d ∈ dirs -> Canonicalize d = Ret c -> exists s, s ∈ r /\ within c s) /\
   (forall s, s ∈ r -> exists d c, d ∈ dirs /\ Canonicalize d = Ret c /\ within c s) /\
   (forall s, s ∈ r -> Dir s = dot \/ exists fi, Event (GetDeviceFile (Dir s)) (inr (fi, true)) ∈ h')).
Proof.
  assert (all_plausible (fun _ _ => True) h') as Hp by (by apply Forall_true).
  pose proof (fun H1 H2 => any_runs _ _ _ _ _ (unifySubs_spec is_known _ (fun h n => exists fi, Event (GetDeviceFile n) (inr (fi, true)) ∈ h)
    H1 H2 dirs []) Hrun Hp) as H. destruct H as [->|[H1 H2] ].
  - intros h1 h2 n Hs (fi & H). exists fi. by apply Hs.
  - exact is_known_spec.
  - by left.
  - right. split_and!; [done| |]; intros s Hs; by destruct (H2 s Hs).
Qed.

(** A path can still be below another one that is scanned: in the order of bytes,
    a name can come between a directory and what is below it. *)
Lemma nested_subs h : runs (unifySubs (fun _ => mret true) [gostr "a"; gostr "a-b"; gostr "a/c"]) h h [gostr "a"; gostr "a-b"; gostr "a/c"].
Proof. by vm_compute. Qed.
(** The whole folder that is not first in the order is a path of its own. *)
Lemma whole_folder_not_first h : runs (unifySubs (fun _ => mret true) [gostr "./"; gostr "!a"]) h h [gostr "!a"; dot].
Proof. by vm_compute. Qed.

Definition ex_known (c : call) : option (answer c) :=
  match c with GetDeviceFile n => Some (inr (emptyFileInfo, bool_decide (n = gostr "a"))) | _ => None end.
Theorem unifySubs_covers_witness :
  let h := [Event (GetDeviceFile (gostr "a")) (inr (emptyFileInfo, true)); Event (GetDeviceFile (gostr "a/b")) (inr (emptyFileInfo, false))] in
  runs (unifySubs is_known [gostr "a/b/c"; gostr "a/b/d"]) [] h [gostr "a/b"] /\
  ([gostr "a/b"] = [] \/
   ((forall d c, d ∈ [gostr "a/b/c"; gostr "a/b/d"] -> Canonicalize d = Ret c -> exists s, s ∈ [gostr "a/b"] /\ within c s) /\
    (forall s, s ∈ [gostr "a/b"] -> exists d c, d ∈ [gostr "a/b/c"; gostr "a/b/d"] /\ Canonicalize d = Ret c /\ within c s) /\
    (forall s, s ∈ [gostr "a/b"] -> Dir s = dot \/ exists fi, Event (GetDeviceFile (Dir s)) (inr (fi, true)) ∈ h))).
Proof.
  intros h. assert (runs (unifySubs is_known [gostr "a/b/c"; gostr "a/b/d"]) [] h [gostr "a/b"]) as H.
  { apply (exec_runs ex_known). vm_compute. reflexivity. }
  split; [exact H|]. exact (unifySubs_covers _ _ _ H).
Defined.
