(* ===== verification/FolderScanSafety.v ===== *)
(** * What a scan writes

    A scan writes three kinds of records: results of the walk, items of the
    database that are ignored now, and items that were found to be gone.  This
    file has the program logic of the batches for any property that holds of
    these, and two uses of it: nothing is recorded as deleted that was not
    observed to be gone, and the records are ones that other devices accept. *)
From Stdlib Require Import ZArith List Lia.
From Stdlib Require Import Strings.Byte.
From stdpp Require Import base list option gmap numbers tactics.
From S2P Require Import Prelude GoLib Vector FileInfo FileInfoWire PullQueue Paths Disk PullItems ScanWalk FolderScan FolderScanProps.

#[local] Open Scope Z_scope.

Ltac next := cbn [mbind prog_bind prog_bind_ mret prog_ret do_ safe].

(** ** Items that are gone *)

(** Nothing has the name, or something above it is not a directory. *)
Definition seen_gone (h : history) (n : bytes) : Prop :=
  (exists e, Event (Lstat n) (inl e) ∈ h /\ is_not_exist e || is_case_conflict e = true) \/
  (exists c p st, Canonicalize (Dir n) = Ret c /\ within c p /\ p <> dot /\ Event (Lstat p) (inr st) ∈ h /\
     (st_IsSymlink st = true \/ st_IsDir st = false)).
Lemma seen_gone_mono h h' n : h ⊆ h' -> seen_gone h n -> seen_gone h' n.
Proof.
  intros Hs [(e & H & ?)|(c & p & st & H1 & H2 & H3 & H4 & H5)]; [left|right].
  - exists e. split; [by apply Hs|done].
  - exists c, p, st. split_and!; [done..|by apply Hs|done].
Qed.

(** The errors of [Lstat] are not those of [TraversesSymlink]. *)
Definition lstat_plain {c : call} (r : answer c) : Prop :=
  match c return answer c -> Prop with
  | Lstat _ => fun r => match r with inl (NotADirectoryError _) | inl (TraversesSymlinkError _) => False | _ => True end
  | _ => fun _ => True
  end r.

Section Gone.
Context (allowed : history -> call -> Prop) (plausible : forall c : call, answer c -> Prop).
Context (lstat_allowed : forall h n, allowed h (Lstat n)) (lstat_errors : forall c r, plausible c r -> lstat_plain r).
Abbreviation Safe := (safe allowed plausible).
Definition blocks (e : option disk_err) : bool :=
  match e with Some (NotADirectoryError _) | Some (TraversesSymlinkError _) => true | _ => false end.

Lemma Join_grow es part : Forall proper es -> proper part ->
  Join [match es with [] => [] | _ => path_of es end; part] = path_of (es ++ [part]).
Proof using.
  clear. intros He Hp. destruct es as [|e es].
  - destruct Hp as (H & ?). destruct part as [|c cs]; [done|]. cbn [Join app].
    change (Clean (path_of [c :: cs]) = path_of [c :: cs]). apply Clean_of_render, normal_proper. by apply Forall_singleton.
  - rewrite Join_rel by done. by rewrite path_of_join.
Qed.
Lemma traverse_spec es parts h : Forall proper es -> Forall proper parts ->
  Safe (traverse (match es with [] => [] | _ => path_of es end) parts) h (fun h' e => blocks e = true ->
    exists p st, within (path_of (es ++ parts)) p /\ p <> dot /\ Event (Lstat p) (inr st) ∈ h' /\
      (st_IsSymlink st = true \/ st_IsDir st = false)).
Proof using lstat_allowed lstat_errors.
  revert es h. induction parts as [|part parts IH]; intros es h He Hp; [done|].
  pose proof (Forall_inv Hp) as Hpart. pose proof (Forall_inv_tail Hp) as Hparts. cbn [traverse]. rewrite Join_grow by done.
  assert (Forall proper (es ++ [part])) as Hep by (apply Forall_app; split; [done|by apply Forall_singleton]).
  assert (within (path_of (es ++ part :: parts)) (path_of (es ++ [part]))) as Hw.
  { apply within_prefix; [|done|exists parts; by rewrite <- app_assoc]. apply Forall_app. split; [done|by constructor]. }
  assert (path_of (es ++ [part]) <> dot) as Hdot by (apply render_not_dot; [done|by destruct es]).
  apply safe_do; [done|]. intros r Hr. apply lstat_errors in Hr. cbn [lstat_plain] in Hr. destruct r as [e|st]; [case_bool; next; [done|by destruct e]|].
  case_bool; [next; intros _; exists (path_of (es ++ [part])), st; split_and!; [done..|left|by left]|].
  destruct (st_IsDir st) eqn:Ed; cbn [negb]; [|next; intros _; exists (path_of (es ++ [part])), st; split_and!; [done..|left|by right] ].
  specialize (IH (es ++ [part]) (Event (Lstat (path_of (es ++ [part]))) (inr st) :: h) Hep Hparts).
  rewrite <- app_assoc in IH. by destruct es.
Qed.
Lemma TraversesSymlink_spec n h :
  Safe (TraversesSymlink n) h (fun h' e => blocks e = true -> exists c p st, Canonicalize n = Ret c /\ within c p /\ p <> dot /\
    Event (Lstat p) (inr st) ∈ h' /\ (st_IsSymlink st = true \/ st_IsDir st = false)).
Proof using lstat_allowed lstat_errors.
  unfold TraversesSymlink. destruct (Canonicalize n) as [c| | |] eqn:E; [|done..]. case_bool; [done|].
  destruct (Canonicalize_proper n c E) as (ds & Hd & ->). destruct (decide (ds = [])) as [->|Hne]; [done|].
  assert (PathComponents (path_of ds) = ds) as Ec.
  { unfold PathComponents. rewrite path_of_join, split_join by (try done; by apply proper_seps). done. }
  rewrite Ec. eapply safe_mono; [by apply (traverse_spec [] ds)|].
  intros h' e H He. destruct (H He) as (p & st & H1 & H2). by exists (path_of ds), p, st.
Qed.
Lemma osutil_IsDeleted_spec n h : Safe (osutil_IsDeleted n) h (fun h' r => r = true -> seen_gone h' n).
Proof using lstat_allowed lstat_errors.
  unfold osutil_IsDeleted. apply safe_do; [done|]. intros r Hr. case_bool.
  - next. intros _. left. destruct r as [e|]; [|done]. exists e. split; [left|done].
  - eapply safe_call; [apply TraversesSymlink_spec|]. intros h' e Hs H. next. intros He. right. apply H.
    destruct e as [ [] |]; done.
Qed.
End Gone.

(** ** What is written *)

Section Written.
Implicit Types (h : history) (b : scanBatch) (n : bytes) (f fi : FileInfo).
Context (protoSize : bep_FileInfo -> Z) (samePlatform : PlatformData -> PlatformData -> bool) (ignores : bytes -> Z).
Context (cfg : folderScanCfg) (plausible : forall c : call, answer c -> Prop).

(** The records that may be written, and the names that may be dropped. *)
Context (P : history -> FileInfo -> Prop) (D : history -> bytes -> Prop).
Definition writes (h : history) (c : call) : Prop :=
  match c with
  | UpdateLocals fs => Forall (P h) fs
  | DropFilesNamed names => Forall (D h) names
  | Remove n => isEncrypted (sf_Type cfg) = true /\ Event (DirNames n) (inr []) ∈ h
  | Chmod _ _ | Lchown _ _ _ | Chtimes _ _ | SetXattr _ _ | CreateSymlink _ _ | Mkdir _ _ | MkdirAll _ _ | Rename _ _
  | CopyContents _ _ | WriteTrailer _ _ | Truncate _ _ | Archive _ => False
  | _ => True
  end.
Abbreviation Safe := (safe writes plausible).

Context (P_mono : forall h h' f, h ⊆ h' -> P h f -> P h' f) (D_mono : forall h h' n, h ⊆ h' -> D h n -> D h' n).
Context (lstat_errors : forall c r, plausible c r -> lstat_plain r).
(** An item of the database, as the deletion pass meets it. *)
Definition row (h : history) (fi : FileInfo) : Prop :=
  exists sub rows, Event (AllLocalFilesWithPrefix sub) rows ∈ h /\ plausible (AllLocalFilesWithPrefix sub) rows /\ inr fi ∈ rows.
Definition is_global (h : history) (n : bytes) (gf : FileInfo) : Prop :=
  Event (GetGlobalFile n) (inr (gf, true)) ∈ h /\ plausible (GetGlobalFile n) (inr (gf, true)).
Context (P_result : forall h f, Event NextResult (Some (inr f)) ∈ h -> plausible NextResult (Some (inr f)) -> P h f).
Context (P_ignored : forall h f, row h f -> P h (SetIgnored f)).
Context (P_deleted : forall h f now, row h f -> seen_gone h (Name f) ->
  P h (local_deleted cfg now f) /\ P h (set_Version {| Counters := [] |} (local_deleted cfg now f))).
Context (P_cleared : forall h f, row h f -> Deleted f = true ->
  P h (set_LocalFlags (clear_flags (LocalFlags f) FlagLocalReceiveOnly) f)).
Context (P_renamed : forall h n f now, Event (GetDeviceFile n) (inr (f, true)) ∈ h -> plausible (GetDeviceFile n) (inr (f, true)) ->
  seen_gone h n -> P h (local_deleted cfg now f)).
Context (P_global : forall h f gf, P h f -> is_global h (Name f) gf ->
  IsEquivalentOptional false samePlatform gf f (globalComparison cfg) = true -> P h gf).
Context (D_update : forall h f gf, P h f -> Deleted f = true -> is_global h (Name f) gf -> IsReceiveOnlyChanged gf = true -> D h (Name f)).
Context (D_row : forall h f gf, row h f -> Deleted f = true -> is_global h (Name f) gf -> IsReceiveOnlyChanged gf = true -> D h (Name f)).

Lemma row_mono h h' f : h ⊆ h' -> row h f -> row h' f.
Proof using. intros Hs (sub & rows & H1 & H2 & H3). exists sub, rows. auto. Qed.

(** *** The batch *)

Definition good_batch (h : history) (b : scanBatch) : Prop := Forall (P h) (infos (updateBatch b)) /\ Forall (D h) (toRemove b).
Lemma batch_mono h h' (b : scanBatch) : h ⊆ h' -> good_batch h b -> good_batch h' b.
Proof using P_mono D_mono. intros Hs [H1 H2]. split; eapply Forall_impl; [|exact H1| |exact H2]; cbn; eauto. Qed.
(** Programs that keep the batch good. *)
Abbreviation Keeps h p := (Safe p h (fun h' r => good_batch h' (r.1))).

Lemma good_step h e (b : scanBatch) : good_batch h b -> good_batch (e :: h) b.
Proof using P_mono D_mono. apply batch_mono. intros x Hx. by right. Qed.
Hint Resolve good_step : core.

Lemma scan_flush_spec (b : @FileInfoBatch disk_err (gset bytes)) h : Forall (P h) (infos b) ->
  Safe (prog_Flush scan_flushFn b) h (fun _ r => infos r.1 = infos b \/ infos r.1 = []).
Proof using P_mono.
  intros H. unfold prog_Flush, scan_flushFn, updateLocals. case_match; [by left|]. destruct (is_nil (infos b)) eqn:En; [by left|].
  next. split; [done|]. intros [e|] _; next; [by left|]. split.
  { cbn [writes]. eapply Forall_impl; [|exact H]. intros f Hf. apply (P_mono h); [intros x Hx; by right|exact Hf]. }
  intros [e|] _; next; [by right|]. split; [done|]. intros [] _. split; [done|]. intros e _. by right.
Qed.
Lemma keep_infos h (b : scanBatch) (ub : @FileInfoBatch disk_err (gset bytes)) : good_batch h b -> infos ub = infos (updateBatch b) \/ infos ub = [] -> good_batch h (set_updateBatch ub b).
Proof using. intros [H1 H2] E. split; [|done]. cbn. destruct E as [->| ->]; [done|constructor]. Qed.
Lemma flushToRemove_spec (b : scanBatch) h : good_batch h b -> Keeps h (flushToRemove b).
Proof using P_mono D_mono.
  intros Hb. unfold flushToRemove. destruct (toRemove b) as [|n ns] eqn:E; [done|]. next.
  split; [cbn [writes]; rewrite <- E; apply Hb|]. intros [e|] _; next; [auto|]. apply good_step. by split; [apply Hb|].
Qed.
Lemma flush_step (b : scanBatch) h (fl : prog (@FileInfoBatch disk_err (gset bytes) * option disk_err)) : good_batch h b ->
  Safe fl h (fun _ r => infos r.1 = infos (updateBatch b) \/ infos r.1 = []) ->
  Keeps h (u ← fl; mret (set_updateBatch u.1 b, u.2)).
Proof using P_mono D_mono.
  intros Hb Hf. eapply safe_call; [exact Hf|]. intros h' r Hs Hr. next. cbn. apply keep_infos; [by eapply batch_mono|done].
Qed.
Lemma scanBatch_Flush_spec (b : scanBatch) h : good_batch h b -> Keeps h (scanBatch_Flush b).
Proof using P_mono D_mono.
  intros Hb. unfold scanBatch_Flush. eapply safe_seq; [by apply flushToRemove_spec|]. intros h' [b' [e|] ] Hb'; [done|].
  apply flush_step; [done|]. apply scan_flush_spec, Hb'.
Qed.
Lemma FlushIfFull_spec (b : scanBatch) h : good_batch h b -> Keeps h (scanBatch_FlushIfFull b).
Proof using P_mono D_mono.
  intros Hb. unfold scanBatch_FlushIfFull. eapply safe_seq with (P := fun h' r => good_batch h' r.1).
  { case_bool; [by apply flushToRemove_spec|done]. }
  intros h' [b' [e|] ] Hb'; [done|]. apply flush_step; [done|]. unfold prog_FlushIfFull. case_match; [by left|].
  destruct (batch_Full _); [apply scan_flush_spec, Hb'|by left].
Qed.
Lemma Append_spec fi (b : scanBatch) h : good_batch h b -> P h fi -> Safe (scanBatch_Append protoSize fi b) h (fun h' b' => good_batch h' b').
Proof using.
  clear. intros Hb Hf. unfold scanBatch_Append, prog_Append, batch_Append. destruct (berror (updateBatch b)); [next; by split|].
  destruct (ToWire true fi); next; [|by split..]. split; [|apply Hb]. cbn. apply Forall_app. split; [apply Hb|by apply Forall_singleton].
Qed.
Lemma Update_spec fi (b : scanBatch) h : good_batch h b -> P h fi -> Keeps h (Update_ protoSize samePlatform cfg fi b).
Proof using P_mono D_mono P_global D_update.
  intros Hb Hf. unfold Update_. destruct (isEncrypted _ && _ && _) eqn:Ee.
  - apply andb_true_iff in Ee as [Ee _]. apply andb_true_iff in Ee as [Ee _]. next. split; [done|]. intros [e|names] _; next; [auto|].
    destruct names as [|]; next; [|auto]. split; [split; [done|left]|]. intros e _. cbn. auto.
  - assert (forall h' f, h ⊆ h' -> P h' f -> Keeps h' (b ← scanBatch_Append protoSize f b; mret (b, inr true : disk_err + bool))) as Happ.
    { intros h' f Hs Hf'. eapply safe_call; [apply Append_spec; [by eapply batch_mono|done]|]. intros h2 b2 _ H2. next. exact H2. }
    apply safe_do; [done|]. intros r Hr. assert (h ⊆ Event (GetGlobalFile (Name fi)) r :: h) as Hs by (intros x Hx; by right).
    destruct r as [e|[gf ok] ]; [next; auto|]. assert (P (Event (GetGlobalFile (Name fi)) (inr (gf, ok)) :: h) fi) as Hf' by eauto.
    destruct ok; [|by apply Happ]. assert (is_global (Event (GetGlobalFile (Name fi)) (inr (gf, true)) :: h) (Name fi) gf) as Hg by (split; [left|done]).
    destruct (IsReceiveOnlyChanged gf) eqn:Er.
    + destruct (IsDeleted fi) eqn:Ed; [|by apply Happ]. next. apply batch_mono with (h' := Event (GetGlobalFile (Name fi)) (inr (gf, true)) :: h) in Hb; [|done].
      destruct Hb as [H1 H2]. split; [done|]. cbn. apply Forall_app. split; [done|]. apply Forall_singleton. by eapply D_update.
    + destruct (isReceive _ && _) eqn:Eq; [|by apply Happ]. apply andb_true_iff in Eq as [_ Eq]. apply Happ; [done|]. by eapply P_global.
Qed.

(** *** Passes *)

Abbreviation Good h p Q := (Safe p h (fun h' r => good_batch h' r.1.1 /\ forall a, r.2 = Ret a -> Q h' a)).
Lemma then_spec {A B} (p : prog (scanBatch * Z * outcome disk_err A)) (f : scanBatch -> Z -> A -> prog (scanBatch * Z * outcome disk_err B)) h
    (Q : history -> A -> Prop) R :
  Good h p Q -> (forall h' b c a, h ⊆ h' -> good_batch h' b -> Q h' a -> Good h' (f b c a) R) -> Good h (pass_then p f) R.
Proof using.
  clear. intros Hp Hf. unfold pass_then. eapply safe_call; [exact Hp|]. intros h' [ [b c] [a|e| |] ] Hs [Hb HQ]; [|by next..].
  apply Hf; auto.
Qed.
Lemma done_spec {A} b c (a : A) h (Q : history -> A -> Prop) : good_batch h b -> Q h a -> Good h (done b c a) Q.
Proof using. clear. intros Hb HQ. split; [done|]. by intros a' [= <-]. Qed.
(** A pass of which only the batch matters. *)
Abbreviation Fine h p := (Good h p (fun _ _ => True)).

Lemma count_spec fi b c h : good_batch h b -> P h fi -> Fine h (count_update protoSize samePlatform cfg fi b c).
Proof using P_mono D_mono P_global D_update.
  intros Hb Hf. unfold count_update. eapply safe_seq; [by apply Update_spec|]. intros h' [b' [e|ok] ] Hb'; next; by split.
Qed.
Lemma checkFull_spec b h : good_batch h b -> Fine h (checkFull b).
Proof using P_mono D_mono.
  intros Hb. unfold checkFull. eapply safe_seq; [by apply FlushIfFull_spec|]. intros h' [b' [e|] ] Hb'; next; by split.
Qed.
Lemma ignore_all_spec fs b c h : good_batch h b -> Forall (row h) fs -> Fine h (ignore_all protoSize samePlatform cfg fs b c).
Proof using P_mono D_mono P_global D_update P_ignored.
  revert b c h. induction fs as [|f fs IH]; intros b c h Hb Hr; [by apply done_spec|]. cbn [ignore_all].
  eapply then_spec; [apply count_spec; [done|apply P_ignored; by apply Forall_inv in Hr]|]. intros h1 b1 c1 _ Hs1 Hb1 _.
  eapply then_spec; [by apply checkFull_spec|]. intros h2 b2 c2 _ Hs2 Hb2 _. apply IH; [done|].
  apply Forall_inv_tail in Hr. eapply Forall_impl; [|exact Hr]. intros x Hx. eapply row_mono; [|exact Hx]. by trans h1.
Qed.

Lemma rename_spec file b rows h : Safe (rename_loop ignores cfg file b rows) h (fun h' r => forall nf, r = Some nf -> P h' nf).
Proof using P_renamed lstat_errors.
  revert h. induction rows as [|[e|fi] rows IH]; intros h; [done..|]. cbn [rename_loop]. apply safe_do; [done|]. intros [e|] _; [done|].
  case_bool; [apply IH|]. eapply safe_call; [by apply osutil_IsDeleted_spec|]. intros h' deleted Hs Hd. destruct deleted; cbn [negb]; [|apply IH].
  apply safe_do; [done|]. intros r Hr. destruct r as [e|[nf [] ] ]; [apply IH| |apply IH]. case_bool; [apply IH|].
  next. split; [done|]. intros now _ x [= <-]. apply P_renamed with (n := Name fi); [right; left|done|].
  eapply seen_gone_mono; [|by apply Hd]. intros x Hx. by do 2 right.
Qed.
Lemma findRename_spec file b h : Safe (findRename ignores cfg file b) h (fun h' r => forall nf, r = Some nf -> P h' nf).
Proof using P_renamed lstat_errors. unfold findRename. case_bool; [done|]. apply safe_do; [done|]. intros rows _. apply rename_spec. Qed.

Lemma scan_result_spec file b c h : good_batch h b -> P h file -> Fine h (scan_result protoSize samePlatform ignores cfg file b c).
Proof using P_mono D_mono P_global D_update P_renamed lstat_errors.
  intros Hb Hf. unfold scan_result. eapply then_spec; [by apply count_spec|]. intros h1 b1 c1 _ Hs1 Hb1 _.
  case_bool; [by apply done_spec|]. eapply safe_call; [apply findRename_spec|]. intros h2 [nf|] Hs2 Hn; [|apply done_spec; [by eapply batch_mono|done] ].
  eapply then_spec; [apply count_spec; [by eapply batch_mono|by apply Hn]|]. intros h3 b3 c3 [] Hs3 Hb3 _; by apply done_spec.
Qed.
Lemma drain_spec fuel h : Safe (drain fuel) h (fun _ _ => True).
Proof using. clear. revert h. induction fuel as [|fuel IH]; intros h; [done|]. cbn [drain]. apply safe_do; [done|]. intros [r|] _; [apply IH|done]. Qed.
Lemma scan_results_spec fuel b c scanned h : good_batch h b -> Fine h (scan_results protoSize samePlatform ignores cfg fuel b c scanned).
Proof using P_mono D_mono P_global D_update P_renamed P_result lstat_errors.
  revert b c scanned h. induction fuel as [|fuel IH]; intros b c scanned h Hb; [by split|]. cbn [scan_results].
  apply safe_do; [done|]. intros r Hr. destruct r as [ [ [path err]|file]|]; [| |apply done_spec; auto].
  - apply safe_do; [done|]. intros [] _. apply IH. auto.
  - assert (P (Event NextResult (Some (inr file)) :: h) file) as Hf by (apply P_result; [left|done]).
    eapply safe_call; [by apply FlushIfFull_spec, good_step|]. intros h1 [b1 [e|] ] Hs1 Hb1.
    + eapply safe_call; [apply drain_spec|]. intros h2 [] Hs2 _. next. split; [by eapply batch_mono|done].
    + eapply then_spec; [apply scan_result_spec; [done|by eapply P_mono]|]. intros h2 b2 c2 _ Hs2 Hb2 _. by apply IH.
Qed.
Lemma ChangedAndNew_spec fuel subs b h : good_batch h b -> Fine h (scanSubdirsChangedAndNew protoSize samePlatform ignores cfg fuel subs b).
Proof using P_mono D_mono P_global D_update P_renamed P_result lstat_errors.
  intros Hb. eapply then_spec; [by apply scan_results_spec|]. intros h1 b1 c1 scanned Hs1 Hb1 _.
  eapply safe_call with (P := fun _ _ => True). { case_bool; [by split|done]. } intros h2 [] Hs2 _. apply done_spec; [by eapply batch_mono|done].
Qed.

Lemma dropIncrementalPath_spec n h : Safe (dropIncrementalPath cfg n) h (fun _ _ => True).
Proof using. clear. unfold dropIncrementalPath. repeat case_bool; next; repeat (split; [done|]; intros); done. Qed.
Definition good_waiting h (w : waiting) : Prop := Forall (row h) (toIgnore w).
Lemma waiting_mono h h' w : h ⊆ h' -> good_waiting h w -> good_waiting h' w.
Proof using. clear. intros Hs Hw. eapply Forall_impl; [|exact Hw]. intros f. by apply row_mono. Qed.

Lemma check_deleted_spec fi b w c h : good_batch h b -> row h fi -> good_waiting h w ->
  Good h (check_deleted protoSize samePlatform cfg fi b w c) good_waiting.
Proof using P_mono D_mono P_global D_update P_deleted lstat_errors.
  intros Hb Hr Hw. unfold check_deleted. eapply safe_call; [by apply osutil_IsDeleted_spec|]. intros h1 deleted Hs1 Hd.
  assert (good_waiting h1 not_waiting) as Hn by constructor.
  destruct deleted; cbn [negb]; [|apply done_spec; [by eapply batch_mono|case_bool; [by eapply waiting_mono|done] ] ].
  apply safe_do; [done|]. intros now _. eapply safe_call; [apply dropIncrementalPath_spec|]. intros h2 [] Hs2 _.
  assert (h ⊆ h2) as Hs by (trans h1; [done|]; by eapply sub_cons).
  eapply then_spec; [apply count_spec; [by eapply batch_mono|]|].
  - assert (row h2 fi) as Hr2 by (by eapply row_mono). assert (seen_gone h2 (Name fi)) as Hg.
    { eapply seen_gone_mono; [|by apply Hd]. by eapply sub_cons. }
    destruct (P_deleted h2 fi now Hr2 Hg) as [H1 H2]. by case_bool.
  - intros h3 b3 c3 _ Hs3 Hb3 _. apply done_spec; [done|]. eapply waiting_mono; [|exact Hw]. by trans h2.
Qed.
Lemma check_receive_only_spec fi b w c h : good_batch h b -> row h fi -> Deleted fi = true -> good_waiting h w ->
  Good h (check_receive_only protoSize samePlatform cfg fi b w c) good_waiting.
Proof using P_mono D_mono P_global D_update P_cleared D_row.
  intros Hb Hr Hd Hw. unfold check_receive_only.
  assert (forall h', h ⊆ h' -> Good h' (pass_then (count_update protoSize samePlatform cfg
     (set_LocalFlags (clear_flags (LocalFlags fi) FlagLocalReceiveOnly) fi) b c) (fun b c _ => done b c w)) good_waiting) as Hclear.
  { intros h' Hs. eapply then_spec; [apply count_spec; [by eapply batch_mono|apply P_cleared; [by eapply row_mono|done] ]|].
    intros h3 b3 c3 _ Hs3 Hb3 _. apply done_spec; [done|]. eapply waiting_mono; [|exact Hw]. by trans h'. }
  case_bool; [|by apply Hclear]. apply safe_do; [done|]. intros r Hp.
  assert (h ⊆ Event (GetGlobalFile (Name fi)) r :: h) as Hs by (intros x Hx; by right).
  assert (good_waiting (Event (GetGlobalFile (Name fi)) r :: h) w) as Hw' by (by eapply waiting_mono).
  destruct r as [e|[gf ok] ]; [next; by split; [auto|]|]. destruct ok; [|by apply done_spec; auto]. cbn [negb].
  destruct (IsReceiveOnlyChanged gf) eqn:Er; [|case_bool; [by apply Hclear|by apply done_spec; auto] ].
  apply done_spec; [|done]. destruct (batch_mono _ _ _ Hs Hb) as [H1 H2]. split; [done|]. cbn. apply Forall_app. split; [done|].
  apply Forall_singleton. eapply D_row; [by eapply row_mono|done| |exact Er]. split; [left|done].
Qed.
Lemma known_item_spec fi b w c h : good_batch h b -> row h fi -> good_waiting h w ->
  Good h (known_item protoSize samePlatform ignores cfg fi b w c) good_waiting.
Proof using P_mono D_mono P_global D_update P_deleted P_ignored P_cleared D_row lstat_errors.
  intros Hb Hr Hw. unfold known_item. case_bool; [by apply done_spec|]. case_bool.
  - case_bool.
    + apply done_spec; [done|]. apply Forall_app. split; [done|by apply Forall_singleton].
    + eapply then_spec; [apply count_spec; [done|by apply P_ignored]|]. intros h3 b3 c3 _ Hs3 Hb3 _. apply done_spec; [done|]. by eapply waiting_mono.
  - destruct (IsIgnored fi || _); [by apply check_deleted_spec|]. destruct (IsDeleted fi) eqn:Ed; [|by apply done_spec].
    cbn [andb]. case_bool; [by apply check_receive_only_spec|by apply done_spec].
Qed.
Lemma known_items_spec rows b c w h : good_batch h b -> (forall fi, inr fi ∈ rows -> row h fi) -> good_waiting h w ->
  Good h (known_items protoSize samePlatform ignores cfg rows b c w) (fun h' w => forall w', w = Some w' -> good_waiting h' w').
Proof using P_mono D_mono P_global D_update P_deleted P_ignored P_cleared D_row lstat_errors.
  revert b c w h. induction rows as [|[e|fi] rows IH]; intros b c w h Hb Hr Hw; cbn [known_items].
  - apply done_spec; [done|]. by intros w' [= <-].
  - by split.
  - apply safe_do; [done|]. intros [e|] _; [apply done_spec; auto; done|].
    assert (h ⊆ Event CtxErr None :: h) as Hs0 by (intros x Hx; by right).
    eapply then_spec; [apply checkFull_spec; auto|]. intros h1 b1 c1 _ Hs1 Hb1 _. assert (h ⊆ h1) as Hs by (by eapply sub_cons). clear Hs0 Hs1.
    set (leaves := _ && _). eapply then_spec with (Q := fun _ _ => True).
    { destruct leaves; [apply ignore_all_spec; [done|by eapply waiting_mono]|by apply done_spec]. }
    intros h2 b2 c2 _ Hs2 Hb2 _. assert (h ⊆ h2) as Hs' by (by trans h1).
    eapply then_spec; [apply known_item_spec; [done|eapply row_mono; [exact Hs'|apply Hr; left]|destruct leaves; [constructor|by eapply waiting_mono] ]|].
    intros h3 b3 c3 w3 Hs3 Hb3 Hw3. apply IH; [done| |done]. intros f Hf. eapply row_mono; [|apply Hr; by right]. by trans h2.
Qed.
Lemma known_subs_spec subs b w c h : good_batch h b -> good_waiting h w ->
  Fine h (known_subs protoSize samePlatform ignores cfg subs b w c).
Proof using P_mono D_mono P_global D_update P_deleted P_ignored P_cleared D_row lstat_errors.
  revert b w c h. induction subs as [|sub subs IH]; intros b w c h Hb Hw; cbn [known_subs]; [by apply done_spec|].
  apply safe_do; [done|]. intros rows Hp. assert (h ⊆ Event (AllLocalFilesWithPrefix sub) rows :: h) as Hs by (intros x Hx; by right).
  eapply then_spec; [apply known_items_spec; [auto| |by eapply waiting_mono]|].
  { intros fi Hf. exists sub, rows. split_and!; [left|done|done]. }
  intros h1 b1 c1 [w1|] Hs1 Hb1 Hw1; [|by apply done_spec]. specialize (Hw1 w1 eq_refl).
  apply safe_do; [done|]. intros [e|] _; [next; split; [auto|done]|]. eapply then_spec; [apply ignore_all_spec; [auto|]|].
  - eapply waiting_mono; [|exact Hw1]. intros x Hx. by right.
  - intros h2 b2 c2 _ Hs2 Hb2 _. apply IH; [done|constructor].
Qed.

(** *** The scan *)

Lemma flush_then_spec {A} b c (f : scanBatch -> prog (scanBatch * Z * outcome disk_err A)) h (Q : history -> A -> Prop) :
  good_batch h b -> (forall h' b', h ⊆ h' -> good_batch h' b' -> Good h' (f b') Q) -> Good h (flush_then b c f) Q.
Proof using P_mono D_mono.
  intros Hb Hf. unfold flush_then. eapply safe_call; [by apply scanBatch_Flush_spec|]. intros h' [b' [e|] ] Hs Hb'; [by next|by apply Hf].
Qed.
Lemma scan_both_spec fuel subs h : Fine h (scan_both protoSize samePlatform ignores cfg fuel subs).
Proof using P_mono D_mono P_global D_update P_deleted P_ignored P_cleared P_renamed P_result D_row lstat_errors.
  unfold scan_both. eapply then_spec; [by apply ChangedAndNew_spec|]. intros h1 b1 c1 _ Hs1 Hb1 _.
  apply flush_then_spec; [done|]. intros h2 b2 Hs2 Hb2. eapply safe_call; [apply known_subs_spec; [exact Hb2|constructor]|].
  intros h3 [ [b3 c3] [ []|e| |] ] Hs3 [Hb3 _]; [|by next..]. apply flush_then_spec; [done|]. intros h4 b4 Hs4 Hb4.
  apply safe_do; [done|]. intros [] _. apply done_spec; [auto|done].
Qed.
Lemma health_spec h : Safe (getHealthErrorAndLoadIgnores cfg) h (fun _ _ => True).
Proof using. clear. unfold getHealthErrorAndLoadIgnores. apply safe_do; [done|]. intros [e|] _; [done|]. case_bool; [done|]. by split. Qed.
Lemma climb_safe known fuel dir h : (forall n h, Safe (known n) h (fun _ _ => True)) -> Safe (climb known fuel dir) h (fun _ _ => True).
Proof using.
  clear. intros Hk. revert dir h. induction fuel as [|fuel IH]; intros dir h; cbn [climb]; (case_bool; [done|]); [done|].
  eapply safe_call; [apply Hk|]. intros h' [] _ _; [done|apply IH].
Qed.
Lemma unifySubs_safe dirs h : Safe (unifySubs is_known dirs) h (fun _ _ => True).
Proof using.
  clear. unfold unifySubs. destruct (sort_asc dirs) as [|d ds]; [done|]. case_bool; [done|]. generalize (d :: ds) as l. intros l.
  generalize (gostr "./") as prev. revert h. induction l as [|x l IH]; intros h prev; [done|]. cbn [unify_loop]. destruct (Canonicalize x); try apply IH.
  case_bool; [apply IH|]. eapply safe_call; [apply climb_safe; intros n h'; split; [done|]; by intros [e|[f ok] ]|].
  intros h1 dir _ _. eapply safe_call; [apply IH|]. by intros.
Qed.
Context (NativeFilename : bytes -> bytes).
Lemma scanSubdirs_safe fuel subs h : Safe (scanSubdirs protoSize samePlatform ignores cfg NativeFilename fuel subs) h (fun _ _ => True).
Proof using P_mono D_mono P_global D_update P_deleted P_ignored P_cleared P_renamed P_result D_row lstat_errors.
  unfold scanSubdirs. apply safe_do; [done|]. intros old _. eapply safe_call; [apply health_spec|]. intros h1 [e|] _ _; [done|].
  eapply safe_call with (P := fun _ _ => True).
  - apply safe_do; [done|]. intros [e|] _; [done|]. eapply safe_call; [apply unifySubs_safe|]. intros h2 subs' _ _.
    apply safe_do; [done|]. intros [] _. eapply safe_call; [apply scan_both_spec|]. intros h3 [ [b c] e] _ _.
    eapply safe_call with (P := fun _ _ => True); [by case_bool; [split|]|]. by intros.
  - intros h2 r _ _. apply safe_do; [done|]. intros new _.
    eapply safe_call with (P := fun _ _ => True); [case_bool; [done|]; next; repeat (split; [done|]; intros); done|]. by intros.
Qed.
End Written.

(** ** Deletions are observed *)

Section Deletions.
Context (protoSize : bep_FileInfo -> Z) (samePlatform : PlatformData -> PlatformData -> bool) (ignores : bytes -> Z).
Context (cfg : folderScanCfg) (NativeFilename : bytes -> bytes).

(** The database had it as deleted already. *)
Definition was_deleted (h : history) (n : bytes) : Prop :=
  exists sub rows f, Event (AllLocalFilesWithPrefix sub) rows ∈ h /\ inr f ∈ rows /\ Name f = n /\ Deleted f = true.
Definition deletion_known (h : history) (f : FileInfo) : Prop :=
  Deleted f = true -> seen_gone h (Name f) \/ was_deleted h (Name f).
(** A deleted item may be dropped if the global one is this device's own change. *)
Definition may_drop (h : history) (n : bytes) : Prop :=
  (seen_gone h n \/ was_deleted h n) /\
  exists gf, Event (GetGlobalFile n) (inr (gf, true)) ∈ h /\ IsReceiveOnlyChanged gf = true.

(** What is assumed of the answers: the walk finds items that are there, a record has
    the name that was asked for, and [Lstat] does not give the errors of [TraversesSymlink]. *)
Definition scan_plausible (c : call) (r : answer c) : Prop :=
  lstat_plain r /\
  match c return answer c -> Prop with
  | NextResult => fun r => match r with Some (inr f) => Deleted f = false | _ => True end
  | GetDeviceFile n => fun r => match r with inr (f, true) => Name f = n | _ => True end
  | _ => fun _ => True
  end r.

Lemma was_deleted_mono h h' n : h ⊆ h' -> was_deleted h n -> was_deleted h' n.
Proof. intros Hs (sub & rows & f & H & ?). exists sub, rows, f. auto. Qed.
Lemma deletion_mono h h' n : h ⊆ h' -> seen_gone h n \/ was_deleted h n -> seen_gone h' n \/ was_deleted h' n.
Proof. intros Hs [H|H]; [left; by eapply seen_gone_mono|right; by eapply was_deleted_mono]. Qed.
Lemma row_was_deleted plausible h f : row plausible h f -> Deleted f = true -> was_deleted h (Name f).
Proof. intros (sub & rows & H1 & _ & H2) Hd. by exists sub, rows, f. Qed.
Lemma equivalent_same f g comp : IsEquivalentOptional false samePlatform f g comp = true -> Name f = Name g /\ Deleted f = Deleted g.
Proof.
  unfold IsEquivalentOptional, isEquivalent. case_bool; [done|]. cbv beta zeta.
  match goal with |- (if ?b then _ else _) = _ -> _ => destruct b eqn:E; [done|] end. intros _.
  rewrite !orb_false_iff in E. destruct E as [ [ [E1 _] E2] _]. apply negb_false_iff in E1, E2.
  apply bool_decide_eq_true in E1. apply eqb_prop in E2. done.
Qed.

(** C15: What a scan does with its results and with the items of the database,
    the walk aside: it records an item as deleted only if the database had it
    as deleted, or after the item or a directory above it was seen not to be
    there (or not to be a directory); it drops records only of such items, whose
    global version is a receive-only change; and itself it removes nothing from
    the disk but, in an encrypted folder, directories that were read as empty.
    The results of the walk are answers here, of items that exist: the walk, in
    [ScanWalk], has its own effects on the disk ([normalization_overwrites], and
    the removal of temporary files that expired). *)
Theorem deletions_observed fuel subs h r
    (Hrun : runs (scanSubdirs protoSize samePlatform ignores cfg NativeFilename fuel subs) [] h r)
    (Hp : all_plausible scan_plausible h) :
  all_allowed (writes cfg deletion_known may_drop) h.
Proof.
  assert (safe (writes cfg deletion_known may_drop) scan_plausible
    (scanSubdirs protoSize samePlatform ignores cfg NativeFilename fuel subs) [] (fun _ _ => True)) as Hs.
  { apply scanSubdirs_safe.
    - intros h1 h2 f Hs Hf Hd. eapply deletion_mono; [exact Hs|]. by apply Hf.
    - intros h1 h2 n Hs [H1 (gf & H2 & H3)]. split; [by eapply deletion_mono|]. exists gf. auto.
    - by intros c r' [H _].
    - intros h1 f _ [_ H] Hd. cbn in H. congruence.
    - intros h1 f Hr Hd. right. change (was_deleted h1 (Name f)). by eapply row_was_deleted.
    - intros h1 f now _ Hg. split; intros _; by left.
    - intros h1 f Hr Hd _. right. change (was_deleted h1 (Name f)). by eapply row_was_deleted.
    - intros h1 n f now _ [_ Hn] Hg _. left. cbn in Hn. change (seen_gone h1 (Name f)). by rewrite Hn.
    - intros h1 f gf Hf _ He Hd. apply equivalent_same in He as [E1 E2]. rewrite E1. apply Hf. congruence.
    - intros h1 f gf Hf Hd [Hg _] Hro. split; [by apply Hf|by exists gf].
    - intros h1 f gf Hr Hd [Hg _] Hro. split; [right; by eapply row_was_deleted|by exists gf]. }
  by eapply safe_runs in Hs as [Ha _].
Qed.
End Deletions.

(** *** A folder with a file that was removed, and one with an ignored directory *)

Definition ex_record (name : bytes) (typ : Z) : FileInfo :=
  {| Name := name; FSize := 5; ModifiedS := 1000; ModifiedBy := 7; Version := {| Counters := [] |}; Sequence := 0;
     Blocks := []; SymlinkTarget := []; BlocksHash := []; PreviousBlocksHash := []; Encrypted := [];
     Platform := {| Unix := None; Windows := None; Linux := None; Darwin := None; FreeBSD := None; NetBSD := None |};
     Type_ := typ; Permissions := 420; ModifiedNs := 0; RawBlockSize := 0; LocalFlags := 0;
     EncryptionTrailerSize := 0; Deleted := false; NoPermissions := false; truncated := false |}.
Definition ex_stat (dir : bool) : Stat :=
  {| st_IsDir := dir; st_IsSymlink := false; st_IsRegular := negb dir; st_Mode := 420; st_Size := 5;
     st_ModTime_Unix := 1000; st_ModTime_Nanosecond := 7; st_Owner := 0; st_Group := 0 |}.
Definition ex_scan_cfg : folderScanCfg :=
  {| sf_Type := FolderTypeSendReceive; sf_IgnorePerms := false; sf_SyncOwnership := false; sf_SendOwnership := false;
     sf_SyncXattrs := false; sf_SendXattrs := false; sf_shortID := 7; sf_modTimeWindow := 0; sf_IncrementalScan := false;
     sf_incrementalCache := false; sf_incrementalSnapshot := false |}.
(** No results of the walk, the rows of the database, and the items on disk. *)
Definition ex_respond (rows : list FileInfo) (disk : bytes -> option Stat) (cancelled : bool) (c : call) : option (answer c) :=
  match c return option (answer c) with
  | HealthError | LoadIgnores | TakeToken | LocalSequence | UpdateLocals _ | DropFilesNamed _ => Some None
  | CtxErr => Some (if cancelled then Some ErrCanceled else None)
  | IgnoresHash => Some []
  | ClearScanErrors _ | SchedulePull | ScanCompleted | DropForcedRescans _ => Some tt
  | NextResult => Some None
  | AllLocalFilesWithPrefix _ => Some (inr <$> rows)
  | Lstat n => Some (match disk n with Some st => inr st | None => inl ErrNotExist end)
  | GetGlobalFile _ => Some (inr (emptyFileInfo, false))
  | Now_unix => Some 2000
  | _ => None
  end.
Definition ex_scan ignores rows disk cancelled : option (history * outcome disk_err unit) :=
  exec (ex_respond rows disk cancelled)
    (scanSubdirs (fun _ => 0) (fun _ _ => true) ignores ex_scan_cfg (fun n => n) 1 []) [].
Definition written (h : history) : list (bytes * bool * Z) :=
  flat_map (fun e => match ev_call e with UpdateLocals fs => map (fun f => (Name f, Deleted f, LocalFlags f)) fs | _ => [] end) h.
Definition ex_disk (l : list (bytes * Stat)) (n : bytes) : option Stat :=
  snd <$> List.find (fun x => bool_decide (x.1 = n)) l.
Definition ex_gone := ex_scan (fun _ => 0) [ex_record (gostr "gone.txt") FileInfoTypeFile; ex_record (gostr "here.txt") FileInfoTypeFile]
  (ex_disk [(gostr "here.txt", ex_stat false)]) false.
Definition ex_gone_history : history := match ex_gone with Some (h, _) => h | None => [] end.
Lemma ex_gone_run : ex_gone = Some (ex_gone_history, Ret tt).
Proof. by vm_compute. Qed.

Theorem deletions_observed_witness :
  written ex_gone_history = [(gostr "gone.txt", true, 0)] /\
  all_allowed (writes ex_scan_cfg deletion_known may_drop) ex_gone_history.
Proof.
  split; [by vm_compute|].
  apply (deletions_observed (fun _ => 0) (fun _ _ => true) (fun _ => 0) ex_scan_cfg (fun n => n) 1 [] ex_gone_history (Ret tt)).
  - eapply exec_runs, ex_gone_run.
  - eapply exec_plausible; [|exact ex_gone_run|constructor].
    intros c r. destruct c; cbn [ex_respond]; try done; intros [= <-]; (split; [|done]); try done. cbn [lstat_plain]. by destruct (ex_disk _ _).
Defined.

(** The directory [a] is ignored, [a/c] in it is not, so [a] must be kept.  The query gives the
    items of the database in no particular order: if another one comes between the two, as [a-b]
    does even in the order of bytes, the directory is marked as ignored, and the next walk
    finds it again. *)
Lemma parent_ignored_early :
  let ign (n : bytes) := if bool_decide (n = gostr "a") then ignoreBit else 0 in
  let disk := ex_disk [(gostr "a", ex_stat true); (gostr "a-b", ex_stat false); (gostr "a/c", ex_stat false)] in
  (written ∘ fst <$> ex_scan ign [ex_record (gostr "a") FileInfoTypeDirectory; ex_record (gostr "a/c") FileInfoTypeFile] disk false
   = Some []) /\
  (written ∘ fst <$> ex_scan ign [ex_record (gostr "a") FileInfoTypeDirectory; ex_record (gostr "a-b") FileInfoTypeFile;
                                  ex_record (gostr "a/c") FileInfoTypeFile] disk false
   = Some [(gostr "a", false, FlagLocalIgnored)]).
Proof. by vm_compute. Qed.

(** A scan that is cancelled in the pass over the database ends without an error, as a completed one. *)
Lemma cancelled_is_completed :
  match ex_scan (fun _ => 0) [ex_record (gostr "gone.txt") FileInfoTypeFile] (ex_disk []) true with
  | Some (h, r) => r = Ret tt /\ written h = [] /\ Event ScanCompleted tt ∈ h
  | None => False
  end.
Proof. vm_compute. split_and!; [done..|]. repeat constructor. Qed.
