(* ===== verification/FolderScanTypes.v ===== *)
(** * What a scan writes is accepted by other devices

    A device that sends a file which fails [checkFileInfoConsistency] loses its
    connections.  The records of a scan pass the check, here and after the wire,
    if the records of the database and the results of the walk do; and what the
    walk and the hashing do with an item that has a valid name gives such results.
    [ScanAccepted] puts this together for whole scans. *)
From Stdlib Require Import ZArith List Lia.
From Stdlib Require Import Strings.Byte.
From stdpp Require Import base list option gmap numbers tactics.
From S2P Require Import Prelude GoLib Vector FileInfo FileInfoWire PullQueue Paths Connection IndexHandler Disk PullItems ScanBlocks ScanWalk ScanItemProps FolderScan FolderScanProps FolderScanSafety.

#[local] Open Scope Z_scope.

Abbreviation consistent f := (checkFileInfoConsistency f = Ret tt).

(** The check after the one of the name. *)
Definition content_ok (f : FileInfo) : Prop :=
  (Deleted f = true -> Blocks f = []) /\ (Type_ f = FileInfoTypeDirectory -> Blocks f = []) /\
  (Deleted f = false -> IsInvalid f = false -> Type_ f = FileInfoTypeFile -> Blocks f <> []).
Lemma consistent_iff f : consistent f <-> checkFilename (Name f) = Ret tt /\ content_ok f.
Proof.
  unfold checkFileInfoConsistency, content_ok. destruct (checkFilename (Name f)) as [ []| | |]; [|by split; [|intros [? _] ]..].
  destruct (Deleted f), (Blocks f) as [|b bs]; cbn [is_nil negb andb];
    (destruct (Z.eqb_spec (Type_ f) FileInfoTypeDirectory) as [Ed|Ed]; destruct (Z.eqb_spec (Type_ f) FileInfoTypeFile) as [Ef|Ef];
     destruct (IsInvalid f); cbn [is_nil negb andb]; try (rewrite Ed in Ef; done); (split; [intros H|intros (_ & H1 & H2 & H3)]);
     try done; try (split_and!; [done|..]; congruence); exfalso; naive_solver).
Qed.

(** The file as another device reads it. *)
Definition on_the_wire (f g : FileInfo) : Prop := exists w, ToWire false (prepareFileInfoForIndex f) = Ret w /\ g = FileInfoFromWire w.
Lemma wire_consistent f g : consistent f -> on_the_wire f g -> consistent g.
Proof.
  rewrite !consistent_iff. intros [Hn (H1 & H2 & H3)] (w & Hw & ->). unfold ToWire in Hw. case_bool; [done|]. injection Hw as <-.
  unfold FileInfoFromWire, fileInfoFromWireWithBlocks, content_ok. cbn [Name Deleted Blocks Type_ wName wDeleted wBlocks wType prepareFileInfoForIndex].
  split; [done|]. split_and!; [by intros ->%H1|by intros ->%H2|]. unfold IsInvalid at 1. cbn [LocalFlags wInvalid].
  intros Hd Hi Ht. assert (IsInvalid f = false) as Hf by (change (IsInvalid (prepareFileInfoForIndex f)) with (IsInvalid f) in Hi; by destruct (IsInvalid f)).
  specialize (H3 Hd Hf Ht). by destruct (Blocks f).
Qed.

Lemma gone_content now cfg f : content_ok (local_deleted cfg now f) /\ content_ok (set_Version {| Counters := [] |} (local_deleted cfg now f)).
Proof. by repeat split. Qed.
Lemma ignored_content f : content_ok (SetIgnored f).
Proof. by repeat split. Qed.

(** ** The records of a scan *)

Section Accepted.
Context (protoSize : bep_FileInfo -> Z) (samePlatform : PlatformData -> PlatformData -> bool) (ignores : bytes -> Z).
Context (cfg : folderScanCfg) (NativeFilename : bytes -> bytes).

(** The records of the database and the results of the walk pass the check. *)
Definition answers_consistent (c : call) (r : answer c) : Prop :=
  lstat_plain r /\
  match c return answer c -> Prop with
  | NextResult => fun r => match r with Some (inr f) => consistent f | _ => True end
  | GetDeviceFile _ | GetGlobalFile _ => fun r => match r with inr (f, true) => consistent f | _ => True end
  | AllLocalFilesWithPrefix _ => fun r => forall f, inr f ∈ r -> consistent f
  | _ => fun _ => True
  end r.
Definition accepted (h : history) (f : FileInfo) : Prop := consistent f /\ forall g, on_the_wire f g -> consistent g.

(** Every record that a scan writes is accepted, if the answers are so because of what happened before. *)
Lemma scan_writes_accepted fuel subs h r
    (Hrun : runs (scanSubdirs protoSize samePlatform ignores cfg NativeFilename fuel subs) [] h r)
    (Hp : forall t t' c a, h = t' ++ Event c a :: t -> all_allowed (writes cfg accepted (fun _ _ => True)) t -> answers_consistent c a) :
  all_allowed (writes cfg accepted (fun _ _ => True)) h.
Proof.
  assert (forall h f, consistent f -> accepted h f) as Hacc by (intros h' f Hf; split; [done|]; intros g; by apply wire_consistent).
  assert (forall h f, row answers_consistent h f -> consistent f) as Hrow by (intros h' f (sub & rows & _ & [_ H] & Hf); by apply H).
  assert (safe (writes cfg accepted (fun _ _ => True)) answers_consistent
    (scanSubdirs protoSize samePlatform ignores cfg NativeFilename fuel subs) [] (fun _ _ => True)) as Hs.
  { apply scanSubdirs_safe; try done.
    - by intros c r' [H _].
    - intros h1 f _ [_ H]. by apply Hacc.
    - intros h1 f Hr%Hrow. apply Hacc. apply consistent_iff in Hr as [Hn _]. apply consistent_iff. split; [done|apply ignored_content].
    - intros h1 f now Hr%Hrow _. apply consistent_iff in Hr as [Hn _]. by split; apply Hacc, consistent_iff; (split; [done|apply gone_content]).
    - intros h1 f Hr%Hrow Hd. apply Hacc. apply consistent_iff in Hr as (Hn & H1 & H2 & H3). apply consistent_iff. split; [done|].
      split_and!; [done|done|]. cbn [Deleted set_LocalFlags]. congruence.
    - intros h1 n f now _ [_ Hf] _. apply Hacc. apply consistent_iff in Hf as [Hn _]. apply consistent_iff. split; [done|apply gone_content].
    - intros h1 f gf _ [_ [_ Hg] ] _. by apply Hacc. }
  by eapply safe_runs_after in Hs as [Ha _].
Qed.
End Accepted.

(** ** The results of the walk *)

Section Results.
Context (sha256 : bytes -> bytes) (samePlatform : PlatformData -> PlatformData -> bool) (cfg : walkerCfg).

(** A file that was hashed. *)
Definition hashed (f : FileInfo) : Prop :=
  checkFilename (Name f) = Ret tt /\ Type_ f = FileInfoTypeFile /\ Deleted f = false /\ Blocks f <> [].
Definition to_hash (f : FileInfo) : Prop :=
  checkFilename (Name f) = Ret tt /\ Type_ f = FileInfoTypeFile /\ Deleted f = false /\ Blocks f = [] /\ LocalFlags f = w_LocalFlags cfg.
Definition sends (h : history) (c : call) : Prop :=
  match c with
  | SendResult f => consistent f
  | SendHash f => to_hash f
  | CacheSet _ _ _ f => hashed f
  | _ => True
  end.
(** What is stored in the cache is what comes out, and a hash is of at least one block. *)
Definition results_plausible (c : call) : answer c -> Prop :=
  match c with
  | CacheLookup _ _ _ => fun r => match r with Some f => hashed f | None => True end
  | HashFile _ _ => fun r => match r with inr bs => bs <> [] | inl _ => True end
  | _ => fun _ => True
  end.
Abbreviation Safe := (safe sends results_plausible).

Lemma hashed_consistent f : hashed f -> consistent f.
Proof using. clear. intros (Hn & Ht & Hd & Hb). apply consistent_iff. split; [done|]. split_and!; intros; [congruence|by rewrite Ht in H|done]. Qed.
Lemma item_spec info path ownership xattrs h :
  Safe (CreateFileInfo info path ownership xattrs) h (fun _ r => forall f, r = inr f -> exists plat target, f = item_of info path plat target).
Proof using.
  clear. unfold CreateFileInfo. eapply safe_call with (P := fun _ _ => True); [by case_bool; [split|]|].
  intros h' [e|plat] _ _; next; [done|]. case_bool; next.
  - split; [done|]. intros [e|target] _; next; [done|]. intros f [= <-]. eauto.
  - intros f [= <-]. eauto.
Qed.
Lemma changed_same cur hasCur f g : changed samePlatform cfg cur hasCur f = Some g ->
  Name g = Name f /\ Type_ g = Type_ f /\ Deleted g = Deleted f /\ Blocks g = Blocks f /\ LocalFlags g = LocalFlags f.
Proof using. clear. unfold changed. repeat case_bool; try done; by intros [= <-]. Qed.
(** What is read of an item without its contents. *)
Definition bare (info : Stat) (path : bytes) (f : FileInfo) : Prop :=
  Name f = path /\ Deleted f = false /\ Blocks f = [] /\ LocalFlags f = w_LocalFlags cfg /\
  Type_ f = if st_IsSymlink info then FileInfoTypeSymlink else if st_IsDir info then FileInfoTypeDirectory else FileInfoTypeFile.
Lemma bare_item info path plat target now src : bare info path (updateFileInfo (w_ShortID cfg) (w_LocalFlags cfg) now (item_of info path plat target) src).
Proof using. unfold bare, updateFileInfo, item_of. by destruct (st_IsSymlink info), (st_IsDir info). Qed.
Lemma bare_changed info path f cur hasCur g : bare info path f -> changed samePlatform cfg cur hasCur f = Some g -> bare info path g.
Proof using. intros (H1 & H2 & H3 & H4 & H5) H. apply changed_same in H as (E1 & E2 & E3 & E4 & E5). unfold bare. by rewrite E1, E2, E3, E4, E5. Qed.
Lemma bare_sent info path f h : checkFilename path = Ret tt -> bare info path f -> st_IsSymlink info || st_IsDir info = true ->
  Safe (do_ (SendResult f)) h (fun _ _ => True).
Proof using.
  intros Hp (<- & H2 & H3 & H5 & H4) Hs. split; [|done]. cbn [sends]. apply consistent_iff. split; [done|]. split_and!; intros; try done.
  rewrite H4 in H1. by destruct (st_IsSymlink info), (st_IsDir info).
Qed.
Lemma fresh_spec info path cur h : Safe (freshItem cfg info path cur) h (fun _ r => forall f, r = inr f -> bare info path f).
Proof using.
  unfold freshItem. eapply safe_call; [apply item_spec|]. intros h' [e|f] _ H; next; [done|]. split; [done|]. intros now _ g [= <-].
  destruct (H f eq_refl) as (plat & target & ->). apply bare_item.
Qed.
Lemma current_spec path h : Safe (CurrentFile cfg path) h (fun _ _ => True).
Proof using. unfold CurrentFile. case_bool; [|done]. by split. Qed.
Lemma lookup_spec path info fresh h : Safe (lookupIncrementalCache cfg path info fresh) h (fun _ r => forall f, r = Some f -> exists c, hashed c /\ f = refresh_cached c fresh).
Proof using.
  unfold lookupIncrementalCache. repeat (case_bool; [done|]). apply safe_do; [done|]. intros size _. case_bool; [done|].
  apply safe_do; [done|]. intros [c|] Hc; [|done]. case_bool; [done|]. intros f [= <-]. by exists c.
Qed.

(** An item with a valid name gives a result that passes the check, or a file to be hashed. *)
Lemma item_results path info h : checkFilename path = Ret tt -> Safe (handleItem samePlatform cfg path info) h (fun _ _ => True).
Proof using.
  intros Hp. unfold handleItem. destruct (st_IsSymlink info) eqn:Es; [|destruct (st_IsDir info) eqn:Ed; [|case_bool; [|done] ] ].
  - eapply safe_call with (P := fun _ _ => True); [|by intros]. unfold walkSymlink. eapply safe_call; [apply item_spec|].
    intros h1 [e|f] _ Hf; [done|]. destruct (Hf f eq_refl) as (plat & target & ->). eapply safe_call; [apply current_spec|].
    intros h2 [cur hasCur] _ _. apply safe_do; [done|]. intros now _. destruct (changed _ _ _ _ _) as [g|] eqn:E; [|done].
    eapply (bare_sent info); [exact Hp|eapply bare_changed; [apply bare_item|exact E]|by rewrite Es].
  - unfold walkDir. eapply safe_call; [apply current_spec|]. intros h1 [cur hasCur] _ _. eapply safe_call; [apply fresh_spec|].
    intros h2 [e|f] _ Hf; [done|]. destruct (changed _ _ _ _ _) as [g|] eqn:E; [|done].
    eapply (bare_sent info); [exact Hp| |by rewrite Ed, orb_true_r]. eapply bare_changed; [|exact E]. exact (Hf f eq_refl).
  - unfold walkRegular. eapply safe_call; [apply current_spec|]. intros h1 [cur hasCur] _ _. eapply safe_call; [apply fresh_spec|].
    intros h2 [e|f] _ Hf; [done|]. destruct (changed _ _ _ _ _) as [g|] eqn:E; [|done].
    assert (bare info path g) as (G1 & G2 & G3 & G5 & G4) by (eapply bare_changed; [|exact E]; exact (Hf f eq_refl)). rewrite Es, Ed in G4.
    eapply safe_call; [apply lookup_spec|]. intros h3 [c|] _ Hc.
    + destruct (Hc c eq_refl) as (c' & (C1 & C2 & C3 & C4) & ->). split; [|done]. by apply hashed_consistent.
    + split; [|done]. cbn [sends]. unfold to_hash. by rewrite G1.
Qed.
(** Hashing it gives one, and so does a folder of encrypted files, which passes it on as a local change. *)
Lemma hash_results f h : to_hash f -> Safe (hash_item sha256 cfg f) h (fun _ _ => True).
Proof using.
  intros (Hn & Ht & Hd & _). unfold hash_item, IsDirectory. rewrite Ht, Hd. cbn [orb]. change (FileInfoTypeFile =? FileInfoTypeDirectory) with false. cbv iota.
  apply safe_do; [done|]. intros [e|bs] Hb; [by split|]. cbn in Hb.
  assert (hashed (set_hashed bs (BlocksHash_of sha256 bs) (fold_left (fun n b => n + Size b) bs 0) f)) as Hh by done.
  eapply safe_call with (P := fun _ _ => True); [case_bool; [by split|done]|]. intros h' [] _ _. apply safe_do; [by apply hashed_consistent|done].
Qed.
Lemma pass_results f h : to_hash f -> flag_IsInvalid (w_LocalFlags cfg) = true -> Safe (pass_item f) h (fun _ _ => True).
Proof using.
  clear. intros (Hn & Ht & Hd & Hb & Hl) Hi. assert (IsInvalid f = true) as Hv by (unfold IsInvalid; by rewrite Hl). apply safe_do; [|done]. cbn [sends]. apply consistent_iff. split; [done|]. by split_and!; intros; congruence.
Qed.
End Results.
