(* ===== verification/FolderScanCovers.v ===== *)
(** * Nothing that a scan finds is lost

    A scan that ends without an error and is not cancelled has handed every
    result of the walk to the database, and has settled every item of the
    database below the paths it scanned: it is recorded as ignored or deleted, or
    it was seen to be still there. *)
From Stdlib Require Import ZArith List Lia.
From Stdlib Require Import Strings.Byte.
From stdpp Require Import base list option gmap numbers tactics.
From S2P Require Import Prelude GoLib Vector FileInfo FileInfoWire PullQueue Paths Disk PullItems ScanWalk EncryptedNames FolderScan FolderScanProps FolderScanSafety.

#[local] Open Scope Z_scope.

(** ** Programs that read no results of the walk and no items of the database *)

Definition quiet (c : call) : bool := match c with NextResult | AllLocalFilesWithPrefix _ => false | _ => true end.
Fixpoint quiet_prog {A} (p : prog A) : Prop :=
  match p with Return _ => True | Call c k => quiet c = true /\ forall r, quiet_prog (k r) end.
Lemma quiet_bind {A B} (p : prog A) (f : A -> prog B) : quiet_prog p -> (forall a, quiet_prog (f a)) -> quiet_prog (p ≫= f).
Proof. intros H Hf. induction p as [a|c k IH]; [exact (Hf a)|]. destruct H as [Hc Hk]. split; [done|]. intros r. by apply IH. Qed.
(** The later history has no other results and items than the earlier one. *)
Definition same_input (h h' : history) : Prop := forall e, e ∈ h' -> quiet (ev_call e) = false -> e ∈ h.
Lemma quiet_runs plausible {A} (p : prog A) h Q : quiet_prog p -> safe (fun _ _ => True) plausible p h Q ->
  safe (fun _ _ => True) plausible p h (fun h' a => h ⊆ h' /\ same_input h h' /\ Q h' a).
Proof.
  revert h. induction p as [a|c k IH]; intros h Hq Hs; [cbn [safe] in *; split_and!; [done|by intros e|done]|]. destruct Hq as [Hc Hk], Hs as [_ Hs]. split; [done|].
  intros r Hr. eapply safe_mono; [by apply IH, Hs|]. intros h' a (Hsub & Hi & HQ). split_and!; [by eapply sub_cons| |done]. intros e He Hne.
  apply (Hi e He) in Hne as Hin. apply elem_of_cons in Hin as [->|Hin]; [|done]. cbn in Hne. congruence.
Qed.

Ltac quiet_step :=
  match goal with
  | |- quiet_prog (mbind _ _) => apply quiet_bind; [|intros ?]
  | |- quiet_prog (do_ _) => split; [reflexivity|intros ?; exact I]
  | |- quiet_prog (mret _) => exact I
  | |- quiet_prog (done _ _ _) => exact I
  | |- quiet_prog (Call Panics _) => split; [reflexivity|intros []]
  | |- quiet_prog (Return _) => exact I
  | |- quiet_prog (pass_then _ _) => unfold pass_then
  | |- quiet_prog (match ?x with _ => _ end) => destruct x
  | |- quiet_prog (let '_ := ?x in _) => destruct x
  end.
Ltac quiet_tac := cbv zeta; repeat quiet_step.

Section Quiet.
Context (protoSize : bep_FileInfo -> Z) (samePlatform : PlatformData -> PlatformData -> bool) (ignores : bytes -> Z).
Context (cfg : folderScanCfg).
Lemma flush_quiet ub : quiet_prog (prog_Flush scan_flushFn ub).
Proof. unfold prog_Flush, scan_flushFn, updateLocals. quiet_tac. Qed.
Lemma toRemove_quiet b : quiet_prog (flushToRemove b).
Proof. unfold flushToRemove. quiet_tac. Qed.
Lemma Flush_quiet b : quiet_prog (scanBatch_Flush b).
Proof. unfold scanBatch_Flush. quiet_tac; [apply toRemove_quiet|apply flush_quiet]. Qed.
Lemma FlushIfFull_quiet b : quiet_prog (scanBatch_FlushIfFull b).
Proof. unfold scanBatch_FlushIfFull, prog_FlushIfFull. quiet_tac; first [apply toRemove_quiet|apply flush_quiet]. Qed.
Lemma Update_quiet fi b : quiet_prog (Update_ protoSize samePlatform cfg fi b).
Proof. unfold Update_, scanBatch_Append, prog_Append. quiet_tac. Qed.
Lemma traverse_quiet path parts : quiet_prog (traverse path parts).
Proof. revert path. induction parts as [|p parts IH]; intros path; cbn [traverse]; quiet_tac. apply IH. Qed.
Lemma IsDeleted_quiet n : quiet_prog (osutil_IsDeleted n).
Proof. unfold osutil_IsDeleted, TraversesSymlink. quiet_tac. apply traverse_quiet. Qed.
Lemma rename_quiet file b rows : quiet_prog (FolderScan.rename_loop ignores cfg file b rows).
Proof. induction rows as [|r rows IH]; cbn [FolderScan.rename_loop]; quiet_tac; try done. all: apply IsDeleted_quiet. Qed.
Lemma findRename_quiet file b : quiet_prog (findRename ignores cfg file b).
Proof. unfold findRename. quiet_tac. apply rename_quiet. Qed.
Lemma drop_quiet path : quiet_prog (dropIncrementalPath cfg path).
Proof. unfold dropIncrementalPath. quiet_tac. Qed.
Lemma climb_quiet fuel dir : quiet_prog (climb is_known fuel dir).
Proof. revert dir. induction fuel as [|fuel IH]; intros dir; cbn [climb]; unfold is_known; quiet_tac. apply IH. Qed.
Lemma unify_quiet dirs : quiet_prog (unifySubs is_known dirs).
Proof.
  unfold unifySubs. destruct (sort_asc dirs) as [|d ds]; [done|]. case_bool; [done|]. generalize (gostr "./") as prev.
  induction (d :: ds) as [|x l IH]; intros prev; [done|]. cbn [unify_loop]. destruct (Canonicalize x); try apply IH.
  case_bool; [apply IH|]. quiet_tac; [apply climb_quiet|apply IH].
Qed.
Lemma health_quiet : quiet_prog (getHealthErrorAndLoadIgnores cfg).
Proof. unfold getHealthErrorAndLoadIgnores. quiet_tac. Qed.
End Quiet.
#[local] Hint Resolve flush_quiet toRemove_quiet Flush_quiet FlushIfFull_quiet Update_quiet IsDeleted_quiet findRename_quiet drop_quiet
  unify_quiet health_quiet : core.

(** ** The batch *)

Section Covers.
Implicit Types (h : history) (b : scanBatch) (n : bytes) (f g fi : FileInfo) (c : Z).
Context (protoSize : bep_FileInfo -> Z) (samePlatform : PlatformData -> PlatformData -> bool) (ignores : bytes -> Z).
Context (cfg : folderScanCfg).

(** The scan is not cancelled, and the items of the database have names. *)
Definition goes_on (c : call) : answer c -> Prop :=
  match c with
  | CtxErr => fun r => r = None
  | AllLocalFilesWithPrefix _ => fun r => forall f, inr f ∈ r -> Name f <> []
  | _ => fun _ => True
  end.
Abbreviation Runs := (safe (fun _ _ => True) goes_on).

(** The item itself, or the global one that it does not differ from. *)
Definition same_item h f g : Prop :=
  g = f \/ (Event (GetGlobalFile (Name f)) (inr (g, true)) ∈ h /\ isReceive (sf_Type cfg) = true /\
            IsEquivalentOptional false samePlatform g f (globalComparison cfg) = true).
(** The directories that only exist to hold encrypted items are not recorded. *)
Definition virtual_parent f : bool := isEncrypted (sf_Type cfg) && IsDirectory f && IsEncryptedParent (PathComponents (Name f)).
Definition handed h f : Prop :=
  (exists fs r g, Event (UpdateLocals fs) r ∈ h /\ g ∈ fs /\ same_item h f g) \/
  (exists names, Event (DropFilesNamed names) None ∈ h /\ Name f ∈ names /\ IsDeleted f = true) \/
  virtual_parent f = true.
Definition pending h b f : Prop :=
  handed h f \/ (exists g, g ∈ infos (updateBatch b) /\ same_item h f g) \/ (Name f ∈ toRemove b /\ IsDeleted f = true).
Lemma same_mono h h' f g : h ⊆ h' -> same_item h f g -> same_item h' f g.
Proof using. intros Hs [->|[H ?] ]; [by left|right; auto]. Qed.
Lemma handed_mono h h' f : h ⊆ h' -> handed h f -> handed h' f.
Proof using.
  intros Hs [(fs & r & g & H1 & H2 & H3)|[(names & H & ?)|H] ]; [left|right; left|by right; right].
  - exists fs, r, g. split_and!; [by apply Hs|done|by eapply same_mono].
  - exists names. auto.
Qed.
Lemma pending_mono h h' b f : h ⊆ h' -> pending h b f -> pending h' b f.
Proof using.
  intros Hs [H|[(g & H1 & H2)|H] ]; [left; by eapply handed_mono|right; left|by right; right].
  exists g. split; [done|by eapply same_mono].
Qed.

(** What a part of the scan leaves behind: a longer history with the same input, and a batch that
    still has what it had, or has written it. *)
Record after h b h' b' : Prop :=
  { after_sub : h ⊆ h'; after_input : same_input h h'; after_pending : forall f, pending h b f -> pending h' b' f }.
Lemma after_refl h b : after h b h b.
Proof using. split; [done|by intros e|done]. Qed.
Lemma after_trans h b h1 b1 h2 b2 : after h b h1 b1 -> after h1 b1 h2 b2 -> after h b h2 b2.
Proof using.
  intros [S1 I1 P1] [S2 I2 P2]. split; [by trans h1| |by auto]. intros e He Hq. by apply I1; [apply I2|].
Qed.
Lemma after_step h b (c : call) (r : answer c) : quiet c = true -> after h b (Event c r :: h) b.
Proof using.
  clear. intros Hq. assert (h ⊆ Event c r :: h) as Hs by (intros x Hx; by right). split; [done| |intros f; by apply pending_mono].
  intros e [->|He]%elem_of_cons Hne; [cbn in Hne; congruence|done].
Qed.
Lemma after_result h b h' b' r : after h b h' b' -> Event NextResult r ∈ h' -> Event NextResult r ∈ h.
Proof using. intros Ha Hr. by apply Ha. Qed.
(** A quiet program that keeps what is in the batch. *)
Lemma quiet_after {A} (p : prog A) (out : A -> scanBatch) h b Q :
  quiet_prog p -> Runs p h (fun h' a => (h ⊆ h' -> forall f, pending h b f -> pending h' (out a) f) /\ Q h' a) ->
  Runs p h (fun h' a => after h b h' (out a) /\ Q h' a).
Proof using.
  clear. intros Hq Hp. eapply safe_mono; [by apply quiet_runs|]. intros h' a (Hs & Hi & Hk & HQ). split; [|done]. split; auto.
Qed.

Definition empty b : Prop := infos (updateBatch b) = [] /\ toRemove b = [].
Lemma empty_handed h b f : empty b -> pending h b f -> handed h f.
Proof using. intros [E1 E2] [H|[(g & H & _)|[H _] ] ]; [done|rewrite E1 in H|rewrite E2 in H]; by apply elem_of_nil in H. Qed.

Lemma keep_flush h h' b ub f : h ⊆ h' ->
  infos ub = infos (updateBatch b) \/ infos ub = [] /\ (exists r, Event (UpdateLocals (infos (updateBatch b))) r ∈ h') ->
  pending h b f -> pending h' (set_updateBatch ub b) f.
Proof using.
  intros Hs E Hp. apply (pending_mono h h') in Hp; [|done]. destruct Hp as [H|[(g & H1 & H2)|H] ]; [by left| |by right; right].
  destruct E as [E|[_ (r & He)] ]; [right; left; exists g; cbn; by rewrite E|left; left]. by exists (infos (updateBatch b)), r, g.
Qed.
Lemma flush_writes (ub : @FileInfoBatch disk_err (gset bytes)) h :
  Runs (prog_Flush scan_flushFn ub) h (fun h' r =>
    (infos r.1 = infos ub \/ infos r.1 = [] /\ exists a, Event (UpdateLocals (infos ub)) a ∈ h') /\ (r.2 = None -> infos r.1 = [])).
Proof using.
  clear. unfold prog_Flush, scan_flushFn, updateLocals. destruct (berror ub) as [e|]; [split; [by left|done]|].
  destruct (infos ub) as [|x l] eqn:E; [by split; [left|]|]. cbn [is_nil]. next. split; [done|]. intros [e|] _; next; [split; [by left|done]|].
  split; [done|]. intros [e|] _; next.
  - split; [|done]. right. split; [done|]. exists (Some e). left.
  - split; [done|]. intros [] _. split; [done|]. intros e _. split; [|done]. right. split; [done|]. exists None. right. right. left.
Qed.
Lemma flush_after b h (fl : prog (@FileInfoBatch disk_err (gset bytes) * option disk_err)) (Q : FileInfoBatch -> option disk_err -> Prop) :
  quiet_prog fl ->
  Runs fl h (fun h' r => (infos r.1 = infos (updateBatch b) \/
    infos r.1 = [] /\ exists a, Event (UpdateLocals (infos (updateBatch b))) a ∈ h') /\ Q r.1 r.2) ->
  Runs (u ← fl; mret (set_updateBatch u.1 b, u.2)) h (fun h' r => after h b h' r.1 /\ Q (updateBatch r.1) r.2 /\ toRemove r.1 = toRemove b).
Proof using.
  intros Hq Hf. eapply safe_seq.
  - apply (quiet_after _ (fun u => set_updateBatch u.1 b) h b (fun _ u => Q u.1 u.2)); [done|].
    eapply safe_mono; [exact Hf|]. intros h' [ub e] [E HQ]. split; [|done]. intros Hs f. by apply keep_flush.
  - intros h' [ub e] [Ha HQ]. next. by split_and!.
Qed.
Lemma toRemove_after b h : Runs (flushToRemove b) h (fun h' r =>
  after h b h' r.1 /\ updateBatch r.1 = updateBatch b /\ (r.2 = None -> toRemove r.1 = [])).
Proof using.
  apply (quiet_after _ fst h b (fun _ r => updateBatch r.1 = updateBatch b /\ (r.2 = None -> toRemove r.1 = []))); [auto|].
  unfold flushToRemove. destruct (toRemove b) as [|n ns] eqn:E; [next; split_and!; [|done..]; intros _ f; done|].
  next. split; [done|]. intros [e|] _; next; split_and!; try done; intros Hs f Hp.
  - by eapply pending_mono.
  - apply (pending_mono _ _ b f Hs) in Hp. destruct Hp as [H|[H|[H1 H2] ] ]; [by left|by right; left|left; right; left].
    exists (n :: ns). rewrite E in H1. split_and!; [left|done|done].
Qed.
Lemma Flush_after b h : Runs (scanBatch_Flush b) h (fun h' r => after h b h' r.1 /\ (r.2 = None -> empty r.1)).
Proof using.
  unfold scanBatch_Flush. eapply safe_seq; [apply toRemove_after|]. intros h1 [b1 [e|] ] (Ha & Hu & Hr); [by next|].
  eapply safe_mono; [apply (flush_after b1 h1 _ (fun ub e => e = None -> infos ub = [])); [auto|apply flush_writes]|].
  intros h2 [b2 e] (Ha2 & HQ & Ht). split; [by eapply after_trans|]. intros He. split; [by apply HQ|]. rewrite Ht. by apply Hr.
Qed.
Lemma FlushIfFull_after b h : Runs (scanBatch_FlushIfFull b) h (fun h' r => after h b h' r.1).
Proof using.
  unfold scanBatch_FlushIfFull. eapply safe_seq with (P := fun h' r => after h b h' r.1).
  { case_bool; [|next; apply after_refl]. eapply safe_mono; [apply toRemove_after|]. by intros h' r [H _]. }
  intros h1 [b1 [e|] ] Ha; [by next|]. eapply safe_mono; [apply (flush_after b1 h1 _ (fun _ _ => True))|].
  - unfold prog_FlushIfFull. quiet_tac. auto.
  - unfold prog_FlushIfFull. destruct (berror (updateBatch b1)); [split; [by left|done]|]. destruct (batch_Full _); [|split; [by left|done] ].
    eapply safe_mono; [apply flush_writes|]. intros h' r [H _]. by split.
  - intros h2 r [H _]. by eapply after_trans.
Qed.

(** What is added to the batch stays. *)
Lemma Append_after fi b h : Runs (scanBatch_Append protoSize fi b) h (fun h' b' =>
  (forall f, pending h b f -> pending h b' f) /\ h' = h /\ fi ∈ infos (updateBatch b')).
Proof using.
  clear. unfold scanBatch_Append, prog_Append, batch_Append. destruct (berror (updateBatch b)); [next; by split|].
  destruct (ToWire true fi); next; [|by split..]. split_and!; [|done|apply elem_of_app; right; by apply list_elem_of_singleton].
  intros f [H|[(g & H1 & H2)|H] ]; [by left|right; left|by right; right]. exists g. split; [apply elem_of_app; by left|done].
Qed.
Lemma Update_after fi b h : Runs (Update_ protoSize samePlatform cfg fi b) h (fun h' r =>
  after h b h' r.1 /\ forall ok, r.2 = inr ok -> pending h' r.1 fi).
Proof using.
  apply (quiet_after _ fst h b (fun h' r => forall ok, r.2 = inr ok -> pending h' r.1 fi)); [auto|]. unfold Update_.
  destruct (isEncrypted _ && _ && _) eqn:Ev.
  - assert (forall h', handed h' fi) as Hh by (intros h'; right; by right).
    apply safe_do; [done|]. intros r _. eapply any_call. intros h' _ _. next. split; [intros Hs f; by apply pending_mono|]. intros ok _. by left.
  - assert (forall h1 g, h ⊆ h1 -> same_item h1 fi g -> Runs (b ← scanBatch_Append protoSize g b; mret (b, inr true : disk_err + bool)) h1
      (fun h' r => (h ⊆ h' -> forall f, pending h b f -> pending h' r.1 f) /\ forall ok, r.2 = inr ok -> pending h' r.1 fi)) as Happ.
    { intros h1 g Hs Hg. eapply safe_seq; [apply Append_after|]. intros h' b' (Hk & -> & Hin). next. split.
      - intros _ f Hf. apply Hk. by eapply pending_mono.
      - intros ok _. right. left. by exists g. }
    apply safe_do; [done|]. intros r _. assert (h ⊆ Event (GetGlobalFile (Name fi)) r :: h) as Hs by (intros x Hx; by right).
    destruct r as [e|[gf ok] ]; [next; split; [intros _ f; by apply pending_mono|done]|].
    destruct ok; [|apply Happ; [done|by left] ]. destruct (IsReceiveOnlyChanged gf) eqn:Er.
    + destruct (IsDeleted fi) eqn:Ed; [|apply Happ; [done|by left] ]. next. split.
      * intros _ f Hf. eapply pending_mono in Hf; [|exact Hs]. destruct Hf as [H|[H|[H1 H2] ] ]; [by left|by right; left|right; right].
        split; [|done]. cbn. apply elem_of_app. by left.
      * intros ok _. right. right. split; [|done]. cbn. apply elem_of_app. right. by apply list_elem_of_singleton.
    + destruct (isReceive _ && _) eqn:Eq; apply Happ; try done; [|by left]. apply andb_true_iff in Eq as [E1 E2]. right. split_and!; [left|done|done].
Qed.

(** ** What becomes of the items *)

(** Something was there under the name, or could not be looked at. *)
Definition seen_there h n : Prop :=
  exists r, Event (Lstat n) r ∈ h /\ match r with inl e => is_not_exist e || is_case_conflict e = false | inr _ => True end.
Definition a_row h f : Prop := exists sub rows, Event (AllLocalFilesWithPrefix sub) rows ∈ h /\ inr f ∈ rows.
Definition is_ignored n : bool := R_IsIgnored (ignores n).
Definition below n p : Prop := n = p \/ IsParent n p = true.
(** An ignored directory is kept for an item that is not ignored: both are in the highest ignored directory. *)
Definition kept_for_child h f : Prop :=
  IsDirectory f = true /\ exists p g, below (Name f) p /\ IsParent (Name g) p = true /\
    a_row h g /\ is_ignored (Name g) = false /\ seen_there h (Name g).
Definition as_deleted f g : Prop :=
  exists now, g = local_deleted cfg now f \/ g = set_Version {| Counters := [] |} (local_deleted cfg now f).
(** An item of the database after the pass, with what counts as recorded. *)
Definition settled_by (recorded : FileInfo -> Prop) h f : Prop :=
  if is_ignored (Name f) then IsIgnored f = true \/ recorded (SetIgnored f) \/ kept_for_child h f
  else if IsIgnored f || (negb (IsDeleted f) && negb (IsUnsupported f)) then
    seen_there h (Name f) \/ exists g, as_deleted f g /\ recorded g
  else if IsDeleted f && IsReceiveOnlyChanged f && negb (isReceive (sf_Type cfg)) then
    recorded (set_LocalFlags (clear_flags (LocalFlags f) FlagLocalReceiveOnly) f)
  else True.
Abbreviation settled h b := (settled_by (pending h b) h).
Lemma there_mono h h' n : h ⊆ h' -> seen_there h n -> seen_there h' n.
Proof using. intros Hs (r & H & ?). exists r. auto. Qed.
Lemma settled_mono (R R' : FileInfo -> Prop) h h' f : h ⊆ h' -> (forall g, R g -> R' g) -> settled_by R h f -> settled_by R' h' f.
Proof using.
  intros Hs HR. unfold settled_by. destruct (is_ignored (Name f)).
  - intros [H|[H|(Hd & p & g & H1 & H2 & (sub & rows & H3 & H4) & H5 & H6)] ]; auto.
    right. right. split; [done|]. exists p, g. split_and!; [done..| |done|by eapply there_mono]. exists sub, rows. auto.
  - destruct (_ || _); [|destruct (_ && _); auto]. intros [H|(g & H1 & H2)]; [left; by eapply there_mono|right; eauto].
Qed.
Lemma settled_after h b h' b' f : after h b h' b' -> settled h b f -> settled h' b' f.
Proof using. intros [Hs _ Hp]. by apply settled_mono. Qed.

Definition results_done h b : Prop := forall f, Event NextResult (Some (inr f)) ∈ h -> pending h b f.
Definition rows_done h b : Prop := forall f, a_row h f -> settled h b f.
Lemma results_after h b h' b' : after h b h' b' -> results_done h b -> results_done h' b'.
Proof using. intros [Hs Hi Hp] H f Hf. apply Hp, H, (Hi _ Hf). done. Qed.
Lemma rows_after h b h' b' : after h b h' b' -> rows_done h b -> rows_done h' b'.
Proof using.
  intros Ha H f (sub & rows & Hr & Hf). eapply settled_after; [exact Ha|]. apply H. exists sub, rows. split; [|done]. by apply Ha.
Qed.

(** ** Passes *)

(** A pass that keeps what it was given; its value has a property if there is one. *)
Definition Good {A} h b (p : prog (scanBatch * Z * outcome disk_err A)) (Q : history -> scanBatch -> A -> Prop) : Prop :=
  Runs p h (fun h' r => after h b h' r.1.1 /\ forall a, r.2 = Ret a -> Q h' r.1.1 a).
Lemma Good_mono {A} h0 b0 h b p (Q Q' : history -> scanBatch -> A -> Prop) :
  Good h b p Q -> after h0 b0 h b -> (forall h' b' a, after h b h' b' -> Q h' b' a -> Q' h' b' a) ->
  Runs p h (fun h' r => after h0 b0 h' r.1.1 /\ forall a, r.2 = Ret a -> Q' h' r.1.1 a).
Proof using.
  intros Hp Ha HQ. eapply safe_mono; [exact Hp|]. intros h' r [Ha' H]. split; [by eapply after_trans|]. intros a Hr. by apply HQ, H.
Qed.
Lemma then_after {A B} (p : prog (scanBatch * Z * outcome disk_err A)) (k : scanBatch -> Z -> A -> prog (scanBatch * Z * outcome disk_err B)) h b
    (Q : history -> scanBatch -> A -> Prop) (R : history -> scanBatch -> B -> Prop) :
  Good h b p Q -> (forall h' b' c a, after h b h' b' -> Q h' b' a -> Good h' b' (k b' c a) R) -> Good h b (pass_then p k) R.
Proof using.
  clear. intros Hp Hk. unfold pass_then. eapply safe_seq; [exact Hp|]. intros h' [ [b' c] [a|e| |] ] [Ha HQ]; [|by next..].
  eapply Good_mono; [by apply Hk; [|apply HQ]|done|done].
Qed.
Ltac done_pass := split; [apply after_refl|intros ? [= <-]; cbn [fst snd] ].
Lemma step_after {A} h b (call : call) (k : answer call -> prog (scanBatch * Z * outcome disk_err A)) (Q : history -> scanBatch -> A -> Prop) :
  quiet call = true -> (forall r, goes_on call r -> Good (Event call r :: h) b (k r) Q) -> Good h b (do_ call ≫= k) Q.
Proof using.
  clear. intros Hq Hk. apply safe_do; [done|]. intros r Hr. eapply Good_mono; [by apply Hk|by apply after_step|done].
Qed.
(** A quiet program without the batch in a pass. *)
Lemma aside_after {A B} h b (p : prog B) (k : B -> prog (scanBatch * Z * outcome disk_err A)) P (Q : history -> scanBatch -> A -> Prop) :
  quiet_prog p -> Runs p h P -> (forall h' x, after h b h' b -> P h' x -> Good h' b (k x) Q) -> Good h b (p ≫= k) Q.
Proof using.
  clear. intros Hq Hp Hk. eapply safe_seq.
  - apply (quiet_after p (fun _ => b) h b P); [done|]. eapply safe_mono; [exact Hp|]. intros h' x HP. split; [|done]. intros Hs f. by apply pending_mono.
  - intros h' x [Ha HP]. eapply Good_mono; [by apply Hk|done|done].
Qed.
Lemma count_after fi b c h : Good h b (count_update protoSize samePlatform cfg fi b c) (fun h' b' _ => pending h' b' fi).
Proof using.
  unfold count_update. eapply safe_seq; [apply Update_after|]. intros h' [b' [e|ok] ] [Ha Hp]; next; split; [done|done|done|].
  intros _ _. by eapply Hp.
Qed.
Lemma checkFull_after b h : Good h b (checkFull b) (fun _ _ _ => True).
Proof using. unfold checkFull. eapply safe_seq; [apply FlushIfFull_after|]. intros h' [b' [e|] ] Ha; next; by split. Qed.
Lemma ignore_all_after fs b c h :
  Good h b (ignore_all protoSize samePlatform cfg fs b c) (fun h' b' _ => forall f, f ∈ fs -> pending h' b' (SetIgnored f)).
Proof using.
  revert b c h. induction fs as [|f fs IH]; intros b c h; cbn [ignore_all].
  - done_pass. intros f Hf. by apply elem_of_nil in Hf.
  - eapply then_after; [apply count_after|]. intros h1 b1 c1 ok _ H1. eapply then_after; [apply checkFull_after|]. intros h2 b2 c2 x Ha2 _.
    eapply Good_mono; [apply IH|apply after_refl|]. intros h3 b3 u Ha3 H3 f' [->|Hf]%elem_of_cons; [|by apply H3].
    apply Ha3, Ha2, H1.
Qed.

(** *** The results of the walk *)

Lemma result_after file b c h :
  Good h b (scan_result protoSize samePlatform ignores cfg file b c) (fun h' b' _ => pending h' b' file).
Proof using.
  unfold scan_result. eapply then_after; [apply count_after|]. intros h1 b1 c1 ok Ha1 H1. case_bool; [by done_pass|].
  eapply (aside_after h1 b1 _ _ (fun _ _ => True)); [auto|eapply safe_mono; [apply any_safe|done]|].
  intros h2 [nf|] Ha2 _; [|done_pass; by apply Ha2]. eapply then_after; [apply count_after|]. intros h3 b3 c3 ok3 Ha3 _.
  assert (forall b' : scanBatch, infos (updateBatch b') = infos (updateBatch b3) -> toRemove b' = toRemove b3 -> pending h3 b' = pending h3 b3) as E.
  { intros b' E1 E2. unfold pending. by rewrite E1, E2. }
  split; [|intros _ _; destruct ok3; rewrite ?E by done; by apply Ha3, Ha2].
  destruct ok3; [|apply after_refl]. split; [done|by intros e|]. intros f Hf. cbn [fst]. by rewrite E.
Qed.
(** No items of the database are read, and the walk is read to its end. *)
Definition rows_of h h' : Prop := forall f, a_row h' f -> a_row h f.
Lemma rows_of_after h b h' b' : after h b h' b' -> rows_of h h'.
Proof using. intros Ha f (sub & rows & Hr & Hf). exists sub, rows. split; [|done]. by apply Ha. Qed.
(** The file of a result, and the rows of a query, as functions of the event. *)
Definition result_file (e : event) : option FileInfo :=
  match e with Event c r => match c return answer c -> option FileInfo with
                            | NextResult => fun r => match r with Some (inr f) => Some f | _ => None end
                            | _ => fun _ => None end r end.
Definition query_rows (e : event) : list (disk_err + FileInfo) :=
  match e with Event c r => match c return answer c -> _ with AllLocalFilesWithPrefix _ => fun r => r | _ => fun _ => [] end r end.
Lemma result_here f res h : Event NextResult (Some (inr f)) ∈ Event NextResult res :: h -> res = Some (inr f) \/ Event NextResult (Some (inr f)) ∈ h.
Proof using.
  clear. intros [H|H]%elem_of_cons; [left|by right]. apply (f_equal result_file) in H. cbn in H. by destruct res as [ [ [? ?]|g]|]; simplify_eq.
Qed.
Lemma row_here sub rows h f : a_row (Event (AllLocalFilesWithPrefix sub) rows :: h) f -> inr f ∈ rows \/ a_row h f.
Proof using.
  clear. intros (sub' & rows' & [H|H]%elem_of_cons & Hf); [left|right; by exists sub', rows'].
  apply (f_equal query_rows) in H. cbn in H. by subst.
Qed.
Lemma rows_of_step h (call : call) (r : answer call) : match call with AllLocalFilesWithPrefix _ => False | _ => True end -> rows_of h (Event call r :: h).
Proof using. clear. intros Hc f (sub & rows & [He|Hr]%elem_of_cons & Hf); [by destruct call|]. by exists sub, rows. Qed.
Lemma results_spec fuel b c l h : results_done h b ->
  Runs (scan_results protoSize samePlatform ignores cfg fuel b c l) h (fun h' r =>
    forall a, r.2 = Ret a -> rows_of h h' /\ results_done h' r.1.1 /\ Event NextResult None ∈ h').
Proof using.
  revert b c l h. induction fuel as [|fuel IH]; intros b c l h Hd; [done|]. cbn [scan_results].
  apply safe_do; [done|]. intros res _. assert (h ⊆ Event NextResult res :: h) as Hs by (intros x Hx; by right).
  pose proof (rows_of_step h NextResult res I) as Hrow. destruct res as [ [ [path e]|file]|].
  - apply safe_do; [done|]. intros [] _. eapply safe_mono; [apply IH|].
    + intros f Hf. eapply pending_mono; [|apply Hd]; [intros x Hx; by right; right|].
      apply elem_of_cons in Hf as [Hf|Hf]; [done|]. by apply result_here in Hf as [Hf|Hf].
    + intros h1 r H a Ha. destruct (H a Ha) as (H1 & H2). split; [|done]. intros f Hf. by apply Hrow, (rows_of_step _ (NewScanError path e) tt I), H1.
  - eapply safe_seq; [apply FlushIfFull_after|]. intros h1 [b1 [e|] ] Ha1.
    { eapply any_call. intros h2 [] _. by next. }
    unfold pass_then. eapply safe_seq; [apply result_after|]. intros h2 [ [b2 c2] [ []|e| |] ] [Ha2 H2]; [|by next..].
    eapply safe_mono; [apply IH|].
    + intros f Hf. apply (after_result _ _ _ _ _ Ha2), (after_result _ _ _ _ _ Ha1) in Hf.
      apply result_here in Hf as [ [= ->]|Hf]; [by apply (H2 tt)|]. apply Ha2, Ha1. eapply pending_mono; [exact Hs|by apply Hd].
    + intros h3 r H a Ha. destruct (H a Ha) as (H1 & H3). split; [|done]. intros f Hf. apply Hrow.
      by eapply rows_of_after; [exact Ha1|]; eapply rows_of_after; [exact Ha2|]; apply H1.
  - next. intros a _. split_and!; [done| |left]. intros f Hf. apply result_here in Hf as [Hf|Hf]; [done|].
    eapply pending_mono; [exact Hs|by apply Hd].
Qed.
Lemma ChangedAndNew_after fuel subs b h : results_done h b ->
  Runs (scanSubdirsChangedAndNew protoSize samePlatform ignores cfg fuel subs b) h (fun h' r =>
    forall a, r.2 = Ret a -> rows_of h h' /\ results_done h' r.1.1 /\ Event NextResult None ∈ h').
Proof using.
  intros Hd. unfold scanSubdirsChangedAndNew, pass_then. eapply safe_seq; [by apply results_spec|].
  intros h1 [ [b1 c1] [l|e| |] ] H1; [|by next..]. destruct (H1 l eq_refl) as (Hr & Hd1 & Hn).
  eapply safe_mono.
  - apply (aside_after h1 b1 _ _ (fun _ _ => True) (fun _ b' _ => b' = b1)); [quiet_tac|eapply safe_mono; [apply any_safe|done]|].
    intros h2 x Ha _. by done_pass.
  - intros h2 [ [b2 c2] x] [Ha HQ] [] Hx. split_and!; [intros f Hf; by eapply Hr, rows_of_after|by eapply results_after|by apply Ha].
Qed.

(** *** The items of the database *)

Lemma IsDeleted_there n h : Runs (osutil_IsDeleted n) h (fun h' r => r = false -> seen_there h' n).
Proof using.
  unfold osutil_IsDeleted. apply safe_do; [done|]. intros r _. case_bool; [done|]. eapply any_call. intros h' t Hs. next. intros _.
  exists r. split; [apply Hs; left|by destruct r].
Qed.
Lemma a_row_mono h h' f : h ⊆ h' -> a_row h f -> a_row h' f.
Proof using. intros Hs (sub & rows & H & ?). exists sub, rows. auto. Qed.

(** The directories that wait are ignored, and the highest ignored directory is above them. *)
Definition waits_ok (w : waiting) : Prop := forall f, f ∈ toIgnore w ->
  ignoredParent w <> [] /\ below (Name f) (ignoredParent w) /\ is_ignored (Name f) = true /\ IsDirectory f = true.
Definition status h b (w : waiting) f : Prop := settled h b f \/ f ∈ toIgnore w.
Lemma status_after h b h' b' w f : after h b h' b' -> status h b w f -> status h' b' w f.
Proof using. intros Ha [H|H]; [left; by eapply settled_after|by right]. Qed.
Lemma settled_row h b f : is_ignored (Name f) = false -> negb (IsIgnored f || negb (IsDeleted f) && negb (IsUnsupported f)) = true ->
  IsDeleted f && IsReceiveOnlyChanged f = false \/ isReceive (sf_Type cfg) = true -> settled h b f.
Proof using. unfold settled_by. intros -> ->%negb_true_iff [->| ->]; [done|]. by rewrite andb_false_r. Qed.

Section Item.
Context (fi : FileInfo) (w : waiting) (Hname : Name fi <> []) (Hok : waits_ok w).
Context (Hin : ignoredParent w <> [] -> IsParent (Name fi) (ignoredParent w) = true).
Definition item_post h b (w' : waiting) : Prop := waits_ok w' /\ status h b w' fi /\ forall f, f ∈ toIgnore w -> status h b w' f.
Lemma same_waiting h b : settled h b fi -> item_post h b w.
Proof using Hok. intros H. split_and!; [done|by left|]. by right. Qed.

Lemma check_deleted_after b c h : a_row h fi -> is_ignored (Name fi) = false ->
  IsIgnored fi || negb (IsDeleted fi) && negb (IsUnsupported fi) = true ->
  Good h b (check_deleted protoSize samePlatform cfg fi b w c) item_post.
Proof using Hok Hin.
  intros Hr Hi Hc. assert (forall h b, seen_there h (Name fi) \/ (exists g, as_deleted fi g /\ pending h b g) -> settled h b fi) as Hset.
  { intros h' b' H. unfold settled_by. by rewrite Hi, Hc. }
  unfold check_deleted. eapply aside_after; [auto|apply IsDeleted_there|]. intros h1 [] Ha1 H1; cbn [negb].
  - apply step_after; [done|]. intros now _. eapply aside_after; [auto|apply any_safe|]. intros h2 [] Ha2 _.
    eapply then_after; [apply count_after|]. intros h3 b3 c3 ok Ha3 H3. done_pass. apply same_waiting, Hset. right.
    eexists. split; [|exact H3]. exists now. case_bool; [by right|by left].
  - specialize (H1 eq_refl). done_pass. destruct (is_nil (ignoredParent w)) eqn:En; [apply same_waiting, Hset; by left|].
    assert (ignoredParent w <> []) as Hp by (by destruct (ignoredParent w)). split_and!; [|left; apply Hset; by left|].
    { intros f Hf. by apply elem_of_nil in Hf. }
    intros f Hf. left. destruct (Hok f Hf) as (_ & H2 & H3 & H4). unfold settled_by. rewrite H3. right; right. split; [done|].
    exists (ignoredParent w), fi. split_and!; auto. eapply a_row_mono; [|exact Hr]. apply Ha1.
Qed.
Lemma receive_only_after b c h : is_ignored (Name fi) = false -> negb (IsIgnored fi || negb (IsDeleted fi) && negb (IsUnsupported fi)) = true ->
  IsDeleted fi && IsReceiveOnlyChanged fi = true -> Good h b (check_receive_only protoSize samePlatform cfg fi b w c) item_post.
Proof using Hok.
  intros Hi Hc Hd. unfold check_receive_only. cbv zeta.
  assert (forall h1 b1 c1, Good h1 b1 (pass_then (count_update protoSize samePlatform cfg
    (set_LocalFlags (clear_flags (LocalFlags fi) FlagLocalReceiveOnly) fi) b1 c1) (fun b changes _ => done b changes w)) item_post) as Hclear.
  { intros h1 b1 c1. eapply then_after; [apply count_after|]. intros h2 b2 c2 ok Ha H2. done_pass. apply same_waiting.
    unfold settled_by. apply negb_true_iff in Hc. rewrite Hi, Hc, Hd. by case_bool. }
  assert (isReceive (sf_Type cfg) = true -> forall h1 b1, item_post h1 b1 w) as Hnone.
  { intros Ht h1 b1. apply same_waiting, settled_row; [done|done|by right]. }
  destruct (isReceive (sf_Type cfg)); [|apply Hclear]. apply step_after; [done|]. intros [e|[gf ok] ] _; [split; [apply after_refl|done]|].
  destruct ok; cbn [negb]; [|done_pass; by apply Hnone]. destruct (IsReceiveOnlyChanged gf).
  - split; [|intros ? [= <-]; by apply Hnone]. split; [done|by intros e|]. intros f [H|[H|[H1 H2] ] ]; [by left|by right; left|right; right].
    split; [|done]. cbn. apply elem_of_app. by left.
  - case_bool; [apply Hclear|done_pass; by apply Hnone].
Qed.
Lemma item_after b c h : a_row h fi -> Good h b (known_item protoSize samePlatform ignores cfg fi b w c) item_post.
Proof using Hname Hok Hin.
  intros Hr. unfold known_item. cbv zeta. change (R_IsIgnored (ignores (Name fi))) with (is_ignored (Name fi)).
  assert (forall h b, is_ignored (Name fi) = true -> IsIgnored fi = true \/ pending h b (SetIgnored fi) -> settled h b fi) as Hset.
  { intros h1 b1 Hi H. unfold settled_by. rewrite Hi. tauto. }
  destruct (is_ignored (Name fi)) eqn:Hi; cbn [andb]; rewrite ?andb_true_r, ?andb_false_r; [|].
  - destruct (IsIgnored fi) eqn:Ef; cbn [negb]; [done_pass; apply same_waiting; auto|]. destruct (IsDirectory fi) eqn:Ed.
    + done_pass. set (p := if is_nil (ignoredParent w) then _ else _).
      assert (p <> [] /\ below (Name fi) p /\ (ignoredParent w <> [] -> p = ignoredParent w)) as (Hp & Hb & Hw).
      { unfold p. destruct (ignoredParent w) eqn:E; cbn [is_nil]; split_and!; auto; [by left|done|right; by apply Hin]. }
      split_and!; [|by right; apply elem_of_app; right; apply list_elem_of_singleton|].
      * intros f [Hf|Hf%list_elem_of_singleton]%elem_of_app; cbn [ignoredParent]; [|by subst].
        destruct (Hok f Hf) as (H1 & H2 & H3 & H4). rewrite Hw by done. by split_and!.
      * intros f Hf. right. apply elem_of_app. by left.
    + eapply then_after; [apply count_after|]. intros h1 b1 c1 ok Ha H1. done_pass. apply same_waiting. auto.
  - cbn [andb]. destruct (IsIgnored fi || _) eqn:Ec; [by apply check_deleted_after|].
    destruct (IsDeleted fi && IsReceiveOnlyChanged fi) eqn:Ed; [apply receive_only_after; by rewrite ?Ec|].
    done_pass. apply same_waiting, settled_row; [done|by rewrite Ec|by left].
Qed.
End Item.

Lemma items_after rows b c w h : (forall f, inr f ∈ rows -> a_row h f /\ Name f <> []) -> waits_ok w ->
  Good h b (known_items protoSize samePlatform ignores cfg rows b c w) (fun h' b' o => exists w', o = Some w' /\ waits_ok w' /\
    (forall f, inr f ∈ rows -> status h' b' w' f) /\ forall f, f ∈ toIgnore w -> status h' b' w' f).
Proof using.
  revert b c w h. induction rows as [|[e|fi] rows IH]; intros b c w h Hr Hok; cbn [known_items].
  - done_pass. exists w. split_and!; [done|done|intros f Hf; by apply elem_of_nil in Hf|by right].
  - split; [apply after_refl|done].
  - destruct (Hr fi) as [Hfi Hn]; [left|]. apply step_after; [done|]. intros r ->. eapply then_after; [apply checkFull_after|].
    intros h1 b1 c1 x Ha1 _. set (leaves := _ && _).
    eapply then_after with (Q := fun h' b' _ => leaves = true -> forall f, f ∈ toIgnore w -> settled h' b' f).
    { destruct leaves; [|by done_pass]. eapply Good_mono; [apply ignore_all_after|apply after_refl|]. cbn beta.
      intros h2 b2 u Ha2 H2 _ f Hf. destruct (Hok f Hf) as (_ & _ & Hi & _). unfold settled_by. rewrite Hi. right; left. by apply H2. }
    intros h2 b2 c2 u Ha2 H2. assert (h ⊆ h2) as Hs by (eapply sub_cons; etrans; [apply Ha1|apply Ha2]).
    set (w1 := if leaves then not_waiting else w).
    assert (waits_ok w1) as Hok1 by (unfold w1; destruct leaves; [intros f Hf; by apply elem_of_nil in Hf|done]).
    eapply then_after; [apply (item_after fi w1 Hn Hok1)|].
    + unfold w1, leaves. destruct (ignoredParent w) as [|x0 p] eqn:E; cbn; [by rewrite E|]. destruct (IsParent (Name fi) (x0 :: p)) eqn:Ep; cbn; [by rewrite E|done].
    + by eapply a_row_mono.
    + intros h3 b3 c3 w3 Ha3 (Hok3 & Hs3 & Hw3). eapply Good_mono; [apply IH; [|done]|apply after_refl|].
      * intros f Hf. destruct (Hr f) as [H1 H3]; [by right|]. split; [|done]. eapply a_row_mono; [|exact H1]. trans h2; [done|apply Ha3].
      * intros h4 b4 o Ha4 (w4 & -> & Hok4 & Hrest & Hwait). exists w4.
        assert (forall f, status h3 b3 w3 f -> status h4 b4 w4 f) as Hst.
        { intros f [H|H]; [left; by eapply settled_after|by apply Hwait]. }
        split_and!; [done|done| |].
        -- intros f Hf. apply elem_of_cons in Hf as [ [= ->]|Hf]; [by apply Hst|by apply Hrest].
        -- intros f Hf. destruct leaves eqn:El; [left; eapply settled_after; [|by apply H2]; by eapply after_trans|by apply Hst, Hw3].
Qed.
Definition asked h sub : Prop := exists rows, Event (AllLocalFilesWithPrefix sub) rows ∈ h.
Lemma subs_spec subs b w c h : rows_done h b -> results_done h b -> toIgnore w = [] ->
  Runs (known_subs protoSize samePlatform ignores cfg subs b w c) h (fun h' r => h ⊆ h' /\ forall a, r.2 = Ret a ->
    rows_done h' r.1.1 /\ results_done h' r.1.1 /\ Forall (asked h') subs).
Proof using.
  revert b w c h. induction subs as [|sub subs IH]; intros b w c h Hd Hres Hw; cbn [known_subs]; [by next|].
  apply safe_do; [done|]. intros rows Hp. cbn in Hp. set (h0 := Event (AllLocalFilesWithPrefix sub) rows :: h) in *.
  assert (h ⊆ h0) as Hs0 by (intros x Hx; by right). assert (results_done h0 b) as Hres0.
  { intros f [Hf|Hf]%elem_of_cons; [done|]. eapply pending_mono; [exact Hs0|by apply Hres]. }
  unfold pass_then at 1. eapply safe_seq; [apply (items_after rows b c w h0)|].
  { intros f Hf. split; [exists sub, rows; split; [left|done]|by apply Hp]. }
  { intros f. rewrite Hw. by intros ?%elem_of_nil. }
  intros h1 [ [b1 c1] o] [Ha1 H1]. assert (h ⊆ h1) as Hs1 by (trans h0; [done|apply Ha1]). destruct o as [o|e| |]; [|by next..].
  destruct (H1 o eq_refl) as (w1 & -> & Hok1 & Hrows & _). apply safe_do; [done|]. intros r ->.
  set (h2 := Event CtxErr None :: h1). assert (after h1 b1 h2 b1) as Ha2 by (by apply after_step).
  unfold pass_then. eapply safe_seq; [apply ignore_all_after|]. intros h3 [ [b3 c3] [ []|e| |] ] [Ha3 H3].
  2-4: next; split; [|done]; (etrans; [exact Hs1|]; etrans; [apply Ha2|apply Ha3]).
  assert (after h0 b h3 b3) as Ha by (eapply after_trans; [exact Ha1|]; by eapply after_trans).
  eapply safe_mono; [apply IH; [|by eapply results_after|done]|].
  - intros f (sub' & rows' & Hr & Hf).
    assert (a_row h0 f) as H0 by (exists sub', rows'; split; [by apply Ha|done]).
    apply row_here in H0 as [H0|H0].
    + destruct (Hrows f H0) as [H|H]; [eapply settled_after; [|exact H]; by eapply after_trans|].
      destruct (Hok1 f H) as (_ & _ & Hi & _). unfold settled_by. rewrite Hi. right; left. by apply (H3 tt).
    + eapply settled_after; [exact Ha|]. eapply settled_mono; [exact Hs0| |by apply Hd]. intros g. by apply pending_mono.
  - intros h4 r [Hs4 H4]. split; [etrans; [exact Hs0|]; etrans; [apply Ha|done]|]. intros a Hr. destruct (H4 a Hr) as (H5 & H6 & H7).
    split_and!; [done|done|]. constructor; [|done]. exists rows. apply Hs4, Ha. left.
Qed.

(** ** The scan *)

(** Everything that was read is settled, and the database was asked for every path. *)
Record complete h (paths : list bytes) : Prop :=
  { walk_read : Event NextResult None ∈ h;
    results_handed : forall f, Event NextResult (Some (inr f)) ∈ h -> handed h f;
    rows_settled : forall f, a_row h f -> settled_by (handed h) h f;
    paths_asked : Forall (asked h) (if is_nil paths then [ [] ] else paths);
    completed : Event ScanCompleted tt ∈ h }.
Lemma complete_later h h' paths : h ⊆ h' -> same_input h h' -> complete h paths -> complete h' paths.
Proof using.
  intros Hs Hi [H1 H2 H3 H4 H5]. split; [by apply Hs| | | |by apply Hs].
  - intros f Hf. eapply handed_mono; [exact Hs|]. apply H2, (Hi _ Hf eq_refl).
  - intros f (sub & rows & Hr & Hf). eapply settled_mono; [exact Hs|intros g; by apply handed_mono|]. apply H3. exists sub, rows.
    split; [exact (Hi _ Hr eq_refl)|done].
  - eapply Forall_impl; [|exact H4]. cbn. intros sub [rows Hr]. exists rows. auto.
Qed.
Lemma flush_then_after {A} b c (k : scanBatch -> prog (scanBatch * Z * outcome disk_err A)) h (R : history -> scanBatch * Z * outcome disk_err A -> Prop) :
  (forall h' b', after h b h' b' -> empty b' -> Runs (k b') h' R) -> (forall h' b' e, R h' (b', c, Err e)) ->
  Runs (flush_then b c k) h R.
Proof using.
  clear. intros Hk HR. unfold flush_then. eapply safe_seq; [apply Flush_after|]. intros h' [b' [e|] ] [Ha He]; [next; apply HR|].
  apply Hk; auto.
Qed.
Lemma both_complete fuel subs h : same_input [] h ->
  Runs (scan_both protoSize samePlatform ignores cfg fuel subs) h (fun h' r => forall a, r.2 = Ret a -> complete h' subs).
Proof using.
  intros Hnew. unfold scan_both. unfold pass_then at 1. eapply safe_seq; [apply ChangedAndNew_after|].
  { intros f Hf. by destruct (proj1 (elem_of_nil _) (Hnew _ Hf eq_refl)). }
  intros h1 [ [b1 c1] [ []|e| |] ] H1; [|by next..]. destruct (H1 tt eq_refl) as (Hrow & Hres & Hnone). cbn [fst] in Hres.
  apply flush_then_after; [|done]. intros h2 b2 Ha2 _. eapply safe_call; [apply (subs_spec _ b2)|].
  { intros f Hf. apply (rows_of_after _ _ _ _ Ha2), Hrow in Hf. destruct Hf as (sub & rows & Hr & _). by destruct (proj1 (elem_of_nil _) (Hnew _ Hr eq_refl)). }
  { by eapply results_after. }
  { done. }
  intros h3 [ [b3 c3] e] Hs3 [_ H3]. destruct e as [ []|e| |]; [|by next..]. destruct (H3 tt eq_refl) as (Hd & Hr & Hasked). cbn [fst] in Hd, Hr.
  apply flush_then_after; [|done]. intros h4 b4 Ha4 He. apply safe_do; [done|]. intros [] _. next. intros [] _.
  assert (after h4 b4 (Event ScanCompleted tt :: h4) b4) as Ha5 by (by apply after_step).
  assert (after h3 b3 (Event ScanCompleted tt :: h4) b4) as Ha by (by eapply after_trans).
  assert (forall f, pending (Event ScanCompleted tt :: h4) b4 f -> handed (Event ScanCompleted tt :: h4) f) as Hhand.
  { intros f. by apply empty_handed. }
  split; [|intros f Hf| | |left].
  - apply Ha, Hs3, Ha2. done.
  - apply Hhand, (results_after _ _ _ _ Ha Hr f Hf).
  - intros f Hf. eapply settled_mono; [done|exact Hhand|]. by apply (rows_after _ _ _ _ Ha Hd).
  - eapply Forall_impl; [|exact Hasked]. cbn. intros sub [rows Hq]. exists rows. by apply Ha.
Qed.
Context (NativeFilename : bytes -> bytes).
Lemma quiet_same {A} (p : prog A) h : quiet_prog p -> Runs p h (fun h' _ => h ⊆ h' /\ same_input h h').
Proof using.
  clear. intros Hq. eapply safe_mono; [apply quiet_runs with (Q := fun _ _ => True); [done|]|].
  - eapply safe_mono; [apply any_safe|done].
  - by intros h' a (H1 & H2 & _).
Qed.
Lemma same_trans h h1 h2 : same_input h h1 -> same_input h1 h2 -> same_input h h2.
Proof using. intros H1 H2 e He Hq. by apply H1; [apply H2|]. Qed.
Lemma scan_complete_spec fuel subs :
  Runs (scanSubdirs protoSize samePlatform ignores cfg NativeFilename fuel subs) [] (fun h r =>
    r = Ret tt -> exists paths, Event (ClearScanErrors paths) tt ∈ h /\ complete h paths).
Proof using.
  unfold scanSubdirs. eapply safe_seq; [apply quiet_same; by split|]. cbn beta. intros h0 old [_ I0].
  eapply safe_seq; [apply quiet_same; auto|]. cbn beta. intros h1 [e|] [_ I1]; [by next|].
  eapply safe_seq with (P := fun h r => r = Ret tt -> exists paths, Event (ClearScanErrors paths) tt ∈ h /\ complete h paths).
  - eapply safe_seq; [apply quiet_same; by split|]. cbn beta. intros h2 [e|] [_ I2]; [by next|].
    eapply safe_seq; [apply quiet_same; auto|]. cbn beta. intros h3 paths [_ I3]. apply safe_do; [done|]. intros [] _.
    set (h4 := Event (ClearScanErrors paths) tt :: h3).
    assert (same_input [] h4) as Hnew.
    { repeat (eapply same_trans; [eassumption|]). intros e [->|He]%elem_of_cons Hq; [done|]. done. }
    eapply safe_call; [by apply both_complete|]. intros h5 [ [b c] e] Hs5 H5.
    eapply safe_seq; [apply quiet_same; quiet_tac|]. cbn beta. intros h6 [] [Hs6 I6]. next. intros ->. exists paths.
    split; [apply Hs6, Hs5; left|]. eapply complete_later; [done|done|by apply (H5 tt)].
  - intros h2 r H2. eapply safe_seq; [apply quiet_same; by split|]. cbn beta. intros h3 new [Hs3 I3].
    eapply safe_seq; [apply quiet_same; quiet_tac|]. cbn beta. intros h4 [] [Hs4 I4]. next. intros Hr.
    destruct (H2 Hr) as (paths & Hp & Hc). exists paths. split; [by apply Hs4, Hs3|].
    eapply complete_later; [exact Hs4|done|]. by eapply complete_later.
Qed.

(** C16: A scan that ends without an error and was not cancelled has read the walk to its end, has handed every result
    to the database, and for every path that it scanned has asked for the items of the database; each of these was seen
    to be there, or is recorded as deleted, or as ignored, or is a directory kept for an item in it that is not ignored. *)
Theorem scan_loses_nothing fuel subs h
    (Hrun : runs (scanSubdirs protoSize samePlatform ignores cfg NativeFilename fuel subs) [] h (Ret tt))
    (Hp : all_plausible goes_on h) :
  exists paths, Event (ClearScanErrors paths) tt ∈ h /\ complete h paths.
Proof using.
  by apply (any_runs _ _ _ _ _ (scan_complete_spec fuel subs) Hrun Hp).
Qed.
End Covers.

(** ** A new file, one that was removed, and one that is still there *)

(** An interpreter whose answers depend on the calls before. *)
Section Exec.
Context (respond : history -> forall c : call, option (answer c)).
Fixpoint exec_with {A} (p : prog A) (h : history) : option (history * A) :=
  match p with
  | Return a => Some (h, a)
  | Call c k => match respond h c with Some r => exec_with (k r) (Event c r :: h) | None => None end
  end.
Lemma exec_with_runs {A} (p : prog A) h h' a : exec_with p h = Some (h', a) -> runs p h h' a.
Proof.
  revert h. induction p as [a'|c k IH]; intros h; cbn; [by intros [= <- <-]|].
  destruct (respond h c) as [r|]; [|done]. intros H. exists r. by apply IH.
Qed.
Lemma exec_with_plausible plausible {A} (p : prog A) h h' a : (forall h c r, respond h c = Some r -> plausible c r) ->
  exec_with p h = Some (h', a) -> all_plausible plausible h -> all_plausible plausible h'.
Proof.
  intros Hc. revert h. induction p as [a'|c k IH]; intros h; cbn; [by intros [= <- _]|].
  destruct (respond h c) as [r|] eqn:E; [|done]. intros H Hp. apply (IH r _ H). constructor; [by eapply Hc|done].
Qed.
End Exec.

(** The walk has one result. *)
Definition ex_respond_once (h : history) (c : call) : option (answer c) :=
  match c return option (answer c) with
  | NextResult =>
      Some (if existsb (fun e => match ev_call e with NextResult => true | _ => false end) h then None
            else Some (inr (ex_record (gostr "new.txt") FileInfoTypeFile)))
  | c => ex_respond [ex_record (gostr "gone.txt") FileInfoTypeFile; ex_record (gostr "here.txt") FileInfoTypeFile]
           (ex_disk [(gostr "here.txt", ex_stat false); (gostr "new.txt", ex_stat false)]) false c
  end.
Definition ex_three := exec_with ex_respond_once (scanSubdirs (fun _ => 0) (fun _ _ => true) (fun _ => 0) ex_scan_cfg (fun n => n) 2 []) [].
Definition ex_three_history : history := match ex_three with Some (h, _) => h | None => [] end.
Lemma ex_three_run : ex_three = Some (ex_three_history, Ret tt).
Proof. by vm_compute. Qed.

Theorem scan_loses_nothing_witness :
  written ex_three_history = [(gostr "gone.txt", true, 0); (gostr "new.txt", false, 0)] /\
  exists paths, Event (ClearScanErrors paths) tt ∈ ex_three_history /\
    complete (fun _ _ => true) (fun _ => 0) ex_scan_cfg ex_three_history paths.
Proof.
  split; [by vm_compute|].
  apply (scan_loses_nothing (fun _ => 0) (fun _ _ => true) (fun _ => 0) ex_scan_cfg (fun n => n) 2 []).
  - eapply exec_with_runs, ex_three_run.
  - eapply exec_with_plausible; [|exact ex_three_run|constructor].
    intros h c r. destruct c; cbn [ex_respond_once ex_respond]; try done; intros [= <-]; try done.
    intros f Hf. by repeat (apply elem_of_cons in Hf as [ [= ->]|Hf]; [done|]); apply elem_of_nil in Hf.
Defined.
