(* ===== verification/ScanAccepted.v ===== *)
(** * From the walk to the database, over all scans

    The walk of a folder, the goroutines that hash its files and the scan that
    takes in their results, composed: every item that is sent has a name that
    devices accept, every file that was hashed has blocks, and so every record in
    the database passes the checks of other devices, however many scans there
    were, if what came from elsewhere does. *)
From Stdlib Require Import ZArith List Lia.
From Stdlib Require Import Strings.Byte.
From stdpp Require Import base list option gmap numbers tactics.
From S2P Require Import Prelude GoLib Vector FileInfo FileInfoWire PullQueue Paths Connection IndexHandler Disk PullItems ScanBlocks ScanWalk ScanItemProps FolderScan FolderScanProps FolderScanSafety FolderScanTypes.
From S2P Require ScanWalkProps FolderScanCovers.

#[local] Open Scope Z_scope.

(** A path below the root: its elements are proper names. *)
Definition proper_path (p : bytes) : Prop := exists ds, ds <> [] /\ Forall proper ds /\ p = join PathSeparator ds.
Lemma proper_path_ok p : proper_path p -> checkFilename p = Ret tt.
Proof. intros (ds & Hne & Hd & ->). by apply checkFilename_proper. Qed.
Lemma canonical_path p q : Canonicalize p = Ret q -> q = dot \/ proper_path q.
Proof.
  intros (ds & Hd & ->)%Canonicalize_proper. destruct ds as [|d ds]; [by left|right]. by exists (d :: ds).
Qed.

Section Walked.
Context (sha256 : bytes -> bytes) (samePlatform : PlatformData -> PlatformData -> bool) (ignores : bytes -> Z).
Context (normalizePath : bytes -> bytes) (cfg : walkerCfg) (now : GoTime).
(** Normalisation works on the elements of a path, and keeps names proper. *)
Context (normal_law : forall p, proper_path p -> proper_path (normalizePath p)) (normal_dot : normalizePath dot = dot).
(** The root is never ignored ([Ignore.Match]). *)
Context (root_kept : R_IsIgnored (ignores dot) = false).
Abbreviation Safe := (safe (sends cfg) results_plausible).
Abbreviation quiet p h := (Safe p h (fun _ _ => True)).

Lemma temp_path p : proper_path p -> proper_path (TempNameWithPrefix sha256 p []).
Proof using.
  clear. intros (ds & Hne & Hd & ->). revert Hne Hd. destruct ds as [|b ds _] using rev_ind; [done|]. intros _ Hd. apply Forall_app in Hd as [Hd Hb]. apply Forall_inv in Hb.
  unfold TempNameWithPrefix. rewrite (Dir_name ds b Hd Hb), (Base_name ds b Hd Hb).
  assert (forall m, PathSeparator ∉ m -> proper ([] ++ m ++ gostr ".tmp")) as Hp.
  { intros m Hm. rewrite app_nil_l, <- (app_nil_r (gostr ".tmp")).
    apply (proper_name_mid m (gostr ".tmp") []); [done|by apply (bool_decide_unpack _)|apply not_elem_of_nil|vm_compute; lia]. }
  set (b' := if _ <? _ then _ else _). assert (proper b') as Hb' by (unfold b'; case_bool; apply Hp; [apply hex_no_sep|by apply proper_sep]).
  exists (ds ++ [b']). split; [by destruct ds|]. split; [apply Forall_app; split; [done|by apply Forall_singleton]|]. by apply Join_rel.
Qed.

Lemma error_quiet context path e h : quiet (handleError context path e) h.
Proof using. by split. Qed.
Definition state_ok (ip : bytes) : Prop := ip = [] \/ proper_path ip.
Abbreviation Walks p h := (Safe p h (fun _ r => state_ok r.1)).

Lemma handle_quiet {B} path info (f : option disk_err -> prog B) h Q : proper_path path ->
  (forall h' e, Safe (f e) h' Q) -> Safe (handleItem samePlatform cfg path info ≫= f) h Q.
Proof using.
  intros Hp Hf. eapply safe_call; [apply item_results; by apply proper_path_ok|]. intros h' e _ _. apply Hf.
Qed.
Lemma after_error context path e (r : bytes * option disk_err) h : state_ok r.1 -> Walks (_ ← handleError context path e; mret r) h.
Proof using. intros Hr. by split. Qed.

(** The directories that were passed over as ignored, down to the item itself. *)
Lemma handle_parents_walks path skip : forall ks jm name ip h, Join [ip; name] = join PathSeparator jm -> jm <> [] -> Forall proper (jm ++ ks) ->
  Walks (handle_parents samePlatform cfg path skip (name :: ks) ip) h.
Proof using.
  induction ks as [|k ks IH]; intros jm name ip h EJ Hne Hp; cbn [handle_parents]; rewrite EJ.
  all: assert (proper_path (join PathSeparator jm)) as Hj by (exists jm; apply Forall_app in Hp as [Hp _]; done).
  all: apply safe_do; [done|]; intros [e|info] _; [apply after_error; by right|].
  all: apply handle_quiet; [done|]; intros h' [e|]; [apply after_error; by right|].
  - by left.
  - apply (IH (jm ++ [k])); [|by destruct jm|by rewrite <- app_assoc].
    apply Forall_app in Hp as [Hj' Hk]. apply Forall_inv in Hk. rewrite <- (Join_rel jm k) by done. by destruct jm.
Qed.
Lemma scan_item_walks path info skip ip h : proper_path path -> state_ok ip -> Walks (scan_item samePlatform cfg path info skip ip) h.
Proof using.
  intros Hp Hip. unfold scan_item.
  assert (forall ip', state_ok ip' -> Walks (err ← handleItem samePlatform cfg path info;
    match err with Some err => _ ← handleError scan_ctx path err; mret (ip', skip) | None => mret (ip', noErr) end) h) as Hh.
  { intros ip' Hs. apply handle_quiet; [done|]. intros h' [e|]; [by apply after_error|done]. }
  destruct Hip as [->|(top & Hne & Ht & ->)]; [apply Hh; by left|]. case_bool; [apply Hh; right; by exists top|].
  destruct Hp as (ds & Hds & Hd & ->). destruct (decide (below ds top)) as [(k & Hk & E)|Hn].
  - rewrite (trimPrefix_below ds top Hd Ht Hne k E Hk). case_bool; [apply Hh; by left|].
    assert (Forall proper k) as Hpk by (rewrite E in Hd; by apply Forall_app in Hd as [_ ?]).
    unfold PathComponents. rewrite split_join; [|done|by apply proper_seps].
    apply (handle_parents_walks _ skip k top); [|done|by apply Forall_app]. cbn [Join]. rewrite Heqb. cbn [join].
    replace (join PathSeparator top) with (render false top) by (by destruct top). by apply Clean_slash.
  - rewrite trimPrefix_not_below by done. rewrite bool_decide_true by done. apply Hh. by left.
Qed.
Lemma normalization_paths path norm info h : proper_path norm ->
  Safe (applyNormalization sha256 path norm info) h (fun _ r => forall p, r = inr p -> proper_path p).
Proof using.
  intros Hn. unfold applyNormalization. apply safe_do; [done|]. intros [e|st] _.
  - case_bool; [|done]. apply safe_do; [done|]. intros [e'|] _; [done|]. by intros p [= <-].
  - apply safe_do; [done|]. intros [|] _; [|done]. apply safe_do; [done|]. intros [e'|] _; [done|].
    apply safe_do; [done|]. intros [e'|] _ p [= <-]; [by apply temp_path|done].
Qed.

Lemma callback_walks path info err ip h : (err = None -> path = dot \/ proper_path path) -> state_ok ip ->
  Walks (walkAndHashFiles sha256 samePlatform ignores normalizePath cfg now path info err ip) h.
Proof using normal_law normal_dot root_kept.
  intros Hp Hip. unfold walkAndHashFiles. apply safe_do; [done|]. intros [e|] _; [done|]. cbv zeta.
  set (skip := match info with Some _ => _ | None => _ end).
  case_bool; [by apply after_error|]. case_bool.
  { destruct err, info; try done. case_bool; [by split|done]. }
  case_bool; [done|]. case_bool.
  { destruct err as [e|]; [done|]. destruct info as [st|]; case_bool; [done| |done|by split].
    case_bool; [|done]. right. cbn [fst]. destruct (Hp eq_refl) as [->|Hpp]; [|by apply normal_law]. exfalso. rewrite normal_dot in *. congruence. }
  destruct err as [e|]; [case_bool; [done|by apply after_error]|]. destruct (Hp eq_refl) as [->|Hpp].
  { rewrite normal_dot, bool_decide_true by done. done. }
  case_bool; [done|]. destruct info as [st|]; [|by split]. case_bool.
  - apply scan_item_walks; [by apply normal_law|done].
  - case_bool; [by apply after_error|]. eapply safe_call; [apply normalization_paths; by apply normal_law|].
    intros h' [e|p] _ Hq; [by apply after_error|]. apply scan_item_walks; [by apply Hq|done].
Qed.

(** *** The walk *)

Abbreviation walkFn := (walkAndHashFiles sha256 samePlatform ignores normalizePath cfg now).
Abbreviation Walked p h := (Safe p h (fun _ (r : bytes * outcome disk_err unit) => state_ok r.1)).

Lemma callback_err path info e ip h : state_ok ip -> Walks (walkFn path info (Some e) ip) h.
Proof using normal_law normal_dot root_kept. intros Hip. by apply callback_walks. Qed.
Lemma walk_names_walks (W : bytes -> Stat -> bytes -> prog (bytes * outcome disk_err unit)) path :
  (forall p info ip h, state_ok ip -> Walked (W p info ip) h) ->
  forall names ip h, state_ok ip -> Walked (walk_names walkFn W path names ip) h.
Proof using normal_law normal_dot root_kept.
  intros HW. induction names as [|name names IH]; intros ip h Hip; cbn [walk_names]; [done|]. apply safe_do; [done|]. intros [e|st] _.
  - eapply safe_call; [by apply callback_err|]. intros h' [ip' [e'|] ] _ Hs; cbn [fst snd] in *; [case_bool; [by apply IH|done]|by apply IH].
  - eapply safe_call; [by apply HW|]. intros h' [ip' [u|e'| |] ] _ Hs; cbn [fst snd] in *; [by apply IH| |done..].
    case_bool; [done|by apply IH].
Qed.
Lemma Contains_quiet info ancestors h : quiet (Contains info ancestors) h.
Proof using.
  clear. revert h. induction ancestors as [|a ancestors IH]; intros h; [done|]. cbn [Contains]. apply safe_do; [done|]. intros [|] _; [done|apply IH].
Qed.
Lemma walk_walks fuel : forall ancestors path info ip h, state_ok ip -> Walked (walk (w_checkRecursion cfg) walkFn fuel ancestors path info ip) h.
Proof using normal_law normal_dot root_kept.
  induction fuel as [|fuel IH]; intros ancestors path info ip h Hip; cbn [walk]; [done|].
  destruct (Canonicalize path) as [p|e| |] eqn:Ec; [|done..]. apply canonical_path in Ec.
  eapply safe_call; [by apply callback_walks|]. intros h1 [ip1 [e1|] ] _ Hs; cbn [fst snd] in *; [done|].
  case_bool; [done|]. eapply safe_call with (P := fun _ _ => True); [by case_bool; [apply Contains_quiet|]|].
  intros h2 [|] _ _; [eapply safe_call; [by apply callback_err|]; by intros h3 [ip3 e3] _ ?|]. cbv zeta.
  apply safe_do; [done|]. intros [e|names] _; [eapply safe_call; [by apply callback_err|]; by intros h3 [ip3 e3] _ ?|].
  apply walk_names_walks; [|done]. intros p' info' ip' h' Hip'. by apply IH.
Qed.
Lemma Walk_fs_walks fuel root ip h : state_ok ip -> Walked (Walk_fs (w_checkRecursion cfg) walkFn fuel root ip) h.
Proof using normal_law normal_dot root_kept.
  intros Hip. unfold Walk_fs. apply safe_do; [done|]. intros [e|info] _; [|by apply walk_walks].
  eapply safe_call; [by apply callback_err|]. by intros h3 [ip3 e3] _ ?.
Qed.
Lemma traverses_quiet n h : quiet (TraversesSymlink n) h.
Proof using.
  clear. unfold TraversesSymlink. destruct (Canonicalize n) as [p| | |]; [|done..]. case_bool; [done|]. generalize ([] : bytes) as path.
  generalize (PathComponents p) as parts. intros parts. revert h. induction parts as [|x parts IH]; intros h path; [done|]. cbn [traverse].
  apply safe_do; [done|]. intros [e|st] _; [done|]. case_bool; [done|]. case_bool; [done|apply IH].
Qed.
(** Everything that a walk sends is accepted, or a file to be hashed with an accepted name. *)
Lemma scan_quiet fuel h : quiet (scan sha256 samePlatform ignores normalizePath cfg fuel now) h.
Proof using normal_law normal_dot root_kept.
  unfold scan. destruct (Subs cfg) as [|sub subs].
  { eapply safe_call; [apply Walk_fs_walks; by left|]. by intros h' [ip r] _ _. }
  generalize (sub :: subs) as l. clear sub subs. intros l. assert (state_ok []) as Hip by (by left). revert Hip. generalize ([] : bytes) as ip.
  revert h. induction l as [|sub l IH]; intros h ip Hip; cbn [scan_subs]; [done|].
  eapply safe_call with (P := fun _ _ => True); [apply traverses_quiet|]. intros h1 [e|] _ _; [by apply IH|].
  eapply safe_call; [by apply Walk_fs_walks|]. intros h2 [ip2 [u|e| |] ] _ Hs; cbn [fst snd] in *; by try apply IH.
Qed.
End Walked.

(** ** The scans *)

(** A record as the database gives it back, with other flags of the database and another sequence number. *)
Definition stored_as (f g : FileInfo) : Prop :=
  Name g = Name f /\ Deleted g = Deleted f /\ Type_ g = Type_ f /\ Blocks g = Blocks f /\ IsInvalid g = IsInvalid f.
Lemma stored_consistent f g : stored_as f g -> consistent f -> consistent g.
Proof. intros (E1 & E2 & E3 & E4 & E5). rewrite !consistent_iff. unfold content_ok. by rewrite E1, E2, E3, E4, E5. Qed.

Definition calls {A} (F : call -> list A) (h : history) : list A := flat_map (fun e => F (ev_call e)) h.
Lemma elem_of_calls {A} (F : call -> list A) h x : x ∈ calls F h <-> exists e, e ∈ h /\ x ∈ F (ev_call e).
Proof. unfold calls. rewrite list_elem_of_In, in_flat_map. by setoid_rewrite list_elem_of_In. Qed.
Definition stored : history -> list FileInfo := calls (fun c => match c with UpdateLocals fs => fs | _ => [] end).
Definition sent : history -> list FileInfo := calls (fun c => match c with SendResult f => [f] | _ => [] end).
Definition to_be_hashed : history -> list FileInfo := calls (fun c => match c with SendHash f => [f] | _ => [] end).
Definition cached : history -> list FileInfo := calls (fun c => match c with CacheSet _ _ _ f => [f] | _ => [] end).
Lemma allowed_in A h e : all_allowed A h -> e ∈ h -> exists t, A t (ev_call e).
Proof. induction h as [|x h IH]; intros Ha Hin; [by apply not_elem_of_nil in Hin|]. destruct Ha. apply elem_of_cons in Hin as [->|?]; eauto. Qed.

Section Scans.
Context (sha256 : bytes -> bytes) (samePlatform : PlatformData -> PlatformData -> bool) (normalizePath : bytes -> bytes).
Context (protoSize : bep_FileInfo -> Z) (NativeFilename : bytes -> bytes).

(** The cache gives what was put in; a file of at most 2^42 bytes is hashed by [scanner.HashFile]. *)
Definition walk_answer (cache : list FileInfo) (c : call) : answer c -> Prop :=
  match c with
  | CacheLookup _ _ _ => fun r => match r with Some f => f ∈ cache | None => True end
  | HashFile _ blockSize => fun r => exists cancelled file n counter, blockSize = Z.of_nat n /\ (0 < n)%nat /\
      (forall fd st, file = inr fd -> o_before fd = inr st -> st_Size st <= 2 ^ 42) /\
      match r with inr bs => (scanner_HashFile sha256 cancelled file blockSize counter).2 = Ret bs | inl e => True end
  | _ => fun _ => True
  end.
(** The database gives back what was in it before the scan, or was written by it; the
    results are those of the walk and the hashing. *)
Definition in_db (db : list FileInfo) (t : history) (g : FileInfo) : Prop := exists f, f ∈ stored t ++ db /\ stored_as f g.
Definition scan_answer (db found : list FileInfo) (t : history) (c : call) (r : answer c) : Prop :=
  lstat_plain r /\
  match c return answer c -> Prop with
  | NextResult => fun r => match r with Some (inr f) => f ∈ found | _ => True end
  | GetDeviceFile _ | GetGlobalFile _ => fun r => match r with inr (f, true) => in_db db t f | _ => True end
  | AllLocalFilesWithPrefix _ => fun r => forall f, inr f ∈ r -> in_db db t f
  | _ => fun _ => True
  end r.

(** One scan: the walk, with history [hw], hands files to goroutines, with histories [hh], that hash
    them (or pass them on, in a folder of encrypted files), and [scanSubdirs], with history [h], takes in the results. *)
Record scanned (db cache : list FileInfo) (cfg : folderScanCfg) (hw : history) (hh : list history) (h : history) : Prop := {
  sc_walk : exists ignores wcfg fuel now r, R_IsIgnored (ignores dot) = false /\ w_LocalFlags wcfg = localFlags (sf_Type cfg) /\
    runs (scan sha256 samePlatform ignores normalizePath wcfg fuel now) [] hw r /\
    forall h', h' ∈ hh -> exists f, f ∈ to_be_hashed hw /\ runs (if isEncrypted (sf_Type cfg) then pass_item f else hash_item sha256 wcfg f) [] h' tt;
  sc_answers : forall h', h' ∈ hw :: hh -> all_plausible (walk_answer cache) h';
  sc_scan : exists ignores fuel subs r, runs (scanSubdirs protoSize samePlatform ignores cfg NativeFilename fuel subs) [] h r;
  sc_read : forall t t' c r, h = t' ++ Event c r :: t -> scan_answer db (flat_map sent (hw :: hh)) t c r }.

(** The records that were ever in the database and in the cache: those that came from elsewhere
    (other devices, the puller), which passed the check, and those that scans wrote. *)
Inductive reached : list FileInfo -> list FileInfo -> Prop :=
  | reached_new : reached [] []
  | reached_elsewhere db cache f : reached db cache -> consistent f -> reached (f :: db) cache
  | reached_scan db cache cfg hw hh h : reached db cache -> scanned db cache cfg hw hh h ->
      reached (stored h ++ db) (flat_map cached hh ++ cache).

Context (normal_law : forall p, proper_path p -> proper_path (normalizePath p)) (normal_dot : normalizePath dot = dot).
Abbreviation Accepts cfg := (all_allowed (writes cfg accepted (fun _ _ => True))).

Lemma hashed_blocks cancelled file n counter bs : (0 < n)%nat -> (forall fd st, file = inr fd -> o_before fd = inr st -> st_Size st <= 2 ^ 42) ->
  (scanner_HashFile sha256 cancelled file (Z.of_nat n) counter).2 = Ret bs -> bs <> [].
Proof using.
  clear. intros Hn Hs. unfold scanner_HashFile. destruct file as [e|fd]; [done|]. destruct (o_before fd) as [e|st] eqn:Eb; [done|].
  pose proof (Blocks_spec sha256 cancelled (o_content fd) n (st_Size st) counter Hn (Hs _ _ eq_refl Eb)) as HB.
  unfold mbind, sm_bind. destruct (scanner_Blocks _ _ _ _ _ _) as [c [bs'|e| |] ]; cbn [snd] in HB |- *; [|done..].
  destruct (o_after fd); [done|]. case_bool; [done|]. intros [= <-]. rewrite HB. unfold blocks_of. case_bool; [done|].
  set (data := expected _ _) in *. assert (0 < piece_count n data)%nat as Hc by (apply piece_count_spec; [done|]; destruct data; [done|cbn; lia]).
  destruct (piece_count n data); [lia|done].
Qed.
Lemma answers_plausible cache h : Forall hashed cache -> all_plausible (walk_answer cache) h -> all_plausible results_plausible h.
Proof using.
  clear. intros Hc. apply List.Forall_impl. intros [c r]. destruct c; try done; cbn.
  - intros (cancelled & file & n & counter & -> & Hn & Hs & H). destruct r; [done|]. by eapply hashed_blocks.
  - destruct r; [|done]. intros Hf. by apply (proj1 (List.Forall_forall _ _) Hc), list_elem_of_In.
Qed.

(** What the walk and the hashing hand over. *)
Lemma walk_sends cache cfg hw hh db h : Forall hashed cache -> scanned db cache cfg hw hh h ->
  Forall (fun f => consistent f) (flat_map sent (hw :: hh)) /\ Forall hashed (flat_map cached hh).
Proof using normal_law normal_dot.
  intros Hc [ (ignores & wcfg & fuel & now & r & Hdot & Hl & Hw & Hh) Ha _ _].
  assert (forall h', h' ∈ hw :: hh -> all_plausible results_plausible h') as Hp by (intros h' Hin; by eapply answers_plausible, Ha).
  pose proof (safe_runs (sends wcfg) results_plausible _ [] (fun _ _ => True) hw r
    (scan_quiet sha256 samePlatform ignores normalizePath wcfg now normal_law normal_dot Hdot fuel []) I Hw (Hp _ ltac:(left))) as [Hsw _].
  assert (forall h', h' ∈ hh -> all_allowed (sends wcfg) h') as Hsh.
  { intros h' Hin. destruct (Hh h' Hin) as (f & Hf & Hr). apply elem_of_calls in Hf as (e & He & Hf).
    destruct (allowed_in _ _ _ Hsw He) as [t Ht]. destruct (ev_call e); try by apply not_elem_of_nil in Hf. apply list_elem_of_singleton in Hf as ->.
    cbn in Ht. refine (proj1 (safe_runs (sends wcfg) results_plausible _ [] (fun _ _ => True) h' tt _ I Hr (Hp h' ltac:(by right)))).
    case_bool; [|by apply hash_results]. apply pass_results; [done|]. rewrite Hl. by destruct (sf_Type cfg). }
  split; apply List.Forall_forall; intros f (h' & Hin & Hf)%in_flat_map; apply list_elem_of_In in Hin, Hf;
    apply elem_of_calls in Hf as (e & He & Hf).
  - assert (all_allowed (sends wcfg) h') as Hs by (apply elem_of_cons in Hin as [->|?]; auto). destruct (allowed_in _ _ _ Hs He) as [t Ht].
    destruct (ev_call e); try by apply not_elem_of_nil in Hf. by apply list_elem_of_singleton in Hf as ->.
  - destruct (allowed_in _ _ _ (Hsh h' Hin) He) as [t Ht].
    destruct (ev_call e); try by apply not_elem_of_nil in Hf. by apply list_elem_of_singleton in Hf as ->.
Qed.
Lemma scan_accepted db cache cfg hw hh h : Forall (fun f => consistent f) db -> Forall hashed cache -> scanned db cache cfg hw hh h -> Accepts cfg h.
Proof using normal_law normal_dot.
  intros Hdb Hc Hs. destruct (walk_sends _ _ _ _ _ _ Hc Hs) as [Hsent _]. destruct Hs as [_ _ (ignores & fuel & subs & r & Hrun) Hread].
  eapply scan_writes_accepted; [exact Hrun|]. intros t t' c a E Ht. destruct (Hread t t' c a E) as [Hl Ha]. split; [done|].
  assert (forall f, in_db db t f -> consistent f) as Hin.
  { intros g (f & [Hf|Hf]%elem_of_app & Hg); apply (stored_consistent f g Hg).
    - apply elem_of_calls in Hf as (e & He & Hf). destruct (allowed_in _ _ _ Ht He) as [t0 Hw].
      destruct (ev_call e); try by apply not_elem_of_nil in Hf. by apply (proj1 (List.Forall_forall _ _) Hw), list_elem_of_In.
    - by apply (proj1 (List.Forall_forall _ _) Hdb), list_elem_of_In. }
  destruct c; try exact I; cbn in Ha |- *.
  all: match goal with
    | a : answer NextResult |- _ => destruct a as [ [ [p e]|f]|]; [done|by apply (proj1 (List.Forall_forall _ _) Hsent), list_elem_of_In|done]
    | a : answer (AllLocalFilesWithPrefix _) |- _ => intros f Hf; by apply Hin, Ha
    | a : answer _ |- _ => destruct a as [e|[f []] ]; [done|by apply Hin|done]
    end.
Qed.
Lemma reached_ok db cache : reached db cache -> Forall (fun f => consistent f) db /\ Forall hashed cache.
Proof using normal_law normal_dot.
  induction 1 as [|db cache f _ [IH1 IH2] Hf|db cache cfg hw hh h _ [IH1 IH2] Hs]; [done|by split; [constructor|]|].
  split; apply Forall_app; (split; [|done]); [|by eapply walk_sends].
  apply List.Forall_forall. intros f Hf%list_elem_of_In. apply elem_of_calls in Hf as (e & He & Hf).
  destruct (allowed_in _ _ _ (scan_accepted _ _ _ _ _ _ IH1 IH2 Hs) He) as [t Ht]. destruct (ev_call e); try by apply not_elem_of_nil in Hf.
  by apply (proj1 (List.Forall_forall _ _) Ht), list_elem_of_In.
Qed.
(** C27: Every record that was ever in the database passes the checks with which
    devices protect themselves from each other, on this device and as another one
    reads it from the network, if the records that did not come from a scan do
    ([reached_elsewhere]: those of other devices, which the connection checks, and
    of the puller); and a scan that starts from such a database writes only such
    records.  A scan is the walk, the goroutines that hash what it finds, and
    [scanSubdirs], which takes in their results and reads back, with other flags of
    the database, what was in it or what was written by then.  Whatever is on
    disk and however it changes, the names are those that [Canonicalize] lets
    through; normalisation is assumed to keep proper elements of a path proper,
    the root not to be ignored, and hashed files to have at most 2^42 bytes. *)
Theorem scan_records_accepted db cache (Hr : reached db cache) :
  Forall (accepted []) db /\ forall cfg hw hh h, scanned db cache cfg hw hh h -> Accepts cfg h.
Proof using normal_law normal_dot.
  destruct (reached_ok db cache Hr) as [Hdb Hc]. split; [|intros cfg hw hh h; by apply scan_accepted].
  eapply List.Forall_impl; [|exact Hdb]. intros f Hf. split; [done|]. intros g. by apply wire_consistent.
Qed.
End Scans.

(** ** A new file in a new directory *)

Section Read.
Context (respond : history -> forall c : call, option (answer c)) (A : history -> forall c : call, answer c -> Prop).
Context (Hrespond : forall h c r, respond h c = Some r -> A h c r).
Lemma exec_with_read {B} (p : prog B) h h' a : FolderScanCovers.exec_with respond p h = Some (h', a) ->
  (forall t t' c r, h = t' ++ Event c r :: t -> A t c r) -> forall t t' c r, h' = t' ++ Event c r :: t -> A t c r.
Proof using Hrespond.
  revert h. induction p as [a'|c k IH]; intros h; cbn; [by intros [= <- _]|]. destruct (respond h c) as [r|] eqn:E; [|done].
  intros H Hold. apply (IH r _ H). intros t t' c' r' Es. destruct t' as [|e t']; [|injection Es as _ Es; by eapply Hold].
  pose proof (f_equal (fun l => match l with e :: _ => e | [] => Event c r end) Es) as Ee.
  pose proof (f_equal (fun l => match l with _ :: t => t | [] => [] end) Es) as Et. cbn in Ee, Et. subst t.
  change (A h (ev_call (Event c' r')) (ev_answer (Event c' r'))). rewrite <- Ee. by apply Hrespond.
Qed.
End Read.

(** The walk sends the directory [docs] as it is and [docs/a.txt] to be hashed; then the
    scan writes both, and reads them back. *)
Abbreviation docs := (gostr "docs").
Abbreviation a_txt := (gostr "a.txt").
Definition ex_walked := ScanWalkProps.ex_scan docs a_txt.
Definition ex_hw : history := match ex_walked with Some (h, _) => h | None => [] end.
Lemma ex_walk_run : ex_walked = Some (ex_hw, Ret tt).
Proof. by vm_compute. Qed.
Definition ex_hashing (c : call) : option (answer c) :=
  match c return option (answer c) with
  | HashFile _ blockSize =>
      if 0 <? blockSize then
        match (scanner_HashFile (fun b => b) (fun _ => false) (inr ex_open) blockSize []).2 with Ret bs => Some (inr bs) | _ => None end
      else None
  | SendResult _ => Some None
  | _ => None
  end.
Definition ex_file : FileInfo := match to_be_hashed ex_hw with f :: _ => f | [] => emptyFileInfo end.
Definition ex_hashed := exec ex_hashing (hash_item (fun b => b) (ScanWalkProps.ex_cfg) ex_file) [].
Definition ex_hh : history := match ex_hashed with Some (h, _) => h | None => [] end.
Lemma ex_hash_run : ex_hashed = Some (ex_hh, tt).
Proof. by vm_compute. Qed.
Definition results_read (h : history) : nat := length (calls (fun c => match c with NextResult => [tt] | _ => [] end) h).
Definition ex_scanning (found : list FileInfo) (h : history) (c : call) : option (answer c) :=
  match c return option (answer c) with
  | NextResult => Some (inr <$> found !! results_read h)
  | AllLocalFilesWithPrefix _ => Some (inr <$> stored h)
  | AllLocalFilesWithBlocksHash _ => Some []
  | Lstat n => Some (ScanWalkProps.ex_lstat docs a_txt n)
  | c => ex_respond [] (fun _ => None) false c
  end.
Lemma ex_scanning_reads found h c r : ex_scanning found h c = Some r -> scan_answer [] found h c r.
Proof.
  intros H. split; destruct c; cbn [ex_scanning ex_respond] in H; try exact I; try (by injection H as <-); try discriminate H.
  - cbn. injection H as <-. unfold ScanWalkProps.ex_lstat. by repeat case_decide.
  - injection H as <-. destruct (found !! results_read h) as [f|] eqn:E; [|done]. by eapply list_elem_of_lookup_2.
  - injection H as <-. intros f Hf. apply list_elem_of_fmap in Hf as (g & [= ->] & Hg). exists g. split; [by rewrite app_nil_r|done].
Qed.
Definition ex_found : list FileInfo := flat_map sent [ex_hw; ex_hh].
Definition ex_scan := FolderScanCovers.exec_with (ex_scanning ex_found)
  (scanSubdirs (fun _ => 0) (fun _ _ => false) (fun _ => 0) ex_scan_cfg (fun n => n) 4 []) [].
Definition ex_h : history := match ex_scan with Some (h, _) => h | None => [] end.
Lemma ex_scan_run : ex_scan = Some (ex_h, Ret tt).
Proof. by vm_compute. Qed.
Lemma ex_walk_answers c r : ScanWalkProps.ex_respond docs a_txt c = Some r -> walk_answer (fun b => b) [] c r.
Proof. by destruct c. Qed.
Lemma ex_hash_answers c r : ex_hashing c = Some r -> walk_answer (fun b => b) [] c r.
Proof.
  destruct c; try done. cbn [ex_hashing walk_answer]. destruct (Z.ltb_spec 0 blockSize) as [Hb|_]; [|done].
  destruct (scanner_HashFile _ _ _ _ _).2 as [bs|e| |] eqn:E; try done. intros [= <-].
  exists (fun _ => false), (inr ex_open), (Z.to_nat blockSize), []. split; [lia|]. split; [lia|]. split; [|exact E].
  intros fd st [= <-] [= <-]. cbn. lia.
Qed.
Lemma ex_scanned : scanned (fun b => b) (fun _ _ => false) (fun p => p) (fun _ => 0) (fun n => n) [] [] ex_scan_cfg ex_hw [ex_hh] ex_h.
Proof.
  constructor.
  - exists (fun _ => 0), ScanWalkProps.ex_cfg, 4%nat, {| tsec := 0; tnsec := 0 |}, (Ret tt). split; [done|]. split; [done|].
    split; [exact (exec_runs _ _ _ _ _ ex_walk_run)|]. intros h' ->%list_elem_of_singleton. exists ex_file. split.
    + assert (to_be_hashed ex_hw = [ex_file]) as -> by (by vm_compute). by left.
    + exact (exec_runs _ _ _ _ _ ex_hash_run).
  - intros h' [->|Hh]%elem_of_cons; [|apply list_elem_of_singleton in Hh as ->].
    + exact (exec_plausible _ _ _ _ _ _ ex_walk_answers ex_walk_run (List.Forall_nil _)).
    + exact (exec_plausible _ _ _ _ _ _ ex_hash_answers ex_hash_run (List.Forall_nil _)).
  - exists (fun _ => 0), 4%nat, [], (Ret tt). exact (FolderScanCovers.exec_with_runs _ _ _ _ _ ex_scan_run).
  - intros t t' c r E. eapply exec_with_read; [apply ex_scanning_reads|exact ex_scan_run| |exact E]. intros [] [] ? ? ?; done.
Qed.
Lemma scan_records_accepted_witness :
  map (fun f => (Name f, length (Blocks f))) (stored ex_h) = [(gostr "docs", 0%nat); (gostr "docs/a.txt", 1%nat)] /\
  reached (fun b => b) (fun _ _ => false) (fun p => p) (fun _ => 0) (fun n => n) (stored ex_h ++ []) (flat_map cached [ex_hh] ++ []) /\
  Forall (accepted []) (stored ex_h ++ []).
Proof.
  assert (reached (fun b => b) (fun _ _ => false) (fun p => p) (fun _ => 0) (fun n => n) (stored ex_h ++ []) (flat_map cached [ex_hh] ++ [])) as Hr
    by (eapply reached_scan; [apply reached_new|exact ex_scanned]).
  split; [by vm_compute|]. split; [exact Hr|].
  exact (proj1 (scan_records_accepted (fun b => b) (fun _ _ => false) (fun p => p) (fun _ => 0) (fun n => n) (fun _ H => H) eq_refl _ _ Hr)).
Defined.
