(* ===== verification/Ignore.v ===== *)
(** * Ignore patterns (lib/ignore)

    The results of a match, the parser of ignore files with their includes and
    escape characters, the matcher with its cache, and the detection of changed
    files.  Globs are compiled by a library that is a parameter. *)
From Stdlib Require Import ZArith List Lia.
From Stdlib Require Import Strings.Byte.
From stdpp Require Import base list option gmap numbers tactics.
From S2P Require Import Prelude GoLib FileInfo Paths Disk PullItems ScanWalk.

#[local] Open Scope Z_scope.

(** ** Results (lib/ignore/ignoreresult) *)

Definition foldCaseBit : Z := 4.
Definition NotIgnored : Z := 0.
(** On systems with case-sensitive names. *)
Definition Ignored : Z := ignoreBit.
Definition IgnoreAndSkip : Z := Z.lor Ignored canSkipDirBit.
Definition R_IsCaseFolded (r : Z) : bool := negb (Z.land r foldCaseBit =? 0).
Definition ToggleIgnored (r : Z) : Z := Z.lxor r ignoreBit.
Definition WithDeletable (r : Z) : Z := Z.lor r deletableBit.
Definition WithFoldCase (r : Z) : Z := Z.lor r foldCaseBit.
Definition WithSkipDir (r : Z) : Z := Z.lor r canSkipDirBit.

(** ** Go's strings *)

(** The encodings of the characters of [unicode.IsSpace]. *)
Definition spaces : list bytes :=
  map (map z2b) [ [9]; [10]; [11]; [12]; [13]; [32]; [194; 133]; [194; 160]; [225; 154; 128]; [226; 128; 168]; [226; 128; 169];
                  [226; 128; 175]; [226; 129; 159]; [227; 128; 128] ] ++
  map (fun n => map z2b [226; 128; 128 + Z.of_nat n]) (seq 0 11).
Fixpoint trim_left (fuel : nat) (sps : list bytes) (s : bytes) : bytes :=
  match fuel with
  | O => s
  | S fuel => match List.find (hasPrefix s) sps with Some sp => trim_left fuel sps (drop (length sp) s) | None => s end
  end.
(** [strings.TrimSpace] *)
Definition TrimSpace (s : bytes) : bytes :=
  let s := trim_left (length s) spaces s in
  reverse (trim_left (length s) (map reverse spaces) (reverse s)).
Fixpoint replace_loop (fuel : nat) (old new s : bytes) : bytes :=
  match fuel, s with
  | O, _ | _, [] => s
  | S fuel, c :: s' => if hasPrefix s old then new ++ replace_loop fuel old new (drop (length old) s) else c :: replace_loop fuel old new s'
  end.
(** [strings.ReplaceAll] for a nonempty string. *)
Definition ReplaceAll (s old new : bytes) : bytes := replace_loop (length s) old new s.
Definition lower (c : byte) : byte := if between c 65 90 then z2b (b2z c + 32) else c.
(** The length of the first character; a byte that starts none is one. *)
Definition runeLen (s : bytes) : nat :=
  match s with
  | [] => 0
  | a :: _ => let n := if b2z a <? 128 then 1%nat else if b2z a <? 224 then 2%nat else if b2z a <? 240 then 3%nat else 4%nat in
              if (n <=? length s)%nat && validString (take n s) then n else 1%nat
  end.

(** ** Patterns *)

Record Pattern := { pattern : bytes; match_ : bytes -> bool; result : Z }.
Definition Pattern_String (p : Pattern) : bytes :=
  let ret := if R_IsIgnored (result p) then pattern p else gostr "!" ++ pattern p in
  let ret := if R_IsCaseFolded (result p) then gostr "(?i)" ++ ret else ret in
  if R_IsDeletable (result p) then gostr "(?d)" ++ ret else ret.
Definition allowsSkippingIgnoredDirs (p : Pattern) : bool :=
  if R_IsIgnored (result p) then true
  else
    match pattern p with
    | c :: _ =>
        if negb (bool_decide (c = PathSeparator)) then false
        else
          match trimSuffix (pattern p) (gostr "/**") with
          | [] => true
          | (_ :: rest) as pat =>
              if bool_decide (PathSeparator ∈ rest) then false
              else negb (contains (trimSuffix pat (gostr "**")) (gostr "**"))
          end
    | [] => false (* an empty pattern is not made *)
    end.

(** ** Files *)

(** A file system is known by its identity. *)
Record fsys := { fs_id : nat; fs_basic : bool; fs_uri : bytes }.
(** What is on disk: the contents, whether reading fails after them, and the time. *)
Record world := { w_open : fsys -> bytes -> disk_err + (bytes * bool * GoTime); w_stat : fsys -> bytes -> option GoTime }.

(** The default change detector. *)
Definition detector : Type := gmap (nat * bytes) (fsys * GoTime).
Definition Remember (f : fsys) (name : bytes) (modtime : GoTime) (cd : detector) : detector := <[(fs_id f, name) := (f, modtime)]> cd.
Definition Seen (f : fsys) (name : bytes) (cd : detector) : bool := bool_decide (is_Some (cd !! (fs_id f, name))).
Definition Changed (w : world) (cd : detector) : bool :=
  existsb (fun x => match w_stat w x.2.1 x.1.2 with
                    | Some t => negb (time_Equal t x.2.2)
                    | None => true
                    end) (map_to_list cd).

Inductive ignore_err :=
  | ErrReading | ErrTooLongLine | ErrEscapeTwice | ErrEscapeLate | ErrEscapeBad (line : bytes) | ErrMissingPattern (line : bytes)
  | ErrGlob (line : bytes) | ErrIncludeNoFile | ErrMultipleInclude | ErrIncludeMissing | ErrIncludeOpen (e : disk_err)
  | ErrInclude (file : bytes) (e : ignore_err).
(** The errors that [parseError] wraps; the error of an included file is in one. *)
Definition IsParseError (e : ignore_err) : bool :=
  match e with ErrMissingPattern _ | ErrGlob _ | ErrIncludeNoFile | ErrInclude _ _ => true | _ => false end.

Record parser := { changeDetector_ : detector; linesSeen : gset bytes; nextFs : nat }.
Definition set_detector (cd : detector) (st : parser) : parser :=
  {| changeDetector_ := cd; linesSeen := linesSeen st; nextFs := nextFs st |}.
Definition see_line (line : bytes) (st : parser) : parser :=
  {| changeDetector_ := changeDetector_ st; linesSeen := {[line]} ∪ linesSeen st; nextFs := nextFs st |}.

Section Ignore.
(** [glob.Compile(s, '/')], [norm.NFC.String], [unicode.ToLower] of the characters beyond ASCII. *)
Context (compile : bytes -> option (bytes -> bool)) (NFC : bytes -> bytes) (lowerRune : bytes -> bytes).
(** SHA-256 in hexadecimal *)
Context (sha256hex : bytes -> bytes).

(** [strings.ToLower] *)
Fixpoint lower_loop (fuel : nat) (s : bytes) : bytes :=
  match fuel, s with
  | O, _ | _, [] => []
  | S fuel, c :: s' =>
      if b2z c <? 128 then lower c :: lower_loop fuel s'
      else lowerRune (take (runeLen s) s) ++ lower_loop fuel (drop (runeLen s) s)
  end.
Definition ToLower (s : bytes) : bytes := lower_loop (length s) s.

(** ** Parsing a line *)

(** The prefixes, each at most once: the rest of the line, and the result. *)
Fixpoint prefixes (fuel : nat) (neg fold del : bool) (line : bytes) (r : Z) : bytes * Z :=
  match fuel with
  | O => (line, r)
  | S fuel =>
      if hasPrefix line (gostr "!") && negb neg then prefixes fuel true fold del (drop 1 line) (ToggleIgnored r)
      else if hasPrefix line (gostr "(?i)") && negb fold then prefixes fuel neg true del (drop 4 line) (WithFoldCase r)
      else if hasPrefix line (gostr "(?d)") && negb del then prefixes fuel neg fold true (drop 4 line) (WithDeletable r)
      else (line, r)
  end.
(** The error names the line as it was given. *)
Definition one_pattern (orig text : bytes) (glob_ : bytes) (r : Z) : ignore_err + Pattern :=
  match compile glob_ with
  | Some m => inr {| pattern := text; match_ := m; result := r |}
  | None => inl (ErrGlob orig)
  end.
Definition two_patterns (orig a b : bytes) (r : Z) : ignore_err + list Pattern :=
  match one_pattern orig a a r with
  | inl e => inl e
  | inr p => match one_pattern orig b b r with inl e => inl e | inr q => inr [p; q] end
  end.
Definition parseLine (orig : bytes) : ignore_err + list Pattern :=
  let '(line, r) := prefixes 3 false false false (NFC orig) Ignored in
  if is_nil line then inl (ErrMissingPattern orig)
  else
    let line := if R_IsCaseFolded r then ToLower line else line in
    if hasPrefix line (gostr "/") then
      match one_pattern orig line (drop 1 line) r with inl e => inl e | inr p => inr [p] end
    else if hasPrefix line (gostr "**/") then two_patterns orig line (drop 3 line) r
    else two_patterns orig line (gostr "**/" ++ line) r.

(** ** Parsing a file *)

(** [bufio.Scanner] with its longest line, and [TrimSpace]. *)
Definition maxScanTokenSize : Z := 64 * 1024.
Definition scan_lines (content : bytes) (failing : bool) : ignore_err + list bytes :=
  let parts := split (z2b 10) content in
  let parts := match reverse parts with [] :: rest => reverse rest | _ => parts end in
  if existsb (fun l => maxScanTokenSize <=? zlen l) parts then inl ErrTooLongLine
  else if failing then inl ErrReading
  else inr (map TrimSpace parts).

Definition escapePrefix : bytes := gostr "#escape".
Definition backslash : bytes := gostr "\".
(** The bytes of the character after [#escape=]. *)
Definition escape_char (line : bytes) : option bytes :=
  match cut (z2b 61) (TrimSpace (trimPrefix line escapePrefix)) with
  | Some ([], esc) =>
      let esc := TrimSpace esc in
      if negb (is_nil esc) && (runeLen esc =? length esc)%nat then
        Some (if validString esc then esc else map z2b [239; 191; 189])
      else None
  | _ => None
  end.
Definition unescape (esc line : bytes) : bytes :=
  if bool_decide (esc = backslash) then line
  else ReplaceAll (ReplaceAll line esc backslash) (gostr "\\") (backslash ++ esc).

Definition add_patterns (line : bytes) (ps : list Pattern) : ignore_err + list Pattern :=
  match parseLine line with inl e => inl e | inr new => inr (ps ++ new) end.
(** A line with patterns. *)
Definition pattern_line (line : bytes) (ps : list Pattern) : ignore_err + list Pattern :=
  if hasSuffix line (gostr "/**") then add_patterns line ps
  else if hasSuffix line (gostr "/") then add_patterns (line ++ gostr "**") ps
  else match add_patterns line ps with inl e => inl e | inr ps => add_patterns (line ++ gostr "/**") ps end.

Section Lines.
(** [loadParseIncludeFile] *)
Context (include : bytes -> parser -> parser * outcome ignore_err (list Pattern)).
Context (currentFile : bytes).
(** The patterns, how many of them are included ones, the escape character and whether it was set. *)
Fixpoint parse_lines (lines : list bytes) (ps : list Pattern) (included : nat) (esc : bytes) (escSeen : bool) (st : parser) :
  parser * outcome (bool * ignore_err) (list Pattern) :=
  match lines with
  | [] => (st, Ret ps)
  | line :: lines =>
      if hasPrefix line escapePrefix then
        if escSeen then (st, Err (false, ErrEscapeTwice))
        else if (0 <? length ps - included)%nat then (st, Err (false, ErrEscapeLate))
        else
          match escape_char line with
          | Some esc => parse_lines lines ps included esc true st
          | None => (st, Err (false, ErrEscapeBad line))
          end
      else if bool_decide (line ∈ linesSeen st) then parse_lines lines ps included esc escSeen st
      else
        let st := see_line line st in
        if is_nil line || hasPrefix line (gostr "//") then parse_lines lines ps included esc escSeen st
        else
          let line := unescape esc line in
          if hasPrefix line (gostr "#include") then
            match cut (z2b 32) line with
            | None => (st, Err (true, ErrIncludeNoFile))
            | Some (_, rel) =>
                let rel := TrimSpace rel in
                if is_nil rel then (st, Err (true, ErrIncludeNoFile))
                else
                  let file := Join [Dir currentFile; rel] in
                  match include file st with
                  | (st, Ret new) => parse_lines lines (ps ++ new) (included + length new) esc escSeen st
                  | (st, Err e) => (st, Err (true, ErrInclude file e))
                  | (st, Panic) => (st, Panic)
                  | (st, OutOfFuel) => (st, OutOfFuel)
                  end
            end
          else
            match pattern_line line ps with
            | inl e => (st, Err (true, e))
            | inr ps => parse_lines lines ps included esc escSeen st
            end
  end.
(** [parseIgnoreFile]: the lines, also with most errors, and the patterns or the error. *)
Definition parse_with (content : bytes) (failing : bool) (st : parser) : parser * list bytes * outcome ignore_err (list Pattern) :=
  match scan_lines content failing with
  | inl e => (st, [], Err e)
  | inr lines =>
      match parse_lines lines [] 0 backslash false st with
      | (st, Ret ps) => (st, lines, Ret ps)
      | (st, Err (keep, e)) => (st, if keep : bool then lines else [], Err e)
      | (st, Panic) => (st, [], Panic)
      | (st, OutOfFuel) => (st, [], OutOfFuel)
      end
  end.
End Lines.

(** A file outside of the folder is opened in a file system of its own. *)
Definition include_target (f : fsys) (file : bytes) (st : parser) : fsys * bytes * parser :=
  let joined := Join [fs_uri f; file] in
  if fs_basic f && negb (IsParent joined (fs_uri f)) then
    ({| fs_id := nextFs st; fs_basic := true; fs_uri := Dir joined |}, Base joined,
     {| changeDetector_ := changeDetector_ st; linesSeen := linesSeen st; nextFs := S (nextFs st) |})
  else (f, file, st).
Fixpoint loadParseIncludeFile (fuel : nat) (w : world) (f : fsys) (file : bytes) (st : parser) :
  parser * outcome ignore_err (list Pattern) :=
  match fuel with
  | O => (st, OutOfFuel)
  | S fuel =>
      let '(f, file, st) := include_target f file st in
      if Seen f file (changeDetector_ st) then (st, Err ErrMultipleInclude)
      else
        match w_open w f file with
        | inl e => (st, Err (if is_not_exist e then ErrIncludeMissing else ErrIncludeOpen e))
        | inr (content, failing, modtime) =>
            let '(st, _, r) := parse_with (loadParseIncludeFile fuel w f) file content failing
                                 (set_detector (Remember f file modtime (changeDetector_ st)) st) in
            (st, r)
        end
  end.
Definition parseIgnoreFile (fuel : nat) (w : world) (f : fsys) (content : bytes) (failing : bool) (currentFile : bytes) (st : parser) :=
  parse_with (loadParseIncludeFile fuel w f) currentFile content failing st.

(** ** The cache (lib/ignore/cache.go) *)

Definition cache : Type := gmap bytes (Z * Z).
Definition cache_get (key : bytes) (now : Z) (c : cache) : cache * option Z :=
  match c !! key with
  | Some (r, _) => (<[key := (r, now)]> c, Some r)
  | None => (c, None)
  end.
Definition cache_set (key : bytes) (r now : Z) (c : cache) : cache := <[key := (r, now)]> c.
Definition cache_clean (d now : Z) (c : cache) : cache := filter (fun x => now - x.2.2 <= d) c.

(** ** The matcher *)

Record Matcher :=
  { m_fs : fsys; lines_ : list bytes; patterns : list Pattern; withCache : bool; matches : option cache; curHash : bytes;
    changeDetector : detector; m_nextFs : nat }.
Definition New (f : fsys) (withCache : bool) : Matcher :=
  {| m_fs := f; lines_ := []; patterns := []; withCache := withCache; matches := None; curHash := []; changeDetector := ∅;
     m_nextFs := S (fs_id f) |}.
Definition set_matches (c : option cache) (m : Matcher) : Matcher :=
  {| m_fs := m_fs m; lines_ := lines_ m; patterns := patterns m; withCache := withCache m; matches := c; curHash := curHash m;
     changeDetector := changeDetector m; m_nextFs := m_nextFs m |}.
Definition set_cd (cd : detector) (m : Matcher) : Matcher :=
  {| m_fs := m_fs m; lines_ := lines_ m; patterns := patterns m; withCache := withCache m; matches := matches m; curHash := curHash m;
     changeDetector := cd; m_nextFs := m_nextFs m |}.

Definition hashPatterns (ps : list Pattern) : bytes := sha256hex (concat (map (fun p => Pattern_String p ++ [z2b 10]) ps)).
Definition parseLocked (fuel : nat) (w : world) (content : bytes) (failing : bool) (file : bytes) (m : Matcher) :
  Matcher * outcome ignore_err unit :=
  let st := {| changeDetector_ := changeDetector m; linesSeen := ∅; nextFs := m_nextFs m |} in
  match parseIgnoreFile fuel w (m_fs m) content failing file st with
  | (_, _, Panic) => (m, Panic)
  | (_, _, OutOfFuel) => (m, OutOfFuel)
  | (st, lines, r) =>
      let '(ps, e) := match r with Ret ps => (ps, Ret tt) | Err e => ([], Err e) | _ => ([], Ret tt) end in
      let m := {| m_fs := m_fs m; lines_ := lines; patterns := patterns m; withCache := withCache m; matches := matches m;
                  curHash := curHash m; changeDetector := changeDetector_ st; m_nextFs := nextFs st |} in
      let newHash := hashPatterns ps in
      if bool_decide (newHash = curHash m) then (m, e)
      else
        ({| m_fs := m_fs m; lines_ := lines; patterns := ps; withCache := withCache m;
            matches := if withCache m then Some ∅ else matches m; curHash := newHash; changeDetector := changeDetector m;
            m_nextFs := m_nextFs m |}, e)
  end.
Inductive load_err := LoadFile (e : disk_err) | LoadParse (e : ignore_err).
Definition Load (fuel : nat) (w : world) (file : bytes) (m : Matcher) : Matcher * outcome load_err unit :=
  if Seen (m_fs m) file (changeDetector m) && negb (Changed w (changeDetector m)) then (m, Ret tt)
  else
    match w_open w (m_fs m) file with
    | inl e => let '(m, _) := parseLocked fuel w [] false file m in (m, Err (LoadFile e))
    | inr (content, failing, modtime) =>
        match parseLocked fuel w content failing file (set_cd ∅ m) with
        | (m, Ret _) => (set_cd (Remember (m_fs m) file modtime (changeDetector m)) m, Ret tt)
        | (m, Err e) => (m, Err (LoadParse e))
        | (m, Panic) => (m, Panic)
        | (m, OutOfFuel) => (m, OutOfFuel)
        end
    end.

(** The first pattern that matches decides; directories can be skipped as long as no pattern before forbids it. *)
Fixpoint match_patterns (file : bytes) (canSkipDir : bool) (ps : list Pattern) : Z :=
  match ps with
  | [] => NotIgnored
  | p :: ps =>
      let canSkipDir := canSkipDir && allowsSkippingIgnoredDirs p in
      let res := if canSkipDir then WithSkipDir (result p) else result p in
      if match_ p (if R_IsCaseFolded (result p) then ToLower file else file) then res
      else match_patterns file canSkipDir ps
  end.
Definition Match (file : bytes) (now : Z) (m : Matcher) : Matcher * Z :=
  if IsTemporary file then (m, IgnoreAndSkip)
  else if IsInternal file then (m, IgnoreAndSkip)
  else if bool_decide (file = dot) then (m, NotIgnored)
  else if is_nil (patterns m) then (m, NotIgnored)
  else
    match matches m with
    | None => (m, match_patterns file true (patterns m))
    | Some c =>
        match cache_get file now c with
        | (c, Some r) => (set_matches (Some c) m, r)
        | (c, None) =>
            let r := match_patterns file true (patterns m) in
            (set_matches (Some (cache_set file r now c)) m, r)
        end
    end.
(** A round of the goroutine that cleans the cache. *)
Definition clean (d now : Z) (m : Matcher) : Matcher := set_matches (cache_clean d now <$> matches m) m.
Definition Patterns (m : Matcher) : list bytes := map Pattern_String (patterns m).
End Ignore.
