(* ===== verification/IgnoreGlob.v ===== *)
(** * The documented meaning of simple globs

    What the theorems about ignore patterns assume of the glob library: a glob
    of ordinary characters, [*] and [**] matches as described here.  [*] matches
    anything but a separator, [**] anything at all. *)
From Stdlib Require Import ZArith List Lia.
From Stdlib Require Import Strings.Byte.
From stdpp Require Import base list option numbers tactics.
From S2P Require Import Prelude GoLib Paths.

#[local] Open Scope Z_scope.

Inductive gtok := GLit (c : byte) | GStar | GSuper.
#[export] Instance gtok_eq_dec : EqDecision gtok.
Proof. solve_decision. Defined.

Definition star : byte := z2b 42.
(** Two stars are one token. *)
Fixpoint tokens (p : bytes) : list gtok :=
  match p with
  | [] => []
  | c :: p' =>
      if bool_decide (c = star) then
        match p' with
        | d :: p'' => if bool_decide (d = star) then GSuper :: tokens p'' else GStar :: tokens p'
        | [] => [GStar]
        end
      else GLit c :: tokens p'
  end.
Fixpoint gmatch (ts : list gtok) (s : bytes) : bool :=
  match ts with
  | [] => is_nil s
  | GLit c :: ts => match s with d :: s => bool_decide (c = d) && gmatch ts s | [] => false end
  | GStar :: ts =>
      (fix skip (s : bytes) : bool :=
         gmatch ts s || match s with d :: s => negb (bool_decide (d = PathSeparator)) && skip s | [] => false end) s
  | GSuper :: ts => (fix skip (s : bytes) : bool := gmatch ts s || match s with _ :: s => skip s | [] => false end) s
  end.
(** The characters with another meaning. *)
Definition plain (p : bytes) : bool := forallb (fun c => negb (existsb (fun d => bool_decide (c = d)) (gostr "\[]{}?"))) p.

(** *** Matching of a concatenation *)

Lemma star_split ts s : gmatch (GStar :: ts) s = true <-> exists a b, s = a ++ b /\ PathSeparator ∉ a /\ gmatch ts b = true.
Proof.
  induction s as [|d s IH].
  - cbn. rewrite orb_false_r. split; [intros H; exists [], []; split_and!; [done|by apply not_elem_of_nil|done]|].
    intros (a & b & E & _ & H). symmetry in E. by apply app_nil in E as [-> ->].
  - change (gmatch (GStar :: ts) (d :: s)) with (gmatch ts (d :: s) || (negb (bool_decide (d = PathSeparator)) && gmatch (GStar :: ts) s)).
    rewrite orb_true_iff, andb_true_iff, IH, negb_true_iff, bool_decide_eq_false. split.
    + intros [H|[Hd (a & b & -> & Ha & H)] ]; [exists [], (d :: s); split_and!; [done|by apply not_elem_of_nil|done]|].
      exists (d :: a), b. split_and!; [done|by apply not_elem_of_cons|done].
    + intros ([|x a] & b & E & Ha & H); [left; by cbn in E; subst|right]. injection E as -> ->. apply not_elem_of_cons in Ha as [Hx Ha].
      split; [congruence|by exists a, b].
Qed.
Lemma super_split ts s : gmatch (GSuper :: ts) s = true <-> exists a b, s = a ++ b /\ gmatch ts b = true.
Proof.
  induction s as [|d s IH].
  - cbn. rewrite orb_false_r. split; [intros H; by exists [], []|]. intros (a & b & E & H). symmetry in E. by apply app_nil in E as [-> ->].
  - change (gmatch (GSuper :: ts) (d :: s)) with (gmatch ts (d :: s) || gmatch (GSuper :: ts) s). rewrite orb_true_iff, IH. split.
    + intros [H|(a & b & -> & H)]; [by exists [], (d :: s)|by exists (d :: a), b].
    + intros ([|x a] & b & E & H); [left; by cbn in E; subst|right]. injection E as -> ->. by exists a, b.
Qed.
Lemma gmatch_app ts us s : gmatch (ts ++ us) s = true <-> exists a b, s = a ++ b /\ gmatch ts a = true /\ gmatch us b = true.
Proof.
  revert s. induction ts as [|t ts IH]; intros s; cbn [app].
  - split; [intros H; by exists [], s|]. intros (a & b & -> & Ha & Hb). by destruct a.
  - destruct t as [c| |].
    + destruct s as [|d s]; cbn [gmatch].
      * split; [done|]. intros (a & b & E & Ha & Hb). symmetry in E. by apply app_nil in E as [-> ->].
      * rewrite andb_true_iff, IH, bool_decide_eq_true. split.
        -- intros [-> (a & b & -> & Ha & Hb)]. exists (d :: a), b. split_and!; [done| |done]. by rewrite bool_decide_eq_true_2.
        -- intros ([|x a] & b & E & Ha & Hb); [done|]. injection E as -> ->. apply andb_true_iff in Ha as [->%bool_decide_eq_true Ha]. split; [done|by exists a, b].
    + rewrite star_split. split.
      * intros (a & b & -> & Hs & H). apply IH in H as (b1 & b2 & -> & H1 & H2). exists (a ++ b1), b2. split_and!; [by rewrite app_assoc| |done].
        apply star_split. by exists a, b1.
      * intros (a & b & -> & Ha & Hb). apply star_split in Ha as (a1 & a2 & -> & Hs & Ha). exists a1, (a2 ++ b). split_and!; [by rewrite app_assoc|done|].
        apply IH. by exists a2, b.
    + rewrite super_split. split.
      * intros (a & b & -> & H). apply IH in H as (b1 & b2 & -> & H1 & H2). exists (a ++ b1), b2. split_and!; [by rewrite app_assoc| |done].
        apply super_split. by exists a, b1.
      * intros (a & b & -> & Ha & Hb). apply super_split in Ha as (a1 & a2 & -> & Ha). exists a1, (a2 ++ b). split; [by rewrite app_assoc|].
        apply IH. by exists a2, b.
Qed.

(** *** The tokens of a concatenation *)

Lemma tokens_app a c b : c <> star -> tokens (a ++ c :: b) = tokens a ++ tokens (c :: b).
Proof.
  intros Hc. remember (length a) as n eqn:En. revert a En. induction n as [n IH] using lt_wf_ind. intros [|x a] ->; [done|].
  destruct a as [|y a].
  - cbn. destruct (decide (x = star)) as [->|Hx]; cbn; rewrite ?bool_decide_eq_true_2, ?bool_decide_eq_false_2 by done; done.
  - assert (tokens ((y :: a) ++ c :: b) = tokens (y :: a) ++ tokens (c :: b)) as E by (apply (IH (length (y :: a))); cbn; lia).
    cbn [app tokens] in *. destruct (decide (x = star)) as [->|Hx].
    + rewrite !bool_decide_eq_true_2 by done. destruct (decide (y = star)) as [->|Hy].
      * rewrite !bool_decide_eq_true_2 by done. cbn [app]. f_equal. apply (IH (length a)); cbn; lia.
      * rewrite !bool_decide_eq_false_2 in * by done. cbn [app]. by f_equal.
    + rewrite (bool_decide_eq_false_2 (x = star)) by done. cbn [app]. by f_equal.
Qed.

(** *** Globs for one component *)

(** No separator and no [**]. *)
Definition flat (ts : list gtok) : Prop := GSuper ∉ ts /\ GLit PathSeparator ∉ ts.
Lemma flat_match ts s : flat ts -> gmatch ts s = true -> PathSeparator ∉ s.
Proof.
  revert s. induction ts as [|t ts IH]; intros s [H1 H2] Hm; [destruct s; [by apply not_elem_of_nil|done]|].
  apply not_elem_of_cons in H1 as [Hs1 H1], H2 as [Hs2 H2]. destruct t as [c| |]; [| |done].
  - destruct s as [|d s]; [done|]. cbn [gmatch] in Hm. apply andb_true_iff in Hm as [->%bool_decide_eq_true Hm].
    apply not_elem_of_cons. split; [congruence|by apply IH].
  - apply star_split in Hm as (a & b & -> & Ha & Hm). apply not_elem_of_app. split; [done|by apply IH].
Qed.
(** Stars at the end. *)
Definition stars (ts : list gtok) : Prop := match ts with [] => True | GSuper :: us => us = [] \/ us = [GStar] | _ => False end.
Lemma stars_super us s : us = [] \/ us = [GStar] -> gmatch (GSuper :: us) s = true.
Proof.
  intros [->| ->]; apply super_split; exists s, []; (split; [by rewrite app_nil_r|done]).
Qed.
(** If such a glob matches a name below another one, it matches that, too. *)
Lemma shallow_parent ts us d t : flat ts -> stars us -> gmatch (ts ++ us) (d ++ PathSeparator :: t) = true ->
  gmatch (ts ++ us) d = true.
Proof.
  intros Hf Hu Hm. apply gmatch_app in Hm as (a & b & E & Ha & Hb). pose proof (flat_match _ _ Hf Ha) as Hn.
  destruct us as [|u us].
  - destruct b; [|done]. rewrite app_nil_r in E. subst a. exfalso. apply Hn. apply elem_of_app. right. left.
  - destruct u; [done..|]. apply app_eq_inv in E as [(k & -> & E)|(k & -> & E)].
    + apply gmatch_app. exists a, k. split_and!; [done|done|by apply stars_super].
    + destruct k as [|x k]; [apply gmatch_app; exists d, []; split_and!; [by rewrite app_nil_r|by rewrite app_nil_r in Ha|by apply stars_super]|].
      injection E as <- _. exfalso. apply Hn. apply elem_of_app. right. left.
Qed.
(** With a separator and [**] behind it, the glob or the longer one matches the parent. *)
Lemma shallow_children ts us d t : flat ts -> stars us -> gmatch (ts ++ us ++ [GLit PathSeparator; GSuper]) (d ++ PathSeparator :: t) = true ->
  gmatch (ts ++ us) d = true \/ gmatch (ts ++ us ++ [GLit PathSeparator; GSuper]) d = true.
Proof.
  intros Hf Hu Hm. apply gmatch_app in Hm as (a & b & E & Ha & Hb). pose proof (flat_match _ _ Hf Ha) as Hn.
  apply app_eq_inv in E as [(k & -> & E)|(k & -> & E)].
  - destruct us as [|u us].
    + destruct k as [|x k]; [left; by rewrite !app_nil_r in *|]. right. apply gmatch_app. exists a, (x :: k). split_and!; [done|done|].
      subst b. cbn [app gmatch] in Hb |- *. apply andb_true_iff in Hb as [-> _]. cbn [andb]. apply (stars_super [] k). by left.
    + left. destruct u; [done..|]. apply gmatch_app. exists a, k. split_and!; [done|done|by apply stars_super].
  - destruct k as [|x k]; [|injection E as <- _; exfalso; apply Hn, elem_of_app; right; left].
    left. rewrite app_nil_r in Ha. apply gmatch_app. exists d, []. split_and!; [by rewrite app_nil_r|done|].
    destruct us as [|u us]; [done|]. destruct u; [done..|by apply stars_super].
Qed.
(** What matches with a separator and [**] behind it goes on below. *)
Lemma goes_below ts d t : gmatch ts d = true -> gmatch (ts ++ [GLit PathSeparator; GSuper]) (d ++ PathSeparator :: t) = true.
Proof.
  intros H. apply gmatch_app. exists d, (PathSeparator :: t). split_and!; [done|done|]. cbn [gmatch]. rewrite bool_decide_eq_true_2 by done.
  apply (stars_super [] t). by left.
Qed.
Lemma stays_below ts d t : gmatch (ts ++ [GLit PathSeparator; GSuper]) d = true ->
  gmatch (ts ++ [GLit PathSeparator; GSuper]) (d ++ PathSeparator :: t) = true.
Proof.
  intros H. apply gmatch_app in H as (a & b & -> & Ha & Hb). apply gmatch_app. exists a, (b ++ PathSeparator :: t).
  split_and!; [by rewrite app_assoc|done|]. destruct b as [|x b]; [done|]. cbn [app gmatch] in *. apply andb_true_iff in Hb as [-> _].
  cbn [andb]. apply (stars_super [] (b ++ _)). by left.
Qed.

(** *** From the text to the tokens *)

Lemma tokens_slash p : PathSeparator ∉ p -> GLit PathSeparator ∉ tokens p.
Proof.
  remember (length p) as n eqn:En. revert p En. induction n as [n IH] using lt_wf_ind. intros [|x p] -> Hp; [by apply not_elem_of_nil|].
  apply not_elem_of_cons in Hp as [Hx Hp]. cbn [tokens]. case_bool_decide.
  - destruct p as [|y p]; [apply not_elem_of_cons; split; [done|by apply not_elem_of_nil]|]. case_bool_decide.
    + apply not_elem_of_cons in Hp as [Hy Hp]. apply not_elem_of_cons. split; [done|]. apply (IH (length p)); cbn; [lia|done|done].
    + apply not_elem_of_cons. split; [done|]. apply (IH (length (y :: p))); cbn; [lia|done|done].
  - apply not_elem_of_cons. split; [congruence|]. apply (IH (length p)); cbn; [lia|done|done].
Qed.
Lemma tokens_super p : contains p (gostr "**") = false -> GSuper ∉ tokens p.
Proof.
  remember (length p) as n eqn:En. revert p En. induction n as [n IH] using lt_wf_ind. intros [|x p] -> Hp; [by apply not_elem_of_nil|].
  cbn [contains] in Hp. apply orb_false_iff in Hp as [Hx Hp]. cbn [tokens]. case_bool_decide as E.
  - destruct p as [|y p]; [apply not_elem_of_cons; split; [done|by apply not_elem_of_nil]|]. case_bool_decide as E2.
    + subst x y. by vm_compute in Hx.
    + apply not_elem_of_cons. split; [done|]. apply (IH (length (y :: p))); cbn; [lia|done|done].
  - apply not_elem_of_cons. split; [done|]. apply (IH (length p)); cbn; [lia|done|done].
Qed.
(** Stars behind a text without two stars in a row. *)
Lemma tokens_trailing p : contains p (gostr "**") = false -> exists ts us, tokens (p ++ gostr "**") = ts ++ us /\ stars us /\
  GSuper ∉ ts /\ (GLit PathSeparator ∈ ts -> PathSeparator ∈ p).
Proof.
  intros Hp. assert (p = [] \/ exists q c, p = q ++ [c]) as [->|(q & c & ->)] by (destruct p using rev_ind; eauto).
  { exists [], [GSuper]. split_and!; [done|by left|by apply not_elem_of_nil|by intros ?%elem_of_nil]. }
  assert (forall r, GLit PathSeparator ∈ tokens r -> PathSeparator ∈ r) as Hsl.
  { intros r H. destruct (decide (PathSeparator ∈ r)); [done|]. by apply tokens_slash in H. }
  destruct (decide (c = star)) as [->|Hc].
  - assert (contains q (gostr "**") = false /\ forall q', q <> q' ++ [star]) as [Hq Hne].
    { split.
      - clear -Hp. induction q as [|x q IH]; [done|]. cbn [app contains] in *. apply orb_false_iff in Hp as [H1 H2]. rewrite IH by done.
        rewrite orb_false_r. destruct (hasPrefix (x :: q) (gostr "**")) eqn:E; [|done]. apply hasPrefix_spec in E as [r Hr].
        assert (hasPrefix (x :: q ++ [star]) (gostr "**") = true) as He; [|congruence]. apply hasPrefix_spec. exists (r ++ [star]).
        change (x :: q ++ [star]) with ((x :: q) ++ [star]). rewrite Hr. by rewrite <- app_assoc.
      - intros q' ->. rewrite <- app_assoc in Hp. change (q' ++ [star] ++ [star]) with (q' ++ gostr "**" ++ []) in Hp. by rewrite contains_app in Hp. }
    assert (tokens ((q ++ [star]) ++ gostr "**") = tokens q ++ [GSuper; GStar]) as ->.
    { rewrite <- app_assoc. destruct q as [|x q] using rev_ind; [done|]. clear IHq. assert (x <> star) as Hx by (intros ->; by apply (Hne q)).
      rewrite <- app_assoc. cbn [app]. rewrite tokens_app by done. change (tokens (q ++ [x])) with (tokens (q ++ x :: [])).
      rewrite (tokens_app q x []) by done. rewrite <- app_assoc. f_equal. cbn [tokens]. by rewrite bool_decide_eq_false_2 by done. }
    exists (tokens q), [GSuper; GStar]. split_and!; [done|by right|by apply tokens_super|]. intros H. apply elem_of_app. left. auto.
  - assert (tokens ((q ++ [c]) ++ gostr "**") = tokens (q ++ [c]) ++ [GSuper]) as ->.
    { rewrite <- app_assoc. cbn [app]. rewrite (tokens_app q c) by done. change (tokens (q ++ [c])) with (tokens (q ++ c :: [])).
      rewrite (tokens_app q c []) by done. rewrite <- app_assoc. f_equal. cbn [tokens]. by rewrite bool_decide_eq_false_2 by done. }
    exists (tokens (q ++ [c])), [GSuper]. split_and!; [done|by left|by apply tokens_super|auto].
Qed.
