(* ===== verification/IgnoreIncludes.v ===== *)
(** * Includes of ignore files end

    Files can include each other, also outside of the folder, where they are not
    recognised as seen before.  That each line counts once is what ends it. *)
From Stdlib Require Import ZArith List Lia.
From Stdlib Require Import Strings.Byte.
From stdpp Require Import base list option gmap numbers tactics.
From S2P Require Import Prelude GoLib FileInfo Paths Disk PullItems ScanWalk Ignore IgnoreGlob.

#[local] Open Scope Z_scope.

Section Ends.
Context (compile : bytes -> option (bytes -> bool)) (NFC : bytes -> bytes) (lowerRune : bytes -> bytes).
(** The lines of all files, of which there are finitely many. *)
Context (w : world) (L : gset bytes).
Definition lines_in (content : bytes) (failing : bool) : Prop := forall lines, scan_lines content failing = inr lines -> Forall (fun l => l ∈ L) lines.
Context (files_in : forall f file content failing t, w_open w f file = inr (content, failing, t) -> lines_in content failing).

Definition new_lines (st : parser) : nat := size (L ∖ linesSeen st).
Definition ended {A} (r : outcome ignore_err A) : Prop := match r with Ret _ | Err _ => True | _ => False end.
Lemma see_fewer line st : line ∈ L -> line ∉ linesSeen st -> (new_lines (see_line line st) < new_lines st)%nat.
Proof using. clear files_in w compile NFC lowerRune. intros HL Hn. unfold new_lines. apply subset_size. cbn. set_solver. Qed.
Lemma seen_fewer st st' : linesSeen st ⊆ linesSeen st' -> (new_lines st' <= new_lines st)%nat.
Proof using. clear files_in w compile NFC lowerRune. intros H. unfold new_lines. apply subseteq_size. set_solver. Qed.
Lemma lines_end n include file lines ps inc esc seen st :
  (forall f s, (new_lines s < n)%nat -> ended (include f s).2 /\ linesSeen s ⊆ linesSeen (include f s).1) ->
  Forall (fun l => l ∈ L) lines -> (new_lines st <= n)%nat ->
  let r := parse_lines compile NFC lowerRune include file lines ps inc esc seen st in
  match r.2 with Ret _ | Err _ => True | _ => False end /\ linesSeen st ⊆ linesSeen r.1.
Proof using.
  clear files_in w. intros Hinc. revert ps inc esc seen st. induction lines as [|line lines IH]; intros ps inc esc seen st HL Hn; cbn [parse_lines]; [done|].
  pose proof (Forall_inv HL) as Hl. apply Forall_inv_tail in HL.
  case_bool; [case_bool; [done|]; case_bool; [done|]; destruct (escape_char line); [by apply IH|done]|].
  case_bool_decide as Hseen; [by apply IH|]. pose proof (see_fewer line st Hl Hseen) as Hf.
  assert (linesSeen st ⊆ linesSeen (see_line line st)) as Hs by (cbn; set_solver).
  assert (forall ps inc esc seen s, linesSeen (see_line line st) ⊆ linesSeen s ->
    let r := parse_lines compile NFC lowerRune include file lines ps inc esc seen s in
    match r.2 with Ret _ | Err _ => True | _ => False end /\ linesSeen st ⊆ linesSeen r.1) as Hgo.
  { intros ps' inc' esc' seen' s Hsub. pose proof (seen_fewer _ _ Hsub). destruct (IH ps' inc' esc' seen' s) as [H1 H2]; [done|lia|].
    split; [done|]. set_solver. }
  case_bool; [by apply Hgo|]. case_bool.
  - destruct (cut _ _) as [ [x rel]|]; [|done]. case_bool; [done|].
    destruct (Hinc (Join [Dir file; TrimSpace rel]) (see_line line st)) as [H1 H2]; [lia|].
    destruct (include _ _) as [s [new|e| |] ]; try done; cbn [fst snd] in *; [by apply Hgo|]. split; [done|]. set_solver.
  - destruct (pattern_line _ _ _ _ ps) as [e|qs]; [done|]. by apply Hgo.
Qed.
Lemma with_end n include file content failing st :
  (forall f s, (new_lines s < n)%nat -> ended (include f s).2 /\ linesSeen s ⊆ linesSeen (include f s).1) ->
  lines_in content failing -> (new_lines st <= n)%nat ->
  let r := parse_with compile NFC lowerRune include file content failing st in ended r.2 /\ linesSeen st ⊆ linesSeen r.1.1.
Proof using.
  clear files_in w. intros Hinc HL Hn. unfold parse_with. unfold lines_in in HL. destruct (scan_lines content failing) as [e|lines]; [done|].
  destruct (lines_end n include file lines [] 0 backslash false st Hinc (HL lines eq_refl) Hn) as [H1 H2].
  by destruct (parse_lines _ _ _ _ _ _ _ _ _ _ _) as [s [ps|[k e]| |] ].
Qed.
Lemma include_end fuel f file st : (new_lines st < fuel)%nat ->
  ended (loadParseIncludeFile compile NFC lowerRune fuel w f file st).2 /\
  linesSeen st ⊆ linesSeen (loadParseIncludeFile compile NFC lowerRune fuel w f file st).1.
Proof using files_in.
  revert f file st. induction fuel as [|fuel IH]; intros f file st Hn; [lia|]. cbn [loadParseIncludeFile].
  assert (linesSeen (include_target f file st).2 = linesSeen st) as E by (unfold include_target; by case_bool).
  destruct (include_target f file st) as [ [f1 file1] st1]. cbn [snd] in E. case_bool; [cbn; by rewrite E|].
  destruct (w_open w f1 file1) as [e|[ [content failing] t] ] eqn:Eo; [cbn; by rewrite E|].
  destruct (with_end fuel (loadParseIncludeFile compile NFC lowerRune fuel w f1) file1 content failing
              (set_detector (Remember f1 file1 t (changeDetector_ st1)) st1)) as [H1 H2].
  - intros file2 s Hs. by apply IH.
  - by eapply files_in.
  - unfold new_lines in *. cbn [linesSeen set_detector]. rewrite E. lia.
  - cbn [linesSeen set_detector] in H2. rewrite E in H2. by destruct (parse_with _ _ _ _ _ _ _ _) as [ [s l] r].
Qed.
(** Parsing ends, also if files include each other in a circle, inside and outside of the folder: a line is
    followed once, so as much fuel as there are different lines is enough. *)
Theorem includes_end fuel f content failing file st (Hlines : lines_in content failing) (Hfuel : (size L <= fuel)%nat) :
  exists st' lines r, parseIgnoreFile compile NFC lowerRune fuel w f content failing file st = (st', lines, r) /\ ended r /\
    linesSeen st ⊆ linesSeen st'.
Proof using files_in.
  destruct (with_end fuel (loadParseIncludeFile compile NFC lowerRune fuel w f) file content failing st) as [H1 H2].
  - intros f' s Hs. by apply include_end.
  - done.
  - unfold new_lines. assert (size (L ∖ linesSeen st) <= size L)%nat by (apply subseteq_size; set_solver). lia.
  - unfold parseIgnoreFile. destruct (parse_with _ _ _ _ _ _ _ _) as [ [s l] r]. by exists s, l, r.
Qed.
End Ends.

(** ** Examples *)

Definition ex_compile (p : bytes) : option (bytes -> bool) := Some (gmatch (tokens p)).
Definition ex_fs : fsys := {| fs_id := 0; fs_basic := true; fs_uri := gostr "/data/folder" |}.
Definition newline : bytes := [z2b 10].
Definition ex_parser : parser := {| changeDetector_ := ∅; linesSeen := ∅; nextFs := 1 |}.
Definition ex_world (files : list (bytes * bytes)) : world :=
  {| w_open := fun f name => match List.find (fun x => bool_decide (x.1 = Join [fs_uri f; name])) files with
                             | Some (_, content) => inr (content, false, {| tsec := 1; tnsec := 0 |})
                             | None => inl ErrNotExist
                             end;
     w_stat := fun _ _ => Some {| tsec := 1; tnsec := 0 |} |}.

Definition ex_parse files text := parseIgnoreFile ex_compile (fun s => s) (fun s => s) 4 (ex_world files) ex_fs text false (gostr ".stignore") ex_parser.

(** Two files outside of the folder that include each other. *)
Definition ex_circle : list (bytes * bytes) :=
  [(gostr "/data/a/one", gostr "#include ../b/two" ++ newline ++ gostr "x"); (gostr "/data/b/two", gostr "#include ../a/one" ++ newline ++ gostr "y")].
Definition ex_top : bytes := gostr "#include ../a/one".
Definition ex_lines : gset bytes := list_to_set [gostr "#include ../b/two"; gostr "x"; gostr "#include ../a/one"; gostr "y"].
Theorem includes_end_witness :
  (match ex_parse ex_circle ex_top with (_, _, Ret ps) => map pattern ps | _ => [] end) =
    [gostr "y"; gostr "**/y"; gostr "y/**"; gostr "**/y/**"; gostr "x"; gostr "**/x"; gostr "x/**"; gostr "**/x/**"] /\
  exists st' lines r, ex_parse ex_circle ex_top = (st', lines, r) /\ ended r /\ linesSeen ex_parser ⊆ linesSeen st'.
Proof.
  split; [by vm_compute|]. apply (includes_end ex_compile (fun s => s) (fun s => s) (ex_world ex_circle) ex_lines).
  - intros f file content failing t. cbn [w_open ex_world]. unfold lines_in. intros Ho lines Hl.
    destruct (List.find _ ex_circle) as [ [name c]|] eqn:Ef; [|done]. apply find_some in Ef as [Hin _]. injection Ho as <- <- <-.
    destruct Hin as [ [= <- <-]|[ [= <- <-]|[] ] ]; vm_compute in Hl; injection Hl as <-; repeat constructor; by vm_compute.
  - intros lines Hl. vm_compute in Hl. injection Hl as <-. repeat constructor; by vm_compute.
  - by vm_compute.
Defined.

