(* ===== verification/IgnoreProps.v ===== *)
(** * What ignore patterns ignore

    A directory that the walk may skip has no items in it that are not ignored,
    and the cache of the matcher changes nothing. *)
From Stdlib Require Import ZArith List Lia.
From Stdlib Require Import Strings.Byte.
From stdpp Require Import base list option gmap numbers tactics.
From S2P Require Import Prelude GoLib FileInfo Paths Disk PullItems ScanWalk Ignore IgnoreGlob IgnoreIncludes.

#[local] Open Scope Z_scope.

Abbreviation slash := PathSeparator.
Definition slashstars : bytes := gostr "/**".

(** ** Prefixes and suffixes *)

Lemma hasSuffix_spec s p : hasSuffix s p = true <-> exists r, s = r ++ p.
Proof.
  unfold hasSuffix. rewrite hasPrefix_spec. split; intros [r H].
  - exists (reverse r). apply (f_equal reverse) in H. by rewrite reverse_involutive, reverse_app, reverse_involutive in H.
  - exists (reverse r). by rewrite H, reverse_app.
Qed.
Lemma trimSuffix_app r p : trimSuffix (r ++ p) p = r.
Proof.
  unfold trimSuffix. assert (hasSuffix (r ++ p) p = true) as -> by (apply hasSuffix_spec; by exists r).
  rewrite length_app, Nat.add_sub. apply take_app_length.
Qed.
Lemma hasPrefix_slash x z p : slash ∉ p -> hasPrefix (x ++ slash :: z) p = hasPrefix x p.
Proof.
  revert x. induction p as [|c p IH]; intros x Hp; [by destruct x|]. apply not_elem_of_cons in Hp as [Hc Hp].
  destruct x as [|d x]; cbn [app hasPrefix]; [by rewrite decide_False by congruence|]. case_decide; [by apply IH|done].
Qed.
Lemma no_slash (p : bytes) : existsb (fun c => bool_decide (c = slash)) p = false -> slash ∉ p.
Proof.
  induction p as [|c p IH]; cbn; [by intros _ ?%elem_of_nil|]. intros [H1 H2]%orb_false_iff.
  apply bool_decide_eq_false in H1. apply not_elem_of_cons. split; [congruence|by apply IH].
Qed.
Lemma prefixes_below fuel neg fold del x z r :
  prefixes fuel neg fold del (x ++ slash :: z) r = ((prefixes fuel neg fold del x r).1 ++ slash :: z, (prefixes fuel neg fold del x r).2).
Proof.
  revert neg fold del x r. induction fuel as [|fuel IH]; intros neg fold del x r; [done|]. cbn [prefixes].
  rewrite !hasPrefix_slash by (by apply no_slash).
  assert (forall k p, length p = k -> hasPrefix x p = true -> drop k (x ++ slash :: z) = drop k x ++ slash :: z) as Hd.
  { intros k p <- [y ->]%hasPrefix_spec. by rewrite <- app_assoc, !drop_app_length. }
  destruct (hasPrefix x (gostr "!") && _) eqn:E1; [apply andb_true_iff in E1 as [E1 _]; by rewrite (Hd 1%nat (gostr "!") eq_refl E1), IH|].
  destruct (hasPrefix x (gostr "(?i)") && _) eqn:E2; [apply andb_true_iff in E2 as [E2 _]; by rewrite (Hd 4%nat (gostr "(?i)") eq_refl E2), IH|].
  destruct (hasPrefix x (gostr "(?d)") && _) eqn:E3; [apply andb_true_iff in E3 as [E3 _]; by rewrite (Hd 4%nat (gostr "(?d)") eq_refl E3), IH|]. done.
Qed.

(** *** The results that a line can have *)

Definition results : list Z := [0; 1; 2; 3; 4; 5; 6; 7].
Lemma prefixes_results line : (prefixes 3 false false false line Ignored).2 ∈ results.
Proof.
  assert (forall x : Z, existsb (Z.eqb x) results = true -> x ∈ results) as H.
  { intros x Hx. apply existsb_exists in Hx as (y & Hy & ->%Z.eqb_eq). by apply list_elem_of_In. }
  apply H. cbn [prefixes]. repeat (case_bool; cbn [prefixes andb negb]); try reflexivity.
Qed.
Lemma result_bits r : r ∈ results -> R_CanSkipDir r = false /\ R_IsIgnored (WithSkipDir r) = R_IsIgnored r /\
  R_CanSkipDir (WithSkipDir r) = R_IsIgnored r.
Proof. intros H. repeat (apply elem_of_cons in H as [->|H]; [by vm_compute|]). by apply elem_of_nil in H. Qed.

(** ** Lower case *)

Lemma valid_slash a x b n : (length x < n)%nat -> 128 <= b2z a ->
  n = (if (b2z a <? 224)%Z then 1 else if (b2z a <? 240)%Z then 2 else 3)%nat -> validString (take (S n) (a :: x ++ slash :: b)) = false.
Proof.
  intros Hl Ha ->. assert (forall lo hi, 128 <= lo -> between slash lo hi = false) as Hs.
  { intros lo hi H. unfold between. apply andb_false_iff. left. apply Z.leb_gt. change (b2z slash) with 47. lia. }
  assert ((b2z a <? 128) = false) as Ha' by lia.
  destruct (Z.ltb_spec (b2z a) 224) as [H1|H1]; [|destruct (Z.ltb_spec (b2z a) 240) as [H2|H2] ].
  - destruct x as [|c x]; [|cbn in Hl; lia]. cbn [take app validString]. rewrite Ha', Hs by lia. by destruct (between a 194 223).
  - assert (between a 194 223 = false) as E by (unfold between; lia).
    destruct x as [|c [|c2 x] ]; [| |cbn in Hl; lia]; destruct b as [|d b]; cbn [take app validString]; rewrite Ha', E, ?Hs by lia;
      repeat case_match; try done; lia.
  - assert (between a 194 223 = false) as E by (unfold between; lia). assert (between a 224 239 = false) as E2 by (unfold between; lia).
    destruct x as [|c [|c2 [|c3 x] ] ]; [| | |cbn in Hl; lia]; destruct b as [|d [|d2 b] ]; cbn [take app validString]; rewrite Ha', E, ?E2;
      rewrite ?Hs by (case_match; lia); rewrite ?andb_false_r; cbn [andb]; rewrite ?andb_false_r; try done.
Qed.
Lemma runeLen_slash s b : s <> [] -> runeLen (s ++ slash :: b) = runeLen s.
Proof.
  destruct s as [|a s]; [done|]. intros _. cbn [runeLen app]. destruct (Z.ltb_spec (b2z a) 128) as [Ha|Ha].
  { cbn [length take validString Nat.leb]. done. }
  assert (exists n, (if (b2z a <? 224)%Z then 2 else if (b2z a <? 240)%Z then 3 else 4)%nat = S n /\
    n = (if (b2z a <? 224)%Z then 1 else if (b2z a <? 240)%Z then 2 else 3)%nat) as (n & -> & Hn) by (repeat case_match; eauto).
  destruct (decide (n <= length s)%nat) as [Hl|Hl].
  - cbn [length take]. rewrite take_app_le by done. rewrite length_app.
    assert ((S n <=? S (length s + length (slash :: b)))%nat = true) as -> by (apply Nat.leb_le; lia).
    by assert ((S n <=? S (length s))%nat = true) as -> by (apply Nat.leb_le; lia).
  - rewrite valid_slash by (try done; lia). rewrite andb_false_r.
    by assert ((S n <=? length (a :: s))%nat = false) as -> by (apply Nat.leb_gt; cbn; lia).
Qed.
Lemma runeLen_pos s : s <> [] -> (1 <= runeLen s <= length s)%nat.
Proof.
  destruct s as [|a s]; [done|]. intros _. cbn [runeLen]. destruct (_ && _) eqn:E; [|cbn; lia].
  apply andb_true_iff in E as [E%Nat.leb_le _]. split; [repeat case_match; lia|done].
Qed.

Section Props.
Context (compile : bytes -> option (bytes -> bool)) (NFC : bytes -> bytes) (lowerRune : bytes -> bytes) (sha256hex : bytes -> bytes).
(** What is assumed of the libraries: simple globs mean what is documented, a slash is a boundary of the normal form,
    and only a slash becomes one in lower case. *)
Context (glob_law : forall p, plain p = true -> exists m, compile p = Some m /\ forall s, m s = gmatch (tokens p) s).
Context (NFC_law : forall s t, NFC (s ++ slash :: t) = NFC s ++ slash :: NFC t).
Context (lower_law : forall r, lowerRune r <> [] /\ slash ∉ lowerRune r).
Context (NFC_ascii : forall s, forallb (fun c => b2z c <? 128) s = true -> NFC s = s).

Abbreviation lower_all := (ToLower lowerRune).
Lemma lower_fuel fuel s : (length s <= fuel)%nat -> lower_loop lowerRune fuel s = lower_all s.
Proof using.
  clear. unfold ToLower. remember (length s) as n eqn:En. assert (length s <= n)%nat as Hn by lia. clear En. intros Hf.
  revert s n Hn Hf. induction fuel as [|fuel IH]; intros s n Hn Hf.
  { destruct s; [by destruct n|cbn in Hn; lia]. }
  destruct s as [|c s]; [by destruct n|]. destruct n as [|n]; [cbn in Hn; lia|]. cbn [lower_loop]. destruct (b2z c <? 128).
  - f_equal. apply IH; cbn in Hn; lia.
  - f_equal. pose proof (runeLen_pos (c :: s)) as [H1 H2]; [done|]. apply IH; rewrite ?length_drop; cbn in *; lia.
Qed.
Lemma lower_slash_byte c : lower c = slash <-> c = slash.
Proof using. clear. split; [|by intros ->]. unfold lower, between. by destruct c. Qed.
Lemma ToLower_cons c s : lower_all (c :: s) = if b2z c <? 128 then lower c :: lower_all s
  else lowerRune (take (runeLen (c :: s)) (c :: s)) ++ lower_all (drop (runeLen (c :: s)) (c :: s)).
Proof using.
  clear. unfold ToLower at 1. cbn [length lower_loop]. destruct (b2z c <? 128); [done|]. f_equal. apply lower_fuel.
  pose proof (runeLen_pos (c :: s)) as [H1 H2]; [done|]. rewrite length_drop. cbn in *. lia.
Qed.
Lemma ToLower_below a b : lower_all (a ++ slash :: b) = lower_all a ++ slash :: lower_all b.
Proof using.
  clear. remember (length a) as n eqn:En. revert a En. induction n as [n IH] using lt_wf_ind. intros a ->. destruct a as [|c a].
  { cbn [app]. by rewrite ToLower_cons. }
  cbn [app]. rewrite !ToLower_cons. destruct (b2z c <? 128).
  - cbn [app]. f_equal. apply (IH (length a)); cbn; lia.
  - change (c :: a ++ slash :: b) with ((c :: a) ++ slash :: b). rewrite runeLen_slash by done.
    pose proof (runeLen_pos (c :: a)) as [H1 H2]; [done|]. rewrite take_app_le, drop_app_le by done. rewrite <- app_assoc. f_equal.
    apply (IH (length (drop (runeLen (c :: a)) (c :: a)))); [rewrite length_drop; cbn in *; lia|done].
Qed.
Lemma ToLower_nonempty s : s <> [] -> lower_all s <> [].
Proof using lower_law.
  clear -lower_law. destruct s as [|c s]; [done|]. intros _. rewrite ToLower_cons. case_match; [done|].
  destruct (lower_law (take (runeLen (c :: s)) (c :: s))) as [H1 _]. by intros [? _]%app_nil.
Qed.
Lemma ToLower_first s : hasPrefix s [slash] = false -> hasPrefix (lower_all s) [slash] = false.
Proof using lower_law.
  clear -lower_law. destruct s as [|c s]; [done|]. intros H. rewrite ToLower_cons. destruct (b2z c <? 128).
  - cbn [hasPrefix] in *. case_decide as E; [done|]. rewrite decide_False; [done|]. intros E2. apply E. symmetry. by apply lower_slash_byte.
  - destruct (lower_law (take (runeLen (c :: s)) (c :: s))) as [H1 H2]. destruct (lowerRune _) as [|x xs]; [done|].
    apply not_elem_of_cons in H2 as [H2 _]. cbn [app hasPrefix]. by rewrite decide_False by congruence.
Qed.

(** ** The patterns of a line *)

(** The glob that is compiled for a pattern: with or without the leading slash. *)
Definition glob_of (p : Pattern) (g : bytes) : Prop :=
  (g = pattern p \/ pattern p = slash :: g) /\ compile g = Some (match_ p).
Definition made (p : Pattern) : Prop := result p ∈ results /\ exists g, glob_of p g.
(** After an ignoring pattern comes, before any other, the same with everything below. *)
Definition for_children (p : Pattern) (l : list Pattern) : Prop := exists g, glob_of p g /\
  ((exists s, g = s ++ slashstars) \/ g = gostr "**" \/
   exists m q l', l = m ++ q :: l' /\ Forall (fun x => R_IsIgnored (result x) = true) m /\ R_IsIgnored (result q) = true /\
     R_IsCaseFolded (result q) = R_IsCaseFolded (result p) /\ glob_of q (g ++ slashstars)).
Fixpoint followed (ps : list Pattern) : Prop :=
  match ps with [] => True | p :: l => (R_IsIgnored (result p) = true -> for_children p l) /\ followed l end.
Definition well_formed (ps : list Pattern) : Prop := Forall made ps /\ followed ps.

Lemma followed_app ps qs : followed ps -> followed qs -> followed (ps ++ qs).
Proof using.
  clear. induction ps as [|p ps IH]; [done|]. intros [Hp Hf] Hq. split; [|by apply IH]. intros Hi.
  destruct (Hp Hi) as (g & Hg & [H|[H|(m & q & l' & -> & H)] ]); exists g; split; auto. right; right. exists m, q, (l' ++ qs).
  by rewrite <- app_assoc.
Qed.
Lemma well_formed_app ps qs : well_formed ps -> well_formed qs -> well_formed (ps ++ qs).
Proof using. intros [H1 H2] [H3 H4]. split; [by apply Forall_app|by apply followed_app]. Qed.

(** The text and the glob of the patterns of a line that has been stripped of its prefixes. *)
Definition group_of (y : bytes) : list (bytes * bytes) :=
  if hasPrefix y (gostr "/") then [(y, drop 1 y)]
  else if hasPrefix y (gostr "**/") then [(y, y); (drop 3 y, drop 3 y)]
  else [(y, y); (gostr "**/" ++ y, gostr "**/" ++ y)].
Definition stripped (line : bytes) : bytes * Z :=
  let '(y, r) := prefixes 3 false false false (NFC line) Ignored in
  (if R_IsCaseFolded r then lower_all y else y, r).
Definition makes (r : Z) (tg : bytes * bytes) (p : Pattern) : Prop :=
  pattern p = tg.1 /\ result p = r /\ compile tg.2 = Some (match_ p).
Lemma one_makes orig t g r p : one_pattern compile orig t g r = inr p -> makes r (t, g) p.
Proof using. clear. unfold one_pattern. destruct (compile g) as [m|] eqn:E; [|done]. by intros [= <-]. Qed.
Lemma two_makes orig a b r ps : two_patterns compile orig a b r = inr ps -> Forall2 (makes r) [(a, a); (b, b)] ps.
Proof using.
  clear. unfold two_patterns. destruct (one_pattern _ _ a _ _) as [e|p] eqn:Ep; [done|]. destruct (one_pattern _ _ b _ _) as [e|q] eqn:Eq; [done|].
  intros [= <-]. apply one_makes in Ep, Eq. constructor; [done|]. constructor; [done|]. constructor.
Qed.
Lemma parseLine_group line ps : parseLine compile NFC lowerRune line = inr ps ->
  (stripped line).1 <> [] /\ (stripped line).2 ∈ results /\ Forall2 (makes (stripped line).2) (group_of (stripped line).1) ps.
Proof using lower_law.
  unfold parseLine, stripped. pose proof (prefixes_results (NFC line)) as Hr. destruct (prefixes _ _ _ _ _ _) as [y r]. cbn [fst snd] in *.
  destruct (is_nil y) eqn:En; [done|]. assert (y <> []) as Hy by (by destruct y). set (y' := if R_IsCaseFolded r then _ else _).
  assert (y' <> []) as Hy' by (unfold y'; case_match; [by apply ToLower_nonempty|done]).
  unfold group_of. destruct (hasPrefix y' (gostr "/")); [|destruct (hasPrefix y' (gostr "**/"))].
  - destruct (one_pattern _ _ _ _ _) as [e|p] eqn:Ep; [done|]. intros [= <-]. apply one_makes in Ep. split_and!; [done|done|]. constructor; [done|]. constructor.
  - intros H. by apply two_makes in H.
  - intros H. by apply two_makes in H.
Qed.
Lemma stripped_below x t : stripped (x ++ slash :: t) =
  ((stripped x).1 ++ slash :: (if R_IsCaseFolded (stripped x).2 then lower_all (NFC t) else NFC t), (stripped x).2).
Proof using NFC_law.
  unfold stripped. rewrite NFC_law, prefixes_below. destruct (prefixes _ _ _ _ (NFC x) _) as [y r]. cbn [fst snd].
  case_match; [by rewrite ToLower_below|done].
Qed.

Lemma stripped_children x : stripped (x ++ slashstars) = ((stripped x).1 ++ slashstars, (stripped x).2).
Proof using NFC_law NFC_ascii.
  change (x ++ slashstars) with (x ++ slash :: gostr "**"). rewrite stripped_below, NFC_ascii by done.
  by assert (lower_all (gostr "**") = gostr "**") as -> by done; case_match.
Qed.
Lemma group_children y : y <> [] -> y <> gostr "**" ->
  group_of (y ++ slashstars) = map (fun tg => (tg.1 ++ slashstars, tg.2 ++ slashstars)) (group_of y).
Proof using.
  clear. intros Hy Hs. unfold group_of. destruct y as [|c y]; [done|].
  assert (hasPrefix ((c :: y) ++ slashstars) (gostr "/") = hasPrefix (c :: y) (gostr "/")) as -> by (cbn; by destruct y).
  case_match; [done|]. assert (hasPrefix ((c :: y) ++ slashstars) (gostr "**/") = hasPrefix (c :: y) (gostr "**/")) as ->.
  { destruct y as [|d [|e y] ]; cbn; repeat case_decide; try done. by subst. }
  destruct (hasPrefix (c :: y) (gostr "**/")) eqn:E; [|by rewrite !app_assoc].
  apply hasPrefix_spec in E as [z ->]. cbn [map fst snd]. by rewrite <- app_assoc.
Qed.
Definition ends (g : bytes) : Prop := (exists s, g = s ++ slashstars) \/ g = gostr "**".
Lemma group_ends y : ends y -> Forall (fun tg => ends tg.2) (group_of y).
Proof using.
  clear. intros [ [x ->]| ->]; [|constructor; [by right|]; constructor; [left; by exists (gostr "**")|]; constructor].
  unfold group_of. destruct x as [|c x]; [constructor; [by right|]; constructor|]. destruct (hasPrefix _ (gostr "/")).
  { constructor; [|constructor]. left. by exists x. }
  destruct (hasPrefix ((c :: x) ++ slashstars) (gostr "**/")) eqn:E.
  - constructor; [left; by exists (c :: x)|]. constructor; [|constructor]. destruct x as [|d [|e x] ].
    + cbn in E. by repeat case_decide.
    + by right.
    + left. by exists x.
  - constructor; [left; by exists (c :: x)|]. constructor; [|constructor]. left. by exists (gostr "**/" ++ c :: x).
Qed.
Lemma group_slash y : Forall (fun tg => tg.1 = tg.2 \/ tg.1 = slash :: tg.2) (group_of y).
Proof using.
  clear. unfold group_of. destruct (hasPrefix y (gostr "/")) eqn:E.
  - apply hasPrefix_spec in E as [z ->]. constructor; [by right|]. constructor.
  - case_match; (constructor; [by left|]; constructor; [by left|]; constructor).
Qed.
Lemma makes_made r tg p : r ∈ results -> tg.1 = tg.2 \/ tg.1 = slash :: tg.2 -> makes r tg p -> result p = r /\ made p /\ glob_of p tg.2.
Proof using.
  clear. intros Hr Ht (Hp & <- & Hc). assert (glob_of p tg.2) as Hg by (split; [rewrite Hp; by destruct Ht as [->| ->]; [left|right]|done]).
  split_and!; [done|by split; [|exists tg.2]|done].
Qed.
Lemma group_made r y ps : r ∈ results -> Forall2 (makes r) (group_of y) ps ->
  Forall made ps /\ Forall (fun p => result p = r) ps /\ Forall2 (fun tg p => glob_of p tg.2) (group_of y) ps.
Proof using.
  clear. intros Hr H. pose proof (group_slash y) as Hs. induction H as [|tg p l ps Hp H IH]; [split_and!; constructor|].
  pose proof (Forall_inv Hs) as Ht. apply Forall_inv_tail in Hs. destruct (makes_made r tg p Hr Ht Hp) as (H1 & H2 & H3).
  destruct (IH Hs) as (H4 & H5 & H6). split_and!; constructor; done.
Qed.
Lemma ends_followed l ps : Forall (fun tg : bytes * bytes => ends tg.2) l -> Forall2 (fun tg p => glob_of p tg.2) l ps -> followed ps.
Proof using.
  clear. intros He H. induction H as [|tg p l ps Hp H IH]; [done|]. pose proof (Forall_inv He) as Ht. apply Forall_inv_tail in He.
  split; [|by apply IH]. intros _. exists tg.2. split; [done|]. destruct Ht as [Ht|Ht]; auto.
Qed.
Lemma children_line x ps : parseLine compile NFC lowerRune (x ++ slashstars) = inr ps -> well_formed ps.
Proof using NFC_law NFC_ascii lower_law.
  intros H. apply parseLine_group in H as (_ & Hr & H). apply group_made in H as (H1 & _ & H3); [|done]. split; [done|].
  eapply ends_followed; [|exact H3]. apply group_ends. rewrite stripped_children. left. by exists (stripped x).1.
Qed.
Lemma plain_line x ps qs : parseLine compile NFC lowerRune x = inr ps -> parseLine compile NFC lowerRune (x ++ slashstars) = inr qs ->
  well_formed (ps ++ qs).
Proof using NFC_law NFC_ascii lower_law.
  intros Hp Hq. pose proof (children_line x qs Hq) as [Wq Fq]. apply parseLine_group in Hp as (Hy & Hr & Hp).
  apply parseLine_group in Hq as (_ & _ & Hq). rewrite stripped_children in Hq. cbn [fst snd] in Hq.
  destruct (stripped x) as [y r]. cbn [fst snd] in *. apply group_made in Hp as (Wp & Rp & Gp); [|done].
  split; [by apply Forall_app|]. destruct (decide (y = gostr "**")) as [->|Hs].
  { apply followed_app; [|done]. eapply ends_followed; [|exact Gp]. apply group_ends. by right. }
  apply group_made in Hq as (_ & Rq & Gq); [|done]. rewrite group_children in Gq by done.
  assert (forall p q g, result p = r -> result q = r -> glob_of p g -> glob_of q (g ++ slashstars) -> forall m l,
    Forall (fun x => result x = r) m -> R_IsIgnored (result p) = true -> for_children p (m ++ q :: l)) as Hnext.
  { intros p q g E1 E2 G1 G2 m l Hm Hi. exists g. split; [done|]. right; right. exists m, q, l. rewrite E1 in *. rewrite E2. split_and!; try done.
    eapply Forall_impl; [|exact Hm]. by intros z ->. }
  assert ((exists a, group_of y = [a]) \/ exists a b, group_of y = [a; b]) as [ [a E]|(a & b & E)] by (unfold group_of; repeat case_match; eauto).
  - rewrite E in Gp, Gq. cbn [map] in Gq. apply Forall2_cons_inv_l in Gp as (p & ? & G1 & ->%Forall2_nil_inv_l & ->).
    apply Forall2_cons_inv_l in Gq as (q & ? & G2 & ->%Forall2_nil_inv_l & ->). cbn [fst snd] in G2.
    apply Forall_inv in Rp, Rq. split; [|done]. by apply (Hnext p q a.2 Rp Rq G1 G2 [] []).
  - rewrite E in Gp, Gq. cbn [map] in Gq.
    apply Forall2_cons_inv_l in Gp as (p1 & ? & G1 & (p2 & ? & G2 & ->%Forall2_nil_inv_l & ->)%Forall2_cons_inv_l & ->).
    apply Forall2_cons_inv_l in Gq as (q1 & ? & G3 & (q2 & ? & G4 & ->%Forall2_nil_inv_l & ->)%Forall2_cons_inv_l & ->). cbn [fst snd] in G3, G4.
    pose proof (Forall_inv Rp) as R1. pose proof (Forall_inv (Forall_inv_tail Rp)) as R2.
    pose proof (Forall_inv Rq) as R3. pose proof (Forall_inv (Forall_inv_tail Rq)) as R4. split; [|split; [|done] ].
    + apply (Hnext p1 q1 a.2 R1 R3 G1 G3 [p2] [q2]). by constructor.
    + apply (Hnext p2 q2 b.2 R2 R4 G2 G4 [q1] []). by constructor.
Qed.
Lemma pattern_line_formed line ps ps' : pattern_line compile NFC lowerRune line ps = inr ps' -> well_formed ps -> well_formed ps'.
Proof using NFC_law NFC_ascii lower_law.
  assert (forall l qs qs', add_patterns compile NFC lowerRune l qs = inr qs' -> exists new, parseLine compile NFC lowerRune l = inr new /\ qs' = qs ++ new) as Hadd.
  { intros l qs qs'. unfold add_patterns. destruct (parseLine _ _ _ l) as [e|new]; [done|]. intros [= <-]. eauto. }
  unfold pattern_line. intros H Hps. destruct (hasSuffix line (gostr "/**")) eqn:E1; [|destruct (hasSuffix line (gostr "/")) eqn:E2].
  - apply hasSuffix_spec in E1 as [x ->]. apply Hadd in H as (new & H & ->). apply well_formed_app; [done|]. by eapply children_line.
  - apply hasSuffix_spec in E2 as [x ->]. apply Hadd in H as (new & H & ->). apply well_formed_app; [done|]. rewrite <- app_assoc in H.
    by eapply (children_line x).
  - destruct (add_patterns _ _ _ line ps) as [e|qs] eqn:E; [done|]. apply Hadd in E as (new & Hn & ->).
    apply Hadd in H as (new2 & Hn2 & ->). rewrite <- app_assoc. apply well_formed_app; [done|]. by eapply plain_line.
Qed.
Lemma well_formed_nil : well_formed [].
Proof using. by split; [constructor|]. Qed.
Lemma parse_lines_formed include file lines ps inc esc seen st st' ps' :
  (forall f s s' qs, include f s = (s', Ret qs) -> well_formed qs) -> well_formed ps ->
  parse_lines compile NFC lowerRune include file lines ps inc esc seen st = (st', Ret ps') -> well_formed ps'.
Proof using NFC_law NFC_ascii lower_law.
  intros Hinc. revert ps inc esc seen st. induction lines as [|line lines IH]; intros ps inc esc seen st Hps; cbn [parse_lines]; [by intros [= _ <-]|].
  case_bool; [case_bool; [done|]; case_bool; [done|]; destruct (escape_char line); [by apply IH|done]|].
  case_bool; [by apply IH|]. case_bool; [by apply IH|]. case_bool.
  - destruct (cut _ _) as [ [w rel]|]; [|done]. case_bool; [done|]. destruct (include _ _) as [s [new|e| |] ] eqn:Ei; [|done..].
    apply IH. apply well_formed_app; [done|by eapply Hinc].
  - destruct (pattern_line _ _ _ _ ps) as [e|qs] eqn:Ep; [done|]. apply IH. by eapply pattern_line_formed.
Qed.
Lemma parse_with_formed include file content failing st st' lines ps :
  (forall f s s' qs, include f s = (s', Ret qs) -> well_formed qs) ->
  parse_with compile NFC lowerRune include file content failing st = (st', lines, Ret ps) -> well_formed ps.
Proof using NFC_law NFC_ascii lower_law.
  intros Hinc. unfold parse_with. destruct (scan_lines _ _); [done|].
  destruct (parse_lines _ _ _ _ _ _ _ _ _ _ _) as [s [qs|[k e]| |] ] eqn:E; [|done..]. intros [= _ _ <-].
  eapply parse_lines_formed; [exact Hinc|apply well_formed_nil|exact E].
Qed.
Lemma include_formed fuel w f file st st' ps : loadParseIncludeFile compile NFC lowerRune fuel w f file st = (st', Ret ps) -> well_formed ps.
Proof using NFC_law NFC_ascii lower_law.
  revert f file st st' ps. induction fuel as [|fuel IH]; intros f file st st' ps; [done|]. cbn [loadParseIncludeFile].
  destruct (include_target f file st) as [ [f1 file1] st1]. case_bool; [done|]. destruct (w_open w f1 file1) as [e|[ [content failing] t] ]; [done|].
  destruct (parse_with _ _ _ _ _ _ _ _) as [ [s l] r] eqn:E. intros [= _ ->]. eapply parse_with_formed; [|exact E]. apply IH.
Qed.
Lemma parse_formed fuel w f content failing file st st' lines ps :
  parseIgnoreFile compile NFC lowerRune fuel w f content failing file st = (st', lines, Ret ps) -> well_formed ps.
Proof using NFC_law NFC_ascii lower_law. apply parse_with_formed. apply include_formed. Qed.

(** ** Matching *)

Definition view (p : Pattern) (s : bytes) : bytes := if R_IsCaseFolded (result p) then lower_all s else s.
Definition hits (p : Pattern) (s : bytes) : bool := match_ p (view p s).
Lemma view_below p d t : view p (d ++ slash :: t) = view p d ++ slash :: view p t.
Proof using. clear. unfold view. case_match; [apply ToLower_below|done]. Qed.
Lemma view_relative p d : d <> [] -> IsAbs d = false -> view p d <> [] /\ IsAbs (view p d) = false.
Proof using lower_law.
  intros Hd Ha. unfold view. case_match; [|done]. split; [by apply ToLower_nonempty|by apply ToLower_first].
Qed.
Lemma first_match s b ps : Forall made ps ->
  (match_patterns lowerRune s b ps = NotIgnored /\ Forall (fun p => hits p s = false) ps) \/
  exists l1 p l2, ps = l1 ++ p :: l2 /\ Forall (fun p => hits p s = false) l1 /\ hits p s = true /\
    match_patterns lowerRune s b ps = if b && forallb allowsSkippingIgnoredDirs (l1 ++ [p]) then WithSkipDir (result p) else result p.
Proof using.
  intros Hm. revert b. induction ps as [|p ps IH]; intros b; [by left|]. cbn [match_patterns]. change (match_ p _) with (hits p s).
  destruct (hits p s) eqn:E; [right; exists [], p, ps; split_and!; [done|constructor|done|cbn; by rewrite andb_true_r]|].
  apply Forall_inv_tail in Hm. destruct (IH Hm (b && allowsSkippingIgnoredDirs p)) as [ [H1 H2]|(l1 & q & l2 & -> & H1 & H2 & H3)].
  - left. split; [done|by constructor].
  - right. exists (p :: l1), q, l2. split_and!; [done|by constructor|done|]. cbn [app forallb]. by rewrite H3, andb_assoc.
Qed.
(** What is decided by the first pattern that matches. *)
Lemma ignored_by s ps l1 p l2 : Forall made ps -> ps = l1 ++ p :: l2 -> hits p s = true ->
  (forall q, q ∈ l1 -> hits q s = true -> R_IsIgnored (result q) = true) -> R_IsIgnored (result p) = true ->
  R_IsIgnored (match_patterns lowerRune s true ps) = true.
Proof using.
  intros Hm -> Hp Hb Hi. destruct (first_match s true _ Hm) as [ [_ H]|(k1 & q & k2 & E & H1 & H2 & ->)].
  - apply Forall_app in H as [_ H]. pose proof (Forall_inv H). congruence.
  - assert (R_IsIgnored (result q) = true) as Hq.
    { apply app_eq_inv in E as [(k & -> & E)|(k & -> & E)].
      - destruct k as [|x k]; [by injection E as -> _|]. injection E as -> _. apply Hb; [apply elem_of_app; right; left|done].
      - destruct k as [|x k]; [by injection E as <- _|]. injection E as <- _. apply Forall_app in H1 as [_ H1]. pose proof (Forall_inv H1). congruence. }
    rewrite E in Hm. apply Forall_app in Hm as [_ Hm]. destruct (Forall_inv Hm) as [Hr _].
    apply result_bits in Hr as (_ & Hr & _). case_match; [by rewrite Hr|done].
Qed.

(** ** Directories that are skipped *)

(** The text is simple, and so is the glob. *)
Lemma glob_plain p g : glob_of p g -> plain (pattern p) = true -> forall s, match_ p s = gmatch (tokens g) s.
Proof using glob_law.
  intros [Hg Hc] Hp s. assert (plain g = true) as Hpg.
  { destruct Hg as [->|E]; [done|]. rewrite E in Hp. unfold plain in Hp. cbn [forallb] in Hp. by apply andb_true_iff in Hp as [_ Hp]. }
  destruct (glob_law g Hpg) as (m & Hm & H). rewrite Hm in Hc. injection Hc as <-. apply H.
Qed.
(** The exceptions that let directories be skipped: a name without slashes, with [**] at most at its end. *)
Lemma shallow_tokens s : slash ∉ s -> contains (trimSuffix (slash :: s) (gostr "**")) (gostr "**") = false ->
  exists ts us, tokens s = ts ++ us /\ flat ts /\ stars us.
Proof using.
  clear. intros Hs Hc. destruct (hasSuffix (slash :: s) (gostr "**")) eqn:E.
  - apply hasSuffix_spec in E as [r Hr]. rewrite Hr, trimSuffix_app in Hc. destruct r as [|c r]; [done|]. injection Hr as <- ->.
    cbn [contains] in Hc. apply orb_false_iff in Hc as [_ Hc]. destruct (tokens_trailing r Hc) as (ts & us & E & Hu & H1 & H2).
    exists ts, us. split_and!; [done| |done]. split; [done|]. intros H. apply Hs, elem_of_app. left. auto.
  - unfold trimSuffix in Hc. rewrite E in Hc. cbn [contains] in Hc. apply orb_false_iff in Hc as [_ Hc]. exists (tokens s), [].
    split_and!; [by rewrite app_nil_r| |done]. split; [by apply tokens_super|by apply tokens_slash].
Qed.
(** An exception for what is in a directory comes after the one for the directory itself. *)
Definition exceptions_whole (ps : list Pattern) : Prop := forall l1 p l2 s,
  ps = l1 ++ p :: l2 -> R_IsIgnored (result p) = false -> pattern p = slash :: s ++ slashstars ->
  exists q, q ∈ l1 /\ R_IsIgnored (result q) = false /\ R_IsCaseFolded (result q) = R_IsCaseFolded (result p) /\
    pattern q = slash :: s /\ compile s = Some (match_ q).
Lemma exception_parent ps l1 p l2 d t : Forall (fun p => plain (pattern p) = true) ps -> Forall made ps -> exceptions_whole ps ->
  ps = l1 ++ p :: l2 -> R_IsIgnored (result p) = false -> allowsSkippingIgnoredDirs p = true -> d <> [] -> IsAbs d = false ->
  hits p (d ++ slash :: t) = true -> exists q, q ∈ l1 ++ [p] /\ R_IsIgnored (result q) = false /\ hits q d = true.
Proof using glob_law lower_law.
  intros Hpl Hm Hex E Hi Ha Hd Hrel Hh. unfold allowsSkippingIgnoredDirs in Ha. rewrite Hi in Ha.
  assert (plain (pattern p) = true /\ made p) as [Hpp [_ [g Hg] ] ].
  { subst ps. apply Forall_app in Hpl as [_ H1]. apply Forall_app in Hm as [_ H2]. split; [exact (Forall_inv H1)|exact (Forall_inv H2)]. }
  pose proof (glob_plain p g Hg Hpp) as Hmatch. unfold hits in *. rewrite view_below, Hmatch in Hh.
  destruct (view_relative p d Hd Hrel) as [Hv Hvr]. set (v := view p d) in *. set (u := view p t) in *.
  destruct (pattern p) as [|c rest] eqn:Epat; [done|]. case_bool_decide as Ec; [|done]. cbn [negb] in Ha. subst c.
  destruct Hg as [ [->|Eg] Hc].
  { exfalso. cbn [tokens] in Hh. rewrite Epat in Hh. cbn [tokens gmatch] in Hh. destruct v as [|x v]; [done|]. cbn [app gmatch] in Hh.
    rewrite bool_decide_eq_false_2 in Hh by done. cbn [gmatch] in Hh. apply andb_true_iff in Hh as [<-%bool_decide_eq_true _]. done. }
  rewrite Epat in Eg. injection Eg as <-.
  assert (forall q, q = p -> gmatch (tokens rest) v = true -> exists q, q ∈ l1 ++ [p] /\ R_IsIgnored (result q) = false /\ hits q d = true) as Hself.
  { intros q -> H. exists p. split_and!; [apply elem_of_app; right; left|done|]. unfold hits. by rewrite Hmatch. }
  destruct (hasSuffix (slash :: rest) slashstars) eqn:Es.
  - apply hasSuffix_spec in Es as [x Ex]. rewrite Ex, trimSuffix_app in Ha. destruct x as [|y x].
    { injection Ex as ->. apply (Hself p eq_refl). by apply (stars_super [] v); left. }
    injection Ex as <- ->. case_bool_decide as Hx; [done|]. apply negb_true_iff in Ha.
    destruct (shallow_tokens x Hx Ha) as (ts & us & Et & Hf & Hu).
    assert (tokens (x ++ slashstars) = ts ++ us ++ [GLit slash; GSuper]) as Et2.
    { change slashstars with (slash :: gostr "**"). by rewrite tokens_app, Et, <- app_assoc by done. }
    rewrite Et2 in Hh. destruct (shallow_children ts us v u Hf Hu Hh) as [H|H]; [|apply (Hself p eq_refl); by rewrite Et2].
    destruct (Hex l1 p l2 x E Hi Epat) as (q & Hq & Hiq & Hfold & Hpq & Hcq). exists q. split_and!; [apply elem_of_app; by left|done|].
    assert (plain (pattern q) = true) as Hplq by (subst ps; apply Forall_app in Hpl as [H1 _]; by rewrite Forall_forall in H1; apply H1, list_elem_of_In).
    unfold hits. rewrite (glob_plain q x (conj (or_intror Hpq) Hcq) Hplq). unfold view. rewrite Hfold. by rewrite Et.
  - assert (trimSuffix (slash :: rest) slashstars = slash :: rest) as Etr by (unfold trimSuffix; by rewrite Es).
    change (gostr "/**") with slashstars in Ha. rewrite Etr in Ha. case_bool_decide as Hx; [done|]. apply negb_true_iff in Ha.
    destruct (shallow_tokens rest Hx Ha) as (ts & us & Et & Hf & Hu). apply (Hself p eq_refl). rewrite Et in *. by eapply shallow_parent.
Qed.
Lemma skip_patterns ps d t : Forall (fun p => plain (pattern p) = true) ps -> well_formed ps -> exceptions_whole ps ->
  d <> [] -> IsAbs d = false -> R_CanSkipDir (match_patterns lowerRune d true ps) = true ->
  R_IsIgnored (match_patterns lowerRune (d ++ slash :: t) true ps) = true.
Proof using glob_law lower_law.
  intros Hpl [Hm Hf] Hex Hd Hrel Hs. destruct (first_match d true ps Hm) as [ [E _]|(l1 & p & l2 & E & H1 & Hp & Er)]; [by rewrite E in Hs|].
  rewrite Er in Hs. assert (made p) as Hmp by (rewrite E in Hm; apply Forall_app in Hm as [_ Hm]; exact (Forall_inv Hm)).
  destruct (result_bits _ (proj1 Hmp)) as (R1 & R2 & R3). cbn [andb] in Hs.
  destruct (forallb allowsSkippingIgnoredDirs (l1 ++ [p])) eqn:Ha; [|congruence]. rewrite R3 in Hs.
  assert (forall q, q ∈ l1 -> hits q (d ++ slash :: t) = true -> R_IsIgnored (result q) = true) as Hbefore.
  { intros q Hq Hh. destruct (R_IsIgnored (result q)) eqn:Eq; [done|]. apply list_elem_of_split in Hq as (k1 & k2 & ->).
    destruct (exception_parent ps k1 q (k2 ++ p :: l2) d t Hpl Hm Hex) as (x & Hx & _ & Hhx); [by rewrite E, <- app_assoc|done| |done|done|done|].
    { rewrite !forallb_app in Ha. cbn [forallb] in Ha. by rewrite !andb_true_iff in Ha; destruct Ha as [ [_ [Ha _] ] _]. }
    rewrite Forall_forall in H1. assert (hits x d = false) as Hc; [|congruence]. apply H1, list_elem_of_In.
    apply elem_of_app in Hx as [Hx|Hx%list_elem_of_singleton]; apply elem_of_app; [by left|right; subst; left]. }
  assert (for_children p l2) as (g & Hg & Hfol).
  { clear -E Hf Hs. subst ps. induction l1 as [|x l1 IH]; [by apply Hf|]. apply IH, Hf. }
  assert (plain (pattern p) = true) as Hpp by (rewrite E in Hpl; apply Forall_app in Hpl as [_ Hpl]; exact (Forall_inv Hpl)).
  pose proof (glob_plain p g Hg Hpp) as Hgm. unfold hits in Hp. rewrite Hgm in Hp.
  assert (gmatch (tokens g) (view p d ++ slash :: view p t) = true -> R_IsIgnored (match_patterns lowerRune (d ++ slash :: t) true ps) = true) as Hdone.
  { intros H. apply (ignored_by _ ps l1 p l2); [done|done| |done|done]. unfold hits. by rewrite view_below, Hgm. }
  destruct Hfol as [ [s ->]|[->|(m & q & l' & -> & Hmi & Hqi & Hfold & Hgq)] ].
  - apply Hdone. change slashstars with (slash :: gostr "**") in *. rewrite tokens_app in * by done. by apply stays_below.
  - apply Hdone. apply (stars_super []). by left.
  - apply (ignored_by _ ps (l1 ++ p :: m) q l'); [done|by rewrite E, <- app_assoc| |intros x Hx Hh|done].
    + assert (plain (pattern q) = true) as Hplq.
      { rewrite E in Hpl. apply Forall_app in Hpl as [_ Hpl]. apply Forall_inv_tail, Forall_app in Hpl as [_ Hpl]. exact (Forall_inv Hpl). }
      unfold hits. rewrite (glob_plain q _ Hgq Hplq), view_below. unfold view at 1 2. rewrite Hfold.
      change slashstars with (slash :: gostr "**"). rewrite tokens_app by done. by apply goes_below.
    + apply elem_of_app in Hx as [Hx|[->|Hx]%elem_of_cons]; [by apply Hbefore|done|]. rewrite Forall_forall in Hmi. by apply Hmi, list_elem_of_In.
Qed.

(** ** The matcher *)

Abbreviation run_match := (Match lowerRune).
Inductive operation := OpLoad (fuel : nat) (w : world) (file : bytes) | OpParse (fuel : nat) (w : world) (content : bytes) (failing : bool) (file : bytes)
  | OpMatch (file : bytes) (now : Z) | OpClean (d now : Z).
Definition operate (m : Matcher) (o : operation) : Matcher :=
  match o with
  | OpLoad fuel w file => (Load compile NFC lowerRune sha256hex fuel w file m).1
  | OpParse fuel w content failing file => (parseLocked compile NFC lowerRune sha256hex fuel w content failing file m).1
  | OpMatch file now => (run_match file now m).1
  | OpClean d now => clean d now m
  end.
Definition after_ops (f : fsys) (cached : bool) (ops : list operation) : Matcher := fold_left operate ops (New f cached).

(** What is remembered is what the patterns say. *)
Definition cache_ok (m : Matcher) : Prop := forall c, matches m = Some c ->
  withCache m = true /\ forall key r t, c !! key = Some (r, t) -> r = match_patterns lowerRune key true (patterns m).
Definition matcher_ok (m : Matcher) : Prop := well_formed (patterns m) /\ cache_ok m.
(** The same matcher but for the cache. *)
Definition alike (m m' : Matcher) : Prop :=
  m_fs m = m_fs m' /\ lines_ m = lines_ m' /\ patterns m = patterns m' /\ curHash m = curHash m' /\
  changeDetector m = changeDetector m' /\ m_nextFs m = m_nextFs m'.

Definition decides (file : bytes) (ps : list Pattern) : Z :=
  if IsTemporary file then IgnoreAndSkip else if IsInternal file then IgnoreAndSkip
  else if bool_decide (file = dot) then NotIgnored else match_patterns lowerRune file true ps.
Lemma match_decides file now m : cache_ok m -> (run_match file now m).2 = decides file (patterns m).
Proof using.
  intros Hc. unfold Match, decides. case_bool; [done|]. case_bool; [done|]. case_bool; [done|].
  destruct (is_nil (patterns m)) eqn:E; [by destruct (patterns m)|]. destruct (matches m) as [c|] eqn:Em; [|done].
  unfold cache_get. destruct (c !! file) as [ [r t]|] eqn:El; [|done]. destruct (Hc c Em) as [_ H]. cbn [snd]. by eapply H.
Qed.
Lemma match_same file now m : alike (run_match file now m).1 m /\ (cache_ok m -> cache_ok (run_match file now m).1).
Proof using.
  unfold Match. repeat (case_bool; [done|]). destruct (is_nil (patterns m)); [done|]. destruct (matches m) as [c|] eqn:Em; [|done].
  unfold cache_get. destruct (c !! file) as [ [r t]|] eqn:El; cbn [fst]; (split; [done|]); intros Hc c' [= <-]; destruct (Hc c Em) as [Hw H];
    (split; [done|]); intros key r' t'.
  - unfold cache in *. rewrite lookup_insert_Some. intros [ [<- [= <- <-] ]|[_ Hk] ]; [by eapply H|by eapply H].
  - unfold cache_set, cache in *. rewrite lookup_insert_Some. intros [ [<- [= <- <-] ]|[_ Hk] ]; [done|by eapply H].
Qed.
Lemma clean_same d now m : alike (clean d now m) m /\ (cache_ok m -> cache_ok (clean d now m)).
Proof using.
  split; [done|]. intros Hc c' E. cbn in E. destruct (matches m) as [c|] eqn:Em; [|done]. injection E as <-. destruct (Hc c Em) as [Hw H].
  split; [done|]. intros key r t. unfold cache_clean, cache in *. rewrite map_lookup_filter_Some. intros [Hk _]. by eapply H.
Qed.
Abbreviation locked := (parseLocked compile NFC lowerRune sha256hex).
Lemma locked_ok fuel w content failing file m : matcher_ok m -> matcher_ok (locked fuel w content failing file m).1.
Proof using NFC_law NFC_ascii lower_law.
  intros [Hw Hc]. unfold parseLocked. destruct (parseIgnoreFile _ _ _ _ _ _ _ _ _ _) as [ [st lines] r] eqn:E.
  destruct r as [ps|e| |]; [| |done..].
  - apply parse_formed in E. case_bool; [done|]. split; [done|]. intros c Em. cbn in Em. destruct (withCache m) eqn:Ew.
    + injection Em as <-. split; [done|]. intros key r t. unfold cache. by rewrite lookup_empty.
    + destruct (Hc c Em) as [H _]. congruence.
  - case_bool; [done|]. split; [apply well_formed_nil|]. intros c Em. cbn in Em. destruct (withCache m) eqn:Ew.
    + injection Em as <-. split; [done|]. intros key r t. unfold cache. by rewrite lookup_empty.
    + destruct (Hc c Em) as [H _]. congruence.
Qed.
Lemma locked_alike fuel w content failing file m m' : alike m m' ->
  alike (locked fuel w content failing file m).1 (locked fuel w content failing file m').1 /\
  (locked fuel w content failing file m).2 = (locked fuel w content failing file m').2.
Proof using.
  clear. intros (E1 & E2 & E3 & E4 & E5 & E6). unfold parseLocked. rewrite E1, E5, E6.
  destruct (parseIgnoreFile _ _ _ _ _ _ _ _ _ _) as [ [st lines] [ps|e| |] ]; [| |done..]; cbn [curHash]; rewrite E4; by case_bool.
Qed.
Lemma load_ok fuel w file m : matcher_ok m -> matcher_ok (Load compile NFC lowerRune sha256hex fuel w file m).1.
Proof using NFC_law NFC_ascii lower_law.
  intros Hm. unfold Load. case_bool; [done|]. destruct (w_open w (m_fs m) file) as [e|[ [content failing] t] ].
  - pose proof (locked_ok fuel w [] false file m Hm) as H. by destruct (locked _ _ _ _ _ _).
  - pose proof (locked_ok fuel w content failing file (set_cd ∅ m) Hm) as H. by destruct (locked _ _ _ _ _ _) as [m' [ []|e| |] ].
Qed.
Lemma load_alike fuel w file m m' : alike m m' ->
  alike (Load compile NFC lowerRune sha256hex fuel w file m).1 (Load compile NFC lowerRune sha256hex fuel w file m').1.
Proof using.
  clear. intros H. pose proof H as (E1 & E2 & E3 & E4 & E5 & E6). unfold Load. rewrite E1, E5. case_bool; [done|].
  destruct (w_open w (m_fs m') file) as [e|[ [content failing] t] ].
  - destruct (locked_alike fuel w [] false file m m' H) as [H1 _]. by destruct (locked _ _ _ _ _ m), (locked _ _ _ _ _ m').
  - assert (alike (set_cd ∅ m) (set_cd ∅ m')) as H0 by (by split_and!).
    destruct (locked_alike fuel w content failing file _ _ H0) as [H1 H2].
    destruct (locked _ _ _ _ _ (set_cd ∅ m)) as [n r], (locked _ _ _ _ _ (set_cd ∅ m')) as [n' r']. cbn [fst snd] in *. subst r'.
    destruct r as [ []|e| |]; try done. destruct H1 as (F1 & F2 & F3 & F4 & F5 & F6). split_and!; try done. cbn. by rewrite F1, F5.
Qed.
Lemma ops_ok f cached ops : matcher_ok (after_ops f cached ops).
Proof using NFC_law NFC_ascii lower_law.
  assert (matcher_ok (New f cached)) as H by (split; [apply well_formed_nil|done]). unfold after_ops. revert H. generalize (New f cached) as m.
  induction ops as [|o ops IH]; intros m Hm; [done|]. apply IH. destruct o; cbn [operate].
  - by apply load_ok.
  - by apply locked_ok.
  - destruct (match_same file now m) as [H1 H2], Hm as [Hw Hc]. split; [|by apply H2]. by destruct H1 as (_ & _ & -> & _).
  - destruct (clean_same d now m) as [H1 H2], Hm as [Hw Hc]. split; [|by apply H2]. by destruct H1 as (_ & _ & -> & _).
Qed.
Lemma matcher_alike_sym m m' : alike m m' -> alike m' m.
Proof using. clear. unfold alike. intros (E1 & E2 & E3 & E4 & E5 & E6). split_and!; congruence. Qed.
Lemma matcher_alike_trans m m' m'' : alike m m' -> alike m' m'' -> alike m m''.
Proof using. clear. unfold alike. intros (E1 & E2 & E3 & E4 & E5 & E6) (F1 & F2 & F3 & F4 & F5 & F6). split_and!; congruence. Qed.

(** The cache is transparent: after any operations, whatever was matched before and whenever the cache was
    cleaned, a matcher with a cache answers as one without, which is the first pattern that matches. *)
Theorem cache_transparent f ops file now :
  (run_match file now (after_ops f true ops)).2 = (run_match file now (after_ops f false ops)).2 /\
  (run_match file now (after_ops f true ops)).2 = decides file (patterns (after_ops f false ops)).
Proof using NFC_law NFC_ascii lower_law.
  assert (alike (after_ops f true ops) (after_ops f false ops)) as Ha.
  { assert (alike (New f true) (New f false)) as H by done. unfold after_ops. revert H. generalize (New f true) (New f false).
    induction ops as [|o ops IH]; intros m m' H; [done|]. apply IH. destruct o; cbn [operate].
    - by apply load_alike.
    - by apply locked_alike.
    - eapply matcher_alike_trans; [apply match_same|]. eapply matcher_alike_trans; [exact H|]. apply matcher_alike_sym, match_same.
    - eapply matcher_alike_trans; [apply clean_same|]. eapply matcher_alike_trans; [exact H|]. apply matcher_alike_sym, clean_same. }
  rewrite !match_decides by apply ops_ok. destruct Ha as (_ & _ & -> & _). done.
Qed.

(** *** Directories *)

Definition ordinary (i : bytes) : bool :=
  negb (is_nil i) && negb (bool_decide (i = dot)) && negb (IsAbs i) && negb (bool_decide (list.last i = Some slash)).
Lemma parent_below i z : ordinary i = true -> IsParent (i ++ slash :: z) i = true.
Proof using.
  clear. unfold ordinary. rewrite !andb_true_iff, !negb_true_iff. intros [ [ [Hn Hd] Ha] Hl]. unfold IsParent.
  rewrite bool_decide_eq_false_2 by (intros E; apply (f_equal length) in E; rewrite length_app in E; cbn in E; lia).
  assert (IsAbs (i ++ slash :: z) = false) as -> by (by destruct i). rewrite Ha. cbn [eqb negb]. rewrite Hn, Hd. cbn [orb].
  rewrite bool_decide_eq_false_2 by (by intros ->). rewrite Hl.
  assert (hasPrefix (i ++ slash :: z) i = true) as -> by (apply hasPrefix_spec; eauto). cbn [negb]. rewrite length_app. cbn [length].
  assert ((length i + S (length z) <=? length i)%nat = false) as -> by (apply Nat.leb_gt; lia).
  rewrite lookup_app_r, Nat.sub_diag by lia. by apply bool_decide_eq_true_2.
Qed.
Lemma parent_split d i : ordinary i = true -> IsParent d i = true -> exists z, d = i ++ slash :: z.
Proof using.
  clear. unfold ordinary. rewrite !andb_true_iff, !negb_true_iff. intros [ [ [Hn Hd] Ha] Hl]. unfold IsParent. case_bool; [done|].
  case_bool; [done|]. rewrite Hn, Hd. cbn [orb]. rewrite bool_decide_eq_false_2 by (by intros ->). rewrite Hl.
  destruct (hasPrefix d i) eqn:E; [|done]. cbn [negb]. apply hasPrefix_spec in E as [r ->]. case_bool; [done|].
  rewrite lookup_app_r, Nat.sub_diag by lia. intros H. apply bool_decide_eq_true in H. destruct r as [|x r]; [done|]. injection H as ->. eauto.
Qed.
Lemma internal_below d t : IsInternal d = true -> IsInternal (d ++ slash :: t) = true.
Proof using.
  clear. intros Hi. unfold IsInternal in *. apply existsb_exists in Hi as (i & Hin & H). apply existsb_exists. exists i. split; [done|].
  apply orb_true_iff. right. assert (ordinary i = true) as Ho by (destruct Hin as [<-|[<-|[<-|[] ] ] ]; done).
  apply orb_true_iff in H as [->%bool_decide_eq_true|H]; [by apply parent_below|]. apply parent_split in H as [z ->]; [|done].
  rewrite <- app_assoc. by apply parent_below.
Qed.
(** C28: A directory that the walk may skip has nothing in it that is not ignored.
    The conditions: the patterns that were loaded have no backslash, brackets,
    braces or question marks ([plain]: ordinary characters and stars only); an
    exception for what is in a directory comes after one for the directory itself
    with the same case folding ([exceptions_whole], else [skipped_exception]); and
    the directory has a relative, non-empty name that is not one of a temporary
    file: for these names the answer is always that they may be skipped, whatever
    the patterns say of what is in such a directory. *)
Theorem skipped_dirs_ignored f cached ops d t now now' (Hdir : d <> [] /\ IsAbs d = false /\ IsTemporary d = false)
    (Hplain : Forall (fun p => plain (pattern p) = true) (patterns (after_ops f cached ops)))
    (Hexc : exceptions_whole (patterns (after_ops f cached ops))) :
  let m := after_ops f cached ops in
  R_CanSkipDir (run_match d now m).2 = true -> R_IsIgnored (run_match (d ++ slash :: t) now' (run_match d now m).1).2 = true.
Proof using NFC_law NFC_ascii lower_law glob_law.
  destruct Hdir as (Hd & Hrel & Htemp). intros m. destruct (ops_ok f cached ops : matcher_ok m) as [Hw Hc].
  destruct (match_same d now m) as [Ha Hc']. rewrite !match_decides by auto. destruct Ha as (_ & _ & -> & _).
  unfold decides. rewrite Htemp. destruct (IsInternal d) eqn:Ei; cbv iota; [intros _; case_bool; [done|]; by rewrite internal_below|].
  destruct (decide (d = dot)) as [->|Hdot]; [done|]. rewrite (bool_decide_eq_false_2 (d = dot)) by done. intros Hs.
  case_bool; [done|]. case_bool; [done|]. rewrite bool_decide_eq_false_2; [by apply skip_patterns|].
  intros E. destruct d as [|x [|y d] ]; [done|by destruct t|done].
Qed.
End Props.

(** ** Examples *)

(** An exception inside of an ignored directory, and the cache. *)
Definition ex_ops (text : bytes) : list operation := [OpParse 1 (ex_world []) text false (gostr ".stignore"); OpMatch (gostr "keep/x") 1; OpClean 5 9].
Definition ex_matcher (text : bytes) (cached : bool) : Matcher :=
  after_ops ex_compile (fun s => s) (fun _ => [z2b 255]) (fun s => s) ex_fs cached (ex_ops text).
Definition ex_text : bytes := gostr "!/keep" ++ newline ++ gostr "*".
Lemma ex_glob_law p : plain p = true -> exists m, ex_compile p = Some m /\ forall s, m s = gmatch (tokens p) s.
Proof. intros _. by eexists. Qed.
Theorem cache_transparent_witness :
  (Match (fun _ => [z2b 255]) (gostr "keep/x") 12 (ex_matcher ex_text true)).2 = 8 /\
  (Match (fun _ => [z2b 255]) (gostr "keep/x") 12 (ex_matcher ex_text true)).2 = (Match (fun _ => [z2b 255]) (gostr "keep/x") 12 (ex_matcher ex_text false)).2.
Proof.
  split; [by vm_compute|].
  apply (cache_transparent ex_compile (fun s => s) (fun _ => [z2b 255]) (fun s => s)); [done| |done].
  intros r. split; [done|]. apply no_slash. by vm_compute.
Defined.
(** An exception for a directory and for what is in it, and nothing but ignored patterns behind. *)
Lemma exceptions_pair compile q p ps s : pattern q = slash :: s -> pattern p = slash :: s ++ slashstars -> hasSuffix (slash :: s) slashstars = false ->
  R_IsIgnored (result q) = false -> R_IsCaseFolded (result q) = R_IsCaseFolded (result p) -> compile s = Some (match_ q) ->
  forallb (fun x => R_IsIgnored (result x)) ps = true -> exceptions_whole compile (q :: p :: ps).
Proof.
  intros Hq Hp Hs Hi Hf Hc Hps l1 x l2 s' E Hx Hpx. destruct l1 as [|q1 l1]; injection E as E1 E.
  { exfalso. rewrite <- E1, Hq in Hpx. change (slash :: s' ++ slashstars) with ((slash :: s') ++ slashstars) in Hpx.
    assert (hasSuffix (slash :: s) slashstars = true) as Ht; [|congruence]. apply hasSuffix_spec. by exists (slash :: s'). }
  destruct l1 as [|p1 l1]; injection E as E2 E.
  - exists q. rewrite <- E2 in *. rewrite Hp in Hpx. injection Hpx as Hpx. apply (f_equal (fun l => trimSuffix l slashstars)) in Hpx.
    rewrite !trimSuffix_app in Hpx. subst s'. split; [rewrite <- E1; left|]. by split_and!.
  - exfalso. rewrite forallb_forall in Hps. rewrite (Hps x) in Hx; [done|]. rewrite E. apply in_or_app. right. by left.
Qed.
Lemma ex_made r : [z2b 255] <> [] /\ slash ∉ (fun _ : bytes => [z2b 255]) r.
Proof. split; [discriminate|]. apply no_slash. reflexivity. Qed.
Lemma ex_exceptions : exceptions_whole ex_compile (patterns (ex_matcher ex_text true)).
Proof.
  assert (well_formed ex_compile (patterns (ex_matcher ex_text true))) as [Hm _].
  { apply (ops_ok ex_compile (fun s => s) (fun _ => [z2b 255]) (fun s => s)); [by intros|apply ex_made|by intros]. }
  assert (map (fun p => (pattern p, result p)) (take 2 (patterns (ex_matcher ex_text true))) = [(gostr "/keep", 0); (gostr "/keep/**", 0)]) as E1
    by (by vm_compute).
  assert (forallb (fun x => R_IsIgnored (result x)) (drop 2 (patterns (ex_matcher ex_text true))) = true) as E2 by (by vm_compute).
  assert ((fun p => match_ p (gostr "keep")) <$> head (patterns (ex_matcher ex_text true)) = Some true) as E3 by (by vm_compute).
  revert Hm E1 E2 E3. generalize (patterns (ex_matcher ex_text true)) as ps. intros [|q [|p ps] ] Hm E1 E2 E3; try done.
  cbn [take map] in E1. injection E1 as Eq Er Ep Er2. cbn in E2, E3. injection E3 as E3.
  destruct (Forall_inv Hm) as [_ (g & Hg & Hc)].
  assert (g = gostr "keep") as ->.
  { destruct Hg as [->|Hg]; [|rewrite Eq in Hg; by injection Hg as <-]. exfalso. rewrite Eq in Hc. injection Hc as Hc. rewrite <- Hc in E3. by vm_compute in E3. }
  apply (exceptions_pair ex_compile q p ps (gostr "keep")); rewrite ?Er, ?Er2; try done.
Qed.
Theorem skipped_dirs_ignored_witness :
  R_CanSkipDir (Match (fun _ => [z2b 255]) (gostr "other") 12 (ex_matcher ex_text true)).2 = true /\
  R_IsIgnored (Match (fun _ => [z2b 255]) (gostr "other/x") 13 (Match (fun _ => [z2b 255]) (gostr "other") 12 (ex_matcher ex_text true)).1).2 = true.
Proof.
  split; [by vm_compute|].
  refine (skipped_dirs_ignored ex_compile (fun s => s) (fun _ => [z2b 255]) (fun s => s) ex_glob_law _ _ _ ex_fs true (ex_ops ex_text)
            (gostr "other") (gostr "x") 12 13 _ _ _ _).
  - by intros.
  - apply ex_made.
  - by intros.
  - split_and!; [discriminate|by vm_compute..].
  - apply List.Forall_forall, forallb_forall. by vm_compute.
  - apply ex_exceptions.
  - by vm_compute.
Defined.

(** An exception for what is in a directory, and everything else ignored: the directory can be skipped, but not what is in it. *)
Lemma skipped_exception :
  let m := ex_matcher (gostr "!/keep/" ++ newline ++ gostr "*") true in
  R_CanSkipDir (Match (fun _ => []) (gostr "keep") 1 m).2 = true /\ R_IsIgnored (Match (fun _ => []) (gostr "keep/x") 1 m).2 = false.
Proof. by vm_compute. Qed.
