(* ===== verification/ModelRequest.v ===== *)
(** * Answering a request for a block (lib/model/model.go: Request, recheckFile,
    readOffsetIntoBuf, requestResponse)

    The checks of a request, the read, and what happens when the data does not
    have the requested hash, as a program of [Disk].  The buffer of a response
    comes from the pool and keeps its old bytes where nothing is read into it. *)
From Stdlib Require Import ZArith List Lia.
From Stdlib Require Import Strings.Byte.
From stdpp Require Import base list option gmap numbers tactics.
From S2P Require Import Prelude GoLib FileInfo Paths Disk PullItems Connection FolderScan ScanBlocks.

#[local] Open Scope Z_scope.

(** What is used of the configuration of a folder. *)
Record requestCfg := { rc_Devices : list bytes; rc_Paused : bool; rc_Type : FolderType }.
Definition SharedWith (cfg : requestCfg) (device : bytes) : bool := existsb (fun d => bool_decide (d = device)) (rc_Devices cfg).

Section ModelRequest.
(** The hash, the folders that are started with their ignore patterns, and the
    folders that run. *)
Context (sha256 : bytes -> bytes) (folderCfgs : gmap bytes requestCfg) (ignored : bytes -> bytes -> bool) (running : bytes -> bool).

(** [requestResponse] and its limits. *)
Definition newLimitedRequestResponse (size : Z) : prog bytes :=
  _ ← do_ (TakeBytes size);
  do_ (PoolGet size).
Definition response_Close (data : bytes) (size : Z) : prog unit :=
  _ ← do_ (PoolPut data);
  do_ (GiveBytes size).

(** What is read, and the error. *)
Definition readOffsetIntoBuf (file : bytes) (offset size : Z) : prog (bytes * option disk_err) :=
  e ← do_ (OpenFile file);
  match e with
  | Some e => mret ([], Some e)
  | None => do_ (ReadAt file offset size)
  end.
(** A buffer after something was read into it. *)
Definition read_into (buf bs : bytes) : bytes := bs ++ drop (length bs) buf.

Definition ScheduleForceRescan_if (folder name : bytes) : prog unit :=
  if running folder then do_ (ScheduleForceRescan name) else mret tt.
Definition recheckFile (folder name : bytes) (offset : Z) (hash : bytes) : prog unit :=
  r ← do_ (GetDeviceFile name);
  match r with
  | inl _ => mret tt
  | inr (cf, ok) =>
      if negb ok then mret tt
      else if IsDeleted cf || IsInvalid cf || IsSymlink cf || IsDirectory cf then mret tt
      else
        let blockIndex := Z.quot offset (FileInfo_BlockSize cf) in
        if zlen (Blocks cf) <=? blockIndex then mret tt
        else
          match Blocks cf !! Z.to_nat blockIndex with
          | None => x ← do_ Panics; match x : Empty_set with end
          | Some block =>
              if negb (bool_decide (Hash block = hash)) then mret tt
              else ScheduleForceRescan_if folder name
          end
  end.

Definition regular (r : disk_err + Stat) : bool := match r with inr info => st_IsRegular info | inl _ => false end.
(** The temporary file, if it was asked for: what it answers, and the buffer after it. *)
Definition try_temporary (req : Request) (name buf : bytes) : prog (option (option request_err) * bytes) :=
  if FromTemporary req then
    let tempFn := TempName sha256 name in
    info ← do_ (Lstat tempFn);
    if negb (regular info) then mret (Some (Some ErrNoSuchFile), buf)
    else
      r ← readOffsetIntoBuf tempFn (rqOffset req) (rqSize req);
      let buf := read_into buf r.1 in
      match r.2 with
      | None => if Validate sha256 buf (rqHash req) then mret (Some None, buf) else mret (None, buf)
      | Some _ => mret (None, buf)
      end
  else mret (None, buf).
(** The file itself: the error, if any, and the buffer. *)
Definition read_file (cfg : requestCfg) (req : Request) (name buf : bytes) : prog (option request_err * bytes) :=
  info ← do_ (Lstat name);
  if negb (regular info) then mret (Some ErrNoSuchFile, buf)
  else
    r ← readOffsetIntoBuf name (rqOffset req) (rqSize req);
    let '(bs, err) := r in
    let buf := read_into buf bs in
    if opt_is is_not_exist err then mret (Some ErrNoSuchFile, buf)
    else if match err with Some e => negb (is_eof e) | None => false end then mret (Some ErrGeneric, buf)
    else if negb (isEncrypted (rc_Type cfg)) && (0 <? zlen (rqHash req)) && negb (Validate sha256 (take (length bs) buf) (rqHash req)) then
      _ ← recheckFile (rqFolder req) name (rqOffset req) (rqHash req);
      mret (Some ErrNoSuchFile, buf)
    else mret (None, buf).
Definition serve_request (cfg : requestCfg) (req : Request) (name buf : bytes) : prog (option request_err * bytes) :=
  e ← TraversesSymlink (Dir name);
  match e with
  | Some _ => mret (Some ErrNoSuchFile, buf)
  | None =>
      r ← try_temporary req name buf;
      match r with
      | (Some res, buf) => mret (res, buf)
      | (None, buf) => read_file cfg req name buf
      end
  end.
(** [model.Request]: the response is closed when an error is returned. *)
Definition model_Request (deviceID : bytes) (req : Request) : prog (request_err + bytes) :=
  if (rqSize req <? 0) || (rqOffset req <? 0) then mret (inl ErrInvalid)
  else
    match folderCfgs !! rqFolder req with
    | None => mret (inl ErrGeneric)
    | Some cfg =>
        if negb (SharedWith cfg deviceID) then mret (inl ErrGeneric)
        else if rc_Paused cfg then mret (inl ErrGeneric)
        else
          match Canonicalize (rqName req) with
          | Ret name =>
              if IsInternal name then mret (inl ErrInvalid)
              else if ignored (rqFolder req) name then mret (inl ErrInvalid)
              else
                buf ← newLimitedRequestResponse (rqSize req);
                r ← serve_request cfg req name buf;
                match r with
                | (Some e, buf) => _ ← response_Close buf (rqSize req); mret (inl e)
                | (None, buf) => mret (inr buf)
                end
          | _ => mret (inl ErrGeneric)
          end
    end.
End ModelRequest.
