(* ===== verification/ModelRequestProps.v ===== *)
(** * Answering a request: theorems

    What is read for a request lies in the folder, is not hidden from other
    devices, and is not behind a symlink; what is answered has the requested hash;
    buffers and limits are given back.  A response to a request without a hash can
    have bytes that were never read. *)
From Stdlib Require Import ZArith List Lia.
From Stdlib Require Import Strings.Byte.
From stdpp Require Import base list option gmap numbers tactics.
From S2P Require Import Prelude GoLib FileInfo Paths Disk PullItems Connection FolderScan ScanBlocks FolderScanProps FolderScanSafety ModelRequest.

#[local] Open Scope Z_scope.

(** ** Directories that were looked at *)

(** Every directory of a path was seen to be one, down to one that does not exist. *)
Definition dirs_checked (h : history) (ds : list bytes) : Prop :=
  forall k, (0 < k <= length ds)%nat ->
    (exists st, Event (Lstat (path_of (take k ds))) (inr st) ∈ h /\ st_IsDir st = true /\ st_IsSymlink st = false) \/
    (exists j e, (0 < j <= k)%nat /\ Event (Lstat (path_of (take j ds))) (inl e) ∈ h /\ is_not_exist e = true).

Lemma dirs_checked_mono h h' ds : h ⊆ h' -> dirs_checked h ds -> dirs_checked h' ds.
Proof.
  intros Hs H k Hk. destruct (H k Hk) as [(st & H1 & H2)|(j & e & H1 & H2 & H3)]; [left|right].
  - exists st. split; [by apply Hs|done].
  - exists j, e. split; [done|]. split; [by apply Hs|done].
Qed.

Section Traverse.
Context (allowed : history -> call -> Prop) (plausible : forall c : call, answer c -> Prop).
Context (lstat_allowed : forall h n, allowed h (Lstat n)).

Lemma traverse_checked es parts h : Forall proper es -> Forall proper parts -> dirs_checked h es ->
  safe allowed plausible (traverse (match es with [] => [] | _ => path_of es end) parts) h
    (fun h' e => h ⊆ h' /\ (e = None -> dirs_checked h' (es ++ parts))).
Proof using lstat_allowed.
  revert es h. induction parts as [|part parts IH]; intros es h He Hp Hc; [next; split; [done|]; by rewrite app_nil_r|].
  pose proof (Forall_inv Hp) as Hpart. pose proof (Forall_inv_tail Hp) as Hparts. cbn [traverse]. rewrite Join_grow by done.
  assert (Forall proper (es ++ [part])) as Hep by (apply Forall_app; split; [done|by apply Forall_singleton]).
  apply safe_do; [done|]. intros r _. set (ev := Event (Lstat (path_of (es ++ [part]))) r).
  assert (h ⊆ ev :: h) as Hs by (intros x Hx; by right).
  destruct r as [e|st].
  - next. split; [done|]. destruct (is_not_exist e) eqn:En; [|done]. intros _ k Hk.
    destruct (Nat.le_gt_cases k (length es)) as [Hle|Hgt].
    { rewrite take_app_le by done. destruct (dirs_checked_mono _ _ _ Hs Hc k ltac:(lia)) as [H|(j & e' & H1 & H2 & H3)]; [by left|].
      right. exists j, e'. rewrite take_app_le by lia. done. }
    right. exists (S (length es)), e. split; [lia|]. split; [|done].
    replace (take (S (length es)) (es ++ part :: parts)) with (es ++ [part]); [left|].
    rewrite take_app_ge by lia. by replace (S (length es) - length es)%nat with 1%nat by lia.
  - case_bool; [next; by split|]. destruct (st_IsDir st) eqn:Ed; cbn [negb]; [|next; by split].
    specialize (IH (es ++ [part]) (ev :: h) Hep Hparts). rewrite <- app_assoc in IH. cbn [app] in IH.
    assert (dirs_checked (ev :: h) (es ++ [part])) as Hd.
    { intros k Hk. rewrite length_app in Hk. cbn in Hk. destruct (decide (k = S (length es))) as [->|Hne].
      - left. exists st. rewrite take_ge by (rewrite length_app; cbn; lia). split; [left|done].
      - rewrite take_app_le by lia. destruct (dirs_checked_mono _ _ _ Hs Hc k ltac:(lia)) as [H|(j & e' & H1 & H2 & H3)]; [by left|].
        right. exists j, e'. rewrite take_app_le by lia. done. }
    assert (match es ++ [part] with [] => [] | _ => path_of (es ++ [part]) end = path_of (es ++ [part])) as E by (by destruct es).
    rewrite E in IH. eapply safe_mono; [by apply IH|]. cbn. intros h' e [H1 H2]. split; [|done]. by etrans.
Qed.
Lemma TraversesSymlink_checked n h :
  safe allowed plausible (TraversesSymlink n) h (fun h' e => h ⊆ h' /\
    (e = None -> exists ds, Forall proper ds /\ Canonicalize n = Ret (path_of ds) /\ dirs_checked h' ds)).
Proof using lstat_allowed.
  assert (Canonicalize n <> Panic /\ Canonicalize n <> OutOfFuel) as [Hnp Hnf] by (unfold Canonicalize; by repeat case_bool).
  unfold TraversesSymlink. destruct (Canonicalize n) as [c| | |] eqn:E; [|next; by split|done|done].
  destruct (Canonicalize_proper n c E) as (ds & Hd & ->). destruct (bool_decide (path_of ds = dot)) eqn:Eb.
  - next. split; [done|]. intros _. exists ds. split; [done|]. split; [done|]. destruct ds as [|d ds]; [intros k Hk; simpl in Hk; lia|].
    apply render_not_dot in Hd; [|done]. by apply bool_decide_eq_true in Eb.
  - destruct (decide (ds = [])) as [->|Hne]; [done|].
    assert (PathComponents (path_of ds) = ds) as Ec.
    { unfold PathComponents. rewrite path_of_join, split_join by (try done; by apply proper_seps). done. }
    rewrite Ec. eapply safe_mono; [by apply (traverse_checked [] ds); [| |intros k Hk; simpl in Hk; lia]|].
    cbn. intros h' e [H1 H2]. split; [done|]. intros He. exists ds. split_and!; [done|done|by apply H2].
Qed.
End Traverse.

(** ** What a request may do *)

Section Request.
Context (sha256 : bytes -> bytes) (folderCfgs : gmap bytes requestCfg) (ignored : bytes -> bytes -> bool) (running : bytes -> bool).
Context (deviceID : bytes) (req : Request).
Abbreviation model_Request := (model_Request sha256 folderCfgs ignored running deviceID req).

(** The name of the file that may be served: it is shared with the device in a folder
    that is not paused, lies below the root, is not one of the program's own files and
    is not ignored. *)
Definition servable (name : bytes) : Prop :=
  (exists cfg, folderCfgs !! rqFolder req = Some cfg /\ SharedWith cfg deviceID = true /\ rc_Paused cfg = false) /\
  Canonicalize (rqName req) = Ret name /\ (exists ds, Forall proper ds /\ name = path_of ds) /\
  IsInternal name = false /\ ignored (rqFolder req) name = false.
(** The file that is read: the file, or its temporary file if it was asked for. *)
Definition served (h : history) (n : bytes) : Prop :=
  exists name ds, servable name /\ (n = name \/ FromTemporary req = true /\ n = TempName sha256 name) /\
    Forall proper ds /\ Canonicalize (Dir name) = Ret (path_of ds) /\ dirs_checked h ds.
(** What was read does not have the hash that was asked for, which the database has. *)
Definition damaged (h : history) (name : bytes) : Prop :=
  exists cf block bs err, Event (GetDeviceFile name) (inr (cf, true)) ∈ h /\
    Blocks cf !! Z.to_nat (Z.quot (rqOffset req) (FileInfo_BlockSize cf)) = Some block /\ Hash block = rqHash req /\
    Event (ReadAt name (rqOffset req) (rqSize req)) (bs, err) ∈ h /\ Validate sha256 bs (rqHash req) = false.

(** The calls of a request: files are opened right after they were seen to be regular
    files, and nothing is changed. *)
Definition request_allowed (h : history) (c : call) : Prop :=
  match c with
  | OpenFile n => served h n /\ exists st h0, h = Event (Lstat n) (inr st) :: h0 /\ st_IsRegular st = true
  | ReadAt n offset size => offset = rqOffset req /\ size = rqSize req /\ served h n /\
      exists st h0, h = Event (OpenFile n) None :: Event (Lstat n) (inr st) :: h0 /\ st_IsRegular st = true
  | ScheduleForceRescan n => served h n /\ damaged h n
  | Lstat _ | TakeBytes _ | GiveBytes _ | PoolGet _ | PoolPut _ | GetDeviceFile _ => True
  | _ => False
  end.

(** The answers are those of a pool and of a reader; opening is not the end of a file. *)
Definition reader_answer (c : call) (r : answer c) : Prop :=
  match c return answer c -> Prop with
  | PoolGet size => fun buf => zlen buf = size
  | OpenFile _ => fun err => opt_is is_eof err = false
  | ReadAt _ _ size => fun '(bs, err) => zlen bs <= size /\ (err = None -> zlen bs = size)
  | _ => fun _ => True
  end r.
Abbreviation Safe := (safe request_allowed reader_answer).

Lemma served_mono h h' n : h ⊆ h' -> served h n -> served h' n.
Proof. intros Hs (name & ds & H1 & H2 & H3 & H4 & H5). exists name, ds. split_and!; try done. by eapply dirs_checked_mono. Qed.
Lemma damaged_mono h h' n : h ⊆ h' -> damaged h n -> damaged h' n.
Proof. intros Hs (cf & b & bs & err & H1 & H2 & H3 & H4 & H5). exists cf, b, bs, err. split_and!; try done; by apply Hs. Qed.

(** What is known of an answer: it starts with what was read, and that has the hash. *)
Definition answered (cfg : requestCfg) (h : history) (data : bytes) : Prop :=
  exists n bs err rest, served h n /\ Event (ReadAt n (rqOffset req) (rqSize req)) (bs, err) ∈ h /\
    (err = None \/ exists e, err = Some e /\ is_eof e = true) /\ data = bs ++ rest /\ zlen data = rqSize req /\
    (isEncrypted (rc_Type cfg) = false -> 0 < zlen (rqHash req) -> sha256 bs = rqHash req).

(** Bytes of the limits and buffers of the pool that are in use. *)
Definition taken (h : history) : Z :=
  foldr (fun e n => match ev_call e with TakeBytes k => k | GiveBytes k => - k | _ => 0 end + n) 0 h.
Definition buffers (h : history) : Z :=
  foldr (fun e n => match ev_call e with PoolGet _ => 1 | PoolPut _ => -1 | _ => 0 end + n) 0 h.
Definition neutral (c : call) : bool := match c with TakeBytes _ | GiveBytes _ | PoolGet _ | PoolPut _ => false | _ => true end.
Fixpoint neutral_prog {A} (p : prog A) : Prop :=
  match p with Return _ => True | Call c k => neutral c = true /\ forall r, neutral_prog (k r) end.
Lemma neutral_bind {A B} (p : prog A) (f : A -> prog B) : neutral_prog p -> (forall a, neutral_prog (f a)) -> neutral_prog (p ≫= f).
Proof. intros H Hf. induction p as [a|c k IH]; [exact (Hf a)|]. destruct H as [Hc Hk]. split; [done|]. intros r. by apply IH. Qed.
Lemma neutral_safe {A} (p : prog A) h Q : neutral_prog p -> Safe p h Q ->
  Safe p h (fun h' a => taken h' = taken h /\ buffers h' = buffers h /\ Q h' a).
Proof.
  revert h. induction p as [a|c k IH]; intros h Hn Hs; [done|]. destruct Hn as [Hc Hk], Hs as [Ha Hs]. split; [done|].
  intros r Hr. eapply safe_mono; [by apply IH, Hs|]. cbn. intros h' a (H1 & H2 & H3). rewrite H1, H2. by destruct c.
Qed.
Lemma traverse_neutral path parts : neutral_prog (traverse path parts).
Proof.
  revert path. induction parts as [|part parts IH]; intros path; [exact I|]. cbn [traverse]. split; [done|]. intros [e|st]; cbn; [exact I|].
  case_bool; [exact I|]. case_bool; [exact I|apply IH].
Qed.
Ltac neutral_step :=
  match goal with
  | |- neutral_prog (mbind _ _) => apply neutral_bind; [|intros ?]
  | |- neutral_prog (do_ Panics) => split; [reflexivity|intros []]
  | |- neutral_prog (do_ _) => split; [reflexivity|intros ?; exact I]
  | |- neutral_prog (mret _) => exact I
  | |- neutral_prog (traverse _ _) => apply traverse_neutral
  | |- neutral_prog (match ?x with _ => _ end) => destruct x
  | |- neutral_prog (readOffsetIntoBuf _ _ _) => unfold readOffsetIntoBuf
  | |- neutral_prog (recheckFile _ _ _ _ _) => unfold recheckFile, ScheduleForceRescan_if
  end.
Lemma serve_neutral cfg name buf : neutral_prog (serve_request sha256 running cfg req name buf).
Proof. unfold serve_request, TraversesSymlink, try_temporary, read_file. repeat (cbv zeta; neutral_step). Qed.

Lemma recheck_safe name h bs err :
  0 <= rqOffset req ->
  served h name -> Event (ReadAt name (rqOffset req) (rqSize req)) (bs, err) ∈ h -> Validate sha256 bs (rqHash req) = false ->
  Safe (recheckFile running (rqFolder req) name (rqOffset req) (rqHash req)) h (fun h' _ => h ⊆ h').
Proof.
  intros Hoff Hs He Hv. unfold recheckFile. apply safe_do; [done|]. intros r _. set (h1 := Event (GetDeviceFile name) r :: h).
  assert (h ⊆ h1) as H1 by (intros x Hx; by right).
  destruct r as [e|[cf [] ] ]; cbn [negb]; [done| |done]. case_bool; [done|]. case_bool; [done|].
  destruct (Blocks cf !! _) as [block|] eqn:Eb.
  2:{ (* an index that is not negative and small enough *) exfalso. zbool. apply lookup_ge_None in Eb.
      assert (0 <= Z.quot (rqOffset req) (FileInfo_BlockSize cf)) by (apply Z.quot_pos; [done|]; unfold FileInfo_BlockSize; case_bool; zbool; change MinBlockSize with 131072 in *; lia). lia. }
  destruct (bool_decide (Hash block = rqHash req)) eqn:Eh; cbn [negb]; [|done]. apply bool_decide_eq_true in Eh.
  unfold ScheduleForceRescan_if. destruct (running _); [|done]. split; [|intros r _; intros x Hx; right; by apply H1].
  split; [by eapply served_mono|]. exists cf, block, bs, err. split_and!; [left|done|done|by right|done].
Qed.

(** A read: what is in the history after it. *)
Lemma read_safe h n st :
  served h n -> st_IsRegular st = true ->
  Safe (readOffsetIntoBuf n (rqOffset req) (rqSize req)) (Event (Lstat n) (inr st) :: h) (fun h' r =>
    h ⊆ h' /\ served h' n /\
    match r with
    | (bs, err) => (exists e, err = Some e /\ is_eof e = false /\ bs = []) \/
        (Event (ReadAt n (rqOffset req) (rqSize req)) (bs, err) ∈ h' /\ zlen bs <= rqSize req /\ (err = None -> zlen bs = rqSize req))
    end).
Proof.
  intros Hs Hr. unfold readOffsetIntoBuf. set (h1 := Event (Lstat n) (inr st) :: h).
  assert (h ⊆ h1) as H1 by (intros x Hx; by right). assert (served h1 n) as Hs1 by (by eapply served_mono).
  apply safe_do; [split; [done|]; by exists st, h|]. intros e Heof. cbn [reader_answer] in Heof. set (h2 := Event (OpenFile n) e :: h1).
  assert (h1 ⊆ h2) as H2 by (intros x Hx; by right). assert (served h2 n) as Hs2 by (by eapply served_mono).
  destruct e as [e|]; [next; split_and!; [by etrans|done|left; by exists e]|].
  split; [split_and!; [done|done|done|by exists st, h]|]. intros [bs err] [Hl He].
  split_and!; [intros x Hx; right; by apply H2, H1| |right; split_and!; [left|done|done] ].
  eapply served_mono; [|exact Hs2]. intros x Hx; by right.
Qed.

Lemma read_into_length buf bs : zlen bs <= zlen buf -> zlen (read_into buf bs) = zlen buf.
Proof. intros H. unfold read_into. rewrite length_app, length_drop. lia. Qed.
Lemma read_into_take buf bs : take (length bs) (read_into buf bs) = bs.
Proof. unfold read_into. by rewrite take_app_length. Qed.

Section Served.
Context (cfg : requestCfg) (name : bytes) (Hname : servable name) (Hoff : 0 <= rqOffset req).

(** The post condition of the parts. *)
Definition result_ok (h : history) (r : option request_err * bytes) : Prop :=
  zlen r.2 = rqSize req /\ (r.1 = None -> answered cfg h r.2).
Lemma validated buf bs : Validate sha256 buf (rqHash req) = true -> buf = bs -> 0 < zlen (rqHash req) -> sha256 bs = rqHash req.
Proof. unfold Validate. intros H -> Hh. destruct (Z.ltb_spec 0 (zlen (rqHash req))); [|lia]. by apply bool_decide_eq_true in H. Qed.

Lemma read_file_safe h buf ds :
  zlen buf = rqSize req -> Forall proper ds -> Canonicalize (Dir name) = Ret (path_of ds) -> dirs_checked h ds ->
  Safe (read_file sha256 running cfg req name buf) h result_ok.
Proof using Hname Hoff.
  intros Hbuf Hds Hc Hd. unfold read_file. apply safe_do; [done|]. intros info _.
  destruct info as [e|st]; cbn [regular]; [next; by split|].
  destruct (st_IsRegular st) eqn:Hr; cbn [negb]; [|next; by split].
  assert (served h name) as Hs by (exists name, ds; split_and!; [done|by left|done..]).
  eapply safe_seq; [by apply read_safe|]. intros h' [bs err] (Hh & Hs' & Hread). cbn beta iota.
  assert (zlen bs <= rqSize req) as Hlen by (destruct Hread as [(e & _ & _ & ->)|(_ & H & _)]; [simpl; lia|done]).
  rewrite <- Hbuf in Hlen. pose proof (read_into_length buf bs Hlen) as Hl. rewrite Hbuf in Hl.
  destruct (opt_is is_not_exist err) eqn:Ene; [next; by split|].
  destruct (match err with Some e => negb (is_eof e) | None => false end) eqn:Ee; [next; by split|].
  assert (err = None \/ exists e, err = Some e /\ is_eof e = true) as Herr.
  { destruct err as [e|]; [right; exists e; split; [done|by apply negb_false_iff in Ee]|by left]. }
  destruct (negb (isEncrypted (rc_Type cfg)) && (0 <? zlen (rqHash req)) && negb (Validate sha256 (take (length bs) (read_into buf bs)) (rqHash req))) eqn:Ev.
  - apply andb_true_iff in Ev as [_ Hv]. apply negb_true_iff in Hv. rewrite read_into_take in Hv.
    eapply safe_seq with (P := fun _ _ => True); [|intros h'' _ _; next; by split].
    destruct Hread as [(e & -> & Hne & _)|(Hin & _)].
    + destruct Herr as [|(e' & [= <-] & He')]; [done|congruence].
    + eapply safe_mono; [by eapply recheck_safe|done].
  - next. split; [done|]. intros _. destruct Hread as [(e & -> & Hne & _)|(Hin & _)].
    { destruct Herr as [|(e' & [= <-] & He')]; [done|congruence]. }
    exists name, bs, err, (drop (length bs) buf). split_and!; [done|done|done|done|done|].
    intros Henc Hh0. rewrite Henc, read_into_take in Ev. cbn [negb andb] in Ev. destruct (Z.ltb_spec 0 (zlen (rqHash req))); [|lia].
    apply (validated bs bs); [|done|done]. cbn [andb] in Ev. by apply negb_false_iff in Ev.
Qed.

Lemma try_temporary_safe h buf ds :
  zlen buf = rqSize req -> Forall proper ds -> Canonicalize (Dir name) = Ret (path_of ds) -> dirs_checked h ds ->
  Safe (try_temporary sha256 req name buf) h (fun h' r => h ⊆ h' /\ zlen r.2 = rqSize req /\
    forall e, r.1 = Some e -> result_ok h' (e, r.2)).
Proof using Hname Hoff.
  intros Hbuf Hds Hc Hd. unfold try_temporary. destruct (FromTemporary req) eqn:Hft; [|next; by split_and!]. cbv zeta.
  apply safe_do; [done|]. intros info _. set (h1 := Event (Lstat (TempName sha256 name)) info :: h).
  assert (h ⊆ h1) as H1 by (intros x Hx; by right).
  destruct info as [e|st]; cbn [regular]; [next; split_and!; [done|done|]; by intros e' [= <-]|].
  destruct (st_IsRegular st) eqn:Hr; cbn [negb]; [|next; split_and!; [done|done|]; by intros e' [= <-] ].
  assert (served h (TempName sha256 name)) as Hs by (exists name, ds; split_and!; [done|by right|done..]).
  eapply safe_seq; [by apply read_safe|]. intros h' [bs err] (Hh & Hs' & Hread). cbn [fst snd]. cbv zeta.
  assert (zlen bs <= rqSize req) as Hlen by (destruct Hread as [(e & _ & _ & ->)|(_ & H & _)]; [simpl; lia|done]).
  rewrite <- Hbuf in Hlen. pose proof (read_into_length buf bs Hlen) as Hl. rewrite Hbuf in Hl.
  destruct err as [e|]; [next; by split_and!|]. destruct (Validate sha256 (read_into buf bs) (rqHash req)) eqn:Hv; [|next; by split_and!].
  next. split_and!; [done|done|]. intros e [= <-]. split; [done|]. intros _. cbn [snd].
  destruct Hread as [(e & [=] & _)|(Hin & _ & Hfull)].
  exists (TempName sha256 name), bs, None, (drop (length bs) buf). split_and!; [done|done|by left|done|done|].
  intros _ Hh0. apply (validated (read_into buf bs) bs); [done| |done]. unfold read_into.
  rewrite drop_ge, app_nil_r; [done|]. specialize (Hfull eq_refl). lia.
Qed.

Lemma serve_safe h buf : zlen buf = rqSize req -> Safe (serve_request sha256 running cfg req name buf) h result_ok.
Proof using Hname Hoff.
  intros Hbuf. unfold serve_request. eapply safe_seq; [by apply TraversesSymlink_checked|].
  intros h1 [e|] [Hh Hd]; [next; by split|]. destruct (Hd eq_refl) as (ds & Hds & Hc & Hck).
  eapply safe_seq; [by eapply try_temporary_safe|]. intros h2 [ [e|] buf2] (Hh2 & Hb2 & Hr); cbn [fst snd] in *.
  - next. by apply Hr.
  - eapply read_file_safe; try done. by eapply dirs_checked_mono.
Qed.
End Served.

(** What a request leaves behind. *)
Definition request_post (h : history) (r : request_err + bytes) : Prop :=
  match r with
  | inl _ => taken h = 0 /\ buffers h = 0
  | inr data => taken h = rqSize req /\ buffers h = 1 /\
      exists cfg, folderCfgs !! rqFolder req = Some cfg /\ answered cfg h data
  end.

Lemma model_Request_safe : Safe model_Request [] request_post.
Proof.
  unfold ModelRequest.model_Request. destruct ((rqSize req <? 0) || (rqOffset req <? 0)) eqn:Eneg; [done|].
  apply orb_false_iff in Eneg as [_ Hoff]. apply Z.ltb_ge in Hoff.
  destruct (folderCfgs !! rqFolder req) as [cfg|] eqn:Ecfg; [|done].
  destruct (SharedWith cfg deviceID) eqn:Esh; cbn [negb]; [|done]. destruct (rc_Paused cfg) eqn:Ep; [done|].
  destruct (Canonicalize (rqName req)) as [name| | |] eqn:Ec; [|done..].
  destruct (IsInternal name) eqn:Ei; [done|]. destruct (ignored (rqFolder req) name) eqn:Eg; [done|].
  assert (servable name) as Hn.
  { split; [by exists cfg|]. split; [done|]. split; [by apply Canonicalize_proper in Ec|done]. }
  eapply safe_seq with (P := fun h buf => zlen buf = rqSize req /\ taken h = rqSize req /\ buffers h = 1).
  { split; [done|]. intros [] _. split; [done|]. intros buf Hbuf. split; [exact Hbuf|]. cbn. lia. }
  intros h buf (Hbuf & Ht0 & Hb0).
  eapply safe_seq; [apply neutral_safe; [apply serve_neutral|by apply (serve_safe cfg name)]|].
  intros h' [ [e|] data] (Ht & Hb & Hl & Ha); cbn [fst snd] in *.
  - split; [done|]. intros [] _. split; [done|]. intros [] _. cbn. unfold taken, buffers in *. cbn in *. lia.
  - next. split_and!; [lia|lia|]. exists cfg. split; [done|by apply Ha].
Qed.

(** C33: Requests reach only what is shared: in any run, whatever the file system
    answers, files are opened only in a folder that is shared with the device and not
    paused, below its root, outside of the program's own files, not ignored, after
    every directory above was seen not to be a symlink and the file itself to be
    regular; nothing is changed; and a rescan is forced only if the data does not
    have the hash that the database has. *)
Theorem requests_confined h r : runs model_Request [] h r -> all_plausible reader_answer h -> all_allowed request_allowed h.
Proof. intros Hr Hp. exact (proj1 (safe_runs request_allowed reader_answer model_Request [] request_post h r model_Request_safe I Hr Hp)). Qed.

(** C34: A request is answered with an error, and the bytes of the limits and the
    buffer are given back, or with as many bytes as were asked for, which start with
    what was read from the file at the offset, up to its end; if a hash was given and
    the folder is not a receive-encrypted one (for which the hash is not checked),
    what was read has it.  What follows it in the answer, if less was read than was asked
    for, is what the buffer had before ([old_bytes_sent]). *)
Theorem requests_answered_right h r : runs model_Request [] h r -> all_plausible reader_answer h -> request_post h r.
Proof. intros Hr Hp. exact (proj2 (safe_runs request_allowed reader_answer model_Request [] request_post h r model_Request_safe I Hr Hp)). Qed.
End Request.

(** ** Examples *)

Section Examples.
Definition ex_folders : gmap bytes requestCfg :=
  {[ gostr "f" := {| rc_Devices := [gostr "peer"]; rc_Paused := false; rc_Type := FolderTypeSendReceive |} ]}.
Definition ex_request (size : Z) (hash : bytes) : Request :=
  {| rqID := 1; rqFolder := gostr "f"; rqName := gostr "d/a"; rqOffset := 100; rqSize := size; rqHash := hash; FromTemporary := false; BlockNo := 0 |}.
Definition ex_stat (dir : bool) : Stat :=
  {| st_IsDir := dir; st_IsSymlink := false; st_IsRegular := negb dir; st_Mode := 420; st_Size := 7; st_ModTime_Unix := 0;
     st_ModTime_Nanosecond := 0; st_Owner := 0; st_Group := 0 |}.
(** A file of seven bytes in a directory, and a pool with one old buffer. *)
Definition ex_respond (old : bytes) (c : call) : option (answer c) :=
  match c with
  | Lstat n => Some (inr (ex_stat (bool_decide (n = gostr "d"))))
  | OpenFile _ => Some None
  | ReadAt _ off size => Some (if 7 <=? off then ([], Some ErrEOF) else (take (Z.to_nat size) (drop (Z.to_nat off) (gostr "content")), Some ErrEOF))
  | TakeBytes _ | GiveBytes _ | PoolPut _ => Some tt
  | PoolGet _ => Some old
  | _ => None
  end.

(** A request without a hash for a part behind the end of a file is answered with what
    the buffer had before: bytes of other files, perhaps of folders that are not
    shared with the device. *)
Lemma old_bytes_sent sha256 (old : bytes) :
  exists h, runs (model_Request sha256 ex_folders (fun _ _ => false) (fun _ => true) (gostr "peer") (ex_request (zlen old) [])) [] h (inr old) /\
    (all_plausible reader_answer h) /\ Event (ReadAt (gostr "d/a") 100 (zlen old)) ([], Some ErrEOF) ∈ h.
Proof.
  assert (exists h, exec (ex_respond old) (model_Request sha256 ex_folders (fun _ _ => false) (fun _ => true) (gostr "peer") (ex_request (zlen old) [])) [] = Some (h, inr old) /\
    all_plausible reader_answer h /\ Event (ReadAt (gostr "d/a") 100 (zlen old)) ([], Some ErrEOF) ∈ h) as (h & He & Hp & Hin).
  { unfold model_Request. cbn [rqSize rqOffset ex_request]. destruct (Z.ltb_spec (zlen old) 0) as [Hlt|_]; [lia|]. eexists.
    split; [reflexivity|]. split; [repeat (constructor; [cbn; try done|])|left].
    all: first [lia|done|apply Forall_nil]. }
  exists h. split; [by eapply exec_runs|done].
Qed.

Lemma requests_confined_witness :
  exists h r, runs (model_Request (fun b => b) ex_folders (fun _ _ => false) (fun _ => true) (gostr "peer") (ex_request 4 [])) [] h r /\
    all_allowed (request_allowed (fun b => b) ex_folders (fun _ _ => false) (gostr "peer") (ex_request 4 [])) h.
Proof.
  destruct (old_bytes_sent (fun b => b) (gostr "abcd")) as (h & Hr & Hp & _). exists h, (inr (gostr "abcd")). split; [exact Hr|].
  exact (requests_confined (fun b => b) ex_folders (fun _ _ => false) (fun _ => true) (gostr "peer") (ex_request 4 []) h _ Hr Hp).
Defined.
(** Twelve bytes are asked for with the hash of the seven that the file has. *)
Definition ex_hashed : Request :=
  {| rqID := 1; rqFolder := gostr "f"; rqName := gostr "d/a"; rqOffset := 0; rqSize := 12; rqHash := gostr "content"; FromTemporary := false; BlockNo := 0 |}.
Definition ex_served : option (history * (request_err + bytes)) :=
  exec (ex_respond (gostr "old old old!")) (model_Request (fun b => b) ex_folders (fun _ _ => false) (fun _ => true) (gostr "peer") ex_hashed) [].
Definition ex_served_history : history := match ex_served with Some (h, _) => h | None => [] end.
Lemma ex_served_run : ex_served = Some (ex_served_history, inr (gostr "content old!")).
Proof. by vm_compute. Qed.
Lemma requests_answered_right_witness :
  runs (model_Request (fun b => b) ex_folders (fun _ _ => false) (fun _ => true) (gostr "peer") ex_hashed) [] ex_served_history (inr (gostr "content old!")) /\
  taken ex_served_history = 12 /\ exists rest, gostr "content old!" = gostr "content" ++ rest.
Proof.
  pose proof (exec_runs _ _ _ _ _ ex_served_run) as Hr. split; [exact Hr|].
  assert (all_plausible reader_answer ex_served_history) as Hp.
  { let l := eval vm_compute in ex_served_history in change ex_served_history with l.
    repeat (constructor; [cbn; try done; (split; [lia|done])|]). apply Forall_nil. }
  destruct (requests_answered_right (fun b => b) ex_folders (fun _ _ => false) (fun _ => true) (gostr "peer") ex_hashed _ _ Hr Hp) as (Ht & _ & cfg & Hc & Ha).
  split; [exact Ht|]. destruct Ha as (n & bs & err & rest & _ & _ & _ & E & _ & Hh). exists rest. rewrite E. f_equal.
  apply Hh; [|by vm_compute]. cbn in Hc. injection Hc as <-. reflexivity.
Defined.
End Examples.
