(* ===== verification/Config.v ===== *)
(** * The configuration and how it is prepared (lib/config)

    The folders and devices of lib/config/folderconfiguration.go,
    lib/config/deviceconfiguration.go and lib/config/config.go: lookups and
    updates, and [prepare], which makes a configuration that was read or changed
    consistent before it is used.  Fields that neither [prepare] nor the model of
    lib/model read are left out. *)
From Stdlib Require Import ZArith List Lia.
From Stdlib Require Import Floats.SpecFloat.
From Stdlib Require Import Strings.Byte.
From stdpp Require Import base list option gmap numbers tactics sorting.
From S2P Require Import Prelude GoLib FolderScan.

#[local] Open Scope Z_scope.

(** ** Data *)

#[export] Instance FolderType_eq_dec : EqDecision FolderType.
Proof. solve_decision. Defined.

Record ObservedFolder := { of_Time : Z; of_ID : bytes; of_Label : bytes }.
Record VersioningConfiguration :=
  { vc_Type : bytes; vc_Params : gmap bytes bytes; vc_CleanupIntervalS : Z; vc_FSPath : bytes; vc_FSType : Z }.
Definition Versioning_Reset : VersioningConfiguration :=
  {| vc_Type := []; vc_Params := ∅; vc_CleanupIntervalS := 0; vc_FSPath := []; vc_FSType := 0 |}.

Record FolderDeviceConfiguration := { fd_DeviceID : bytes; fd_IntroducedBy : bytes; fd_EncryptionPassword : bytes }.
Record FolderConfiguration :=
  { fc_ID : bytes; fc_Label : bytes; fc_FilesystemType : Z; fc_Path : bytes; fc_Type : FolderType;
    fc_Devices : list FolderDeviceConfiguration; fc_RescanIntervalS : Z; fc_FSWatcherEnabled : bool;
    fc_FSWatcherDelayS : spec_float; fc_IgnorePerms : bool; fc_Versioning : VersioningConfiguration; fc_Paused : bool;
    fc_MarkerName : bytes; fc_MaxConcurrentWrites : Z; fc_DigestCacheEntries : Z }.
Record DeviceConfiguration :=
  { dc_DeviceID : bytes; dc_Name : bytes; dc_Addresses : list bytes; dc_Compression : Z; dc_CertName : bytes;
    dc_Introducer : bool; dc_SkipIntroductionRemovals : bool; dc_IntroducedBy : bytes; dc_Paused : bool;
    dc_AutoAcceptFolders : bool; dc_IgnoredFolders : list ObservedFolder; dc_MaxRequestKiB : Z; dc_Untrusted : bool }.
Record Configuration := { cf_Folders : list FolderConfiguration; cf_Devices : list DeviceConfiguration }.

Definition set_Devices (ds : list FolderDeviceConfiguration) (f : FolderConfiguration) : FolderConfiguration :=
  {| fc_ID := fc_ID f; fc_Label := fc_Label f; fc_FilesystemType := fc_FilesystemType f; fc_Path := fc_Path f; fc_Type := fc_Type f;
     fc_Devices := ds; fc_RescanIntervalS := fc_RescanIntervalS f; fc_FSWatcherEnabled := fc_FSWatcherEnabled f;
     fc_FSWatcherDelayS := fc_FSWatcherDelayS f; fc_IgnorePerms := fc_IgnorePerms f; fc_Versioning := fc_Versioning f;
     fc_Paused := fc_Paused f; fc_MarkerName := fc_MarkerName f; fc_MaxConcurrentWrites := fc_MaxConcurrentWrites f;
     fc_DigestCacheEntries := fc_DigestCacheEntries f |}.

(** The empty device ID is 32 zero bytes. *)
Definition EmptyDeviceID : bytes := repeat (z2b 0) 32.
Definition MaxRescanIntervalS : Z := 365 * 24 * 60 * 60.
Definition DefaultMarkerName : bytes := gostr ".stfolder".
Definition maxConcurrentWritesDefault : Z := 16.
Definition maxConcurrentWritesLimit : Z := 256.

Inductive config_err := errFolderIDEmpty | errFolderPathEmpty (folder : bytes) | errFolderIDDuplicate (folder : bytes).

(** [bytes.Compare], [strings.Compare] and [DeviceID.Compare]. *)
Definition bytes_compare (a b : bytes) : Z := if bool_decide (a = b) then 0 else if bytes_leb a b then -1 else 1.
(** [slices.SortFunc]: where no two elements compare as equal, there is one result. *)
Fixpoint insert_by {A} (cmp : A -> A -> Z) (x : A) (l : list A) : list A :=
  match l with
  | [] => [x]
  | y :: l => if cmp x y <=? 0 then x :: y :: l else y :: insert_by cmp x l
  end.
Definition SortFunc {A} (cmp : A -> A -> Z) (l : list A) : list A := foldr (insert_by cmp) [] l.

(** ** Lookups *)

Definition FolderConfiguration_Device (device : bytes) (f : FolderConfiguration) : option FolderDeviceConfiguration :=
  List.find (fun d => bool_decide (fd_DeviceID d = device)) (fc_Devices f).
Definition SharedWith (device : bytes) (f : FolderConfiguration) : bool :=
  match FolderConfiguration_Device device f with Some _ => true | None => false end.
Definition DeviceIDs (f : FolderConfiguration) : list bytes := map fd_DeviceID (fc_Devices f).
Definition IgnoredFolder (folder : bytes) (d : DeviceConfiguration) : bool :=
  existsb (fun i => bool_decide (of_ID i = folder)) (dc_IgnoredFolders d).
Definition defaultNumConnections : Z := 3.
Definition NumConnections (RawNumConnections : Z) : Z :=
  if RawNumConnections =? 0 then defaultNumConnections else if RawNumConnections <? 0 then 1 else RawNumConnections.

Definition Configuration_Device (id : bytes) (cfg : Configuration) : option DeviceConfiguration :=
  List.find (fun d => bool_decide (dc_DeviceID d = id)) (cf_Devices cfg).
Definition Configuration_Folder (id : bytes) (cfg : Configuration) : option FolderConfiguration :=
  List.find (fun f => bool_decide (fc_ID f = id)) (cf_Folders cfg).
(** The maps are filled from the front: the last one of a name stays. *)
Definition DeviceMap (cfg : Configuration) : gmap bytes DeviceConfiguration :=
  fold_left (fun m d => <[dc_DeviceID d := d]> m) (cf_Devices cfg) ∅.
Definition FolderMap (cfg : Configuration) : gmap bytes FolderConfiguration :=
  fold_left (fun m f => <[fc_ID f := f]> m) (cf_Folders cfg) ∅.
Definition FolderPasswords (device : bytes) (cfg : Configuration) : gmap bytes bytes :=
  fold_left (fun res f =>
    match FolderConfiguration_Device device f with
    | Some dev => if is_nil (fd_EncryptionPassword dev) then res else <[fc_ID f := fd_EncryptionPassword dev]> res
    | None => res
    end) (cf_Folders cfg) ∅.

(** ** Updates *)

(** The index of the last element of every name. *)
Definition last_index {A} (id : A -> bytes) (xs : list A) : gmap bytes nat :=
  fold_left (fun m ix => <[id ix.2 := ix.1]> m) (combine (seq 0 (length xs)) xs) ∅.
(** An element replaces the one of the same name, the others are appended. *)
Definition set_all {A} (id : A -> bytes) (news xs : list A) : list A :=
  let inds := last_index id xs in
  let '(xs, filtered) := fold_left (fun acc x =>
    match inds !! id x with
    | Some i => (<[i := x]> acc.1, acc.2)
    | None => (acc.1, acc.2 ++ [x])
    end) news (xs, []) in
  xs ++ filtered.
Definition SetDevices (devices : list DeviceConfiguration) (cfg : Configuration) : Configuration :=
  {| cf_Folders := cf_Folders cfg; cf_Devices := set_all dc_DeviceID devices (cf_Devices cfg) |}.
Definition SetDevice (device : DeviceConfiguration) (cfg : Configuration) : Configuration := SetDevices [device] cfg.
Definition SetFolders (folders : list FolderConfiguration) (cfg : Configuration) : Configuration :=
  {| cf_Folders := set_all fc_ID folders (cf_Folders cfg); cf_Devices := cf_Devices cfg |}.
Definition SetFolder (folder : FolderConfiguration) (cfg : Configuration) : Configuration := SetFolders [folder] cfg.

(** ** The devices of a folder *)

(** The loops that overwrite an element that goes with the last one: [rest] is
    the part of the slice from the loop's index to its count. *)
Fixpoint swap_filter {S A} (keep : S -> A -> option S) (fuel : nat) (s : S) (rest : list A) : list A :=
  match fuel, rest with
  | Datatypes.S fuel, d :: rest =>
      match keep s d with
      | Some s => d :: swap_filter keep fuel s rest
      | None => swap_filter keep fuel s (match List.rev rest with [] => [] | l :: r => l :: List.rev r end)
      end
  | _, _ => []
  end.
Definition ensureExistingDevices (devices : list FolderDeviceConfiguration) (existingDevices : gmap bytes DeviceConfiguration) :
  list FolderDeviceConfiguration :=
  swap_filter (fun _ d => if existingDevices !! fd_DeviceID d is Some _ then Some tt else None) (length devices) tt devices.
Definition ensureNoDuplicateFolderDevices (devices : list FolderDeviceConfiguration) : list FolderDeviceConfiguration :=
  swap_filter (fun (seenDevices : gset bytes) d =>
    if bool_decide (fd_DeviceID d ∈ seenDevices) then None else Some ({[fd_DeviceID d]} ∪ seenDevices)) (length devices) ∅ devices.
Definition ensureNoDuplicateOrEmptyIDDevices (devices : list DeviceConfiguration) : list DeviceConfiguration :=
  swap_filter (fun (seenDevices : gset bytes) d =>
    if bool_decide (dc_DeviceID d ∈ seenDevices) || bool_decide (dc_DeviceID d = EmptyDeviceID) then None
    else Some ({[dc_DeviceID d]} ∪ seenDevices)) (length devices) ∅ devices.
Definition ensureDevicePresent (devices : list FolderDeviceConfiguration) (myID : bytes) : list FolderDeviceConfiguration :=
  if bool_decide (myID = EmptyDeviceID) then devices
  else if existsb (fun d => bool_decide (fd_DeviceID d = myID)) devices then devices
  else devices ++ [{| fd_DeviceID := myID; fd_IntroducedBy := EmptyDeviceID; fd_EncryptionPassword := [] |}].
(** A device that is not in the map is a nil pointer. *)
Fixpoint ensureNoUntrustedTrustingSharing (t : FolderType) (devices : list FolderDeviceConfiguration)
    (existingDevices : gmap bytes DeviceConfiguration) : outcome config_err (list FolderDeviceConfiguration) :=
  match devices with
  | [] => Ret []
  | dev :: devices =>
      if negb (is_nil (fd_EncryptionPassword dev)) || isEncrypted t then
        ds ← ensureNoUntrustedTrustingSharing t devices existingDevices; Ret (dev :: ds)
      else
        match existingDevices !! fd_DeviceID dev with
        | None => Panic
        | Some devCfg =>
            ds ← ensureNoUntrustedTrustingSharing t devices existingDevices;
            Ret (if dc_Untrusted devCfg then ds else dev :: ds)
        end
  end.

(** ** Preparing *)

(** 10 and the double nearest to 0.01. *)
Definition f64_10 : spec_float := S754_finite false 5629499534213120 (-49).
Definition f64_0_01 : spec_float := S754_finite false 5764607523034235 (-59).
Definition clamp_interval (z : Z) : Z := if MaxRescanIntervalS <? z then MaxRescanIntervalS else if z <? 0 then 0 else z.

(** The delay and whether changes are watched. *)
Definition watcher (f : FolderConfiguration) : spec_float * bool :=
  if SFleb (fc_FSWatcherDelayS f) (S754_zero false) then (f64_10, false)
  else if SFltb (fc_FSWatcherDelayS f) f64_0_01 then (f64_0_01, fc_FSWatcherEnabled f)
  else (fc_FSWatcherDelayS f, fc_FSWatcherEnabled f).
Definition folder_prepare (myID : bytes) (existingDevices : gmap bytes DeviceConfiguration) (f : FolderConfiguration) :
  outcome config_err FolderConfiguration :=
  let ds := ensureExistingDevices (fc_Devices f) existingDevices in
  let ds := ensureNoDuplicateFolderDevices ds in
  let ds := ensureDevicePresent ds myID in
  ds ← ensureNoUntrustedTrustingSharing (fc_Type f) ds existingDevices;
  let ds := SortFunc (fun a b => bytes_compare (fd_DeviceID a) (fd_DeviceID b)) ds in
  let v := fc_Versioning f in
  Ret {| fc_ID := fc_ID f; fc_Label := fc_Label f; fc_FilesystemType := fc_FilesystemType f; fc_Path := fc_Path f;
         fc_Type := fc_Type f; fc_Devices := ds;
         fc_RescanIntervalS := clamp_interval (fc_RescanIntervalS f);
         fc_FSWatcherEnabled := (watcher f).2; fc_FSWatcherDelayS := (watcher f).1;
         fc_IgnorePerms := if isEncrypted (fc_Type f) then true else fc_IgnorePerms f;
         fc_Versioning := {| vc_Type := vc_Type v; vc_Params := vc_Params v; vc_CleanupIntervalS := clamp_interval (vc_CleanupIntervalS v);
                             vc_FSPath := vc_FSPath v; vc_FSType := vc_FSType v |};
         fc_Paused := fc_Paused f;
         fc_MarkerName := if is_nil (fc_MarkerName f) then DefaultMarkerName else fc_MarkerName f;
         fc_MaxConcurrentWrites :=
           if fc_MaxConcurrentWrites f <=? 0 then maxConcurrentWritesDefault
           else if maxConcurrentWritesLimit <? fc_MaxConcurrentWrites f then maxConcurrentWritesLimit
           else fc_MaxConcurrentWrites f;
         fc_DigestCacheEntries := if fc_DigestCacheEntries f <? 0 then 0 else fc_DigestCacheEntries f |}.

Definition deduplicateObservedFoldersToMap (input : list ObservedFolder) : gmap bytes ObservedFolder :=
  fold_left (fun output folder =>
    match output !! of_ID folder with
    | None => <[of_ID folder := folder]> output
    | Some existing => if of_Time existing <? of_Time folder then <[of_ID folder := folder]> output else output
    end) input ∅.

Section Prepare.
(** The order in which a map is ranged over, and the scheme that [url.Parse]
    finds in an address, [None] for an error. *)
Context (iter : forall A, gmap bytes A -> list (bytes * A)) (url_scheme : bytes -> option bytes).
Arguments iter {A}.

Definition sortedObservedFolderSlice (input : gmap bytes ObservedFolder) : list ObservedFolder :=
  SortFunc (fun a b => of_Time a - of_Time b) (map snd (iter input)).
Definition device_prepare (sharedFolders : list bytes) (d : DeviceConfiguration) : DeviceConfiguration :=
  let addresses :=
    if is_nil (dc_Addresses d) || bool_decide (dc_Addresses d = [ [] ]) then [gostr "dynamic"] else dc_Addresses d in
  let ignoredFolders := fold_left (fun m f => delete f m) sharedFolders (deduplicateObservedFoldersToMap (dc_IgnoredFolders d)) in
  {| dc_DeviceID := dc_DeviceID d; dc_Name := dc_Name d; dc_Addresses := addresses; dc_Compression := dc_Compression d;
     dc_CertName := dc_CertName d; dc_Introducer := if dc_Untrusted d then false else dc_Introducer d;
     dc_SkipIntroductionRemovals := dc_SkipIntroductionRemovals d; dc_IntroducedBy := dc_IntroducedBy d;
     dc_Paused := dc_Paused d; dc_AutoAcceptFolders := if dc_Untrusted d then false else dc_AutoAcceptFolders d;
     dc_IgnoredFolders := sortedObservedFolderSlice ignoredFolders; dc_MaxRequestKiB := dc_MaxRequestKiB d;
     dc_Untrusted := dc_Untrusted d |}.

(** The zero device of Go with an ID and a name. *)
Definition new_device (id name : bytes) : DeviceConfiguration :=
  {| dc_DeviceID := id; dc_Name := name; dc_Addresses := []; dc_Compression := 0; dc_CertName := []; dc_Introducer := false;
     dc_SkipIntroductionRemovals := false; dc_IntroducedBy := EmptyDeviceID; dc_Paused := false; dc_AutoAcceptFolders := false;
     dc_IgnoredFolders := []; dc_MaxRequestKiB := 0; dc_Untrusted := false |}.
Definition ensureMyDevice (myName myID : bytes) (cfg : Configuration) : Configuration :=
  if bool_decide (myID = EmptyDeviceID) then cfg
  else if existsb (fun d => bool_decide (dc_DeviceID d = myID)) (cf_Devices cfg) then cfg
  else {| cf_Folders := cf_Folders cfg; cf_Devices := cf_Devices cfg ++ [new_device myID myName] |}.
Definition prepareDeviceList (devices : list DeviceConfiguration) : list DeviceConfiguration :=
  SortFunc (fun a b => bytes_compare (dc_DeviceID a) (dc_DeviceID b)) (ensureNoDuplicateOrEmptyIDDevices devices).
Definition existing_devices (devices : list DeviceConfiguration) : gmap bytes DeviceConfiguration :=
  fold_left (fun m d => <[dc_DeviceID d := d]> m) devices ∅.

Definition share (folder : bytes) (sharedFolders : gmap bytes (list bytes)) (dev : FolderDeviceConfiguration) : gmap bytes (list bytes) :=
  <[fd_DeviceID dev := default [] (sharedFolders !! fd_DeviceID dev) ++ [folder]]> sharedFolders.
Fixpoint prepareFolders_loop (myID : bytes) (existingDevices : gmap bytes DeviceConfiguration) (existingFolders : gset bytes)
    (sharedFolders : gmap bytes (list bytes)) (folders : list FolderConfiguration) :
  outcome config_err (list FolderConfiguration * gmap bytes (list bytes)) :=
  match folders with
  | [] => Ret ([], sharedFolders)
  | folder :: folders =>
      if is_nil (fc_ID folder) then Err errFolderIDEmpty
      else if is_nil (fc_Path folder) then Err (errFolderPathEmpty (fc_ID folder))
      else if bool_decide (fc_ID folder ∈ existingFolders) then Err (errFolderIDDuplicate (fc_ID folder))
      else
        f ← folder_prepare myID existingDevices folder;
        '(fs, shared) ← prepareFolders_loop myID existingDevices ({[fc_ID f]} ∪ existingFolders)
                          (fold_left (share (fc_ID f)) (fc_Devices f) sharedFolders) folders;
        Ret (f :: fs, shared)
  end.
Definition prepareFolders (myID : bytes) (existingDevices : gmap bytes DeviceConfiguration) (folders : list FolderConfiguration) :
  outcome config_err (list FolderConfiguration * gmap bytes (list bytes)) :=
  '(fs, shared) ← prepareFolders_loop myID existingDevices ∅ ∅ folders;
  Ret (SortFunc (fun a b => bytes_compare (fc_ID a) (fc_ID b)) fs, shared).
Definition prepareDevices (sharedFolders : gmap bytes (list bytes)) (devices : list DeviceConfiguration) : list DeviceConfiguration :=
  map (fun d => device_prepare (default [] (sharedFolders !! dc_DeviceID d)) d) devices.
Definition prepareFoldersAndDevices (myID : bytes) (cfg : Configuration) : outcome config_err Configuration :=
  let devices := prepareDeviceList (cf_Devices cfg) in
  '(folders, shared) ← prepareFolders myID (existing_devices devices) (cf_Folders cfg);
  Ret {| cf_Folders := folders; cf_Devices := prepareDevices shared devices |}.

Definition has_scheme (pre addr : bytes) : bool :=
  match url_scheme addr with Some scheme => hasPrefix scheme pre | None => false end.
Definition filterURLSchemePrefix (addrs : list bytes) (pre : bytes) : list bytes :=
  List.filter (fun addr => negb (has_scheme pre addr)) addrs.
Definition device_protocols (d : DeviceConfiguration) : DeviceConfiguration :=
  {| dc_DeviceID := dc_DeviceID d; dc_Name := dc_Name d; dc_Addresses := filterURLSchemePrefix (dc_Addresses d) (gostr "kcp");
     dc_Compression := dc_Compression d; dc_CertName := dc_CertName d; dc_Introducer := dc_Introducer d;
     dc_SkipIntroductionRemovals := dc_SkipIntroductionRemovals d; dc_IntroducedBy := dc_IntroducedBy d;
     dc_Paused := dc_Paused d; dc_AutoAcceptFolders := dc_AutoAcceptFolders d; dc_IgnoredFolders := dc_IgnoredFolders d;
     dc_MaxRequestKiB := dc_MaxRequestKiB d; dc_Untrusted := dc_Untrusted d |}.
(** For the devices; the listeners are options. *)
Definition removeDeprecatedProtocols (cfg : Configuration) : Configuration :=
  {| cf_Folders := cf_Folders cfg; cf_Devices := map device_protocols (cf_Devices cfg) |}.
(** The part of [prepare] that concerns the folders and devices of a
    configuration of the current version, which no migration changes. *)
Definition prepare (myName myID : bytes) (cfg : Configuration) : outcome config_err Configuration :=
  cfg ← prepareFoldersAndDevices myID (ensureMyDevice myName myID cfg);
  Ret (removeDeprecatedProtocols cfg).
End Prepare.

(** [model.VerifyConfiguration]; [versioner_New] says whether a versioner can be made. *)
Inductive verify_err := errFolderTypeChange | errVersioner (folder : bytes).
Definition VerifyConfiguration (versioner_New : FolderConfiguration -> bool) (from to : Configuration) : option verify_err :=
  let toFolders := FolderMap to in
  let changed := fun f =>
    match toFolders !! fc_ID f with
    | Some t => negb (bool_decide (fc_Type f = fc_Type t)) && (isEncrypted (fc_Type f) || isEncrypted (fc_Type t))
    | None => false
    end in
  if existsb changed (cf_Folders from) then Some errFolderTypeChange
  else
    match List.find (fun t => negb (is_nil (vc_Type (fc_Versioning t))) && negb (versioner_New t)) (cf_Folders to) with
    | Some t => Some (errVersioner (fc_ID t))
    | None => None
    end.
