(* ===== verification/ConfigProps.v ===== *)
(** * What [prepare] makes of a configuration

    The configuration is consistent afterwards, nothing that was consistent is
    lost, and preparing it once more changes nothing. *)
From Stdlib Require Import ZArith List Lia.
From Stdlib Require Import Floats.SpecFloat.
From Stdlib Require Import Strings.Byte.
From Stdlib Require Import Sorting.Sorted.
From stdpp Require Import base list option gmap numbers tactics sorting.
From S2P Require Import Prelude GoLib FolderScan Config.

#[local] Open Scope Z_scope.

(** ** Sorting *)

Lemma cfg_insert_by_perm {A} (cmp : A -> A -> Z) x l : insert_by cmp x l ≡ₚ x :: l.
Proof. induction l as [|y l IH]; cbn; [done|]. case_bool; [done|]. rewrite IH. constructor. Qed.
Lemma SortFunc_perm {A} (cmp : A -> A -> Z) l : SortFunc cmp l ≡ₚ l.
Proof. unfold SortFunc. induction l as [|x l IH]; cbn; [done|]. by rewrite cfg_insert_by_perm, IH. Qed.

Section Sorted.
Context {A : Type} (cmp : A -> A -> Z).
Let le a b := cmp a b <= 0.
Hypothesis le_trans : forall a b c, le a b -> le b c -> le a c.
Hypothesis le_total : forall a b, le a b \/ le b a.

Lemma cfg_insert_by_sorted x l : StronglySorted le l -> StronglySorted le (insert_by cmp x l).
Proof.
  induction 1 as [|y l Hl IH Hy]; cbn; [by repeat constructor|]. case_bool; zbool.
  - constructor; [by constructor|]. constructor; [done|]. eapply Forall_impl; [exact Hy|]. intros z Hz. by eapply le_trans.
  - constructor; [done|]. rewrite cfg_insert_by_perm. constructor; [|done]. destruct (le_total x y); [unfold le in *; lia|done].
Qed.
Lemma SortFunc_sorted l : StronglySorted le (SortFunc cmp l).
Proof. unfold SortFunc. induction l as [|x l IH]; cbn; [constructor|by apply cfg_insert_by_sorted]. Qed.
Lemma SortFunc_id l : StronglySorted le l -> SortFunc cmp l = l.
Proof.
  unfold SortFunc. induction 1 as [|y l Hl IH Hy]; cbn; [done|]. rewrite IH. destruct l as [|z l]; [done|]. cbn.
  apply Forall_inv in Hy. by rewrite (proj2 (Z.leb_le _ _) Hy).
Qed.
(** Without elements that compare as equal there is one sorted list. *)
Lemma sorted_unique l k : (forall a b, a ∈ l -> b ∈ l -> le a b -> le b a -> a = b) ->
  StronglySorted le l -> StronglySorted le k -> l ≡ₚ k -> l = k.
Proof.
  intros Hanti Hl. revert k. induction Hl as [|x l Hl IH Hx]; intros k Hk Hp; [by apply Permutation_nil in Hp|].
  destruct Hk as [|y k Hk Hy]; [by apply Permutation_sym, Permutation_nil in Hp|].
  assert (x = y) as ->.
  { assert (y ∈ x :: l) as Hyl by (rewrite Hp; left). assert (x ∈ y :: k) as Hxk by (rewrite <- Hp; left).
    apply elem_of_cons in Hyl as [->|Hyl]; [done|]. apply elem_of_cons in Hxk as [->|Hxk]; [done|].
    apply Hanti; [left|by right|by apply (proj1 (Forall_forall _ _) Hx)|by apply (proj1 (Forall_forall _ _) Hy)]. }
  f_equal. apply IH; [|done|by apply Permutation_cons_inv in Hp]. intros a b Ha Hb. apply Hanti; by right.
Qed.
End Sorted.

Lemma compare_le a b : bytes_compare a b <= 0 <-> bytes_leb a b = true.
Proof.
  unfold bytes_compare. case_bool_decide as E; [subst; by rewrite bytes_leb_refl|]. destruct (bytes_leb a b); split; done || lia.
Qed.
Section Key.
Context {A : Type} (key : A -> bytes).
Definition key_le (a b : A) : Prop := bytes_compare (key a) (key b) <= 0.
Lemma key_le_trans a b c : key_le a b -> key_le b c -> key_le a c.
Proof. unfold key_le. rewrite !compare_le. apply bytes_leb_trans. Qed.
Lemma key_le_total a b : key_le a b \/ key_le b a.
Proof. unfold key_le. rewrite !compare_le. apply bytes_leb_total. Qed.
Definition sort_key (l : list A) : list A := SortFunc (fun a b => bytes_compare (key a) (key b)) l.
Lemma sort_key_sorted l : StronglySorted key_le (sort_key l).
Proof. apply SortFunc_sorted; [apply key_le_trans|apply key_le_total]. Qed.
Lemma sort_key_id l : StronglySorted key_le l -> sort_key l = l.
Proof. apply SortFunc_id. Qed.
End Key.

(** ** The loops that drop elements *)

Lemma swap_rest_perm {A} (rest : list A) : match List.rev rest with [] => [] | l :: r => l :: List.rev r end ≡ₚ rest.
Proof.
  destruct (List.rev rest) as [|l r] eqn:E.
  - apply (f_equal (@List.rev A)) in E. rewrite List.rev_involutive in E. by subst.
  - apply (f_equal (@List.rev A)) in E. rewrite List.rev_involutive in E. subst. cbn. by rewrite Permutation_app_comm.
Qed.
Lemma cfg_filter_perm {A} (p : A -> bool) l k : l ≡ₚ k -> List.filter p l ≡ₚ List.filter p k.
Proof.
  induction 1; cbn; [done| | |by etrans]; repeat case_match; try done; [by constructor|constructor].
Qed.

Lemma swap_filter_perm {A} (p : A -> bool) fuel rest : (length rest <= fuel)%nat ->
  swap_filter (fun _ d => if p d then Some tt else None) fuel tt rest ≡ₚ List.filter p rest.
Proof.
  revert rest. induction fuel as [|fuel IH]; intros [|d rest] Hf; cbn in *; try done; [lia|].
  destruct (p d); [constructor; apply IH; lia|]. rewrite IH.
  - apply cfg_filter_perm, swap_rest_perm.
  - rewrite (Permutation_length (swap_rest_perm rest)). lia.
Qed.
Lemma swap_filter_id {S A} (keep : S -> A -> option S) (Q : S -> list A -> Prop) fuel s rest :
  (forall s d rest, Q s (d :: rest) -> exists s', keep s d = Some s' /\ Q s' rest) ->
  Q s rest -> (length rest <= fuel)%nat -> swap_filter keep fuel s rest = rest.
Proof.
  intros HQ. revert s rest. induction fuel as [|fuel IH]; intros s [|d rest] Hq Hf; cbn in *; try done; [lia|].
  destruct (HQ _ _ _ Hq) as (s' & -> & Hq'). f_equal. apply IH; [done|lia].
Qed.

(** Elements of a name that was seen, or of a name that is refused, are dropped. *)
Section Dedup.
Context {A : Type} (key : A -> bytes) (bad : bytes -> bool).
Definition dedup_keep (seen : gset bytes) (d : A) : option (gset bytes) :=
  if bool_decide (key d ∈ seen) || bad (key d) then None else Some ({[key d]} ∪ seen).

Lemma dedup_spec fuel seen rest : (length rest <= fuel)%nat ->
  let res := swap_filter dedup_keep fuel seen rest in
  NoDup (map key res) /\ (forall d, d ∈ res -> d ∈ rest /\ (key d ∉ seen) /\ bad (key d) = false) /\
  (forall k, k ∈ map key rest -> k ∉ seen -> bad k = false -> k ∈ map key res).
Proof.
  revert seen rest. induction fuel as [|fuel IH]; intros seen [|d rest] Hf; cbn in *.
  1, 3: split; [constructor|]; split; [intros ? H; by apply not_elem_of_nil in H|intros ? H; by apply not_elem_of_nil in H].
  { lia. }
  assert (dedup_keep seen d = if bool_decide (key d ∈ seen) || bad (key d) then None else Some ({[key d]} ∪ seen)) as -> by done.
  destruct (bool_decide (key d ∈ seen) || bad (key d)) eqn:E.
  - set (r := match List.rev rest with [] => [] | l :: r => l :: List.rev r end).
    assert (r ≡ₚ rest) as Hr by apply swap_rest_perm.
    destruct (IH seen r) as (H1 & H2 & H3); [rewrite Hr; lia|]. fold r. split; [done|]. split.
    + intros d' Hd'. destruct (H2 d' Hd') as (Hin & ?). rewrite Hr in Hin. split; [by right|done].
    + intros k Hk Hs Hb. apply H3; [|done|done]. rewrite Hr. apply elem_of_cons in Hk as [->|Hk]; [|done].
      rewrite bool_decide_eq_false_2, Hb in E by done. done.
  - apply orb_false_iff in E as [E1 E2]. apply bool_decide_eq_false in E1.
    destruct (IH ({[key d]} ∪ seen) rest) as (H1 & H2 & H3); [lia|]. cbn. split; [|split].
    + constructor; [|done]. intros (x & Hx & Hin)%list_elem_of_fmap. destruct (H2 x Hin) as (_ & Hn & _). set_solver.
    + intros d' Hd'. apply elem_of_cons in Hd' as [->|Hd']; [split; [left|done]|].
      destruct (H2 d' Hd') as (? & ? & ?). split; [by right|]. split; [set_solver|done].
    + intros k Hk Hs Hb. apply elem_of_cons in Hk as [->|Hk]; [left|].
      destruct (decide (k = key d)) as [->|Hne]; [left|]. right. apply H3; [done|set_solver|done].
Qed.
Lemma dedup_id rest : NoDup (map key rest) -> Forall (fun d => bad (key d) = false) rest ->
  swap_filter dedup_keep (length rest) ∅ rest = rest.
Proof.
  intros Hn Hb. apply (swap_filter_id _ (fun seen r => NoDup (map key r) /\ Forall (fun d => bad (key d) = false /\ (key d ∉ seen)) r)); [|split|lia].
  - intros seen d r [Hd Hr]. cbn in Hd. apply list.NoDup_cons in Hd as [Hd1 Hd2]. apply Forall_cons_iff in Hr as [ [Hr1 Hr2] Hr].
    unfold dedup_keep. rewrite bool_decide_eq_false_2, Hr1 by done. eexists. split; [done|]. split; [done|].
    rewrite Forall_forall in *. intros x Hx. destruct (Hr x Hx). split; [done|].
    intros [Hk|?]%elem_of_union; [|done]. apply elem_of_singleton in Hk. apply Hd1. rewrite <- Hk. by apply list_elem_of_fmap_2.
  - done.
  - eapply Forall_impl; [exact Hb|]. intros d ?. cbn. set_solver.
Qed.
End Dedup.

Lemma swap_filter_ext {S A} (k1 k2 : S -> A -> option S) fuel s rest :
  (forall s d, k1 s d = k2 s d) -> swap_filter k1 fuel s rest = swap_filter k2 fuel s rest.
Proof.
  intros He. revert s rest. induction fuel as [|fuel IH]; intros s [|d rest]; cbn; try done.
  rewrite He. case_match; by rewrite ?IH.
Qed.

(** ** The devices of a folder *)

Definition no_name (_ : bytes) : bool := false.
Definition empty_name (id : bytes) : bool := bool_decide (id = EmptyDeviceID).
Lemma noDuplicate_dedup ds : ensureNoDuplicateFolderDevices ds = swap_filter (dedup_keep fd_DeviceID no_name) (length ds) ∅ ds.
Proof. apply swap_filter_ext. intros s d. unfold dedup_keep, no_name. by rewrite orb_false_r. Qed.
Lemma noDuplicateOrEmpty_dedup ds :
  ensureNoDuplicateOrEmptyIDDevices ds = swap_filter (dedup_keep dc_DeviceID empty_name) (length ds) ∅ ds.
Proof. done. Qed.

Definition exists_in (m : gmap bytes DeviceConfiguration) (d : FolderDeviceConfiguration) : bool :=
  match m !! fd_DeviceID d with Some _ => true | None => false end.
(** A share that [ensureNoUntrustedTrustingSharing] keeps. *)
Definition may_share (t : FolderType) (m : gmap bytes DeviceConfiguration) (d : FolderDeviceConfiguration) : bool :=
  negb (is_nil (fd_EncryptionPassword d)) || isEncrypted t ||
  match m !! fd_DeviceID d with Some c => negb (dc_Untrusted c) | None => false end.

Lemma existing_perm ds m : ensureExistingDevices ds m ≡ₚ List.filter (exists_in m) ds.
Proof.
  rewrite <- (swap_filter_perm (exists_in m) (length ds) ds) by done. unfold ensureExistingDevices.
  erewrite swap_filter_ext; [reflexivity|]. intros [] d. unfold exists_in. by destruct (m !! fd_DeviceID d).
Qed.
Lemma existing_id ds m : Forall (fun d => exists_in m d = true) ds -> ensureExistingDevices ds m = ds.
Proof.
  intros Hf. unfold ensureExistingDevices.
  apply (swap_filter_id _ (fun _ r => Forall (fun d => exists_in m d = true) r)); [|done|lia].
  intros [] d r [Hd Hr]%Forall_cons_iff. unfold exists_in in Hd. destruct (m !! fd_DeviceID d); [|done]. by eexists.
Qed.
Lemma untrusted_spec t ds m : Forall (fun d => exists_in m d = true) ds ->
  ensureNoUntrustedTrustingSharing t ds m = Ret (List.filter (may_share t m) ds).
Proof.
  induction ds as [|d ds IH]; cbn; [done|]. intros [Hd Hds]%Forall_cons_iff. rewrite (IH Hds).
  unfold may_share at 3 4. destruct (negb _ || isEncrypted t); [done|]. unfold exists_in in Hd. destruct (m !! fd_DeviceID d) as [c|]; [|done].
  cbn. by destruct (dc_Untrusted c).
Qed.

Definition self_share (myID : bytes) : FolderDeviceConfiguration :=
  {| fd_DeviceID := myID; fd_IntroducedBy := EmptyDeviceID; fd_EncryptionPassword := [] |}.

Definition clamped (z : Z) : Prop := 0 <= z <= MaxRescanIntervalS.
(** The consistency of a folder: [devices] are those of the configuration. *)
Record folder_ok (myID : bytes) (devices : gmap bytes DeviceConfiguration) (f : FolderConfiguration) : Prop := {
  fo_sorted : StronglySorted (key_le fd_DeviceID) (fc_Devices f);
  fo_nodup : NoDup (DeviceIDs f);
  fo_shares : Forall (fun d => exists_in devices d = true /\ may_share (fc_Type f) devices d = true) (fc_Devices f);
  fo_self : myID <> EmptyDeviceID -> may_share (fc_Type f) devices (self_share myID) = true -> myID ∈ DeviceIDs f;
  fo_rescan : clamped (fc_RescanIntervalS f);
  fo_cleanup : clamped (vc_CleanupIntervalS (fc_Versioning f));
  fo_delay : SFleb (fc_FSWatcherDelayS f) (S754_zero false) = false /\ SFltb (fc_FSWatcherDelayS f) f64_0_01 = false;
  fo_marker : fc_MarkerName f <> [];
  fo_writes : 1 <= fc_MaxConcurrentWrites f <= maxConcurrentWritesLimit;
  fo_cache : 0 <= fc_DigestCacheEntries f;
  fo_perms : fc_Type f = FolderTypeReceiveEncrypted -> fc_IgnorePerms f = true }.

Lemma clamp_clamped z : clamped (clamp_interval z).
Proof. unfold clamped, clamp_interval, MaxRescanIntervalS. repeat case_bool; zbool; lia. Qed.
Lemma clamp_id z : clamped z -> clamp_interval z = z.
Proof. unfold clamped, clamp_interval, MaxRescanIntervalS. intros. repeat case_bool; zbool; lia. Qed.

(** The shares before those with untrusted devices are removed. *)
Definition shares (myID : bytes) (m : gmap bytes DeviceConfiguration) (ds : list FolderDeviceConfiguration) :=
  ensureDevicePresent (ensureNoDuplicateFolderDevices (ensureExistingDevices ds m)) myID.

Lemma existsb_id {A} (key : A -> bytes) (id : bytes) ds : existsb (fun d => bool_decide (key d = id)) ds = true <-> id ∈ map key ds.
Proof.
  rewrite existsb_exists. split.
  - intros (d & Hd & E%bool_decide_eq_true). rewrite <- E. apply list_elem_of_fmap_2. by apply list_elem_of_In.
  - intros (d & -> & Hd)%list_elem_of_fmap. exists d. split; [by apply list_elem_of_In|]. by apply bool_decide_eq_true.
Qed.

Lemma shares_spec myID m ds : (myID = EmptyDeviceID \/ is_Some (m !! myID)) ->
  NoDup (map fd_DeviceID (shares myID m ds)) /\
  Forall (fun d => exists_in m d = true) (shares myID m ds) /\
  (forall d, d ∈ shares myID m ds -> (d ∈ ds /\ exists_in m d = true) \/ d = self_share myID) /\
  (myID <> EmptyDeviceID -> myID ∈ map fd_DeviceID (shares myID m ds)) /\
  (forall d, d ∈ ds -> exists_in m d = true -> exists d', d' ∈ shares myID m ds /\ d' ∈ ds /\ fd_DeviceID d' = fd_DeviceID d).
Proof.
  intros Hme. unfold shares. set (es := ensureExistingDevices ds m). rewrite noDuplicate_dedup.
  destruct (dedup_spec fd_DeviceID no_name (length es) ∅ es) as (H1 & H2 & H3); [done|]. set (ns := swap_filter _ _ _ es) in *.
  assert (forall d, d ∈ es <-> d ∈ ds /\ exists_in m d = true) as Hes.
  { intros d. unfold es. rewrite existing_perm, !list_elem_of_In. apply filter_In. }
  assert (forall d, d ∈ ns -> d ∈ ds /\ exists_in m d = true) as Hns by (intros d Hd; by apply Hes, H2).
  assert (forall d, d ∈ ds -> exists_in m d = true -> exists d', d' ∈ ns /\ d' ∈ ds /\ fd_DeviceID d' = fd_DeviceID d) as Hk.
  { intros d Hd Hex. assert (fd_DeviceID d ∈ map fd_DeviceID ns) as (d' & E & Hd')%list_elem_of_fmap.
    { apply H3; [apply list_elem_of_fmap_2; by apply Hes|set_solver|done]. }
    exists d'. split; [done|]. split; [by apply Hns|done]. }
  unfold ensureDevicePresent. case_bool_decide as Hm; [|destruct (existsb _ ns) eqn:Ee].
  - split; [done|]. split; [apply Forall_forall; intros d Hd; by apply Hns|]. split; [intros d Hd; left; by apply Hns|]. done.
  - apply (existsb_id fd_DeviceID) in Ee. split; [done|]. split; [apply Forall_forall; intros d Hd; by apply Hns|].
    split; [intros d Hd; left; by apply Hns|]. done.
  - assert (myID ∉ map fd_DeviceID ns) as Hn by (intros H%(existsb_id fd_DeviceID); congruence).
    rewrite map_app. split; [|split; [|split; [|split]]].
    + apply NoDup_app. split; [done|]. split; [|by constructor; [set_solver|constructor]].
      intros x Hx Hx'. apply list_elem_of_singleton in Hx'. by subst.
    + apply Forall_app. split; [apply Forall_forall; intros d Hd; by apply Hns|]. constructor; [|done].
      unfold exists_in. cbn. destruct Hme as [?|[c ->] ]; done.
    + intros d [Hd|Hd]%elem_of_app; [left; by apply Hns|]. right. by apply list_elem_of_singleton in Hd.
    + intros _. apply elem_of_app. right. by apply list_elem_of_singleton.
    + intros d Hd Hex. destruct (Hk d Hd Hex) as (d' & ? & ? & ?). exists d'. split; [|done]. apply elem_of_app. by left.
Qed.

Lemma may_share_self t m d : may_share t m (self_share (fd_DeviceID d)) = true -> may_share t m d = true.
Proof. unfold may_share. cbn. intros H. by destruct (fd_EncryptionPassword d). Qed.
Lemma watcher_ok f : SFleb (watcher f).1 (S754_zero false) = false /\ SFltb (watcher f).1 f64_0_01 = false.
Proof.
  unfold watcher. destruct (SFleb (fc_FSWatcherDelayS f) (S754_zero false)) eqn:E1; [by vm_compute|].
  by destruct (SFltb (fc_FSWatcherDelayS f) f64_0_01) eqn:E2; [vm_compute|].
Qed.
Lemma watcher_id f : SFleb (fc_FSWatcherDelayS f) (S754_zero false) = false /\ SFltb (fc_FSWatcherDelayS f) f64_0_01 = false ->
  watcher f = (fc_FSWatcherDelayS f, fc_FSWatcherEnabled f).
Proof. unfold watcher. by intros [-> ->]. Qed.
Lemma filter_keys_NoDup {A} (key : A -> bytes) p l : NoDup (map key l) -> NoDup (map key (List.filter p l)).
Proof.
  induction l as [|x l IH]; cbn; [done|]. intros [Hx Hl]%list.NoDup_cons. destruct (p x); [|by apply IH].
  cbn. constructor; [|by apply IH]. intros (y & Ey & Hy)%list_elem_of_fmap. apply Hx. rewrite Ey.
  apply list_elem_of_fmap_2. rewrite list_elem_of_In in *. by apply filter_In in Hy as [? _].
Qed.

Lemma folder_prepare_ok myID m f : (myID = EmptyDeviceID \/ is_Some (m !! myID)) ->
  exists f', folder_prepare myID m f = Ret f' /\ folder_ok myID m f' /\ fc_ID f' = fc_ID f /\ fc_Path f' = fc_Path f /\
    fc_Type f' = fc_Type f /\ fc_Devices f' ≡ₚ List.filter (may_share (fc_Type f) m) (shares myID m (fc_Devices f)).
Proof.
  intros Hme. destruct (shares_spec myID m (fc_Devices f) Hme) as (H1 & H2 & H3 & H4 & H5).
  unfold folder_prepare. fold (shares myID m (fc_Devices f)). rewrite (untrusted_spec _ _ _ H2). cbn [mbind outcome_bind].
  set (ds := List.filter _ _). set (sorted := SortFunc _ ds).
  assert (sorted ≡ₚ ds) as Hp by apply SortFunc_perm.
  assert (forall d, d ∈ ds <-> d ∈ shares myID m (fc_Devices f) /\ may_share (fc_Type f) m d = true) as Hds.
  { intros d. unfold ds. by rewrite list_elem_of_In, filter_In, <- list_elem_of_In. }
  eexists. split; [done|]. split; [|done]. constructor; cbn.
  - apply (sort_key_sorted fd_DeviceID).
  - unfold DeviceIDs. cbn. rewrite (Permutation_map fd_DeviceID Hp). by apply filter_keys_NoDup.
  - apply Forall_forall. intros d Hd. rewrite Hp in Hd. apply Hds in Hd as [Hd Hm]. split; [|done].
    by apply (proj1 (Forall_forall _ _) H2).
  - intros Hne Hs. unfold DeviceIDs. cbn. rewrite (Permutation_map fd_DeviceID Hp).
    specialize (H4 Hne). apply list_elem_of_fmap in H4 as (d & Ed & Hd). rewrite Ed. apply list_elem_of_fmap_2, Hds. split; [done|].
    apply may_share_self. by rewrite <- Ed.
  - apply clamp_clamped.
  - apply clamp_clamped.
  - apply watcher_ok.
  - by destruct (fc_MarkerName f).
  - unfold maxConcurrentWritesDefault, maxConcurrentWritesLimit. repeat case_bool; zbool; lia.
  - case_bool; zbool; lia.
  - by intros ->.
Qed.

Lemma cfg_filter_all {A} (p : A -> bool) l : Forall (fun x => p x = true) l -> List.filter p l = l.
Proof. induction 1 as [|x l Hx _ IH]; cbn; [done|]. by rewrite Hx, IH. Qed.
(** A consistent folder is left alone. *)
Lemma folder_prepare_id myID m f : (myID = EmptyDeviceID \/ is_Some (m !! myID)) ->
  folder_ok myID m f -> folder_prepare myID m f = Ret f.
Proof.
  intros Hme [H1 H2 H3 H4 H5 H6 H7 H8 H9 H10 H11].
  assert (Forall (fun d => exists_in m d = true) (fc_Devices f)) as Hex by (eapply Forall_impl; [exact H3|]; by intros d [? _]).
  destruct (shares_spec myID m (fc_Devices f) Hme) as (_ & Hall & _).
  assert (List.filter (may_share (fc_Type f) m) (shares myID m (fc_Devices f)) = fc_Devices f) as Hs.
  { pose proof (cfg_filter_all _ _ (Forall_impl _ _ _ H3 (fun d Hd => proj2 Hd))) as Hf.
    unfold shares. rewrite (existing_id _ _ Hex), noDuplicate_dedup.
    rewrite (dedup_id fd_DeviceID no_name) by (done || by apply Forall_true). unfold ensureDevicePresent. case_bool_decide as Hm; [done|].
    destruct (existsb _ _) eqn:Ee; [done|]. rewrite List.filter_app, Hf. fold (self_share myID). cbn [List.filter].
    destruct (may_share (fc_Type f) m (self_share myID)) eqn:Em; [|apply app_nil_r].
    specialize (H4 Hm eq_refl). apply (existsb_id fd_DeviceID) in H4. congruence. }
  unfold folder_prepare. fold (shares myID m (fc_Devices f)). rewrite (untrusted_spec _ _ _ Hall), Hs. cbn [mbind outcome_bind].
  change (SortFunc _ (fc_Devices f)) with (sort_key fd_DeviceID (fc_Devices f)). rewrite (sort_key_id _ _ H1), (watcher_id _ H7).
  rewrite (clamp_id _ H5), (clamp_id _ H6). destruct f as [i la ft pa ty de re en del pe v pau ma wr ca]. cbn in *.
  f_equal. f_equal.
  - destruct ty; try done. cbn. by rewrite H11.
  - by destruct v.
  - by destruct ma.
  - destruct (Z.leb_spec wr 0); [lia|]. by destruct (Z.ltb_spec maxConcurrentWritesLimit wr); [lia|].
  - by destruct (Z.ltb_spec ca 0); [lia|].
Qed.

(** ** Devices *)

Lemma cfg_fold_insert_lookup {A} (key : A -> bytes) (xs : list A) (m : gmap bytes A) id d : NoDup (map key xs) ->
  fold_left (fun m x => <[key x := x]> m) xs m !! id = Some d <->
  (d ∈ xs /\ key d = id) \/ (id ∉ map key xs /\ m !! id = Some d).
Proof.
  revert m. induction xs as [|x xs IH]; intros m Hn; cbn.
  { split; [intros ?; right; split; [apply not_elem_of_nil|done]|]. intros [ [H _]|[_ H] ]; [by apply not_elem_of_nil in H|done]. }
  apply list.NoDup_cons in Hn as [Hx Hn]. rewrite (IH _ Hn), elem_of_cons, not_elem_of_cons. split.
  - intros [ [? ?]|[Hid H] ]; [left; auto|]. apply lookup_insert_Some in H as [ [<- <-]|[? ?] ]; [left; auto|right; auto].
  - intros [ [ [->|?] Hk]|[ [? ?] ?] ]; [right|left; auto|right].
    + rewrite <- Hk. split; [done|apply lookup_insert_eq].
    + split; [done|]. by rewrite lookup_insert_ne.
Qed.
Lemma existing_lookup ds id d : NoDup (map dc_DeviceID ds) -> existing_devices ds !! id = Some d <-> d ∈ ds /\ dc_DeviceID d = id.
Proof.
  intros Hn. unfold existing_devices. rewrite (cfg_fold_insert_lookup dc_DeviceID) by done. split; [|by left].
  intros [?|[_ H] ]; [done|]. by rewrite lookup_empty in H.
Qed.
Lemma prepareDeviceList_spec ds :
  NoDup (map dc_DeviceID (prepareDeviceList ds)) /\ EmptyDeviceID ∉ map dc_DeviceID (prepareDeviceList ds) /\
  StronglySorted (key_le dc_DeviceID) (prepareDeviceList ds) /\ (forall d, d ∈ prepareDeviceList ds -> d ∈ ds) /\
  (forall id, id ∈ map dc_DeviceID ds -> id <> EmptyDeviceID -> id ∈ map dc_DeviceID (prepareDeviceList ds)).
Proof.
  destruct (dedup_spec dc_DeviceID empty_name (length ds) ∅ ds) as (H1 & H2 & H3); [done|].
  rewrite <- noDuplicateOrEmpty_dedup in H1, H2, H3.
  assert (prepareDeviceList ds ≡ₚ ensureNoDuplicateOrEmptyIDDevices ds) as Hp by apply SortFunc_perm.
  rewrite (Permutation_map dc_DeviceID Hp). split; [done|]. split; [|split; [apply (sort_key_sorted dc_DeviceID)|split] ].
  - intros (d & Ed & Hd)%list_elem_of_fmap. destruct (H2 d Hd) as (_ & _ & Hb). unfold empty_name in Hb.
    by rewrite <- Ed, bool_decide_eq_true_2 in Hb.
  - intros d Hd. rewrite Hp in Hd. by apply H2.
  - intros id Hid Hne. rewrite (Permutation_map dc_DeviceID Hp). apply H3; [done|set_solver|]. by apply bool_decide_eq_false.
Qed.
Lemma prepareDeviceList_id ds : NoDup (map dc_DeviceID ds) -> EmptyDeviceID ∉ map dc_DeviceID ds ->
  StronglySorted (key_le dc_DeviceID) ds -> prepareDeviceList ds = ds.
Proof.
  intros Hn He Hs. unfold prepareDeviceList. rewrite noDuplicateOrEmpty_dedup, (dedup_id dc_DeviceID empty_name); [|done|].
  - by apply (sort_key_id dc_DeviceID).
  - apply Forall_forall. intros d Hd. apply bool_decide_eq_false. intros E. apply He. rewrite <- E. by apply list_elem_of_fmap_2.
Qed.

(** ** The folders *)

Definition names_ok (f : FolderConfiguration) : Prop := fc_ID f <> [] /\ fc_Path f <> [].
(** The folders each device shares. *)
Definition shared_in (dev folder : bytes) (sharedFolders : gmap bytes (list bytes)) : Prop :=
  folder ∈ default [] (sharedFolders !! dev).
Lemma share_fold folder ds shared dev x :
  shared_in dev x (fold_left (share folder) ds shared) <-> shared_in dev x shared \/ (x = folder /\ dev ∈ map fd_DeviceID ds).
Proof.
  revert shared. induction ds as [|d ds IH]; intros shared; cbn.
  { split; [by left|]. intros [?|[_ H] ]; [done|by apply not_elem_of_nil in H]. }
  rewrite IH, elem_of_cons. unfold shared_in, share. destruct (decide (dev = fd_DeviceID d)) as [->|Hne].
  - rewrite lookup_insert_eq. cbn. rewrite elem_of_app, list_elem_of_singleton. tauto.
  - rewrite lookup_insert_ne by done. tauto.
Qed.

Lemma prepareFolders_loop_spec myID m (Hme : myID = EmptyDeviceID \/ is_Some (m !! myID)) seen shared fs :
  match prepareFolders_loop myID m seen shared fs with
  | Ret (fs', shared') =>
      Forall2 (fun f f' => folder_prepare myID m f = Ret f') fs fs' /\ Forall names_ok fs /\
      NoDup (map fc_ID fs) /\ (forall f, f ∈ fs -> fc_ID f ∉ seen) /\
      (forall dev x, shared_in dev x shared' <-> shared_in dev x shared \/ exists f', f' ∈ fs' /\ fc_ID f' = x /\ dev ∈ DeviceIDs f')
  | Err _ => ~ (Forall names_ok fs /\ NoDup (map fc_ID fs) /\ (forall f, f ∈ fs -> fc_ID f ∉ seen))
  | _ => False
  end.
Proof.
  revert seen shared. induction fs as [|f fs IH]; intros seen shared; cbn.
  { split; [constructor|]. split; [done|]. split; [constructor|]. split; [intros f Hf; by apply not_elem_of_nil in Hf|].
    intros dev x. split; [intros ?; by left|]. intros [?|(f' & H & _)]; [done|by apply not_elem_of_nil in H]. }
  destruct (is_nil (fc_ID f)) eqn:E1.
  { intros [ [ [H _] _]%Forall_cons_iff _]. by destruct (fc_ID f). }
  destruct (is_nil (fc_Path f)) eqn:E2.
  { intros [ [ [_ H] _]%Forall_cons_iff _]. by destruct (fc_Path f). }
  case_bool_decide as E3. { intros (_ & _ & H). by apply (H f); [left|]. }
  destruct (folder_prepare_ok myID m f Hme) as (f' & Hf & _ & Hid & _). rewrite Hf. cbn [mbind outcome_bind].
  specialize (IH ({[fc_ID f']} ∪ seen) (fold_left (share (fc_ID f')) (fc_Devices f') shared)). rewrite Hid in IH |- *.
  destruct (prepareFolders_loop _ _ _ _ fs) as [ [fs' shared']|e| |]; cbn; try done.
  - destruct IH as (H1 & H2 & H3 & H4 & H5). split; [by constructor|]. split.
    { constructor; [|done]. split; [by intros E; rewrite E in E1|by intros E; rewrite E in E2]. }
    split; [|split].
    + constructor; [|done]. intros (g & Eg & Hg)%list_elem_of_fmap. specialize (H4 g Hg). set_solver.
    + intros g [->|Hg]%elem_of_cons; [done|]. specialize (H4 g Hg). set_solver.
    + intros dev x. rewrite H5, share_fold. split.
      * intros [ [?|[-> ?] ]|(g & ? & ? & ?)]; [by left|right; exists f'; split; [left|done]|right; exists g; split; [by right|done] ].
      * intros [?|(g & [->|Hg]%elem_of_cons & Ex & Hd)]; [by left; left|left; right; split; [congruence|done]|right; eauto].
  - intros (H1 & H2 & H3). apply IH. apply Forall_cons_iff in H1 as [_ H1]. apply list.NoDup_cons in H2 as [H2 H2'].
    split; [done|]. split; [done|]. intros g Hg [E%elem_of_singleton|E]%elem_of_union.
    + apply H2. rewrite <- E. by apply list_elem_of_fmap_2.
    + by apply (H3 g); [right|].
Qed.
Lemma prepareFolders_loop_id myID m seen shared fs :
  Forall (fun f => folder_prepare myID m f = Ret f) fs -> Forall names_ok fs -> NoDup (map fc_ID fs) ->
  (forall f, f ∈ fs -> fc_ID f ∉ seen) -> exists shared', prepareFolders_loop myID m seen shared fs = Ret (fs, shared').
Proof.
  revert seen shared. induction fs as [|f fs IH]; intros seen shared; cbn; [by eexists|].
  intros [Hf Hfs]%Forall_cons_iff [ [Hi Hp] Hok]%Forall_cons_iff [Hn1 Hn2]%list.NoDup_cons Hs.
  destruct (fc_ID f) as [|c i] eqn:Ei; [done|]. destruct (fc_Path f) as [|c' p]; [done|]. cbn [is_nil].
  rewrite bool_decide_eq_false_2 by (rewrite <- Ei; apply Hs; left). rewrite Hf. cbn [mbind outcome_bind].
  destruct (IH ({[fc_ID f]} ∪ seen) (fold_left (share (fc_ID f)) (fc_Devices f) shared)) as (shared' & ->); try done; [|by eexists].
  intros g Hg [E%elem_of_singleton|E]%elem_of_union.
  - apply Hn1. rewrite <- Ei, <- E. by apply list_elem_of_fmap_2.
  - by apply (Hs g); [right|].
Qed.

Lemma dedupFolders_spec input :
  (forall k x, deduplicateObservedFoldersToMap input !! k = Some x -> of_ID x = k /\ x ∈ input) /\
  (NoDup (map of_ID input) -> forall x, x ∈ input -> deduplicateObservedFoldersToMap input !! of_ID x = Some x).
Proof.
  unfold deduplicateObservedFoldersToMap. set (step := fun output folder => _).
  assert (forall input (m : gmap bytes ObservedFolder), (forall k x, m !! k = Some x -> of_ID x = k) ->
    (forall k x, fold_left step input m !! k = Some x -> of_ID x = k /\ (x ∈ input \/ m !! k = Some x)) /\
    (NoDup (map of_ID input) -> (forall x, x ∈ input -> m !! of_ID x = None) ->
      (forall x, x ∈ input -> fold_left step input m !! of_ID x = Some x) /\
      (forall k, k ∉ map of_ID input -> fold_left step input m !! k = m !! k))) as H.
  { clear input. induction input as [|y input IH]; intros m Hm; cbn.
    { split; [intros k x Hx; split; [by apply Hm|by right]|]. intros _ _. split; [intros x Hx; by apply not_elem_of_nil in Hx|done]. }
    assert (step m y = m \/ step m y = <[of_ID y := y]> m) as Hstep.
    { unfold step. destruct (m !! of_ID y); [case_bool|]; auto. }
    assert (forall k x, step m y !! k = Some x -> of_ID x = k /\ (x = y \/ m !! k = Some x)) as Hs.
    { intros k x Hx. destruct Hstep as [Hst|Hst]; rewrite Hst in Hx; [by split; [apply Hm|right]|].
      apply lookup_insert_Some in Hx as [ [<- <-]|[_ Hx] ]; [by split; [|left]|by split; [apply Hm|right] ]. }
    destruct (IH (step m y)) as [IH1 IH2]; [intros k x Hx; by apply Hs|]. split.
    - intros k x Hx. destruct (IH1 k x Hx) as [? [?|Hx'] ]; [split; [done|left; by right]|].
      destruct (Hs k x Hx') as [_ [->|?] ]; [split; [done|left; left]|by split; [|right] ].
    - intros [Hy Hn]%list.NoDup_cons Hfree.
      assert (step m y = <[of_ID y := y]> m) as E by (unfold step; by rewrite (Hfree y) by left).
      destruct IH2 as [IH3 IH4]; [done| |].
      { intros x Hx. rewrite E, lookup_insert_ne by (intros Ex; apply Hy; rewrite Ex; by apply list_elem_of_fmap_2). apply Hfree. by right. }
      split.
      + intros x [->|Hx]%elem_of_cons; [|by apply IH3]. rewrite IH4 by done. rewrite E. apply lookup_insert_eq.
      + intros k [Hk1 Hk2]%not_elem_of_cons. rewrite IH4 by done. rewrite E. by apply lookup_insert_ne. }
  destruct (H input ∅) as [H1 H2]; [intros k x Hx; by rewrite lookup_empty in Hx|]. split.
  - intros k x Hx. destruct (H1 k x Hx) as [? [?|Hx'] ]; [done|]. by rewrite lookup_empty in Hx'.
  - intros Hn. apply (H2 Hn). intros x _. apply lookup_empty.
Qed.
Lemma fold_delete_lookup {A} (ks : list bytes) (m : gmap bytes A) k x :
  fold_left (fun m f => delete f m) ks m !! k = Some x <-> m !! k = Some x /\ k ∉ ks.
Proof.
  revert m. induction ks as [|k' ks IH]; intros m; cbn; [split; [intros; split; [done|apply not_elem_of_nil]|by intros [? _] ]|].
  rewrite IH, not_elem_of_cons, lookup_delete_Some. split; intros; destruct_and?; split_and?; congruence.
Qed.

(** The consistency of a device, and of a configuration. *)
Section Consistency.
Context (url_scheme : bytes -> option bytes).
Record device_ok (folders : list FolderConfiguration) (d : DeviceConfiguration) : Prop := {
  do_addresses : Forall (fun a => has_scheme url_scheme (gostr "kcp") a = false) (dc_Addresses d);
  do_untrusted : dc_Untrusted d = true -> dc_Introducer d = false /\ dc_AutoAcceptFolders d = false;
  do_ignored : NoDup (map of_ID (dc_IgnoredFolders d)) /\ StronglySorted (fun a b => of_Time a - of_Time b <= 0) (dc_IgnoredFolders d);
  do_shared : forall f, f ∈ folders -> dc_DeviceID d ∈ DeviceIDs f -> fc_ID f ∉ map of_ID (dc_IgnoredFolders d) }.
Record config_ok (myID : bytes) (cfg : Configuration) : Prop := {
  co_devices : NoDup (map dc_DeviceID (cf_Devices cfg)) /\ (EmptyDeviceID ∉ map dc_DeviceID (cf_Devices cfg)) /\
    StronglySorted (key_le dc_DeviceID) (cf_Devices cfg);
  co_me : myID <> EmptyDeviceID -> myID ∈ map dc_DeviceID (cf_Devices cfg);
  co_folders : NoDup (map fc_ID (cf_Folders cfg)) /\ Forall names_ok (cf_Folders cfg) /\ StronglySorted (key_le fc_ID) (cf_Folders cfg);
  co_folder : Forall (folder_ok myID (DeviceMap cfg)) (cf_Folders cfg);
  co_device : Forall (device_ok (cf_Folders cfg)) (cf_Devices cfg) }.
End Consistency.

(** [folder_ok] looks at which devices exist and which are untrusted. *)
Definition same_trust (m m' : gmap bytes DeviceConfiguration) : Prop :=
  forall id, dc_Untrusted <$> m !! id = dc_Untrusted <$> m' !! id.
Lemma exists_in_ext m m' d : same_trust m m' -> exists_in m d = exists_in m' d.
Proof. intros H. specialize (H (fd_DeviceID d)). unfold exists_in. by destruct (m !! _), (m' !! _). Qed.
Lemma may_share_ext t m m' d : same_trust m m' -> may_share t m d = may_share t m' d.
Proof.
  intros H. specialize (H (fd_DeviceID d)). unfold may_share. f_equal. destruct (m !! _), (m' !! _); try done. cbn in H. congruence.
Qed.
Lemma folder_ok_ext myID m m' f : same_trust m m' -> folder_ok myID m f -> folder_ok myID m' f.
Proof.
  intros H []. constructor; try done.
  - eapply Forall_impl; [exact fo_shares0|]. intros d [? ?]. by rewrite <- (exists_in_ext m m'), <- (may_share_ext _ m m').
  - intros ?. rewrite <- (may_share_ext _ m m') by done. by apply fo_self0.
Qed.

Section Config.
Context (iter : forall A, gmap bytes A -> list (bytes * A)) (url_scheme : bytes -> option bytes).
Abbreviation device_ok := (device_ok url_scheme).
Abbreviation config_ok := (config_ok url_scheme).
Abbreviation prepare := (prepare iter url_scheme).
(** A device after [prepareDevices] and [removeDeprecatedProtocols]. *)
Definition device_prepared (shared : list bytes) (d : DeviceConfiguration) : DeviceConfiguration :=
  device_protocols url_scheme (device_prepare iter shared d).
Definition devices_prepared (shared : gmap bytes (list bytes)) (ds : list DeviceConfiguration) : list DeviceConfiguration :=
  map (device_protocols url_scheme) (prepareDevices iter shared ds).
Lemma devices_prepared_map shared ds :
  devices_prepared shared ds = map (fun d => device_prepared (default [] (shared !! dc_DeviceID d)) d) ds.
Proof. unfold devices_prepared, prepareDevices. by rewrite map_map. Qed.
Hypothesis iter_perm : forall A (m : gmap bytes A), iter A m ≡ₚ map_to_list m.

Lemma sortedObserved_perm m : sortedObservedFolderSlice iter m ≡ₚ map snd (map_to_list m).
Proof. unfold sortedObservedFolderSlice. rewrite SortFunc_perm. apply Permutation_map, iter_perm. Qed.
Lemma time_sorted l : StronglySorted (fun a b => of_Time a - of_Time b <= 0) (SortFunc (fun a b => of_Time a - of_Time b) l).
Proof. apply (SortFunc_sorted (fun a b => of_Time a - of_Time b)); intros; lia. Qed.

Lemma device_prepare_ok shared folders d :
  (forall f, f ∈ folders -> dc_DeviceID d ∈ DeviceIDs f -> fc_ID f ∈ shared) -> device_ok folders (device_prepared shared d).
Proof.
  intros Hsh. unfold device_prepared, device_prepare. set (m := fold_left _ shared _).
  assert (forall x, x ∈ sortedObservedFolderSlice iter m -> m !! of_ID x = Some x) as Hin.
  { intros x Hx. rewrite sortedObserved_perm in Hx. apply list_elem_of_fmap in Hx as ([k y] & -> & Hk). apply elem_of_map_to_list in Hk. cbn.
    pose proof (proj1 (proj1 (fold_delete_lookup _ _ _ _) Hk)) as Hk'. apply dedupFolders_spec in Hk' as [E _]. by rewrite E. }
  constructor; cbn.
  - apply Forall_forall. intros a [_ Ha]%list_elem_of_In%filter_In. by apply negb_true_iff in Ha.
  - by intros ->.
  - split; [|apply time_sorted]. rewrite (Permutation_map of_ID (sortedObserved_perm m)). rewrite map_map.
    erewrite map_ext_in; [apply (NoDup_fst_map_to_list m)|]. intros [k x] Hk. cbn.
    apply list_elem_of_In, elem_of_map_to_list in Hk. pose proof (proj1 (proj1 (fold_delete_lookup _ _ _ _) Hk)) as Hk'.
    by apply dedupFolders_spec in Hk' as [E _].
  - intros f Hf Hd (x & Ex & Hx)%list_elem_of_fmap. apply Hin, fold_delete_lookup in Hx as [_ Hx]. apply Hx. rewrite <- Ex. by apply Hsh.
Qed.
(** Where a device has no address left, the next preparation gives it one. *)
Lemma device_prepare_id shared folders d : device_ok folders d -> NoDup (map of_Time (dc_IgnoredFolders d)) ->
  dc_Addresses d <> [] /\ dc_Addresses d <> [ [] ] ->
  (forall x, x ∈ shared -> exists f, f ∈ folders /\ fc_ID f = x /\ dc_DeviceID d ∈ DeviceIDs f) -> device_prepared shared d = d.
Proof.
  intros [Hads Hu [Hn Hs] Hd] Ht [Ha1 Ha2] Hsh. unfold device_prepared, device_prepare. set (m := fold_left _ shared _).
  assert (sortedObservedFolderSlice iter m ≡ₚ dc_IgnoredFolders d) as Hp.
  { rewrite sortedObserved_perm. assert (NoDup (dc_IgnoredFolders d)) as Hn' by (by eapply NoDup_fmap_1).
    apply NoDup_Permutation; [|done|].
    - apply NoDup_fmap_2_strong; [|apply NoDup_map_to_list]. intros [k x] [k' x'] Hk Hk' E. cbn in E. subst x'.
      apply elem_of_map_to_list, fold_delete_lookup in Hk as [Hk _], Hk' as [Hk' _].
      apply dedupFolders_spec in Hk as [<- _], Hk' as [<- _]. done.
    - intros x. split.
      + intros ([k y] & -> & Hk)%list_elem_of_fmap. apply elem_of_map_to_list, fold_delete_lookup in Hk as [Hk _].
        by apply dedupFolders_spec in Hk as [_ ?].
      + intros Hx. apply list_elem_of_fmap. exists (of_ID x, x). split; [done|]. apply elem_of_map_to_list, fold_delete_lookup.
        split; [by apply dedupFolders_spec|]. intros Hin. destruct (Hsh _ Hin) as (f & Hf & E & Hdev).
        apply (Hd f Hf Hdev). rewrite E. by apply list_elem_of_fmap_2. }
  assert (sortedObservedFolderSlice iter m = dc_IgnoredFolders d) as ->.
  { apply (sorted_unique (fun a b => of_Time a - of_Time b)); [| |done|done].
    - intros a b Ha Hb Hab Hba. rewrite Hp in Ha, Hb. apply list_elem_of_lookup in Ha as [i Hi], Hb as [j Hj].
      assert (i = j) as ->; [|congruence]. eapply NoDup_lookup; [exact Ht| |]; rewrite list_lookup_fmap; [by rewrite Hi|]. rewrite Hj. cbn. f_equal. lia.
    - apply time_sorted. }
  assert ((if is_nil (dc_Addresses d) || bool_decide (dc_Addresses d = [ [] ]) then [gostr "dynamic"] else dc_Addresses d) = dc_Addresses d) as ->.
  { destruct (dc_Addresses d); [done|]. by rewrite bool_decide_eq_false_2. }
  unfold device_protocols. cbn -[filterURLSchemePrefix gostr].
  assert (filterURLSchemePrefix url_scheme (dc_Addresses d) (gostr "kcp") = dc_Addresses d) as ->.
  { apply forallb_filter_id, forallb_forall. intros a Hin%list_elem_of_In. apply negb_true_iff.
    by apply (proj1 (Forall_forall _ _) Hads). }
  destruct d as [i n a c ce intr skip by_ p auto ig mr u]. cbn in *.
  destruct u; [|done]. by destruct (Hu eq_refl) as [-> ->].
Qed.

Definition device_list (myName myID : bytes) (cfg : Configuration) : list DeviceConfiguration :=
  prepareDeviceList (cf_Devices (ensureMyDevice myName myID cfg)).
Lemma me_existing myName myID cfg :
  myID = EmptyDeviceID \/ is_Some (existing_devices (device_list myName myID cfg) !! myID).
Proof.
  destruct (decide (myID = EmptyDeviceID)) as [?|Hne]; [by left|right].
  destruct (prepareDeviceList_spec (cf_Devices (ensureMyDevice myName myID cfg))) as (H1 & _ & _ & _ & H5).
  assert (myID ∈ map dc_DeviceID (cf_Devices (ensureMyDevice myName myID cfg))) as Hin.
  { unfold ensureMyDevice. rewrite bool_decide_eq_false_2 by done. destruct (existsb _ _) eqn:E.
    - by apply (existsb_id dc_DeviceID).
    - cbn. rewrite map_app. apply elem_of_app. right. by apply list_elem_of_singleton. }
  specialize (H5 _ Hin Hne). apply list_elem_of_fmap in H5 as (d & Ed & Hd). exists d. by apply existing_lookup.
Qed.

Lemma fmap_ids shared ds : map dc_DeviceID (devices_prepared shared ds) = map dc_DeviceID ds.
Proof. by rewrite devices_prepared_map, map_map. Qed.
Lemma prepareDevices_trust shared ds : NoDup (map dc_DeviceID ds) ->
  same_trust (existing_devices ds) (existing_devices (devices_prepared shared ds)).
Proof.
  intros Hn id. pose proof (fmap_ids shared ds) as Hids.
  destruct (existing_devices ds !! id) as [d|] eqn:E.
  - apply existing_lookup in E as [Hd <-]; [|done].
    assert (existing_devices (devices_prepared shared ds) !! dc_DeviceID d =
      Some (device_prepared (default [] (shared !! dc_DeviceID d)) d)) as ->; [|done].
    apply existing_lookup; [by rewrite Hids|]. split; [|done].
    rewrite devices_prepared_map. by apply (list_elem_of_fmap_2 (fun d => device_prepared (default [] (shared !! dc_DeviceID d)) d)).
  - destruct (existing_devices (devices_prepared shared ds) !! id) as [d|] eqn:E'; [|done].
    apply existing_lookup in E' as [Hd <-]; [|by rewrite Hids].
    rewrite devices_prepared_map in Hd. apply list_elem_of_fmap in Hd as (d0 & -> & Hd0). cbn in E.
    by rewrite (proj2 (existing_lookup ds _ _ Hn) (conj Hd0 eq_refl)) in E.
Qed.

Lemma Forall2_keys {A} (key : A -> bytes) (R : A -> A -> Prop) l k : (forall x y, R x y -> key y = key x) -> Forall2 R l k -> map key k = map key l.
Proof. intros H. induction 1 as [|x y l k Hxy _ IH]; cbn; [done|]. by rewrite (H _ _ Hxy), IH. Qed.

Lemma prepare_ok myName myID cfg cfg' : prepare myName myID cfg = Ret cfg' -> config_ok myID cfg'.
Proof.
  unfold Config.prepare, prepareFoldersAndDevices. fold (device_list myName myID cfg). set (ds := device_list myName myID cfg).
  pose proof (me_existing myName myID cfg) as Hme. fold ds in Hme.
  destruct (prepareDeviceList_spec (cf_Devices (ensureMyDevice myName myID cfg))) as (D1 & D2 & D3 & _).
  fold (device_list myName myID cfg) in D1, D2, D3. fold ds in D1, D2, D3.
  unfold prepareFolders. set (fs := cf_Folders (ensureMyDevice myName myID cfg)).
  pose proof (prepareFolders_loop_spec myID _ Hme ∅ ∅ fs) as Hl.
  destruct (prepareFolders_loop _ _ _ _ fs) as [ [fs' shared]|e| |]; cbn; try done. intros [= <-].
  destruct Hl as (L1 & L2 & L3 & _ & L5).
  pose proof (SortFunc_perm (fun a b => bytes_compare (fc_ID a) (fc_ID b)) fs') as Hp. set (fs'' := SortFunc _ fs') in *.
  assert (forall f f', folder_prepare myID (existing_devices ds) f = Ret f' ->
    folder_ok myID (existing_devices ds) f' /\ fc_ID f' = fc_ID f /\ fc_Path f' = fc_Path f) as Hfp.
  { intros f f' Hf. destruct (folder_prepare_ok myID _ f Hme) as (f2 & Hf2 & ? & ? & ? & _). rewrite Hf in Hf2. by injection Hf2 as ->. }
  constructor; cbn [cf_Devices cf_Folders removeDeprecatedProtocols]; try fold (devices_prepared shared ds).
  - rewrite fmap_ids. split; [done|]. split; [done|].
    clear -D3. induction D3 as [|d l Hl IH Hd]; cbn; constructor; [done|]. rewrite !Forall_map. exact Hd.
  - intros Hne. destruct Hme as [?|[d Hd] ]; [done|]. rewrite fmap_ids. apply existing_lookup in Hd as [Hd <-]; [|done]. by apply list_elem_of_fmap_2.
  - rewrite (Permutation_map fc_ID Hp), (Forall2_keys fc_ID _ _ _ (fun f f' H => proj1 (proj2 (Hfp f f' H))) L1). split; [done|]. split.
    + rewrite Hp. clear -L1 L2 Hfp. induction L1 as [|f f' fs fs' Hf _ IH]; [done|]. apply Forall_cons_iff in L2 as [ [? ?] L2].
      constructor; [|by apply IH]. destruct (Hfp _ _ Hf) as (_ & Ei & Ep). split; congruence.
    + apply (sort_key_sorted fc_ID).
  - apply Forall_forall. intros f' Hf'. rewrite Hp in Hf'. apply list_elem_of_lookup in Hf' as [i Hi].
    destruct (Forall2_lookup_r _ _ _ _ _ L1 Hi) as (f & _ & Hf). apply Hfp in Hf as [Hok _].
    eapply folder_ok_ext; [|exact Hok]. by apply prepareDevices_trust.
  - apply Forall_forall. intros d' Hd'. rewrite devices_prepared_map in Hd'. apply list_elem_of_fmap in Hd' as (d & -> & Hd). apply device_prepare_ok. intros f Hf Hdev. rewrite Hp in Hf.
    apply L5. right. by exists f.
Qed.

(** The shares that stay, and those that are there. *)
Definition shares_kept (myID : bytes) (m : gmap bytes DeviceConfiguration) (f f' : FolderConfiguration) : Prop :=
  fc_ID f' = fc_ID f /\ fc_Type f' = fc_Type f /\
  (forall d, d ∈ fc_Devices f' -> d ∈ fc_Devices f \/ d = self_share myID) /\
  (NoDup (DeviceIDs f) -> forall d, d ∈ fc_Devices f -> exists_in m d = true -> may_share (fc_Type f) m d = true -> d ∈ fc_Devices f').
Lemma folder_prepare_kept myID m f f' : (myID = EmptyDeviceID \/ is_Some (m !! myID)) ->
  folder_prepare myID m f = Ret f' -> shares_kept myID m f f'.
Proof.
  intros Hme Hf. destruct (folder_prepare_ok myID m f Hme) as (f2 & Hf2 & _ & H1 & _ & H2 & H3). rewrite Hf in Hf2. injection Hf2 as <-.
  destruct (shares_spec myID m (fc_Devices f) Hme) as (_ & _ & S3 & _ & S5). split; [done|]. split; [done|]. split.
  - intros d Hd. rewrite H3, list_elem_of_In, filter_In, <- list_elem_of_In in Hd. destruct Hd as [Hd _].
    destruct (S3 d Hd) as [ [? _]|?]; [by left|by right].
  - unfold DeviceIDs. intros Hn d Hd Hex Hm. destruct (S5 d Hd Hex) as (d' & Hs & Hd' & E).
    assert (d' = d) as ->.
    { apply list_elem_of_lookup in Hd as [i Hi], Hd' as [j Hj]. assert (i = j) as ->; [|congruence].
      eapply NoDup_lookup; [exact Hn| |]; rewrite list_lookup_fmap; [by rewrite Hi|]. rewrite Hj. cbn. by rewrite E. }
    by rewrite H3, list_elem_of_In, filter_In, <- list_elem_of_In.
Qed.
Lemma prepare_keeps myName myID cfg cfg' : prepare myName myID cfg = Ret cfg' ->
  (forall id, id ∈ map dc_DeviceID (cf_Devices cfg) -> id <> EmptyDeviceID -> id ∈ map dc_DeviceID (cf_Devices cfg')) /\
  (forall f, f ∈ cf_Folders cfg -> exists f', f' ∈ cf_Folders cfg' /\ shares_kept myID (DeviceMap cfg') f f').
Proof.
  unfold Config.prepare, prepareFoldersAndDevices. fold (device_list myName myID cfg). set (ds := device_list myName myID cfg).
  pose proof (me_existing myName myID cfg) as Hme. fold ds in Hme.
  destruct (prepareDeviceList_spec (cf_Devices (ensureMyDevice myName myID cfg))) as (D1 & _ & _ & _ & D5).
  fold (device_list myName myID cfg) in D1, D5. fold ds in D1, D5.
  assert (cf_Folders (ensureMyDevice myName myID cfg) = cf_Folders cfg) as Ef by (unfold ensureMyDevice; by repeat case_match).
  unfold prepareFolders. rewrite Ef. pose proof (prepareFolders_loop_spec myID _ Hme ∅ ∅ (cf_Folders cfg)) as Hl.
  destruct (prepareFolders_loop _ _ _ _ _) as [ [fs' shared]|e| |]; cbn; try done. intros [= <-].
  destruct Hl as (L1 & _). cbn [cf_Devices cf_Folders removeDeprecatedProtocols]. fold (devices_prepared shared ds). split.
  - intros id Hid Hne. rewrite fmap_ids. apply D5; [|done]. unfold ensureMyDevice. repeat case_match; try done.
    cbn. rewrite map_app. apply elem_of_app. by left.
  - intros f Hf. apply list_elem_of_lookup in Hf as [i Hi]. destruct (Forall2_lookup_l _ _ _ _ _ L1 Hi) as (f' & Hi' & Hf').
    exists f'. split; [rewrite SortFunc_perm; by eapply list_elem_of_lookup_2|].
    destruct (folder_prepare_kept myID _ f f' Hme Hf') as (K1 & K2 & K3 & K4). split; [done|]. split; [done|]. split; [done|].
    pose proof (prepareDevices_trust shared ds D1) as Ht. intros Hn d Hd Hex Hm. change (DeviceMap _) with (existing_devices (devices_prepared shared ds)) in Hex, Hm.
    apply K4; [done|done| |]; [by rewrite (exists_in_ext _ _ d Ht)|by rewrite (may_share_ext _ _ _ d Ht)].
Qed.

(** C18: A configuration of the current version that was prepared, for whatever
    [url.Parse] makes of addresses, is consistent: devices and folders have
    different names that are not empty and are sorted; every folder is shared
    once with each of its devices, all of which exist, with ourselves if we have
    an ID, and never in the clear with an untrusted device; intervals and limits
    are in range; untrusted devices neither introduce others nor have their
    folders accepted; no device ignores a folder it shares; and no address of a
    device is of a protocol that is gone (there may be no address left, see
    [kcp_only]).  Every device with an ID and every folder stays, with its type
    and, if its shares were different, every share that is allowed, and no share
    is new but our own. *)
Theorem prepare_consistent myName myID cfg cfg' (Hp : prepare myName myID cfg = Ret cfg') :
  config_ok myID cfg' /\
  (forall id, id ∈ map dc_DeviceID (cf_Devices cfg) -> id <> EmptyDeviceID -> id ∈ map dc_DeviceID (cf_Devices cfg')) /\
  (forall f, f ∈ cf_Folders cfg -> exists f', f' ∈ cf_Folders cfg' /\ shares_kept myID (DeviceMap cfg') f f').
Proof. split; [by eapply prepare_ok|by eapply prepare_keeps]. Qed.

(** Preparing fails only for folders without a name or path, and of the same
    name. *)
Theorem prepare_fails myName myID cfg :
  match prepare myName myID cfg with
  | Ret _ => Forall names_ok (cf_Folders cfg) /\ NoDup (map fc_ID (cf_Folders cfg))
  | Err _ => ~ (Forall names_ok (cf_Folders cfg) /\ NoDup (map fc_ID (cf_Folders cfg)))
  | _ => False
  end.
Proof.
  unfold Config.prepare, prepareFoldersAndDevices, prepareFolders.
  pose proof (prepareFolders_loop_spec myID _ (me_existing myName myID cfg) ∅ ∅ (cf_Folders (ensureMyDevice myName myID cfg))) as Hl.
  unfold device_list in Hl. assert (cf_Folders (ensureMyDevice myName myID cfg) = cf_Folders cfg) as Ef.
  { unfold ensureMyDevice. by repeat case_match. }
  rewrite Ef in *. destruct (prepareFolders_loop _ _ _ _ _) as [ [fs' shared]|e| |]; cbn; try done.
  - by destruct Hl as (_ & ? & ? & _).
  - intros [? ?]. apply Hl. split; [done|]. split; [done|]. intros. apply not_elem_of_empty.
Qed.

(** Preparing a configuration that was prepared changes nothing, where no
    device ignored two folders at the same time and every device has an address: saving and reading the
    configuration, and changes that change nothing, are stable. *)
Theorem prepare_idempotent myName myID cfg cfg' (Hp : prepare myName myID cfg = Ret cfg')
    (Htimes : Forall (fun d => NoDup (map of_Time (dc_IgnoredFolders d))) (cf_Devices cfg'))
    (Haddr : Forall (fun d => dc_Addresses d <> [] /\ dc_Addresses d <> [ [] ]) (cf_Devices cfg')) :
  prepare myName myID cfg' = Ret cfg'.
Proof.
  destruct (prepare_ok _ _ _ _ Hp) as [ (D1 & D2 & D3) Hme (F1 & F2 & F3) Hf Hd].
  assert (ensureMyDevice myName myID cfg' = cfg') as He.
  { unfold ensureMyDevice. case_bool_decide as E; [done|]. by rewrite (proj2 (existsb_id dc_DeviceID _ _) (Hme E)). }
  unfold Config.prepare. rewrite He. unfold prepareFoldersAndDevices, prepareFolders. rewrite (prepareDeviceList_id _ D1 D2 D3).
  assert (myID = EmptyDeviceID \/ is_Some (existing_devices (cf_Devices cfg') !! myID)) as Hm.
  { destruct (decide (myID = EmptyDeviceID)) as [?|Hne]; [by left|right]. specialize (Hme Hne).
    apply list_elem_of_fmap in Hme as (d & Ed & Hin). exists d. by apply existing_lookup. }
  pose proof (prepareFolders_loop_spec myID _ Hm ∅ ∅ (cf_Folders cfg')) as Hl.
  destruct (prepareFolders_loop_id myID (existing_devices (cf_Devices cfg')) ∅ ∅ (cf_Folders cfg')) as (shared & Hs); [|done|done| |].
  { eapply Forall_impl; [exact Hf|]. intros f. by apply folder_prepare_id. }
  { intros f _. apply not_elem_of_empty. }
  rewrite Hs in Hl |- *. destruct Hl as (_ & _ & _ & _ & L5). cbn.
  change (SortFunc _ (cf_Folders cfg')) with (sort_key fc_ID (cf_Folders cfg')). rewrite (sort_key_id _ _ F3).
  unfold removeDeprecatedProtocols. cbn. fold (devices_prepared shared (cf_Devices cfg')).
  assert (devices_prepared shared (cf_Devices cfg') = cf_Devices cfg') as ->; [|by destruct cfg'].
  rewrite devices_prepared_map. rewrite <- (map_id (cf_Devices cfg')) at 2. apply map_ext_in. intros d Hin%list_elem_of_In.
  rewrite Forall_forall in Hd, Htimes, Haddr. eapply device_prepare_id; [by apply Hd|by apply Htimes|by apply Haddr|].
  intros x Hx. destruct (proj1 (L5 (dc_DeviceID d) x) Hx) as [Hx'|Hx']; [|done].
  unfold shared_in in Hx'. rewrite lookup_empty in Hx'. by apply not_elem_of_nil in Hx'.
Qed.
End Config.

(** *** An example: an untrusted device, a device that is gone, a share twice *)

Definition ex_iter (A : Type) (m : gmap bytes A) : list (bytes * A) := map_to_list m.
(** What comes before a colon. *)
Definition ex_scheme (a : bytes) : option bytes :=
  Some (match list_find (fun c => c = x3a) a with Some (i, _) => take i a | None => [] end).
Definition ex_share (id pw : bytes) : FolderDeviceConfiguration :=
  {| fd_DeviceID := id; fd_IntroducedBy := EmptyDeviceID; fd_EncryptionPassword := pw |}.
Definition ex_folder : FolderConfiguration :=
  {| fc_ID := gostr "docs"; fc_Label := []; fc_FilesystemType := 0; fc_Path := gostr "/d"; fc_Type := FolderTypeSendReceive;
     fc_Devices := [ex_share (gostr "gone") []; ex_share (gostr "peer") []; ex_share (gostr "vault") []; ex_share (gostr "peer") []];
     fc_RescanIntervalS := -1; fc_FSWatcherEnabled := true; fc_FSWatcherDelayS := S754_zero false; fc_IgnorePerms := false;
     fc_Versioning := Versioning_Reset; fc_Paused := false; fc_MarkerName := []; fc_MaxConcurrentWrites := 0;
     fc_DigestCacheEntries := 0 |}.
Definition ex_device (id : bytes) (untrusted : bool) : DeviceConfiguration :=
  {| dc_DeviceID := id; dc_Name := []; dc_Addresses := []; dc_Compression := 0; dc_CertName := []; dc_Introducer := true;
     dc_SkipIntroductionRemovals := false; dc_IntroducedBy := EmptyDeviceID; dc_Paused := false; dc_AutoAcceptFolders := true;
     dc_IgnoredFolders := [{| of_Time := 1; of_ID := gostr "docs"; of_Label := [] |}]; dc_MaxRequestKiB := 0; dc_Untrusted := untrusted |}.
Definition ex_config : Configuration :=
  {| cf_Folders := [ex_folder]; cf_Devices := [ex_device (gostr "vault") true; ex_device (gostr "peer") false] |}.
Definition ex_prepared : Configuration :=
  match prepare ex_iter ex_scheme (gostr "host") (gostr "me") ex_config with Ret c => c | _ => ex_config end.
Lemma ex_prepared_eq : prepare ex_iter ex_scheme (gostr "host") (gostr "me") ex_config = Ret ex_prepared.
Proof. vm_compute. reflexivity. Qed.
Lemma prepare_consistent_witness :
  map DeviceIDs (cf_Folders ex_prepared) = [ [gostr "me"; gostr "peer"] ] /\ config_ok ex_scheme (gostr "me") ex_prepared.
Proof.
  split; [vm_compute; reflexivity|].
  exact (proj1 (prepare_consistent ex_iter ex_scheme (fun _ _ => Permutation_refl _) (gostr "host") (gostr "me") ex_config ex_prepared ex_prepared_eq)).
Defined.
Lemma prepare_idempotent_witness : prepare ex_iter ex_scheme (gostr "host") (gostr "me") ex_prepared = Ret ex_prepared.
Proof.
  apply (prepare_idempotent ex_iter ex_scheme (fun _ _ => Permutation_refl _) (gostr "host") (gostr "me") ex_config).
  - exact ex_prepared_eq.
  - repeat constructor; apply not_elem_of_nil.
  - repeat constructor; vm_compute; discriminate.
Defined.

(** A device whose only addresses are of a protocol that is gone is left
    without an address; the default comes with the next preparation. *)
Definition kcp_device : DeviceConfiguration :=
  {| dc_DeviceID := gostr "peer"; dc_Name := []; dc_Addresses := [gostr "kcp://h"]; dc_Compression := 0; dc_CertName := [];
     dc_Introducer := false; dc_SkipIntroductionRemovals := false; dc_IntroducedBy := EmptyDeviceID; dc_Paused := false;
     dc_AutoAcceptFolders := false; dc_IgnoredFolders := []; dc_MaxRequestKiB := 0; dc_Untrusted := false |}.
Lemma kcp_only :
  let addresses := fun c : outcome config_err Configuration =>
    match c with Ret c => Some (dc_Addresses <$> List.find (fun d => bool_decide (dc_DeviceID d = gostr "peer")) (cf_Devices c)) | _ => None end in
  let once := prepare ex_iter ex_scheme (gostr "host") (gostr "me") {| cf_Folders := []; cf_Devices := [kcp_device] |} in
  addresses once = Some (Some []) /\
  addresses (c ← once; prepare ex_iter ex_scheme (gostr "host") (gostr "me") c) = Some (Some [gostr "dynamic"]).
Proof. vm_compute. split; reflexivity. Qed.
