(* ===== verification/ConfigWrapper.v ===== *)
(** * Changing the configuration (lib/config/wrapper.go)

    The queue of changes and the loop that carries them out one after the other:
    a change works on a copy, is prepared, shown to the subscribers that verify
    it, put into effect and then handed to every subscriber.  Saving and its
    timer are left out; whether the loop goes on is the choice of the step that
    is next. *)
From Stdlib Require Import ZArith List Lia.
From Stdlib Require Import Floats.SpecFloat.
From Stdlib Require Import Strings.Byte.
From stdpp Require Import base list option gmap numbers tactics.
From S2P Require Import Prelude GoLib FolderScan Config.

#[local] Open Scope Z_scope.

(** ** [reflect.DeepEqual] *)

#[export] Instance spec_float_eq_dec : EqDecision spec_float.
Proof. solve_decision. Defined.
#[export] Instance ObservedFolder_eq_dec : EqDecision ObservedFolder.
Proof. solve_decision. Defined.
#[export] Instance FolderDeviceConfiguration_eq_dec : EqDecision FolderDeviceConfiguration.
Proof. solve_decision. Defined.
#[export] Instance VersioningConfiguration_eq_dec : EqDecision VersioningConfiguration.
Proof. solve_decision. Defined.
#[export] Instance FolderConfiguration_eq_dec : EqDecision FolderConfiguration.
Proof. solve_decision. Defined.
#[export] Instance DeviceConfiguration_eq_dec : EqDecision DeviceConfiguration.
Proof. solve_decision. Defined.
#[export] Instance Configuration_eq_dec : EqDecision Configuration.
Proof. solve_decision. Defined.

Definition set_label_delay (label : bytes) (delay : spec_float) (f : FolderConfiguration) : FolderConfiguration :=
  {| fc_ID := fc_ID f; fc_Label := label; fc_FilesystemType := fc_FilesystemType f; fc_Path := fc_Path f; fc_Type := fc_Type f;
     fc_Devices := fc_Devices f; fc_RescanIntervalS := fc_RescanIntervalS f; fc_FSWatcherEnabled := fc_FSWatcherEnabled f;
     fc_FSWatcherDelayS := delay; fc_IgnorePerms := fc_IgnorePerms f; fc_Versioning := fc_Versioning f;
     fc_Paused := fc_Paused f; fc_MarkerName := fc_MarkerName f; fc_MaxConcurrentWrites := fc_MaxConcurrentWrites f;
     fc_DigestCacheEntries := fc_DigestCacheEntries f |}.
(** Numbers are compared as Go does; a nil list is the empty one here. *)
Definition DeepEqual (f g : FolderConfiguration) : bool :=
  bool_decide (set_label_delay (fc_Label f) (S754_zero false) f = set_label_delay (fc_Label g) (S754_zero false) g) &&
  SFeqb (fc_FSWatcherDelayS f) (fc_FSWatcherDelayS g).
Fixpoint all2 {A} (f : A -> A -> bool) (l k : list A) : bool :=
  match l, k with [], [] => true | x :: l, y :: k => f x y && all2 f l k | _, _ => false end.
Definition same_config (a b : Configuration) : bool :=
  bool_decide (cf_Devices a = cf_Devices b) && all2 DeepEqual (cf_Folders a) (cf_Folders b).

(** ** The wrapper *)

Definition maxModifications : nat := 1000%nat.
Inductive wrapper_err := Unprepared (e : config_err) | Rejected (by_ : bytes) | errTooManyModifications.

(** A subscriber, by its name: whether it rejects a change, if it is a
    [Verifier], and whether it could handle the change without a restart. *)
Record Committer := { String_ : bytes; Verifier : option (Configuration -> Configuration -> bool); Handled : Configuration -> Configuration -> bool }.
(** What the subscribers see. *)
Inductive notice := Subscribed (sub : bytes) (cfg : Configuration) | Committed (sub : bytes) (from to : Configuration).
Abbreviation ModifyFunction := (Configuration -> Configuration).
Record wrapper := {
  w_cfg : Configuration; queue : list ModifyFunction; subs : list Committer; requiresRestart : bool;
  notices : list notice }.

Section Wrapper.
Context (iter : forall A, gmap bytes A -> list (bytes * A)) (url_scheme : bytes -> option bytes) (myName myID : bytes).

Definition Wrap (cfg : Configuration) : wrapper := {| w_cfg := cfg; queue := []; subs := []; requiresRestart := false; notices := [] |}.
Definition Subscribe (c : Committer) (w : wrapper) : wrapper :=
  {| w_cfg := w_cfg w; queue := queue w; subs := subs w ++ [c]; requiresRestart := requiresRestart w;
     notices := notices w ++ [Subscribed (String_ c) (w_cfg w)] |}.
Fixpoint remove_sub (c : bytes) (subs : list Committer) : list Committer :=
  match subs with [] => [] | s :: subs => if bool_decide (String_ s = c) then subs else s :: remove_sub c subs end.
Definition Unsubscribe (c : bytes) (w : wrapper) : wrapper :=
  {| w_cfg := w_cfg w; queue := queue w; subs := remove_sub c (subs w); requiresRestart := requiresRestart w; notices := notices w |}.

(** A call waits for its answer in the queue, or is refused at once. *)
Definition modifyQueued (fn : ModifyFunction) (w : wrapper) : wrapper + wrapper_err :=
  if (length (queue w) <? maxModifications)%nat then
    inl {| w_cfg := w_cfg w; queue := queue w ++ [fn]; subs := subs w; requiresRestart := requiresRestart w; notices := notices w |}
  else inr errTooManyModifications.
Fixpoint remove_first {A} (id : A -> bytes) (x : bytes) (l : list A) : list A :=
  match l with [] => [] | y :: l => if bool_decide (id y = x) then l else y :: remove_first id x l end.
Definition RemoveDevice (id : bytes) : ModifyFunction := fun cfg =>
  {| cf_Folders := cf_Folders cfg; cf_Devices := remove_first dc_DeviceID id (cf_Devices cfg) |}.
Definition RemoveFolder (id : bytes) : ModifyFunction := fun cfg =>
  {| cf_Folders := remove_first fc_ID id (cf_Folders cfg); cf_Devices := cf_Devices cfg |}.

(** The first subscriber that rejects a change. *)
Fixpoint verify (subs : list Committer) (from to : Configuration) : option bytes :=
  match subs with
  | [] => None
  | s :: subs =>
      match Verifier s with
      | Some rejects => if rejects from to then Some (String_ s) else verify subs from to
      | None => verify subs from to
      end
  end.
Definition notifyListeners (from to : Configuration) (w : wrapper) : wrapper :=
  {| w_cfg := w_cfg w; queue := queue w; subs := subs w;
     requiresRestart := requiresRestart w || existsb (fun s => negb (Handled s from to)) (subs w);
     notices := notices w ++ map (fun s => Committed (String_ s) from to) (subs w) |}.
Definition replaceLocked (to : Configuration) (w : wrapper) : wrapper * option wrapper_err :=
  let from := w_cfg w in
  match prepare iter url_scheme myName myID to with
  | Ret to =>
      match verify (subs w) from to with
      | Some s => (w, Some (Rejected s))
      | None =>
          let w := {| w_cfg := to; queue := queue w; subs := subs w; requiresRestart := requiresRestart w; notices := notices w |} in
          (notifyListeners from to w, None)
      end
  | Err e => (w, Some (Unprepared e))
  | _ => (w, None)
  end.
(** One round of the loop: the next change of the queue. *)
Definition Serve (w : wrapper) : wrapper * option wrapper_err :=
  match queue w with
  | [] => (w, None)
  | fn :: queue =>
      let w := {| w_cfg := w_cfg w; queue := queue; subs := subs w; requiresRestart := requiresRestart w; notices := notices w |} in
      let to := fn (w_cfg w) in
      if same_config (w_cfg w) to then (w, None) else replaceLocked to w
  end.
(** What a change comes to, if it is not refused. *)
Definition changed (refused : Configuration -> Configuration -> bool) (from to : Configuration) : Configuration :=
  if same_config from to then from
  else match prepare iter url_scheme myName myID to with Ret to => if refused from to then from else to | _ => from end.
End Wrapper.
