(* ===== verification/ConfigWrapperProps.v ===== *)
(** * Changing the configuration: theorems

    The configuration in effect is always a prepared one, and every subscriber
    knows it: the changes it was told, one after the other, lead from the
    configuration it was given to the one in effect. *)
From Stdlib Require Import ZArith List Lia.
From Stdlib Require Import Strings.Byte.
From stdpp Require Import base list option gmap numbers tactics.
From S2P Require Import Prelude GoLib FolderScan Config ConfigProps ConfigWrapper.

#[local] Open Scope Z_scope.

(** What a subscriber knows of the configuration: nothing, if it did not
    subscribe or a change did not start from what it knows. *)
Definition learn (sub : bytes) (known : option Configuration) (n : notice) : option Configuration :=
  match n with
  | Subscribed s cfg => if bool_decide (s = sub) then Some cfg else known
  | Committed s from to => if bool_decide (s = sub) then (if decide (known = Some from) then Some to else None) else known
  end.
Definition known (sub : bytes) (ns : list notice) : option Configuration := fold_left (learn sub) ns None.

Section Wrapper.
Context (iter : forall A, gmap bytes A -> list (bytes * A)) (url_scheme : bytes -> option bytes) (myName myID : bytes).
Hypothesis iter_rows : forall A (m : gmap bytes A), iter A m ≡ₚ map_to_list m.
Abbreviation serve := (Serve iter url_scheme myName myID).

Inductive step : wrapper -> wrapper -> Prop :=
  | step_subscribe c w : String_ c ∉ map String_ (subs w) -> step w (Subscribe c w)
  | step_unsubscribe c w : step w (Unsubscribe c w)
  | step_modify fn w w' : modifyQueued fn w = inl w' -> step w w'
  | step_serve w : step w (serve w).1.
Inductive reachable (cfg : Configuration) : wrapper -> Prop :=
  | reach_start : reachable cfg (Wrap cfg)
  | reach_step w w' : reachable cfg w -> step w w' -> reachable cfg w'.

Record wrapper_ok (w : wrapper) : Prop := {
  wo_cfg : config_ok url_scheme myID (w_cfg w);
  wo_subs : NoDup (map String_ (subs w));
  wo_known : forall s, s ∈ map String_ (subs w) -> known s (notices w) = Some (w_cfg w);
  wo_queue : (length (queue w) <= maxModifications)%nat }.

Lemma remove_sub_sublist c l : map String_ (remove_sub c l) `sublist_of` map String_ l.
Proof.
  induction l as [|s l IH]; cbn; [done|]. case_bool_decide; [by apply sublist_cons|by apply sublist_skip].
Qed.
Lemma known_app s ns n : known s (ns ++ [n]) = learn s (known s ns) n.
Proof. unfold known. by rewrite fold_left_app. Qed.
(** A round of notices for subscribers of different names. *)
Lemma learn_round s from to l k : NoDup l ->
  fold_left (learn s) (map (fun c => Committed c from to) l) k =
    if bool_decide (s ∈ l) then (if decide (k = Some from) then Some to else None) else k.
Proof.
  revert k. induction l as [|c l IH]; intros k Hn; cbn [map fold_left]; [done|]. apply list.NoDup_cons in Hn as [Hc Hn]. rewrite IH by done. cbn [learn].
  destruct (decide (c = s)) as [->|Hne].
  - rewrite (bool_decide_eq_true_2 (s = s)) by done. rewrite bool_decide_eq_false_2 by done. by rewrite bool_decide_eq_true_2 by (by left).
  - rewrite (bool_decide_eq_false_2 (c = s)) by done. rewrite (bool_decide_ext (s ∈ c :: l) (s ∈ l)); [done|]. rewrite elem_of_cons.
    split; [by intros [->|?]|by right].
Qed.
Lemma serve_ok w : wrapper_ok w -> wrapper_ok (serve w).1.
Proof.
  intros [H1 H2 H3 H4]. unfold Serve. destruct (queue w) as [|fn q] eqn:Eq; [constructor; cbn [fst]; rewrite ?Eq; done || apply Nat.le_0_l|]. cbn [length] in H4.
  assert (wrapper_ok {| w_cfg := w_cfg w; queue := q; subs := subs w; requiresRestart := requiresRestart w; notices := notices w |}) as Hw
    by (constructor; cbn; try done; lia).
  cbv zeta. cbn [w_cfg]. destruct (same_config _ _); [done|]. unfold replaceLocked.
  destruct (prepare iter url_scheme myName myID (fn (w_cfg w))) as [to|e| |] eqn:Ep; try done. cbn [subs w_cfg].
  destruct (verify _ _ _); [done|]. constructor; cbn; [by eapply prepare_ok|done| |lia].
  intros s Hs. unfold known. rewrite fold_left_app. replace (map _ (subs w)) with (map (fun c => Committed c (w_cfg w) to) (map String_ (subs w))) by apply map_map.
  rewrite learn_round by done. rewrite bool_decide_eq_true_2 by done. by rewrite decide_True by by apply H3.
Qed.
Lemma wrapper_step_ok w w' : step w w' -> wrapper_ok w -> wrapper_ok w'.
Proof.
  intros Hs Hw. destruct Hs as [c w Hc|c w|fn w w' Hm|w]; [| | |by apply serve_ok].
  - destruct Hw as [H1 H2 H3 H4]. constructor; cbn [Subscribe w_cfg queue subs notices]; [done| | |done].
    + rewrite map_app. apply list.NoDup_app. split; [done|]. split; [|apply NoDup_singleton]. by intros x Hx ->%list_elem_of_singleton.
    + intros s. rewrite map_app, elem_of_app, known_app. cbn [map learn]. intros [Hs| ->%list_elem_of_singleton]; [|by rewrite bool_decide_eq_true_2].
      rewrite bool_decide_eq_false_2; [by apply H3|]. by intros <-.
  - destruct Hw as [H1 H2 H3 H4]. pose proof (remove_sub_sublist c (subs w)) as Hsub. constructor; cbn; [done| | |done].
    + eapply sublist_NoDup; [exact H2|exact Hsub].
    + intros s Hs. apply H3. eapply elem_of_submseteq; [exact Hs|]. by apply sublist_submseteq.
  - unfold modifyQueued in Hm. destruct (_ <? _)%nat eqn:El; [|done]. injection Hm as <-. destruct Hw as [H1 H2 H3 H4]. constructor; cbn; try done.
    rewrite length_app. cbn. apply Nat.ltb_lt in El. lia.
Qed.

(** C19: From a consistent configuration on, whatever changes are queued and
    carried out and whoever subscribes, under a name that is not in use, or
    unsubscribes, in whatever order: the configuration in effect is consistent in
    the sense of [prepare_consistent], every subscriber knows it (it was given
    one when it subscribed, and each change it was told of starts from what it
    knew then), and no more changes wait than the queue holds. *)
Theorem subscribers_follow cfg w (Hc : config_ok url_scheme myID cfg) (Hr : reachable cfg w) :
  config_ok url_scheme myID (w_cfg w) /\ (forall s, s ∈ map String_ (subs w) -> known s (notices w) = Some (w_cfg w)) /\ (length (queue w) <= maxModifications)%nat.
Proof.
  assert (wrapper_ok w) as [? ? ? ?]; [|done]. induction Hr as [|w w' Hr IH Hs]; [|by eapply wrapper_step_ok].
  constructor; cbn; [done|constructor| |lia]. intros s Hx. by apply not_elem_of_nil in Hx.
Qed.

(** A change that was answered without an error is in effect, prepared, if it
    differs at all; one that failed has changed nothing. *)
Theorem change_answered w fn q : queue w = fn :: q ->
  match serve w with
  | (w', None) => w_cfg w' = changed iter url_scheme myName myID (fun _ _ => false) (w_cfg w) (fn (w_cfg w))
  | (w', Some _) => w_cfg w' = w_cfg w /\ notices w' = notices w
  end.
Proof.
  intros Eq. unfold Serve, changed. rewrite Eq. cbv zeta. cbn [w_cfg]. destruct (same_config _ _); [done|]. unfold replaceLocked.
  destruct (prepare _ _ _ _); try done. cbn [subs w_cfg]. by destruct (verify _ _ _).
Qed.
Lemma changed_ok refused from to : config_ok url_scheme myID from -> config_ok url_scheme myID (changed iter url_scheme myName myID refused from to).
Proof.
  intros Hf. unfold changed. destruct (same_config _ _); [done|]. destruct (prepare iter url_scheme myName myID to) as [c|e| |] eqn:Ep; try done.
  destruct (refused _ _); [done|]. by eapply prepare_ok.
Qed.
End Wrapper.

(** *** An example: two changes, one of which is rejected *)

Definition ex_sub : Committer :=
  {| String_ := gostr "model"; Verifier := Some (fun _ to => is_nil (cf_Folders to)); Handled := fun _ _ => true |}.
Definition ex_queued : wrapper :=
  {| w_cfg := ex_prepared; queue := [RemoveDevice (gostr "vault"); RemoveFolder (gostr "docs")]; subs := [ex_sub]; requiresRestart := false;
     notices := [Subscribed (gostr "model") ex_prepared] |}.
Definition ex_run : wrapper := (Serve ex_iter ex_scheme (gostr "host") (gostr "me") (Serve ex_iter ex_scheme (gostr "host") (gostr "me") ex_queued).1).1.
Lemma ex_reachable : reachable ex_iter ex_scheme (gostr "host") (gostr "me") ex_prepared ex_run.
Proof.
  unfold ex_run. do 2 (eapply reach_step; [|apply step_serve]).
  apply reach_step with {| w_cfg := ex_prepared; queue := [RemoveDevice (gostr "vault")]; subs := [ex_sub]; requiresRestart := false;
    notices := [Subscribed (gostr "model") ex_prepared] |}; [|by apply (step_modify _ _ _ _ (RemoveFolder (gostr "docs")))].
  apply reach_step with (Subscribe ex_sub (Wrap ex_prepared)); [|by apply (step_modify _ _ _ _ (RemoveDevice (gostr "vault")))].
  eapply reach_step; [apply reach_start|]. apply step_subscribe. apply not_elem_of_nil.
Qed.
Lemma subscribers_follow_witness :
  map dc_DeviceID (cf_Devices (w_cfg ex_run)) = [gostr "me"; gostr "peer"] /\ map fc_ID (cf_Folders (w_cfg ex_run)) = [gostr "docs"] /\
  known (gostr "model") (notices ex_run) = Some (w_cfg ex_run).
Proof.
  split; [vm_compute; reflexivity|]. split; [vm_compute; reflexivity|].
  destruct (subscribers_follow ex_iter ex_scheme (gostr "host") (gostr "me") (fun _ _ => Permutation_refl _) ex_prepared ex_run
    (prepare_ok ex_iter ex_scheme (fun _ _ => Permutation_refl _) _ _ _ _ ex_prepared_eq) ex_reachable) as (_ & Hk & _).
  assert (map String_ (subs ex_run) = [gostr "model"]) as Es by (vm_compute; reflexivity). apply Hk. rewrite Es. left.
Defined.
