(* ===== verification/ClusterConfigs.v ===== *)
(** * Cluster configurations (lib/model/model.go)

    What a device is told of the folders it shares, the agreement on encryption,
    the folders and devices that an introducer adds and takes back, and folders
    that are accepted without a question.  The configuration is that of [Config];
    the answers of the database are parameters. *)
From Stdlib Require Import ZArith List Lia.
From Stdlib Require Import Strings.Byte.
From stdpp Require Import base list option gmap numbers tactics.
From S2P Require Import Prelude GoLib Disk Connection EncryptedNames Encryption FolderScan Config.

#[local] Open Scope Z_scope.

(** ** Devices and folders of a message *)

Record clusterConfigDeviceInfo := { local : Device; remote : Device }.
(** The zero device of Go. *)
Definition no_device : Device :=
  {| ID := EmptyDeviceID; DName := []; Addresses := []; DCompression := 0; CertName := []; MaxSequence := 0; Introducer := false;
     IndexID := 0; SkipIntroductionRemovals := false; EncryptionPasswordToken := [] |}.
Definition no_info : clusterConfigDeviceInfo := {| local := no_device; remote := no_device |}.

Inductive cc_err :=
  | errDeviceUnknown | errMissingRemoteInClusterConfig | errMissingLocalInClusterConfig
  | errEncryptionInvConfigLocal | errEncryptionInvConfigRemote | errEncryptionNotEncryptedLocal
  | errEncryptionPlainForReceiveEncrypted | errEncryptionPlainForRemoteEncrypted | errEncryptionNotEncryptedUntrusted
  | errEncryptionPassword | errEncryptionTokenRead | errEncryptionTokenWrite | KeyErr (e : enc_err).
#[export] Instance enc_err_eq_dec : EqDecision enc_err.
Proof. solve_decision. Defined.
#[export] Instance cc_err_eq_dec : EqDecision cc_err.
Proof. solve_decision. Defined.

(** The loop over the devices of a folder ends when both are known. *)
Definition set_info (myID deviceID : bytes) (info : clusterConfigDeviceInfo) (dev : Device) : clusterConfigDeviceInfo :=
  if bool_decide (ID dev = myID) then {| local := dev; remote := remote info |}
  else if bool_decide (ID dev = deviceID) then {| local := local info; remote := dev |}
  else info.
Fixpoint device_info (myID deviceID : bytes) (info : clusterConfigDeviceInfo) (devs : list Device) : clusterConfigDeviceInfo :=
  match devs with
  | [] => info
  | dev :: devs =>
      let info := set_info myID deviceID info dev in
      if negb (bool_decide (ID (local info) = EmptyDeviceID)) && negb (bool_decide (ID (remote info) = EmptyDeviceID)) then info
      else device_info myID deviceID info devs
  end.
Fixpoint device_infos (myID deviceID : bytes) (folders : list Folder) (ccDeviceInfos : gmap bytes clusterConfigDeviceInfo) :
  outcome cc_err (gmap bytes clusterConfigDeviceInfo) :=
  match folders with
  | [] => Ret ccDeviceInfos
  | folder :: folders =>
      let info := device_info myID deviceID no_info (Devices folder) in
      if bool_decide (ID (remote info) = EmptyDeviceID) then Err errMissingRemoteInClusterConfig
      else if bool_decide (ID (local info) = EmptyDeviceID) then Err errMissingLocalInClusterConfig
      else device_infos myID deviceID folders (<[FID folder := info]> ccDeviceInfos)
  end.

(** ** Encryption *)

(** The token on disk, below the folder's marker. *)
Record storedEncryptionToken := { st_FolderID : bytes; st_Token : bytes }.
Definition EncryptionTokenName : bytes := gostr "syncthing-encryption_password_token".
(** The folder's root and the name below it. *)
Definition encryptionTokenPath (fcfg : FolderConfiguration) : bytes * (bytes * bytes) :=
  (fc_Path fcfg, (fc_MarkerName fcfg, EncryptionTokenName)).

Section Agreement.
Context `{Crypto} {CF CK : Type} `{Cache CF (bytes * bytes) bytes} `{Cache CK (bytes * bytes) bytes}.
Abbreviation KeyGenerator := (@KeyGenerator CF CK).
(** Reading or writing a token fails for another reason than that it is missing. *)
Context (readFails writeFails : bytes -> bool).

Record ccState :=
  { cc_keyGen : KeyGenerator; folderEncryptionPasswordTokens : gmap bytes bytes;
    tokenFiles : gmap (bytes * (bytes * bytes)) storedEncryptionToken;
    resent : list (list bytes) (* the devices that were sent a cluster configuration again *) }.
Abbreviation CC := (SM ccState cc_err).

Definition with_keyGen {A} (m : SM KeyGenerator enc_err A) : CC A := fun s =>
  let set g := {| cc_keyGen := g; folderEncryptionPasswordTokens := folderEncryptionPasswordTokens s; tokenFiles := tokenFiles s;
                  resent := resent s |} in
  match m (cc_keyGen s) with
  | (g, Ret a) => (set g, Ret a)
  | (g, Err e) => (set g, Err (KeyErr e))
  | (g, Panic) => (set g, Panic)
  | (g, OutOfFuel) => (set g, OutOfFuel)
  end.
Definition set_token (folder token : bytes) : CC unit := smodify (fun s =>
  {| cc_keyGen := cc_keyGen s; folderEncryptionPasswordTokens := <[folder := token]> (folderEncryptionPasswordTokens s);
     tokenFiles := tokenFiles s; resent := resent s |}).
Definition sendClusterConfig (ids : list bytes) : CC unit := smodify (fun s =>
  {| cc_keyGen := cc_keyGen s; folderEncryptionPasswordTokens := folderEncryptionPasswordTokens s; tokenFiles := tokenFiles s;
     resent := resent s ++ [ids] |}).
(** [None]: the file is missing. *)
Definition readEncryptionToken (fcfg : FolderConfiguration) : CC (option bytes) := fun s =>
  if readFails (fc_ID fcfg) then (s, Err errEncryptionTokenRead)
  else (s, Ret (st_Token <$> tokenFiles s !! encryptionTokenPath fcfg)).
Definition writeEncryptionToken (token : bytes) (fcfg : FolderConfiguration) : CC unit := fun s =>
  if writeFails (fc_ID fcfg) then (s, Err errEncryptionTokenWrite)
  else
    ({| cc_keyGen := cc_keyGen s; folderEncryptionPasswordTokens := folderEncryptionPasswordTokens s;
        tokenFiles := <[encryptionTokenPath fcfg := {| st_FolderID := fc_ID fcfg; st_Token := token |}]> (tokenFiles s);
        resent := resent s |}, Ret tt).

Definition check_token (token ccToken : bytes) : CC unit :=
  if bool_decide (token = ccToken) then mret tt else sfail errEncryptionPassword.
Definition ccCheckEncryption (fcfg : FolderConfiguration) (folderDevice : FolderDeviceConfiguration)
    (ccDeviceInfos : clusterConfigDeviceInfo) (deviceUntrusted : bool) : CC unit :=
  let hasTokenRemote := negb (is_nil (EncryptionPasswordToken (remote ccDeviceInfos))) in
  let hasTokenLocal := negb (is_nil (EncryptionPasswordToken (local ccDeviceInfos))) in
  let isEncryptedRemote := negb (is_nil (fd_EncryptionPassword folderDevice)) in
  let isEncryptedLocal := isEncrypted (fc_Type fcfg) in
  if negb isEncryptedRemote && negb isEncryptedLocal && deviceUntrusted then sfail errEncryptionNotEncryptedUntrusted
  else if negb (hasTokenRemote || hasTokenLocal || isEncryptedRemote || isEncryptedLocal) then mret tt
  else if isEncryptedRemote && isEncryptedLocal then sfail errEncryptionInvConfigLocal
  else if hasTokenRemote && hasTokenLocal then sfail errEncryptionInvConfigRemote
  else if negb (hasTokenRemote || hasTokenLocal) then
    if isEncryptedRemote then sfail errEncryptionPlainForRemoteEncrypted else sfail errEncryptionPlainForReceiveEncrypted
  else if negb (isEncryptedRemote || isEncryptedLocal) then sfail errEncryptionNotEncryptedLocal
  else
    let ccToken := EncryptionPasswordToken (if hasTokenLocal then local ccDeviceInfos else remote ccDeviceInfos) in
    if isEncryptedRemote then
      passwordToken ← with_keyGen (PasswordToken (fc_ID fcfg) (fd_EncryptionPassword folderDevice));
      check_token passwordToken ccToken
    else
      s ← sget;
      match folderEncryptionPasswordTokens s !! fc_ID fcfg with
      | Some token => check_token token ccToken
      | None =>
          token ← readEncryptionToken fcfg;
          match token with
          | Some token => _ ← set_token (fc_ID fcfg) token; check_token token ccToken
          | None =>
              _ ← writeEncryptionToken ccToken fcfg;
              _ ← set_token (fc_ID fcfg) ccToken;
              sendClusterConfig (DeviceIDs fcfg)
          end
      end.

(** ** What a device is told *)

(** [GetIndexID] and [GetDeviceSequence] of a folder and a device; [None] is the
    local device. *)
Context (GetIndexID GetDeviceSequence : bytes -> option bytes -> Z).
Context (myID : bytes) (cfg : Configuration).

Definition FolderStopReasonRunning : Z := 0.
(** The zero configuration stands for a device that is not configured. *)
Definition device_cfg (id : bytes) : DeviceConfiguration := default (new_device EmptyDeviceID []) (Configuration_Device id cfg).
(** The message's entry for a device of the folder, if any, and the password that goes with it. *)
Definition folder_device (device : bytes) (token : option bytes) (folderCfg : FolderConfiguration)
    (folderDevice : FolderDeviceConfiguration) : SM KeyGenerator enc_err (option (Device * option bytes)) :=
  let deviceCfg := device_cfg (fd_DeviceID folderDevice) in
  let entry tok pw := mret (Some
    ({| ID := dc_DeviceID deviceCfg; DName := dc_Name deviceCfg; Addresses := dc_Addresses deviceCfg;
        DCompression := dc_Compression deviceCfg; CertName := dc_CertName deviceCfg;
        MaxSequence := GetDeviceSequence (fc_ID folderCfg) (if bool_decide (dc_DeviceID deviceCfg = myID) then None else Some (dc_DeviceID deviceCfg));
        Introducer := dc_Introducer deviceCfg;
        IndexID := GetIndexID (fc_ID folderCfg) (if bool_decide (dc_DeviceID deviceCfg = myID) then None else Some (dc_DeviceID deviceCfg));
        SkipIntroductionRemovals := false; EncryptionPasswordToken := tok |}, pw)) in
  match (if bool_decide (dc_DeviceID deviceCfg = myID) then token else None) with
  | Some tok => entry tok None
  | None =>
      if negb (is_nil (fd_EncryptionPassword folderDevice)) then
        if bool_decide (fd_DeviceID folderDevice = device) then
          tok ← PasswordToken (fc_ID folderCfg) (fd_EncryptionPassword folderDevice);
          entry tok (Some (fd_EncryptionPassword folderDevice))
        else mret None
      else entry [] None
  end.
Fixpoint folder_devices (device : bytes) (token : option bytes) (folderCfg : FolderConfiguration)
    (folderDevices : list FolderDeviceConfiguration) (passwords : gmap bytes bytes) :
  SM KeyGenerator enc_err (list Device * gmap bytes bytes) :=
  match folderDevices with
  | [] => mret ([], passwords)
  | d :: folderDevices =>
      e ← folder_device device token folderCfg d;
      match e with
      | None => folder_devices device token folderCfg folderDevices passwords
      | Some (dev, pw) =>
          r ← folder_devices device token folderCfg folderDevices
                (match pw with Some pw => <[fc_ID folderCfg := pw]> passwords | None => passwords end);
          mret (dev :: r.1, r.2)
      end
  end.
Fixpoint cluster_folders (device : bytes) (tokens : gmap bytes bytes) (folders : list FolderConfiguration) (passwords : gmap bytes bytes) :
  SM KeyGenerator enc_err (list Folder * gmap bytes bytes) :=
  match folders with
  | [] => mret ([], passwords)
  | folderCfg :: folders =>
      let encryptionToken := tokens !! fc_ID folderCfg in
      if negb (SharedWith device folderCfg) then cluster_folders device tokens folders passwords
      else if isEncrypted (fc_Type folderCfg) && negb (match encryptionToken with Some _ => true | None => false end) then
        cluster_folders device tokens folders passwords
      else
        ds ← folder_devices device encryptionToken folderCfg (fc_Devices folderCfg) passwords;
        r ← cluster_folders device tokens folders ds.2;
        mret ({| FID := fc_ID folderCfg; Label := fc_Label folderCfg; FType := 0;
                 StopReason := if fc_Paused folderCfg then FolderStopReasonPaused else FolderStopReasonRunning;
                 Devices := ds.1 |} :: r.1, r.2)
  end.
Definition generateClusterConfig (device : bytes) (tokens : gmap bytes bytes) : SM KeyGenerator enc_err (ClusterConfig * gmap bytes bytes) :=
  r ← cluster_folders device tokens (cf_Folders cfg) ∅;
  mret ({| Folders := r.1; Secondary := false |}, r.2).
End Agreement.

(** ** Introducers *)

(** [folderDeviceSet]: the devices of every folder. *)
Abbreviation folderDeviceSet := (gmap bytes (gset bytes)).
Definition fds_set (dev folder : bytes) (s : folderDeviceSet) : folderDeviceSet := <[folder := {[dev]} ∪ default ∅ (s !! folder)]> s.
Definition fds_has (dev folder : bytes) (s : folderDeviceSet) : bool := bool_decide (dev ∈ default ∅ (s !! folder)).
Definition hasDevice (dev : bytes) (s : folderDeviceSet) : bool := existsb (fun kv : bytes * gset bytes => bool_decide (dev ∈ kv.2)) (map_to_list s).

Definition dynamic : bytes := gostr "dynamic".
Definition introduceDevice (DefaultDevice : DeviceConfiguration) (device : Device) (introducerCfg : DeviceConfiguration) : DeviceConfiguration :=
  let d := DefaultDevice in
  {| dc_DeviceID := ID device; dc_Name := DName device;
     dc_Addresses := dynamic :: List.filter (fun addr => negb (bool_decide (addr = dynamic))) (Addresses device);
     dc_Compression := dc_Compression introducerCfg; dc_CertName := CertName device;
     dc_Introducer := if Introducer device then true else dc_Introducer d;
     dc_SkipIntroductionRemovals := if Introducer device then SkipIntroductionRemovals device else dc_SkipIntroductionRemovals d;
     dc_IntroducedBy := dc_DeviceID introducerCfg; dc_Paused := dc_Paused d; dc_AutoAcceptFolders := dc_AutoAcceptFolders d;
     dc_IgnoredFolders := dc_IgnoredFolders d; dc_MaxRequestKiB := dc_MaxRequestKiB d; dc_Untrusted := dc_Untrusted d |}.

Section Introductions.
Context (myID : bytes) (DefaultDevice introducerCfg : DeviceConfiguration).
Abbreviation folder_map := (gmap bytes FolderConfiguration).
Abbreviation device_map := (gmap bytes DeviceConfiguration).

(** A token that is missing from the message is empty. *)
Definition introduced_share (id : bytes) : FolderDeviceConfiguration :=
  {| fd_DeviceID := id; fd_IntroducedBy := dc_DeviceID introducerCfg; fd_EncryptionPassword := [] |}.
Fixpoint introduce_devices (folderID : bytes) (devs : list Device) (fcfg : FolderConfiguration) (devices : device_map)
    (foldersDevices : folderDeviceSet) (folderChanged : bool) : FolderConfiguration * device_map * folderDeviceSet * bool :=
  match devs with
  | [] => (fcfg, devices, foldersDevices, folderChanged)
  | device :: devs =>
      if bool_decide (ID device = myID) then introduce_devices folderID devs fcfg devices foldersDevices folderChanged
      else
        let foldersDevices := fds_set (ID device) folderID foldersDevices in
        let known := match devices !! ID device with Some _ => true | None => false end in
        let devices := if known then devices else <[ID device := introduceDevice DefaultDevice device introducerCfg]> devices in
        if known && SharedWith (ID device) fcfg then introduce_devices folderID devs fcfg devices foldersDevices folderChanged
        else if negb (isEncrypted (fc_Type fcfg)) && negb (is_nil (EncryptionPasswordToken device)) then
          introduce_devices folderID devs fcfg devices foldersDevices folderChanged
        else introduce_devices folderID devs (set_Devices (fc_Devices fcfg ++ [introduced_share (ID device)]) fcfg) devices foldersDevices true
  end.
Fixpoint introduce_folders (cm : list Folder) (folders : folder_map) (devices : device_map) (foldersDevices : folderDeviceSet)
    (changed : bool) : folder_map * device_map * folderDeviceSet * bool :=
  match cm with
  | [] => (folders, devices, foldersDevices, changed)
  | folder :: cm =>
      match folders !! FID folder with
      | None => introduce_folders cm folders devices foldersDevices changed
      | Some fcfg =>
          let '(fcfg, devices, foldersDevices, folderChanged) :=
            introduce_devices (FID folder) (Devices folder) fcfg devices foldersDevices false in
          if folderChanged then introduce_folders cm (<[fc_ID fcfg := fcfg]> folders) devices foldersDevices true
          else introduce_folders cm folders devices foldersDevices changed
      end
  end.
Definition handleIntroductions (cm : ClusterConfig) (folders : folder_map) (devices : device_map) :
  folder_map * device_map * folderDeviceSet * bool := introduce_folders (Folders cm) folders devices ∅ false.

(** A share that the introducer took back. *)
Definition taken_back (foldersDevices : folderDeviceSet) (folderID : bytes) (d : FolderDeviceConfiguration) : bool :=
  bool_decide (fd_IntroducedBy d = dc_DeviceID introducerCfg) && negb (fds_has (fd_DeviceID d) folderID foldersDevices).
(** The devices that stay, those that are shared without the introducer, and
    whether one goes. *)
Fixpoint unshare (foldersDevices : folderDeviceSet) (folderID : bytes) (ds : list FolderDeviceConfiguration) :
  list FolderDeviceConfiguration * gset bytes * bool :=
  match ds with
  | [] => ([], ∅, false)
  | d :: ds =>
      let '(kept, devicesNotIntroduced, changed) := unshare foldersDevices folderID ds in
      if negb (bool_decide (fd_IntroducedBy d = dc_DeviceID introducerCfg)) then
        (d :: kept, {[fd_DeviceID d]} ∪ devicesNotIntroduced, changed)
      else if negb (fds_has (fd_DeviceID d) folderID foldersDevices) then (kept, devicesNotIntroduced, true)
      else (d :: kept, devicesNotIntroduced, changed)
  end.
(** The loops over the maps do not depend on their order. *)
Definition handleDeintroductions (foldersDevices : folderDeviceSet) (folders : folder_map) (devices : device_map) :
  folder_map * device_map * bool :=
  if dc_SkipIntroductionRemovals introducerCfg then (folders, devices, false)
  else
    let unshared f := unshare foldersDevices (fc_ID f) (fc_Devices f) in
    let folders' := (fun f => set_Devices (unshared f).1.1 f) <$> folders in
    let devicesNotIntroduced : gset bytes := ⋃ map (fun kv => (unshared kv.2).1.2) (map_to_list folders) in
    let stays := fun kv : bytes * DeviceConfiguration =>
      negb (bool_decide (dc_IntroducedBy kv.2 = dc_DeviceID introducerCfg)) || hasDevice kv.1 foldersDevices ||
      bool_decide (kv.1 ∈ devicesNotIntroduced) in
    (folders', filter (fun kv => stays kv = true) devices,
     existsb (fun kv => (unshared kv.2).2) (map_to_list folders) || negb (forallb stays (map_to_list devices))).

(** Both, and whether the configuration changes. *)
Definition introductions (cm : ClusterConfig) (folders : folder_map) (devices : device_map) : folder_map * device_map * bool :=
  let '(folders, devices, foldersDevices, introduced) := handleIntroductions cm folders devices in
  let '(folders, devices, deintroduced) := handleDeintroductions foldersDevices folders devices in
  (folders, devices, introduced || deintroduced).
(** The change of the configuration when an introducer's message comes in; the
    lists are in the order in which the maps are ranged over. *)
Context (iter : forall A, gmap bytes A -> list (bytes * A)).
Arguments iter {A}.
Definition apply_introductions (cm : ClusterConfig) (cfg : Configuration) : Configuration :=
  let '(folders, devices, changed) := introductions cm (FolderMap cfg) (DeviceMap cfg) in
  if negb changed then cfg
  else {| cf_Folders := map snd (iter folders); cf_Devices := map snd (iter devices) |}.
End Introductions.

(** ** Folders that are accepted *)

Definition set_autoEncrypted (f : FolderConfiguration) : FolderConfiguration :=
  {| fc_ID := fc_ID f; fc_Label := fc_Label f; fc_FilesystemType := fc_FilesystemType f; fc_Path := fc_Path f;
     fc_Type := FolderTypeReceiveEncrypted; fc_Devices := fc_Devices f;
     fc_RescanIntervalS :=
       if negb (fc_RescanIntervalS f =? 0) then
         let minRescanInterval := 3600 * 24 in
         if fc_RescanIntervalS f <? minRescanInterval then minRescanInterval else fc_RescanIntervalS f
       else fc_RescanIntervalS f;
     fc_FSWatcherEnabled := false; fc_FSWatcherDelayS := fc_FSWatcherDelayS f; fc_IgnorePerms := fc_IgnorePerms f;
     fc_Versioning := Versioning_Reset; fc_Paused := fc_Paused f; fc_MarkerName := fc_MarkerName f;
     fc_MaxConcurrentWrites := fc_MaxConcurrentWrites f; fc_DigestCacheEntries := fc_DigestCacheEntries f |}.
Definition newFolderConfiguration (DefaultFolder : FolderConfiguration) (id label : bytes) (fsType : Z) (path : bytes) : FolderConfiguration :=
  let f := DefaultFolder in
  {| fc_ID := id; fc_Label := label; fc_FilesystemType := fsType; fc_Path := path; fc_Type := fc_Type f; fc_Devices := fc_Devices f;
     fc_RescanIntervalS := fc_RescanIntervalS f; fc_FSWatcherEnabled := fc_FSWatcherEnabled f;
     fc_FSWatcherDelayS := fc_FSWatcherDelayS f; fc_IgnorePerms := fc_IgnorePerms f; fc_Versioning := fc_Versioning f;
     fc_Paused := fc_Paused f; fc_MarkerName := fc_MarkerName f; fc_MaxConcurrentWrites := fc_MaxConcurrentWrites f;
     fc_DigestCacheEntries := fc_DigestCacheEntries f |}.

Section AutoAccept.
(** [fs.SanitizePath], [filepath.Join], and the ignore patterns of a new folder. *)
Context (SanitizePath : bytes -> bytes) (Join : bytes -> bytes -> bytes) (setIgnores : FolderConfiguration -> prog unit).
Context (defaultFolderCfg : FolderConfiguration) (deviceID : bytes) (folder : Folder) (ccDeviceInfos : clusterConfigDeviceInfo).

Definition plain_share : FolderDeviceConfiguration :=
  {| fd_DeviceID := deviceID; fd_IntroducedBy := EmptyDeviceID; fd_EncryptionPassword := [] |}.
Definition has_token : bool :=
  negb (is_nil (EncryptionPasswordToken (remote ccDeviceInfos))) || negb (is_nil (EncryptionPasswordToken (local ccDeviceInfos))).
Fixpoint accept_paths (pathAlternatives : list bytes) : prog (option FolderConfiguration) :=
  match pathAlternatives with
  | [] => mret None
  | path :: pathAlternatives =>
      info ← do_ (Lstat path);
      if match info with inl e => negb (is_not_exist e) | inr _ => true end then accept_paths pathAlternatives
      else
        err ← do_ (MkdirAll path 511);
        match err with
        | Some _ => accept_paths pathAlternatives
        | None =>
            let fullPath := Join (fc_Path defaultFolderCfg) path in
            let fcfg := newFolderConfiguration defaultFolderCfg (FID folder) (Label folder) (fc_FilesystemType defaultFolderCfg) fullPath in
            let fcfg := set_Devices (fc_Devices fcfg ++ [plain_share]) fcfg in
            if has_token then mret (Some (set_autoEncrypted fcfg))
            else _ ← setIgnores fcfg; mret (Some fcfg)
        end
  end.
Definition handleAutoAccepts (cfg : option FolderConfiguration) : prog (option FolderConfiguration) :=
  match cfg with
  | None =>
      let pathAlternatives := List.filter (fun alt => negb (is_nil alt)) [SanitizePath (Label folder); SanitizePath (FID folder)] in
      accept_paths pathAlternatives
  | Some cfg =>
      if SharedWith deviceID cfg then mret None
      else if isEncrypted (fc_Type cfg) then
        if negb has_token then mret None else mret (Some (set_Devices (fc_Devices cfg ++ [plain_share]) cfg))
      else if has_token then mret None
      else mret (Some (set_Devices (fc_Devices cfg ++ [plain_share]) cfg))
  end.
End AutoAccept.
