(* ===== verification/ClusterConfigsProps.v ===== *)
(** * What cluster configurations achieve

    Agreement on the encryption of a folder, introductions that follow the
    introducer and leave everything else alone, and accepted folders. *)
From Stdlib Require Import ZArith List Lia.
From Stdlib Require Import Strings.Byte.
From stdpp Require Import base list option gmap numbers tactics.
From S2P Require Import Prelude GoLib Disk Connection EncryptedNames Encryption EncryptionProps FolderScan Config ConfigProps ClusterConfigs.

#[local] Open Scope Z_scope.

Section Agreement.
Context `{CryptoLaws} {CF CK : Type} `{CacheLaws CF (bytes * bytes) bytes} `{CacheLaws CK (bytes * bytes) bytes}.
Context (readFails writeFails : bytes -> bool).
Abbreviation state := (@ccState CF CK).
Abbreviation check := (ccCheckEncryption (CF:=CF) (CK:=CK) readFails writeFails).

(** The token that stands for a password of a folder. *)
Definition password_token (folderID password : bytes) : bytes :=
  encryptDeterministic (knownBytes folderID) (folder_key folderID password) [].
Lemma PasswordToken_gives folder password : gives keys_ok (PasswordToken (CF:=CF) (CK:=CK) folder password) (Ret (password_token folder password)).
Proof. unfold PasswordToken. eapply gives_bind; [apply KeyFromPassword_gives|]. apply gives_ret. Qed.
Lemma password_token_length folder password : zlen (password_token folder password) = zlen (knownBytes folder) + tagSize.
Proof. unfold password_token, encryptDeterministic. apply siv_length. Qed.

Definition cc_ok (s : state) : Prop := keys_ok (cc_keyGen s).
Lemma with_keyGen_ret {A} (m : SM (@KeyGenerator CF CK) enc_err A) r s : gives keys_ok m (Ret r) -> cc_ok s ->
  exists g, with_keyGen m s = ({| cc_keyGen := g; folderEncryptionPasswordTokens := folderEncryptionPasswordTokens s;
    tokenFiles := tokenFiles s; resent := resent s |}, Ret r) /\ keys_ok g.
Proof. intros Hm Hs. unfold with_keyGen. destruct (Hm _ Hs) as (g & -> & Hg). by exists g. Qed.

(** The one token of a message, if there is exactly one. *)
Definition one_token (info : clusterConfigDeviceInfo) (t : bytes) : Prop :=
  t <> [] /\ ((EncryptionPasswordToken (local info) = t /\ EncryptionPasswordToken (remote info) = []) \/
              (EncryptionPasswordToken (local info) = [] /\ EncryptionPasswordToken (remote info) = t)).
Definition no_token (info : clusterConfigDeviceInfo) : Prop :=
  EncryptionPasswordToken (local info) = [] /\ EncryptionPasswordToken (remote info) = [].

Lemma one_token_of info : negb (is_nil (EncryptionPasswordToken (remote info))) && negb (is_nil (EncryptionPasswordToken (local info))) = false ->
  negb (is_nil (EncryptionPasswordToken (remote info))) || negb (is_nil (EncryptionPasswordToken (local info))) = true ->
  one_token info (EncryptionPasswordToken (if negb (is_nil (EncryptionPasswordToken (local info))) then local info else remote info)).
Proof.
  unfold one_token. destruct (EncryptionPasswordToken (local info)) as [|b l] eqn:E1, (EncryptionPasswordToken (remote info)) as [|b' l'] eqn:E2;
    cbn; try done; rewrite ?E1, ?E2; auto.
Qed.

(** When the check passes. *)
Definition agreed (fcfg : FolderConfiguration) (dev : FolderDeviceConfiguration) (info : clusterConfigDeviceInfo) (untrusted : bool) (s : state) : Prop :=
  (fd_EncryptionPassword dev = [] /\ isEncrypted (fc_Type fcfg) = false /\ untrusted = false /\ no_token info) \/
  (fd_EncryptionPassword dev <> [] /\ isEncrypted (fc_Type fcfg) = false /\
    one_token info (password_token (fc_ID fcfg) (fd_EncryptionPassword dev))) \/
  (fd_EncryptionPassword dev = [] /\ isEncrypted (fc_Type fcfg) = true /\
    exists t, one_token info t /\ folderEncryptionPasswordTokens s !! fc_ID fcfg = Some t).

Lemma check_agreed fcfg dev info u s s' : cc_ok s -> check fcfg dev info u s = (s', Ret tt) -> agreed fcfg dev info u s' /\ cc_ok s'.
Proof.
  intros Hs. unfold ccCheckEncryption.
  pose proof (one_token_of info) as Hone.
  destruct (negb (is_nil (EncryptionPasswordToken (remote info)))) eqn:Er, (negb (is_nil (EncryptionPasswordToken (local info)))) eqn:El;
    destruct (negb (is_nil (fd_EncryptionPassword dev))) eqn:Ep, (isEncrypted (fc_Type fcfg)) eqn:Et, u; cbn [negb orb andb] in *; try done.
  all: try (intros [= <-]; split; [left; unfold no_token; repeat split; try done;
    [by destruct (fd_EncryptionPassword dev)|by destruct (EncryptionPasswordToken (local info))|by destruct (EncryptionPasswordToken (remote info))]|done]; fail).
  all: specialize (Hone eq_refl eq_refl).
  all: try (unfold mbind at 1, sm_bind at 1;
    match goal with |- context [with_keyGen ?m ?s] =>
      destruct (with_keyGen_ret m _ s (PasswordToken_gives _ _) Hs) as (g & -> & Hg) end;
    unfold check_token; case_bool_decide as Eq; [|done]; intros [= <-]; split; [|done]; right; left;
    split; [by destruct (fd_EncryptionPassword dev)|]; split; [done|]; by rewrite Eq).
  all: assert (fd_EncryptionPassword dev = []) as Hpw by (by destruct (fd_EncryptionPassword dev)).
  all: unfold mbind, sm_bind, sget; destruct (folderEncryptionPasswordTokens s !! fc_ID fcfg) as [tok|] eqn:Htok.
  all: try (unfold check_token; case_bool_decide as Eq; [|done]; intros [= <-]; split; [|done]; right; right; split; [done|]; split; [done|];
    eexists; split; [exact Hone|]; by rewrite <- Eq).
  all: unfold readEncryptionToken; destruct (readFails (fc_ID fcfg)); [done|]; destruct (tokenFiles s !! encryptionTokenPath fcfg) as [st|]; cbn.
  all: try (unfold check_token; case_bool_decide as Eq; [|done]; intros [= <-]; split; [|done]; right; right; split; [done|]; split; [done|];
    eexists; split; [exact Hone|]; cbn; rewrite lookup_insert_eq; by rewrite Eq).
  all: unfold writeEncryptionToken; destruct (writeFails (fc_ID fcfg)); [done|]; cbn; intros [= <-]; split; [|done]; right; right; split; [done|]; split; [done|];
    eexists; split; [exact Hone|]; cbn; by rewrite lookup_insert_eq.
Qed.

(** What makes the check pass: the right token of the password, or the token that
    is stored, or none stored so far. *)
Lemma check_passes_remote fcfg dev info u s : cc_ok s -> fd_EncryptionPassword dev <> [] -> isEncrypted (fc_Type fcfg) = false ->
  one_token info (password_token (fc_ID fcfg) (fd_EncryptionPassword dev)) ->
  exists s', check fcfg dev info u s = (s', Ret tt) /\ cc_ok s' /\ folderEncryptionPasswordTokens s' = folderEncryptionPasswordTokens s.
Proof.
  intros Hs Hpw Ht [Hne Hone]. unfold ccCheckEncryption. rewrite Ht. destruct (fd_EncryptionPassword dev) as [|b pw] eqn:Ep; [done|].
  destruct (with_keyGen_ret (PasswordToken (fc_ID fcfg) (b :: pw)) _ s (PasswordToken_gives _ _) Hs) as (g & Hg & Hok).
  destruct (password_token (fc_ID fcfg) (b :: pw)) as [|c tok] eqn:Etok; [done|]. unfold mbind, sm_bind.
  destruct Hone as [ [E1 E2]|[E1 E2] ]; rewrite E1, E2; cbn [is_nil negb andb orb]; rewrite Hg, ?E1, ?E2; unfold check_token;
    rewrite bool_decide_eq_true_2 by done; (eexists; split; [done|]; split; [exact Hok|done]).
Qed.
Definition token_free (fcfg : FolderConfiguration) (t : bytes) (s : state) : Prop :=
  folderEncryptionPasswordTokens s !! fc_ID fcfg = Some t \/
  (folderEncryptionPasswordTokens s !! fc_ID fcfg = None /\ readFails (fc_ID fcfg) = false /\
    match tokenFiles s !! encryptionTokenPath fcfg with Some st => st_Token st = t | None => writeFails (fc_ID fcfg) = false end).
Lemma check_passes_local fcfg dev info u t s : cc_ok s -> fd_EncryptionPassword dev = [] -> isEncrypted (fc_Type fcfg) = true ->
  one_token info t -> token_free fcfg t s ->
  exists s', check fcfg dev info u s = (s', Ret tt) /\ cc_ok s' /\ folderEncryptionPasswordTokens s' !! fc_ID fcfg = Some t.
Proof.
  intros Hs Hpw Ht [Hne Hone] Hfree. unfold ccCheckEncryption. rewrite Ht, Hpw. destruct t as [|c t]; [done|].
  assert (exists s', (match folderEncryptionPasswordTokens s !! fc_ID fcfg with
      | Some token => check_token token (c :: t)
      | None => token ← readEncryptionToken readFails fcfg;
          match token with
          | Some token => _ ← set_token (fc_ID fcfg) token; check_token token (c :: t)
          | None => _ ← writeEncryptionToken writeFails (c :: t) fcfg; _ ← set_token (fc_ID fcfg) (c :: t); sendClusterConfig (DeviceIDs fcfg)
          end
      end) s = (s', Ret tt) /\ cc_ok s' /\ folderEncryptionPasswordTokens s' !! fc_ID fcfg = Some (c :: t)) as (s' & Es & Hok & Htok).
  { destruct Hfree as [E|(E & Hr & Hf)]; rewrite E.
    - unfold check_token. rewrite bool_decide_eq_true_2 by done. by exists s.
    - unfold mbind, sm_bind, readEncryptionToken. rewrite Hr. destruct (tokenFiles s !! _) as [st|]; cbn.
      + unfold check_token. rewrite Hf, bool_decide_eq_true_2 by done. eexists. split; [done|]. split; [done|]. apply lookup_insert_eq.
      + unfold writeEncryptionToken. rewrite Hf. eexists. split; [done|]. split; [done|]. apply lookup_insert_eq. }
  exists s'. split; [|done].
  destruct Hone as [ [E1 E2]|[E1 E2] ]; rewrite E1, E2; cbn [is_nil negb andb orb]; rewrite ?E1, ?E2; exact Es.
Qed.

(** ** What is generated, without the caches *)

Section Generate.
Context (GetIndexID GetDeviceSequence : bytes -> option bytes -> Z) (myID : bytes) (cfg : Configuration).
Abbreviation generate := (generateClusterConfig (CF:=CF) (CK:=CK) GetIndexID GetDeviceSequence myID cfg).

(** The token and the password that go with a share. *)
Definition share_token (device : bytes) (token : option bytes) (folderID : bytes) (d : FolderDeviceConfiguration) : option (bytes * option bytes) :=
  match (if bool_decide (dc_DeviceID (device_cfg cfg (fd_DeviceID d)) = myID) then token else None) with
  | Some tok => Some (tok, None)
  | None =>
      if is_nil (fd_EncryptionPassword d) then Some ([], None)
      else if bool_decide (fd_DeviceID d = device) then Some (password_token folderID (fd_EncryptionPassword d), Some (fd_EncryptionPassword d))
      else None
  end.
Definition device_entry (folderID : bytes) (d : FolderDeviceConfiguration) (tok : bytes) : Device :=
  let c := device_cfg cfg (fd_DeviceID d) in
  let who := if bool_decide (dc_DeviceID c = myID) then None else Some (dc_DeviceID c) in
  {| ID := dc_DeviceID c; DName := dc_Name c; Addresses := dc_Addresses c; DCompression := dc_Compression c; CertName := dc_CertName c;
     MaxSequence := GetDeviceSequence folderID who; Introducer := dc_Introducer c; IndexID := GetIndexID folderID who;
     SkipIntroductionRemovals := false; EncryptionPasswordToken := tok |}.
Definition ref_devices (device : bytes) (token : option bytes) (f : FolderConfiguration) : list Device :=
  omap (fun d => (fun tp => device_entry (fc_ID f) d tp.1) <$> share_token device token (fc_ID f) d) (fc_Devices f).
Definition ref_password (device : bytes) (token : option bytes) (folderID : bytes) (d : FolderDeviceConfiguration) : option bytes :=
  tp ← share_token device token folderID d; tp.2.
Definition ref_passwords (device : bytes) (token : option bytes) (f : FolderConfiguration) (pws : gmap bytes bytes) : gmap bytes bytes :=
  fold_left (fun pws pw => <[fc_ID f := pw]> pws) (omap (ref_password device token (fc_ID f)) (fc_Devices f)) pws.
(** A folder that the device is told of. *)
Definition told (device : bytes) (tokens : gmap bytes bytes) (f : FolderConfiguration) : bool :=
  SharedWith device f && negb (isEncrypted (fc_Type f) && match tokens !! fc_ID f with Some _ => false | None => true end).
Definition ref_folder (device : bytes) (tokens : gmap bytes bytes) (f : FolderConfiguration) : Folder :=
  {| FID := fc_ID f; Label := fc_Label f; FType := 0; StopReason := if fc_Paused f then FolderStopReasonPaused else FolderStopReasonRunning;
     Devices := ref_devices device (tokens !! fc_ID f) f |}.
Definition ref_config (device : bytes) (tokens : gmap bytes bytes) : ClusterConfig * gmap bytes bytes :=
  let fs := List.filter (told device tokens) (cf_Folders cfg) in
  ({| Folders := map (ref_folder device tokens) fs; Secondary := false |},
   fold_left (fun pws f => ref_passwords device (tokens !! fc_ID f) f pws) fs ∅).

Lemma folder_device_gives device token f d :
  gives keys_ok (folder_device (CF:=CF) (CK:=CK) GetIndexID GetDeviceSequence myID cfg device token f d)
    (Ret ((fun tp => (device_entry (fc_ID f) d tp.1, tp.2)) <$> share_token device token (fc_ID f) d)).
Proof.
  unfold folder_device, share_token. destruct (if bool_decide _ then token else None) as [tok|]; [apply gives_ret|].
  destruct (is_nil (fd_EncryptionPassword d)); cbn [negb]; [apply gives_ret|].
  case_bool_decide; [|apply gives_ret]. eapply gives_bind; [apply PasswordToken_gives|]. apply gives_ret.
Qed.
Lemma folder_devices_gives device token f ds pws :
  gives keys_ok (folder_devices (CF:=CF) (CK:=CK) GetIndexID GetDeviceSequence myID cfg device token f ds pws)
    (Ret (omap (fun d => (fun tp => device_entry (fc_ID f) d tp.1) <$> share_token device token (fc_ID f) d) ds,
          fold_left (fun pws pw => <[fc_ID f := pw]> pws) (omap (ref_password device token (fc_ID f)) ds) pws)).
Proof.
  revert pws. induction ds as [|d ds IH]; intros pws; cbn [folder_devices]; [apply gives_ret|].
  eapply gives_bind; [apply folder_device_gives|]. unfold ref_password. cbn [omap list_omap].
  destruct (share_token device token (fc_ID f) d) as [ [tok [pw|] ]|]; cbn; [..|apply IH].
  all: eapply gives_bind; [apply IH|]; apply gives_ret.
Qed.
Lemma cluster_folders_gives device tokens fs pws :
  gives keys_ok (cluster_folders (CF:=CF) (CK:=CK) GetIndexID GetDeviceSequence myID cfg device tokens fs pws)
    (Ret (map (ref_folder device tokens) (List.filter (told device tokens) fs),
          fold_left (fun pws f => ref_passwords device (tokens !! fc_ID f) f pws) (List.filter (told device tokens) fs) pws)).
Proof.
  revert pws. induction fs as [|f fs IH]; intros pws; cbn [cluster_folders]; [apply gives_ret|].
  cbn [List.filter].
  assert (told device tokens f = SharedWith device f && negb (isEncrypted (fc_Type f) && match tokens !! fc_ID f with Some _ => false | None => true end))
    as -> by done.
  destruct (SharedWith device f); cbn [negb andb]; [|apply IH].
  destruct (tokens !! fc_ID f) as [tok|] eqn:Et; destruct (isEncrypted (fc_Type f)); cbn [negb andb]; try apply IH.
  all: eapply gives_bind; [apply folder_devices_gives|]; cbn [fst snd]; eapply gives_bind; [apply IH|];
    cbn [map fold_left fst snd]; unfold ref_folder at 2, ref_devices; rewrite Et; apply gives_ret.
Qed.
Lemma generate_gives device tokens : gives keys_ok (generate device tokens) (Ret (ref_config device tokens)).
Proof. unfold generateClusterConfig. eapply gives_bind; [apply cluster_folders_gives|]. apply gives_ret. Qed.

Lemma told_folder device tokens f : f ∈ cf_Folders cfg -> told device tokens f = true ->
  ref_folder device tokens f ∈ Folders (ref_config device tokens).1.
Proof. intros Hf Ht. cbn. apply list_elem_of_fmap_2. rewrite list_elem_of_In, filter_In, <- list_elem_of_In. done. Qed.

Lemma device_cfg_id id : id <> EmptyDeviceID -> (exists d, dc_DeviceID (device_cfg cfg d) = id) -> is_Some (Configuration_Device id cfg).
Proof.
  intros Hne (d & E). unfold device_cfg in E. destruct (Configuration_Device d cfg) as [c|] eqn:Ec; cbn in E; [|by symmetry in E].
  pose proof (find_some _ _ Ec) as [_ Hid]. apply bool_decide_eq_true in Hid. rewrite <- E, Hid. by exists c.
Qed.
Lemma device_cfg_eq d id : id <> EmptyDeviceID -> dc_DeviceID (device_cfg cfg d) = id -> d = id.
Proof.
  intros Hne E. unfold device_cfg in E. destruct (Configuration_Device d cfg) as [c|] eqn:Ec; cbn in E; [|by symmetry in E].
  pose proof (find_some _ _ Ec) as [_ Hid]. apply bool_decide_eq_true in Hid. by rewrite <- E, Hid.
Qed.
Lemma device_cfg_some id : is_Some (Configuration_Device id cfg) -> dc_DeviceID (device_cfg cfg id) = id.
Proof.
  intros [c Ec]. unfold device_cfg. rewrite Ec. cbn. pose proof (find_some _ _ Ec) as [_ Hid]. by apply bool_decide_eq_true in Hid.
Qed.

(** The entry of a share is the only one with the device's name. *)
Lemma ref_devices_entry device token f d tok pw : NoDup (DeviceIDs f) -> d ∈ fc_Devices f ->
  fd_DeviceID d <> EmptyDeviceID -> is_Some (Configuration_Device (fd_DeviceID d) cfg) ->
  share_token device token (fc_ID f) d = Some (tok, pw) ->
  device_entry (fc_ID f) d tok ∈ ref_devices device token f /\
  (forall x, x ∈ ref_devices device token f -> ID x = fd_DeviceID d -> x = device_entry (fc_ID f) d tok).
Proof.
  intros Hn Hd Hne Hc Htok. unfold ref_devices. split.
  - apply list_elem_of_omap. exists d. split; [done|]. by rewrite Htok.
  - intros x (d' & Hd' & E)%list_elem_of_omap Hx. destruct (share_token device token (fc_ID f) d') as [ [tok' pw']|] eqn:Et; [|done].
    injection E as <-. cbn in Hx. apply device_cfg_eq in Hx; [|done].
    assert (d' = d) as ->.
    { unfold DeviceIDs in Hn. apply list_elem_of_lookup in Hd as [i Hi], Hd' as [j Hj]. assert (i = j) as ->; [|congruence].
      eapply NoDup_lookup; [exact Hn| |]; rewrite list_lookup_fmap; [by rewrite Hi|]. rewrite Hj. cbn. by rewrite Hx. }
    congruence.
Qed.

(** What a message tells is what the device may know. *)
Lemma ref_config_private device tokens :
  (forall F, F ∈ Folders (ref_config device tokens).1 -> exists f, f ∈ cf_Folders cfg /\ FID F = fc_ID f /\ SharedWith device f = true /\
    forall x, x ∈ Devices F -> exists d, d ∈ fc_Devices f /\ ID x = dc_DeviceID (device_cfg cfg (fd_DeviceID d)) /\
      (ID x = myID \/ fd_EncryptionPassword d = [] \/ fd_DeviceID d = device) /\
      (EncryptionPasswordToken x <> [] -> ID x = myID \/ (fd_DeviceID d = device /\
        EncryptionPasswordToken x = password_token (fc_ID f) (fd_EncryptionPassword d)))) /\
  (forall folder pw, (ref_config device tokens).2 !! folder = Some pw -> exists f d, f ∈ cf_Folders cfg /\ fc_ID f = folder /\
    d ∈ fc_Devices f /\ fd_DeviceID d = device /\ fd_EncryptionPassword d = pw /\ pw <> []).
Proof.
  split.
  - cbn. intros F (f & -> & Hf)%list_elem_of_fmap. rewrite list_elem_of_In, filter_In, <- list_elem_of_In in Hf. destruct Hf as [Hf Ht].
    unfold told in Ht. apply andb_true_iff in Ht as [Hsh _]. exists f. split; [done|]. split; [done|]. split; [done|]. cbn.
    intros x (d & Hd & E)%list_elem_of_omap. destruct (share_token device _ (fc_ID f) d) as [ [tok pw]|] eqn:Et; [|done].
    injection E as <-. exists d. split; [done|]. split; [done|]. cbn. unfold share_token in Et.
    case_bool_decide as Eid; [by split; [left|left]|]. destruct (is_nil (fd_EncryptionPassword d)) eqn:Ep.
    { injection Et as <- <-. split; [|done]. right. left. by destruct (fd_EncryptionPassword d). }
    case_bool_decide as Edev; [|done]. injection Et as <- <-. split; [by right; right|]. intros _. by right.
  - cbn. intros folder pw.
    assert (forall fs (pws : gmap bytes bytes), (forall f, f ∈ fs -> f ∈ cf_Folders cfg) ->
      fold_left (fun pws f => ref_passwords device (tokens !! fc_ID f) f pws) fs pws !! folder = Some pw ->
      pws !! folder = Some pw \/ exists f d, f ∈ cf_Folders cfg /\ fc_ID f = folder /\
        d ∈ fc_Devices f /\ fd_DeviceID d = device /\ fd_EncryptionPassword d = pw /\ pw <> []) as Hfold.
    { induction fs as [|f fs IH]; intros pws Hin Hl; cbn in Hl; [by left|].
      destruct (IH (ref_passwords device (tokens !! fc_ID f) f pws)) as [Hp|?]; [intros g Hg; apply Hin; by right|done| |by right].
      unfold ref_passwords in Hp.
      assert (forall l (pws : gmap bytes bytes), fold_left (fun pws pw => <[fc_ID f := pw]> pws) l pws !! folder = Some pw ->
        pws !! folder = Some pw \/ (fc_ID f = folder /\ pw ∈ l)) as Hl'.
      { clear. induction l as [|p l IH]; intros pws Hx; cbn in Hx; [by left|]. destruct (IH _ Hx) as [Hx'|[? ?] ]; [|right; split; [done|by right] ].
        apply lookup_insert_Some in Hx' as [ [? ->]|[_ ?] ]; [right; split; [done|left]|by left]. }
      destruct (Hl' _ _ Hp) as [?|[Ef Hpw] ]; [by left|right]. apply list_elem_of_omap in Hpw as (d & Hd & Epw).
      unfold ref_password, share_token in Epw. exists f, d. split; [apply Hin; left|]. split; [done|]. split; [done|].
      destruct (if bool_decide _ then tokens !! fc_ID f else None); [done|].
      destruct (is_nil (fd_EncryptionPassword d)) eqn:Ep; [done|]. case_bool_decide as Edev; [|done]. injection Epw as <-.
      split; [done|]. split; [done|]. by intros E; rewrite E in Ep. }
    intros Hl. apply Hfold in Hl as [Hl|?]; [by rewrite lookup_empty in Hl|done|].
    intros f Hf. rewrite list_elem_of_In, filter_In in Hf. destruct Hf as [Hf _]. by apply list_elem_of_In.
Qed.

(** C36: A cluster configuration tells a device only what it may know: the folders
    that are shared with it, in them ourselves, the devices that get the data in
    the clear, and the device itself, but no other device that is given encrypted
    data; the only tokens are our own and the one of the password for the device,
    and the only passwords that the connection encrypts with are those for it. *)
Theorem cluster_config_private device tokens (g : @Encryption.KeyGenerator CF CK) (Hg : keys_ok (CF:=CF) (CK:=CK) g) :
  exists g' cm passwords, generate device tokens g = (g', Ret (cm, passwords)) /\
  (forall F, F ∈ Folders cm -> exists f, f ∈ cf_Folders cfg /\ FID F = fc_ID f /\ SharedWith device f = true /\
    forall x, x ∈ Devices F -> exists d, d ∈ fc_Devices f /\ ID x = dc_DeviceID (device_cfg cfg (fd_DeviceID d)) /\
      (ID x = myID \/ fd_EncryptionPassword d = [] \/ fd_DeviceID d = device) /\
      (EncryptionPasswordToken x <> [] -> ID x = myID \/ (fd_DeviceID d = device /\
        EncryptionPasswordToken x = password_token (fc_ID f) (fd_EncryptionPassword d)))) /\
  (forall folder pw, passwords !! folder = Some pw -> exists f d, f ∈ cf_Folders cfg /\ fc_ID f = folder /\
    d ∈ fc_Devices f /\ fd_DeviceID d = device /\ fd_EncryptionPassword d = pw /\ pw <> []).
Proof.
  destruct (generate_gives device tokens g Hg) as (g' & E & _). exists g', (ref_config device tokens).1, (ref_config device tokens).2.
  split; [exact E|]. apply ref_config_private.
Qed.
End Generate.

(** *** Two devices agree *)

Lemma device_info_spec myID deviceID dl dr info devs : myID <> deviceID -> myID <> EmptyDeviceID -> deviceID <> EmptyDeviceID ->
  ID dl = myID -> ID dr = deviceID ->
  (forall x, x ∈ devs -> ID x = myID -> x = dl) -> (forall x, x ∈ devs -> ID x = deviceID -> x = dr) ->
  (local info = dl \/ (ID (local info) = EmptyDeviceID /\ dl ∈ devs)) ->
  (remote info = dr \/ (ID (remote info) = EmptyDeviceID /\ dr ∈ devs)) ->
  (devs <> [] \/ (local info = dl /\ remote info = dr)) ->
  device_info myID deviceID info devs = {| local := dl; remote := dr |}.
Proof.
  intros Hne Hm Hd El Er. revert info. induction devs as [|x devs IH]; intros info Hl Hr Hil Hir Hsome; cbn.
  { destruct Hil as [<-|[_ Hn] ]; [|by apply not_elem_of_nil in Hn]. destruct Hir as [<-|[_ Hn] ]; [|by apply not_elem_of_nil in Hn]. by destruct info. }
  set (info' := set_info myID deviceID info x).
  assert (local info' = dl \/ (ID (local info') = EmptyDeviceID /\ dl ∈ devs)) as Hil'.
  { unfold info', set_info. case_bool_decide as E1; [left; apply Hl; [left|done] |].
    assert (local (if bool_decide (ID x = deviceID) then {| local := local info; remote := x |} else info) = local info) as -> by (by case_bool_decide).
    destruct Hil as [?|[? [->|?]%elem_of_cons] ]; [by left|done|by right]. }
  assert (remote info' = dr \/ (ID (remote info') = EmptyDeviceID /\ dr ∈ devs)) as Hir'.
  { unfold info', set_info. case_bool_decide as E1.
    - cbn. destruct Hir as [?|[? [->|?]%elem_of_cons] ]; [by left|congruence|by right].
    - case_bool_decide as E2; [left; apply Hr; [left|done] |]. destruct Hir as [?|[? [->|?]%elem_of_cons] ]; [by left|done|by right]. }
  destruct (negb _ && negb _) eqn:Eb.
  - apply andb_true_iff in Eb as [E1%negb_true_iff%bool_decide_eq_false E2%negb_true_iff%bool_decide_eq_false].
    destruct Hil' as [?|[? _] ]; [|done]. destruct Hir' as [?|[? _] ]; [|done]. destruct info'; cbn in *; congruence.
  - apply IH; [intros y Hy; apply Hl; by right|intros y Hy; apply Hr; by right|done|done|].
    destruct devs; [right|by left]. split; [by destruct Hil' as [?|[_ Hn] ]; [|apply not_elem_of_nil in Hn]|by destruct Hir' as [?|[_ Hn] ]; [|apply not_elem_of_nil in Hn] ].
Qed.

Lemma check_no_panic fcfg dev info u s : cc_ok s -> (exists e, (check fcfg dev info u s).2 = Err e) \/ (check fcfg dev info u s).2 = Ret tt.
Proof.
  intros Hs. unfold ccCheckEncryption.
  repeat match goal with |- context [if ?b then sfail _ else _] => destruct b; [left; by eexists|] end.
  destruct (negb (_ || _ || _ || _)); [by right|].
  repeat match goal with |- context [if ?b then sfail _ else _] => destruct b; [left; by eexists|] end.
  destruct (negb (_ || _)); [destruct (negb _); left; by eexists|].
  destruct (negb (_ || _)); [left; by eexists|].
  destruct (negb (is_nil (fd_EncryptionPassword dev))).
  - unfold mbind, sm_bind. destruct (with_keyGen_ret (PasswordToken (fc_ID fcfg) (fd_EncryptionPassword dev)) _ s (PasswordToken_gives _ _) Hs) as (g & -> & _).
    unfold check_token. case_bool_decide; [by right|left; by eexists].
  - unfold mbind, sm_bind, sget. destruct (folderEncryptionPasswordTokens s !! fc_ID fcfg).
    + unfold check_token. case_bool_decide; [by right|left; by eexists].
    + unfold readEncryptionToken. destruct (readFails _); [left; by eexists|]. destruct (tokenFiles s !! _); cbn.
      * unfold check_token. case_bool_decide; [by right|left; by eexists].
      * unfold writeEncryptionToken. destruct (writeFails _); [left; by eexists|by right].
Qed.

Lemma SharedWith_in f d : d ∈ fc_Devices f -> SharedWith (fd_DeviceID d) f = true.
Proof.
  intros Hd. unfold SharedWith, FolderConfiguration_Device. destruct (List.find _ _) as [?|] eqn:E; [done|].
  pose proof (find_none _ _ E d (proj1 (list_elem_of_In _ _) Hd)) as Hn. by apply bool_decide_eq_false in Hn.
Qed.

(** [fcfg] is a folder of [cfg] on the device [own], shared with [other]. *)
Record shared_folder (cfg : Configuration) (fcfg : FolderConfiguration) (own other : FolderDeviceConfiguration) : Prop := {
  sf_in : fcfg ∈ cf_Folders cfg;
  sf_nodup : NoDup (DeviceIDs fcfg);
  sf_own : own ∈ fc_Devices fcfg;
  sf_other : other ∈ fc_Devices fcfg;
  sf_own_cfg : is_Some (Configuration_Device (fd_DeviceID own) cfg);
  sf_other_cfg : is_Some (Configuration_Device (fd_DeviceID other) cfg);
  sf_own_password : fd_EncryptionPassword own = [] }.

(** What the other device finds out about the two of us. *)
Lemma generated_info idx seq cfg fcfg own other tokens tok_own tok_other pw_other :
  let A := fd_DeviceID own in let B := fd_DeviceID other in
  A <> B -> A <> EmptyDeviceID -> B <> EmptyDeviceID -> shared_folder cfg fcfg own other -> told B tokens fcfg = true ->
  share_token A cfg B (tokens !! fc_ID fcfg) (fc_ID fcfg) own = Some (tok_own, None) ->
  share_token A cfg B (tokens !! fc_ID fcfg) (fc_ID fcfg) other = Some (tok_other, pw_other) ->
  exists F, F ∈ Folders (ref_config idx seq A cfg B tokens).1 /\ FID F = fc_ID fcfg /\
    EncryptionPasswordToken (local (device_info B A no_info (Devices F))) = tok_other /\
    EncryptionPasswordToken (remote (device_info B A no_info (Devices F))) = tok_own.
Proof.
  intros A B HAB HA HB Hsf Ht Hown Hother. exists (ref_folder idx seq A cfg B tokens fcfg).
  split; [by apply told_folder; [apply Hsf|]|]. split; [done|]. cbn [Devices ref_folder].
  destruct (ref_devices_entry idx seq A cfg B (tokens !! fc_ID fcfg) fcfg own tok_own None) as [O1 O2]; try done; try apply Hsf.
  destruct (ref_devices_entry idx seq A cfg B (tokens !! fc_ID fcfg) fcfg other tok_other pw_other) as [T1 T2]; try done; try apply Hsf.
  rewrite (device_info_spec B A (device_entry idx seq A cfg (fc_ID fcfg) other tok_other) (device_entry idx seq A cfg (fc_ID fcfg) own tok_own)).
  all: try done.
  - by apply device_cfg_some, Hsf.
  - by apply device_cfg_some, Hsf.
  - by right.
  - by right.
  - left. intros E. rewrite E in O1. by apply not_elem_of_nil in O1.
Qed.

(** C37: What the check of a cluster configuration lets through: it never panics,
    an untrusted device is only let through for a folder that is encrypted for it
    or on our side, and the two sides then agree: neither has a token, or there is
    one token, that of our password or the one that our encrypted folder has
    stored. *)
Theorem encryption_checked fcfg dev info untrusted s (Hs : cc_ok s) :
  match check fcfg dev info untrusted s with
  | (s', Ret _) => agreed fcfg dev info untrusted s'
  | (s', Err _) => True
  | _ => False
  end.
Proof.
  destruct (check fcfg dev info untrusted s) as [s' [ [] |e| |] ] eqn:E; [by destruct (check_agreed _ _ _ _ _ _ Hs E)|done|..];
    by destruct (check_no_panic fcfg dev info untrusted s Hs) as [ [e He]|He]; rewrite E in He.
Qed.

(** C22: Two devices that share a folder, with a password on the first side and an
    encrypted folder on the second, agree under these conditions: each has the
    other and itself in its configuration, with different IDs that are not the
    empty one; the first has no token of this folder in what it announces
    itself by; and the second has no token yet and can read and write the token
    file, or has the token of this password ([token_free]).  Then the cluster
    configuration of the first passes the check of the second, which keeps the
    token, and then announces itself with a configuration that passes the check
    of the first.  With a token of another password stored they do not agree. *)
Theorem encryption_agreed idxA seqA idxB seqB cfgA cfgB fA fB AA AB BB BA tokensA untrustedA untrustedB
    (gA : @Encryption.KeyGenerator CF CK) (sA sB : state)
    (HA : shared_folder cfgA fA AA AB) (HB : shared_folder cfgB fB BB BA)
    (Hids : fd_DeviceID BB = fd_DeviceID AB /\ fd_DeviceID BA = fd_DeviceID AA /\ fc_ID fB = fc_ID fA)
    (Hne : fd_DeviceID AA <> fd_DeviceID AB /\ fd_DeviceID AA <> EmptyDeviceID /\ fd_DeviceID AB <> EmptyDeviceID)
    (Htypes : isEncrypted (fc_Type fA) = false /\ isEncrypted (fc_Type fB) = true)
    (Hpw : fd_EncryptionPassword AB <> [] /\ fd_EncryptionPassword BA = [])
    (HtokA : tokensA !! fc_ID fA = None)
    (Hfree : token_free fB (password_token (fc_ID fA) (fd_EncryptionPassword AB)) sB)
    (Hok : keys_ok (CF:=CF) (CK:=CK) gA /\ cc_ok sA /\ cc_ok sB) :
  let A := fd_DeviceID AA in let B := fd_DeviceID AB in
  exists gA' cmA pwA FA sB',
    generateClusterConfig (CF:=CF) (CK:=CK) idxA seqA A cfgA B tokensA gA = (gA', Ret (cmA, pwA)) /\
    FA ∈ Folders cmA /\ FID FA = fc_ID fA /\
    check fB BA (device_info B A no_info (Devices FA)) untrustedA sB = (sB', Ret tt) /\
    exists gB' cmB pwB FB sA',
      generateClusterConfig (CF:=CF) (CK:=CK) idxB seqB B cfgB A (folderEncryptionPasswordTokens sB') (cc_keyGen sB') = (gB', Ret (cmB, pwB)) /\
      FB ∈ Folders cmB /\ FID FB = fc_ID fA /\
      check fA AB (device_info A B no_info (Devices FB)) untrustedB sA = (sA', Ret tt).
Proof.
  intros A B. destruct Hids as (Ei1 & Ei2 & Ei3), Hne as (N1 & N2 & N3), Htypes as [TA TB], Hpw as [PA PB], Hok as (OkA & OksA & OksB).
  destruct (generate_gives idxA seqA A cfgA B tokensA gA OkA) as (gA' & EgA & _).
  set (t := password_token (fc_ID fA) (fd_EncryptionPassword AB)) in *.
  assert (t <> []) as Ht.
  { intros E. pose proof (password_token_length (fc_ID fA) (fd_EncryptionPassword AB)) as Hl. fold t in Hl. rewrite E in Hl. unfold tagSize in Hl. cbn in Hl. lia. }
  destruct (generated_info idxA seqA cfgA fA AA AB tokensA [] t (Some (fd_EncryptionPassword AB)) N1 N2 N3 HA) as (FA & HFA & EFA & EL & ER).
  { unfold told. rewrite (SharedWith_in fA AB) by apply HA. by rewrite TA. }
  { unfold share_token. rewrite HtokA, (sf_own_password _ _ _ _ HA). by case_bool_decide. }
  { unfold share_token. rewrite HtokA. assert (is_nil (fd_EncryptionPassword AB) = false) as -> by (by destruct (fd_EncryptionPassword AB)).
    rewrite (bool_decide_eq_true_2 (fd_DeviceID AB = fd_DeviceID AB)) by done. by case_bool_decide. }
  fold A B in EL, ER, HFA.
  destruct (check_passes_local fB BA (device_info B A no_info (Devices FA)) untrustedA t sB OksB PB TB) as (sB' & EsB & OksB' & EtB); [|done|].
  { split; [done|]. left. by rewrite EL, ER. }
  exists gA', (ref_config idxA seqA A cfgA B tokensA).1, (ref_config idxA seqA A cfgA B tokensA).2, FA, sB'.
  split; [exact EgA|]. split; [done|]. split; [done|]. split; [done|].
  destruct (generate_gives idxB seqB B cfgB A (folderEncryptionPasswordTokens sB') (cc_keyGen sB') OksB') as (gB' & EgB & _).
  destruct (generated_info idxB seqB cfgB fB BB BA (folderEncryptionPasswordTokens sB') t [] None) as (FB & HFB & EFB & EL' & ER').
  { rewrite Ei1, Ei2. by apply not_eq_sym. } { by rewrite Ei1. } { by rewrite Ei2. } { done. }
  { unfold told. rewrite (SharedWith_in fB BA) by apply HB. by rewrite EtB, andb_false_r. }
  { unfold share_token. rewrite EtB, (device_cfg_some cfgB) by apply HB. by rewrite bool_decide_eq_true_2. }
  { unfold share_token. rewrite (device_cfg_some cfgB) by apply HB. rewrite Ei1, Ei2, bool_decide_eq_false_2 by done. by rewrite PB. }
  rewrite Ei1, Ei2 in EL', ER', HFB. fold A B in EL', ER', HFB.
  destruct (check_passes_remote fA AB (device_info A B no_info (Devices FB)) untrustedB sA OksA PA TA) as (sA' & EsA & _).
  { split; [done|]. right. by rewrite EL', ER'. }
  exists gB', (ref_config idxB seqB B cfgB A (folderEncryptionPasswordTokens sB')).1, (ref_config idxB seqB B cfgB A (folderEncryptionPasswordTokens sB')).2, FB, sA'.
  split; [exact EgB|]. split; [done|]. split; [by rewrite <- Ei3|done].
Qed.
End Agreement.

(** *** Folders that are accepted *)

Section AutoAccept.
Context (SanitizePath : bytes -> bytes) (Join : bytes -> bytes -> bytes) (setIgnores : FolderConfiguration -> prog unit).
Context (defaultFolderCfg : FolderConfiguration) (deviceID : bytes) (folder : Folder) (info : clusterConfigDeviceInfo).
Context (plausible : forall c : call, answer c -> Prop).
(** A directory is only made where there is nothing. *)
Definition accept_allowed (h : history) (c : call) : Prop :=
  match c with
  | MkdirAll path _ => exists e h', h = Event (Lstat path) (inl e) :: h' /\ is_not_exist e = true
  | _ => True
  end.
(** The ignore patterns are written in the new folder, not here. *)
Hypothesis setIgnores_safe : forall f h (Q : history -> unit -> Prop), (forall h', h ⊆ h' -> Q h' tt) -> safe accept_allowed plausible (setIgnores f) h Q.
(** What is accepted: a new folder in the directory that was made, or the folder
    we have; it is encrypted if the device says so. *)
Definition accepted (cfg : option FolderConfiguration) (h : history) (res : option FolderConfiguration) : Prop :=
  match res with
  | None => True
  | Some f =>
      list.last (fc_Devices f) = Some (plain_share deviceID) /\
      match cfg with
      | Some f0 => SharedWith deviceID f0 = false /\ f = set_Devices (fc_Devices f0 ++ [plain_share deviceID]) f0 /\ isEncrypted (fc_Type f) = has_token info
      | None => fc_ID f = FID folder /\ (has_token info = true -> fc_Type f = FolderTypeReceiveEncrypted) /\
          exists path, Event (MkdirAll path 511) None ∈ h /\ fc_Path f = Join (fc_Path defaultFolderCfg) path /\
            path ∈ [SanitizePath (Label folder); SanitizePath (FID folder)] /\ path <> []
      end
  end.

Lemma accept_paths_safe paths h : (forall p, p ∈ paths -> p ∈ [SanitizePath (Label folder); SanitizePath (FID folder)] /\ p <> []) ->
  safe accept_allowed plausible (accept_paths Join setIgnores defaultFolderCfg deviceID folder info paths) h (accepted None).
Proof.
  revert h. induction paths as [|p paths IH]; intros h Hp; cbn [accept_paths]; [done|].
  destruct (Hp p) as [Hin Hne]; [left|]. apply safe_do; [done|]. intros r _.
  destruct (match r with inl e => negb (is_not_exist e) | inr _ => true end) eqn:Er; [apply IH; intros q Hq; apply Hp; by right|].
  apply safe_do; [destruct r as [e|st]; [|done]; exists e, h; split; [done|by apply negb_false_iff]|]. intros [e|] _; [apply IH; intros q Hq; apply Hp; by right|].
  set (f := set_Devices _ _).
  assert (forall h' g, Event (MkdirAll p 511) None ∈ h' -> fc_ID g = fc_ID f -> fc_Path g = fc_Path f -> fc_Devices g = fc_Devices f ->
    (has_token info = true -> fc_Type g = FolderTypeReceiveEncrypted) -> accepted None h' (Some g)) as Hacc.
  { intros h' g Hh Ei Ep Ed Et. split; [rewrite Ed; apply last_snoc|]. split; [by rewrite Ei|]. split; [done|]. exists p.
    split; [done|]. split; [by rewrite Ep|done]. }
  destruct (has_token info) eqn:Etok.
  - apply (Hacc _ (set_autoEncrypted f)); [left|done..].
  - eapply safe_seq; [apply (setIgnores_safe f _ (fun h' _ => Event (MkdirAll p 511) None ∈ h'))|].
    + intros h' Hs. apply Hs. left.
    + intros h' [] Hh. apply (Hacc h' f); [done..|congruence].
Qed.
(** Whatever the file system answers, a directory is only made where there was
    nothing before, and what is accepted has the encryption that was announced. *)
Lemma auto_accepts cfg h res : runs (handleAutoAccepts SanitizePath Join setIgnores defaultFolderCfg deviceID folder info cfg) [] h res ->
  all_plausible plausible h -> all_allowed accept_allowed h /\ accepted cfg h res.
Proof.
  intros Hr Hp. refine (safe_runs accept_allowed plausible _ [] (accepted cfg) h res _ I Hr Hp). unfold handleAutoAccepts. destruct cfg as [f|].
  - destruct (SharedWith deviceID f) eqn:Es; [done|]. destruct (isEncrypted (fc_Type f)) eqn:Ee, (has_token info) eqn:Et; cbn; try done.
    all: split; [apply last_snoc|]; split; [done|]; split; [done|]; by rewrite Et.
  - apply accept_paths_safe. intros p Hin. rewrite list_elem_of_In, filter_In, <- list_elem_of_In in Hin. destruct Hin as [Hin Hn].
    split; [done|]. by destruct p.
Qed.
End AutoAccept.

(** *** Two devices, one of them untrusted *)

#[local] Existing Instances ex_crypto ex_laws list_cache list_cache_laws.
Abbreviation LC := (list (bytes * bytes * bytes)).
Definition no_fault (_ : bytes) : bool := false.
Definition ex_zero (_ : bytes) (_ : option bytes) : Z := 0.
Definition ex_state : @ccState LC LC :=
  {| cc_keyGen := NewKeyGenerator; folderEncryptionPasswordTokens := ∅; tokenFiles := ∅; resent := [] |}.
Definition ex_home : FolderConfiguration :=
  set_Devices [ConfigProps.ex_share (gostr "home") []; ConfigProps.ex_share (gostr "vault") (gostr "secret"); ConfigProps.ex_share (gostr "peer") []] ConfigProps.ex_folder.
Definition ex_vault : FolderConfiguration :=
  set_autoEncrypted (set_Devices [ConfigProps.ex_share (gostr "home") []; ConfigProps.ex_share (gostr "vault") []] ConfigProps.ex_folder).
Definition ex_cfg (f : FolderConfiguration) : Configuration :=
  {| cf_Folders := [f]; cf_Devices := [ConfigProps.ex_device (gostr "home") false; ConfigProps.ex_device (gostr "peer") false; ConfigProps.ex_device (gostr "vault") true] |}.

Lemma ex_keys_ok : keys_ok (CF:=LC) (CK:=LC) NewKeyGenerator.
Proof. apply keys_ok_new. Qed.

(** The peer is not told of the vault. *)
Lemma cluster_config_private_witness : exists g' cm passwords,
  generateClusterConfig (CF:=LC) (CK:=LC) ex_zero ex_zero (gostr "home") (ex_cfg ex_home) (gostr "peer") ∅ NewKeyGenerator = (g', Ret (cm, passwords)) /\
  map (fun F => map ID (Devices F)) (Folders cm) = [ [gostr "home"; gostr "peer"] ] /\
  (forall folder pw, passwords !! folder = Some pw -> exists f d, f ∈ cf_Folders (ex_cfg ex_home) /\ fc_ID f = folder /\
    d ∈ fc_Devices f /\ fd_DeviceID d = gostr "peer" /\ fd_EncryptionPassword d = pw /\ pw <> []).
Proof.
  destruct (cluster_config_private (CF:=LC) (CK:=LC) ex_zero ex_zero (gostr "home") (ex_cfg ex_home) (gostr "peer") ∅ NewKeyGenerator ex_keys_ok)
    as (g' & cm & pws & E & _ & Hp). exists g', cm, pws. split; [exact E|]. split; [|exact Hp].
  apply (f_equal (fun r => match r with (_, Ret (cm, _)) => map (fun F => map ID (Devices F)) (Folders cm) | _ => [] end)) in E.
  rewrite <- E. vm_compute. reflexivity.
Defined.
(** Plain data is not let through to the vault. *)
Lemma encryption_checked_witness :
  let r := ccCheckEncryption (CF:=LC) (CK:=LC) no_fault no_fault ex_home (ConfigProps.ex_share (gostr "vault") []) no_info true ex_state in
  r.2 = Err errEncryptionNotEncryptedUntrusted /\ match r with (s', Ret _) => agreed ex_home (ConfigProps.ex_share (gostr "vault") []) no_info true s' | (_, Err _) => True | _ => False end.
Proof.
  cbv zeta. split; [vm_compute; reflexivity|].
  exact (encryption_checked (CF:=LC) (CK:=LC) no_fault no_fault ex_home (ConfigProps.ex_share (gostr "vault") []) no_info true ex_state ex_keys_ok).
Defined.

Lemma ex_shared (f : FolderConfiguration) own other : f = ex_home \/ f = ex_vault -> own ∈ fc_Devices f -> other ∈ fc_Devices f ->
  fd_EncryptionPassword own = [] -> shared_folder (ex_cfg f) f own other.
Proof.
  intros Hf Ho Ht Hp.
  assert (forall d, d ∈ fc_Devices f -> is_Some (Configuration_Device (fd_DeviceID d) (ex_cfg f))) as Hc.
  { intros d Hd. destruct Hf as [-> | ->]; cbn in Hd; repeat (apply elem_of_cons in Hd as [->|Hd]; [eexists; vm_compute; reflexivity|]);
      by apply not_elem_of_nil in Hd. }
  constructor; try done; [by left| |by apply Hc|by apply Hc].
  destruct Hf as [-> | ->]; by apply (bool_decide_unpack _); vm_compute.
Qed.
Lemma encryption_agreed_witness : exists gA' cmA pwA FA sB',
  generateClusterConfig (CF:=LC) (CK:=LC) ex_zero ex_zero (gostr "home") (ex_cfg ex_home) (gostr "vault") ∅ NewKeyGenerator = (gA', Ret (cmA, pwA)) /\
  FA ∈ Folders cmA /\
  ccCheckEncryption (CF:=LC) (CK:=LC) no_fault no_fault ex_vault (ConfigProps.ex_share (gostr "home") [])
    (device_info (gostr "vault") (gostr "home") no_info (Devices FA)) false ex_state = (sB', Ret tt).
Proof.
  destruct (encryption_agreed (CF:=LC) (CK:=LC) no_fault no_fault ex_zero ex_zero ex_zero ex_zero (ex_cfg ex_home) (ex_cfg ex_vault) ex_home ex_vault
    (ConfigProps.ex_share (gostr "home") []) (ConfigProps.ex_share (gostr "vault") (gostr "secret"))
    (ConfigProps.ex_share (gostr "vault") []) (ConfigProps.ex_share (gostr "home") []) ∅ false true NewKeyGenerator ex_state ex_state)
    as (gA' & cmA & pwA & FA & sB' & H1 & H2 & _ & H3 & _).
  - apply ex_shared; [by left|left|right; left|done].
  - apply ex_shared; [by right|right; left|left|done].
  - done.
  - done.
  - done.
  - done.
  - done.
  - right. done.
  - split; [|split]; exact ex_keys_ok.
  - exists gA', cmA, pwA, FA, sB'. split; [exact H1|]. split; [exact H2|exact H3].
Defined.
