(* ===== verification/IntroducerProps.v ===== *)
(** * Introducers: theorems

    The folders and devices follow what the introducer tells, what others shared
    stays, and the same message a second time changes nothing. *)
From Stdlib Require Import ZArith List Lia.
From Stdlib Require Import Strings.Byte.
From stdpp Require Import base list option gmap numbers tactics.
From S2P Require Import Prelude GoLib Disk Connection FolderScan Config ConfigProps ClusterConfigs.

#[local] Open Scope Z_scope.

Abbreviation folder_map := (gmap bytes FolderConfiguration).
Abbreviation device_map := (gmap bytes DeviceConfiguration).

Lemma fds_has_set dev folder dev' folder' s :
  fds_has dev' folder' (fds_set dev folder s) = true <-> fds_has dev' folder' s = true \/ (dev' = dev /\ folder' = folder).
Proof.
  unfold fds_has, fds_set. rewrite !bool_decide_eq_true. destruct (decide (folder' = folder)) as [->|Hne].
  - rewrite lookup_insert_eq. cbn. rewrite elem_of_union, elem_of_singleton. tauto.
  - rewrite lookup_insert_ne by done. tauto.
Qed.
Lemma hasDevice_spec dev s : hasDevice dev s = true <-> exists folder, fds_has dev folder s = true.
Proof.
  unfold hasDevice, fds_has. rewrite existsb_exists. split.
  - intros ([folder devs] & Hin%list_elem_of_In & Hd%bool_decide_eq_true). apply elem_of_map_to_list in Hin.
    exists folder. rewrite Hin. by apply bool_decide_eq_true.
  - intros (folder & Hd%bool_decide_eq_true). destruct (s !! folder) as [devs|] eqn:E; cbn in Hd; [|by apply not_elem_of_empty in Hd].
    exists (folder, devs). split; [by apply list_elem_of_In, elem_of_map_to_list|by apply bool_decide_eq_true].
Qed.
Lemma SharedWith_iff id f : SharedWith id f = true <-> id ∈ DeviceIDs f.
Proof.
  unfold SharedWith, FolderConfiguration_Device, DeviceIDs. rewrite <- (existsb_id fd_DeviceID). split.
  - destruct (List.find _ _) as [d|] eqn:E; [|done]. intros _. apply existsb_exists. exists d. by apply find_some in E.
  - intros (d & Hd & E)%existsb_exists. destruct (List.find _ _) as [?|] eqn:Ef; [done|].
    by rewrite (find_none _ _ Ef d Hd) in E.
Qed.

Section Introducers.
Context (myID : bytes) (DefaultDevice introducerCfg : DeviceConfiguration).
Abbreviation introducer := (dc_DeviceID introducerCfg).
Abbreviation intro_devices := (introduce_devices myID DefaultDevice introducerCfg).
Abbreviation intro_folders := (introduce_folders myID DefaultDevice introducerCfg).
Abbreviation share_of := (introduced_share introducerCfg).

(** A device that may be shared with: it is not ourselves, and it needs no
    password, or the folder is encrypted here. *)
Definition offered (f : FolderConfiguration) (dev : Device) : Prop :=
  ID dev <> myID /\ (isEncrypted (fc_Type f) = true \/ EncryptionPasswordToken dev = []).
Lemma offered_dec f dev : ID dev <> myID ->
  offered f dev <-> negb (isEncrypted (fc_Type f)) && negb (is_nil (EncryptionPasswordToken dev)) = false.
Proof.
  intros Hne. unfold offered. destruct (isEncrypted (fc_Type f)), (EncryptionPasswordToken dev); cbn; split; intros; try done; auto.
  by destruct H as [_ [?|?] ].
Qed.
(** The devices that the message names for a folder. *)
Definition vouched (cm : list Folder) (folder id : bytes) : Prop :=
  id <> myID /\ exists F dev, F ∈ cm /\ FID F = folder /\ dev ∈ Devices F /\ ID dev = id.
Definition vouched_plain (cm : list Folder) (f : FolderConfiguration) (id : bytes) : Prop :=
  exists F dev, F ∈ cm /\ FID F = fc_ID f /\ dev ∈ Devices F /\ ID dev = id /\ offered f dev.

(** A folder with new shares by the introducer. *)
Definition extends (f f' : FolderConfiguration) (ids : list bytes) : Prop := f' = set_Devices (fc_Devices f ++ map share_of ids) f.
Lemma extends_nil f : extends f f [].
Proof. unfold extends. cbn. rewrite app_nil_r. by destruct f. Qed.
Lemma extends_trans f f1 f2 ids1 ids2 : extends f f1 ids1 -> extends f1 f2 ids2 -> extends f f2 (ids1 ++ ids2).
Proof. unfold extends. intros -> ->. cbn. by rewrite map_app, app_assoc. Qed.
Lemma extends_ids f f' ids : extends f f' ids -> DeviceIDs f' = DeviceIDs f ++ ids.
Proof. intros ->. unfold DeviceIDs. cbn. rewrite map_app, map_map. cbn. by rewrite map_id. Qed.

(** What introducing the devices of one folder does. *)
Record introduced (folderID : bytes) (devs : list Device) (f : FolderConfiguration) (D : device_map) (S : folderDeviceSet)
    (f' : FolderConfiguration) (D' : device_map) (S' : folderDeviceSet) (ids : list bytes) : Prop := {
  in_ext : extends f f' ids;
  in_ids : forall id, id ∈ ids -> is_Some (D' !! id) /\ exists dev, dev ∈ devs /\ ID dev = id /\ offered f dev;
  in_old : forall id c, D !! id = Some c -> D' !! id = Some c;
  in_new : forall id c, D' !! id = Some c -> D !! id = Some c \/ (D !! id = None /\ id <> myID /\ exists dev, dev ∈ devs /\ ID dev = id /\ c = introduceDevice DefaultDevice dev introducerCfg);
  in_known : forall dev, dev ∈ devs -> ID dev <> myID -> is_Some (D' !! ID dev);
  in_set : forall id fid, fds_has id fid S' = true <-> fds_has id fid S = true \/ (fid = folderID /\ id <> myID /\ exists dev, dev ∈ devs /\ ID dev = id);
  in_all : forall dev, dev ∈ devs -> offered f dev -> ID dev ∈ DeviceIDs f';
  in_nodup : NoDup (DeviceIDs f) -> (forall id, id ∈ DeviceIDs f -> is_Some (D !! id)) -> NoDup (DeviceIDs f') }.

Lemma introduced_self folderID dev devs f D S f' D' S' ids : ID dev = myID ->
  introduced folderID devs f D S f' D' S' ids -> introduced folderID (dev :: devs) f D S f' D' S' ids.
Proof.
  intros Eme [I1 I2 I3 I4 I5 I6 I7 I8]. constructor; try done.
  - intros id Hid. destruct (I2 id Hid) as (? & d & ? & ?). split; [done|]. exists d. split; [by right|done].
  - intros id c Hc. destruct (I4 id c Hc) as [?|(? & ? & d & ? & ?)]; [by left|right]. split; [done|]. split; [done|]. exists d. split; [by right|done].
  - intros d [->|Hd]%elem_of_cons Hne; [done|by apply I5].
  - intros id fid. rewrite I6. split.
    + intros [?|(? & ? & d & ? & ?)]; [by left|right]. split; [done|]. split; [done|]. exists d. split; [by right|done].
    + intros [?|(? & ? & d & [->|?]%elem_of_cons & ?)]; [by left|congruence|right]. eauto 6.
  - intros d [->|Hd]%elem_of_cons Hof; [by destruct Hof|by apply I7].
Qed.

(** The device is made known, the folder is extended by [new]. *)
Definition with_device (dev : Device) (D : device_map) : device_map :=
  if match D !! ID dev with Some _ => true | None => false end then D
  else <[ID dev := introduceDevice DefaultDevice dev introducerCfg]> D.
Lemma with_device_old dev D id c : D !! id = Some c -> with_device dev D !! id = Some c.
Proof. intros Hc. unfold with_device. destruct (D !! ID dev) eqn:E; [done|]. rewrite lookup_insert_ne; [done|congruence]. Qed.
Lemma with_device_known dev D : is_Some (with_device dev D !! ID dev).
Proof. unfold with_device. destruct (D !! ID dev) eqn:E; [by rewrite E|]. rewrite lookup_insert_eq. by eexists. Qed.

Lemma introduced_cons folderID dev devs f f1 D S f' D' S' new ids : ID dev <> myID -> extends f f1 new ->
  (forall id, id ∈ new -> id = ID dev /\ offered f dev) -> (offered f dev -> ID dev ∈ DeviceIDs f1) ->
  (NoDup (DeviceIDs f) -> (forall id, id ∈ DeviceIDs f -> is_Some (D !! id)) -> NoDup (DeviceIDs f1)) ->
  introduced folderID devs f1 (with_device dev D) (fds_set (ID dev) folderID S) f' D' S' ids ->
  introduced folderID (dev :: devs) f D S f' D' S' (new ++ ids).
Proof.
  intros Hme Hext Hnew Hall Hnd [I1 I2 I3 I4 I5 I6 I7 I8].
  assert (forall d, offered f1 d <-> offered f d) as Hof by (intros d; unfold offered; by rewrite Hext).
  destruct (with_device_known dev D) as [cd Hdev]. constructor.
  - by eapply extends_trans.
  - intros id [Hid|Hid]%elem_of_app.
    + destruct (Hnew id Hid) as [-> ?]. split; [exists cd; by apply I3|]. exists dev. split; [left|done].
    + destruct (I2 id Hid) as (? & d & ? & ? & ?). split; [done|]. exists d. split; [by right|]. split; [done|by apply Hof].
  - intros id c Hc. by apply I3, with_device_old.
  - intros id c Hc. destruct (I4 id c Hc) as [Hc1|(Hn & ? & d & ? & ?)].
    + unfold with_device in Hc1. destruct (D !! ID dev) eqn:E; [by left|].
      apply lookup_insert_Some in Hc1 as [ [<- <-]|[_ ?] ]; [right|by left]. split; [done|]. split; [done|]. exists dev. split; [left|done].
    + right. split; [|split; [done|exists d; split; [by right|done] ] ]. destruct (D !! id) eqn:E; [|done]. by rewrite (with_device_old dev _ _ _ E) in Hn.
  - intros d [->|Hd]%elem_of_cons Hne; [exists cd; by apply I3|by apply I5].
  - intros id fid. rewrite I6, fds_has_set. split.
    + intros [ [?|[-> ->] ]|(? & ? & d & ? & ?)]; [by left|right|right].
      * split; [done|]. split; [done|]. exists dev. split; [left|done].
      * split; [done|]. split; [done|]. exists d. split; [by right|done].
    + intros [?|(-> & ? & d & [->|?]%elem_of_cons & ?)]; [by left; left|left; right; done|right]. split; [done|]. split; [done|]. by exists d.
  - intros d [->|Hd]%elem_of_cons Ho; [|by apply I7; [|apply Hof] ]. rewrite (extends_ids _ _ _ I1). apply elem_of_app. left. by apply Hall.
  - intros Hn Hk. apply I8; [by apply Hnd|]. intros id Hid. rewrite (extends_ids _ _ _ Hext) in Hid. apply elem_of_app in Hid as [Hid|Hid].
    + destruct (Hk id Hid) as [c Hc]. exists c. by apply with_device_old.
    + by destruct (Hnew id Hid) as [-> _].
Qed.

Lemma introduce_devices_spec folderID devs f D S ch :
  exists ids, let '(f', D', S', ch') := intro_devices folderID devs f D S ch in
  introduced folderID devs f D S f' D' S' ids /\ ch' = ch || negb (is_nil ids).
Proof.
  revert f D S ch. induction devs as [|dev devs IH]; intros f D S ch; cbn [introduce_devices].
  { exists []. split; [|by rewrite orb_false_r]. constructor; try (intros ? H; by apply not_elem_of_nil in H); try done; [apply extends_nil|by left|].
    intros id fid. split; [by left|]. intros [?|(_ & _ & ? & H & _)]; [done|by apply not_elem_of_nil in H]. }
  case_bool_decide as Eme.
  { destruct (IH f D S ch) as (ids & Hi). destruct (intro_devices folderID devs f D S ch) as [ [ [f' D'] S'] ch'].
    destruct Hi as [Hi Hch]. exists ids. split; [by apply introduced_self|done]. }
  fold (with_device dev D).
  assert (forall f1 new ch1, extends f f1 new -> (forall id, id ∈ new -> id = ID dev /\ offered f dev) ->
    (offered f dev -> ID dev ∈ DeviceIDs f1) ->
    (NoDup (DeviceIDs f) -> (forall id, id ∈ DeviceIDs f -> is_Some (D !! id)) -> NoDup (DeviceIDs f1)) ->
    ch1 = ch || negb (is_nil new) ->
    exists ids, let '(f', D', S', ch') := intro_devices folderID devs f1 (with_device dev D) (fds_set (ID dev) folderID S) ch1 in
      introduced folderID (dev :: devs) f D S f' D' S' ids /\ ch' = ch || negb (is_nil ids)) as Hrest.
  { intros f1 new ch1 Hext Hnew Hall Hnd Hch1. destruct (IH f1 (with_device dev D) (fds_set (ID dev) folderID S) ch1) as (ids & Hi).
    destruct (intro_devices folderID devs f1 _ _ ch1) as [ [ [f' D'] S'] ch']. destruct Hi as [Hi Hch].
    exists (new ++ ids). split; [by eapply introduced_cons|]. rewrite Hch, Hch1. destruct new; cbn; [by rewrite orb_false_r|]. by rewrite orb_true_r. }
  destruct (match D !! ID dev with Some _ => true | None => false end && SharedWith (ID dev) f) eqn:Eks; [|destruct (negb _ && negb _) eqn:Eof].
  - apply andb_true_iff in Eks as [_ Hsh]. apply SharedWith_iff in Hsh.
    apply (Hrest f [] ch); [apply extends_nil|intros ? H; by apply not_elem_of_nil in H|done|done|by rewrite orb_false_r].
  - apply (Hrest f [] ch); [apply extends_nil|intros ? H; by apply not_elem_of_nil in H| |done|by rewrite orb_false_r].
    intros Ho. apply offered_dec in Ho; [congruence|done].
  - apply (Hrest _ [ID dev] true); [done| | | |by rewrite orb_true_r].
    + intros id ->%list_elem_of_singleton. split; [done|]. by apply offered_dec.
    + intros _. rewrite (extends_ids f _ [ID dev]) by done. apply elem_of_app. right. by apply list_elem_of_singleton.
    + intros Hn Hk. rewrite (extends_ids f _ [ID dev]) by done. apply list.NoDup_app. split; [done|]. split; [|apply NoDup_singleton].
      intros x Hx ->%list_elem_of_singleton. destruct (Hk _ Hx) as [c Hc]. rewrite Hc in Eks. cbn in Eks.
      apply SharedWith_iff in Hx. congruence.
Qed.

Definition keyed (F : folder_map) : Prop := forall k f, F !! k = Some f -> fc_ID f = k.
(** Every share is with a device that exists, once. *)
Definition closed_shares (F : folder_map) (D : device_map) : Prop :=
  forall k f, F !! k = Some f -> NoDup (DeviceIDs f) /\ forall id, id ∈ DeviceIDs f -> is_Some (D !! id).

(** What introducing the devices of all folders does. *)
Record followed (cm : list Folder) (F : folder_map) (D : device_map) (S : folderDeviceSet)
    (F' : folder_map) (D' : device_map) (S' : folderDeviceSet) : Prop := {
  fw_dom : forall k, F' !! k = None <-> F !! k = None;
  fw_folder : forall k f', F' !! k = Some f' -> exists f ids, F !! k = Some f /\ extends f f' ids /\
    forall id, id ∈ ids -> is_Some (D' !! id) /\ vouched_plain cm f id;
  fw_old : forall id c, D !! id = Some c -> D' !! id = Some c;
  fw_new : forall id c, D' !! id = Some c -> D !! id = Some c \/ (D !! id = None /\ id <> myID /\
    exists Fl dev, Fl ∈ cm /\ is_Some (F !! FID Fl) /\ dev ∈ Devices Fl /\ ID dev = id /\ c = introduceDevice DefaultDevice dev introducerCfg);
  fw_known : forall k id, is_Some (F !! k) -> vouched cm k id -> is_Some (D' !! id);
  fw_set : forall id k, fds_has id k S' = true <-> fds_has id k S = true \/ (is_Some (F !! k) /\ vouched cm k id);
  fw_all : forall k f id, F !! k = Some f -> vouched_plain cm f id -> exists f', F' !! k = Some f' /\ id ∈ DeviceIDs f';
  fw_closed : closed_shares F D -> closed_shares F' D' }.

Lemma vouched_cons Fl cm k id : vouched (Fl :: cm) k id <->
  vouched cm k id \/ (id <> myID /\ FID Fl = k /\ exists dev, dev ∈ Devices Fl /\ ID dev = id).
Proof.
  unfold vouched. split.
  - intros (Hne & F & dev & [->|HF]%elem_of_cons & E & Hd & Ei); [right; eauto|left; eauto 8].
  - intros [ (Hne & F & dev & HF & E & Hd & Ei)|(Hne & E & dev & Hd & Ei)]; (split; [done|]); [exists F, dev|exists Fl, dev]; rewrite elem_of_cons; auto.
Qed.
Lemma vouched_plain_cons Fl cm f id : vouched_plain (Fl :: cm) f id <->
  vouched_plain cm f id \/ (FID Fl = fc_ID f /\ exists dev, dev ∈ Devices Fl /\ ID dev = id /\ offered f dev).
Proof.
  unfold vouched_plain. split.
  - intros (F & dev & [->|HF]%elem_of_cons & E & Hd & Ei & Ho); [right; eauto|left; eauto 8].
  - intros [ (F & dev & HF & E & Hd & Ei & Ho)|(E & dev & Hd & Ei & Ho)]; [exists F, dev|exists Fl, dev]; rewrite elem_of_cons; auto 8.
Qed.
Lemma extends_vouched cm f f1 ids id : extends f f1 ids -> vouched_plain cm f1 id <-> vouched_plain cm f id.
Proof. intros ->. done. Qed.
Lemma vouched_plain_vouched cm f id : vouched_plain cm f id -> vouched cm (fc_ID f) id.
Proof. intros (F & dev & HF & E & Hd & <- & Hne & _). split; [done|]. eauto 8. Qed.

Lemma followed_nil F D S : followed [] F D S F D S.
Proof.
  constructor; try done.
  - intros k f Hf. exists f, []. split; [done|]. split; [apply extends_nil|]. intros id Hid. by apply not_elem_of_nil in Hid.
  - by left.
  - intros k id _ (_ & ? & ? & Hn & _). by apply not_elem_of_nil in Hn.
  - intros id k. split; [by left|]. intros [?|(_ & _ & ? & ? & Hn & _)]; [done|by apply not_elem_of_nil in Hn].
  - intros k f id _ (? & ? & Hn & _). by apply not_elem_of_nil in Hn.
Qed.
Lemma followed_skip Fl cm F D S F' D' S' : keyed F -> F !! FID Fl = None ->
  followed cm F D S F' D' S' -> followed (Fl :: cm) F D S F' D' S'.
Proof.
  intros Hk Hn [W1 W2 W3 W4 W5 W6 W7 W8].
  assert (forall k id, is_Some (F !! k) -> vouched (Fl :: cm) k id <-> vouched cm k id) as Hv.
  { intros k id [f Hf]. rewrite vouched_cons. split; [|by left]. intros [?|(_ & E & _)]; [done|congruence]. }
  assert (forall k f id, F !! k = Some f -> vouched_plain (Fl :: cm) f id <-> vouched_plain cm f id) as Hvp.
  { intros k f id Hf. rewrite vouched_plain_cons. split; [|by left]. intros [?|(E & _)]; [done|]. rewrite (Hk _ _ Hf) in E. congruence. }
  constructor; try done.
  - intros k f' Hf'. destruct (W2 k f' Hf') as (f & ids & Hf & He & Hi). exists f, ids. split; [done|]. split; [done|].
    intros id Hid. destruct (Hi id Hid). split; [done|]. by eapply Hvp.
  - intros id c Hc. destruct (W4 id c Hc) as [?|(? & ? & G & dev & HG & ?)]; [by left|right]. split; [done|]. split; [done|]. exists G, dev. split; [by right|done].
  - intros k id Hs Hvo. apply (W5 k id Hs). by apply Hv.
  - intros id k. rewrite W6. split; (intros [?|[? ?] ]; [by left|right; split; [done|]; by apply Hv]).
  - intros k f id Hf Hvo. apply (W7 k f id Hf). by eapply Hvp.
Qed.
Lemma followed_cons Fl cm F D S f f1 D1 S1 ids1 F' D' S' : keyed F -> F !! FID Fl = Some f ->
  introduced (FID Fl) (Devices Fl) f D S f1 D1 S1 ids1 ->
  followed cm (<[FID Fl := f1]> F) D1 S1 F' D' S' -> followed (Fl :: cm) F D S F' D' S'.
Proof.
  intros Hk Hf [I1 I2 I3 I4 I5 I6 I7 I8] [W1 W2 W3 W4 W5 W6 W7 W8].
  assert (forall k, is_Some (<[FID Fl := f1]> F !! k) <-> is_Some (F !! k)) as Hdom.
  { intros k. destruct (decide (k = FID Fl)) as [->|Hne]; [rewrite lookup_insert_eq, Hf; split; by eexists|by rewrite lookup_insert_ne]. }
  assert (fc_ID f = FID Fl) as Eid by by apply Hk. constructor.
  - intros k. rewrite W1, !eq_None_not_Some. split; intros Hn Hs; apply Hn; by apply Hdom.
  - intros k f' Hf'. destruct (W2 k f' Hf') as (g & ids & Hg & He & Hi). destruct (decide (k = FID Fl)) as [->|Hne].
    + rewrite lookup_insert_eq in Hg. injection Hg as <-. exists f, (ids1 ++ ids). split; [done|]. split; [by eapply extends_trans|].
      intros id [Hid|Hid]%elem_of_app.
      * destruct (I2 id Hid) as ([c Hc] & dev & ? & ? & ?). split; [exists c; by apply W3|]. apply vouched_plain_cons. right. eauto 6.
      * destruct (Hi id Hid) as [? Hv]. split; [done|]. apply vouched_plain_cons. left. by apply (extends_vouched cm f f1 ids1).
    + rewrite lookup_insert_ne in Hg by done. exists g, ids. split; [done|]. split; [done|]. intros id Hid. destruct (Hi id Hid). split; [done|].
      apply vouched_plain_cons. by left.
  - intros id c Hc. by apply W3, I3.
  - intros id c Hc. destruct (W4 id c Hc) as [Hc1|(Hn & Hm & G & dev & HG & Hs & ?)].
    + destruct (I4 id c Hc1) as [?|(? & ? & dev & ? & ? & ?)]; [by left|right]. split; [done|]. split; [done|]. exists Fl, dev. rewrite Hf.
      split; [left|]. split; [by eexists|done].
    + right. split; [destruct (D !! id) eqn:E; [by rewrite (I3 _ _ E) in Hn|done]|]. split; [done|]. exists G, dev. split; [by right|]. split; [by apply Hdom|done].
  - intros k id Hs [Hv|(Hne & <- & dev & Hd & Ei)]%vouched_cons; [apply (W5 k id); [by apply Hdom|done]|].
    destruct (I5 dev Hd) as [c Hc]; [by rewrite Ei|]. rewrite Ei in Hc. exists c. by apply W3.
  - intros id k. rewrite W6, I6, vouched_cons, Hdom. split.
    + intros [ [?|(-> & ? & ?)]|[? ?] ]; [by left|right; rewrite Hf; split; [by eexists|by right]|right; auto].
    + intros [?|(Hs & [?|(? & <- & ?)])]; [by left; left|by right|left; right; done].
  - intros k g id Hg [Hv|(E & dev & Hd & Ei & Ho)]%vouched_plain_cons; destruct (decide (k = FID Fl)) as [->|Hne].
    + rewrite Hf in Hg. injection Hg as <-. apply (W7 (FID Fl) f1 id); [apply lookup_insert_eq|by apply (extends_vouched cm f f1 ids1)].
    + apply (W7 k g id); [by rewrite lookup_insert_ne|done].
    + rewrite Hf in Hg. injection Hg as <-. specialize (I7 dev Hd Ho). destruct (F' !! FID Fl) as [f'|] eqn:E'.
      * exists f'. split; [done|]. destruct (W2 _ _ E') as (g & ids & Hg & He & _). rewrite lookup_insert_eq in Hg. injection Hg as <-.
        rewrite (extends_ids _ _ _ He), elem_of_app. left. by rewrite <- Ei.
      * apply W1 in E'. by rewrite lookup_insert_eq in E'.
    + rewrite (Hk _ _ Hg) in E. congruence.
  - intros Hc. apply W8. intros k g Hg. destruct (decide (k = FID Fl)) as [->|Hne].
    + rewrite lookup_insert_eq in Hg. injection Hg as <-. destruct (Hc _ _ Hf) as [Hn Hex]. split; [by apply I8|].
      intros id Hid. rewrite (extends_ids _ _ _ I1) in Hid. apply elem_of_app in Hid as [Hid|Hid]; [|by apply I2].
      destruct (Hex id Hid) as [c Hcc]. exists c. by apply I3.
    + rewrite lookup_insert_ne in Hg by done. destruct (Hc _ _ Hg) as [Hn Hex]. split; [done|]. intros id Hid. destruct (Hex id Hid) as [c Hcc]. exists c. by apply I3.
Qed.

Lemma introduce_folders_spec cm F D S ch : keyed F ->
  let '(F', D', S', ch') := intro_folders cm F D S ch in
  followed cm F D S F' D' S' /\ (ch' = false -> F' = F) /\ (ch = true -> ch' = true).
Proof.
  revert F D S ch. induction cm as [|Fl cm IH]; intros F D S ch Hk; cbn [introduce_folders]; [split; [apply followed_nil|done]|].
  destruct (F !! FID Fl) as [f|] eqn:Hf.
  - destruct (introduce_devices_spec (FID Fl) (Devices Fl) f D S false) as (ids & Hi).
    destruct (intro_devices (FID Fl) (Devices Fl) f D S false) as [ [ [f1 D1] S1] ch1]. destruct Hi as [Hi Hch].
    pose proof (in_ext _ _ _ _ _ _ _ _ _ Hi) as Hext. assert (fc_ID f1 = FID Fl) as E1 by (rewrite Hext; exact (Hk _ _ Hf)).
    assert (keyed (<[FID Fl := f1]> F)) as Hk1.
    { intros k g Hg. apply lookup_insert_Some in Hg as [ [<- <-]|[_ Hg] ]; [done|by apply Hk]. }
    destruct ch1.
    + rewrite E1. specialize (IH (<[FID Fl := f1]> F) D1 S1 true Hk1). destruct (intro_folders cm _ D1 S1 true) as [ [ [F' D'] S'] ch'].
      destruct IH as (H1 & _ & H3). split; [by eapply followed_cons|]. by rewrite H3.
    + assert (ids = []) as -> by (by destruct ids). assert (f1 = f) as -> by (rewrite Hext; apply eq_sym, extends_nil).
      rewrite (insert_id F _ _ Hf) in Hk1. specialize (IH F D1 S1 ch Hk). destruct (intro_folders cm F D1 S1 ch) as [ [ [F' D'] S'] ch'].
      destruct IH as (H1 & H2 & H3). split; [|done]. eapply followed_cons; [done|done|exact Hi|]. by rewrite (insert_id F _ _ Hf).
  - specialize (IH F D S ch Hk). destruct (intro_folders cm F D S ch) as [ [ [F' D'] S'] ch'].
    destruct IH as (H1 & H2 & H3). split; [by apply followed_skip|done].
Qed.

(** ** What the introducer takes back *)

Definition by_introducer (d : FolderDeviceConfiguration) : bool := bool_decide (fd_IntroducedBy d = introducer).
Abbreviation tb := (taken_back introducerCfg).
Definition keeps (S : folderDeviceSet) (f : FolderConfiguration) : FolderConfiguration :=
  set_Devices (List.filter (fun d => negb (tb S (fc_ID f) d)) (fc_Devices f)) f.
Definition not_introduced (ds : list FolderDeviceConfiguration) (id : bytes) : Prop :=
  exists d, d ∈ ds /\ fd_DeviceID d = id /\ by_introducer d = false.

Lemma unshare_spec S fid ds :
  (unshare introducerCfg S fid ds).1.1 = List.filter (fun d => negb (tb S fid d)) ds /\
  (forall id, id ∈ (unshare introducerCfg S fid ds).1.2 <-> not_introduced ds id) /\
  (unshare introducerCfg S fid ds).2 = existsb (tb S fid) ds.
Proof.
  unfold not_introduced. induction ds as [|d ds IH]; cbn [unshare].
  { split; [done|]. split; [|done]. intros id. split; [intros H; by apply not_elem_of_empty in H|]. intros (? & H & _). by apply not_elem_of_nil in H. }
  destruct (unshare introducerCfg S fid ds) as [ [kept ni] ch]. cbn [fst snd] in IH. destruct IH as (H1 & H2 & H3).
  cbn [List.filter existsb]. assert (tb S fid d = by_introducer d && negb (fds_has (fd_DeviceID d) fid S)) as -> by done.
  fold (by_introducer d).
  assert (forall id, (exists d', d' ∈ d :: ds /\ fd_DeviceID d' = id /\ by_introducer d' = false) <->
    (fd_DeviceID d = id /\ by_introducer d = false) \/ exists d', d' ∈ ds /\ fd_DeviceID d' = id /\ by_introducer d' = false) as Hc.
  { intros id. split.
    - intros (d' & [->|Hd]%elem_of_cons & ?); [by left|right; eauto].
    - intros [?|(d' & ? & ?)]; [exists d; by split; [left|]|exists d'; by split; [right|] ]. }
  destruct (by_introducer d) eqn:Eb; cbn [negb andb]; [destruct (fds_has _ _ _); cbn [negb]|]; cbn [fst snd orb].
  - split; [by f_equal|]. split; [|done]. intros id. rewrite H2, Hc. split; [by right|]. by intros [ [_ ?]|?].
  - split; [done|]. split; [|done]. intros id. rewrite H2, Hc. split; [by right|]. by intros [ [_ ?]|?].
  - split; [by f_equal|]. split; [|done]. intros id. rewrite elem_of_union, elem_of_singleton, H2, Hc. split.
    + intros [->|?]; [by left|by right].
    + intros [ [-> _]|?]; [by left|by right].
Qed.

(** A device that stays. *)
Definition stays (S : folderDeviceSet) (F : folder_map) (id : bytes) (c : DeviceConfiguration) : Prop :=
  dc_IntroducedBy c <> introducer \/ (exists k, fds_has id k S = true) \/ (exists k f, F !! k = Some f /\ not_introduced (fc_Devices f) id).

Lemma deintroduce_spec S F D : dc_SkipIntroductionRemovals introducerCfg = false ->
  let '(F', D', ch) := handleDeintroductions introducerCfg S F D in
  F' = keeps S <$> F /\
  (forall id c, D' !! id = Some c <-> D !! id = Some c /\ stays S F id c) /\
  ((forall k f d, F !! k = Some f -> d ∈ fc_Devices f -> tb S (fc_ID f) d = false) ->
   (forall id c, D !! id = Some c -> stays S F id c) -> ch = false).
Proof.
  intros Hskip. unfold handleDeintroductions. rewrite Hskip. cbv zeta.
  set (ni := ⋃ map _ (map_to_list F) : gset bytes).
  set (st := fun kv : bytes * DeviceConfiguration =>
    negb (bool_decide (dc_IntroducedBy kv.2 = introducer)) || hasDevice kv.1 S || bool_decide (kv.1 ∈ ni)).
  assert (forall id, id ∈ ni <-> exists k f, F !! k = Some f /\ not_introduced (fc_Devices f) id) as Hni.
  { intros id. unfold ni. rewrite elem_of_union_list. split.
    - intros (X & HX & Hid). apply list_elem_of_fmap in HX as ([k f] & -> & Hk). apply elem_of_map_to_list in Hk. cbn in Hid.
      exists k, f. split; [done|]. by apply (unshare_spec S (fc_ID f) (fc_Devices f)).
    - intros (k & f & Hk & Hid). exists (unshare introducerCfg S (fc_ID f) (fc_Devices f)).1.2. split; [|by apply unshare_spec].
      apply list_elem_of_fmap. exists (k, f). split; [done|]. by apply elem_of_map_to_list. }
  assert (forall id c, st (id, c) = true <-> stays S F id c) as Hst.
  { intros id c. unfold st, stays. cbn [fst snd]. rewrite !orb_true_iff, negb_true_iff, bool_decide_eq_false, hasDevice_spec, bool_decide_eq_true, Hni. tauto. }
  split; [|split].
  - apply map_fmap_ext. intros k f _. unfold keeps. by rewrite (proj1 (unshare_spec S (fc_ID f) (fc_Devices f))).
  - intros id c. rewrite map_lookup_filter_Some, <- Hst. done.
  - intros Htb Hall. apply orb_false_iff. split.
    + destruct (existsb _ _) eqn:E; [|done]. apply existsb_exists in E as ([k f] & Hk%list_elem_of_In & Hf). apply elem_of_map_to_list in Hk. cbn in Hf.
      rewrite (proj2 (proj2 (unshare_spec S (fc_ID f) (fc_Devices f)))) in Hf. apply existsb_exists in Hf as (d & Hd%list_elem_of_In & Hb).
      by rewrite (Htb k f d Hk Hd) in Hb.
    + apply negb_false_iff, forallb_forall. intros [id c] Hin%list_elem_of_In. apply elem_of_map_to_list in Hin. by apply Hst, Hall.
Qed.

Lemma keeps_nothing S f : (forall d, d ∈ fc_Devices f -> tb S (fc_ID f) d = false) -> keeps S f = f.
Proof.
  intros H. unfold keeps. rewrite cfg_filter_all; [by destruct f|]. apply Forall_forall. intros d Hd%list_elem_of_In. by rewrite (H d Hd).
Qed.
Lemma elem_of_keeps S f d : d ∈ fc_Devices (keeps S f) <-> d ∈ fc_Devices f /\ tb S (fc_ID f) d = false.
Proof. cbn. rewrite list_elem_of_In, filter_In, <- list_elem_of_In, negb_true_iff. done. Qed.
Lemma filter_filter_sub {A} (p q : A -> bool) l : (forall x, p x = true -> q x = true) -> List.filter p (List.filter q l) = List.filter p l.
Proof.
  intros Hpq. induction l as [|x l IH]; cbn; [done|]. destruct (q x) eqn:Eq; cbn; [by rewrite IH|].
  destruct (p x) eqn:Ep; [|done]. by rewrite (Hpq x Ep) in Eq.
Qed.
Lemma filter_none {A} (p : A -> bool) l : (forall x, x ∈ l -> p x = false) -> List.filter p l = [].
Proof.
  induction l as [|x l IH]; cbn; [done|]. intros Hp. rewrite (Hp x) by left. apply IH. intros y Hy. apply Hp. by right.
Qed.

(** ** What the two handlers do together *)

Abbreviation handle := (introductions myID DefaultDevice introducerCfg).

(** A folder after a message, from the folder before. *)
Record folder_follows (cm : list Folder) (f g : FolderConfiguration) : Prop := {
  ff_same : g = set_Devices (fc_Devices g) f;
  ff_others : List.filter (fun d => negb (by_introducer d)) (fc_Devices g) = List.filter (fun d => negb (by_introducer d)) (fc_Devices f);
  ff_new : forall d, d ∈ fc_Devices g -> d ∈ fc_Devices f \/ (d = share_of (fd_DeviceID d) /\ vouched_plain cm f (fd_DeviceID d));
  ff_back : dc_SkipIntroductionRemovals introducerCfg = false ->
    forall d, d ∈ fc_Devices g -> fd_IntroducedBy d = introducer -> vouched cm (fc_ID f) (fd_DeviceID d);
  ff_kept : forall d, d ∈ fc_Devices f ->
    dc_SkipIntroductionRemovals introducerCfg = true \/ fd_IntroducedBy d <> introducer \/ vouched cm (fc_ID f) (fd_DeviceID d) -> d ∈ fc_Devices g;
  ff_all : forall id, vouched_plain cm f id -> id ∈ DeviceIDs g }.

Lemma share_of_by id : by_introducer (share_of id) = true.
Proof. by apply bool_decide_eq_true. Qed.
Lemma extends_others f f1 ids : extends f f1 ids ->
  List.filter (fun d => negb (by_introducer d)) (fc_Devices f1) = List.filter (fun d => negb (by_introducer d)) (fc_Devices f).
Proof.
  intros ->. cbn. rewrite List.filter_app, (filter_none _ (map share_of ids)), app_nil_r; [done|].
  intros d (id & -> & _)%list_elem_of_fmap. by rewrite share_of_by.
Qed.
Lemma tb_by S fid d : tb S fid d = true -> by_introducer d = true.
Proof. unfold taken_back. by intros [? _]%andb_true_iff. Qed.

(** The second handler on a folder of the first. *)
Lemma follows_keeps cm F D F1 D1 S k f f1 ids : dc_SkipIntroductionRemovals introducerCfg = false -> keyed F -> followed cm F D ∅ F1 D1 S -> F !! k = Some f -> extends f f1 ids ->
  (forall id, id ∈ ids -> vouched_plain cm f id) -> F1 !! k = Some f1 -> folder_follows cm f (keeps S f1).
Proof.
  intros Hskip Hk Hw Hf Hext Hids Hf1. assert (fc_ID f = k) as Ek by by apply Hk. assert (fc_ID f1 = k) as Ek1 by (by rewrite Hext).
  assert (forall id, fds_has id k S = true <-> vouched cm k id) as HS.
  { intros id. rewrite (fw_set _ _ _ _ _ _ _ Hw), Hf. split; [|right; split; [by eexists|done] ]. intros [H|[_ ?] ]; [|done].
    unfold fds_has in H. rewrite lookup_empty in H. apply bool_decide_eq_true in H. by apply not_elem_of_empty in H. }
  constructor.
  - unfold keeps. by rewrite Hext.
  - cbn. rewrite filter_filter_sub; [by eapply extends_others|]. intros d Hd. destruct (tb S (fc_ID f1) d) eqn:E; [|done].
    apply tb_by in E. by rewrite E in Hd.
  - intros d [Hd _]%elem_of_keeps. rewrite Hext in Hd. cbn in Hd. apply elem_of_app in Hd as [?|Hd]; [by left|right].
    apply list_elem_of_fmap in Hd as (id & -> & Hid). split; [done|]. by apply Hids.
  - intros _ d [_ Hd]%elem_of_keeps Hby. rewrite Ek. apply HS. unfold taken_back in Hd. rewrite bool_decide_eq_true_2 in Hd by done.
    cbn in Hd. rewrite Ek1 in Hd. by apply negb_false_iff.
  - intros d Hd Hwhy. apply elem_of_keeps. split; [rewrite Hext; cbn; apply elem_of_app; by left|]. unfold taken_back. rewrite Ek1. apply andb_false_iff.
    destruct Hwhy as [?|[Hby|Hv] ]; [congruence|left; by apply bool_decide_eq_false|right]. apply negb_false_iff, HS. by rewrite <- Ek.
  - intros id Hv. destruct (fw_all _ _ _ _ _ _ _ Hw k f id Hf Hv) as (f1' & Hf1' & Hid). rewrite Hf1 in Hf1'. injection Hf1' as <-.
    unfold DeviceIDs in *. apply list_elem_of_fmap in Hid as (d & -> & Hd). apply list_elem_of_fmap_2, elem_of_keeps. split; [done|].
    unfold taken_back. rewrite Ek1. rewrite (proj2 (HS (fd_DeviceID d))); [by rewrite andb_false_r|].
    rewrite <- Ek. by apply vouched_plain_vouched.
Qed.
Lemma follows_extends cm F D F1 D1 S k f f1 ids : dc_SkipIntroductionRemovals introducerCfg = true -> followed cm F D ∅ F1 D1 S ->
  F !! k = Some f -> extends f f1 ids -> (forall id, id ∈ ids -> vouched_plain cm f id) -> F1 !! k = Some f1 -> folder_follows cm f f1.
Proof.
  intros Hskip Hw Hf Hext Hids Hf1. constructor.
  - by rewrite Hext.
  - by eapply extends_others.
  - intros d Hd. rewrite Hext in Hd. cbn in Hd. apply elem_of_app in Hd as [?|Hd]; [by left|right].
    apply list_elem_of_fmap in Hd as (id & -> & Hid). split; [done|]. by apply Hids.
  - congruence.
  - intros d Hd _. rewrite Hext. cbn. apply elem_of_app. by left.
  - intros id Hv. destruct (fw_all _ _ _ _ _ _ _ Hw k f id Hf Hv) as (f1' & Hf1' & Hid). congruence.
Qed.

(** The message names the device for one of our folders, or one of them is shared
    with it without the introducer. *)
Definition wanted_still (cm : list Folder) (F : folder_map) (id : bytes) : Prop :=
  (exists k, is_Some (F !! k) /\ vouched cm k id) \/ exists k f, F !! k = Some f /\ not_introduced (fc_Devices f) id.
Lemma not_introduced_extends f f1 ids id : extends f f1 ids -> not_introduced (fc_Devices f1) id <-> not_introduced (fc_Devices f) id.
Proof.
  intros ->. cbn. split; intros (d & Hd & Ed & Hb); exists d; (split; [|done]); [|apply elem_of_app; by left].
  apply elem_of_app in Hd as [?|(x & -> & _)%list_elem_of_fmap]; [done|]. by rewrite share_of_by in Hb.
Qed.
Lemma stays_wanted cm F D F1 D1 S id c : followed cm F D ∅ F1 D1 S ->
  stays S F1 id c <-> dc_IntroducedBy c <> introducer \/ wanted_still cm F id.
Proof.
  intros Hw. unfold stays, wanted_still. apply or_iff_compat_l. split; (intros [ (k & Hx)|(k & f & Hf & Hn)]; [left; exists k|right]).
  - apply (fw_set _ _ _ _ _ _ _ Hw) in Hx as [Hx|?]; [|done]. unfold fds_has in Hx. rewrite lookup_empty in Hx.
    apply bool_decide_eq_true in Hx. by apply not_elem_of_empty in Hx.
  - destruct (fw_folder _ _ _ _ _ _ _ Hw k f Hf) as (f0 & ids & Hf0 & He & _). exists k, f0. split; [done|]. by apply (not_introduced_extends _ _ _ _ He).
  - apply (fw_set _ _ _ _ _ _ _ Hw). by right.
  - destruct (F1 !! k) as [f1|] eqn:Hf1; [|apply (fw_dom _ _ _ _ _ _ _ Hw) in Hf1; congruence]. exists k, f1. split; [done|].
    destruct (fw_folder _ _ _ _ _ _ _ Hw k f1 Hf1) as (f0 & ids & Hf0 & He & _). assert (f0 = f) as -> by congruence. by apply (not_introduced_extends _ _ _ _ He).
Qed.

(** The devices after a message. *)
Record devices_follow (cm : list Folder) (F : folder_map) (D D' : device_map) : Prop := {
  df_new : forall id c, D' !! id = Some c -> D !! id = Some c \/ (D !! id = None /\ id <> myID /\
    exists Fl dev, Fl ∈ cm /\ is_Some (F !! FID Fl) /\ dev ∈ Devices Fl /\ ID dev = id /\ c = introduceDevice DefaultDevice dev introducerCfg);
  df_others : forall id c, D !! id = Some c -> dc_IntroducedBy c <> introducer -> D' !! id = Some c;
  df_known : forall k id, is_Some (F !! k) -> vouched cm k id -> is_Some (D' !! id);
  df_back : dc_SkipIntroductionRemovals introducerCfg = false -> forall id c, D' !! id = Some c -> dc_IntroducedBy c = introducer -> wanted_still cm F id;
  df_kept : forall id c, D !! id = Some c -> dc_SkipIntroductionRemovals introducerCfg = true \/ wanted_still cm F id -> D' !! id = Some c }.

Lemma handle_spec cm F D : keyed F -> closed_shares F D ->
  let '(F', D', _) := handle cm F D in
  (forall k, F' !! k = None <-> F !! k = None) /\
  (forall k f g, F !! k = Some f -> F' !! k = Some g -> folder_follows (Folders cm) f g) /\
  devices_follow (Folders cm) F D D' /\ closed_shares F' D'.
Proof.
  intros Hk Hc. unfold introductions, handleIntroductions. pose proof (introduce_folders_spec (Folders cm) F D ∅ false Hk) as Hw.
  destruct (intro_folders (Folders cm) F D ∅ false) as [ [ [F1 D1] S] ch1]. destruct Hw as [Hw _].
  pose proof (fw_closed _ _ _ _ _ _ _ Hw Hc) as Hc1.
  destruct (dc_SkipIntroductionRemovals introducerCfg) eqn:Hskip.
  { unfold handleDeintroductions. rewrite Hskip. split; [apply Hw|]. split; [|split; [|done] ].
    - intros k f g Hf Hg. destruct (fw_folder _ _ _ _ _ _ _ Hw k g Hg) as (f0 & ids & Hf0 & He & Hi). rewrite Hf in Hf0. injection Hf0 as <-.
      eapply follows_extends; try done. intros id Hid. by apply Hi.
    - constructor; [apply Hw| |apply Hw|congruence|]; intros id c Hcc _; by apply Hw. }
  pose proof (deintroduce_spec S F1 D1 Hskip) as Hd. destruct (handleDeintroductions introducerCfg S F1 D1) as [ [F2 D2] ch2].
  destruct Hd as (-> & Hd & _).
  assert (forall k, is_Some (F !! k) -> forall id, vouched (Folders cm) k id -> exists k', fds_has id k' S = true) as HS.
  { intros k Hs id Hv. exists k. apply (fw_set _ _ _ _ _ _ _ Hw). by right. }
  split; [|split; [|split] ].
  - intros k. rewrite lookup_fmap, fmap_None. apply Hw.
  - intros k f g Hf Hg. rewrite lookup_fmap in Hg. destruct (F1 !! k) as [f1|] eqn:Hf1; [|done]. injection Hg as <-.
    destruct (fw_folder _ _ _ _ _ _ _ Hw k f1 Hf1) as (f0 & ids & Hf0 & He & Hi). rewrite Hf in Hf0. injection Hf0 as <-.
    eapply follows_keeps; try done. intros id Hid. by apply Hi.
  - constructor.
    + intros id c [Hcc _]%Hd. by apply Hw.
    + intros id c Hcc Hby. apply Hd. split; [by apply Hw|by left].
    + intros k id Hs Hv. destruct (fw_known _ _ _ _ _ _ _ Hw k id Hs Hv) as [c Hcc]. exists c. apply Hd. split; [done|].
      right. left. by eapply HS.
    + intros _ id c [_ Hst]%Hd Hby. by apply (stays_wanted _ _ _ _ _ _ _ _ Hw) in Hst as [?|?].
    + intros id c Hcc [?|Hwant]; [congruence|]. apply Hd. split; [by apply Hw|]. apply (stays_wanted _ _ _ _ _ _ _ _ Hw). by right.
  - intros k g Hg. rewrite lookup_fmap in Hg. destruct (F1 !! k) as [f1|] eqn:Hf1; [|done]. injection Hg as <-.
    destruct (Hc1 k f1 Hf1) as [Hn Hex]. split; [by apply filter_keys_NoDup|]. intros id Hid. unfold DeviceIDs in Hid.
    apply list_elem_of_fmap in Hid as (d & -> & [Hin Htb]%elem_of_keeps). destruct (Hex (fd_DeviceID d)) as [c Hcc]; [by apply list_elem_of_fmap_2|].
    exists c. apply Hd. split; [done|]. unfold taken_back in Htb. apply andb_false_iff in Htb as [Hb|Hb].
    + right. right. exists k, f1. split; [done|]. exists d. by split.
    + right. left. exists (fc_ID f1). by apply negb_false_iff.
Qed.

(** C38: The folders and devices follow the introducer.  A folder keeps every share
    that somebody else made, and is newly shared exactly with the devices that the
    message names for it and that need no password (all of them, if the folder is
    encrypted here), never with ourselves.  Unless removals are skipped for the
    introducer ([SkipIntroductionRemovals]: then nothing is taken back), it loses
    every share by the introducer that the message no longer names, and no other.
    Devices that somebody else introduced stay as they are, new ones are those the
    message names for a folder we have, and those that it names are all known;
    unless removals are skipped, a device of this introducer is left exactly if the
    message names it for one of our folders, or one of them is shared with it
    without the introducer.  At the end every share is still with a device that
    exists, once. *)
Theorem introductions_follow cm F D (Hk : keyed F) (Hc : closed_shares F D) :
  let '(F', D', _) := handle cm F D in
  (forall k, F' !! k = None <-> F !! k = None) /\
  (forall k f g, F !! k = Some f -> F' !! k = Some g -> folder_follows (Folders cm) f g) /\
  devices_follow (Folders cm) F D D' /\ closed_shares F' D'.
Proof. by apply handle_spec. Qed.

(** *** The same message again *)

Lemma introduce_devices_idle folderID devs f D S ch :
  (forall dev, dev ∈ devs -> ID dev <> myID -> is_Some (D !! ID dev) /\ (offered f dev -> ID dev ∈ DeviceIDs f)) ->
  exists S', intro_devices folderID devs f D S ch = (f, D, S', ch).
Proof.
  revert S. induction devs as [|dev devs IH]; intros S Hd; cbn [introduce_devices]; [by exists S|].
  assert (forall S, exists S', intro_devices folderID devs f D S ch = (f, D, S', ch)) as IH'.
  { intros S1. apply IH. intros d Hin. apply Hd. by right. }
  case_bool_decide as Eme; [apply IH'|]. destruct (Hd dev) as [ [c Hcc] Hof]; [left|done|]. rewrite Hcc. cbn [andb].
  destruct (SharedWith (ID dev) f) eqn:Esh; [apply IH'|]. destruct (negb _ && negb _) eqn:Eb; [apply IH'|].
  apply (offered_dec f dev Eme) in Eb. apply Hof, SharedWith_iff in Eb. congruence.
Qed.
Lemma introduce_folders_idle cm F D S ch :
  (forall k f id, F !! k = Some f -> vouched cm k id -> is_Some (D !! id)) ->
  (forall k f id, F !! k = Some f -> vouched_plain cm f id -> id ∈ DeviceIDs f) -> keyed F ->
  exists S', intro_folders cm F D S ch = (F, D, S', ch).
Proof.
  intros Hv Hp Hk. revert S. induction cm as [|Fl cm IH]; intros S; cbn [introduce_folders]; [by exists S|].
  assert (forall S, exists S', intro_folders cm F D S ch = (F, D, S', ch)) as IH'.
  { apply IH; intros k f id Hf Hvo; [apply (Hv k f id Hf), vouched_cons; by left|apply (Hp k f id Hf), vouched_plain_cons; by left]. }
  destruct (F !! FID Fl) as [f|] eqn:Hf; [|apply IH'].
  destruct (introduce_devices_idle (FID Fl) (Devices Fl) f D S false) as [S1 ->]; [|apply IH'].
  intros dev Hd Hne. split.
  - apply (Hv (FID Fl) f _ Hf), vouched_cons. right. split; [done|]. split; [done|]. by exists dev.
  - intros Ho. apply (Hp (FID Fl) f _ Hf), vouched_plain_cons. right. rewrite (Hk _ _ Hf). split; [done|]. by exists dev.
Qed.

Lemma not_introduced_filter ds id : not_introduced ds id <-> id ∈ map fd_DeviceID (List.filter (fun d => negb (by_introducer d)) ds).
Proof.
  unfold not_introduced. rewrite list_elem_of_fmap. split.
  - intros (d & Hd & <- & Hb). exists d. split; [done|]. rewrite list_elem_of_In, filter_In, <- list_elem_of_In, Hb. done.
  - intros (d & -> & Hd). rewrite list_elem_of_In, filter_In, <- list_elem_of_In in Hd. destruct Hd as [Hd Hb%negb_true_iff]. by exists d.
Qed.
Lemma vouched_plain_same cm f g ds id : g = set_Devices ds f -> vouched_plain cm g id <-> vouched_plain cm f id.
Proof. by intros ->. Qed.

(** A message that was followed is settled: the same message once more changes
    neither folders nor devices, and the configuration is not written again. *)
Theorem introductions_settle cm F D (Hk : keyed F) (Hc : closed_shares F D) :
  let '(F', D', _) := handle cm F D in handle cm F' D' = (F', D', false).
Proof.
  pose proof (handle_spec cm F D Hk Hc) as Hs.
  unfold introductions, handleIntroductions in Hs |- *. pose proof (introduce_folders_spec (Folders cm) F D ∅ false Hk) as Hw.
  destruct (intro_folders (Folders cm) F D ∅ false) as [ [ [F1 D1] S] ch1]. destruct Hw as [Hw _].
  destruct (handleDeintroductions introducerCfg S F1 D1) as [ [F2 D2] ch2] eqn:E2. destruct Hs as (Hdom & Hff & Hdf & Hc2).
  assert (forall k g, F2 !! k = Some g -> exists f, F !! k = Some f /\ folder_follows (Folders cm) f g) as Hg.
  { intros k g Hg. destruct (F !! k) as [f|] eqn:Hf; [exists f; split; [done|by apply (Hff k)]|]. apply Hdom in Hf. congruence. }
  assert (keyed F2) as Hk2.
  { intros k g Hgk. destruct (Hg k g Hgk) as (f & Hf & Hfo). rewrite (ff_same _ _ _ Hfo). exact (Hk _ _ Hf). }
  destruct (introduce_folders_idle (Folders cm) F2 D2 ∅ false) as [S2 ES2].
  { intros k g id Hgk Hv. destruct (Hg k g Hgk) as (f & Hf & _). apply (df_known _ _ _ _ Hdf k id); [by eexists|done]. }
  { intros k g id Hgk Hv. destruct (Hg k g Hgk) as (f & Hf & Hfo). apply (ff_all _ _ _ Hfo). by apply (vouched_plain_same _ _ _ _ _ (ff_same _ _ _ Hfo)). }
  { done. }
  pose proof (introduce_folders_spec (Folders cm) F2 D2 ∅ false Hk2) as Hw2. rewrite ES2 in Hw2 |- *. destruct Hw2 as [Hw2 _].
  destruct (dc_SkipIntroductionRemovals introducerCfg) eqn:Hskip.
  { unfold handleDeintroductions. by rewrite Hskip. }
  assert (forall k id, is_Some (F2 !! k) -> vouched (Folders cm) k id -> fds_has id k S2 = true) as HS2.
  { intros k id Hsm Hv. apply (fw_set _ _ _ _ _ _ _ Hw2). by right. }
  pose proof (deintroduce_spec S F1 D1 Hskip) as Hd1. rewrite E2 in Hd1. destruct Hd1 as (E1 & Hd1 & _).
  pose proof (deintroduce_spec S2 F2 D2 Hskip) as Hd2. destruct (handleDeintroductions introducerCfg S2 F2 D2) as [ [F3 D3] ch3].
  destruct Hd2 as (E3 & Hd2 & Hch).
  assert (forall k g d, F2 !! k = Some g -> d ∈ fc_Devices g -> tb S2 (fc_ID g) d = false) as Htb.
  { intros k g d Hgk Hd. destruct (Hg k g Hgk) as (f & Hf & Hfo). unfold taken_back. apply andb_false_iff.
    destruct (bool_decide _) eqn:Eb; [right|by left]. apply bool_decide_eq_true in Eb. apply negb_false_iff.
    rewrite (Hk2 _ _ Hgk). apply HS2; [by eexists|]. rewrite <- (Hk _ _ Hf). by apply (ff_back _ _ _ Hfo Hskip). }
  assert (forall id c, D2 !! id = Some c -> stays S2 F2 id c) as Hst.
  { intros id c Hcc. destruct (proj1 (Hd1 id c) Hcc) as [_ [?|[ [k Hhas]|(k & f1 & Hf1 & Hni)] ] ]; [by left|right; left|right; right].
    - apply (fw_set _ _ _ _ _ _ _ Hw) in Hhas as [Hhas|[Hsm Hv] ].
      { unfold fds_has in Hhas. rewrite lookup_empty in Hhas. apply bool_decide_eq_true in Hhas. by apply not_elem_of_empty in Hhas. }
      exists k. apply HS2; [|done]. apply not_eq_None_Some. rewrite Hdom. by apply not_eq_None_Some.
    - exists k, (keeps S f1). split; [by rewrite E1, lookup_fmap, Hf1|]. apply not_introduced_filter. cbn.
      rewrite filter_filter_sub; [by apply not_introduced_filter|]. intros d Hb. destruct (tb S (fc_ID f1) d) eqn:E; [|done]. apply tb_by in E. by rewrite E in Hb. }
  rewrite (Hch Htb Hst). f_equal. f_equal.
  - rewrite E3. rewrite <- (map_fmap_id F2) at 2. apply map_fmap_ext. intros k g Hgk. apply keeps_nothing. intros d Hd. by apply (Htb k g).
  - apply map_eq. intros id. apply option_eq. intros c. rewrite Hd2. split; [by intros [? _]|]. intros Hcc. split; [done|by apply Hst].
Qed.
End Introducers.

(** *** An introducer that names two devices, one of them encrypted *)

Definition ex_boss : DeviceConfiguration :=
  {| dc_DeviceID := gostr "boss"; dc_Name := []; dc_Addresses := []; dc_Compression := 0; dc_CertName := []; dc_Introducer := true;
     dc_SkipIntroductionRemovals := false; dc_IntroducedBy := EmptyDeviceID; dc_Paused := false; dc_AutoAcceptFolders := false;
     dc_IgnoredFolders := []; dc_MaxRequestKiB := 0; dc_Untrusted := false |}.
Definition ex_told (id token : bytes) : Device :=
  {| ID := id; DName := []; Addresses := [gostr "dynamic"; gostr "tcp://h"]; DCompression := 0; CertName := []; MaxSequence := 0;
     Introducer := false; IndexID := 0; SkipIntroductionRemovals := false; EncryptionPasswordToken := token |}.
Definition ex_message (devs : list Device) : ClusterConfig :=
  {| Folders := [{| FID := gostr "docs"; Label := []; FType := 0; StopReason := 0; Devices := devs |}]; Secondary := false |}.
Definition ex_docs (devs : list FolderDeviceConfiguration) : FolderConfiguration := set_Devices devs ConfigProps.ex_folder.
Definition ex_by_boss (id : bytes) : FolderDeviceConfiguration := introduced_share ex_boss id.
(** Shared with ourselves, the introducer, and a device it introduced before. *)
Definition ex_docs_before : FolderConfiguration := ex_docs [ConfigProps.ex_share (gostr "me") []; ConfigProps.ex_share (gostr "boss") []; ex_by_boss (gostr "old")].
Definition ex_old_device : DeviceConfiguration := introduceDevice ex_boss (ex_told (gostr "old") []) ex_boss.
Definition ex_before : Configuration :=
  {| cf_Folders := [ex_docs_before]; cf_Devices := [ConfigProps.ex_device (gostr "me") false; ex_boss; ex_old_device] |}.
Definition ex_boss_says : ClusterConfig :=
  ex_message [ex_told (gostr "me") []; ex_told (gostr "boss") []; ex_told (gostr "new") []; ex_told (gostr "vault") (gostr "tok")].
Definition ex_after : Configuration := apply_introductions (gostr "me") ex_boss ex_boss ConfigProps.ex_iter ex_boss_says ex_before.

Lemma ex_keyed : keyed (FolderMap ex_before) /\ closed_shares (FolderMap ex_before) (DeviceMap ex_before).
Proof.
  assert (forall k f, FolderMap ex_before !! k = Some f -> k = gostr "docs" /\ f = ex_docs_before) as H.
  { intros k f Hf. change (FolderMap ex_before) with ({[gostr "docs" := ex_docs_before]} : folder_map) in Hf.
    by apply lookup_singleton_Some in Hf as [<- <-]. }
  split; intros k f Hf; destruct (H k f Hf) as [-> ->]; [done|]. split; [by apply (bool_decide_unpack _); vm_compute|].
  intros id Hid. change (DeviceIDs ex_docs_before) with [gostr "me"; gostr "boss"; gostr "old"] in Hid.
  repeat (apply elem_of_cons in Hid as [->|Hid]; [eexists; vm_compute; reflexivity|]). by apply not_elem_of_nil in Hid.
Qed.
Lemma introductions_follow_witness :
  map DeviceIDs (cf_Folders ex_after) = [ [gostr "me"; gostr "boss"; gostr "new"] ] /\
  let '(F', D', _) := introductions (gostr "me") ex_boss ex_boss ex_boss_says (FolderMap ex_before) (DeviceMap ex_before) in
  closed_shares F' D'.
Proof.
  split; [vm_compute; reflexivity|].
  pose proof (introductions_follow (gostr "me") ex_boss ex_boss ex_boss_says _ _ (proj1 ex_keyed) (proj2 ex_keyed)) as H.
  destruct (introductions _ _ _ _ _ _) as [ [F' D'] ch]. exact (proj2 (proj2 (proj2 H))).
Defined.
Lemma introductions_settle_witness :
  let '(F', D', _) := introductions (gostr "me") ex_boss ex_boss ex_boss_says (FolderMap ex_before) (DeviceMap ex_before) in
  introductions (gostr "me") ex_boss ex_boss ex_boss_says F' D' = (F', D', false).
Proof. exact (introductions_settle (gostr "me") ex_boss ex_boss ex_boss_says _ _ (proj1 ex_keyed) (proj2 ex_keyed)). Defined.

(** A device that is only named with a token is made known, but whether the
    configuration keeps it depends on whether something else changed. *)
Lemma introduced_by_accident :
  let alone := ex_message [ex_told (gostr "me") []; ex_told (gostr "old") []; ex_told (gostr "vault") (gostr "tok")] in
  is_Some ((introductions (gostr "me") ex_boss ex_boss alone (FolderMap ex_before) (DeviceMap ex_before)).1.2 !! gostr "vault") /\
  apply_introductions (gostr "me") ex_boss ex_boss ConfigProps.ex_iter alone ex_before = ex_before /\
  gostr "vault" ∈ map dc_DeviceID (cf_Devices ex_after).
Proof.
  cbv zeta. split; [eexists; vm_compute; reflexivity|]. split; [vm_compute; reflexivity|].
  apply (bool_decide_unpack _). vm_compute. exact I.
Qed.
