(* ===== verification/ModelState.v ===== *)
(** * The devices of the running program (lib/model/model.go)

    The connections of each device, which one of them carries the indexes, what
    is kept for a device that is connected, and what becomes of its cluster
    configurations and indexes.  The registry of index handlers of a device is an
    interface, which [IndexHandler] implements.  A connection is its ID and the
    device it leads to. *)
From Stdlib Require Import ZArith List Lia.
From Stdlib Require Import Strings.Byte.
From stdpp Require Import base list option gmap numbers tactics.
From S2P Require Import Prelude GoLib Vector FileInfo Connection EncryptedNames Encryption FolderScan Config ClusterConfigs.
From S2P Require PullQueue PullState GlobalState FolderStore Downloads IndexHandler.

#[local] Open Scope Z_scope.

(** ** The index handlers of a device *)

Class HandlerRegistry (R : Type) :=
  { reg_new : bytes -> option Downloads.deviceDownloadState -> R;
    reg_RegisterFolderState : FolderConfiguration -> R -> R;
    reg_AddIndexInfo : bytes -> clusterConfigDeviceInfo -> R -> R;
    reg_Remove : bytes -> R -> R;
    reg_RemoveAllExcept : gset bytes -> R -> R }.

(** The registry of [IndexHandler]: devices have numbers in the database. *)
Section Implementation.
Context (Sort : (GlobalState.fileRow -> GlobalState.fileRow -> Z) -> list GlobalState.fileRow -> list GlobalState.fileRow).
Context (now newID : Z) (device_number : bytes -> Z) (sdb : gmap bytes FolderStore.folderStore).
Definition to_registry_cfg (f : FolderConfiguration) : IndexHandler.FolderConfiguration :=
  {| IndexHandler.cfgID := fc_ID f; IndexHandler.cfgReceiveEncrypted := isEncrypted (fc_Type f); IndexHandler.cfgPaused := fc_Paused f;
     IndexHandler.cfgDevices := map device_number (DeviceIDs f) |}.
Definition to_registry_device (d : Device) : IndexHandler.Device :=
  {| IndexHandler.IndexID := IndexID d; IndexHandler.MaxSequence := MaxSequence d |}.
Definition to_registry_info (i : clusterConfigDeviceInfo) : IndexHandler.clusterConfigDeviceInfo :=
  {| IndexHandler.local := to_registry_device (local i); IndexHandler.remote := to_registry_device (remote i) |}.
#[local] Instance IndexHandler_registry : HandlerRegistry IndexHandler.indexHandlerRegistry :=
  { reg_new dev d := IndexHandler.newIndexHandlerRegistry (device_number dev) sdb d;
    reg_RegisterFolderState cfg := IndexHandler.RegisterFolderState Sort now newID (to_registry_cfg cfg);
    reg_AddIndexInfo folder info := IndexHandler.AddIndexInfo Sort now newID folder (to_registry_info info);
    reg_Remove := IndexHandler.Remove;
    reg_RemoveAllExcept := IndexHandler.RemoveAllExcept }.
End Implementation.

(** ** State *)

Inductive remoteFolderState := remoteFolderUnknown | remoteFolderNotSharing | remoteFolderPaused | remoteFolderValid.
#[export] Instance remoteFolderState_eq_dec : EqDecision remoteFolderState.
Proof. solve_decision. Defined.

Record conn := { ConnectionID : bytes; DeviceID : bytes }.
#[export] Instance conn_eq_dec : EqDecision conn.
Proof. solve_decision. Defined.

(** [service_map.go]: services and the tokens by which the supervisor knows them.
    A service is removed from the map by [RemoveAndWaitChan], but its token is
    not. *)
Record serviceMap (S : Type) := { services : gmap bytes S; tokens : gset bytes }.
Arguments services {S} _.
Arguments tokens {S} _.
Section ServiceMap.
Context {S : Type}.
Definition sm_new : serviceMap S := {| services := ∅; tokens := ∅ |}.
Definition sm_Add (k : bytes) (v : S) (s : serviceMap S) : serviceMap S := {| services := <[k := v]> (services s); tokens := {[k]} ∪ tokens s |}.
Definition sm_Get (k : bytes) (s : serviceMap S) : option S := services s !! k.
(** [Remove], and whether it says that something was removed. *)
Definition sm_Remove (k : bytes) (s : serviceMap S) : serviceMap S * bool :=
  ({| services := delete k (services s); tokens := tokens s ∖ {[k]} |},
   if bool_decide (k ∈ tokens s) then true else match services s !! k with Some _ => true | None => false end).
Definition sm_RemoveAndWaitChan (k : bytes) (s : serviceMap S) : serviceMap S := {| services := delete k (services s); tokens := tokens s |}.
(** [Each] with a function that returns no error. *)
Definition sm_Each (f : S -> S) (s : serviceMap S) : serviceMap S := {| services := f <$> services s; tokens := tokens s |}.
End ServiceMap.

(** What is done to a connection after the lock is released. *)
Inductive action :=
  | Start (c : conn)
  | SendClusterConfig (c : conn) (* the generated one *)
  | SendSecondary (c : conn)
  | CloseConn (c : conn).

Section Model.
Context {R : Type} `{HandlerRegistry R}.

Record model :=
  { connections : gmap bytes conn; deviceConnIDs : gmap bytes (list bytes); promotedConnID : gmap bytes bytes;
    connRequestLimiters : gmap bytes Z; closed : gset bytes; helloMessages : gmap bytes Hello;
    deviceDownloads : gmap bytes Downloads.deviceDownloadState; remoteFolderStates : gmap bytes (gmap bytes remoteFolderState);
    indexHandlers : serviceMap (conn * R);
    (* the connections that the progress emitter sends to, by device *)
    subscribed : gmap bytes (conn * list bytes);
    (* the connections that were started, and the timer *)
    started : gset bytes; promotionTimer : bool }.

Definition set_conns (cs : gmap bytes conn) (ids : gmap bytes (list bytes)) (cl : gset bytes) (m : model) : model :=
  {| connections := cs; deviceConnIDs := ids; promotedConnID := promotedConnID m; connRequestLimiters := connRequestLimiters m; closed := cl;
     helloMessages := helloMessages m; deviceDownloads := deviceDownloads m; remoteFolderStates := remoteFolderStates m;
     indexHandlers := indexHandlers m; subscribed := subscribed m; started := started m; promotionTimer := promotionTimer m |}.
Definition set_promoted (p : gmap bytes bytes) (m : model) : model :=
  {| connections := connections m; deviceConnIDs := deviceConnIDs m; promotedConnID := p; connRequestLimiters := connRequestLimiters m;
     closed := closed m; helloMessages := helloMessages m; deviceDownloads := deviceDownloads m; remoteFolderStates := remoteFolderStates m;
     indexHandlers := indexHandlers m; subscribed := subscribed m; started := started m; promotionTimer := promotionTimer m |}.
Definition set_peer (l : gmap bytes Z) (h : gmap bytes Hello) (d : gmap bytes Downloads.deviceDownloadState)
    (r : gmap bytes (gmap bytes remoteFolderState)) (m : model) : model :=
  {| connections := connections m; deviceConnIDs := deviceConnIDs m; promotedConnID := promotedConnID m; connRequestLimiters := l;
     closed := closed m; helloMessages := h; deviceDownloads := d; remoteFolderStates := r; indexHandlers := indexHandlers m;
     subscribed := subscribed m; started := started m; promotionTimer := promotionTimer m |}.
Definition set_handlers (hs : serviceMap (conn * R)) (s : gmap bytes (conn * list bytes)) (m : model) : model :=
  {| connections := connections m; deviceConnIDs := deviceConnIDs m; promotedConnID := promotedConnID m;
     connRequestLimiters := connRequestLimiters m; closed := closed m; helloMessages := helloMessages m;
     deviceDownloads := deviceDownloads m; remoteFolderStates := remoteFolderStates m; indexHandlers := hs; subscribed := s;
     started := started m; promotionTimer := promotionTimer m |}.
Definition set_timer (st : gset bytes) (t : bool) (m : model) : model :=
  {| connections := connections m; deviceConnIDs := deviceConnIDs m; promotedConnID := promotedConnID m;
     connRequestLimiters := connRequestLimiters m; closed := closed m; helloMessages := helloMessages m;
     deviceDownloads := deviceDownloads m; remoteFolderStates := remoteFolderStates m; indexHandlers := indexHandlers m;
     subscribed := subscribed m; started := st; promotionTimer := t |}.

(** [defaultPullerPendingKiB]; a negative setting leaves what is there. *)
Definition defaultPullerPendingKiB : Z := 2 * 16384.
Definition setConnRequestLimitersLocked (cfg : DeviceConfiguration) (m : model) : model :=
  let set n := set_peer (<[dc_DeviceID cfg := n]> (connRequestLimiters m)) (helloMessages m) (deviceDownloads m) (remoteFolderStates m) m in
  if 0 <? dc_MaxRequestKiB cfg then set (1024 * dc_MaxRequestKiB cfg)
  else if dc_MaxRequestKiB cfg =? 0 then set (1024 * defaultPullerPendingKiB)
  else m.
(** The state of [NewModel]. *)
Definition NewModel (devices : list DeviceConfiguration) : model :=
  fold_left (fun m cfg => setConnRequestLimitersLocked cfg m) devices
    {| connections := ∅; deviceConnIDs := ∅; promotedConnID := ∅; connRequestLimiters := ∅; closed := ∅; helloMessages := ∅;
       deviceDownloads := ∅; remoteFolderStates := ∅; indexHandlers := sm_new; subscribed := ∅; started := ∅; promotionTimer := true |}.

(** ** Connections *)

Definition scheduleConnectionPromotion (m : model) : model := set_timer (started m) true m.
(** The name in the configuration is updated as well ([set_name]). *)
Definition AddConnection (cfg : Configuration) (c : conn) (hello : Hello) (m : model) : model :=
  match Configuration_Device (DeviceID c) cfg with
  | None => m
  | Some _ =>
      let ids := default [] (deviceConnIDs m !! DeviceID c) ++ [ConnectionID c] in
      let m := set_conns (<[ConnectionID c := c]> (connections m)) (<[DeviceID c := ids]> (deviceConnIDs m)) ({[ConnectionID c]} ∪ closed m) m in
      let downloads := match deviceDownloads m !! DeviceID c with
        | None => <[DeviceID c := Downloads.newDeviceDownloadState]> (deviceDownloads m) | Some _ => deviceDownloads m end in
      let m := set_peer (connRequestLimiters m) (<[DeviceID c := hello]> (helloMessages m)) downloads (remoteFolderStates m) m in
      scheduleConnectionPromotion m
  end.
Fixpoint set_first_name (overwrite : bool) (id name : bytes) (ds : list DeviceConfiguration) : list DeviceConfiguration :=
  match ds with
  | [] => []
  | d :: ds =>
      if bool_decide (dc_DeviceID d = id) then
        (if is_nil (dc_Name d) || overwrite then
           {| dc_DeviceID := dc_DeviceID d; dc_Name := name; dc_Addresses := dc_Addresses d; dc_Compression := dc_Compression d;
              dc_CertName := dc_CertName d; dc_Introducer := dc_Introducer d; dc_SkipIntroductionRemovals := dc_SkipIntroductionRemovals d;
              dc_IntroducedBy := dc_IntroducedBy d; dc_Paused := dc_Paused d; dc_AutoAcceptFolders := dc_AutoAcceptFolders d;
              dc_IgnoredFolders := dc_IgnoredFolders d; dc_MaxRequestKiB := dc_MaxRequestKiB d; dc_Untrusted := dc_Untrusted d |}
         else d) :: ds
      else d :: set_first_name overwrite id name ds
  end.
Definition set_name (overwrite : bool) (c : conn) (hello : Hello) (cfg : Configuration) : Configuration :=
  match Configuration_Device (DeviceID c) cfg with
  | None => cfg
  | Some d =>
      if (is_nil (dc_Name d) || overwrite) && negb (is_nil (DeviceName hello)) then
        {| cf_Folders := cf_Folders cfg; cf_Devices := set_first_name overwrite (DeviceID c) (DeviceName hello) (cf_Devices cfg) |}
      else cfg
  end.

(** [without] *)
Fixpoint without (s : list bytes) (e : bytes) : list bytes :=
  match s with
  | [] => []
  | x :: s => if bool_decide (x = e) then s else x :: without s e
  end.
Definition Closed (c : conn) (m : model) : model :=
  match connections m !! ConnectionID c with
  | None => m
  | Some cn =>
      let dev := DeviceID c in
      let removedIsPrimary := bool_decide (promotedConnID m !! dev = Some (ConnectionID c)) in
      let remainingConns := without (default [] (deviceConnIDs m !! dev)) (ConnectionID c) in
      let m := set_conns (delete (ConnectionID c) (connections m)) (deviceConnIDs m) (closed m ∖ {[ConnectionID c]}) m in
      let m :=
        if removedIsPrimary then
          let hs := match sm_Get dev (indexHandlers m) with
            | Some (c', _) => if bool_decide (ConnectionID c' = ConnectionID c) then sm_RemoveAndWaitChan dev (indexHandlers m) else indexHandlers m
            | None => indexHandlers m end in
          scheduleConnectionPromotion (set_handlers hs (delete (DeviceID cn) (subscribed m)) m)
        else m in
      if is_nil remainingConns then
        let m := set_conns (connections m) (delete dev (deviceConnIDs m)) (closed m) m in
        let m := set_promoted (delete dev (promotedConnID m)) m in
        set_peer (delete dev (connRequestLimiters m)) (delete dev (helloMessages m)) (delete dev (deviceDownloads m))
          (delete dev (remoteFolderStates m)) m
      else set_conns (connections m) (<[dev := remainingConns]> (deviceConnIDs m)) (closed m) m
  end.

(** The connections of a device that are promoted or started: the actions after
    the lock is released.  No ID, or an ID without a connection, panics. *)
Fixpoint start_others (ids : list bytes) (m : model) : outcome unit (list action) :=
  match ids with
  | [] => Ret []
  | id :: ids =>
      match connections m !! id with
      | None => Panic
      | Some c => rest ← start_others ids m; Ret ((if bool_decide (id ∈ started m) then [] else [Start c; SendSecondary c]) ++ rest)
      end
  end.
Definition promote_device (dev : bytes) (connIDs : list bytes) (m : model) : outcome unit (model * list action) :=
  match connIDs with
  | [] => Panic
  | id :: others =>
      if bool_decide (promotedConnID m !! dev = Some id) then
        acts ← start_others others m; Ret (m, acts)
      else
        match connections m !! id with
        | None => Panic
        | Some c =>
            acts ← start_others others m;
            Ret (set_promoted (<[dev := id]> (promotedConnID m)) m,
                 (if bool_decide (id ∈ started m) then [] else [Start c]) ++ SendClusterConfig c :: acts)
        end
  end.
Fixpoint promote_devices (devs : list (bytes * list bytes)) (m : model) : outcome unit (model * list action) :=
  match devs with
  | [] => Ret (m, [])
  | (dev, ids) :: devs =>
      '(m, acts) ← promote_device dev ids m;
      '(m, rest) ← promote_devices devs m;
      Ret (m, acts ++ rest)
  end.
Definition do_action (m : model) (a : action) : model :=
  match a with
  | Start c => set_timer ({[ConnectionID c]} ∪ started m) (promotionTimer m) m
  | _ => m
  end.
(** The timer has fired; the devices in the order in which the map is ranged over. *)
Definition promoteConnections (order : list (bytes * list bytes)) (m : model) : outcome unit (model * list action) :=
  '(m, acts) ← promote_devices order (set_timer (started m) false m);
  Ret (fold_left do_action acts m, acts).

(** [rnd] is [rand.Intn]; an entry without a connection panics. *)
Definition requestConnectionForDevice (rnd : Z -> Z) (dev : bytes) (m : model) : outcome unit (option conn) :=
  match deviceConnIDs m !! dev with
  | None => Ret None
  | Some [] => Panic
  | Some (id :: ids) =>
      let connID := if (1 <? zlen (id :: ids)) then (id :: ids) !! Z.to_nat (rnd (zlen (id :: ids) - 1) + 1) else Some id in
      match connID with
      | None => Panic
      | Some connID => Ret (connections m !! connID)
      end
  end.
Definition ConnectedTo (dev : bytes) (m : model) : bool := match deviceConnIDs m !! dev with Some _ => true | None => false end.
(** The connections that a cluster configuration is sent on. *)
Fixpoint sendClusterConfig_conns (ids : list bytes) (m : model) : outcome unit (list conn) :=
  match ids with
  | [] => Ret []
  | id :: ids =>
      match deviceConnIDs m !! id with
      | None => sendClusterConfig_conns ids m
      | Some [] => Panic
      | Some (cid :: _) =>
          match connections m !! cid with
          | None => Panic (* the ID of a nil connection *)
          | Some c => cs ← sendClusterConfig_conns ids m; Ret (c :: cs)
          end
      end
  end.
Definition OnHello (cfg : Configuration) (dev : bytes) : option cc_err :=
  match Configuration_Device dev cfg with None => Some errDeviceUnknown | Some _ => None end.

(** ** Index handlers *)

(** [folderCfgs] in the order in which the map is ranged over. *)
Definition ensureIndexHandler (folderCfgs : list FolderConfiguration) (c : conn) (m : model) : model :=
  let make hs := set_handlers (sm_Add (DeviceID c) (c, fold_left (fun r f => reg_RegisterFolderState f r) folderCfgs
      (reg_new (DeviceID c) (deviceDownloads m !! DeviceID c))) hs) (subscribed m) m in
  match sm_Get (DeviceID c) (indexHandlers m) with
  | Some (c', _) => if bool_decide (ConnectionID c' = ConnectionID c) then m else make (sm_RemoveAndWaitChan (DeviceID c) (indexHandlers m))
  | None => make (indexHandlers m)
  end.
Definition getIndexHandlerRLocked (c : conn) (m : model) : option R :=
  match sm_Get (DeviceID c) (indexHandlers m) with
  | Some (c', r) => if bool_decide (ConnectionID c' = ConnectionID c) then Some r else None
  | None => None
  end.
Inductive index_refused := RefusedMissing | RefusedPaused | RefusedNotRunning.
(** The registry that takes in an index. *)
Definition handleIndex (cfg : Configuration) (c : conn) (folder : bytes) (m : model) : index_refused + R :=
  match Configuration_Folder folder cfg with
  | None => inl RefusedMissing
  | Some f =>
      if negb (SharedWith (DeviceID c) f) then inl RefusedMissing
      else if fc_Paused f then inl RefusedPaused
      else match getIndexHandlerRLocked c m with None => inl RefusedNotRunning | Some r => inr r end
  end.

(** What [ClusterConfig] keeps of the folders of the peer. *)
Definition set_remote_states (dev : bytes) (states : gmap bytes remoteFolderState) (m : model) : model :=
  set_peer (connRequestLimiters m) (helloMessages m) (deviceDownloads m) (<[dev := states]> (remoteFolderStates m)) m.
(** The progress emitter is told of the primary connection, if there is one. *)
Definition subscribe_temporary (dev : bytes) (folders : list bytes) (m : model) : model :=
  match deviceConnIDs m !! dev with
  | Some (id :: _) =>
      match connections m !! id with
      | Some c => set_handlers (indexHandlers m) (<[DeviceID c := (c, folders)]> (subscribed m)) m
      | None => m
      end
  | _ => m
  end.

(** A progress message on connection [c]; [folderCfgs] are the folders that run.
    A device without a record has a nil one, which takes nothing in. *)
Definition set_downloads (dev : bytes) (folder : bytes) (updates : list Downloads.FileDownloadProgressUpdate) (m : model) : model :=
  match Downloads.downloads_Update (deviceDownloads m !! dev) folder updates with
  | Some d => set_peer (connRequestLimiters m) (helloMessages m) (<[dev := d]> (deviceDownloads m)) (remoteFolderStates m) m
  | None => m
  end.
Definition DownloadProgress (folderCfgs : gmap bytes FolderConfiguration) (c : conn) (folder : bytes)
    (updates : list Downloads.FileDownloadProgressUpdate) (m : model) : model :=
  match folderCfgs !! folder with
  | None => m
  | Some cfg => if negb (SharedWith (DeviceID c) cfg) then m else set_downloads (DeviceID c) folder updates m
  end.

(** ** Availability *)

Record Availability := { av_ID : bytes; av_FromTemporary : bool }.
(** [devs]: the devices that the database says have the global version. *)
Definition fileAvailabilityRLocked (folder : bytes) (devs : list bytes) (m : model) : list Availability :=
  flat_map (fun device =>
    match remoteFolderStates m !! device with
    | None => []
    | Some states =>
        if negb (bool_decide (default remoteFolderUnknown (states !! folder) = remoteFolderValid)) then []
        else if ConnectedTo device m then [{| av_ID := device; av_FromTemporary := false |}] else []
    end) devs.
Definition blockAvailabilityFromTemporaryRLocked (cfg : FolderConfiguration) (file : FileInfo) (Offset : Z) (m : model) : list Availability :=
  flat_map (fun device =>
    if Downloads.downloads_Has (deviceDownloads m !! device) (fc_ID cfg) (Name file) (Version file) (Z.quot Offset (FileInfo_BlockSize file))
    then [{| av_ID := device; av_FromTemporary := true |}] else []) (DeviceIDs cfg).
Definition blockAvailabilityRLocked (cfg : FolderConfiguration) (devs : list bytes) (file : FileInfo) (Offset : Z) (m : model) : list Availability :=
  fileAvailabilityRLocked (fc_ID cfg) devs m ++ blockAvailabilityFromTemporaryRLocked cfg file Offset m.
End Model.
