(* ===== verification/ModelStateProps.v ===== *)
(** * The devices of the running program: theorems

    An invariant of the connections over every order of connections that come and
    go, promotions and cluster configurations, and what follows from it.  Two
    cases in which something outlives its connection are at the end. *)
From Stdlib Require Import ZArith List Lia.
From Stdlib Require Import Strings.Byte.
From stdpp Require Import base list option gmap numbers tactics.
From S2P Require Import Prelude GoLib Vector FileInfo Connection EncryptedNames Encryption FolderScan Config ClusterConfigs ModelState.
From S2P Require Downloads DownloadsProps IndexHandler ConfigProps.

#[local] Open Scope Z_scope.

Section ModelState.
Context {R : Type} `{HandlerRegistry R}.
Abbreviation model := (@model R).
Implicit Types m : model.

(** ** The invariant *)

(** The documented invariant: a device with an entry has a connection; and what
    is kept for a device is kept while it is connected. *)
Record conns_ok (m : model) : Prop := {
  ok_ids : forall dev ids, deviceConnIDs m !! dev = Some ids -> ids <> [] /\ NoDup ids /\
    forall id, id ∈ ids -> connections m !! id = Some {| ConnectionID := id; DeviceID := dev |};
  ok_conns : forall id c, connections m !! id = Some c -> ConnectionID c = id /\ id ∈ default [] (deviceConnIDs m !! DeviceID c);
  ok_closed : closed m = dom (connections m);
  ok_hello : dom (helloMessages m) = dom (deviceConnIDs m);
  ok_downloads : dom (deviceDownloads m) = dom (deviceConnIDs m);
  ok_states : dom (remoteFolderStates m) ⊆ dom (deviceConnIDs m);
  ok_promoted : dom (promotedConnID m) ⊆ dom (deviceConnIDs m);
  ok_primary : forall dev id, promotedConnID m !! dev = Some id -> is_Some (connections m !! id) -> id ∈ started m;
  ok_timer : promotionTimer m = false -> (forall dev ids, deviceConnIDs m !! dev = Some ids -> promotedConnID m !! dev = head ids) /\
    (forall id, is_Some (connections m !! id) -> id ∈ started m) }.

(** What happens to the model: connections are new when they are added, and
    no cluster configuration comes in on a connection that was closed.  A
    progress message may: its handler reads the record of the device after it
    looked at the folder.  An index that comes in takes files out of the
    record ([step_forget], [IndexHandler.makeForgetUpdate]). *)
Inductive model_step (cfg : Configuration) : gset bytes * model -> gset bytes * model -> Prop :=
  | step_add used m c hello : ConnectionID c ∉ used ->
      model_step cfg (used, m) ({[ConnectionID c]} ∪ used, AddConnection cfg c hello m)
  | step_closed used m c : connections m !! ConnectionID c = Some c \/ connections m !! ConnectionID c = None ->
      model_step cfg (used, m) (used, Closed c m)
  | step_promote used m order m' acts : order ≡ₚ map_to_list (deviceConnIDs m) -> promoteConnections order m = Ret (m', acts) ->
      model_step cfg (used, m) (used, m')
  | step_handler used m c folderCfgs : connections m !! ConnectionID c = Some c ->
      model_step cfg (used, m) (used, ensureIndexHandler folderCfgs c m)
  | step_states used m c states : connections m !! ConnectionID c = Some c ->
      model_step cfg (used, m) (used, set_remote_states (DeviceID c) states m)
  | step_subscribe used m c folders : connections m !! ConnectionID c = Some c ->
      model_step cfg (used, m) (used, subscribe_temporary (DeviceID c) folders m)
  | step_progress used m c folderCfgs folder updates : model_step cfg (used, m) (used, DownloadProgress folderCfgs c folder updates m)
  | step_forget used m c folder updates : Forall (fun u => Downloads.UpdateType u = Downloads.FileDownloadProgressUpdateTypeForget) updates ->
      model_step cfg (used, m) (used, set_downloads (DeviceID c) folder updates m)
  | step_limiter used m d : model_step cfg (used, m) (used, setConnRequestLimitersLocked d m).
Inductive model_reach (cfg : Configuration) : gset bytes * model -> Prop :=
  | reach_new devices : model_reach cfg (∅, NewModel devices)
  | reach_step s s' : model_reach cfg s -> model_step cfg s s' -> model_reach cfg s'.

(** IDs are not used again. *)
Definition used_ok (used : gset bytes) (m : model) : Prop :=
  (forall id, is_Some (connections m !! id) -> id ∈ used) /\ (forall dev id, promotedConnID m !! dev = Some id -> id ∈ used).

Lemma limiter_same d m : let m' := setConnRequestLimitersLocked d m in
  connections m' = connections m /\ deviceConnIDs m' = deviceConnIDs m /\ promotedConnID m' = promotedConnID m /\ closed m' = closed m /\
  helloMessages m' = helloMessages m /\ deviceDownloads m' = deviceDownloads m /\ remoteFolderStates m' = remoteFolderStates m /\
  started m' = started m /\ promotionTimer m' = promotionTimer m.
Proof. cbv zeta. unfold setConnRequestLimitersLocked. by repeat case_match. Qed.
Lemma limiter_ok d m : conns_ok m -> conns_ok (setConnRequestLimitersLocked d m).
Proof.
  intros []. destruct (limiter_same d m) as (E1 & E2 & E3 & E4 & E5 & E6 & E7 & E8 & E9).
  constructor; rewrite ?E1, ?E2, ?E3, ?E4, ?E5, ?E6, ?E7, ?E8, ?E9; done.
Qed.
Lemma model_new_ok devices : conns_ok (NewModel devices) /\ used_ok ∅ (NewModel devices).
Proof.
  unfold NewModel. set (m0 := {| connections := _ |}).
  assert (conns_ok m0 /\ used_ok ∅ m0) as Hm0.
  { split; [|split; intros *; cbn; rewrite lookup_empty; [by intros [? ?]|done] ]. constructor; cbn; try done; intros *; by rewrite lookup_empty. }
  revert Hm0. generalize m0. clear m0. induction devices as [|d ds IH]; intros m Hm; cbn [fold_left]; [done|]. apply IH.
  destruct Hm as [Hm [U1 U2] ]. split; [by apply limiter_ok|]. destruct (limiter_same d m) as (E1 & _ & E3 & _). split; by rewrite ?E1, ?E3.
Qed.

Lemma without_spec s e : NoDup s -> forall x, x ∈ without s e <-> x ∈ s /\ x <> e.
Proof.
  induction s as [|y s IH]; cbn; intros Hn x; [split; [intros Hx; by apply not_elem_of_nil in Hx|by intros [Hx _]; apply not_elem_of_nil in Hx]|].
  apply list.NoDup_cons in Hn as [Hy Hn]. case_bool_decide as E.
  - subst y. rewrite elem_of_cons. split; [intros Hx; split; [by right|by intros ->]|]. by intros [ [->|?] ?].
  - rewrite !elem_of_cons, (IH Hn). split; [intros [->|[? ?] ]; auto|]. intros [ [->|?] ?]; auto.
Qed.
Lemma without_NoDup s e : NoDup s -> NoDup (without s e).
Proof.
  induction s as [|y s IH]; cbn; intros Hn; [constructor|]. apply list.NoDup_cons in Hn as [Hy Hn]. case_bool_decide; [done|].
  apply list.NoDup_cons. split; [|by apply IH]. by intros [? _]%without_spec.
Qed.
Lemma without_head s e : head s <> Some e -> head (without s e) = head s.
Proof. destruct s as [|y s]; cbn; [done|]. intros Hne. case_bool_decide; [by subst|done]. Qed.

Lemma conn_eta c : c = {| ConnectionID := ConnectionID c; DeviceID := DeviceID c |}.
Proof. by destruct c. Qed.
Lemma dom_insert_default {A} (k : bytes) (x : A) (mp : gmap bytes A) (D : gset bytes) : dom mp = D ->
  dom (match mp !! k with None => <[k := x]> mp | Some _ => mp end) = {[k]} ∪ D.
Proof.
  intros <-. destruct (mp !! k) eqn:E; [|apply dom_insert_L]. assert (k ∈ dom mp) by (by apply elem_of_dom; rewrite E). set_solver.
Qed.
Lemma AddConnection_ok cfg c hello used m : conns_ok m -> used_ok used m -> ConnectionID c ∉ used ->
  conns_ok (AddConnection cfg c hello m) /\ used_ok ({[ConnectionID c]} ∪ used) (AddConnection cfg c hello m).
Proof.
  intros Hm [U1 U2] Hfresh. unfold AddConnection. destruct (Configuration_Device (DeviceID c) cfg) as [d|].
  2: { split; [done|]. split; [intros id Hid; specialize (U1 id Hid)|intros dev id Hid; specialize (U2 dev id Hid)]; set_solver. }
  assert (connections m !! ConnectionID c = None) as Hnone.
  { destruct (connections m !! ConnectionID c) eqn:E; [|done]. exfalso. apply Hfresh, U1. by rewrite E. }
  destruct Hm. split; [|split].
  - constructor; cbn [connections deviceConnIDs promotedConnID closed helloMessages deviceDownloads remoteFolderStates started promotionTimer
      scheduleConnectionPromotion set_timer set_peer set_conns].
    + intros dev ids Hids. apply lookup_insert_Some in Hids as [ [<- <-]|[Hne Hids] ].
      * assert (NoDup (default [] (deviceConnIDs m !! DeviceID c)) /\ forall id, id ∈ default [] (deviceConnIDs m !! DeviceID c) ->
          connections m !! id = Some {| ConnectionID := id; DeviceID := DeviceID c |}) as [Hn Hold].
        { destruct (deviceConnIDs m !! DeviceID c) as [ids|] eqn:E; cbn; [by apply ok_ids0|]. split; [constructor|]. intros id Hid. by apply not_elem_of_nil in Hid. }
        split; [by destruct (default [] _)|]. split.
        -- apply list.NoDup_app. split; [done|]. split; [|apply NoDup_singleton]. intros x Hx ->%list_elem_of_singleton.
           rewrite (Hold _ Hx) in Hnone. done.
        -- intros id [Hid|Hid]%elem_of_app.
           ++ rewrite lookup_insert_ne; [by apply Hold|]. intros <-. by rewrite (Hold _ Hid) in Hnone.
           ++ apply list_elem_of_singleton in Hid as ->. rewrite lookup_insert_eq. f_equal. apply conn_eta.
      * destruct (ok_ids0 dev ids Hids) as (? & ? & Hold). split; [done|]. split; [done|]. intros id Hid.
        rewrite lookup_insert_ne; [by apply Hold|]. intros E. rewrite <- E in Hid. by rewrite (Hold _ Hid) in Hnone.
    + intros id c' Hc'. apply lookup_insert_Some in Hc' as [ [<- <-]|[Hne Hc'] ].
      * split; [done|]. rewrite lookup_insert_eq. cbn. apply elem_of_app. right. by apply list_elem_of_singleton.
      * destruct (ok_conns0 id c' Hc') as [? Hin]. split; [done|]. destruct (decide (DeviceID c' = DeviceID c)) as [E|E].
        -- rewrite E, lookup_insert_eq. cbn. apply elem_of_app. left. by rewrite <- E.
        -- by rewrite lookup_insert_ne.
    + rewrite ok_closed0. by rewrite dom_insert_L.
    + by rewrite !dom_insert_L, ok_hello0.
    + rewrite (dom_insert_default _ _ _ _ ok_downloads0). by rewrite dom_insert_L.
    + rewrite dom_insert_L. set_solver.
    + rewrite dom_insert_L. set_solver.
    + intros dev id Hid [c' Hc']. apply lookup_insert_Some in Hc' as [ [<- _]|[_ Hc'] ]; [by apply U2 in Hid|].
      apply (ok_primary0 dev); [done|by eexists].
    + done.
  - intros id [c' Hc']. cbn in Hc'. apply lookup_insert_Some in Hc' as [ [<- _]|[_ Hc'] ]; [set_solver|].
    assert (id ∈ used) by (apply U1; by eexists). set_solver.
  - intros dev id Hid. specialize (U2 dev id Hid). set_solver.
Qed.

(** The device part of [Closed]. *)
Lemma conns_ok_ext m m' : connections m' = connections m -> deviceConnIDs m' = deviceConnIDs m -> promotedConnID m' = promotedConnID m ->
  closed m' = closed m -> helloMessages m' = helloMessages m -> deviceDownloads m' = deviceDownloads m ->
  remoteFolderStates m' = remoteFolderStates m -> started m' = started m -> promotionTimer m' = promotionTimer m -> conns_ok m -> conns_ok m'.
Proof. intros E1 E2 E3 E4 E5 E6 E7 E8 E9 []. constructor; rewrite ?E1, ?E2, ?E3, ?E4, ?E5, ?E6, ?E7, ?E8, ?E9; done. Qed.

(** After a connection was closed: the fields that the invariant speaks of. *)
Lemma Closed_fields c m : connections m !! ConnectionID c = Some c ->
  let dev := DeviceID c in let rest := without (default [] (deviceConnIDs m !! dev)) (ConnectionID c) in let m' := Closed c m in
  let upd {A} (mp : gmap bytes A) := if is_nil rest then delete dev mp else mp in
  connections m' = delete (ConnectionID c) (connections m) /\
  deviceConnIDs m' = (if is_nil rest then delete dev (deviceConnIDs m) else <[dev := rest]> (deviceConnIDs m)) /\
  promotedConnID m' = upd (promotedConnID m) /\ closed m' = closed m ∖ {[ConnectionID c]} /\ helloMessages m' = upd (helloMessages m) /\
  deviceDownloads m' = upd (deviceDownloads m) /\ remoteFolderStates m' = upd (remoteFolderStates m) /\ started m' = started m /\
  promotionTimer m' = (if bool_decide (promotedConnID m !! dev = Some (ConnectionID c)) then true else promotionTimer m).
Proof. intros Hc. cbv zeta. unfold Closed. rewrite Hc. destruct (is_nil _); case_bool_decide; repeat (split; [reflexivity|]); reflexivity. Qed.
Lemma Closed_unknown c m : connections m !! ConnectionID c = None -> Closed c m = m.
Proof. intros Hc. unfold Closed. by rewrite Hc. Qed.
Lemma dom_upd {A} (b : bool) (k : bytes) (mp : gmap bytes A) : dom (if b then delete k mp else mp) = if b then dom mp ∖ {[k]} else dom mp.
Proof. destruct b; [apply dom_delete_L|done]. Qed.

Lemma Closed_ok c m : conns_ok m -> connections m !! ConnectionID c = Some c -> conns_ok (Closed c m).
Proof.
  intros Hm Hc. destruct (Closed_fields c m Hc) as (E1 & E2 & E3 & E4 & E5 & E6 & E7 & E8 & E9). destruct Hm.
  set (dev := DeviceID c) in *. set (rest := without _ _) in *.
  destruct (ok_conns0 _ _ Hc) as [_ Hin]. fold dev in Hin. destruct (deviceConnIDs m !! dev) as [ids|] eqn:Hids; cbn in Hin, rest; [|by apply not_elem_of_nil in Hin].
  destruct (ok_ids0 dev ids Hids) as (Hne & Hnd & Hold).
  assert (dev ∈ dom (deviceConnIDs m)) as Hdom by (by apply elem_of_dom; rewrite Hids).
  assert (dom (deviceConnIDs (Closed c m)) = if is_nil rest then dom (deviceConnIDs m) ∖ {[dev]} else dom (deviceConnIDs m)) as Ed.
  { rewrite E2. destruct (is_nil rest); [apply dom_delete_L|]. rewrite dom_insert_L. set_solver. }
  assert (forall d l, deviceConnIDs (Closed c m) !! d = Some l -> (d = dev /\ l = rest /\ is_nil rest = false) \/ (d <> dev /\ deviceConnIDs m !! d = Some l)) as Hl.
  { intros d l Hl. rewrite E2 in Hl. destruct (is_nil rest) eqn:En.
    - apply lookup_delete_Some in Hl as [? ?]. right. by split; [congruence|].
    - apply lookup_insert_Some in Hl as [ [<- <-]|[? ?] ]; [by left|right; by split; [congruence|] ]. }
  constructor.
  - intros d l [(-> & -> & En)|(Hd & Hdl)]%Hl.
    + split; [by destruct rest|]. split; [by apply without_NoDup|]. intros id [Hid Hn]%without_spec; [|done].
      rewrite E1, lookup_delete_ne by congruence. by apply Hold.
    + destruct (ok_ids0 d l Hdl) as (? & ? & Hold'). split; [done|]. split; [done|]. intros id Hid. rewrite E1, lookup_delete_ne; [by apply Hold'|].
      intros E. rewrite <- E in Hid. specialize (Hold' _ Hid). rewrite Hc in Hold'.
      apply (f_equal (fmap DeviceID)) in Hold'. injection Hold' as Ec. apply Hd. by rewrite <- Ec.
  - intros id c' Hc'. rewrite E1 in Hc'. apply lookup_delete_Some in Hc' as [Hid Hc']. destruct (ok_conns0 id c' Hc') as [? Hin']. split; [done|].
    rewrite E2. destruct (decide (DeviceID c' = dev)) as [E|E].
    + rewrite E in *. rewrite Hids in Hin'. cbn in Hin'. assert (id ∈ rest) as Hr by (apply without_spec; [done|split; [done|congruence] ]).
      destruct rest; [by apply not_elem_of_nil in Hr|]. cbn [is_nil]. by rewrite lookup_insert_eq.
    + destruct (is_nil rest); [by rewrite lookup_delete_ne|by rewrite lookup_insert_ne].
  - rewrite E4, E1, ok_closed0. by rewrite dom_delete_L.
  - rewrite Ed, E5, dom_upd, ok_hello0. done.
  - rewrite Ed, E6, dom_upd, ok_downloads0. done.
  - rewrite Ed, E7, dom_upd. destruct (is_nil rest); set_solver.
  - rewrite Ed, E3, dom_upd. destruct (is_nil rest); set_solver.
  - intros d id Hid [c' Hc']. rewrite E1 in Hc'. apply lookup_delete_Some in Hc' as [_ Hc']. rewrite E8. apply (ok_primary0 d); [|by eexists].
    rewrite E3 in Hid. destruct (is_nil rest); [by apply lookup_delete_Some in Hid as [_ ?]|done].
  - rewrite E9. case_bool_decide as Ep; [done|]. intros Ht. destruct (ok_timer0 Ht) as [Hprom Hstart]. split.
    + intros d l [(-> & -> & En)|(Hd & Hdl)]%Hl.
      * rewrite E3, En. rewrite (Hprom dev ids Hids) in Ep |- *. symmetry. by apply without_head.
      * rewrite E3. destruct (is_nil rest); [rewrite lookup_delete_ne by congruence|]; by apply Hprom.
    + intros id [c' Hc']. rewrite E1 in Hc'. apply lookup_delete_Some in Hc' as [_ Hc']. rewrite E8. apply Hstart. by eexists.
Qed.

(** *** Promotion *)

Lemma start_others_spec m ids : (forall id, id ∈ ids -> is_Some (connections m !! id)) ->
  exists acts, start_others ids m = Ret acts /\ forall id c, id ∈ ids -> connections m !! id = Some c -> id ∈ started m \/ Start c ∈ acts.
Proof.
  induction ids as [|id ids IH]; intros Hids; cbn [start_others]; [exists []; split; [done|]; intros ? ? Hn; by apply not_elem_of_nil in Hn|].
  destruct (Hids id) as [c Hc]; [left|]. rewrite Hc. destruct IH as (acts & -> & Ha); [intros; apply Hids; by right|]. cbn [mbind outcome_bind].
  eexists. split; [done|]. intros id' c' [->|Hid]%elem_of_cons Hc'.
  - rewrite Hc in Hc'. injection Hc' as <-. case_bool_decide; [by left|]. right. left.
  - destruct (Ha id' c' Hid Hc') as [?|?]; [by left|]. right. apply elem_of_app. by right.
Qed.
(** The connections of a device are all there. *)
Definition ids_there m (ids : list bytes) : Prop := ids <> [] /\ forall id, id ∈ ids -> is_Some (connections m !! id).
Lemma promote_device_spec dev ids m : ids_there m ids ->
  (forall id, promotedConnID m !! dev = Some id -> is_Some (connections m !! id) -> id ∈ started m) ->
  exists p acts, promote_device dev ids m = Ret (set_promoted p m, acts) /\ p !! dev = head ids /\
    (forall d, d <> dev -> p !! d = promotedConnID m !! d) /\
    forall id c, id ∈ ids -> connections m !! id = Some c -> id ∈ started m \/ Start c ∈ acts.
Proof.
  intros [Hne Hids] Hprim. destruct ids as [|id others]; [done|]. cbn [promote_device].
  destruct (start_others_spec m others) as (acts & Es & Ha); [intros; apply Hids; by right|]. destruct (Hids id) as [c Hc]; [left|].
  case_bool_decide as Ep; rewrite ?Hc, Es; cbn [mbind outcome_bind].
  - exists (promotedConnID m), acts. split; [by destruct m|]. split; [done|]. split; [done|].
    intros id' c' [->|Hid]%elem_of_cons Hc'; [left; apply Hprim; [done|by eexists]|by apply Ha].
  - eexists _, _. split; [done|]. split; [apply lookup_insert_eq|]. split; [intros d Hd; by apply lookup_insert_ne|].
    intros id' c' [->|Hid]%elem_of_cons Hc'.
    + rewrite Hc in Hc'. injection Hc' as <-. case_bool_decide; [by left|]. right. left.
    + destruct (Ha id' c' Hid Hc') as [?|?]; [by left|]. right. apply elem_of_app. right. by right.
Qed.
Lemma promote_devices_spec order m : NoDup (map fst order) -> (forall dev ids, (dev, ids) ∈ order -> ids_there m ids) ->
  (forall dev id, dev ∈ map fst order -> promotedConnID m !! dev = Some id -> is_Some (connections m !! id) -> id ∈ started m) ->
  exists p acts, promote_devices order m = Ret (set_promoted p m, acts) /\ (forall dev ids, (dev, ids) ∈ order -> p !! dev = head ids) /\
    (forall d, d ∉ map fst order -> p !! d = promotedConnID m !! d) /\
    forall dev ids id c, (dev, ids) ∈ order -> id ∈ ids -> connections m !! id = Some c -> id ∈ started m \/ Start c ∈ acts.
Proof.
  revert m. induction order as [|[dev ids] order IH]; intros m Hn Hall Hprim; cbn [promote_devices].
  { exists (promotedConnID m), []. split; [by destruct m|]. split; [intros ? ? Hx; by apply not_elem_of_nil in Hx|]. split; [done|].
    intros ? ? ? ? Hx. by apply not_elem_of_nil in Hx. }
  apply list.NoDup_cons in Hn as [Hdev Hn].
  destruct (promote_device_spec dev ids m) as (p & acts & -> & P1 & P2 & P3); [eapply Hall; left|intros id; apply Hprim; left|]. cbn [mbind outcome_bind].
  destruct (IH (set_promoted p m)) as (p' & rest & E & Q1 & Q2 & Q3); [done| | |].
  { intros d l Hin. apply (Hall d l). by right. }
  { intros d id Hin Hd. cbn in Hd. rewrite P2 in Hd by (intros ->; done). apply (Hprim d); [by right|done]. }
  rewrite E. cbn [mbind outcome_bind]. cbn [connections promotedConnID started set_promoted] in Q2, Q3.
  exists p', (acts ++ rest). split; [done|]. split; [|split].
  - intros d l [Ed|Hin]%elem_of_cons; [injection Ed as -> ->; by rewrite Q2|by apply Q1].
  - intros d [Hd1 Hd2]%not_elem_of_cons. by rewrite Q2, P2.
  - intros d l id c [Ed|Hin]%elem_of_cons Hid Hc.
    + injection Ed as -> ->. destruct (P3 id c Hid Hc); [by left|right; apply elem_of_app; by left].
    + destruct (Q3 d l id c Hin Hid Hc); [by left|right; apply elem_of_app; by right].
Qed.

Lemma do_actions m acts : fold_left do_action acts m =
  set_timer (started (fold_left do_action acts m)) (promotionTimer m) m /\
  (forall id, id ∈ started (fold_left do_action acts m) <-> id ∈ started m \/ exists c, Start c ∈ acts /\ ConnectionID c = id).
Proof.
  revert m. induction acts as [|a acts IH]; intros m; cbn [fold_left].
  { split; [by destruct m|]. intros id. split; [by left|]. intros [?|(c & Hn & _)]; [done|by apply not_elem_of_nil in Hn]. }
  destruct (IH (do_action m a)) as [E1 E2]. split.
  - rewrite E1. by destruct a.
  - intros id. rewrite E2. setoid_rewrite elem_of_cons. split.
    + intros [Hs|(c & Hc & Ec)]; [|right; by eauto]. destruct a as [c|c|c|c]; cbn [do_action started set_timer] in Hs; [|by left..].
      apply elem_of_union in Hs as [->%elem_of_singleton|Hs]; [right; by eauto|by left].
    + intros [Hs|(c & [<-|Hc] & Ec)]; [|left; cbn; set_solver|right; by eauto]. left. destruct a; cbn [do_action started set_timer]; [set_solver|done..].
Qed.
Lemma promote_ok order m : conns_ok m -> order ≡ₚ map_to_list (deviceConnIDs m) ->
  exists m' acts, promoteConnections order m = Ret (m', acts) /\ conns_ok m' /\ promotionTimer m' = false /\
    connections m' = connections m /\ deviceConnIDs m' = deviceConnIDs m /\ (forall used, used_ok used m -> used_ok used m').
Proof.
  intros Hm Hp. set (m0 := set_timer (started m) false m).
  assert (forall dev ids, (dev, ids) ∈ order <-> deviceConnIDs m !! dev = Some ids) as Hin.
  { intros dev ids. rewrite Hp. apply elem_of_map_to_list. }
  destruct (promote_devices_spec order m0) as (p & acts & E & P1 & P2 & P3).
  { rewrite (Permutation_map fst Hp). apply NoDup_fst_map_to_list. }
  { intros dev ids Hd%Hin. destruct (ok_ids _ Hm dev ids Hd) as (? & _ & Hc). split; [done|]. intros id Hid. eexists. by apply Hc. }
  { intros dev id _. apply (ok_primary _ Hm). }
  unfold promoteConnections. fold m0. rewrite E. cbn [mbind outcome_bind]. set (m1 := set_promoted p m0).
  destruct (do_actions m1 acts) as [Ef Es]. eexists _, _. split; [done|]. rewrite Ef.
  cbn [connections deviceConnIDs promotionTimer set_timer set_promoted m1 m0].
  assert (forall dev, dev ∉ dom (deviceConnIDs m) -> p !! dev = None) as Hnone.
  { intros dev Hd. rewrite P2.
    - cbn. apply not_elem_of_dom. intros Hx. by apply Hd, (ok_promoted _ Hm).
    - intros ([d l] & -> & Hx)%list_elem_of_fmap. apply Hin in Hx. apply Hd. cbn. apply elem_of_dom. by eexists. }
  assert (forall dev ids, deviceConnIDs m !! dev = Some ids -> p !! dev = head ids) as Hprom.
  { intros dev ids Hd. apply P1. by apply Hin. }
  assert (forall id c, connections m !! id = Some c -> id ∈ started (fold_left do_action acts m1)) as Hstart.
  { intros id c Hc. destruct (ok_conns _ Hm id c Hc) as [Eid Hx]. destruct (deviceConnIDs m !! DeviceID c) as [ids|] eqn:Ed; [|by apply not_elem_of_nil in Hx].
    apply Es. destruct (P3 (DeviceID c) ids id c (proj2 (Hin _ _) Ed) Hx Hc) as [?|?]; [by left|right; by exists c]. }
  split; [|split; [done|split; [done|split; [done|] ] ] ].
  - destruct Hm. constructor; cbn [connections deviceConnIDs promotedConnID closed helloMessages deviceDownloads remoteFolderStates started promotionTimer
      set_timer set_promoted m1 m0]; try done.
    + intros dev Hd. apply elem_of_dom in Hd as [id Hd]. destruct (decide (dev ∈ dom (deviceConnIDs m))) as [?|Hx]; [done|]. by rewrite Hnone in Hd.
    + intros dev id _ [c Hc]. by eapply Hstart.
    + intros _. split; [done|]. intros id [c Hc]. by eapply Hstart.
  - intros used [U1 U2]. split; [done|]. cbn. intros dev id Hd. destruct (deviceConnIDs m !! dev) as [ids|] eqn:Ed.
    + rewrite (Hprom _ _ Ed) in Hd. destruct (ok_ids _ Hm dev ids Ed) as (_ & _ & Hc). destruct ids as [|i ids]; [done|]. injection Hd as ->.
      apply U1. rewrite (Hc id); [by eexists|left].
    + rewrite Hnone in Hd; [done|]. by apply not_elem_of_dom.
Qed.

(** *** Every step *)

Lemma handler_same folderCfgs c m : let m' := ensureIndexHandler folderCfgs c m in
  m' = set_handlers (indexHandlers m') (subscribed m) m.
Proof. cbv zeta. unfold ensureIndexHandler. destruct (sm_Get _ _) as [ [c' r]|]; [case_bool_decide|]; by destruct m. Qed.
Lemma subscribe_same dev folders m : let m' := subscribe_temporary dev folders m in m' = set_handlers (indexHandlers m) (subscribed m') m.
Proof. cbv zeta. unfold subscribe_temporary. repeat case_match; by destruct m. Qed.
Lemma set_handlers_ok hs s used m : conns_ok m /\ used_ok used m -> conns_ok (set_handlers hs s m) /\ used_ok used (set_handlers hs s m).
Proof. intros [Hm Hu]. split; [by apply (conns_ok_ext m)|done]. Qed.
Lemma dev_known m c : conns_ok m -> connections m !! ConnectionID c = Some c -> DeviceID c ∈ dom (deviceConnIDs m).
Proof.
  intros Hm Hc. destruct (ok_conns _ Hm _ _ Hc) as [_ Hin]. apply elem_of_dom. destruct (deviceConnIDs m !! DeviceID c); [by eexists|].
  by apply not_elem_of_nil in Hin.
Qed.
Lemma set_remote_states_ok c states m : conns_ok m -> connections m !! ConnectionID c = Some c -> conns_ok (set_remote_states (DeviceID c) states m).
Proof.
  intros Hm Hc. pose proof (dev_known m c Hm Hc) as Hd. destruct Hm. constructor; try done. cbn. rewrite dom_insert_L. set_solver.
Qed.
Lemma set_downloads_ok dev folder updates used m : conns_ok m /\ used_ok used m ->
  conns_ok (set_downloads dev folder updates m) /\ used_ok used (set_downloads dev folder updates m).
Proof.
  intros [Hm Hu]. unfold set_downloads, Downloads.downloads_Update. destruct (deviceDownloads m !! dev) as [t|] eqn:E; cbn [mbind option_bind]; [|done].
  split; [|done]. destruct Hm. constructor; try done. cbn. rewrite dom_insert_L, <- ok_downloads0.
  assert (dev ∈ dom (deviceDownloads m)) by (by apply elem_of_dom; rewrite E). set_solver.
Qed.
Lemma DownloadProgress_ok folderCfgs c folder updates used m : conns_ok m /\ used_ok used m ->
  conns_ok (DownloadProgress folderCfgs c folder updates m) /\ used_ok used (DownloadProgress folderCfgs c folder updates m).
Proof. intros Hm. unfold DownloadProgress. destruct (folderCfgs !! folder); [|done]. case_match; [done|by apply set_downloads_ok]. Qed.
Lemma Closed_used c used m : connections m !! ConnectionID c = Some c -> used_ok used m -> used_ok used (Closed c m).
Proof.
  intros Hc [U1 U2]. destruct (Closed_fields c m Hc) as (E1 & _ & E3 & _). split.
  - intros id [c' Hx]. rewrite E1 in Hx. apply lookup_delete_Some in Hx as [_ Hx]. apply U1. by eexists.
  - intros dev id Hx. rewrite E3 in Hx. destruct (is_nil _); [by apply lookup_delete_Some in Hx as [_ Hx%U2]|by apply U2 in Hx].
Qed.
Lemma step_ok cfg used m used' m' : model_step cfg (used, m) (used', m') -> conns_ok m /\ used_ok used m -> conns_ok m' /\ used_ok used' m'.
Proof.
  inversion 1 as [u1 m1 c hello Hf|u1 m1 c Hc|u1 m1 order m2 acts Ho Hp|u1 m1 c cfgs Hc|u1 m1 c states Hc|u1 m1 c folders Hc|u1 m1 c cfgs folder us|u1 m1 c folder us HF|u1 m1 d]; subst;
    intros [Hm Hu].
  - by apply AddConnection_ok.
  - destruct Hc as [Hc|Hc]; [|by rewrite Closed_unknown]. split; [by apply Closed_ok|by apply Closed_used].
  - destruct (promote_ok order m Hm Ho) as (m2 & acts' & E & Hm2 & _ & _ & _ & Hu2). rewrite E in Hp. injection Hp as <- _. split; [done|by apply Hu2].
  - rewrite handler_same. by apply set_handlers_ok.
  - split; [by apply set_remote_states_ok|done].
  - rewrite subscribe_same. by apply set_handlers_ok.
  - by apply DownloadProgress_ok.
  - by apply set_downloads_ok.
  - destruct (limiter_same d m) as (E1 & _ & E3 & _). split; [by apply limiter_ok|]. destruct Hu. split; by rewrite ?E1, ?E3.
Qed.
Lemma reach_ok cfg s : model_reach cfg s -> conns_ok (snd s) /\ used_ok (fst s) (snd s).
Proof.
  induction 1 as [devices|[used m] [used' m'] _ IH Hs]; [apply model_new_ok|]. by eapply step_ok.
Qed.

(** ** What is asked of the connections *)

(** All that is needed of the invariant here. *)
Definition ids_ok m : Prop := forall dev ids, deviceConnIDs m !! dev = Some ids -> ids <> [] /\ NoDup ids /\
  forall id, id ∈ ids -> connections m !! id = Some {| ConnectionID := id; DeviceID := dev |}.
Lemma sendClusterConfig_ok ids m : ids_ok m ->
  exists cs, sendClusterConfig_conns ids m = Ret cs /\ map DeviceID cs = filter (fun id => id ∈ dom (deviceConnIDs m)) ids /\
    Forall (fun c => connections m !! ConnectionID c = Some c /\ exists l, deviceConnIDs m !! DeviceID c = Some (ConnectionID c :: l)) cs.
Proof.
  intros Hm. induction ids as [|id ids (cs & IH & Ec & Hf)]; cbn [sendClusterConfig_conns]; [by exists []|]. rewrite filter_cons.
  destruct (deviceConnIDs m !! id) as [l|] eqn:E.
  - destruct (Hm id l E) as (Hne & _ & Hc). destruct l as [|cid l]; [done|]. specialize (Hc cid ltac:(left)). rewrite Hc, IH. cbn [mbind outcome_bind].
    eexists. split; [done|]. rewrite decide_True by (by apply elem_of_dom; eexists). cbn [map]. rewrite Ec. split; [done|]. constructor; [|done]. cbn. eauto.
  - exists cs. rewrite decide_False by (by apply not_elem_of_dom). done.
Qed.
Lemma request_ok rnd dev m : conns_ok m -> (forall n, 0 < n -> 0 <= rnd n < n) ->
  match deviceConnIDs m !! dev with
  | None => requestConnectionForDevice rnd dev m = Ret None
  | Some ids => exists c, requestConnectionForDevice rnd dev m = Ret (Some c) /\ DeviceID c = dev /\ ConnectionID c ∈ ids /\
      connections m !! ConnectionID c = Some c /\ (ids <> [ConnectionID c] -> head ids <> Some (ConnectionID c))
  end.
Proof.
  intros Hm Hr. unfold requestConnectionForDevice. destruct (deviceConnIDs m !! dev) as [ids|] eqn:E; [|done].
  destruct (ok_ids _ Hm dev ids E) as (Hne & Hnd & Hc). destruct ids as [|id others]; [done|]. destruct (Z.ltb_spec 1 (zlen (id :: others))) as [Hl|Hl].
  - specialize (Hr (zlen (id :: others) - 1) ltac:(lia)). set (k := rnd _) in *.
    rewrite lookup_cons_ne_0 by lia. replace (pred (Z.to_nat (k + 1))) with (Z.to_nat k) by lia.
    assert (Z.to_nat k < length others)%nat as Hk by (unfold zlen in *; cbn [length] in *; lia).
    apply lookup_lt_is_Some in Hk as [x Hx]. rewrite Hx. assert (x ∈ id :: others) as Hin by (right; by eapply list_elem_of_lookup_2).
    rewrite (Hc x Hin). eexists. split; [done|]. cbn. split; [done|]. split; [done|]. split; [by apply Hc|]. intros _ [= ->].
    apply list.NoDup_cons in Hnd as [Hnd _]. apply Hnd. by eapply list_elem_of_lookup_2.
  - rewrite (Hc id) by left. eexists. split; [done|]. cbn. split; [done|]. split; [left|]. split; [apply Hc; left|].
    destruct others; [done|]. unfold zlen in Hl. cbn in Hl. lia.
Qed.

(** C20: in every state that is reached by connections that are added and closed, promotions, cluster configurations and changed limits, the
    records of the connections agree: every device with an entry has at least one connection, its IDs are different and lead to connections of
    that device, every connection has its entry, its closing can be awaited, and the greeting and the download progress are kept for exactly
    the devices that are connected.  Then [promoteConnections] ends without a nil connection or an empty list, in whatever order the devices come,
    keeps the connections and leaves the first connection of each device promoted and every connection started; a request to a device goes out on
    one of its connections if it is connected, and not on the primary one when there is another; and a cluster configuration for some devices
    goes out once to each of them that is connected, on its primary connection. *)
Theorem connections_kept cfg used m : model_reach cfg (used, m) ->
  conns_ok m /\
  (forall order, order ≡ₚ map_to_list (deviceConnIDs m) -> exists m' acts, promoteConnections order m = Ret (m', acts) /\ conns_ok m' /\
    connections m' = connections m /\ (forall dev ids, deviceConnIDs m !! dev = Some ids -> promotedConnID m' !! dev = head ids) /\
    (forall id, is_Some (connections m !! id) -> id ∈ started m')) /\
  (forall rnd dev, (forall n, 0 < n -> 0 <= rnd n < n) ->
    match deviceConnIDs m !! dev with
    | None => requestConnectionForDevice rnd dev m = Ret None
    | Some ids => exists c, requestConnectionForDevice rnd dev m = Ret (Some c) /\ DeviceID c = dev /\ ConnectionID c ∈ ids /\
        connections m !! ConnectionID c = Some c /\ (ids <> [ConnectionID c] -> head ids <> Some (ConnectionID c))
    end) /\
  (forall ids, exists cs, sendClusterConfig_conns ids m = Ret cs /\ map DeviceID cs = filter (fun id => id ∈ dom (deviceConnIDs m)) ids /\
    Forall (fun c => connections m !! ConnectionID c = Some c /\ exists l, deviceConnIDs m !! DeviceID c = Some (ConnectionID c :: l)) cs).
Proof.
  intros Hr. destruct (reach_ok _ _ Hr) as [Hm _]. cbn in Hm. split; [done|]. split; [|split].
  - intros order Ho. destruct (promote_ok order m Hm Ho) as (m' & acts & E & Hm' & Ht & Ec & Ed & _). exists m', acts. split; [done|]. split; [done|].
    split; [done|]. destruct (ok_timer _ Hm' Ht) as [H1 H2]. rewrite Ed in H1. rewrite Ec in H2. done.
  - intros rnd dev. by apply request_ok.
  - intros ids. apply sendClusterConfig_ok. exact (ok_ids _ Hm).
Qed.

(** C39: a block is asked only of devices that are connected: in every state that is reached by connections that come and go, promotions,
    cluster configurations, progress messages on any connection and indexes that take files out of the records of progress, each device that
    [blockAvailabilityRLocked] lists has a connection, so that a request to it goes out; a device that is listed for the whole file had announced
    the folder as valid and is one of those that the database named, and one that is listed for a temporary file is a device of the folder
    for which the record that its progress messages built, which goes with its last connection, has the block in the version of the file. *)
Theorem available_connected cfg used m fcfg devs file Offset av : model_reach cfg (used, m) ->
  av ∈ blockAvailabilityRLocked fcfg devs file Offset m ->
  (forall rnd, (forall n, 0 < n -> 0 <= rnd n < n) -> exists c, requestConnectionForDevice rnd (av_ID av) m = Ret (Some c) /\ DeviceID c = av_ID av) /\
  if av_FromTemporary av then av_ID av ∈ DeviceIDs fcfg /\
    Downloads.downloads_Has (deviceDownloads m !! av_ID av) (fc_ID fcfg) (Name file) (Version file) (Z.quot Offset (FileInfo_BlockSize file)) = true
  else av_ID av ∈ devs /\ exists states, remoteFolderStates m !! av_ID av = Some states /\ states !! fc_ID fcfg = Some remoteFolderValid.
Proof.
  intros Hr Hav. destruct (reach_ok _ _ Hr) as [Hm _]. cbn in Hm.
  assert (is_Some (deviceConnIDs m !! av_ID av) /\ if av_FromTemporary av then av_ID av ∈ DeviceIDs fcfg /\
    Downloads.downloads_Has (deviceDownloads m !! av_ID av) (fc_ID fcfg) (Name file) (Version file) (Z.quot Offset (FileInfo_BlockSize file)) = true
  else av_ID av ∈ devs /\ exists states, remoteFolderStates m !! av_ID av = Some states /\ states !! fc_ID fcfg = Some remoteFolderValid) as [ [ids Hids] Hx].
  { unfold blockAvailabilityRLocked in Hav. apply elem_of_app in Hav as [Hav|Hav]; apply list_elem_of_In, in_flat_map in Hav as (dev & Hdev & Hav);
      apply list_elem_of_In in Hdev.
    - destruct (remoteFolderStates m !! dev) as [states|] eqn:Es; [|done]. case_bool_decide as Ev; [|done]. cbn [negb] in Hav.
      unfold ConnectedTo in Hav. destruct (deviceConnIDs m !! dev) as [ids|] eqn:Ei; [|done]. destruct Hav as [<-|[] ]. cbn. split; [by eexists|].
      split; [done|]. exists states. split; [done|]. destruct (states !! fc_ID fcfg); cbn in Ev; [by subst|done].
    - destruct (Downloads.downloads_Has _ _ _ _ _) eqn:Ed; [|done]. destruct Hav as [<-|[] ]. cbn. split; [|done].
      apply elem_of_dom. rewrite <- (ok_downloads _ Hm). apply elem_of_dom. destruct (deviceDownloads m !! dev); [by eexists|done]. }
  split; [|done]. intros rnd Hrnd. pose proof (request_ok rnd (av_ID av) m Hm Hrnd) as Hq. rewrite Hids in Hq. destruct Hq as (c & ? & ? & _). eauto.
Qed.
End ModelState.

(** ** Examples *)

#[local] Instance ex_registry : HandlerRegistry IndexHandler.indexHandlerRegistry := IndexHandler_registry (fun _ l => l) 0 0 (fun d => zlen d) ∅.
Definition ex_peer : bytes := gostr "peer".
Definition ex_cfg : Configuration := {| cf_Folders := []; cf_Devices := [ConfigProps.ex_device ex_peer false] |}.
Definition ex_conn (id : bytes) : conn := {| ConnectionID := id; DeviceID := ex_peer |}.
Definition ex_hello : Hello := {| DeviceName := []; ClientName := []; ClientVersion := []; Connection.NumConnections := 2; Timestamp := 0 |}.
Definition ex_m0 := NewModel (R := IndexHandler.indexHandlerRegistry) (cf_Devices ex_cfg).
Definition ex_m1 := AddConnection ex_cfg (ex_conn (gostr "a")) ex_hello ex_m0.
Definition ex_m2 := AddConnection ex_cfg (ex_conn (gostr "b")) ex_hello ex_m1.
Definition ex_valid : gmap bytes remoteFolderState := {[gostr "docs" := remoteFolderValid]}.
Definition ex_m3 := set_remote_states ex_peer ex_valid ex_m2.
Lemma ex_reach2 : model_reach ex_cfg ({[gostr "b"]} ∪ ({[gostr "a"]} ∪ ∅), ex_m2).
Proof.
  eapply reach_step; [eapply reach_step; [apply (reach_new _ (cf_Devices ex_cfg))|]|].
  - apply (step_add ex_cfg ∅ ex_m0 (ex_conn (gostr "a"))). apply (bool_decide_unpack _). by vm_compute.
  - apply (step_add ex_cfg _ ex_m1 (ex_conn (gostr "b"))). apply (bool_decide_unpack _). by vm_compute.
Defined.
Lemma ex_reach3 : model_reach ex_cfg ({[gostr "b"]} ∪ ({[gostr "a"]} ∪ ∅), ex_m3).
Proof.
  eapply reach_step; [apply ex_reach2|]. apply (step_states ex_cfg _ ex_m2 (ex_conn (gostr "a"))). vm_compute. reflexivity.
Defined.
Lemma connections_kept_witness : exists used, model_reach ex_cfg (used, ex_m2) /\
  deviceConnIDs ex_m2 !! ex_peer = Some [gostr "a"; gostr "b"] /\
  sendClusterConfig_conns [ex_peer] ex_m2 = Ret [ex_conn (gostr "a")].
Proof.
  eexists. split; [exact ex_reach2|]. split; [vm_compute; reflexivity|].
  destruct (proj2 (proj2 (proj2 (connections_kept ex_cfg _ _ ex_reach2))) [ex_peer]) as (cs & E & _). rewrite E. vm_compute in E |- *. symmetry. exact E.
Defined.
(** The peer tells that it has the second block in a temporary file. *)
Definition ex_updates : list Downloads.FileDownloadProgressUpdate :=
  [Downloads.appendUpdate (gostr "f") (Version DownloadsProps.ex_puller_file) [1] 131072].
Definition ex_m4 := DownloadProgress {[gostr "docs" := ConfigProps.ex_folder]} (ex_conn (gostr "b")) (gostr "docs") ex_updates ex_m3.
Lemma ex_reach4 : model_reach ex_cfg ({[gostr "b"]} ∪ ({[gostr "a"]} ∪ ∅), ex_m4).
Proof. eapply reach_step; [apply ex_reach3|]. apply step_progress. Defined.
Lemma available_connected_witness :
  blockAvailabilityRLocked ConfigProps.ex_folder [ex_peer] DownloadsProps.ex_puller_file 131072 ex_m4 =
    map (Build_Availability ex_peer) [false; true; true] /\
  blockAvailabilityRLocked ConfigProps.ex_folder [ex_peer] DownloadsProps.ex_puller_file 0 ex_m4 = [{| av_ID := ex_peer; av_FromTemporary := false |}] /\
  blockAvailabilityRLocked ConfigProps.ex_folder [ex_peer] DownloadsProps.ex_puller_file 131072
    (Closed (ex_conn (gostr "b")) (Closed (ex_conn (gostr "a")) ex_m4)) = [] /\
  exists c, requestConnectionForDevice (fun _ => 0) ex_peer ex_m4 = Ret (Some c) /\ DeviceID c = ex_peer.
Proof.
  split; [vm_compute; reflexivity|]. split; [vm_compute; reflexivity|]. split; [vm_compute; reflexivity|].
  apply (proj1 (available_connected ex_cfg _ _ ConfigProps.ex_folder [ex_peer] DownloadsProps.ex_puller_file 131072
    {| av_ID := ex_peer; av_FromTemporary := true |} ex_reach4 ltac:(vm_compute; right; left)) (fun _ => 0)). intros n Hn. lia.
Defined.

(** Only the last connection of a device that is closed takes what is kept for
    it along, but only the connection that was promoted takes the index handler
    and the subscription: here the second connection becomes the first and gets
    both before the next promotion, and they stay when it goes. *)
Definition ex_promoted : @model IndexHandler.indexHandlerRegistry :=
  match promoteConnections (map_to_list (deviceConnIDs ex_m2)) ex_m2 with Ret (m, _) => m | _ => ex_m2 end.
Definition ex_gone : @model IndexHandler.indexHandlerRegistry :=
  let b := ex_conn (gostr "b") in
  Closed b (subscribe_temporary ex_peer [gostr "docs"] (ensureIndexHandler [] b (Closed (ex_conn (gostr "a")) ex_promoted))).
Lemma handler_outlives : exists used, model_reach ex_cfg (used, ex_gone) /\
  connections ex_gone !! gostr "b" = None /\ deviceConnIDs ex_gone !! ex_peer = None /\
  is_Some (getIndexHandlerRLocked (ex_conn (gostr "b")) ex_gone) /\ subscribed ex_gone !! ex_peer = Some (ex_conn (gostr "b"), [gostr "docs"]).
Proof.
  destruct (promote_ok (map_to_list (deviceConnIDs ex_m2)) ex_m2 (proj1 (reach_ok _ _ ex_reach2)) (Permutation_refl _)) as (m' & acts & E & _).
  eexists. split; [|split; [vm_compute; reflexivity|split; [vm_compute; reflexivity|split; [eexists; vm_compute; reflexivity|vm_compute; reflexivity] ] ] ].
  eapply reach_step; [|apply step_closed; left; vm_compute; reflexivity].
  eapply reach_step; [|apply (step_subscribe ex_cfg _ _ (ex_conn (gostr "b"))); vm_compute; reflexivity].
  eapply reach_step; [|apply step_handler; vm_compute; reflexivity].
  eapply reach_step; [|apply step_closed; left; vm_compute; reflexivity].
  eapply reach_step; [exact ex_reach2|]. eapply (step_promote ex_cfg _ ex_m2 (map_to_list (deviceConnIDs ex_m2))); [done|].
  unfold ex_promoted. rewrite E. reflexivity.
Qed.

(** The limit of the requests of a device that [NewModel] sets is gone when the
    device comes back. *)
Lemma limits_lost :
  connRequestLimiters ex_m1 !! ex_peer = Some (1024 * defaultPullerPendingKiB) /\
  connRequestLimiters (AddConnection ex_cfg (ex_conn (gostr "b")) ex_hello (Closed (ex_conn (gostr "a")) ex_m1)) !! ex_peer = None.
Proof. split; vm_compute; reflexivity. Qed.

(** A service that was taken out with [RemoveAndWaitChan] can be removed again. *)
Lemma removed_twice {S} (k : bytes) (v : S) (s : serviceMap S) :
  snd (sm_Remove k (sm_RemoveAndWaitChan k (sm_Add k v s))) = true /\ snd (sm_Remove k (fst (sm_Remove k s))) = false.
Proof.
  unfold sm_Remove, sm_RemoveAndWaitChan, sm_Add. cbn. split; [rewrite bool_decide_eq_true_2 by set_solver; done|].
  rewrite bool_decide_eq_false_2 by set_solver. by rewrite lookup_delete_eq.
Qed.
