(* ===== verification/Observed.v ===== *)
(** * Small values in the database (internal/db/observed.go, typed.go, lib/stats)

    The key-value table of internal/db/sqlite/db_kv.go, the pending devices and
    folders that are kept in it, values of a type under a prefix, and the
    statistics of devices and folders.  SQLite is the function that a statement
    computes: which statements fail, and after how many rows, are parameters, as
    are the encodings of protobuf and of times. *)
From Stdlib Require Import ZArith List Lia.
From Stdlib Require Import Strings.Byte.
From stdpp Require Import base list option gmap numbers tactics.
From S2P Require Import Prelude GoLib DeviceID.

#[local] Open Scope Z_scope.

(** ** The table *)

Inductive kv_call := GetCall (key : bytes) | PutCall (key value : bytes) | DeleteCall (key : bytes).
Inductive kv_err := NoRows | StatementErr | DeviceIDErr (e : id_err).
#[export] Instance id_err_eq_dec : EqDecision id_err.
Proof. solve_decision. Defined.
#[export] Instance kv_err_eq_dec : EqDecision kv_err.
Proof. solve_decision. Defined.

(** [prefixEnd]: the last byte that is not 255 is counted up. *)
Fixpoint count_up (rs : bytes) : bytes :=
  match rs with
  | [] => []
  | b :: rs => if b2z b <? 255 then z2b (b2z b + 1) :: rs else b :: count_up rs
  end.
Definition prefixEnd (s : bytes) : outcome kv_err bytes := if is_nil s then Panic else Ret (reverse (count_up (reverse s))).

Section Database.
Context (fails : kv_call -> bool).
(** The rows of a table in the order of the answer, and how many are read before
    an error, if there is one. *)
Context (scan : gmap bytes bytes -> list (bytes * bytes)) (interrupted : bytes -> option nat).
Abbreviation KV := (SM (gmap bytes bytes) kv_err).

Definition GetKV (key : bytes) : KV bytes := fun t =>
  if fails (GetCall key) then (t, Err StatementErr)
  else match t !! key with Some v => (t, Ret v) | None => (t, Err NoRows) end.
Definition PutKV (key value : bytes) : KV unit := fun t =>
  if fails (PutCall key value) then (t, Err StatementErr) else (<[key := value]> t, Ret tt).
Definition DeleteKV (key : bytes) : KV unit := fun t =>
  if fails (DeleteCall key) then (t, Err StatementErr) else (delete key t, Ret tt).
(** The rows that are read, and whether an error followed them. *)
Definition PrefixKV (prefix : bytes) : KV (list (bytes * bytes) * bool) := fun t =>
  let answer rows := match interrupted prefix with Some n => (take n rows, true) | None => (rows, false) end in
  if is_nil prefix then (t, Ret (answer (scan t)))
  else
    match prefixEnd prefix with
    | Ret end_ => (t, Ret (answer (List.filter (fun kv => bytes_leb prefix kv.1 && bytes_ltb kv.1 end_) (scan t))))
    | _ => (t, Panic)
    end.

(** ** Pending devices and folders *)

Context {TS wireFolder wireDevice : Type}.
(** [timestamppb] and the generated code. *)
Context (timestamp : Z -> TS) (AsTime : TS -> Z).
Context (buildFolder : TS -> bytes -> bool -> bool -> wireFolder) (GetTime : wireFolder -> TS) (GetLabel : wireFolder -> bytes)
  (GetReceiveEncrypted GetRemoteEncrypted : wireFolder -> bool) (MarshalFolder : wireFolder -> option bytes)
  (UnmarshalFolder : bytes -> option wireFolder).
Context (buildDevice : TS -> bytes -> bytes -> wireDevice) (device_GetTime : wireDevice -> TS) (GetName GetAddress : wireDevice -> bytes)
  (MarshalDevice : wireDevice -> option bytes) (UnmarshalDevice : bytes -> option wireDevice).
Context (ToUpper : bytes -> bytes).

(** Times are in nanoseconds. *)
Record ObservedFolder := { Time : Z; Label : bytes; ReceiveEncrypted : bool; RemoteEncrypted : bool }.
Record ObservedDevice := { od_Time : Z; od_Name : bytes; od_Address : bytes }.
Definition truncate (t : Z) : Z := t - t mod 1000000000.
Definition folder_toWire (o : ObservedFolder) : wireFolder :=
  buildFolder (timestamp (Time o)) (Label o) (ReceiveEncrypted o) (RemoteEncrypted o).
Definition folder_fromWire (w : wireFolder) : ObservedFolder :=
  {| Time := AsTime (GetTime w); Label := GetLabel w; ReceiveEncrypted := GetReceiveEncrypted w; RemoteEncrypted := GetRemoteEncrypted w |}.
Definition device_fromWire (w : wireDevice) : ObservedDevice :=
  {| od_Time := AsTime (device_GetTime w); od_Name := GetName w; od_Address := GetAddress w |}.
Definition mustMarshal (m : option bytes) : KV bytes := match m with Some bs => mret bs | None => spanic end.

Definition slash : byte := z2b 47.
Definition device_text (device : bytes) : KV bytes := match DeviceID_String device with Ret s => mret s | _ => spanic end.
Definition device_key (device : bytes) : KV bytes := s ← device_text device; mret (gostr "device/" ++ s).
Definition folder_key (id device : bytes) : KV bytes := s ← device_text device; mret (gostr "folder/" ++ s ++ slash :: id).

Definition AddOrUpdatePendingDevice (now : Z) (device name address : bytes) : KV unit :=
  key ← device_key device;
  bs ← mustMarshal (MarshalDevice (buildDevice (timestamp (truncate now)) name address));
  PutKV key bs.
Definition RemovePendingDevice (device : bytes) : KV unit := key ← device_key device; DeleteKV key.
Fixpoint pending_devices (rows : list (bytes * bytes)) (res : gmap bytes ObservedDevice) : KV (gmap bytes ObservedDevice) :=
  match rows with
  | [] => mret res
  | (key, value) :: rows =>
      match cut slash key with
      | None => _ ← DeleteKV key; pending_devices rows res
      | Some (_, keyDev) =>
          match DeviceIDFromString ToUpper keyDev with
          | Ret deviceID =>
              match UnmarshalDevice value with
              | None => _ ← DeleteKV key; pending_devices rows res
              | Some w => pending_devices rows (<[deviceID := device_fromWire w]> res)
              end
          | Err _ => _ ← DeleteKV key; pending_devices rows res
          | _ => spanic
          end
      end
  end.
Definition PendingDevices : KV (gmap bytes ObservedDevice * bool) :=
  r ← PrefixKV (gostr "device/");
  res ← pending_devices r.1 ∅;
  mret (res, r.2).

Definition AddOrUpdatePendingFolder (id : bytes) (o : ObservedFolder) (device : bytes) : KV unit :=
  key ← folder_key id device;
  bs ← mustMarshal (MarshalFolder (folder_toWire o));
  PutKV key bs.
Definition RemovePendingFolderForDevice (id device : bytes) : KV unit := key ← folder_key id device; DeleteKV key.
Fixpoint remove_folder (id : bytes) (rows : list (bytes * bytes)) : KV unit :=
  match rows with
  | [] => mret tt
  | (key, _) :: rows =>
      match split slash key with
      | [_; _; last] => if bool_decide (last = id) then _ ← DeleteKV key; remove_folder id rows else remove_folder id rows
      | _ => remove_folder id rows
      end
  end.
Definition RemovePendingFolder (id : bytes) : KV unit :=
  r ← PrefixKV (gostr "folder/");
  _ ← remove_folder id r.1;
  if (r.2 : bool) then sfail StatementErr else mret tt.
Abbreviation pending := (gmap bytes (gmap bytes ObservedFolder)).
Fixpoint pending_folders (rows : list (bytes * bytes)) (res : pending) : KV pending :=
  match rows with
  | [] => mret res
  | (key, value) :: rows =>
      match split slash key with
      | [_; keyDev; folderID] =>
          match DeviceIDFromString ToUpper keyDev with
          | Ret deviceID =>
              if is_nil folderID then _ ← DeleteKV key; pending_folders rows res
              else
                match UnmarshalFolder value with
                | None => _ ← DeleteKV key; pending_folders rows res
                | Some w => pending_folders rows (<[folderID := <[deviceID := folder_fromWire w]> (default ∅ (res !! folderID))]> res)
                end
          | Err _ => _ ← DeleteKV key; pending_folders rows res
          | _ => spanic
          end
      | _ => pending_folders rows res
      end
  end.
Definition PendingFoldersForDevice (device : bytes) : KV (pending * bool) :=
  s ← device_text device;
  let prefix := if bool_decide (device = EmptyDeviceID) then gostr "folder/" else gostr "folder/" ++ s ++ [slash] in
  r ← PrefixKV prefix;
  res ← pending_folders r.1 ∅;
  mret (res, r.2).
Definition PendingFolders : KV (pending * bool) := PendingFoldersForDevice EmptyDeviceID.

(** ** Values of a type *)

Context (MarshalBinary : Z -> bytes) (UnmarshalBinary : bytes -> option Z).

Definition prefixedKey (prefix key : bytes) : bytes := prefix ++ slash :: key.
(** [filterNotFound]: a missing value is not an error. *)
Definition typed_get {A} (prefix key : bytes) (value : bytes -> outcome kv_err A) : KV (option A) := fun t =>
  match GetKV (prefixedKey prefix key) t with
  | (t, Ret v) => (t, match value v with Ret a => Ret (Some a) | Err e => Err e | Panic => Panic | OutOfFuel => OutOfFuel end)
  | (t, Err NoRows) => (t, Ret None)
  | (t, Err e) => (t, Err e)
  | (t, Panic) => (t, Panic)
  | (t, OutOfFuel) => (t, OutOfFuel)
  end.
(** [binary.BigEndian.Uint64] panics on less than eight bytes. *)
Definition PutInt64 (prefix key : bytes) (val : Z) : KV unit := PutKV (prefixedKey prefix key) (putBE 8 (u64 val)).
Definition Int64 (prefix key : bytes) : KV (option Z) :=
  typed_get prefix key (fun v => if zlen v <? 8 then Panic else Ret (i64 (getBE (take 8 v)))).
Definition PutTime (prefix key : bytes) (val : Z) : KV unit := PutKV (prefixedKey prefix key) (MarshalBinary val).
Definition typed_Time (prefix key : bytes) : KV (option Z) :=
  typed_get prefix key (fun v => match UnmarshalBinary v with Some t => Ret t | None => Err StatementErr end).
Definition PutString (prefix key val : bytes) : KV unit := PutKV (prefixedKey prefix key) val.
Definition typed_String (prefix key : bytes) : KV (option bytes) := typed_get prefix key Ret.
Definition PutBytes (prefix key val : bytes) : KV unit := PutKV (prefixedKey prefix key) val.
Definition typed_Bytes (prefix key : bytes) : KV (option bytes) := typed_get prefix key Ret.
Definition PutBool (prefix key : bytes) (val : bool) : KV unit := PutKV (prefixedKey prefix key) [z2b (if val then 0 else 1)].
Definition typed_Bool (prefix key : bytes) : KV (option bool) :=
  typed_get prefix key (fun v => match v with [] => Panic | b :: _ => Ret (bool_decide (b = z2b 0)) end).
Definition typed_Delete (prefix key : bytes) : KV unit := DeleteKV (prefixedKey prefix key).

(** ** Statistics *)

(** [time.Time{}] *)
Context (zeroTime : Z).

Definition GetLastSeen (ns : bytes) : KV Z := t ← typed_Time ns (gostr "lastSeen"); mret (default 0 t).
Definition GetLastConnectionDuration (ns : bytes) : KV Z := d ← Int64 ns (gostr "lastConnDuration"); mret (default 0 d).
Definition WasSeen (now : Z) (ns : bytes) : KV unit := PutTime ns (gostr "lastSeen") (truncate now).
Definition LastConnectionDuration (d : Z) (ns : bytes) : KV unit := PutInt64 ns (gostr "lastConnDuration") d.
(** When the device was last seen, and the duration of the last connection in nanoseconds. *)
Definition device_GetStatistics (ns : bytes) : KV (Z * Z) := t ← GetLastSeen ns; d ← GetLastConnectionDuration ns; mret (t, d).

Record LastFile := { At : Z; Filename : bytes; Deleted : bool }.
Definition noFile : LastFile := {| At := zeroTime; Filename := []; Deleted := false |}.
Definition GetLastFile (ns : bytes) : KV LastFile :=
  at_ ← typed_Time ns (gostr "lastFileAt");
  match at_ with
  | None => mret noFile
  | Some at_ =>
      file ← typed_String ns (gostr "lastFileName");
      match file with
      | None => mret noFile
      | Some file => deleted ← typed_Bool ns (gostr "lastFileDeleted"); mret {| At := at_; Filename := file; Deleted := default false deleted |}
      end
  end.
Definition ReceivedFile (now : Z) (ns file : bytes) (deleted : bool) : KV unit :=
  _ ← PutTime ns (gostr "lastFileAt") (truncate now);
  _ ← PutString ns (gostr "lastFileName") file;
  PutBool ns (gostr "lastFileDeleted") deleted.
Definition ScanCompleted (now : Z) (ns : bytes) : KV unit := PutTime ns (gostr "lastScan") (truncate now).
Definition GetLastScanTime (ns : bytes) : KV Z := t ← typed_Time ns (gostr "lastScan"); mret (default zeroTime t).
Definition folder_GetStatistics (ns : bytes) : KV (LastFile * Z) := f ← GetLastFile ns; t ← GetLastScanTime ns; mret (f, t).
End Database.
