(* ===== verification/ObservedProps.v ===== *)
(** * Small values in the database: theorems

    The table of pending folders is a map from folders and devices, as long as
    the names of folders have no slash; values of a type are read back. *)
From Stdlib Require Import ZArith List Lia.
From Stdlib Require Import Strings.Byte.
From stdpp Require Import base list option gmap numbers tactics.
From S2P Require Import Prelude GoLib DeviceID Observed.

#[local] Open Scope Z_scope.

(** ** Prefixes *)

Lemma prefixEnd_last p c : b2z c < 255 -> prefixEnd (p ++ [c]) = Ret (p ++ [z2b (b2z c + 1)]).
Proof.
  intros Hc. unfold prefixEnd. replace (is_nil (p ++ [c])) with false by (by destruct p). rewrite reverse_snoc. cbn [count_up].
  destruct (Z.ltb_spec (b2z c) 255); [|lia]. by rewrite reverse_cons, reverse_involutive.
Qed.
Lemma prefix_range p c k : b2z c < 255 ->
  bytes_leb (p ++ [c]) k && bytes_ltb k (p ++ [z2b (b2z c + 1)]) = hasPrefix k (p ++ [c]).
Proof.
  intros Hc. pose proof (b2z_range c). assert (b2z (z2b (b2z c + 1)) = b2z c + 1) as Hn by (rewrite b2z_z2b; apply Z.mod_small; lia).
  revert k. induction p as [|x p IH]; intros [|y k]; cbn; try done.
  - unfold bytes_ltb. cbn. rewrite Hn. case_decide as E.
    + subst y. rewrite Z.ltb_irrefl. destruct (Z.ltb_spec (b2z c + 1) (b2z c)); [lia|]. destruct (Z.ltb_spec (b2z c) (b2z c + 1)); [|lia].
      destruct k; done.
    + destruct (Z.ltb_spec (b2z c) (b2z y)) as [Hl|Hl].
      * destruct (Z.ltb_spec (b2z c + 1) (b2z y)); [done|]. destruct (Z.ltb_spec (b2z y) (b2z c + 1)); [lia|]. done.
      * destruct (Z.ltb_spec (b2z y) (b2z c)); [done|]. exfalso. apply E. rewrite <- (z2b_b2z c), <- (z2b_b2z y). f_equal. lia.
  - unfold bytes_ltb in *. cbn. case_decide as E.
    + subst y. rewrite Z.ltb_irrefl. apply IH.
    + destruct (Z.ltb_spec (b2z x) (b2z y)) as [Hl|Hl]; [done|]. destruct (Z.ltb_spec (b2z y) (b2z x)); [done|].
      exfalso. apply E. rewrite <- (z2b_b2z x), <- (z2b_b2z y). f_equal. lia.
Qed.
(** A prefix that ends in the byte 255 also matches what does not start with it. *)
Lemma prefixEnd_overreaches :
  let p := [z2b 97; z2b 255] in let k := [z2b 98] in
  exists e, prefixEnd p = Ret e /\ bytes_leb p k && bytes_ltb k e = true /\ hasPrefix k p = false.
Proof. eexists. split; [vm_compute; reflexivity|]. split; vm_compute; reflexivity. Qed.

(** ** Keys *)

Definition devtext (d : bytes) : bytes := match DeviceID_String d with Ret s => s | _ => [] end.
Definition good_id (f : bytes) : Prop := f <> [] /\ slash ∉ f.
Definition fkey (f d : bytes) : bytes := gostr "folder/" ++ devtext d ++ slash :: f.
Definition folder_prefix : bytes := gostr "folder/".

Section Keys.
Context (ToUpper : bytes -> bytes) (HU : upper_law ToUpper).

Lemma devtext_spec d : length d = 32%nat ->
  DeviceID_String d = Ret (devtext d) /\ slash ∉ devtext d /\ DeviceIDFromString ToUpper (devtext d) = Ret d.
Proof.
  intros Hd. destruct (DeviceID_roundtrip ToUpper d EmptyDeviceID HU Hd eq_refl) as (s & Hs & Hp & _). unfold devtext. rewrite Hs.
  split; [done|]. split; [|done]. destruct (decide (d = EmptyDeviceID)) as [->|Hne]; [injection Hs as <-; apply not_elem_of_nil|].
  destruct (DeviceID_String_spec d Hd Hne) as (ds & id & _ & _ & _ & _ & _ & Hs' & _ & Ha & _). rewrite Hs' in Hs. injection Hs as <-.
  eapply not_elem_chars; [exact (chunkify_chars 8 id Ha)|]. intros [Hx|Hx]; [|done]. revert Hx. unfold b32_alphabet.
  apply (bool_decide_unpack (slash ∉ luhnBase32)). vm_compute. exact I.
Qed.
Lemma devtext_inj d d' : length d = 32%nat -> length d' = 32%nat -> devtext d = devtext d' -> d = d'.
Proof.
  intros Hd Hd' E. destruct (devtext_spec d Hd) as (_ & _ & H1). destruct (devtext_spec d' Hd') as (_ & _ & H2). rewrite E, H2 in H1. by injection H1.
Qed.
Lemma fkey_split f d : slash ∉ f -> length d = 32%nat -> split slash (fkey f d) = [gostr "folder"; devtext d; f].
Proof.
  intros Hf Hd. destruct (devtext_spec d Hd) as (_ & Hs & _). unfold fkey.
  change (gostr "folder/" ++ devtext d ++ slash :: f) with (gostr "folder" ++ slash :: (devtext d ++ slash :: f)).
  rewrite split_app_sep by (by apply (bool_decide_unpack _)). by rewrite split_app_sep, split_single.
Qed.
Lemma fkey_inj f d f' d' : slash ∉ f -> slash ∉ f' -> length d = 32%nat -> length d' = 32%nat -> fkey f d = fkey f' d' -> f = f' /\ d = d'.
Proof.
  intros Hf Hf' Hd Hd' E. pose proof (fkey_split f d Hf Hd) as H1. rewrite E, fkey_split in H1 by done. injection H1 as Ht Ef.
  split; [done|]. by apply devtext_inj.
Qed.
Lemma fkey_device_prefix f d d' : slash ∉ f -> length d = 32%nat -> length d' = 32%nat ->
  hasPrefix (fkey f d') (gostr "folder/" ++ devtext d ++ [slash]) = bool_decide (d' = d).
Proof.
  intros Hf Hd Hd'. apply eq_bool_prop_intro. rewrite bool_decide_spec, Is_true_true, hasPrefix_spec. split.
  - intros [r E]. unfold fkey in E. rewrite <- !app_assoc in E. apply app_inv_head in E. cbn [app] in E.
    destruct (devtext_spec d Hd) as (_ & Hs & _). destruct (devtext_spec d' Hd') as (_ & Hs' & _).
    apply (f_equal (split slash)) in E. rewrite !split_app_sep in E by done. injection E as E _. by apply devtext_inj.
  - intros ->. exists f. unfold fkey. by rewrite <- !app_assoc.
Qed.
End Keys.

(** ** Pending folders are a map *)

Section Pending.
Context (fails : kv_call -> bool) (scan : gmap bytes bytes -> list (bytes * bytes)) (interrupted : bytes -> option nat).
Context {TS wireFolder : Type} (timestamp : Z -> TS) (AsTime : TS -> Z).
Context (buildFolder : TS -> bytes -> bool -> bool -> wireFolder) (GetTime : wireFolder -> TS) (GetLabel : wireFolder -> bytes)
  (GetReceiveEncrypted GetRemoteEncrypted : wireFolder -> bool) (MarshalFolder : wireFolder -> option bytes)
  (UnmarshalFolder : bytes -> option wireFolder).
Context (ToUpper : bytes -> bytes) (HU : upper_law ToUpper).
Hypothesis scan_rows : forall t, scan t ≡ₚ map_to_list t.
Hypothesis folder_roundtrip : forall t l r e, let w := buildFolder t l r e in
  GetTime w = t /\ GetLabel w = l /\ GetReceiveEncrypted w = r /\ GetRemoteEncrypted w = e /\
  exists bs, MarshalFolder w = Some bs /\ UnmarshalFolder bs = Some w.
Hypothesis AsTime_timestamp : forall t, AsTime (timestamp t) = t.

Abbreviation fromWire := (folder_fromWire AsTime GetTime GetLabel GetReceiveEncrypted GetRemoteEncrypted).
Abbreviation add := (AddOrUpdatePendingFolder fails timestamp buildFolder MarshalFolder).
Abbreviation list_for := (PendingFoldersForDevice fails scan interrupted AsTime GetTime GetLabel GetReceiveEncrypted GetRemoteEncrypted UnmarshalFolder ToUpper).
Abbreviation loop := (pending_folders fails AsTime GetTime GetLabel GetReceiveEncrypted GetRemoteEncrypted UnmarshalFolder ToUpper).

(** The rows that keep the map [A] from folders and devices. *)
Definition entry (A : gmap (bytes * bytes) ObservedFolder) (k v : bytes) : Prop :=
  exists f d w, good_id f /\ length d = 32%nat /\ k = fkey f d /\ UnmarshalFolder v = Some w /\ A !! (f, d) = Some (fromWire w).
Definition holds (t : gmap bytes bytes) (A : gmap (bytes * bytes) ObservedFolder) : Prop :=
  (forall k v, t !! k = Some v -> hasPrefix k folder_prefix = true -> entry A k v) /\
  (forall f d o, A !! (f, d) = Some o -> good_id f /\ length d = 32%nat /\ is_Some (t !! fkey f d)).

Lemma folder_key_run f d t : length d = 32%nat -> folder_key f d t = (t, Ret (fkey f d)).
Proof. intros Hd. unfold folder_key, device_text. destruct (devtext_spec ToUpper HU d Hd) as (-> & _). done. Qed.
Lemma fkey_prefix f d : hasPrefix (fkey f d) folder_prefix = true.
Proof. apply hasPrefix_spec. by eexists. Qed.

Lemma holds_add t A f o d v w : holds t A -> good_id f -> length d = 32%nat -> UnmarshalFolder v = Some w -> fromWire w = o ->
  holds (<[fkey f d := v]> t) (<[(f, d) := o]> A).
Proof.
  intros [H1 H2] Hf Hd Hv <-. split.
  - intros k v' Hk Hp. apply lookup_insert_Some in Hk as [ [<- <-]|[Hne Hk] ].
    + exists f, d, w. rewrite lookup_insert_eq. done.
    + destruct (H1 k v' Hk Hp) as (f' & d' & w' & Hf' & Hd' & -> & Hv' & HA). exists f', d', w'.
      rewrite lookup_insert_ne; [done|]. intros [= <- <-]. done.
  - intros f' d' o' HA. apply lookup_insert_Some in HA as [ [ [= <- <-] _]|[Hne HA] ].
    + split; [done|]. split; [done|]. rewrite lookup_insert_eq. by eexists.
    + destruct (H2 f' d' o' HA) as (Hf' & Hd' & Ht). split; [done|]. split; [done|].
      rewrite lookup_insert_ne; [done|]. intros E. destruct Hf, Hf'. apply (fkey_inj ToUpper HU) in E as [-> ->]; done.
Qed.
Lemma holds_delete t A f d : holds t A -> length d = 32%nat -> good_id f -> holds (delete (fkey f d) t) (delete (f, d) A).
Proof.
  intros [H1 H2] Hd Hf. split.
  - intros k v Hk Hp. apply lookup_delete_Some in Hk as [Hne Hk]. destruct (H1 k v Hk Hp) as (f' & d' & w' & Hf' & Hd' & -> & Hv & HA).
    exists f', d', w'. rewrite lookup_delete_ne; [done|]. intros [= <- <-]. done.
  - intros f' d' o HA. apply lookup_delete_Some in HA as [Hne HA]. destruct (H2 f' d' o HA) as (Hf' & Hd' & Ht). split; [done|]. split; [done|].
    rewrite lookup_delete_ne; [done|]. intros E. destruct Hf, Hf'. apply (fkey_inj ToUpper HU) in E as [-> ->]; done.
Qed.

(** *** Listing *)

Definition lk (res : gmap bytes (gmap bytes ObservedFolder)) (f d : bytes) : option ObservedFolder := default ∅ (res !! f) !! d.
Lemma lk_insert res f d o f' d' :
  lk (<[f := <[d := o]> (default ∅ (res !! f))]> res) f' d' = if bool_decide (f = f' /\ d = d') then Some o else lk res f' d'.
Proof.
  unfold lk. destruct (decide (f = f')) as [<-|Hf].
  - rewrite lookup_insert_eq. cbn. destruct (decide (d = d')) as [<-|Hd].
    + by rewrite lookup_insert_eq, bool_decide_eq_true_2.
    + rewrite lookup_insert_ne by done. rewrite bool_decide_eq_false_2; [done|]. by intros [].
  - rewrite lookup_insert_ne by done. rewrite bool_decide_eq_false_2; [done|]. by intros [].
Qed.
Lemma loop_spec A rows t : NoDup (map fst rows) -> Forall (fun kv => entry A kv.1 kv.2) rows ->
  forall res, exists res', loop rows res t = (t, Ret res') /\
    forall f d, good_id f -> length d = 32%nat ->
      lk res' f d = if decide (fkey f d ∈ map fst rows) then A !! (f, d) else lk res f d.
Proof.
  induction rows as [|[k v] rows IH]; intros Hn Hall res; cbn [pending_folders].
  { exists res. split; [done|]. intros f d _ _. rewrite decide_False by apply not_elem_of_nil. done. }
  apply list.NoDup_cons in Hn as [Hk Hn]. apply Forall_cons_iff in Hall as [He Hall]. destruct He as (f0 & d0 & w & Hf0 & Hd0 & E & Hv & HA).
  cbn [fst snd] in E, Hv. subst k. destruct Hf0 as [Hne Hsl]. rewrite (fkey_split ToUpper HU) by done. destruct (devtext_spec ToUpper HU d0 Hd0) as (_ & _ & ->).
  replace (is_nil f0) with false by (by destruct f0). rewrite Hv.
  destruct (IH Hn Hall (<[f0 := <[d0 := fromWire w]> (default ∅ (res !! f0))]> res)) as (res' & -> & Hres). exists res'. split; [done|].
  intros f d Hf Hd. rewrite Hres by done. rewrite lk_insert. cbn [map fst]. destruct (decide (fkey f d ∈ map fst rows)) as [Hin|Hin].
  - rewrite decide_True by (by right). done.
  - case_bool_decide as E.
    + destruct E as [-> ->]. rewrite decide_True by left. done.
    + rewrite decide_False; [done|]. intros [Ek|?]%elem_of_cons; [|done]. destruct Hf. apply (fkey_inj ToUpper HU) in Ek as [-> ->]; [|done..]. by apply E.
Qed.

(** *** Reading the rows of a prefix *)

Lemma PrefixKV_rows p c t : b2z c < 255 ->
  PrefixKV scan interrupted (p ++ [c]) t =
    (t, Ret (let rows := List.filter (fun kv => hasPrefix kv.1 (p ++ [c])) (scan t) in
       match interrupted (p ++ [c]) with Some n => (take n rows, true) | None => (rows, false) end)).
Proof.
  intros Hc. unfold PrefixKV. rewrite prefixEnd_last by done. replace (is_nil (p ++ [c])) with false by (by destruct p). cbv zeta.
  erewrite List.filter_ext; [reflexivity|]. intros [k v]. by apply prefix_range.
Qed.
Lemma prefix_rows p t kv : kv ∈ List.filter (fun kv : bytes * bytes => hasPrefix kv.1 p) (scan t) <-> t !! kv.1 = Some kv.2 /\ hasPrefix kv.1 p = true.
Proof.
  rewrite list_elem_of_In, List.filter_In, <- list_elem_of_In, (scan_rows t). destruct kv as [k v]. by rewrite elem_of_map_to_list.
Qed.
Lemma rows_NoDup p t : NoDup (map fst (List.filter (fun kv : bytes * bytes => hasPrefix kv.1 p) (scan t))).
Proof.
  assert (NoDup (map fst (scan t))) as Hn by (rewrite (Permutation_map fst (scan_rows t)); apply NoDup_fst_map_to_list).
  induction (scan t) as [|[k v] rows IH]; cbn; [constructor|]. apply list.NoDup_cons in Hn as [Hk Hn]. specialize (IH Hn).
  destruct (hasPrefix k p); [|done]. cbn. apply list.NoDup_cons. split; [|done]. intros (kv & E & Hin)%list_elem_of_fmap. apply Hk, list_elem_of_fmap.
  exists kv. split; [done|]. apply list_elem_of_In in Hin. apply List.filter_In in Hin as [Hin _]. by apply list_elem_of_In.
Qed.
(** The rows that are read: all, or the first ones and then an error. *)
Lemma read_rows p c t : b2z c < 255 -> exists rows err, PrefixKV scan interrupted (p ++ [c]) t = (t, Ret (rows, err)) /\ NoDup (map fst rows) /\
  (forall kv, kv ∈ rows -> t !! kv.1 = Some kv.2 /\ hasPrefix kv.1 (p ++ [c]) = true) /\
  (err = false -> forall k v, t !! k = Some v -> hasPrefix k (p ++ [c]) = true -> (k, v) ∈ rows).
Proof.
  intros Hc. rewrite PrefixKV_rows by done. cbv zeta. set (rows := List.filter _ _). pose proof (rows_NoDup (p ++ [c]) t : NoDup (map fst rows)) as Hn.
  assert (forall kv, kv ∈ rows <-> t !! kv.1 = Some kv.2 /\ hasPrefix kv.1 (p ++ [c]) = true) as Hin by apply prefix_rows.
  destruct (interrupted _) as [n|].
  - exists (take n rows), true. split; [done|]. split; [|split; [|done] ].
    + rewrite <- (take_drop n rows), map_app in Hn. by apply list.NoDup_app in Hn as [? _].
    + intros kv Hkv. apply Hin. rewrite <- (take_drop n rows). apply elem_of_app. by left.
  - exists rows, false. split; [done|]. split; [done|]. split; [intros; by apply Hin|]. intros _ k v Hk Hp. by apply Hin.
Qed.

(** *** Removing a folder *)

Lemma remove_folder_spec id rows t A : good_id id -> holds t A ->
  (forall k v, (k, v) ∈ rows -> exists f d, good_id f /\ length d = 32%nat /\ k = fkey f d) ->
  exists t' r A', remove_folder fails id rows t = (t', r) /\ holds t' A' /\ A' ⊆ A /\
    (forall f d, f <> id -> A' !! (f, d) = A !! (f, d)) /\
    (r = Ret tt /\ (forall f d, good_id f -> length d = 32%nat -> f = id -> fkey f d ∈ map fst rows -> A' !! (f, d) = None) \/ exists e, r = Err e).
Proof.
  intros Hid. revert t A. induction rows as [|[k v] rows IH]; intros t A Ht Hrows; cbn [remove_folder].
  { exists t, (Ret tt), A. do 4 (split; [done|]). left. split; [done|]. intros ? ? ? ? ? Hx. by apply not_elem_of_nil in Hx. }
  destruct (Hrows k v ltac:(left)) as (f & d & Hf & Hd & ->). pose proof (proj2 Hf) as Hsl. rewrite (fkey_split ToUpper HU) by done.
  assert (forall k v, (k, v) ∈ rows -> exists f d, good_id f /\ length d = 32%nat /\ k = fkey f d) as Hrows' by (intros; eapply Hrows; by right).
  case_bool_decide as E.
  - subst f. unfold mbind, sm_bind, DeleteKV. destruct (fails _).
    + exists t, (Err StatementErr), A. do 4 (split; [done|]). right. by eexists.
    + destruct (IH (delete (fkey id d) t) (delete (id, d) A)) as (t' & r & A' & -> & Ht' & Hsub & Hother & Hr); [by apply holds_delete|done|].
      exists t', r, A'. split; [done|]. split; [done|]. split; [etrans; [exact Hsub|apply delete_subseteq]|]. split.
      * intros f' d' Hne. rewrite Hother by done. apply lookup_delete_ne. intros [= -> ->]. done.
      * destruct Hr as [ [-> Hgone]|?]; [left|by right]. split; [done|]. intros f' d' Hf' Hd' -> Hin. cbn [map fst] in Hin.
        apply elem_of_cons in Hin as [E|Hin]; [|by apply Hgone]. apply (fkey_inj ToUpper HU) in E as [_ ->]; [|done..].
        destruct (A' !! (id, d)) eqn:Ea; [|done]. eapply lookup_weaken in Ea; [|exact Hsub]. by rewrite lookup_delete_eq in Ea.
  - destruct (IH t A Ht Hrows') as (t' & r & A' & -> & Ht' & Hsub & Hother & Hr). exists t', r, A'. do 4 (split; [done|]).
    destruct Hr as [ [-> Hgone]|?]; [left|by right]. split; [done|]. intros f' d' Hf' Hd' -> Hin. cbn [map fst] in Hin.
    apply elem_of_cons in Hin as [Ek|Hin]; [|by apply Hgone]. apply (fkey_inj ToUpper HU) in Ek as [-> _]; [done| |done..]. apply Hid.
Qed.

(** *** Listing a table *)

Lemma lk_empty f d : lk ∅ f d = None.
Proof. unfold lk. rewrite lookup_empty. apply lookup_empty. Qed.
(** Every folder in the answer has a name and an entry. *)
Definition filled (res : gmap bytes (gmap bytes ObservedFolder)) : Prop :=
  forall f, is_Some (res !! f) -> good_id f /\ exists d, length d = 32%nat /\ is_Some (lk res f d).
Lemma loop_filled A rows t : Forall (fun kv => entry A kv.1 kv.2) rows -> forall res res', filled res -> loop rows res t = (t, Ret res') -> filled res'.
Proof.
  induction rows as [|[k v] rows IH]; intros Hall res res' Hf; cbn [pending_folders]; [intros E; injection E as <-; done|].
  apply Forall_cons_iff in Hall as [ (f0 & d0 & w & Hf0 & Hd0 & E & Hv & _) Hall]. cbn [fst snd] in E, Hv. subst k.
  rewrite (fkey_split ToUpper HU) by (done || apply Hf0). destruct (devtext_spec ToUpper HU d0 Hd0) as (_ & _ & ->).
  replace (is_nil f0) with false by (by destruct Hf0, f0). rewrite Hv. apply IH; [done|]. intros f Hs. setoid_rewrite lk_insert.
  destruct (decide (f = f0)) as [->|Hne].
  - split; [done|]. exists d0. split; [done|]. rewrite bool_decide_eq_true_2 by done. by eexists.
  - rewrite lookup_insert_ne in Hs by done. destruct (Hf f Hs) as (Hg & d & Hd & Hl). split; [done|]. exists d. split; [done|].
    rewrite bool_decide_eq_false_2; [done|]. by intros [-> _].
Qed.
(** The prefix of the listing for a device. *)
Lemma list_prefix dev : length dev = 32%nat ->
  exists p, (if bool_decide (dev = EmptyDeviceID) then gostr "folder/" else gostr "folder/" ++ devtext dev ++ [slash]) = p ++ [slash] /\
    (exists q, p ++ [slash] = folder_prefix ++ q) /\
    forall f d, slash ∉ f -> length d = 32%nat -> hasPrefix (fkey f d) (p ++ [slash]) = bool_decide (dev = EmptyDeviceID \/ d = dev).
Proof.
  intros Hdev. case_bool_decide as Ed.
  - exists (gostr "folder"). split; [done|]. split; [by exists []|]. intros f d _ _. change (gostr "folder" ++ [slash]) with folder_prefix.
    rewrite fkey_prefix. symmetry. apply bool_decide_eq_true_2. by left.
  - exists (gostr "folder/" ++ devtext dev). split; [by rewrite <- app_assoc|]. split; [exists (devtext dev ++ [slash]); by rewrite <- app_assoc|].
    intros f d Hf Hd. rewrite <- app_assoc. rewrite (fkey_device_prefix ToUpper HU) by done. apply bool_decide_ext. split; [by right|]. by intros [?|?].
Qed.
Lemma list_for_spec t A dev : holds t A -> length dev = 32%nat -> exists res err, list_for dev t = (t, Ret (res, err)) /\ filled res /\
  forall f d o, good_id f -> length d = 32%nat ->
    (lk res f d = Some o -> A !! (f, d) = Some o /\ (dev = EmptyDeviceID \/ d = dev)) /\
    (err = false -> A !! (f, d) = Some o -> dev = EmptyDeviceID \/ d = dev -> lk res f d = Some o).
Proof.
  intros [H1 H2] Hdev. unfold PendingFoldersForDevice, device_text. destruct (devtext_spec ToUpper HU dev Hdev) as (-> & _ & _).
  destruct (list_prefix dev Hdev) as (p & Ep & [q Eq] & Hp). unfold mbind, sm_bind. cbn [mret sm_ret]. rewrite Ep.
  destruct (read_rows p slash t) as (rows & err & -> & Hn & Hin & Hall); [done|]. cbn [fst snd].
  assert (Forall (fun kv => entry A kv.1 kv.2) rows) as Hall'.
  { apply Forall_forall. intros [k v] Hkv%list_elem_of_In. apply Hin in Hkv as [Hk Hpk]. cbn [fst snd] in *. apply (H1 k v Hk).
    apply hasPrefix_spec in Hpk as [r ->]. apply hasPrefix_spec. exists (q ++ r). by rewrite Eq, <- app_assoc. }
  destruct (loop_spec A rows t Hn Hall') with (res := (∅ : gmap bytes (gmap bytes ObservedFolder))) as (res & E & Hres). rewrite E.
  exists res, err. split; [done|]. split; [eapply loop_filled; [exact Hall'| |exact E]; intros f [x Hx]; by rewrite lookup_empty in Hx|].
  intros f d o Hf Hd. rewrite Hres by done. rewrite lk_empty. split.
  - destruct (decide (fkey f d ∈ map fst rows)) as [Hk|_]; [|discriminate]. intros HA. split; [exact HA|]. apply list_elem_of_fmap in Hk as ([k v] & Ek & Hkv). cbn [fst] in Ek. subst k.
    apply Hin in Hkv as [_ Hpk]. cbn [fst] in Hpk. rewrite Hp in Hpk by (done || apply Hf). by apply bool_decide_eq_true_1 in Hpk.
  - intros -> HA Hdd. destruct (H2 f d o HA) as (_ & _ & [v Hv]). rewrite decide_True; [done|]. apply list_elem_of_fmap. exists (fkey f d, v).
    split; [done|]. apply Hall; [done|done|]. rewrite Hp by (done || apply Hf). by apply bool_decide_eq_true_2.
Qed.

Lemma add_spec t A id o dev : holds t A -> good_id id -> length dev = 32%nat -> exists t' r, add id o dev t = (t', r) /\
  (r = Ret tt /\ holds t' (<[(id, dev) := o]> A) \/ (exists e, r = Err e) /\ t' = t).
Proof.
  intros Ht Hid Hdev. unfold AddOrUpdatePendingFolder, mbind, sm_bind. rewrite folder_key_run by done. unfold folder_toWire.
  destruct (folder_roundtrip (timestamp (Time o)) (Label o) (ReceiveEncrypted o) (RemoteEncrypted o)) as (E1 & E2 & E3 & E4 & bs & Em & Eu).
  rewrite Em. cbn. unfold PutKV. destruct (fails _); eexists _, _; (split; [reflexivity|]); [right; split; [by eexists|done]|left].
  split; [done|]. eapply holds_add; try done. unfold folder_fromWire. rewrite E1, E2, E3, E4, AsTime_timestamp. by destruct o.
Qed.
Lemma remove_for_spec t A id dev : holds t A -> good_id id -> length dev = 32%nat -> exists t' r, RemovePendingFolderForDevice fails id dev t = (t', r) /\
  (r = Ret tt /\ holds t' (delete (id, dev) A) \/ (exists e, r = Err e) /\ t' = t).
Proof.
  intros Ht Hid Hdev. unfold RemovePendingFolderForDevice, mbind, sm_bind. rewrite folder_key_run by done. unfold DeleteKV.
  destruct (fails _); eexists _, _; (split; [reflexivity|]); [right; split; [by eexists|done]|left]. split; [done|]. by apply holds_delete.
Qed.

(** *** Whatever is in the table, and whatever the names *)

(** A call comes to an end, with a result or an error. *)
Definition ends {A} (r : outcome kv_err A) : Prop := (exists a, r = Ret a) \/ (exists e, r = Err e).
Lemma unluhnify_loop_ends n s : (exists v, unluhnify_loop n s = Ret v) \/ (exists e, unluhnify_loop n s = Err e).
Proof.
  revert s. induction n as [|n IH]; intros s; cbn [unluhnify_loop]; [left; by eexists|].
  destruct (luhn32_result (take 13 s)) as [ [c ->]| ->]; cbn [mbind outcome_bind]; [|right; by eexists].
  destruct (negb _); [right; by eexists|]. destruct (IH (drop 14 s)) as [ [v ->]|[e ->] ]; cbn; eauto.
Qed.
Lemma DeviceIDFromString_ends s : (exists d, DeviceIDFromString ToUpper s = Ret d) \/ (exists e, DeviceIDFromString ToUpper s = Err e).
Proof.
  unfold DeviceIDFromString, UnmarshalText, unluhnify, unmarshalOld. cbv zeta. set (id := unchunkify _).
  destruct (zlen id =? 0); [left; by eexists|]. destruct (zlen id =? 56); cbn [negb].
  - destruct (unluhnify_loop_ends 4 id) as [ [v ->]|[e ->] ]; cbn [mbind outcome_bind]; [|right; by eexists].
    destruct (b32_decode _); eauto.
  - destruct (zlen id =? 52); [destruct (b32_decode _)|]; eauto.
Qed.
Lemma add_ends t id o dev : length dev = 32%nat -> ends (add id o dev t).2.
Proof.
  intros Hdev. unfold AddOrUpdatePendingFolder, mbind, sm_bind. rewrite folder_key_run by done. unfold folder_toWire.
  destruct (folder_roundtrip (timestamp (Time o)) (Label o) (ReceiveEncrypted o) (RemoteEncrypted o)) as (_ & _ & _ & _ & bs & -> & _).
  cbn. unfold PutKV. destruct (fails _); [right|left]; by eexists.
Qed.
Lemma remove_for_ends t id dev : length dev = 32%nat -> ends (RemovePendingFolderForDevice fails id dev t).2.
Proof.
  intros Hdev. unfold RemovePendingFolderForDevice, mbind, sm_bind. rewrite folder_key_run by done. unfold DeleteKV.
  destruct (fails _); [right|left]; by eexists.
Qed.
Lemma loop_ends rows res t : ends (loop rows res t).2.
Proof.
  revert res t. induction rows as [|[k v] rows IH]; intros res t; cbn [pending_folders]; [left; by eexists|].
  assert (forall k, ends ((_ ← DeleteKV fails k; loop rows res) t).2) as Hdel.
  { intros k'. unfold mbind, sm_bind, DeleteKV. destruct (fails _); [right; by eexists|apply IH]. }
  destruct (split slash k) as [|? [|dv [|f [|] ] ] ]; try apply IH.
  destruct (DeviceIDFromString_ends dv) as [ [d ->]|[e ->] ]; [|apply Hdel].
  destruct (is_nil f); [apply Hdel|]. destruct (UnmarshalFolder v); [apply IH|apply Hdel].
Qed.
Lemma list_for_ends t dev : length dev = 32%nat -> ends (list_for dev t).2.
Proof.
  intros Hdev. unfold PendingFoldersForDevice, device_text. destruct (devtext_spec ToUpper HU dev Hdev) as (-> & _ & _).
  destruct (list_prefix dev Hdev) as (p & Ep & _ & _). unfold mbind, sm_bind. cbn [mret sm_ret]. rewrite Ep.
  destruct (read_rows p slash t) as (rows & err & -> & _); [done|]. cbn [fst snd].
  pose proof (loop_ends rows ∅ t) as Hl. destruct (loop rows ∅ t) as [t' r]. cbn [snd] in Hl.
  destruct Hl as [ [a ->]|[e ->] ]; [left|right]; by eexists.
Qed.

(** C40: the table of pending folders refines a map from folders and devices, for folders whose names are not empty and have no slash and devices
    of 32 bytes, and as long as every row whose key begins with folder/ is a valid entry of such a folder and device ([holds]; rows under
    other keys are arbitrary; a name with a slash breaks it: [slash_pending_lost]): adding puts an entry into the map, or fails and changes
    nothing; removing takes it out, or fails and changes nothing; removing a folder takes out all its entries and no others, or fails after some
    of them; each keeps this; and listing, for all devices or for one, changes nothing and gives exactly the entries of the map, or some
    of them if reading failed. *)
Theorem pending_refines t A (Ht : holds t A) :
  (forall id o dev, good_id id -> length dev = 32%nat -> exists t' r, add id o dev t = (t', r) /\
    (r = Ret tt /\ holds t' (<[(id, dev) := o]> A) \/ (exists e, r = Err e) /\ t' = t)) /\
  (forall id dev, good_id id -> length dev = 32%nat -> exists t' r, RemovePendingFolderForDevice fails id dev t = (t', r) /\
    (r = Ret tt /\ holds t' (delete (id, dev) A) \/ (exists e, r = Err e) /\ t' = t)) /\
  (forall id, good_id id -> exists t' r A', RemovePendingFolder fails scan interrupted id t = (t', r) /\ holds t' A' /\ A' ⊆ A /\
    (forall f d, f <> id -> A' !! (f, d) = A !! (f, d)) /\ (r = Ret tt /\ (forall d, A' !! (id, d) = None) \/ exists e, r = Err e)) /\
  (forall dev, length dev = 32%nat -> exists res err, list_for dev t = (t, Ret (res, err)) /\
    forall f d o, good_id f -> length d = 32%nat ->
      (lk res f d = Some o -> A !! (f, d) = Some o /\ (dev = EmptyDeviceID \/ d = dev)) /\
      (err = false -> A !! (f, d) = Some o -> dev = EmptyDeviceID \/ d = dev -> lk res f d = Some o)).
Proof.
  pose proof Ht as [H1 H2]. split; [|split; [|split] ].
  - intros id o dev. by apply add_spec.
  - intros id dev. by apply remove_for_spec.
  - intros id Hid. unfold RemovePendingFolder, mbind, sm_bind. destruct (read_rows (gostr "folder") slash t) as (rows & err & E & _ & Hin & Hall); [done|].
    change (gostr "folder" ++ [slash]) with folder_prefix in *. change (gostr "folder/") with folder_prefix. rewrite E. cbn [fst snd].
    destruct (remove_folder_spec id rows t A Hid Ht) as (t' & r & A' & -> & Ht' & Hsub & Hother & Hr).
    { intros k v [Hk Hp]%Hin. destruct (H1 k v Hk Hp) as (f & d & w & ? & ? & ? & _). by exists f, d. }
    destruct Hr as [ [-> Hgone]|[e ->] ]; [|exists t', (Err e), A'; do 4 (split; [done|]); right; by eexists].
    destruct err; eexists _, _, _; (split; [reflexivity|]); do 3 (split; [done|]); [right; by eexists|left]. split; [done|]. intros d.
    destruct (A' !! (id, d)) eqn:Ea; [|done]. pose proof (lookup_weaken _ _ _ _ Ea Hsub) as Ha. destruct (H2 id d _ Ha) as (Hf & Hd & [v Hv]).
    rewrite <- Ea. apply Hgone; try done. apply list_elem_of_fmap. exists (fkey id d, v). split; [done|]. apply Hall; [done|done|apply fkey_prefix].
  - intros dev Hdev. destruct (list_for_spec t A dev Ht Hdev) as (res & err & E & _ & Hl). eauto.
Qed.
End Pending.

(** ** Values of a type *)

Section Typed.
Context (fails : kv_call -> bool) (MarshalBinary : Z -> bytes) (UnmarshalBinary : bytes -> option Z) (zeroTime : Z).
Hypothesis time_roundtrip : forall t, UnmarshalBinary (MarshalBinary t) = Some t.
Hypothesis reads : forall k, fails (GetCall k) = false.

Lemma PutKV_done k v t t' : PutKV fails k v t = (t', Ret tt) -> t' = <[k := v]> t.
Proof. unfold PutKV. destruct (fails _); [done|]. by intros [= <-]. Qed.
Lemma typed_get_value {A} p k (value : bytes -> outcome kv_err A) t v a : t !! prefixedKey p k = Some v -> value v = Ret a ->
  typed_get fails p k value t = (t, Ret (Some a)).
Proof. intros Hv Ha. unfold typed_get, GetKV. rewrite reads, Hv. by rewrite Ha. Qed.
Lemma typed_get_other {A} p k (value : bytes -> outcome kv_err A) key v t : prefixedKey p k <> key ->
  snd (typed_get fails p k value (<[key := v]> t)) = snd (typed_get fails p k value t).
Proof. intros Hne. unfold typed_get, GetKV. rewrite reads, lookup_insert_ne by done. by destruct (t !! _). Qed.
Lemma prefixedKey_inj p k p' k' : slash ∉ k -> slash ∉ k' -> prefixedKey p k = prefixedKey p' k' -> p = p' /\ k = k'.
Proof.
  unfold prefixedKey. intros Hk Hk' E. apply (f_equal reverse) in E. rewrite !reverse_app, !reverse_cons, <- !app_assoc in E. cbn [app] in E.
  apply (f_equal (cut slash)) in E. rewrite !cut_app in E by (by rewrite elem_of_reverse). injection E as E1 E2.
  split; [by apply (inj reverse)|by apply (inj reverse)].
Qed.

(** Whatever was written last under a key is read back, if reading does not
    fail; writing under another key does not matter. *)
Theorem typed_roundtrip p k t t' :
  (forall v, - 2 ^ 63 <= v < 2 ^ 63 -> PutInt64 fails p k v t = (t', Ret tt) -> Int64 fails p k t' = (t', Ret (Some v))) /\
  (forall v, PutTime fails MarshalBinary p k v t = (t', Ret tt) -> typed_Time fails UnmarshalBinary p k t' = (t', Ret (Some v))) /\
  (forall v, PutString fails p k v t = (t', Ret tt) -> typed_String fails p k t' = (t', Ret (Some v))) /\
  (forall v, PutBytes fails p k v t = (t', Ret tt) -> typed_Bytes fails p k t' = (t', Ret (Some v))) /\
  (forall v, PutBool fails p k v t = (t', Ret tt) -> typed_Bool fails p k t' = (t', Ret (Some v))) /\
  (typed_Delete fails p k t = (t', Ret tt) -> typed_String fails p k t' = (t', Ret None)).
Proof.
  split_and!.
  - intros v Hv ->%PutKV_done. apply (typed_get_value _ _ _ _ (putBE 8 (u64 v))); [apply lookup_insert_eq|]. rewrite putBE_length.
    cbn [Z.of_nat]. change (Z.of_nat 8 <? 8) with false. cbn iota. rewrite (firstn_all2 (putBE 8 (u64 v))) by (by rewrite putBE_length).
    rewrite getBE_putBE. f_equal. change (256 ^ Z.of_nat 8) with (2 ^ 64). unfold uN, iN. rewrite Z.mod_mod by lia.
    change (64 - 1) with 63. rewrite Zplus_mod_idemp_l. rewrite Z.mod_small by lia. lia.
  - intros v ->%PutKV_done. eapply typed_get_value; [apply lookup_insert_eq|]. by rewrite time_roundtrip.
  - intros v ->%PutKV_done. by eapply typed_get_value; [apply lookup_insert_eq|].
  - intros v ->%PutKV_done. by eapply typed_get_value; [apply lookup_insert_eq|].
  - intros v ->%PutKV_done. eapply typed_get_value; [apply lookup_insert_eq|]. by destruct v.
  - unfold typed_Delete, DeleteKV. destruct (fails _); [done|]. intros [= <-]. unfold typed_String, typed_get, GetKV.
    by rewrite reads, lookup_delete_eq.
Qed.

(** The statistics of a folder are those of the last file and the last scan. *)
Lemma folder_statistics_kept ns now1 now2 file deleted t t1 t2 :
  ReceivedFile fails MarshalBinary now1 ns file deleted t = (t1, Ret tt) -> ScanCompleted fails MarshalBinary now2 ns t1 = (t2, Ret tt) ->
  folder_GetStatistics fails UnmarshalBinary zeroTime ns t2 =
    (t2, Ret ({| At := truncate now1; Filename := file; Deleted := deleted |}, truncate now2)).
Proof.
  unfold ReceivedFile, mbind, sm_bind. destruct (PutTime _ _ _ _ _ t) as [ta [ [] | | | ] ] eqn:Ea; try done.
  destruct (PutString _ _ _ _ ta) as [tb [ [] | | | ] ] eqn:Eb; try done. intros Ec Ed.
  apply PutKV_done in Ea, Eb, Ec, Ed. subst t2 t1 tb ta.
  assert (forall k k', slash ∉ k -> slash ∉ k' -> k <> k' -> prefixedKey ns k <> prefixedKey ns k') as Hne.
  { intros k k' Hk Hk' Hkk E. by apply prefixedKey_inj in E as [_ E]. }
  unfold folder_GetStatistics, GetLastFile, GetLastScanTime, mbind, sm_bind.
  assert (slash ∉ gostr "lastScan" /\ slash ∉ gostr "lastFileAt" /\ slash ∉ gostr "lastFileName" /\ slash ∉ gostr "lastFileDeleted") as (S1 & S2 & S3 & S4)
    by (split_and!; apply (bool_decide_unpack _); vm_compute; exact I).
  set (tt2 := <[_ := _]> _).
  assert (typed_Time fails UnmarshalBinary ns (gostr "lastFileAt") tt2 = (tt2, Ret (Some (truncate now1)))) as ->.
  { eapply typed_get_value; [|by rewrite time_roundtrip]. unfold tt2. rewrite !lookup_insert_ne by (by apply Hne). apply lookup_insert_eq. }
  assert (typed_String fails ns (gostr "lastFileName") tt2 = (tt2, Ret (Some file))) as ->.
  { eapply typed_get_value; [|done]. unfold tt2. rewrite !lookup_insert_ne by (by apply Hne). apply lookup_insert_eq. }
  assert (typed_Bool fails ns (gostr "lastFileDeleted") tt2 = (tt2, Ret (Some deleted))) as ->.
  { apply (typed_get_value _ _ _ _ [z2b (if deleted then 0 else 1)]); [|by destruct deleted]. unfold tt2.
    rewrite !lookup_insert_ne by (by apply Hne). apply lookup_insert_eq. }
  assert (typed_Time fails UnmarshalBinary ns (gostr "lastScan") tt2 = (tt2, Ret (Some (truncate now2)))) as E.
  { eapply typed_get_value; [|by rewrite time_roundtrip]. apply lookup_insert_eq. }
  cbn [mret sm_ret default]. by rewrite E.
Qed.

(** A value of another type can make reading panic. *)
Lemma typed_mixed_panics p k t : snd (Int64 fails p k (<[prefixedKey p k := [z2b 0]]> t)) = Panic /\
  snd (typed_Bool fails p k (<[prefixedKey p k := []]> t)) = Panic.
Proof. unfold Int64, typed_Bool, typed_get, GetKV. rewrite !reads, !lookup_insert_eq. done. Qed.
End Typed.

(** ** An example *)

Definition ex_wire : Type := Z * bytes * bool * bool.
Fixpoint pos_bytes (p : positive) : bytes := match p with xH => [] | xO p => z2b 0 :: pos_bytes p | xI p => z2b 1 :: pos_bytes p end.
Fixpoint bytes_pos (bs : bytes) : positive :=
  match bs with [] => xH | b :: bs => if bool_decide (b = z2b 0) then xO (bytes_pos bs) else xI (bytes_pos bs) end.
Lemma bytes_pos_bytes p : bytes_pos (pos_bytes p) = p.
Proof. induction p; cbn; by rewrite ?IHp. Qed.
Definition ex_build (t : Z) (l : bytes) (r e : bool) : ex_wire := (t, l, r, e).
Definition ex_marshal (w : ex_wire) : option bytes := Some (pos_bytes (encode w)).
Definition ex_unmarshal (bs : bytes) : option ex_wire := decode (bytes_pos bs).
Definition ex_scan (t : gmap bytes bytes) : list (bytes * bytes) := map_to_list t.
Definition ex_device_id : bytes := repeat (z2b 7) 32.
Definition ex_add := AddOrUpdatePendingFolder (fun _ => false) (fun t => t) ex_build ex_marshal.
Definition ex_list := PendingFoldersForDevice (fun _ => false) ex_scan (fun _ => None) (fun t : Z => t) (fun w : ex_wire => w.1.1.1) (fun w => w.1.1.2)
  (fun w => w.1.2) (fun w => w.2) ex_unmarshal (map upper) EmptyDeviceID.
Definition ex_observed : ObservedFolder := {| Time := 5; Label := gostr "l"; ReceiveEncrypted := false; RemoteEncrypted := true |}.
Lemma ex_upper : upper_law (map upper).
Proof. done. Qed.
Lemma ex_empty : holds (fun t : Z => t) (fun w : ex_wire => w.1.1.1) (fun w => w.1.1.2) (fun w => w.1.2) (fun w => w.2) ex_unmarshal ∅ ∅.
Proof. split; intros *; rewrite lookup_empty; done. Qed.
Lemma pending_refines_witness : exists t' r, ex_add (gostr "docs") ex_observed ex_device_id ∅ = (t', r) /\ r = Ret tt /\
  holds (fun t : Z => t) (fun w : ex_wire => w.1.1.1) (fun w => w.1.1.2) (fun w => w.1.2) (fun w => w.2) ex_unmarshal t'
    {[(gostr "docs", ex_device_id) := ex_observed]}.
Proof.
  destruct (proj1 (pending_refines (fun _ => false) ex_scan (fun _ => None) (fun t => t) (fun t : Z => t) ex_build (fun w : ex_wire => w.1.1.1) (fun w => w.1.1.2)
    (fun w => w.1.2) (fun w => w.2) ex_marshal ex_unmarshal (map upper) ex_upper (fun t => Permutation_refl _)
    ltac:(intros t l r e; cbn; do 4 (split; [reflexivity|]); eexists; split; [reflexivity|]; unfold ex_unmarshal; rewrite bytes_pos_bytes; apply decode_encode)
    (fun _ => eq_refl) ∅ ∅ ex_empty) (gostr "docs") ex_observed ex_device_id) as (t' & r & E & Hr);
    [split; [discriminate|apply (bool_decide_unpack _); vm_compute; exact I]|reflexivity|].
  exists t', r. assert (snd (ex_add (gostr "docs") ex_observed ex_device_id ∅) = Ret tt) as Hs by (vm_compute; reflexivity).
  unfold ex_add in Hs |- *. rewrite E in Hs. cbn [snd] in Hs. split; [exact E|]. split; [exact Hs|].
  destruct Hr as [ [_ Hh]|[ [e He] _] ]; [exact Hh|]. rewrite Hs in He. discriminate He.
Defined.

(** A pending folder whose name has a slash is stored, but never listed, and so
    never removed. *)
Definition ex_slashed : gmap bytes bytes := (ex_add (gostr "a/b") ex_observed ex_device_id ∅).1.
Lemma slash_pending_lost :
  length (map_to_list ex_slashed) = 1%nat /\
  match ex_list ex_slashed with (_, Ret (res, err)) => length (map_to_list res) | _ => 1%nat end = 0%nat /\
  match RemovePendingFolder (fun _ => false) ex_scan (fun _ => None) (gostr "a/b") ex_slashed with
    | (t, Ret _) => length (map_to_list t) | _ => 0%nat end = 1%nat.
Proof. split; [vm_compute; reflexivity|]. split; vm_compute; reflexivity. Qed.
