(* ===== verification/ModelCluster.v ===== *)
(** * Handling a cluster configuration (lib/model/model.go)

    [ClusterConfig] of the model: the handler of the indexes, the folders of the
    message against our own, folders that are pending, the states of the peer's
    folders, and introductions.  The store of pending folders is an interface,
    which [Observed] implements. *)
From Stdlib Require Import ZArith List Lia.
From Stdlib Require Import Strings.Byte.
From stdpp Require Import base list option gmap numbers tactics.
From S2P Require Import Prelude GoLib Disk Connection EncryptedNames Encryption FolderScan Config ConfigWrapper ClusterConfigs ModelState.
From S2P Require DeviceID Observed.

#[local] Open Scope Z_scope.

(** ** The store of pending folders *)

Abbreviation PendingFolder := Observed.ObservedFolder.
Class PendingStore (O : Type) :=
  { ps_AddOrUpdate : bytes -> PendingFolder -> bytes -> SM O Observed.kv_err unit;
    ps_RemoveForDevice : bytes -> bytes -> SM O Observed.kv_err unit;
    ps_Remove : bytes -> SM O Observed.kv_err unit;
    (* the folders and devices, and whether reading failed *)
    ps_ForDevice : bytes -> SM O Observed.kv_err (gmap bytes (gmap bytes PendingFolder) * bool);
    ps_Devices : SM O Observed.kv_err (gmap bytes Observed.ObservedDevice * bool);
    ps_RemoveDevice : bytes -> SM O Observed.kv_err unit }.

Section Implementation.
Context (fails : Observed.kv_call -> bool) (scan : gmap bytes bytes -> list (bytes * bytes)) (interrupted : bytes -> option nat).
Context {TS wireFolder wireDevice : Type} (timestamp : Z -> TS) (AsTime : TS -> Z).
Context (buildFolder : TS -> bytes -> bool -> bool -> wireFolder) (GetTime : wireFolder -> TS) (GetLabel : wireFolder -> bytes)
  (GetReceiveEncrypted GetRemoteEncrypted : wireFolder -> bool) (MarshalFolder : wireFolder -> option bytes)
  (UnmarshalFolder : bytes -> option wireFolder) (ToUpper : bytes -> bytes).
Context (device_GetTime : wireDevice -> TS) (GetName GetAddress : wireDevice -> bytes) (UnmarshalDevice : bytes -> option wireDevice).
#[local] Instance Observed_store : PendingStore (gmap bytes bytes) :=
  { ps_AddOrUpdate := Observed.AddOrUpdatePendingFolder fails timestamp buildFolder MarshalFolder;
    ps_RemoveForDevice := Observed.RemovePendingFolderForDevice fails;
    ps_Remove := Observed.RemovePendingFolder fails scan interrupted;
    ps_ForDevice := Observed.PendingFoldersForDevice fails scan interrupted AsTime GetTime GetLabel GetReceiveEncrypted GetRemoteEncrypted
      UnmarshalFolder ToUpper;
    ps_Devices := Observed.PendingDevices fails scan interrupted AsTime device_GetTime GetName GetAddress UnmarshalDevice ToUpper;
    ps_RemoveDevice := Observed.RemovePendingDevice fails }.
End Implementation.

Section Cluster.
Context {R : Type} `{HandlerRegistry R} {O : Type} `{PendingStore O}.
Context `{Crypto} {CF CK : Type} `{Cache CF (bytes * bytes) bytes} `{Cache CK (bytes * bytes) bytes}.
Context (readFails writeFails : bytes -> bool).

(** ** Folders *)

Record ccRun :=
  { run_reg : R; run_cc : @ccState CF CK; run_observed : O; folderEncryptionFailures : gmap bytes (gmap bytes cc_err) }.
Abbreviation Run := (SM ccRun cc_err).
Definition on_reg (f : R -> R) : Run unit := smodify (fun s =>
  {| run_reg := f (run_reg s); run_cc := run_cc s; run_observed := run_observed s; folderEncryptionFailures := folderEncryptionFailures s |}).
Definition set_failures (f : gmap bytes (gmap bytes cc_err) -> gmap bytes (gmap bytes cc_err)) : Run unit := smodify (fun s =>
  {| run_reg := run_reg s; run_cc := run_cc s; run_observed := run_observed s; folderEncryptionFailures := f (folderEncryptionFailures s) |}).
(** The failure of a call of the store is only logged: it says whether there was one. *)
Definition on_store {A} (m : SM O Observed.kv_err A) : Run (option A) := fun s =>
  let set o := {| run_reg := run_reg s; run_cc := run_cc s; run_observed := o; folderEncryptionFailures := folderEncryptionFailures s |} in
  match m (run_observed s) with
  | (o, Ret a) => (set o, Ret (Some a))
  | (o, Err _) => (set o, Ret None)
  | (o, Panic) => (set o, Panic)
  | (o, OutOfFuel) => (set o, OutOfFuel)
  end.
(** The check of the encryption, and what is kept of a failure. *)
Definition on_check (m : SM (@ccState CF CK) cc_err unit) : Run (option cc_err) := fun s =>
  let set c := {| run_reg := run_reg s; run_cc := c; run_observed := run_observed s; folderEncryptionFailures := folderEncryptionFailures s |} in
  match m (run_cc s) with
  | (c, Ret _) => (set c, Ret None)
  | (c, Err e) => (set c, Ret (Some e))
  | (c, Panic) => (set c, Panic)
  | (c, OutOfFuel) => (set c, OutOfFuel)
  end.
Definition check_failed (folder device : bytes) (e : cc_err) (fs : gmap bytes (gmap bytes cc_err)) : gmap bytes (gmap bytes cc_err) :=
  <[folder := <[device := e]> (default ∅ (fs !! folder))]> fs.
Definition check_succeeded (folder device : bytes) (fs : gmap bytes (gmap bytes cc_err)) : gmap bytes (gmap bytes cc_err) :=
  match fs !! folder with
  | None => fs
  | Some devErrs => if (size devErrs =? 1)%nat then delete folder fs else <[folder := delete device devErrs]> fs
  end.

Definition FolderType_receiveEncrypted : Z := 3.
(** A missing entry is a nil pointer. *)
Definition info_of (infos : gmap bytes clusterConfigDeviceInfo) (folder : bytes) : Run clusterConfigDeviceInfo :=
  match infos !! folder with Some i => mret i | None => spanic end.

Section Handle.
Context (now : Z) (cfg : Configuration) (deviceCfg : DeviceConfiguration) (infos : gmap bytes clusterConfigDeviceInfo).
Let deviceID : bytes := dc_DeviceID deviceCfg.

Record ccAcc :=
  { tempIndexFolders : list bytes; seenFolders : gmap bytes remoteFolderState;
    expiredPending : gmap bytes (gmap bytes PendingFolder) }.
Definition has_passwordToken (d : Device) : bool := negb (is_nil (EncryptionPasswordToken d)).
Definition unexpected_folder (folder : Folder) (acc : ccAcc) : Run ccAcc :=
  _ ← on_reg (reg_Remove (FID folder));
  if IgnoredFolder (FID folder) deviceCfg then mret acc
  else
    let acc := {| tempIndexFolders := tempIndexFolders acc; seenFolders := seenFolders acc; expiredPending := delete (FID folder) (expiredPending acc) |} in
    info ← info_of infos (FID folder);
    _ ← on_store (ps_AddOrUpdate (FID folder)
      {| Observed.Time := Observed.truncate now; Observed.Label := Label folder; Observed.ReceiveEncrypted := has_passwordToken (local info);
         Observed.RemoteEncrypted := has_passwordToken (remote info) |} deviceID);
    _ ← (if IsRunning folder then on_reg (reg_AddIndexInfo (FID folder) info) else mret tt);
    mret acc.
Definition shared_folder_announced (fcfg : FolderConfiguration) (folderDevice : FolderDeviceConfiguration) (folder : Folder) (acc : ccAcc) : Run ccAcc :=
  if negb (IsRunning folder) then
    _ ← on_reg (reg_Remove (FID folder));
    mret {| tempIndexFolders := tempIndexFolders acc; seenFolders := <[fc_ID fcfg := remoteFolderPaused]> (seenFolders acc);
            expiredPending := expiredPending acc |}
  else
    info ← info_of infos (FID folder);
    if fc_Paused fcfg then _ ← on_reg (reg_AddIndexInfo (FID folder) info); mret acc
    else
      failure ← on_check (ccCheckEncryption readFails writeFails fcfg folderDevice info (dc_Untrusted deviceCfg));
      match failure with
      | Some e => _ ← set_failures (check_failed (FID folder) deviceID e); sfail e
      | None =>
          _ ← set_failures (check_succeeded (FID folder) deviceID);
          _ ← on_reg (reg_AddIndexInfo (FID folder) info);
          mret {| tempIndexFolders := if FType folder =? FolderType_receiveEncrypted then tempIndexFolders acc else tempIndexFolders acc ++ [FID folder];
                  seenFolders := seenFolders acc; expiredPending := expiredPending acc |}
      end.
Definition find_shared (folder : bytes) : option (FolderConfiguration * FolderDeviceConfiguration) :=
  fcfg ← Configuration_Folder folder cfg; d ← FolderConfiguration_Device deviceID fcfg; Some (fcfg, d).
Definition handle_folder (folder : Folder) (acc : ccAcc) : Run ccAcc :=
  let acc := {| tempIndexFolders := tempIndexFolders acc; seenFolders := <[FID folder := remoteFolderValid]> (seenFolders acc);
                expiredPending := expiredPending acc |} in
  match find_shared (FID folder) with
  | None => unexpected_folder folder acc
  | Some (fcfg, d) => shared_folder_announced fcfg d folder acc
  end.
Fixpoint handle_folders (folders : list Folder) (acc : ccAcc) : Run ccAcc :=
  match folders with
  | [] => mret acc
  | folder :: folders => acc ← handle_folder folder acc; handle_folders folders acc
  end.
(** Folders that we offer but the device did not announce. *)
Definition not_sharing (seen : gmap bytes remoteFolderState) : gmap bytes remoteFolderState :=
  map_imap (fun folder fcfg => match seen !! folder with
    | Some st => Some st
    | None => if SharedWith deviceID fcfg then Some remoteFolderNotSharing else None
    end) (FolderMap cfg) ∪ seen.
Fixpoint remove_expired (folders : list bytes) : Run unit :=
  match folders with
  | [] => mret tt
  | folder :: folders => _ ← on_store (ps_RemoveForDevice folder deviceID); remove_expired folders
  end.
Definition ccHandleFolders (folders : list Folder) : Run (list bytes * gmap bytes remoteFolderState) :=
  pending ← on_store (ps_ForDevice deviceID);
  acc ← handle_folders folders {| tempIndexFolders := []; seenFolders := ∅; expiredPending := match pending with Some p => p.1 | None => ∅ end |};
  _ ← on_reg (reg_RemoveAllExcept (dom (seenFolders acc)));
  _ ← remove_expired (map fst (map_to_list (expiredPending acc)));
  mret (tempIndexFolders acc, not_sharing (seenFolders acc)).
End Handle.

(** ** The message *)

Record running :=
  { rn_model : @model R; rn_cc : @ccState CF CK; rn_observed : O; rn_failures : gmap bytes (gmap bytes cc_err); rn_cfg : Configuration }.
(** The file system's part of accepting a folder; the changes that the queue or
    another part of the program refuses. *)
Context (SanitizePath : bytes -> bytes) (Join : bytes -> bytes -> bytes) (setIgnores : FolderConfiguration -> prog unit)
  (run : prog (option FolderConfiguration) -> option FolderConfiguration) (defaultFolderCfg : FolderConfiguration).
Context (myName myID : bytes) (refused : Configuration -> Configuration -> bool).
Context (DefaultDevice : DeviceConfiguration) (iter : forall A, gmap bytes A -> list (bytes * A)) (url_scheme : bytes -> option bytes).

Definition set_rn_model (m : @model R) (s : running) : running :=
  {| rn_model := m; rn_cc := rn_cc s; rn_observed := rn_observed s; rn_failures := rn_failures s; rn_cfg := rn_cfg s |}.
Definition set_rn_cfg (cfg : Configuration) (s : running) : running :=
  {| rn_model := rn_model s; rn_cc := rn_cc s; rn_observed := rn_observed s; rn_failures := rn_failures s; rn_cfg := cfg |}.
(** The handlers of the connection are those that [ensureIndexHandler] gave. *)
Definition handle_with (c : conn) (m : SM ccRun cc_err (list bytes * gmap bytes remoteFolderState)) :
  SM running cc_err (list bytes * gmap bytes remoteFolderState) := fun s =>
  match sm_Get (DeviceID c) (indexHandlers (rn_model s)) with
  | None => (s, Panic)
  | Some (c', reg) =>
      let '(r, res) := m {| run_reg := reg; run_cc := rn_cc s; run_observed := rn_observed s; folderEncryptionFailures := rn_failures s |} in
      let hs := indexHandlers (rn_model s) in
      ({| rn_model := set_handlers {| services := <[DeviceID c := (c', run_reg r)]> (services hs); tokens := tokens hs |}
            (subscribed (rn_model s)) (rn_model s);
          rn_cc := run_cc r; rn_observed := run_observed r; rn_failures := folderEncryptionFailures r; rn_cfg := rn_cfg s |}, res)
  end.
(** The folders that are accepted: new ones, and those that are now shared with
    the device as well. *)
Fixpoint changed_folders (deviceID : bytes) (infos : gmap bytes clusterConfigDeviceInfo) (haveFcfg : gmap bytes FolderConfiguration)
    (folders : list Folder) (changedFcfg : gmap bytes FolderConfiguration) : outcome cc_err (gmap bytes FolderConfiguration) :=
  match folders with
  | [] => Ret changedFcfg
  | folder :: folders =>
      match infos !! FID folder with
      | None => Panic
      | Some info =>
          let changedFcfg :=
            match run (handleAutoAccepts SanitizePath Join setIgnores defaultFolderCfg deviceID folder info (haveFcfg !! FID folder)) with
            | Some to => <[FID folder := to]> changedFcfg
            | None => changedFcfg
            end in
          changed_folders deviceID infos haveFcfg folders changedFcfg
      end
  end.
Fixpoint replace_folders (fs : list FolderConfiguration) (changedFcfg : gmap bytes FolderConfiguration) :
    list FolderConfiguration * gmap bytes FolderConfiguration :=
  match fs with
  | [] => ([], changedFcfg)
  | f :: fs =>
      match changedFcfg !! fc_ID f with
      | Some fcfg => let '(fs, rest) := replace_folders fs (delete (fc_ID f) changedFcfg) in (fcfg :: fs, rest)
      | None => let '(fs, rest) := replace_folders fs changedFcfg in (f :: fs, rest)
      end
  end.
Definition accept_folders (deviceID : bytes) (infos : gmap bytes clusterConfigDeviceInfo) (cm : ClusterConfig) (cfg : Configuration) :
    outcome cc_err Configuration :=
  changedFcfg ← changed_folders deviceID infos (FolderMap cfg) (Folders cm) ∅;
  let '(fs, rest) := replace_folders (cf_Folders cfg) changedFcfg in
  Ret {| cf_Folders := fs ++ map snd (iter _ rest); cf_Devices := cf_Devices cfg |}.
(** [Modify]: what the configuration is then. *)
Definition modify (to : Configuration) : SM running cc_err unit :=
  smodify (fun s => set_rn_cfg (changed iter url_scheme myName myID refused (rn_cfg s) to) s).
Definition ClusterConfig_ (now : Z) (folderCfgs : list FolderConfiguration) (c : conn) (cm : ClusterConfig) : SM running cc_err unit :=
  if Secondary cm then mret tt
  else
    _ ← smodify (fun s => set_rn_model (ensureIndexHandler folderCfgs c (rn_model s)) s);
    s ← sget;
    match Configuration_Device (DeviceID c) (rn_cfg s) with
    | None => sfail errDeviceUnknown
    | Some deviceCfg =>
        infos ← slift (device_infos myID (DeviceID c) (Folders cm) ∅);
        _ ← (if dc_AutoAcceptFolders deviceCfg then to ← slift (accept_folders (DeviceID c) infos cm (rn_cfg s)); modify to else mret tt);
        s ← sget;
        r ← handle_with c (ccHandleFolders now (rn_cfg s) deviceCfg infos (Folders cm));
        _ ← smodify (fun s => set_rn_model (set_remote_states (DeviceID c) r.2 (rn_model s)) s);
        _ ← (if is_nil r.1 then mret tt else smodify (fun s => set_rn_model (subscribe_temporary (DeviceID c) r.1 (rn_model s)) s));
        if dc_Introducer deviceCfg then
          s ← sget; modify (apply_introductions myID DefaultDevice deviceCfg iter cm (rn_cfg s))
        else mret tt
    end.
End Cluster.
