(* ===== verification/ModelClusterProps.v ===== *)
(** * Handling a cluster configuration: theorems

    What is kept of a message: the states of the peer's folders, the folders
    that are pending, the failures of encryption, and the subscription to
    temporary indexes. *)
From Stdlib Require Import ZArith List Lia.
From Stdlib Require Import Strings.Byte.
From stdpp Require Import base list option gmap numbers tactics.
From S2P Require Import Prelude GoLib Disk Connection EncryptedNames Encryption EncryptionProps FolderScan Config ConfigWrapper ClusterConfigs ClusterConfigsProps.
From S2P Require Import ModelState ModelStateProps ModelCluster.
From S2P Require DeviceID Observed ObservedProps ConfigProps IntroducerProps IndexHandler.

#[local] Open Scope Z_scope.

(** ** The store of pending folders *)

Abbreviation pending_map := (gmap (bytes * bytes) PendingFolder).
Abbreviation lk := ObservedProps.lk.
(** A call comes to an end, with a result or an error. *)
Abbreviation ends := ObservedProps.ends.
(** A store holds a map from folders and devices, if the names of the folders
    are good; whatever it holds, its calls come to an end. *)
Class PendingStoreLaws (O : Type) `{PendingStore O} :=
  { law_add_ends : forall id f dev o, length dev = 32%nat -> ends (ps_AddOrUpdate id f dev o).2;
    law_remove_ends : forall id dev o, length dev = 32%nat -> ends (ps_RemoveForDevice id dev o).2;
    law_list_ends : forall dev o, length dev = 32%nat -> ends (ps_ForDevice dev o).2;
    ps_holds : O -> pending_map -> Prop;
    law_good : forall o A f d, ps_holds o A -> is_Some (A !! (f, d)) -> ObservedProps.good_id f;
    law_add : forall o A id f dev, ps_holds o A -> ObservedProps.good_id id -> length dev = 32%nat ->
      exists o' r, ps_AddOrUpdate id f dev o = (o', r) /\ (r = Ret tt /\ ps_holds o' (<[(id, dev) := f]> A) \/ (exists e, r = Err e) /\ ps_holds o' A);
    law_remove : forall o A id dev, ps_holds o A -> ObservedProps.good_id id -> length dev = 32%nat ->
      exists o' r, ps_RemoveForDevice id dev o = (o', r) /\ (r = Ret tt /\ ps_holds o' (delete (id, dev) A) \/ (exists e, r = Err e) /\ ps_holds o' A);
    law_list : forall o A dev, ps_holds o A -> length dev = 32%nat -> dev <> DeviceID.EmptyDeviceID ->
      exists res err, ps_ForDevice dev o = (o, Ret (res, err)) /\ (forall f, is_Some (res !! f) -> ObservedProps.good_id f) /\
        (err = false -> forall f, is_Some (res !! f) <-> is_Some (A !! (f, dev))) }.

Section Implementation.
Context (fails : Observed.kv_call -> bool) (scan : gmap bytes bytes -> list (bytes * bytes)) (interrupted : bytes -> option nat).
Context {TS wireFolder wireDevice : Type} (timestamp : Z -> TS) (AsTime : TS -> Z).
Context (buildFolder : TS -> bytes -> bool -> bool -> wireFolder) (GetTime : wireFolder -> TS) (GetLabel : wireFolder -> bytes)
  (GetReceiveEncrypted GetRemoteEncrypted : wireFolder -> bool) (MarshalFolder : wireFolder -> option bytes)
  (UnmarshalFolder : bytes -> option wireFolder) (ToUpper : bytes -> bytes) (HU : DeviceID.upper_law ToUpper).
Context (device_GetTime : wireDevice -> TS) (GetName GetAddress : wireDevice -> bytes) (UnmarshalDevice : bytes -> option wireDevice).
Hypothesis scan_rows : forall t, scan t ≡ₚ map_to_list t.
Hypothesis folder_roundtrip : forall t l r e, let w := buildFolder t l r e in
  GetTime w = t /\ GetLabel w = l /\ GetReceiveEncrypted w = r /\ GetRemoteEncrypted w = e /\
  exists bs, MarshalFolder w = Some bs /\ UnmarshalFolder bs = Some w.
Hypothesis AsTime_timestamp : forall t, AsTime (timestamp t) = t.
#[local] Existing Instance Observed_store.
Let holds := ObservedProps.holds AsTime GetTime GetLabel GetReceiveEncrypted GetRemoteEncrypted UnmarshalFolder.

Lemma store_add o A id f dev : holds o A -> ObservedProps.good_id id -> length dev = 32%nat ->
  exists o' r, Observed.AddOrUpdatePendingFolder fails timestamp buildFolder MarshalFolder id f dev o = (o', r) /\
    (r = Ret tt /\ holds o' (<[(id, dev) := f]> A) \/ (exists e, r = Err e) /\ holds o' A).
Proof.
  intros Hh Hid Hdev. destruct (ObservedProps.add_spec fails timestamp AsTime buildFolder GetTime GetLabel GetReceiveEncrypted GetRemoteEncrypted
    MarshalFolder UnmarshalFolder ToUpper HU folder_roundtrip AsTime_timestamp o A id f dev Hh Hid Hdev) as (o' & r & E & Hr). exists o', r. split; [exact E|]. destruct Hr as [?|[? ->] ]; auto.
Qed.
Lemma store_remove o A id dev : holds o A -> ObservedProps.good_id id -> length dev = 32%nat ->
  exists o' r, Observed.RemovePendingFolderForDevice fails id dev o = (o', r) /\
    (r = Ret tt /\ holds o' (delete (id, dev) A) \/ (exists e, r = Err e) /\ holds o' A).
Proof.
  intros Hh Hid Hdev. destruct (ObservedProps.remove_for_spec fails AsTime GetTime GetLabel GetReceiveEncrypted GetRemoteEncrypted
    UnmarshalFolder ToUpper HU o A id dev Hh Hid Hdev) as (o' & r & E & Hr).
  exists o', r. split; [exact E|]. destruct Hr as [?|[? ->] ]; auto.
Qed.
Lemma store_good o A f d : holds o A -> is_Some (A !! (f, d)) -> ObservedProps.good_id f.
Proof. intros Hh [x Hx]. by destruct (proj2 Hh f d x Hx). Qed.
Lemma store_list o A dev : holds o A -> length dev = 32%nat -> dev <> DeviceID.EmptyDeviceID ->
  exists res err, Observed.PendingFoldersForDevice fails scan interrupted AsTime GetTime GetLabel GetReceiveEncrypted GetRemoteEncrypted
      UnmarshalFolder ToUpper dev o = (o, Ret (res, err)) /\ (forall f, is_Some (res !! f) -> ObservedProps.good_id f) /\
    (err = false -> forall f, is_Some (res !! f) <-> is_Some (A !! (f, dev))).
Proof.
  intros Hh Hdev Hne.
  destruct (ObservedProps.list_for_spec fails scan interrupted AsTime GetTime GetLabel GetReceiveEncrypted GetRemoteEncrypted UnmarshalFolder
    ToUpper HU scan_rows o A dev Hh Hdev) as (res & err & E & Hfill & Hl). exists res, err. split; [exact E|].
  split; [intros f Hf; by apply Hfill|]. intros -> f. split.
  - intros Hf. destruct (Hfill f Hf) as (Hg & d & Hd & [o' Ho']). destruct (proj1 (Hl f d o' Hg Hd) Ho') as [HA [Hx| ->] ]; [done|by eexists].
  - intros [x HA]. destruct (proj2 Hh f dev x HA) as (Hg & Hd & _).
    pose proof (proj2 (Hl f dev x Hg Hd) eq_refl HA (or_intror eq_refl)) as Hx. unfold ObservedProps.lk in Hx.
    destruct (res !! f) eqn:E'; [by eexists|]. cbn in Hx. by rewrite lookup_empty in Hx.
Qed.
Lemma store_add_ends id f dev o : length dev = 32%nat ->
  ends (Observed.AddOrUpdatePendingFolder fails timestamp buildFolder MarshalFolder id f dev o).2.
Proof.
  apply (ObservedProps.add_ends fails timestamp buildFolder GetTime GetLabel GetReceiveEncrypted GetRemoteEncrypted
    MarshalFolder UnmarshalFolder ToUpper HU folder_roundtrip).
Qed.
#[local] Instance Observed_laws : PendingStoreLaws (gmap bytes bytes) (H := Observed_store fails scan interrupted timestamp AsTime buildFolder GetTime
    GetLabel GetReceiveEncrypted GetRemoteEncrypted MarshalFolder UnmarshalFolder ToUpper device_GetTime GetName GetAddress UnmarshalDevice) :=
  { law_add_ends := store_add_ends;
    law_remove_ends := fun id dev o => ObservedProps.remove_for_ends fails ToUpper HU o id dev;
    law_list_ends := fun dev o => ObservedProps.list_for_ends fails scan interrupted AsTime GetTime GetLabel GetReceiveEncrypted
      GetRemoteEncrypted UnmarshalFolder ToUpper HU scan_rows o dev;
    ps_holds := holds; law_good := store_good; law_add := store_add; law_remove := store_remove; law_list := store_list }.
End Implementation.

(** ** What a message comes to *)

Section Handled.
Context {R : Type} `{HandlerRegistry R} {O : Type} `{PendingStoreLaws O}.
Context `{CryptoLaws} {CF CK : Type} `{CacheLaws CF (bytes * bytes) bytes} `{CacheLaws CK (bytes * bytes) bytes}.
Context (readFails writeFails : bytes -> bool).
Abbreviation ccRun := (@ccRun R O CF CK).

(** No call of the store fails. *)
Record reliable : Prop := {
  rel_add : forall id f d o e, (ps_AddOrUpdate id f d o).2 <> Err e;
  rel_remove : forall id d o e, (ps_RemoveForDevice id d o).2 <> Err e;
  rel_list : forall d o o' res err, ps_ForDevice d o = (o', Ret (res, err)) -> err = false }.

Section Message.
Context (now : Z) (cfg : Configuration) (deviceCfg : DeviceConfiguration) (infos : gmap bytes clusterConfigDeviceInfo).
Abbreviation dev := (dc_DeviceID deviceCfg).
Abbreviation handle := (handle_folder readFails writeFails now cfg deviceCfg infos).
Abbreviation handle_all := (handle_folders readFails writeFails now cfg deviceCfg infos).
Abbreviation shared F := (find_shared cfg deviceCfg (FID F)).

(** What a folder of the message should come to: its state, whether it is pending
    and as what, whether it is in use on both sides, and whether its temporary
    indexes are sent. *)
Definition state_of (F : Folder) : remoteFolderState :=
  match shared F with Some _ => if IsRunning F then remoteFolderValid else remoteFolderPaused | None => remoteFolderValid end.
Definition pending_of (F : Folder) : option PendingFolder :=
  match shared F, infos !! FID F with
  | None, Some info =>
      if IgnoredFolder (FID F) deviceCfg then None
      else Some {| Observed.Time := Observed.truncate now; Observed.Label := Label F; Observed.ReceiveEncrypted := has_passwordToken (local info);
                   Observed.RemoteEncrypted := has_passwordToken (remote info) |}
  | _, _ => None
  end.
Definition active (F : Folder) : bool :=
  match shared F with Some (f, _) => IsRunning F && negb (fc_Paused f) | None => false end.
Definition subscribes (F : Folder) : bool := active F && negb (FType F =? FolderType_receiveEncrypted).
(** The folder that the message announces under a name: the last one. *)
Fixpoint announced (folders : list Folder) (f : bytes) : option Folder :=
  match folders with
  | [] => None
  | F :: folders => match announced folders f with Some G => Some G | None => if bool_decide (FID F = f) then Some F else None end
  end.

Lemma find_shared_id f fcfg d : find_shared cfg deviceCfg f = Some (fcfg, d) -> fc_ID fcfg = f.
Proof.
  unfold find_shared. destruct (Configuration_Folder f cfg) as [g|] eqn:E; [|done]. cbn. destruct (FolderConfiguration_Device _ _); [|done].
  intros [= -> _]. unfold Configuration_Folder in E. apply find_some in E as [_ E]. by apply bool_decide_eq_true in E.
Qed.
Definition failure_of (fs : gmap bytes (gmap bytes cc_err)) (f d : bytes) : option cc_err := devErrs ← fs !! f; devErrs !! d.
Lemma check_succeeded_spec folder device fs f : failure_of (check_succeeded folder device fs) folder device = None /\
  (failure_of fs f device = None -> failure_of (check_succeeded folder device fs) f device = None).
Proof.
  unfold failure_of, check_succeeded. destruct (fs !! folder) as [devErrs|] eqn:E; [|rewrite E; done].
  destruct (size devErrs =? 1)%nat.
  - rewrite lookup_delete_eq. split; [done|]. intros Hf. destruct (decide (f = folder)) as [->|?]; [by rewrite lookup_delete_eq|].
    by rewrite lookup_delete_ne.
  - rewrite lookup_insert_eq. cbn. rewrite lookup_delete_eq. split; [done|]. intros Hf.
    destruct (decide (f = folder)) as [->|?]; [rewrite lookup_insert_eq; cbn; by rewrite lookup_delete_eq|by rewrite lookup_insert_ne].
Qed.

(** The calls of the store, whatever they come to. *)
Definition set_observed (o : O) (s : ccRun) : ccRun :=
  {| run_reg := run_reg s; run_cc := run_cc s; run_observed := o; folderEncryptionFailures := folderEncryptionFailures s |}.
Lemma on_store_ends {A} (m : SM O Observed.kv_err A) (s : ccRun) : ends (m (run_observed s)).2 ->
  exists o r, on_store (R:=R) (CF:=CF) (CK:=CK) m s = (set_observed o s, Ret r) /\ o = (m (run_observed s)).1.
Proof.
  unfold on_store. destruct (m (run_observed s)) as [o r]. cbn. intros [ [a ->]|[e ->] ]; by eexists _, _.
Qed.

(** What a folder does to the state, and to a map that the store holds. *)
Definition step_kept (F : Folder) (acc acc' : ccAcc) (s s' : ccRun) : Prop :=
  cc_ok (run_cc s') /\
  seenFolders acc' = <[FID F := state_of F]> (seenFolders acc) /\
  tempIndexFolders acc' = tempIndexFolders acc ++ (if subscribes F then [FID F] else []) /\
  (active F = true -> failure_of (folderEncryptionFailures s') (FID F) dev = None) /\
  (forall f, failure_of (folderEncryptionFailures s) f dev = None -> failure_of (folderEncryptionFailures s') f dev = None).
Definition step_pending (F : Folder) (acc acc' : ccAcc) (s' : ccRun) (A A' : pending_map) : Prop :=
  ps_holds (run_observed s') A' /\
  expiredPending acc' = (match pending_of F with Some _ => delete (FID F) (expiredPending acc) | None => expiredPending acc end) /\
  A' = (match pending_of F with Some o => <[(FID F, dev) := o]> A | None => A end).
Definition step_done (F : Folder) (acc acc' : ccAcc) (s s' : ccRun) : Prop :=
  step_kept F acc acc' s s' /\
  (forall A, reliable -> ps_holds (run_observed s) A -> ObservedProps.good_id (FID F) -> exists A', step_pending F acc acc' s' A A').

Lemma unexpected_spec F acc (s : ccRun) : length dev = 32%nat -> cc_ok (run_cc s) -> is_Some (infos !! FID F) -> shared F = None ->
  exists s' acc', handle F acc s = (s', Ret acc') /\ step_done F acc acc' s s'.
Proof.
  intros Hd Hok [info Hi] Hs. unfold handle_folder. rewrite Hs. unfold unexpected_folder, step_done, step_kept, step_pending, pending_of, state_of, subscribes, active.
  rewrite Hs, Hi. unfold mbind, sm_bind, on_reg, smodify. destruct (IgnoredFolder _ _).
  - eexists _, _. split; [reflexivity|]. cbn. rewrite app_nil_r. split; [done|]. intros A _ HA _. by exists A.
  - unfold info_of. rewrite Hi. cbn [mret sm_ret].
    set (o := {| Observed.Time := _ |}). set (s1 := {| run_reg := _ |}).
    destruct (on_store_ends (ps_AddOrUpdate (FID F) o dev) s1) as (o' & r & -> & Eo); [by apply law_add_ends|].
    assert (forall A, reliable -> ps_holds (run_observed s) A -> ObservedProps.good_id (FID F) -> ps_holds o' (<[(FID F, dev) := o]> A)) as Hadd.
    { intros A Hrel HA Hg. destruct (law_add (run_observed s) A (FID F) o dev HA Hg Hd) as (o2 & r2 & E & Hr).
      pose proof (rel_add Hrel (FID F) o dev (run_observed s)) as Hne. cbn [s1 run_observed] in Eo. rewrite E in Hne, Eo. cbn [fst snd] in Hne, Eo. subst o2.
      destruct Hr as [ [-> HA']|[ [e ->] _] ]; [done|by destruct (Hne e)]. }
    destruct (IsRunning F); eexists _, _; (split; [reflexivity|]); cbn; rewrite app_nil_r; (split; [done|]);
      intros A Hrel HA Hg; eexists; (split; [by apply Hadd|done]).
Qed.
Lemma shared_spec F acc (s : ccRun) f d : cc_ok (run_cc s) -> is_Some (infos !! FID F) -> shared F = Some (f, d) ->
  exists s' r, handle F acc s = (s', r) /\ ((exists e, r = Err e) \/ exists acc', r = Ret acc' /\ step_done F acc acc' s s').
Proof.
  intros Hok [info Hi] Hs. unfold handle_folder. rewrite Hs. unfold shared_folder_announced, step_done, step_kept, step_pending, pending_of, state_of, subscribes, active.
  rewrite Hs. pose proof (find_shared_id _ _ _ Hs) as Ef. unfold mbind, sm_bind, on_reg, smodify. destruct (IsRunning F); cbn [negb andb].
  - unfold info_of. rewrite Hi. cbn [mret sm_ret]. destruct (fc_Paused f); cbn [negb andb].
    + eexists _, _. split; [reflexivity|]. right. eexists. split; [reflexivity|]. cbn. rewrite app_nil_r. split; [done|]. intros A _ HA _. by exists A.
    + unfold on_check. pose proof (check_no_panic readFails writeFails f d info (dc_Untrusted deviceCfg) (run_cc s) Hok) as Hp.
      pose proof (check_agreed readFails writeFails f d info (dc_Untrusted deviceCfg) (run_cc s)) as Hag.
      destruct (ccCheckEncryption _ _ _ _ _ _ _) as [c r]. cbn [snd] in Hp. destruct Hp as [ [e ->]| ->].
      * eexists _, _. split; [reflexivity|]. left. by eexists.
      * destruct (Hag c Hok eq_refl) as [_ Hok']. unfold set_failures, smodify. eexists _, _. split; [reflexivity|]. right.
        eexists. split; [reflexivity|]. cbn. split; [|intros A _ HA _; by exists A]. split; [done|]. split; [done|].
        split; [destruct (_ =? _); cbn; by rewrite ?app_nil_r|]. split; [intros _; by apply (check_succeeded_spec (FID F) dev _ [])|].
        intros g Hg. by apply check_succeeded_spec.
  - eexists _, _. split; [reflexivity|]. right. eexists. split; [reflexivity|]. cbn. rewrite app_nil_r, Ef, insert_insert_eq. split; [done|].
    intros A _ HA _. by exists A.
Qed.
Lemma handle_folder_spec F acc (s : ccRun) : length dev = 32%nat -> cc_ok (run_cc s) -> is_Some (infos !! FID F) ->
  exists s' r, handle F acc s = (s', r) /\ ((exists e, r = Err e) \/ exists acc', r = Ret acc' /\ step_done F acc acc' s s').
Proof.
  intros Hd Hok Hi. destruct (shared F) as [ [f d]|] eqn:Hs; [by apply (shared_spec F acc s f d)|].
  destruct (unexpected_spec F acc s Hd Hok Hi Hs) as (s' & acc' & E & Hst). eexists _, _. split; [exact E|]. right. by eexists.
Qed.

(** *** All folders *)

Definition pending_at (folders : list Folder) (f : bytes) : option PendingFolder := F ← announced folders f; pending_of F.
Definition loop_kept (folders : list Folder) (acc acc' : ccAcc) (s s' : ccRun) : Prop :=
  cc_ok (run_cc s') /\
  (forall f, seenFolders acc' !! f = match announced folders f with Some F => Some (state_of F) | None => seenFolders acc !! f end) /\
  tempIndexFolders acc' = tempIndexFolders acc ++ map FID (List.filter subscribes folders) /\
  (forall F, F ∈ folders -> active F = true -> failure_of (folderEncryptionFailures s') (FID F) dev = None) /\
  (forall f, failure_of (folderEncryptionFailures s) f dev = None -> failure_of (folderEncryptionFailures s') f dev = None).
Definition loop_pending (folders : list Folder) (acc acc' : ccAcc) (s' : ccRun) (A A' : pending_map) : Prop :=
  ps_holds (run_observed s') A' /\
  (forall f, expiredPending acc' !! f = match pending_at folders f with Some _ => None | None => expiredPending acc !! f end) /\
  (forall f d, A' !! (f, d) = match (if bool_decide (d = dev) then pending_at folders f else None) with Some o => Some o | None => A !! (f, d) end).
(** Names that are good, each announced once. *)
Definition good_names (folders : list Folder) : Prop := Forall ObservedProps.good_id (map FID folders) /\ NoDup (map FID folders).
Definition loop_done (folders : list Folder) (acc acc' : ccAcc) (s s' : ccRun) : Prop :=
  loop_kept folders acc acc' s s' /\
  (forall A, reliable -> ps_holds (run_observed s) A -> good_names folders -> exists A', loop_pending folders acc acc' s' A A').

Lemma announced_None folders f : f ∉ map FID folders -> announced folders f = None.
Proof.
  induction folders as [|F folders IH]; [done|]. cbn. intros [Hne Hf]%not_elem_of_cons. rewrite IH by done. by rewrite bool_decide_eq_false_2.
Qed.
Lemma pending_at_cons F folders f : FID F ∉ map FID folders ->
  pending_at (F :: folders) f = if bool_decide (FID F = f) then pending_of F else pending_at folders f.
Proof.
  intros Hn. unfold pending_at. cbn. case_bool_decide as E; [subst f; by rewrite announced_None|]. by destruct (announced folders f).
Qed.
Lemma loop_kept_cons F folders acc0 acc1 acc2 s0 s1 s2 :
  step_kept F acc0 acc1 s0 s1 -> loop_kept folders acc1 acc2 s1 s2 -> loop_kept (F :: folders) acc0 acc2 s0 s2.
Proof.
  intros (_ & S3 & S6 & S7 & S8) (L2 & L3 & L6 & L7 & L8). split; [done|]. split; [|split; [|split; [|by auto] ] ].
  - intros f. rewrite L3, S3. cbn. destruct (announced folders f); [done|].
    case_bool_decide as E; [subst f; by rewrite lookup_insert_eq|by rewrite lookup_insert_ne].
  - rewrite L6, S6. cbn. destruct (subscribes F); cbn; [by rewrite <- app_assoc|by rewrite app_nil_r].
  - intros G [->|Hin]%elem_of_cons Hact; [|by apply L7]. by apply L8, S7.
Qed.
Lemma loop_pending_cons F folders acc0 acc1 acc2 s1 s2 A0 A1 A2 : FID F ∉ map FID folders ->
  step_pending F acc0 acc1 s1 A0 A1 -> loop_pending folders acc1 acc2 s2 A1 A2 -> loop_pending (F :: folders) acc0 acc2 s2 A0 A2.
Proof.
  intros Hn (_ & S4 & S5) (L1 & L4 & L5). assert (pending_at folders (FID F) = None) as Hpa by (unfold pending_at; by rewrite announced_None).
  split; [done|]. split.
  - intros f. rewrite L4, pending_at_cons, S4 by done. case_bool_decide as E; [subst f; rewrite Hpa; destruct (pending_of F); [apply lookup_delete_eq|done]|].
    destruct (pending_at folders f); [done|]. destruct (pending_of F); [by rewrite lookup_delete_ne|done].
  - intros f d. rewrite L5, pending_at_cons, S5 by done. case_bool_decide as Ed.
    + subst d. case_bool_decide as E; [subst f; rewrite Hpa; destruct (pending_of F); [apply lookup_insert_eq|done]|].
      destruct (pending_at folders f); [done|]. destruct (pending_of F); [|done]. rewrite lookup_insert_ne; [done|]. by intros [= Ex].
    + destruct (pending_of F); [|done]. rewrite lookup_insert_ne; [done|]. intros [= _ Ex]. by apply Ed.
Qed.
Lemma loop_cons F folders acc0 acc1 acc2 s0 s1 s2 :
  step_done F acc0 acc1 s0 s1 -> loop_done folders acc1 acc2 s1 s2 -> loop_done (F :: folders) acc0 acc2 s0 s2.
Proof.
  intros [S1 S2] [L1 L2]. split; [by eapply loop_kept_cons|]. intros A Hrel HA [Hg Hn]. cbn [map] in Hg, Hn.
  apply Forall_cons_iff in Hg as [HgF Hg]. apply list.NoDup_cons in Hn as [HnF Hn].
  destruct (S2 A Hrel HA HgF) as (A1 & Hp). destruct (L2 A1 Hrel (proj1 Hp)) as (A2 & Hq); [done|]. exists A2. by eapply loop_pending_cons.
Qed.
Lemma handle_all_spec folders acc (s : ccRun) : length dev = 32%nat -> cc_ok (run_cc s) -> (forall F, F ∈ folders -> is_Some (infos !! FID F)) ->
  exists s' r, handle_all folders acc s = (s', r) /\ ((exists e, r = Err e) \/ exists acc', r = Ret acc' /\ loop_done folders acc acc' s s').
Proof.
  intros Hd. revert acc s. induction folders as [|F folders IH]; intros acc s Hok Hi; cbn [handle_folders].
  { eexists _, _. split; [reflexivity|]. right. exists acc. split; [done|]. split.
    - split; [done|]. split; [done|]. split; [by rewrite app_nil_r|]. split; [|done]. intros G Hx. by apply not_elem_of_nil in Hx.
    - intros A _ HA _. exists A. split; [done|]. split; [done|]. intros f d. cbn. by case_bool_decide. }
  unfold mbind, sm_bind. destruct (handle_folder_spec F acc s Hd Hok (Hi F ltac:(left))) as (s1 & r1 & -> & [ [e ->]|(acc1 & -> & Hst)]).
  { eexists _, _. split; [reflexivity|]. left. by eexists. }
  destruct (IH acc1 s1 (proj1 (proj1 Hst))) as (s2 & r2 & -> & [?|(acc2 & -> & Hl)]); [intros G HG; apply Hi; by right| |].
  - eexists _, _. split; [reflexivity|]. by left.
  - eexists _, _. split; [reflexivity|]. right. exists acc2. split; [done|]. by eapply loop_cons.
Qed.

Lemma remove_expired_spec fs (s : ccRun) : length dev = 32%nat ->
  exists o', remove_expired (R:=R) (CF:=CF) (CK:=CK) deviceCfg fs s = (set_observed o' s, Ret tt) /\
    forall A, reliable -> ps_holds (run_observed s) A -> Forall ObservedProps.good_id fs -> exists A', ps_holds o' A' /\
      forall f d, A' !! (f, d) = if bool_decide (d = dev /\ f ∈ fs) then None else A !! (f, d).
Proof.
  intros Hd. revert s. induction fs as [|f fs IH]; intros s; cbn [remove_expired].
  { exists (run_observed s). split; [by destruct s|]. intros A _ HA _. exists A. split; [done|]. intros f d. rewrite bool_decide_eq_false_2; [done|].
    intros [_ Hx]. by apply not_elem_of_nil in Hx. }
  unfold mbind, sm_bind. destruct (on_store_ends (ps_RemoveForDevice f dev) s) as (o1 & r & -> & Eo); [by apply law_remove_ends|].
  destruct (IH (set_observed o1 s)) as (o' & -> & HI). exists o'. split; [done|]. intros A Hrel HA [Hgf Hg]%Forall_cons_iff.
  destruct (law_remove (run_observed s) A f dev HA Hgf Hd) as (o2 & r2 & E & Hr). pose proof (rel_remove Hrel f dev (run_observed s)) as Hne.
  rewrite E in Hne, Eo. cbn [fst snd] in Hne, Eo. subst o2. destruct Hr as [ [-> HA']|[ [e ->] _] ]; [|by destruct (Hne e)].
  destruct (HI (delete (f, dev) A) Hrel HA' Hg) as (A2 & HA2 & Hl). exists A2. split; [done|]. intros g d. rewrite Hl.
  destruct (decide (d = dev /\ g ∈ fs)) as [Hin|Hin].
  - rewrite !bool_decide_eq_true_2; [done| |done]. destruct Hin. split; [done|]. by right.
  - rewrite (bool_decide_eq_false_2 _ Hin). destruct (decide (g = f /\ d = dev)) as [ [-> ->]|Hgd].
    + rewrite lookup_delete_eq, bool_decide_eq_true_2; [done|]. split; [done|]. left.
    + rewrite lookup_delete_ne by (intros [= <- <-]; by apply Hgd). rewrite bool_decide_eq_false_2; [done|].
      intros [-> [->|?]%elem_of_cons]; [by apply Hgd|by apply Hin].
Qed.

(** The states of the peer's folders, and what is pending of it. *)
Definition remote_state (folders : list Folder) (f : bytes) : option remoteFolderState :=
  match announced folders f with
  | Some F => Some (state_of F)
  | None => match FolderMap cfg !! f with
            | Some fcfg => if SharedWith dev fcfg then Some remoteFolderNotSharing else None
            | None => None
            end
  end.
Lemma not_sharing_spec seen f : not_sharing cfg deviceCfg seen !! f = match seen !! f with
  | Some st => Some st
  | None => match FolderMap cfg !! f with Some fcfg => if SharedWith dev fcfg then Some remoteFolderNotSharing else None | None => None end end.
Proof.
  unfold not_sharing. rewrite lookup_union, map_lookup_imap. destruct (FolderMap cfg !! f) as [fcfg|]; cbn.
  - destruct (seen !! f); [done|]. by destruct (SharedWith _ _).
  - by destruct (seen !! f).
Qed.
Lemma handled_spec folders (s : ccRun) : length dev = 32%nat -> dev <> DeviceID.EmptyDeviceID -> cc_ok (run_cc s) ->
  (forall F, F ∈ folders -> is_Some (infos !! FID F)) ->
  exists s' r, ccHandleFolders readFails writeFails now cfg deviceCfg infos folders s = (s', r) /\ ((exists e, r = Err e) \/ exists states,
    r = Ret (map FID (List.filter subscribes folders), states) /\ (forall f, states !! f = remote_state folders f) /\
    (forall F, F ∈ folders -> active F = true -> failure_of (folderEncryptionFailures s') (FID F) dev = None) /\
    forall A, reliable -> ps_holds (run_observed s) A -> good_names folders -> exists A', ps_holds (run_observed s') A' /\
      forall f d, A' !! (f, d) = if bool_decide (d = dev) then pending_at folders f else A !! (f, d)).
Proof.
  intros Hd Hne Hok Hi. unfold ccHandleFolders, mbind, sm_bind.
  destruct (on_store_ends (ps_ForDevice dev) s) as (o1 & pend & Ep & Eo); [by apply law_list_ends|]. rewrite Ep.
  set (s1 := set_observed o1 s). set (acc1 := {| tempIndexFolders := _ |}).
  destruct (handle_all_spec folders acc1 s1 Hd Hok Hi) as (s2 & r2 & -> & [ [e ->]|(acc2 & -> & [L K])]).
  { eexists _, _. split; [reflexivity|]. left. by eexists. }
  destruct L as (L2 & L3 & L6 & L7 & _). unfold on_reg, smodify.
  set (fs := map fst (map_to_list (expiredPending acc2))). set (s3 := {| run_reg := _ |}).
  assert (forall f, f ∈ fs <-> is_Some (expiredPending acc2 !! f)) as Hfs.
  { intros f. unfold fs. rewrite list_elem_of_fmap. split.
    - intros ([k v] & -> & Hk%elem_of_map_to_list). by eexists.
    - intros [v Hv]. exists (f, v). split; [done|]. by apply elem_of_map_to_list. }
  destruct (remove_expired_spec fs s3 Hd) as (o4 & -> & HE).
  eexists _, _. split; [reflexivity|]. right. exists (not_sharing cfg deviceCfg (seenFolders acc2)). split; [by rewrite L6|]. split; [|split; [done|] ].
  - intros f. rewrite not_sharing_spec, L3. unfold remote_state. destruct (announced folders f); [done|]. cbn. by rewrite lookup_empty.
  - intros A Hrel HA Hg. destruct (law_list (run_observed s) A dev HA Hd Hne) as (res & err & E & Hgood & Hall).
    pose proof (rel_list Hrel _ _ _ _ _ E) as ->. specialize (Hall eq_refl). rewrite E in Eo. cbn [fst] in Eo. subst o1.
    unfold on_store in Ep. rewrite E in Ep. injection Ep as Ep. subst pend.
    destruct (K A Hrel HA Hg) as (A2 & L1 & L4 & L5).
    destruct (HE A2 Hrel L1) as (A4 & HA4 & HE4).
    { apply Forall_forall. intros f Hf%list_elem_of_In. apply Hfs in Hf. rewrite L4 in Hf. destruct (pending_at folders f); [by destruct Hf|]. by apply Hgood. }
    exists A4. split; [done|]. intros f d. rewrite HE4, L5. destruct (decide (d = dev)) as [->|Hdd]; [|by rewrite !bool_decide_eq_false_2 by tauto].
    rewrite (bool_decide_eq_true_2 (dev = dev)) by done. destruct (decide (f ∈ fs)) as [Hin|Hin].
    + rewrite bool_decide_eq_true_2 by done. apply Hfs in Hin. rewrite L4 in Hin. destruct (pending_at folders f); [by destruct Hin|done].
    + rewrite bool_decide_eq_false_2 by tauto. destruct (pending_at folders f) eqn:Epa; [done|]. rewrite Hfs, L4, Epa in Hin. cbn in Hin.
      rewrite Hall in Hin. destruct (A !! (f, dev)); [by destruct Hin|done].
Qed.
End Message.

(** ** The message *)

Lemma device_infos_spec myID deviceID folders infos : (exists e, device_infos myID deviceID folders infos = Err e) \/
  exists infos', device_infos myID deviceID folders infos = Ret infos' /\ (forall f, is_Some (infos !! f) -> is_Some (infos' !! f)) /\
    forall F, F ∈ folders -> is_Some (infos' !! FID F).
Proof.
  revert infos. induction folders as [|F folders IH]; intros infos; cbn [device_infos].
  { right. exists infos. split; [done|]. split; [done|]. intros F Hx. by apply not_elem_of_nil in Hx. }
  cbv zeta. case_bool_decide; [left; by eexists|]. case_bool_decide; [left; by eexists|].
  destruct (IH (<[FID F := device_info myID deviceID no_info (Devices F)]> infos)) as [?|(infos' & -> & H1' & H2')]; [by left|].
  right. exists infos'. split; [done|]. split.
  - intros f Hf. apply H1'. destruct (decide (f = FID F)) as [->|?]; [rewrite lookup_insert_eq; by eexists|by rewrite lookup_insert_ne].
  - intros G [->|HG]%elem_of_cons; [apply H1'; rewrite lookup_insert_eq; by eexists|by apply H2'].
Qed.
Lemma ensure_handler folderCfgs c (m : @model R) : exists reg c', sm_Get (DeviceID c) (indexHandlers (ensureIndexHandler folderCfgs c m)) = Some (c', reg) /\
  ConnectionID c' = ConnectionID c.
Proof.
  unfold ensureIndexHandler. cbv zeta. destruct (sm_Get (DeviceID c) (indexHandlers m)) as [ [c' r]|] eqn:E; [case_bool_decide as Ec; [by exists r, c'|]|];
    (eexists _, c; cbn; unfold sm_Get, sm_Add; cbn; by rewrite lookup_insert_eq).
Qed.

Lemma ensure_subscribed folderCfgs c (m : @model R) : subscribed (ensureIndexHandler folderCfgs c m) = subscribed m.
Proof. unfold ensureIndexHandler. cbv zeta. destruct (sm_Get (DeviceID c) (indexHandlers m)) as [ [c' r]|]; [by case_bool_decide|done]. Qed.

Context (SanitizePath : bytes -> bytes) (Join : bytes -> bytes -> bytes) (setIgnores : FolderConfiguration -> prog unit)
  (run : prog (option FolderConfiguration) -> option FolderConfiguration) (defaultFolderCfg : FolderConfiguration).
Context (myName myID : bytes) (refused : Configuration -> Configuration -> bool).
Context (DefaultDevice : DeviceConfiguration) (iter : forall A, gmap bytes A -> list (bytes * A)) (url_scheme : bytes -> option bytes).
Abbreviation running := (@running R O CF CK).
Abbreviation ClusterConfig_ := (ClusterConfig_ (R:=R) (O:=O) (CF:=CF) (CK:=CK) readFails writeFails SanitizePath Join setIgnores run defaultFolderCfg
  myName myID refused DefaultDevice iter url_scheme).
Abbreviation accept := (accept_folders SanitizePath Join setIgnores run defaultFolderCfg iter).
Abbreviation changed := (changed iter url_scheme myName myID refused).
Implicit Types s : running.

(** The configuration when the folders are looked at. *)
Definition accepted (deviceCfg : DeviceConfiguration) (c : conn) (cm : ClusterConfig) s : Configuration :=
  if dc_AutoAcceptFolders deviceCfg then
    match device_infos myID (DeviceID c) (Folders cm) ∅ with
    | Ret infos => match accept (DeviceID c) infos cm (rn_cfg s) with Ret to => changed (rn_cfg s) to | _ => rn_cfg s end
    | _ => rn_cfg s
    end
  else rn_cfg s.
Lemma changed_folders_total deviceID infos have fs ch : (forall F, F ∈ fs -> is_Some (infos !! FID F)) ->
  exists ch', changed_folders SanitizePath Join setIgnores run defaultFolderCfg deviceID infos have fs ch = Ret ch'.
Proof.
  revert ch. induction fs as [|F fs IH]; intros ch Hi; cbn [changed_folders]; [by eexists|]. destruct (Hi F) as [i ->]; [left|].
  apply IH. intros G HG. apply Hi. by right.
Qed.
Lemma accept_total deviceID infos cm cfg : (forall F, F ∈ Folders cm -> is_Some (infos !! FID F)) -> exists to, accept deviceID infos cm cfg = Ret to.
Proof.
  intros Hi. unfold accept_folders. destruct (changed_folders_total deviceID infos (FolderMap cfg) (Folders cm) ∅ Hi) as [ch ->]. cbn.
  destruct (replace_folders _ _). by eexists.
Qed.
Record message_kept (now : Z) (c : conn) (cm : ClusterConfig) (deviceCfg : DeviceConfiguration) s s' : Prop := {
  kept_states : exists states, remoteFolderStates (rn_model s') !! DeviceID c = Some states /\
    forall f, states !! f = remote_state (accepted deviceCfg c cm s) deviceCfg (Folders cm) f;
  kept_pending : forall A, reliable -> ps_holds (rn_observed s) A -> good_names (Folders cm) ->
    exists A' infos, device_infos myID (DeviceID c) (Folders cm) ∅ = Ret infos /\ ps_holds (rn_observed s') A' /\
    forall f d, A' !! (f, d) = if bool_decide (d = DeviceID c) then pending_at now (accepted deviceCfg c cm s) deviceCfg infos (Folders cm) f else A !! (f, d);
  kept_failures : forall F, F ∈ Folders cm -> active (accepted deviceCfg c cm s) deviceCfg F = true ->
    failure_of (rn_failures s') (FID F) (DeviceID c) = None;
  kept_handler : is_Some (getIndexHandlerRLocked c (rn_model s'));
  kept_subscription : forall c' ids, deviceConnIDs (rn_model s) !! DeviceID c = Some (ConnectionID c' :: ids) ->
    connections (rn_model s) !! ConnectionID c' = Some c' -> DeviceID c' = DeviceID c ->
    let fs := map FID (List.filter (subscribes (accepted deviceCfg c cm s) deviceCfg) (Folders cm)) in
    subscribed (rn_model s') !! DeviceID c = if is_nil fs then subscribed (rn_model s) !! DeviceID c else Some (c', fs);
  kept_config : rn_cfg s' = if dc_Introducer deviceCfg
    then changed (accepted deviceCfg c cm s) (apply_introductions myID DefaultDevice deviceCfg iter cm (accepted deviceCfg c cm s))
    else accepted deviceCfg c cm s }.

(** Accepting folders only adds new folders of the message, and the device to
    folders that it has announced and that are encrypted just if it says so. *)
Definition accepted_folder (deviceID : bytes) (infos : gmap bytes clusterConfigDeviceInfo) (fs : list Folder) (cfg : Configuration) (f : FolderConfiguration) : Prop :=
  f ∈ cf_Folders cfg \/ exists F info h, F ∈ fs /\ infos !! FID F = Some info /\
    ClusterConfigsProps.accepted SanitizePath Join defaultFolderCfg deviceID F info (FolderMap cfg !! FID F) h (Some f).
Lemma changed_folders_spec plausible deviceID infos cfg fs ch ch' :
  (forall f h (Q : history -> unit -> Prop), (forall h', h ⊆ h' -> Q h' tt) -> safe accept_allowed plausible (setIgnores f) h Q) ->
  (forall p, exists h, runs p [] h (run p) /\ all_plausible plausible h) ->
  changed_folders SanitizePath Join setIgnores run defaultFolderCfg deviceID infos (FolderMap cfg) fs ch = Ret ch' ->
  forall k f, ch' !! k = Some f -> ch !! k = Some f \/ accepted_folder deviceID infos fs cfg f.
Proof.
  intros Hset Hrun. revert ch. induction fs as [|F fs IH]; intros ch; cbn [changed_folders]; [intros [= <-]; auto|].
  destruct (infos !! FID F) as [info|] eqn:Ei; [|done]. intros E k f Hk. destruct (IH _ E k f Hk) as [Hc|[?|(G & i & h & HG & ?)] ].
  - match type of Hc with context [run ?p] => destruct (Hrun p) as (h & Hr & Hp); destruct (run p) as [to|] eqn:Er; [|by left] end.
    apply lookup_insert_Some in Hc as [ [<- <-]|[_ Hc] ]; [|by left]. right. right. exists F, info, h. split; [left|]. split; [done|].
    by eapply (auto_accepts _ _ _ _ _ _ _ plausible).
  - by right; left.
  - right. right. exists G, i, h. split; [by right|done].
Qed.
Lemma replace_folders_spec fs ch f : f ∈ (replace_folders fs ch).1 \/ (exists k, (replace_folders fs ch).2 !! k = Some f) ->
  f ∈ fs \/ exists k, ch !! k = Some f.
Proof.
  revert ch. induction fs as [|g fs IH]; intros ch; cbn [replace_folders]; [by intros [?|?]; [left|right]|].
  destruct (ch !! fc_ID g) as [g'|] eqn:Eg; specialize (IH (delete (fc_ID g) ch)) as IHd.
  - destruct (replace_folders fs (delete _ ch)) as [fs' rest] eqn:E. cbn. intros [ [->|Hf]%elem_of_cons|Hf].
    + right. by exists (fc_ID g).
    + destruct (IHd (or_introl Hf)) as [?|(k & Hk)]; [left; by right|]. apply lookup_delete_Some in Hk as [_ Hk]. right. by exists k.
    + destruct (IHd (or_intror Hf)) as [?|(k & Hk)]; [left; by right|]. apply lookup_delete_Some in Hk as [_ Hk]. right. by exists k.
  - specialize (IH ch). destruct (replace_folders fs ch) as [fs' rest] eqn:E. cbn. intros [ [->|Hf]%elem_of_cons|Hf]; [left; left| |].
    + destruct (IH (or_introl Hf)) as [?|?]; [left; by right|by right].
    + destruct (IH (or_intror Hf)) as [?|?]; [left; by right|by right].
Qed.
Theorem folders_accepted plausible deviceID infos cm cfg to :
  (forall A (m : gmap bytes A), iter A m ≡ₚ map_to_list m) ->
  (forall f h (Q : history -> unit -> Prop), (forall h', h ⊆ h' -> Q h' tt) -> safe accept_allowed plausible (setIgnores f) h Q) ->
  (forall p, exists h, runs p [] h (run p) /\ all_plausible plausible h) ->
  accept deviceID infos cm cfg = Ret to ->
  cf_Devices to = cf_Devices cfg /\ forall f, f ∈ cf_Folders to -> accepted_folder deviceID infos (Folders cm) cfg f.
Proof.
  intros Hiter Hset Hrun. unfold accept_folders.
  destruct (changed_folders _ _ _ _ _ _ _ _ (Folders cm) ∅) as [ch|e| |] eqn:Ech; try done. cbn.
  pose proof (replace_folders_spec (cf_Folders cfg) ch) as Hr. destruct (replace_folders (cf_Folders cfg) ch) as [fs rest] eqn:Er. intros [= <-]. split; [done|].
  cbn [cf_Folders]. cbn [fst snd] in Hr. intros f Hf.
  destruct (Hr f) as [?|(k & Hk)]; [|by left|].
  - apply elem_of_app in Hf as [Hf|Hf]; [by left|right]. apply list_elem_of_fmap in Hf as ([k g] & -> & Hg). rewrite Hiter in Hg.
    apply elem_of_map_to_list in Hg. by exists k.
  - by destruct (changed_folders_spec plausible _ _ _ _ _ _ Hset Hrun Ech k f Hk) as [Hx|?]; [rewrite lookup_empty in Hx|].
Qed.

End Handled.

(** ** An example: a folder that is not known becomes pending *)

Module Ex.
Import ObservedProps.
#[local] Existing Instances ex_registry ex_crypto ex_laws list_cache list_cache_laws.
Abbreviation LC := (list (bytes * bytes * bytes)).
Definition never (_ : Observed.kv_call) : bool := false.
#[local] Instance ex_store : PendingStore (gmap bytes bytes) :=
  Observed_store never ex_scan (fun _ => None) (fun t : Z => t) (fun t : Z => t) ex_build (fun w : ex_wire => w.1.1.1) (fun w => w.1.1.2)
    (fun w => w.1.2) (fun w => w.2) ex_marshal ex_unmarshal (map DeviceID.upper) (fun _ : Z => 0) (fun _ => []) (fun _ => []) (fun _ => None).
Lemma ex_roundtrip : forall t l r e, let w := ex_build t l r e in
  w.1.1.1 = t /\ w.1.1.2 = l /\ w.1.2 = r /\ w.2 = e /\ exists bs, ex_marshal w = Some bs /\ ex_unmarshal bs = Some w.
Proof. intros t l r e; cbn. do 4 (split; [reflexivity|]). eexists. split; [reflexivity|]. unfold ex_unmarshal. rewrite bytes_pos_bytes. apply decode_encode. Qed.
#[local] Instance ex_store_laws : PendingStoreLaws (gmap bytes bytes) :=
  Observed_laws never ex_scan (fun _ => None) (fun t : Z => t) (fun t : Z => t) ex_build (fun w : ex_wire => w.1.1.1) (fun w => w.1.1.2)
    (fun w => w.1.2) (fun w => w.2) ex_marshal ex_unmarshal (map DeviceID.upper) ex_upper (fun _ : Z => 0) (fun _ => []) (fun _ => []) (fun _ => None)
    (fun t => Permutation_refl _) ex_roundtrip (fun _ => eq_refl).
Lemma ex_reliable : reliable (O := gmap bytes bytes).
Proof.
  constructor.
  - intros id f d o e. cbn. unfold Observed.AddOrUpdatePendingFolder, Observed.folder_key, Observed.device_text, mbind, sm_bind.
    destruct (DeviceID.DeviceID_String d); cbn; done.
  - intros id d o e. cbn. unfold Observed.RemovePendingFolderForDevice, Observed.folder_key, Observed.device_text, mbind, sm_bind.
    destruct (DeviceID.DeviceID_String d); cbn; done.
  - intros d o o' res err. cbn. unfold Observed.PendingFoldersForDevice, Observed.device_text, mbind, sm_bind.
    destruct (DeviceID.DeviceID_String d); cbn [mret sm_ret spanic]; try done. set (p := if bool_decide _ then _ else _).
    assert (exists rows, Observed.PrefixKV ex_scan (fun _ => None) p o = (o, Panic) \/ Observed.PrefixKV ex_scan (fun _ => None) p o = (o, Ret (rows, false)))
      as (rows & [E|E]).
    { unfold Observed.PrefixKV. destruct (is_nil p); [eexists; right; reflexivity|]. destruct (Observed.prefixEnd p); eexists; (right; reflexivity) || (left; reflexivity).
      Unshelve. all: exact []. }
    + rewrite E. done.
    + rewrite E. cbn [fst snd]. destruct (Observed.pending_folders never) as [o2 [res2|e| |] ]; try done. cbv [mret sm_ret]. congruence.
Qed.
Definition ex_cfg : Configuration := {| cf_Folders := []; cf_Devices := [ConfigProps.ex_device ex_device_id true] |}.
Definition ex_me : bytes := repeat (z2b 9) 32.
Definition ex_conn : conn := {| ConnectionID := gostr "c"; DeviceID := ex_device_id |}.
Definition ex_folder : Folder := {| FID := gostr "pics"; Label := gostr "Pics"; FType := 0; StopReason := 0;
  Devices := [IntroducerProps.ex_told ex_me []; IntroducerProps.ex_told ex_device_id []] |}.
Definition ex_running : @running IndexHandler.indexHandlerRegistry (gmap bytes bytes) LC LC :=
  {| rn_model := NewModel []; rn_cc := ex_state; rn_observed := (∅ : gmap bytes bytes); rn_failures := ∅; rn_cfg := ex_cfg |}.
Definition ex_message : ClusterConfig := {| Folders := [ex_folder]; Secondary := false |}.
Definition ex_run (p : prog (option FolderConfiguration)) : option FolderConfiguration := match p with Return r => r | Call _ _ => None end.
Definition ex_handle := ClusterConfig_ (R:=IndexHandler.indexHandlerRegistry) (O:=gmap bytes bytes) (CF:=LC) (CK:=LC) no_fault no_fault id (fun a b => a ++ b) (fun _ => Return tt) ex_run
  ConfigProps.ex_folder (gostr "host") ex_me (fun _ _ => false) (ConfigProps.ex_device [] false) ConfigProps.ex_iter ConfigProps.ex_scheme.
Definition ex_infos : gmap bytes clusterConfigDeviceInfo :=
  match device_infos ex_me (DeviceID ex_conn) (Folders ex_message) ∅ with Ret infos => infos | _ => ∅ end.
End Ex.
