(* ===== verification/ModelFolders.v ===== *)
(** * The folders of the running program (lib/model/model.go)

    Starting, restarting and removing folders, and what a changed configuration
    comes to: which folders run, which devices are told, and whose connections
    are closed.  A folder that runs is the configuration it was started with.
    The answers of the database, the file system and the versioners are
    parameters. *)
From Stdlib Require Import ZArith List Lia.
From Stdlib Require Import Floats.SpecFloat.
From Stdlib Require Import Strings.Byte.
From stdpp Require Import base list option gmap numbers tactics.
From S2P Require Import Prelude GoLib Connection EncryptedNames Encryption FolderScan Config ConfigWrapper ClusterConfigs ModelState ModelCluster.
From S2P Require DeviceID Observed.

#[local] Open Scope Z_scope.

(** ** Which settings need a restart *)

(** The label is the only one of these settings that needs none. *)
Definition RequiresRestartOnly (f : FolderConfiguration) : FolderConfiguration := set_label_delay [] (fc_FSWatcherDelayS f) f.
Section Folders.
Context {R : Type} `{HandlerRegistry R} {O : Type} `{PendingStore O}.
Context `{Crypto} {CF CK : Type} `{Cache CF (bytes * bytes) bytes} `{Cache CK (bytes * bytes) bytes}.
Context (readFails : bytes -> bool).
(** A call of the database for a folder fails; a versioner can not be made; a
    directory or marker can not be made; what removing a marker answers. *)
Context (LWWReconciler_fails GetDeviceSequence_fails : bytes -> bool) (versioner_New : FolderConfiguration -> bool)
  (CreateRoot_fails : FolderConfiguration -> bool) (RemoveMarker_answer : FolderConfiguration -> option bool).
(** The order in which a map is ranged over, and the settings of a folder that
    [FolderConfiguration] does not have. *)
Context (iter : forall A, gmap bytes A -> list (bytes * A)) (changed_elsewhere : bytes -> bool).
Arguments iter {A}.

Inductive effect :=
  | RootCreated (f : FolderConfiguration) | MarkerCreated (f : FolderConfiguration) | MarkerRemoved (f : FolderConfiguration)
  | MarkerMoved (f : FolderConfiguration) | FolderDropped (folder : bytes) | DeviceDropped (folder device : bytes)
  | Stopped (folder : bytes) | Closing (c : conn) | Announced (c : conn).

Abbreviation running := (@running R O CF CK).
Record folders := {
  base : running;
  folderCfgs : gmap bytes FolderConfiguration;
  folderIgnores : gset bytes;
  (* the type of the versioner, empty for none *)
  folderVersioners : gmap bytes bytes;
  folderRunners : serviceMap FolderConfiguration;
  (* the devices of which the database has an index, and our own sequence numbers *)
  indexed : gmap bytes (gset bytes);
  sequences : gmap bytes Z;
  effects : list effect }.
Abbreviation F := (SM folders unit).

Definition set_base (f : running -> running) : F unit := smodify (fun s =>
  {| base := f (base s); folderCfgs := folderCfgs s; folderIgnores := folderIgnores s; folderVersioners := folderVersioners s;
     folderRunners := folderRunners s; indexed := indexed s; sequences := sequences s; effects := effects s |}).
Definition set_folder (cfgs : gmap bytes FolderConfiguration -> gmap bytes FolderConfiguration) (ig : gset bytes -> gset bytes)
    (vs : gmap bytes bytes -> gmap bytes bytes) (rs : serviceMap FolderConfiguration -> serviceMap FolderConfiguration) : F unit := smodify (fun s =>
  {| base := base s; folderCfgs := cfgs (folderCfgs s); folderIgnores := ig (folderIgnores s); folderVersioners := vs (folderVersioners s);
     folderRunners := rs (folderRunners s); indexed := indexed s; sequences := sequences s; effects := effects s |}).
Definition set_index (ix : gmap bytes (gset bytes) -> gmap bytes (gset bytes)) (sq : gmap bytes Z -> gmap bytes Z) : F unit := smodify (fun s =>
  {| base := base s; folderCfgs := folderCfgs s; folderIgnores := folderIgnores s; folderVersioners := folderVersioners s;
     folderRunners := folderRunners s; indexed := ix (indexed s); sequences := sq (sequences s); effects := effects s |}).
Definition did (es : list effect) : F unit := smodify (fun s =>
  {| base := base s; folderCfgs := folderCfgs s; folderIgnores := folderIgnores s; folderVersioners := folderVersioners s;
     folderRunners := folderRunners s; indexed := indexed s; sequences := sequences s; effects := effects s ++ es |}).
Definition set_rn_cc (cc : @ccState CF CK) (s : running) : running :=
  {| rn_model := rn_model s; rn_cc := cc; rn_observed := rn_observed s; rn_failures := rn_failures s; rn_cfg := rn_cfg s |}.
Definition set_rn_failures (f : gmap bytes (gmap bytes cc_err)) (s : running) : running :=
  {| rn_model := rn_model s; rn_cc := rn_cc s; rn_observed := rn_observed s; rn_failures := f; rn_cfg := rn_cfg s |}.
Definition set_tokens (f : gmap bytes bytes -> gmap bytes bytes) (s : running) : running :=
  set_rn_cc {| cc_keyGen := cc_keyGen (rn_cc s); folderEncryptionPasswordTokens := f (folderEncryptionPasswordTokens (rn_cc s));
               tokenFiles := tokenFiles (rn_cc s); resent := resent (rn_cc s) |} s.
(** Something is done with the index handlers of every device. *)
Definition each_handler (f : R -> R) (s : running) : running :=
  set_rn_model (set_handlers (sm_Each (fun cr => (cr.1, f cr.2)) (indexHandlers (rn_model s))) (subscribed (rn_model s)) (rn_model s)) s.

(** ** Starting and stopping *)

(** Devices whose index is held although the folder is not shared with them. *)
Definition drop_unexpected (cfg : FolderConfiguration) : F unit :=
  s ← sget;
  let available := elements (default ∅ (indexed s !! fc_ID cfg)) in
  let dropped := List.filter (fun d => negb (bool_decide (d ∈ DeviceIDs cfg))) available in
  _ ← set_index (fun ix => match ix !! fc_ID cfg with Some ds => <[fc_ID cfg := ds ∖ list_to_set dropped]> ix | None => ix end) id;
  did (map (DeviceDropped (fc_ID cfg)) dropped).
Definition load_token (cfg : FolderConfiguration) : F unit :=
  if isEncrypted (fc_Type cfg) then
    s ← sget;
    match readEncryptionToken readFails cfg (rn_cc (base s)) with
    | (_, Ret (Some token)) => set_base (set_tokens (<[fc_ID cfg := token]>))
    | _ => mret tt
    end
  else mret tt.
Definition addAndStartFolderLocked (cfg : FolderConfiguration) : F unit :=
  if LWWReconciler_fails (fc_ID cfg) then spanic
  else
    _ ← set_folder (<[fc_ID cfg := cfg]>) ({[fc_ID cfg]} ∪.) id id;
    s ← sget;
    match sm_Get (fc_ID cfg) (folderRunners s) with
    | Some _ => spanic (* already running *)
    | None =>
        _ ← drop_unexpected cfg;
        if GetDeviceSequence_fails (fc_ID cfg) then spanic
        else
          _ ← (if default 0 (sequences s !! fc_ID cfg) =? 0 then did (if CreateRoot_fails cfg then [] else [RootCreated cfg; MarkerCreated cfg]) else mret tt);
          _ ← load_token cfg;
          if negb (is_nil (vc_Type (fc_Versioning cfg))) && negb (versioner_New cfg) then spanic
          else
            _ ← set_folder id id <[fc_ID cfg := vc_Type (fc_Versioning cfg)]> (sm_Add (fc_ID cfg) cfg);
            mret tt
    end.
Definition cleanupFolderLocked (cfg : FolderConfiguration) : F unit :=
  _ ← set_folder (delete (fc_ID cfg)) (.∖ {[fc_ID cfg]}) (delete (fc_ID cfg)) (fun rs => fst (sm_Remove (fc_ID cfg) rs));
  set_base (fun s => set_rn_failures (delete (fc_ID cfg) (rn_failures s)) (set_tokens (delete (fc_ID cfg)) s)).
Definition newFolder (cfg : FolderConfiguration) : F unit :=
  _ ← addAndStartFolderLocked cfg;
  set_base (each_handler (reg_RegisterFolderState cfg)).
Definition restartFolder (from to : FolderConfiguration) : F unit :=
  if is_nil (fc_ID to) then spanic
  else if negb (bool_decide (fc_ID to = fc_ID from)) then spanic
  else
    _ ← did [Stopped (fc_ID from)];
    _ ← cleanupFolderLocked from;
    _ ← (if fc_Paused to then mret tt else addAndStartFolderLocked to);
    set_base (each_handler (reg_RegisterFolderState to)).
(** Whether no other folder that is started has the path. *)
Definition isPathUnique (cfg : FolderConfiguration) (cfgs : gmap bytes FolderConfiguration) : bool :=
  forallb (fun kv : bytes * FolderConfiguration => bool_decide (kv.1 = fc_ID cfg) || negb (bool_decide (fc_Path kv.2 = fc_Path cfg))) (map_to_list cfgs).
Definition removeFolder (cfg : FolderConfiguration) : F unit :=
  _ ← did [Stopped (fc_ID cfg)];
  s ← sget;
  _ ← (if isPathUnique cfg (folderCfgs s) then
         did (match RemoveMarker_answer cfg with None => [MarkerRemoved cfg] | Some true (* missing *) => [] | Some false => [MarkerMoved cfg] end)
       else mret tt);
  _ ← cleanupFolderLocked cfg;
  _ ← set_base (each_handler (reg_Remove (fc_ID cfg)));
  _ ← set_index (delete (fc_ID cfg)) (delete (fc_ID cfg));
  did [FolderDropped (fc_ID cfg)].
Definition ResetFolder (folder : bytes) : F bool :=
  s ← sget;
  match sm_Get folder (folderRunners s) with
  | Some _ => mret false
  | None => _ ← set_index (delete folder) (delete folder); _ ← did [FolderDropped folder]; mret true
  end.
Inductive folder_err := ErrFolderMissing | ErrFolderPaused | ErrFolderNotRunning.
Definition checkFolderRunningRLocked (folder : bytes) (s : folders) : option folder_err :=
  match sm_Get folder (folderRunners s) with
  | Some _ => None
  | None =>
      match Configuration_Folder folder (rn_cfg (base s)) with
      | None => Some ErrFolderMissing
      | Some cfg => if fc_Paused cfg then Some ErrFolderPaused else Some ErrFolderNotRunning
      end
  end.

(** ** Pending folders and devices *)

Definition on_observed {A} (m : SM O Observed.kv_err A) : F (option A) := fun s =>
  let set o := let b := base s in
    {| base := {| rn_model := rn_model b; rn_cc := rn_cc b; rn_observed := o; rn_failures := rn_failures b; rn_cfg := rn_cfg b |};
       folderCfgs := folderCfgs s; folderIgnores := folderIgnores s; folderVersioners := folderVersioners s;
       folderRunners := folderRunners s; indexed := indexed s; sequences := sequences s; effects := effects s |} in
  match m (rn_observed (base s)) with
  | (o, Ret a) => (set o, Ret (Some a))
  | (o, Err _) => (set o, Ret None)
  | (o, Panic) => (set o, Panic)
  | (o, OutOfFuel) => (set o, OutOfFuel)
  end.
Fixpoint for_each {A} (f : A -> F unit) (l : list A) : F unit :=
  match l with [] => mret tt | x :: l => _ ← f x; for_each f l end.
Section CleanPending.
Context (existingDevices : gmap bytes DeviceConfiguration) (existingFolders : gmap bytes FolderConfiguration)
  (ignoredDevices removedFolders : gset bytes).
(** An entry that is no longer of interest. *)
Definition discard_pending (folderID deviceID : bytes) : bool :=
  match existingDevices !! deviceID with
  | None => true
  | Some dev =>
      if IgnoredFolder folderID dev then true
      else match existingFolders !! folderID with Some folderCfg => SharedWith deviceID folderCfg | None => false end
  end.
Definition clean_folder (kv : bytes * gmap bytes PendingFolder) : F unit :=
  let '(folderID, pf) := kv in
  if bool_decide (folderID ∈ removedFolders) then _ ← on_observed (ps_Remove folderID); mret tt
  else for_each (fun d : bytes * PendingFolder =>
    if discard_pending folderID d.1 then _ ← on_observed (ps_RemoveForDevice folderID d.1); mret tt else mret tt) (iter pf).
Definition clean_device (kv : bytes * Observed.ObservedDevice) : F unit :=
  if bool_decide (kv.1 ∈ ignoredDevices) || match existingDevices !! kv.1 with Some _ => true | None => false end then
    _ ← on_observed (ps_RemoveDevice kv.1); mret tt
  else mret tt.
Definition cleanPending : F unit :=
  pendingFolders ← on_observed (ps_ForDevice DeviceID.EmptyDeviceID);
  _ ← for_each clean_folder (match pendingFolders with Some p => iter p.1 | None => [] end);
  pendingDevices ← on_observed ps_Devices;
  match pendingDevices with
  | Some (ds, false) => for_each clean_device (iter ds)
  | _ => mret tt
  end.
End CleanPending.

(** ** A changed configuration *)

(** [sendClusterConfig]; a nil connection panics. *)
Definition send_cluster_configs (ids : gset bytes) : F unit :=
  s ← sget;
  match sendClusterConfig_conns (elements ids) (rn_model (base s)) with
  | Ret cs => did (map Announced cs)
  | _ => spanic
  end.
Definition initFolders (ignoredDevices : gset bytes) (cfg : Configuration) : F unit :=
  _ ← for_each (fun folderCfg => if fc_Paused folderCfg then did (if CreateRoot_fails folderCfg then [] else [RootCreated folderCfg]) else newFolder folderCfg)
        (cf_Folders cfg);
  _ ← cleanPending (DeviceMap cfg) (FolderMap cfg) ignoredDevices ∅;
  send_cluster_configs (list_to_set (concat (map DeviceIDs (List.filter (fun f => negb (fc_Paused f)) (cf_Folders cfg))))).

Section Commit.
Context (cacheIgnoredFiles_changed : bool) (from to : Configuration).

Definition needs_restart (fromCfg toCfg : FolderConfiguration) : bool :=
  negb (DeepEqual (RequiresRestartOnly fromCfg) (RequiresRestartOnly toCfg)) || changed_elsewhere (fc_ID toCfg) || cacheIgnoredFiles_changed.
(** What is collected: the devices that are told, and those whose connections
    are closed. *)
Record told := { clusterConfigDevices : gset bytes; closeDevices : list bytes }.
Definition tell (ids : list bytes) (t : told) : told :=
  {| clusterConfigDevices := list_to_set ids ∪ clusterConfigDevices t; closeDevices := closeDevices t |}.
Definition close_all (ids : list bytes) (t : told) : told :=
  {| clusterConfigDevices := clusterConfigDevices t; closeDevices := closeDevices t ++ ids |}.
Fixpoint add_folders (toFolders : list (bytes * FolderConfiguration)) (t : told) : F told :=
  match toFolders with
  | [] => mret t
  | (folderID, cfg) :: toFolders =>
      match FolderMap from !! folderID with
      | Some _ => add_folders toFolders t
      | None =>
          _ ← (if fc_Paused cfg then mret tt else newFolder cfg);
          add_folders toFolders (tell (DeviceIDs cfg) t)
      end
  end.
Definition change_folder (fromCfg toCfg : FolderConfiguration) (t : told) : F told :=
  if fc_Paused fromCfg && fc_Paused toCfg then mret t
  else if needs_restart fromCfg toCfg then
    _ ← restartFolder fromCfg toCfg;
    let t := tell (DeviceIDs fromCfg) t in
    if negb (isEncrypted (fc_Type toCfg)) then mret (tell (DeviceIDs toCfg) t)
    else
      s ← sget;
      match folderEncryptionPasswordTokens (rn_cc (base s)) !! fc_ID toCfg with
      | None => mret (close_all (DeviceIDs toCfg) t)
      | Some _ => mret (tell (DeviceIDs toCfg) t)
      end
  else mret t.
Fixpoint change_folders (fromFolders : list (bytes * FolderConfiguration)) (t : told) : F told :=
  match fromFolders with
  | [] => mret t
  | (folderID, fromCfg) :: fromFolders =>
      t ← match FolderMap to !! folderID with
          | None => _ ← removeFolder fromCfg; mret (tell (DeviceIDs fromCfg) t)
          | Some toCfg => change_folder fromCfg toCfg t
          end;
      change_folders fromFolders t
  end.
Fixpoint change_devices (toDevices : list (bytes * DeviceConfiguration)) (t : told) : F told :=
  match toDevices with
  | [] => mret t
  | (deviceID, toCfg) :: toDevices =>
      match DeviceMap from !! deviceID with
      | None => change_devices toDevices t
      | Some fromCfg =>
          if Bool.eqb (dc_Paused fromCfg) (dc_Paused toCfg) then change_devices toDevices t
          else
            let closing := dc_Paused toCfg || (zlen (dc_IgnoredFolders toCfg) <? zlen (dc_IgnoredFolders fromCfg)) in
            let t := if closing then close_all [deviceID] t else t in
            _ ← (if dc_MaxRequestKiB toCfg =? dc_MaxRequestKiB fromCfg then mret tt
                 else set_base (fun s => set_rn_model (setConnRequestLimitersLocked toCfg (rn_model s)) s));
            change_devices toDevices t
      end
  end.
(** The connections of a device; a nil connection panics. *)
Fixpoint close_conns (ids : list bytes) : F unit :=
  match ids with
  | [] => mret tt
  | id :: ids =>
      s ← sget;
      match connections (rn_model (base s)) !! id with
      | None => spanic
      | Some c => _ ← did [Closing c]; close_conns ids
      end
  end.
Definition close_device (id : bytes) : F unit :=
  s ← sget;
  match deviceConnIDs (rn_model (base s)) !! id with None => mret tt | Some ids => close_conns ids end.
Definition CommitConfiguration (ignoredDevices : gset bytes) (options_differ : bool) : F bool :=
  t ← add_folders (iter (FolderMap to)) {| clusterConfigDevices := ∅; closeDevices := [] |};
  t ← change_folders (iter (FolderMap from)) t;
  t ← change_devices (iter (DeviceMap to)) t;
  let removedDevices := map fst (iter (DeviceMap from ∖ DeviceMap to)) in
  _ ← for_each close_device (closeDevices t);
  _ ← for_each close_device removedDevices;
  _ ← send_cluster_configs (clusterConfigDevices t ∖ list_to_set (closeDevices t) ∖ list_to_set removedDevices);
  _ ← cleanPending (DeviceMap to) (FolderMap to) ignoredDevices (dom (FolderMap from) ∖ dom (FolderMap to));
  mret (negb options_differ).
End Commit.
(** All connections are closed when the program stops. *)
Definition closeAllConnectionsAndWait : F unit := s ← sget; did (map Closing (map snd (iter (connections (rn_model (base s)))))).
End Folders.
