(* ===== verification/ModelFoldersProps.v ===== *)
(** * The folders of the running program: theorems

    After a change of the configuration exactly the folders run that should, with
    the settings they should have, and every device that is concerned is told or
    its connections are closed. *)
From Stdlib Require Import ZArith List Lia.
From Stdlib Require Import Floats.SpecFloat.
From Stdlib Require Import Strings.Byte.
From stdpp Require Import base list option gmap numbers tactics.
From S2P Require Import Prelude GoLib Connection EncryptedNames Encryption FolderScan Config ConfigProps ConfigWrapper ClusterConfigs.
From S2P Require Import ModelState ModelStateProps ModelCluster ModelClusterProps ModelFolders.
From S2P Require DeviceID Observed ObservedProps IndexHandler.
Import DeviceID(luhn32_result, unluhnify_loop, unluhnify, DeviceIDFromString, UnmarshalText, unmarshalOld, EmptyDeviceID, b32_decode, copy_into, unchunkify, untypeoify, trim, pad).

#[local] Open Scope Z_scope.

(** ** Settings *)

Definition is_zero (x : spec_float) : bool := match x with S754_zero _ => true | _ => false end.
Lemma SFeqb_eq a b : SFeqb a b = true -> a = b \/ (is_zero a = true /\ is_zero b = true).
Proof.
  unfold SFeqb, SFcompare. destruct a as [sa|sa| |sa ma ea], b as [sb|sb| |sb mb eb]; try done; try (destruct sa; done); try (destruct sb; done); auto.
  - destruct sa, sb; auto; done.
  - destruct sa, sb; try done; destruct (Z.compare_spec ea eb) as [->| |]; try done;
      match goal with |- context [Pos.compare_cont Eq ?a ?b] => destruct (Pos.compare_cont Eq a b) eqn:Ec end; try done;
      apply Pos.compare_eq in Ec as ->; auto.
Qed.
(** A folder that runs as [g] has the settings of [f], up to its label and the
    sign of a delay of zero. *)
Definition runs_as (g f : FolderConfiguration) : Prop :=
  set_label_delay [] (S754_zero false) g = set_label_delay [] (S754_zero false) f /\
  (fc_FSWatcherDelayS g = fc_FSWatcherDelayS f \/ (is_zero (fc_FSWatcherDelayS g) = true /\ is_zero (fc_FSWatcherDelayS f) = true)).
Lemma runs_as_refl f : runs_as f f.
Proof. split; [done|by left]. Qed.
Lemma runs_as_trans g f f' : runs_as g f -> runs_as f f' -> runs_as g f'.
Proof.
  intros [E1 D1] [E2 D2]. split; [congruence|]. destruct D1 as [->|[? ?] ]; [done|]. destruct D2 as [<-|[? ?] ]; auto.
Qed.
Lemma no_restart_runs f g : DeepEqual (RequiresRestartOnly f) (RequiresRestartOnly g) = true -> runs_as f g.
Proof. unfold DeepEqual. intros [E%bool_decide_eq_true D%SFeqb_eq]%andb_true_iff. split; [exact E|exact D]. Qed.
Lemma runs_as_paused g f : runs_as g f -> fc_Paused g = fc_Paused f /\ fc_ID g = fc_ID f.
Proof. intros [E _]. split; [exact (f_equal fc_Paused E)|exact (f_equal fc_ID E)]. Qed.
Lemma FolderMap_spec cfg id f : FolderMap cfg !! id = Some f -> f ∈ cf_Folders cfg /\ fc_ID f = id.
Proof.
  unfold FolderMap. assert (forall l (m : gmap bytes FolderConfiguration), fold_left (fun m f => <[fc_ID f := f]> m) l m !! id = Some f ->
    (f ∈ l /\ fc_ID f = id) \/ m !! id = Some f) as Hl.
  { induction l as [|g l IH]; intros m Hm; cbn in Hm; [by right|]. apply IH in Hm as [ [Hf ?]|Hm]; [left; split; [by right|done]|].
    apply lookup_insert_Some in Hm as [ [<- <-]|[_ Hm] ]; [left; split; [left|done]|by right]. }
  intros Hm. destruct (Hl _ _ Hm) as [?|Hx]; [done|]. by rewrite lookup_empty in Hx.
Qed.

Section Folders.
Context {R : Type} `{HandlerRegistry R} {O : Type} `{PendingStore O}.
Context `{Crypto} {CF CK : Type} `{Cache CF (bytes * bytes) bytes} `{Cache CK (bytes * bytes) bytes}.
Context (readFails : bytes -> bool).
Context (LWWReconciler_fails GetDeviceSequence_fails : bytes -> bool) (versioner_New : FolderConfiguration -> bool)
  (CreateRoot_fails : FolderConfiguration -> bool) (RemoveMarker_answer : FolderConfiguration -> option bool).
Context (iter : forall A, gmap bytes A -> list (bytes * A)) (changed_elsewhere : bytes -> bool).
Arguments iter {A}.
Hypothesis iter_rows : forall A (m : gmap bytes A), iter m ≡ₚ map_to_list m.
(** The database answers. *)
Hypothesis LWWReconciler_ok : forall f, LWWReconciler_fails f = false.
Hypothesis GetDeviceSequence_ok : forall f, GetDeviceSequence_fails f = false.
Abbreviation folders := (@folders R O CF CK).
Implicit Types s : folders.
Abbreviation start := (addAndStartFolderLocked (R:=R) (O:=O) (CF:=CF) (CK:=CK) readFails LWWReconciler_fails GetDeviceSequence_fails versioner_New CreateRoot_fails).
Abbreviation new := (newFolder (R:=R) (O:=O) (CF:=CF) (CK:=CK) readFails LWWReconciler_fails GetDeviceSequence_fails versioner_New CreateRoot_fails).
Abbreviation restart := (restartFolder (R:=R) (O:=O) (CF:=CF) (CK:=CK) readFails LWWReconciler_fails GetDeviceSequence_fails versioner_New CreateRoot_fails).
Abbreviation remove := (removeFolder (R:=R) (O:=O) (CF:=CF) (CK:=CK) RemoveMarker_answer).

Lemma iter_in {A} (m : gmap bytes A) k v : (k, v) ∈ iter m <-> m !! k = Some v.
Proof. rewrite (iter_rows A m). apply elem_of_map_to_list. Qed.
Lemma iter_NoDup {A} (m : gmap bytes A) : NoDup (map fst (iter m)).
Proof. rewrite (Permutation_map fst (iter_rows A m)). apply NoDup_fst_map_to_list. Qed.

(** ** What runs, and what stays *)

Definition run_at s (id : bytes) : option FolderConfiguration * option FolderConfiguration :=
  (folderCfgs s !! id, services (folderRunners s) !! id).
Definition stopped : option FolderConfiguration * option FolderConfiguration := (None, None).
Definition started_as (f : FolderConfiguration) : option FolderConfiguration * option FolderConfiguration := (Some f, Some f).
(** The connections stay, and nothing that was done is forgotten. *)
Definition frame s s' : Prop :=
  connections (rn_model (base s')) = connections (rn_model (base s)) /\ deviceConnIDs (rn_model (base s')) = deviceConnIDs (rn_model (base s)) /\
  exists es, effects s' = effects s ++ es.
Lemma frame_refl s : frame s s.
Proof. split; [done|]. split; [done|]. exists []. by rewrite app_nil_r. Qed.
Lemma frame_trans s1 s2 s3 : frame s1 s2 -> frame s2 s3 -> frame s1 s3.
Proof.
  intros (E1 & E2 & es & E3) (E1' & E2' & es' & E3'). split; [congruence|]. split; [congruence|]. exists (es ++ es'). by rewrite E3', E3, <- app_assoc.
Qed.
Lemma frame_in s s' e : frame s s' -> e ∈ effects s -> e ∈ effects s'.
Proof. intros (_ & _ & es & ->) He. apply elem_of_app. by left. Qed.
(** Only the entry of one folder changes. *)
Definition changes s s' (id : bytes) (r : option FolderConfiguration * option FolderConfiguration) : Prop :=
  frame s s' /\ run_at s' id = r /\ forall id', id' <> id -> run_at s' id' = run_at s id'.

(** Something that does not matter for what runs. *)
Definition aside (m : SM folders unit unit) : Prop := forall s, exists s', m s = (s', Ret tt) /\ frame s s' /\
  folderCfgs s' = folderCfgs s /\ folderRunners s' = folderRunners s.
Lemma did_aside es : aside (did es).
Proof. intros s. eexists. split; [reflexivity|]. split; [|done]. split; [done|]. split; [done|]. by exists es. Qed.
Lemma nothing_aside : aside (mret tt).
Proof. intros s. eexists. split; [reflexivity|]. split; [apply frame_refl|done]. Qed.
Lemma aside_bind m m' : aside m -> aside m' -> aside (_ ← m; m').
Proof.
  intros H1' H2' s. destruct (H1' s) as (s1 & E1 & F1 & C1 & R1). destruct (H2' s1) as (s2 & E2 & F2 & C2 & R2). exists s2.
  rewrite (sm_bind_Ret _ _ _ _ _ E1). split; [done|]. split; [by eapply frame_trans|]. by rewrite C2, R2.
Qed.
Lemma set_index_aside ix sq : aside (set_index ix sq).
Proof. intros s. eexists. split; [reflexivity|]. split; [|done]. split; [done|]. split; [done|]. exists []. by rewrite app_nil_r. Qed.
Lemma drop_unexpected_aside cfg : aside (drop_unexpected cfg).
Proof.
  intros s. unfold drop_unexpected. rewrite (sm_bind_Ret _ _ s s s eq_refl). cbv zeta. apply aside_bind; [apply set_index_aside|apply did_aside].
Qed.
Lemma set_base_aside f : (forall b : running, connections (rn_model (f b)) = connections (rn_model b) /\ deviceConnIDs (rn_model (f b)) = deviceConnIDs (rn_model b)) ->
  aside (set_base f).
Proof.
  intros Hf s. eexists. split; [reflexivity|]. split; [|done]. destruct (Hf (base s)). split; [done|]. split; [done|]. exists []. by rewrite app_nil_r.
Qed.
Lemma load_token_aside cfg : aside (load_token readFails cfg).
Proof.
  intros s. unfold load_token. destruct (isEncrypted _); [|apply nothing_aside]. rewrite (sm_bind_Ret _ _ s s s eq_refl).
  destruct (readEncryptionToken _ _ _) as [c [ [token|]|e| |] ]; try apply nothing_aside. by apply set_base_aside.
Qed.
Lemma set_folder_spec cs ig vs rs s : exists s', set_folder cs ig vs rs s = (s', Ret tt) /\ frame s s' /\ folderCfgs s' = cs (folderCfgs s) /\
  folderRunners s' = rs (folderRunners s).
Proof. eexists. split; [reflexivity|]. split; [|done]. split; [done|]. split; [done|]. exists []. by rewrite app_nil_r. Qed.
Ltac step E := rewrite (sm_bind_Ret _ _ _ _ _ E).

Lemma start_folder_spec cfg s : services (folderRunners s) !! fc_ID cfg = None ->
  negb (is_nil (vc_Type (fc_Versioning cfg))) && negb (versioner_New cfg) = false ->
  exists s', start cfg s = (s', Ret tt) /\ changes s s' (fc_ID cfg) (started_as cfg).
Proof.
  intros Hrun Hver. unfold addAndStartFolderLocked. rewrite LWWReconciler_ok, GetDeviceSequence_ok, Hver.
  destruct (set_folder_spec (<[fc_ID cfg:=cfg]>) ({[fc_ID cfg]} ∪.) id id s) as (s1 & E1 & F1 & C1 & R1). step E1.
  rewrite (sm_bind_Ret _ _ s1 s1 s1 eq_refl). unfold sm_Get. rewrite R1. cbn [id]. rewrite Hrun.
  destruct (drop_unexpected_aside cfg s1) as (s2 & E2 & F2 & C2 & R2). step E2.
  match goal with |- context [_ ← ?m; _] => assert (aside m) as Hm by (destruct (_ =? 0); [apply did_aside|apply nothing_aside]) end.
  destruct (Hm s2) as (s3 & E3 & F3 & C3 & R3). step E3.
  destruct (load_token_aside cfg s3) as (s4 & E4 & F4 & C4 & R4). step E4.
  match goal with |- context [set_folder id id ?v ?r] => destruct (set_folder_spec id id v r s4) as (s5 & E5 & F5 & C5 & R5) end. step E5.
  exists s5. split; [reflexivity|]. split; [repeat (eapply frame_trans; [eassumption|]); apply frame_refl|].
  unfold run_at. rewrite C5, R5, C4, R4, C3, R3, C2, R2, C1, R1. cbn. split; [by rewrite !lookup_insert_eq|].
  intros id' Hne. by rewrite !lookup_insert_ne.
Qed.

Lemma changes_aside s s1 s2 id r : changes s s1 id r -> frame s1 s2 -> folderCfgs s2 = folderCfgs s1 -> folderRunners s2 = folderRunners s1 ->
  changes s s2 id r.
Proof.
  intros (F1 & E1 & N1) F2 C R2. split; [by eapply frame_trans|]. unfold run_at in *. rewrite C, R2. done.
Qed.
Lemma changes_trans s s1 s2 id r r' : changes s s1 id r -> changes s1 s2 id r' -> changes s s2 id r'.
Proof.
  intros (F1 & E1 & N1) (F2 & E2 & N2). split; [by eapply frame_trans|]. split; [done|]. intros id' Hne. by rewrite N2, N1.
Qed.
Lemma each_handler_aside f : aside (set_base (each_handler f)).
Proof. by apply set_base_aside. Qed.
Lemma cleanup_spec cfg s : exists s', cleanupFolderLocked cfg s = (s', Ret tt) /\ changes s s' (fc_ID cfg) stopped.
Proof.
  unfold cleanupFolderLocked.
  match goal with |- context [set_folder ?c ?i ?v ?r] => destruct (set_folder_spec c i v r s) as (s1 & E1 & F1 & C1 & R1) end. step E1.
  match goal with |- context [set_base ?f] => destruct (set_base_aside f ltac:(done) s1) as (s2 & E2 & F2 & C2 & R2) end. exists s2.
  split; [done|]. eapply (changes_aside s s1); [|done..]. split; [done|]. unfold run_at. rewrite C1, R1. cbn. split; [by rewrite !lookup_delete_eq|].
  intros id' Hne. by rewrite !lookup_delete_ne.
Qed.
Definition versioned (f : FolderConfiguration) : bool := is_nil (vc_Type (fc_Versioning f)) || versioner_New f.
Lemma versioned_ok f : versioned f = true -> negb (is_nil (vc_Type (fc_Versioning f))) && negb (versioner_New f) = false.
Proof. unfold versioned. by destruct (is_nil _), (versioner_New f). Qed.
Lemma new_spec cfg s : services (folderRunners s) !! fc_ID cfg = None -> versioned cfg = true ->
  exists s', new cfg s = (s', Ret tt) /\ changes s s' (fc_ID cfg) (started_as cfg).
Proof.
  intros Hrun Hver. unfold newFolder. destruct (start_folder_spec cfg s Hrun (versioned_ok _ Hver)) as (s1 & E1 & Ch). step E1.
  destruct (each_handler_aside (reg_RegisterFolderState cfg) s1) as (s2 & E2 & F2 & C2 & R2). exists s2. split; [done|]. by eapply changes_aside.
Qed.
Lemma restart_spec from to s : fc_ID to <> [] -> fc_ID to = fc_ID from -> versioned to = true ->
  exists s', restart from to s = (s', Ret tt) /\ changes s s' (fc_ID to) (if fc_Paused to then stopped else started_as to).
Proof.
  intros Hne Hid Hver. unfold restartFolder. replace (is_nil (fc_ID to)) with false by (by destruct (fc_ID to)). rewrite bool_decide_eq_true_2 by done. cbn [negb].
  destruct (did_aside [Stopped (fc_ID from)] s) as (s1 & E1 & F1 & C1 & R1). step E1.
  destruct (cleanup_spec from s1) as (s2 & E2 & Ch). step E2. rewrite <- Hid in Ch.
  assert (changes s s2 (fc_ID to) stopped) as Ch2.
  { destruct Ch as (F2 & Er & N). split; [by eapply frame_trans|]. split; [done|]. intros id' Hn. rewrite N by done. unfold run_at. by rewrite C1, R1. }
  assert (exists s3, (if fc_Paused to then mret tt else start to) s2 = (s3, Ret tt) /\
    changes s s3 (fc_ID to) (if fc_Paused to then stopped else started_as to)) as (s3 & E3 & Ch3).
  { destruct (fc_Paused to); [by exists s2|]. destruct (start_folder_spec to s2) as (s3 & E3 & Ch3); [|by apply versioned_ok|].
    - destruct Ch2 as (_ & Er & _). unfold run_at, stopped in Er. by injection Er.
    - exists s3. split; [done|]. by eapply changes_trans. }
  step E3. destruct (each_handler_aside (reg_RegisterFolderState to) s3) as (s4 & E4 & F4 & C4 & R4). exists s4. split; [done|]. by eapply changes_aside.
Qed.
Lemma remove_folder_done cfg s : exists s', remove cfg s = (s', Ret tt) /\ changes s s' (fc_ID cfg) stopped.
Proof.
  unfold removeFolder. destruct (did_aside [Stopped (fc_ID cfg)] s) as (s1 & E1 & F1 & C1 & R1). step E1.
  rewrite (sm_bind_Ret _ _ s1 s1 s1 eq_refl).
  match goal with |- context [_ ← ?m; _] => assert (aside m) as Hm by (destruct (isPathUnique _ _); [apply did_aside|apply nothing_aside]) end.
  destruct (Hm s1) as (s2 & E2 & F2 & C2 & R2). step E2. destruct (cleanup_spec cfg s2) as (s3 & E3 & F3 & Er & N3). step E3.
  destruct (each_handler_aside (reg_Remove (fc_ID cfg)) s3) as (s4 & E4 & F4 & C4 & R4). step E4.
  destruct (set_index_aside (delete (fc_ID cfg)) (delete (fc_ID cfg)) s4) as (s5 & E5 & F5 & C5 & R5). step E5.
  destruct (did_aside [FolderDropped (fc_ID cfg)] s5) as (s6 & E6 & F6 & C6 & R6). exists s6. split; [done|].
  split; [repeat (eapply frame_trans; [eassumption|]); apply frame_refl|]. unfold run_at in *. rewrite C6, R6, C5, R5, C4, R4. split; [done|].
  intros id' Hne. by rewrite N3, C2, R2, C1, R1.
Qed.

(** ** The loops of a change *)

Section Commit.
Context (cacheIgnoredFiles_changed : bool) (from to : Configuration).
Abbreviation needs := (needs_restart changed_elsewhere cacheIgnoredFiles_changed).
Abbreviation add_all := (add_folders (R:=R) (O:=O) (CF:=CF) (CK:=CK) readFails LWWReconciler_fails GetDeviceSequence_fails versioner_New CreateRoot_fails from).
Abbreviation change_all := (change_folders (R:=R) (O:=O) (CF:=CF) (CK:=CK) readFails LWWReconciler_fails GetDeviceSequence_fails versioner_New CreateRoot_fails
  RemoveMarker_answer changed_elsewhere cacheIgnoredFiles_changed to).

(** A device is told, or its connections are closed. *)
Definition hears (t : told) (d : bytes) : Prop := d ∈ clusterConfigDevices t \/ d ∈ closeDevices t.
Lemma hears_tell ids t d : hears (tell ids t) d <-> d ∈ ids \/ hears t d.
Proof. unfold hears, tell. cbn. rewrite elem_of_union, elem_of_list_to_set. tauto. Qed.
Lemma hears_close ids t d : hears (close_all ids t) d <-> d ∈ ids \/ hears t d.
Proof. unfold hears, close_all. cbn. rewrite elem_of_app. tauto. Qed.

Definition keyed_list (l : list (bytes * FolderConfiguration)) : Prop := NoDup (map fst l) /\ forall id f, (id, f) ∈ l -> fc_ID f = id.
Lemma keyed_cons id f l : keyed_list ((id, f) :: l) -> id ∉ map fst l /\ fc_ID f = id /\ keyed_list l.
Proof.
  intros [Hn Hk]. cbn in Hn. apply list.NoDup_cons in Hn as [Hi Hn]. split; [done|]. split; [apply (Hk id f); left|]. split; [done|]. intros. apply Hk. by right.
Qed.
Lemma add_folders_spec l s t : keyed_list l -> (forall id f, (id, f) ∈ l -> versioned f = true) ->
  (forall id f, (id, f) ∈ l -> FolderMap from !! id = None -> services (folderRunners s) !! id = None) ->
  exists s' t', add_all l t s = (s', Ret t') /\ frame s s' /\
    (forall id f, (id, f) ∈ l -> FolderMap from !! id = None -> fc_Paused f = false -> run_at s' id = started_as f) /\
    (forall id, (forall f, (id, f) ∈ l -> FolderMap from !! id <> None \/ fc_Paused f = true) -> run_at s' id = run_at s id) /\
    (forall d, hears t' d <-> hears t d \/ exists id f, (id, f) ∈ l /\ FolderMap from !! id = None /\ d ∈ DeviceIDs f).
Proof.
  revert s t. induction l as [|[id f] l IH]; intros s t Hk Hv Hrun; cbn [add_folders].
  { exists s, t. split; [done|]. split; [apply frame_refl|]. split; [intros ? ? Hx; by apply not_elem_of_nil in Hx|]. split; [done|].
    intros d. split; [by left|]. intros [?|(id & f & Hx & _)]; [done|by apply not_elem_of_nil in Hx]. }
  apply keyed_cons in Hk as (Hi & Hf & Hk).
  assert (forall g, (id, g) ∈ l -> False) as Hnot by (intros g Hg; apply Hi, list_elem_of_fmap; by exists (id, g)).
  assert (forall id f, (id, f) ∈ l -> versioned f = true) as Hv' by (intros; eapply Hv; by right).
  destruct (FolderMap from !! id) as [f0|] eqn:Ef.
  - destruct (IH s t Hk Hv') as (s' & t' & E & Fr & A1 & A2 & A3); [intros; eapply Hrun; [by right|done]|]. exists s', t'. split; [done|]. split; [done|].
    split; [|split].
    + intros id' g [ [= -> ->]|Hg]%elem_of_cons Hnone Hp; [congruence|by apply A1].
    + intros id' Hall. apply A2. intros g Hg. apply Hall. by right.
    + intros d. rewrite A3. split; (intros [?|(id' & g & Hg & Hnone & Hd)]; [by left|right]); exists id', g; [split; [by right|done]|].
      apply elem_of_cons in Hg as [ [= -> ->]|Hg]; [congruence|done].
  - assert (exists s1, (if fc_Paused f then mret tt else new f) s = (s1, Ret tt) /\ frame s s1 /\
      run_at s1 id = (if fc_Paused f then run_at s id else started_as f) /\ forall id', id' <> id -> run_at s1 id' = run_at s id') as (s1 & E1 & F1 & R1 & N1).
    { destruct (fc_Paused f); [exists s; split; [done|]; split; [apply frame_refl|done]|].
      destruct (new_spec f s) as (s1 & E1 & F1 & R1 & N1); [rewrite Hf; apply (Hrun id f); [left|done]|by apply (Hv id f); left|]. rewrite Hf in *.
      by exists s1. }
    step E1. destruct (IH s1 (tell (DeviceIDs f) t) Hk Hv') as (s' & t' & E & Fr & A1 & A2 & A3).
    { intros id' g Hg Hnone. assert (id' <> id) as Hne by (intros ->; by apply Hnot in Hg). specialize (N1 id' Hne). unfold run_at in N1.
      injection N1 as _ ->. apply (Hrun id' g); [by right|done]. }
    exists s', t'. split; [done|]. split; [by eapply frame_trans|]. split; [|split].
    + intros id' g [ [= -> ->]|Hg]%elem_of_cons Hnone Hp; [|by apply A1]. rewrite A2 by (intros g' Hg'; by apply Hnot in Hg'). by rewrite R1, Hp.
    + intros id' Hall. rewrite A2 by (intros g Hg; apply Hall; by right). destruct (decide (id' = id)) as [->|Hne]; [|by apply N1].
      rewrite R1. destruct (Hall f ltac:(left)) as [?| ->]; [congruence|done].
    + intros d. rewrite A3, hears_tell. split.
      * intros [ [Hd|?]|(id' & g & Hg & Hnone & Hd)]; [right; exists id, f; split; [left|done]|by left|right; exists id', g; split; [by right|done] ].
      * intros [?|(id' & g & [ [= -> ->]|Hg]%elem_of_cons & Hnone & Hd)]; [left; by right|left; by left|right; by exists id', g].
Qed.

(** What should run for a folder. *)
Definition ok_at (f : option FolderConfiguration) (r : option FolderConfiguration * option FolderConfiguration) : Prop :=
  match f with
  | None => r = stopped
  | Some f => if fc_Paused f then r = stopped else exists g, runs_as g f /\ r = started_as g
  end.
Definition folders_ok (cfg : Configuration) s : Prop := forall id, ok_at (FolderMap cfg !! id) (run_at s id).
Lemma ok_started f : fc_Paused f = false -> ok_at (Some f) (started_as f).
Proof. intros Hp. cbn. rewrite Hp. exists f. split; [apply runs_as_refl|done]. Qed.
Definition restarted (f g : FolderConfiguration) : bool := negb (fc_Paused f && fc_Paused g) && needs f g.
(** The devices that a changed folder concerns. *)
Definition concerned (id : bytes) (f : FolderConfiguration) (d : bytes) : Prop :=
  match FolderMap to !! id with
  | None => d ∈ DeviceIDs f
  | Some g => restarted f g = true /\ (d ∈ DeviceIDs f \/ d ∈ DeviceIDs g)
  end.
Abbreviation change_one := (change_folder (R:=R) (O:=O) (CF:=CF) (CK:=CK) readFails LWWReconciler_fails GetDeviceSequence_fails versioner_New CreateRoot_fails
  changed_elsewhere cacheIgnoredFiles_changed).

Lemma change_folder_spec id f g s t : fc_ID f = id -> fc_ID g = id -> id <> [] -> versioned g = true -> ok_at (Some f) (run_at s id) ->
  exists s' t', change_one f g t s = (s', Ret t') /\ frame s s' /\ ok_at (Some g) (run_at s' id) /\
    (forall id', id' <> id -> run_at s' id' = run_at s id') /\
    (forall d, hears t' d <-> hears t d \/ (restarted f g = true /\ (d ∈ DeviceIDs f \/ d ∈ DeviceIDs g))).
Proof.
  intros Hf Hg Hne Hv Hok. unfold change_folder, restarted. destruct (fc_Paused f && fc_Paused g) eqn:Ep.
  { exists s, t. split; [done|]. split; [apply frame_refl|]. apply andb_true_iff in Ep as [Epf Epg]. cbn in Hok |- *. rewrite Epf in Hok. rewrite Epg.
    split; [done|]. split; [done|]. intros d. split; [by left|]. by intros [?|[? _] ]. }
  destruct (needs f g) eqn:En.
  - destruct (restart_spec f g s) as (s1 & E1 & F1 & R1 & N1); [by rewrite Hg|congruence|done|]. step E1. rewrite Hg in *.
    assert (ok_at (Some g) (run_at s1 id)) as Hok1.
    { rewrite R1. destruct (fc_Paused g) eqn:Epg; [cbn; by rewrite Epg|by apply ok_started]. }
    destruct (isEncrypted (fc_Type g)); cbn [negb andb].
    + rewrite (sm_bind_Ret _ _ s1 s1 s1 eq_refl). destruct (folderEncryptionPasswordTokens _ !! _); eexists s1, _; (split; [reflexivity|]);
        do 3 (split; [done|]); intros d; rewrite ?hears_close, !hears_tell; tauto.
    + eexists s1, _. split; [reflexivity|]. do 3 (split; [done|]). intros d. rewrite !hears_tell. tauto.
  - exists s, t. split; [done|]. split; [apply frame_refl|]. split; [|split; [done|] ].
    + unfold needs_restart in En. apply orb_false_iff in En as [En _]. apply orb_false_iff in En as [En%negb_false_iff%no_restart_runs _].
      destruct (runs_as_paused _ _ En) as [Epp _]. rewrite Epp, andb_diag in Ep. cbn in Hok |- *. rewrite Epp, Ep in Hok. rewrite Ep.
      destruct Hok as (h & Hh & E). exists h. split; [by eapply runs_as_trans|done].
    + intros d. cbn. split; [by left|]. by intros [?|[? _] ].
Qed.
Lemma change_folders_spec l s t : keyed_list l -> (forall id g, FolderMap to !! id = Some g -> versioned g = true /\ id <> []) ->
  (forall id f, (id, f) ∈ l -> ok_at (Some f) (run_at s id)) ->
  exists s' t', change_all l t s = (s', Ret t') /\ frame s s' /\
    (forall id f, (id, f) ∈ l -> ok_at (FolderMap to !! id) (run_at s' id)) /\
    (forall id, id ∉ map fst l -> run_at s' id = run_at s id) /\
    (forall d, hears t' d <-> hears t d \/ exists id f, (id, f) ∈ l /\ concerned id f d).
Proof.
  intros Hk Hto. revert s t Hk. induction l as [|[id f] l IH]; intros s t Hk Hok; cbn [change_folders].
  { exists s, t. split; [done|]. split; [apply frame_refl|]. split; [intros ? ? Hx; by apply not_elem_of_nil in Hx|]. split; [done|].
    intros d. split; [by left|]. intros [?|(id & f & Hx & _)]; [done|by apply not_elem_of_nil in Hx]. }
  apply keyed_cons in Hk as (Hi & Hf & Hk).
  assert (exists s1 t1, (match FolderMap to !! id with None => _ ← remove f; mret (tell (DeviceIDs f) t) | Some toCfg => change_one f toCfg t end) s = (s1, Ret t1) /\
    frame s s1 /\ ok_at (FolderMap to !! id) (run_at s1 id) /\ (forall id', id' <> id -> run_at s1 id' = run_at s id') /\
    (forall d, hears t1 d <-> hears t d \/ concerned id f d)) as (s1 & t1 & E1 & F1 & O1 & N1 & T1).
  { unfold concerned. destruct (FolderMap to !! id) as [g|] eqn:Eg.
    - destruct (Hto id g Eg). apply change_folder_spec; try done; [by apply (FolderMap_spec to)|by apply Hok; left].
    - destruct (remove_folder_done f s) as (s1 & E1 & F1 & R1 & N1). rewrite Hf in *. step E1. eexists s1, _. split; [reflexivity|].
      do 3 (split; [done|]). intros d. rewrite hears_tell. tauto. }
  step E1. destruct (IH s1 t1 Hk) as (s' & t' & E & Fr & A1 & A2 & A3).
  { intros id' g Hg. rewrite N1; [by apply Hok; right|]. intros ->. apply Hi, list_elem_of_fmap. by exists (id, g). }
  exists s', t'. split; [done|]. split; [by eapply frame_trans|]. split; [|split].
  - intros id' g [ [= -> ->]|Hg]%elem_of_cons; [by rewrite A2|by eapply A1].
  - intros id' Hn. cbn in Hn. apply not_elem_of_cons in Hn as [Hne Hn]. by rewrite A2, N1.
  - intros d. rewrite A3, T1. split.
    + intros [ [?|?]|(id' & g & Hg & Hc)]; [by left|right; exists id, f; split; [left|done]|right; exists id', g; split; [by right|done] ].
    + intros [?|(id' & g & [ [= -> ->]|Hg]%elem_of_cons & Hc)]; [left; by left|left; by right|right; by exists id', g].
Qed.
Lemma change_devices_spec l s t : exists s' t', change_devices (R:=R) (O:=O) (CF:=CF) (CK:=CK) from l t s = (s', Ret t') /\ frame s s' /\
  folderCfgs s' = folderCfgs s /\ folderRunners s' = folderRunners s /\ (forall d, hears t d -> hears t' d).
Proof.
  revert s t. induction l as [|[id c] l IH]; intros s t; cbn [change_devices].
  { exists s, t. split; [done|]. split; [apply frame_refl|done]. }
  destruct (DeviceMap from !! id) as [fromCfg|]; [|apply IH]. destruct (Bool.eqb _ _); [apply IH|]. cbv zeta. set (t1 := if _ || _ then _ else t).
  assert (forall d, hears t d -> hears t1 d) as Ht1 by (intros d Hd; unfold t1; destruct (_ || _); [apply hears_close; by right|done]).
  match goal with |- context [_ ← ?m; _] => assert (aside m) as Hm end.
  { destruct (_ =? _); [apply nothing_aside|]. apply set_base_aside. intros b. destruct (limiter_same c (rn_model b)) as (E1 & E2 & _). done. }
  destruct (Hm s) as (s1 & E1 & F1 & C1 & R1). step E1. destruct (IH s1 t1) as (s' & t' & E & Fr & C & R2 & Ht). exists s', t'. split; [done|].
  split; [by eapply frame_trans|]. split; [congruence|]. split; [congruence|]. auto.
Qed.
End Commit.

(** ** Connections that are closed, and devices that are told *)

Definition closing_all s0 s (ids : list bytes) : Prop := forall id, id ∈ ids -> exists c, connections (rn_model (base s0)) !! id = Some c /\ Closing c ∈ effects s.
Lemma close_conns_spec ids s : (forall id, id ∈ ids -> is_Some (connections (rn_model (base s)) !! id)) ->
  exists s', close_conns ids s = (s', Ret tt) /\ frame s s' /\ folderCfgs s' = folderCfgs s /\ folderRunners s' = folderRunners s /\ closing_all s s' ids.
Proof.
  revert s. induction ids as [|id ids IH]; intros s Hids; cbn [close_conns].
  { exists s. split; [done|]. split; [apply frame_refl|]. do 2 (split; [done|]). intros id Hx. by apply not_elem_of_nil in Hx. }
  rewrite (sm_bind_Ret _ _ s s s eq_refl). destruct (Hids id ltac:(left)) as [c Hc]. rewrite Hc.
  destruct (did_aside [Closing c] s) as (s1 & E1 & F1 & C1 & R1). pose proof E1 as E1'. injection E1' as Es1. step E1.
  destruct (IH s1) as (s' & E & Fr & C & R2 & Hall); [intros id' Hid'; rewrite (proj1 F1); apply Hids; by right|].
  exists s'. split; [done|]. split; [by eapply frame_trans|]. split; [congruence|]. split; [congruence|]. intros id' [->|Hid']%elem_of_cons.
  - exists c. split; [done|]. apply (frame_in _ _ _ Fr). rewrite <- Es1. cbn. apply elem_of_app. right. left.
  - destruct (Hall id' Hid') as (c' & Hc' & He). exists c'. by rewrite (proj1 F1) in Hc'.
Qed.
Lemma close_devices_spec devs s : ids_ok (rn_model (base s)) ->
  exists s', for_each close_device devs s = (s', Ret tt) /\ frame s s' /\ folderCfgs s' = folderCfgs s /\ folderRunners s' = folderRunners s /\
    forall d ids, d ∈ devs -> deviceConnIDs (rn_model (base s)) !! d = Some ids -> closing_all s s' ids.
Proof.
  intros Hm. assert (forall d ids, deviceConnIDs (rn_model (base s)) !! d = Some ids -> forall id, id ∈ ids -> is_Some (connections (rn_model (base s)) !! id)) as Hids.
  { intros d ids Hd id Hid. destruct (Hm d ids Hd) as (_ & _ & Hc). rewrite (Hc id Hid). by eexists. }
  clear Hm. revert s Hids. induction devs as [|d devs IH]; intros s Hids; cbn [for_each].
  { exists s. split; [done|]. split; [apply frame_refl|]. do 2 (split; [done|]). intros d ids Hx. by apply not_elem_of_nil in Hx. }
  assert (exists s1, close_device d s = (s1, Ret tt) /\ frame s s1 /\ folderCfgs s1 = folderCfgs s /\ folderRunners s1 = folderRunners s /\
    forall ids, deviceConnIDs (rn_model (base s)) !! d = Some ids -> closing_all s s1 ids) as (s1 & E1 & F1 & C1 & R1 & Hd).
  { unfold close_device. rewrite (sm_bind_Ret _ _ s s s eq_refl). destruct (deviceConnIDs _ !! d) as [ids|] eqn:E.
    - destruct (close_conns_spec ids s (Hids d ids E)) as (s1 & E1 & F1 & C1 & R1 & Hall). exists s1. do 4 (split; [done|]). by intros ids' [= <-].
    - exists s. split; [done|]. split; [apply frame_refl|done]. }
  step E1. pose proof F1 as (Fc & Fi & _). destruct (IH s1) as (s' & E & Fr & C & R2 & Hall); [rewrite Fc, Fi; exact Hids|]. exists s'. split; [done|].
  split; [by eapply frame_trans|]. split; [congruence|]. split; [congruence|]. intros d' ids [->|Hd']%elem_of_cons Hi id Hid.
  - destruct (Hd ids Hi id Hid) as (c & Hc & He). exists c. split; [done|]. by eapply frame_in.
  - rewrite Fi in Hall. destruct (Hall d' ids Hd' Hi id Hid) as (c & Hc & He). rewrite Fc in Hc. by exists c.
Qed.
Lemma send_spec ids s : ids_ok (rn_model (base s)) ->
  exists s', send_cluster_configs ids s = (s', Ret tt) /\ frame s s' /\ folderCfgs s' = folderCfgs s /\ folderRunners s' = folderRunners s /\
    forall d cids, d ∈ ids -> deviceConnIDs (rn_model (base s)) !! d = Some cids ->
      exists c, head cids = Some (ConnectionID c) /\ DeviceID c = d /\ connections (rn_model (base s)) !! ConnectionID c = Some c /\ Announced c ∈ effects s'.
Proof.
  intros Hm. unfold send_cluster_configs. rewrite (sm_bind_Ret _ _ s s s eq_refl).
  destruct (sendClusterConfig_ok (elements ids) (rn_model (base s)) Hm) as (cs & -> & Ec & Hf).
  destruct (did_aside (map Announced cs) s) as (s1 & E1 & F1 & C1 & R1). exists s1. do 4 (split; [done|]). intros d cids Hd Hi.
  assert (d ∈ map DeviceID cs) as Hin.
  { rewrite Ec. apply list_elem_of_filter. split; [apply elem_of_dom; by eexists|]. by apply elem_of_elements. }
  apply list_elem_of_fmap in Hin as (c & -> & Hc). rewrite Forall_forall in Hf. destruct (Hf c) as [Hcc [l Hl] ]; [by apply list_elem_of_In|].
  rewrite Hl in Hi. injection Hi as <-. exists c. do 3 (split; [done|]). injection E1 as <-. cbn. apply elem_of_app. right.
  apply list_elem_of_fmap. by exists c.
Qed.

(** *** Pending folders and devices do not matter for what runs *)

Definition returns {A} (r : outcome Observed.kv_err A) : Prop := match r with Ret _ | Err _ => True | _ => False end.
Record store_runs : Prop := {
  sr_remove : forall id o, returns (ps_Remove id o).2;
  sr_remove_for : forall id d o, length d = 32%nat -> returns (ps_RemoveForDevice id d o).2;
  sr_list : forall o, returns (ps_ForDevice DeviceID.EmptyDeviceID o).2 /\ forall o' p e, ps_ForDevice DeviceID.EmptyDeviceID o = (o', Ret (p, e)) ->
    forall f m d, p !! f = Some m -> is_Some (m !! d) -> length d = 32%nat;
  sr_devices : forall o, returns (ps_Devices o).2 /\ forall o' p e, ps_Devices o = (o', Ret (p, e)) -> forall d, is_Some (p !! d) -> length d = 32%nat;
  sr_remove_device : forall d o, length d = 32%nat -> returns (ps_RemoveDevice d o).2 }.
Lemma on_observed_spec {A} (m : SM O Observed.kv_err A) s : returns (m (rn_observed (base s))).2 ->
  exists s' r, on_observed m s = (s', Ret r) /\ frame s s' /\ folderCfgs s' = folderCfgs s /\ folderRunners s' = folderRunners s /\
    match r with Some a => (m (rn_observed (base s))).2 = Ret a | None => True end.
Proof.
  unfold on_observed. destruct (m _) as [o r]. cbn. destruct r as [a|e| |]; try done; intros _; eexists _, _; (split; [reflexivity|]);
    (split; [split; [done|]; split; [done|]; exists []; by rewrite app_nil_r|done]).
Qed.
Lemma on_observed_aside {A} (m : SM O Observed.kv_err A) : (forall o, returns (m o).2) -> aside (_ ← on_observed m; mret tt).
Proof.
  intros Hm s. destruct (on_observed_spec m s (Hm _)) as (s' & r & E & F1 & C1 & R1 & _). step E. exists s'. done.
Qed.
Lemma for_each_aside {A} (f : A -> SM folders unit unit) l : (forall x, x ∈ l -> aside (f x)) -> aside (for_each f l).
Proof.
  induction l as [|x l IH]; intros Hl; cbn [for_each]; [apply nothing_aside|]. apply aside_bind; [apply Hl; left|]. apply IH. intros y Hy. apply Hl. by right.
Qed.
Lemma clean_aside devs fs ignored removed : store_runs -> aside (cleanPending (@iter) devs fs ignored removed).
Proof.
  intros Hs s. unfold cleanPending. destruct (sr_list Hs (rn_observed (base s))) as [Hr Hl].
  destruct (on_observed_spec (ps_ForDevice DeviceID.EmptyDeviceID) s Hr) as (s1 & r1 & E1 & F1 & C1 & R1 & Hr1). step E1.
  match goal with |- context [_ ← ?m; _] => assert (aside m) as Hm end.
  { apply for_each_aside. intros [f m] Hin. unfold clean_folder. case_bool_decide; [by apply on_observed_aside, Hs|]. apply for_each_aside. intros [d v] Hd.
    destruct (discard_pending _ _ _ _); [|apply nothing_aside]. apply on_observed_aside. intros o. apply (sr_remove_for Hs). cbn.
    destruct r1 as [ [p e]|]; [|by apply not_elem_of_nil in Hin]. cbn [fst] in Hin. apply iter_in in Hin. apply iter_in in Hd.
    destruct (ps_ForDevice _ _) as [o' r] eqn:Eo. cbn in Hr1. subst r. eapply (Hl o' p e eq_refl); [done|by eexists]. }
  destruct (Hm s1) as (s2 & E2 & F2 & C2 & R2). step E2. destruct (sr_devices Hs (rn_observed (base s2))) as [Hrd Hld].
  destruct (on_observed_spec ps_Devices s2 Hrd) as (s3 & r3 & E3 & F3 & C3 & R3 & Hr3). step E3.
  match goal with |- context [?m s3] => assert (aside m) as Hm3 end.
  { destruct r3 as [ [p [|] ]|]; try apply nothing_aside. apply for_each_aside. intros [d v] Hin. unfold clean_device. cbn [fst].
    destruct (_ || _); [|apply nothing_aside]. apply on_observed_aside. intros o. apply (sr_remove_device Hs). apply iter_in in Hin.
    destruct (ps_Devices _) as [o' r] eqn:Eo. cbn in Hr3. subst r. eapply (Hld o' p false eq_refl). by eexists. }
  destruct (Hm3 s3) as (s4 & E4 & F4 & C4 & R4). exists s4. split; [done|]. split; [repeat (eapply frame_trans; [eassumption|]); apply frame_refl|].
  split; congruence.
Qed.

(** ** The change of the configuration *)

Abbreviation Commit cache_changed from to := (CommitConfiguration (R:=R) (O:=O) (CF:=CF) (CK:=CK) readFails LWWReconciler_fails GetDeviceSequence_fails
  versioner_New CreateRoot_fails RemoveMarker_answer (@iter) changed_elsewhere cache_changed from to).
Lemma verified_versioned from to id g : VerifyConfiguration versioner_New from to = None -> FolderMap to !! id = Some g -> versioned g = true.
Proof.
  unfold VerifyConfiguration. intros Hv Hg. destruct (existsb _ _); [done|]. destruct (List.find _ _) eqn:E; [done|].
  apply FolderMap_spec in Hg as [Hg _]. pose proof (find_none _ _ E g (proj1 (list_elem_of_In _ _) Hg)) as Hn. cbn in Hn. unfold versioned.
  by destruct (is_nil _), (versioner_New g).
Qed.
Lemma FolderMap_keyed cfg : keyed_list (iter (FolderMap cfg)).
Proof. split; [apply iter_NoDup|]. intros id f Hf%iter_in. by apply (FolderMap_spec cfg). Qed.
(** A device is reached: it gets a new cluster configuration on its primary
    connection, or all its connections are closed. *)
Definition reached s s' (d : bytes) : Prop := forall cids, deviceConnIDs (rn_model (base s)) !! d = Some cids ->
  (exists c, head cids = Some (ConnectionID c) /\ DeviceID c = d /\ connections (rn_model (base s)) !! ConnectionID c = Some c /\ Announced c ∈ effects s') \/
  closing_all s s' cids.
Definition added_for from to (d : bytes) : Prop := exists id f, FolderMap to !! id = Some f /\ FolderMap from !! id = None /\ d ∈ DeviceIDs f.
Definition changed_for cache_changed from to (d : bytes) : Prop := exists id f, FolderMap from !! id = Some f /\ concerned cache_changed to id f d.

Lemma folders_changed cache_changed from to s : folders_ok from s -> VerifyConfiguration versioner_New from to = None ->
  (forall id f, FolderMap to !! id = Some f -> id <> []) ->
  exists s1 t1 s2 t2,
    add_folders (R:=R) (O:=O) (CF:=CF) (CK:=CK) readFails LWWReconciler_fails GetDeviceSequence_fails versioner_New CreateRoot_fails from
      (iter (FolderMap to)) {| clusterConfigDevices := ∅; closeDevices := [] |} s = (s1, Ret t1) /\
    change_folders (R:=R) (O:=O) (CF:=CF) (CK:=CK) readFails LWWReconciler_fails GetDeviceSequence_fails versioner_New CreateRoot_fails
      RemoveMarker_answer changed_elsewhere cache_changed to (iter (FolderMap from)) t1 s1 = (s2, Ret t2) /\
    frame s s2 /\ folders_ok to s2 /\ forall d, added_for from to d \/ changed_for cache_changed from to d -> hears t2 d.
Proof.
  intros Hok Hv Hne.
  destruct (add_folders_spec from (iter (FolderMap to)) s {| clusterConfigDevices := ∅; closeDevices := [] |} (FolderMap_keyed to)) as (s1 & t1 & E1 & F1 & A1 & A2 & A3).
  { intros id f Hf%iter_in. by eapply verified_versioned. }
  { intros id f Hf Hnone. specialize (Hok id). rewrite Hnone in Hok. cbn in Hok. unfold run_at, stopped in Hok. by injection Hok. }
  destruct (change_folders_spec cache_changed to (iter (FolderMap from)) s1 t1 (FolderMap_keyed from)) as (s2 & t2 & E2 & F2 & B1 & B2 & B3).
  { intros id g Hg. split; [by eapply verified_versioned|by eapply Hne]. }
  { intros id f Hf%iter_in. rewrite A2; [|intros g _; left; by rewrite Hf]. specialize (Hok id). by rewrite Hf in Hok. }
  exists s1, t1, s2, t2. do 2 (split; [done|]). split; [by eapply frame_trans|]. split.
  - intros id. destruct (FolderMap from !! id) as [f|] eqn:Ef; [by eapply B1, iter_in|].
    rewrite B2 by (intros ([k v] & -> & Hk%iter_in)%list_elem_of_fmap; cbn [fst] in Ef; congruence). specialize (Hok id). rewrite Ef in Hok. cbn in Hok.
    destruct (FolderMap to !! id) as [g|] eqn:Eg.
    + destruct (fc_Paused g) eqn:Ep.
      * rewrite A2; [cbn; by rewrite Ep|]. intros g' Hg'%iter_in. right. congruence.
      * rewrite (A1 id g); [by apply ok_started|by apply iter_in|done|done].
    + rewrite A2; [done|]. intros g' Hg'%iter_in. congruence.
  - intros d Hd. rewrite B3, A3. destruct Hd as [(id & f & Ht & Hf & Hin)|(id & f & Hf & Hc)].
    + left. right. exists id, f. split; [by apply iter_in|done].
    + right. exists id, f. split; [by apply iter_in|done].
Qed.

(** C17: when the configuration is changed, the change was verified and no folder has an empty ID, and the two calls of the database that
    [addAndStartFolderLocked] makes for a folder (switching the reconciler, its own sequence) succeed - when one fails, the code panics -
    [CommitConfiguration] comes to an end without a panic: no folder is started twice, no versioner is missing and no connection is nil.  Then, if it
    was so for the old configuration, exactly the folders of the new configuration that are not paused run, each with the settings of the new
    configuration up to its label; the connections are those that were there; and every connected device of a folder that was added, removed or
    restarted, for what it was shared before and what it is now, is reached: it gets a new cluster configuration on its primary connection, or all
    its connections are closed.  A folder is restarted if a setting other than its label changed, unless it was paused before and still is:
    then nobody is told of the change by this. *)
Theorem configuration_committed cache_changed from to ignored options_differ s (Hok : folders_ok from s) (Hm : conns_ok (rn_model (base s)))
    (Hv : VerifyConfiguration versioner_New from to = None) (Hne : forall id f, FolderMap to !! id = Some f -> id <> []) (Hs : store_runs) :
  exists s', Commit cache_changed from to ignored options_differ s = (s', Ret (negb options_differ)) /\ folders_ok to s' /\
    connections (rn_model (base s')) = connections (rn_model (base s)) /\ deviceConnIDs (rn_model (base s')) = deviceConnIDs (rn_model (base s)) /\
    forall d, added_for from to d \/ changed_for cache_changed from to d -> reached s s' d.
Proof.
  destruct (folders_changed cache_changed from to s Hok Hv Hne) as (s1 & t1 & s2 & t2 & E1 & E2 & F2 & Hto & Hh).
  unfold CommitConfiguration. step E1. step E2. destruct (change_devices_spec from (iter (DeviceMap to)) s2 t2) as (s3 & t3 & E3 & F3 & C3 & R3 & Ht3). step E3.
  cbv zeta. set (removed := map fst _). assert (frame s s3) as F03 by (by eapply frame_trans).
  assert (forall s', frame s s' -> ids_ok (rn_model (base s'))) as Hids by (intros s' (Ec & Ei & _); unfold ids_ok; rewrite Ec, Ei; exact (ok_ids _ Hm)).
  destruct (close_devices_spec (closeDevices t3) s3 (Hids _ F03)) as (s4 & E4 & F4 & C4 & R4 & K4). step E4. assert (frame s s4) as F04 by (by eapply frame_trans).
  destruct (close_devices_spec removed s4 (Hids _ F04)) as (s5 & E5 & F5 & C5 & R5 & K5). step E5. assert (frame s s5) as F05 by (by eapply frame_trans).
  destruct (send_spec (clusterConfigDevices t3 ∖ list_to_set (closeDevices t3) ∖ list_to_set removed) s5 (Hids _ F05)) as (s6 & E6 & F6 & C6 & R6 & K6).
  step E6. match goal with |- context [cleanPending _ ?d ?f ?i ?r] => destruct (clean_aside d f i r Hs s6) as (s7 & E7 & F7 & C7 & R7) end. step E7.
  assert (frame s6 s7 /\ frame s5 s7 /\ frame s4 s7) as (G6 & G5 & G4).
  { split; [done|]. split; [by eapply frame_trans|]. eapply frame_trans; [exact F5|]. by eapply frame_trans. }
  assert (frame s s7) as G by (by eapply frame_trans). exists s7. split; [done|]. split; [|split; [apply G|split; [apply G|] ] ].
  - intros id. specialize (Hto id). unfold run_at in *. by rewrite C7, R7, C6, R6, C5, R5, C4, R4, C3, R3.
  - intros d Hd cids Hc. destruct F03 as (Fc3 & Fi3 & _), F04 as (Fc4 & Fi4 & _), F05 as (Fc5 & Fi5 & _).
    assert (d ∈ closeDevices t3 -> closing_all s s7 cids) as Hclose.
    { intros Hin id Hid. rewrite <- Fi3 in Hc. destruct (K4 d cids Hin Hc id Hid) as (c & Hcc & He). rewrite Fc3 in Hcc. exists c. split; [done|].
      exact (frame_in _ _ _ G4 He). }
    assert (d ∈ removed -> closing_all s s7 cids) as Hremoved.
    { intros Hin id Hid. rewrite <- Fi4 in Hc. destruct (K5 d cids Hin Hc id Hid) as (c & Hcc & He). rewrite Fc4 in Hcc. exists c. split; [done|].
      exact (frame_in _ _ _ G5 He). }
    destruct (decide (d ∈ closeDevices t3)) as [?|Hn1]; [right; auto|]. destruct (decide (d ∈ removed)) as [?|Hn2]; [right; auto|]. left.
    destruct (Ht3 d (Hh d Hd)) as [Hin|?]; [|done]. rewrite <- Fi5 in Hc. destruct (K6 d cids) as (c & K1 & K2 & K3 & K); [|done|].
    + rewrite !elem_of_difference, !elem_of_list_to_set. done.
    + rewrite Fc5 in K3. exists c. do 3 (split; [done|]). exact (frame_in _ _ _ G6 K).
Qed.

(** ** The start *)

Lemma init_spec l s : NoDup (map fc_ID l) -> (forall f, f ∈ l -> versioned f = true /\ services (folderRunners s) !! fc_ID f = None) ->
  exists s', for_each (fun folderCfg => if fc_Paused folderCfg then did (if CreateRoot_fails folderCfg then [] else [RootCreated folderCfg]) else new folderCfg) l s =
      (s', Ret tt) /\ frame s s' /\ (forall f, f ∈ l -> fc_Paused f = false -> run_at s' (fc_ID f) = started_as f) /\
    forall id, (forall f, f ∈ l -> fc_ID f = id -> fc_Paused f = true) -> run_at s' id = run_at s id.
Proof.
  revert s. induction l as [|f l IH]; intros s Hn Hl; cbn [for_each].
  { exists s. split; [done|]. split; [apply frame_refl|]. split; [intros f Hx; by apply not_elem_of_nil in Hx|done]. }
  apply list.NoDup_cons in Hn as [Hf Hn]. destruct (Hl f ltac:(left)) as [Hv Hr].
  assert (exists s1, (if fc_Paused f then did (if CreateRoot_fails f then [] else [RootCreated f]) else new f) s = (s1, Ret tt) /\ frame s s1 /\
    run_at s1 (fc_ID f) = (if fc_Paused f then run_at s (fc_ID f) else started_as f) /\ forall id, id <> fc_ID f -> run_at s1 id = run_at s id)
    as (s1 & E1 & F1 & R1 & N1).
  { destruct (fc_Paused f).
    - match goal with |- context [did ?es] => destruct (did_aside es s) as (s1 & E1 & F1 & C1 & R1) end. exists s1. split; [done|]. split; [done|].
      unfold run_at. by rewrite C1, R1.
    - destruct (new_spec f s Hr Hv) as (s1 & E1 & F1 & R1 & N1). by exists s1. }
  step E1. assert (forall g, g ∈ l -> fc_ID g <> fc_ID f) as Hne by (intros g Hg E; apply Hf; rewrite <- E; by apply list_elem_of_fmap_2).
  destruct (IH s1 Hn) as (s' & E & Fr & A1 & A2).
  { intros g Hg. destruct (Hl g ltac:(by right)) as [? Hrg]. split; [done|]. specialize (N1 _ (Hne g Hg)). unfold run_at in N1. injection N1 as _ N1. congruence. }
  exists s'. split; [done|]. split; [by eapply frame_trans|]. split.
  - intros g [->|Hg]%elem_of_cons Hp; [|by apply A1]. rewrite A2; [by rewrite R1, Hp|]. intros h Hh E'. by apply Hne in Hh.
  - intros id Hid. rewrite A2 by (intros g Hg; apply Hid; by right). destruct (decide (id = fc_ID f)) as [->|?]; [|by apply N1].
    rewrite R1. by rewrite (Hid f ltac:(left) eq_refl).
Qed.
(** When the program starts, exactly the folders run that are not paused. *)
Theorem folders_initialised cfg ignored s : NoDup (map fc_ID (cf_Folders cfg)) -> (forall f, f ∈ cf_Folders cfg -> versioned f = true) ->
  (forall id, run_at s id = stopped) -> ids_ok (rn_model (base s)) -> store_runs ->
  exists s', initFolders (R:=R) (O:=O) (CF:=CF) (CK:=CK) readFails LWWReconciler_fails GetDeviceSequence_fails versioner_New CreateRoot_fails (@iter) ignored cfg s =
    (s', Ret tt) /\ folders_ok cfg s'.
Proof.
  intros Hn Hv Hst Hm Hs. unfold initFolders. destruct (init_spec (cf_Folders cfg) s Hn) as (s1 & E1 & F1 & A1 & A2).
  { intros f Hf. split; [by apply Hv|]. specialize (Hst (fc_ID f)). unfold run_at, stopped in Hst. by injection Hst. }
  step E1. match goal with |- context [cleanPending _ ?d ?f ?i ?r] => destruct (clean_aside d f i r Hs s1) as (s2 & E2 & F2 & C2 & R2) end. step E2.
  match goal with |- context [send_cluster_configs ?ids s2] => destruct (send_spec ids s2) as (s3 & E3 & F3 & C3 & R3 & _) end.
  { assert (frame s s2) as (Ec & Ei & _) by (by eapply frame_trans). unfold ids_ok. by rewrite Ec, Ei. }
  exists s3. split; [done|]. intros id. unfold run_at. rewrite C3, R3, C2, R2. change (ok_at (FolderMap cfg !! id) (run_at s1 id)).
  destruct (FolderMap cfg !! id) as [f|] eqn:E.
  - apply FolderMap_spec in E as Hf. destruct Hf as [Hf <-]. destruct (fc_Paused f) eqn:Ep.
    + rewrite A2; [rewrite Hst; cbn; by rewrite Ep|]. intros g Hg Eg. unfold FolderMap in E.
      assert (fold_left (fun m f => <[fc_ID f := f]> m) (cf_Folders cfg) ∅ !! fc_ID f = Some g) as Eg' by (apply (cfg_fold_insert_lookup fc_ID); [done|by left]).
      congruence.
    + rewrite (A1 f Hf Ep). by apply ok_started.
  - rewrite A2; [by rewrite Hst|]. intros g Hg Eg. unfold FolderMap in E.
    assert (fold_left (fun m f => <[fc_ID f := f]> m) (cf_Folders cfg) ∅ !! id = Some g) as Eg' by (apply (cfg_fold_insert_lookup fc_ID); [done|by left]).
    congruence.
Qed.
End Folders.

(** ** The implemented store of pending folders answers *)

Lemma unluhnify_returns n s : match unluhnify_loop n s with Ret _ | Err _ => True | _ => False end.
Proof.
  revert s. induction n as [|n IH]; intros s; cbn; [done|]. destruct (luhn32_result (take 13 s)) as [ [c ->]| ->]; [|done]. cbn.
  destruct (negb _); [done|]. specialize (IH (drop 14 s)). by destruct (unluhnify_loop n (drop 14 s)).
Qed.
Lemma DeviceIDFromString_returns ToUpper s : match DeviceIDFromString ToUpper s with Ret d => length d = 32%nat | Err _ => True | _ => False end.
Proof.
  assert (forall id, match unmarshalOld EmptyDeviceID id with Ret d => length d = 32%nat | Err _ => True | _ => False end) as Ho.
  { intros id. unfold unmarshalOld. destruct (b32_decode _) as [dec|]; [|done]. unfold copy_into. rewrite length_app, length_take, length_drop.
    change (length EmptyDeviceID) with 32%nat. lia. }
  unfold DeviceIDFromString, UnmarshalText. destruct (_ =? 0); [done|]. destruct (_ =? 56).
  - unfold unluhnify. destruct (negb _); [done|]. pose proof (unluhnify_returns 4 (unchunkify (untypeoify (ToUpper (trim pad s))))) as Hu.
    destruct (unluhnify_loop _ _); try done. apply Ho.
  - destruct (_ =? 52); [apply Ho|done].
Qed.

Section Store.
Context (fails : Observed.kv_call -> bool) (scan : gmap bytes bytes -> list (bytes * bytes)) (interrupted : bytes -> option nat).
Context {TS wireFolder wireDevice : Type} (timestamp : Z -> TS) (AsTime : TS -> Z).
Context (buildFolder : TS -> bytes -> bool -> bool -> wireFolder) (GetTime : wireFolder -> TS) (GetLabel : wireFolder -> bytes)
  (GetReceiveEncrypted GetRemoteEncrypted : wireFolder -> bool) (MarshalFolder : wireFolder -> option bytes)
  (UnmarshalFolder : bytes -> option wireFolder) (ToUpper : bytes -> bytes) (HU : DeviceID.upper_law ToUpper).
Context (device_GetTime : wireDevice -> TS) (GetName GetAddress : wireDevice -> bytes) (UnmarshalDevice : bytes -> option wireDevice).
Abbreviation store := (Observed_store fails scan interrupted timestamp AsTime buildFolder GetTime GetLabel GetReceiveEncrypted GetRemoteEncrypted
  MarshalFolder UnmarshalFolder ToUpper device_GetTime GetName GetAddress UnmarshalDevice).

Lemma DeleteKV_returns k t : returns (Observed.DeleteKV fails k t).2.
Proof. unfold Observed.DeleteKV. by destruct (fails _). Qed.
Lemma bind_returns {A B : Type} (m : SM (gmap bytes bytes) Observed.kv_err A) (k : A -> SM (gmap bytes bytes) Observed.kv_err B) t :
  returns (m t).2 -> (forall a t', (m t).2 = Ret a -> returns (k a t').2) -> returns (mbind k m t).2.
Proof.
  intros Hm Hk. unfold mbind, sm_bind. destruct (m t) as [t' r]. cbn in *. destruct r; try done. by apply Hk.
Qed.
Lemma device_key_returns d t : length d = 32%nat -> returns (Observed.device_key d t).2.
Proof. intros Hd. unfold Observed.device_key, Observed.device_text, mbind, sm_bind. by destruct (ObservedProps.devtext_spec _ HU d Hd) as (-> & _). Qed.
Lemma folder_key_returns f d t : length d = 32%nat -> returns (Observed.folder_key f d t).2.
Proof. intros Hd. unfold Observed.folder_key, Observed.device_text, mbind, sm_bind. by destruct (ObservedProps.devtext_spec _ HU d Hd) as (-> & _). Qed.
Lemma PrefixKV_returns p t : p <> [] -> returns (Observed.PrefixKV scan interrupted p t).2.
Proof. intros Hp. unfold Observed.PrefixKV, Observed.prefixEnd. destruct p as [|b p]; [done|]. cbn [is_nil]. by destruct (interrupted (b :: p)). Qed.
Lemma remove_folder_returns id rows t : returns (Observed.remove_folder fails id rows t).2.
Proof.
  revert t. induction rows as [|[k v] rows IH]; intros t; cbn [Observed.remove_folder]; [done|].
  destruct (split _ k) as [|x [|y [|z [|? ?] ] ] ]; try apply IH. case_bool_decide; [|apply IH]. apply bind_returns; [apply DeleteKV_returns|]. intros _ t' _. apply IH.
Qed.
Definition devices_long (p : gmap bytes (gmap bytes PendingFolder)) : Prop := forall f m d, p !! f = Some m -> is_Some (m !! d) -> length d = 32%nat.
Abbreviation listed := (Observed.pending_folders fails AsTime GetTime GetLabel GetReceiveEncrypted GetRemoteEncrypted UnmarshalFolder ToUpper).
Definition answered {A} (P : A -> Prop) (r : outcome Observed.kv_err A) : Prop := returns r /\ forall a, r = Ret a -> P a.
Lemma answered_bind {A B : Type} (P : A -> Prop) (Q : B -> Prop) (m : SM (gmap bytes bytes) Observed.kv_err A) (k : A -> SM (gmap bytes bytes) Observed.kv_err B) t :
  answered P (m t).2 -> (forall a t', P a -> answered Q (k a t').2) -> answered Q (mbind k m t).2.
Proof.
  intros [Hm HP] Hk. unfold mbind, sm_bind. destruct (m t) as [t' r]. cbn in *. destruct r; try done. apply Hk. by apply HP.
Qed.
Lemma answered_delete k t : answered (fun _ => True) (Observed.DeleteKV fails k t).2.
Proof. split; [apply DeleteKV_returns|done]. Qed.
Lemma pending_folders_answered rows res t : devices_long res -> answered devices_long (listed rows res t).2.
Proof.
  revert res t. induction rows as [|[k v] rows IH]; intros res t Hres; cbn [Observed.pending_folders]; [by split; [|intros ? [= <-]]|].
  destruct (split _ k) as [|x [|y [|z [|? ?] ] ] ]; try by apply IH.
  assert (answered devices_long ((_ ← Observed.DeleteKV fails k; listed rows res) t).2) as Hdel.
  { eapply answered_bind; [apply answered_delete|]. intros _ t' _. by apply IH. }
  pose proof (DeviceIDFromString_returns ToUpper y) as Hd. destruct (DeviceIDFromString ToUpper y) as [d|e| |]; try done.
  destruct (is_nil z); [done|]. destruct (UnmarshalFolder v) as [w|]; [|done]. apply IH. intros f m d' Hf Hm.
  apply lookup_insert_Some in Hf as [ [<- <-]|[_ Hf] ]; [|by eapply Hres]. destruct (decide (d' = d)) as [->|Hne]; [done|]. rewrite lookup_insert_ne in Hm by done.
  destruct (res !! z) as [m0|] eqn:Ez; cbn in Hm; [by eapply Hres|]. rewrite lookup_empty in Hm. by destruct Hm.
Qed.
Lemma pending_devices_answered rows res t : (forall d, is_Some (res !! d) -> length d = 32%nat) ->
  answered (fun p => forall d, is_Some (p !! d) -> length d = 32%nat)
    (Observed.pending_devices fails AsTime device_GetTime GetName GetAddress UnmarshalDevice ToUpper rows res t).2.
Proof.
  revert res t. induction rows as [|[k v] rows IH]; intros res t Hres; cbn [Observed.pending_devices]; [by split; [|intros ? [= <-]]|].
  match goal with |- context [_ ← ?m; ?r] => assert (answered (fun p => forall d, is_Some (p !! d) -> length d = 32%nat) ((_ ← m; r) t).2) as Hdel end.
  { eapply answered_bind; [apply answered_delete|]. intros _ t' _. by apply IH. }
  destruct (cut _ k) as [ [x y]|]; [|done]. pose proof (DeviceIDFromString_returns ToUpper y) as Hd.
  destruct (DeviceIDFromString ToUpper y) as [d|e| |]; try done. destruct (UnmarshalDevice v) as [w|]; [|done]. apply IH. intros d' Hm.
  destruct (decide (d' = d)) as [->|Hne]; [done|]. rewrite lookup_insert_ne in Hm by done. by apply Hres.
Qed.
Lemma list_answered t : answered (fun p => devices_long p.1) (ps_ForDevice (PendingStore := store) DeviceID.EmptyDeviceID t).2.
Proof.
  cbn. unfold Observed.PendingFoldersForDevice, Observed.device_text. eapply (answered_bind (fun _ => True)); [by split|]. intros s t1 _.
  rewrite bool_decide_eq_true_2 by done. eapply (answered_bind (fun _ => True)); [split; [by apply PrefixKV_returns|done] |]. intros r t2 _.
  eapply answered_bind; [by apply pending_folders_answered; intros f m d Hf; rewrite lookup_empty in Hf|]. intros res t3 Hres. split; [done|]. by intros a [= <-].
Qed.
Lemma devices_answered t : answered (fun p => forall d, is_Some (p.1 !! d) -> length d = 32%nat) (ps_Devices (PendingStore := store) t).2.
Proof.
  cbn. unfold Observed.PendingDevices. eapply (answered_bind (fun _ => True)); [split; [by apply PrefixKV_returns|done] |]. intros r t2 _.
  eapply answered_bind; [apply pending_devices_answered; intros d [x Hx]; by rewrite lookup_empty in Hx|]. intros res t3 Hres. split; [done|]. by intros a [= <-].
Qed.
Lemma observed_store_runs : store_runs (O := gmap bytes bytes) (H0 := store).
Proof.
  constructor.
  - intros id o. cbn. unfold Observed.RemovePendingFolder. apply bind_returns; [by apply PrefixKV_returns|]. intros [rows err] t _.
    apply bind_returns; [apply remove_folder_returns|]. intros _ t' _. by destruct err.
  - intros id d o Hd. apply bind_returns; [by apply folder_key_returns|]. intros k t' _. apply DeleteKV_returns.
  - intros o. destruct (list_answered o) as [Hr Hl]. split; [exact Hr|]. intros o' p e E. rewrite E in Hl. exact (Hl _ eq_refl).
  - intros o. destruct (devices_answered o) as [Hr Hl]. split; [exact Hr|]. intros o' p e E. rewrite E in Hl. exact (Hl _ eq_refl).
  - intros d o Hd. apply bind_returns; [by apply device_key_returns|]. intros k t' _. apply DeleteKV_returns.
Qed.
End Store.

(** ** An example: a folder is paused *)

Module Ex.
Import EncryptionProps ModelStateProps ClusterConfigsProps ModelClusterProps.Ex.
#[local] Existing Instances ex_registry ex_crypto ex_laws list_cache list_cache_laws ex_store.
Definition ex_docs (paused : bool) : FolderConfiguration :=
  {| fc_ID := gostr "docs"; fc_Label := []; fc_FilesystemType := 0; fc_Path := gostr "/d"; fc_Type := FolderTypeSendReceive;
     fc_Devices := [ConfigProps.ex_share ex_me []; ConfigProps.ex_share ObservedProps.ex_device_id []];
     fc_RescanIntervalS := -1; fc_FSWatcherEnabled := true; fc_FSWatcherDelayS := S754_zero false; fc_IgnorePerms := false;
     fc_Versioning := Versioning_Reset; fc_Paused := paused; fc_MarkerName := []; fc_MaxConcurrentWrites := 0;
     fc_DigestCacheEntries := 0 |}.
Definition ex_with (fs : list FolderConfiguration) : Configuration :=
  {| cf_Folders := fs; cf_Devices := [ConfigProps.ex_device ObservedProps.ex_device_id false] |}.
Definition ex_connected : @running IndexHandler.indexHandlerRegistry (gmap bytes bytes) LC LC :=
  {| rn_model := AddConnection ex_cfg ex_conn ModelStateProps.ex_hello (NewModel []); rn_cc := ClusterConfigsProps.ex_state;
     rn_observed := (∅ : gmap bytes bytes); rn_failures := ∅; rn_cfg := ex_with [ex_docs false] |}.
Definition ex_started : @folders IndexHandler.indexHandlerRegistry (gmap bytes bytes) LC LC :=
  {| base := ex_connected; folderCfgs := {[ gostr "docs" := ex_docs false ]}; folderIgnores := {[ gostr "docs" ]}; folderVersioners := ∅;
     folderRunners := sm_Add (gostr "docs") (ex_docs false) sm_new; indexed := ∅; sequences := {[ gostr "docs" := 3 ]}; effects := [] |}.
Definition no_err (_ : bytes) : bool := false.
Definition ex_commit (from to : list FolderConfiguration) := CommitConfiguration (R:=IndexHandler.indexHandlerRegistry) (O:=gmap bytes bytes) (CF:=LC) (CK:=LC)
  no_err no_err no_err (fun _ => true) (fun _ => false) (fun _ => None) ConfigProps.ex_iter no_err false (ex_with from) (ex_with to) ∅ false.
Lemma ex_started_ok : folders_ok (ex_with [ex_docs false]) ex_started.
Proof.
  intros id. unfold FolderMap, run_at. cbn [cf_Folders ex_with fold_left]. change (fc_ID (ex_docs false)) with (gostr "docs").
  cbn [folderCfgs folderRunners ex_started sm_Add sm_new services]. destruct (decide (id = gostr "docs")) as [->|Hne].
  - rewrite !lookup_insert_eq, lookup_singleton_eq. by apply ok_started.
  - by rewrite !lookup_insert_ne, lookup_singleton_ne.
Qed.
Lemma ex_connected_ok : conns_ok (rn_model ex_connected).
Proof.
  destruct (model_new_ok (R:=IndexHandler.indexHandlerRegistry) []) as [Hm Hu].
  exact (proj1 (AddConnection_ok ex_cfg ex_conn ModelStateProps.ex_hello ∅ _ Hm Hu (not_elem_of_empty _))).
Qed.
Lemma configuration_committed_witness : exists s', ex_commit [ex_docs false] [ex_docs true] ex_started = (s', Ret true) /\
  run_at s' (gostr "docs") = stopped /\ (Announced ex_conn ∈ effects s' \/ Closing ex_conn ∈ effects s').
Proof.
  destruct (configuration_committed (R:=IndexHandler.indexHandlerRegistry) (O:=gmap bytes bytes) (CF:=LC) (CK:=LC) no_err no_err no_err (fun _ => true)
    (fun _ => false) (fun _ => None) ConfigProps.ex_iter no_err (fun _ _ => Permutation_refl _) (fun _ => eq_refl) (fun _ => eq_refl) false
    (ex_with [ex_docs false]) (ex_with [ex_docs true]) ∅ false ex_started ex_started_ok ex_connected_ok ltac:(vm_compute; reflexivity)
    ltac:(intros id f Hf; destruct (FolderMap_spec _ _ _ Hf) as [Hin <-]; apply list_elem_of_singleton in Hin as ->; discriminate)
    (observed_store_runs _ _ _ _ _ _ _ _ _ _ _ _ _ ObservedProps.ex_upper _ _ _ _)) as (s' & E & Hok & _ & _ & Hr).
  exists s'. split; [exact E|]. split; [exact (Hok (gostr "docs"))|].
  destruct (Hr ObservedProps.ex_device_id) with (cids := [gostr "c"]) as [ (c & Hc & Hd & _ & He)|Hall].
  - right. exists (gostr "docs"), (ex_docs false). split; [reflexivity|]. split; [reflexivity|]. left. right. left.
  - reflexivity.
  - destruct c as [i d]. cbn in Hc, Hd. injection Hc as <-. subst d. by left.
  - right. destruct (Hall (gostr "c") ltac:(left)) as (c & Hc & He). injection Hc as <-. exact He.
Defined.
(** Another folder has the same path and is paused: its marker is removed with
    the folder that is removed. *)
Definition ex_more : FolderConfiguration :=
  {| fc_ID := gostr "more"; fc_Label := []; fc_FilesystemType := 0; fc_Path := fc_Path (ex_docs false); fc_Type := FolderTypeSendReceive;
     fc_Devices := [ConfigProps.ex_share ex_me []]; fc_RescanIntervalS := -1; fc_FSWatcherEnabled := true; fc_FSWatcherDelayS := S754_zero false;
     fc_IgnorePerms := false; fc_Versioning := Versioning_Reset; fc_Paused := true; fc_MarkerName := []; fc_MaxConcurrentWrites := 0;
     fc_DigestCacheEntries := 0 |}.
Lemma paused_folder_unmarked :
  effects (fst (ex_commit [ex_docs false; ex_more] [ex_more] ex_started)) =
    [Stopped (gostr "docs"); MarkerRemoved (ex_docs false); FolderDropped (gostr "docs"); Announced ex_conn].
Proof. vm_compute. reflexivity. Qed.
End Ex.
